(* ===== verification/_CoqProject ===== *)
-Q . S2P
Prelude.v
Vector.v
PrioHeap.v
EventQueue.v
MessageBuffer.v
Config.v
Address.v
DataBlock.v
NodeSet.v
NetDest.v
Replacement.v
CacheMemory.v
Tables.v
Requests.v
TagArray.v
RccMsg.v
RccL1.v
RccL1Spec.v
RccL1Safe.v
RccL2.v
RccL2Spec.v
RccL2Safe.v
RccSystem.v
RccView.v
RccOrdered.v
SimtStack.v
Scoreboard.v
GpuTags.v
GpuCache.v
GpuCacheSafe.v
TexFifo.v
GpuTex.v
GpuTexSafe.v
MessageSize.v
NetBuffers.v
PerfectSwitch.v
PerfectSwitchSafe.v
Throttle.v
ThrottleSafe.v
Topology.v
TopologySafe.v
Routing.v
Crossbar.v
SimpleNetwork.v
NetworkSafe.v
NetworkDelivery.v
Coalescer.v
CoalescerSafe.v
LocalMemory.v
Barrier.v
Warps.v
FrontEnd.v
FrontEndSafe.v
FrontEndRuns.v
ScFence.v
RubyMshr.v
Sequencer.v
RubyPort.v
RubyMshrSafe.v
SequencerSafe.v
RubyPortSafe.v
RubyL1.v
RubyRuns.v
FifoPipeline.v
AddrDec.v
AddrDecSafe.v
