(* ===== verification/Prelude.v ===== *)
(** Relativistic cache coherence: a verification library for the simulator of this repository.

    The program. A GPU timing model, GPGPU-Sim (src/src/gpgpu-sim, src/src/abstract_hardware_model.cc),
    runs thread blocks on shader cores; a memory-system simulator, Ruby of GEMS
    (src/src/gems-2.1.1/ruby_clean, src/src/gems-2.1.1/common), simulates their caches, coherence and
    network. The coherence protocols are state machines in SLICC (src/src/gems-2.1.1/protocols);
    relativistic cache coherence (RCC) is tardis-VI-*.sm. A memory access goes through these parts:
    a warp is fetched, decoded and issued (front end), its lanes are coalesced into accesses, the
    accesses merge in the registers of [ruby_wrapper] and go by the sequencer of the core to its L1
    controller, over the network to a bank of the L2, to memory, and back the same way by callbacks.
    Everything Ruby does is driven by one queue of events.

    The library. Definitions have the names of the code and are in the order of the code's calls.
    Functions are partial ([option]): [None] is a failed assertion, an access out of range or a null
    pointer, so that a theorem that an operation returns says that it cannot fail. Assertions are
    written [assert! b]. Machine integers are [Z] with their wrap-around written out ([u64], [s32],
    ...). Every file whose name ends in Safe or Spec holds the proofs of the file named before it.

    Base (src/src/gems-2.1.1/common, ruby_clean/common, ruby_clean/config).
    - Prelude: notations, automation, machine integers, lemmas on lists and maps that files share.
    - Vector: Vector.h. PrioHeap: PrioHeap.h; extraction sorts, with 32-bit indices.
    - EventQueue: EventQueue.C, Consumer.h; [triggerEvents] ends and fires in order. The wakeup of a
      consumer, a virtual method, is an argument that only schedules events in the future; the
      theorem shows that some fuel is enough.
    - MessageBuffer: MessageBuffer.C as a timed FIFO, refined to lists.
    - Config: RubyConfig.C and util.C. Address: Address.h and the address maps of
      RubySlicc_ComponentMapping.h. DataBlock: DataBlock.C and SubBlock.C.
    - NodeSet: OptBigSet.C as finite sets. NetDest: NetDest.C as sets of machines.

    Caches and tables of Ruby (ruby_clean/system).
    - Replacement: LRUPolicy.h and PseudoLRUPolicy.h behind the class [ReplacementPolicy].
    - CacheMemory: CacheMemory.h. TagArray: the class through which the controllers use it, with
      its laws, and the instance.
    - Tables: TBETable.h, TimerTable.C, PerfectCacheMemory.h, Map.h. Requests: AddrQueueMap.h,
      RequestCwidMap.C, StoreQueueMap.C, RequestRecorder.C, GlobalWriteVector.C, MemfetchSet.C,
      CtaWarpAddrMap.C.

    The protocol (protocols/tardis-VI-*.sm).
    - RccMsg: messages. RccL1, RccL2: both controllers with every state, event, action, transition
      and port, run by the code SLICC generates ([L1_doTransition], [L2_doTransition]).
    - RccL1Spec, RccL2Spec: a machine for one block and the proof that the controller is one such
      machine for every block. RccL1Safe, RccL2Safe: no request or response makes a controller
      fail, leases and write times are ordered.
    - RccSystem: L1s and banks with a network that only delivers what was sent; every load is ordered
      between writes (claims on timestamp order), and a counterexample after an eviction.

    The network (ruby_clean/network/simple).
    - MessageSize, NetBuffers: message sizes and the shared store of buffers.
    - PerfectSwitch, Throttle: crossbars and links; Topology, Routing, Crossbar: the generated
      topologies, shortest paths and routing tables; SimpleNetwork: the network built from them.
    - PerfectSwitchSafe, ThrottleSafe, TopologySafe, NetworkSafe, NetworkDelivery: each part loses and
      duplicates nothing, the paths are shortest, and the whole delivers in every order of wakeups.
      Fuel: the loop over a port is given one more than the length of its queue, [send_messages] one
      more than the bandwidth of the link, [extend_shortest_path] one more than the sum of the
      weights; the theorems show that each loop ends before.

    The shader core (src/src/gpgpu-sim/shader.cc and shader.h, abstract_hardware_model.cc).
    - SimtStack: simt_stack; its loop equals a reference update, lanes stay in lockstep.
    - Scoreboard: scoreboard.cc and the counts of the load/store unit; no hazards.
    - Coalescer, CoalescerSafe: warp_inst_t::generate_mem_accesses; what each access serves.
    - LocalMemory: blocks per core and local addresses; Barrier: barrier_set_t; Warps: shd_warp_t.
    - FrontEnd: blocks, fetch, decode, loose round-robin scheduling, issue and exit of threads. The
      functional simulator ([ptx_exec_inst], [ptx_fetch_inst], [ptx_sim_init_thread]), the
      instruction cache and the stall of the load/store unit are arguments; what they may answer is
      stated where the theorem uses it, with the assertions of the functional simulator that say so.
    - FrontEndSafe, FrontEndRuns: the invariant of the front end and its runs. ScFence: the fence of
      sequential consistency, and a warp it holds for ever.
    - GpuTags, GpuCache, GpuCacheSafe: cache_config, tag_array, mshr_table and the caches of
      gpu-cache.h and gpu-cache.cc. TexFifo, GpuTex, GpuTexSafe: the texture cache.

    From the core to Ruby (src/src/gpgpu-sim/ruby_wrapper.cc, ruby_clean/system/Sequencer.C,
    ruby_clean/interfaces/GpusimInterface.C, ruby_clean/gpusim_ruby).
    - RubyMshr: ruby_mshr_table. Sequencer: Sequencer.C with the class [L1Tags] for what it asks
      of the L1 cache; RubyL1: CacheMemory as an instance. RubyPort: ruby_wrapper, the conversions
      and the clients of the load/store unit; the L1 controller is a move that answers any message.
    - RubyMshrSafe, SequencerSafe, RubyPortSafe, RubyRuns: the invariants and the runs: no assertion
      fails, no access is lost or answered twice, and all are answered. Hypotheses: the configuration
      is well formed, lines have more than one byte, write acknowledgements are on, the
      latency to the controller is positive, which the code asserts.

    What is not modelled, and why. Profilers, recorders, statistics, histograms, debugging and
    visualisation only observe or print. The functional simulator of PTX (src/src/cuda-sim), the
    CUDA and OpenCL runtimes (src/libcuda, src/libopencl), the parsers and cuobjdump_to_ptxplus
    decide what instructions compute, which the timing model takes as given. Garnet and
    intersim are other networks, the other .sm files other protocols, Simics and Opal other
    drivers, which this configuration does not use; orion is a power model in floating point.
    Of the shader core the two-level scheduler, the operand collector and the pipelines of the
    functional units are left out; of Ruby the transactional tables, store buffers and Bloom
    filters, which no code of RCC reaches. The manifest lists each part. *)
From stdpp Require Export base tactics option list numbers gmap sorting.
From Stdlib Require Export ZArith Lia.

#[export] Set Warnings "-clear-no-such-hyp".
#[global] Open Scope Z_scope.

(** ** Scope, notations and the assertion monad *)
Declare Scope ruby_scope.
Delimit Scope ruby_scope with ruby.

Notation "'assert!' b ; k" := (if b then k else None)
  (at level 20, b at level 99, k at level 200,
   format "'[v' 'assert!'  b ; '/' k ']'") : ruby_scope.
#[global] Open Scope ruby_scope.

#[global] Arguments Nat.div : simpl never.
#[global] Arguments Nat.mul : simpl never.
#[global] Arguments Nat.modulo : simpl never.
#[global] Arguments Z.pow : simpl never.
#[global] Arguments Z.shiftl : simpl never.
#[global] Arguments Z.shiftr : simpl never.

(** ** Machine integers *)
Definition u32 (z : Z) : Z := z `mod` 2 ^ 32.
Definition u64 (z : Z) : Z := z `mod` 2 ^ 64.
Definition s32 (z : Z) : Z := (z + 2 ^ 31) `mod` 2 ^ 32 - 2 ^ 31.
Definition s64 (z : Z) : Z := (z + 2 ^ 63) `mod` 2 ^ 64 - 2 ^ 63.

Lemma u32_small z : 0 <= z < 2 ^ 32 -> u32 z = z.
Proof. intros H. unfold u32. by apply Z.mod_small. Qed.

Lemma u64_small z : 0 <= z < 2 ^ 64 -> u64 z = z.
Proof. intros H. unfold u64. by apply Z.mod_small. Qed.

Lemma s32_small z : - 2 ^ 31 <= z < 2 ^ 31 -> s32 z = z.
Proof. intros H. unfold s32. rewrite Z.mod_small; lia. Qed.

Lemma s64_small z : - 2 ^ 63 <= z < 2 ^ 63 -> s64 z = z.
Proof. intros H. unfold s64. rewrite Z.mod_small; lia. Qed.

Lemma u32_bounds z : 0 <= u32 z < 2 ^ 32.
Proof. unfold u32. apply Z.mod_pos_bound. lia. Qed.

Lemma u64_bounds z : 0 <= u64 z < 2 ^ 64.
Proof. unfold u64. apply Z.mod_pos_bound. lia. Qed.

(** C division of [base * size + index]. *)
Lemma quot_base a b c : 0 <= a -> 0 <= c < b -> Z.quot (a * b + c) b = a.
Proof.
  intros Ha Hc. rewrite Z.quot_div_nonneg by (try apply Z.add_nonneg_nonneg; try apply Z.mul_nonneg_nonneg; lia).
  rewrite Z.div_add_l by lia. rewrite Z.div_small by lia. lia.
Qed.

(** ** Bit fields *)
(** The masks the C++ code builds: [~0 << n] keeps the bits from [n] on, its
    complement the bits below [n]. *)
Definition ones64 : Z := 2 ^ 64 - 1.
Definition not64 (z : Z) : Z := Z.lxor z ones64.

Lemma ones64_ones : ones64 = Z.ones 64.
Proof. reflexivity. Qed.

Lemma land_1 z : Z.land z 1 = Z.b2z (Z.testbit z 0).
Proof. change 1 with (Z.ones 1). rewrite Z.land_ones by lia. symmetry. apply Z.bit0_mod. Qed.

Lemma testbit_ones64 i : 0 <= i -> Z.testbit ones64 i = bool_decide (i < 64).
Proof.
  intros Hi. rewrite ones64_ones. destruct (decide (i < 64)).
  - rewrite Z.ones_spec_low by lia. by rewrite bool_decide_eq_true_2.
  - rewrite Z.ones_spec_high by lia. by rewrite bool_decide_eq_false_2.
Qed.

Lemma testbit_u64 z i : 0 <= i -> Z.testbit (u64 z) i = bool_decide (i < 64) && Z.testbit z i.
Proof.
  intros Hi. unfold u64. destruct (decide (i < 64)).
  - rewrite Z.mod_pow2_bits_low by lia. by rewrite bool_decide_eq_true_2.
  - rewrite Z.mod_pow2_bits_high by lia. by rewrite bool_decide_eq_false_2.
Qed.

Lemma testbit_small z n i : 0 <= z < 2 ^ n -> n <= i -> Z.testbit z i = false.
Proof.
  intros Hz Hi. destruct (decide (0 <= n)); [|rewrite Z.pow_neg_r in Hz; lia].
  rewrite <-(Z.mod_small z (2 ^ n)) by done. apply Z.mod_pow2_bits_high. lia.
Qed.

(** [a & ~(~0 << n)] is [a mod 2^n]. *)
Lemma land_low_mask a n :
  0 <= a < 2 ^ 64 -> 0 <= n < 64 ->
  Z.land a (not64 (u64 (Z.shiftl ones64 n))) = a `mod` 2 ^ n.
Proof.
  intros Ha Hn. apply Z.bits_inj'. intros i Hi. unfold not64.
  rewrite Z.land_spec, Z.lxor_spec, testbit_u64, testbit_ones64, Z.shiftl_spec by lia.
  destruct (decide (i < n)) as [Hin|Hin].
  - rewrite Z.mod_pow2_bits_low by lia. rewrite (Z.testbit_neg_r _ (i - n)) by lia.
    rewrite andb_false_r. rewrite bool_decide_eq_true_2 by lia. by rewrite andb_true_r.
  - rewrite Z.mod_pow2_bits_high by lia. rewrite testbit_ones64 by lia.
    destruct (decide (i < 64)).
    + rewrite !bool_decide_eq_true_2 by lia. by rewrite andb_false_r.
    + rewrite (testbit_small a 64 i) by lia. done.
Qed.

(** [a & (~0 << n)] clears the low [n] bits. *)
Lemma land_high_mask a n :
  0 <= a < 2 ^ 64 -> 0 <= n < 64 ->
  Z.land a (u64 (Z.shiftl ones64 n)) = a `div` 2 ^ n * 2 ^ n.
Proof.
  intros Ha Hn. rewrite <-Z.shiftr_div_pow2, <-Z.shiftl_mul_pow2 by lia.
  apply Z.bits_inj'. intros i Hi.
  rewrite Z.land_spec, testbit_u64, !Z.shiftl_spec by lia.
  destruct (decide (i < n)) as [Hin|Hin].
  - rewrite !(Z.testbit_neg_r _ (i - n)) by lia. by rewrite !andb_false_r.
  - rewrite Z.shiftr_spec, testbit_ones64 by lia. rewrite Z.sub_add.
    destruct (decide (i < 64)).
    + rewrite !bool_decide_eq_true_2 by lia. by rewrite !andb_true_r.
    + by rewrite (testbit_small a 64 i) by lia.
Qed.

Lemma lor_disjoint_add a b n :
  0 <= n -> 0 <= b < 2 ^ n -> Z.lor (a * 2 ^ n) b = a * 2 ^ n + b.
Proof.
  intros Hn Hb. rewrite <-Z.add_lor_land. enough (Z.land (a * 2 ^ n) b = 0) by lia.
  apply Z.bits_inj'. intros i Hi.
  rewrite Z.land_spec, Z.bits_0. destruct (decide (i < n)).
  - rewrite <-Z.shiftl_mul_pow2, Z.shiftl_spec, Z.testbit_neg_r by lia. done.
  - rewrite (testbit_small b n i) by lia. apply andb_false_r.
Qed.

(** ** Lists *)
Section lists.
Context {A : Type}.
Implicit Types (l : list A) (x y : A).

Lemma insert_Permutation l i x y :
  l !! i = Some x -> x :: <[i := y]> l ≡ₚ y :: l.
Proof.
  intros Hx. rewrite (delete_Permutation l i x Hx) at 2.
  rewrite insert_take_drop by eauto using lookup_lt_Some.
  rewrite delete_take_drop. solve_Permutation.
Qed.
End lists.

(** ** Tactics *)
(** Runs the assertion monad: splits every test and bind of a hypothesis
    that says a computation returned a value. *)
Ltac run_step H :=
  match type of H with
  | (if ?b then _ else None) = Some _ => destruct b eqn:?; [|discriminate H]
  | mbind _ _ = Some _ =>
      let x := fresh "x" in let E := fresh "E" in apply bind_Some in H as (x & E & H)
  | Some _ = Some _ => injection H as H
  end.
Ltac run H := repeat run_step H.

(** A computation returns a value that satisfies [P] if its first step does
    return and the rest does so from there. *)
Lemma bind_ex {A B} (m : option A) (k : A -> option B) (P : B -> Prop) :
  (exists y, m = Some y /\ exists z, k y = Some z /\ P z) -> exists z, m ≫= k = Some z /\ P z.
Proof. intros (y & -> & z & Hz & HP). by exists z. Qed.

(** ** Sums *)
Definition total (l : list Z) : Z := foldr Z.add 0 l.
Lemma total_app l k : total (l ++ k) = total l + total k.
Proof. unfold total. induction l as [|x l IH]; [done|]. cbn in *. lia. Qed.
Lemma total_perm l k : l ≡ₚ k -> total l = total k.
Proof. unfold total. induction 1; cbn in *; lia. Qed.
Lemma total_insert l k x y : l !! k = Some x -> total (<[k := y]> l) + x = total l + y.
Proof.
  unfold total. revert k. induction l as [|z l IH]; intros [|k] H; [done..| |].
  - injection H as ->. cbn. lia.
  - specialize (IH k H). change (z + foldr Z.add 0 (<[k := y]> l) + x = z + foldr Z.add 0 l + y). lia.
Qed.
