(* ===== verification/Vector.v ===== *)
(** The growable array of [common/Vector.h], on which the heaps, caches and
    bloom filters of the simulator are built. *)
From S2P Require Import Prelude.

(** A default-constructed element ([TYPE()]) fills fresh storage. *)
Class Default (A : Type) := default : A.

Section vector.
Context {A : Type} `{Default A}.

(** [m_vec] is the allocated storage; [m_size] of its cells are in use. *)
Record Vector := mkVector { m_vec : list A; m_size : Z; m_max_size : Z }.

Definition Vector_new : Vector := mkVector [] 0 0.

(** [ref], and the assignment through it ([ref(i) = x]). *)
Definition ref (v : Vector) (index : Z) : option A :=
  assert! negb (m_size v =? 0);
  assert! index <? m_size v;
  assert! 0 <=? index;
  m_vec v !! Z.to_nat index.

Definition set_ref (v : Vector) (index : Z) (x : A) : option Vector :=
  assert! negb (m_size v =? 0);
  assert! index <? m_size v;
  assert! 0 <=? index;
  Some (mkVector (<[Z.to_nat index := x]> (m_vec v)) (m_size v) (m_max_size v)).

Definition grow (v : Vector) (new_max_size : Z) : Vector :=
  let kept := take (Z.to_nat (m_size v)) (m_vec v) in
  mkVector (kept ++ replicate (Z.to_nat new_max_size - length kept) default)
    (m_size v) new_max_size.

Definition setSize (v : Vector) (new_size : Z) : option Vector :=
  let v := if m_max_size v <? new_size
           then grow v (Z.max ((m_max_size v + 1) * 2) new_size) else v in
  assert! new_size <=? m_max_size v;
  assert! 0 <=? new_size;
  Some (mkVector (m_vec v) new_size (m_max_size v)).

Definition expand (v : Vector) (num : Z) : option Vector := setSize v (m_size v + num).

(** The constructor with an initial capacity. *)
Definition Vector_sized (initial_size : Z) : Vector := grow (mkVector [] 0 initial_size) initial_size.

(** The copy constructor; assignment does the same unless it is to itself. *)
Definition Vector_copy (vec : Vector) : Vector :=
  let kept := take (Z.to_nat (m_size vec)) (m_vec vec) in
  mkVector (kept ++ replicate (Z.to_nat (m_max_size vec) - length kept) default)
    (m_size vec) (m_max_size vec).

Definition vclear (v : Vector) : Vector := Vector_new.

Fixpoint fill_from (v : Vector) (j : Z) (n : nat) (x : A) : option Vector :=
  match n with
  | O => Some v
  | S n => v ← set_ref v j x; fill_from v (j + 1) n x
  end.

Definition increaseSize (v : Vector) (new_size : Z) (reset : A) : option Vector :=
  assert! m_size v <=? new_size;
  let old_size := m_size v in
  let v := if m_max_size v <=? new_size
           then grow v (Z.max ((m_max_size v + 1) * 2) new_size) else v in
  fill_from (mkVector (m_vec v) new_size (m_max_size v))
    old_size (Z.to_nat (new_size - old_size)) reset.

(** [for (int i = m_size-1; i >= 1; i--) ref(i) = ref(i-1);] *)
Fixpoint shift_up (v : Vector) (i : nat) : option Vector :=
  match i with
  | O => Some v
  | S p => x ← ref v (Z.of_nat p); v ← set_ref v (Z.of_nat i) x; shift_up v p
  end.

Definition insertAtTop (v : Vector) (element : A) : option Vector :=
  v ← setSize v (m_size v + 1);
  v ← shift_up v (Z.to_nat (m_size v - 1));
  set_ref v 0 element.

Definition insertAtBottom (v : Vector) (element : A) : option Vector :=
  v ← setSize v (m_size v + 1);
  set_ref v (m_size v - 1) element.

(** [m_vec[i] = m_vec[i+num]] on the raw storage: out of it, undefined. *)
Fixpoint shift_down (vec : list A) (i : Z) (n : nat) (num : Z) : option (list A) :=
  match n with
  | O => Some vec
  | S n =>
      assert! 0 <=? i + num;
      x ← vec !! Z.to_nat (i + num);
      shift_down (<[Z.to_nat i := x]> vec) (i + 1) n num
  end.

Definition removeFromTop (v : Vector) (num : Z) : option Vector :=
  let num := if m_size v <? num then m_size v else num in
  vec ← shift_down (m_vec v) 0 (Z.to_nat (m_size v - num)) num;
  Some (mkVector vec (m_size v - num) (m_max_size v)).

(** ** Well-formedness and the abstract contents *)
Definition vec_wf (v : Vector) : Prop :=
  0 <= m_size v <= m_max_size v /\ Z.of_nat (length (m_vec v)) = m_max_size v.

Definition contents (v : Vector) : list A := take (Z.to_nat (m_size v)) (m_vec v).

(** ** Lemmas *)
Implicit Types (v w : Vector) (x y : A) (i j : Z).

Lemma length_contents v : vec_wf v -> Z.of_nat (length (contents v)) = m_size v.
Proof. intros [? ?]. unfold contents. rewrite length_take. lia. Qed.

Lemma contents_lookup v (k : nat) :
  Z.of_nat k < m_size v -> contents v !! k = m_vec v !! k.
Proof. intros Hk. unfold contents. apply lookup_take_lt. lia. Qed.

(** [ref] reads the contents, and aborts exactly out of range. *)
Lemma ref_contents v i :
  vec_wf v -> ref v i = if decide (0 <= i) then contents v !! Z.to_nat i else None.
Proof.
  intros [Hs Hl]. unfold ref.
  destruct (decide (0 <= i)) as [Hi|]; [|by repeat case_match; try lia].
  destruct (decide (i < m_size v)).
  - rewrite contents_lookup by lia. by repeat case_match; try lia.
  - rewrite (lookup_ge_None_2 (contents v)) by (unfold contents; rewrite length_take; lia).
    by repeat case_match; try lia.
Qed.

Lemma set_ref_Some v i x :
  0 <= i < m_size v ->
  set_ref v i x = Some (mkVector (<[Z.to_nat i := x]> (m_vec v)) (m_size v) (m_max_size v)).
Proof. intros Hi. unfold set_ref. by repeat case_match; try lia. Qed.

Lemma set_ref_spec v i x :
  vec_wf v -> 0 <= i < m_size v ->
  exists w, set_ref v i x = Some w /\ vec_wf w /\ m_size w = m_size v /\
            contents w = <[Z.to_nat i := x]> (contents v).
Proof.
  intros [Hs Hl] Hi. rewrite set_ref_Some by done. eexists; split_and!; [done|..].
  - split; simpl; [lia|]. by rewrite length_insert.
  - done.
  - unfold contents; simpl. by rewrite take_insert_lt by lia.
Qed.

Lemma grow_wf v n : vec_wf v -> m_size v <= n -> vec_wf (grow v n).
Proof.
  intros [Hs Hl] Hn. split; simpl; [lia|].
  rewrite length_app, length_replicate, length_take. lia.
Qed.

Lemma grow_contents v n : vec_wf v -> contents (grow v n) = contents v.
Proof.
  intros [Hs Hl]. unfold contents; simpl.
  rewrite take_app_le by (rewrite length_take; lia). by rewrite take_take, Nat.min_id.
Qed.

(** Changing the size keeps what the old and the new size share; the cells
    above are whatever the storage holds. *)
Lemma setSize_spec v n :
  vec_wf v -> 0 <= n ->
  exists w, setSize v n = Some w /\ vec_wf w /\ m_size w = n /\
            take (Z.to_nat (m_size v)) (contents w) = take (Z.to_nat n) (contents v).
Proof.
  intros Hwf Hn. unfold setSize.
  set (w := if m_max_size v <? n then _ else v).
  assert (vec_wf w /\ contents w = contents v /\ n <= m_max_size w /\ m_size w = m_size v)
    as ([Hs Hl] & Hc & Hm & Hsz).
  { destruct Hwf as [Hs Hl]. subst w. destruct (Z.ltb_spec (m_max_size v) n); simpl.
    - split_and!; [apply grow_wf; [by split|lia]|by apply grow_contents|lia|done].
    - by split_and!. }
  destruct (Z.leb_spec n (m_max_size w)), (Z.leb_spec 0 n); try lia.
  eexists; split_and!; [done|split; simpl; lia|done|].
  rewrite <-Hc. unfold contents; simpl. rewrite !take_take, Hsz. f_equal; lia.
Qed.

Lemma setSize_grow_spec v n :
  vec_wf v -> m_size v <= n ->
  exists w, setSize v n = Some w /\ vec_wf w /\ m_size w = n /\
            take (Z.to_nat (m_size v)) (contents w) = contents v.
Proof.
  intros Hwf Hn. pose proof (length_contents v Hwf).
  destruct (setSize_spec v n) as (w & -> & Hw & Hsz & Hc); [done|destruct Hwf; lia|].
  exists w; split_and!; try done. rewrite Hc, take_ge; [done|lia].
Qed.

Lemma ref_nat v (k : nat) : vec_wf v -> ref v (Z.of_nat k) = contents v !! k.
Proof. intros. rewrite ref_contents by done. rewrite decide_True by lia. by rewrite Nat2Z.id. Qed.

Lemma set_ref_nat v (k : nat) x :
  vec_wf v -> (k < length (contents v))%nat ->
  exists w, set_ref v (Z.of_nat k) x = Some w /\ vec_wf w /\ m_size w = m_size v /\
            contents w = <[k := x]> (contents v).
Proof.
  intros Hv Hk. pose proof (length_contents v Hv).
  destruct (set_ref_spec v (Z.of_nat k) x) as (w & ?); [done|lia|].
  exists w. by rewrite Nat2Z.id in *.
Qed.

Lemma insertAtBottom_spec v x :
  vec_wf v ->
  exists w, insertAtBottom v x = Some w /\ vec_wf w /\ contents w = contents v ++ [x].
Proof.
  intros Hwf. unfold insertAtBottom.
  destruct (setSize_grow_spec v (m_size v + 1)) as (w & -> & Hw & Hsz & Hc); [done|lia|]; simpl.
  pose proof (length_contents v Hwf). pose proof (length_contents w Hw).
  assert (0 <= m_size v) by apply Hwf.
  destruct (set_ref_spec w (m_size w - 1) x) as (w' & -> & Hw' & Hsz' & Hc'); [done|lia|].
  exists w'; split_and!; [done|done|]. rewrite Hc', <-Hc.
  rewrite insert_take_drop by lia. replace (Z.to_nat (m_size w - 1)) with (Z.to_nat (m_size v)) by lia.
  rewrite drop_ge by lia. done.
Qed.

Lemma shift_up_spec (n : nat) v :
  vec_wf v -> Z.of_nat n < m_size v ->
  exists w, shift_up v n = Some w /\ vec_wf w /\ m_size w = m_size v /\
    forall k, contents w !! k =
      if decide (0 < k <= n)%nat then contents v !! pred k else contents v !! k.
Proof.
  revert v; induction n as [|n IH]; intros v Hwf Hn; cbn [shift_up].
  { exists v; split_and!; try done. intros k. by case_decide; [lia|]. }
  pose proof (length_contents v Hwf) as Hlen.
  destruct (lookup_lt_is_Some_2 (contents v) n) as [x Hx]; [lia|].
  rewrite ref_contents by done. case_decide; [|lia]. rewrite Nat2Z.id, Hx; simpl.
  destruct (set_ref_spec v (Z.of_nat (S n)) x) as (w & -> & Hw & Hsz & Hc); [done|lia|]; simpl.
  destruct (IH w) as (w' & -> & Hw' & Hsz' & Hc'); [done|lia|].
  exists w'; split_and!; [done|done|lia|]. intros k. rewrite Hc', Hc, Nat2Z.id.
  destruct (decide (k = S n)) as [->|].
  - rewrite !decide_False, decide_True, list_lookup_insert_eq by lia. done.
  - do 2 case_decide; try lia; rewrite list_lookup_insert_ne by lia; done.
Qed.

Lemma insertAtTop_spec v x :
  vec_wf v ->
  exists w, insertAtTop v x = Some w /\ vec_wf w /\ contents w = x :: contents v.
Proof.
  intros Hwf. unfold insertAtTop.
  destruct (setSize_grow_spec v (m_size v + 1)) as (w & -> & Hw & Hsz & Hc); [done|lia|]; simpl.
  assert (0 <= m_size v) by apply Hwf. pose proof (length_contents v Hwf).
  destruct (shift_up_spec (Z.to_nat (m_size w - 1)) w) as (u & -> & Hu & Hus & Huc);
    [done|lia|]; simpl.
  pose proof (length_contents w Hw). pose proof (length_contents u Hu).
  destruct (set_ref_spec u 0 x) as (w' & -> & Hw' & Hsz' & Hc'); [done|lia|].
  exists w'; split_and!; [done|done|]. apply list_eq; intros [|k]; rewrite Hc'; simpl.
  { by rewrite list_lookup_insert_eq by lia. }
  rewrite list_lookup_insert_ne by done. rewrite Huc. rewrite <-Hc; simpl.
  destruct (decide (k < Z.to_nat (m_size v))%nat).
  - rewrite decide_True by lia. by rewrite lookup_take_lt by lia.
  - rewrite decide_False by lia. rewrite lookup_take_ge by lia.
    apply lookup_ge_None_2. lia.
Qed.

Lemma shift_down_spec (n : nat) (l : list A) i (num : Z) :
  0 <= i -> 0 <= num -> i + Z.of_nat n + num <= Z.of_nat (length l) ->
  exists l', shift_down l i n num = Some l' /\ length l' = length l /\
    forall k : nat, l' !! k = if decide (i <= Z.of_nat k < i + Z.of_nat n)
                              then l !! (k + Z.to_nat num)%nat else l !! k.
Proof.
  revert l i; induction n as [|n IH]; intros l i Hi Hnum Hlen; cbn [shift_down].
  { exists l; split_and!; try done. intros k. by case_decide; [lia|]. }
  destruct (Z.leb_spec 0 (i + num)); [|lia].
  destruct (lookup_lt_is_Some_2 l (Z.to_nat (i + num))) as [x Hx]; [lia|]. rewrite Hx; simpl.
  destruct (IH (<[Z.to_nat i := x]> l) (i + 1)) as (l' & -> & Hl' & Hk);
    [lia|lia|rewrite length_insert; lia|].
  exists l'; split_and!; [done|by rewrite Hl', length_insert|].
  intros k. rewrite Hk. destruct (decide (Z.of_nat k = i)) as [<-|].
  - rewrite decide_False, decide_True by lia. rewrite Nat2Z.id, list_lookup_insert_eq by lia.
    rewrite <-Hx. f_equal. lia.
  - do 2 case_decide; try lia; rewrite list_lookup_insert_ne by lia; done.
Qed.

Lemma Vector_sized_spec n :
  0 <= n -> vec_wf (Vector_sized n) /\ contents (Vector_sized n) = [].
Proof.
  intros Hn. unfold Vector_sized, grow, contents, vec_wf; simpl.
  rewrite length_replicate. split_and!; lia || done.
Qed.

Lemma Vector_copy_spec v :
  vec_wf v -> vec_wf (Vector_copy v) /\ contents (Vector_copy v) = contents v.
Proof.
  intros [Hs Hl]. unfold Vector_copy, contents, vec_wf; simpl.
  rewrite length_app, length_replicate, length_take. split_and!; [lia..|].
  rewrite take_app_le by (rewrite length_take; lia). rewrite take_take. f_equal. lia.
Qed.

(** [removeFromTop] drops the first [num] elements (all of them when there
    are fewer). *)
Lemma removeFromTop_spec v num :
  vec_wf v -> 0 <= num ->
  exists w, removeFromTop v num = Some w /\ vec_wf w /\
            contents w = drop (Z.to_nat num) (contents v).
Proof.
  intros Hwf Hnum. assert (Hwf' := Hwf). destruct Hwf' as [Hs Hl]. unfold removeFromTop.
  pose proof (length_contents v Hwf).
  set (m := if m_size v <? num then m_size v else num).
  assert (Hm : m = Z.min (m_size v) num) by (subst m; destruct (Z.ltb_spec (m_size v) num); lia).
  destruct (shift_down_spec (Z.to_nat (m_size v - m)) (m_vec v) 0 m)
    as (l' & -> & Hl' & Hk); [lia..|]; simpl.
  eexists; split_and!; [done|split; simpl; lia|].
  apply list_eq; intros k. unfold contents at 1; simpl. rewrite lookup_drop.
  destruct (decide (Z.of_nat k < m_size v - m)).
  - rewrite lookup_take_lt by lia. rewrite Hk, decide_True by lia.
    rewrite contents_lookup by lia. f_equal. lia.
  - rewrite lookup_take_ge by lia. symmetry. apply lookup_ge_None_2. lia.
Qed.

(** ** Vectors of fixed size as lists *)
(** A component whose vector keeps its size after construction is modelled by
    the vector's contents; these are [ref] and assignment on them. *)
Definition cell (l : list A) (index : Z) : option A :=
  assert! 0 <=? index; l !! Z.to_nat index.

Definition set_cell (l : list A) (index : Z) (x : A) : option (list A) :=
  assert! (0 <=? index) && (index <? Z.of_nat (length l));
  Some (<[Z.to_nat index := x]> l).

Lemma ref_cell v i : vec_wf v -> ref v i = cell (contents v) i.
Proof.
  intros Hv. rewrite ref_contents by done. unfold cell.
  case_decide; destruct (Z.leb_spec 0 i); done || lia.
Qed.

Lemma set_ref_cell v i x :
  vec_wf v -> contents <$> set_ref v i x = set_cell (contents v) i x.
Proof.
  intros Hv. unfold set_cell. rewrite (length_contents v Hv).
  destruct (decide (0 <= i < m_size v)) as [Hi|Hi].
  - destruct (set_ref_spec v i x Hv Hi) as (w & -> & _ & _ & Hw). simpl.
    by rewrite (proj2 (andb_true_iff _ _)), Hw by lia.
  - replace ((0 <=? i) && (i <? m_size v)) with false by lia.
    unfold set_ref. destruct (negb _); [|done]. by repeat case_match; try lia.
Qed.

Lemma cell_nat (l : list A) (k : nat) : cell l (Z.of_nat k) = l !! k.
Proof. unfold cell. destruct (Z.leb_spec 0 (Z.of_nat k)); [|lia]. by rewrite Nat2Z.id. Qed.

Lemma cell_Some (l : list A) i x :
  cell l i = Some x <-> 0 <= i /\ l !! Z.to_nat i = Some x.
Proof. unfold cell. destruct (Z.leb_spec 0 i); [|naive_solver lia]. naive_solver. Qed.

Lemma cell_range (l : list A) i : 0 <= i < Z.of_nat (length l) -> is_Some (cell l i).
Proof.
  intros Hi. unfold cell. destruct (Z.leb_spec 0 i); [|lia]. apply lookup_lt_is_Some_2. lia.
Qed.

Lemma set_cell_Some (l : list A) i x :
  0 <= i < Z.of_nat (length l) -> set_cell l i x = Some (<[Z.to_nat i := x]> l).
Proof. intros Hi. unfold set_cell. by rewrite (proj2 (andb_true_iff _ _)) by lia. Qed.

Lemma set_cell_inv (l l' : list A) i x :
  set_cell l i x = Some l' ->
  0 <= i < Z.of_nat (length l) /\ l' = <[Z.to_nat i := x]> l /\ length l' = length l.
Proof.
  unfold set_cell. destruct ((0 <=? i) && _) eqn:E; [|done]. intros [= <-].
  rewrite length_insert. split_and!; done || lia.
Qed.

Lemma cell_set (l l' : list A) i j x :
  set_cell l i x = Some l' -> cell l' j = if decide (j = i) then Some x else cell l j.
Proof.
  intros (Hi & -> & _)%set_cell_inv. unfold cell. destruct (Z.leb_spec 0 j); case_decide; try lia; try done.
  - subst. apply list_lookup_insert_eq. lia.
  - apply list_lookup_insert_ne. lia.
Qed.
End vector.
#[global] Arguments Vector A : clear implicits.
