(* ===== verification/PrioHeap.v ===== *)
(** The binary heap of [common/PrioHeap.h]: a 1-based array heap over
    [Vector], ordered by the element type's [node_less_then_eq]. *)
From S2P Require Import Prelude Vector.

(** What the heap needs of its element type: the comparison the C++ code
    calls (which may fail an assertion) and the total preorder it computes. *)
Class PrioNode (A : Type) := {
  node_less_then_eq : A -> A -> option bool;
  node_leb : A -> A -> bool;
  node_leb_total x y : node_leb x y = true \/ node_leb y x = true;
  node_leb_trans x y z : node_leb x y = true -> node_leb y z = true -> node_leb x z = true;
  node_lte_sound x y b : node_less_then_eq x y = Some b -> b = node_leb x y;
}.

Section heap.
Context {A : Type} `{Default A} `{PrioNode A}.

Record PrioHeap := mkHeap { m_heap : Vector A; m_current_size : Z }.

Definition init (h : PrioHeap) : PrioHeap := mkHeap (m_heap h) 0.
Definition PrioHeap_new : PrioHeap := init (mkHeap Vector_new 0).
Definition size (h : PrioHeap) : Z := s32 (m_current_size h).

(** [HeapIndex] is a 32-bit unsigned integer. *)
Definition get_parent (i : Z) : Z := Z.shiftr i 1.
Definition get_right (i : Z) : Z := Z.lor (u32 (Z.shiftl i 1)) 1.
Definition get_left (i : Z) : Z := u32 (Z.shiftl i 1).

(** The loop of [insert]: parents move down until [key] fits at [i]. *)
Fixpoint sift_up (fuel : nat) (v : Vector A) (key : A) (i : Z) : option (Vector A * Z) :=
  match fuel with
  | O => None
  | S fuel =>
      if 1 <? i then
        p ← ref v (get_parent i);
        le ← node_less_then_eq key p;
        if (le : bool) then v ← set_ref v i p; sift_up fuel v key (get_parent i)
        else Some (v, i)
      else Some (v, i)
  end.

Definition insert (h : PrioHeap) (key : A) : option PrioHeap :=
  let n := u32 (m_current_size h + 1) in
  v ← setSize (m_heap h) (s32 (n + 1));
  v ← (if n =? 1 then set_ref v 0 key else Some v);
  '(v, i) ← sift_up (S (Z.to_nat n)) v key (s32 n);
  v ← set_ref v i key;
  Some (mkHeap v n).

Definition peekMin (h : PrioHeap) : option A :=
  assert! 0 <? size h; ref (m_heap h) 1.

Definition peekElement (h : PrioHeap) (index : Z) : option A :=
  assert! 0 <? size h; ref (m_heap h) index.

Definition prio_heap_swap (v : Vector A) (a b : Z) : option (Vector A) :=
  x ← ref v a; y ← ref v b; v ← set_ref v a y; set_ref v b x.

(** One candidate of the "smallest of the node and its children" test. *)
Definition smaller_child (v : Vector A) (n child current : Z) : option Z :=
  if child <=? n then
    x ← ref v child; y ← ref v current;
    le ← node_less_then_eq x y;
    Some (if (le : bool) then child else current)
  else Some current.

Fixpoint heapify_from (fuel : nat) (v : Vector A) (n current_node : Z) : option (Vector A) :=
  match fuel with
  | O => None
  | S fuel =>
      smallest ← smaller_child v n (get_left current_node) current_node;
      smallest ← smaller_child v n (get_right current_node) smallest;
      if smallest =? current_node then Some v
      else v ← prio_heap_swap v current_node smallest; heapify_from fuel v n smallest
  end.

Definition heapify (h : PrioHeap) : option PrioHeap :=
  v ← heapify_from (S (Z.to_nat (m_current_size h))) (m_heap h) (m_current_size h) 1;
  Some (mkHeap v (m_current_size h)).

Definition extractMin (h : PrioHeap) : option (A * PrioHeap) :=
  assert! 0 <? size h;
  temp ← ref (m_heap h) 1;
  last ← ref (m_heap h) (s32 (m_current_size h));
  v ← set_ref (m_heap h) 1 last;
  h ← heapify (mkHeap v (u32 (m_current_size h - 1)));
  Some (temp, h).

Fixpoint verifyHeap_from (fuel : nat) (h : PrioHeap) (index : Z) : option bool :=
  match fuel with
  | O => None
  | S fuel =>
      let below :=
        r ← verifyHeap_from fuel h (get_right index);
        if (r : bool) then verifyHeap_from fuel h (get_left index) else Some false in
      if m_current_size h <? index then Some true
      else if index =? 1 then below
      else
        p ← ref (m_heap h) (get_parent index);
        x ← ref (m_heap h) index;
        le ← node_less_then_eq p x;
        if (le : bool) then below else Some false
  end.

Definition verifyHeap (h : PrioHeap) : option bool :=
  verifyHeap_from (S (Z.to_nat (m_current_size h))) h 1.

(** ** The invariant *)
(** Cells [1 .. n] of an array. *)
Definition body (n : nat) (l : list A) : list A := take n (drop 1 l).

(** The stored elements, in array order: cells [1 .. m_current_size]. *)
Definition elems (h : PrioHeap) : list A :=
  body (Z.to_nat (m_current_size h)) (contents (m_heap h)).

(** The size stays clear of the overflow of the index arithmetic. *)
Definition heap_wf (h : PrioHeap) : Prop :=
  vec_wf (m_heap h) /\ 0 <= m_current_size h < 2 ^ 30 /\
  (0 < m_current_size h -> m_current_size h < m_size (m_heap h)).

(** Cell [j] of an array is not below its parent. *)
Definition ord (l : list A) (j : nat) : Prop :=
  forall p x, l !! (j / 2)%nat = Some p -> l !! j = Some x -> node_leb p x = true.

Definition heap_ordered (l : list A) (n : nat) : Prop :=
  forall j, (2 <= j <= n)%nat -> ord l j.

Definition heap_inv (h : PrioHeap) : Prop :=
  heap_wf h /\ heap_ordered (contents (m_heap h)) (Z.to_nat (m_current_size h)).

(** Any two distinct entries can be compared without a failed assertion. *)
Definition comparable (l : list A) : Prop :=
  forall i j x y, i <> j -> l !! i = Some x -> l !! j = Some y ->
    is_Some (node_less_then_eq x y).

(** ** Lists as heaps *)
Implicit Types (l : list A) (x y p : A) (h : PrioHeap).

Lemma comparable_Permutation l1 l2 : l1 ≡ₚ l2 -> comparable l1 -> comparable l2.
Proof.
  intros [_ (f & Hf & Hl)]%symmetry%Permutation_inj Hc i j x y Hij.
  rewrite !Hl. apply Hc. intros ?%(inj f). done.
Qed.

Lemma comparable_cons x l : comparable (x :: l) -> comparable l.
Proof. intros Hc i j y z Hij Hi Hj. apply (Hc (S i) (S j)); simpl; auto with lia. Qed.

Lemma body_lookup n l k : (1 <= k <= n)%nat -> body n l !! (k - 1)%nat = l !! k.
Proof. intros Hk. unfold body. rewrite lookup_take_lt, lookup_drop by lia. f_equal; lia. Qed.

Lemma comparable_body n l i j x y :
  comparable (body n l) -> (1 <= i <= n)%nat -> (1 <= j <= n)%nat -> i <> j ->
  l !! i = Some x -> l !! j = Some y -> node_less_then_eq x y = Some (node_leb x y).
Proof.
  intros Hc Hi Hj Hij Hx Hy.
  destruct (Hc (i - 1) (j - 1) x y)%nat as [b Hb]; [lia|by rewrite body_lookup..|].
  by rewrite Hb, (node_lte_sound _ _ _ Hb).
Qed.

Lemma body_insert n l i x :
  (1 <= i <= n)%nat -> body n (<[i := x]> l) = <[(i - 1)%nat := x]> (body n l).
Proof.
  intros Hi. apply list_eq; intros k. unfold body.
  destruct (decide (k < n)%nat).
  2:{ rewrite lookup_take_ge by lia. symmetry. apply lookup_ge_None_2.
      rewrite length_insert, length_take. lia. }
  rewrite lookup_take_lt, lookup_drop, !list_lookup_insert by lia.
  rewrite lookup_take_lt, lookup_drop by lia.
  rewrite length_take, length_drop. do 2 case_decide; (done || lia).
Qed.

Lemma body_swap n l i j x y :
  (1 <= i <= n)%nat -> (1 <= j <= n)%nat -> l !! i = Some x -> l !! j = Some y ->
  body n (<[j := x]> (<[i := y]> l)) ≡ₚ body n l.
Proof.
  intros Hi Hj Hx Hy. rewrite !body_insert by lia.
  apply Permutation_insert_swap; by rewrite body_lookup.
Qed.

Lemma leb_refl x : node_leb x x = true.
Proof. by destruct (node_leb_total x x). Qed.

Lemma leb_false x y : node_leb x y = false -> node_leb y x = true.
Proof. destruct (node_leb_total x y); congruence. Qed.

(** The root of an ordered array is its least element. *)
Lemma heap_ordered_root l n p :
  heap_ordered l n -> l !! 1%nat = Some p -> (n < length l)%nat ->
  forall k x, (1 <= k <= n)%nat -> l !! k = Some x -> node_leb p x = true.
Proof.
  intros Ho Hp Hn k. induction k as [k IH] using lt_wf_ind; intros x Hk Hx.
  destruct (decide (k = 1)%nat) as [->|]; [simplify_eq; apply leb_refl|].
  destruct (lookup_lt_is_Some_2 l (k / 2)%nat) as [q Hq]; [pose proof (Nat.div_lt k 2); lia|].
  apply node_leb_trans with q.
  - apply (IH (k / 2)%nat); [apply Nat.div_lt; lia| |done].
    pose proof (Nat.div_lt k 2). pose proof (Nat.div_le_lower_bound k 2 1). lia.
  - apply (Ho k); [lia|done|done].
Qed.

(** ** Moving up *)
Lemma get_parent_nat (k : nat) : get_parent (Z.of_nat k) = Z.of_nat (k / 2).
Proof. unfold get_parent. rewrite Z.shiftr_div_pow2 by lia. rewrite Nat2Z.inj_div. done. Qed.

Lemma get_left_nat (k : nat) : Z.of_nat k < 2 ^ 30 -> get_left (Z.of_nat k) = Z.of_nat (2 * k).
Proof.
  intros. unfold get_left. rewrite Z.shiftl_mul_pow2, u32_small by lia. lia.
Qed.

Lemma get_right_nat (k : nat) :
  Z.of_nat k < 2 ^ 30 -> get_right (Z.of_nat k) = Z.of_nat (2 * k + 1).
Proof.
  intros. unfold get_right. rewrite Z.shiftl_mul_pow2, u32_small by lia.
  pose proof (Z.add_lor_land (Z.of_nat k * 2 ^ 1) 1) as E.
  change 1 with (Z.ones 1) in E at 4. rewrite Z.land_ones, Z.mod_mul in E by lia. lia.
Qed.

(** The array with [key] written into the hole at [i]: everything is ordered
    but the hole and its parent, and the hole's children are above that
    parent. *)
Definition up_inv (l : list A) (n i : nat) : Prop :=
  (forall j, (2 <= j <= n)%nat -> j <> i -> ord l j) /\
  (forall j q x, (j / 2 = i)%nat -> (1 < i)%nat -> (j <= n)%nat ->
     l !! (i / 2)%nat = Some q -> l !! j = Some x -> node_leb q x = true).

Lemma up_inv_step l n i key p :
  up_inv l n i -> (1 < i <= n)%nat -> l !! i = Some key -> l !! (i / 2)%nat = Some p ->
  node_leb key p = true -> up_inv (<[(i / 2)%nat := key]> (<[i := p]> l)) n (i / 2)%nat.
Proof.
  intros [Ho Hg] Hi Hk Hp Hle.
  assert (Hlt : (i / 2 < i)%nat) by (apply Nat.div_lt; lia).
  assert (Hlen : (i < length l)%nat) by eauto using lookup_lt_Some.
  set (l' := <[_ := key]> _).
  assert (H1 : l' !! (i / 2)%nat = Some key)
    by (apply list_lookup_insert_eq; rewrite length_insert; lia).
  assert (H2 : l' !! i = Some p)
    by (unfold l'; rewrite list_lookup_insert_ne by lia; by apply list_lookup_insert_eq).
  assert (H3 : forall k, k <> i -> k <> (i / 2)%nat -> l' !! k = l !! k)
    by (intros; unfold l'; by rewrite !list_lookup_insert_ne by done).
  clearbody l'. split.
  - intros j Hj Hne q x Hq Hx.
    assert ((j / 2 < j)%nat) by (apply Nat.div_lt; lia).
    destruct (decide (j = i)) as [->|Hji]; [congruence|]. rewrite H3 in Hx by done.
    destruct (decide (j / 2 = i / 2)%nat) as [E|Hp2].
    { apply node_leb_trans with p; [congruence|]. apply (Ho j); first [lia | congruence]. }
    destruct (decide (j / 2 = i)%nat) as [E|Hp3].
    { apply (Hg j); first [lia | congruence]. }
    rewrite H3 in Hq by done. by apply (Ho j).
  - intros j q x Hj2 Hi2 Hj Hq Hx.
    assert ((i / 2 / 2 < i / 2)%nat) by (apply Nat.div_lt; lia).
    rewrite H3 in Hq by lia.
    assert (node_leb q p = true) by (apply (Ho (i / 2)%nat); first [lia | congruence]).
    destruct (decide (j = i)) as [->|Hji]; [congruence|].
    assert (j <> 0)%nat by (intros ->; change (0 / 2)%nat with 0%nat in *; lia).
    assert ((j / 2 < j)%nat) by (apply Nat.div_lt; lia). rewrite H3 in Hx by lia.
    apply node_leb_trans with p; [done|]. apply (Ho j); first [lia | congruence].
Qed.

Lemma sift_up_spec fuel v key (n i : nat) :
  vec_wf v -> (1 <= i <= n)%nat -> (n < length (contents v))%nat -> (i < fuel)%nat ->
  comparable (body n (<[i := key]> (contents v))) -> up_inv (<[i := key]> (contents v)) n i ->
  exists v' i', sift_up fuel v key (Z.of_nat i) = Some (v', Z.of_nat i') /\ vec_wf v' /\
    m_size v' = m_size v /\ (1 <= i' <= n)%nat /\
    heap_ordered (<[i' := key]> (contents v')) n /\
    body n (<[i' := key]> (contents v')) ≡ₚ body n (<[i := key]> (contents v)).
Proof.
  revert v i; induction fuel as [|fuel IH]; intros v i Hv Hi Hn Hf Hc Hu; [lia|].
  cbn [sift_up]. destruct (Z.ltb_spec 1 (Z.of_nat i)); last first.
  { exists v, i; split_and!; try done || lia. intros j Hj. apply Hu; lia. }
  assert (Hlt : (i / 2 < i)%nat) by (apply Nat.div_lt; lia).
  assert (Hpos : (1 <= i / 2)%nat) by (apply (Nat.div_le_lower_bound i 2 1); lia).
  rewrite get_parent_nat, ref_nat by done.
  destruct (lookup_lt_is_Some_2 (contents v) (i / 2)%nat) as [p Hp]; [lia|]. rewrite Hp; simpl.
  set (l := <[i := key]> (contents v)) in *.
  assert (Hlk : l !! i = Some key) by (by apply list_lookup_insert_eq; lia).
  assert (Hlp : l !! (i / 2)%nat = Some p) by (unfold l; by rewrite list_lookup_insert_ne by lia).
  rewrite (comparable_body n l i (i / 2)%nat key p) by (done || lia); simpl.
  destruct (node_leb key p) eqn:Hle.
  - destruct (set_ref_nat v i p) as (w & -> & Hw & Hsz & Hcw); [done|lia|]; simpl.
    assert (Hl' : <[(i / 2)%nat := key]> (contents w) = <[(i / 2)%nat := key]> (<[i := p]> l)).
    { rewrite Hcw. unfold l. by rewrite list_insert_insert_eq. }
    assert (Hperm : body n (<[(i / 2)%nat := key]> (contents w)) ≡ₚ body n l)
      by (rewrite Hl'; apply body_swap; (done || lia)).
    destruct (IH w (i / 2)%nat) as (v' & i' & -> & ? & ? & ? & ? & Hb); [done|lia|..].
    + rewrite Hcw, length_insert. lia.
    + lia.
    + by eapply comparable_Permutation; [symmetry; apply Hperm|].
    + rewrite Hl'. apply up_inv_step; (done || lia).
    + exists v', i'. split_and!; try done || lia. by rewrite Hb.
  - exists v, i; split_and!; try done || lia. intros j Hj.
    destruct (decide (j = i)) as [->|]; [|by apply Hu].
    intros q x Hq Hx. fold l in Hq, Hx. simplify_eq. by apply leb_false.
Qed.

(** ** Moving down *)
Lemma prio_heap_swap_spec v (i j : nat) x y :
  vec_wf v -> contents v !! i = Some x -> contents v !! j = Some y ->
  exists w, prio_heap_swap v (Z.of_nat i) (Z.of_nat j) = Some w /\ vec_wf w /\
    m_size w = m_size v /\ contents w = <[j := x]> (<[i := y]> (contents v)).
Proof.
  intros Hv Hx Hy. unfold prio_heap_swap. rewrite !ref_nat, Hx, Hy by done; simpl.
  destruct (set_ref_nat v i y) as (w & -> & Hw & Hsz & Hc); [done|eauto using lookup_lt_Some|].
  destruct (set_ref_nat w j x) as (u & Hu & ? & ? & Hcu); [done| |].
  { rewrite Hc, length_insert. eauto using lookup_lt_Some. }
  simpl. rewrite Hu. exists u; split_and!; [done|done|lia|]. by rewrite Hcu, Hc.
Qed.

Lemma smaller_child_spec v (n child cur : nat) :
  vec_wf v -> (n < length (contents v))%nat -> comparable (body n (contents v)) ->
  (1 <= cur)%nat -> (cur < child)%nat \/ (1 <= child < cur)%nat /\ (cur <= n)%nat ->
  exists s : nat,
    smaller_child v (Z.of_nat n) (Z.of_nat child) (Z.of_nat cur) = Some (Z.of_nat s) /\
    (s = cur \/ s = child /\ (child <= n)%nat) /\
    (forall x y, contents v !! s = Some x -> contents v !! cur = Some y -> node_leb x y = true) /\
    (forall x y, (child <= n)%nat -> contents v !! s = Some x -> contents v !! child = Some y ->
       node_leb x y = true).
Proof.
  intros Hv Hn Hc Hcur Hch. unfold smaller_child.
  destruct (Z.leb_spec (Z.of_nat child) (Z.of_nat n)); last first.
  { exists cur; split_and!; [done|by left| |lia]. intros; simplify_eq; apply leb_refl. }
  destruct (lookup_lt_is_Some_2 (contents v) child) as [x Hx]; [lia|].
  destruct (lookup_lt_is_Some_2 (contents v) cur) as [y Hy]; [lia|].
  rewrite !ref_nat, Hx, Hy by done; simpl.
  rewrite (comparable_body n (contents v) child cur x y) by (done || lia); simpl.
  destruct (node_leb x y) eqn:Hle.
  - exists child; split_and!; [done|right; lia|..]; intros; simplify_eq; auto using leb_refl.
  - exists cur; split_and!; [done|by left|..]; intros; simplify_eq; auto using leb_refl, leb_false.
Qed.

(** Everything is ordered but the children of [c], which are above [c]'s
    parent. *)
Definition down_inv (l : list A) (n c : nat) : Prop :=
  (forall j, (2 <= j <= n)%nat -> (j / 2)%nat <> c -> ord l j) /\
  (forall j q x, (j / 2)%nat = c -> (1 < c)%nat -> (j <= n)%nat ->
     l !! (c / 2)%nat = Some q -> l !! j = Some x -> node_leb q x = true).

Lemma half_cases (j c : nat) : (j / 2)%nat = c -> j = (2 * c)%nat \/ j = (2 * c + 1)%nat.
Proof. intros <-. pose proof (Nat.div_mod_eq j 2). pose proof (Nat.mod_upper_bound j 2). lia. Qed.

Lemma double_half (c s : nat) : s = (2 * c)%nat \/ s = (2 * c + 1)%nat -> (s / 2)%nat = c.
Proof.
  intros [-> | ->]; [by rewrite Nat.mul_comm, Nat.div_mul|].
  symmetry. apply Nat.div_unique with 1%nat; lia.
Qed.

Lemma down_inv_step l n c s x y :
  down_inv l n c -> (1 <= c)%nat -> s = (2 * c)%nat \/ s = (2 * c + 1)%nat -> (s <= n)%nat ->
  l !! c = Some x -> l !! s = Some y -> node_leb y x = true ->
  (forall j z, (j / 2)%nat = c -> (j <= n)%nat -> l !! j = Some z -> node_leb y z = true) ->
  down_inv (<[s := x]> (<[c := y]> l)) n s.
Proof.
  intros [Ho Hg] Hc Hs Hsn Hx Hy Hle Hch. apply double_half in Hs as Hs2.
  assert (Hl1 : (c < length l)%nat) by eauto using lookup_lt_Some.
  assert (Hl2 : (s < length l)%nat) by eauto using lookup_lt_Some.
  set (l' := <[s := x]> _).
  assert (H1 : l' !! s = Some x) by (apply list_lookup_insert_eq; rewrite length_insert; lia).
  assert (H2 : l' !! c = Some y)
    by (unfold l'; rewrite list_lookup_insert_ne by lia; by apply list_lookup_insert_eq).
  assert (H3 : forall k, k <> c -> k <> s -> l' !! k = l !! k)
    by (intros; unfold l'; by rewrite !list_lookup_insert_ne by done).
  clearbody l'. split.
  - intros j Hj Hne q z Hq Hz.
    assert ((j / 2 < j)%nat) by (apply Nat.div_lt; lia).
    destruct (decide (j = s)) as [->|]; [congruence|].
    destruct (decide (j / 2 = c)%nat) as [E|].
    { assert (q = y) as -> by congruence. apply (Hch j); [done|lia|]. by rewrite <-H3 by lia. }
    rewrite H3 in Hq by done.
    destruct (decide (j = c)) as [->|].
    { assert (z = y) as -> by congruence. by apply (Hg s); [done|lia|lia| |]. }
    rewrite H3 in Hz by done. by apply (Ho j).
  - intros j q z Hj2 Hs1 Hj Hq Hz.
    assert (j <> 0)%nat by (intros ->; change (0 / 2)%nat with 0%nat in *; lia).
    assert ((j / 2 < j)%nat) by (apply Nat.div_lt; lia).
    rewrite Hs2 in Hq. assert (q = y) as -> by congruence.
    rewrite H3 in Hz by lia. apply (Ho j); first [lia | congruence].
Qed.

Lemma heapify_from_spec fuel v (n c : nat) :
  vec_wf v -> (1 <= c)%nat -> Z.of_nat c < 2 ^ 30 -> Z.of_nat n < 2 ^ 30 ->
  (n < length (contents v))%nat -> (n - c < fuel)%nat ->
  comparable (body n (contents v)) -> down_inv (contents v) n c ->
  exists w, heapify_from fuel v (Z.of_nat n) (Z.of_nat c) = Some w /\ vec_wf w /\
    m_size w = m_size v /\ heap_ordered (contents w) n /\
    body n (contents w) ≡ₚ body n (contents v).
Proof.
  revert v c; induction fuel as [|fuel IH]; intros v c Hv Hc Hcb Hnb Hn Hf Hcmp Hd; [lia|].
  cbn [heapify_from]. rewrite get_left_nat, get_right_nat by lia.
  destruct (smaller_child_spec v n (2 * c) c) as (s1 & -> & Hs1 & Hle1 & Hl1);
    [done..|lia|]; simpl.
  destruct (smaller_child_spec v n (2 * c + 1) s1) as (s2 & -> & Hs2 & Hle2 & Hl2);
    [done|done|done|lia|lia|]; simpl.
  assert (Hmin : forall j y z, (j / 2)%nat = c -> (j <= n)%nat ->
            contents v !! s2 = Some y -> contents v !! j = Some z -> node_leb y z = true).
  { intros j y z Hj Hjn Hy Hz. apply half_cases in Hj as [-> | ->]; [|by apply Hl2].
    destruct (lookup_lt_is_Some_2 (contents v) s1) as [u Hu]; [lia|].
    apply node_leb_trans with u; auto. }
  destruct (Z.eqb_spec (Z.of_nat s2) (Z.of_nat c)) as [Heq|Hne].
  - exists v; split_and!; try done. intros j Hj p x Hp Hx.
    destruct (decide (j / 2 = c)%nat) as [E|]; [|by apply (proj1 Hd j)].
    apply Nat2Z.inj in Heq as ->. apply (Hmin j); first [lia | congruence].
  - destruct (lookup_lt_is_Some_2 (contents v) c) as [x Hx]; [lia|].
    destruct (lookup_lt_is_Some_2 (contents v) s2) as [y Hy]; [lia|].
    destruct (lookup_lt_is_Some_2 (contents v) s1) as [u Hu]; [lia|].
    destruct (prio_heap_swap_spec v c s2 x y) as (w & -> & Hw & Hsz & Hcw); [done..|]; simpl.
    assert (Hperm : body n (contents w) ≡ₚ body n (contents v))
      by (rewrite Hcw; apply body_swap; (done || lia)).
    destruct (IH w s2) as (w' & -> & ? & ? & ? & Hb); [done|lia|lia|lia|..].
    + rewrite Hcw, !length_insert. lia.
    + lia.
    + by eapply comparable_Permutation; [symmetry; apply Hperm|].
    + rewrite Hcw. apply down_inv_step with (c := c); try done || lia.
      * apply node_leb_trans with u; auto.
      * eauto.
    + exists w'. split_and!; try done || lia. by rewrite Hb.
Qed.

#[local] Arguments sift_up : simpl never.
#[local] Arguments heapify_from : simpl never.

(** ** The operations *)
Lemma body_agree N l l' :
  (forall k, (1 <= k <= N)%nat -> l !! k = l' !! k) -> body N l = body N l'.
Proof.
  intros Hl. apply list_eq; intros k. unfold body. rewrite !lookup_take, !lookup_drop.
  case_decide; [apply Hl; lia|done].
Qed.

Lemma body_S N l x : l !! S N = Some x -> body (S N) l = body N l ++ [x].
Proof. intros Hx. unfold body. apply take_S_r. by rewrite lookup_drop. Qed.

Lemma ord_agree l l' j :
  l !! (j / 2)%nat = l' !! (j / 2)%nat -> l !! j = l' !! j -> ord l j -> ord l' j.
Proof. intros E1 E2 Ho p x. rewrite <-E1, <-E2. apply Ho. Qed.

Lemma PrioHeap_new_inv : heap_inv PrioHeap_new.
Proof.
  split; [split_and!; simpl; try lia; split; simpl; lia|]. intros j Hj. simpl in *. lia.
Qed.

Lemma length_elems h : heap_wf h -> Z.of_nat (length (elems h)) = m_current_size h.
Proof.
  intros (Hv & Hb & Hs). pose proof (length_contents _ Hv).
  unfold elems, body. rewrite length_take, length_drop. lia.
Qed.

Lemma insert_correct h key :
  heap_inv h -> m_current_size h + 1 < 2 ^ 30 -> comparable (key :: elems h) ->
  exists h', insert h key = Some h' /\ heap_inv h' /\ elems h' ≡ₚ key :: elems h /\
             m_current_size h' = m_current_size h + 1.
Proof.
  intros [(Hv & Hb & Hs) Ho] Hlt Hc. unfold insert, elems in *.
  set (N := Z.to_nat (m_current_size h)) in *.
  assert (HN : m_current_size h = Z.of_nat N) by lia. rewrite HN in *. clear HN.
  rewrite u32_small by lia. rewrite !s32_small by lia.
  destruct (setSize_spec (m_heap h) (Z.of_nat N + 1 + 1)) as (w & -> & Hw & Hsz & Hcw);
    [done|lia|]; simpl.
  pose proof (length_contents w Hw) as Hlw.
  assert (Hag : forall k, (1 <= k <= N)%nat -> contents w !! k = contents (m_heap h) !! k).
  { intros k Hk. transitivity (take (Z.to_nat (m_size (m_heap h))) (contents w) !! k).
    - by rewrite lookup_take_lt by lia.
    - rewrite Hcw. by rewrite lookup_take_lt by lia. }
  assert (exists u, (if Z.of_nat N + 1 =? 1 then set_ref w 0 key else Some w) = Some u /\
            vec_wf u /\ m_size u = m_size w /\
            forall k, (1 <= k)%nat -> contents u !! k = contents w !! k)
    as (u & -> & Hu & Hus & Huk).
  { case_match; [|by exists w].
    destruct (set_ref_nat w 0 key) as (u & ? & ? & ? & Hcu); [done|lia|].
    exists u; split_and!; try done. intros k Hk. rewrite Hcu. apply list_lookup_insert_ne. lia. }
  simpl. clear Hcw. pose proof (length_contents u Hu) as Hlu.
  replace (Z.of_nat N + 1) with (Z.of_nat (S N)) by lia.
  assert (Hbody : body (S N) (<[S N := key]> (contents u)) ≡ₚ key :: body N (contents (m_heap h))).
  { rewrite (body_S N _ key) by (apply list_lookup_insert_eq; lia).
    rewrite (body_agree N _ (contents (m_heap h))); [solve_Permutation|].
    intros k Hk. rewrite list_lookup_insert_ne, Huk by lia. apply Hag; lia. }
  destruct (sift_up_spec (S (Z.to_nat (Z.of_nat (S N)))) u key (S N) (S N))
    as (v' & i' & -> & Hv' & Hsv & Hi' & Hho & Hp); [done|lia|lia|lia|..].
  { by eapply comparable_Permutation; [symmetry; apply Hbody|]. }
  { split.
    - intros j Hj Hne. apply (ord_agree (contents (m_heap h))); [..|apply Ho; lia].
      + assert (j / 2 < j)%nat by (apply Nat.div_lt; lia).
        assert (1 <= j / 2)%nat by (apply (Nat.div_le_lower_bound j 2 1); lia).
        rewrite list_lookup_insert_ne, Huk by lia. symmetry. apply Hag; lia.
      + rewrite list_lookup_insert_ne, Huk by lia. symmetry. apply Hag; lia.
    - intros j q x Hj2 _ Hj. assert (j <> 0)%nat by (intros ->; change (0 / 2)%nat with 0%nat in *; lia).
      assert (j / 2 < j)%nat by (apply Nat.div_lt; lia). lia. }
  simpl. pose proof (length_contents v' Hv').
  destruct (set_ref_nat v' i' key) as (r & -> & Hr & Hrs & Hcr); [done|lia|]; simpl.
  eexists; split_and!; [done|split; [split_and!|]|..]; simpl; try done || lia.
  - by rewrite Nat2Z.id, Hcr.
  - rewrite Nat2Z.id, Hcr, Hp. done.
Qed.

Lemma extractMin_correct h :
  heap_inv h -> 0 < m_current_size h -> comparable (elems h) ->
  exists x h', extractMin h = Some (x, h') /\ heap_inv h' /\ elems h ≡ₚ x :: elems h' /\
    m_current_size h' = m_current_size h - 1 /\ peekMin h = Some x /\
    forall y, y ∈ elems h -> node_leb x y = true.
Proof.
  intros [(Hv & Hb & Hs) Ho] Hpos Hc. unfold extractMin, peekMin, heapify, size, elems in *.
  rewrite !s32_small by lia. destruct (Z.ltb_spec 0 (m_current_size h)); [|lia].
  pose proof (length_contents (m_heap h) Hv) as Hl.
  assert (exists N, m_current_size h = Z.of_nat (S N)) as [N HN].
  { exists (pred (Z.to_nat (m_current_size h))). lia. }
  rewrite HN in *. clear HN. rewrite Nat2Z.id in *.
  destruct (lookup_lt_is_Some_2 (contents (m_heap h)) 1) as [x Hx]; [lia|].
  destruct (lookup_lt_is_Some_2 (contents (m_heap h)) (S N)) as [y Hy]; [lia|].
  assert (Hr1 : ref (m_heap h) 1 = Some x)
    by (change 1 with (Z.of_nat 1); by rewrite ref_nat).
  rewrite Hr1, ref_nat, Hy by done; simpl.
  destruct (set_ref_nat (m_heap h) 1 y) as (w & Hset & Hw & Hsz & Hcw); [done|lia|].
  change (Z.of_nat 1) with 1 in Hset. rewrite Hset; simpl.
  assert (Hperm : body (S N) (contents (m_heap h)) ≡ₚ x :: body N (contents w)).
  { rewrite (body_S N _ y) by done. rewrite Hcw. destruct N as [|N].
    - simplify_eq. done.
    - rewrite body_insert by lia. rewrite (insert_Permutation _ 0 x y).
      + solve_Permutation.
      + change 0%nat with (1 - 1)%nat. by rewrite body_lookup by lia. }
  rewrite u32_small by lia. replace (Z.of_nat (S N) - 1) with (Z.of_nat N) by lia.
  destruct (heapify_from_spec (S (Z.to_nat (Z.of_nat N))) w N 1)
    as (w' & Hw' & Hwf' & Hs' & Ho' & Hb'); try done || lia.
  { rewrite Hcw, length_insert. lia. }
  { eapply comparable_cons, comparable_Permutation; [apply Hperm|done]. }
  { split; [|lia]. intros j Hj Hne. apply (ord_agree (contents (m_heap h))); [..|apply Ho; lia];
      rewrite Hcw, list_lookup_insert_ne; done || lia. }
  change (Z.of_nat 1) with 1 in Hw'. rewrite Hw'; simpl.
  eexists x, _; split_and!; [done|split; [split_and!|]|..]; simpl; try done || lia.
  - by rewrite Nat2Z.id.
  - by rewrite Nat2Z.id, Hb'.
  - intros z Hz. apply list_elem_of_lookup in Hz as [k Hk]. unfold body in Hk.
    assert (k < S N)%nat by (apply lookup_lt_Some in Hk; rewrite length_take in Hk; lia).
    rewrite lookup_take_lt, lookup_drop in Hk by lia.
    by apply (heap_ordered_root (contents (m_heap h)) (S N) x Ho Hx ltac:(lia) (S k)); [lia|].
Qed.

(** ** Priority queue behaviour of whole runs *)
(** Insert every key of a list, then extract until the heap is empty. *)
Fixpoint insert_all (h : PrioHeap) (l : list A) : option PrioHeap :=
  match l with
  | [] => Some h
  | key :: l => h ← insert h key; insert_all h l
  end.

Fixpoint extract_all (fuel : nat) (h : PrioHeap) : option (list A) :=
  match fuel with
  | O => None
  | S fuel =>
      if 0 <? size h then
        '(x, h) ← extractMin h; l ← extract_all fuel h; Some (x :: l)
      else Some []
  end.

Lemma comparable_tail l x : comparable (x :: l) -> comparable l.
Proof. intros Hc i j y z Hij Hi Hj. by apply (Hc (S i) (S j) y z); [lia|..]. Qed.

Lemma insert_all_correct l h :
  heap_inv h -> m_current_size h + Z.of_nat (length l) < 2 ^ 30 -> comparable (l ++ elems h) ->
  exists h', insert_all h l = Some h' /\ heap_inv h' /\ elems h' ≡ₚ l ++ elems h.
Proof.
  revert h. induction l as [|key l IH]; intros h Hh Hb Hc; simpl; [by exists h|].
  simpl in Hb. destruct (insert_correct h key Hh) as (h1 & -> & Hh1 & Hp & Hsz); simpl.
  { lia. }
  { clear -Hc. simpl in Hc. apply (comparable_Permutation (elems h ++ [key])); [solve_Permutation|].
    induction l as [|y l IH]; simpl in *.
    - eapply comparable_Permutation; [|exact Hc]. solve_Permutation.
    - apply IH. apply (comparable_tail _ y). eapply comparable_Permutation; [|exact Hc].
      solve_Permutation. }
  destruct (IH h1 Hh1) as (h2 & -> & Hh2 & Hp2); [lia| |].
  { eapply comparable_Permutation; [|exact Hc]. rewrite Hp. solve_Permutation. }
  exists h2; split_and!; [done..|]. rewrite Hp2, Hp. solve_Permutation.
Qed.

Lemma extract_all_S fuel h :
  extract_all (S fuel) h =
    if 0 <? size h then '(x, h) ← extractMin h; l ← extract_all fuel h; Some (x :: l)
    else Some [].
Proof. done. Qed.

Lemma extract_all_correct n h :
  heap_inv h -> comparable (elems h) -> length (elems h) = n ->
  exists l, extract_all (S n) h = Some l /\ l ≡ₚ elems h /\
            StronglySorted (fun x y => node_leb x y = true) l.
Proof.
  revert h. induction n as [|n IH]; intros h Hh Hc Hn;
    pose proof (length_elems h (proj1 Hh)) as Hl; rewrite Hn in Hl;
    pose proof (proj1 (proj2 (proj1 Hh))) as Hsz; rewrite extract_all_S; unfold size;
    rewrite s32_small by lia.
  { destruct (Z.ltb_spec 0 (m_current_size h)); [lia|].
    apply nil_length_inv in Hn. rewrite Hn. exists []; split_and!; [done..|constructor]. }
  destruct (Z.ltb_spec 0 (m_current_size h)); [|lia].
  destruct (extractMin_correct h) as (x & h' & -> & Hh' & Hp & _ & _ & Hmin); [done..|].
  assert (Hc' : comparable (elems h'))
    by (by eapply comparable_tail, comparable_Permutation; [symmetry|]).
  destruct (IH h' Hh' Hc') as (l & Hr & Hp' & Hs).
  { apply Permutation_length in Hp. simpl in Hp. lia. }
  cbn [mbind option_bind]. rewrite Hr. exists (x :: l); split_and!; [done| |].
  - by rewrite Hp', Hp.
  - constructor; [done|]. apply Forall_forall. intros y Hy. apply Hmin.
    rewrite Hp. right. by rewrite <-Hp'.
Qed.

(** C37: inserting any list of comparable keys into an empty heap and then
    extracting until it is empty runs without a failed assertion or an index
    out of range, and returns the keys in sorted order. *)
Theorem heap_sorts (l : list A) :
  Z.of_nat (length l) < 2 ^ 30 -> comparable l ->
  exists h out, insert_all PrioHeap_new l = Some h /\
    extract_all (S (length l)) h = Some out /\ out ≡ₚ l /\
    StronglySorted (fun x y => node_leb x y = true) out.
Proof.
  intros Hb Hc.
  destruct (insert_all_correct l PrioHeap_new) as (h & Hi & Hh & Hp);
    [apply PrioHeap_new_inv|done| |].
  { rewrite app_nil_r. done. }
  rewrite app_nil_r in Hp.
  destruct (extract_all_correct (length l) h) as (out & Ho & Hpo & Hs); [done| |by rewrite Hp|].
  { by eapply comparable_Permutation; [symmetry|]. }
  exists h, out; split_and!; [done..|by rewrite Hpo|done].
Qed.
End heap.
#[global] Arguments PrioHeap A : clear implicits.

(** Integer keys, for the witness. *)
#[local] Instance Z_default : Default Z := 0.
#[local] Program Instance Z_prio : PrioNode Z := {
  node_less_then_eq x y := Some (x <=? y); node_leb x y := x <=? y }.
Next Obligation. intros x y. rewrite !Z.leb_le. lia. Qed.
Next Obligation. intros x y z. rewrite !Z.leb_le. lia. Qed.
Next Obligation. by intros x y b [= <-]. Qed.

Example heap_sorts_example :
  (h ← insert_all PrioHeap_new [5; 3; 8; 1; 3]; extract_all 6 h) = Some [1; 3; 3; 5; 8].
Proof. reflexivity. Qed.

Lemma heap_sorts_witness :
  exists h out, insert_all PrioHeap_new [5; 3; 8; 1; 3] = Some h /\
    extract_all 6 h = Some out /\ out ≡ₚ [5; 3; 8; 1; 3] /\
    StronglySorted (fun x y => node_leb x y = true) out.
Proof. apply (heap_sorts [5; 3; 8; 1; 3]); [reflexivity|]. intros i j x y _ _ _. by eexists. Defined.
