(* ===== verification/EventQueue.v ===== *)
(** The discrete-event scheduler: [eventqueue/EventQueue.C], its nodes
    ([EventQueueNode.h]) and the consumers it wakes ([common/Consumer.h]). *)
From S2P Require Import Prelude Vector PrioHeap.

(** ** Nodes *)
Record EventQueueNode := mkEvent { m_time : Z; m_consumer_ptr : option nat }.
#[export] Instance EventQueueNode_default : Default EventQueueNode := mkEvent 0 None.

#[export] Program Instance EventQueueNode_prio : PrioNode EventQueueNode := {
  node_less_then_eq n1 n2 := Some (m_time n1 <=? m_time n2);
  node_leb n1 n2 := m_time n1 <=? m_time n2;
}.
Next Obligation. intros x y. rewrite !Z.leb_le. lia. Qed.
Next Obligation. intros x y z. rewrite !Z.leb_le. lia. Qed.
Next Obligation. by intros x y b [= <-]. Qed.

Lemma event_comparable (l : list EventQueueNode) : comparable l.
Proof. intros i j x y _ _ _. by eexists. Qed.

Section eventqueue.
(** [R] is everything the consumers own besides the scheduler's view of
    them; a consumer pointer is an index into [consumers]. *)
Context {R : Type}.

Record Consumer := mkConsumer { m_last_scheduled_wakeup : Z; m_last_wakeup : Z }.
Definition Consumer_new : Consumer := mkConsumer 0 0.

Record EventQueue := mkEventQueue {
  m_prio_heap : PrioHeap EventQueueNode;
  m_globalTime : Z;
  m_timeOfLastRecovery : Z;
}.

Record World := mkWorld {
  eventQueue : EventQueue;
  consumers : gmap nat Consumer;
  rest : R;
}.

Definition EventQueue_init : EventQueue := mkEventQueue PrioHeap_new 1 1.

Definition getTime (w : World) : Z := m_globalTime (eventQueue w).
Definition heap (w : World) : PrioHeap EventQueueNode := m_prio_heap (eventQueue w).

Definition set_heap (w : World) (h : PrioHeap EventQueueNode) : World :=
  mkWorld (mkEventQueue h (m_globalTime (eventQueue w)) (m_timeOfLastRecovery (eventQueue w)))
    (consumers w) (rest w).
Definition set_time (w : World) (t : Z) : World :=
  mkWorld (mkEventQueue (m_prio_heap (eventQueue w)) t (m_timeOfLastRecovery (eventQueue w)))
    (consumers w) (rest w).
Definition set_consumer (w : World) (c : nat) (x : Consumer) : World :=
  mkWorld (eventQueue w) (<[c := x]> (consumers w)) (rest w).

Definition setLastScheduledWakeup (x : Consumer) (t : Z) : Consumer :=
  mkConsumer t (m_last_wakeup x).

Definition isEmpty (w : World) : bool := size (heap w) =? 0.

Definition scheduleEventAbsolute (w : World) (consumer : option nat) (timeAbs : Z)
    : option World :=
  c ← consumer;
  x ← consumers w !! c;
  if negb (m_last_scheduled_wakeup x =? timeAbs) then
    assert! getTime w <? timeAbs;
    h ← insert (heap w) (mkEvent timeAbs (Some c));
    Some (set_consumer (set_heap w h) c (setLastScheduledWakeup x timeAbs))
  else Some w.

Definition scheduleEvent (w : World) (consumer : option nat) (timeDelta : Z) : option World :=
  scheduleEventAbsolute w consumer (timeDelta + getTime w).

Definition setTimeOfLastRecovery (w : World) (t : Z) : World :=
  mkWorld (mkEventQueue (m_prio_heap (eventQueue w)) (m_globalTime (eventQueue w)) t)
    (consumers w) (rest w).

(** [wakeup] is the virtual method of the consumer. *)
Variable wakeup : nat -> World -> option World.

Definition triggerWakeup (w : World) (c : nat) : option World :=
  let time := getTime w in
  x ← consumers w !! c;
  if negb (m_last_wakeup x =? time) then
    w ← wakeup c w;
    x ← consumers w !! c;
    Some (set_consumer w c (mkConsumer (m_last_scheduled_wakeup x) time))
  else Some w.

(** One iteration of the loop of [triggerEvents]; also returns the event. *)
Definition trigger_one (w : World) : option (EventQueueNode * World) :=
  min ← peekMin (heap w);
  let w := set_time w (m_time min) in
  '(thisNode, h) ← extractMin (heap w);
  c ← m_consumer_ptr thisNode;
  w ← triggerWakeup (set_heap w h) c;
  Some (thisNode, w).

Fixpoint triggerEvents_loop (fuel : nat) (w : World) (t : Z)
    : option (list EventQueueNode * World) :=
  match fuel with
  | O => None
  | S fuel =>
      if 0 <? size (heap w) then
        min ← peekMin (heap w);
        if m_time min <=? t then
          '(e, w) ← trigger_one w;
          '(es, w) ← triggerEvents_loop fuel w t;
          Some (e :: es, w)
        else Some ([], w)
      else Some ([], w)
  end.

(** Besides the final state, the events in the order they were triggered. *)
Definition triggerEvents (fuel : nat) (w : World) (t : Z)
    : option (list EventQueueNode * World) :=
  '(es, w) ← triggerEvents_loop fuel w t;
  Some (es, set_time w t).

Fixpoint triggerAllEvents (fuel : nat) (w : World) : option World :=
  match fuel with
  | O => None
  | S fuel =>
      if 0 <? size (heap w) then '(_, w) ← trigger_one w; triggerAllEvents fuel w
      else Some w
  end.

(** ** The invariant *)
(** No event is in the past, and a consumer whose last scheduled wakeup is
    still to come has that wakeup in the queue. *)
Definition pending (w : World) (c : nat) (t : Z) : Prop :=
  mkEvent t (Some c) ∈ elems (heap w).

Record eq_inv (w : World) : Prop := {
  inv_heap : heap_inv (heap w);
  inv_future e : e ∈ elems (heap w) -> getTime w <= m_time e;
  inv_consumer e : e ∈ elems (heap w) ->
    exists c x, m_consumer_ptr e = Some c /\ consumers w !! c = Some x;
  inv_pending c x : consumers w !! c = Some x ->
    getTime w < m_last_scheduled_wakeup x -> pending w c (m_last_scheduled_wakeup x);
}.

(** What a consumer does to the scheduler while it runs: it schedules
    events and changes its own state. The queue is bounded by memory. *)
Inductive schedules : World -> World -> Prop :=
| schedules_done w : schedules w w
| schedules_event w w' w'' c t :
    m_current_size (heap w) + 1 < 2 ^ 30 ->
    scheduleEventAbsolute w c t = Some w' -> schedules w' w'' -> schedules w w''
| schedules_rest w r w'' :
    schedules (mkWorld (eventQueue w) (consumers w) r) w'' -> schedules w w''.

(** ** Scheduling *)
Implicit Types (w : World) (e : EventQueueNode).

Lemma schedule_elems w c x t :
  eq_inv w -> m_current_size (heap w) + 1 < 2 ^ 30 ->
  consumers w !! c = Some x -> getTime w < t ->
  exists w' new, scheduleEventAbsolute w (Some c) t = Some w' /\ eq_inv w' /\
    pending w' c t /\ getTime w' = getTime w /\ dom (consumers w') = dom (consumers w) /\
    elems (heap w') ≡ₚ new ++ elems (heap w) /\ Forall (fun e => getTime w < m_time e) new.
Proof using Type.
  intros Hw Hb Hx Ht. unfold scheduleEventAbsolute; simpl. rewrite Hx; simpl.
  destruct (Z.eqb_spec (m_last_scheduled_wakeup x) t) as [<-|Hne]; simpl.
  { exists w, []; split_and!; try done. by eapply inv_pending. }
  destruct (Z.ltb_spec (getTime w) t); [|lia].
  destruct (insert_correct (heap w) (mkEvent t (Some c))) as (h & -> & Hh & He & _);
    [apply Hw|done|apply event_comparable|]; simpl.
  assert (Hin : forall e, e ∈ elems h <-> e = mkEvent t (Some c) \/ e ∈ elems (heap w))
    by (intros e; rewrite He; apply elem_of_cons).
  eexists _, [_]; split_and!; [done| | |done| |exact He|by repeat constructor].
  - split; cbn.
    + done.
    + intros e [-> | Hin']%Hin; [simpl; unfold getTime in *; simpl; lia|].
      by apply (inv_future w Hw).
    + intros e [-> | Hin']%Hin.
      { exists c. eexists. simpl. by rewrite lookup_insert_eq. }
      destruct (inv_consumer w Hw e Hin') as (c' & x' & -> & Hx').
      destruct (decide (c' = c)) as [->|];
        eexists _, _; (split; [done|]); [apply lookup_insert_eq|by rewrite lookup_insert_ne].
    + intros c' x'. unfold getTime; cbn. rewrite lookup_insert_Some.
      intros [[<- <-]|[? Hx']]; intros Hlt; cbn; apply Hin; [by left|right].
      by apply (inv_pending w Hw).
  - apply Hin. by left.
  - cbn. apply dom_insert_lookup_L. by exists x.
Qed.

Lemma schedule_grows w c t w' : eq_inv w -> m_current_size (heap w) + 1 < 2 ^ 30 ->
  scheduleEventAbsolute w c t = Some w' ->
  getTime w' = getTime w /\ dom (consumers w') = dom (consumers w) /\
  m_current_size (heap w') <= m_current_size (heap w) + 1.
Proof using Type.
  intros Hw Hb He. unfold scheduleEventAbsolute in He. destruct c as [c|]; [|done]. simpl in He.
  apply bind_Some in He as (x & Hx & He). destruct (negb _); [|injection He as <-; split_and!; [done..|lia]].
  destruct (getTime w <? t); [|done].
  destruct (insert_correct (heap w) (mkEvent t (Some c))) as (h & Hh & _ & _ & Hs);
    [apply Hw|done|apply event_comparable|]. rewrite Hh in He. simpl in He. injection He as <-. split_and!; [done| |].
  - cbn. apply dom_insert_lookup_L. by exists x.
  - change (m_current_size h <= m_current_size (heap w) + 1). lia.
Qed.

Lemma schedules_elems w w' :
  eq_inv w -> schedules w w' ->
  exists new, eq_inv w' /\ getTime w' = getTime w /\ dom (consumers w') = dom (consumers w) /\
    elems (heap w') ≡ₚ new ++ elems (heap w) /\ Forall (fun e => getTime w < m_time e) new.
Proof using Type.
  intros Hw Hs; revert Hw; induction Hs as [w|w w1 w2 c t Hb He Hs IH|w r w2 Hs IH]; intros Hw.
  - by exists [].
  - destruct c as [c|]; [|done]. assert (He' := He). unfold scheduleEventAbsolute in He'.
    simpl in He'. apply bind_Some in He' as (x & Hx & He').
    assert (exists new1, eq_inv w1 /\ getTime w1 = getTime w /\
      dom (consumers w1) = dom (consumers w) /\
      elems (heap w1) ≡ₚ new1 ++ elems (heap w) /\
      Forall (fun e => getTime w < m_time e) new1) as (new1 & Hw1 & Ht1 & Hd1 & Hp1 & Hf1).
    { destruct (Z.eqb_spec (m_last_scheduled_wakeup x) t); simpl in He'.
      { simplify_eq. by exists []. }
      destruct (Z.ltb_spec (getTime w) t) as [Hlt|]; [|done].
      destruct (schedule_elems w c x t Hw Hb Hx Hlt) as (w1' & new & He2 & ? & ? & ? & ? & ? & ?).
      rewrite He in He2. simplify_eq. by exists new. }
    destruct (IH Hw1) as (new2 & ? & ? & Hd2 & Hp2 & Hf2).
    exists (new2 ++ new1); split_and!; [done|lia|congruence| |].
    + by rewrite Hp2, Hp1, (assoc_L (++)).
    + apply Forall_app; split; [|done]. by rewrite Ht1 in Hf2.
  - apply IH. destruct Hw. by constructor.
Qed.

(** ** Triggering *)
Hypothesis wakeup_schedules : forall c w,
  eq_inv w -> is_Some (consumers w !! c) -> exists w', wakeup c w = Some w' /\ schedules w w'.

Lemma eq_inv_set_time w t :
  eq_inv w -> getTime w <= t -> (forall e, e ∈ elems (heap w) -> t <= m_time e) ->
  eq_inv (set_time w t).
Proof.
  intros Hw Ht He. split; cbn.
  - apply Hw.
  - intros e Hin. by apply He.
  - apply (inv_consumer w Hw).
  - intros c x Hx. unfold getTime; cbn. intros Hlt.
    apply (inv_pending w Hw); [done|]. unfold getTime in *; cbn in *; lia.
Qed.

Lemma eq_inv_remove w e h :
  eq_inv w -> heap_inv h -> elems (heap w) ≡ₚ e :: elems h -> m_time e = getTime w ->
  eq_inv (set_heap w h).
Proof.
  intros Hw Hh Hp He.
  assert (Hin : forall e', e' ∈ elems h -> e' ∈ elems (heap w))
    by (intros e' ?; rewrite Hp; by right).
  split; cbn.
  - done.
  - intros e' ?. by apply (inv_future w Hw), Hin.
  - intros e' ?. by apply (inv_consumer w Hw), Hin.
  - intros c x Hx Hlt. unfold getTime in Hlt; cbn in Hlt.
    pose proof (inv_pending w Hw c x Hx Hlt) as Hpe. unfold pending in Hpe |- *.
    rewrite Hp in Hpe. apply elem_of_cons in Hpe as [<-|]; [|done].
    unfold getTime in He; cbn in *; lia.
Qed.

Lemma triggerWakeup_elems w c :
  eq_inv w -> is_Some (consumers w !! c) ->
  exists w' new, triggerWakeup w c = Some w' /\ eq_inv w' /\ getTime w' = getTime w /\
    elems (heap w') ≡ₚ new ++ elems (heap w) /\ Forall (fun e => getTime w < m_time e) new.
Proof.
  intros Hw [x Hx]. unfold triggerWakeup. rewrite Hx; simpl.
  destruct (Z.eqb_spec (m_last_wakeup x) (getTime w)); simpl; [by exists w, []|].
  destruct (wakeup_schedules c w) as (w1 & -> & Hs); [done|by eexists|]; simpl.
  destruct (schedules_elems w w1 Hw Hs) as (new & Hw1 & Ht & Hd & Hp & Hf).
  assert (is_Some (consumers w1 !! c)) as [x1 Hx1].
  { apply elem_of_dom. rewrite Hd. apply elem_of_dom. by eexists. }
  rewrite Hx1; simpl. eexists _, new; split_and!; [done| |done|done|done].
  split; cbn.
  - apply Hw1.
  - apply (inv_future w1 Hw1).
  - intros e He. destruct (inv_consumer w1 Hw1 e He) as (c' & x' & -> & Hx').
    destruct (decide (c' = c)) as [->|];
      eexists _, _; (split; [done|]); [apply lookup_insert_eq|by rewrite lookup_insert_ne].
  - intros c' x'. rewrite lookup_insert_Some.
    intros [[<- <-]|[? Hx']]; cbn; by apply (inv_pending w1 Hw1).
Qed.

Lemma trigger_one_correct w :
  eq_inv w -> 0 < m_current_size (heap w) ->
  exists e w' old new, peekMin (heap w) = Some e /\ trigger_one w = Some (e, w') /\
    eq_inv w' /\ getTime w' = m_time e /\ getTime w <= m_time e /\
    elems (heap w) ≡ₚ e :: old /\ (forall e', e' ∈ old -> m_time e <= m_time e') /\
    elems (heap w') ≡ₚ new ++ old /\ Forall (fun e' => m_time e < m_time e') new.
Proof.
  intros Hw Hpos.
  destruct (extractMin_correct (heap w)) as (e & h & Hext & Hh & Hp & _ & Hpk & Hmin);
    [apply Hw|done|apply event_comparable|].
  assert (Hin : e ∈ elems (heap w)) by (rewrite Hp; by left).
  assert (Hle : forall e', e' ∈ elems (heap w) -> m_time e <= m_time e')
    by (intros e' He'; by apply Z.leb_le, (Hmin e')).
  destruct (inv_consumer w Hw e Hin) as (c & x & Hc & Hx).
  set (w1 := set_heap (set_time w (m_time e)) h).
  assert (Hw1 : eq_inv w1).
  { apply eq_inv_remove with e; [|done|done|done].
    apply eq_inv_set_time; [done|by apply inv_future|done]. }
  destruct (triggerWakeup_elems w1 c) as (w' & new & Htr & Hw' & Ht' & Hp' & Hf');
    [done|by exists x|].
  exists e, w', (elems h), new; split_and!; try done.
  - unfold trigger_one. rewrite Hpk; simpl. unfold heap in *; simpl. rewrite Hext; simpl.
    rewrite Hc; simpl. fold w1. by rewrite Htr.
  - by apply inv_future.
  - intros e' ?. apply Hle. rewrite Hp. by right.
Qed.

(** ** Termination and order of [triggerEvents] *)
Definition due (w : World) : list EventQueueNode :=
  filter (fun e => m_time e <= getTime w) (elems (heap w)).

Definition time_le (e e' : EventQueueNode) : Prop := m_time e <= m_time e'.

Lemma due_trigger w w' e old new :
  getTime w' = m_time e -> m_time e = getTime w ->
  elems (heap w) ≡ₚ e :: old -> elems (heap w') ≡ₚ new ++ old ->
  Forall (fun e' => m_time e < m_time e') new -> (length (due w') < length (due w))%nat.
Proof.
  intros Ht' Ht Hp Hp' Hf. unfold due. rewrite Hp, Hp', Ht', filter_app, Ht.
  rewrite filter_cons_True by lia.
  replace (filter _ new) with (@nil EventQueueNode); [simpl; lia|].
  clear Hp'. induction Hf as [|e' l He' Hf IH]; [done|]. rewrite filter_cons_False by lia. done.
Qed.

Lemma triggerEvents_loop_correct t (n k : nat) w :
  (Z.to_nat (t - getTime w) <= n)%nat -> (length (due w) <= k)%nat ->
  eq_inv w -> getTime w <= t ->
  exists fuel es w', triggerEvents_loop fuel w t = Some (es, w') /\ eq_inv w' /\
    getTime w <= getTime w' <= t /\ (forall e, e ∈ elems (heap w') -> t < m_time e) /\
    StronglySorted time_le es /\ Forall (fun e => getTime w <= m_time e <= t) es /\
    (forall e, e ∈ elems (heap w) -> m_time e <= t -> e ∈ es).
Proof.
  revert k w; induction n as [n IHn] using lt_wf_ind.
  induction k as [k IHk] using lt_wf_ind. intros w Hn Hk Hw Ht.
  assert (Hsz : 0 <= m_current_size (heap w) < 2 ^ 30) by apply Hw.
  destruct (decide (0 < m_current_size (heap w))) as [Hpos|Hpos]; last first.
  { exists 1%nat, [], w. simpl. unfold size. rewrite s32_small by lia.
    destruct (Z.ltb_spec 0 (m_current_size (heap w))); [lia|].
    assert (elems (heap w) = []) as -> by (unfold elems; by rewrite Z2Nat.nonpos by lia).
    split_and!; try done || lia || constructor; intros e He; by apply not_elem_of_nil in He. }
  destruct (trigger_one_correct w Hw Hpos)
    as (e & w1 & old & new & Hpk & Htr & Hw1 & Ht1 & Hle & Hp & Hmin & Hp1 & Hf1).
  destruct (decide (m_time e <= t)) as [Het|Het]; last first.
  { exists 1%nat, [], w. simpl. unfold size. rewrite s32_small by lia.
    destruct (Z.ltb_spec 0 (m_current_size (heap w))); [|lia]. rewrite Hpk; simpl.
    destruct (Z.leb_spec (m_time e) t); [lia|].
    assert (Hall : forall e', e' ∈ elems (heap w) -> t < m_time e').
    { intros e' He'. rewrite Hp in He'. apply elem_of_cons in He' as [->|He']; [lia|].
      apply Hmin in He'. lia. }
    split_and!; try done || lia || constructor. intros e' He' ?. specialize (Hall e' He'). lia. }
  assert (exists fuel es w', triggerEvents_loop fuel w1 t = Some (es, w') /\ eq_inv w' /\
    getTime w1 <= getTime w' <= t /\ (forall e, e ∈ elems (heap w') -> t < m_time e) /\
    StronglySorted time_le es /\ Forall (fun e => getTime w1 <= m_time e <= t) es /\
    (forall e, e ∈ elems (heap w1) -> m_time e <= t -> e ∈ es))
    as (fuel & es & w' & Hrun & Hw' & Htw & Hrem & Hsort & Hall & Hin).
  { destruct (decide (getTime w = m_time e)) as [Heq|Hne].
    - pose proof (due_trigger w w1 e old new).
      apply (IHk (length (due w1))); try done || lia. by eapply Nat.lt_le_trans; [auto|].
    - apply (IHn (Z.to_nat (t - getTime w1)) ltac:(lia) (length (due w1))); done || lia. }
  exists (S fuel), (e :: es), w'. cbn [triggerEvents_loop]. unfold size.
  rewrite s32_small by lia. destruct (Z.ltb_spec 0 (m_current_size (heap w))); [|lia].
  rewrite Hpk; simpl. destruct (Z.leb_spec (m_time e) t); [|lia]. rewrite Htr; simpl.
  rewrite Hrun; simpl. split_and!; try done || lia.
  - constructor; [done|]. eapply Forall_impl; [exact Hall|]. unfold time_le. simpl. lia.
  - constructor; [lia|]. eapply Forall_impl; [exact Hall|]. simpl. lia.
  - intros e' He' Hle'. rewrite Hp in He'. apply elem_of_cons in He' as [->|He']; [by left|].
    right. apply Hin; [|done]. rewrite Hp1. apply elem_of_app. by right.
Qed.

(** scheduling a wakeup of a known consumer. A time already recorded as
    the consumer's last scheduled one changes nothing (the event is then in
    the queue unless that time is past); any other time that is not in the
    future fails the assertion; a future time adds exactly one event, keeps
    the queue well formed and leaves no scheduled wakeup behind. *)
Theorem scheduleEventAbsolute_correct w c x t :
  eq_inv w -> m_current_size (heap w) + 1 < 2 ^ 30 -> consumers w !! c = Some x ->
  (t = m_last_scheduled_wakeup x -> scheduleEventAbsolute w (Some c) t = Some w /\
     (getTime w < t -> pending w c t)) /\
  (t <> m_last_scheduled_wakeup x -> t <= getTime w ->
     scheduleEventAbsolute w (Some c) t = None) /\
  (t <> m_last_scheduled_wakeup x -> getTime w < t ->
     exists w', scheduleEventAbsolute w (Some c) t = Some w' /\ eq_inv w' /\
       getTime w' = getTime w /\ pending w' c t /\
       elems (heap w') ≡ₚ mkEvent t (Some c) :: elems (heap w)).
Proof using Type.
  intros Hw Hb Hx. split_and!.
  - intros ->. unfold scheduleEventAbsolute; simpl. rewrite Hx; simpl. rewrite Z.eqb_refl.
    split; [done|by apply inv_pending].
  - intros Hne Ht. unfold scheduleEventAbsolute; simpl. rewrite Hx; simpl.
    destruct (Z.eqb_spec (m_last_scheduled_wakeup x) t); [congruence|]; simpl.
    destruct (Z.ltb_spec (getTime w) t); [lia|done].
  - intros Hne Ht. destruct (schedule_elems w c x t Hw Hb Hx Ht)
      as (w' & new & Hs & Hw' & Hpe & Htm & _ & _ & _).
    exists w'; split_and!; [done..|].
    unfold scheduleEventAbsolute in Hs; simpl in Hs. rewrite Hx in Hs; simpl in Hs.
    destruct (Z.eqb_spec (m_last_scheduled_wakeup x) t); [congruence|]; simpl in Hs.
    destruct (Z.ltb_spec (getTime w) t); [|lia].
    destruct (insert_correct (heap w) (mkEvent t (Some c))) as (h & Hi & _ & He & _);
      [apply Hw|done|apply event_comparable|].
    rewrite Hi in Hs. simpl in Hs. by simplify_eq.
Qed.

(** C31: when every wakeup only schedules events in the future,
    [triggerEvents w t] terminates without a failed assertion, leaves the
    clock at [t] with every remaining event after [t], wakes consumers in
    time order, and triggers every event that was due. *)
Theorem triggerEvents_correct w t :
  eq_inv w -> getTime w <= t ->
  exists fuel es w', triggerEvents fuel w t = Some (es, w') /\ eq_inv w' /\ getTime w' = t /\
    (forall e, e ∈ elems (heap w') -> t < m_time e) /\
    StronglySorted time_le es /\ Forall (fun e => getTime w <= m_time e <= t) es /\
    (forall e, e ∈ elems (heap w) -> m_time e <= t -> e ∈ es).
Proof.
  intros Hw Ht.
  destruct (triggerEvents_loop_correct t (Z.to_nat (t - getTime w)) (length (due w)) w)
    as (fuel & es & w' & Hr & Hw' & Htw & Hrem & ? & ? & ?); [done..|].
  exists fuel, es, (set_time w' t); split_and!; try done.
  - unfold triggerEvents. by rewrite Hr.
  - apply eq_inv_set_time; [done|lia|]. intros e He. by apply Z.lt_le_incl, Hrem.
Qed.

Lemma World_init_inv (cs : gmap nat Consumer) (r : R) :
  (forall c x, cs !! c = Some x -> m_last_scheduled_wakeup x <= 1) ->
  eq_inv (mkWorld EventQueue_init cs r).
Proof using Type.
  intros Hcs. split; simpl.
  - apply PrioHeap_new_inv.
  - intros e He. by apply not_elem_of_nil in He.
  - intros e He. by apply not_elem_of_nil in He.
  - intros c x Hx. unfold getTime; simpl. specialize (Hcs c x Hx). lia.
Qed.
End eventqueue.
#[global] Arguments World R : clear implicits.
#[global] Arguments scheduleEventAbsolute : simpl never.

(** ** A concrete system *)
(** Two consumers that reschedule themselves three cycles later as long as
    the queue is small. *)
Section example.
Definition tick (c : nat) (w : World unit) : option (World unit) :=
  if m_current_size (heap w) <? 1000 then scheduleEventAbsolute w (Some c) (getTime w + 3)
  else Some w.

Definition idle_world : World unit :=
  mkWorld EventQueue_init {[0%nat := Consumer_new; 1%nat := Consumer_new]} ().

Lemma idle_world_inv : eq_inv idle_world.
Proof.
  apply World_init_inv. intros c x Hx. apply lookup_insert_Some in Hx as [[_ <-]|[_ Hx]]; [done|].
  apply lookup_singleton_Some in Hx as [_ <-]. simpl. done.
Qed.

Definition busy_world : World unit :=
  from_option id idle_world (w ← scheduleEventAbsolute idle_world (Some 0%nat) 4;
                      scheduleEventAbsolute w (Some 1%nat) 2).

Lemma busy_world_inv : eq_inv busy_world.
Proof.
  destruct (schedule_elems idle_world 0 Consumer_new 4 idle_world_inv)
    as (w1 & n1 & E1 & Hw1 & _); [done..|].
  assert (w1 = from_option id idle_world (scheduleEventAbsolute idle_world (Some 0%nat) 4)) as E
    by (by rewrite E1).
  destruct (schedule_elems w1 1 Consumer_new 2 Hw1) as (w2 & n2 & E2 & Hw2 & _);
    [by rewrite E; vm_compute|by rewrite E; vm_compute|by rewrite E; vm_compute|].
  unfold busy_world. rewrite E1; simpl. by rewrite E2.
Qed.

Lemma tick_schedules c w :
  eq_inv w -> is_Some (consumers w !! c) -> exists w', tick c w = Some w' /\ schedules w w'.
Proof.
  intros Hw [x Hx]. unfold tick.
  destruct (Z.ltb_spec (m_current_size (heap w)) 1000); [|exists w; split; [done|constructor]].
  destruct (schedule_elems w c x (getTime w + 3) Hw) as (w' & new & E & _); [lia|done|lia|].
  exists w'. split; [done|]. eapply schedules_event; [|done|constructor]. lia.
Qed.
End example.

Example busy_world_runs :
  (fst <$> triggerEvents tick 20 busy_world 8) =
    Some [mkEvent 2 (Some 1%nat); mkEvent 4 (Some 0%nat); mkEvent 5 (Some 1%nat);
          mkEvent 7 (Some 0%nat); mkEvent 8 (Some 1%nat)].
Proof. by vm_compute. Qed.

Lemma scheduleEventAbsolute_correct_witness :
  exists w', scheduleEventAbsolute idle_world (Some 0%nat) 7 = Some w' /\ eq_inv w' /\
    getTime w' = 1 /\ pending w' 0 7 /\
    elems (heap w') ≡ₚ mkEvent 7 (Some 0%nat) :: elems (heap idle_world).
Proof.
  destruct (scheduleEventAbsolute_correct idle_world 0 Consumer_new 7) as (_ & _ & H);
    [exact idle_world_inv|reflexivity|reflexivity|]. apply H; [discriminate|reflexivity].
Defined.

Lemma triggerEvents_correct_witness :
  exists fuel es w', triggerEvents tick fuel busy_world 8 = Some (es, w') /\ eq_inv w' /\
    getTime w' = 8 /\ (forall e, e ∈ elems (heap w') -> 8 < m_time e) /\
    StronglySorted time_le es /\ Forall (fun e => 1 <= m_time e <= 8) es /\
    (forall e, e ∈ elems (heap busy_world) -> m_time e <= 8 -> e ∈ es).
Proof.
  change 1 with (getTime busy_world) at 1.
  apply (triggerEvents_correct tick tick_schedules busy_world 8 busy_world_inv). discriminate.
Defined.
