(* ===== verification/MessageBuffer.v ===== *)
(** The message buffers between controllers: [buffers/MessageBuffer.C] and
    [buffers/MessageBufferNode.h], over the heap of PrioHeap and the scheduler
    of EventQueue. *)
From S2P Require Import Prelude Vector PrioHeap EventQueue.

(** [slicc_interface/Message.h]: what a buffer reads and writes of a message.
    Messages are owned by the node that holds them. *)
Record Message (P : Type) := mkMessage {
  payload : P; m_LastEnqueueTime : Z; m_DelayedCycles : Z }.
#[global] Arguments mkMessage {P}.
#[global] Arguments payload {P}.
#[global] Arguments m_LastEnqueueTime {P}.
#[global] Arguments m_DelayedCycles {P}.

Record MessageBufferNode (P : Type) := mkNode {
  n_time : Z; n_msg_counter : Z; n_msgptr : option (Message P);
  n_reply_wts : Z; n_delay_queue : bool }.
#[global] Arguments mkNode {P}.
#[global] Arguments n_time {P}.
#[global] Arguments n_msg_counter {P}.
#[global] Arguments n_msgptr {P}.
#[global] Arguments n_reply_wts {P}.
#[global] Arguments n_delay_queue {P}.

#[export] Instance MessageBufferNode_default P : Default (MessageBufferNode P) :=
  mkNode 0 0 None 0 false.

Section node_order.
Context {P : Type}.
Implicit Types n : MessageBufferNode P.

(** [node_less_then_eq] on message nodes, with its assertions. *)
Definition message_node_lte n1 n2 : option bool :=
  assert! Bool.eqb (n_delay_queue n1) (n_delay_queue n2);
  if negb (n_delay_queue n1) then
    if n_time n1 =? n_time n2 then
      assert! negb (n_msg_counter n1 =? n_msg_counter n2);
      Some (n_msg_counter n1 <=? n_msg_counter n2)
    else Some (n_time n1 <=? n_time n2)
  else
    if n_reply_wts n1 =? n_reply_wts n2 then
      assert! negb (n_msg_counter n1 =? n_msg_counter n2);
      Some (n_msg_counter n1 <=? n_msg_counter n2)
    else Some (n_reply_wts n1 <=? n_reply_wts n2).

(** The preorder it computes: by kind of queue, then by arrival time (or
    reply timestamp), then by enqueue order. *)
Definition key n : Z := if n_delay_queue n then n_reply_wts n else n_time n.
Definition node_le n1 n2 : bool :=
  if Bool.eqb (n_delay_queue n1) (n_delay_queue n2) then
    (key n1 <? key n2) || ((key n1 =? key n2) && (n_msg_counter n1 <=? n_msg_counter n2))
  else n_delay_queue n2.

Lemma node_le_spec n1 n2 :
  node_le n1 n2 = true <->
  (n_delay_queue n1 = false /\ n_delay_queue n2 = true) \/
  n_delay_queue n1 = n_delay_queue n2 /\
    (key n1 < key n2 \/ key n1 = key n2 /\ n_msg_counter n1 <= n_msg_counter n2).
Proof.
  unfold node_le. rewrite <-(Bool.eqb_true_iff (n_delay_queue n1)).
  destruct (n_delay_queue n1), (n_delay_queue n2); simpl;
    rewrite ?orb_true_iff, ?andb_true_iff, ?Z.ltb_lt, ?Z.eqb_eq, ?Z.leb_le; naive_solver.
Qed.

Lemma node_le_total n1 n2 : node_le n1 n2 = true \/ node_le n2 n1 = true.
Proof.
  rewrite !node_le_spec. destruct (n_delay_queue n1), (n_delay_queue n2); naive_solver lia.
Qed.

Lemma node_le_trans n1 n2 n3 :
  node_le n1 n2 = true -> node_le n2 n3 = true -> node_le n1 n3 = true.
Proof.
  rewrite !node_le_spec.
  destruct (n_delay_queue n1), (n_delay_queue n2), (n_delay_queue n3); naive_solver lia.
Qed.

Lemma message_node_lte_eq n1 n2 :
  message_node_lte n1 n2 =
    if Bool.eqb (n_delay_queue n1) (n_delay_queue n2)
       && negb ((key n1 =? key n2) && (n_msg_counter n1 =? n_msg_counter n2))
    then Some (node_le n1 n2) else None.
Proof.
  unfold message_node_lte, node_le, key.
  destruct (n_delay_queue n1), (n_delay_queue n2); simpl; try done.
  - destruct (Z.eqb_spec (n_reply_wts n1) (n_reply_wts n2)) as [->|]; simpl.
    + rewrite Z.ltb_irrefl. by case_match.
    + rewrite orb_false_r. f_equal. apply eq_true_iff_eq. rewrite Z.leb_le, Z.ltb_lt. lia.
  - destruct (Z.eqb_spec (n_time n1) (n_time n2)) as [->|]; simpl.
    + rewrite Z.ltb_irrefl. by case_match.
    + rewrite orb_false_r. f_equal. apply eq_true_iff_eq. rewrite Z.leb_le, Z.ltb_lt. lia.
Qed.

Lemma message_node_lte_sound n1 n2 b :
  message_node_lte n1 n2 = Some b -> b = node_le n1 n2.
Proof. rewrite message_node_lte_eq. by case_match; intros [=]. Qed.

#[export] Instance MessageBufferNode_prio : PrioNode (MessageBufferNode P) := {
  node_less_then_eq := message_node_lte;
  node_leb := node_le;
  node_leb_total := node_le_total;
  node_leb_trans := node_le_trans;
  node_lte_sound := message_node_lte_sound;
}.

(** Nodes of one kind of queue with distinct enqueue numbers can always be
    compared. *)
Lemma nodes_comparable (l : list (MessageBufferNode P)) d :
  Forall (fun n => n_delay_queue n = d) l -> NoDup (n_msg_counter <$> l) -> comparable l.
Proof.
  intros Hd Hnd i j x y Hij Hx Hy. simpl. rewrite message_node_lte_eq.
  rewrite (Forall_lookup_1 _ _ _ _ Hd Hx), (Forall_lookup_1 _ _ _ _ Hd Hy), Bool.eqb_reflx.
  destruct (Z.eqb_spec (n_msg_counter x) (n_msg_counter y)) as [E|]; simpl.
  - destruct Hij. eapply (NoDup_lookup _ i j (n_msg_counter x) Hnd);
      rewrite list_lookup_fmap, ?Hx, ?Hy; simpl; congruence.
  - rewrite andb_false_r. by eexists.
Qed.
End node_order.

(** [random_time]: the three draws of [random()] are arguments. *)
Definition random_time (r1 r2 r3 : Z) : Z :=
  let time := 1 + Z.land r1 3 in
  if Z.land r2 7 =? 0 then time + (100 + Z.rem r3 15) else time.

Section buffer.
Context {P R : Type}.
(** Configuration ([g_RANDOMIZATION], [RECYCLE_LATENCY]). *)
Variables (RANDOMIZATION : bool) (RECYCLE_LATENCY : Z).
Implicit Types (n : MessageBufferNode P) (msg : Message P) (w : World R).

(** The members of the class, in three groups: what is set once at
    construction ([cfg]), the counters behind the size other components see
    during a cycle ([win]), and the queue itself. *)
Record Config := mkConfig {
  m_consumer : option nat;
  m_buf_max_size : Z;
  m_priority_rank : Z;
  m_strict_fifo : bool;
  m_ordering_set : bool;
  m_randomization : bool;
}.

Record Window := mkWindow {
  m_time_last_time_size_checked : Z;
  m_size_last_time_size_checked : Z;
  m_time_last_time_enqueue : Z;
  m_time_last_time_pop : Z;
  m_size_at_cycle_start : Z;
  m_msgs_this_cycle : Z;
}.

Record MessageBuffer := mkBuffer {
  cfg : Config;
  win : Window;
  b_heap : PrioHeap (MessageBufferNode P);
  m_buf_size : Z;
  m_not_avail_count : Z;
  m_msg_counter : Z;
  m_last_arrival_time : Z;
}.
Implicit Types b : MessageBuffer.

Definition MessageBuffer_new : MessageBuffer :=
  mkBuffer (mkConfig None (-1) 0 true false true) (mkWindow 0 0 0 0 0 0)
    PrioHeap_new 0 0 0 0.

Definition set_heap b h : MessageBuffer :=
  mkBuffer (cfg b) (win b) h (m_buf_size b) (m_not_avail_count b) (m_msg_counter b)
    (m_last_arrival_time b).
Definition set_win b wn : MessageBuffer :=
  mkBuffer (cfg b) wn (b_heap b) (m_buf_size b) (m_not_avail_count b) (m_msg_counter b)
    (m_last_arrival_time b).
Definition set_size b s : MessageBuffer :=
  mkBuffer (cfg b) (win b) (b_heap b) s (m_not_avail_count b) (m_msg_counter b)
    (m_last_arrival_time b).
Definition set_counter b c : MessageBuffer :=
  mkBuffer (cfg b) (win b) (b_heap b) (m_buf_size b) (m_not_avail_count b) c
    (m_last_arrival_time b).
Definition set_not_avail b c : MessageBuffer :=
  mkBuffer (cfg b) (win b) (b_heap b) (m_buf_size b) c (m_msg_counter b)
    (m_last_arrival_time b).
Definition set_arrival b t : MessageBuffer :=
  mkBuffer (cfg b) (win b) (b_heap b) (m_buf_size b) (m_not_avail_count b) (m_msg_counter b) t.

Definition setOrdering b (order : bool) : MessageBuffer :=
  let c := cfg b in
  mkBuffer (mkConfig (m_consumer c) (m_buf_max_size c) (m_priority_rank c) order true
              (m_randomization c))
    (win b) (b_heap b) (m_buf_size b) (m_not_avail_count b) (m_msg_counter b)
    (m_last_arrival_time b).

Definition setConsumer b (consumer_ptr : nat) : option MessageBuffer :=
  let c := cfg b in
  match m_consumer c with
  | Some _ => None
  | None => Some (mkBuffer (mkConfig (Some consumer_ptr) (m_buf_max_size c) (m_priority_rank c)
               (m_strict_fifo c) (m_ordering_set c) (m_randomization c))
              (win b) (b_heap b) (m_buf_size b) (m_not_avail_count b) (m_msg_counter b)
              (m_last_arrival_time b))
  end.

Definition set_cfg b c : MessageBuffer :=
  mkBuffer c (win b) (b_heap b) (m_buf_size b) (m_not_avail_count b) (m_msg_counter b)
    (m_last_arrival_time b).
Definition setSize b (size : Z) : MessageBuffer :=
  let c := cfg b in
  set_cfg b (mkConfig (m_consumer c) size (m_priority_rank c) (m_strict_fifo c)
               (m_ordering_set c) (m_randomization c)).
Definition setPriority b (rank : Z) : MessageBuffer :=
  let c := cfg b in
  set_cfg b (mkConfig (m_consumer c) (m_buf_max_size c) rank (m_strict_fifo c)
               (m_ordering_set c) (m_randomization c)).
Definition setRandomization b (random_flag : bool) : MessageBuffer :=
  let c := cfg b in
  set_cfg b (mkConfig (m_consumer c) (m_buf_max_size c) (m_priority_rank c) (m_strict_fifo c)
               (m_ordering_set c) random_flag).

(** The head of the queue has arrived. *)
Definition isReady b w : option bool :=
  if 0 <? size (b_heap b) then
    n ← peekMin (b_heap b);
    Some (n_time n <=? getTime w)
  else Some false.

Definition getSize b w : Z * MessageBuffer :=
  let wn := win b in
  if m_time_last_time_size_checked wn =? getTime w then
    (m_size_last_time_size_checked wn, b)
  else (m_buf_size b,
        set_win b (mkWindow (getTime w) (m_buf_size b) (m_time_last_time_enqueue wn)
          (m_time_last_time_pop wn) (m_size_at_cycle_start wn) (m_msgs_this_cycle wn))).

Definition areNSlotsAvailable b w (n : Z) : bool * MessageBuffer :=
  let wn := win b in
  if m_buf_max_size (cfg b) =? -1 then (true, b)
  else
    let current_size :=
      if m_time_last_time_pop wn <? getTime w then m_buf_size b
      else if m_time_last_time_enqueue wn <? getTime w then m_size_at_cycle_start wn
      else m_size_at_cycle_start wn + m_msgs_this_cycle wn in
    if current_size + n <=? m_buf_max_size (cfg b) then (true, b)
    else (false, set_not_avail b (m_not_avail_count b + 1)).

(** First part of both [enqueue]s: count the message. *)
Definition count_enqueue b w : MessageBuffer :=
  let b := set_size (set_counter b (s32 (m_msg_counter b + 1))) (m_buf_size b + 1) in
  let wn := win b in
  let first := m_time_last_time_enqueue wn <? getTime w in
  set_win b (mkWindow (m_time_last_time_size_checked wn) (m_size_last_time_size_checked wn)
    (if first then getTime w else m_time_last_time_enqueue wn)
    (m_time_last_time_pop wn) (m_size_at_cycle_start wn)
    ((if first then 0 else m_msgs_this_cycle wn) + 1)).

(** The arrival time; with randomization a strict queue first moves
    [m_last_arrival_time] up to the current time. *)
Definition arrival b w (delta : Z) (rnd : Z * Z * Z) : Z * MessageBuffer :=
  let '(r1, r2, r3) := rnd in
  let current_time := getTime w in
  if negb RANDOMIZATION || negb (m_randomization (cfg b)) then (current_time + delta, b)
  else if m_strict_fifo (cfg b) then
    let b := if m_last_arrival_time b <? current_time then set_arrival b current_time else b in
    (m_last_arrival_time b + random_time r1 r2 r3, b)
  else (current_time + random_time r1 r2 r3, b).

Definition enqueue_node b w msg (delta reply_wts : Z) (delay_queue : bool) (rnd : Z * Z * Z)
    : option (MessageBuffer * World R) :=
  let b := count_enqueue b w in
  assert! m_ordering_set (cfg b);
  assert! 0 <? delta;
  let '(arrival_time, b) := arrival b w delta rnd in
  assert! getTime w <? arrival_time;
  assert! negb (m_strict_fifo (cfg b)) || (m_last_arrival_time b <=? arrival_time);
  let b := set_arrival b arrival_time in
  assert! m_LastEnqueueTime msg <=? getTime w;
  let msg := mkMessage (payload msg) arrival_time
               (s32 (getTime w - m_LastEnqueueTime msg + m_DelayedCycles msg)) in
  h ← insert (b_heap b)
        (mkNode arrival_time (m_msg_counter b) (Some msg) reply_wts delay_queue);
  w ← scheduleEventAbsolute w (m_consumer (cfg b)) arrival_time;
  Some (set_heap b h, w).

Definition enqueue b w msg (delta : Z) (rnd : Z * Z * Z) : option (MessageBuffer * World R) :=
  enqueue_node b w msg delta 0 false rnd.

Definition enqueue_delayed b w msg (delta reply_wts : Z) (delay_queue : bool)
    (rnd : Z * Z * Z) : option (MessageBuffer * World R) :=
  enqueue_node b w msg delta reply_wts delay_queue rnd.

Definition peekAtHeadOfQueue b w : option (Message P) :=
  r ← isReady b w;
  assert! (r : bool);
  n ← peekMin (b_heap b);
  n_msgptr n.

Definition pop b w : option MessageBuffer :=
  r ← isReady b w;
  assert! (r : bool);
  '(_, h) ← extractMin (b_heap b);
  let wn := win b in
  let first := m_time_last_time_pop wn <? getTime w in
  let b := set_win b (mkWindow (m_time_last_time_size_checked wn)
    (m_size_last_time_size_checked wn) (m_time_last_time_enqueue wn)
    (if first then getTime w else m_time_last_time_pop wn)
    (if first then m_buf_size b else m_size_at_cycle_start wn) (m_msgs_this_cycle wn)) in
  Some (set_size (set_heap b h) (m_buf_size b - 1)).

Definition dequeue b w : option (Message P * MessageBuffer) :=
  n ← peekMin (b_heap b);
  b ← pop b w;
  msg ← n_msgptr n;
  Some (msg, b).

Definition setAndReturnDelayCycles w msg : option (Z * Message P) :=
  assert! m_LastEnqueueTime msg <=? getTime w;
  let delay := s32 (getTime w - m_LastEnqueueTime msg + m_DelayedCycles msg) in
  assert! 0 <=? delay;
  Some (delay, mkMessage (payload msg) (m_LastEnqueueTime msg) delay).

Definition dequeue_getDelayCycles b w : option (Z * Message P * MessageBuffer) :=
  '(msg, b) ← dequeue b w;
  '(delay_cycles, msg) ← setAndReturnDelayCycles w msg;
  Some (delay_cycles, msg, b).

(** The overload that drops the message. *)
Definition dequeue_getDelayCycles_drop b w : option (Z * MessageBuffer) :=
  n ← peekMin (b_heap b);
  msg ← n_msgptr n;
  '(delay_cycles, _) ← setAndReturnDelayCycles w msg;
  b ← pop b w;
  Some (delay_cycles, b).

Definition recycle b w : option (MessageBuffer * World R) :=
  r ← isReady b w;
  assert! (r : bool);
  '(node, h) ← extractMin (b_heap b);
  let t := getTime w + RECYCLE_LATENCY in
  h ← insert h (mkNode t (n_msg_counter node) (n_msgptr node) (n_reply_wts node)
                  (n_delay_queue node));
  w ← scheduleEventAbsolute w (m_consumer (cfg b)) t;
  Some (set_heap b h, w).

Fixpoint drain (fuel : nat) (h : PrioHeap (MessageBufferNode P))
    : option (PrioHeap (MessageBufferNode P)) :=
  match fuel with
  | O => None
  | S fuel => if 0 <? size h then '(_, h) ← extractMin h; drain fuel h else Some h
  end.

Definition clear b : option MessageBuffer :=
  h ← drain (S (Z.to_nat (m_current_size (b_heap b)))) (b_heap b);
  assert! size h =? 0;
  let wn := win b in
  Some (mkBuffer (cfg b)
    (mkWindow (m_time_last_time_size_checked wn) (m_size_last_time_size_checked wn) 0 0 0 0)
    h 0 (m_not_avail_count b) 0 (m_last_arrival_time b)).

Definition clearStats b : MessageBuffer := set_not_avail (set_counter b 0) 0.

(** ** First in, first out *)
(** In a strict queue messages arrive in the order of their numbers. *)
Definition fifo_lt n1 n2 : Prop :=
  n_time n1 <= n_time n2 /\ n_msg_counter n1 < n_msg_counter n2.

(** [q] is the abstract queue the buffer holds, oldest first. *)
Record fifo_inv b (q : list (MessageBufferNode P)) : Prop := {
  fifo_heap : heap_inv (b_heap b);
  fifo_elems : elems (b_heap b) ≡ₚ q;
  fifo_sorted : StronglySorted fifo_lt q;
  fifo_nodes : Forall (fun n => n_delay_queue n = false /\ n_time n <= m_last_arrival_time b /\
                                n_msg_counter n <= m_msg_counter b) q;
  fifo_size : m_buf_size b = Z.of_nat (length q);
}.

Lemma fifo_current_size b q :
  fifo_inv b q -> m_current_size (b_heap b) = Z.of_nat (length q).
Proof.
  intros Hb. rewrite <-(length_elems _ (proj1 (fifo_heap b q Hb))). by rewrite (fifo_elems b q Hb).
Qed.

Lemma fifo_NoDup q : StronglySorted fifo_lt q -> NoDup (n_msg_counter <$> q).
Proof.
  induction 1 as [|n q Hs IH Hall]; [constructor|]. simpl. constructor; [|done].
  intros (n' & E & Hn')%list_elem_of_fmap.
  pose proof (proj1 (Forall_forall _ _) Hall n' Hn') as [_ ?]. lia.
Qed.

Lemma fifo_comparable b q : fifo_inv b q -> comparable (elems (b_heap b)).
Proof.
  intros Hb. apply (comparable_Permutation q); [symmetry; apply Hb|].
  apply (nodes_comparable q false); [|by apply fifo_NoDup, Hb].
  eapply Forall_impl; [apply (fifo_nodes b q Hb)|]. simpl. tauto.
Qed.

Lemma random_time_pos r1 r2 r3 : 0 <= r1 -> 0 <= r3 -> 1 <= random_time r1 r2 r3.
Proof.
  intros H1 H3. unfold random_time.
  assert (0 <= Z.land r1 3) by (apply Z.land_nonneg; lia).
  assert (0 <= Z.rem r3 15) by (apply Z.rem_nonneg; lia). case_match; lia.
Qed.

Lemma arrival_spec b w delta r1 r2 r3 :
  0 < delta -> 0 <= r1 -> 0 <= r3 ->
  (RANDOMIZATION = false -> m_last_arrival_time b <= getTime w + delta) ->
  (m_randomization (cfg b) = false -> m_last_arrival_time b <= getTime w + delta) ->
  m_strict_fifo (cfg b) = true ->
  exists t b', arrival b w delta (r1, r2, r3) = (t, b') /\ getTime w < t /\
    m_last_arrival_time b <= m_last_arrival_time b' <= t /\
    b' = set_arrival b (m_last_arrival_time b') /\
    (RANDOMIZATION = false \/ m_randomization (cfg b) = false -> t = getTime w + delta).
Proof.
  intros Hd H1 H3 Hr1 Hr2 Hs. unfold arrival. rewrite Hs.
  pose proof (random_time_pos r1 r2 r3 H1 H3).
  destruct RANDOMIZATION, (m_randomization (cfg b)); simpl;
    [destruct (Z.ltb_spec (m_last_arrival_time b) (getTime w))|..];
    eexists _, _; (split; [done|]); simpl; split_and!; try lia; try (by intros [|]); destruct b; try done;
    simpl in *; auto using Z.le_refl; try (specialize (Hr1 eq_refl)); try (specialize (Hr2 eq_refl)); lia.
Qed.

Lemma enqueue_fifo_node b w q msg delta c x r1 r2 r3 :
  fifo_inv b q -> eq_inv w -> m_current_size (heap w) + 1 < 2 ^ 30 ->
  m_strict_fifo (cfg b) = true -> m_ordering_set (cfg b) = true ->
  m_consumer (cfg b) = Some c -> consumers w !! c = Some x ->
  0 < delta -> 0 <= r1 -> 0 <= r3 ->
  (RANDOMIZATION = false -> m_last_arrival_time b <= getTime w + delta) ->
  (m_randomization (cfg b) = false -> m_last_arrival_time b <= getTime w + delta) ->
  m_LastEnqueueTime msg <= getTime w ->
  - 2 ^ 31 <= m_msg_counter b < 2 ^ 31 - 1 -> Z.of_nat (length q) + 1 < 2 ^ 30 ->
  exists b' w' n, enqueue b w msg delta (r1, r2, r3) = Some (b', w') /\
    fifo_inv b' (q ++ [n]) /\ (payload <$> n_msgptr n) = Some (payload msg) /\
    getTime w < n_time n /\ eq_inv w' /\ pending w' c (n_time n) /\ cfg b' = cfg b /\
    m_msg_counter b' = m_msg_counter b + 1 /\ m_last_arrival_time b' = n_time n /\
    (m_LastEnqueueTime <$> n_msgptr n) = Some (n_time n) /\
    (RANDOMIZATION = false \/ m_randomization (cfg b) = false -> n_time n = getTime w + delta) /\
    scheduleEventAbsolute w (Some c) (n_time n) = Some w'.
Proof.
  intros Hb Hw Hwb Hst Hos Hcon Hx Hd H1 H3 Hr1 Hr2 Hle Hcnt Hlen.
  unfold enqueue, enqueue_node. set (b1 := count_enqueue b w).
  assert (Hcfg : cfg b1 = cfg b) by done. rewrite Hcfg, Hos.
  destruct (Z.ltb_spec 0 delta); [|lia].
  destruct (arrival_spec b1 w delta r1 r2 r3) as (t & b2 & -> & Ht & Hla & Hb2 & Hdet);
    [done..| ].
  assert (Hcfg2 : cfg b2 = cfg b) by (by rewrite Hb2).
  assert (Hcnt2 : m_msg_counter b2 = m_msg_counter b + 1)
    by (rewrite Hb2; simpl; by rewrite s32_small by lia).
  assert (Hbh : b_heap b2 = b_heap b) by (by rewrite Hb2).
  assert (Hbs : m_buf_size b2 = m_buf_size b + 1) by (by rewrite Hb2).
  simpl. destruct (Z.ltb_spec (getTime w) t); [|lia]. rewrite Hcfg2, Hst, Hcon; simpl.
  change (m_last_arrival_time b1) with (m_last_arrival_time b) in *.
  destruct (Z.leb_spec (m_last_arrival_time b2) t); [|lia].
  destruct (Z.leb_spec (m_LastEnqueueTime msg) (getTime w)); [|lia].
  set (n := mkNode t _ _ _ _). rewrite Hbh.
  assert (Hsort : StronglySorted fifo_lt (q ++ [n])).
  { apply StronglySorted_app; split_and!; [|apply Hb|by repeat constructor].
    intros n1 n2 Hn1 ->%list_elem_of_singleton.
    destruct (proj1 (Forall_forall _ _) (fifo_nodes b q Hb) n1 Hn1) as (_ & ? & ?).
    split; simpl; lia. }
  destruct (insert_correct (b_heap b) n) as (h & Hins & Hh & Hp & _).
  { apply Hb. }
  { rewrite (fifo_current_size b q Hb). lia. }
  { apply (comparable_Permutation (q ++ [n])).
    { rewrite (fifo_elems b q Hb). solve_Permutation. }
    apply (nodes_comparable _ false); [|by apply fifo_NoDup].
    apply Forall_app; split; [|by repeat constructor].
    eapply Forall_impl; [apply (fifo_nodes b q Hb)|]. simpl. tauto. }
  rewrite Hins; simpl.
  destruct (schedule_elems w c x t Hw Hwb Hx Ht) as (w' & new & Hsch & Hw' & Hpen & _). rewrite Hsch.
  simpl. eexists _, w', n; split_and!; try done. split; simpl.
  - done.
  - rewrite Hp, (fifo_elems b q Hb). solve_Permutation.
  - done.
  - apply Forall_app; split; [|constructor; [simpl; split_and!; (done || lia)|constructor]].
    eapply Forall_impl; [apply (fifo_nodes b q Hb)|]. simpl. intros ? (? & ? & ?).
    split_and!; (done || lia).
  - rewrite Hbs, (fifo_size b q Hb), length_app. simpl. lia.
Qed.

Lemma pop_fifo_node b w n q :
  fifo_inv b (n :: q) ->
  isReady b w = Some (n_time n <=? getTime w) /\ peekMin (b_heap b) = Some n /\
  (n_time n <= getTime w -> exists b', pop b w = Some b' /\ fifo_inv b' q /\ cfg b' = cfg b).
Proof.
  intros Hb. pose proof (fifo_current_size b _ Hb) as Hcs. simpl in Hcs.
  destruct (extractMin_correct (b_heap b)) as (x & h & Hext & Hh & Hp & _ & Hpk & Hmin);
    [apply Hb|lia|by eapply fifo_comparable|].
  assert (x = n) as ->.
  { assert (Hx : x ∈ n :: q) by (rewrite <-(fifo_elems b _ Hb), Hp; by left).
    apply elem_of_cons in Hx as [->|Hx]; [done|].
    pose proof (fifo_sorted b _ Hb) as [_ Hall]%StronglySorted_inv.
    destruct (proj1 (Forall_forall _ _) Hall x Hx) as [? ?].
    assert (Hn : node_leb x n = true)
      by (apply Hmin; rewrite (fifo_elems b _ Hb); by left).
    apply node_le_spec in Hn. unfold key in Hn.
    pose proof (fifo_nodes b _ Hb) as Hnodes. rewrite Forall_forall in Hnodes.
    destruct (Hnodes x) as [Hdx _]; [by right|]. destruct (Hnodes n) as [Hdn _]; [by left|].
    rewrite Hdx, Hdn in Hn. naive_solver lia. }
  assert (Hr : isReady b w = Some (n_time n <=? getTime w)).
  { unfold isReady, size. rewrite s32_small by (destruct (fifo_heap b _ Hb) as [(_ & ? & _) _]; lia).
    destruct (Z.ltb_spec 0 (m_current_size (b_heap b))); [|lia]. by rewrite Hpk. }
  split_and!; [done|done|]. intros Hle. unfold pop. rewrite Hr; simpl.
  destruct (Z.leb_spec (n_time n) (getTime w)); [|lia]. rewrite Hext; simpl.
  eexists; split_and!; [done| |done].
  pose proof (fifo_sorted b _ Hb) as [? _]%StronglySorted_inv.
  pose proof (fifo_nodes b _ Hb) as [_ ?]%Forall_cons.
  split; simpl; try done.
  - apply (Permutation_cons_inv (a := n)). by rewrite <-Hp, (fifo_elems b _ Hb).
  - rewrite (fifo_size b _ Hb). simpl. lia.
Qed.

(** ** The size other components see *)
(** Any history of a buffer: its own operations, interleaved with the rest
    of the simulation, during which time only moves forward. *)
Inductive buffer_step : MessageBuffer * World R -> MessageBuffer * World R -> Prop :=
| step_enqueue b w b' w' msg delta wts dq rnd :
    enqueue_delayed b w msg delta wts dq rnd = Some (b', w') -> buffer_step (b, w) (b', w')
| step_pop b w b' : pop b w = Some b' -> buffer_step (b, w) (b', w)
| step_recycle b w b' w' : recycle b w = Some (b', w') -> buffer_step (b, w) (b', w')
| step_getSize b w b' s : getSize b w = (s, b') -> buffer_step (b, w) (b', w)
| step_avail b w b' (k : Z) r : areNSlotsAvailable b w k = (r, b') -> buffer_step (b, w) (b', w)
| step_other b w w' : getTime w <= getTime w' -> buffer_step (b, w) (b, w').

(** The visible size never falls below the real one: a pop is hidden until
    the next cycle, an enqueue is not. *)
Definition slots_inv b (now : Z) : Prop :=
  let wn := win b in
  m_time_last_time_enqueue wn <= now /\ m_time_last_time_pop wn <= now /\
  0 <= m_msgs_this_cycle wn /\
  (m_time_last_time_pop wn = now ->
   m_buf_size b <= m_size_at_cycle_start wn +
     (if m_time_last_time_enqueue wn =? now then m_msgs_this_cycle wn else 0)).

Lemma scheduleEventAbsolute_time w c t w' :
  scheduleEventAbsolute w c t = Some w' -> getTime w' = getTime w.
Proof using Type.
  clear. unfold scheduleEventAbsolute. intros H. run H. case_match; [|by simplify_eq].
  run H. by subst.
Qed.

Lemma count_enqueue_slots b w : slots_inv b (getTime w) -> slots_inv (count_enqueue b w) (getTime w).
Proof using Type.
  clear. unfold slots_inv, count_enqueue; simpl. intros (? & ? & ? & Hs).
  destruct (Z.ltb_spec (m_time_last_time_enqueue (win b)) (getTime w)); simpl.
  - rewrite Z.eqb_refl. split_and!; try lia. intros Hp. specialize (Hs Hp).
    destruct (Z.eqb_spec (m_time_last_time_enqueue (win b)) (getTime w)); lia.
  - split_and!; try lia. intros Hp. specialize (Hs Hp).
    destruct (Z.eqb_spec (m_time_last_time_enqueue (win b)) (getTime w)); lia.
Qed.

Lemma slots_inv_ext b b' now :
  win b' = win b -> m_buf_size b' = m_buf_size b -> slots_inv b now -> slots_inv b' now.
Proof using Type. clear. unfold slots_inv. by intros -> ->. Qed.

Lemma arrival_frame b w delta rnd t b' :
  arrival b w delta rnd = (t, b') -> win b' = win b /\ m_buf_size b' = m_buf_size b.
Proof.
  unfold arrival. destruct rnd as [[r1 r2] r3].
  case_match; [|case_match; [case_match|]]; intros [= <- <-]; done.
Qed.

Lemma enqueue_slots b w msg delta wts dq rnd b' w' :
  slots_inv b (getTime w) -> enqueue_node b w msg delta wts dq rnd = Some (b', w') ->
  slots_inv b' (getTime w').
Proof.
  intros Hs%count_enqueue_slots H. unfold enqueue_node in H. run H.
  destruct (arrival _ w delta rnd) as [t b2] eqn:Ha. run H. simplify_eq.
  erewrite scheduleEventAbsolute_time by done.
  apply arrival_frame in Ha as [? ?]. by eapply slots_inv_ext; [..|exact Hs].
Qed.

Lemma pop_slots b w b' : slots_inv b (getTime w) -> pop b w = Some b' -> slots_inv b' (getTime w).
Proof.
  unfold slots_inv. intros (He & Ho & Hm & Hs) Hpop. unfold pop in Hpop. run Hpop.
  destruct x0 as [? h]. run Hpop. subst. simpl.
  destruct (Z.ltb_spec (m_time_last_time_pop (win b)) (getTime w)); simpl.
  - split_and!; try lia. intros _.
    destruct (Z.eqb_spec (m_time_last_time_enqueue (win b)) (getTime w)); lia.
  - split_and!; try done; try lia; intros Hp; specialize (Hs Hp); lia.
Qed.

Lemma buffer_step_slots x y :
  buffer_step x y -> slots_inv x.1 (getTime x.2) -> slots_inv y.1 (getTime y.2).
Proof.
  destruct 1 as [b w b' w' msg delta wts dq rnd H|b w b' H|b w b' w' H|b w b' s H|b w b' k r H|b w w' H];
    simpl; intros Hs.
  - by eapply enqueue_slots.
  - by eapply pop_slots.
  - unfold recycle in H. run H. destruct x0 as [node h]. run H. simplify_eq.
    erewrite scheduleEventAbsolute_time by done. by eapply slots_inv_ext; [..|exact Hs].
  - unfold getSize in H. case_match; by simplify_eq.
  - unfold areNSlotsAvailable in H. repeat case_match; by simplify_eq.
  - destruct Hs as (? & ? & ? & Hs). split_and!; try lia. intros Hp.
    assert (getTime w = getTime w') as E by lia. rewrite <-E in *. auto.
Qed.

Lemma areNSlotsAvailable_inv b w (n : Z) b' :
  slots_inv b (getTime w) -> m_buf_max_size (cfg b) <> -1 ->
  areNSlotsAvailable b w n = (true, b') -> m_buf_size b + n <= m_buf_max_size (cfg b).
Proof.
  unfold slots_inv, areNSlotsAvailable. intros (? & ? & ? & Hs) Hmax.
  destruct (Z.eqb_spec (m_buf_max_size (cfg b)) (-1)); [lia|].
  destruct (Z.ltb_spec (m_time_last_time_pop (win b)) (getTime w));
    [|specialize (Hs ltac:(lia)); destruct (Z.ltb_spec (m_time_last_time_enqueue (win b)) (getTime w));
      destruct (Z.eqb_spec (m_time_last_time_enqueue (win b)) (getTime w)); try lia];
    match goal with |- (if ?a <=? ?b then _ else _) = _ -> _ => destruct (Z.leb_spec a b) end;
    intros [=]; lia.
Qed.

Lemma MessageBuffer_new_slots now : 0 <= now -> slots_inv MessageBuffer_new now.
Proof using Type.
  clear. unfold slots_inv; cbn -[Z.eqb Z.add]. destruct (0 =? now); lia.
Qed.

(** A buffer as the controllers create it: empty, with its order, capacity
    and consumer set. *)
Definition fresh_buffer (c : nat) (order : bool) (max : Z) : MessageBuffer :=
  from_option id MessageBuffer_new (setConsumer (setSize (setOrdering MessageBuffer_new order) max) c).

Lemma fresh_buffer_fifo c order max : fifo_inv (fresh_buffer c order max) [].
Proof using Type. clear. split; [exact PrioHeap_new_inv|by constructor..]. Qed.

(** The range of the extra delays of a randomized run. *)
Lemma random_time_range r1 r2 r3 :
  0 <= r1 -> 0 <= r3 -> 1 <= random_time r1 r2 r3 <= 4 \/ 101 <= random_time r1 r2 r3 <= 118.
Proof using Type.
  clear. intros H1 H3. unfold random_time.
  assert (0 <= Z.land r1 3 < 4).
  { change 3 with (Z.ones 2). rewrite Z.land_ones by lia. by apply Z.mod_pos_bound. }
  assert (0 <= Z.rem r3 15 < 15) by (apply Z.rem_bound_pos; lia).
  case_match; lia.
Qed.

(** C32: the buffer refines a first-in first-out queue: on a strict buffer
    that holds the queue [q], enqueueing a message runs without a failed
    assertion, yields a buffer that holds [q] followed by the message, with
    an arrival time in the future, and schedules the consumer for it. *)
Theorem enqueue_refines b w q msg delta c x r1 r2 r3 :
  fifo_inv b q -> eq_inv w -> m_current_size (heap w) + 1 < 2 ^ 30 ->
  m_strict_fifo (cfg b) = true -> m_ordering_set (cfg b) = true ->
  m_consumer (cfg b) = Some c -> consumers w !! c = Some x ->
  0 < delta -> 0 <= r1 -> 0 <= r3 ->
  (RANDOMIZATION = false -> m_last_arrival_time b <= getTime w + delta) ->
  (m_randomization (cfg b) = false -> m_last_arrival_time b <= getTime w + delta) ->
  m_LastEnqueueTime msg <= getTime w ->
  - 2 ^ 31 <= m_msg_counter b < 2 ^ 31 - 1 -> Z.of_nat (length q) + 1 < 2 ^ 30 ->
  exists b' w' n, enqueue b w msg delta (r1, r2, r3) = Some (b', w') /\
    fifo_inv b' (q ++ [n]) /\ (payload <$> n_msgptr n) = Some (payload msg) /\
    getTime w < n_time n /\ eq_inv w' /\ pending w' c (n_time n).
Proof.
  intros. destruct (enqueue_fifo_node b w q msg delta c x r1 r2 r3)
    as (b' & w' & n & ? & ? & ? & ? & ? & ? & _); [assumption..|].
  exists b', w', n. by split_and!.
Qed.

(** Reading a strict buffer that holds the queue [q]: an empty buffer is
    not ready and its head cannot be taken; otherwise the buffer is ready
    exactly when its oldest message has arrived, and [dequeue] then returns
    that message and leaves the rest of the queue. *)
Theorem dequeue_refines b w q :
  fifo_inv b q ->
  match q with
  | [] => isReady b w = Some false /\ dequeue b w = None /\ peekAtHeadOfQueue b w = None
  | n :: q' =>
      isReady b w = Some (bool_decide (n_time n <= getTime w)) /\
      (getTime w < n_time n -> dequeue b w = None /\ peekAtHeadOfQueue b w = None) /\
      (n_time n <= getTime w -> forall msg, n_msgptr n = Some msg ->
         peekAtHeadOfQueue b w = Some msg /\
         exists b', dequeue b w = Some (msg, b') /\ fifo_inv b' q')
  end.
Proof using Type.
  intros Hb. destruct q as [|n q'].
  - pose proof (fifo_current_size b _ Hb) as Hs. simpl in Hs.
    assert (isReady b w = Some false) as E by (unfold isReady, size; by rewrite Hs).
    unfold dequeue, peekAtHeadOfQueue, pop. rewrite E. split_and!; [done| |done].
    simpl. by destruct (peekMin (b_heap b)).
  - destruct (pop_fifo_node b w n q' Hb) as (Hr & Hpk & Hpop).
    unfold dequeue, peekAtHeadOfQueue. rewrite Hr, Hpk; simpl. split_and!.
    + f_equal. apply eq_true_iff_eq. rewrite Z.leb_le, bool_decide_eq_true. done.
    + intros Hlt. destruct (Z.leb_spec (n_time n) (getTime w)); [lia|]. split; [|done].
      unfold pop. rewrite Hr; simpl. by destruct (Z.leb_spec (n_time n) (getTime w)); [lia|].
    + intros Hle msg Hmsg. destruct (Z.leb_spec (n_time n) (getTime w)); [|lia].
      split; [done|]. destruct (Hpop Hle) as (b' & -> & Hb' & _); simpl. rewrite Hmsg; simpl.
      by exists b'.
Qed.

(** flow control never overfills a bounded buffer: after any history of
    operations on a new buffer, interleaved with the rest of the system and
    with other readers, [areNSlotsAvailable n] answers yes only when [n]
    more messages fit. *)
Theorem areNSlotsAvailable_safe c order max w0 b w k b' :
  0 <= getTime w0 -> rtc buffer_step (fresh_buffer c order max, w0) (b, w) ->
  m_buf_max_size (cfg b) <> -1 -> areNSlotsAvailable b w k = (true, b') ->
  m_buf_size b + k <= m_buf_max_size (cfg b).
Proof.
  intros H0 Hr. apply areNSlotsAvailable_inv.
  remember (fresh_buffer c order max, w0) as x eqn:Ex. remember (b, w) as y eqn:Ey.
  assert (slots_inv x.1 (getTime x.2)) as Hx.
  { subst x. simpl. eapply slots_inv_ext; [..|apply (MessageBuffer_new_slots _ H0)]; done. }
  replace b with (y.1) by (by rewrite Ey). replace w with (y.2) by (by rewrite Ey).
  clear Ex Ey b w w0 H0 b' k. induction Hr; [done|]. apply IHHr. by eapply buffer_step_slots.
Qed.
End buffer.
#[global] Arguments MessageBuffer P : clear implicits.

(** ** A concrete buffer *)
(** One strict buffer of string-free messages (their payload is a number),
    read by consumer 0, without randomization. *)
Section example.
Definition text (k : Z) : Message Z := mkMessage k 0 0.
Definition buffer0 (max : Z) : MessageBuffer Z := fresh_buffer 0 true max.

Definition buffer1 : MessageBuffer Z * World unit :=
  from_option id (buffer0 4, idle_world) (enqueue false (buffer0 4) idle_world (text 7) 1 (0, 0, 0)).

(** [clearStats], called while a message is queued, makes a later
    [enqueue] fail: numbering restarts, the two messages get the same arrival
    time and number, and the heap's comparison fails its assertion. Without
    the [clearStats] the same [enqueue] succeeds. *)
Theorem clearStats_breaks_enqueue :
  exists (b : MessageBuffer Z) (w : World unit) msg,
    rtc (buffer_step false 10) (buffer0 4, idle_world) (b, w) /\
    is_Some (enqueue false b w msg 1 (0, 0, 0)) /\
    enqueue false (clearStats b) w msg 1 (0, 0, 0) = None.
Proof.
  exists buffer1.1, buffer1.2, (text 8). split_and!.
  - apply rtc_once.
    apply (step_enqueue _ _ _ _ _ _ (text 7) 1 0 false (0, 0, 0)). by vm_compute.
  - vm_compute. by eexists.
  - by vm_compute.
Qed.
End example.

Lemma enqueue_refines_witness :
  exists b' w' n, enqueue false (buffer0 4) idle_world (text 7) 1 (0, 0, 0) = Some (b', w') /\
    fifo_inv b' ([] ++ [n]) /\ (payload <$> n_msgptr n) = Some 7 /\
    1 < n_time n /\ eq_inv w' /\ pending w' 0 (n_time n).
Proof.
  apply (enqueue_refines false (buffer0 4) idle_world [] (text 7) 1 0 Consumer_new 0 0 0);
    try (vm_compute; intuition congruence).
  - apply fresh_buffer_fifo.
  - exact idle_world_inv.
Defined.

Definition node1 : MessageBufferNode Z := mkNode 2 1 (Some (mkMessage 7 2 1)) 0 false.

Lemma buffer1_fifo : fifo_inv buffer1.1 [node1].
Proof.
  destruct (enqueue_fifo_node false (buffer0 4) idle_world [] (text 7) 1 0 Consumer_new 0 0 0)
    as (b & w & n & E & Hb & _); try (vm_compute; intuition congruence).
  { apply fresh_buffer_fifo. }
  { exact idle_world_inv. }
  assert (b = buffer1.1) as -> by (unfold buffer1; by rewrite E).
  assert (elems (b_heap buffer1.1) = [node1]) as En by (by vm_compute).
  pose proof (fifo_elems _ _ Hb) as Hp. rewrite En in Hp.
  apply Permutation_singleton_l in Hp. simpl in Hp. by simplify_eq.
Qed.

Lemma dequeue_refines_witness :
  isReady buffer1.1 (set_time idle_world 2) = Some true /\
  exists b', dequeue buffer1.1 (set_time idle_world 2) = Some (mkMessage 7 2 1, b') /\ fifo_inv b' [].
Proof.
  destruct (dequeue_refines buffer1.1 (set_time idle_world 2) [node1] buffer1_fifo)
    as (Hr & _ & Hd).
  split; [exact Hr|]. apply (Hd (Z.le_refl 2) (mkMessage 7 2 1) eq_refl).
Defined.

Lemma areNSlotsAvailable_safe_witness :
  m_buf_size buffer1.1 + 3 <= 4.
Proof.
  apply (areNSlotsAvailable_safe false 10 0 true 4 idle_world buffer1.1 buffer1.2 3
           (snd (areNSlotsAvailable buffer1.1 buffer1.2 3))).
  - discriminate.
  - apply rtc_once.
    apply (step_enqueue _ _ _ _ _ _ (text 7) 1 0 false (0, 0, 0)). vm_compute. reflexivity.
  - discriminate.
  - vm_compute. reflexivity.
Defined.
