(* ===== verification/Config.v ===== *)
(** The configuration of the simulated machine: [config/RubyConfig.C] and
    the integer helpers of [common/util.C]. *)
From S2P Require Import Prelude.

(** ** Helpers *)
(** [log_int]: the loop halves [n] until it is 1; 64 rounds cover a
    [long long]. *)
Fixpoint log_loop (fuel : nat) (n counter : Z) : option Z :=
  match fuel with
  | O => None
  | S fuel => if 2 <=? n then log_loop fuel (Z.shiftr n 1) (counter + 1) else Some counter
  end.

Definition log_int (n : Z) : option Z := assert! 0 <? n; log_loop 64 n 0.

Definition is_power_of_2 (n : Z) : option bool :=
  l ← log_int n; Some (n =? s64 (Z.shiftl 1 l)).

(** [string_split]: the text before and after the first separator. *)
Fixpoint string_split {A} (is_split : A -> bool) (str : list A) : list A * list A :=
  match str with
  | [] => ([], [])
  | c :: str' =>
      if is_split c then ([], str')
      else let '(head, tail) := string_split is_split str' in (c :: head, tail)
  end.

Lemma log_loop_spec fuel n c :
  0 < n < 2 ^ Z.of_nat fuel -> log_loop fuel n c = Some (c + Z.log2 n).
Proof.
  revert n c. induction fuel as [|fuel IH]; intros n c Hn; [change (2 ^ Z.of_nat 0) with 1 in Hn; lia|].
  simpl. destruct (Z.leb_spec 2 n) as [H2|H2].
  - rewrite Nat2Z.inj_succ, Z.pow_succ_r in Hn by lia.
    rewrite Z.shiftr_div_pow2 by lia. change (2 ^ 1) with 2.
    assert (0 < n `div` 2 < 2 ^ Z.of_nat fuel)
      by (pose proof (Z.div_mod n 2); pose proof (Z.mod_pos_bound n 2); lia).
    rewrite IH by done. f_equal.
    replace (n `div` 2) with (Z.shiftr n 1) by (by rewrite Z.shiftr_div_pow2).
    rewrite Z.log2_shiftr by lia. assert (1 <= Z.log2 n) by (by apply (Z.log2_le_mono 2)). lia.
  - replace n with 1 by lia. simpl. f_equal. lia.
Qed.

(** [log_int] is the integer logarithm, on every positive [long long]. *)
Lemma log_int_spec n : 0 < n < 2 ^ 63 -> log_int n = Some (Z.log2 n).
Proof.
  intros Hn. unfold log_int. destruct (Z.ltb_spec 0 n); [|lia].
  rewrite log_loop_spec; [done|]. assert (2 ^ 63 < 2 ^ Z.of_nat 64) by (by vm_compute). lia.
Qed.

Lemma is_power_of_2_spec n b :
  0 <= n < 2 ^ 63 -> is_power_of_2 n = Some b -> 0 < n /\ (b = true -> n = 2 ^ Z.log2 n).
Proof.
  intros Hn H. unfold is_power_of_2 in H.
  destruct (Z.ltb_spec 0 n) as [Hp|Hp]; [|unfold log_int in H; by rewrite (proj2 (Z.ltb_ge 0 n)) in H by lia].
  rewrite log_int_spec in H by lia. simpl in H. injection H as <-. split; [done|].
  intros Hb%Z.eqb_eq. rewrite Z.shiftl_1_l in Hb.
  assert (0 <= Z.log2 n) by apply Z.log2_nonneg.
  assert (Z.log2 n < 63) by (apply Z.log2_lt_pow2; lia).
  pose proof (Z.pow_lt_mono_r 2 (Z.log2 n) 63 ltac:(lia) ltac:(lia) ltac:(lia)).
  rewrite s64_small in Hb; lia.
Qed.

Lemma string_split_spec {A} (is_split : A -> bool) str :
  let '(head, tail) := string_split is_split str in
  Forall (fun c => is_split c = false) head /\
  (str = head /\ tail = [] \/ exists c, is_split c = true /\ str = head ++ c :: tail).
Proof.
  induction str as [|c str IH]; simpl; [by split; [constructor|left]|].
  destruct (is_split c) eqn:Hc; [split; [constructor|right; by exists c]|].
  destruct (string_split is_split str) as [head tail]. destruct IH as [Hf Hs].
  split; [by constructor|]. destruct Hs as [[-> ->]|(c' & ? & ->)]; [by left|right; by exists c'].
Qed.

(** ** The configuration variables *)
(** The [g_...] globals that [RubyConfig::init] reads or computes. *)
Record Globals := mkGlobals {
  g_MEMORY_SIZE_BYTES : Z; g_DATA_BLOCK_BYTES : Z; g_PAGE_SIZE_BYTES : Z;
  g_NUM_PROCESSORS : Z; g_PROCS_PER_CHIP : Z; g_NUM_SMT_THREADS : Z;
  g_NUM_L2_BANKS : Z; g_NUM_MEMORIES : Z; g_NUM_MEMORIES_PER_CHIP : Z;
  g_MEMORY_SIZE_BITS : Z; g_DATA_BLOCK_BITS : Z; g_PAGE_SIZE_BITS : Z;
  g_NUM_PROCESSORS_BITS : Z; g_NUM_CHIPS : Z; g_NUM_CHIP_BITS : Z;
  g_NUM_L2_BANKS_BITS : Z; g_NUM_MEMORIES_BITS : Z; g_PROCS_PER_CHIP_BITS : Z;
  g_NUM_L2_BANKS_PER_CHIP : Z; g_NUM_L2_BANKS_PER_CHIP_BITS : Z;
  g_MEMORY_MODULE_BLOCKS : Z; g_MEMORY_MODULE_BITS : Z;
  L2_CACHE_NUM_SETS_BITS : Z; L2_DIRECTORY_NUM_SETS_BITS : Z;
  MAP_L2BANKS_TO_LOWEST_BITS : bool;
}.

(** The parameters of the memory controller that [init] checks. *)
Record MemParams := mkMemParams {
  MEM_BUS_CYCLE_MULTIPLIER : Z; BANKS_PER_RANK : Z; RANKS_PER_DIMM : Z; DIMMS_PER_CHANNEL : Z;
  BANK_QUEUE_SIZE : Z; BANK_BUSY_TIME : Z; MEM_CTL_LATENCY : Z; REFRESH_PERIOD : Z;
  BASIC_BUS_BUSY_TIME : Z }.

Definition CHECK_ZERO (n : Z) : bool := n =? 0.
Definition CHECK_NON_ZERO (n : Z) : bool := negb (n =? 0).
Definition CHECK_POWER_OF_2 (n : Z) : bool :=
  match is_power_of_2 n with Some b => b | None => false end.

Definition mem_checks (m : MemParams) : bool :=
  forallb CHECK_NON_ZERO [MEM_BUS_CYCLE_MULTIPLIER m; BANKS_PER_RANK m; RANKS_PER_DIMM m;
    DIMMS_PER_CHANNEL m; BANK_QUEUE_SIZE m; BANK_BUSY_TIME m; MEM_CTL_LATENCY m;
    REFRESH_PERIOD m; BASIC_BUS_BUSY_TIME m] &&
  forallb CHECK_POWER_OF_2 [BANKS_PER_RANK m; RANKS_PER_DIMM m; DIMMS_PER_CHANNEL m].

(** [RubyConfig::init], up to the seeding of the random numbers.
    [CMP] is [Protocol::m_CMP]. *)
Definition RubyConfig_init (CMP : bool) (m : MemParams) (g : Globals) : option Globals :=
  assert! mem_checks m;
  assert! forallb CHECK_NON_ZERO [g_MEMORY_SIZE_BYTES g; g_DATA_BLOCK_BYTES g;
    g_PAGE_SIZE_BYTES g; g_NUM_PROCESSORS g; g_PROCS_PER_CHIP g];
  let smt := if g_NUM_SMT_THREADS g =? 0 then 1 else g_NUM_SMT_THREADS g in
  let banks := if g_NUM_L2_BANKS g =? 0 then g_NUM_PROCESSORS g else g_NUM_L2_BANKS g in
  assert! forallb CHECK_ZERO [g_MEMORY_SIZE_BITS g; g_DATA_BLOCK_BITS g; g_PAGE_SIZE_BITS g;
    g_NUM_PROCESSORS_BITS g; g_NUM_CHIP_BITS g; g_NUM_L2_BANKS_BITS g; g_NUM_MEMORIES_BITS g;
    g_PROCS_PER_CHIP_BITS g; g_NUM_L2_BANKS_PER_CHIP g; g_NUM_L2_BANKS_PER_CHIP_BITS g;
    g_NUM_MEMORIES_BITS g; g_MEMORY_MODULE_BLOCKS g; g_MEMORY_MODULE_BITS g];
  assert! (g_NUM_MEMORIES g =? 0) || CHECK_ZERO (g_NUM_MEMORIES_PER_CHIP g);
  assert! forallb CHECK_POWER_OF_2 [g_MEMORY_SIZE_BYTES g; g_DATA_BLOCK_BYTES g;
    g_NUM_PROCESSORS g; banks];
  assert! (g_NUM_MEMORIES g =? 0) || CHECK_POWER_OF_2 (g_NUM_MEMORIES g);
  assert! CHECK_POWER_OF_2 (g_PROCS_PER_CHIP g);
  assert! g_PROCS_PER_CHIP g <=? g_NUM_PROCESSORS g;
  let chips := Z.quot (g_NUM_PROCESSORS g) (g_PROCS_PER_CHIP g) in
  assert! chips <=? banks;
  let banks_per_chip := Z.quot banks chips in
  bank_bits ← log_int banks_per_chip;
  assert! bank_bits <? L2_CACHE_NUM_SETS_BITS g;
  assert! bank_bits <? L2_DIRECTORY_NUM_SETS_BITS g;
  let mems_per_chip :=
    if negb (g_NUM_MEMORIES g =? 0) && (g_NUM_MEMORIES g <? chips) then 1
    else Z.quot (g_NUM_MEMORIES g) chips in
  chip_bits ← log_int chips;
  mem_bits ← log_int (g_MEMORY_SIZE_BYTES g);
  block_bits ← log_int (g_DATA_BLOCK_BYTES g);
  page_bits ← log_int (g_PAGE_SIZE_BYTES g);
  proc_bits ← log_int (g_NUM_PROCESSORS g);
  banks_bits ← log_int banks;
  memories_bits ← (if negb (g_NUM_MEMORIES g =? 0) then log_int (g_NUM_MEMORIES g)
                   else Some (g_NUM_MEMORIES_BITS g));
  ppc_bits ← log_int (g_PROCS_PER_CHIP g);
  let module_bits := mem_bits - block_bits - memories_bits in
  assert! 0 <=? module_bits; (* a negative shift is undefined *)
  assert! CMP || (g_PROCS_PER_CHIP g <=? 1);
  Some (mkGlobals (g_MEMORY_SIZE_BYTES g) (g_DATA_BLOCK_BYTES g) (g_PAGE_SIZE_BYTES g)
    (g_NUM_PROCESSORS g) (g_PROCS_PER_CHIP g) smt banks (g_NUM_MEMORIES g) mems_per_chip
    mem_bits block_bits page_bits proc_bits chips chip_bits banks_bits memories_bits ppc_bits
    banks_per_chip bank_bits (s64 (Z.shiftl 1 module_bits)) module_bits
    (L2_CACHE_NUM_SETS_BITS g - bank_bits) (L2_DIRECTORY_NUM_SETS_BITS g - bank_bits)
    (MAP_L2BANKS_TO_LOWEST_BITS g)).

Definition L1CacheNumToL2Base (g : Globals) (L1CacheNum : Z) : Z :=
  Z.quot L1CacheNum (g_PROCS_PER_CHIP g).

(** ** What [init] guarantees *)
Record config_wf (g : Globals) : Prop := {
  wf_block : g_DATA_BLOCK_BYTES g = 2 ^ g_DATA_BLOCK_BITS g;
  wf_memory : g_MEMORY_SIZE_BYTES g = 2 ^ g_MEMORY_SIZE_BITS g;
  wf_procs : g_NUM_PROCESSORS g = 2 ^ g_NUM_PROCESSORS_BITS g;
  wf_ppc : g_PROCS_PER_CHIP g = 2 ^ g_PROCS_PER_CHIP_BITS g;
  wf_chips : g_NUM_CHIPS g = 2 ^ g_NUM_CHIP_BITS g;
  wf_banks_per_chip : g_NUM_L2_BANKS_PER_CHIP g = 2 ^ g_NUM_L2_BANKS_PER_CHIP_BITS g;
  wf_bits : Forall (fun b => 0 <= b < 63) [g_DATA_BLOCK_BITS g; g_MEMORY_SIZE_BITS g;
    g_NUM_PROCESSORS_BITS g; g_PROCS_PER_CHIP_BITS g; g_NUM_CHIP_BITS g;
    g_NUM_L2_BANKS_PER_CHIP_BITS g; g_NUM_MEMORIES_BITS g; g_MEMORY_MODULE_BITS g];
  wf_banks : g_NUM_L2_BANKS g = g_NUM_CHIPS g * g_NUM_L2_BANKS_PER_CHIP g;
  wf_processors : g_NUM_PROCESSORS g = g_NUM_CHIPS g * g_PROCS_PER_CHIP g;
  wf_sets : 0 < L2_CACHE_NUM_SETS_BITS g /\ 0 < L2_DIRECTORY_NUM_SETS_BITS g;
  wf_memories : g_NUM_MEMORIES g = 0 /\ g_NUM_MEMORIES_BITS g = 0 \/
                g_NUM_MEMORIES g = 2 ^ g_NUM_MEMORIES_BITS g;
  wf_module : g_MEMORY_MODULE_BLOCKS g = 2 ^ g_MEMORY_MODULE_BITS g /\
    g_MEMORY_SIZE_BITS g = g_MEMORY_MODULE_BITS g + g_DATA_BLOCK_BITS g + g_NUM_MEMORIES_BITS g;
}.

(** The machine types of the inputs. *)
Definition globals_typed (g : Globals) : Prop :=
  Forall (fun z => 0 <= z < 2 ^ 63) [g_MEMORY_SIZE_BYTES g; g_DATA_BLOCK_BYTES g;
    g_PAGE_SIZE_BYTES g; g_NUM_PROCESSORS g; g_PROCS_PER_CHIP g; g_NUM_L2_BANKS g;
    g_NUM_MEMORIES g].

Lemma log_int_Some n l : 0 <= n < 2 ^ 63 -> log_int n = Some l -> 0 < n /\ l = Z.log2 n /\ 0 <= l < 63.
Proof.
  intros Hn H. assert (Hpos : 0 < n).
  { unfold log_int in H. destruct (Z.ltb_spec 0 n); [done|discriminate]. }
  rewrite log_int_spec in H by lia. injection H as <-.
  split_and!; [done..|apply Z.log2_nonneg|apply Z.log2_lt_pow2; lia].
Qed.

Lemma CHECK_POWER_OF_2_spec n :
  0 <= n < 2 ^ 63 -> CHECK_POWER_OF_2 n = true -> n = 2 ^ Z.log2 n /\ 0 <= Z.log2 n < 63.
Proof.
  intros Hn. unfold CHECK_POWER_OF_2. destruct (is_power_of_2 n) as [b|] eqn:E; [|discriminate].
  intros ->. destruct (is_power_of_2_spec n true Hn E) as [Hpos Hp].
  split_and!; [by apply Hp|apply Z.log2_nonneg|apply Z.log2_lt_pow2; lia].
Qed.

(** Quotients of powers of two. *)
Lemma pow2_quot a b :
  0 <= a -> 0 <= b -> 2 ^ b <= 2 ^ a ->
  b <= a /\ Z.quot (2 ^ a) (2 ^ b) = 2 ^ (a - b) /\ 2 ^ a = 2 ^ (a - b) * 2 ^ b.
Proof.
  intros Ha Hb Hle. assert (b <= a) by (apply (Z.pow_le_mono_r_iff 2); lia).
  assert (E : 2 ^ a = 2 ^ (a - b) * 2 ^ b) by (rewrite <-Z.pow_add_r by lia; f_equal; lia).
  split_and!; [done| |done]. rewrite E. apply Z.quot_mul. by apply Z.pow_nonzero.
Qed.

Lemma checked_log n l :
  0 <= n < 2 ^ 63 -> CHECK_POWER_OF_2 n = true -> log_int n = Some l -> n = 2 ^ l /\ 0 <= l < 63.
Proof.
  intros Hn Hc Hl. apply log_int_Some in Hl as (_ & -> & ?); [|done].
  by destruct (CHECK_POWER_OF_2_spec n Hn Hc).
Qed.

Lemma quot_log a b n m l :
  n = 2 ^ a -> m = 2 ^ b -> 0 <= a < 63 -> 0 <= b -> m <= n ->
  log_int (Z.quot n m) = Some l -> Z.quot n m = 2 ^ l /\ 0 <= l < 63 /\ n = m * Z.quot n m.
Proof.
  intros -> -> Ha Hb Hle Hl. destruct (pow2_quot a b) as (Hab & Eq & Em); [lia..|].
  assert (2 ^ (a - b) < 2 ^ 63) by (apply Z.pow_lt_mono_r; lia).
  rewrite Eq in *. rewrite log_int_spec, Z.log2_pow2 in Hl by lia. injection Hl as <-.
  split_and!; [done|lia..].
Qed.

Lemma RubyConfig_init_wf CMP m g g' :
  globals_typed g -> RubyConfig_init CMP m g = Some g' -> config_wf g'.
Proof.
  intros Ht H. unfold globals_typed in Ht. rewrite !Forall_cons in Ht. cbv beta in Ht.
  destruct Ht as (Hm & Hb & Hpg & Hp & Hpc & Hbk & Hmm & _).
  unfold RubyConfig_init in H.
  set (banks := if g_NUM_L2_BANKS g =? 0 then g_NUM_PROCESSORS g else g_NUM_L2_BANKS g) in H.
  assert (Hbanks : 0 <= banks < 2 ^ 63)
    by (clear H; subst banks; by destruct (g_NUM_L2_BANKS g =? 0)).
  set (chips := Z.quot _ _) in H. run H. clearbody banks. subst g'.
  repeat match goal with
  | E : forallb CHECK_POWER_OF_2 _ = true |- _ => apply forallb_forall with (x := g_NUM_PROCESSORS g) in E as Ecp; [|simpl; tauto];
      pose proof (proj1 (forallb_forall _ _) E banks ltac:(simpl; tauto));
      pose proof (proj1 (forallb_forall _ _) E (g_MEMORY_SIZE_BYTES g) ltac:(simpl; tauto));
      pose proof (proj1 (forallb_forall _ _) E (g_DATA_BLOCK_BYTES g) ltac:(simpl; tauto)); clear E
  | E : forallb CHECK_ZERO _ = true |- _ =>
      pose proof (proj1 (forallb_forall _ _) E (g_NUM_MEMORIES_BITS g) ltac:(simpl; tauto)); clear E
  | E : forallb _ _ = true |- _ => clear E
  | E : (_ <=? _) = true |- _ => apply Z.leb_le in E
  | E : (_ <? _) = true |- _ => apply Z.ltb_lt in E
  end.
  destruct (checked_log (g_NUM_PROCESSORS g) x4) as [Ep ?]; [done..|].
  destruct (checked_log (g_PROCS_PER_CHIP g) x7) as [Ec ?]; [done..|].
  destruct (checked_log banks x5) as [Ebk ?]; [done..|].
  destruct (checked_log (g_MEMORY_SIZE_BYTES g) x1) as [Em ?]; [done..|].
  destruct (checked_log (g_DATA_BLOCK_BYTES g) x2) as [Eb ?]; [done..|].
  destruct (quot_log x4 x7 (g_NUM_PROCESSORS g) (g_PROCS_PER_CHIP g) x0) as (Ech & ? & Epp); [done|done|lia..|done|].
  fold chips in Ech, Epp.
  destruct (quot_log x5 x0 banks chips x) as (Ebc & ? & Ebb); [done|done|lia..|done|].
  assert ((g_NUM_MEMORIES g = 0 /\ x6 = 0 \/ g_NUM_MEMORIES g = 2 ^ x6) /\ 0 <= x6 < 63) as [? ?].
  { destruct (Z.eqb_spec (g_NUM_MEMORIES g) 0); simpl in *.
    - injection E6 as <-. unfold CHECK_ZERO in *. lia.
    - destruct (checked_log (g_NUM_MEMORIES g) x6) as [? ?]; [done..|]. auto. }
  split; simpl; try done; try lia.
  - repeat constructor; lia.
  - split; [|lia]. rewrite Z.shiftl_1_l. apply s64_small.
    assert (2 ^ (x1 - x2 - x6) < 2 ^ 63) by (apply Z.pow_lt_mono_r; lia). lia.
Qed.

(** the configuration [RubyConfig::init] accepts is consistent: every
    [..._BITS] variable is the exact logarithm of its size, processors and L2
    banks are split evenly over the chips, every chip keeps at least one set
    per bank, and the memory is exactly covered by the directory modules. *)
Theorem init_consistent CMP m g g' :
  globals_typed g -> RubyConfig_init CMP m g = Some g' -> config_wf g'.
Proof. apply RubyConfig_init_wf. Qed.

(** A small GPU: one chip of 16 processors, 8 L2 banks and 8 memories,
    128-byte blocks. *)
Definition default_mem : MemParams := mkMemParams 10 8 2 2 12 11 1 1560 2.

Definition default_globals : Globals :=
  mkGlobals (2 ^ 32) 128 4096 16 16 0 8 8 0 0 0 0 0 0 0 0 0 0 0 0 0 0 9 10 true.

Definition default_config : Globals :=
  from_option id default_globals (RubyConfig_init true default_mem default_globals).

Lemma default_init : RubyConfig_init true default_mem default_globals = Some default_config.
Proof. by vm_compute. Qed.

Lemma init_consistent_witness :
  globals_typed default_globals /\ config_wf default_config.
Proof.
  split; [repeat constructor; vm_compute; congruence|].
  apply (init_consistent true default_mem default_globals default_config).
  - repeat constructor; vm_compute; congruence.
  - exact default_init.
Defined.
