(* ===== verification/Address.v ===== *)
(** Addresses and the address maps: [common/Address.h] and
    [slicc_interface/RubySlicc_ComponentMapping.h]. *)
From S2P Require Import Prelude Config.

(** An [Address] is its 64-bit value. *)
Definition Address := Z.
Definition ADDRESS_WIDTH : Z := 64.

(** ** Bit fields *)
(** Shifting by a negative number or by the width is undefined. *)
Definition bitSelect (a : Address) (small big : Z) : option Z :=
  assert! small <=? big;
  assert! (0 <=? small) && (small <? ADDRESS_WIDTH);
  if ADDRESS_WIDTH - 1 <=? big then Some (Z.shiftr a small)
  else
    let mask := not64 (u64 (Z.shiftl ones64 (big + 1))) in
    let partial := Z.land a mask in
    Some (Z.shiftr partial small).

Definition maskLowOrderBits (a : Address) (number : Z) : option Z :=
  if ADDRESS_WIDTH - 1 <=? number then Some (Z.land a ones64)
  else
    assert! 0 <=? number;
    Some (Z.land a (u64 (Z.shiftl ones64 number))).

Definition maskHighOrderBits (a : Address) (number : Z) : option Z :=
  if ADDRESS_WIDTH - 1 <=? number then Some (Z.land a ones64)
  else
    assert! 0 <=? number;
    Some (Z.land a (Z.shiftr ones64 number)).

Definition shiftLowOrderBits (a : Address) (number : Z) : option Z :=
  assert! (0 <=? number) && (number <? ADDRESS_WIDTH);
  Some (Z.shiftr a number).

Section address.
Variable g : Globals.

Definition getLineAddress (a : Address) : option Z :=
  bitSelect a (g_DATA_BLOCK_BITS g) ADDRESS_WIDTH.

Definition getOffset (a : Address) : option Z := bitSelect a 0 (g_DATA_BLOCK_BITS g - 1).

Definition makeLineAddress (a : Address) : option Address :=
  maskLowOrderBits a (g_DATA_BLOCK_BITS g).

Definition makeNextStrideAddress (a : Address) (stride : Z) : option Address :=
  l ← maskLowOrderBits a (g_DATA_BLOCK_BITS g);
  Some (u64 (l + s32 (g_DATA_BLOCK_BYTES g * stride))).

Definition makePageAddress (a : Address) : option Address :=
  maskLowOrderBits a (g_PAGE_SIZE_BITS g).

Definition setOffset (a : Address) (offset : Z) : option Address :=
  l ← makeLineAddress a; Some (Z.lor l (u64 offset)).

Definition line_address (a : Address) : option Address := makeLineAddress a.

Definition next_stride_address (a : Address) (stride : Z) : option Address :=
  temp ← makeNextStrideAddress a stride;
  maskHighOrderBits temp (ADDRESS_WIDTH - g_MEMORY_SIZE_BITS g).

Definition page_address (a : Address) : option Address := makePageAddress a.

Definition memoryModuleIndex (a : Address) : option Z :=
  index ← bitSelect a (g_DATA_BLOCK_BITS g + g_NUM_MEMORIES_BITS g) ADDRESS_WIDTH;
  let index := s64 index in
  assert! 0 <=? index;
  assert! index <? g_MEMORY_MODULE_BLOCKS g;
  Some index.

(** ** Address maps *)
(** The machine types, and a machine of one type. *)
Inductive MachineType := L1Cache | L2Cache | L3Cache | Directory | Collector | PersistentArbiter.
#[global] Instance MachineType_eq_dec : EqDecision MachineType.
Proof. solve_decision. Defined.

Record MachineID := mkMachine { m_type : MachineType; m_num : Z }.
#[global] Instance MachineID_eq_dec : EqDecision MachineID.
Proof. solve_decision. Defined.

Definition map_address_to_L1CacheSet (a : Address) (cache_num_set_bits : Z) : option Z :=
  i ← bitSelect a (g_DATA_BLOCK_BITS g) (g_DATA_BLOCK_BITS g + cache_num_set_bits - 1);
  Some (s32 i).

Definition map_address_to_L2CacheSet (a : Address) (cache_num_set_bits : Z) : option Z :=
  i ← (if MAP_L2BANKS_TO_LOWEST_BITS g then
         bitSelect a (g_DATA_BLOCK_BITS g + g_NUM_L2_BANKS_PER_CHIP_BITS g)
           (g_DATA_BLOCK_BITS g + g_NUM_L2_BANKS_PER_CHIP_BITS g + cache_num_set_bits - 1)
       else bitSelect a (g_DATA_BLOCK_BITS g) (g_DATA_BLOCK_BITS g + cache_num_set_bits - 1));
  Some (s32 i).

(** The bank of an address within a chip, as both maps below compute it. *)
Definition L2bank (a : Address) : option Z :=
  bank ← (if 0 <? g_NUM_L2_BANKS_PER_CHIP_BITS g then
            i ← (if MAP_L2BANKS_TO_LOWEST_BITS g then
                   bitSelect a (g_DATA_BLOCK_BITS g)
                     (g_DATA_BLOCK_BITS g + g_NUM_L2_BANKS_PER_CHIP_BITS g - 1)
                 else
                   bitSelect a (g_DATA_BLOCK_BITS g + L2_CACHE_NUM_SETS_BITS g)
                     (g_DATA_BLOCK_BITS g + L2_CACHE_NUM_SETS_BITS g
                      + g_NUM_L2_BANKS_PER_CHIP_BITS g - 1));
            Some (s32 i)
          else Some 0);
  assert! bank <? g_NUM_L2_BANKS_PER_CHIP g;
  assert! 0 <=? bank;
  Some bank.

Definition map_L1CacheMachId_to_L2Cache (a : Address) (L1CacheMachId : MachineID)
    : option MachineID :=
  bank ← L2bank a;
  let num := L1CacheNumToL2Base g (m_num L1CacheMachId) * g_NUM_L2_BANKS_PER_CHIP g + bank in
  assert! num <? g_NUM_L2_BANKS g;
  Some (mkMachine L2Cache num).

Definition map_L2ChipId_to_L2Cache (a : Address) (L2ChipId : Z) : option MachineID :=
  assert! L2ChipId <? g_NUM_CHIPS g;
  bank ← L2bank a;
  let num := L2ChipId * g_NUM_L2_BANKS_PER_CHIP g + bank in
  assert! num <? g_NUM_L2_BANKS g;
  Some (mkMachine L2Cache num).

Definition map_Address_to_DirectoryNode (a : Address) : option Z :=
  dirNode ← (if 0 <? g_NUM_MEMORIES_BITS g then
               i ← bitSelect a (g_DATA_BLOCK_BITS g)
                     (g_DATA_BLOCK_BITS g + g_NUM_MEMORIES_BITS g - 1);
               Some (s32 i)
             else Some 0);
  assert! dirNode <? g_NUM_MEMORIES g;
  assert! 0 <=? dirNode;
  Some dirNode.

Definition map_Address_to_Directory (a : Address) : option MachineID :=
  n ← map_Address_to_DirectoryNode a; Some (mkMachine Directory n).

Definition map_Address_to_CentralArbiterNode (a : Address) : option MachineID :=
  n ← map_Address_to_DirectoryNode a;
  assert! n <? g_NUM_MEMORIES g;
  assert! 0 <=? n;
  Some (mkMachine PersistentArbiter n).

Definition isLocalProcessor (thisId tarID : MachineID) : bool :=
  let start := Z.quot (m_num thisId) (g_PROCS_PER_CHIP g) * g_PROCS_PER_CHIP g in
  existsb (fun i => i =? m_num tarID) (seqZ start (g_PROCS_PER_CHIP g)).

Definition isL1OnChip (L1machID : MachineID) (L2NodeID : Z) : bool :=
  if decide (m_type L1machID = L1Cache) then m_num L1machID =? L2NodeID else false.

Definition isL2OnChip (L2machID : MachineID) (L2NodeID : Z) : bool :=
  if decide (m_type L2machID = L2Cache) then m_num L2machID =? L2NodeID else false.

Definition closest_clockwise_distance (this_node next_node : Z) : Z :=
  if this_node <=? next_node then next_node - this_node
  else next_node - this_node + g_NUM_CHIPS g.

Definition closer_clockwise_processor (this_node newer older : Z) : bool :=
  closest_clockwise_distance this_node newer <? closest_clockwise_distance this_node older.

Definition getChipID (L2machID : MachineID) : Z :=
  Z.quot (Z.rem (m_num L2machID) (g_NUM_CHIPS g)) (g_PROCS_PER_CHIP g).

Definition machineIDToNodeID (machID : MachineID) : Z := m_num machID.
Definition machineIDToVersion (machID : MachineID) : Z := Z.quot (m_num machID) (g_NUM_CHIPS g).
Definition machineIDToMachineType (machID : MachineID) : MachineType := m_type machID.

Definition L1CacheMachIDToProcessorNum (machID : MachineID) : option Z :=
  assert! bool_decide (m_type machID = L1Cache); Some (m_num machID).

Definition L2CacheMachIDToChipID (machID : MachineID) : option Z :=
  assert! bool_decide (m_type machID = L2Cache);
  Some (Z.quot (m_num machID) (g_NUM_L2_BANKS_PER_CHIP g)).

Definition getCollectorDest (L1MachID : MachineID) : MachineID :=
  mkMachine Collector (m_num L1MachID).
Definition getCollectorL1Cache (colID : MachineID) : MachineID := mkMachine L1Cache (m_num colID).
Definition getL1MachineID (L1RubyNode : Z) : MachineID := mkMachine L1Cache L1RubyNode.

(** ** What the bit operations compute *)
Implicit Types a : Z.
Definition is_u64 (a : Z) : Prop := 0 <= a < 2 ^ 64.

Lemma bitSelect_spec a small big :
  is_u64 a -> 0 <= small <= big -> small < 64 ->
  bitSelect a small big =
    Some (if decide (big < 63) then (a `div` 2 ^ small) `mod` 2 ^ (big - small + 1)
          else a `div` 2 ^ small).
Proof using Type.
  intros Ha Hs H64. unfold bitSelect, ADDRESS_WIDTH.
  destruct (Z.leb_spec small big); [|lia]. destruct (Z.leb_spec 0 small); [|lia].
  destruct (Z.ltb_spec small 64); [|lia]. simpl. destruct (Z.leb_spec (64 - 1) big).
  - rewrite decide_False by lia. by rewrite Z.shiftr_div_pow2 by lia.
  - rewrite decide_True by lia. f_equal. rewrite land_low_mask, Z.shiftr_div_pow2 by (done || lia).
    replace (2 ^ (big + 1)) with (2 ^ small * 2 ^ (big - small + 1))
      by (rewrite <-Z.pow_add_r by lia; f_equal; lia).
    pose proof (Z.pow_pos_nonneg 2 small). pose proof (Z.pow_pos_nonneg 2 (big - small + 1)).
    rewrite Z.rem_mul_r by lia. rewrite Z.mul_comm, Z.div_add by lia.
    rewrite Z.div_small by (apply Z.mod_pos_bound; lia). lia.
Qed.

Lemma bitSelect_bounds a small big i :
  is_u64 a -> 0 <= small <= big -> big < 63 -> bitSelect a small big = Some i ->
  0 <= i < 2 ^ (big - small + 1).
Proof using Type.
  intros Ha Hs Hb. rewrite bitSelect_spec, decide_True by (done || lia). intros [= <-].
  apply Z.mod_pos_bound. apply Z.pow_pos_nonneg; lia.
Qed.

Lemma maskLowOrderBits_spec a n :
  is_u64 a -> 0 <= n < 63 -> maskLowOrderBits a n = Some (a `div` 2 ^ n * 2 ^ n).
Proof using Type.
  intros Ha Hn. unfold maskLowOrderBits, ADDRESS_WIDTH.
  destruct (Z.leb_spec (64 - 1) n); [lia|]. destruct (Z.leb_spec 0 n); [|lia].
  f_equal. apply land_high_mask; [done|lia].
Qed.

(** ** The address maps *)
(** The fields of an address fit: block offset, bank and set index together
    stay below bit 63, and each index is an [int]. *)
Definition fields_fit : Prop :=
  g_DATA_BLOCK_BITS g + g_NUM_L2_BANKS_PER_CHIP_BITS g + L2_CACHE_NUM_SETS_BITS g < 64 /\
  g_NUM_L2_BANKS_PER_CHIP_BITS g < 32 /\ L2_CACHE_NUM_SETS_BITS g < 32.

Context (Hwf : config_wf g) (Hfit : fields_fit).

Lemma block_bits : 0 <= g_DATA_BLOCK_BITS g < 63.
Proof using Hwf. pose proof (wf_bits g Hwf) as H. by repeat apply Forall_cons in H as [? H]. Qed.

Lemma bank_bits : 0 <= g_NUM_L2_BANKS_PER_CHIP_BITS g < 63.
Proof using Hwf.
  pose proof (wf_bits g Hwf) as H. repeat apply Forall_cons in H as [? H]. done.
Qed.

(** A field of fewer than 32 bits, read as an [int]. *)
Definition field (a lo n : Z) : Z := (a `div` 2 ^ lo) `mod` 2 ^ n.

Lemma field_bounds a lo n : 0 <= n -> 0 <= field a lo n < 2 ^ n.
Proof using Type. intros Hn. apply Z.mod_pos_bound, Z.pow_pos_nonneg; lia. Qed.

Lemma bitSelect_field a lo n :
  is_u64 a -> 0 <= lo -> 0 < n -> lo + n < 64 ->
  bitSelect a lo (lo + n - 1) = Some (field a lo n).
Proof using Type.
  intros Ha Hlo Hn Hb. rewrite bitSelect_spec, decide_True by (done || lia).
  unfold field. do 3 f_equal. lia.
Qed.

Lemma s32_field a lo n : 0 <= n < 32 -> s32 (field a lo n) = field a lo n.
Proof using Type.
  intros Hn. pose proof (field_bounds a lo n ltac:(lia)).
  assert (2 ^ n <= 2 ^ 31) by (apply Z.pow_le_mono_r; lia). apply s32_small. lia.
Qed.

(** Where the bank index starts. *)
Definition bank_lo : Z :=
  if MAP_L2BANKS_TO_LOWEST_BITS g then g_DATA_BLOCK_BITS g
  else g_DATA_BLOCK_BITS g + L2_CACHE_NUM_SETS_BITS g.

Definition set_lo : Z :=
  if MAP_L2BANKS_TO_LOWEST_BITS g then g_DATA_BLOCK_BITS g + g_NUM_L2_BANKS_PER_CHIP_BITS g
  else g_DATA_BLOCK_BITS g.

Lemma L2bank_spec a :
  is_u64 a -> L2bank a = Some (field a bank_lo (g_NUM_L2_BANKS_PER_CHIP_BITS g)).
Proof using Hwf Hfit.
  intros Ha. destruct Hfit as (? & ? & ?). pose proof block_bits. pose proof bank_bits.
  destruct (wf_sets g Hwf) as [? _]. unfold L2bank, bank_lo.
  set (n := g_NUM_L2_BANKS_PER_CHIP_BITS g) in *.
  assert (Hb : forall lo, 0 <= lo -> lo + n < 64 -> 0 < n ->
    bitSelect a lo (lo + n - 1) ≫= (fun i => Some (s32 i)) = Some (field a lo n)).
  { intros lo ? ? ?. rewrite bitSelect_field by (done || lia). simpl. by rewrite s32_field by lia. }
  rewrite (wf_banks_per_chip g Hwf). fold n.
  assert (Hin : forall lo, (field a lo n <? 2 ^ n) = true /\ (0 <=? field a lo n) = true)
    by (intros lo; pose proof (field_bounds a lo n ltac:(lia)); lia).
  destruct (Z.ltb_spec 0 n).
  - destruct (MAP_L2BANKS_TO_LOWEST_BITS g); rewrite Hb by lia; simpl;
      by destruct (Hin (g_DATA_BLOCK_BITS g + L2_CACHE_NUM_SETS_BITS g)) as [-> ->]
      || by destruct (Hin (g_DATA_BLOCK_BITS g)) as [-> ->].
  - assert (n = 0) as Hn by lia. unfold field. rewrite Hn. change (2 ^ 0) with 1.
    by rewrite Z.mod_1_r.
Qed.

Lemma map_address_to_L2CacheSet_spec a :
  is_u64 a ->
  map_address_to_L2CacheSet a (L2_CACHE_NUM_SETS_BITS g) =
    Some (field a set_lo (L2_CACHE_NUM_SETS_BITS g)).
Proof using Hwf Hfit.
  intros Ha. destruct Hfit as (? & ? & ?). pose proof block_bits. pose proof bank_bits.
  destruct (wf_sets g Hwf) as [? _]. unfold map_address_to_L2CacheSet, set_lo.
  destruct (MAP_L2BANKS_TO_LOWEST_BITS g);
    rewrite bitSelect_field by (done || lia); simpl; by rewrite s32_field by lia.
Qed.

(** A field above the block offset depends only on the block. *)
Lemma field_line a b lo n :
  g_DATA_BLOCK_BITS g <= lo ->
  a `div` 2 ^ g_DATA_BLOCK_BITS g = b `div` 2 ^ g_DATA_BLOCK_BITS g ->
  field a lo n = field b lo n.
Proof using Hwf.
  intros Hlo Hl. pose proof block_bits. unfold field. f_equal.
  replace (2 ^ lo) with (2 ^ g_DATA_BLOCK_BITS g * 2 ^ (lo - g_DATA_BLOCK_BITS g))
    by (rewrite <-Z.pow_add_r by lia; f_equal; lia).
  rewrite <-!Z.div_div by (try apply Z.pow_nonzero; try apply Z.pow_pos_nonneg; lia).
  by rewrite Hl.
Qed.

(** Two adjacent fields make up one wider field. *)
Lemma field_split a lo n m :
  0 <= lo -> 0 <= n -> 0 <= m ->
  field a lo (n + m) = field a lo n + 2 ^ n * field a (lo + n) m.
Proof using Type.
  intros ? ? ?. unfold field. rewrite (Z.pow_add_r 2 lo n), (Z.pow_add_r 2 n m) by lia.
  rewrite <-Z.div_div by (try apply Z.pow_nonzero; try apply Z.pow_pos_nonneg; lia).
  by rewrite Z.rem_mul_r by (try apply Z.pow_nonzero; try apply Z.pow_pos_nonneg; lia).
Qed.

Lemma line_address_spec a :
  is_u64 a -> line_address a = Some (a `div` 2 ^ g_DATA_BLOCK_BITS g * 2 ^ g_DATA_BLOCK_BITS g).
Proof using Hwf. intros Ha. apply maskLowOrderBits_spec; [done|apply block_bits]. Qed.

Lemma block_aligned a :
  is_u64 a ->
  is_u64 (a `div` 2 ^ g_DATA_BLOCK_BITS g * 2 ^ g_DATA_BLOCK_BITS g) /\
  (a `div` 2 ^ g_DATA_BLOCK_BITS g * 2 ^ g_DATA_BLOCK_BITS g) `div` 2 ^ g_DATA_BLOCK_BITS g
    = a `div` 2 ^ g_DATA_BLOCK_BITS g.
Proof using Hwf.
  intros [H0 H1]. pose proof block_bits.
  assert (0 < 2 ^ g_DATA_BLOCK_BITS g) by (apply Z.pow_pos_nonneg; lia).
  split; [|by apply Z.div_mul; lia].
  pose proof (Z.mul_div_le a (2 ^ g_DATA_BLOCK_BITS g) ltac:(lia)).
  pose proof (Z.div_pos a (2 ^ g_DATA_BLOCK_BITS g) ltac:(lia) ltac:(lia)).
  split; [apply Z.mul_nonneg_nonneg|]; lia.
Qed.

(** Every L1 finds a bank for every address. *)
Lemma L1_bank_total a chip k :
  is_u64 a -> 0 <= chip < g_NUM_CHIPS g -> 0 <= k < g_PROCS_PER_CHIP g ->
  map_L1CacheMachId_to_L2Cache a (mkMachine L1Cache (chip * g_PROCS_PER_CHIP g + k)) =
    Some (mkMachine L2Cache (chip * g_NUM_L2_BANKS_PER_CHIP g + field a bank_lo (g_NUM_L2_BANKS_PER_CHIP_BITS g))).
Proof using Hwf Hfit.
  intros Ha Hc Hk. pose proof block_bits. pose proof bank_bits.
  destruct (wf_sets g Hwf) as [? _].
  set (bank := field a bank_lo (g_NUM_L2_BANKS_PER_CHIP_BITS g)).
  assert (Hb : 0 <= bank < g_NUM_L2_BANKS_PER_CHIP g)
    by (rewrite (wf_banks_per_chip g Hwf); apply field_bounds; lia).
  pose proof (wf_banks g Hwf) as Hbanks.
  assert (Hlt : chip * g_NUM_L2_BANKS_PER_CHIP g + bank < g_NUM_L2_BANKS g) by nia.
  unfold map_L1CacheMachId_to_L2Cache, L1CacheNumToL2Base. rewrite L2bank_spec by done. simpl.
  rewrite (quot_base chip (g_PROCS_PER_CHIP g) k) by lia. fold bank.
  by rewrite (proj2 (Z.ltb_lt _ _) Hlt).
Qed.

(** Every address has exactly one L2 bank on each chip. The map never
    fails an assertion; it names a bank of that chip, the same for the whole
    block; [L2CacheMachIDToChipID] recovers the chip; and every L1 of the chip
    computes the same bank from its own number. *)
Theorem L2_map_correct a chip k :
  is_u64 a -> 0 <= chip < g_NUM_CHIPS g -> 0 <= k < g_PROCS_PER_CHIP g ->
  exists m line, map_L2ChipId_to_L2Cache a chip = Some m /\ m_type m = L2Cache /\
    chip * g_NUM_L2_BANKS_PER_CHIP g <= m_num m < (chip + 1) * g_NUM_L2_BANKS_PER_CHIP g /\
    line_address a = Some line /\ map_L2ChipId_to_L2Cache line chip = Some m /\
    L2CacheMachIDToChipID m = Some chip /\
    map_L1CacheMachId_to_L2Cache a (mkMachine L1Cache (chip * g_PROCS_PER_CHIP g + k)) = Some m.
Proof using Hwf Hfit.
  intros Ha Hc Hk. pose proof block_bits. pose proof bank_bits.
  destruct (wf_sets g Hwf) as [? _]. destruct (block_aligned a Ha) as [Hl Hd].
  set (bank := field a bank_lo (g_NUM_L2_BANKS_PER_CHIP_BITS g)).
  assert (Hb : 0 <= bank < g_NUM_L2_BANKS_PER_CHIP g)
    by (rewrite (wf_banks_per_chip g Hwf); apply field_bounds; lia).
  pose proof (wf_banks g Hwf) as Hbanks.
  assert (Hlt : chip * g_NUM_L2_BANKS_PER_CHIP g + bank < g_NUM_L2_BANKS g) by nia.
  eexists (mkMachine L2Cache (chip * g_NUM_L2_BANKS_PER_CHIP g + bank)), _.
  unfold map_L2ChipId_to_L2Cache, map_L1CacheMachId_to_L2Cache, L1CacheNumToL2Base.
  rewrite line_address_spec, !L2bank_spec by done. simpl.
  rewrite (quot_base chip (g_PROCS_PER_CHIP g) k) by lia.
  rewrite (field_line (a `div` 2 ^ g_DATA_BLOCK_BITS g * 2 ^ g_DATA_BLOCK_BITS g) a)
    by (try done; unfold bank_lo; case_match; lia). fold bank.
  destruct (Z.ltb_spec chip (g_NUM_CHIPS g)); [|lia].
  destruct (Z.ltb_spec (chip * g_NUM_L2_BANKS_PER_CHIP g + bank) (g_NUM_L2_BANKS g)); [|lia].
  split_and!; try done; try lia. unfold L2CacheMachIDToChipID; simpl.
  by rewrite quot_base by lia.
Qed.

(** Bank, set index and tag identify a block: two addresses that agree on
    the L2 bank, on the set index within the bank and on the bits above both
    are in the same block, with either placement of the bank bits. *)
Theorem L2_index_injective a b :
  is_u64 a -> is_u64 b ->
  L2bank a = L2bank b ->
  map_address_to_L2CacheSet a (L2_CACHE_NUM_SETS_BITS g) =
    map_address_to_L2CacheSet b (L2_CACHE_NUM_SETS_BITS g) ->
  (let tag x := x `div` 2 ^ (g_DATA_BLOCK_BITS g + (g_NUM_L2_BANKS_PER_CHIP_BITS g
                                                     + L2_CACHE_NUM_SETS_BITS g)) in
   tag a = tag b) ->
  line_address a = line_address b.
Proof using Hwf Hfit.
  intros Ha Hb. rewrite !L2bank_spec, !map_address_to_L2CacheSet_spec by done.
  intros [= Hbank] [= Hset] Htag. simpl in Htag.
  rewrite !line_address_spec by done. f_equal. f_equal.
  pose proof block_bits. pose proof bank_bits. destruct (wf_sets g Hwf) as [? _].
  set (B := g_DATA_BLOCK_BITS g) in *. set (K := g_NUM_L2_BANKS_PER_CHIP_BITS g) in *.
  set (N := L2_CACHE_NUM_SETS_BITS g) in *.
  assert (Hf : field a B (K + N) = field b B (K + N)).
  { unfold bank_lo, set_lo in *. destruct (MAP_L2BANKS_TO_LOWEST_BITS g); fold B K N in Hbank, Hset.
    - rewrite !field_split by lia. congruence.
    - rewrite (Z.add_comm K N), !field_split by lia. congruence. }
  rewrite !(Z.pow_add_r 2 B) in Htag by lia.
  rewrite <-!Z.div_div in Htag by (try apply Z.pow_nonzero; try apply Z.pow_pos_nonneg; lia).
  unfold field in Hf.
  rewrite (Z.div_mod (a `div` 2 ^ B) (2 ^ (K + N))), (Z.div_mod (b `div` 2 ^ B) (2 ^ (K + N)))
    by (apply Z.pow_nonzero; lia).
  by rewrite Htag, Hf.
Qed.
End address.

Lemma default_config_wf : config_wf default_config.
Proof.
  apply (RubyConfig_init_wf true default_mem default_globals); [|exact default_init].
  repeat constructor; vm_compute; congruence.
Qed.

Lemma L2_map_correct_witness :
  exists m line, map_L2ChipId_to_L2Cache default_config 0x12345678 0 = Some m /\
    m_type m = L2Cache /\ 0 <= m_num m < 8 /\
    line_address default_config 0x12345678 = Some line /\
    map_L2ChipId_to_L2Cache default_config line 0 = Some m /\
    L2CacheMachIDToChipID default_config m = Some 0 /\
    map_L1CacheMachId_to_L2Cache default_config 0x12345678 (mkMachine L1Cache 5) = Some m.
Proof.
  apply (L2_map_correct default_config default_config_wf ltac:(vm_compute; split; done) 0x12345678 0 5);
    vm_compute; split; congruence.
Defined.

Lemma L2_index_injective_witness :
  line_address default_config 0x12345678 = line_address default_config 0x12345610.
Proof.
  apply (L2_index_injective default_config default_config_wf ltac:(vm_compute; split; done)
           0x12345678 0x12345610); (vm_compute; split; congruence) || by vm_compute.
Defined.
