(* ===== verification/DataBlock.v ===== *)
(** Cache lines and the parts of them a request reads or writes:
    [common/DataBlock.C] and [common/SubBlock.C]. *)
From S2P Require Import Prelude Vector Config Address.

#[export] Instance byte_default : Default Z := 0.
Definition u8 (z : Z) : Z := z `mod` 2 ^ 8.

Section blocks.
(** [DATA_BLOCK] (data is simulated at all) and [XACT_MEMORY]. *)
Variables (g : Globals) (DATA_BLOCK XACT_MEMORY : bool).

(** The bytes of [m_data]. *)
Abbreviation DataBlock := (list Z).

(** [clear] zeroes every byte; the constructor sizes the block first. *)
Definition DataBlock_clear (d : DataBlock) : DataBlock := replicate (length d) 0.

Definition DataBlock_new : DataBlock :=
  DataBlock_clear (if DATA_BLOCK || XACT_MEMORY
                   then replicate (Z.to_nat (g_DATA_BLOCK_BYTES g)) default else []).

Definition getByte (d : DataBlock) (whichByte : Z) : option Z :=
  if DATA_BLOCK || XACT_MEMORY then cell d whichByte else Some 0.

Definition setByte (d : DataBlock) (whichByte data : Z) : option DataBlock :=
  if DATA_BLOCK || XACT_MEMORY then set_cell d whichByte (u8 data) else Some d.

(** [equal]: the loop over the receiver's bytes from [i]; the conjunction
    stops reading at the first difference. *)
Fixpoint equal_from (d : DataBlock) (i : Z) (obj : DataBlock) (value : bool) : option bool :=
  match d with
  | [] => Some value
  | x :: d =>
      if (value : bool) then y ← cell obj i; equal_from d (i + 1) obj (x =? y)
      else equal_from d (i + 1) obj false
  end.

Definition DataBlock_equal (d obj : DataBlock) : option bool := equal_from d 0 obj true.

(** ** Sub-blocks *)
Record SubBlock := mkSubBlock {
  m_address : Z; m_logicalAddress : Z; sb_data : list Z }.

Fixpoint zero_from (s : list Z) (i : Z) (n : nat) : option (list Z) :=
  match n with
  | O => Some s
  | S n => s ← set_cell s i (u8 0); zero_from s (i + 1) n
  end.

Definition SubBlock_new (addr : Z) (size : Z) : option SubBlock :=
  assert! 0 <=? size;
  data ← zero_from (replicate (Z.to_nat size) default) 0 (Z.to_nat size);
  Some (mkSubBlock addr 0 data).

Definition SubBlock_new2 (addr logicalAddress : Z) (size : Z) : option SubBlock :=
  assert! 0 <=? size;
  data ← zero_from (replicate (Z.to_nat size) default) 0 (Z.to_nat size);
  Some (mkSubBlock addr logicalAddress data).

Definition sb_getSize (s : SubBlock) : Z := Z.of_nat (length (sb_data s)).
Definition sb_getByte (s : SubBlock) (offset : Z) : option Z := u8 <$> cell (sb_data s) offset.
Definition sb_setByte (s : SubBlock) (offset data : Z) : option SubBlock :=
  l ← set_cell (sb_data s) offset (u8 data);
  Some (mkSubBlock (m_address s) (m_logicalAddress s) l).
Definition readByte (s : SubBlock) : option Z := sb_getByte s 0.
Definition writeByte (s : SubBlock) (data : Z) : option SubBlock := sb_setByte s 0 data.

(** The loops of [internalMergeFrom] and [internalMergeTo], [n] bytes from [i]. *)
Fixpoint mergeFrom_loop (s : SubBlock) (data : DataBlock) (offset i : Z) (n : nat)
    : option SubBlock :=
  match n with
  | O => Some s
  | S n =>
      x ← getByte data (offset + i);
      s ← sb_setByte s i x;
      mergeFrom_loop s data offset (i + 1) n
  end.

Fixpoint mergeTo_loop (s : SubBlock) (data : DataBlock) (offset i : Z) (n : nat)
    : option DataBlock :=
  match n with
  | O => Some data
  | S n =>
      x ← sb_getByte s i;
      data ← setByte data (offset + i) x;
      mergeTo_loop s data offset (i + 1) n
  end.

Definition internalMergeFrom (s : SubBlock) (data : DataBlock) : option SubBlock :=
  let size := sb_getSize s in
  assert! 0 <? size;
  offset ← getOffset g (m_address s);
  mergeFrom_loop s data offset 0 (Z.to_nat size).

Definition internalMergeTo (s : SubBlock) (data : DataBlock) : option DataBlock :=
  let size := sb_getSize s in
  assert! 0 <? size;
  offset ← getOffset g (m_address s);
  mergeTo_loop s data offset 0 (Z.to_nat size).

Definition mergeTo (s : SubBlock) (data : DataBlock) : option DataBlock :=
  if DATA_BLOCK then internalMergeTo s data else Some data.
Definition mergeFrom (s : SubBlock) (data : DataBlock) : option SubBlock :=
  if DATA_BLOCK then internalMergeFrom s data else Some s.

(** ** What they compute *)
Definition is_byte (z : Z) : Prop := 0 <= z < 256.

Lemma u8_byte z : is_byte z -> u8 z = z.
Proof using Type. intros Hz. apply Z.mod_small. exact Hz. Qed.

Lemma u8_is_byte z : is_byte (u8 z).
Proof using Type. apply Z.mod_pos_bound. done. Qed.

(** A sub-block that fits at [o] replaces exactly its bytes. *)
Definition overlay (data bytes : list Z) (o : nat) : list Z :=
  take o data ++ bytes ++ drop (o + length bytes) data.

Lemma mergeTo_loop_spec addr laddr pre rest data (o : nat) :
  DATA_BLOCK || XACT_MEMORY = true -> Forall is_byte rest ->
  (o + length pre + length rest <= length data)%nat ->
  mergeTo_loop (mkSubBlock addr laddr (pre ++ rest)) data (Z.of_nat o) (Z.of_nat (length pre))
    (length rest) = Some (overlay data rest (o + length pre)).
Proof using Type.
  intros Hon Hb. revert pre data. induction Hb as [|x rest Hx Hb IH]; intros pre data Hlen; simpl.
  { f_equal. unfold overlay. simpl. by rewrite Nat.add_0_r, take_drop. }
  unfold sb_getByte; simpl. rewrite cell_nat, lookup_app_r, Nat.sub_diag by lia. simpl.
  rewrite u8_byte by done. unfold setByte. rewrite Hon.
  rewrite set_cell_Some by (simpl in Hlen; lia). simpl. rewrite u8_byte by done.
  replace (pre ++ x :: rest) with ((pre ++ [x]) ++ rest) by (by rewrite <-(assoc_L (++))).
  replace (Z.of_nat (length pre) + 1) with (Z.of_nat (length (pre ++ [x])))
    by (rewrite length_app; simpl; lia).
  rewrite IH by (rewrite length_app, length_insert; simpl in *; lia).
  f_equal. unfold overlay. rewrite length_app; simpl.
  replace (Z.to_nat (Z.of_nat o + Z.of_nat (length pre))) with (o + length pre)%nat by lia.
  replace (o + (length pre + 1))%nat with (S (o + length pre)) by lia.
  rewrite drop_insert_lt by lia.
  rewrite (take_S_r _ _ x) by (apply list_lookup_insert_eq; simpl in Hlen; lia).
  rewrite take_insert_ge by lia. rewrite <-(assoc_L (++)); simpl.
  do 4 f_equal. lia.
Qed.

Lemma mergeFrom_loop_spec addr laddr pre old rest data (o : nat) :
  DATA_BLOCK || XACT_MEMORY = true -> Forall is_byte rest -> length old = length rest ->
  take (length rest) (drop (o + length pre) data) = rest ->
  mergeFrom_loop (mkSubBlock addr laddr (pre ++ old)) data (Z.of_nat o) (Z.of_nat (length pre))
    (length rest) = Some (mkSubBlock addr laddr (pre ++ rest)).
Proof using Type.
  intros Hon Hb. revert pre old. induction Hb as [|x rest Hx Hb IH]; intros pre old Hlen Ht; simpl.
  { by destruct old. }
  destruct old as [|y old]; [done|]. simpl in Hlen.
  assert (Hdx : data !! (o + length pre)%nat = Some x).
  { rewrite <-(Nat.add_0_r (o + length pre)), <-lookup_drop.
    destruct (drop (o + length pre) data); simpl in Ht; [done|]. simpl. by injection Ht as -> _. }
  unfold getByte. rewrite Hon, <-Nat2Z.inj_add, cell_nat, Hdx. simpl.
  unfold sb_setByte; simpl. rewrite set_cell_Some by (rewrite length_app; simpl; lia). simpl.
  rewrite u8_byte by done. rewrite Nat2Z.id, insert_app_r_alt, Nat.sub_diag by lia. simpl.
  replace (pre ++ x :: old) with ((pre ++ [x]) ++ old) by (by rewrite <-(assoc_L (++))).
  replace (Z.of_nat (length pre) + 1) with (Z.of_nat (length (pre ++ [x])))
    by (rewrite length_app; simpl; lia).
  rewrite IH; [by rewrite <-(assoc_L (++))|lia|].
  rewrite length_app; simpl. replace (o + (length pre + 1))%nat with (S (o + length pre)) by lia.
  rewrite (drop_S _ x (o + length pre)) in Ht by done. simpl in Ht. by injection Ht.
Qed.

(** Past the end of the block the merge fails. *)
Lemma mergeTo_loop_cross s data o i n :
  DATA_BLOCK || XACT_MEMORY = true -> 0 <= o + i <= Z.of_nat (length data) ->
  Z.of_nat (length data) < o + i + Z.of_nat n ->
  mergeTo_loop s data o i n = None.
Proof using Type.
  intros Hon. revert data i. induction n as [|n IH]; intros data i Hi Hlen; [lia|].
  cbn [mergeTo_loop]. destruct (sb_getByte s i) as [x|]; [simpl|done].
  unfold setByte. rewrite Hon. destruct (set_cell data (o + i) (u8 x)) as [d|] eqn:E; [simpl|done].
  apply set_cell_inv in E as (? & _ & Hl). apply IH; rewrite Hl; lia.
Qed.

(** What [equal] decides on blocks of the same size. *)
Lemma equal_from_false d i obj : equal_from d i obj false = Some false.
Proof using Type. revert i. induction d; intros i; simpl; auto. Qed.

Lemma equal_from_spec d pre rest :
  length d = length rest ->
  equal_from d (Z.of_nat (length pre)) (pre ++ rest) true = Some (bool_decide (d = rest)).
Proof using Type.
  revert pre rest. induction d as [|x d IH]; intros pre [|y rest] Hl; try done; simpl in *.
  rewrite cell_nat, lookup_app_r, Nat.sub_diag by lia. simpl.
  destruct (Z.eqb_spec x y) as [->|Hne].
  - replace (pre ++ y :: rest) with ((pre ++ [y]) ++ rest) by (by rewrite <-(assoc_L (++))).
    replace (Z.of_nat (length pre) + 1) with (Z.of_nat (length (pre ++ [y])))
      by (rewrite length_app; simpl; lia).
    rewrite IH by lia. f_equal. apply bool_decide_ext. naive_solver.
  - rewrite equal_from_false. f_equal. rewrite bool_decide_eq_false_2; [done|]. congruence.
Qed.

Lemma DataBlock_equal_spec d obj :
  length d = length obj -> DataBlock_equal d obj = Some (bool_decide (d = obj)).
Proof using Type. apply (equal_from_spec d []). Qed.

(** The offset of an address in its block. *)
Lemma getOffset_spec a :
  config_wf g -> 0 < g_DATA_BLOCK_BITS g -> is_u64 a ->
  getOffset g a = Some (a `mod` g_DATA_BLOCK_BYTES g).
Proof using Type.
  intros Hwf Hb Ha. pose proof (block_bits g Hwf). unfold getOffset.
  rewrite bitSelect_spec by (done || lia). rewrite decide_True by lia.
  change (2 ^ 0) with 1. rewrite Z.div_1_r, (wf_block g Hwf). do 3 f_equal. lia.
Qed.

(** Writing a sub-block into a cache line and reading it back is the
    identity. A write that fits in the line replaces exactly its own bytes (the
    line is otherwise unchanged), and reading the same range then returns
    them, whatever the reader held; a write that crosses the end of the line
    fails an assertion. *)
Theorem SubBlock_roundtrip s r data :
  config_wf g -> 0 < g_DATA_BLOCK_BITS g -> is_u64 (m_address s) -> DATA_BLOCK = true ->
  Forall is_byte (sb_data s) -> sb_data s <> [] ->
  Z.of_nat (length data) = g_DATA_BLOCK_BYTES g ->
  m_address r = m_address s -> length (sb_data r) = length (sb_data s) ->
  let o := Z.to_nat (m_address s `mod` g_DATA_BLOCK_BYTES g) in
  ((o + length (sb_data s) <= length data)%nat ->
     exists data', mergeTo s data = Some data' /\ length data' = length data /\
       (forall k, (k < o \/ o + length (sb_data s) <= k)%nat -> data' !! k = data !! k) /\
       (sb_data <$> mergeFrom r data') = Some (sb_data s)) /\
  ((length data < o + length (sb_data s))%nat -> mergeTo s data = None).
Proof using Type.
  intros Hwf Hbits Ha Hon Hbytes Hne Hlen Hra Hrl o.
  assert (Hon' : DATA_BLOCK || XACT_MEMORY = true) by (by rewrite Hon).
  assert (Hpos : 0 < g_DATA_BLOCK_BYTES g)
    by (rewrite (wf_block g Hwf); apply Z.pow_pos_nonneg; lia).
  pose proof (Z.mod_pos_bound (m_address s) (g_DATA_BLOCK_BYTES g) Hpos) as Hmod.
  assert (Ho : getOffset g (m_address s) = Some (Z.of_nat o))
    by (rewrite getOffset_spec by done; unfold o; rewrite Z2Nat.id by lia; done).
  assert (Hsz : (0 <? sb_getSize s) = true /\ (0 <? sb_getSize r) = true).
  { unfold sb_getSize. rewrite Hrl. destruct (sb_data s); [done|]. split; apply Z.ltb_lt; simpl; lia. }
  destruct Hsz as [Hs Hr]. destruct s as [a la bytes], r as [a' la' old]. simpl in *. subst a'.
  assert (Hto : mergeTo (mkSubBlock a la bytes) data =
                mergeTo_loop (mkSubBlock a la bytes) data (Z.of_nat o) 0 (length bytes))
    by (unfold mergeTo, internalMergeTo; rewrite Hon, Hs; simpl; rewrite Ho; unfold sb_getSize; simpl; by rewrite Nat2Z.id).
  rewrite Hto. split; intros Hfit; [|apply mergeTo_loop_cross; done || lia].
  exists (overlay data bytes o).
  assert (Hl : length (overlay data bytes o) = length data)
    by (unfold overlay; rewrite !length_app, length_take, length_drop; lia).
  split_and!; [|done| |].
  - pose proof (mergeTo_loop_spec a la [] bytes data o Hon' Hbytes) as H.
    simpl in H. change (Z.of_nat 0) with 0 in H. rewrite H by lia. by rewrite Nat.add_0_r.
  - intros k Hk. unfold overlay. destruct (decide (k < o)%nat).
    + rewrite lookup_app_l by (rewrite length_take; lia). by rewrite lookup_take_lt.
    + rewrite lookup_app_r, length_take by (rewrite length_take; lia).
      rewrite lookup_app_r by lia. rewrite lookup_drop. f_equal. lia.
  - unfold mergeFrom, internalMergeFrom. rewrite Hon, Hr. simpl. rewrite Ho. simpl.
    pose proof (mergeFrom_loop_spec a la' [] old bytes (overlay data bytes o) o Hon' Hbytes Hrl) as H.
    change (Z.of_nat 0) with 0 in H. unfold sb_getSize; simpl in *. simpl in H. rewrite Hrl, Nat2Z.id. change (Z.of_nat 0) with 0 in H. rewrite H; [done|].
    rewrite Nat.add_0_r. unfold overlay.
    rewrite drop_app_length' by (rewrite length_take; lia). by rewrite take_app_length.
Qed.
End blocks.

Lemma SubBlock_roundtrip_witness :
  let s := mkSubBlock 0x1004 0 [17; 34; 51] in
  let data := replicate 128 0 in
  exists data', mergeTo default_config true false s data = Some data' /\
    length data' = length data /\
    (forall k, (k < 4 \/ 7 <= k)%nat -> data' !! k = data !! k) /\
    (sb_data <$> mergeFrom default_config true false (mkSubBlock 0x1004 0 [0; 0; 0]) data')
      = Some [17; 34; 51].
Proof.
  intros s data.
  apply (SubBlock_roundtrip default_config true false s (mkSubBlock 0x1004 0 [0; 0; 0]) data
           default_config_wf); try done.
  - repeat constructor; done.
  - simpl. lia.
Defined.
