(* ===== verification/NodeSet.v ===== *)
(** Sets of nodes as bit vectors: [common/OptBigSet.C] and [OptBigSet.h], the
    set implementation the build selects, on its 64-bit branch. *)
From S2P Require Import Prelude Vector.

(** The words are [long]s, kept as their 64-bit patterns. [m_nArrayLen] is
    the length of the array. *)
Record NodeSet := mkSet { m_nSize : Z; m_p_nArray : list Z }.

Definition m_nArrayLen (s : NodeSet) : Z := Z.of_nat (length (m_p_nArray s)).

Definition setSize_words (size : Z) : Z :=
  Z.quot size 64 + (if Z.rem size 64 =? 0 then 0 else 1).

Definition Set_new (size : Z) : NodeSet :=
  mkSet size (replicate (Z.to_nat (setSize_words size)) 0).
Definition setSize (s : NodeSet) (size : Z) : NodeSet := Set_new size.
Definition Set_copy (obj : NodeSet) : NodeSet := mkSet (m_nSize obj) (m_p_nArray obj).

(** An index outside the array is undefined. *)
Definition bit_mask (index : Z) : Z := u64 (Z.shiftl 1 (Z.land index 63)).

Definition add (s : NodeSet) (index : Z) : option NodeSet :=
  w ← cell (m_p_nArray s) (Z.shiftr index 6);
  l ← set_cell (m_p_nArray s) (Z.shiftr index 6) (Z.lor w (bit_mask index));
  Some (mkSet (m_nSize s) l).

Definition remove (s : NodeSet) (index : Z) : option NodeSet :=
  w ← cell (m_p_nArray s) (Z.shiftr index 6);
  l ← set_cell (m_p_nArray s) (Z.shiftr index 6) (Z.land w (not64 (bit_mask index)));
  Some (mkSet (m_nSize s) l).

Definition isElement (s : NodeSet) (element : Z) : option bool :=
  w ← cell (m_p_nArray s) (Z.shiftr element 6);
  Some (negb (Z.land w (bit_mask element) =? 0)).

Definition elementAt (s : NodeSet) (index : Z) : option Z :=
  b ← isElement s index; Some (if (b : bool) then 1 else 0).

Definition clear (s : NodeSet) : NodeSet :=
  mkSet (m_nSize s) (replicate (length (m_p_nArray s)) 0).

Definition addSet (s set : NodeSet) : option NodeSet :=
  assert! m_nSize s =? m_nSize set;
  Some (mkSet (m_nSize s) (zip_with Z.lor (m_p_nArray s) (m_p_nArray set))).

Definition removeSet (s set : NodeSet) : option NodeSet :=
  assert! m_nSize s =? m_nSize set;
  Some (mkSet (m_nSize s) (zip_with (fun w v => Z.land w (not64 v)) (m_p_nArray s) (m_p_nArray set))).

Definition OR (s orSet : NodeSet) : option NodeSet :=
  assert! m_nSize s =? m_nSize orSet;
  Some (mkSet (m_nSize s) (zip_with Z.lor (m_p_nArray s) (m_p_nArray orSet))).

Definition AND (s andSet : NodeSet) : option NodeSet :=
  assert! m_nSize s =? m_nSize andSet;
  Some (mkSet (m_nSize s) (zip_with Z.land (m_p_nArray s) (m_p_nArray andSet))).

(** [n] more rounds of masking the last word, from [mask]. *)
Fixpoint mask_loop (n : nat) (w mask : Z) : Z :=
  match n with
  | O => w
  | S n => mask_loop n (Z.land w mask) (Z.shiftr mask 1)
  end.

(** Clears the bits of the last word past the size of the set. *)
Definition mask_last (size : Z) (l : list Z) : list Z :=
  if negb (Z.rem size 64 =? 0) then
    alter (fun w => mask_loop (Z.to_nat (64 - Z.land size 63)) w (2 ^ 63 - 1))
      (length l - 1)%nat l
  else l.

Definition broadcast (s : NodeSet) : NodeSet :=
  mkSet (m_nSize s) (mask_last (m_nSize s) (replicate (length (m_p_nArray s)) ones64)).

(** [random() ^ (random() << 4)]: the draws are arguments. *)
Definition addRandom (s : NodeSet) (draws : list (Z * Z)) : NodeSet :=
  mkSet (m_nSize s) (mask_last (m_nSize s)
    (zip_with (fun w r => Z.lor w (u64 (Z.lxor r.1 (Z.shiftl r.2 4)))) (m_p_nArray s) draws)).

(** The bits of a word, counted one mask at a time. *)
Fixpoint count_bits (n : nat) (w mask : Z) : Z :=
  match n with
  | O => 0
  | S n => (if negb (Z.land w mask =? 0) then 1 else 0) + count_bits n w (u64 (Z.shiftl mask 1))
  end.

Definition count (s : NodeSet) : Z :=
  foldr (fun w n => count_bits 64 w 1 + n) 0 (m_p_nArray s).

Definition isEqual (s set : NodeSet) : option bool :=
  assert! m_nSize s =? m_nSize set;
  Some (forallb (fun p => p.1 =? p.2) (zip (m_p_nArray s) (m_p_nArray set))).

(** The low bits of the shifted word; only they are tested. *)
Fixpoint lowest_bit (n : nat) (x j : Z) : option Z :=
  match n with
  | O => None
  | S n => if negb (Z.land x 1 =? 0) then Some j else lowest_bit n (Z.shiftr x 1) (j + 1)
  end.

Fixpoint smallest_from (l : list Z) (i : Z) : option Z :=
  match l with
  | [] => None
  | w :: l => if negb (w =? 0) then j ← lowest_bit 64 w 0; Some (64 * i + j)
              else smallest_from l (i + 1)
  end.

Definition smallestElement (s : NodeSet) : option Z :=
  assert! 0 <? count s;
  smallest_from (m_p_nArray s) 0.

(** The bits of the partial last word, from [mask] on. *)
Fixpoint low_bits_set (n : nat) (w mask : Z) : bool :=
  match n with
  | O => true
  | S n => if Z.land mask w =? 0 then false else low_bits_set n w (u64 (Z.shiftl mask 1))
  end.

Definition isBroadcast (s : NodeSet) : option bool :=
  let full := if Z.rem (m_nSize s) 64 =? 0 then length (m_p_nArray s)
              else (length (m_p_nArray s) - 1)%nat in
  if forallb (fun w => w =? ones64) (take full (m_p_nArray s)) then
    if Z.rem (m_nSize s) 64 =? 0 then Some true
    else
      w ← cell (m_p_nArray s) (m_nArrayLen s - 1);
      Some (low_bits_set (Z.to_nat (Z.rem (m_nSize s) 64)) w 1)
  else Some false.

Definition isEmpty (s : NodeSet) : bool := forallb (fun w => w =? 0) (m_p_nArray s).

Definition isSuperset (s test : NodeSet) : option bool :=
  assert! m_nSize s =? m_nSize test;
  Some (forallb (fun p => Z.lor (Z.land p.2 p.1) (not64 p.2) =? ones64)
          (zip (m_p_nArray s) (m_p_nArray test))).
Definition isSubset (s test : NodeSet) : option bool := isSuperset test s.

(** No size check here: a shorter argument would be read out of its array. *)
Fixpoint meet_words (l l' : list Z) : option bool :=
  match l with
  | [] => Some false
  | w :: l => w' ← head l'; if negb (Z.land w w' =? 0) then Some true else meet_words l (tail l')
  end.
Definition intersectionIsNotEmpty (s other_set : NodeSet) : option bool :=
  meet_words (m_p_nArray s) (m_p_nArray other_set).
Definition intersectionIsEmpty (s other_set : NodeSet) : option bool :=
  b ← meet_words (m_p_nArray s) (m_p_nArray other_set); Some (negb b).

(** ** The abstract set *)
(** Membership of [j] in the words [l], the first of which holds bits from
    [64 * i] on. *)
Definition bit (l : list Z) (j : Z) : bool :=
  bool_decide (0 <= j) &&
  match l !! Z.to_nat (j / 64) with Some w => Z.testbit w (j mod 64) | None => false end.

Definition elements_of (l : list Z) : list Z :=
  filter (fun j => bit l j = true) (seqZ 0 (64 * Z.of_nat (length l))).

Definition to_set (s : NodeSet) : gset Z := list_to_set (elements_of (m_p_nArray s)).

(** The array has the length of the size, its words are 64-bit patterns, and
    no bit past the size is set. *)
Record set_wf (s : NodeSet) : Prop := {
  wf_size : 0 <= m_nSize s;
  wf_length : Z.of_nat (length (m_p_nArray s)) = setSize_words (m_nSize s);
  wf_words : Forall (fun w => 0 <= w < 2 ^ 64) (m_p_nArray s);
  wf_stray j : bit (m_p_nArray s) j = true -> j < m_nSize s;
}.

Lemma setSize_words_bounds size :
  0 <= size -> 64 * (setSize_words size - 1) < size <= 64 * setSize_words size \/
               (size = 0 /\ setSize_words size = 0).
Proof.
  intros Hs. unfold setSize_words. rewrite Z.quot_div_nonneg, Z.rem_mod_nonneg by lia.
  pose proof (Z.div_mod size 64 ltac:(lia)). pose proof (Z.mod_pos_bound size 64 ltac:(lia)).
  destruct (Z.eqb_spec (size mod 64) 0); [destruct (decide (size = 0)) as [->|]; [by right|left; lia]|left; lia].
Qed.

Lemma bit_range l j : bit l j = true -> 0 <= j < 64 * Z.of_nat (length l).
Proof.
  unfold bit. intros [Hj Hb]%andb_true_iff. apply bool_decide_eq_true in Hj.
  destruct (l !! Z.to_nat (j / 64)) as [w|] eqn:Hw; [|done].
  apply lookup_lt_Some in Hw. pose proof (Z.div_mod j 64 ltac:(lia)).
  pose proof (Z.mod_pos_bound j 64 ltac:(lia)).
  assert (0 <= j / 64) by (apply Z.div_pos; lia). lia.
Qed.

Lemma elem_of_elements_of l j : j ∈ elements_of l <-> bit l j = true.
Proof.
  unfold elements_of. rewrite list_elem_of_filter, elem_of_seqZ. split; [tauto|].
  intros Hb. split; [done|]. apply bit_range in Hb. lia.
Qed.

Lemma elem_of_to_set s j : j ∈ to_set s <-> bit (m_p_nArray s) j = true.
Proof. unfold to_set. by rewrite elem_of_list_to_set, elem_of_elements_of. Qed.

(** ** Words and bits *)
Definition word (w : Z) : Prop := 0 <= w < 2 ^ 64.

Lemma word_eq w v : word w -> word v -> (forall k, 0 <= k < 64 -> Z.testbit w k = Z.testbit v k) -> w = v.
Proof.
  intros Hw Hv Hk. apply Z.bits_inj'. intros k Hk0. destruct (decide (k < 64)); [by apply Hk|].
  by rewrite !(testbit_small _ 64) by (done || lia).
Qed.

Lemma word_bits w : 0 <= w -> (forall k, 64 <= k -> Z.testbit w k = false) -> word w.
Proof.
  intros Hw Hk. assert (E : w = w mod 2 ^ 64).
  { apply Z.bits_inj'. intros k Hk0. destruct (decide (k < 64)).
    - by rewrite Z.mod_pow2_bits_low by lia.
    - rewrite Z.mod_pow2_bits_high by lia. apply Hk. lia. }
  rewrite E. apply Z.mod_pos_bound. done.
Qed.

Lemma word_land w v : word w -> word v -> word (Z.land w v).
Proof.
  intros Hw Hv. apply word_bits; [apply Z.land_nonneg; unfold word in *; lia|].
  intros k Hk. rewrite Z.land_spec. by rewrite (testbit_small w 64).
Qed.

Lemma word_lor w v : word w -> word v -> word (Z.lor w v).
Proof.
  intros Hw Hv. apply word_bits; [apply Z.lor_nonneg; unfold word in *; lia|].
  intros k Hk. rewrite Z.lor_spec. by rewrite !(testbit_small _ 64).
Qed.

Lemma word_ones : word ones64.
Proof. split; by vm_compute. Qed.

Lemma testbit_not64 w k : 0 <= k < 64 -> Z.testbit (not64 w) k = negb (Z.testbit w k).
Proof.
  intros Hk. unfold not64. rewrite Z.lxor_spec, testbit_ones64, bool_decide_eq_true_2 by lia.
  by rewrite xorb_true_r.
Qed.

Lemma word_not64 w : word w -> word (not64 w).
Proof.
  intros Hw. apply word_bits; [apply Z.lxor_nonneg; pose proof word_ones; unfold word in *; lia|].
  intros k Hk. unfold not64. rewrite Z.lxor_spec, testbit_ones64 by lia.
  rewrite (testbit_small w 64) by done. by rewrite bool_decide_eq_false_2 by lia.
Qed.

Lemma index_word index : 0 <= index -> Z.shiftr index 6 = index / 64 /\ Z.land index 63 = index mod 64.
Proof.
  intros Hi. split; [by rewrite Z.shiftr_div_pow2|].
  change 63 with (Z.ones 6). by rewrite Z.land_ones.
Qed.

Lemma testbit_mask index k :
  0 <= index -> 0 <= k < 64 -> Z.testbit (bit_mask index) k = bool_decide (k = index mod 64).
Proof.
  intros Hi Hk. unfold bit_mask. rewrite (proj2 (index_word index Hi)), testbit_u64 by lia.
  rewrite bool_decide_eq_true_2, andb_true_l, Z.shiftl_1_l, Z.pow2_bits_eqb by
    (try lia; apply Z.mod_pos_bound; lia).
  pose proof (Z.mod_pos_bound index 64 ltac:(lia)).
  case_bool_decide as E; [by rewrite E, Z.eqb_refl|by apply Z.eqb_neq; congruence].
Qed.

Lemma word_mask index : word (bit_mask index).
Proof. apply u64_bounds. Qed.

Lemma land_zero w v : word w -> word v ->
  Z.land w v = 0 <-> forall k, 0 <= k < 64 -> Z.testbit w k && Z.testbit v k = false.
Proof.
  intros Hw Hv. split.
  - intros E k Hk. by rewrite <-Z.land_spec, E, Z.bits_0.
  - intros Hk. apply word_eq; [by apply word_land|split; by vm_compute|].
    intros k Hk'. rewrite Z.land_spec, Z.bits_0. by apply Hk.
Qed.

Lemma ones64_iff w : word w -> w = ones64 <-> forall k, 0 <= k < 64 -> Z.testbit w k = true.
Proof.
  intros Hw. split.
  - intros -> k Hk. rewrite testbit_ones64 by lia. apply bool_decide_eq_true_2. lia.
  - intros Hk. apply word_eq; [done|apply word_ones|]. intros k Hk'.
    rewrite testbit_ones64, bool_decide_eq_true_2 by lia. by apply Hk.
Qed.

(** ** Bits of an array *)
Lemma bit_cell l j w :
  0 <= j -> cell l (j / 64) = Some w -> bit l j = Z.testbit w (j mod 64).
Proof.
  intros Hj Hc. apply cell_Some in Hc as [_ Hc]. unfold bit.
  rewrite bool_decide_eq_true_2 by done. by rewrite Hc.
Qed.

Lemma bit_word l i w k : l !! i = Some w -> 0 <= k < 64 -> bit l (64 * Z.of_nat i + k) = Z.testbit w k.
Proof.
  intros Hi Hk. unfold bit. rewrite bool_decide_eq_true_2 by lia.
  replace ((64 * Z.of_nat i + k) / 64) with (Z.of_nat i)
    by (symmetry; rewrite Z.mul_comm, Z.div_add_l, Z.div_small; lia).
  replace ((64 * Z.of_nat i + k) mod 64) with k
    by (symmetry; rewrite Z.add_comm, Z.mul_comm, Z.mod_add, Z.mod_small; lia).
  by rewrite Nat2Z.id, Hi.
Qed.

Lemma bit_zip_with f (fb : bool -> bool -> bool) l l' j :
  length l = length l' -> fb false false = false ->
  (forall w v k, 0 <= k < 64 -> Z.testbit (f w v) k = fb (Z.testbit w k) (Z.testbit v k)) ->
  bit (zip_with f l l') j = fb (bit l j) (bit l' j).
Proof.
  intros Hl Hff Hf. unfold bit. case_bool_decide; simpl; [|done].
  rewrite lookup_zip_with. pose proof (Z.mod_pos_bound j 64 ltac:(lia)).
  destruct (l !! Z.to_nat (j / 64)) as [w|] eqn:Hw.
  - destruct (lookup_lt_is_Some_2 l' (Z.to_nat (j / 64))) as [v Hv];
      [rewrite <-Hl; by eapply lookup_lt_Some|]. rewrite Hv; simpl. by apply Hf.
  - apply lookup_ge_None in Hw. rewrite (lookup_ge_None_2 l') by lia. done.
Qed.

Lemma bit_replicate n w j :
  bit (replicate n w) j =
    bool_decide (0 <= j < 64 * Z.of_nat n) && Z.testbit w (j mod 64).
Proof.
  unfold bit. case_bool_decide; [|rewrite bool_decide_eq_false_2; [done|lia]]. simpl.
  assert (0 <= j / 64) by (apply Z.div_pos; lia). pose proof (Z.div_mod j 64 ltac:(lia)).
  pose proof (Z.mod_pos_bound j 64 ltac:(lia)). destruct (decide (j / 64 < Z.of_nat n)).
  - rewrite lookup_replicate_2 by lia. by rewrite bool_decide_eq_true_2 by lia.
  - rewrite lookup_ge_None_2 by (rewrite length_replicate; lia).
    by rewrite bool_decide_eq_false_2 by lia.
Qed.

Lemma words_zip_with f l l' :
  (forall w v, word w -> word v -> word (f w v)) ->
  Forall word l -> Forall word l' -> Forall word (zip_with f l l').
Proof.
  intros Hf Hl. revert l'. induction Hl; intros l' Hl'; destruct Hl'; simpl; constructor; auto.
Qed.

(** The word a valid element lives in. *)
Lemma element_cell s i :
  set_wf s -> 0 <= i < m_nSize s -> exists w, cell (m_p_nArray s) (i / 64) = Some w /\ word w /\
    0 <= i / 64 < Z.of_nat (length (m_p_nArray s)).
Proof.
  intros Hs Hi. pose proof (setSize_words_bounds (m_nSize s) (wf_size s Hs)).
  pose proof (wf_length s Hs).
  assert (0 <= i / 64) by (apply Z.div_pos; lia). pose proof (Z.div_mod i 64 ltac:(lia)).
  pose proof (Z.mod_pos_bound i 64 ltac:(lia)).
  destruct (cell_range (m_p_nArray s) (i / 64)) as [w Hw]; [lia|].
  exists w. split_and!; [done| |lia..]. apply cell_Some in Hw as [_ Hw].
  exact (Forall_lookup_1 _ _ _ _ (wf_words s Hs) Hw).
Qed.

(** Replacing the word of [i]. *)
Lemma bit_set_cell l i w' j :
  0 <= i -> 0 <= i / 64 < Z.of_nat (length l) -> 0 <= j ->
  bit (<[Z.to_nat (i / 64) := w']> l) j =
    if decide (j / 64 = i / 64) then Z.testbit w' (j mod 64) else bit l j.
Proof.
  intros Hi Hl Hj. unfold bit. rewrite bool_decide_eq_true_2 by done. simpl.
  assert (0 <= j / 64) by (apply Z.div_pos; lia). case_decide as E.
  - rewrite E, list_lookup_insert_eq by lia. done.
  - by rewrite list_lookup_insert_ne by lia.
Qed.

Lemma same_index i j : i / 64 = j / 64 -> i mod 64 = j mod 64 -> i = j.
Proof.
  intros. rewrite (Z.div_mod i 64), (Z.div_mod j 64) by lia. congruence.
Qed.

(** ** Updates *)
Lemma add_spec s i :
  set_wf s -> 0 <= i < m_nSize s ->
  exists s', add s i = Some s' /\ set_wf s' /\ m_nSize s' = m_nSize s /\
    to_set s' = {[i]} ∪ to_set s.
Proof.
  intros Hs Hi. destruct (element_cell s i Hs Hi) as (w & Hc & Hw & Hb).
  unfold add. rewrite (proj1 (index_word i ltac:(lia))), Hc; simpl.
  rewrite set_cell_Some by lia. simpl. set (l' := <[_ := _]> _).
  assert (Hbit : forall j, bit l' j = true <-> j = i \/ bit (m_p_nArray s) j = true).
  { intros j. destruct (decide (0 <= j)); last first.
    { assert (forall l, bit l j = false) as E
        by (intros l; unfold bit; by rewrite bool_decide_eq_false_2). rewrite !E. naive_solver lia. }
    pose proof (Z.mod_pos_bound j 64 ltac:(lia)).
    unfold l'. rewrite bit_set_cell by lia. case_decide as E.
    - rewrite Z.lor_spec, testbit_mask by lia.
      rewrite (bit_cell (m_p_nArray s) j w) by (by rewrite ?E).
      rewrite orb_true_iff, bool_decide_eq_true. naive_solver eauto using same_index.
    - split; [by right|]. intros [->|]; done. }
  eexists; split_and!; [done| |done|].
  - split; simpl; [apply Hs| | |].
    + unfold l'. rewrite length_insert. apply Hs.
    + unfold l'. apply Forall_insert; [apply Hs|]. apply word_lor; [done|apply word_mask].
    + intros j [->|?]%Hbit; [lia|by apply (wf_stray s Hs)].
  - apply set_eq. intros j. rewrite elem_of_union, elem_of_singleton, !elem_of_to_set. apply Hbit.
Qed.

Lemma remove_spec s i :
  set_wf s -> 0 <= i < m_nSize s ->
  exists s', remove s i = Some s' /\ set_wf s' /\ m_nSize s' = m_nSize s /\
    to_set s' = to_set s ∖ {[i]}.
Proof.
  intros Hs Hi. destruct (element_cell s i Hs Hi) as (w & Hc & Hw & Hb).
  unfold remove. rewrite (proj1 (index_word i ltac:(lia))), Hc; simpl.
  rewrite set_cell_Some by lia. simpl. set (l' := <[_ := _]> _).
  assert (Hbit : forall j, bit l' j = true <-> bit (m_p_nArray s) j = true /\ j <> i).
  { intros j. destruct (decide (0 <= j)); last first.
    { assert (forall l, bit l j = false) as E
        by (intros l; unfold bit; by rewrite bool_decide_eq_false_2). rewrite !E. naive_solver. }
    pose proof (Z.mod_pos_bound j 64 ltac:(lia)).
    unfold l'. rewrite bit_set_cell by lia. case_decide as E.
    - rewrite Z.land_spec, testbit_not64, testbit_mask by lia.
      rewrite (bit_cell (m_p_nArray s) j w) by (by rewrite ?E).
      rewrite andb_true_iff, negb_true_iff, bool_decide_eq_false. naive_solver eauto using same_index.
    - split; [|tauto]. intros ?. split; [done|]. by intros ->. }
  eexists; split_and!; [done| |done|].
  - split; simpl; [apply Hs| | |].
    + unfold l'. rewrite length_insert. apply Hs.
    + unfold l'. apply Forall_insert; [apply Hs|].
      apply word_land; [done|apply word_not64, word_mask].
    + intros j [? _]%Hbit. by apply (wf_stray s Hs).
  - apply set_eq. intros j. rewrite elem_of_difference, elem_of_singleton, !elem_of_to_set. apply Hbit.
Qed.

Lemma isElement_spec s i :
  set_wf s -> 0 <= i < m_nSize s -> isElement s i = Some (bool_decide (i ∈ to_set s)).
Proof.
  intros Hs Hi. destruct (element_cell s i Hs Hi) as (w & Hc & Hw & Hb).
  unfold isElement. rewrite (proj1 (index_word i ltac:(lia))), Hc; simpl. f_equal.
  pose proof (Z.mod_pos_bound i 64 ltac:(lia)).
  apply eq_true_iff_eq. rewrite negb_true_iff, Z.eqb_neq, bool_decide_eq_true, elem_of_to_set.
  rewrite (bit_cell (m_p_nArray s) i w), land_zero by (done || lia || apply word_mask). split.
  - intros Hn. destruct (Z.testbit w (i mod 64)) eqn:E; [done|]. destruct Hn. intros k Hk.
    rewrite testbit_mask by lia. case_bool_decide; [|apply andb_false_r]. subst. by rewrite E.
  - intros E Hn. specialize (Hn (i mod 64) ltac:(lia)).
    rewrite E, testbit_mask, bool_decide_eq_true_2 in Hn by lia. done.
Qed.

Lemma zip_wf f (fb : bool -> bool -> bool) s t :
  set_wf s -> set_wf t -> m_nSize s = m_nSize t -> fb false false = false ->
  (forall w v k, 0 <= k < 64 -> Z.testbit (f w v) k = fb (Z.testbit w k) (Z.testbit v k)) ->
  (forall w v, word w -> word v -> word (f w v)) ->
  let s' := mkSet (m_nSize s) (zip_with f (m_p_nArray s) (m_p_nArray t)) in
  set_wf s' /\ forall j, j ∈ to_set s' <->
    fb (bit (m_p_nArray s) j) (bit (m_p_nArray t) j) = true.
Proof.
  intros Hs Ht Hsz Hff Hf Hw s'.
  assert (Hl : length (m_p_nArray s) = length (m_p_nArray t)).
  { apply Nat2Z.inj. by rewrite (wf_length s Hs), (wf_length t Ht), Hsz. }
  assert (Hb : forall j, bit (m_p_nArray s') j = fb (bit (m_p_nArray s) j) (bit (m_p_nArray t) j))
    by (intros j; by apply bit_zip_with).
  split; [|intros j; by rewrite elem_of_to_set, Hb].
  split; simpl; [apply Hs| | |].
  - rewrite length_zip_with, <-Hl, Nat.min_id. apply Hs.
  - apply words_zip_with; [done|apply Hs|apply Ht].
  - intros j. change (zip_with f _ _) with (m_p_nArray s'). rewrite Hb. intros E.
    destruct (bit (m_p_nArray s) j) eqn:E1; [by apply (wf_stray s Hs)|].
    destruct (bit (m_p_nArray t) j) eqn:E2; [rewrite Hsz; by apply (wf_stray t Ht)|].
    by rewrite Hff in E.
Qed.

(** ** Queries *)
Lemma forallb_zip (f : Z * Z -> bool) (l l' : list Z) :
  length l = length l' ->
  forallb f (zip l l') = true <->
  forall i w v, l !! i = Some w -> l' !! i = Some v -> f (w, v) = true.
Proof.
  intros Hl. rewrite forallb_forall. split.
  - intros Hf i w v Hw Hv. apply Hf, list_elem_of_In, list_elem_of_lookup. exists i.
    by rewrite lookup_zip_with, Hw; simpl; rewrite Hv.
  - intros Hf [w v] Hin%list_elem_of_In%list_elem_of_lookup. destruct Hin as [i Hi].
    rewrite lookup_zip_with in Hi. destruct (l !! i) eqn:Hw; [|done]. simpl in Hi.
    destruct (l' !! i) eqn:Hv; [|done]. injection Hi as -> ->. by eapply Hf.
Qed.

Lemma same_length s t :
  set_wf s -> set_wf t -> m_nSize s = m_nSize t -> length (m_p_nArray s) = length (m_p_nArray t).
Proof. intros Hs Ht E. apply Nat2Z.inj. by rewrite (wf_length s Hs), (wf_length t Ht), E. Qed.

(** Inclusion and equality, word by word. *)
Lemma subset_words l l' :
  length l = length l' ->
  (forall j, bit l j = true -> bit l' j = true) <->
  (forall i w v k, l !! i = Some w -> l' !! i = Some v -> 0 <= k < 64 ->
     Z.testbit w k = true -> Z.testbit v k = true).
Proof.
  intros Hl. split.
  - intros Hb i w v k Hw Hv Hk. rewrite <-(bit_word l i w k), <-(bit_word l' i v k) by done. apply Hb.
  - intros Hw j Hj. assert (Hr := bit_range l j Hj).
    assert (0 <= j / 64) by (apply Z.div_pos; lia). pose proof (Z.div_mod j 64 ltac:(lia)).
    pose proof (Z.mod_pos_bound j 64 ltac:(lia)).
    destruct (lookup_lt_is_Some_2 l (Z.to_nat (j / 64))) as [w E1]; [lia|].
    destruct (lookup_lt_is_Some_2 l' (Z.to_nat (j / 64))) as [v E2]; [lia|].
    assert (Ej : j = 64 * Z.of_nat (Z.to_nat (j / 64)) + j mod 64) by lia.
    rewrite Ej, (bit_word l _ w) in Hj by done. rewrite Ej, (bit_word l' _ v) by done.
    by apply (Hw _ w v (j mod 64) E1 E2).
Qed.

Lemma isSuperset_spec s t :
  set_wf s -> set_wf t -> m_nSize s = m_nSize t ->
  isSuperset s t = Some (bool_decide (to_set t ⊆ to_set s)).
Proof.
  intros Hs Ht Hsz. unfold isSuperset. rewrite Hsz, Z.eqb_refl. f_equal.
  pose proof (same_length s t Hs Ht Hsz) as Hl.
  apply eq_true_iff_eq. rewrite bool_decide_eq_true, forallb_zip by done.
  transitivity (forall j, bit (m_p_nArray t) j = true -> bit (m_p_nArray s) j = true);
    [rewrite subset_words by done|rewrite elem_of_subseteq; by setoid_rewrite elem_of_to_set].
  assert (Hword : forall i w v, m_p_nArray s !! i = Some w -> m_p_nArray t !! i = Some v ->
    (Z.lor (Z.land v w) (not64 v) =? ones64) = true <->
    forall k, 0 <= k < 64 -> Z.testbit v k = true -> Z.testbit w k = true).
  { intros i w v Hw Hv.
    pose proof (Forall_lookup_1 _ _ _ _ (wf_words s Hs) Hw) as Ww.
    pose proof (Forall_lookup_1 _ _ _ _ (wf_words t Ht) Hv) as Wv.
    rewrite Z.eqb_eq, ones64_iff by (apply word_lor; [by apply word_land|by apply word_not64]).
    split; intros Hk k Hk0; specialize (Hk k Hk0);
      rewrite Z.lor_spec, Z.land_spec, testbit_not64 in * by done;
      destruct (Z.testbit v k), (Z.testbit w k); simpl in *; naive_solver. }
  split.
  - intros H i v w k Hv Hw. by apply (proj1 (Hword i w v Hw Hv) (H i w v Hw Hv)).
  - intros H i w v Hw Hv. apply (Hword i w v Hw Hv). intros k. by apply (H i).
Qed.

Lemma isEqual_spec s t :
  set_wf s -> set_wf t -> m_nSize s = m_nSize t ->
  isEqual s t = Some (bool_decide (to_set s = to_set t)).
Proof.
  intros Hs Ht Hsz. unfold isEqual. rewrite Hsz, Z.eqb_refl. f_equal.
  pose proof (same_length s t Hs Ht Hsz) as Hl.
  apply eq_true_iff_eq. rewrite bool_decide_eq_true, forallb_zip by done. split.
  - intros H. assert (m_p_nArray s = m_p_nArray t) as E; [|unfold to_set; by rewrite E].
    apply list_eq. intros i. destruct (m_p_nArray s !! i) as [w|] eqn:Hw.
    + destruct (lookup_lt_is_Some_2 (m_p_nArray t) i) as [v Hv];
        [rewrite <-Hl; by eapply lookup_lt_Some|].
      specialize (H i w v Hw Hv). apply Z.eqb_eq in H. simpl in H. congruence.
    + symmetry. apply lookup_ge_None. apply lookup_ge_None in Hw. lia.
  - intros Hset i w v Hw Hv. apply Z.eqb_eq. simpl.
    apply word_eq; [exact (Forall_lookup_1 _ _ _ _ (wf_words s Hs) Hw)|
                    exact (Forall_lookup_1 _ _ _ _ (wf_words t Ht) Hv)|].
    intros k Hk. rewrite <-(bit_word _ i w k Hw Hk), <-(bit_word _ i v k Hv Hk).
    apply eq_true_iff_eq. rewrite <-!elem_of_to_set. by rewrite Hset.
Qed.

Lemma isEmpty_spec s : set_wf s -> isEmpty s = bool_decide (to_set s = ∅).
Proof.
  intros Hs. apply eq_true_iff_eq. unfold isEmpty. rewrite bool_decide_eq_true, forallb_forall. split.
  - intros H. apply set_eq. intros j. rewrite elem_of_to_set. split; [|set_solver].
    intros Hj. unfold bit in Hj. apply andb_true_iff in Hj as [_ Hj].
    destruct (m_p_nArray s !! Z.to_nat (j / 64)) as [w|] eqn:Hw; [|done].
    assert (w = 0) as ->; [|by rewrite Z.bits_0 in Hj].
    apply Z.eqb_eq, H, list_elem_of_In, list_elem_of_lookup. by eexists.
  - intros Hset w Hin%list_elem_of_In%list_elem_of_lookup. destruct Hin as [i Hi].
    apply Z.eqb_eq. apply word_eq; [exact (Forall_lookup_1 _ _ _ _ (wf_words s Hs) Hi)|by split; vm_compute|].
    intros k Hk. rewrite Z.bits_0. destruct (Z.testbit w k) eqn:E; [|done].
    rewrite <-(bit_word _ i w k Hi Hk), <-elem_of_to_set, Hset in E. set_solver.
Qed.

Lemma meet_words_spec l l' :
  length l = length l' -> Forall word l -> Forall word l' ->
  exists b, meet_words l l' = Some b /\
    (b = true <-> exists i w v k, l !! i = Some w /\ l' !! i = Some v /\ 0 <= k < 64 /\
       Z.testbit w k = true /\ Z.testbit v k = true).
Proof.
  intros Hlen Hl. revert l' Hlen. induction Hl as [|w l Hw Hl IH]; intros [|v l'] Hlen Hl'; try done; simpl.
  - exists false. split; [done|]. split; [done|]. by intros (i & w & v & k & ? & _).
  - apply Forall_cons in Hl' as [Hv Hl']. simpl in Hlen.
    destruct (Z.eqb_spec (Z.land w v) 0) as [E|E]; simpl.
    + destruct (IH l') as (b & -> & Hb); [lia|done|]. exists b. split; [done|]. rewrite Hb. split.
      * intros (i & w' & v' & k & ? & ? & ?). by exists (S i), w', v', k.
      * intros ([|i] & w' & v' & k & H1 & H2 & Hk & Ew & Ev); [|by exists i, w', v', k].
        simpl in H1, H2. injection H1 as <-. injection H2 as <-.
        rewrite land_zero in E by done. specialize (E k Hk). by rewrite Ew, Ev in E.
    + exists true. split; [done|]. split; [|done]. intros _.
      destruct (decide (Exists (fun k => Z.testbit w k = true /\ Z.testbit v k = true) (seqZ 0 64)))
        as [Hex|Hno].
      * apply Exists_exists in Hex as (k & Hk & ? & ?). apply elem_of_seqZ in Hk.
        exists 0%nat, w, v, k. split_and!; done || lia.
      * destruct E. apply land_zero; [done..|]. intros k Hk.
        rewrite <-Forall_Exists_neg, Forall_forall in Hno.
        specialize (Hno k ltac:(apply elem_of_seqZ; lia)).
        destruct (Z.testbit w k), (Z.testbit v k); naive_solver.
Qed.

Lemma intersection_spec s t :
  set_wf s -> set_wf t -> m_nSize s = m_nSize t ->
  intersectionIsNotEmpty s t = Some (bool_decide (to_set s ∩ to_set t <> ∅)) /\
  intersectionIsEmpty s t = Some (bool_decide (to_set s ∩ to_set t = ∅)).
Proof.
  intros Hs Ht Hsz. pose proof (same_length s t Hs Ht Hsz) as Hl.
  destruct (meet_words_spec _ _ Hl (wf_words s Hs) (wf_words t Ht)) as (b & E & Hb).
  unfold intersectionIsNotEmpty, intersectionIsEmpty. rewrite E; simpl.
  assert (Hiff : b = true <-> to_set s ∩ to_set t <> ∅).
  { rewrite Hb. split.
    - intros (i & w & v & k & Hw & Hv & Hk & Ew & Ev) Hno.
      assert (64 * Z.of_nat i + k ∈ to_set s ∩ to_set t); [|set_solver].
      rewrite elem_of_intersection, !elem_of_to_set, (bit_word _ i w), (bit_word _ i v) by done. done.
    - intros Hne. apply set_choose_L in Hne as [j Hj].
      rewrite elem_of_intersection, !elem_of_to_set in Hj. destruct Hj as [H1 H2].
      assert (Hr := bit_range _ _ H1). pose proof (Z.div_mod j 64 ltac:(lia)).
      pose proof (Z.mod_pos_bound j 64 ltac:(lia)).
      unfold bit in H1, H2. apply andb_true_iff in H1 as [_ H1], H2 as [_ H2].
      destruct (m_p_nArray s !! Z.to_nat (j / 64)) as [w|] eqn:Hw; [|done].
      destruct (m_p_nArray t !! Z.to_nat (j / 64)) as [v|] eqn:Hv; [|done].
      by exists (Z.to_nat (j / 64)), w, v, (j mod 64). }
  split; f_equal; apply eq_true_iff_eq; rewrite bool_decide_eq_true, ?negb_true_iff.
  - done.
  - destruct b; split; try done.
    + intros Hempty. by apply (proj1 Hiff eq_refl) in Hempty.
    + intros _. apply dec_stable. intros Hne. by apply Hiff in Hne.
Qed.

(** ** Counting and the smallest element *)
Lemma count_bits_spec w n (k : Z) :
  0 <= k -> k + Z.of_nat n = 64 ->
  count_bits n w (2 ^ k) = Z.of_nat (length (filter (fun j => Z.testbit w j = true) (seqZ k (Z.of_nat n)))).
Proof.
  revert k. induction n as [|n IH]; intros k Hk Hn; [done|]. cbn [count_bits].
  rewrite (seqZ_cons k) by lia. rewrite Nat2Z.inj_succ, Z.pred_succ.
  assert (Hm : Z.land w (2 ^ k) = 0 <-> Z.testbit w k = false).
  { split.
    - intros E. assert (Hb : Z.testbit (Z.land w (2 ^ k)) k = false) by (by rewrite E, Z.bits_0).
      rewrite Z.land_spec, Z.pow2_bits_true, andb_true_r in Hb by lia. done.
    - intros E. apply Z.bits_inj'. intros j Hj. rewrite Z.land_spec, Z.bits_0.
      rewrite Z.pow2_bits_eqb by lia. destruct (Z.eqb_spec k j); [subst; by rewrite E|apply andb_false_r]. }
  assert (Hshift : n = 0%nat \/ u64 (Z.shiftl (2 ^ k) 1) = 2 ^ (Z.succ k)).
  { destruct n as [|n]; [by left|right]. rewrite Z.shiftl_mul_pow2 by lia. change (2 ^ 1) with 2.
    rewrite Z.mul_comm, <-Z.pow_succ_r by lia. apply u64_small.
    split; [apply Z.pow_nonneg; lia|]. apply Z.pow_lt_mono_r; lia. }
  assert (Hrest : count_bits n w (u64 (Z.shiftl (2 ^ k) 1)) =
    Z.of_nat (length (filter (fun j => Z.testbit w j = true) (seqZ (Z.succ k) (Z.of_nat n))))).
  { destruct Hshift as [->| ->]; [done|]. apply IH; lia. }
  rewrite Hrest. destruct (Z.testbit w k) eqn:E.
  - rewrite filter_cons_True by done. destruct (Z.eqb_spec (Z.land w (2 ^ k)) 0) as [E0|];
      [apply Hm in E0; congruence|]. simpl. lia.
  - rewrite filter_cons_False by congruence. rewrite (proj2 Hm) by done. simpl. lia.
Qed.

Lemma filter_seqZ_shift (P Q : Z -> Prop) `{!forall x, Decision (P x), !forall x, Decision (Q x)} d m n :
  (forall j, m <= j < m + n -> P (d + j) <-> Q j) ->
  length (filter P (seqZ (d + m) n)) = length (filter Q (seqZ m n)).
Proof.
  intros Hpq. assert (E : seqZ (d + m) n = Z.add d <$> seqZ m n) by (symmetry; apply fmap_add_seqZ).
  rewrite E. assert (Hf : Forall (fun j => P (d + j) <-> Q j) (seqZ m n))
    by (apply Forall_forall; intros j Hj%elem_of_seqZ; apply Hpq; lia).
  clear Hpq E. induction Hf as [|j l Hj Hf IH]; [done|]. rewrite fmap_cons, !filter_cons.
  do 2 case_decide; simpl; naive_solver lia.
Qed.

Lemma bit_cons w l j : 64 <= j -> bit (w :: l) j = bit l (j - 64).
Proof.
  intros Hj. unfold bit. rewrite !bool_decide_eq_true_2 by lia. simpl.
  assert (E : j / 64 = (j - 64) / 64 + 1).
  { replace j with ((j - 64) + 1 * 64) at 1 by lia. by rewrite Z.div_add by lia. }
  assert (0 <= (j - 64) / 64) by (apply Z.div_pos; lia).
  replace (Z.to_nat (j / 64)) with (S (Z.to_nat ((j - 64) / 64))) by lia. simpl.
  replace (j mod 64) with ((j - 64) mod 64); [done|].
  replace j with ((j - 64) + 1 * 64) at 2 by lia. by rewrite Z.mod_add by lia.
Qed.

Lemma count_words l :
  foldr (fun w n => count_bits 64 w 1 + n) 0 l = Z.of_nat (length (elements_of l)).
Proof.
  induction l as [|w l IH]; [done|]. cbn [foldr]. rewrite IH.
  pose proof (count_bits_spec w 64 0 ltac:(lia) ltac:(lia)) as Hc.
  change (2 ^ 0) with 1 in Hc. change (Z.of_nat 64) with 64 in Hc. rewrite Hc. unfold elements_of.
  replace (64 * Z.of_nat (length (w :: l))) with (64 + 64 * Z.of_nat (length l))
    by (simpl length; lia).
  rewrite (seqZ_app 0 64) by lia. rewrite filter_app, length_app, Nat2Z.inj_add.
  assert (H0 : length (filter (fun j => Z.testbit w j = true) (seqZ 0 64)) =
               length (filter (fun j => bit (w :: l) j = true) (seqZ 0 64))).
  { apply (filter_seqZ_shift _ _ 0 0 64). intros j Hj.
    rewrite Z.add_0_l, <-(bit_word (w :: l) 0 w j) by (done || lia). done. }
  assert (H1 : length (filter (fun j => bit (w :: l) j = true) (seqZ (0 + 64) (64 * Z.of_nat (length l)))) =
               length (filter (fun j => bit l j = true) (seqZ 0 (64 * Z.of_nat (length l))))).
  { apply (filter_seqZ_shift _ _ 64 0). intros j Hj. rewrite bit_cons by lia.
    by replace (64 + j - 64) with j by lia. }
  by rewrite H0, H1.
Qed.

Lemma count_spec s : count s = Z.of_nat (base.size (to_set s)).
Proof.
  unfold count. rewrite count_words. f_equal. unfold to_set.
  rewrite size_list_to_set; [done|]. apply NoDup_filter, NoDup_seqZ.
Qed.

Lemma lowest_bit_spec x n k :
  (exists j, 0 <= j < Z.of_nat n /\ Z.testbit x j = true) ->
  exists j, lowest_bit n x k = Some (k + j) /\ 0 <= j < Z.of_nat n /\ Z.testbit x j = true /\
    forall i, 0 <= i < j -> Z.testbit x i = false.
Proof.
  revert x k. induction n as [|n IH]; intros x k (j & Hj & Hb); [lia|]. cbn [lowest_bit].
  rewrite land_1. destruct (Z.testbit x 0) eqn:E0; simpl.
  { exists 0. split_and!; [f_equal; lia|lia..|done|lia]. }
  destruct (decide (j = 0)) as [->|]; [congruence|].
  destruct (IH (Z.shiftr x 1) (k + 1)) as (i & -> & Hi & Hbi & Hlow).
  { exists (j - 1). split; [lia|]. rewrite Z.shiftr_spec by lia. by rewrite Z.sub_add. }
  exists (i + 1). rewrite Z.shiftr_spec in Hbi by lia. split_and!; [f_equal; lia|lia..|done|].
  intros i' Hi'. destruct (decide (i' = 0)) as [->|]; [done|].
  specialize (Hlow (i' - 1) ltac:(lia)). rewrite Z.shiftr_spec in Hlow by lia.
  by rewrite Z.sub_add in Hlow.
Qed.

#[local] Arguments lowest_bit : simpl never.
Lemma smallest_from_spec l i :
  Forall word l -> (exists j, bit l j = true) ->
  exists j, smallest_from l i = Some (64 * i + j) /\ bit l j = true /\
    forall j', bit l j' = true -> j <= j'.
Proof.
  intros Hl. revert i. induction Hl as [|w l Hw Hl IH]; intros i [j Hj]; cbn [smallest_from].
  { apply bit_range in Hj. simpl in Hj. lia. }
  assert (Hlow : forall k, 0 <= k < 64 -> bit (w :: l) k = Z.testbit w k).
  { intros k Hk. rewrite <-(bit_word (w :: l) 0 w k) by done. f_equal. }
  destruct (Z.eqb_spec w 0) as [->|Hne]; simpl.
  - assert (Hge : forall j, bit (0 :: l) j = true -> 64 <= j).
    { intros j' Hj'. destruct (decide (j' < 64)); [|lia]. apply bit_range in Hj' as Hr.
      rewrite Hlow, Z.bits_0 in Hj' by lia. done. }
    destruct (IH (i + 1)) as (j1 & -> & Hb & Hmin).
    { exists (j - 64). rewrite <-bit_cons with (w := 0) by auto. done. }
    pose proof (bit_range _ _ Hb). exists (64 + j1). split_and!; [f_equal; lia| |].
    + rewrite bit_cons by lia. by replace (64 + j1 - 64) with j1 by lia.
    + intros j' Hj'. pose proof (Hge j' Hj'). rewrite bit_cons in Hj' by lia.
      specialize (Hmin _ Hj'). lia.
  - destruct (lowest_bit_spec w 64 0) as (j1 & -> & Hj1 & Hb & Hmin).
    { destruct (decide (Exists (fun k => Z.testbit w k = true) (seqZ 0 64))) as [Hex|Hno].
      - apply Exists_exists in Hex as (k & Hk%elem_of_seqZ & ?). exists k. split; [lia|done].
      - destruct Hne. apply word_eq; [done|by split; vm_compute|]. intros k Hk.
        rewrite <-Forall_Exists_neg, Forall_forall in Hno.
        specialize (Hno k ltac:(apply elem_of_seqZ; lia)). rewrite Z.bits_0.
        by destruct (Z.testbit w k). }
    simpl. exists j1. split_and!; [f_equal; lia|by rewrite Hlow|].
    intros j' Hj'. destruct (decide (j' < j1)); [|lia]. apply bit_range in Hj' as Hr.
    rewrite Hlow, Hmin in Hj' by lia. done.
Qed.

Lemma smallestElement_spec s :
  set_wf s -> to_set s <> ∅ ->
  exists j, smallestElement s = Some j /\ j ∈ to_set s /\ forall j', j' ∈ to_set s -> j <= j'.
Proof.
  intros Hs Hne. unfold smallestElement. rewrite count_spec.
  assert (0 < Z.of_nat (base.size (to_set s))).
  { assert (base.size (to_set s) <> 0%nat); [|lia]. apply size_non_empty_iff. by rewrite leibniz_equiv_iff. }
  destruct (Z.ltb_spec 0 (Z.of_nat (base.size (to_set s)))); [|lia].
  apply set_choose_L in Hne as [j Hj].
  destruct (smallest_from_spec (m_p_nArray s) 0 (wf_words s Hs)) as (j1 & -> & Hb & Hmin).
  { exists j. by apply elem_of_to_set. }
  exists j1. split_and!; [done|by apply elem_of_to_set|].
  intros j' Hj'. by apply Hmin, elem_of_to_set.
Qed.

(** ** Broadcast *)
Lemma mask_loop_eq n w m :
  Z.of_nat n < m -> mask_loop (S n) w (Z.ones m) = Z.land w (Z.ones (m - Z.of_nat n)).
Proof.
  revert w m. induction n as [|n IH]; intros w m Hm.
  { simpl. do 2 f_equal. lia. }
  replace (mask_loop (S (S n)) w (Z.ones m))
    with (mask_loop (S n) (Z.land w (Z.ones m)) (Z.shiftr (Z.ones m) 1)) by done.
  assert (E : Z.shiftr (Z.ones m) 1 = Z.ones (m - 1)).
  { apply Z.bits_inj'. intros j Hj. rewrite Z.shiftr_spec by lia. destruct (decide (j < m - 1)).
    - by rewrite !Z.ones_spec_low by lia.
    - by rewrite !Z.ones_spec_high by lia. }
  rewrite E, IH by lia. rewrite <-Z.land_assoc. f_equal.
  replace (m - 1 - Z.of_nat n) with (m - Z.of_nat (S n)) by lia.
  apply Z.bits_inj'. intros j Hj. rewrite Z.land_spec. destruct (decide (j < m - Z.of_nat (S n))).
  - by rewrite !Z.ones_spec_low by lia.
  - rewrite (Z.ones_spec_high (m - Z.of_nat (S n))) by lia. apply andb_false_r.
Qed.

Lemma mask_last_spec size l :
  0 <= size -> Z.of_nat (length l) = setSize_words size -> Forall word l ->
  length (mask_last size l) = length l /\ Forall word (mask_last size l) /\
  forall j, bit (mask_last size l) j = bit l j && bool_decide (j < size).
Proof.
  intros Hs Hl Hw. unfold mask_last. unfold setSize_words in Hl.
  rewrite Z.quot_div_nonneg, Z.rem_mod_nonneg in * by lia.
  pose proof (Z.div_mod size 64 ltac:(lia)) as Hdm. pose proof (Z.mod_pos_bound size 64 ltac:(lia)).
  assert (Hq : 0 <= size / 64) by (apply Z.div_pos; lia).
  destruct (Z.eqb_spec (size mod 64) 0) as [E|E]; cbn [negb].
  { split_and!; [done..|]. intros j. destruct (bit l j) eqn:Hb; simpl; [|done].
    apply bit_range in Hb. rewrite bool_decide_eq_true_2; [done|lia]. }
  rewrite (proj2 (index_word size Hs)).
  destruct (Z.to_nat (64 - size mod 64)) as [|n] eqn:En; [lia|].
  assert (Hmask : forall w, mask_loop (S n) w (2 ^ 63 - 1) = Z.land w (Z.ones (size mod 64))).
  { intros w. change (2 ^ 63 - 1) with (Z.ones 63). rewrite mask_loop_eq by lia. do 2 f_equal. lia. }
  split_and!; [apply length_alter| |].
  - apply Forall_alter; [done|]. intros w _ Hww. rewrite Hmask. apply word_land; [done|].
    rewrite Z.ones_equiv. pose proof (Z.pow_pos_nonneg 2 (size mod 64)).
    assert (2 ^ (size mod 64) <= 2 ^ 64) by (apply Z.pow_le_mono_r; lia). split; lia.
  - intros j. unfold bit. case_bool_decide as Hj; cbn [andb]; [|done].
    pose proof (Z.div_mod j 64 ltac:(lia)). pose proof (Z.mod_pos_bound j 64 ltac:(lia)).
    assert (0 <= j / 64) by (apply Z.div_pos; lia).
    rewrite list_lookup_alter. case_decide as Hi.
    + rewrite Hi. destruct (l !! Z.to_nat (j / 64)) as [w|]; [|done].
      cbn [fmap option_fmap option_map].
      rewrite Hmask, Z.land_spec. destruct (decide (j mod 64 < size mod 64)).
      * rewrite Z.ones_spec_low by lia. rewrite bool_decide_eq_true_2; [done|]. lia.
      * rewrite Z.ones_spec_high by lia. rewrite bool_decide_eq_false_2; [done|]. lia.
    + destruct (l !! Z.to_nat (j / 64)) as [w|] eqn:Hlk; [|done].
      apply lookup_lt_Some in Hlk. rewrite bool_decide_eq_true_2, andb_true_r; [done|]. lia.
Qed.

(** Every element the set can hold. *)
Definition everyone (size : Z) : gset Z := list_to_set (seqZ 0 size).

Lemma elem_of_everyone size j : j ∈ everyone size <-> 0 <= j < size.
Proof. unfold everyone. rewrite elem_of_list_to_set, elem_of_seqZ. lia. Qed.

Lemma Set_new_spec size : 0 <= size -> set_wf (Set_new size) /\ to_set (Set_new size) = ∅.
Proof.
  intros Hs. pose proof (setSize_words_bounds size Hs).
  assert (Hb : forall j, bit (m_p_nArray (Set_new size)) j = false).
  { intros j. unfold Set_new; simpl. rewrite bit_replicate, Z.bits_0. apply andb_false_r. }
  split.
  - split; simpl; [done|rewrite length_replicate; lia| |].
    + apply Forall_replicate. split; by vm_compute.
    + intros j. change (replicate _ 0) with (m_p_nArray (Set_new size)). by rewrite Hb.
  - apply set_eq. intros j. rewrite elem_of_to_set, Hb. set_solver.
Qed.

Lemma broadcast_spec s :
  set_wf s -> set_wf (broadcast s) /\ to_set (broadcast s) = everyone (m_nSize s).
Proof.
  intros Hs. pose proof (setSize_words_bounds (m_nSize s) (wf_size s Hs)).
  destruct (mask_last_spec (m_nSize s) (replicate (length (m_p_nArray s)) ones64)) as (Hl & Hw & Hb).
  { apply Hs. }
  { rewrite length_replicate. apply Hs. }
  { apply Forall_replicate, word_ones. }
  pose proof (wf_length s Hs).
  assert (Hbit : forall j, bit (m_p_nArray (broadcast s)) j = true <-> 0 <= j < m_nSize s).
  { intros j. unfold broadcast; simpl. rewrite Hb, bit_replicate.
    rewrite !andb_true_iff, !bool_decide_eq_true. split; [lia|]. intros Hj. split_and!; try lia.
    pose proof (Z.mod_pos_bound j 64 ltac:(lia)). rewrite testbit_ones64 by lia.
    apply bool_decide_eq_true_2. lia. }
  split.
  - split; simpl; [apply Hs| |done|].
    + rewrite Hl, length_replicate. apply Hs.
    + intros j Hj. apply Hbit in Hj. lia.
  - apply set_eq. intros j. by rewrite elem_of_to_set, elem_of_everyone, Hbit.
Qed.

Lemma low_bits_set_spec n w k :
  0 <= k -> k + Z.of_nat n <= 63 ->
  low_bits_set n w (2 ^ k) = true <-> (forall j, k <= j < k + Z.of_nat n -> Z.testbit w j = true).
Proof.
  revert k. induction n as [|n IH]; intros k Hk Hn; cbn [low_bits_set].
  { split; [lia|done]. }
  assert (Hsh : u64 (Z.shiftl (2 ^ k) 1) = 2 ^ (k + 1)).
  { rewrite Z.shiftl_mul_pow2 by lia. rewrite <-Z.pow_add_r by lia. apply u64_small.
    split; [apply Z.pow_nonneg; lia|]. apply Z.pow_lt_mono_r; lia. }
  assert (Hb : (Z.land (2 ^ k) w =? 0) = negb (Z.testbit w k)).
  { apply eq_true_iff_eq. rewrite Z.eqb_eq, negb_true_iff. split.
    - intros E. assert (Z.testbit (Z.land (2 ^ k) w) k = false) as Hf by (by rewrite E, Z.bits_0).
      by rewrite Z.land_spec, Z.pow2_bits_true in Hf by lia.
    - intros E. apply Z.bits_inj'. intros j Hj. rewrite Z.land_spec, Z.bits_0, Z.pow2_bits_eqb by lia.
      destruct (Z.eqb_spec k j); [by subst|done]. }
  rewrite Hb, Hsh. destruct (Z.testbit w k) eqn:E; simpl.
  - rewrite IH by lia. split; intros H j Hj; [|apply H; lia].
    destruct (decide (j = k)) as [->|]; [done|apply H; lia].
  - split; [done|]. intros H. rewrite <-E. apply H. lia.
Qed.

Lemma isBroadcast_spec s :
  set_wf s -> isBroadcast s = Some (bool_decide (to_set s = everyone (m_nSize s))).
Proof.
  intros Hs. pose proof (wf_length s Hs) as Hl. unfold setSize_words in Hl.
  pose proof (wf_size s Hs) as Hs0. set (size := m_nSize s) in *.
  rewrite Z.quot_div_nonneg, Z.rem_mod_nonneg in Hl by lia.
  pose proof (Z.div_mod size 64 ltac:(lia)) as Hdm. pose proof (Z.mod_pos_bound size 64 ltac:(lia)).
  assert (Hq : 0 <= size / 64) by (apply Z.div_pos; lia).
  assert (Hall : to_set s = everyone size <-> forall j, 0 <= j < size -> bit (m_p_nArray s) j = true).
  { split.
    - intros E j Hj. by rewrite <-elem_of_to_set, E, elem_of_everyone.
    - intros Hb. apply set_eq. intros j. rewrite elem_of_to_set, elem_of_everyone. split; [|auto].
      intros Hj. pose proof (bit_range _ _ Hj). pose proof (wf_stray s Hs j Hj). lia. }
  set (full := Z.to_nat (size / 64)).
  assert (Hfull : forallb (fun w => w =? ones64) (take full (m_p_nArray s)) = true <->
    forall j, 0 <= j < 64 * (size / 64) -> bit (m_p_nArray s) j = true).
  { rewrite forallb_forall. split.
    - intros Hf j Hj. pose proof (Z.div_mod j 64 ltac:(lia)). pose proof (Z.mod_pos_bound j 64 ltac:(lia)).
      assert (0 <= j / 64) by (apply Z.div_pos; lia).
      destruct (lookup_lt_is_Some_2 (m_p_nArray s) (Z.to_nat (j / 64))) as [w Hw];
        [destruct (size mod 64 =? 0); lia|].
      rewrite (bit_cell _ j w) by (lia || (apply cell_Some; split; [lia|done])).
      apply ones64_iff; [exact (Forall_lookup_1 _ _ _ _ (wf_words s Hs) Hw)| |done].
      apply Z.eqb_eq, Hf, list_elem_of_In, list_elem_of_lookup. exists (Z.to_nat (j / 64)).
      by rewrite lookup_take_lt by lia.
    - intros Hb w Hin%list_elem_of_In%list_elem_of_lookup. destruct Hin as [i Hi].
      apply lookup_take_Some in Hi as [Hi Hlt].
      apply Z.eqb_eq, ones64_iff; [exact (Forall_lookup_1 _ _ _ _ (wf_words s Hs) Hi)|].
      intros k Hk. rewrite <-(bit_word _ i w k) by done. apply Hb. lia. }
  unfold isBroadcast. fold size. rewrite Z.rem_mod_nonneg by lia.
  replace (if size mod 64 =? 0 then length (m_p_nArray s) else (length (m_p_nArray s) - 1)%nat)
    with full by (destruct (size mod 64 =? 0); lia).
  destruct (forallb _ (take full _)) eqn:Ef; last first.
  { f_equal. symmetry. apply bool_decide_eq_false_2. intros E. pose proof (proj1 Hall E) as E'.
    enough (false = true) by done. apply Hfull. intros j Hj. apply E'. lia. }
  destruct (Z.eqb_spec (size mod 64) 0) as [E0|E0].
  { f_equal. symmetry. apply bool_decide_eq_true_2, Hall. intros j Hj. apply Hfull; [done|lia]. }
  replace (m_nArrayLen s - 1) with (size / 64) by (unfold m_nArrayLen; lia).
  destruct (cell_range (m_p_nArray s) (size / 64)) as [w Hw]; [lia|]. rewrite Hw; simpl. f_equal.
  apply eq_true_iff_eq. rewrite bool_decide_eq_true, Hall.
  change 1 with (2 ^ 0). rewrite low_bits_set_spec by lia.
  apply cell_Some in Hw as [_ Hw].
  assert (Hlast : forall k, 0 <= k < 64 -> bit (m_p_nArray s) (64 * (size / 64) + k) = Z.testbit w k).
  { intros k Hk. rewrite <-(bit_word _ _ w k Hw Hk). f_equal. lia. }
  split.
  - intros Hb j Hj. destruct (decide (j < 64 * (size / 64))); [apply Hfull; [done|lia]|].
    replace j with (64 * (size / 64) + (j - 64 * (size / 64))) by lia.
    rewrite Hlast by lia. apply Hb. lia.
  - intros Hb j Hj. rewrite <-Hlast by lia. apply Hb. lia.
Qed.

(** ** Refinement *)
(** C38: the bit vectors refine finite sets: adding, removing, union,
    difference, intersection and broadcast of valid elements compute exactly
    those operations on the set of members, and keep the vectors well formed
    (no stray bit past the size). *)
Theorem Set_updates_refine s t i :
  set_wf s -> set_wf t -> m_nSize t = m_nSize s -> 0 <= i < m_nSize s ->
  (exists s', add s i = Some s' /\ set_wf s' /\ to_set s' = {[i]} ∪ to_set s) /\
  (exists s', remove s i = Some s' /\ set_wf s' /\ to_set s' = to_set s ∖ {[i]}) /\
  (exists s', addSet s t = Some s' /\ set_wf s' /\ to_set s' = to_set s ∪ to_set t) /\
  (exists s', removeSet s t = Some s' /\ set_wf s' /\ to_set s' = to_set s ∖ to_set t) /\
  (exists s', OR s t = Some s' /\ set_wf s' /\ to_set s' = to_set s ∪ to_set t) /\
  (exists s', AND s t = Some s' /\ set_wf s' /\ to_set s' = to_set s ∩ to_set t) /\
  (set_wf (broadcast s) /\ to_set (broadcast s) = everyone (m_nSize s)).
Proof.
  intros Hs Ht Hsz Hi. symmetry in Hsz.
  assert (Hor : exists s', OR s t = Some s' /\ set_wf s' /\ to_set s' = to_set s ∪ to_set t).
  { destruct (zip_wf Z.lor orb s t Hs Ht Hsz eq_refl) as [Hw Hb]; [|exact word_lor|].
    { intros. apply Z.lor_spec. }
    unfold OR. rewrite Hsz, Z.eqb_refl, <-Hsz. eexists; split_and!; [done..|].
    apply set_eq. intros j. by rewrite Hb, orb_true_iff, elem_of_union, !elem_of_to_set. }
  split_and!; [| |exact Hor| |exact Hor| |apply broadcast_spec; done..].
  - destruct (add_spec s i Hs Hi) as (s' & ? & ? & _ & ?). by exists s'.
  - destruct (remove_spec s i Hs Hi) as (s' & ? & ? & _ & ?). by exists s'.
  - destruct (zip_wf (fun w v => Z.land w (not64 v)) (fun b c => b && negb c) s t Hs Ht Hsz eq_refl)
      as [Hw Hb].
    { intros w v k Hk. by rewrite Z.land_spec, testbit_not64. }
    { intros w v Hw Hv. apply word_land; [done|by apply word_not64]. }
    unfold removeSet. rewrite Hsz, Z.eqb_refl, <-Hsz. eexists; split_and!; [done..|].
    apply set_eq. intros j. rewrite Hb, andb_true_iff, negb_true_iff, elem_of_difference, !elem_of_to_set.
    by rewrite not_true_iff_false.
  - destruct (zip_wf Z.land andb s t Hs Ht Hsz eq_refl) as [Hw Hb]; [|exact word_land|].
    { intros. apply Z.land_spec. }
    unfold AND. rewrite Hsz, Z.eqb_refl, <-Hsz. eexists; split_and!; [done..|].
    apply set_eq. intros j. by rewrite Hb, andb_true_iff, elem_of_intersection, !elem_of_to_set.
Qed.

(** the queries on bit vectors decide the corresponding questions on the
    sets of members: membership, inclusion, equality, emptiness, overlap,
    "contains everyone", cardinality, and the smallest member. *)
Theorem Set_queries_refine s t i :
  set_wf s -> set_wf t -> m_nSize t = m_nSize s -> 0 <= i < m_nSize s ->
  isElement s i = Some (bool_decide (i ∈ to_set s)) /\
  isSuperset s t = Some (bool_decide (to_set t ⊆ to_set s)) /\
  isSubset s t = Some (bool_decide (to_set s ⊆ to_set t)) /\
  isEqual s t = Some (bool_decide (to_set s = to_set t)) /\
  isEmpty s = bool_decide (to_set s = ∅) /\
  intersectionIsNotEmpty s t = Some (bool_decide (to_set s ∩ to_set t <> ∅)) /\
  intersectionIsEmpty s t = Some (bool_decide (to_set s ∩ to_set t = ∅)) /\
  isBroadcast s = Some (bool_decide (to_set s = everyone (m_nSize s))) /\
  count s = Z.of_nat (base.size (to_set s)) /\
  (to_set s <> ∅ -> exists j, smallestElement s = Some j /\ j ∈ to_set s /\
                              forall j', j' ∈ to_set s -> j <= j').
Proof.
  intros Hs Ht Hsz Hi. symmetry in Hsz. destruct (intersection_spec s t Hs Ht Hsz) as [Hi1 Hi2].
  split_and!; [by apply isElement_spec|by apply isSuperset_spec|by apply isSuperset_spec|
    by apply isEqual_spec|by apply isEmpty_spec|done|done|by apply isBroadcast_spec|
    by apply count_spec|by apply smallestElement_spec].
Qed.

(** Two sets of 80 nodes, over two words. *)
Definition nodes1 : NodeSet := from_option id (Set_new 80) (s ← add (Set_new 80) 3; add s 70).
Definition nodes2 : NodeSet := from_option id (Set_new 80) (add (Set_new 80) 70).

Lemma nodes_wf : set_wf nodes1 /\ set_wf nodes2.
Proof.
  destruct (Set_new_spec 80) as [H0 _]; [done|].
  destruct (add_spec (Set_new 80) 3 H0) as (s1 & E1 & H1 & Hsz & _); [by split; vm_compute|].
  destruct (add_spec s1 70 H1) as (s2 & E2 & H2 & _); [rewrite Hsz; by split; vm_compute|].
  destruct (add_spec (Set_new 80) 70 H0) as (s3 & E3 & H3 & _); [by split; vm_compute|].
  unfold nodes1, nodes2. rewrite E1, E3; simpl. by rewrite E2.
Qed.

Lemma Set_updates_refine_witness :
  exists s', removeSet nodes1 nodes2 = Some s' /\ set_wf s' /\ to_set s' = to_set nodes1 ∖ to_set nodes2.
Proof.
  destruct (Set_updates_refine nodes1 nodes2 5 (proj1 nodes_wf) (proj2 nodes_wf) eq_refl)
    as (_ & _ & _ & H & _); [split; vm_compute; congruence|exact H].
Defined.

Lemma Set_queries_refine_witness :
  isSuperset nodes1 nodes2 = Some (bool_decide (to_set nodes2 ⊆ to_set nodes1)) /\
  count nodes1 = Z.of_nat (base.size (to_set nodes1)).
Proof.
  destruct (Set_queries_refine nodes1 nodes2 5 (proj1 nodes_wf) (proj2 nodes_wf) eq_refl)
    as (_ & H1 & _ & _ & _ & _ & _ & _ & H2 & _); [split; vm_compute; congruence|].
  split; [exact H1|exact H2].
Defined.
