(* ===== verification/NetDest.v ===== *)
(** Network destinations: one set of nodes per machine type.
    [common/NetDest.C], and the destination maps of
    [slicc_interface/RubySlicc_ComponentMapping.h]. *)
From S2P Require Import Prelude Vector Config Address NodeSet.

Section netdest.
(** The tables SLICC generates for the protocol's machine types: the position
    of each type among the [NUM] types, and how many machines it has. *)
Variables (base_level : MachineType -> Z) (NUM : nat) (base_count : Z -> Z) (base_number : Z -> Z).

(** [m_bits]. *)
Abbreviation NetDest := (list NodeSet).
Implicit Types (d n : NetDest) (m : MachineID).

Definition NetDest_new : NetDest := (fun i => Set_new (base_count (Z.of_nat i))) <$> seq 0 NUM.

Definition vecIndex d (m : MachineID) : option Z :=
  let vec_index := base_level (m_type m) in
  assert! vec_index <? Z.of_nat (length d); Some vec_index.

(** [m_bits[i] = f(m_bits[i])]. *)
Definition at_level d (i : Z) (f : NodeSet -> option NodeSet) : option NetDest :=
  s ← cell d i; s ← f s; set_cell d i s.

Definition nd_add d m : option NetDest :=
  i ← vecIndex d m; at_level d i (fun s => add s (m_num m)).
Definition nd_remove d m : option NetDest :=
  i ← vecIndex d m; at_level d i (fun s => remove s (m_num m)).
Definition nd_isElement d m : option bool :=
  i ← vecIndex d m; s ← cell d i; isElement s (m_num m).
Definition nd_elementAt d m : option Z :=
  i ← vecIndex d m; s ← cell d i; elementAt s (m_num m).

(** The loops over the vectors of two destinations of the same size. *)
Fixpoint map2 (f : NodeSet -> NodeSet -> option NodeSet) d n : option NetDest :=
  match d, n with
  | s :: d, t :: n => r ← f s t; l ← map2 f d n; Some (r :: l)
  | [], _ => Some []
  | _ :: _, [] => None
  end.

Fixpoint levels_all (f : NodeSet -> NodeSet -> option bool) d n : option bool :=
  match d, n with
  | s :: d, t :: n => b ← f s t; if (b : bool) then levels_all f d n else Some false
  | [], _ => Some true
  | _ :: _, [] => None
  end.

Fixpoint levels_any (f : NodeSet -> NodeSet -> option bool) d n : option bool :=
  match d, n with
  | s :: d, t :: n => b ← f s t; if (b : bool) then Some true else levels_any f d n
  | [], _ => Some false
  | _ :: _, [] => None
  end.

Definition same_size d n : bool := Nat.eqb (length d) (length n).

Definition addNetDest d n : option NetDest :=
  assert! same_size d n;
  map2 (fun s t => assert! negb (m_nSize t =? 0); addSet s t) d n.
Definition removeNetDest d n : option NetDest := assert! same_size d n; map2 removeSet d n.
Definition nd_OR d n : option NetDest := assert! same_size d n; map2 OR d n.
Definition nd_AND d n : option NetDest := assert! same_size d n; map2 AND d n.
Definition nd_isSuperset d n : option bool := assert! same_size d n; levels_all isSuperset d n.
Definition nd_isSubset d n : option bool := nd_isSuperset n d.
Definition nd_intersectionIsNotEmpty d n : option bool :=
  assert! same_size d n; levels_any intersectionIsNotEmpty d n.

Definition setNetDest d (machine : MachineType) (next_level : Z) (set : NodeSet) : option NetDest :=
  assert! negb (m_nSize set =? 0);
  assert! next_level - base_level machine =? 1;
  set_cell d (base_level machine) set.

Definition nd_clear d : NetDest := clear <$> d.
Definition nd_count d : Z := foldr (fun s c => count s + c) 0 d.
Definition nd_isEmpty d : bool := forallb isEmpty d.

Fixpoint nd_isBroadcast d : option bool :=
  match d with
  | [] => Some true
  | s :: d => b ← isBroadcast s; if (b : bool) then nd_isBroadcast d else Some false
  end.

(** [broadcast] to one type: its machines are added one by one. *)
Fixpoint add_all d (l : list MachineID) : option NetDest :=
  match l with [] => Some d | m :: l => d ← nd_add d m; add_all d l end.
Definition machines (t : MachineType) (start n : Z) : list MachineID :=
  mkMachine t <$> seqZ start n.
Definition broadcast_type d (t : MachineType) : option NetDest :=
  add_all d (machines t 0 (base_count (base_level t))).
Fixpoint nd_broadcast d (types : list MachineType) : option NetDest :=
  match types with [] => Some d | t :: ts => d ← broadcast_type d t; nd_broadcast d ts end.

(** The first set bit, bit by bit. *)
Fixpoint first_element (s : NodeSet) (n : nat) (j : Z) : option (option Z) :=
  match n with
  | O => Some None
  | S n => b ← isElement s j; if (b : bool) then Some (Some j) else first_element s n (j + 1)
  end.
Definition smallest_of_type d (t : MachineType) : option MachineID :=
  s ← cell d (base_level t);
  r ← first_element s (Z.to_nat (m_nSize s)) 0;
  j ← r;
  Some (mkMachine t j).
Fixpoint first_level d : option Z :=
  match d with
  | [] => None
  | s :: d =>
      r ← first_element s (Z.to_nat (m_nSize s)) 0;
      match r with Some j => Some j | None => first_level d end
  end.
Definition nd_smallestElement d : option Z := assert! 0 <? nd_count d; first_level d.

(** [getAllDest]: network numbers of the members, in order. *)
Definition dest_of_set (i : Z) (s : NodeSet) : list Z :=
  (fun j => base_number i + j) <$>
    filter (fun j => isElement s j = Some true) (seqZ 0 (m_nSize s)).
Definition getAllDest d : list Z :=
  mjoin (imap (fun i s => dest_of_set (Z.of_nat i) s) d).

(** ** Destination maps *)
Variable g : Globals.

Fixpoint add_banks d (a : Z) (l : list Z) : option NetDest :=
  match l with
  | [] => Some d
  | i :: l => m ← map_L2ChipId_to_L2Cache g a i; d ← nd_add d m; add_banks d a l
  end.

Definition getMultiStaticL2BankNetDest (a : Z) (sharers : NodeSet) : option NetDest :=
  add_banks NetDest_new a
    (filter (fun i => isElement sharers i = Some true) (seqZ 0 (m_nSize sharers))).

Definition getAllPertinentL2Banks (a : Z) : option NetDest :=
  add_banks NetDest_new a (seqZ 0 (g_NUM_CHIPS g)).

Definition getOtherLocalL1IDs (L1 : MachineID) : option NetDest :=
  let start := Z.quot (m_num L1) (g_PROCS_PER_CHIP g) * g_PROCS_PER_CHIP g in
  add_all NetDest_new
    (filter (fun m => m_num m <> m_num L1) (machines L1Cache start (g_PROCS_PER_CHIP g))).

Definition getLocalL1IDs (mach : MachineID) : option NetDest :=
  match m_type mach with
  | L1Cache =>
      let start := Z.quot (m_num mach) (g_PROCS_PER_CHIP g) * g_PROCS_PER_CHIP g in
      add_all NetDest_new (machines L1Cache start (g_PROCS_PER_CHIP g))
  | L2Cache =>
      let chip := Z.quot (m_num mach) (g_NUM_L2_BANKS_PER_CHIP g) in
      add_all NetDest_new (machines L1Cache (chip * g_PROCS_PER_CHIP g) (g_PROCS_PER_CHIP g))
  | _ => Some NetDest_new
  end.

Definition getExternalL1IDs (L1 : MachineID) : option NetDest :=
  ret ← add_all NetDest_new (machines L1Cache 0 (g_NUM_PROCESSORS g));
  local ← getLocalL1IDs L1;
  removeNetDest ret local.

(** ** The abstract destination *)
(** Each vector has the size of its machine type. *)
Record netdest_wf d : Prop := {
  nd_length : length d = NUM;
  nd_sets i s : d !! i = Some s -> set_wf s /\ m_nSize s = base_count (Z.of_nat i);
}.

(** The types of the protocol, numbered from 0. *)
Definition known (t : MachineType) : Prop := 0 <= base_level t < Z.of_nat NUM.
Definition valid (m : MachineID) : Prop :=
  known (m_type m) /\ 0 <= m_num m < base_count (base_level (m_type m)).

(** Machine [j] of level [i] is a destination of [d]; [m] is one. *)
Definition at_node d (i : nat) (j : Z) : Prop := exists s, d !! i = Some s /\ j ∈ to_set s.
Definition member d m : Prop := at_node d (Z.to_nat (base_level (m_type m))) (m_num m).

Hypothesis counts_nonneg : forall i, 0 <= base_count i.
Hypothesis levels_inj : forall t u, known t -> known u -> base_level t = base_level u -> t = u.

Lemma NetDest_new_wf : netdest_wf NetDest_new /\ forall m, ~ member NetDest_new m.
Proof using counts_nonneg.
  assert (Hl : forall i s, NetDest_new !! i = Some s -> s = Set_new (base_count (Z.of_nat i))).
  { intros i s. unfold NetDest_new. rewrite list_lookup_fmap. intros (j & Hj & ->)%fmap_Some.
    apply lookup_seq in Hj as [-> _]. done. }
  split.
  - split; [unfold NetDest_new; by rewrite length_fmap, length_seq|].
    intros i s ->%Hl. split; [by apply Set_new_spec|done].
  - intros m (s & Hs%Hl & Hm). subst s.
    rewrite (proj2 (Set_new_spec _ (counts_nonneg _))) in Hm. by apply elem_of_empty in Hm.
Qed.

Lemma level_of d m : netdest_wf d -> valid m ->
  exists s, vecIndex d m = Some (base_level (m_type m)) /\
    cell d (base_level (m_type m)) = Some s /\ d !! Z.to_nat (base_level (m_type m)) = Some s /\
    set_wf s /\ 0 <= m_num m < m_nSize s.
Proof using Type.
  intros Hd [[Hk0 Hk1] Hm]. unfold vecIndex. rewrite (nd_length d Hd).
  destruct (Z.ltb_spec (base_level (m_type m)) (Z.of_nat NUM)); [|lia].
  destruct (cell_range d (base_level (m_type m))) as [s Hs]; [rewrite (nd_length d Hd); lia|].
  assert (Hl := Hs). apply cell_Some in Hl as [_ Hl].
  destruct (nd_sets d Hd _ _ Hl) as [Hw Hsz]. rewrite Z2Nat.id in Hsz by lia.
  exists s. split_and!; try done; lia.
Qed.

(** Replacing one level by a set of the same size. *)
Lemma at_level_spec d m f (Q : Z -> Prop) :
  netdest_wf d -> valid m ->
  (forall s, d !! Z.to_nat (base_level (m_type m)) = Some s -> exists s', f s = Some s' /\ set_wf s' /\
     m_nSize s' = m_nSize s /\ forall j, j ∈ to_set s' <-> Q j) ->
  exists d', at_level d (base_level (m_type m)) f = Some d' /\ netdest_wf d' /\
    forall m', valid m' -> member d' m' <-> if decide (m_type m' = m_type m) then Q (m_num m') else member d m'.
Proof using levels_inj.
  intros Hd Hm Hf. destruct (level_of d m Hd Hm) as (s & _ & Hc & Hl & _ & _).
  destruct (Hf s Hl) as (s' & E & Hw & Hsz & Hq).
  assert (Hlt := lookup_lt_Some _ _ _ Hl). destruct Hm as [[Hk0 Hk1] _].
  unfold at_level. rewrite Hc; simpl. rewrite E; simpl. rewrite set_cell_Some by lia.
  eexists; split_and!; [done| |].
  - split; [rewrite length_insert; apply Hd|]. intros i t. rewrite list_lookup_insert_Some.
    intros [(<- & <- & _)|[_ Ht]]; [|by apply (nd_sets d Hd)].
    split; [done|]. rewrite Hsz. by apply (nd_sets d Hd).
  - intros m' [Hk' _]. unfold member, at_node. case_decide as Ht.
    + rewrite Ht, list_lookup_insert_eq by done. split; [intros (? & [= <-] & ?); by apply Hq|].
      intros ?. exists s'. split; [done|]. by apply Hq.
    + rewrite list_lookup_insert_ne; [done|]. intros E'. apply Ht.
      apply levels_inj; [done|by split|]. unfold known in Hk'. lia.
Qed.

Lemma nd_add_spec d m :
  netdest_wf d -> valid m ->
  exists d', nd_add d m = Some d' /\ netdest_wf d' /\
    forall m', valid m' -> member d' m' <-> m' = m \/ member d m'.
Proof using levels_inj.
  clear counts_nonneg base_number. intros Hd Hm. destruct (level_of d m Hd Hm) as (s & Hi & _ & Hl & Hw & Hn).
  destruct (at_level_spec d m (fun s => add s (m_num m)) (fun j => j = m_num m \/ j ∈ to_set s) Hd Hm)
    as (d' & E & Hd' & Hmem).
  { intros s' Hs'. rewrite Hl in Hs'. injection Hs' as <-.
    destruct (add_spec s (m_num m) Hw Hn) as (s' & ? & ? & ? & Hs').
    exists s'. split_and!; try done. intros j. rewrite Hs'. set_solver. }
  unfold nd_add. rewrite Hi; simpl. exists d'; split_and!; [done..|].
  intros m' Hm'. rewrite Hmem by done. case_decide as Ht.
  - assert (member d m' <-> m_num m' ∈ to_set s) as ->.
    { unfold member, at_node. rewrite Ht, Hl. naive_solver. }
    destruct m, m'; simpl in *; subst. naive_solver.
  - split; [by right|]. by intros [->|].
Qed.

Lemma nd_remove_spec d m :
  netdest_wf d -> valid m ->
  exists d', nd_remove d m = Some d' /\ netdest_wf d' /\
    forall m', valid m' -> member d' m' <-> m' <> m /\ member d m'.
Proof using levels_inj.
  clear counts_nonneg base_number. intros Hd Hm. destruct (level_of d m Hd Hm) as (s & Hi & _ & Hl & Hw & Hn).
  destruct (at_level_spec d m (fun s => remove s (m_num m)) (fun j => j <> m_num m /\ j ∈ to_set s) Hd Hm)
    as (d' & E & Hd' & Hmem).
  { intros s' Hs'. rewrite Hl in Hs'. injection Hs' as <-.
    destruct (remove_spec s (m_num m) Hw Hn) as (s' & ? & ? & ? & Hs').
    exists s'. split_and!; try done. intros j. rewrite Hs'. set_solver. }
  unfold nd_remove. rewrite Hi; simpl. exists d'; split_and!; [done..|].
  intros m' Hm'. rewrite Hmem by done. case_decide as Ht.
  - assert (member d m' <-> m_num m' ∈ to_set s) as ->.
    { unfold member, at_node. rewrite Ht, Hl. naive_solver. }
    destruct m, m'; simpl in *; subst. naive_solver.
  - split; [intros ?; split; [by intros ->|done]|]. tauto.
Qed.

Lemma nd_isElement_spec d m b :
  netdest_wf d -> valid m -> nd_isElement d m = Some b <-> (b = true <-> member d m).
Proof using Type.
  intros Hd Hm. destruct (level_of d m Hd Hm) as (s & Hi & Hc & Hl & Hw & Hn).
  unfold nd_isElement, member, at_node. rewrite Hi; simpl. rewrite Hc, Hl; simpl.
  rewrite isElement_spec by done.
  assert ((exists s0, Some s = Some s0 /\ m_num m ∈ to_set s0) <-> m_num m ∈ to_set s) as -> by naive_solver.
  case_bool_decide as E; destruct b; naive_solver.
Qed.

(** Two destinations, level by level. *)
Lemma map2_lookup f d n :
  length d = length n ->
  (forall i s t, d !! i = Some s -> n !! i = Some t -> is_Some (f s t)) ->
  exists r, map2 f d n = Some r /\ length r = length d /\
    forall i s t, d !! i = Some s -> n !! i = Some t -> exists x, f s t = Some x /\ r !! i = Some x.
Proof using Type.
  revert n. induction d as [|s d IH]; intros [|t n] Hl Hf; try done; simpl.
  { by exists []. }
  destruct (Hf 0%nat s t eq_refl eq_refl) as [x Hx]. rewrite Hx; simpl.
  destruct (IH n) as (r & -> & Hlr & Hr); [by injection Hl|intros i; apply (Hf (S i))|]. simpl.
  eexists; split_and!; [done|simpl; congruence|]. intros [|i] s' t' Hs Ht; simpl in *.
  - injection Hs as <-. injection Ht as <-. by exists x.
  - by apply Hr.
Qed.

Lemma at_level_set d i j s : d !! i = Some s -> at_node d i j <-> j ∈ to_set s.
Proof using Type. clear. unfold at_node. intros ->. split; [by intros (? & [= <-] & ?)|]. by exists s. Qed.
Lemma known_level t : known t -> (Z.to_nat (base_level t) < NUM)%nat.
Proof using Type. clear counts_nonneg base_number levels_inj. unfold known. lia. Qed.

Lemma map2_spec f (Q : Prop -> Prop -> Prop) d n :
  Proper (iff ==> iff ==> iff) Q -> netdest_wf d -> netdest_wf n ->
  (forall i s t, d !! i = Some s -> n !! i = Some t -> set_wf s -> set_wf t -> m_nSize t = m_nSize s ->
     exists r, f s t = Some r /\ set_wf r /\ m_nSize r = m_nSize s /\
       forall j, j ∈ to_set r <-> Q (j ∈ to_set s) (j ∈ to_set t)) ->
  exists r, map2 f d n = Some r /\ netdest_wf r /\
    forall i j, (i < NUM)%nat -> at_node r i j <-> Q (at_node d i j) (at_node n i j).
Proof using Type.
  intros HQ Hd Hn Hf. assert (Hlen : length d = length n) by (rewrite (nd_length d Hd); by rewrite (nd_length n Hn)).
  assert (Hf' : forall i s t, d !! i = Some s -> n !! i = Some t ->
    exists r, f s t = Some r /\ set_wf r /\ m_nSize r = m_nSize s /\
       forall j, j ∈ to_set r <-> Q (j ∈ to_set s) (j ∈ to_set t)).
  { intros i s t Hs Ht. destruct (nd_sets d Hd i s Hs), (nd_sets n Hn i t Ht).
    apply (Hf i); congruence. }
  destruct (map2_lookup f d n Hlen) as (r & E & Hl & Hr).
  { intros i s t Hs Ht. destruct (Hf' i s t Hs Ht) as (x & -> & _). by eexists. }
  assert (Hat : forall i, (i < NUM)%nat -> exists s t x, d !! i = Some s /\ n !! i = Some t /\
    r !! i = Some x /\ set_wf x /\ m_nSize x = m_nSize s /\
    forall j, j ∈ to_set x <-> Q (j ∈ to_set s) (j ∈ to_set t)).
  { intros i Hi. destruct (lookup_lt_is_Some_2 d i) as [s Hs]; [by rewrite (nd_length d Hd)|].
    destruct (lookup_lt_is_Some_2 n i) as [t Ht]; [by rewrite (nd_length n Hn)|].
    destruct (Hr i s t Hs Ht) as (x & Hx & Hrx). destruct (Hf' i s t Hs Ht) as (x' & Hx' & ? & ? & ?).
    rewrite Hx in Hx'. injection Hx' as <-. by exists s, t, x. }
  exists r; split_and!; [done| |].
  - split; [rewrite Hl; apply Hd|]. intros i x Hx.
    assert (Hi : (i < NUM)%nat) by (rewrite <-(nd_length d Hd), <-Hl; by eapply lookup_lt_Some).
    destruct (Hat i Hi) as (s & t & x' & Hs & Ht & Hx' & ? & Hsz & _).
    rewrite Hx in Hx'. injection Hx' as <-. split; [done|]. rewrite Hsz. by apply (nd_sets d Hd).
  - intros i j Hi. destruct (Hat i Hi) as (s & t & x & Hs & Ht & Hx & _ & _ & Hq).
    rewrite (at_level_set r i j x), (at_level_set d i j s), (at_level_set n i j t) by done. apply Hq.
Qed.

Lemma same_size_wf d n : netdest_wf d -> netdest_wf n -> same_size d n = true.
Proof using Type.
  intros Hd Hn. unfold same_size. rewrite (nd_length d Hd), (nd_length n Hn). apply Nat.eqb_refl.
Qed.

Lemma removeNetDest_spec d n :
  netdest_wf d -> netdest_wf n ->
  exists r, removeNetDest d n = Some r /\ netdest_wf r /\
    forall i j, (i < NUM)%nat -> at_node r i j <-> at_node d i j /\ ~ at_node n i j.
Proof using Type.
  intros Hd Hn. unfold removeNetDest. rewrite same_size_wf by done.
  apply (map2_spec removeSet (fun p q => p /\ ~ q)); [solve_proper|done..|].
  intros i s t Hs Ht Ws Wt Hsz.
  destruct (zip_wf (fun w v => Z.land w (not64 v)) (fun b c => b && negb c) s t Ws Wt (eq_sym Hsz) eq_refl)
    as [Hw Hb].
  { intros w v k Hk. by rewrite Z.land_spec, testbit_not64. }
  { intros w v Hw Hv. apply word_land; [done|by apply word_not64]. }
  unfold removeSet. rewrite Hsz, Z.eqb_refl. eexists; split_and!; [done..|].
  intros j. rewrite Hb, andb_true_iff, negb_true_iff, <-not_true_iff_false, <-!elem_of_to_set. done.
Qed.

Lemma addNetDest_spec d n :
  netdest_wf d -> netdest_wf n -> (forall i, (i < NUM)%nat -> base_count (Z.of_nat i) <> 0) ->
  exists r, addNetDest d n = Some r /\ netdest_wf r /\
    forall i j, (i < NUM)%nat -> at_node r i j <-> at_node d i j \/ at_node n i j.
Proof using Type.
  intros Hd Hn Hne. unfold addNetDest. rewrite same_size_wf by done.
  apply (map2_spec _ or); [solve_proper|done..|]. intros i s t Hs Ht Ws Wt Hsz.
  assert (Hz : (m_nSize t =? 0) = false).
  { apply Z.eqb_neq. rewrite (proj2 (nd_sets n Hn i t Ht)). apply Hne.
    rewrite <-(nd_length n Hn). by eapply lookup_lt_Some. }
  rewrite Hz. cbn [negb].
  destruct (zip_wf Z.lor orb s t Ws Wt (eq_sym Hsz) eq_refl) as [Hw Hb]; [|exact word_lor|].
  { intros. apply Z.lor_spec. }
  unfold addSet. rewrite Hsz, Z.eqb_refl. eexists; split_and!; [done..|].
  intros j. by rewrite Hb, orb_true_iff, <-!elem_of_to_set.
Qed.

Lemma nd_AND_spec d n :
  netdest_wf d -> netdest_wf n ->
  exists r, nd_AND d n = Some r /\ netdest_wf r /\
    forall i j, (i < NUM)%nat -> at_node r i j <-> at_node d i j /\ at_node n i j.
Proof using Type.
  intros Hd Hn. unfold nd_AND. rewrite same_size_wf by done.
  apply (map2_spec _ and); [solve_proper|done..|]. intros i s t Hs Ht Ws Wt Hsz.
  destruct (zip_wf Z.land andb s t Ws Wt (eq_sym Hsz) eq_refl) as [Hw Hb]; [|exact word_land|].
  { intros. apply Z.land_spec. }
  unfold AND. rewrite Hsz, Z.eqb_refl. eexists; split_and!; [done..|].
  intros j. by rewrite Hb, andb_true_iff, <-!elem_of_to_set.
Qed.

(** [intersectionIsNotEmpty] looks for a common machine, [count] for any. *)
Lemma levels_any_spec f (Q : NodeSet -> NodeSet -> Prop) d n :
  length d = length n ->
  (forall i s t, d !! i = Some s -> n !! i = Some t -> exists b, f s t = Some b /\ (b = true <-> Q s t)) ->
  exists b, levels_any f d n = Some b /\ (b = true <-> exists i s t, d !! i = Some s /\ n !! i = Some t /\ Q s t).
Proof using Type.
  clear counts_nonneg levels_inj base_number base_level. revert n. induction d as [|s d IH]; intros [|t n] Hl Hf; try done; simpl.
  { exists false. split; [done|]. split; [done|]. by intros (i & s & t & Hs & _). }
  destruct (Hf 0%nat s t eq_refl eq_refl) as (b & -> & Hb). simpl. destruct b.
  - exists true. split; [done|]. split; [|done]. intros _. exists 0%nat, s, t. split; [done|]. split; [done|]. by apply Hb.
  - destruct (IH n) as (b & -> & Hr); [by injection Hl|intros i; apply (Hf (S i))|]. exists b. split; [done|]. rewrite Hr. split.
    + intros (i & s' & t' & ?). by exists (S i), s', t'.
    + intros ([|i] & s' & t' & Hs & Ht & HQ); [|by exists i, s', t']. injection Hs as <-. injection Ht as <-. by apply Hb in HQ.
Qed.
Lemma nd_intersection_spec d n : netdest_wf d -> netdest_wf n ->
  exists b, nd_intersectionIsNotEmpty d n = Some b /\ (b = true <-> exists i j, at_node d i j /\ at_node n i j).
Proof using Type.
  clear counts_nonneg levels_inj base_number base_level. intros Hd Hn. unfold nd_intersectionIsNotEmpty. rewrite same_size_wf by done.
  destruct (levels_any_spec intersectionIsNotEmpty (fun s t => to_set s ∩ to_set t <> ∅) d n) as (b & -> & Hb).
  - rewrite (nd_length d Hd). by rewrite (nd_length n Hn).
  - intros i s t Hs Ht. destruct (nd_sets d Hd i s Hs) as [Ws Es], (nd_sets n Hn i t Ht) as [Wt Et].
    destruct (intersection_spec s t Ws Wt) as [-> _]; [congruence|]. eexists. split; [done|]. apply bool_decide_eq_true.
  - exists b. split; [done|]. rewrite Hb. split.
    + intros (i & s & t & Hs & Ht & [j Hj]%set_choose_L). apply elem_of_intersection in Hj as [? ?].
      exists i, j. split; [by exists s|by exists t].
    + intros (i & j & (s & Hs & Hjs) & (t & Ht & Hjt)). exists i, s, t. split; [done|]. split; [done|]. set_solver.
Qed.
Lemma nd_count_zero d : nd_count d = 0 <-> forall i j, ~ at_node d i j.
Proof using Type.
  clear. assert (forall l, 0 <= nd_count l) as Hpos.
  { induction l as [|s l IH]; simpl; [lia|]. rewrite count_spec. lia. }
  induction d as [|s d IH]; simpl.
  { split; [|done]. by intros _ i j (s & Hs & _). }
  pose proof (Hpos d). rewrite count_spec. split.
  - intros Hz [|i] j (t & Ht & Hj); simpl in Ht.
    + injection Ht as <-. assert (size (to_set s) <> 0%nat) by (apply size_non_empty_iff; set_solver). lia.
    + apply (proj1 IH ltac:(lia) i j). by exists t.
  - intros Hno. rewrite (proj2 IH) by (intros i j (t & ? & ?); apply (Hno (S i) j); by exists t).
    assert (to_set s = ∅) as ->; [|rewrite size_empty; lia].
    apply set_eq. intros j. split; [|set_solver]. intros Hj. destruct (Hno 0%nat j). by exists s.
Qed.

Lemma add_all_spec d l :
  netdest_wf d -> Forall valid l ->
  exists r, add_all d l = Some r /\ netdest_wf r /\
    forall m, valid m -> member r m <-> m ∈ l \/ member d m.
Proof using levels_inj.
  clear counts_nonneg base_number. intros Hd Hl. revert d Hd. induction Hl as [|m l Hm Hl IH]; intros d Hd; simpl.
  { exists d. split_and!; [done..|]. intros m _. set_solver. }
  destruct (nd_add_spec d m Hd Hm) as (d1 & -> & Hd1 & H1); simpl.
  destruct (IH d1 Hd1) as (r & -> & Hr & Hmr). exists r; split_and!; [done..|].
  intros m' Hm'. rewrite Hmr, H1, elem_of_cons by done. tauto.
Qed.

Lemma elem_of_machines t start k m :
  m ∈ machines t start k <-> m_type m = t /\ start <= m_num m < start + k.
Proof using Type.
  unfold machines. rewrite list_elem_of_fmap. setoid_rewrite elem_of_seqZ. split.
  - intros (j & -> & Hj). done.
  - intros [<- Hj]. exists (m_num m). by destruct m.
Qed.

(** C39: destination sets refine sets of machines: adding and removing a
    machine, union, intersection and difference have exactly the members they
    should, [isElement] decides membership, and every operation keeps one
    well-formed vector per machine type. *)
Theorem NetDest_refines d n m :
  netdest_wf d -> netdest_wf n -> valid m ->
  (forall i, (i < NUM)%nat -> base_count (Z.of_nat i) <> 0) ->
  (exists r, nd_add d m = Some r /\ netdest_wf r /\
     forall m', valid m' -> member r m' <-> m' = m \/ member d m') /\
  (exists r, nd_remove d m = Some r /\ netdest_wf r /\
     forall m', valid m' -> member r m' <-> m' <> m /\ member d m') /\
  (exists r, addNetDest d n = Some r /\ netdest_wf r /\
     forall m', valid m' -> member r m' <-> member d m' \/ member n m') /\
  (exists r, removeNetDest d n = Some r /\ netdest_wf r /\
     forall m', valid m' -> member r m' <-> member d m' /\ ~ member n m') /\
  (exists r, nd_AND d n = Some r /\ netdest_wf r /\
     forall m', valid m' -> member r m' <-> member d m' /\ member n m') /\
  (exists b, nd_isElement d m = Some b /\ (b = true <-> member d m)).
Proof using levels_inj.
  intros Hd Hn Hm Hne. split_and!; [by apply nd_add_spec|by apply nd_remove_spec|..].
  - destruct (addNetDest_spec d n Hd Hn Hne) as (r & ? & ? & H). exists r. split_and!; [done..|].
    intros m' Hm'. apply H, known_level, Hm'.
  - destruct (removeNetDest_spec d n Hd Hn) as (r & ? & ? & H). exists r. split_and!; [done..|].
    intros m' Hm'. apply H, known_level, Hm'.
  - destruct (nd_AND_spec d n Hd Hn) as (r & ? & ? & H). exists r. split_and!; [done..|].
    intros m' Hm'. apply H, known_level, Hm'.
  - destruct (level_of d m Hd Hm) as (s & Hi & Hc & Hl & Hw & Hk).
    exists (bool_decide (m_num m ∈ to_set s)).
    assert (E : nd_isElement d m = Some (bool_decide (m_num m ∈ to_set s))).
    { unfold nd_isElement. rewrite Hi; simpl. rewrite Hc; simpl. by apply isElement_spec. }
    split; [done|]. by apply nd_isElement_spec.
Qed.

(** the L1 caches split by chip: for an L1, [getLocalL1IDs] names exactly
    the L1s of its chip and [getExternalL1IDs] exactly all the others, without
    a failed assertion. *)
Theorem L1_chip_partition i :
  config_wf g -> known L1Cache -> base_count (base_level L1Cache) = g_NUM_PROCESSORS g ->
  0 <= i < g_NUM_PROCESSORS g ->
  let chip j := j / g_PROCS_PER_CHIP g in
  exists local external, getLocalL1IDs (mkMachine L1Cache i) = Some local /\
    getExternalL1IDs (mkMachine L1Cache i) = Some external /\
    forall j, 0 <= j < g_NUM_PROCESSORS g ->
      (member local (mkMachine L1Cache j) <-> chip j = chip i) /\
      (member external (mkMachine L1Cache j) <-> chip j <> chip i).
Proof using counts_nonneg levels_inj.
  clear base_number. intros Hg Hk Hcnt Hi chip. set (ppc := g_PROCS_PER_CHIP g) in *.
  assert (Hppc : 0 < ppc) by (unfold ppc; rewrite (wf_ppc g Hg); apply Z.pow_pos_nonneg;
    [lia|pose proof (wf_bits g Hg) as H; do 3 apply Forall_cons in H as [_ H]; apply Forall_cons in H as [H _]; lia]).
  pose proof (wf_processors g Hg) as Hpc. fold ppc in Hpc.
  destruct NetDest_new_wf as [Hnew Hempty].
  assert (Hvalid : forall j, 0 <= j < g_NUM_PROCESSORS g -> valid (mkMachine L1Cache j)).
  { intros j Hj. split; [done|]. simpl. by rewrite Hcnt. }
  assert (Hq : Z.quot i ppc = i / ppc) by (apply Z.quot_div_nonneg; lia).
  assert (Hci : 0 <= i / ppc < g_NUM_CHIPS g).
  { split; [apply Z.div_pos; lia|]. apply Z.div_lt_upper_bound; [lia|]. lia. }
  assert (Hchip : forall j, i / ppc * ppc <= j < i / ppc * ppc + ppc <-> j / ppc = i / ppc).
  { intros j. pose proof (Z.div_mod j ppc ltac:(lia)). pose proof (Z.mod_pos_bound j ppc Hppc). nia. }
  destruct (add_all_spec NetDest_new (machines L1Cache (i / ppc * ppc) ppc)) as (local & El & Hl & Hml).
  { done. }
  { apply Forall_forall. intros [t j] [Ht Hj]%elem_of_machines. simpl in Ht, Hj. subst t.
    apply Hvalid. nia. }
  destruct (add_all_spec NetDest_new (machines L1Cache 0 (g_NUM_PROCESSORS g))) as (all & Ea & Ha & Hma).
  { done. }
  { apply Forall_forall. intros [t j] [Ht Hj]%elem_of_machines. simpl in Ht, Hj. subst t.
    apply Hvalid. lia. }
  destruct (removeNetDest_spec all local Ha Hl) as (ext & Ee & _ & Hme).
  assert (Eloc : getLocalL1IDs (mkMachine L1Cache i) = Some local)
    by (unfold getLocalL1IDs; simpl; fold ppc; by rewrite Hq).
  exists local, ext. split_and!; [done| |].
  { unfold getExternalL1IDs. rewrite Ea; simpl. rewrite Eloc; simpl. done. }
  intros j Hj. assert (Hlj : member local (mkMachine L1Cache j) <-> chip j = chip i).
  { rewrite Hml by auto. rewrite elem_of_machines; simpl. unfold chip. rewrite <-Hchip.
    pose proof (Hempty (mkMachine L1Cache j)). tauto. }
  split; [done|]. unfold member at 1. rewrite Hme by (by apply known_level). fold (member all (mkMachine L1Cache j)) (member local (mkMachine L1Cache j)). rewrite Hlj by done. rewrite Hma by auto. rewrite elem_of_machines; simpl.
  pose proof (Hempty (mkMachine L1Cache j)). split; [tauto|]. intros ?. split; [|done]. left. split; [done|lia].
Qed.
End netdest.

(** ** The machine types of the small GPU *)
Section example.
(** 16 L1 caches, 8 L2 banks and 8 directories. *)
Definition gpu_level (t : MachineType) : Z :=
  match t with L1Cache => 0 | L2Cache => 1 | Directory => 2 | _ => 3 end.
Definition gpu_count (i : Z) : Z := if i =? 0 then 16 else 8.

Lemma gpu_levels_inj t u :
  known gpu_level 3 t -> known gpu_level 3 u -> gpu_level t = gpu_level u -> t = u.
Proof. unfold known. destruct t, u; simpl; try done; lia. Qed.

Lemma gpu_counts_nonneg i : 0 <= gpu_count i.
Proof. unfold gpu_count. case_match; lia. Qed.

Lemma gpu_new_wf : netdest_wf 3 gpu_count (NetDest_new 3 gpu_count).
Proof. apply (NetDest_new_wf gpu_level), gpu_counts_nonneg. Qed.
End example.

Lemma NetDest_refines_witness :
  exists r, nd_add gpu_level (NetDest_new 3 gpu_count) (mkMachine L2Cache 5) = Some r /\
    netdest_wf 3 gpu_count r /\
    forall m', valid gpu_level 3 gpu_count m' ->
      member gpu_level r m' <-> m' = mkMachine L2Cache 5 \/
                                member gpu_level (NetDest_new 3 gpu_count) m'.
Proof.
  apply (NetDest_refines gpu_level 3 gpu_count gpu_levels_inj (NetDest_new 3 gpu_count)
           (NetDest_new 3 gpu_count) (mkMachine L2Cache 5) gpu_new_wf gpu_new_wf).
  - split; split; vm_compute; congruence.
  - intros i Hi. unfold gpu_count. by destruct (_ =? 0).
Defined.

Lemma L1_chip_partition_witness :
  exists local external,
    getLocalL1IDs gpu_level 3 gpu_count default_config (mkMachine L1Cache 5) = Some local /\
    getExternalL1IDs gpu_level 3 gpu_count default_config (mkMachine L1Cache 5) = Some external /\
    forall j, 0 <= j < 16 ->
      (member gpu_level local (mkMachine L1Cache j) <-> j / 16 = 5 / 16) /\
      (member gpu_level external (mkMachine L1Cache j) <-> j / 16 <> 5 / 16).
Proof.
  apply (L1_chip_partition gpu_level 3 gpu_count default_config gpu_counts_nonneg gpu_levels_inj 5
           default_config_wf); [split; vm_compute; congruence|reflexivity|split; vm_compute; congruence].
Defined.
