(* ===== verification/Replacement.v ===== *)
(** Cache replacement: [system/AbstractReplacementPolicy.h], [LRUPolicy.h]
    and [PseudoLRUPolicy.h], and the interface caches use them through. *)
From S2P Require Import Prelude.

(** ** The base class *)
(** [m_last_ref_ptr]: the time of the last reference, by set and way. *)
Record LastRef := mkLastRef { m_num_sets : Z; m_assoc : Z; m_last_ref : list (list Z) }.

Definition LastRef_new (num_sets assoc : Z) : LastRef :=
  mkLastRef num_sets assoc (replicate (Z.to_nat num_sets) (replicate (Z.to_nat assoc) 0)).

(** Out of the arrays, an access is undefined. *)
Definition getLastAccess (p : LastRef) (set way : Z) : option Z :=
  assert! (0 <=? set) && (0 <=? way);
  row ← m_last_ref p !! Z.to_nat set; row !! Z.to_nat way.

Definition in_range (p : LastRef) (set way : Z) : bool :=
  (0 <=? way) && (way <? m_assoc p) && ((0 <=? set) && (set <? m_num_sets p)).

Definition record_ref (p : LastRef) (set way time : Z) : LastRef :=
  mkLastRef (m_num_sets p) (m_assoc p)
    (alter (fun row => <[Z.to_nat way := time]> row) (Z.to_nat set) (m_last_ref p)).

Definition lastref_ok (p : LastRef) (sets assoc : Z) : Prop :=
  m_num_sets p = sets /\ m_assoc p = assoc /\ 0 < assoc /\ 0 <= sets /\
  Z.of_nat (length (m_last_ref p)) = sets /\
  Forall (fun row => Z.of_nat (length row) = assoc) (m_last_ref p).

Lemma LastRef_new_ok sets assoc :
  0 <= sets -> 0 < assoc -> lastref_ok (LastRef_new sets assoc) sets assoc.
Proof.
  intros Hs Ha. unfold lastref_ok, LastRef_new; simpl. rewrite length_replicate.
  split_and!; try lia. apply Forall_replicate. rewrite length_replicate. lia.
Qed.

Lemma record_ref_ok p sets assoc set way time :
  lastref_ok p sets assoc -> lastref_ok (record_ref p set way time) sets assoc.
Proof.
  intros (? & ? & ? & ? & ? & Hf). unfold lastref_ok, record_ref; simpl.
  rewrite length_alter. split_and!; try done.
  apply Forall_alter; [done|]. intros row _ Hr. by rewrite length_insert.
Qed.

Lemma getLastAccess_range p sets assoc set way :
  lastref_ok p sets assoc -> 0 <= set < sets -> 0 <= way < assoc ->
  exists t, getLastAccess p set way = Some t.
Proof.
  intros (? & ? & ? & ? & Hl & Hf) Hs Hw. unfold getLastAccess.
  destruct (Z.leb_spec 0 set); [|lia]. destruct (Z.leb_spec 0 way); [|lia]. simpl.
  destruct (lookup_lt_is_Some_2 (m_last_ref p) (Z.to_nat set)) as [row Hrow]; [lia|].
  rewrite Hrow; simpl. pose proof (Forall_lookup_1 _ _ _ _ Hf Hrow) as Hlen; simpl in Hlen.
  apply lookup_lt_is_Some_2. lia.
Qed.

Lemma record_ref_lookup p sets assoc set way time set' way' :
  lastref_ok p sets assoc -> 0 <= set < sets -> 0 <= way < assoc -> 0 <= set' -> 0 <= way' ->
  getLastAccess (record_ref p set way time) set' way' =
    if decide (set' = set /\ way' = way) then Some time else getLastAccess p set' way'.
Proof.
  intros (? & ? & ? & ? & Hl & Hf) Hs Hw Hs' Hw'. unfold getLastAccess, record_ref; simpl.
  destruct (Z.leb_spec 0 set'); [|lia]. destruct (Z.leb_spec 0 way'); [|lia]. simpl.
  destruct (decide (set' = set)) as [->|]; last first.
  { rewrite decide_False by tauto. by rewrite list_lookup_alter_ne by lia. }
  rewrite list_lookup_alter_eq.
  destruct (m_last_ref p !! Z.to_nat set) as [row|] eqn:Hrow; simpl;
    [|apply lookup_ge_None in Hrow; lia].
  pose proof (Forall_lookup_1 _ _ _ _ Hf Hrow) as Hlen; simpl in Hlen.
  destruct (decide (way' = way)) as [->|].
  - rewrite decide_True by done. apply list_lookup_insert_eq. lia.
  - rewrite decide_False by tauto. by rewrite list_lookup_insert_ne by lia.
Qed.

(** ** The interface *)
(** What a cache calls, and what it may rely on: [touch] succeeds on every
    way of every set, keeps the policy usable and records the time;
    [getVictim] names a way. *)
Class ReplacementPolicy (P : Type) := {
  touch : P -> Z -> Z -> Z -> option P;
  getVictim : P -> Z -> option Z;
  last_refs : P -> LastRef;
  policy_ok : P -> Z -> Z -> Prop;
  policy_ok_refs p sets assoc : policy_ok p sets assoc -> lastref_ok (last_refs p) sets assoc;
  touch_spec p sets assoc set way time :
    policy_ok p sets assoc -> 0 <= set < sets -> 0 <= way < assoc ->
    exists p', touch p set way time = Some p' /\ policy_ok p' sets assoc /\
      last_refs p' = record_ref (last_refs p) set way time;
  getVictim_spec p sets assoc set :
    policy_ok p sets assoc -> 0 <= set < sets ->
    exists way, getVictim p set = Some way /\ 0 <= way < assoc;
}.

(** ** True LRU *)
Definition LRU_touch (p : LastRef) (set index time : Z) : option LastRef :=
  assert! in_range p set index;
  Some (record_ref p set index time).

(** The loop of [getVictim], from way [i] on. *)
Fixpoint LRU_scan (times : list Z) (i smallest_index smallest_time : Z) : Z :=
  match times with
  | [] => smallest_index
  | time :: times =>
      if time <? smallest_time then LRU_scan times (i + 1) i time
      else LRU_scan times (i + 1) smallest_index smallest_time
  end.

Definition LRU_getVictim (p : LastRef) (set : Z) : option Z :=
  smallest_time ← getLastAccess p set 0;
  row ← m_last_ref p !! Z.to_nat set;
  Some (LRU_scan (take (Z.to_nat (m_assoc p)) row) 0 0 smallest_time).

(** The scan returns the first position of the smallest time. *)
Lemma LRU_scan_spec l pre k t :
  (pre ++ l) !! Z.to_nat k = Some t -> 0 <= k <= Z.of_nat (length pre) ->
  (forall j x, pre !! j = Some x -> t <= x /\ (Z.of_nat j < k -> t < x)) ->
  exists r x, LRU_scan l (Z.of_nat (length pre)) k t = r /\ 0 <= r < Z.of_nat (length (pre ++ l)) /\
    (pre ++ l) !! Z.to_nat r = Some x /\
    forall j y, (pre ++ l) !! j = Some y -> x <= y /\ (Z.of_nat j < r -> x < y).
Proof.
  revert pre k t. induction l as [|y l IH]; intros pre k t Hk Hb Hmin; simpl.
  - rewrite app_nil_r in *. exists k, t. split_and!; try done; try lia.
    apply lookup_lt_Some in Hk. lia.
  - replace (pre ++ y :: l) with ((pre ++ [y]) ++ l) in * by (by rewrite <-(assoc_L (++))).
    replace (Z.of_nat (length pre) + 1) with (Z.of_nat (length (pre ++ [y])))
      by (rewrite length_app; simpl; lia).
    assert (Hy : (pre ++ [y]) !! length pre = Some y) by (by rewrite lookup_app_r, Nat.sub_diag).
    assert (Hcases : forall j x, (pre ++ [y]) !! j = Some x ->
      (pre !! j = Some x) \/ (j = length pre /\ x = y)).
    { intros j x [?|[? Hx]]%lookup_app_Some; [by left|].
      apply list_lookup_singleton_Some in Hx as [? ->]. right. split; [lia|done]. }
    destruct (Z.ltb_spec y t); (apply IH; [|rewrite length_app; simpl; lia|]).
    + rewrite Nat2Z.id. by apply lookup_app_l_Some.
    + intros j x [Hj|[-> ->]]%Hcases; [|split; lia].
      destruct (Hmin j x Hj). pose proof (lookup_lt_Some _ _ _ Hj). split; lia.
    + done.
    + intros j x [Hj|[-> ->]]%Hcases; [by apply Hmin|]. split; lia.
Qed.

Lemma LRU_getVictim_spec p sets assoc set :
  lastref_ok p sets assoc -> 0 <= set < sets ->
  exists way t, LRU_getVictim p set = Some way /\ 0 <= way < assoc /\
    getLastAccess p set way = Some t /\
    forall way' t', 0 <= way' < assoc -> getLastAccess p set way' = Some t' ->
      t <= t' /\ (way' < way -> t < t').
Proof.
  intros (? & Ha & ? & ? & Hl & Hf) Hs. unfold LRU_getVictim, getLastAccess.
  destruct (Z.leb_spec 0 set); [|lia]. simpl.
  destruct (lookup_lt_is_Some_2 (m_last_ref p) (Z.to_nat set)) as [row Hrow]; [lia|].
  rewrite Hrow; simpl. pose proof (Forall_lookup_1 _ _ _ _ Hf Hrow) as Hlen. simpl in Hlen.
  rewrite Ha, take_ge by lia.
  destruct (lookup_lt_is_Some_2 row 0) as [t0 Ht0]; [lia|].
  change (Z.to_nat 0) with 0%nat. rewrite Ht0; simpl.
  destruct (LRU_scan_spec row [] 0 t0) as (r & x & Hr & Hb & Hx & Hmin); [done|simpl; lia|done|].
  simpl in Hr, Hb, Hx, Hmin. change (Z.of_nat 0) with 0 in Hr. rewrite Hr. exists r, x. split_and!; try done; try lia.
  - destruct (Z.leb_spec 0 r); [|lia]. done.
  - intros way' t' Hw'. destruct (Z.leb_spec 0 way'); [|lia]. simpl. intros Ht'.
    destruct (Hmin _ _ Ht'). split; lia.
Qed.

#[export] Program Instance LRU_policy : ReplacementPolicy LastRef := {
  touch := LRU_touch;
  getVictim := LRU_getVictim;
  last_refs p := p;
  policy_ok := lastref_ok;
}.
Next Obligation. done. Qed.
Next Obligation.
  intros p sets assoc set way time Hp Hs Hw. exists (record_ref p set way time).
  split_and!; [|by apply record_ref_ok|done]. unfold LRU_touch, in_range.
  destruct Hp as (-> & -> & _). by rewrite (proj2 (andb_true_iff _ _)) by lia.
Qed.
Next Obligation.
  intros p sets assoc set Hp Hs.
  destruct (LRU_getVictim_spec p sets assoc set Hp Hs) as (w & t & ? & ? & _). by exists w.
Qed.

(** A history of touches of one set, and the time a way was last used in it. *)
Fixpoint touch_all `{ReplacementPolicy P} (p : P) (set : Z) (l : list (Z * Z)) : option P :=
  match l with
  | [] => Some p
  | (way, time) :: l => p ← touch p set way time; touch_all p set l
  end.

Fixpoint last_use (l : list (Z * Z)) (way before : Z) : Z :=
  match l with
  | [] => before
  | (way', time) :: l => last_use l way (if way' =? way then time else before)
  end.

Lemma touch_all_spec `{ReplacementPolicy P} (p : P) sets assoc set l :
  policy_ok p sets assoc -> 0 <= set < sets -> Forall (fun e => 0 <= e.1 < assoc) l ->
  exists p', touch_all p set l = Some p' /\ policy_ok p' sets assoc /\
    forall way t, 0 <= way < assoc -> getLastAccess (last_refs p) set way = Some t ->
      getLastAccess (last_refs p') set way = Some (last_use l way t).
Proof.
  intros Hp Hs Hl. revert p Hp. induction Hl as [|[way time] l Hw _ IH]; intros p Hp; simpl.
  { by exists p. }
  destruct (touch_spec p sets assoc set way time) as (p1 & -> & Hp1 & Hr); [done..|]; simpl.
  destruct (IH p1 Hp1) as (p' & -> & Hp' & Hlast). exists p'; split_and!; [done..|].
  intros way' t Hw' Ht. apply Hlast; [done|]. rewrite Hr.
  erewrite record_ref_lookup by (try apply policy_ok_refs; try done; lia).
  destruct (Z.eqb_spec way way') as [->|].
  - by rewrite decide_True.
  - rewrite decide_False by (intros [_ ?]; congruence). done.
Qed.

Lemma LastRef_new_access sets assoc set way :
  0 <= set < sets -> 0 <= way < assoc ->
  getLastAccess (LastRef_new sets assoc) set way = Some 0.
Proof.
  intros Hs Hw. unfold getLastAccess, LastRef_new; simpl.
  destruct (Z.leb_spec 0 set); [|lia]. destruct (Z.leb_spec 0 way); [|lia]. simpl.
  rewrite lookup_replicate_2 by lia. simpl. by rewrite lookup_replicate_2 by lia.
Qed.

(** After any history of touches of a set, LRU evicts a way whose last
    use is the oldest (a way never used counts as used at time 0); no
    assertion fails on the way. *)
Theorem LRU_evicts_oldest sets assoc set l :
  0 <= set < sets -> 0 < assoc -> Forall (fun e => 0 <= e.1 < assoc) l ->
  exists p victim, touch_all (LastRef_new sets assoc) set l = Some p /\
    getVictim p set = Some victim /\ 0 <= victim < assoc /\
    forall way, 0 <= way < assoc -> last_use l victim 0 <= last_use l way 0.
Proof.
  intros Hs Ha Hl.
  destruct (touch_all_spec (LastRef_new sets assoc) sets assoc set l) as (p & Hr & Hp & Hlast);
    [apply LastRef_new_ok; lia|done..|]. simpl in Hp, Hlast.
  destruct (LRU_getVictim_spec p sets assoc set Hp Hs) as (v & t & Hv & Hb & Ht & Hmin).
  assert (Hl0 : forall w, 0 <= w < assoc -> getLastAccess p set w = Some (last_use l w 0))
    by (intros w Hw; apply Hlast; [done|by apply LastRef_new_access]).
  exists p, v; split_and!; try done; try lia. intros way Hway.
  assert (t = last_use l v 0) as -> by (rewrite Hl0 in Ht by done; congruence).
  apply (Hmin way); auto.
Qed.

Lemma LRU_evicts_oldest_witness :
  exists p victim, touch_all (LastRef_new 4 3) 2 [(0, 10); (2, 11); (0, 12); (1, 13)] = Some p /\
    getVictim p 2 = Some victim /\ 0 <= victim < 3 /\
    forall way, 0 <= way < 3 ->
      last_use [(0, 10); (2, 11); (0, 12); (1, 13)] victim 0 <=
      last_use [(0, 10); (2, 11); (0, 12); (1, 13)] way 0.
Proof.
  apply (LRU_evicts_oldest 4 3 2); [lia|lia|]. repeat constructor; simpl; lia.
Defined.

(** ** Tree-based pseudo-LRU *)
Record PseudoLRU := mkPseudoLRU {
  plru_refs : LastRef;
  m_effective_assoc : Z;
  m_num_levels : nat;
  m_trees : list Z;
}.

Fixpoint effective_loop (fuel : nat) (eff assoc : Z) : option Z :=
  match fuel with
  | O => None
  | S fuel => if eff <? assoc then effective_loop fuel (u32 (Z.shiftl eff 1)) assoc else Some eff
  end.

Fixpoint levels_loop (fuel : nat) (assoc : Z) (levels : nat) : option nat :=
  match fuel with
  | O => None
  | S fuel =>
      let assoc := Z.quot assoc 2 in
      if assoc =? 0 then Some levels else levels_loop fuel assoc (S levels)
  end.

(** [(Index) sizeof(uint64)*4]. *)
Definition PLRU_max_assoc : Z := 32.

Definition PseudoLRU_new (num_sets assoc : Z) : option PseudoLRU :=
  assert! (0 <? num_sets) && (1 <? assoc) && (assoc <=? PLRU_max_assoc);
  eff ← effective_loop 32 1 assoc;
  levels ← levels_loop 64 eff 0;
  assert! (levels <? 16)%nat;
  Some (mkPseudoLRU (LastRef_new num_sets assoc) eff levels (replicate (Z.to_nat num_sets) 0)).

(** The loop of [touch]: [n] levels are left, [i = n - 1]. The shifts are on
    [int]s, widened to the 64-bit tree word. *)
Fixpoint PLRU_mark (n : nat) (tree index tree_index : Z) : Z :=
  match n with
  | O => tree
  | S i =>
      let node_val := Z.land (Z.shiftr index (Z.of_nat i)) 1 in
      if negb (node_val =? 0) then
        PLRU_mark i (Z.lor tree (u64 (s32 (Z.shiftl node_val tree_index)))) index
          (tree_index * 2 + 2)
      else
        PLRU_mark i (Z.land tree (u64 (Z.lnot (s32 (Z.shiftl 1 tree_index))))) index
          (tree_index * 2 + 1)
  end.

Definition PLRU_touch (p : PseudoLRU) (set index time : Z) : option PseudoLRU :=
  assert! in_range (plru_refs p) set index;
  Some (mkPseudoLRU (record_ref (plru_refs p) set index time) (m_effective_assoc p) (m_num_levels p)
    (alter (fun tree => PLRU_mark (m_num_levels p) tree index 0) (Z.to_nat set) (m_trees p))).

(** The loop of [getVictim] at level [i], with [n] levels left. *)
Fixpoint PLRU_walk (n : nat) (i eff tree tree_index index : Z) : Z :=
  match n with
  | O => index
  | S n =>
      let node_val := Z.land (Z.shiftr tree tree_index) 1 in
      if negb (node_val =? 0) then PLRU_walk n (i + 1) eff tree (tree_index * 2 + 1) index
      else PLRU_walk n (i + 1) eff tree (tree_index * 2 + 2) (index + Z.shiftr eff (i + 1))
  end.

Definition PLRU_getVictim (p : PseudoLRU) (set : Z) : option Z :=
  assert! 0 <=? set;
  tree ← m_trees p !! Z.to_nat set;
  let index := PLRU_walk (m_num_levels p) 0 (m_effective_assoc p) tree 0 0 in
  assert! (0 <=? index) && (index <? m_effective_assoc p);
  Some (if m_assoc (plru_refs p) - 1 <? index then m_assoc (plru_refs p) - 1 else index).

Record plru_ok (p : PseudoLRU) (sets assoc : Z) : Prop := {
  ok_refs : lastref_ok (plru_refs p) sets assoc;
  ok_levels : (1 <= m_num_levels p <= 5)%nat;
  ok_eff : m_effective_assoc p = 2 ^ Z.of_nat (m_num_levels p);
  ok_assoc : 2 ^ Z.of_nat (m_num_levels p - 1) < assoc <= m_effective_assoc p;
  ok_trees : Z.of_nat (length (m_trees p)) = sets;
}.

(** The constructor computes the ceiling power of two; checked on each of the
    associativities it accepts. *)
Lemma PseudoLRU_levels assoc :
  1 < assoc <= PLRU_max_assoc ->
  exists eff levels, effective_loop 32 1 assoc = Some eff /\ levels_loop 64 eff 0 = Some levels /\
    (1 <= levels <= 5)%nat /\ eff = 2 ^ Z.of_nat levels /\
    2 ^ Z.of_nat (levels - 1) < assoc <= eff.
Proof.
  intros Ha.
  set (check a := match effective_loop 32 1 a with
    | Some eff => match levels_loop 64 eff 0 with
      | Some l => (1 <=? l)%nat && (l <=? 5)%nat && (eff =? 2 ^ Z.of_nat l)
                  && (2 ^ Z.of_nat (l - 1) <? a) && (a <=? eff)
      | None => false end
    | None => false end).
  assert (Hall : forallb check (seqZ 2 31) = true) by (by vm_compute).
  assert (Hc : check assoc = true).
  { rewrite forallb_forall in Hall. apply Hall. apply list_elem_of_In, elem_of_seqZ.
    unfold PLRU_max_assoc in Ha. lia. }
  unfold check in Hc. destruct (effective_loop 32 1 assoc) as [eff|]; [|done].
  destruct (levels_loop 64 eff 0) as [l|] eqn:El; [|done].
  rewrite !andb_true_iff, !Nat.leb_le, Z.eqb_eq, Z.ltb_lt, Z.leb_le in Hc.
  exists eff, l. tauto.
Qed.

Lemma PseudoLRU_new_ok sets assoc :
  0 < sets -> 1 < assoc <= PLRU_max_assoc ->
  exists p, PseudoLRU_new sets assoc = Some p /\ plru_ok p sets assoc.
Proof.
  intros Hs Ha. unfold PseudoLRU_new.
  destruct (PseudoLRU_levels assoc Ha) as (eff & l & E1 & E2 & Hl & He & Hb).
  rewrite !(proj2 (andb_true_iff _ _)) by lia. rewrite E1; cbn [mbind option_bind].
  rewrite E2; cbn [mbind option_bind]. rewrite (proj2 (Nat.ltb_lt l 16)) by lia.
  eexists; split; [reflexivity|].
  split; simpl; [apply LastRef_new_ok; lia|done..|rewrite length_replicate; lia].
Qed.

(** The path below a node stays within the [n] levels left, and so within
    [s - 1 + 2^n - 1]. *)
Lemma PLRU_walk_range n i L tree ti s :
  0 <= i -> i + Z.of_nat n = L ->
  s <= PLRU_walk n i (2 ^ L) tree ti s <= s + 2 ^ Z.of_nat n - 1.
Proof.
  revert i ti s. induction n as [|n IH]; intros i ti s Hi HL; simpl.
  { change (2 ^ Z.of_nat 0) with 1. lia. }
  assert (E : Z.shiftr (2 ^ L) (i + 1) = 2 ^ Z.of_nat n).
  { rewrite Z.shiftr_div_pow2 by lia. replace L with (Z.of_nat n + (i + 1)) by lia.
    rewrite Z.pow_add_r by lia. apply Z.div_mul, Z.pow_nonzero; lia. }
  rewrite Nat2Z.inj_succ, Z.pow_succ_r by lia. pose proof (Z.pow_pos_nonneg 2 (Z.of_nat n)).
  case_match.
  - specialize (IH (i + 1) (ti * 2 + 1) s). lia.
  - rewrite E. specialize (IH (i + 1) (ti * 2 + 2) (s + 2 ^ Z.of_nat n)). lia.
Qed.

(** Which half of the set the root of a tree points the victim to. *)
Lemma PLRU_walk_root n tree :
  let v := PLRU_walk (S n) 0 (2 ^ Z.of_nat (S n)) tree 0 0 in
  if Z.testbit tree 0 then v < 2 ^ Z.of_nat n else 2 ^ Z.of_nat n <= v.
Proof.
  cbn [PLRU_walk]. rewrite Z.shiftr_0_r.
  rewrite land_1.
  assert (E : Z.shiftr (2 ^ Z.of_nat (S n)) (0 + 1) = 2 ^ Z.of_nat n).
  { rewrite Z.shiftr_div_pow2 by lia. rewrite Nat2Z.inj_succ, Z.pow_succ_r by lia.
    change (2 ^ (0 + 1)) with 2. rewrite Z.mul_comm. by apply Z.div_mul. }
  assert (Hr : forall ti s, s <= PLRU_walk n (0 + 1) (2 ^ Z.of_nat (S n)) tree ti s
                            <= s + 2 ^ Z.of_nat n - 1)
    by (intros; apply PLRU_walk_range; lia).
  destruct (Z.testbit tree 0); cbn -[PLRU_walk Z.of_nat Z.add Z.mul].
  - pose proof (Hr (0 * 2 + 1) 0). lia.
  - rewrite E. pose proof (Hr (0 * 2 + 2) (0 + 2 ^ Z.of_nat n)). lia.
Qed.

(** Marking the path below the root leaves the root's bit alone. *)
Lemma PLRU_mark_low_bit n tree index ti :
  (n <= 4)%nat -> 1 <= ti -> ti + 2 <= 2 ^ (6 - Z.of_nat n) ->
  Z.testbit (PLRU_mark n tree index ti) 0 = Z.testbit tree 0.
Proof.
  revert tree ti. induction n as [|n IH]; intros tree ti Hn H1 Hti; [done|]; cbn [PLRU_mark].
  assert (Hb : ti <= 30).
  { assert (2 ^ (6 - Z.of_nat (S n)) <= 2 ^ 5) by (apply Z.pow_le_mono_r; lia).
    change (2 ^ 5) with 32 in *. lia. }
  assert (Hnext : 2 * (ti + 2) <= 2 ^ (6 - Z.of_nat n)).
  { replace (6 - Z.of_nat n) with (Z.succ (6 - Z.of_nat (S n))) by lia.
    rewrite Z.pow_succ_r by lia. lia. }
  set (shifts k := Z.testbit (u64 (s32 (Z.shiftl 1 k))) 0 || negb (Z.testbit (u64 (Z.lnot (s32 (Z.shiftl 1 k)))) 0)).
  assert (Hsh : shifts ti = false).
  { assert (Hall : forallb (fun k => negb (shifts k)) (seqZ 1 30) = true) by (by vm_compute).
    rewrite forallb_forall in Hall. apply negb_true_iff, Hall.
    apply list_elem_of_In, elem_of_seqZ. lia. }
  unfold shifts in Hsh. apply orb_false_iff in Hsh as [Hlor Hland%negb_false_iff].
  set (nv := Z.land (Z.shiftr index (Z.of_nat n)) 1).
  assert (nv = 0 \/ nv = 1) as [-> | ->].
  { subst nv. rewrite land_1. generalize (Z.testbit (Z.shiftr index (Z.of_nat n)) 0).
    intros [|]; [right|left]; reflexivity. }
  - cbn [negb Z.eqb]. rewrite IH by lia. rewrite Z.land_spec, Hland. apply andb_true_r.
  - cbn [negb Z.eqb]. rewrite IH by lia. rewrite Z.lor_spec, Hlor. apply orb_false_r.
Qed.

(** After marking a way, the root records the half it lies in. *)
Lemma PLRU_mark_root n tree index :
  (n <= 4)%nat -> 0 <= index < 2 ^ Z.of_nat (S n) ->
  Z.testbit (PLRU_mark (S n) tree index 0) 0 = bool_decide (2 ^ Z.of_nat n <= index).
Proof.
  intros Hn Hi. cbn [PLRU_mark].
  rewrite Nat2Z.inj_succ, Z.pow_succ_r in Hi by lia.
  assert (E : Z.land (Z.shiftr index (Z.of_nat n)) 1 = if decide (2 ^ Z.of_nat n <= index) then 1 else 0).
  { rewrite land_1, Z.bit0_mod, Z.shiftr_div_pow2 by lia. pose proof (Z.pow_pos_nonneg 2 (Z.of_nat n)). case_decide.
    - by rewrite <-(Z.div_unique index (2 ^ Z.of_nat n) 1 (index - 2 ^ Z.of_nat n)) by lia.
    - by rewrite Z.div_small by lia. }
  rewrite E. assert (H4 : 4 <= 2 ^ (6 - Z.of_nat n))
    by (change 4 with (2 ^ 2); apply Z.pow_le_mono_r; lia).
  case_decide; cbn [negb Z.eqb].
  - rewrite PLRU_mark_low_bit by lia. rewrite bool_decide_eq_true_2 by done.
    rewrite Z.lor_spec. change (Z.testbit (u64 (s32 (Z.shiftl 1 0))) 0) with true. apply orb_true_r.
  - rewrite PLRU_mark_low_bit by lia. rewrite bool_decide_eq_false_2 by done.
    rewrite Z.land_spec. change (Z.testbit (u64 (Z.lnot (s32 (Z.shiftl 1 0)))) 0) with false.
    apply andb_false_r.
Qed.

Lemma PLRU_touch_ok p sets assoc set way time :
  plru_ok p sets assoc -> 0 <= set < sets -> 0 <= way < assoc ->
  exists p', PLRU_touch p set way time = Some p' /\ plru_ok p' sets assoc /\
    plru_refs p' = record_ref (plru_refs p) set way time /\
    m_num_levels p' = m_num_levels p /\ m_effective_assoc p' = m_effective_assoc p /\
    exists tree, m_trees p !! Z.to_nat set = Some tree /\
      m_trees p' !! Z.to_nat set = Some (PLRU_mark (m_num_levels p) tree way 0).
Proof.
  intros Hp Hs Hw. destruct Hp as [Hrefs Hlev Heff Hassoc Htrees].
  unfold PLRU_touch, in_range. assert (Hr := Hrefs). destruct Hr as (-> & -> & _).
  rewrite (proj2 (andb_true_iff _ _)) by lia. eexists; split; [reflexivity|].
  split_and!; try done.
  - split; simpl; try done; [by apply record_ref_ok|by rewrite length_alter].
  - destruct (lookup_lt_is_Some_2 (m_trees p) (Z.to_nat set)) as [tree Ht]; [lia|].
    exists tree. split; [done|]. simpl. by rewrite list_lookup_alter_eq, Ht.
Qed.

Lemma PLRU_getVictim_tree p sets assoc set tree :
  plru_ok p sets assoc -> 0 <= set < sets -> m_trees p !! Z.to_nat set = Some tree ->
  let half := 2 ^ Z.of_nat (m_num_levels p - 1) in
  exists way, PLRU_getVictim p set = Some way /\ 0 <= way < assoc /\
    if Z.testbit tree 0 then way < half else half <= way.
Proof.
  intros Hp Hs Ht. destruct Hp as [(_ & Ha & _) Hlev Heff Hassoc Htrees]. cbv zeta.
  unfold PLRU_getVictim. destruct (Z.leb_spec 0 set); [|lia]. rewrite Ht; cbn [mbind option_bind].
  rewrite Heff in *. destruct (m_num_levels p) as [|n]; [lia|].
  replace (S n - 1)%nat with n in * by lia.
  pose proof (PLRU_walk_range (S n) 0 (Z.of_nat (S n)) tree 0 0 ltac:(lia) ltac:(lia)) as Hr.
  pose proof (PLRU_walk_root n tree) as Hroot. cbv zeta in Hroot.
  set (v := PLRU_walk (S n) 0 (2 ^ Z.of_nat (S n)) tree 0 0) in *. clearbody v.
  set (top := 2 ^ Z.of_nat (S n)) in *. clearbody top.
  rewrite (proj2 (andb_true_iff _ _)) by lia. rewrite Ha.
  eexists; split; [reflexivity|]. destruct (Z.ltb_spec (assoc - 1) v), (Z.testbit tree 0); lia.
Qed.

Lemma PLRU_getVictim_range p sets assoc set :
  plru_ok p sets assoc -> 0 <= set < sets ->
  exists way, PLRU_getVictim p set = Some way /\ 0 <= way < assoc.
Proof.
  intros Hp Hs. destruct (lookup_lt_is_Some_2 (m_trees p) (Z.to_nat set)) as [tree Ht].
  { pose proof (ok_trees _ _ _ Hp). lia. }
  destruct (PLRU_getVictim_tree p sets assoc set tree) as (w & ? & ? & _); [done..|]. by exists w.
Qed.

#[export] Program Instance PseudoLRU_policy : ReplacementPolicy PseudoLRU := {
  touch := PLRU_touch;
  getVictim := PLRU_getVictim;
  last_refs := plru_refs;
  policy_ok := plru_ok;
}.
Next Obligation. intros p sets assoc Hp. apply Hp. Qed.
Next Obligation.
  intros p sets assoc set way time Hp Hs Hw.
  destruct (PLRU_touch_ok p sets assoc set way time Hp Hs Hw) as (p' & ? & ? & ? & _). by exists p'.
Qed.
Next Obligation. apply PLRU_getVictim_range. Qed.

(** C30: for every associativity the constructor accepts (2 to 32, powers of
    two or not), after any history of touches of a set the pseudo-LRU victim
    is a way of the set, and it is never the way touched last. *)
Theorem PLRU_spares_last_touched sets assoc set l way time :
  0 <= set < sets -> 1 < assoc <= PLRU_max_assoc ->
  Forall (fun e => 0 <= e.1 < assoc) l -> 0 <= way < assoc ->
  exists p0 p1 p victim, PseudoLRU_new sets assoc = Some p0 /\ touch_all p0 set l = Some p1 /\
    touch p1 set way time = Some p /\ getVictim p set = Some victim /\
    0 <= victim < assoc /\ victim <> way.
Proof.
  intros Hs Ha Hl Hw.
  destruct (PseudoLRU_new_ok sets assoc ltac:(lia) Ha) as (p0 & E0 & H0).
  destruct (touch_all_spec p0 sets assoc set l) as (p1 & E1 & H1 & _); [done..|].
  destruct (PLRU_touch_ok p1 sets assoc set way time) as (p & E & H & _ & Hlv & _ & tree & Ht & Ht');
    [done..|].
  destruct (PLRU_getVictim_tree p sets assoc set _ H Hs Ht') as (v & Ev & Hb & Hhalf).
  exists p0, p1, p, v; split_and!; try done; try lia. intros ->.
  pose proof (ok_levels _ _ _ H1) as Hlev. pose proof (ok_assoc _ _ _ H1) as Has.
  rewrite (ok_eff _ _ _ H1) in Has. rewrite Hlv in Hhalf.
  destruct (m_num_levels p1) as [|n]; [lia|]. replace (S n - 1)%nat with n in * by lia.
  rewrite PLRU_mark_root in Hhalf by lia. case_bool_decide; lia.
Qed.

Lemma PLRU_spares_last_touched_witness :
  exists p0 p1 p victim, PseudoLRU_new 2 6 = Some p0 /\
    touch_all p0 1 [(0, 1); (5, 2); (3, 3)] = Some p1 /\ touch p1 1 4 4 = Some p /\
    getVictim p 1 = Some victim /\ 0 <= victim < 6 /\ victim <> 4.
Proof.
  apply (PLRU_spares_last_touched 2 6 1); [lia|unfold PLRU_max_assoc; lia| |lia].
  repeat constructor; simpl; lia.
Defined.
