(* ===== verification/CacheMemory.v ===== *)
(** Set-associative caches with the leases and timestamps of the protocol:
    [system/CacheMemory.h], over the address maps of Address, the lines of
    DataBlock and any policy of Replacement. *)
From S2P Require Import Prelude Vector Config Address DataBlock Replacement.

Inductive AccessPermission :=
  Busy | Read_Only | Read_Write | Invalid | NotPresent | OnHold | ReadUpgradingToWrite | Stale.
#[global] Instance AccessPermission_eq_dec : EqDecision AccessPermission.
Proof. solve_decision. Defined.

Inductive CacheRequestType :=
  LD | ST | ATOMIC | IFETCH | IO | REPLACEMENT | COMMIT | LD_XACT | LDX_XACT | ST_XACT
  | BEGIN_XACT | COMMIT_XACT | ABORT_XACT | MEM_FENCE | IDEAL_INV | NULL_REQUEST.
#[global] Instance CacheRequestType_eq_dec : EqDecision CacheRequestType.
Proof. solve_decision. Defined.

(** An entry: the fields the cache itself manages, and those of the protocol
    ([D]: the block's state). *)
Record Entry (D : Type) := mkEntry {
  e_Address : Z;
  e_Permission : AccessPermission;
  ctaMap : gmap Z (gset Z);
  e_rts : Z; e_wts : Z;
  expired_by_own_warp : bool; expired_by_own_cta : bool;
  expired_by_shared_warp : bool; expired_by_shared_cta : bool;
  e_DataBlk : list Z;
  e_state : D;
}.
#[global] Arguments mkEntry {D}.
#[global] Arguments e_Address {D}.
#[global] Arguments e_Permission {D}.
#[global] Arguments ctaMap {D}.
#[global] Arguments e_rts {D}.
#[global] Arguments e_wts {D}.
#[global] Arguments expired_by_own_warp {D}.
#[global] Arguments expired_by_own_cta {D}.
#[global] Arguments expired_by_shared_warp {D}.
#[global] Arguments expired_by_shared_cta {D}.
#[global] Arguments e_DataBlk {D}.
#[global] Arguments e_state {D}.

Section entry.
Context {D : Type}.
Implicit Types e : Entry D.

Definition set_e_Permission e p : Entry D :=
  mkEntry (e_Address e) p (ctaMap e) (e_rts e) (e_wts e) (expired_by_own_warp e)
    (expired_by_own_cta e) (expired_by_shared_warp e) (expired_by_shared_cta e)
    (e_DataBlk e) (e_state e).
Definition set_ctaMap e m : Entry D :=
  mkEntry (e_Address e) (e_Permission e) m (e_rts e) (e_wts e) (expired_by_own_warp e)
    (expired_by_own_cta e) (expired_by_shared_warp e) (expired_by_shared_cta e)
    (e_DataBlk e) (e_state e).
Definition set_e_rts e t : Entry D :=
  mkEntry (e_Address e) (e_Permission e) (ctaMap e) t (e_wts e) (expired_by_own_warp e)
    (expired_by_own_cta e) (expired_by_shared_warp e) (expired_by_shared_cta e)
    (e_DataBlk e) (e_state e).
Definition set_e_wts e t : Entry D :=
  mkEntry (e_Address e) (e_Permission e) (ctaMap e) (e_rts e) t (expired_by_own_warp e)
    (expired_by_own_cta e) (expired_by_shared_warp e) (expired_by_shared_cta e)
    (e_DataBlk e) (e_state e).
(** The four "expired by" marks: own warp, own cta, shared warp, shared cta. *)
Definition set_expired_by e ow oc sw sc : Entry D :=
  mkEntry (e_Address e) (e_Permission e) (ctaMap e) (e_rts e) (e_wts e) ow oc sw sc
    (e_DataBlk e) (e_state e).
Definition set_e_DataBlk e d : Entry D :=
  mkEntry (e_Address e) (e_Permission e) (ctaMap e) (e_rts e) (e_wts e) (expired_by_own_warp e)
    (expired_by_own_cta e) (expired_by_shared_warp e) (expired_by_shared_cta e)
    d (e_state e).

Definition present e : bool := negb (bool_decide (e_Permission e = NotPresent)).
End entry.

Section cache.
(** The policy, the protocol's part of an entry and its constructor, the
    configuration. *)
Context {P : Type} `{ReplacementPolicy P} {D : Type} `{Default D}.
Variables (g : Globals) (DATA_BLOCK XACT_MEMORY : bool).
Implicit Types (e : Entry D) (a : Z).

(** [ENTRY()]. *)
Definition Entry_new : Entry D :=
  mkEntry 0 NotPresent ∅ 0 0 false false false false
    (DataBlock_new g DATA_BLOCK XACT_MEMORY) default.

(** [m_cache], a vector of sets of ways, never changes its dimensions. *)
Record CacheMemory := mkCache {
  m_machType : MachineType;
  m_cache : list (list (Entry D));
  m_replacementPolicy : P;
  m_cache_num_sets : Z; m_cache_num_set_bits : Z; m_cache_assoc : Z;
  pts : Z; mts : Z; min_pts : Z; lts : Z; sts : Z;
}.
Implicit Types c : CacheMemory.

Definition set_cache c m : CacheMemory :=
  mkCache (m_machType c) m (m_replacementPolicy c) (m_cache_num_sets c) (m_cache_num_set_bits c)
    (m_cache_assoc c) (pts c) (mts c) (min_pts c) (lts c) (sts c).
Definition set_policy c p : CacheMemory :=
  mkCache (m_machType c) (m_cache c) p (m_cache_num_sets c) (m_cache_num_set_bits c)
    (m_cache_assoc c) (pts c) (mts c) (min_pts c) (lts c) (sts c).
Definition set_clocks c p m mp l s : CacheMemory :=
  mkCache (m_machType c) (m_cache c) (m_replacementPolicy c) (m_cache_num_sets c)
    (m_cache_num_set_bits c) (m_cache_assoc c) p m mp l s.

(** The constructor, given the policy object it creates. *)
Definition CacheMemory_new (machType : MachineType) (numSetBits cacheAssoc : Z) (policy : P)
    : CacheMemory :=
  let sets := s32 (Z.shiftl 1 numSetBits) in
  mkCache machType (replicate (Z.to_nat sets) (replicate (Z.to_nat cacheAssoc) Entry_new))
    policy sets numSetBits cacheAssoc 0 0 0 0 0.

(** [address == line_address(address)]. *)
Definition is_line a : bool :=
  match line_address g a with Some l => a =? l | None => false end.

Definition addressToCacheSet c a : option Z :=
  assert! is_line a;
  temp ← match m_machType c with
         | L1Cache => map_address_to_L1CacheSet g a (m_cache_num_set_bits c)
         | L2Cache => map_address_to_L2CacheSet g a (m_cache_num_set_bits c)
         | _ => None
         end;
  assert! temp <? m_cache_num_sets c;
  assert! 0 <=? temp;
  Some temp.

(** The loops over the ways of a set: the first way that satisfies [f]. *)
Fixpoint find_way (n : nat) (row : list (Entry D)) (i : Z) (f : Entry D -> bool) : option Z :=
  match n with
  | O => Some (-1)
  | S n => e ← cell row i; if f e then Some i else find_way n row (i + 1) f
  end.

Definition findTagInSet c (cacheSet tag : Z) : option Z :=
  assert! is_line tag;
  row ← cell (m_cache c) cacheSet;
  find_way (Z.to_nat (m_cache_assoc c)) row 0 (fun e => (e_Address e =? tag) && present e).

Definition findTagInSetIgnorePermissions c (cacheSet tag : Z) : option Z :=
  assert! is_line tag;
  row ← cell (m_cache c) cacheSet;
  find_way (Z.to_nat (m_cache_assoc c)) row 0 (fun e => e_Address e =? tag).

Definition isTagPresent c a : option bool :=
  assert! is_line a;
  cacheSet ← addressToCacheSet c a;
  location ← findTagInSet c cacheSet a;
  Some (negb (location =? -1)).

Definition cacheAvail c a : option bool :=
  assert! is_line a;
  cacheSet ← addressToCacheSet c a;
  row ← cell (m_cache c) cacheSet;
  i ← find_way (Z.to_nat (m_cache_assoc c)) row 0 (fun e => (e_Address e =? a) || negb (present e));
  Some (negb (i =? -1)).

(** [m_cache[cacheSet][loc]], and writing through it. *)
Definition entry_at c (cacheSet loc : Z) : option (Entry D) :=
  row ← cell (m_cache c) cacheSet; cell row loc.
Definition set_entry c (cacheSet loc : Z) e : option CacheMemory :=
  row ← cell (m_cache c) cacheSet;
  row ← set_cell row loc e;
  m ← set_cell (m_cache c) cacheSet row;
  Some (set_cache c m).

Definition lookup_loc c a : option (Z * Z) :=
  assert! is_line a;
  cacheSet ← addressToCacheSet c a;
  loc ← findTagInSet c cacheSet a;
  assert! negb (loc =? -1);
  Some (cacheSet, loc).

Definition lookup c a : option (Entry D) :=
  '(cacheSet, loc) ← lookup_loc c a; entry_at c cacheSet loc.

(** An assignment to a field of [lookup(address)]. *)
Definition update c a (f : Entry D -> Entry D) : option CacheMemory :=
  '(cacheSet, loc) ← lookup_loc c a;
  e ← entry_at c cacheSet loc;
  set_entry c cacheSet loc (f e).

Definition touch_way c (cacheSet loc now : Z) : option CacheMemory :=
  p ← touch (m_replacementPolicy c) cacheSet loc now; Some (set_policy c p).

Definition allocate c a (now : Z) : option CacheMemory :=
  assert! is_line a;
  tag_present ← isTagPresent c a;
  assert! negb (tag_present : bool);
  avail ← cacheAvail c a;
  assert! (avail : bool);
  cacheSet ← addressToCacheSet c a;
  row ← cell (m_cache c) cacheSet;
  i ← find_way (Z.to_nat (m_cache_assoc c)) row 0 (fun e => negb (present e));
  assert! negb (i =? -1);
  let e := Entry_new in
  c ← set_entry c cacheSet i
        (mkEntry a Invalid ∅ (e_rts e) (e_wts e) (expired_by_own_warp e) (expired_by_own_cta e)
           (expired_by_shared_warp e) (expired_by_shared_cta e) (e_DataBlk e) (e_state e));
  c ← update c a (fun e => set_expired_by (set_e_wts (set_e_rts e 0) 0) false false false false);
  touch_way c cacheSet i now.

Definition deallocate c a : option CacheMemory :=
  assert! is_line a;
  tag_present ← isTagPresent c a;
  assert! (tag_present : bool);
  update c a (fun e => set_e_Permission e NotPresent).

Definition cacheProbe c a : option Z :=
  assert! is_line a;
  avail ← cacheAvail c a;
  assert! negb (avail : bool);
  cacheSet ← addressToCacheSet c a;
  victim ← getVictim (m_replacementPolicy c) cacheSet;
  e ← entry_at c cacheSet victim;
  Some (e_Address e).

Definition getPermission c a : option AccessPermission :=
  assert! is_line a; e ← lookup c a; Some (e_Permission e).

Definition changePermission c a (new_perm : AccessPermission) : option CacheMemory :=
  assert! is_line a;
  c ← update c a (fun e => set_e_Permission e new_perm);
  perm ← getPermission c a;
  assert! bool_decide (perm = new_perm);
  Some c.

Definition setMRU c a (now : Z) : option CacheMemory :=
  cacheSet ← addressToCacheSet c a;
  loc ← findTagInSet c cacheSet a;
  touch_way c cacheSet loc now.

(** Both return whether the access hits, and the location of the data. *)
Definition tryCacheAccess c a (type : CacheRequestType) (now : Z)
    : option (bool * option (Z * Z) * CacheMemory) :=
  assert! is_line a;
  cacheSet ← addressToCacheSet c a;
  loc ← findTagInSet c cacheSet a;
  if negb (loc =? -1) then
    e ← entry_at c cacheSet loc;
    c ← touch_way c cacheSet loc now;
    if decide (e_Permission e = Read_Write) then Some (true, Some (cacheSet, loc), c)
    else if decide (e_Permission e = Read_Only /\ (type = LD \/ type = IFETCH))
    then Some (true, Some (cacheSet, loc), c)
    else Some (false, None, c)
  else Some (false, None, c).

Definition testCacheAccess c a (type : CacheRequestType) (now : Z)
    : option (bool * option (Z * Z) * CacheMemory) :=
  assert! is_line a;
  cacheSet ← addressToCacheSet c a;
  loc ← findTagInSet c cacheSet a;
  if negb (loc =? -1) then
    e ← entry_at c cacheSet loc;
    c ← touch_way c cacheSet loc now;
    Some (present e, Some (cacheSet, loc), c)
  else Some (false, None, c).

Definition flush_entry e : Entry D :=
  mkEntry 0 NotPresent ∅ 0 0 false false false false (e_DataBlk e) (e_state e).
Definition flushCache c : CacheMemory := set_cache c (fmap (M:=list) (fmap (M:=list) flush_entry) (m_cache c)).

(** The functional memory accesses of the simulator, [n] bytes from [i]. *)
Fixpoint read_bytes (d : list Z) (startByte i : Z) (n : nat) : option (list Z) :=
  match n with
  | O => Some []
  | S n =>
      x ← getByte DATA_BLOCK XACT_MEMORY d (i + startByte);
      l ← read_bytes d startByte (i + 1) n;
      Some (x :: l)
  end.
Fixpoint write_bytes (d : list Z) (startByte i : Z) (value : list Z) : option (list Z) :=
  match value with
  | [] => Some d
  | x :: value =>
      d ← setByte DATA_BLOCK XACT_MEMORY d (i + startByte) x;
      write_bytes d startByte (i + 1) value
  end.

Definition getMemoryValue c a (size_in_bytes : Z) : option (list Z) :=
  line ← line_address g a;
  e ← lookup c line;
  read_bytes (e_DataBlk e) (u32 (a - line)) 0 (Z.to_nat size_in_bytes).

Definition setMemoryValue c a (value : list Z) : option CacheMemory :=
  line ← line_address g a;
  e ← lookup c line;
  assert! 0 <? Z.of_nat (length value);
  d ← write_bytes (e_DataBlk e) (u32 (a - line)) 0 value;
  update c line (fun e => set_e_DataBlk e d).

(** ** Timestamps *)
Definition getRts c a : option Z :=
  b ← isTagPresent c a; assert! (b : bool); e ← lookup c a; Some (e_rts e).
Definition getWts c a : option Z :=
  b ← isTagPresent c a; assert! (b : bool); e ← lookup c a; Some (e_wts e).
Definition setRts c a (rts : Z) : option CacheMemory :=
  b ← isTagPresent c a; assert! (b : bool); update c a (fun e => set_e_rts e rts).
Definition setWts c a (wts : Z) : option CacheMemory :=
  b ← isTagPresent c a; assert! (b : bool); update c a (fun e => set_e_wts e wts).
Definition setPts c (processor_ts : Z) : CacheMemory :=
  set_clocks c processor_ts (mts c) (min_pts c) (lts c) (sts c).
Definition setMts c (memory_ts : Z) : CacheMemory :=
  set_clocks c (pts c) memory_ts (min_pts c) (lts c) (sts c).
Definition setMinPts c (processor_ts : Z) : CacheMemory :=
  set_clocks c (pts c) (mts c) (if processor_ts <? min_pts c then processor_ts else min_pts c)
    (lts c) (sts c).
Definition setLts c (load_ts : Z) : CacheMemory :=
  set_clocks c (pts c) (mts c) (min_pts c) load_ts (sts c).
Definition setSts c (store_ts : Z) : CacheMemory :=
  set_clocks c (pts c) (mts c) (min_pts c) (lts c) store_ts.

(** ** Which warps and thread blocks share a block *)
Definition insertCtaWarpID c a (cta_id wid : Z) : option CacheMemory :=
  b ← isTagPresent c a; assert! (b : bool);
  update c a (fun e =>
    set_ctaMap e (<[cta_id := {[wid]} ∪ from_option id ∅ (ctaMap e !! cta_id)]> (ctaMap e))).

Definition setOwnWarp c a : option CacheMemory :=
  b ← isTagPresent c a; assert! (b : bool);
  update c a (fun e => set_expired_by e true (expired_by_own_cta e) (expired_by_shared_warp e)
                         (expired_by_shared_cta e)).
Definition setSharedWarp c a : option CacheMemory :=
  b ← isTagPresent c a; assert! (b : bool);
  update c a (fun e => set_expired_by e (expired_by_own_warp e) (expired_by_own_cta e) true
                         (expired_by_shared_cta e)).
Definition setOwnCta c a : option CacheMemory :=
  b ← isTagPresent c a; assert! (b : bool);
  update c a (fun e => set_expired_by e (expired_by_own_warp e) true (expired_by_shared_warp e)
                         (expired_by_shared_cta e)).
Definition setOwnSharedCta c a : option CacheMemory :=
  b ← isTagPresent c a; assert! (b : bool);
  update c a (fun e => set_expired_by e (expired_by_own_warp e) (expired_by_own_cta e)
                         (expired_by_shared_warp e) true).

(** What [setExpired] does to one entry: a lease that ends between the load's
    timestamp and the message's write timestamp has expired; the marks say for
    whom the block was fetched. *)
Definition expire_entry (cta_id wid msg_wts load_timestamp : Z) e : bool * Entry D :=
  if present e && ((load_timestamp <? e_rts e) && (e_rts e <? msg_wts)) then
    (true,
     match ctaMap e !! cta_id with
     | None => set_expired_by e false false false false
     | Some warps =>
         if decide (size (ctaMap e) = 1%nat) then
           if decide (wid ∉ warps) then set_expired_by e false true false false
           else if decide (size warps = 1%nat) then set_expired_by e true true false false
           else set_expired_by e false true true false
         else set_expired_by e false false false true
     end)
  else (false, e).

Definition setExpired c (cta_id wid msg_wts load_timestamp : Z) : Z * CacheMemory :=
  let out := 
    fmap (M:=list) (fmap (M:=list) (expire_entry cta_id wid msg_wts load_timestamp)) (m_cache c) in
  (s32 (Z.of_nat (length (filter (fun x => x.1 = true) (mjoin out)))),
   set_cache c (fmap (M:=list) (fmap (M:=list) snd) out)).

(** ** The invariant *)
(** The entry in way [i] of set [s]. *)
Definition way c (s i : nat) : option (Entry D) := row ← m_cache c !! s; row !! i.

Definition line_ok a : Prop := is_u64 a /\ is_line a = true.

(** The set an address belongs to. *)
Definition set_start c : Z :=
  match m_machType c with
  | L2Cache => if MAP_L2BANKS_TO_LOWEST_BITS g
               then g_DATA_BLOCK_BITS g + g_NUM_L2_BANKS_PER_CHIP_BITS g else g_DATA_BLOCK_BITS g
  | _ => g_DATA_BLOCK_BITS g
  end.
Definition set_index c a : Z := field a (set_start c) (m_cache_num_set_bits c).

Record cache_geom c : Prop := {
  geom_type : m_machType c = L1Cache \/ m_machType c = L2Cache;
  geom_bits : 0 < m_cache_num_set_bits c < 31;
  geom_sets : m_cache_num_sets c = 2 ^ m_cache_num_set_bits c;
  geom_rows : Z.of_nat (length (m_cache c)) = m_cache_num_sets c;
  geom_ways s row : m_cache c !! s = Some row -> Z.of_nat (length row) = m_cache_assoc c;
  geom_policy : policy_ok (m_replacementPolicy c) (m_cache_num_sets c) (m_cache_assoc c);
  geom_start : 0 <= set_start c /\ set_start c + m_cache_num_set_bits c < 64;
}.

(** Every present block is in the set of its address, in one way only. *)
Record cache_inv c : Prop := {
  inv_geom : cache_geom c;
  inv_home s i e : way c s i = Some e -> present e = true ->
    line_ok (e_Address e) /\ set_index c (e_Address e) = Z.of_nat s;
  inv_unique s i j e e' : way c s i = Some e -> way c s j = Some e' ->
    present e = true -> present e' = true -> e_Address e = e_Address e' -> i = j;
}.

(** The block [a] is present in way [i], with entry [e]. *)
Definition present_at c a (i : nat) e : Prop :=
  way c (Z.to_nat (set_index c a)) i = Some e /\ present e = true /\ e_Address e = a.

Lemma addressToCacheSet_spec c a :
  cache_geom c -> line_ok a ->
  addressToCacheSet c a = Some (set_index c a) /\ 0 <= set_index c a < m_cache_num_sets c.
Proof using Type.
  intros Hg [Ha Hl]. pose proof (geom_bits c Hg). pose proof (geom_start c Hg) as [? ?].
  assert (Hb : 0 <= set_index c a < m_cache_num_sets c)
    by (rewrite (geom_sets c Hg); apply field_bounds; lia).
  split; [|done]. unfold addressToCacheSet. rewrite Hl.
  assert (Hm : match m_machType c with
    | L1Cache => map_address_to_L1CacheSet g a (m_cache_num_set_bits c)
    | L2Cache => map_address_to_L2CacheSet g a (m_cache_num_set_bits c)
    | _ => None end = Some (set_index c a)).
  { unfold set_index, set_start, map_address_to_L1CacheSet, map_address_to_L2CacheSet in *.
    destruct (geom_type c Hg) as [Ht|Ht]; rewrite Ht in *;
      [|destruct (MAP_L2BANKS_TO_LOWEST_BITS g)];
      rewrite bitSelect_field by (done || lia); simpl; by rewrite s32_field by lia. }
  rewrite Hm; simpl. destruct (Z.ltb_spec (set_index c a) (m_cache_num_sets c)); [|lia].
  by destruct (Z.leb_spec 0 (set_index c a)); [|lia].
Qed.

Lemma find_way_spec n row (k : nat) f :
  length row = (k + n)%nat ->
  exists r, find_way n row (Z.of_nat k) f = Some r /\
    (r = -1 /\ (forall j e, (k <= j)%nat -> row !! j = Some e -> f e = false) \/
     exists j e, r = Z.of_nat j /\ row !! j = Some e /\ f e = true).
Proof using Type.
  revert k. induction n as [|n IH]; intros k Hk; cbn [find_way].
  { eexists; split; [done|]. left. split; [done|]. intros j e Hj He%lookup_lt_Some. lia. }
  rewrite cell_nat. destruct (lookup_lt_is_Some_2 row k) as [e He]; [lia|]. rewrite He; simpl.
  destruct (f e) eqn:Hf; [eexists; split; [done|]; right; by exists k, e|].
  replace (Z.of_nat k + 1) with (Z.of_nat (S k)) by lia.
  destruct (IH (S k)) as (r & -> & [[-> Hn]|Hr]); [lia|..]; eexists; (split; [done|]); [left|by right].
  split; [done|]. intros j e' Hj He'. destruct (decide (j = k)) as [->|].
  - congruence.
  - apply (Hn j); [lia|done].
Qed.

Lemma row_of c a :
  cache_geom c -> line_ok a ->
  exists row, cell (m_cache c) (set_index c a) = Some row /\
    m_cache c !! Z.to_nat (set_index c a) = Some row /\ length row = Z.to_nat (m_cache_assoc c) /\
    forall i, way c (Z.to_nat (set_index c a)) i = row !! i.
Proof using Type.
  intros Hg Ha. destruct (addressToCacheSet_spec c a Hg Ha) as [_ Hb].
  pose proof (geom_rows c Hg).
  destruct (cell_range (m_cache c) (set_index c a)) as [row Hrow]; [lia|].
  exists row. assert (Hl := Hrow). apply cell_Some in Hl as [_ Hl].
  pose proof (geom_ways c Hg _ _ Hl). split_and!; [done..|lia|].
  intros i. unfold way. by rewrite Hl.
Qed.

Lemma findTagInSet_spec c a :
  cache_geom c -> line_ok a ->
  exists r, findTagInSet c (set_index c a) a = Some r /\
    (r = -1 /\ (forall i e, ~ present_at c a i e) \/ exists i e, r = Z.of_nat i /\ present_at c a i e).
Proof using Type.
  intros Hg Ha. destruct (row_of c a Hg Ha) as (row & Hc & _ & Hlen & Hway).
  unfold findTagInSet. rewrite (proj2 Ha), Hc; simpl.
  destruct (find_way_spec (Z.to_nat (m_cache_assoc c)) row 0
              (fun e => (e_Address e =? a) && present e)) as (r & Hr & Hcase); [done|].
  change (Z.of_nat 0) with 0 in Hr. rewrite Hr. exists r; split; [done|].
  destruct Hcase as [[-> Hn]|(j & e & -> & Hj & Hf)]; [left|right].
  - split; [done|]. intros i e (Hi & Hp & He). rewrite Hway in Hi.
    specialize (Hn i e ltac:(lia) Hi). rewrite He, Z.eqb_refl, Hp in Hn. done.
  - exists j, e. apply andb_true_iff in Hf as [He%Z.eqb_eq Hp]. split; [done|].
    split_and!; [by rewrite Hway|done|done].
Qed.

Lemma lookup_loc_spec c a :
  cache_geom c -> line_ok a ->
  (lookup_loc c a = None /\ isTagPresent c a = Some false /\ forall i e, ~ present_at c a i e) \/
  exists i e, lookup_loc c a = Some (set_index c a, Z.of_nat i) /\ isTagPresent c a = Some true /\
    present_at c a i e.
Proof using Type.
  intros Hg Ha. destruct (addressToCacheSet_spec c a Hg Ha) as [Hs _].
  destruct (findTagInSet_spec c a Hg Ha) as (r & Hr & Hcase).
  unfold lookup_loc, isTagPresent. rewrite (proj2 Ha), Hs; simpl. rewrite Hr; simpl.
  destruct Hcase as [[-> Hn]|(i & e & -> & He)]; [by left|right].
  exists i, e. destruct (Z.eqb_spec (Z.of_nat i) (-1)); [lia|]. done.
Qed.

Lemma entry_at_way c a i e :
  cache_geom c -> line_ok a -> present_at c a i e ->
  entry_at c (set_index c a) (Z.of_nat i) = Some e.
Proof using Type.
  intros Hg Ha (Hi & _). destruct (row_of c a Hg Ha) as (row & Hc & _ & _ & Hway).
  unfold entry_at. rewrite Hc; simpl. by rewrite cell_nat, <-Hway.
Qed.

Lemma present_at_inj c a i j e e' :
  cache_inv c -> present_at c a i e -> present_at c a j e' -> i = j /\ e = e'.
Proof using Type.
  intros Hc (Hi & Hp & He) (Hj & Hp' & He').
  assert (i = j) as -> by (eapply inv_unique; eauto; congruence). split; [done|congruence].
Qed.

(** [lookup] finds exactly the present blocks. *)
Lemma lookup_iff c a e :
  cache_inv c -> line_ok a -> lookup c a = Some e <-> exists i, present_at c a i e.
Proof using Type.
  intros Hc Ha. pose proof (inv_geom c Hc) as Hg. unfold lookup.
  destruct (lookup_loc_spec c a Hg Ha) as [(-> & _ & Hn)|(i & e' & -> & _ & He')]; simpl.
  { split; [done|]. intros [i Hi]. by destruct (Hn i e). }
  rewrite (entry_at_way c a i e') by done. split; [intros [= <-]; by exists i|].
  intros [j Hj]. f_equal. by destruct (present_at_inj c a i j e' e Hc He' Hj).
Qed.

Lemma isTagPresent_lookup c a :
  cache_inv c -> line_ok a -> isTagPresent c a = Some (bool_decide (is_Some (lookup c a))).
Proof using Type.
  intros Hc Ha. destruct (lookup_loc_spec c a (inv_geom c Hc) Ha) as [(_ & -> & Hn)|(i & e & _ & -> & He)];
    f_equal; symmetry.
  - apply bool_decide_eq_false_2. intros [e [i Hi]%lookup_iff]; [|done..]. by destruct (Hn i e).
  - apply bool_decide_eq_true_2. exists e. apply lookup_iff; [done..|]. by exists i.
Qed.

(** ** Writing an entry *)
Definition put c (s i : nat) e : CacheMemory :=
  set_cache c (alter (fun row => <[i := e]> row) s (m_cache c)).

Lemma set_entry_put c a i e e' :
  cache_geom c -> line_ok a -> way c (Z.to_nat (set_index c a)) i = Some e' ->
  set_entry c (set_index c a) (Z.of_nat i) e = Some (put c (Z.to_nat (set_index c a)) i e).
Proof using Type.
  intros Hg Ha Hi. destruct (row_of c a Hg Ha) as (row & Hc & Hrow & Hlen & Hway).
  destruct (addressToCacheSet_spec c a Hg Ha) as [_ Hb]. pose proof (geom_rows c Hg).
  rewrite Hway in Hi. apply lookup_lt_Some in Hi.
  unfold set_entry. rewrite Hc; simpl. rewrite set_cell_Some by lia. simpl.
  rewrite set_cell_Some by lia. simpl. unfold put. do 2 f_equal. rewrite Nat2Z.id.
  apply list_eq. intros s. destruct (decide (s = Z.to_nat (set_index c a))) as [->|].
  - rewrite list_lookup_alter_eq, Hrow, list_lookup_insert_eq; [done|].
    by apply lookup_lt_Some in Hrow.
  - by rewrite list_lookup_alter_ne, list_lookup_insert_ne by done.
Qed.

Lemma way_put c s i e s' i' :
  is_Some (way c s i) ->
  way (put c s i e) s' i' = if decide (s' = s /\ i' = i) then Some e else way c s' i'.
Proof using Type.
  intros [e0 He]. unfold way, put in *; simpl.
  destruct (decide (s' = s)) as [->|]; [|rewrite decide_False by tauto; by rewrite list_lookup_alter_ne].
  rewrite list_lookup_alter_eq. destruct (m_cache c !! s) as [row|]; [simpl in *|done].
  apply lookup_lt_Some in He. destruct (decide (i' = i)) as [->|].
  - rewrite decide_True by done. by apply list_lookup_insert_eq.
  - rewrite decide_False by tauto. by apply list_lookup_insert_ne.
Qed.

Lemma put_geom c s i e : cache_geom c -> cache_geom (put c s i e).
Proof using Type.
  intros []. split; try done; simpl.
  - by rewrite length_alter.
  - intros s' row. rewrite list_lookup_alter. case_decide; [|eauto]. subst.
    destruct (m_cache c !! s') as [row'|] eqn:E; [|done]. intros [= <-].
    rewrite length_insert. eauto.
Qed.

(** An entry may be written where its address belongs, if no other way of the
    set holds it. *)
Lemma put_inv c s i e :
  cache_inv c -> is_Some (way c s i) ->
  (present e = true -> line_ok (e_Address e) /\ set_index c (e_Address e) = Z.of_nat s /\
     forall j e', j <> i -> way c s j = Some e' -> present e' = true -> e_Address e' <> e_Address e) ->
  cache_inv (put c s i e).
Proof using Type.
  intros Hc Hi He. split; [apply put_geom, Hc|..].
  - intros s' i' e'. rewrite way_put by done. case_decide as Hd; [|apply (inv_home c Hc)].
    destruct Hd as [-> ->]. intros [= <-] Hp. destruct (He Hp) as (? & ? & _). done.
  - intros s' i1 i2 e1 e2. rewrite !way_put by done.
    do 2 case_decide; try (by apply (inv_unique c Hc)); destruct_and?; try (by subst).
    + intros [= <-] Hw2 Hp Hp2 Ha. subst. destruct (He Hp) as (_ & _ & Hn).
      exfalso. eapply (Hn i2 e2); eauto.
    + intros Hw1 [= <-] Hp1 Hp Ha. subst. destruct (He Hp) as (_ & _ & Hn).
      exfalso. eapply (Hn i1 e1); eauto.
Qed.

Lemma lookup_put c s i e0 e b :
  cache_inv c -> cache_inv (put c s i e) -> way c s i = Some e0 -> line_ok b ->
  (present e = true -> set_index c (e_Address e) = Z.of_nat s) ->
  lookup (put c s i e) b =
    if decide (present e = true /\ e_Address e = b) then Some e
    else if decide (present e0 = true /\ e_Address e0 = b) then None else lookup c b.
Proof using Type.
  intros Hc Hc' Hi Hb Hs. apply option_eq. intros x. rewrite lookup_iff by done.
  assert (Hw : forall j y, present_at (put c s i e) b j y <->
    (Z.to_nat (set_index c b) = s /\ j = i /\ e = y /\ present e = true /\ e_Address e = b) \/
    (~ (Z.to_nat (set_index c b) = s /\ j = i) /\ present_at c b j y)).
  { intros j y. unfold present_at. change (set_index (put c s i e) b) with (set_index c b).
    rewrite way_put by (by eexists). case_decide; naive_solver. }
  setoid_rewrite Hw. clear Hw. destruct (decide (present e = true /\ e_Address e = b)) as [[Hp <-]|Hne].
  - split.
    + intros [j [(_ & _ & -> & _)|[Hn Hj]]]; [done|]. exfalso.
      destruct Hj as (Hj & Hpx & Hax). specialize (Hs Hp). rewrite Hs, Nat2Z.id in Hj.
      assert (j = i) as ->; [|apply Hn; split; [lia|done]].
      apply (inv_unique _ Hc' s j i x e); rewrite ?way_put by (by eexists);
        [|by rewrite decide_True|done..].
      rewrite decide_False; [done|]. intros [_ ->]. apply Hn. split; [lia|done].
    + intros [= <-]. exists i. left. specialize (Hs Hp). split_and!; try done. lia.
  - destruct (decide (present e0 = true /\ e_Address e0 = b)) as [[Hp0 <-]|Hne0].
    + split; [|done]. intros [j [(_ & _ & _ & ? & ?)|[Hn (Hj & Hpx & Hax)]]]; [by destruct Hne|].
      exfalso. destruct (inv_home c Hc s i e0 Hi Hp0) as [_ Hh]. rewrite Hh, Nat2Z.id in Hj.
      apply Hn. split; [lia|]. by eapply (inv_unique c Hc s j i).
    + rewrite lookup_iff by done. split.
      * intros [j [(_ & _ & _ & ? & ?)|[_ Hj]]]; [by destruct Hne|by exists j].
      * intros [j Hj]. exists j. right. split; [|done]. intros [E ->].
        destruct Hj as (Hj & ? & ?). rewrite E, Hi in Hj. simplify_eq. by apply Hne0.
Qed.

(** ** Operations *)
Definition entry_or_none e : option (Entry D) := if present e then Some e else None.

Definition same_shape c c' : Prop :=
  m_machType c' = m_machType c /\ m_cache_num_set_bits c' = m_cache_num_set_bits c /\
  m_cache_assoc c' = m_cache_assoc c.

Lemma same_shape_index c c' a : same_shape c c' -> set_index c' a = set_index c a.
Proof using Type. unfold set_index, set_start. by intros (-> & -> & _). Qed.

Lemma update_spec c a f e :
  cache_inv c -> line_ok a -> lookup c a = Some e -> e_Address (f e) = a ->
  exists c', update c a f = Some c' /\ cache_inv c' /\ same_shape c c' /\
    forall b, line_ok b ->
      lookup c' b = if decide (b = a) then entry_or_none (f e) else lookup c b.
Proof using Type.
  intros Hc Ha He Hf. pose proof (inv_geom c Hc) as Hg.
  apply lookup_iff in He as [i He]; [|done..]. assert (Hi := He). destruct Hi as (Hi & Hp & Hea).
  destruct (lookup_loc_spec c a Hg Ha) as [(_ & _ & Hn)|(i' & e' & Hloc & _ & He')];
    [by destruct (Hn i e)|].
  destruct (present_at_inj c a i' i e' e Hc He' He) as [-> ->].
  unfold update. rewrite Hloc; simpl. rewrite (entry_at_way c a i e) by done. simpl.
  rewrite (set_entry_put c a i _ e) by done.
  destruct (inv_home c Hc _ _ _ Hi Hp) as [_ Hh]. rewrite Hea in Hh.
  assert (Hput : cache_inv (put c (Z.to_nat (set_index c a)) i (f e))).
  { apply put_inv; [done|by eexists|]. intros _. rewrite Hf. split_and!; [done..|].
    intros j e1 Hj Hw Hp1 Ha1. apply Hj. eapply (inv_unique c Hc); eauto. congruence. }
  eexists; split_and!; [done..|]. intros b Hb.
  rewrite (lookup_put c _ i e) by (done || (rewrite Hf; done)). rewrite Hf, Hea.
  unfold entry_or_none. destruct (decide (b = a)) as [->|].
  - destruct (present (f e)); [by rewrite decide_True|].
    rewrite decide_False by (intros [? _]; done). by rewrite decide_True.
  - rewrite !decide_False by (intros [_ ?]; congruence). done.
Qed.

(** A block can be brought in: it is there already, or a way is free. *)
Lemma cacheAvail_spec c a :
  cache_inv c -> line_ok a ->
  exists b, cacheAvail c a = Some b /\
    (b = true <-> is_Some (lookup c a) \/
       exists i e, way c (Z.to_nat (set_index c a)) i = Some e /\ present e = false).
Proof using Type.
  intros Hc Ha. pose proof (inv_geom c Hc) as Hg.
  destruct (row_of c a Hg Ha) as (row & Hrow & _ & Hlen & Hway).
  destruct (addressToCacheSet_spec c a Hg Ha) as [Hs _].
  unfold cacheAvail. rewrite (proj2 Ha), Hs; simpl. rewrite Hrow; simpl.
  destruct (find_way_spec (Z.to_nat (m_cache_assoc c)) row 0
              (fun e => (e_Address e =? a) || negb (present e))) as (r & Hr & Hcase); [done|].
  change (Z.of_nat 0) with 0 in Hr. rewrite Hr; simpl. eexists; split; [done|].
  destruct Hcase as [[-> Hn]|(j & e & -> & Hj & Hf)]; simpl.
  - split; [done|]. intros [[e [i (Hi & Hp & He)]%lookup_iff]|(i & e & Hi & Hp)]; try done;
      rewrite Hway in Hi; specialize (Hn i e ltac:(lia) Hi).
    + by rewrite He, Z.eqb_refl in Hn.
    + rewrite Hp, orb_true_r in Hn. done.
  - destruct (Z.eqb_spec (Z.of_nat j) (-1)); [lia|]. split; [|done]. intros _.
    destruct (present e) eqn:Hp; [left|right; exists j, e; by rewrite Hway].
    rewrite orb_false_r in Hf. apply Z.eqb_eq in Hf. exists e. apply lookup_iff; [done..|].
    exists j. split_and!; [by rewrite Hway|done..].
Qed.

Lemma touch_way_spec c a i now :
  cache_inv c -> line_ok a -> Z.of_nat i < m_cache_assoc c ->
  exists c', touch_way c (set_index c a) (Z.of_nat i) now = Some c' /\ cache_inv c' /\
    m_cache c' = m_cache c /\ forall b, lookup c' b = lookup c b.
Proof using Type.
  intros Hc Ha Hi. pose proof (inv_geom c Hc) as Hg.
  destruct (addressToCacheSet_spec c a Hg Ha) as [_ Hs].
  destruct (touch_spec _ _ _ (set_index c a) (Z.of_nat i) now (geom_policy c Hg) Hs)
    as (p & Hp & Hok & _); [lia|].
  unfold touch_way. rewrite Hp; simpl. eexists; split_and!; try done.
  destruct Hc as [[] ? ?]. split; [split|..]; done.
Qed.

(** The entry [allocate] leaves behind. *)
Definition fresh_entry a : Entry D :=
  mkEntry a Invalid ∅ 0 0 false false false false (DataBlock_new g DATA_BLOCK XACT_MEMORY) default.

Lemma allocate_spec c a now :
  cache_inv c -> line_ok a -> lookup c a = None -> cacheAvail c a = Some true ->
  exists c', allocate c a now = Some c' /\ cache_inv c' /\
    forall b, line_ok b ->
      lookup c' b = if decide (b = a) then Some (fresh_entry a) else lookup c b.
Proof using Type.
  intros Hc Ha Hno Hav. pose proof (inv_geom c Hc) as Hg.
  destruct (row_of c a Hg Ha) as (row & Hrow & Hrow' & Hlen & Hway).
  destruct (addressToCacheSet_spec c a Hg Ha) as [Hs Hsb].
  unfold allocate. rewrite (proj2 Ha), (isTagPresent_lookup c a Hc Ha), Hno; simpl.
  rewrite Hav; simpl. rewrite Hs; simpl. rewrite Hrow; simpl.
  destruct (find_way_spec (Z.to_nat (m_cache_assoc c)) row 0 (fun e => negb (present e)))
    as (r & Hr & Hcase); [done|]. change (Z.of_nat 0) with 0 in Hr. rewrite Hr; simpl.
  destruct Hcase as [[-> Hn]|(i & e0 & -> & Hi & Hf%negb_true_iff)].
  { exfalso. destruct (cacheAvail_spec c a Hc Ha) as (b & Hb & Hiff). rewrite Hav in Hb.
    injection Hb as <-. destruct (proj1 Hiff eq_refl) as [[e He]|(i & e & Hi & Hp)]; [congruence|].
    rewrite Hway in Hi. specialize (Hn i e ltac:(lia) Hi). by rewrite Hp in Hn. }
  destruct (Z.eqb_spec (Z.of_nat i) (-1)); [lia|]. cbn [negb].
  rewrite <-Hway in Hi. fold (fresh_entry a).
  rewrite (set_entry_put c a i (fresh_entry a) e0) by done. cbn [mbind option_bind].
  set (c1 := put c (Z.to_nat (set_index c a)) i (fresh_entry a)).
  assert (Hc1 : cache_inv c1).
  { apply put_inv; [done|by eexists|]. intros _. split_and!; [done|simpl; lia|].
    intros j e' Hj Hw Hp Hea. simpl in Hea. apply (is_Some_None (A := Entry D)). rewrite <-Hno. exists e'.
    apply lookup_iff; [done..|]. by exists j. }
  assert (Hl1 : forall b, line_ok b ->
    lookup c1 b = if decide (b = a) then Some (fresh_entry a) else lookup c b).
  { intros b Hb. unfold c1. rewrite (lookup_put c _ i e0) by (done || (simpl; lia)).
    rewrite Hf. simpl. destruct (decide (b = a)) as [->|]; [by rewrite decide_True|].
    rewrite !decide_False by (intros [? ?]; congruence). done. }
  destruct (update_spec c1 a
    (fun e => set_expired_by (set_e_wts (set_e_rts e 0) 0) false false false false) (fresh_entry a))
    as (c2 & -> & Hc2 & Hshape & Hl2); [done..|by rewrite Hl1, decide_True|done|]. simpl.
  assert (Hlt : Z.of_nat i < m_cache_assoc c2).
  { destruct Hshape as (_ & _ & ->). rewrite Hway in Hi. apply lookup_lt_Some in Hi. simpl. lia. }
  destruct (touch_way_spec c2 a i now Hc2 Ha Hlt) as (c3 & Ht & Hc3 & _ & Hl3).
  rewrite (same_shape_index c1 c2 a Hshape) in Ht. change (set_index c1 a) with (set_index c a) in Ht.
  exists c3; split_and!; [done..|]. intros b Hb. rewrite Hl3, Hl2 by done.
  case_decide; [done|]. by rewrite Hl1, decide_False.
Qed.

(** C28: allocating a block. When the block is absent and a way of its set is
    free, [allocate] succeeds: none of its assertions fails and it finds an
    entry. The block is then present with an empty lease and no marks, every
    other block of the cache is unchanged, and the cache stays well formed. *)
Theorem allocate_correct c a now :
  cache_inv c -> line_ok a -> isTagPresent c a = Some false -> cacheAvail c a = Some true ->
  exists c', allocate c a now = Some c' /\ cache_inv c' /\ isTagPresent c' a = Some true /\
    getPermission c' a = Some Invalid /\ getRts c' a = Some 0 /\ getWts c' a = Some 0 /\
    forall b, line_ok b -> b <> a -> lookup c' b = lookup c b.
Proof using Type.
  intros Hc Ha Hno Hav. rewrite isTagPresent_lookup in Hno by done.
  injection Hno as Hno%bool_decide_eq_false. rewrite <-eq_None_not_Some in Hno.
  destruct (allocate_spec c a now) as (c' & -> & Hc' & Hl); [done..|].
  assert (Hl' : lookup c' a = Some (fresh_entry a)) by (by rewrite Hl, decide_True).
  exists c'. unfold getPermission, getRts, getWts.
  rewrite isTagPresent_lookup, Hl', (proj2 Ha) by done. split_and!; try done.
  intros b Hb Hne. by rewrite Hl, decide_False.
Qed.

(** [deallocate] of a present block removes it and nothing else, and
    leaves room to allocate any block of the same set. *)
Theorem deallocate_correct c a :
  cache_inv c -> line_ok a -> isTagPresent c a = Some true ->
  exists c', deallocate c a = Some c' /\ cache_inv c' /\ isTagPresent c' a = Some false /\
    (forall b, line_ok b -> b <> a -> lookup c' b = lookup c b) /\
    (forall b, line_ok b -> set_index c b = set_index c a -> cacheAvail c' b = Some true).
Proof using Type.
  intros Hc Ha Hin. assert (Hin' := Hin). rewrite isTagPresent_lookup in Hin' by done.
  injection Hin' as [e He]%bool_decide_eq_true.
  unfold deallocate. rewrite (proj2 Ha), Hin; simpl.
  assert (Hea : e_Address (set_e_Permission e NotPresent) = a).
  { apply lookup_iff in He as (i & _ & _ & ?); done. }
  apply lookup_iff in He as Hat; [|done..]. destruct Hat as [i Hi].
  destruct (lookup_loc_spec c a (inv_geom c Hc) Ha) as [(_ & _ & Hn)|(i' & e' & Hloc & _ & He')];
    [by destruct (Hn i e)|].
  destruct (present_at_inj c a i' i e' e Hc He' Hi) as [-> ->].
  unfold update. rewrite Hloc; simpl. rewrite (entry_at_way c a i e) by (done || apply Hc). simpl.
  destruct Hi as (Hi & Hp & _).
  rewrite (set_entry_put c a i _ e) by (done || apply Hc).
  set (c' := put _ _ _ _).
  assert (Hc' : cache_inv c') by (apply put_inv; [done|by eexists|done]).
  assert (Hl : forall b, line_ok b -> lookup c' b = if decide (b = a) then None else lookup c b).
  { intros b Hb. unfold c'. rewrite (lookup_put c _ i e) by done.
    rewrite decide_False by (intros [? _]; done). rewrite Hp.
    change (e_Address (set_e_Permission e NotPresent)) with (e_Address e) in Hea. rewrite Hea.
    destruct (decide (b = a)) as [->|]; [by rewrite decide_True|].
    by rewrite decide_False by (intros [_ ?]; congruence). }
  exists c'; split_and!; [done..| | |].
  - rewrite isTagPresent_lookup, Hl, decide_True by done. done.
  - intros b Hb Hne. by rewrite Hl, decide_False.
  - intros b Hb Hset. destruct (cacheAvail_spec c' b Hc' Hb) as (v & -> & Hv). f_equal.
    apply Hv. right. exists i, (set_e_Permission e NotPresent). split; [|done].
    change (set_index c' b) with (set_index c b). rewrite Hset. unfold c'.
    rewrite way_put by (by eexists). by rewrite decide_True.
Qed.

Lemma cacheProbe_spec c a :
  cache_inv c -> line_ok a -> cacheAvail c a = Some false ->
  exists v, cacheProbe c a = Some v /\ line_ok v /\ isTagPresent c v = Some true /\ v <> a /\
    set_index c v = set_index c a.
Proof using Type.
  intros Hc Ha Hav. pose proof (inv_geom c Hc) as Hg.
  destruct (row_of c a Hg Ha) as (row & Hrow & _ & Hlen & Hway).
  destruct (addressToCacheSet_spec c a Hg Ha) as [Hs Hsb].
  destruct (cacheAvail_spec c a Hc Ha) as (b & Hb & Hiff). rewrite Hav in Hb. injection Hb as <-.
  unfold cacheProbe. rewrite (proj2 Ha), Hav; simpl. rewrite Hs; simpl.
  destruct (getVictim_spec _ _ _ (set_index c a) (geom_policy c Hg) Hsb) as (w & -> & Hw).
  simpl. unfold entry_at. rewrite Hrow; simpl.
  destruct (cell_range row w) as [e He]; [lia|]. rewrite He; simpl.
  apply cell_Some in He as [Hw0 He]. rewrite <-Hway in He.
  destruct (present e) eqn:Hp; last first.
  { exfalso. enough (false = true) by done. apply Hiff. right. by exists (Z.to_nat w), e. }
  destruct (inv_home c Hc _ _ _ He Hp) as [Hok Hset].
  assert (Hse : set_index c (e_Address e) = set_index c a) by lia.
  assert (Hle : lookup c (e_Address e) = Some e).
  { apply lookup_iff; [done..|]. exists (Z.to_nat w). split_and!; [by rewrite Hse|done..]. }
  exists (e_Address e); split_and!; try done.
  - rewrite isTagPresent_lookup, Hle by done. done.
  - intros Hea. enough (false = true) by done. apply Hiff. left. rewrite <-Hea, Hle. by eexists.
Qed.

(** replacement makes progress: when no way is free for an absent block,
    [cacheProbe] names a present block of the same set, other than the block
    itself, whose deallocation makes room for it; no assertion fails. *)
Theorem cacheProbe_correct c a :
  cache_inv c -> line_ok a -> cacheAvail c a = Some false ->
  exists v, cacheProbe c a = Some v /\ line_ok v /\ isTagPresent c v = Some true /\ v <> a /\
    set_index c v = set_index c a.
Proof using Type. by apply cacheProbe_spec. Qed.

(** The constructed cache is empty and well formed. *)
Lemma CacheMemory_new_inv machType bits assoc policy :
  (machType = L1Cache \/ machType = L2Cache) -> 0 < bits < 31 -> 0 < assoc ->
  policy_ok policy (2 ^ bits) assoc ->
  0 <= set_start (CacheMemory_new machType bits assoc policy) ->
  set_start (CacheMemory_new machType bits assoc policy) + bits < 64 ->
  cache_inv (CacheMemory_new machType bits assoc policy) /\
  forall b, line_ok b -> lookup (CacheMemory_new machType bits assoc policy) b = None.
Proof using Type.
  intros Ht Hb Ha Hp Hs0 Hs. set (c := CacheMemory_new _ _ _ _).
  assert (2 ^ bits < 2 ^ 31) by (apply Z.pow_lt_mono_r; lia).
  assert (0 < 2 ^ bits) by (apply Z.pow_pos_nonneg; lia).
  assert (E : m_cache_num_sets c = 2 ^ bits)
    by (unfold c; simpl; rewrite Z.shiftl_1_l; apply s32_small; lia).
  assert (Hway : forall s i e, way c s i = Some e -> present e = false).
  { intros s i e. unfold way, c; simpl. intros (row & Hrow & He)%bind_Some.
    apply lookup_replicate in Hrow as [-> _]. by apply lookup_replicate in He as [-> _]. }
  assert (Hc : cache_inv c).
  { split; [split|..].
    - done.
    - done.
    - done.
    - simpl. rewrite length_replicate. unfold c in E; simpl in E. rewrite E. lia.
    - intros s row Hrow. apply lookup_replicate in Hrow as [-> _]. rewrite length_replicate.
      simpl. lia.
    - rewrite E. done.
    - done.
    - intros s i e Hi Hpr. by rewrite (Hway _ _ _ Hi) in Hpr.
    - intros s i j e e' Hi _ Hpr. by rewrite (Hway _ _ _ Hi) in Hpr. }
  split; [done|]. intros b Hbo. apply eq_None_not_Some. intros [e He].
  apply lookup_iff in He as (i & Hi & Hpr & _); [|done..]. by rewrite (Hway _ _ _ Hi) in Hpr.
Qed.

Lemma allocate_inv c a now c' :
  cache_inv c -> line_ok a -> allocate c a now = Some c' -> cache_inv c'.
Proof using Type.
  intros Hc Ha Hal. assert (Hal' := Hal). unfold allocate in Hal'. rewrite (proj2 Ha) in Hal'.
  rewrite isTagPresent_lookup in Hal' by done. cbn [mbind option_bind] in Hal'.
  case_bool_decide as Hno; [done|]. cbn [negb] in Hal'.
  destruct (cacheAvail c a) as [[]|] eqn:Hav; try done.
  destruct (allocate_spec c a now Hc Ha) as (c2 & E & Hc2 & _); [by apply eq_None_not_Some|done|].
  congruence.
Qed.

(** the lease and write timestamps of a block can be set and read back,
    independently of each other and of every other block; on an absent block
    all four accessors fail. *)
Theorem lease_roundtrip c a r w :
  cache_inv c -> line_ok a ->
  (isTagPresent c a = Some false ->
     getRts c a = None /\ getWts c a = None /\ setRts c a r = None /\ setWts c a w = None) /\
  (isTagPresent c a = Some true ->
     exists c1 c2, setRts c a r = Some c1 /\ setWts c1 a w = Some c2 /\ cache_inv c2 /\
       getRts c1 a = Some r /\ getWts c1 a = getWts c a /\
       getRts c2 a = Some r /\ getWts c2 a = Some w /\
       getPermission c2 a = getPermission c a /\
       forall b, line_ok b -> b <> a -> lookup c2 b = lookup c b).
Proof using Type.
  intros Hc Ha. unfold getRts, getWts, setRts, setWts, getPermission. split.
  { intros ->. done. }
  intros Hp. rewrite Hp; simpl. rewrite isTagPresent_lookup in Hp by done.
  injection Hp as [e He]%bool_decide_eq_true.
  assert (Hea : e_Address e = a) by (by apply lookup_iff in He as (i & _ & _ & ?)).
  assert (Hpe : present e = true) by (by apply lookup_iff in He as (i & _ & ? & _)).
  destruct (update_spec c a (fun e => set_e_rts e r) e) as (c1 & E1 & H1 & _ & L1); [done..|].
  assert (La : lookup c1 a = Some (set_e_rts e r)).
  { rewrite L1, decide_True by done. unfold entry_or_none.
    change (present (set_e_rts e r)) with (present e). by rewrite Hpe. }
  destruct (update_spec c1 a (fun e => set_e_wts e w) (set_e_rts e r))
    as (c2 & E2 & H2' & _ & L2); [done..|].
  assert (Lb : lookup c2 a = Some (set_e_wts (set_e_rts e r) w)).
  { rewrite L2, decide_True by done. unfold entry_or_none.
    change (present (set_e_wts (set_e_rts e r) w)) with (present e). by rewrite Hpe. }
  exists c1, c2. rewrite !isTagPresent_lookup by done. rewrite La, Lb, He, (proj2 Ha); simpl.
  split_and!; try done. intros b Hb Hne. by rewrite L2, L1, !decide_False.
Qed.

Lemma update_inv c a f c' :
  cache_inv c -> line_ok a -> (forall e, e_Address (f e) = e_Address e) ->
  update c a f = Some c' -> cache_inv c'.
Proof using Type.
  intros Hc Ha Hf Hu.
  destruct (lookup_loc_spec c a (inv_geom c Hc) Ha) as [(Hn & _)|(i & e & _ & _ & He)].
  { unfold update in Hu. by rewrite Hn in Hu. }
  assert (Hl : lookup c a = Some e) by (apply lookup_iff; [done..|]; by exists i).
  destruct (update_spec c a f e) as (c2 & E & Hc2 & _); [done..| |congruence].
  rewrite Hf. apply He.
Qed.

Lemma setRts_inv c a r c' :
  cache_inv c -> line_ok a -> setRts c a r = Some c' -> cache_inv c'.
Proof using Type.
  intros Hc Ha Hs. unfold setRts in Hs. run Hs. by eapply update_inv; [..|exact Hs].
Qed.

Lemma insertCtaWarpID_inv c a cta_id wid c' :
  cache_inv c -> line_ok a -> insertCtaWarpID c a cta_id wid = Some c' -> cache_inv c'.
Proof using Type.
  intros Hc Ha Hs. unfold insertCtaWarpID in Hs. run Hs. by eapply update_inv; [..|exact Hs].
Qed.

(** ** Expiring leases *)
Lemma expire_entry_frame cta_id wid msg_wts load_ts e :
  let e' := (expire_entry cta_id wid msg_wts load_ts e).2 in
  e_Address e' = e_Address e /\ e_Permission e' = e_Permission e /\ ctaMap e' = ctaMap e /\
  e_rts e' = e_rts e /\ e_wts e' = e_wts e /\ present e' = present e.
Proof using Type. unfold expire_entry. repeat case_match; done. Qed.

(** A lease that a message's timestamp ends: the load was still covered by
    it, the write is beyond it. *)
Definition lease_ends (msg_wts load_ts : Z) e : bool :=
  present e && ((load_ts <? e_rts e) && (e_rts e <? msg_wts)).

Lemma setExpired_way c cta_id wid msg_wts load_ts n c' s i :
  setExpired c cta_id wid msg_wts load_ts = (n, c') ->
  way c' s i = (fun e => (expire_entry cta_id wid msg_wts load_ts e).2) <$> way c s i.
Proof using Type.
  unfold setExpired. intros [= _ <-]. unfold way; simpl. rewrite !list_lookup_fmap.
  destruct (m_cache c !! s) as [row|]; simpl; [|done]. rewrite !list_lookup_fmap.
  by destruct (row !! i).
Qed.

(** A map with one key, a set with one element. *)
Lemma map_size_1 (m : gmap Z (gset Z)) k x :
  m !! k = Some x -> base.size m = 1%nat <-> m = {[k := x]}.
Proof using Type.
  intros Hk. rewrite <-(insert_delete_id m k x Hk) at 1.
  rewrite map_size_insert_None by apply lookup_delete_eq. split.
  - intros Hs. assert (Hd : delete k m = ∅) by (apply map_size_empty_inv; lia).
    rewrite <-(insert_delete_id m k x Hk), Hd. apply insert_empty.
  - intros ->. by rewrite delete_singleton_eq, map_size_empty.
Qed.

Lemma set_size_1 (X : gset Z) y : y ∈ X -> base.size X = 1%nat <-> X = {[y]}.
Proof using Type.
  intros Hy. split; [|intros ->; apply size_singleton].
  intros Hs. apply size_1_elem_of in Hs as [z Hz]. set_solver.
Qed.

Lemma dom_single (m : gmap Z (gset Z)) k x :
  m !! k = Some x -> dom m = {[k]} <-> m = {[k := x]}.
Proof using Type.
  intros Hk. split; [|intros ->; apply dom_singleton_L].
  intros Hd. apply map_eq. intros j. destruct (decide (j = k)) as [->|].
  - by rewrite lookup_singleton_eq.
  - rewrite lookup_singleton_ne by done. apply not_elem_of_dom. set_solver.
Qed.

(** What the marks of an expired entry say. *)
Lemma expire_marks cta_id wid msg_wts load_ts e :
  lease_ends msg_wts load_ts e = true ->
  let e' := (expire_entry cta_id wid msg_wts load_ts e).2 in
  (expired_by_own_warp e' = true <-> ctaMap e = {[cta_id := {[wid]}]}) /\
  (expired_by_own_cta e' = true <-> dom (ctaMap e) = {[cta_id]}) /\
  (expired_by_shared_cta e' = true <->
     cta_id ∈ dom (ctaMap e) /\ dom (ctaMap e) <> {[cta_id]}) /\
  (expired_by_shared_warp e' = true <->
     exists warps, ctaMap e = {[cta_id := warps]} /\ wid ∈ warps /\ warps <> {[wid]}).
Proof using Type.
  unfold lease_ends, expire_entry. intros ->. cbn [snd]. clear.
  set (m := ctaMap e). clearbody m. destruct (m !! cta_id) as [warps|] eqn:Hm; simpl.
  - rewrite (dom_single m cta_id warps) by done.
    assert (Hd : cta_id ∈ dom m) by (apply elem_of_dom; by eexists).
    assert (Hsing : forall ws, m = {[cta_id := ws]} -> ws = warps).
    { intros ws ->. rewrite lookup_singleton_eq in Hm. congruence. }
    case_decide as Hs; rewrite (map_size_1 m cta_id warps) in Hs by done; simpl.
    + rewrite Hs in *. case_decide as Hw; simpl;
        [|case_decide as Hw1; rewrite (set_size_1 warps wid) in Hw1 by done; simpl];
        (split_and!; (split; [|try done]); try done); naive_solver set_solver.
    + split_and!; (split; [|try done]); try done; naive_solver.
  - assert (Hd : cta_id ∉ dom m) by (by apply not_elem_of_dom).
    assert (Hn : forall ws, m <> {[cta_id := ws]}).
    { intros ws ->. by rewrite lookup_singleton_eq in Hm. }
    split_and!; (split; [done|]).
    + by intros ?%Hn.
    + intros Hdm. set_solver.
    + by intros [? _].
    + by intros (ws & ?%Hn & _).
Qed.

Lemma setExpired_inv c cta_id wid msg_wts load_ts n c' :
  cache_inv c -> setExpired c cta_id wid msg_wts load_ts = (n, c') -> cache_inv c'.
Proof using Type.
  intros Hc Hexp.
  assert (Hg : cache_geom c').
  { unfold setExpired in Hexp. injection Hexp as _ <-. destruct (inv_geom c Hc).
    split; try done; simpl; [by rewrite !length_fmap|]. intros s row.
    rewrite !list_lookup_fmap. destruct (m_cache c !! s) as [r|] eqn:E; [|done].
    intros [= <-]. rewrite !length_fmap. eauto. }
  assert (Hshape : forall a, set_index c' a = set_index c a)
    by (unfold setExpired in Hexp; injection Hexp as _ <-; done).
  pose proof (fun s i => setExpired_way c cta_id wid msg_wts load_ts n c' s i Hexp) as Hway.
  split; [done|..].
  - intros s i e'. rewrite Hway. intros (x & Hx & ->)%fmap_Some.
    destruct (expire_entry_frame cta_id wid msg_wts load_ts x) as (-> & _ & _ & _ & _ & ->).
    rewrite Hshape. by apply (inv_home c Hc s i x).
  - intros s i j e1 e2. rewrite !Hway. intros (x & Hx & ->)%fmap_Some (y & Hy & ->)%fmap_Some.
    destruct (expire_entry_frame cta_id wid msg_wts load_ts x) as (-> & _ & _ & _ & _ & ->).
    destruct (expire_entry_frame cta_id wid msg_wts load_ts y) as (-> & _ & _ & _ & _ & ->).
    intros Hpx Hpy Haxy. by apply (inv_unique c Hc s i j x y).
Qed.

(** C29: [setExpired] marks exactly the present blocks whose lease ends, by who
    fetched them, and changes nothing else: permissions, leases and contents
    stay, and the cache stays well formed. A block marked "own warp" was
    fetched by that warp alone; "own cta", by that thread block alone;
    "shared cta", by that thread block and another. *)
Theorem setExpired_correct c cta_id wid msg_wts load_ts n c' b e :
  cache_inv c -> line_ok b -> setExpired c cta_id wid msg_wts load_ts = (n, c') ->
  lookup c b = Some e ->
  cache_inv c' /\
  exists e', lookup c' b = Some e' /\ e_Permission e' = e_Permission e /\ e_rts e' = e_rts e /\
    e_wts e' = e_wts e /\ ctaMap e' = ctaMap e /\
    (lease_ends msg_wts load_ts e = false -> e' = e) /\
    (lease_ends msg_wts load_ts e = true ->
       (expired_by_own_warp e' = true <-> ctaMap e = {[cta_id := {[wid]}]}) /\
       (expired_by_own_cta e' = true <-> dom (ctaMap e) = {[cta_id]}) /\
       (expired_by_shared_cta e' = true <->
          cta_id ∈ dom (ctaMap e) /\ dom (ctaMap e) <> {[cta_id]}) /\
       (expired_by_shared_warp e' = true <->
          exists warps, ctaMap e = {[cta_id := warps]} /\ wid ∈ warps /\ warps <> {[wid]})).
Proof using Type.
  intros Hc Hb Hexp He.
  assert (Hshape : forall a, set_index c' a = set_index c a)
    by (unfold setExpired in Hexp; injection Hexp as _ <-; done).
  pose proof (fun s i => setExpired_way c cta_id wid msg_wts load_ts n c' s i Hexp) as Hway.
  pose proof (setExpired_inv c cta_id wid msg_wts load_ts n c' Hc Hexp) as Hc'.
  split; [done|]. destruct (expire_entry_frame cta_id wid msg_wts load_ts e) as (Ha & ? & ? & ? & ? & Hp).
  exists (expire_entry cta_id wid msg_wts load_ts e).2. split_and!; try done.
  - apply lookup_iff; [done..|]. apply lookup_iff in He as (i & Hi & ? & ?); [|done..].
    exists i. split_and!; [|congruence..]. by rewrite Hshape, Hway, Hi.
  - unfold lease_ends, expire_entry. by intros ->.
  - apply expire_marks.
Qed.
End cache.
#[global] Arguments CacheMemory P D : clear implicits.

(** ** A concrete cache *)
(** A two-way L1 with four sets and true LRU, of the small GPU of Config. *)
#[local] Instance unit_default : Default unit := tt.

Definition L1 : CacheMemory LastRef unit :=
  CacheMemory_new default_config true false L1Cache 2 2 (LastRef_new 4 2).

Lemma L1_inv : cache_inv default_config L1.
Proof.
  apply CacheMemory_new_inv; try (by vm_compute) || (vm_compute; split; congruence).
  - by left.
  - apply (LastRef_new_ok 4 2); vm_compute; congruence.
Qed.

(** Two blocks of the same set. *)
Definition L1_one : CacheMemory LastRef unit :=
  from_option id L1 (allocate default_config true false L1 0x200 5).
Definition L1_full : CacheMemory LastRef unit :=
  from_option id L1 (allocate default_config true false L1_one 0x400 6).

Lemma line_ok_L1 a : a ∈ [0x200; 0x400; 0x600] -> line_ok default_config a.
Proof.
  intros Ha. repeat (apply elem_of_cons in Ha as [->|Ha]; [split; [split; vm_compute; congruence|by vm_compute]|]).
  by apply not_elem_of_nil in Ha.
Qed.

Lemma L1_one_inv : cache_inv default_config L1_one.
Proof.
  apply (allocate_inv default_config true false L1 0x200 5); [exact L1_inv| |by vm_compute].
  apply line_ok_L1. set_solver.
Qed.

Lemma L1_full_inv : cache_inv default_config L1_full.
Proof.
  apply (allocate_inv default_config true false L1_one 0x400 6); [exact L1_one_inv| |by vm_compute].
  apply line_ok_L1. set_solver.
Qed.

Lemma allocate_correct_witness :
  exists c', allocate default_config true false L1_one 0x400 6 = Some c' /\
    cache_inv default_config c' /\ isTagPresent default_config c' 0x400 = Some true /\
    getPermission default_config c' 0x400 = Some Invalid /\
    getRts default_config c' 0x400 = Some 0 /\ getWts default_config c' 0x400 = Some 0 /\
    forall b, line_ok default_config b -> b <> 0x400 ->
      lookup default_config c' b = lookup default_config L1_one b.
Proof.
  apply (allocate_correct default_config true false L1_one 0x400 6 L1_one_inv);
    [apply line_ok_L1; set_solver|vm_compute; reflexivity..].
Defined.

Lemma deallocate_correct_witness :
  exists c', deallocate default_config L1_full 0x200 = Some c' /\ cache_inv default_config c' /\
    isTagPresent default_config c' 0x200 = Some false /\
    (forall b, line_ok default_config b -> b <> 0x200 ->
       lookup default_config c' b = lookup default_config L1_full b) /\
    (forall b, line_ok default_config b ->
       set_index default_config L1_full b = set_index default_config L1_full 0x200 ->
       cacheAvail default_config c' b = Some true).
Proof.
  apply (deallocate_correct default_config L1_full 0x200 L1_full_inv);
    [apply line_ok_L1; set_solver|vm_compute; reflexivity].
Defined.

Lemma cacheProbe_correct_witness :
  exists v, cacheProbe default_config L1_full 0x600 = Some v /\ line_ok default_config v /\
    isTagPresent default_config L1_full v = Some true /\ v <> 0x600 /\
    set_index default_config L1_full v = set_index default_config L1_full 0x600.
Proof.
  apply (cacheProbe_correct default_config L1_full 0x600 L1_full_inv);
    [apply line_ok_L1; set_solver|vm_compute; reflexivity].
Defined.

Lemma lease_roundtrip_witness :
  exists c1 c2, setRts default_config L1_full 0x200 12 = Some c1 /\
    setWts default_config c1 0x200 3 = Some c2 /\ cache_inv default_config c2 /\
    getRts default_config c1 0x200 = Some 12 /\
    getWts default_config c1 0x200 = getWts default_config L1_full 0x200 /\
    getRts default_config c2 0x200 = Some 12 /\ getWts default_config c2 0x200 = Some 3 /\
    getPermission default_config c2 0x200 = getPermission default_config L1_full 0x200 /\
    forall b, line_ok default_config b -> b <> 0x200 ->
      lookup default_config c2 b = lookup default_config L1_full b.
Proof.
  apply (lease_roundtrip default_config L1_full 0x200 12 3 L1_full_inv);
    [apply line_ok_L1; set_solver|vm_compute; reflexivity].
Defined.

Definition L1_leased1 : CacheMemory LastRef unit :=
  from_option id L1 (setRts default_config L1_full 0x200 12).
Definition L1_leased : CacheMemory LastRef unit :=
  from_option id L1 (insertCtaWarpID default_config L1_leased1 0x200 1 7).

Lemma L1_leased_inv : cache_inv default_config L1_leased.
Proof.
  assert (Ha : line_ok default_config 0x200) by (apply line_ok_L1; set_solver).
  apply (insertCtaWarpID_inv default_config L1_leased1 0x200 1 7); [|exact Ha|by vm_compute].
  apply (setRts_inv default_config L1_full 0x200 12); [exact L1_full_inv|exact Ha|by vm_compute].
Qed.

Lemma setExpired_correct_witness :
  exists e', lookup default_config (setExpired L1_leased 1 7 15 10).2 0x200 = Some e' /\
    expired_by_own_warp e' = true.
Proof.
  assert (Ha : line_ok default_config 0x200) by (apply line_ok_L1; set_solver).
  destruct (lookup default_config L1_leased 0x200) as [e|] eqn:He; [|by vm_compute in He].
  destruct (setExpired_correct default_config L1_leased 1 7 15 10
              (setExpired L1_leased 1 7 15 10).1 (setExpired L1_leased 1 7 15 10).2 0x200 e
              L1_leased_inv Ha (surjective_pairing (setExpired L1_leased 1 7 15 10)) He) as [_ Hm].
  vm_compute in He. injection He as <-.
  destruct Hm as (e' & Hl & _ & _ & _ & _ & _ & Hm).
  exists e'. split; [exact Hl|]. apply Hm; reflexivity.
Defined.
