(* ===== verification/Tables.v ===== *)
(** Tables indexed by block address: the transaction buffers of
    [system/TBETable.h], the timers of [system/TimerTable.C] and the
    unbounded cache of [system/PerfectCacheMemory.h], all on the hash map of
    [common/Map.h]. *)
From S2P Require Import Prelude Vector PrioHeap EventQueue Config Address DataBlock Replacement CacheMemory.

(** ** Maps *)
Section map.
Context {V : Type}.
Implicit Types (m : gmap Z V) (key : Z) (value : V).

Definition map_add m key value : gmap Z V := <[key := value]> m.
Definition map_exist m key : bool := bool_decide (is_Some (m !! key)).
Definition map_size m : Z := Z.of_nat (base.size m).
Definition map_erase m key : option (gmap Z V) := assert! map_exist m key; Some (delete key m).
(** [lookup], and an assignment through the reference it returns. *)
Definition map_lookup m key : option V := assert! map_exist m key; m !! key.
Definition map_update m key (f : V -> V) : option (gmap Z V) :=
  assert! map_exist m key; Some (alter f key m).

Lemma map_exist_true m key : map_exist m key = true <-> is_Some (m !! key).
Proof. apply bool_decide_eq_true. Qed.
Lemma map_exist_false m key : map_exist m key = false <-> m !! key = None.
Proof. unfold map_exist. rewrite bool_decide_eq_false. symmetry. apply eq_None_not_Some. Qed.
Lemma map_lookup_eq m key : map_lookup m key = m !! key.
Proof. unfold map_lookup, map_exist. case_bool_decide as E; [done|]. by apply eq_None_not_Some in E. Qed.
Lemma map_size_pos m : (map_size m =? 0) = bool_decide (m = ∅).
Proof.
  unfold map_size. case_bool_decide as E; [subst; by rewrite map_size_empty|].
  apply Z.eqb_neq. intros H. apply E, map_size_empty_inv. lia.
Qed.
End map.

(** ** Transaction buffer entries *)
Section tbe.
(** [ENTRY()] is the default value. *)
Context {E : Type} `{Default E}.
Variables (g : Globals) (NUMBER_OF_TBES : Z).
Abbreviation TBETable := (gmap Z E).
Implicit Types (t : TBETable) (a : Z).

Definition TBE_isPresent t a : option bool :=
  assert! is_line g a;
  assert! map_size t <=? NUMBER_OF_TBES;
  Some (map_exist t a).

Definition TBE_allocate t a : option TBETable :=
  b ← TBE_isPresent t a;
  assert! negb (b : bool);
  assert! map_size t <? NUMBER_OF_TBES;
  Some (map_add t a default).

Definition TBE_deallocate t a : option TBETable :=
  b ← TBE_isPresent t a;
  assert! (b : bool);
  assert! 0 <? map_size t;
  map_erase t a.

Definition TBE_lookup t a : option E :=
  b ← TBE_isPresent t a; assert! (b : bool); map_lookup t a.

(** An assignment to a field of [lookup(address)]. *)
Definition TBE_update t a (f : E -> E) : option TBETable :=
  b ← TBE_isPresent t a; assert! (b : bool); map_update t a f.

Definition TBE_areNSlotsAvailable t (n : Z) : bool := n <=? NUMBER_OF_TBES - map_size t.

Fixpoint allocate_all t (l : list Z) : option TBETable :=
  match l with [] => Some t | a :: l => t ← TBE_allocate t a; allocate_all t l end.

Definition tbe_ok t : Prop :=
  map_size t <= NUMBER_OF_TBES /\ forall a, is_Some (t !! a) -> is_line g a = true.

Lemma TBE_isPresent_spec t a :
  tbe_ok t -> is_line g a = true -> TBE_isPresent t a = Some (map_exist t a).
Proof using Type.
  intros [Hs _] Ha. unfold TBE_isPresent. rewrite Ha. by destruct (Z.leb_spec (map_size t) NUMBER_OF_TBES); [|lia].
Qed.

Lemma TBE_lookup_spec t a : tbe_ok t -> is_line g a = true -> TBE_lookup t a = t !! a.
Proof using Type.
  intros Ht Ha. unfold TBE_lookup. rewrite TBE_isPresent_spec by done. simpl.
  rewrite map_lookup_eq. destruct (map_exist t a) eqn:Ex; [done|].
  by apply map_exist_false in Ex.
Qed.

Lemma TBE_allocate_spec t a :
  tbe_ok t -> is_line g a = true -> t !! a = None -> map_size t < NUMBER_OF_TBES ->
  TBE_allocate t a = Some (<[a := default]> t) /\ tbe_ok (<[a := default]> t).
Proof using Type.
  intros Ht Ha Hn Hs. unfold TBE_allocate. rewrite TBE_isPresent_spec by done. simpl.
  apply map_exist_false in Hn as Hx. rewrite Hx. simpl.
  destruct (Z.ltb_spec (map_size t) NUMBER_OF_TBES); [|lia]. split; [done|]. split.
  - unfold map_size in *. rewrite map_size_insert_None by done. lia.
  - intros b. rewrite lookup_insert_is_Some'. intros [->|Hb]; [done|]. by apply Ht.
Qed.

Lemma TBE_deallocate_spec t a :
  tbe_ok t -> is_Some (t !! a) ->
  TBE_deallocate t a = Some (delete a t) /\ tbe_ok (delete a t).
Proof using Type.
  intros Ht Hx. assert (Ha : is_line g a = true) by (by apply Ht).
  unfold TBE_deallocate, map_erase. rewrite TBE_isPresent_spec by done. simpl.
  apply map_exist_true in Hx as Hx'. rewrite Hx'.
  assert (Hp : map_size t <> 0).
  { apply Z.eqb_neq. rewrite map_size_pos. apply bool_decide_eq_false. intros ->. by destruct Hx. }
  assert (0 <= map_size t) by (unfold map_size; lia).
  destruct (Z.ltb_spec 0 (map_size t)); [|lia]. split; [done|]. destruct Ht as [Hs Hl]. split.
  - unfold map_size in *. destruct Hx as [e He]. rewrite map_size_delete, He. lia.
  - intros b. rewrite lookup_delete_is_Some. intros [_ Hb]. by apply Hl.
Qed.

Lemma TBE_update_spec t a f :
  tbe_ok t -> is_Some (t !! a) ->
  TBE_update t a f = Some (alter f a t) /\ tbe_ok (alter f a t).
Proof using Type.
  intros Ht Hx. assert (Ha : is_line g a = true) by (by apply Ht).
  unfold TBE_update, map_update. rewrite TBE_isPresent_spec by done. simpl.
  apply map_exist_true in Hx. rewrite Hx. split; [done|]. destruct Ht as [Hs Hl]. split.
  - unfold map_size in *. rewrite <-size_dom, dom_alter_L, size_dom. done.
  - intros b Hb. apply Hl. rewrite lookup_alter in Hb. case_decide; [subst|done].
    by apply fmap_is_Some in Hb.
Qed.

(** A positive answer of [areNSlotsAvailable] can be relied on: that many
    new blocks can be given a transaction buffer one after the other without
    a failed assertion, each with a fresh entry, and no other entry changes. *)
Theorem TBE_slots_safe t l :
  tbe_ok t -> NoDup l -> Forall (fun a => is_line g a = true /\ t !! a = None) l ->
  TBE_areNSlotsAvailable t (Z.of_nat (length l)) = true ->
  exists t', allocate_all t l = Some t' /\ tbe_ok t' /\
    (forall a, a ∈ l -> TBE_lookup t' a = Some default) /\
    (forall a, is_line g a = true -> a ∉ l -> TBE_lookup t' a = TBE_lookup t a).
Proof using Type.
  unfold TBE_areNSlotsAvailable. rewrite Z.leb_le. revert t.
  induction l as [|a l IH]; intros t Ht Hnd Hl Hn; simpl.
  { exists t. do 2 (split; [done|]). split; [|done]. intros a Ha. by apply elem_of_nil in Ha. }
  apply Forall_cons in Hl as [[Ha Hta] Hl]. apply NoDup_cons in Hnd as [Hal Hnd].
  cbn [length] in Hn. assert (0 <= map_size t) by (unfold map_size; lia).
  destruct (TBE_allocate_spec t a Ht Ha Hta) as [-> Ht1]; [lia|]. simpl.
  destruct (IH (<[a:=default]> t)) as (t' & Et & Ht' & Hin & Hout); [done|done| | |].
  - apply Forall_forall. intros b Hb. pose proof (proj1 (Forall_forall _ _) Hl b Hb) as [? ?].
    split; [done|]. rewrite lookup_insert_ne; [done|]. by intros ->.
  - unfold map_size in *. rewrite map_size_insert_None by done. lia.
  - exists t'. do 2 (split; [done|]). split.
    + intros b [->|Hb]%elem_of_cons; [|by apply Hin].
      rewrite Hout by done. rewrite TBE_lookup_spec by done. by rewrite lookup_insert_eq.
    + intros b Hb Hbl. apply not_elem_of_cons in Hbl as [Hba Hbl].
      rewrite Hout by done. rewrite !TBE_lookup_spec by done. by rewrite lookup_insert_ne.
Qed.
End tbe.

(** ** Timers *)
Section timers.
(** [keys]: the keys of a hash map, in its own order. *)
Context {R : Type}.
Variables (g : Globals) (keys : gmap Z Z -> list Z).

Record TimerTable := mkTimers {
  t_map : gmap Z Z;
  m_next_valid : bool;
  m_next_time : Z;
  m_next_address : Z;
  t_consumer_ptr : option nat;
}.
Implicit Types (t : TimerTable) (a : Z) (w : World R).

Definition TimerTable_new : TimerTable := mkTimers ∅ false 0 0 None.
Definition Timer_setConsumer t (c : nat) : option TimerTable :=
  assert! negb (bool_decide (is_Some (t_consumer_ptr t)));
  Some (mkTimers (t_map t) (m_next_valid t) (m_next_time t) (m_next_address t) (Some c)).

Definition set_next t valid time a : TimerTable := mkTimers (t_map t) valid time a (t_consumer_ptr t).

(** The search for the minimum time. *)
Fixpoint min_timer (m : gmap Z Z) (l : list Z) (time a : Z) : option (Z * Z) :=
  match l with
  | [] => Some (time, a)
  | b :: l =>
      maybe ← map_lookup m b;
      if maybe <? time then min_timer m l maybe b else min_timer m l time a
  end.

Definition updateNext t : option TimerTable :=
  if map_size (t_map t) =? 0 then assert! negb (m_next_valid t); Some t
  else
    match keys (t_map t) with
    | [] => None
    | a :: l =>
        time ← map_lookup (t_map t) a;
        '(time, a) ← min_timer (t_map t) l time a;
        Some (set_next t true time a)
    end.

(** The queries may recompute the cached minimum. *)
Definition Timer_isReady w t : option (bool * TimerTable) :=
  if map_size (t_map t) =? 0 then Some (false, t)
  else
    t ← (if m_next_valid t then Some t else updateNext t);
    assert! m_next_valid t;
    Some (m_next_time t <=? getTime w, t).

Definition readyAddress w t : option (Z * TimerTable) :=
  '(b, t) ← Timer_isReady w t;
  assert! (b : bool);
  t ← (if m_next_valid t then Some t else updateNext t);
  assert! m_next_valid t;
  Some (m_next_address t, t).

Definition Timer_isSet t a : bool := map_exist (t_map t) a.

Definition Timer_set w t a (relative_latency : Z) : option (World R * TimerTable) :=
  assert! is_line g a;
  assert! 0 <? relative_latency;
  assert! negb (map_exist (t_map t) a);
  let ready_time := getTime w + relative_latency in
  c ← t_consumer_ptr t;
  w ← scheduleEventAbsolute w (Some c) ready_time;
  Some (w, mkTimers (map_add (t_map t) a ready_time) false (m_next_time t) (m_next_address t)
             (t_consumer_ptr t)).

Definition Timer_unset t a : option TimerTable :=
  assert! is_line g a;
  assert! map_exist (t_map t) a;
  m ← map_erase (t_map t) a;
  Some (mkTimers m (if a =? m_next_address t then false else m_next_valid t) (m_next_time t)
          (m_next_address t) (t_consumer_ptr t)).

(** [a] is a timer that goes off first, at [time]. *)
Definition earliest (m : gmap Z Z) (time a : Z) : Prop :=
  m !! a = Some time /\ forall b u, m !! b = Some u -> time <= u.

(** The cached minimum, when it is valid, is right. *)
Definition timers_ok t : Prop :=
  m_next_valid t = true -> earliest (t_map t) (m_next_time t) (m_next_address t).

(** A hash map enumerates its keys once each. *)
Hypothesis keys_perm : forall m, keys m ≡ₚ (map_to_list m).*1.

Lemma elem_of_keys m a : a ∈ keys m <-> is_Some (m !! a).
Proof using keys_perm.
  rewrite keys_perm, list_elem_of_fmap. split.
  - intros ([b t] & -> & Hin%elem_of_map_to_list). by exists t.
  - intros [t Ht]. exists (a, t). split; [done|]. by apply elem_of_map_to_list.
Qed.

Lemma min_timer_spec m l time a :
  m !! a = Some time -> (forall b, b ∈ l -> is_Some (m !! b)) ->
  exists time' a', min_timer m l time a = Some (time', a') /\ m !! a' = Some time' /\ time' <= time /\
    forall b u, b ∈ l -> m !! b = Some u -> time' <= u.
Proof using Type.
  revert time a. induction l as [|b l IH]; intros time a Ha Hl; simpl.
  { exists time, a. split_and!; [done..|lia|]. intros b u Hb. by apply elem_of_nil in Hb. }
  destruct (Hl b) as [tb Hb]; [by left|]. rewrite map_lookup_eq, Hb; simpl.
  assert (Hl' : forall c, c ∈ l -> is_Some (m !! c)) by (intros c Hc; apply Hl; by right).
  destruct (Z.ltb_spec tb time).
  - destruct (IH tb b Hb Hl') as (t' & a' & -> & ? & ? & Hmin). exists t', a'.
    split_and!; [done..|lia|]. intros c u [->|Hc]%elem_of_cons Ht; [|eauto].
    rewrite Hb in Ht. injection Ht as <-. lia.
  - destruct (IH time a Ha Hl') as (t' & a' & -> & ? & ? & Hmin). exists t', a'.
    split_and!; [done..|]. intros c u [->|Hc]%elem_of_cons Ht; [|eauto].
    rewrite Hb in Ht. injection Ht as <-. lia.
Qed.

(** With a timer running, the minimum is available. *)
Lemma refresh_spec t :
  timers_ok t -> t_map t <> ∅ ->
  exists t', (if m_next_valid t then Some t else updateNext t) = Some t' /\
    t_map t' = t_map t /\ t_consumer_ptr t' = t_consumer_ptr t /\
    m_next_valid t' = true /\ timers_ok t'.
Proof using keys_perm.
  intros Ht Hne. destruct (m_next_valid t) eqn:Hv; [by exists t|].
  unfold updateNext. rewrite map_size_pos, bool_decide_eq_false_2 by done.
  destruct (keys (t_map t)) as [|a l] eqn:Hk.
  { exfalso. apply map_choose in Hne as (b & tb & Hb).
    assert (Hin : b ∈ keys (t_map t)) by (apply elem_of_keys; by eexists).
    rewrite Hk in Hin. by apply elem_of_nil in Hin. }
  assert (Hmem : forall b, b ∈ a :: l <-> is_Some (t_map t !! b)) by (intros b; by rewrite <-Hk, elem_of_keys).
  destruct (proj1 (Hmem a)) as [ta Ha]; [by left|]. rewrite map_lookup_eq, Ha; simpl.
  destruct (min_timer_spec (t_map t) l ta a Ha) as (t' & a' & -> & Ha' & Hle & Hmin).
  { intros b Hb. apply Hmem. by right. }
  simpl. eexists; split_and!; [done..|]. intros _. split; [done|]. simpl. intros b tb Hb.
  assert (Hbm : b ∈ a :: l) by (apply Hmem; by eexists).
  apply elem_of_cons in Hbm as [->|Hbl]; [|by eapply Hmin].
  rewrite Ha in Hb. injection Hb as <-. done.
Qed.

(** a timer table is correct: [isReady] says whether some timer has gone
    off, [readyAddress] then names one that went off first, setting and
    unsetting change exactly one timer, and the cached minimum the queries
    rely on stays right. *)
Theorem TimerTable_correct w t :
  timers_ok t ->
  (exists b t', Timer_isReady w t = Some (b, t') /\ t_map t' = t_map t /\ timers_ok t' /\
     (b = true <-> exists a time, t_map t !! a = Some time /\ time <= getTime w)) /\
  (forall a time, t_map t !! a = Some time -> time <= getTime w ->
     exists a' time' t', readyAddress w t = Some (a', t') /\ t_map t' = t_map t /\ timers_ok t' /\
      earliest (t_map t) time' a' /\ time' <= getTime w) /\
  (forall a latency w' t', Timer_set w t a latency = Some (w', t') ->
     t_map t !! a = None /\ t_map t' = <[a := getTime w + latency]> (t_map t) /\ timers_ok t') /\
  (forall a t', Timer_unset t a = Some t' ->
     is_Some (t_map t !! a) /\ t_map t' = delete a (t_map t) /\ timers_ok t').
Proof using keys_perm.
  intros Ht. split_and!.
  - unfold Timer_isReady. rewrite map_size_pos. case_bool_decide as He.
    { exists false, t. split_and!; [done..|]. rewrite He. setoid_rewrite lookup_empty. naive_solver. }
    destruct (refresh_spec t Ht He) as (t' & -> & Hm & _ & Hv & Ht'); simpl. rewrite Hv.
    eexists _, t'. split_and!; [done..|]. rewrite Z.leb_le, <-Hm. destruct (Ht' Hv) as [Hf Hmin].
    split; [by eauto|]. intros (a & ta & Ha & Hle). specialize (Hmin a ta Ha). lia.
  - intros a ta Ha Hle. assert (He : t_map t <> ∅) by (intros E; by rewrite E in Ha).
    unfold readyAddress, Timer_isReady. rewrite map_size_pos, bool_decide_eq_false_2 by done.
    destruct (refresh_spec t Ht He) as (t' & -> & Hm & _ & Hv & Ht'); simpl. rewrite Hv; simpl.
    destruct (Ht' Hv) as [Hf Hmin]. rewrite Hm in Hf, Hmin. specialize (Hmin a ta Ha) as Hmin'.
    destruct (Z.leb_spec (m_next_time t') (getTime w)); [|lia]. rewrite Hv; simpl. rewrite Hv.
    by exists (m_next_address t'), (m_next_time t'), t'.
  - intros a d w' t' E. unfold Timer_set in E. run E. subst.
    split; [apply map_exist_false; by apply negb_true_iff|]. done.
  - intros a t' E. unfold Timer_unset in E. run E. unfold map_erase in *. run E0. subst.
    split; [by apply map_exist_true|]. split; [done|]. intros Hv. simpl in Hv.
    destruct (Z.eqb_spec a (m_next_address t)); [done|]. destruct (Ht Hv) as [Hf Hmin].
    split; simpl; [by rewrite lookup_delete_ne|]. intros b tb [_ Hb]%lookup_delete_Some. by eapply Hmin.
Qed.
End timers.

(** ** The unbounded cache *)
Section perfect.
Context {E : Type} `{Default E}.
Variable g : Globals.

Record PerfectCacheLineState := mkPerfect { p_permission : AccessPermission; p_entry : E }.
(** [m_map]. *)
Abbreviation PerfectCacheMemory := (gmap Z PerfectCacheLineState).
Implicit Types (c : PerfectCacheMemory) (a : Z).

Definition Perfect_isTagPresent c a : option bool := l ← line_address g a; Some (map_exist c l).
Definition Perfect_cacheAvail c a : bool := true.
Definition Perfect_allocate c a : option PerfectCacheMemory :=
  l ← line_address g a; Some (map_add c l (mkPerfect Busy default)).
Definition Perfect_deallocate c a : option PerfectCacheMemory := l ← line_address g a; map_erase c l.
Definition Perfect_lookup c a : option E :=
  l ← line_address g a; s ← map_lookup c l; Some (p_entry s).
Definition Perfect_getPermission c a : option AccessPermission :=
  l ← line_address g a; s ← map_lookup c l; Some (p_permission s).
Definition Perfect_changePermission c a (new_perm : AccessPermission) : option PerfectCacheMemory :=
  l ← line_address g a; map_update c l (fun s => mkPerfect new_perm (p_entry s)).
End perfect.

(** ** Concrete tables *)
#[local] Instance Z_default : Default Z := 0.

Lemma TBE_slots_safe_witness :
  exists t', allocate_all default_config 4 {[0x80 := 1]} [0x100; 0x180] = Some t' /\
   tbe_ok default_config 4 t' /\
   (forall a, a ∈ [0x100; 0x180] -> TBE_lookup default_config 4 t' a = Some 0) /\
   (forall a, is_line default_config a = true -> a ∉ [0x100; 0x180] ->
       TBE_lookup default_config 4 t' a = TBE_lookup default_config 4 {[0x80 := 1]} a).
Proof.
  apply (TBE_slots_safe default_config 4 {[0x80 := 1]} [0x100; 0x180]).
  - split; [by vm_compute|]. intros a [x [<- <-]%lookup_singleton_Some]. by vm_compute.
  - apply (bool_decide_unpack _). by vm_compute.
  - repeat constructor.
  - reflexivity.
Defined.

Definition timers1 : TimerTable :=
  mkTimers (<[0x100 := 5]> {[0x80 := 9]}) false 0 0 (Some 0%nat).

Lemma TimerTable_correct_witness :
  exists a' time' t',
    readyAddress (fun m => (map_to_list m).*1) (set_time idle_world 7) timers1 = Some (a', t') /\
   t_map t' = t_map timers1 /\ timers_ok t' /\ earliest (t_map timers1) time' a' /\ time' <= 7.
Proof.
  destruct (TimerTable_correct default_config (fun m => (map_to_list m).*1)
              (fun m => reflexivity _) (set_time idle_world 7) timers1) as (_ & Hr & _).
  - intros Hv. discriminate Hv.
  - apply (Hr 0x100 5); [reflexivity|vm_compute; congruence].
Defined.
