(* ===== verification/Requests.v ===== *)
(** Bookkeeping of outstanding requests: the queues of
    [common/AddrQueueMap.h], [system/RequestCwidMap.C] and
    [system/StoreQueueMap.C], the [RequestRecorder.C] log, the tables of
    [GlobalWriteVector.C], [MemfetchSet.C] and [CtaWarpAddrMap.C], and the time
    functions protocols use ([slicc_interface/RubySlicc_Util.h]). *)
From S2P Require Import Prelude Vector Config Address.

(** ** Time *)
(** [Time] is a signed 64-bit integer; an overflow of its sums is undefined. *)
Definition in_int64 (z : Z) : bool := (- 2 ^ 63 <=? z) && (z <? 2 ^ 63).
Definition checked (z : Z) : option Z := assert! in_int64 z; Some z.

Definition zero_time : Z := 0.
Definition long_enough_ago (now event : Z) : option bool := d ← checked (now - event); Some (200 <? d).
Definition getAddThenMod (addend1 addend2 modulus : Z) : option Z :=
  assert! negb (modulus =? 0); Some (Z.rem (s32 (addend1 + addend2)) modulus).
Definition getTimeModInt (time modulus : Z) : option Z :=
  assert! negb (modulus =? 0); Some (Z.rem time modulus).
Definition getTimePlusInt (addend1 addend2 : Z) : option Z := checked (addend1 + addend2).
Definition getTimePlusTime (addend1 addend2 : Z) : option Z := checked (addend1 + addend2).
Definition getTimeMinusTime (t1 t2 : Z) : option Z := assert! t2 <=? t1; checked (t1 - t2).
Definition getPreviousDelayedCycles (RANDOMIZATION : bool) (t1 t2 : Z) : option Z :=
  if RANDOMIZATION then Some 0 else getTimeMinusTime t1 t2.
Definition getTimeMin (t1 t2 : Z) : Z := if t1 <? t2 then t1 else t2.
Definition getTimeMax (t1 t2 : Z) : Z := if t2 <? t1 then t1 else t2.
Definition getIntMax (i1 i2 : Z) : Z := if i2 <? i1 then i1 else i2.
Definition time_to_int (time : Z) : Z := time.
Definition int_to_time (time : Z) : Z := time.

Lemma getTimeMax_max a b : getTimeMax a b = Z.max a b.
Proof. unfold getTimeMax. destruct (Z.ltb_spec b a); lia. Qed.
Lemma getIntMax_max a b : getIntMax a b = Z.max a b.
Proof. unfold getIntMax. destruct (Z.ltb_spec b a); lia. Qed.
Lemma getTimeMin_min a b : getTimeMin a b = Z.min a b.
Proof. unfold getTimeMin. destruct (Z.ltb_spec a b); lia. Qed.
Lemma checked_Some z r : checked z = Some r <-> r = z /\ - 2 ^ 63 <= z < 2 ^ 63.
Proof.
  unfold checked, in_int64. destruct (Z.leb_spec (- 2 ^ 63) z), (Z.ltb_spec z (2 ^ 63)); simpl;
    split; try done; try (intros [= <-]; lia); intros [-> ?]; try lia; done.
Qed.
Create Rewrite HintDb times.
#[export] Hint Rewrite getTimeMax_max getIntMax_max getTimeMin_min : times.

(** Conversions between addresses and integers. *)
Definition RealAddressToInt (addr : Z) : Z := s32 addr.
Definition addressToInt (g : Globals) (addr : Z) : option Z := l ← line_address g addr; Some (s32 l).
Definition intToAddress (addr : Z) : Z := u64 addr.

(** ** Queues by address *)
Section queues.
Context {V : Type}.
(** [std::map<Address, std::queue<V>>]; [m[addr]] of an absent address is an
    empty queue. *)
Abbreviation QueueMap := (gmap Z (list V)).
Implicit Types (m : QueueMap) (a : Z) (x : V).

Definition queue m a : list V := from_option id [] (m !! a).
Definition queue_push m a x : QueueMap := <[a := queue m a ++ [x]]> m.
Definition queue_front m a : option V := head (queue m a).
(** [pop], then [erase] if the queue is empty. *)
Definition queue_pop m a : option QueueMap :=
  match queue m a with
  | [] => None
  | _ :: [] => Some (delete a m)
  | _ :: q => Some (<[a := q]> m)
  end.
End queues.

(** [AddrQueueMap]. *)
Abbreviation AddrQueueMap := (gmap Z (list Z)).
Definition AddrQueue_push (m : AddrQueueMap) (addr id : Z) : AddrQueueMap := queue_push m addr id.
Definition AddrQueue_pop (m : AddrQueueMap) (addr : Z) : option (Z * AddrQueueMap) :=
  assert! bool_decide (is_Some (m !! addr));
  assert! negb (bool_decide (queue m addr = []));
  result ← queue_front m addr;
  m ← queue_pop m addr;
  Some (result, m).

(** [RequestCwidMap]: pairs of a thread block and a warp. *)
Abbreviation RequestCwidMap := (gmap Z (list (Z * Z))).
Definition Cwid_push (m : RequestCwidMap) (addr cta_id wid : Z) : RequestCwidMap :=
  queue_push m addr (cta_id, wid).
Definition returnTopCtaID (m : RequestCwidMap) (addr : Z) : option Z :=
  assert! negb (bool_decide (queue m addr = [])); x ← queue_front m addr; Some x.1.
Definition returnTopWarpID (m : RequestCwidMap) (addr : Z) : option Z :=
  assert! negb (bool_decide (queue m addr = [])); x ← queue_front m addr; Some x.2.
Definition Cwid_pop (m : RequestCwidMap) (addr : Z) : option RequestCwidMap :=
  assert! negb (bool_decide (queue m addr = [])); queue_pop m addr.

(** [StoreQueueMap]: lines of data. *)
Abbreviation StoreQueueMap := (gmap Z (list (list Z))).
Definition StoreQueue_add (m : StoreQueueMap) (addr : Z) (Datablk : list Z) : StoreQueueMap :=
  queue_push m addr Datablk.
Definition StoreQueue_discard (m : StoreQueueMap) (addr : Z) : option StoreQueueMap :=
  assert! bool_decide (is_Some (m !! addr)); queue_pop m addr.
Definition return_queue_top (m : StoreQueueMap) (addr : Z) : option (list Z * StoreQueueMap) :=
  assert! bool_decide (is_Some (m !! addr));
  d ← queue_front m addr;
  m ← StoreQueue_discard m addr;
  Some (d, m).

(** ** The contract of the queues *)
Section queue_spec.
Context {V : Type}.
Implicit Types (m : gmap Z (list V)) (a : Z) (x : V).

(** No empty queue is kept. *)
Definition queues_ok m : Prop := forall a, m !! a <> Some [].

Lemma queues_ok_empty : queues_ok ∅.
Proof. intros a. by rewrite lookup_empty. Qed.

Lemma queue_in m a : queues_ok m -> is_Some (m !! a) <-> queue m a <> [].
Proof.
  intros Hm. unfold queue. specialize (Hm a). destruct (m !! a) as [q|]; simpl.
  - split; [|by eexists]. intros _ ->. done.
  - split; [by intros [? ?]|done].
Qed.

Lemma queue_push_spec m a x :
  queues_ok m -> queues_ok (queue_push m a x) /\
    forall b, queue (queue_push m a x) b = if decide (b = a) then queue m a ++ [x] else queue m b.
Proof.
  intros Hm. split.
  - intros b. unfold queue_push. rewrite lookup_insert. case_decide; [|apply Hm].
    intros [= E]. by apply app_nil in E as [_ ?].
  - intros b. unfold queue_push. unfold queue at 1. rewrite lookup_insert.
    case_decide; case_decide; subst; done.
Qed.

Lemma queue_pop_spec m a x q :
  queues_ok m -> queue m a = x :: q ->
  exists m', queue_pop m a = Some m' /\ queues_ok m' /\
    forall b, queue m' b = if decide (b = a) then q else queue m b.
Proof.
  intros Hm Hq. unfold queue_pop. rewrite Hq. destruct q as [|y q].
  - exists (delete a m). split_and!; [done| |].
    + intros b. rewrite lookup_delete. case_decide; [done|apply Hm].
    + intros b. unfold queue at 1. rewrite lookup_delete. case_decide; case_decide; subst; done.
  - exists (<[a := y :: q]> m). split_and!; [done| |].
    + intros b. rewrite lookup_insert. case_decide; [done|apply Hm].
    + intros b. unfold queue at 1. rewrite lookup_insert. case_decide; case_decide; subst; done.
Qed.
End queue_spec.

Lemma AddrQueue_pop_spec m a x q :
  queues_ok m -> queue m a = x :: q ->
  exists m', AddrQueue_pop m a = Some (x, m') /\ queues_ok m' /\
    forall b, queue m' b = if decide (b = a) then q else queue m b.
Proof.
  intros Hm Hq. destruct (queue_pop_spec m a x q Hm Hq) as (m' & E & ? & ?).
  exists m'. unfold AddrQueue_pop, queue_front.
  rewrite bool_decide_eq_true_2 by (apply queue_in; [done|by rewrite Hq]).
  rewrite bool_decide_eq_false_2 by (by rewrite Hq). rewrite Hq; simpl. by rewrite E.
Qed.

Lemma Cwid_pop_spec m a x q :
  queues_ok m -> queue m a = x :: q ->
  exists m', Cwid_pop m a = Some m' /\ returnTopCtaID m a = Some x.1 /\
    returnTopWarpID m a = Some x.2 /\ queues_ok m' /\
    forall b, queue m' b = if decide (b = a) then q else queue m b.
Proof.
  intros Hm Hq. destruct (queue_pop_spec m a x q Hm Hq) as (m' & E & ? & ?).
  exists m'. unfold Cwid_pop, returnTopCtaID, returnTopWarpID, queue_front.
  rewrite bool_decide_eq_false_2 by (by rewrite Hq). rewrite Hq; simpl. by rewrite E.
Qed.

(** The three request queues are one FIFO per address: what is pushed
    comes back in order (the first of [queue ++ [x]]), operations on one address leave
    the others alone, popping an empty queue fails an assertion, and no empty
    queue is ever kept. *)
Theorem request_queues_fifo (m : AddrQueueMap) (c : RequestCwidMap) (s : StoreQueueMap) a :
  queues_ok m -> queues_ok c -> queues_ok s ->
  (forall id, queue (AddrQueue_push m a id) a = queue m a ++ [id] /\ queues_ok (AddrQueue_push m a id) /\
     forall b, b <> a -> queue (AddrQueue_push m a id) b = queue m b) /\
  match queue m a with
  | [] => AddrQueue_pop m a = None
  | id :: q => exists m', AddrQueue_pop m a = Some (id, m') /\ queues_ok m' /\ queue m' a = q /\
                 forall b, b <> a -> queue m' b = queue m b
  end /\
  match queue c a with
  | [] => returnTopCtaID c a = None /\ returnTopWarpID c a = None /\ Cwid_pop c a = None
  | (cta, wid) :: q => returnTopCtaID c a = Some cta /\ returnTopWarpID c a = Some wid /\
      exists c', Cwid_pop c a = Some c' /\ queues_ok c' /\ queue c' a = q /\
                 forall b, b <> a -> queue c' b = queue c b
  end /\
  match queue s a with
  | [] => return_queue_top s a = None
  | d :: q => exists s', return_queue_top s a = Some (d, s') /\ queues_ok s' /\ queue s' a = q /\
                forall b, b <> a -> queue s' b = queue s b
  end.
Proof.
  intros Hm Hc Hs. split_and!.
  - intros id. destruct (queue_push_spec m a id Hm) as [Hok Hq]. split_and!; [|done|].
    + unfold AddrQueue_push. by rewrite Hq, decide_True.
    + intros b Hb. unfold AddrQueue_push. by rewrite Hq, decide_False.
  - destruct (queue m a) as [|id q] eqn:Hq.
    + unfold AddrQueue_pop. case_bool_decide; [|done]. by rewrite bool_decide_eq_true_2.
    + destruct (AddrQueue_pop_spec m a id q Hm Hq) as (m' & ? & ? & Hm'). exists m'.
      split_and!; [done..|by rewrite Hm', decide_True|]. intros b Hb. by rewrite Hm', decide_False.
  - destruct (queue c a) as [|[cta wid] q] eqn:Hq.
    + unfold returnTopCtaID, returnTopWarpID, Cwid_pop. by rewrite bool_decide_eq_true_2.
    + destruct (Cwid_pop_spec c a _ q Hc Hq) as (c' & ? & ? & ? & ? & Hc'). split_and!; [done..|].
      exists c'. split_and!; [done..|by rewrite Hc', decide_True|]. intros b Hb. by rewrite Hc', decide_False.
  - unfold return_queue_top, StoreQueue_discard, queue_front. destruct (queue s a) as [|d q] eqn:Hq.
    + by case_bool_decide.
    + destruct (queue_pop_spec s a d q Hs Hq) as (s' & E & ? & Hs'). exists s'.
      rewrite bool_decide_eq_true_2 by (apply queue_in; [done|by rewrite Hq]). simpl. rewrite E.
      split_and!; [done..|by rewrite Hs', decide_True|]. intros b Hb. by rewrite Hs', decide_False.
Qed.

Lemma request_queues_fifo_witness :
  exists m' : AddrQueueMap,
    AddrQueue_pop (AddrQueue_push {[1 := [5]]} 1 6) 1 = Some (5, m') /\ queues_ok m' /\
    queue m' 1 = [6] /\
    forall b, b <> 1 -> queue m' b = queue (AddrQueue_push {[1 := [5]]} 1 6) b.
Proof.
  assert (H5 : queues_ok (V := Z) {[1 := [5]]}).
  { intros a E. apply lookup_singleton_Some in E as [_ E]. discriminate E. }
  destruct (request_queues_fifo (AddrQueue_push {[1 := [5]]} 1 6) ∅ ∅ 1) as (_ & H & _).
  - apply queue_push_spec, H5.
  - apply queues_ok_empty.
  - apply queues_ok_empty.
  - exact H.
Defined.

(** ** The request recorder *)
Record RequestRecorderEntry := mkRecorded {
  request_addr : Z;
  request_issue_pts : Z; request_issue_rts : Z;
  request_reply_pts : Z; request_reply_rts : Z;
  hit_in_L1 : bool; can_renew : bool;
}.
(** [m_requests]. *)
Abbreviation RequestRecorder := (gmap Z RequestRecorderEntry).

Definition Recorder_allocate (r : RequestRecorder) (req_id addr issue_pts issue_rts : Z) : RequestRecorder :=
  <[req_id := mkRecorded addr issue_pts issue_rts 0 0 false false]> r.
Definition set_reply_ts (r : RequestRecorder) (req_id reply_pts reply_rts : Z) (hit renew : bool)
    : option RequestRecorder :=
  e ← r !! req_id;
  Some (<[req_id := mkRecorded (request_addr e) (request_issue_pts e) (request_issue_rts e)
                      reply_pts reply_rts hit renew]> r).
(** The protocols' interface to the recorder. *)
Definition request_recorder_allocate (REQUEST_RECORDER_ENABLED : bool) (r : RequestRecorder)
    (req_id addr issue_pts issue_rts : Z) : RequestRecorder :=
  if REQUEST_RECORDER_ENABLED then Recorder_allocate r req_id addr issue_pts issue_rts else r.
Definition request_recorder_set_reply_ts (REQUEST_RECORDER_ENABLED : bool) (r : RequestRecorder)
    (req_id reply_pts reply_rts : Z) (hit renew : bool) : option RequestRecorder :=
  if REQUEST_RECORDER_ENABLED then set_reply_ts r req_id reply_pts reply_rts hit renew else Some r.
Definition Recorder_dump (REQUEST_RECORDER_ENABLED : bool) (r : RequestRecorder) : RequestRecorder :=
  if REQUEST_RECORDER_ENABLED then ∅ else r.

Lemma reply_grows RECORDER r i p t h n r' :
  request_recorder_set_reply_ts RECORDER r i p t h n = Some r' -> dom r ⊆ dom r'.
Proof.
  unfold request_recorder_set_reply_ts, set_reply_ts. destruct RECORDER; intros E; run E; subst; [set_solver|done].
Qed.

Lemma allocate_grows RECORDER (r : RequestRecorder) i a p t :
  dom r ⊆ dom (request_recorder_allocate RECORDER r i a p t).
Proof. unfold request_recorder_allocate, Recorder_allocate. destruct RECORDER; set_solver. Qed.

(** A recorded request can be replied to. *)
Lemma reply_succeeds RECORDER r i p t h n :
  (RECORDER = true -> i ∈ dom r) -> is_Some (request_recorder_set_reply_ts RECORDER r i p t h n).
Proof.
  unfold request_recorder_set_reply_ts, set_reply_ts. destruct RECORDER; [|by eexists].
  intros Hi. destruct (proj1 (elem_of_dom r i) (Hi eq_refl)) as [e ->]. by eexists.
Qed.

(** Every request of a list is recorded. *)
Definition recorded (RECORDER : bool) (r : RequestRecorder) (l : list Z) : Prop :=
  RECORDER = true -> forall i, i ∈ l -> i ∈ dom r.

Lemma recorded_mono RECORDER r r' l l' :
  recorded RECORDER r l -> dom r ⊆ dom r' -> (forall i, i ∈ l' -> i ∈ l) -> recorded RECORDER r' l'.
Proof. intros Hl Hr Hsub HR i Hi. apply Hr, Hl, Hsub; done. Qed.

Lemma recorded_allocate RECORDER r i a p t l l' :
  recorded RECORDER r l -> (forall j, j ∈ l' -> j = i \/ j ∈ l) ->
  recorded RECORDER (request_recorder_allocate RECORDER r i a p t) l'.
Proof.
  intros Hl Hsub HR j Hj. unfold request_recorder_allocate, Recorder_allocate. rewrite HR, dom_insert.
  apply elem_of_union. destruct (Hsub j Hj) as [->|?]; [left; by apply elem_of_singleton|right; by apply Hl].
Qed.

(** ** Write times by thread *)
(** [m_globalWriteTimes], of length [m_num_threads_per_proc]. *)
Definition GlobalWriteVector_new (num_threads_per_proc : Z) : list Z :=
  replicate (Z.to_nat num_threads_per_proc) 0.
Definition GlobalWriteVector_set (v : list Z) (threadId writeTime : Z) : option (list Z) :=
  assert! threadId <? Z.of_nat (length v); set_cell v threadId writeTime.
Definition GlobalWriteVector_get (v : list Z) (threadId : Z) : option Z :=
  assert! threadId <? Z.of_nat (length v); cell v threadId.

(** ** Memory fetches by core *)
Definition MemfetchSet_new (g : Globals) : list (list Z) := replicate (Z.to_nat (g_NUM_PROCESSORS g)) [].
Definition MemfetchSet_insert (g : Globals) (s : list (list Z)) (machine memfetch : Z) : option (list (list Z)) :=
  assert! machine <? g_NUM_PROCESSORS g;
  l ← cell s machine;
  set_cell s machine (l ++ [memfetch]).
Definition MemfetchSet_get_list (g : Globals) (s : list (list Z)) (core_id : Z) : option (list Z) :=
  assert! core_id <? g_NUM_PROCESSORS g;
  l ← cell s core_id;
  assert! negb (bool_decide (l = []));
  Some l.

Lemma MemfetchSet_insert_spec g s i mf :
  Z.of_nat (length s) = g_NUM_PROCESSORS g -> 0 <= i < g_NUM_PROCESSORS g ->
  exists s' l, MemfetchSet_insert g s i mf = Some s' /\ length s' = length s /\
    cell s i = Some l /\ MemfetchSet_get_list g s' i = Some (l ++ [mf]) /\
    forall j, 0 <= j -> j <> i -> MemfetchSet_get_list g s' j = MemfetchSet_get_list g s j.
Proof.
  intros Hl Hi. destruct (cell_range s i) as [l Hc]; [lia|].
  unfold MemfetchSet_insert, MemfetchSet_get_list.
  destruct (Z.ltb_spec i (g_NUM_PROCESSORS g)); [|lia]. rewrite Hc; simpl.
  destruct (set_cell s i (l ++ [mf])) as [s'|] eqn:Es; [|by rewrite set_cell_Some in Es by lia].
  pose proof (fun j => cell_set _ _ _ j _ Es) as Hcell. apply set_cell_inv in Es as (_ & _ & Hl').
  exists s', l. split_and!; try done.
  - rewrite Hcell, decide_True by done. simpl. rewrite bool_decide_eq_false_2; [done|].
    intros E. by apply app_nil in E as [_ ?].
  - intros j Hj Hne. by rewrite Hcell, decide_False.
Qed.

(** ** Addresses by thread block and warp *)
Abbreviation CtaWarpAddrMap := (gmap Z (gmap Z (gset Z))).
Definition CtaWarp_add (m : CtaWarpAddrMap) (cta_id wid addr : Z) : CtaWarpAddrMap :=
  let warps := from_option id ∅ (m !! cta_id) in
  <[cta_id := <[wid := {[addr]} ∪ from_option id ∅ (warps !! wid)]> warps]> m.

(** The loops of [discard] run over copies of the inner maps and sets, so
    that erasing an address from a set has no effect on the map. When the copy
    becomes empty, its warp is erased under the iterator of the loop, whose
    next increment is undefined. *)
Fixpoint discard_warps (l : list (Z * gset Z)) (addr : Z) : option unit :=
  match l with
  | [] => Some tt
  | (warp_id, addr_set) :: l =>
      if decide (addr ∈ addr_set) then
        assert! negb (bool_decide (addr_set ∖ {[addr]} = ∅)); discard_warps l addr
      else discard_warps l addr
  end.
Fixpoint discard_ctas (l : list (Z * gmap Z (gset Z))) (addr : Z) : option unit :=
  match l with
  | [] => Some tt
  | (cta_id, warps) :: l => _ ← discard_warps (map_to_list warps) addr; discard_ctas l addr
  end.
Definition CtaWarp_discard (m : CtaWarpAddrMap) (addr : Z) : option CtaWarpAddrMap :=
  _ ← discard_ctas (map_to_list m) addr; Some m.

Definition getWarpAddrMap (m : CtaWarpAddrMap) (cta_id : Z) : option (gmap Z (gset Z)) := m !! cta_id.
Definition CtaWarp_count (m : CtaWarpAddrMap) (cta_id : Z) : Z :=
  if decide (is_Some (m !! cta_id)) then 1 else 0.

(** An address recorded for a warp is still recorded after [discard]. *)
Lemma discard_keeps m cta wid addr m' :
  CtaWarp_discard (CtaWarp_add m cta wid addr) addr = Some m' ->
  exists warps s, getWarpAddrMap m' cta = Some warps /\ warps !! wid = Some s /\ addr ∈ s.
Proof.
  intros E. unfold CtaWarp_discard in E. run E. subst m'. unfold getWarpAddrMap, CtaWarp_add.
  rewrite lookup_insert_eq. eexists _, _. split_and!; [done|apply lookup_insert_eq|]. set_solver.
Qed.
