(* ===== verification/TagArray.v ===== *)
(** The interface between the coherence controllers and their caches: the
    [external_type(CacheMemory)] of [tardis-VI-L1cache.sm] and
    [tardis-VI-L2cache.sm] with the laws the controllers rely on, and the proof that
    the set-associative cache of CacheMemory obeys them. *)
From S2P Require Import Prelude Vector Config Address DataBlock Replacement CacheMemory.

Definition insert_cta_warp {D} (e : Entry D) (cta wid : Z) : Entry D :=
  set_ctaMap e (<[cta := {[wid]} ∪ from_option id ∅ (ctaMap e !! cta)]> (ctaMap e)).

(** An assignment to the protocol's part of an entry. *)
Definition map_state {D} (f : D -> D) (e : Entry D) : Entry D :=
  mkEntry (e_Address e) (e_Permission e) (ctaMap e) (e_rts e) (e_wts e) (expired_by_own_warp e)
    (expired_by_own_cta e) (expired_by_shared_warp e) (expired_by_shared_cta e)
    (e_DataBlk e) (f (e_state e)).

(** The operations. [assign c a f] is an assignment to a field of the
    reference [lookup(a)] returns; the clock argument of [allocate] and [setMRU] is
    the current cycle. *)
Class TagArray (C D : Type) := {
  tag_isTagPresent : C -> Z -> option bool;
  tag_cacheAvail : C -> Z -> option bool;
  tag_cacheProbe : C -> Z -> option Z;
  tag_allocate : C -> Z -> Z -> option C;
  tag_deallocate : C -> Z -> option C;
  tag_lookup : C -> Z -> option (Entry D);
  tag_assign : C -> Z -> (Entry D -> Entry D) -> option C;
  tag_changePermission : C -> Z -> AccessPermission -> option C;
  tag_setMRU : C -> Z -> Z -> option C;
  tag_getRts : C -> Z -> option Z;
  tag_setRts : C -> Z -> Z -> option C;
  tag_getPts : C -> Z;
  tag_setPts : C -> Z -> C;
  tag_getMts : C -> Z;
  tag_setMts : C -> Z -> C;
  tag_insertCtaWarpID : C -> Z -> Z -> Z -> option C;
  tag_setExpired : C -> Z -> Z -> Z -> Z -> Z * C;
}.

(** ** Laws *)
(** [c'] is [c] with entry [e] for block [a]. *)
Definition wrote {C D} `{TagArray C D} (ok : C -> Prop) (blk : Z -> Prop)
    (c c' : C) (a : Z) (e : option (Entry D)) : Prop :=
  ok c' /\ tag_getPts c' = tag_getPts c /\ tag_getMts c' = tag_getMts c /\
  forall b, blk b -> tag_lookup c' b = if decide (b = a) then e else tag_lookup c b.

(** Every operation is described by its effect on [lookup]; [tag_ok] is the
    cache's own invariant and [tag_block] says which addresses name blocks. *)
Class TagArrayLaws (C D : Type) `{TagArray C D} (init : D) := {
  tag_ok : C -> Prop;
  tag_block : Z -> Prop;
  (** The entry [allocate] makes. *)
  tag_fresh : Z -> Entry D;
  tag_fresh_law a : e_Address (tag_fresh a) = a /\ e_Permission (tag_fresh a) <> NotPresent /\
    e_rts (tag_fresh a) = 0 /\ e_wts (tag_fresh a) = 0 /\ e_state (tag_fresh a) = init;
  tag_isTagPresent_law c a : tag_ok c -> tag_block a ->
    tag_isTagPresent c a = Some (bool_decide (is_Some (tag_lookup c a)));
  tag_Address_law c a e : tag_ok c -> tag_block a -> tag_lookup c a = Some e ->
    e_Address e = a /\ e_Permission e <> NotPresent;
  tag_cacheAvail_law c a : tag_ok c -> tag_block a ->
    exists b, tag_cacheAvail c a = Some b /\ (is_Some (tag_lookup c a) -> b = true);
  tag_cacheProbe_law c a : tag_ok c -> tag_block a -> tag_cacheAvail c a = Some false ->
    exists v, tag_cacheProbe c a = Some v /\ tag_block v /\ is_Some (tag_lookup c v) /\ v <> a;
  tag_allocate_law c a now : tag_ok c -> tag_block a ->
    tag_lookup c a = None -> tag_cacheAvail c a = Some true ->
    exists c', tag_allocate c a now = Some c' /\
      wrote tag_ok tag_block c c' a (Some (tag_fresh a));
  tag_deallocate_law c a : tag_ok c -> tag_block a -> is_Some (tag_lookup c a) ->
    exists c', tag_deallocate c a = Some c' /\ wrote tag_ok tag_block c c' a None;
  tag_assign_law c a f e : tag_ok c -> tag_block a -> tag_lookup c a = Some e ->
    e_Address (f e) = e_Address e -> e_Permission (f e) = e_Permission e ->
    exists c', tag_assign c a f = Some c' /\ wrote tag_ok tag_block c c' a (Some (f e));
  tag_changePermission_law c a p e : tag_ok c -> tag_block a -> tag_lookup c a = Some e ->
    p <> NotPresent ->
    exists c', tag_changePermission c a p = Some c' /\
      wrote tag_ok tag_block c c' a (Some (set_e_Permission e p));
  tag_setMRU_law c a now e : tag_ok c -> tag_block a -> tag_lookup c a = Some e ->
    exists c', tag_setMRU c a now = Some c' /\ wrote tag_ok tag_block c c' a (Some e);
  tag_getRts_law c a e : tag_ok c -> tag_block a -> tag_lookup c a = Some e ->
    tag_getRts c a = Some (e_rts e);
  tag_setRts_law c a r e : tag_ok c -> tag_block a -> tag_lookup c a = Some e ->
    exists c', tag_setRts c a r = Some c' /\ wrote tag_ok tag_block c c' a (Some (set_e_rts e r));
  tag_setPts_law c t : tag_ok c ->
    tag_ok (tag_setPts c t) /\ tag_getPts (tag_setPts c t) = t /\
    tag_getMts (tag_setPts c t) = tag_getMts c /\
    forall a, tag_lookup (tag_setPts c t) a = tag_lookup c a;
  tag_setMts_law c t : tag_ok c ->
    tag_ok (tag_setMts c t) /\ tag_getMts (tag_setMts c t) = t /\
    tag_getPts (tag_setMts c t) = tag_getPts c /\
    forall a, tag_lookup (tag_setMts c t) a = tag_lookup c a;
  tag_insertCtaWarpID_law c a cta wid e : tag_ok c -> tag_block a -> tag_lookup c a = Some e ->
    exists c', tag_insertCtaWarpID c a cta wid = Some c' /\
      wrote tag_ok tag_block c c' a (Some (insert_cta_warp e cta wid));
  tag_setExpired_law c cta wid wts load_ts : tag_ok c ->
    let c' := (tag_setExpired c cta wid wts load_ts).2 in
    tag_ok c' /\ tag_getPts c' = tag_getPts c /\ tag_getMts c' = tag_getMts c /\
    forall b, tag_block b ->
      tag_lookup c' b = (fun e => (expire_entry cta wid wts load_ts e).2) <$> tag_lookup c b;
}.

(** ** The set-associative cache *)
Section instance.
Context {P : Type} `{ReplacementPolicy P} {D : Type} `{Default D}.
Variables (g : Globals) (DATA_BLOCK XACT_MEMORY : bool).

Definition CacheMemory_TagArray : TagArray (CacheMemory P D) D := {|
  tag_isTagPresent := isTagPresent g;
  tag_cacheAvail := cacheAvail g;
  tag_cacheProbe := cacheProbe g;
  tag_allocate := allocate g DATA_BLOCK XACT_MEMORY;
  tag_deallocate := deallocate g;
  tag_lookup := lookup g;
  tag_assign := update g;
  tag_changePermission := changePermission g;
  tag_setMRU := setMRU g;
  tag_getRts := getRts g;
  tag_setRts := setRts g;
  tag_getPts := pts;
  tag_setPts := setPts;
  tag_getMts := mts;
  tag_setMts := setMts;
  tag_insertCtaWarpID := insertCtaWarpID g;
  tag_setExpired := setExpired;
|}.
#[local] Existing Instance CacheMemory_TagArray.
Abbreviation wrote_c := (wrote (cache_inv g) (line_ok g)).
Implicit Types (c : CacheMemory P D) (e : Entry D).

(** Writing entries does not touch the clocks. *)
Lemma set_entry_clocks c s i e c' :
  set_entry c s i e = Some c' -> pts c' = pts c /\ mts c' = mts c.
Proof using Type. unfold set_entry. intros E. run E. by subst. Qed.

Lemma update_clocks c a f c' : update g c a f = Some c' -> pts c' = pts c /\ mts c' = mts c.
Proof using Type.
  unfold update. intros E. apply bind_Some in E as ([s l] & _ & E). run E. by eapply set_entry_clocks.
Qed.

Lemma touch_way_clocks c s i now c' :
  touch_way c s i now = Some c' -> pts c' = pts c /\ mts c' = mts c.
Proof using Type. unfold touch_way. intros E. run E. by subst. Qed.

Lemma allocate_clocks c a now c' :
  allocate g DATA_BLOCK XACT_MEMORY c a now = Some c' -> pts c' = pts c /\ mts c' = mts c.
Proof using Type.
  unfold allocate. intros E. run E.
  apply touch_way_clocks in E as [-> ->]. apply update_clocks in E6 as [-> ->].
  by apply set_entry_clocks in E5 as [-> ->].
Qed.

Lemma present_entry c a e :
  cache_inv g c -> line_ok g a -> lookup g c a = Some e -> e_Address e = a /\ present e = true.
Proof using Type. intros Hc Ha He. apply lookup_iff in He as (i & _ & ? & ?); done. Qed.

Lemma present_iff e : present e = true <-> e_Permission e <> NotPresent.
Proof using Type. unfold present. by rewrite negb_true_iff, bool_decide_eq_false. Qed.

Lemma update_wrote c a f e :
  cache_inv g c -> line_ok g a -> lookup g c a = Some e -> e_Address (f e) = e_Address e ->
  exists c', update g c a f = Some c' /\ wrote_c c c' a (entry_or_none (f e)).
Proof using Type.
  intros Hc Ha He Hf. destruct (present_entry c a e Hc Ha He) as [Hea _].
  destruct (update_spec g c a f e Hc Ha He) as (c' & E & Hc' & _ & Hl); [congruence|].
  exists c'. destruct (update_clocks c a f c' E). by split_and!.
Qed.

Lemma update_wrote_some c a f e :
  cache_inv g c -> line_ok g a -> lookup g c a = Some e -> e_Address (f e) = e_Address e ->
  e_Permission (f e) = e_Permission e ->
  exists c', update g c a f = Some c' /\ wrote_c c c' a (Some (f e)).
Proof using Type.
  intros Hc Ha He Hf Hp. destruct (update_wrote c a f e Hc Ha He Hf) as (c' & E & Hw).
  exists c'. split; [done|]. destruct (present_entry c a e Hc Ha He) as [_ Hpr].
  unfold entry_or_none in Hw. replace (present (f e)) with true in Hw; [done|].
  symmetry. apply present_iff. rewrite Hp. by apply present_iff.
Qed.

Lemma isTagPresent_true c a e :
  cache_inv g c -> line_ok g a -> lookup g c a = Some e -> isTagPresent g c a = Some true.
Proof using Type. intros Hc Ha He. by rewrite isTagPresent_lookup, He. Qed.

Lemma allocate_law c a now :
  cache_inv g c -> line_ok g a -> lookup g c a = None -> cacheAvail g c a = Some true ->
  exists c', allocate g DATA_BLOCK XACT_MEMORY c a now = Some c' /\
    wrote_c c c' a (Some (fresh_entry g DATA_BLOCK XACT_MEMORY a)).
Proof using Type.
  intros Hc Ha Hn Hav.
  destruct (allocate_spec g DATA_BLOCK XACT_MEMORY c a now Hc Ha Hn Hav) as (c' & E & Hc' & Hl).
  exists c'.
  destruct (allocate_clocks c a now c' E). by split_and!.
Qed.

Lemma deallocate_law c a :
  cache_inv g c -> line_ok g a -> is_Some (lookup g c a) ->
  exists c', deallocate g c a = Some c' /\ wrote_c c c' a None.
Proof using Type.
  intros Hc Ha [e He]. unfold deallocate. rewrite (proj2 Ha), (isTagPresent_true c a e) by done. simpl.
  by apply (update_wrote c a (fun e => set_e_Permission e NotPresent) e).
Qed.

Lemma changePermission_law c a p e :
  cache_inv g c -> line_ok g a -> lookup g c a = Some e -> p <> NotPresent ->
  exists c', changePermission g c a p = Some c' /\ wrote_c c c' a (Some (set_e_Permission e p)).
Proof using Type.
  intros Hc Ha He Hp. unfold changePermission. rewrite (proj2 Ha).
  destruct (update_wrote c a (fun e => set_e_Permission e p) e Hc Ha He eq_refl) as (c' & -> & Hw). simpl.
  assert (Hpr : present (set_e_Permission e p) = true) by (by apply present_iff).
  unfold entry_or_none in Hw. rewrite Hpr in Hw.
  assert (Hl : lookup g c' a = Some (set_e_Permission e p)).
  { destruct Hw as (_ & _ & _ & Hl). specialize (Hl a Ha). simpl in Hl. by rewrite decide_True in Hl. }
  unfold getPermission. rewrite (proj2 Ha), Hl. simpl. rewrite bool_decide_eq_true_2 by done.
  by exists c'.
Qed.

Lemma setMRU_law c a now e :
  cache_inv g c -> line_ok g a -> lookup g c a = Some e ->
  exists c', setMRU g c a now = Some c' /\ wrote_c c c' a (Some e).
Proof using Type.
  intros Hc Ha He. pose proof (inv_geom g c Hc) as Hg.
  destruct (addressToCacheSet_spec g c a Hg Ha) as [Hs _].
  destruct (findTagInSet_spec g c a Hg Ha) as (r & Hr & Hcase).
  assert (He' := He). apply lookup_iff in He' as [i Hi]; [|done..].
  destruct Hcase as [[-> Hn]|(j & e' & -> & Hj)]; [by destruct (Hn i e)|].
  assert (Hlt : Z.of_nat j < m_cache_assoc c).
  { destruct Hj as (Hj & _). destruct (row_of g c a Hg Ha) as (row & _ & _ & Hlen & Hway).
    rewrite Hway in Hj. apply lookup_lt_Some in Hj. lia. }
  destruct (touch_way_spec g c a j now Hc Ha Hlt) as (c' & Ht & Hc' & _ & Hl).
  exists c'. unfold setMRU. rewrite Hs; simpl. rewrite Hr; simpl. split; [done|].
  destruct (touch_way_clocks _ _ _ _ _ Ht). split_and!; [done..|]. simpl.
  intros b Hb. rewrite Hl. case_decide; [by subst|done].
Qed.

Lemma setExpired_law c cta wid wts load_ts :
  cache_inv g c ->
  let c' := (setExpired c cta wid wts load_ts).2 in
  cache_inv g c' /\ pts c' = pts c /\ mts c' = mts c /\
  forall b, line_ok g b ->
    lookup g c' b = (fun e => (expire_entry cta wid wts load_ts e).2) <$> lookup g c b.
Proof using Type.
  intros Hc. destruct (setExpired c cta wid wts load_ts) as [n c'] eqn:E. simpl.
  assert (Hc' : cache_inv g c') by (by eapply setExpired_inv).
  split_and!; [done|by unfold setExpired in E; injection E as _ <-..|].
  intros b Hb. assert (Hset : set_index g c' b = set_index g c b)
    by (unfold setExpired in E; injection E as _ <-; done).
  pose proof (fun s i => setExpired_way c cta wid wts load_ts n c' s i E) as Hway.
  apply option_eq. intros x. rewrite fmap_Some, lookup_iff by done. setoid_rewrite lookup_iff; [|done..].
  unfold present_at. setoid_rewrite Hway. rewrite Hset. split.
  - intros (i & (y & Hy & ->)%fmap_Some & Hp & Ha). exists y.
    destruct (expire_entry_frame cta wid wts load_ts y) as (Ea & _ & _ & _ & _ & Ep).
    rewrite Ea in Ha. rewrite Ep in Hp. split; [by exists i|done].
  - intros (y & (i & Hy & Hp & Ha) & ->). exists i. rewrite Hy. simpl.
    destruct (expire_entry_frame cta wid wts load_ts y) as (Ea & _ & _ & _ & _ & Ep).
    by rewrite Ea, Ep.
Qed.

(** The cache of [CacheMemory.h] obeys the laws. *)
#[global] Program Instance CacheMemory_laws : TagArrayLaws (CacheMemory P D) D default := {|
  tag_ok := cache_inv g;
  tag_block := line_ok g;
  tag_fresh := fresh_entry g DATA_BLOCK XACT_MEMORY;
  tag_isTagPresent_law := isTagPresent_lookup g;
  tag_allocate_law := allocate_law;
  tag_deallocate_law := deallocate_law;
  tag_changePermission_law := changePermission_law;
  tag_setMRU_law := setMRU_law;
  tag_setExpired_law := setExpired_law;
|}.
Next Obligation. by intros a. Qed.
Next Obligation.
  intros c a e Hc Ha He. destruct (present_entry c a e Hc Ha He) as [? Hp]. split; [done|]. by apply present_iff.
Qed.
Next Obligation.
  intros c a Hc Ha. destruct (cacheAvail_spec g c a Hc Ha) as (b & ? & Hiff). exists b. naive_solver.
Qed.
Next Obligation.
  intros c a Hc Ha Hav. destruct (cacheProbe_spec g c a Hc Ha Hav) as (v & ? & ? & Hp & ? & _).
  exists v. rewrite isTagPresent_lookup in Hp by done. injection Hp as Hp%bool_decide_eq_true. done.
Qed.
Next Obligation. intros c a f e Hc Ha He Hf Hp. by apply update_wrote_some. Qed.
Next Obligation.
  intros c a e Hc Ha He. simpl in *. unfold getRts. rewrite (isTagPresent_true c a e) by done. simpl. by rewrite He.
Qed.
Next Obligation.
  intros c a r e Hc Ha He. simpl in *. unfold setRts. rewrite (isTagPresent_true c a e) by done. simpl.
  by apply (update_wrote_some c a (fun e => set_e_rts e r) e).
Qed.
Next Obligation. intros c t Hc. split_and!; try done. destruct Hc as [[] ? ?]. by split; [split|..]. Qed.
Next Obligation. intros c t Hc. split_and!; try done. destruct Hc as [[] ? ?]. by split; [split|..]. Qed.
Next Obligation.
  intros c a cta wid e Hc Ha He. simpl in *. unfold insertCtaWarpID.
  rewrite (isTagPresent_true c a e) by done. simpl.
  by apply (update_wrote_some c a (fun e => insert_cta_warp e cta wid) e).
Qed.
End instance.
