(* ===== verification/RccMsg.v ===== *)
(** The messages of the relativistic coherence protocol: [tardis-VI-msg.sm]
    and the processor requests of [RubySlicc_Exports.sm]. *)
From S2P Require Import Prelude Vector Config Address DataBlock CacheMemory Requests.

Inductive MemorySpaceType := GLOBAL | LOCAL | NULL_space.
#[global] Instance MemorySpaceType_eq_dec : EqDecision MemorySpaceType.
Proof. solve_decision. Defined.

Inductive CoherenceRequestType := GETS | GET_INSTR | DATA_UPGRADE | REQ_DATA | REQ_DATA_ATOMIC | REQ_MEMORY_DATA.
#[global] Instance CoherenceRequestType_eq_dec : EqDecision CoherenceRequestType.
Proof. solve_decision. Defined.

Inductive CoherenceResponseType :=
  MEMORY_ACK | DATA | DATA_ATOMIC | DATA_GLOBAL | ACK | ACK_GLOBAL | MEMORY_DATA.
#[global] Instance CoherenceResponseType_eq_dec : EqDecision CoherenceResponseType.
Proof. solve_decision. Defined.

(** A processor request, [CacheMsg]. *)
Record CacheMsg := mkCacheMsg {
  c_Address : Z; c_Type : CacheRequestType; c_Size : Z; c_Space : MemorySpaceType;
  c_ThreadID : Z; c_ReqID : Z; c_CtaID : Z; c_WarpID : Z; c_profiled : bool; c_memfetch : Z;
}.

(** An L1 request, [RequestMsg]. *)
Record RequestMsg := mkRequest {
  q_Address : Z; q_Type : CoherenceRequestType; q_Requestor : MachineID; q_Destination : MachineID;
  q_DataBlk : list Z; q_Dirty : bool; q_Space : MemorySpaceType; q_RequestSize : Z;
  q_deltaRequested : Z; q_pts : Z; q_rts : Z; q_memfetch : Z;
  q_ExpiredInL1 : bool; q_TouchedInL1 : bool; q_InL1 : bool; q_expired_by_ownself : bool;
  q_expired_by_own_warp : bool; q_expired_by_own_cta : bool;
  q_expired_by_shared_warp : bool; q_expired_by_shared_cta : bool;
  q_req_id : Z; q_cta_id : Z; q_warp_id : Z;
}.

(** An L2 response, [ResponseMsg]; its destinations are L1 numbers. *)
Record ResponseMsg := mkResponse {
  p_Address : Z; p_Type : CoherenceResponseType; p_Sender : MachineID; p_Destination : gset Z;
  p_DataBlk : list Z; p_Dirty : bool; p_AckCount : Z; p_Space : MemorySpaceType;
  p_RequestSize : Z; p_rts : Z; p_wts : Z; p_memfetch : Z; p_mfset : list (list Z);
}.

(** What the sequencer is told. *)
Inductive Callback :=
  | readCallback (addr : Z)
  | writeCallback (addr memfetch : Z).
#[global] Instance Callback_eq_dec : EqDecision Callback.
Proof. solve_decision. Defined.

(** Messages to and from memory, [MemoryMsg]. *)
Inductive MemoryRequestType := MEMORY_READ | MEMORY_WB | MEM_DATA | MEM_ACK.
#[global] Instance MemoryRequestType_eq_dec : EqDecision MemoryRequestType.
Proof. solve_decision. Defined.

Record MemoryMsg := mkMemoryMsg {
  mm_Address : Z; mm_Type : MemoryRequestType; mm_Sender : MachineID;
  mm_OriginalRequestorMachId : MachineID; mm_DataBlk : list Z;
}.

(** What the transition function of a controller reports. *)
Inductive TransitionResult := Valid | ResourceStall | ProtocolStall.
