(* ===== verification/RccL1.v ===== *)
(** The L1 controller of the relativistic coherence protocol:
    [protocols/tardis-VI-L1cache.sm]. States, events, actions, transitions and
    ports are those of the SLICC machine; [L1_doTransition] is the code SLICC
    generates for it ([slicc/symbols/StateMachine.C]). *)
From S2P Require Import Prelude Vector Config Address DataBlock CacheMemory Tables Requests TagArray RccMsg.

Inductive L1_State := L1_I | L1_S | L1_I_S | L1_I_I | L1_SM.
#[global] Instance L1_State_eq_dec : EqDecision L1_State.
Proof. solve_decision. Defined.

Inductive L1_Event :=
  | Load | L1_WThru | L1_Atomic | L1_Replacement
  | Data | Data_Done | Ack | Ack_Done | DataAtomic | DataAtomic_Done
  | Delay | Delay_Data | Delay_Data_Done | Delay_Ack | Delay_Ack_Done
  | Delay_DataAtomic | Delay_DataAtomic_Done.

(** The protocol's part of a cache entry, and transaction buffers. *)
Record L1Entry := mkL1Entry {
  CacheState : L1_State; touched : bool; have_data : bool; expired_by_ownself : bool; num_loads : Z }.
#[global] Instance L1Entry_default : Default L1Entry := mkL1Entry L1_I false false false 0.

Record L1TBE := mkL1TBE {
  TBEState : L1_State; t_Space : MemorySpaceType; t_ThreadID : Z; t_rts : Z;
  pendingReads : Z; pendingWrites : Z; t_DataBlk : list Z }.

Inductive L1_Action :=
  | a_issueGETS | d2t_sendDataToL2_fromTBE | d2t_sendAtomicDataToL2_fromTBE
  | h_load_hit | hh_store_hit | i_allocateTBE | i_allocateTBEwTime | k_popMandatoryQueue
  | o_popIncomingResponseQueue | s_deallocateTBE | tr_updateL1Lifetime
  | tp_updateProcessorTimestamp | dd_writeDataToL1Cache | ff_deallocateL1CacheBlock
  | oo_allocateL1DCacheBlock | z_stall | pM_profileMiss | pH_profileHit
  | pr_incPendingRead | pw_incPendingWrite | pr_decPendingRead | pw_decPendingWrite
  | st_setTouched | ct_clearTouched | trt_updateL1Lifetime_inTBE | mhd_markHaveData
  | cwid_insertCWID | pcwq_pushIntoCwidQueue | rcwq_removeFromCwidQueue
  | arre_allocateReqRecorderEntry | setrrts_setReqRecorderTs | setrrtslh_setReqRecorderTsforLoadHit
  | idq_insertDelayQueue | o_popDelayQueue | hh_delay_store_hit | tr_delay_updateL1Lifetime
  | tp_delay_updateProcessorTimestamp | dd_delay_writeDataToL1Cache
  | trt_delay_updateL1Lifetime_inTBE | setrrts_delay_setReqRecorderTs
  | inl_incNumLoads | pnl_profileNumLoads.
#[global] Instance L1_Action_eq_dec : EqDecision L1_Action.
Proof. solve_decision. Defined.

(** ** Transitions *)
(** Sending a write, from any state. *)
Definition send_write (profile : L1_Action) (alloc : list L1_Action) (send : L1_Action) : list L1_Action :=
  [profile; pcwq_pushIntoCwidQueue] ++ alloc ++
  [pw_incPendingWrite; cwid_insertCWID; arre_allocateReqRecorderEntry; send; k_popMandatoryQueue].

(** Receiving the acknowledgement of a write; [last] deallocates. *)
Definition write_done (last : list L1_Action) : list L1_Action :=
  [pw_decPendingWrite; tp_updateProcessorTimestamp; hh_store_hit; rcwq_removeFromCwidQueue;
   setrrts_setReqRecorderTs] ++ last ++ [o_popIncomingResponseQueue].
Definition delay_write_done (last : list L1_Action) : list L1_Action :=
  [pw_decPendingWrite; tp_delay_updateProcessorTimestamp; hh_delay_store_hit; rcwq_removeFromCwidQueue;
   setrrts_delay_setReqRecorderTs] ++ last ++ [o_popDelayQueue].

(** Receiving data; [first] are the actions before the lifetime is updated. *)
Definition data_done (first last : list L1_Action) : list L1_Action :=
  [pr_decPendingRead] ++ first ++ [tr_updateL1Lifetime; mhd_markHaveData;
   tp_updateProcessorTimestamp; h_load_hit; rcwq_removeFromCwidQueue; ct_clearTouched;
   setrrts_setReqRecorderTs] ++ last ++ [o_popIncomingResponseQueue].
Definition delay_data_done (first last : list L1_Action) : list L1_Action :=
  [pr_decPendingRead] ++ first ++ [tr_delay_updateL1Lifetime; mhd_markHaveData;
   tp_delay_updateProcessorTimestamp; h_load_hit; rcwq_removeFromCwidQueue; ct_clearTouched;
   setrrts_delay_setReqRecorderTs] ++ last ++ [o_popDelayQueue].

Definition load_hit : list L1_Action :=
  [pH_profileHit; h_load_hit; inl_incNumLoads; arre_allocateReqRecorderEntry; cwid_insertCWID;
   st_setTouched; setrrtslh_setReqRecorderTsforLoadHit; k_popMandatoryQueue].
(** The next state and the actions; [None] is an invalid transition. *)
Definition L1_transition (state : L1_State) (event : L1_Event) : option (L1_State * list L1_Action) :=
  match state, event with
  | L1_I, Load => Some (L1_I_S,
      [pM_profileMiss; pcwq_pushIntoCwidQueue; oo_allocateL1DCacheBlock; inl_incNumLoads; i_allocateTBE;
       pr_incPendingRead; cwid_insertCWID; arre_allocateReqRecorderEntry; a_issueGETS; k_popMandatoryQueue])
  | L1_I, L1_WThru => Some (L1_I_I, send_write pM_profileMiss [i_allocateTBE] d2t_sendDataToL2_fromTBE)
  | L1_I, L1_Atomic => Some (L1_I_I, send_write pM_profileMiss [i_allocateTBE] d2t_sendAtomicDataToL2_fromTBE)
  | L1_I, L1_Replacement => Some (L1_I, [pnl_profileNumLoads; ff_deallocateL1CacheBlock])
  | L1_S, Load => Some (L1_S, load_hit)
  | L1_S, L1_WThru => Some (L1_SM, send_write pH_profileHit [i_allocateTBEwTime] d2t_sendDataToL2_fromTBE)
  | L1_S, L1_Atomic => Some (L1_SM, send_write pH_profileHit [i_allocateTBEwTime] d2t_sendAtomicDataToL2_fromTBE)
  | L1_S, L1_Replacement => Some (L1_I, [pnl_profileNumLoads; ff_deallocateL1CacheBlock])
  | L1_I_S, L1_WThru => Some (L1_I_I, send_write pM_profileMiss [] d2t_sendDataToL2_fromTBE)
  | L1_I_S, L1_Atomic => Some (L1_I_I, send_write pM_profileMiss [] d2t_sendAtomicDataToL2_fromTBE)
  | L1_I_S, Data_Done => Some (L1_S, data_done [dd_writeDataToL1Cache] [s_deallocateTBE])
  | L1_I_S, Delay_Data_Done => Some (L1_S, delay_data_done [dd_delay_writeDataToL1Cache] [s_deallocateTBE])
  | (L1_I_S | L1_I_I | L1_SM) as st, L1_Replacement => Some (st, [z_stall])
  | (L1_I_S | L1_I_I | L1_SM) as st, Delay => Some (st, [idq_insertDelayQueue; o_popIncomingResponseQueue])
  | L1_I_I, Load => Some (L1_I_I,
      [pM_profileMiss; pcwq_pushIntoCwidQueue; pr_incPendingRead; cwid_insertCWID; oo_allocateL1DCacheBlock;
       inl_incNumLoads; arre_allocateReqRecorderEntry; a_issueGETS; k_popMandatoryQueue])
  | L1_I_I, L1_WThru => Some (L1_I_I, send_write pM_profileMiss [] d2t_sendDataToL2_fromTBE)
  | L1_I_I, L1_Atomic => Some (L1_I_I, send_write pM_profileMiss [] d2t_sendAtomicDataToL2_fromTBE)
  | L1_I_I, Data => Some (L1_SM, data_done [trt_updateL1Lifetime_inTBE] [])
  | L1_I_I, Data_Done => Some (L1_S, data_done [] [s_deallocateTBE])
  | L1_I_I, (DataAtomic | Ack) => Some (L1_I_I, write_done [])
  | L1_I_I, (DataAtomic_Done | Ack_Done) => Some (L1_I, write_done [s_deallocateTBE])
  | L1_SM, Load => Some (L1_SM, load_hit)
  | L1_SM, L1_WThru => Some (L1_SM, send_write pH_profileHit [] d2t_sendDataToL2_fromTBE)
  | L1_SM, L1_Atomic => Some (L1_SM, send_write pH_profileHit [] d2t_sendAtomicDataToL2_fromTBE)
  | L1_SM, Data => Some (L1_SM, data_done [trt_updateL1Lifetime_inTBE] [])
  | L1_SM, Data_Done => Some (L1_S, data_done [] [s_deallocateTBE])
  | L1_SM, (DataAtomic | Ack) => Some (L1_I_I, write_done [])
  | L1_SM, (DataAtomic_Done | Ack_Done) => Some (L1_I, write_done [s_deallocateTBE])
  | L1_I_I, Delay_Data => Some (L1_SM, delay_data_done [trt_delay_updateL1Lifetime_inTBE] [])
  | L1_I_I, Delay_Data_Done => Some (L1_S, delay_data_done [] [s_deallocateTBE])
  | L1_I_I, (Delay_DataAtomic | Delay_Ack) => Some (L1_I_I, delay_write_done [])
  | L1_I_I, (Delay_DataAtomic_Done | Delay_Ack_Done) => Some (L1_I, delay_write_done [s_deallocateTBE])
  | L1_SM, Delay_Data => Some (L1_SM, delay_data_done [trt_delay_updateL1Lifetime_inTBE] [])
  | L1_SM, Delay_Data_Done => Some (L1_S, delay_data_done [] [s_deallocateTBE])
  | L1_SM, (Delay_DataAtomic | Delay_Ack) => Some (L1_I_I, delay_write_done [])
  | L1_SM, (Delay_DataAtomic_Done | Delay_Ack_Done) => Some (L1_I, delay_write_done [s_deallocateTBE])
  | _, _ => None
  end.

(** ** The controller *)
(** Everything the controller can change. The queues are the message buffers,
    oldest message first; [l_out] and [l_calls] list the requests it sent and the
    callbacks it made. *)
Record L1 (C : Type) := mkL1 {
  l_cache : C; l_tbes : gmap Z L1TBE; l_cwid : RequestCwidMap;
  l_loads : AddrQueueMap; l_stores : AddrQueueMap; l_recorder : RequestRecorder;
  l_mandatory : list CacheMsg; l_responses : list ResponseMsg; l_delay : list ResponseMsg;
  l_out : list RequestMsg; l_calls : list Callback;
}.
#[global] Arguments mkL1 {C}.
#[global] Arguments l_cache {C}.
#[global] Arguments l_tbes {C}.
#[global] Arguments l_cwid {C}.
#[global] Arguments l_loads {C}.
#[global] Arguments l_stores {C}.
#[global] Arguments l_recorder {C}.
#[global] Arguments l_mandatory {C}.
#[global] Arguments l_responses {C}.
#[global] Arguments l_delay {C}.
#[global] Arguments l_out {C}.
#[global] Arguments l_calls {C}.

Section l1.
Context {C : Type} `{TagArray C L1Entry}.
(** The configuration: the lease of every load, the size of the table of
    transaction buffers, the controller's own number and the delay queue. *)
Variables (g : Globals) (DATA_BLOCK XACT_MEMORY : bool) (NUMBER_OF_TBES CL_FIXED_LEASE : Z)
          (id : Z) (RECORDER DELAY_QUEUE_ENABLED : bool) (DELAY_QUEUE_THRESHOLD : Z).
Implicit Types (s : L1 C) (a : Z).

Definition machineID : MachineID := mkMachine L1Cache id.
Definition set_lcache s c : L1 C :=
  mkL1 c (l_tbes s) (l_cwid s) (l_loads s) (l_stores s) (l_recorder s) (l_mandatory s)
    (l_responses s) (l_delay s) (l_out s) (l_calls s).
Definition set_ltbes s t : L1 C :=
  mkL1 (l_cache s) t (l_cwid s) (l_loads s) (l_stores s) (l_recorder s) (l_mandatory s)
    (l_responses s) (l_delay s) (l_out s) (l_calls s).
(** The bookkeeping of requests: thread blocks and warps, loads, stores. *)
Definition set_lqueues s q l t r : L1 C :=
  mkL1 (l_cache s) (l_tbes s) q l t r (l_mandatory s)
    (l_responses s) (l_delay s) (l_out s) (l_calls s).
(** The message buffers. *)
Definition set_lports s m r d : L1 C :=
  mkL1 (l_cache s) (l_tbes s) (l_cwid s) (l_loads s) (l_stores s) (l_recorder s) m r d
    (l_out s) (l_calls s).
Definition set_lout s o c : L1 C :=
  mkL1 (l_cache s) (l_tbes s) (l_cwid s) (l_loads s) (l_stores s) (l_recorder s) (l_mandatory s)
    (l_responses s) (l_delay s) o c.

Definition L1TBE_new : L1TBE :=
  mkL1TBE L1_I NULL_space 0 0 0 0 (DataBlock_new g DATA_BLOCK XACT_MEMORY).
#[local] Instance L1TBE_default : Default L1TBE := L1TBE_new.

Abbreviation l1_pts s := (tag_getPts (l_cache s)).
Definition on_cache s (f : C -> option C) : option (L1 C) := c ← f (l_cache s); Some (set_lcache s c).
Definition on_tbes s (f : gmap Z L1TBE -> option (gmap Z L1TBE)) : option (L1 C) :=
  t ← f (l_tbes s); Some (set_ltbes s t).
Definition tbe_present s a : option bool := TBE_isPresent g NUMBER_OF_TBES (l_tbes s) a.
Definition tbe_of s a : option L1TBE := TBE_lookup g NUMBER_OF_TBES (l_tbes s) a.
Definition update_tbe s a (f : L1TBE -> L1TBE) : option (L1 C) :=
  on_tbes s (fun t => TBE_update g NUMBER_OF_TBES t a f).

Definition isL1CacheTagPresent s a : option bool := tag_isTagPresent (l_cache s) a.
Definition getL1CacheEntry s a : option (Entry L1Entry) :=
  b ← isL1CacheTagPresent s a; assert! (b : bool); tag_lookup (l_cache s) a.
(** [getL1CacheEntry(addr).field := ...]. *)
Definition assign_entry s a (f : Entry L1Entry -> Entry L1Entry) : option (L1 C) :=
  b ← isL1CacheTagPresent s a; assert! (b : bool); on_cache s (fun c => tag_assign c a f).
Definition changeL1Permission s a p : option (L1 C) :=
  b ← isL1CacheTagPresent s a; assert! (b : bool); on_cache s (fun c => tag_changePermission c a p).

Definition getDelta_Access (a : Z) : Z := CL_FIXED_LEASE.

Definition isLive s a : option bool :=
  b ← tbe_present s a;
  if (b : bool) then t ← tbe_of s a; Some (l1_pts s <=? t_rts t)
  else
    b ← isL1CacheTagPresent s a;
    assert! (b : bool);
    rts ← tag_getRts (l_cache s) a;
    Some (l1_pts s <=? rts).

Definition set_state (st : L1_State) (d : L1Entry) : L1Entry :=
  mkL1Entry st (touched d) (have_data d) (expired_by_ownself d) (num_loads d).
Definition set_TBEState (st : L1_State) (t : L1TBE) : L1TBE :=
  mkL1TBE st (t_Space t) (t_ThreadID t) (t_rts t) (pendingReads t) (pendingWrites t) (t_DataBlk t).

Definition permission_of (st : L1_State) : AccessPermission :=
  match st with L1_I => Invalid | L1_S => Read_Only | _ => Busy end.

Definition setState s a (st : L1_State) : option (L1 C) :=
  b ← tbe_present s a;
  s ← (if (b : bool) then update_tbe s a (set_TBEState st) else Some s);
  b ← isL1CacheTagPresent s a;
  if (b : bool) then
    s ← assign_entry s a (map_state (set_state st));
    changeL1Permission s a (permission_of st)
  else Some s.

Definition getState s a : option L1_State :=
  b ← tbe_present s a;
  if (b : bool) then
    t ← tbe_of s a;
    live ← isLive s a;
    Some (if bool_decide (TBEState t = L1_SM) && negb (live : bool) then L1_I_I else TBEState t)
  else
    b ← isL1CacheTagPresent s a;
    if (b : bool) then
      live ← isLive s a;
      if negb (live : bool) then Some L1_I
      else e ← getL1CacheEntry s a; Some (CacheState (e_state e))
    else Some L1_I.

Definition mandatory_request_type_to_event (type : CacheRequestType) : option L1_Event :=
  match type with LD => Some Load | ST => Some L1_WThru | ATOMIC => Some L1_Atomic | _ => None end.

Definition response_type_ok (type : CoherenceResponseType) : bool :=
  match type with DATA | DATA_ATOMIC | ACK => true | _ => false end.

Definition get_pending_reads s a : option Z :=
  b ← tbe_present s a; assert! (b : bool); t ← tbe_of s a; Some (pendingReads t).
Definition get_pending_writes s a : option Z :=
  b ← tbe_present s a; assert! (b : bool); t ← tbe_of s a; Some (pendingWrites t).

(** ** Actions *)
Definition send s (q : RequestMsg) : L1 C := set_lout s (l_out s ++ [q]) (l_calls s).
Definition callback s (c : Callback) : L1 C := set_lout s (l_out s) (l_calls s ++ [c]).

Definition issueGETS s a : option (L1 C) :=
  m ← head (l_mandatory s);
  b ← isL1CacheTagPresent s (c_Address m);
  assert! (b : bool);
  dest ← map_L1CacheMachId_to_L2Cache g a machineID;
  rts ← tag_getRts (l_cache s) a;
  e ← getL1CacheEntry s a;
  let d := e_state e in
  Some (send s (mkRequest a GETS machineID dest (DataBlock_new g DATA_BLOCK XACT_MEMORY) false
    (c_Space m) (g_DATA_BLOCK_BYTES g) (getDelta_Access a) (l1_pts s) rts (c_memfetch m)
    (have_data d && (rts <? l1_pts s)) (touched d) (have_data d) (expired_by_ownself d)
    (expired_by_own_warp e) (expired_by_own_cta e) (expired_by_shared_warp e) (expired_by_shared_cta e)
    (c_ReqID m) (c_CtaID m) (c_WarpID m))).

(** Both send actions differ only in the type of the message. *)
Definition sendDataToL2 s a (type : CoherenceRequestType) : option (L1 C) :=
  m ← head (l_mandatory s);
  t ← tbe_of s a;
  dest ← map_L1CacheMachId_to_L2Cache g a machineID;
  Some (send s (mkRequest a type machineID dest (t_DataBlk t) true (c_Space m) (c_Size m) 0 (l1_pts s) 0
    (c_memfetch m) false false false false false false false false
    (c_ReqID m) (c_CtaID m) (c_WarpID m))).

Definition allocateTBE s a : option (L1 C) :=
  m ← head (l_mandatory s);
  s ← on_tbes s (fun t => TBE_allocate g NUMBER_OF_TBES t a);
  update_tbe s a (fun t => mkL1TBE (TBEState t) (c_Space m) (c_ThreadID m) (t_rts t)
                             (pendingReads t) (pendingWrites t) (t_DataBlk t)).

Definition set_t_rts (r : Z) (t : L1TBE) : L1TBE :=
  mkL1TBE (TBEState t) (t_Space t) (t_ThreadID t) r (pendingReads t) (pendingWrites t) (t_DataBlk t).
Definition allocateTBEwTime s a : option (L1 C) :=
  s ← allocateTBE s a;
  b ← isL1CacheTagPresent s a;
  assert! (b : bool);
  rts ← tag_getRts (l_cache s) a;
  update_tbe s a (set_t_rts rts).

Definition add_reads (n : Z) (t : L1TBE) : L1TBE :=
  mkL1TBE (TBEState t) (t_Space t) (t_ThreadID t) (t_rts t) (s32 (pendingReads t + n)) (pendingWrites t) (t_DataBlk t).
Definition add_writes (n : Z) (t : L1TBE) : L1TBE :=
  mkL1TBE (TBEState t) (t_Space t) (t_ThreadID t) (t_rts t) (pendingReads t) (s32 (pendingWrites t + n)) (t_DataBlk t).
Definition incPending s a (f : L1TBE -> L1TBE) : option (L1 C) :=
  b ← tbe_present s a; assert! (b : bool); update_tbe s a f.
Definition decPendingRead s a : option (L1 C) :=
  s ← incPending s a (add_reads (-1)); t ← tbe_of s a; assert! 0 <=? pendingReads t; Some s.
Definition decPendingWrite s a : option (L1 C) :=
  s ← incPending s a (add_writes (-1)); t ← tbe_of s a; assert! 0 <=? pendingWrites t; Some s.

Definition deallocateTBE s a : option (L1 C) :=
  t ← tbe_of s a;
  assert! pendingReads t =? 0;
  assert! pendingWrites t =? 0;
  on_tbes s (fun t => TBE_deallocate g NUMBER_OF_TBES t a).

(** The response actions, given the message they peek at. *)
Definition updateL1Lifetime s a (m : ResponseMsg) : option (L1 C) :=
  b ← isL1CacheTagPresent s (p_Address m);
  assert! (b : bool);
  on_cache s (fun c => tag_setRts c a (p_rts m)).

Definition set_expired_by_ownself (b : bool) (d : L1Entry) : L1Entry :=
  mkL1Entry (CacheState d) (touched d) (have_data d) b (num_loads d).

Definition updateProcessorTimestamp s a (m : ResponseMsg) : option (L1 C) :=
  s ← (if l1_pts s <? p_wts m then
         assert! response_type_ok (p_Type m);
         cta ← returnTopCtaID (l_cwid s) (p_Address m);
         wid ← returnTopWarpID (l_cwid s) (p_Address m);
         Some (set_lcache s (tag_setExpired (l_cache s) cta wid (p_wts m) (l1_pts s)).2)
       else Some s);
  b ← isL1CacheTagPresent s (p_Address m);
  s ← (if (b : bool) then
         rts ← tag_getRts (l_cache s) a;
         assign_entry s a (map_state (set_expired_by_ownself
           ((l1_pts s <=? rts) && (rts <? p_wts m))))
       else Some s);
  let s := set_lcache s (tag_setPts (l_cache s) (getTimeMax (l1_pts s) (p_wts m))) in
  assert! l1_pts s <? 4294967295;
  Some s.

Definition writeDataToL1Cache s a (m : ResponseMsg) : option (L1 C) :=
  b ← isL1CacheTagPresent s (p_Address m);
  assert! (b : bool);
  assign_entry s a (fun e => set_e_DataBlk e (p_DataBlk m)).

Definition updateL1Lifetime_inTBE s a (m : ResponseMsg) : option (L1 C) :=
  b ← tbe_present s (p_Address m);
  assert! (b : bool);
  update_tbe s a (set_t_rts (p_rts m)).

Definition setReqRecorderTs s (m : ResponseMsg) : option (L1 C) :=
  b ← isL1CacheTagPresent s (p_Address m);
  match p_Type m with
  | ACK | DATA_ATOMIC =>
      '(req_id, q) ← AddrQueue_pop (l_stores s) (p_Address m);
      rts ← (if (b : bool) then tag_getRts (l_cache s) (p_Address m) else Some 0);
      r ← request_recorder_set_reply_ts RECORDER (l_recorder s) req_id (l1_pts s) rts false false;
      Some (set_lqueues s (l_cwid s) (l_loads s) q r)
  | DATA =>
      assert! (b : bool);
      '(req_id, q) ← AddrQueue_pop (l_loads s) (p_Address m);
      rts ← tag_getRts (l_cache s) (p_Address m);
      r ← request_recorder_set_reply_ts RECORDER (l_recorder s) req_id (l1_pts s) rts false false;
      Some (set_lqueues s (l_cwid s) q (l_stores s) r)
  | _ => None
  end.

Definition setReqRecorderTsforLoadHit s a : option (L1 C) :=
  '(req_id, q) ← AddrQueue_pop (l_loads s) a;
  rts ← tag_getRts (l_cache s) a;
  r ← request_recorder_set_reply_ts RECORDER (l_recorder s) req_id (l1_pts s) rts true false;
  Some (set_lqueues s (l_cwid s) q (l_stores s) r).

Definition allocateReqRecorderEntry s : option (L1 C) :=
  m ← head (l_mandatory s);
  b ← isL1CacheTagPresent s (c_Address m);
  match c_Type m with
  | ST | ATOMIC =>
      rts ← (if (b : bool) then tag_getRts (l_cache s) (c_Address m) else Some 0);
      Some (set_lqueues s (l_cwid s) (l_loads s) (AddrQueue_push (l_stores s) (c_Address m) (c_ReqID m))
              (request_recorder_allocate RECORDER (l_recorder s) (c_ReqID m) (c_Address m) (l1_pts s) rts))
  | LD =>
      assert! (b : bool);
      rts ← tag_getRts (l_cache s) (c_Address m);
      Some (set_lqueues s (l_cwid s) (AddrQueue_push (l_loads s) (c_Address m) (c_ReqID m)) (l_stores s)
              (request_recorder_allocate RECORDER (l_recorder s) (c_ReqID m) (c_Address m) (l1_pts s) rts))
  | _ => None
  end.

Definition deallocateL1CacheBlock s a : option (L1 C) :=
  b ← isL1CacheTagPresent s a; assert! (b : bool); on_cache s (fun c => tag_deallocate c a).

Definition allocateL1DCacheBlock s (now : Z) : option (L1 C) :=
  m ← head (l_mandatory s);
  b ← isL1CacheTagPresent s (c_Address m);
  if (b : bool) then Some s else on_cache s (fun c => tag_allocate c (c_Address m) now).

Definition insertCWID s : option (L1 C) :=
  m ← head (l_mandatory s);
  b ← isL1CacheTagPresent s (c_Address m);
  if (b : bool) then on_cache s (fun c => tag_insertCtaWarpID c (c_Address m) (c_CtaID m) (c_WarpID m))
  else Some s.

Definition set_touched (b : bool) (d : L1Entry) : L1Entry :=
  mkL1Entry (CacheState d) b (have_data d) (expired_by_ownself d) (num_loads d).
Definition setTouched s a : option (L1 C) :=
  m ← head (l_mandatory s);
  b ← isL1CacheTagPresent s (c_Address m);
  assert! (b : bool);
  assign_entry s a (map_state (set_touched true)).
Definition clearTouched s a : option (L1 C) :=
  b ← isL1CacheTagPresent s a;
  if (b : bool) then assign_entry s a (map_state (set_touched false)) else Some s.
Definition markHaveData s a : option (L1 C) :=
  b ← isL1CacheTagPresent s a;
  assert! (b : bool);
  assign_entry s a (map_state (fun d => mkL1Entry (CacheState d) (touched d) true (expired_by_ownself d) (num_loads d))).
Definition incNumLoads s a : option (L1 C) :=
  b ← isL1CacheTagPresent s a;
  assert! (b : bool);
  assign_entry s a (map_state (fun d =>
    mkL1Entry (CacheState d) (touched d) (have_data d) (expired_by_ownself d) (s32 (num_loads d + 1)))).

(** The profiling actions check that the request was not profiled yet. *)
Definition profile s : option (L1 C) := m ← head (l_mandatory s); assert! negb (c_profiled m); Some s.

(** The delay queue is ordered by write timestamp, oldest first among equals. *)
Fixpoint delay_insert (m : ResponseMsg) (l : list ResponseMsg) : list ResponseMsg :=
  match l with
  | [] => [m]
  | x :: l => if p_wts x <=? p_wts m then x :: delay_insert m l else m :: x :: l
  end.

Definition popMandatory s : option (L1 C) :=
  match l_mandatory s with [] => None | _ :: l => Some (set_lports s l (l_responses s) (l_delay s)) end.
Definition popResponse s : option (L1 C) :=
  match l_responses s with
  | [] => None
  | m :: l => assert! response_type_ok (p_Type m); Some (set_lports s (l_mandatory s) l (l_delay s))
  end.
Definition popDelay s : option (L1 C) :=
  match l_delay s with [] => None | _ :: l => Some (set_lports s (l_mandatory s) (l_responses s) l) end.

(** One action at address [a], at cycle [now]. *)
Definition L1_action (now : Z) (act : L1_Action) s a : option (L1 C) :=
  match act with
  | a_issueGETS => issueGETS s a
  | d2t_sendDataToL2_fromTBE => sendDataToL2 s a REQ_DATA
  | d2t_sendAtomicDataToL2_fromTBE => sendDataToL2 s a REQ_DATA_ATOMIC
  | h_load_hit => Some (callback s (readCallback a))
  | hh_store_hit => m ← head (l_responses s); Some (callback s (writeCallback (p_Address m) (p_memfetch m)))
  | i_allocateTBE => allocateTBE s a
  | i_allocateTBEwTime => allocateTBEwTime s a
  | k_popMandatoryQueue => popMandatory s
  | o_popIncomingResponseQueue => popResponse s
  | s_deallocateTBE => deallocateTBE s a
  | tr_updateL1Lifetime => m ← head (l_responses s); updateL1Lifetime s a m
  | tp_updateProcessorTimestamp => m ← head (l_responses s); updateProcessorTimestamp s a m
  | dd_writeDataToL1Cache => m ← head (l_responses s); writeDataToL1Cache s a m
  | ff_deallocateL1CacheBlock => deallocateL1CacheBlock s a
  | oo_allocateL1DCacheBlock => allocateL1DCacheBlock s now
  | z_stall => Some s
  | pM_profileMiss | pH_profileHit => profile s
  | pr_incPendingRead => incPending s a (add_reads 1)
  | pw_incPendingWrite => incPending s a (add_writes 1)
  | pr_decPendingRead => decPendingRead s a
  | pw_decPendingWrite => decPendingWrite s a
  | st_setTouched => setTouched s a
  | ct_clearTouched => clearTouched s a
  | trt_updateL1Lifetime_inTBE => m ← head (l_responses s); updateL1Lifetime_inTBE s a m
  | mhd_markHaveData => markHaveData s a
  | cwid_insertCWID => insertCWID s
  | pcwq_pushIntoCwidQueue =>
      m ← head (l_mandatory s);
      Some (set_lqueues s (Cwid_push (l_cwid s) (c_Address m) (c_CtaID m) (c_WarpID m))
              (l_loads s) (l_stores s) (l_recorder s))
  | rcwq_removeFromCwidQueue =>
      q ← Cwid_pop (l_cwid s) a; Some (set_lqueues s q (l_loads s) (l_stores s) (l_recorder s))
  | arre_allocateReqRecorderEntry => allocateReqRecorderEntry s
  | setrrts_setReqRecorderTs => m ← head (l_responses s); setReqRecorderTs s m
  | setrrtslh_setReqRecorderTsforLoadHit => setReqRecorderTsforLoadHit s a
  | idq_insertDelayQueue =>
      m ← head (l_responses s); Some (set_lports s (l_mandatory s) (l_responses s) (delay_insert m (l_delay s)))
  | o_popDelayQueue => popDelay s
  | hh_delay_store_hit => m ← head (l_delay s); Some (callback s (writeCallback (p_Address m) (p_memfetch m)))
  | tr_delay_updateL1Lifetime => m ← head (l_delay s); updateL1Lifetime s a m
  | tp_delay_updateProcessorTimestamp => m ← head (l_delay s); updateProcessorTimestamp s a m
  | dd_delay_writeDataToL1Cache => m ← head (l_delay s); writeDataToL1Cache s a m
  | trt_delay_updateL1Lifetime_inTBE => m ← head (l_delay s); updateL1Lifetime_inTBE s a m
  | setrrts_delay_setReqRecorderTs => m ← head (l_delay s); setReqRecorderTs s m
  | inl_incNumLoads => incNumLoads s a
  | pnl_profileNumLoads => Some s
  end.

Fixpoint L1_actions (now : Z) (acts : list L1_Action) s a : option (L1 C) :=
  match acts with [] => Some s | act :: acts => s ← L1_action now act s a; L1_actions now acts s a end.

(** ** Generated code *)
(** A transition with [check_allocate] needs a free transaction buffer. *)
Definition needs_TBE (acts : list L1_Action) : bool :=
  bool_decide (i_allocateTBE ∈ acts \/ i_allocateTBEwTime ∈ acts).

Definition L1_doTransition (now : Z) s (event : L1_Event) a : option (TransitionResult * L1 C) :=
  state ← getState s a;
  '(next_state, acts) ← L1_transition state event;
  if needs_TBE acts && negb (TBE_areNSlotsAvailable NUMBER_OF_TBES (l_tbes s) 1) then
    Some (ResourceStall, s)
  else if bool_decide (z_stall ∈ acts) then Some (ProtocolStall, s)
  else
    s ← L1_actions now acts s a;
    s ← setState s a next_state;
    Some (Valid, s).

(** ** Ports *)
(** [mandatoryQueue_in]. *)
Definition mandatoryQueue_in (now : Z) s : option (TransitionResult * L1 C) :=
  m ← head (l_mandatory s);
  let a := c_Address m in
  let request := event ← mandatory_request_type_to_event (c_Type m); L1_doTransition now s event a in
  if bool_decide (c_Type m = ST) then request
  else
    b ← tag_isTagPresent (l_cache s) a;
    if (b : bool) then request
    else
      avail ← tag_cacheAvail (l_cache s) a;
      if (avail : bool) then request
      else v ← tag_cacheProbe (l_cache s) a; L1_doTransition now s L1_Replacement v.

(** The event of a response, for the response port and for the delay port. *)
Definition response_event s (m : ResponseMsg) (data data_done atomic atomic_done ack ack_done : L1_Event)
    : option L1_Event :=
  match p_Type m with
  | DATA =>
      r ← get_pending_reads s (p_Address m);
      assert! r =? 1;
      w ← get_pending_writes s (p_Address m);
      Some (if 0 <? w then data else data_done)
  | DATA_ATOMIC | ACK =>
      w ← get_pending_writes s (p_Address m);
      assert! 0 <? w;
      r ← get_pending_reads s (p_Address m);
      let '(more, last) := if decide (p_Type m = ACK) then (ack, ack_done) else (atomic, atomic_done) in
      Some (if (0 <? r) || (1 <? w) then more else last)
  | _ => None
  end.

(** [responseIntraChipL1Network_in]. *)
Definition responseIntraChipL1Network_in (now : Z) s : option (TransitionResult * L1 C) :=
  m ← head (l_responses s);
  assert! bool_decide (id ∈ p_Destination m);
  if DELAY_QUEUE_ENABLED && (DELAY_QUEUE_THRESHOLD <? p_wts m - l1_pts s) then
    L1_doTransition now s Delay (p_Address m)
  else
    event ← response_event s m Data Data_Done DataAtomic DataAtomic_Done Ack Ack_Done;
    L1_doTransition now s event (p_Address m).

(** [L2ResponseDelayQueue_in], when its counter allows; nothing happens until
    the scheduler is stalled. *)
Definition L2ResponseDelayQueue_in (now : Z) (scheduler_stalled : bool) s : option (TransitionResult * L1 C) :=
  m ← head (l_delay s);
  assert! DELAY_QUEUE_ENABLED;
  assert! bool_decide (id ∈ p_Destination m);
  if scheduler_stalled then
    event ← response_event s m Delay_Data Delay_Data_Done Delay_DataAtomic Delay_DataAtomic_Done
              Delay_Ack Delay_Ack_Done;
    L1_doTransition now s event (p_Address m)
  else Some (ProtocolStall, s).
End l1.
