(* ===== verification/RccL1Spec.v ===== *)
(** What the L1 controller does to one block: a block machine without tables,
    tags or sets, the proof that the controller of RccL1 implements one such machine per
    block, and the theorems about the protocol on the L1 side. *)
From S2P Require Import Prelude Vector Config Address DataBlock CacheMemory Tables Requests TagArray RccMsg RccL1.

(** ** The block machine *)
(** One block's share of the controller: its cache entry, its transaction
    buffer, its queues; and the clock, the recorder and the message buffers all
    blocks share. *)
Record Blk := mkBlk {
  b_pts : Z; b_entry : option (Entry L1Entry); b_tbe : option L1TBE;
  b_cwid : list (Z * Z); b_loads : list Z; b_stores : list Z; b_recorder : RequestRecorder;
  b_mandatory : list CacheMsg; b_responses : list ResponseMsg; b_delay : list ResponseMsg;
  b_out : list RequestMsg; b_calls : list Callback;
}.

Section blk.
Variables (g : Globals) (DATA_BLOCK XACT_MEMORY : bool) (CL_FIXED_LEASE id : Z) (RECORDER : bool).
(** The bank of a block and its entry when allocated. *)
Variables (home : Z -> MachineID) (fresh : Z -> Entry L1Entry).
Implicit Types (x : Blk) (a : Z).

Definition set_bpts x p : Blk :=
  mkBlk p (b_entry x) (b_tbe x) (b_cwid x) (b_loads x) (b_stores x) (b_recorder x)
    (b_mandatory x) (b_responses x) (b_delay x) (b_out x) (b_calls x).
Definition set_bentry x e : Blk :=
  mkBlk (b_pts x) e (b_tbe x) (b_cwid x) (b_loads x) (b_stores x) (b_recorder x)
    (b_mandatory x) (b_responses x) (b_delay x) (b_out x) (b_calls x).
Definition set_btbe x t : Blk :=
  mkBlk (b_pts x) (b_entry x) t (b_cwid x) (b_loads x) (b_stores x) (b_recorder x)
    (b_mandatory x) (b_responses x) (b_delay x) (b_out x) (b_calls x).
Definition set_bqueues x q l t r : Blk :=
  mkBlk (b_pts x) (b_entry x) (b_tbe x) q l t r
    (b_mandatory x) (b_responses x) (b_delay x) (b_out x) (b_calls x).
Definition set_bports x m r d : Blk :=
  mkBlk (b_pts x) (b_entry x) (b_tbe x) (b_cwid x) (b_loads x) (b_stores x) (b_recorder x)
    m r d (b_out x) (b_calls x).
Definition set_bout x o c : Blk :=
  mkBlk (b_pts x) (b_entry x) (b_tbe x) (b_cwid x) (b_loads x) (b_stores x) (b_recorder x)
    (b_mandatory x) (b_responses x) (b_delay x) o c.

(** The head of a queue, if it is about [a]. *)
Definition request_at x a : option CacheMsg :=
  m ← head (b_mandatory x); assert! c_Address m =? a; Some m.
Definition response_at (l : list ResponseMsg) a : option ResponseMsg :=
  m ← head l; assert! p_Address m =? a; Some m.

Definition on_entry x (f : Entry L1Entry -> Entry L1Entry) : option Blk :=
  e ← b_entry x; Some (set_bentry x (Some (f e))).
Definition on_tbe x (f : L1TBE -> L1TBE) : option Blk :=
  t ← b_tbe x; Some (set_btbe x (Some (f t))).
Definition bsend x q : Blk := set_bout x (b_out x ++ [q]) (b_calls x).
Definition bcall x c : Blk := set_bout x (b_out x) (b_calls x ++ [c]).
Definition lease_of x : Z := from_option e_rts 0 (b_entry x).

Definition b_issueGETS x a : option Blk :=
  m ← request_at x a;
  e ← b_entry x;
  let d := e_state e in
  Some (bsend x (mkRequest a GETS (machineID id) (home a) (DataBlock_new g DATA_BLOCK XACT_MEMORY) false
    (c_Space m) (g_DATA_BLOCK_BYTES g) CL_FIXED_LEASE (b_pts x) (e_rts e) (c_memfetch m)
    (have_data d && (e_rts e <? b_pts x)) (touched d) (have_data d) (expired_by_ownself d)
    (expired_by_own_warp e) (expired_by_own_cta e) (expired_by_shared_warp e) (expired_by_shared_cta e)
    (c_ReqID m) (c_CtaID m) (c_WarpID m))).

Definition b_sendData x a type : option Blk :=
  m ← request_at x a;
  t ← b_tbe x;
  Some (bsend x (mkRequest a type (machineID id) (home a) (t_DataBlk t) true (c_Space m) (c_Size m) 0
    (b_pts x) 0 (c_memfetch m) false false false false false false false false
    (c_ReqID m) (c_CtaID m) (c_WarpID m))).

Definition new_tbe (m : CacheMsg) (rts : Z) : L1TBE :=
  mkL1TBE L1_I (c_Space m) (c_ThreadID m) rts 0 0 (DataBlock_new g DATA_BLOCK XACT_MEMORY).

(** Raising the processor timestamp to that of a response. *)
Definition b_updatePts x (m : ResponseMsg) : option Blk :=
  x1 ← (if b_pts x <? p_wts m then
          assert! response_type_ok (p_Type m);
          cw ← head (b_cwid x);
          Some (set_bentry x ((fun e => (expire_entry cw.1 cw.2 (p_wts m) (b_pts x) e).2) <$> b_entry x))
        else Some x);
  let x2 := set_bentry x1 ((fun e => map_state (set_expired_by_ownself
              ((b_pts x <=? e_rts e) && (e_rts e <? p_wts m))) e) <$> b_entry x1) in
  assert! Z.max (b_pts x) (p_wts m) <? 4294967295;
  Some (set_bpts x2 (Z.max (b_pts x) (p_wts m))).

Definition b_reply x (m : ResponseMsg) : option Blk :=
  match p_Type m with
  | ACK | DATA_ATOMIC =>
      match b_stores x with
      | [] => None
      | i :: q => r ← request_recorder_set_reply_ts RECORDER (b_recorder x) i (b_pts x) (lease_of x) false false;
                  Some (set_bqueues x (b_cwid x) (b_loads x) q r)
      end
  | DATA =>
      match b_loads x, b_entry x with
      | i :: q, Some e => r ← request_recorder_set_reply_ts RECORDER (b_recorder x) i (b_pts x) (e_rts e) false false;
                          Some (set_bqueues x (b_cwid x) q (b_stores x) r)
      | _, _ => None
      end
  | _ => None
  end.

Definition b_record x a : option Blk :=
  m ← request_at x a;
  let r := request_recorder_allocate RECORDER (b_recorder x) (c_ReqID m) a (b_pts x) (lease_of x) in
  match c_Type m with
  | ST | ATOMIC => Some (set_bqueues x (b_cwid x) (b_loads x) (b_stores x ++ [c_ReqID m]) r)
  | LD => e ← b_entry x; Some (set_bqueues x (b_cwid x) (b_loads x ++ [c_ReqID m]) (b_stores x) r)
  | _ => None
  end.

(** One action. *)
Definition blk_action (act : L1_Action) a x : option Blk :=
  match act with
  | a_issueGETS => b_issueGETS x a
  | d2t_sendDataToL2_fromTBE => b_sendData x a REQ_DATA
  | d2t_sendAtomicDataToL2_fromTBE => b_sendData x a REQ_DATA_ATOMIC
  | h_load_hit => Some (bcall x (readCallback a))
  | hh_store_hit => m ← response_at (b_responses x) a; Some (bcall x (writeCallback a (p_memfetch m)))
  | hh_delay_store_hit => m ← response_at (b_delay x) a; Some (bcall x (writeCallback a (p_memfetch m)))
  | i_allocateTBE =>
      m ← request_at x a;
      match b_tbe x with None => Some (set_btbe x (Some (new_tbe m 0))) | Some _ => None end
  | i_allocateTBEwTime =>
      m ← request_at x a;
      match b_tbe x, b_entry x with
      | None, Some e => Some (set_btbe x (Some (new_tbe m (e_rts e))))
      | _, _ => None
      end
  | k_popMandatoryQueue => m ← request_at x a; Some (set_bports x (tail (b_mandatory x)) (b_responses x) (b_delay x))
  | o_popIncomingResponseQueue =>
      m ← response_at (b_responses x) a;
      assert! response_type_ok (p_Type m);
      Some (set_bports x (b_mandatory x) (tail (b_responses x)) (b_delay x))
  | o_popDelayQueue => m ← response_at (b_delay x) a; Some (set_bports x (b_mandatory x) (b_responses x) (tail (b_delay x)))
  | idq_insertDelayQueue =>
      m ← response_at (b_responses x) a;
      Some (set_bports x (b_mandatory x) (b_responses x) (delay_insert m (b_delay x)))
  | s_deallocateTBE =>
      t ← b_tbe x;
      assert! (pendingReads t =? 0) && (pendingWrites t =? 0);
      Some (set_btbe x None)
  | tr_updateL1Lifetime => m ← response_at (b_responses x) a; on_entry x (fun e => set_e_rts e (p_rts m))
  | tr_delay_updateL1Lifetime => m ← response_at (b_delay x) a; on_entry x (fun e => set_e_rts e (p_rts m))
  | tp_updateProcessorTimestamp => m ← response_at (b_responses x) a; b_updatePts x m
  | tp_delay_updateProcessorTimestamp => m ← response_at (b_delay x) a; b_updatePts x m
  | dd_writeDataToL1Cache => m ← response_at (b_responses x) a; on_entry x (fun e => set_e_DataBlk e (p_DataBlk m))
  | dd_delay_writeDataToL1Cache => m ← response_at (b_delay x) a; on_entry x (fun e => set_e_DataBlk e (p_DataBlk m))
  | trt_updateL1Lifetime_inTBE => m ← response_at (b_responses x) a; on_tbe x (set_t_rts (p_rts m))
  | trt_delay_updateL1Lifetime_inTBE => m ← response_at (b_delay x) a; on_tbe x (set_t_rts (p_rts m))
  | setrrts_setReqRecorderTs => m ← response_at (b_responses x) a; b_reply x m
  | setrrts_delay_setReqRecorderTs => m ← response_at (b_delay x) a; b_reply x m
  | setrrtslh_setReqRecorderTsforLoadHit =>
      match b_loads x, b_entry x with
      | i :: q, Some e => r ← request_recorder_set_reply_ts RECORDER (b_recorder x) i (b_pts x) (e_rts e) true false;
                          Some (set_bqueues x (b_cwid x) q (b_stores x) r)
      | _, _ => None
      end
  | ff_deallocateL1CacheBlock => e ← b_entry x; Some (set_bentry x None)
  | oo_allocateL1DCacheBlock =>
      m ← request_at x a;
      Some (match b_entry x with Some _ => x | None => set_bentry x (Some (fresh a)) end)
  | z_stall | pnl_profileNumLoads => Some x
  | pM_profileMiss | pH_profileHit => m ← request_at x a; assert! negb (c_profiled m); Some x
  | pr_incPendingRead => on_tbe x (add_reads 1)
  | pw_incPendingWrite => on_tbe x (add_writes 1)
  | pr_decPendingRead => x ← on_tbe x (add_reads (-1)); t ← b_tbe x; assert! 0 <=? pendingReads t; Some x
  | pw_decPendingWrite => x ← on_tbe x (add_writes (-1)); t ← b_tbe x; assert! 0 <=? pendingWrites t; Some x
  | st_setTouched => m ← request_at x a; on_entry x (map_state (set_touched true))
  | ct_clearTouched => Some (set_bentry x (map_state (set_touched false) <$> b_entry x))
  | mhd_markHaveData => on_entry x (map_state (fun d =>
      mkL1Entry (CacheState d) (touched d) true (expired_by_ownself d) (num_loads d)))
  | inl_incNumLoads => on_entry x (map_state (fun d =>
      mkL1Entry (CacheState d) (touched d) (have_data d) (expired_by_ownself d) (s32 (num_loads d + 1))))
  | cwid_insertCWID =>
      m ← request_at x a;
      Some (set_bentry x ((fun e => insert_cta_warp e (c_CtaID m) (c_WarpID m)) <$> b_entry x))
  | pcwq_pushIntoCwidQueue =>
      m ← request_at x a;
      Some (set_bqueues x (b_cwid x ++ [(c_CtaID m, c_WarpID m)]) (b_loads x) (b_stores x) (b_recorder x))
  | rcwq_removeFromCwidQueue =>
      match b_cwid x with [] => None | _ :: q => Some (set_bqueues x q (b_loads x) (b_stores x) (b_recorder x)) end
  | arre_allocateReqRecorderEntry => b_record x a
  end.

Fixpoint blk_actions (acts : list L1_Action) a x : option Blk :=
  match acts with [] => Some x | act :: acts => x ← blk_action act a x; blk_actions acts a x end.

(** The state of a block, and recording the next one. *)
Definition blk_live x : bool :=
  match b_tbe x with Some t => b_pts x <=? t_rts t | None => b_pts x <=? lease_of x end.
Definition blk_state x : L1_State :=
  match b_tbe x with
  | Some t => if bool_decide (TBEState t = L1_SM) && negb (blk_live x) then L1_I_I else TBEState t
  | None =>
      match b_entry x with
      | Some e => if blk_live x then CacheState (e_state e) else L1_I
      | None => L1_I
      end
  end.
(** The copy a load may read, and the end of its lease. *)
Definition readable x : bool := blk_live x && match blk_state x with L1_S | L1_SM => true | _ => false end.
Definition copy_rts x : Z := match b_tbe x with Some t => t_rts t | None => lease_of x end.
Definition blk_set_state (st : L1_State) x : Blk :=
  set_bentry (set_btbe x (set_TBEState st <$> b_tbe x))
    ((fun e => set_e_Permission (map_state (set_state st) e) (permission_of st)) <$> b_entry x).

(** A transition of the block machine. *)
Definition blk_step (event : L1_Event) a x : option Blk :=
  '(next, acts) ← L1_transition (blk_state x) event;
  x ← blk_actions acts a x;
  Some (blk_set_state next x).
End blk.

(** What a block keeps while another one is handled: everything but the
    "expired" marks of its entry; the clock does not go back. *)
Definition same_lease (e e' : option (Entry L1Entry)) : Prop :=
  match e, e' with
  | Some e, Some e' => e_rts e' = e_rts e /\ e_state e' = e_state e /\ e_DataBlk e' = e_DataBlk e
  | None, None => True
  | _, _ => False
  end.
Record kept (x x' : Blk) : Prop := {
  kept_pts : b_pts x <= b_pts x';
  kept_entry : same_lease (b_entry x) (b_entry x');
  kept_tbe : b_tbe x' = b_tbe x;
  kept_cwid : b_cwid x' = b_cwid x;
  kept_loads : b_loads x' = b_loads x;
  kept_stores : b_stores x' = b_stores x;
  kept_recorder : dom (b_recorder x) ⊆ dom (b_recorder x');
}.
#[export] Instance kept_preorder : PreOrder kept.
Proof.
  split.
  - intros x. split; try done. by destruct (b_entry x).
  - intros x y z [] []. split; try congruence; try lia; [|set_solver].
    unfold same_lease in *. destruct (b_entry x), (b_entry y), (b_entry z); naive_solver congruence.
Qed.

(** What can be read afterwards could be read before, under the same lease. *)
Definition no_new_copy (x x' : Blk) : Prop := readable x' = true -> readable x = true /\ copy_rts x' = copy_rts x.

Lemma readable_live x : readable x = true -> b_pts x <= copy_rts x.
Proof. unfold readable, copy_rts, blk_live. intros [Hl _]%andb_true_iff. destruct (b_tbe x); lia. Qed.

Lemma kept_no_new_copy x x' : kept x x' -> no_new_copy x x'.
Proof.
  intros [Hp He Ht _ _ _ _]. unfold no_new_copy, readable, copy_rts, blk_state, blk_live, lease_of. rewrite Ht.
  unfold same_lease in He. destruct (b_tbe x) as [t|].
  - destruct (b_pts x' <=? t_rts t) eqn:E'; simpl; [|done]. rewrite (proj2 (Z.leb_le (b_pts x) _)) by lia. done.
  - destruct (b_entry x) as [e|], (b_entry x') as [e'|]; simpl; try done; [|by rewrite !andb_false_r].
    destruct He as (-> & -> & _).
    destruct (b_pts x' <=? e_rts e) eqn:E'; simpl; [|done]. by rewrite (proj2 (Z.leb_le (b_pts x) _)) by lia.
Qed.

(** ** Refinement *)
Section refinement.
Context {C : Type} `{TA : TagArray C L1Entry} `{TL : !TagArrayLaws C L1Entry default}.
Variables (g : Globals) (DATA_BLOCK XACT_MEMORY : bool) (NUMBER_OF_TBES CL_FIXED_LEASE : Z)
          (id : Z) (RECORDER DELAY_QUEUE_ENABLED : bool) (DELAY_QUEUE_THRESHOLD : Z).
Variable home : Z -> MachineID.
(** Blocks are lines, and every block has a bank. *)
Hypothesis block_line : forall a, tag_block a -> is_line g a = true.
Hypothesis home_bank : forall a, tag_block a -> map_L1CacheMachId_to_L2Cache g a (machineID id) = Some (home a).
Implicit Types (s : L1 C) (a b : Z).

Abbreviation action := (L1_action g DATA_BLOCK XACT_MEMORY NUMBER_OF_TBES CL_FIXED_LEASE id RECORDER).
Abbreviation actions := (L1_actions g DATA_BLOCK XACT_MEMORY NUMBER_OF_TBES CL_FIXED_LEASE id RECORDER).
Abbreviation doTransition := (L1_doTransition g DATA_BLOCK XACT_MEMORY NUMBER_OF_TBES CL_FIXED_LEASE id RECORDER).
Abbreviation block_action := (blk_action g DATA_BLOCK XACT_MEMORY CL_FIXED_LEASE id RECORDER home tag_fresh).
Abbreviation block_actions := (blk_actions g DATA_BLOCK XACT_MEMORY CL_FIXED_LEASE id RECORDER home tag_fresh).
Abbreviation block_step := (blk_step g DATA_BLOCK XACT_MEMORY CL_FIXED_LEASE id RECORDER home tag_fresh).

(** The share of block [a]. *)
Definition abs s a : Blk :=
  mkBlk (tag_getPts (l_cache s)) (tag_lookup (l_cache s) a) (l_tbes s !! a) (queue (l_cwid s) a)
    (queue (l_loads s) a) (queue (l_stores s) a) (l_recorder s)
    (l_mandatory s) (l_responses s) (l_delay s) (l_out s) (l_calls s).

(** The controller's tables are well formed. *)
Record base_ok s : Prop := {
  base_cache : tag_ok (l_cache s);
  base_tbes : tbe_ok g NUMBER_OF_TBES (l_tbes s);
  base_cwid : queues_ok (l_cwid s);
  base_loads : queues_ok (l_loads s);
  base_stores : queues_ok (l_stores s);
}.

(** The controller went from [s] to [s'], block [a] from its share to [x]. *)
Record sim s s' a x : Prop := {
  sim_base : base_ok s';
  sim_abs : abs s' a = x;
  sim_others b : tag_block b -> b <> a -> kept (abs s b) (abs s' b);
}.

Lemma sim_refl s a : base_ok s -> sim s s a (abs s a).
Proof using Type. intros Hs. by split. Qed.
Lemma sim_trans s1 s2 s3 a x2 x3 : sim s1 s2 a x2 -> sim s2 s3 a x3 -> sim s1 s3 a x3.
Proof using Type.
  intros [? ? H12] [? ? H23]. split; [done..|]. intros b Hb Hne. etrans; [by apply H12|by apply H23].
Qed.

(** The tables of the controller, read at block [a]. *)
Lemma tag_present s a : base_ok s -> tag_block a ->
  isL1CacheTagPresent s a = Some (bool_decide (is_Some (tag_lookup (l_cache s) a))).
Proof using Type. intros Hs Ha. by apply tag_isTagPresent_law; [apply Hs|]. Qed.

Lemma tbe_present_at s a : base_ok s -> tag_block a ->
  tbe_present g NUMBER_OF_TBES s a = Some (bool_decide (is_Some (l_tbes s !! a))).
Proof using block_line. intros Hs Ha. apply TBE_isPresent_spec; [apply Hs|auto]. Qed.

Lemma tbe_of_at s a : base_ok s -> tag_block a -> tbe_of g NUMBER_OF_TBES s a = l_tbes s !! a.
Proof using block_line. intros Hs Ha. apply TBE_lookup_spec; [apply Hs|auto]. Qed.

Lemma getRts_at s a e : base_ok s -> tag_block a -> tag_lookup (l_cache s) a = Some e ->
  tag_getRts (l_cache s) a = Some (e_rts e).
Proof using Type. intros Hs. apply tag_getRts_law, Hs. Qed.

Lemma getEntry_at s a e : base_ok s -> tag_block a -> tag_lookup (l_cache s) a = Some e ->
  getL1CacheEntry s a = Some e.
Proof using Type. intros Hs Ha He. unfold getL1CacheEntry. rewrite tag_present by done. by rewrite He. Qed.

(** Writing one table. *)
Lemma sim_cache s a c e :
  base_ok s -> tag_block a -> wrote tag_ok tag_block (l_cache s) c a e ->
  sim s (set_lcache s c) a (set_bentry (abs s a) e).
Proof using Type.
  intros [] Ha (Hc & Hp & Hm & Hl). split; [by split| |].
  - unfold abs, set_bentry; simpl. rewrite Hp, Hl by done. by rewrite decide_True.
  - intros b Hb Hne. split; simpl; try done; [lia|]. rewrite Hl, decide_False by done.
    by destruct (tag_lookup (l_cache s) b).
Qed.

Lemma sim_tbes s a t :
  base_ok s -> tbe_ok g NUMBER_OF_TBES t -> (forall b, b <> a -> t !! b = l_tbes s !! b) ->
  sim s (set_ltbes s t) a (set_btbe (abs s a) (t !! a)).
Proof using Type.
  intros [] Ht Hl. split; [by split|done|]. intros b Hb Hne.
  split; simpl; try done; [by destruct (tag_lookup (l_cache s) b)|by apply Hl].
Qed.

Lemma sim_queues s a q l t r :
  base_ok s -> queues_ok q -> queues_ok l -> queues_ok t ->
  (forall b, b <> a -> queue q b = queue (l_cwid s) b /\ queue l b = queue (l_loads s) b /\
                       queue t b = queue (l_stores s) b) ->
  dom (l_recorder s) ⊆ dom r ->
  sim s (set_lqueues s q l t r) a (set_bqueues (abs s a) (queue q a) (queue l a) (queue t a) r).
Proof using Type.
  intros [] Hq Hl Ht Hb Hr. split; [by split|done|]. intros b Hbb Hne.
  destruct (Hb b Hne) as (? & ? & ?).
  split; simpl; try done. by destruct (tag_lookup (l_cache s) b).
Qed.

Lemma sim_ports s a m r d :
  base_ok s -> sim s (set_lports s m r d) a (set_bports (abs s a) m r d).
Proof using Type.
  intros []. split; [by split|done|]. intros b Hbb Hne.
  split; simpl; try done. by destruct (tag_lookup (l_cache s) b).
Qed.

Lemma sim_out s a o c :
  base_ok s -> sim s (set_lout s o c) a (set_bout (abs s a) o c).
Proof using Type.
  intros []. split; [by split|done|]. intros b Hbb Hne.
  split; simpl; try done. by destruct (tag_lookup (l_cache s) b).
Qed.

Lemma sim_pts s a p :
  base_ok s -> tag_getPts (l_cache s) <= p ->
  sim s (set_lcache s (tag_setPts (l_cache s) p)) a (set_bpts (abs s a) p).
Proof using Type.
  intros [] Hp. destruct (tag_setPts_law (l_cache s) p) as (? & Hp' & _ & Hl); [done|].
  split; [by split| |].
  - unfold abs, set_bpts; simpl. by rewrite Hp', Hl.
  - intros b Hb Hne. split; simpl; try done; [lia|]. rewrite Hl. by destruct (tag_lookup (l_cache s) b).
Qed.

Lemma sim_expired s a cta wid wts load_ts :
  base_ok s -> tag_block a ->
  sim s (set_lcache s (tag_setExpired (l_cache s) cta wid wts load_ts).2) a
    (set_bentry (abs s a) ((fun e => (expire_entry cta wid wts load_ts e).2) <$> tag_lookup (l_cache s) a)).
Proof using Type.
  intros [] Ha. destruct (tag_setExpired_law (l_cache s) cta wid wts load_ts) as (? & Hp & _ & Hl); [done|].
  split; [by split| |].
  - unfold abs, set_bentry; simpl. by rewrite Hp, Hl.
  - intros b Hb Hne. split; simpl; try done; [lia|]. rewrite Hl by done.
    destruct (tag_lookup (l_cache s) b) as [e|]; simpl; [|done].
    unfold expire_entry. by repeat case_match.
Qed.

Lemma assign_sim s a f e :
  base_ok s -> tag_block a -> tag_lookup (l_cache s) a = Some e ->
  e_Address (f e) = e_Address e -> e_Permission (f e) = e_Permission e ->
  exists s', assign_entry s a f = Some s' /\ sim s s' a (set_bentry (abs s a) (Some (f e))).
Proof using Type.
  intros Hs Ha He Hf Hp. unfold assign_entry, on_cache. rewrite tag_present, He by done. simpl.
  destruct (tag_assign_law (l_cache s) a f e) as (c & -> & Hc); [apply Hs|done..|].
  eexists. split; [done|]. by apply sim_cache.
Qed.

Lemma update_tbe_sim s a f t :
  base_ok s -> l_tbes s !! a = Some t ->
  exists s', update_tbe g NUMBER_OF_TBES s a f = Some s' /\ sim s s' a (set_btbe (abs s a) (Some (f t))).
Proof using Type.
  intros Hs Ht. unfold update_tbe, on_tbes.
  destruct (TBE_update_spec g NUMBER_OF_TBES (l_tbes s) a f) as [-> Hok]; [apply Hs|by eexists|].
  eexists; split; [done|]. replace (Some (f t)) with (alter f a (l_tbes s) !! a)
    by (rewrite lookup_alter_eq; by rewrite Ht).
  apply sim_tbes; [done..|]. intros b Hb. by rewrite lookup_alter_ne.
Qed.

Lemma on_entry_sim s a f x :
  base_ok s -> tag_block a -> (forall e, e_Address (f e) = e_Address e /\ e_Permission (f e) = e_Permission e) ->
  on_entry (abs s a) f = Some x -> exists s', assign_entry s a f = Some s' /\ sim s s' a x.
Proof using Type.
  intros Hs Ha Hf Hx. unfold on_entry in Hx. run Hx. subst x. by apply assign_sim; try apply Hf.
Qed.

Lemma on_tbe_sim s a f x :
  base_ok s -> tag_block a -> on_tbe (abs s a) f = Some x ->
  exists s', update_tbe g NUMBER_OF_TBES s a f = Some s' /\ sim s s' a x.
Proof using Type. intros Hs Ha Hx. unfold on_tbe in Hx. run Hx. subst x. by apply update_tbe_sim. Qed.

Lemma incPending_sim s a f x :
  base_ok s -> tag_block a -> on_tbe (abs s a) f = Some x ->
  exists s', incPending g NUMBER_OF_TBES s a f = Some s' /\ sim s s' a x.
Proof using block_line.
  intros Hs Ha Hx. assert (Hx' := Hx). unfold on_tbe in Hx'. run Hx'. simpl in E.
  unfold incPending. rewrite tbe_present_at, E by done. simpl. by apply on_tbe_sim.
Qed.

Lemma setRts_sim s a r e :
  base_ok s -> tag_block a -> tag_lookup (l_cache s) a = Some e ->
  exists s', on_cache s (fun c => tag_setRts c a r) = Some s' /\
    sim s s' a (set_bentry (abs s a) (Some (set_e_rts e r))).
Proof using Type.
  intros Hs Ha He. unfold on_cache.
  destruct (tag_setRts_law (l_cache s) a r e) as (c & -> & Hc); [apply Hs|done..|].
  eexists; split; [done|]. by apply sim_cache.
Qed.

(** A request's peeked message is about the block. *)
Lemma request_at_Some s a m : request_at (abs s a) a = Some m -> head (l_mandatory s) = Some m /\ c_Address m = a.
Proof using Type. unfold request_at. intros E. run E. subst. by apply Z.eqb_eq in Heqb. Qed.
Lemma response_at_Some l a m : response_at l a = Some m -> head l = Some m /\ p_Address m = a.
Proof using Type. unfold response_at. intros E. run E. subst. by apply Z.eqb_eq in Heqb. Qed.

Lemma allocateTBE_sim s a m :
  base_ok s -> tag_block a -> map_size (l_tbes s) < NUMBER_OF_TBES ->
  head (l_mandatory s) = Some m -> l_tbes s !! a = None ->
  exists s', allocateTBE g DATA_BLOCK XACT_MEMORY NUMBER_OF_TBES s a = Some s' /\
    sim s s' a (set_btbe (abs s a) (Some (new_tbe g DATA_BLOCK XACT_MEMORY m 0))).
Proof using block_line.
  intros Hs Ha Hsz Hm Ht. unfold allocateTBE. rewrite Hm. simpl. unfold on_tbes at 1.
  destruct (TBE_allocate_spec (H := L1TBE_default g DATA_BLOCK XACT_MEMORY) g NUMBER_OF_TBES
              (l_tbes s) a) as [-> Hok];
    [apply Hs|auto|done..|]. simpl.
  set (s1 := set_ltbes s _).
  assert (H1 : sim s s1 a (set_btbe (abs s a) (l_tbes s1 !! a))).
  { apply (sim_tbes s a); [done..|]. intros b Hb. by apply lookup_insert_ne. }
  destruct (update_tbe_sim s1 a (fun t => mkL1TBE (TBEState t) (c_Space m) (c_ThreadID m) (t_rts t)
              (pendingReads t) (pendingWrites t) (t_DataBlk t)) (L1TBE_new g DATA_BLOCK XACT_MEMORY)) as (s2 & -> & H2);
    [apply H1|apply lookup_insert_eq|].
  exists s2. split; [done|]. eapply sim_trans; [done|].
  destruct H2 as [? Habs ?]. split; [done| |done]. rewrite Habs. by rewrite (sim_abs _ _ _ _ H1).
Qed.

Lemma updatePts_sim s a m x :
  base_ok s -> tag_block a -> p_Address m = a -> b_updatePts (abs s a) m = Some x ->
  exists s', updateProcessorTimestamp s a m = Some s' /\ sim s s' a x.
Proof using Type.
  intros Hs Ha Hm Hx. unfold b_updatePts in Hx. apply bind_Some in Hx as (x1 & Hx1 & Hx).
  unfold updateProcessorTimestamp. rewrite Hm.
  (* the expiry marks *)
  assert (exists s1, (if tag_getPts (l_cache s) <? p_wts m then
         assert! response_type_ok (p_Type m);
         cta ← returnTopCtaID (l_cwid s) a;
         wid ← returnTopWarpID (l_cwid s) a;
         Some (set_lcache s (tag_setExpired (l_cache s) cta wid (p_wts m) (tag_getPts (l_cache s))).2)
       else Some s) = Some s1 /\ sim s s1 a x1) as (s1 & -> & H1).
  { simpl in Hx1. destruct (tag_getPts (l_cache s) <? p_wts m).
    - destruct (response_type_ok (p_Type m)); [|done]. apply bind_Some in Hx1 as ([cta wid] & Hcw & Hx1).
      destruct (queue (l_cwid s) a) as [|cw q] eqn:Hq; [done|]. injection Hcw as ->.
      destruct (Cwid_pop_spec (l_cwid s) a _ q (base_cwid s Hs) Hq) as (_ & _ & -> & -> & _). simpl.
      eexists; split; [done|]. injection Hx1 as <-. by apply sim_expired.
    - exists s. injection Hx1 as <-. split; [done|]. by apply sim_refl. }
  simpl. destruct H1 as [Hs1 Habs1 Ho1].
  assert (Hpts : tag_getPts (l_cache s1) = tag_getPts (l_cache s)).
  { change (b_pts (abs s1 a) = b_pts (abs s a)). rewrite Habs1. simpl in Hx1.
    destruct (tag_getPts (l_cache s) <? p_wts m); [|by injection Hx1 as <-]. run Hx1. by subst. }
  rewrite tag_present by done. simpl. rewrite Hpts.
  (* the block's own mark *)
  set (b := fun e : Entry L1Entry => (tag_getPts (l_cache s) <=? e_rts e) && (e_rts e <? p_wts m)).
  assert (exists s2, (if bool_decide (is_Some (tag_lookup (l_cache s1) a)) then
         rts ← tag_getRts (l_cache s1) a;
         assign_entry s1 a (map_state (set_expired_by_ownself
           ((tag_getPts (l_cache s) <=? rts) && (rts <? p_wts m))))
       else Some s1) = Some s2 /\
    sim s1 s2 a (set_bentry (abs s1 a) ((fun e => map_state (set_expired_by_ownself (b e)) e)
       <$> tag_lookup (l_cache s1) a))) as (s2 & -> & H2).
  { destruct (tag_lookup (l_cache s1) a) as [e|] eqn:He; simpl.
    - erewrite getRts_at by done. simpl. by apply assign_sim.
    - exists s1. split; [done|]. split; [done|unfold abs, set_bentry; simpl; by rewrite He|by intros; reflexivity]. }
  simpl. destruct H2 as [Hs2 Habs2 Ho2].
  assert (Hpts2 : tag_getPts (l_cache s2) = tag_getPts (l_cache s))
    by (change (b_pts (abs s2 a) = tag_getPts (l_cache s)); by rewrite Habs2).
  rewrite getTimeMax_max. destruct (tag_setPts_law (l_cache s2)
    (Z.max (tag_getPts (l_cache s2)) (p_wts m)) (base_cache s2 Hs2)) as (_ & -> & _).
  pose proof (sim_pts s2 a (Z.max (tag_getPts (l_cache s2)) (p_wts m)) Hs2 (Z.le_max_l _ _)) as [Hs3 Habs3 Ho3].
  rewrite Hpts2 in *. simpl in Hx. destruct (Z.ltb_spec (Z.max (tag_getPts (l_cache s)) (p_wts m)) 4294967295); [|done].
  eexists; split; [done|]. injection Hx as <-. split; [done| |].
  - rewrite Habs3, Habs2. subst b. cbn [b_entry abs set_bentry]. by rewrite <-Habs1.
  - intros c Hc Hne. etrans; [by apply Ho1|]. etrans; [by apply Ho2|by apply Ho3].
Qed.

(** Reading an optional lease. *)
Lemma lease_at s a :
  base_ok s -> tag_block a ->
  (if bool_decide (is_Some (tag_lookup (l_cache s) a)) then tag_getRts (l_cache s) a else Some 0) =
  Some (lease_of (abs s a)).
Proof using Type.
  intros Hs Ha. unfold lease_of; simpl. destruct (tag_lookup (l_cache s) a) as [e|] eqn:He; simpl; [|done].
  by apply getRts_at.
Qed.

Lemma reply_sim s a m x :
  base_ok s -> tag_block a -> p_Address m = a -> b_reply RECORDER (abs s a) m = Some x ->
  exists s', setReqRecorderTs RECORDER s m = Some s' /\ sim s s' a x.
Proof using Type.
  intros Hs Ha Hm Hx. unfold setReqRecorderTs. rewrite Hm, tag_present by done. simpl.
  assert (Hst : forall h n, (match queue (l_stores s) a with
      | [] => None
      | i :: q => r ← request_recorder_set_reply_ts RECORDER (l_recorder s) i (tag_getPts (l_cache s))
                        (lease_of (abs s a)) h n;
                  Some (set_bqueues (abs s a) (queue (l_cwid s) a) (queue (l_loads s) a) q r)
      end) = Some x -> exists s',
    ('(req_id, q) ← AddrQueue_pop (l_stores s) a;
      rts ← (if bool_decide (is_Some (tag_lookup (l_cache s) a)) then tag_getRts (l_cache s) a else Some 0);
      r ← request_recorder_set_reply_ts RECORDER (l_recorder s) req_id (tag_getPts (l_cache s)) rts h n;
      Some (set_lqueues s (l_cwid s) (l_loads s) q r)) = Some s' /\ sim s s' a x).
  { intros h n Hq. destruct (queue (l_stores s) a) as [|i q] eqn:Eq; [done|].
    destruct (AddrQueue_pop_spec _ _ _ _ (base_stores s Hs) Eq) as (q' & -> & Hok & Hl). simpl.
    rewrite lease_at by done. simpl. run Hq. subst x. rewrite E. simpl. eexists; split; [done|].
    replace q with (queue q' a) by (by rewrite Hl, decide_True).
    apply sim_queues; try done; [apply Hs..| |by eapply reply_grows].
    intros b Hb. rewrite Hl. by rewrite decide_False. }
  unfold b_reply in Hx. destruct (p_Type m); try done; try (by apply Hst).
  simpl in Hx. destruct (queue (l_loads s) a) as [|i q] eqn:Eq; [done|].
  destruct (tag_lookup (l_cache s) a) as [e|] eqn:He; [|done]. simpl.
  destruct (AddrQueue_pop_spec _ _ _ _ (base_loads s Hs) Eq) as (q' & -> & Hok & Hl). simpl.
  erewrite getRts_at by done. simpl. run Hx. subst x. rewrite E. simpl. eexists; split; [done|].
  replace q with (queue q' a) by (by rewrite Hl, decide_True).
  apply sim_queues; try done; [apply Hs..| |by eapply reply_grows].
  intros b Hb. rewrite Hl. by rewrite decide_False.
Qed.

Lemma load_reply_sim s a x :
  base_ok s -> tag_block a -> block_action setrrtslh_setReqRecorderTsforLoadHit a (abs s a) = Some x ->
  exists s', setReqRecorderTsforLoadHit RECORDER s a = Some s' /\ sim s s' a x.
Proof using Type.
  intros Hs Ha Hx. unfold setReqRecorderTsforLoadHit. simpl in Hx.
  destruct (queue (l_loads s) a) as [|i q] eqn:Eq; [done|].
  destruct (tag_lookup (l_cache s) a) as [e|] eqn:He; [|done].
  destruct (AddrQueue_pop_spec _ _ _ _ (base_loads s Hs) Eq) as (q' & -> & Hok & Hl). simpl.
  erewrite getRts_at by done. simpl. run Hx. subst x. rewrite E. simpl. eexists; split; [done|].
  replace q with (queue q' a) by (by rewrite Hl, decide_True).
  apply sim_queues; try done; [apply Hs..| |by eapply reply_grows].
  intros b Hb. rewrite Hl. by rewrite decide_False.
Qed.

Lemma record_sim s a x :
  base_ok s -> tag_block a -> b_record RECORDER (abs s a) a = Some x ->
  exists s', allocateReqRecorderEntry RECORDER s = Some s' /\ sim s s' a x.
Proof using Type.
  intros Hs Ha Hx. unfold b_record in Hx. apply bind_Some in Hx as (m & [Hm Hma]%request_at_Some & Hx).
  unfold allocateReqRecorderEntry. rewrite Hm. simpl. rewrite Hma, tag_present by done. simpl.
  destruct (queue_push_spec (l_stores s) a (c_ReqID m) (base_stores s Hs)) as [Hok Hq].
  destruct (queue_push_spec (l_loads s) a (c_ReqID m) (base_loads s Hs)) as [Hok' Hq'].
  simpl in Hx. destruct (c_Type m); try done; rewrite ?lease_at by done; simpl.
  - destruct (tag_lookup (l_cache s) a) as [e|] eqn:He; [|done]. simpl in *.
    erewrite getRts_at by done. simpl. injection Hx as <-. eexists; split; [done|].
    replace (queue (l_loads s) a ++ [c_ReqID m]) with (queue (AddrQueue_push (l_loads s) a (c_ReqID m)) a)
      by (unfold AddrQueue_push; by rewrite Hq', decide_True).
    replace (lease_of (abs s a)) with (e_rts e) by (unfold lease_of; simpl; by rewrite He).
    apply sim_queues; try done; [apply Hs..| |apply allocate_grows].
    intros b Hb. unfold AddrQueue_push. rewrite Hq'. by rewrite decide_False.
  - injection Hx as <-. eexists; split; [done|].
    replace (queue (l_stores s) a ++ [c_ReqID m]) with (queue (AddrQueue_push (l_stores s) a (c_ReqID m)) a)
      by (unfold AddrQueue_push; by rewrite Hq, decide_True).
    apply sim_queues; try done; [apply Hs..| |apply allocate_grows].
    intros b Hb. unfold AddrQueue_push. rewrite Hq. by rewrite decide_False.
  - injection Hx as <-. eexists; split; [done|].
    replace (queue (l_stores s) a ++ [c_ReqID m]) with (queue (AddrQueue_push (l_stores s) a (c_ReqID m)) a)
      by (unfold AddrQueue_push; by rewrite Hq, decide_True).
    apply sim_queues; try done; [apply Hs..| |apply allocate_grows].
    intros b Hb. unfold AddrQueue_push. rewrite Hq. by rewrite decide_False.
Qed.

(** Actions that first check that the block is present. *)
Lemma checked_assign_sim s a f x :
  base_ok s -> tag_block a -> (forall e, e_Address (f e) = e_Address e /\ e_Permission (f e) = e_Permission e) ->
  on_entry (abs s a) f = Some x ->
  exists s', (b ← isL1CacheTagPresent s a; assert! (b : bool); assign_entry s a f) = Some s' /\ sim s s' a x.
Proof using Type.
  intros Hs Ha Hf Hx. assert (Hx' := Hx). unfold on_entry in Hx'. run Hx'. simpl in E.
  rewrite tag_present, E by done. simpl. by apply on_entry_sim.
Qed.

Lemma lifetime_sim s a m x :
  base_ok s -> tag_block a -> p_Address m = a -> on_entry (abs s a) (fun e => set_e_rts e (p_rts m)) = Some x ->
  exists s', updateL1Lifetime s a m = Some s' /\ sim s s' a x.
Proof using Type.
  intros Hs Ha Hm Hx. unfold on_entry in Hx. run Hx. simpl in E. unfold updateL1Lifetime.
  rewrite Hm, tag_present, E by done. simpl. subst x. by apply setRts_sim.
Qed.

Lemma writeData_sim s a m x :
  base_ok s -> tag_block a -> p_Address m = a ->
  on_entry (abs s a) (fun e => set_e_DataBlk e (p_DataBlk m)) = Some x ->
  exists s', writeDataToL1Cache s a m = Some s' /\ sim s s' a x.
Proof using Type. intros Hs Ha Hm Hx. unfold writeDataToL1Cache. rewrite Hm. by apply checked_assign_sim. Qed.

Lemma lifetime_inTBE_sim s a m x :
  base_ok s -> tag_block a -> p_Address m = a -> on_tbe (abs s a) (set_t_rts (p_rts m)) = Some x ->
  exists s', updateL1Lifetime_inTBE g NUMBER_OF_TBES s a m = Some s' /\ sim s s' a x.
Proof using block_line. intros Hs Ha Hm Hx. unfold updateL1Lifetime_inTBE. rewrite Hm. by apply incPending_sim. Qed.

(** Decrementing a counter, which must not become negative. *)
Lemma dec_sim s a f (count : L1TBE -> Z) x :
  base_ok s -> tag_block a ->
  (x ← on_tbe (abs s a) f; t ← b_tbe x; assert! 0 <=? count t; Some x) = Some x ->
  exists s', (s ← incPending g NUMBER_OF_TBES s a f; t ← tbe_of g NUMBER_OF_TBES s a;
              assert! 0 <=? count t; Some s) = Some s' /\ sim s s' a x.
Proof using block_line.
  intros Hs Ha Hx. apply bind_Some in Hx as (y & Hy & Hx).
  destruct (incPending_sim s a f y Hs Ha Hy) as (s1 & -> & H1). simpl.
  run Hx. subst y. rewrite tbe_of_at by (done || apply H1).
  destruct H1 as [H1 Habs Ho]. rewrite <-Habs in E. simpl in E. rewrite E. simpl. rewrite Heqb.
  exists s1. split; [done|]. by split.
Qed.

Lemma dealloc_block_sim s a e :
  base_ok s -> tag_block a -> tag_lookup (l_cache s) a = Some e ->
  exists s', deallocateL1CacheBlock s a = Some s' /\ sim s s' a (set_bentry (abs s a) None).
Proof using Type.
  intros Hs Ha He. unfold deallocateL1CacheBlock, on_cache. rewrite tag_present, He by done. simpl.
  destruct (tag_deallocate_law (l_cache s) a) as (c & -> & Hc); [apply Hs|done|by eexists|].
  eexists; split; [done|]. by apply sim_cache.
Qed.

Lemma alloc_block_sim s a now m :
  base_ok s -> tag_block a -> head (l_mandatory s) = Some m -> c_Address m = a ->
  (tag_lookup (l_cache s) a = None -> tag_cacheAvail (l_cache s) a = Some true) ->
  exists s', allocateL1DCacheBlock s now = Some s' /\
    sim s s' a (match tag_lookup (l_cache s) a with
                | Some _ => abs s a | None => set_bentry (abs s a) (Some (tag_fresh a)) end).
Proof using Type.
  intros Hs Ha Hm Hma Hav. unfold allocateL1DCacheBlock, on_cache. rewrite Hm. simpl.
  rewrite Hma, tag_present by done. destruct (tag_lookup (l_cache s) a) eqn:He; simpl.
  - exists s. split; [done|]. by apply sim_refl.
  - destruct (tag_allocate_law (l_cache s) a now) as (c & -> & Hc); [apply Hs|by auto..|].
    eexists; split; [done|]. by apply sim_cache.
Qed.

Lemma cwid_sim s a m :
  base_ok s -> tag_block a -> head (l_mandatory s) = Some m -> c_Address m = a ->
  exists s', insertCWID s = Some s' /\
    sim s s' a (set_bentry (abs s a) ((fun e => insert_cta_warp e (c_CtaID m) (c_WarpID m)) <$> tag_lookup (l_cache s) a)).
Proof using Type.
  intros Hs Ha Hm Hma. unfold insertCWID, on_cache. rewrite Hm. simpl.
  rewrite Hma, tag_present by done. destruct (tag_lookup (l_cache s) a) as [e|] eqn:He; simpl.
  - destruct (tag_insertCtaWarpID_law (l_cache s) a (c_CtaID m) (c_WarpID m) e) as (c & -> & Hc); [apply Hs|done..|].
    eexists; split; [done|]. by apply sim_cache.
  - exists s. split; [done|]. split; [done|unfold abs, set_bentry; simpl; by rewrite He|by intros; reflexivity].
Qed.

Lemma dealloc_tbe_sim s a t :
  base_ok s -> tag_block a -> l_tbes s !! a = Some t -> (pendingReads t =? 0) = true -> (pendingWrites t =? 0) = true ->
  exists s', deallocateTBE g NUMBER_OF_TBES s a = Some s' /\ sim s s' a (set_btbe (abs s a) None).
Proof using block_line.
  intros Hs Ha Ht Hr Hw. unfold deallocateTBE, on_tbes. rewrite tbe_of_at, Ht by done. simpl. rewrite Hr, Hw.
  destruct (TBE_deallocate_spec g NUMBER_OF_TBES (l_tbes s) a) as [-> Hok]; [apply Hs|by eexists|]. simpl.
  eexists; split; [done|]. replace (@None L1TBE) with (delete a (l_tbes s) !! a) by apply lookup_delete_eq.
  apply sim_tbes; [done..|]. intros b Hb. by rewrite lookup_delete_ne.
Qed.

Definition is_alloc (act : L1_Action) : bool :=
  match act with i_allocateTBE | i_allocateTBEwTime => true | _ => false end.

(** What [act] needs from the whole controller: a free transaction buffer, a
    free way. *)
Definition has_room s a (act : L1_Action) : Prop :=
  (is_alloc act = true -> map_size (l_tbes s) < NUMBER_OF_TBES) /\
  (act = oo_allocateL1DCacheBlock -> tag_lookup (l_cache s) a = None ->
     tag_cacheAvail (l_cache s) a = Some true).

(** Every action of the controller refines that of the block machine. *)
Lemma action_refines now act s a x :
  base_ok s -> tag_block a -> has_room s a act -> block_action act a (abs s a) = Some x ->
  exists s', action now act s a = Some s' /\ sim s s' a x.
Proof using block_line home_bank.
  intros Hs Ha [Htbe Hway] Hx.
  destruct act; simpl in Hx |- *; try (by apply record_sim); unfold b_issueGETS, b_sendData in *;
    try (apply bind_Some in Hx as (m & Hm & Hx); (apply request_at_Some in Hm as [Hm Hma] || apply response_at_Some in Hm as [Hm Hma]; simpl in Hm));
    try (rewrite Hm; simpl).
  all: try (by apply incPending_sim).
  all: try (by apply updatePts_sim).
  all: try (by apply reply_sim).
  all: try (by apply record_sim).
  all: try (injection Hx as <-; rewrite <-?Hma; eexists; split; [done|]; rewrite ?Hma; by apply sim_out).
  all: try (eexists; split; [done|]; injection Hx as <-; by apply sim_refl).
  - (* GETS *)
    simpl in Hx. run Hx. unfold issueGETS. rewrite Hm. simpl. rewrite Hma, tag_present, E by done. simpl.
    rewrite home_bank by done. simpl. erewrite getRts_at by done. simpl. erewrite getEntry_at by done. simpl.
    eexists; split; [done|]. subst x. by apply sim_out.
  - simpl in Hx. run Hx. unfold sendDataToL2. rewrite Hm. simpl. rewrite tbe_of_at, E, home_bank by done. simpl.
    eexists; split; [done|]. subst x. by apply sim_out.
  - simpl in Hx. run Hx. unfold sendDataToL2. rewrite Hm. simpl. rewrite tbe_of_at, E, home_bank by done. simpl.
    eexists; split; [done|]. subst x. by apply sim_out.
  - (* allocate *)
    simpl in Hx. destruct (l_tbes s !! a) eqn:Ht; [done|]. injection Hx as <-. apply allocateTBE_sim; auto.
  - simpl in Hx. destruct (l_tbes s !! a) eqn:Ht; [done|].
    destruct (tag_lookup (l_cache s) a) as [e|] eqn:He; [|done]. injection Hx as <-.
    unfold allocateTBEwTime.
    destruct (allocateTBE_sim s a m) as (s1 & -> & H1); auto. simpl.
    assert (He1 : tag_lookup (l_cache s1) a = Some e)
      by (change (b_entry (abs s1 a) = Some e); by rewrite (sim_abs _ _ _ _ H1)).
    assert (Ht1 : l_tbes s1 !! a = Some (new_tbe g DATA_BLOCK XACT_MEMORY m 0))
      by (change (b_tbe (abs s1 a) = Some (new_tbe g DATA_BLOCK XACT_MEMORY m 0)); by rewrite (sim_abs _ _ _ _ H1)).
    rewrite tag_present, He1 by (done || apply H1). simpl. erewrite getRts_at by (done || apply H1). simpl.
    destruct (update_tbe_sim s1 a (set_t_rts (e_rts e)) _ (sim_base _ _ _ _ H1) Ht1) as (s2 & -> & H2).
    exists s2. split; [done|]. eapply sim_trans; [done|]. by rewrite (sim_abs _ _ _ _ H1) in H2.
  - simpl in Hx. unfold popMandatory. destruct (l_mandatory s) as [|m' l] eqn:El; [done|].
    injection Hx as <-. eexists; split; [done|]. by apply sim_ports.
  - simpl in Hx. unfold popResponse. destruct (l_responses s) as [|m' l] eqn:El; [done|]. injection Hm as ->.
    destruct (response_type_ok (p_Type m)); [|done].
    injection Hx as <-. eexists; split; [done|]. by apply sim_ports.
  - simpl in Hx. run Hx. subst x. apply andb_true_iff in Heqb as [? ?]. by eapply dealloc_tbe_sim.
  - by apply lifetime_sim.
  - by apply writeData_sim.
  - run Hx. subst x. by eapply dealloc_block_sim.
  - injection Hx as <-. by eapply alloc_block_sim; auto.
  - run Hx. subst x. unfold profile. rewrite Hm. simpl. rewrite Heqb. eexists; split; [done|]. by apply sim_refl.
  - run Hx. subst x. unfold profile. rewrite Hm. simpl. rewrite Heqb. eexists; split; [done|]. by apply sim_refl.
  - by apply dec_sim.
  - by apply dec_sim.
  - unfold setTouched. rewrite Hm. simpl. rewrite Hma. by apply checked_assign_sim.
  - injection Hx as <-. unfold clearTouched. rewrite tag_present by done. simpl.
    destruct (tag_lookup (l_cache s) a) as [e|] eqn:He; simpl; [by apply assign_sim|].
    eexists; split; [done|]. split; [done|unfold abs, set_bentry; simpl; by rewrite He|by intros; reflexivity].
  - by apply lifetime_inTBE_sim.
  - by apply checked_assign_sim.
  - injection Hx as <-. by apply cwid_sim.
  - injection Hx as <-. eexists; split; [done|].
    destruct (queue_push_spec (l_cwid s) a (c_CtaID m, c_WarpID m) (base_cwid s Hs)) as [Hok Hq].
    unfold Cwid_push. rewrite Hma. simpl. set (q := queue_push _ _ _) in *.
    replace (queue (l_cwid s) a ++ [(c_CtaID m, c_WarpID m)]) with (queue q a)
      by (by rewrite Hq, decide_True).
    apply (sim_queues s a q (l_loads s) (l_stores s)); try done; [apply Hs..|].
    intros b Hb. rewrite Hq. by rewrite decide_False.
  - simpl in Hx. destruct (queue (l_cwid s) a) as [|cw q] eqn:Eq; [done|]. injection Hx as <-.
    destruct (Cwid_pop_spec _ _ _ _ (base_cwid s Hs) Eq) as (q' & -> & _ & _ & Hok & Hl). simpl.
    eexists; split; [done|]. replace q with (queue q' a) by (by rewrite Hl, decide_True).
    apply sim_queues; try done; [apply Hs..|]. intros b Hb. rewrite Hl. by rewrite decide_False.
  - by apply load_reply_sim.
  - injection Hx as <-. eexists; split; [done|]. by apply sim_ports.
  - simpl in Hx. unfold popDelay. destruct (l_delay s) as [|m' l] eqn:El; [done|].
    injection Hx as <-. eexists; split; [done|]. by apply sim_ports.
  - by apply lifetime_sim.
  - by apply writeData_sim.
  - by apply lifetime_inTBE_sim.
  - by apply checked_assign_sim.
Qed.

(** Sequences allocate one transaction buffer at most, and a way only after
    actions that do not touch the cache of an absent block. *)
Definition leaves_cache (act : L1_Action) : bool :=
  match act with
  | pM_profileMiss | pcwq_pushIntoCwidQueue | pr_incPendingRead | cwid_insertCWID => true
  | _ => false
  end.
Fixpoint wf_actions (acts : list L1_Action) : bool :=
  match acts with
  | [] => true
  | act :: acts =>
      (if is_alloc act then negb (existsb is_alloc acts) else true) &&
      (if bool_decide (oo_allocateL1DCacheBlock ∈ acts) then leaves_cache act else true) &&
      wf_actions acts
  end.

Lemma transition_wf st ev next acts : L1_transition st ev = Some (next, acts) -> wf_actions acts = true.
Proof using Type. destruct st, ev; intros [= <- <-]; by vm_compute. Qed.

Lemma update_size t a f t' :
  TBE_update (E := L1TBE) g NUMBER_OF_TBES t a f = Some t' -> map_size t' = map_size t.
Proof using Type.
  unfold TBE_update, map_update. intros E. run E. subst. unfold map_size.
  rewrite <-size_dom, dom_alter_L, size_dom. done.
Qed.

Lemma update_tbe_size s a f s' :
  update_tbe g NUMBER_OF_TBES s a f = Some s' -> map_size (l_tbes s') = map_size (l_tbes s).
Proof using Type. unfold update_tbe, on_tbes. intros E. run E. subst. simpl. by eapply update_size. Qed.

Lemma incPending_size s a f s' :
  incPending g NUMBER_OF_TBES s a f = Some s' -> map_size (l_tbes s') = map_size (l_tbes s).
Proof using Type. unfold incPending. intros E. run E. by eapply update_tbe_size. Qed.

Lemma assign_tbes s a f s' : assign_entry s a f = Some s' -> l_tbes s' = l_tbes s.
Proof using Type. unfold assign_entry, on_cache. intros E. run E. by subst. Qed.

Lemma action_size now act s a s' :
  is_alloc act = false -> action now act s a = Some s' -> map_size (l_tbes s') <= map_size (l_tbes s).
Proof using Type.
  intros Ha E. destruct act; try discriminate Ha; simpl in E;
    unfold issueGETS, sendDataToL2, popMandatory, popResponse, popDelay, updateL1Lifetime,
      updateProcessorTimestamp, writeDataToL1Cache, deallocateL1CacheBlock, allocateL1DCacheBlock, profile,
      decPendingRead, decPendingWrite, setTouched, clearTouched, updateL1Lifetime_inTBE, markHaveData,
      insertCWID, allocateReqRecorderEntry, setReqRecorderTs, setReqRecorderTsforLoadHit, incNumLoads in E;
    run E; subst; simpl;
    repeat match goal with
      | H : context [match ?x with _ => _ end] |- _ => destruct x eqn:?; try discriminate H; run H; subst; simpl
      | H : on_cache _ _ = Some _ |- _ => unfold on_cache in H; run H; subst; simpl
      | H : assign_entry _ _ _ = Some _ |- _ => apply assign_tbes in H as ->; simpl
      | H : incPending _ _ _ _ _ = Some _ |- _ => apply incPending_size in H as ->; simpl
      | H : update_tbe _ _ _ _ _ = Some _ |- _ => apply update_tbe_size in H as ->; simpl
      end; try done; try lia.
  unfold deallocateTBE, on_tbes in E. run E. subst. simpl. unfold TBE_deallocate, map_erase in E1. run E1.
  subst. unfold map_size. rewrite map_size_delete.
  destruct (_ !! _); unfold Datatypes.id; lia.
Qed.

Lemma action_cache now act s a s' :
  base_ok s -> tag_block a -> leaves_cache act = true -> tag_lookup (l_cache s) a = None ->
  (forall m, head (l_mandatory s) = Some m -> c_Address m = a) ->
  action now act s a = Some s' -> l_cache s' = l_cache s.
Proof using Type.
  intros Hs Ha Hl Hn Hm E. destruct act; try discriminate Hl; simpl in E;
    unfold profile, incPending, update_tbe, on_tbes, insertCWID in E; run E; subst; try done.
  apply Hm in E0. rewrite E0, tag_present, Hn in E1 by done. injection E1 as <-. by injection E as <-.
Qed.

Lemma leaves_entry act a y x :
  leaves_cache act = true -> block_action act a y = Some x ->
  (b_entry x = None <-> b_entry y = None) /\ b_mandatory x = b_mandatory y.
Proof using Type.
  intros Hl E. destruct act; try discriminate Hl; simpl in E; unfold on_tbe in E; run E; subst; simpl; try done.
  by destruct (b_entry y).
Qed.

(** ... and so does every well-formed sequence of them. *)
Lemma actions_refine now acts s a x :
  base_ok s -> tag_block a -> wf_actions acts = true ->
  (existsb is_alloc acts = true -> map_size (l_tbes s) < NUMBER_OF_TBES) ->
  (oo_allocateL1DCacheBlock ∈ acts -> tag_lookup (l_cache s) a = None ->
     tag_cacheAvail (l_cache s) a = Some true /\ forall m, head (l_mandatory s) = Some m -> c_Address m = a) ->
  block_actions acts a (abs s a) = Some x ->
  exists s', actions now acts s a = Some s' /\ sim s s' a x.
Proof using block_line home_bank.
  revert s. induction acts as [|act acts IH]; intros s Hs Ha Hwf Hal Hoo Hx; simpl in Hx |- *.
  { exists s. injection Hx as <-. split; [done|]. by apply sim_refl. }
  simpl in Hwf. apply andb_true_iff in Hwf as [[Hwa Hwo]%andb_true_iff Hwf].
  apply bind_Some in Hx as (x1 & Hx1 & Hx). simpl in Hal.
  destruct (action_refines now act s a x1 Hs Ha) as (s1 & E1 & H1); [split|done|].
  - intros Hact. apply Hal. by rewrite Hact.
  - intros -> Hn. apply Hoo; [by left|done].
  - rewrite E1. simpl. destruct (IH s1) as (s2 & E2 & H2); [apply H1|done|done| | | |].
    + intros Hex. destruct (is_alloc act) eqn:Hact; [by rewrite Hex in Hwa|].
      pose proof (action_size now act s a s1 Hact E1). rewrite Hex in Hal. specialize (Hal eq_refl). lia.
    + intros Hin Hn1. rewrite bool_decide_eq_true_2 in Hwo by done.
      destruct (leaves_entry act a _ x1 Hwo Hx1) as [He Hm].
      rewrite <-(sim_abs _ _ _ _ H1) in He, Hm. simpl in He, Hm. rewrite Hm.
      destruct Hoo as [Hav Hma]; [by right|by apply He|]. split; [|done].
      by rewrite (action_cache now act s a s1 Hs Ha Hwo (proj1 He Hn1) Hma E1).
    + by rewrite (sim_abs _ _ _ _ H1).
    + exists s2. split; [done|]. by eapply sim_trans.
Qed.

Lemma isLive_abs s a :
  base_ok s -> tag_block a -> is_Some (b_tbe (abs s a)) \/ is_Some (b_entry (abs s a)) ->
  isLive g NUMBER_OF_TBES s a = Some (blk_live (abs s a)).
Proof using block_line.
  intros Hs Ha Hor. unfold isLive, blk_live. rewrite tbe_present_at, tbe_of_at, tag_present by done. simpl in *.
  destruct (l_tbes s !! a) as [t|]; simpl; [done|].
  destruct (tag_lookup (l_cache s) a) as [e|] eqn:He; simpl; [|by destruct Hor as [[]|[]]].
  erewrite getRts_at by done. unfold lease_of. simpl. by rewrite He.
Qed.

Lemma getState_abs s a :
  base_ok s -> tag_block a -> getState g NUMBER_OF_TBES s a = Some (blk_state (abs s a)).
Proof using block_line.
  intros Hs Ha. unfold getState. rewrite tbe_present_at, tbe_of_at, tag_present by done. simpl.
  pose proof (isLive_abs s a Hs Ha) as Hl. unfold blk_state. simpl in *.
  destruct (l_tbes s !! a) as [t|] eqn:Ht; simpl.
  { rewrite Hl by (left; by eexists). done. }
  destruct (tag_lookup (l_cache s) a) as [e|] eqn:He; simpl; [|done].
  rewrite Hl by (right; by eexists). simpl. rewrite (getEntry_at s a e) by done.
  by destruct (blk_live (abs s a)).
Qed.

Lemma setState_sim s a st :
  base_ok s -> tag_block a ->
  exists s', setState g NUMBER_OF_TBES s a st = Some s' /\ sim s s' a (blk_set_state st (abs s a)).
Proof using block_line.
  intros Hs Ha. unfold setState. rewrite tbe_present_at by done. simpl.
  assert (exists s1, (if bool_decide (is_Some (l_tbes s !! a)) then
      update_tbe g NUMBER_OF_TBES s a (set_TBEState st) else Some s) = Some s1 /\
    sim s s1 a (set_btbe (abs s a) (set_TBEState st <$> l_tbes s !! a))) as (s1 & -> & H1).
  { destruct (l_tbes s !! a) as [t|] eqn:Ht; simpl; [by apply update_tbe_sim|].
    exists s. split; [done|]. split; [done|unfold abs, set_btbe; simpl; by rewrite Ht|by intros; reflexivity]. }
  simpl. assert (Hs1 := sim_base _ _ _ _ H1). rewrite tag_present by done. simpl.
  assert (He1 : tag_lookup (l_cache s1) a = tag_lookup (l_cache s) a)
    by (change (b_entry (abs s1 a) = tag_lookup (l_cache s) a); by rewrite (sim_abs _ _ _ _ H1)).
  rewrite He1. destruct (tag_lookup (l_cache s) a) as [e|] eqn:He; simpl.
  - destruct (assign_sim s1 a (map_state (set_state st)) e Hs1 Ha He1 eq_refl eq_refl) as (s2 & -> & H2). simpl.
    assert (Hs2 := sim_base _ _ _ _ H2).
    assert (He2 : tag_lookup (l_cache s2) a = Some (map_state (set_state st) e))
      by (change (b_entry (abs s2 a) = Some (map_state (set_state st) e)); by rewrite (sim_abs _ _ _ _ H2)).
    unfold changeL1Permission, on_cache. rewrite tag_present, He2 by done. simpl.
    destruct (tag_changePermission_law (l_cache s2) a (permission_of st) _ (base_cache s2 Hs2) Ha He2)
      as (c & -> & Hc); [by destruct st|]. simpl.
    eexists; split; [done|]. pose proof (sim_cache s2 a c _ Hs2 Ha Hc) as H3.
    eapply sim_trans; [exact H1|]. eapply sim_trans; [exact H2|].
    rewrite (sim_abs _ _ _ _ H2), (sim_abs _ _ _ _ H1) in H3.
    replace (blk_set_state st (abs s a)) with
      (set_bentry (set_bentry (set_btbe (abs s a) (set_TBEState st <$> l_tbes s !! a))
        (Some (map_state (set_state st) e))) (Some (set_e_Permission (map_state (set_state st) e) (permission_of st))));
      [done|].
    unfold blk_set_state, abs, set_bentry, set_btbe; simpl. by rewrite He.
  - exists s1. split; [done|]. replace (blk_set_state st (abs s a)) with
      (set_btbe (abs s a) (set_TBEState st <$> l_tbes s !! a)); [done|].
    unfold blk_set_state, abs, set_bentry, set_btbe; simpl. by rewrite He.
Qed.

Lemma needs_TBE_existsb acts : needs_TBE acts = existsb is_alloc acts.
Proof using Type.
  unfold needs_TBE. apply eq_iff_eq_true. rewrite bool_decide_eq_true, existsb_exists. split.
  - intros [Hin|Hin]; eexists; (split; [by apply list_elem_of_In in Hin|done]).
  - intros (act & Hin & Hal). apply list_elem_of_In in Hin. destruct act; try done; auto.
Qed.

(** A transition of the controller is a transition of the block machine, or a
    stall that changes nothing. *)
Lemma doTransition_refines now s ev a x :
  base_ok s -> tag_block a -> block_step ev a (abs s a) = Some x ->
  (ev = Load -> tag_lookup (l_cache s) a = None ->
     tag_cacheAvail (l_cache s) a = Some true /\ forall m, head (l_mandatory s) = Some m -> c_Address m = a) ->
  (doTransition now s ev a = Some (ResourceStall, s) /\ map_size (l_tbes s) = NUMBER_OF_TBES /\
     (ev = Load \/ ev = L1_WThru \/ ev = L1_Atomic)) \/
  (doTransition now s ev a = Some (ProtocolStall, s) /\ ev = L1_Replacement /\
     blk_state (abs s a) <> L1_I /\ blk_state (abs s a) <> L1_S) \/
  exists s', doTransition now s ev a = Some (Valid, s') /\ sim s s' a x /\
    (ev = L1_Replacement -> blk_state (abs s a) = L1_I \/ blk_state (abs s a) = L1_S).
Proof using block_line home_bank.
  intros Hs Ha Hx Hroom. unfold blk_step in Hx. apply bind_Some in Hx as ([next acts] & Ht & Hx).
  apply bind_Some in Hx as (y & Hy & Hx). injection Hx as <-.
  unfold L1_doTransition. rewrite getState_abs by done. simpl. rewrite Ht. simpl.
  rewrite needs_TBE_existsb. assert (Hwf := transition_wf _ _ _ _ Ht).
  destruct (existsb is_alloc acts && negb (TBE_areNSlotsAvailable NUMBER_OF_TBES (l_tbes s) 1)) eqn:Hstall.
  { left. split; [done|]. apply andb_true_iff in Hstall as [Hal Hsz%negb_true_iff]. split.
    - unfold TBE_areNSlotsAvailable in Hsz. apply Z.leb_gt in Hsz. pose proof (proj1 (base_tbes s Hs)). lia.
    - clear -Ht Hal. destruct (blk_state (abs s a)), ev; try discriminate Ht; injection Ht as <- <-;
        (by vm_compute in Hal) || auto. }
  right. destruct (bool_decide (z_stall ∈ acts)) eqn:Hz.
  { left. split; [done|]. clear -Ht Hz. destruct (blk_state (abs s a)), ev; try discriminate Ht;
      injection Ht as <- <-; by vm_compute in Hz. }
  right. destruct (actions_refine now acts s a y Hs Ha Hwf) as (s1 & -> & H1); [| |done|].
  { intros Hal. rewrite Hal in Hstall. apply negb_false_iff in Hstall.
    unfold TBE_areNSlotsAvailable in Hstall. apply Z.leb_le in Hstall. lia. }
  { intros Hoo Hn. apply Hroom; [|done]. apply (bool_decide_eq_true_2 _) in Hoo. clear -Ht Hoo.
    destruct (blk_state (abs s a)), ev; try discriminate Ht;
      injection Ht as <- <-; done || by vm_compute in Hoo. }
  simpl. destruct (setState_sim s1 a next (sim_base _ _ _ _ H1) Ha) as (s2 & -> & H2).
  exists s2. split; [done|]. split.
  - eapply sim_trans; [done|]. by rewrite (sim_abs _ _ _ _ H1) in H2.
  - intros ->. clear -Ht Hz. destruct (blk_state (abs s a)); auto; injection Ht as <- <-; by vm_compute in Hz.
Qed.
End refinement.
