(* ===== verification/RccL1Safe.v ===== *)
(** Safety of the L1 controller: an invariant of the block machine of
    RccL1Spec, what every request and every response does to a block, and the
    theorems that lift both to the whole controller. *)
From S2P Require Import Prelude Vector Config Address DataBlock Replacement CacheMemory Tables Requests TagArray RccMsg RccL1 RccL1Spec.

#[local] Arguments s32 : simpl never.
#[local] Arguments L1_transition : simpl nomatch.
#[local] Arguments expire_entry : simpl never.

Section blk.
Variables (g : Globals) (DATA_BLOCK XACT_MEMORY : bool) (CL_FIXED_LEASE id : Z) (RECORDER : bool).
Variables (home : Z -> MachineID) (fresh : Z -> Entry L1Entry).
Implicit Types (x : Blk) (a : Z).
Abbreviation block_step := (blk_step g DATA_BLOCK XACT_MEMORY CL_FIXED_LEASE id RECORDER home fresh).

(** A transaction buffer agrees with the requests outstanding for the block,
    and its state with them. *)
Definition tbe_inv (e : option (Entry L1Entry)) (t : L1TBE) (reads writes : Z) : Prop :=
  pendingReads t = reads /\ pendingWrites t = writes /\ 0 <= reads <= 1 /\
  match TBEState t with
  | L1_I_S => reads = 1 /\ writes = 0 /\ is_Some e
  | L1_I_I => 1 <= reads + writes /\ (reads = 1 -> is_Some e)
  | L1_SM => reads = 0 /\ 1 <= writes /\ is_Some e
  | _ => False
  end.

Definition stable (st : L1_State) : Prop := st = L1_I \/ st = L1_S.

(** The invariant of a block. *)
Record blk_ok x : Prop := {
  blk_cwid : length (b_cwid x) = (length (b_loads x) + length (b_stores x))%nat;
  blk_stores : Z.of_nat (length (b_stores x)) < 2 ^ 31;
  blk_recorded : recorded RECORDER (b_recorder x) (b_loads x ++ b_stores x);
  blk_tbe :
    match b_tbe x with
    | None => b_loads x = [] /\ b_stores x = [] /\
        forall e, b_entry x = Some e -> stable (CacheState (e_state e))
    | Some t => tbe_inv (b_entry x) t (Z.of_nat (length (b_loads x))) (Z.of_nat (length (b_stores x)))
    end;
}.

(** The invariant only looks at what other blocks cannot change. *)
Lemma kept_ok x x' : kept x x' -> blk_ok x -> blk_ok x'.
Proof using Type.
  clear g DATA_BLOCK XACT_MEMORY CL_FIXED_LEASE id home fresh.
  intros [Hp He Ht Hc Hl Hs Hr] [Hcw Hlt Hrec Htbe]. split.
  - congruence.
  - by rewrite Hs.
  - rewrite Hl, Hs. by eapply recorded_mono.
  - rewrite Ht, Hl, Hs. unfold same_lease in He. destruct (b_tbe x) as [t|].
    + unfold tbe_inv in *. destruct (b_entry x), (b_entry x'); try done.
      destruct (TBEState t); naive_solver.
    + destruct Htbe as (? & ? & Hst). split_and!; try done. intros e' He'. rewrite He' in He.
      destruct (b_entry x) as [e|]; [|done]. destruct He as (_ & -> & _). by apply Hst.
Qed.

(** ** Requests *)
(** What the sequencer guarantees about a request: a known kind, not yet
    profiled, no load of a block with a load outstanding. *)
Definition request_ok x (m : CacheMsg) : Prop :=
  c_profiled m = false /\ Z.of_nat (length (b_stores x)) < 2 ^ 31 - 1 /\
  match c_Type m with LD => b_loads x = [] | ST | ATOMIC => True | _ => False end.

(** A copy and its lease: whether the line has data, whether it may be read while the lease lasts, and
    whether the transaction buffer has the lease of the line. *)
Definition has_data x : bool := from_option (fun e => have_data (e_state e)) false (b_entry x).
Definition holds x : bool :=
  match b_tbe x with
  | Some t => bool_decide (TBEState t = L1_SM)
  | None => from_option (fun e => bool_decide (CacheState (e_state e) = L1_S)) false (b_entry x)
  end.
Definition lease_agrees x : Prop := forall t, b_tbe x = Some t -> TBEState t = L1_SM -> t_rts t = lease_of x.
(** A request changes no lease, and gives up a copy only when its lease has ended. *)
Record copy_stays x x' : Prop := {
  stays_data : has_data x' = true -> has_data x = true /\ lease_of x' = lease_of x;
  stays_new : holds x' = true -> holds x = true;
  stays_agrees : lease_agrees x -> lease_agrees x' /\ (holds x = true -> holds x' = true \/ lease_of x < b_pts x) }.
(** What a read says of the copy: if it says there is one that has not expired, the lease of the copy
    has not ended but the copy has been given up. *)
Definition claims x (q : RequestMsg) : Prop :=
  q_InL1 q = true -> q_ExpiredInL1 q = false ->
  has_data x = true /\ q_rts q = lease_of x /\ b_pts x <= lease_of x /\ (lease_agrees x -> holds x = false).

(** What a load does: it hits under a lease that is still live, or it asks
    the L2 for one of length [CL_FIXED_LEASE] from the present timestamp. *)
Definition load_served x a (m : CacheMsg) x' : Prop :=
  (readable x = true /\ is_Some (b_entry x) /\ b_out x' = b_out x /\
   b_calls x' = b_calls x ++ [readCallback a] /\ b_loads x' = b_loads x) \/
  (exists q, b_out x' = b_out x ++ [q] /\ q_Type q = GETS /\ q_Address q = a /\ q_pts q = b_pts x /\
     q_deltaRequested q = CL_FIXED_LEASE /\ b_calls x' = b_calls x /\ b_loads x' = [c_ReqID m] /\
     q_Requestor q = machineID id /\ q_Destination q = home a /\ q_Space q = c_Space m /\ claims x q).
(** A write always goes to the L2. *)
Definition write_served x a (m : CacheMsg) (type : CoherenceRequestType) x' : Prop :=
  exists q, b_out x' = b_out x ++ [q] /\ q_Type q = type /\ q_Address q = a /\ q_pts q = b_pts x /\
    q_Dirty q = true /\ q_deltaRequested q = 0 /\ b_calls x' = b_calls x /\ b_stores x' = b_stores x ++ [c_ReqID m] /\
    q_Requestor q = machineID id /\ q_Destination q = home a /\ q_Space q = c_Space m.
Definition served x a (m : CacheMsg) x' : Prop :=
  b_pts x' = b_pts x /\ b_mandatory x' = tail (b_mandatory x) /\ b_responses x' = b_responses x /\
  b_delay x' = b_delay x /\ no_new_copy x x' /\ copy_stays x x' /\
  match c_Type m with
  | LD => b_stores x' = b_stores x /\ load_served x a m x'
  | ST => b_loads x' = b_loads x /\ write_served x a m REQ_DATA x'
  | _ => b_loads x' = b_loads x /\ write_served x a m REQ_DATA_ATOMIC x'
  end.
End blk.

(** Runs the actions of a transition one after the other on a block whose
    components are known. *)
Ltac blk_eval :=
  cbn [blk_action]; unfold request_at, response_at, on_entry, on_tbe, b_issueGETS, b_sendData, b_record,
    b_reply, bsend, bcall, set_bpts, set_bentry, set_btbe, set_bqueues, set_bports, set_bout;
  repeat (progress (simpl; rewrite ?Z.eqb_refl)).
Ltac blk_reply :=
  match goal with
  | |- context [request_recorder_set_reply_ts ?R ?r ?i ?p ?t ?h ?n] =>
      let r' := fresh "r" in let Hr := fresh "Hr" in
      destruct (reply_succeeds R r i p t h n) as [r' Hr]; [|rewrite Hr; apply reply_grows in Hr; simpl]
  end.
(** A request that is replied to was recorded. *)
Ltac solve_reply :=
  let HR := fresh "HR" in intros HR;
  first
    [ match goal with |- ?i ∈ dom (request_recorder_allocate _ _ ?i _ _ _) =>
        unfold request_recorder_allocate, Recorder_allocate; rewrite HR, dom_insert;
        by apply elem_of_union_l, elem_of_singleton_2 end
    | match goal with Hr : recorded _ ?r ?l |- ?i ∈ dom ?r =>
        apply (Hr HR); rewrite ?elem_of_app, ?elem_of_cons; tauto end ].
Ltac blk_act :=
  apply bind_ex; blk_eval; try (blk_reply; [solve_reply|]); [eexists; split; [reflexivity|]].
Ltac blk_acts := cbn [blk_actions]; repeat blk_act.


Ltac blk_done := cbn [blk_actions]; eexists; split; [reflexivity|]; eexists; split; [reflexivity|].

Section requests.
Variables (g : Globals) (DATA_BLOCK XACT_MEMORY : bool) (CL_FIXED_LEASE id : Z) (RECORDER : bool).
Variables (home : Z -> MachineID) (fresh : Z -> Entry L1Entry).
Hypothesis fresh_state : forall a, e_state (fresh a) = default.
Implicit Types (x : Blk) (a : Z).
Abbreviation block_step := (blk_step g DATA_BLOCK XACT_MEMORY CL_FIXED_LEASE id RECORDER home fresh).
Abbreviation ok := (blk_ok RECORDER).


(** Finishing a transition: counters, the recorder, the buffer. *)
Ltac solve_recorded :=
  first [ eapply recorded_allocate; [eassumption|]
        | eapply recorded_mono; [eapply recorded_allocate; [eassumption|intros ? ?; by right]|eassumption|]
        | eapply recorded_mono; [eassumption| |] ];
  try done;
  let j := fresh "j" in intros j; rewrite ?elem_of_app, ?elem_of_cons, ?elem_of_nil, ?list_elem_of_singleton; tauto.
Ltac solve_tbe :=
  first
    [ split_and!; [done|done|]; intros ? [= <-]; simpl; (by left) || (by right)
    | unfold tbe_inv in *; simpl in *; rewrite ?length_app in *; simpl in *;
      rewrite ?s32_small by lia; destruct_and?; split_and?; try done; try lia; try (by eexists) ].

(** Whether the copy is new. *)
Ltac solve_copy :=
  unfold no_new_copy, readable, copy_rts, blk_state, blk_live, lease_of in *; simpl in *;
  repeat match goal with H : (_ <=? _) = _ |- _ => rewrite H end;
  repeat match goal with H : CacheState _ = _ |- _ => rewrite H end; rewrite ?andb_false_r; simpl;
  done || (by intros) || (intros _; by split).

(** What happens to the copy, and what a read says of it. *)
Ltac copy_eval :=
  unfold has_data, holds, lease_agrees, blk_state, blk_live, lease_of, default in *; simpl in *;
  rewrite ?fresh_state in *; simpl in *.
Ltac copy_case :=
  match goal with
  | H : context [(?p <=? ?r)] |- _ => destruct (Z.leb_spec p r); simpl in H
  | H : context [(?p <? ?r)] |- _ => destruct (Z.ltb_spec p r); simpl in H
  end.
Ltac copy_fin :=
  intros; repeat copy_case; repeat case_bool_decide; simplify_eq/=; rewrite ?andb_true_r, ?andb_false_r in *; try congruence; try lia; naive_solver lia.
Ltac solve_stays := split; copy_eval; repeat copy_case; copy_fin.
Ltac solve_claims := unfold claims; copy_eval; repeat copy_case; copy_fin.

Lemma request_step_I x a m ev :
  ok x -> request_at x a = Some m -> request_ok x m ->
  mandatory_request_type_to_event (c_Type m) = Some ev ->
  b_tbe x = None -> blk_state x = L1_I ->
  exists x', block_step ev a x = Some x' /\ ok x' /\ served CL_FIXED_LEASE id home x a m x'.
Proof using fresh_state.
  intros Hok Hm Hreq Hty Ht Hst. unfold blk_step. rewrite Hst.
  destruct x as [p e t cw ld st r mand resp del out calls]. simpl in Ht. subst t.
  unfold request_at in Hm. simpl in Hm. run Hm. destruct mand as [|m' mand]; [done|].
  simpl in E. injection E as ->. subst. apply Z.eqb_eq in Heqb. subst a.
  destruct m as [ad ty sz sp th ri ct wa pr mf]; simpl in *. destruct Hreq as (Hpr & Hlen & Hld).
  destruct Hok as [Hcw Hlt Hrec Htbe]. simpl in *. destruct Htbe as (-> & -> & Hstable). simpl in *. subst pr.
  unfold served; simpl.
  destruct ty; try done; injection Hty as <-; cbn [L1_transition mbind option_bind send_write app];
    apply bind_ex; destruct e as [e|].
  all: blk_acts; blk_done.
  all: split; [split; simpl; [rewrite ?length_app; simpl; lia|rewrite ?length_app; simpl; lia|solve_recorded|solve_tbe]|].
  all: split_and!; simpl; try done.
  all: try solve_stays.
  all: try (right; eexists; split_and!; try done; solve_claims).
  all: try (eexists; split_and!; done).
  all: solve_copy.
Qed.

Lemma request_step_S x a m ev :
  ok x -> request_at x a = Some m -> request_ok x m ->
  mandatory_request_type_to_event (c_Type m) = Some ev ->
  b_tbe x = None -> blk_state x = L1_S ->
  exists x', block_step ev a x = Some x' /\ ok x' /\ served CL_FIXED_LEASE id home x a m x'.
Proof using Type.
  intros Hok Hm Hreq Hty Ht Hst. unfold blk_step. rewrite Hst.
  destruct x as [p e t cw ld st r mand resp del out calls]. simpl in Ht. subst t.
  unfold request_at in Hm. simpl in Hm. run Hm. destruct mand as [|m' mand]; [done|].
  simpl in E. injection E as ->. subst. apply Z.eqb_eq in Heqb. subst a.
  destruct m as [ad ty sz sp th ri ct wa pr mf]; simpl in *. destruct Hreq as (Hpr & Hlen & Hld).
  destruct Hok as [Hcw Hlt Hrec Htbe]. simpl in *. destruct Htbe as (-> & -> & Hstable). simpl in *. subst pr.
  unfold served, load_served; simpl. unfold blk_state in Hst. simpl in Hst. destruct e as [e|]; [|done].
  destruct (blk_live _) eqn:Hlive; [|done].
  destruct ty; try done; injection Hty as <-; cbn [L1_transition mbind option_bind send_write load_hit app];
    apply bind_ex.
  all: blk_acts; blk_done.
  all: split; [split; simpl; [rewrite ?length_app; simpl; lia|rewrite ?length_app; simpl; lia|solve_recorded|solve_tbe]|].
  all: split_and!; simpl; try done.
  all: try solve_stays.
  all: try (eexists; split_and!; done).
  all: try solve_copy.
  left. split_and!; [solve_copy|by eexists|done..].
Qed.

Lemma request_step_tbe x a m ev t :
  ok x -> request_at x a = Some m -> request_ok x m ->
  mandatory_request_type_to_event (c_Type m) = Some ev -> b_tbe x = Some t ->
  exists x', block_step ev a x = Some x' /\ ok x' /\ served CL_FIXED_LEASE id home x a m x'.
Proof using fresh_state.
  intros Hok Hm Hreq Hty Ht. unfold blk_step.
  destruct x as [p e t' cw ld st r mand resp del out calls]. simpl in Ht. subst t'.
  unfold request_at in Hm. simpl in Hm. run Hm. destruct mand as [|m' mand]; [done|].
  simpl in E. injection E as ->. subst. apply Z.eqb_eq in Heqb. subst a.
  destruct m as [ad ty sz sp th ri ct wa pr mf]; simpl in *. destruct Hreq as (Hpr & Hlen & Hld).
  destruct Hok as [Hcw Hlt Hrec Htbe]. simpl in *. destruct Htbe as (Hrd & Hwr & Hb & Hst). simpl in *. subst pr.
  unfold served, load_served, write_served; simpl. unfold blk_state, blk_live; simpl.
  destruct t as [ts tsp tth trt prd pwr tdb]; simpl in *. subst prd pwr.
  destruct (p <=? trt) eqn:Hlive; destruct ts; simpl; try done;
    destruct ty; try done; injection Hty as <-; try (subst ld; simpl in *; lia);
    cbn [L1_transition mbind option_bind send_write load_hit app]; apply bind_ex;
    destruct e as [e|]; try (by destruct Hst as (_ & _ & [? ?])); try subst ld; simpl in *.
  all: blk_acts; blk_done.
  all: split; [split; simpl; [rewrite ?length_app in *; simpl in *; lia|rewrite ?length_app; simpl; lia|solve_recorded|solve_tbe]|].
  all: split_and!; simpl; try done.
  all: try solve_stays.
  all: try (eexists; split_and!; done).
  all: try solve_copy.
  all: try (left; split_and!; [solve_copy|by eexists|done..]).
  all: try (right; eexists; split_and!; try done; solve_claims).
Qed.

(** Every request is served, whatever the state of the block. *)
Lemma request_step x a m ev :
  ok x -> request_at x a = Some m -> request_ok x m ->
  mandatory_request_type_to_event (c_Type m) = Some ev ->
  exists x', block_step ev a x = Some x' /\ ok x' /\ served CL_FIXED_LEASE id home x a m x'.
Proof using fresh_state.
  intros Hok Hm Hreq Hty. destruct (b_tbe x) as [t|] eqn:Ht; [by eapply request_step_tbe|].
  destruct (blk_state x) eqn:Hst; try (by eapply request_step_I); try (by eapply request_step_S); exfalso.
  all: unfold blk_state in Hst; rewrite Ht in Hst; destruct (b_entry x) as [e|] eqn:He; [|done].
  all: destruct (blk_live x); [|done]; pose proof (blk_tbe _ _ Hok) as Hinv; rewrite Ht in Hinv.
  all: destruct Hinv as (_ & _ & Hs); destruct (Hs e He); congruence.
Qed.

(** A block without requests outstanding can be evicted. *)
Lemma replacement_step x a :
  ok x -> is_Some (b_entry x) ->
  (b_tbe x = None /\ (blk_state x = L1_I \/ blk_state x = L1_S) /\
     block_step L1_Replacement a x = Some (set_bentry x None) /\ ok (set_bentry x None)) \/
  (is_Some (b_tbe x) /\ exists x', block_step L1_Replacement a x = Some x' /\ blk_state x <> L1_I /\ blk_state x <> L1_S).
Proof using Type.
  intros Hok [e He]. pose proof (blk_tbe _ _ Hok) as Hinv. unfold blk_step.
  destruct (b_tbe x) as [t|] eqn:Ht.
  - right. split; [by eexists|]. destruct Hinv as (_ & _ & _ & Hst). unfold blk_state. rewrite Ht.
    destruct (TBEState t) eqn:E; try done; simpl; [by eexists..|]. destruct (blk_live x); simpl; by eexists.
  - left. split; [done|]. destruct Hinv as (Hl & Hs & Hstable).
    assert (blk_state x = L1_I \/ blk_state x = L1_S) as Hst.
    { unfold blk_state. rewrite Ht, He. destruct (blk_live x); [by apply Hstable|by left]. }
    split; [done|]. split.
    + destruct x; simpl in *. subst. by destruct Hst as [-> | ->].
    + destruct Hok. split; try done. simpl. by rewrite Ht.
Qed.

(** ** Responses *)
(** The event a response triggers; [more] says that other requests for the
    block are outstanding. *)
Definition reply_event (delay : bool) (type : CoherenceResponseType) (more : bool) : L1_Event :=
  match type, delay with
  | DATA, false => if more then Data else Data_Done
  | DATA, true => if more then Delay_Data else Delay_Data_Done
  | DATA_ATOMIC, false => if more then DataAtomic else DataAtomic_Done
  | DATA_ATOMIC, true => if more then Delay_DataAtomic else Delay_DataAtomic_Done
  | _, false => if more then Ack else Ack_Done
  | _, true => if more then Delay_Ack else Delay_Ack_Done
  end.

(** What the L2 guarantees about a response: it answers a request, and its
    timestamp leaves room for the clock. *)
Definition response_ok x (m : ResponseMsg) : Prop :=
  b_pts x < 4294967295 /\ p_wts m < 4294967295 /\
  match p_Type m with
  | DATA => b_loads x <> []
  | DATA_ATOMIC | ACK => b_stores x <> []
  | _ => False
  end.

(** The queue the response is taken from. *)
Definition port (delay : bool) x : list ResponseMsg := if delay then b_delay x else b_responses x.

(** What the answer to a load does: the line gets the lease and the
    transaction buffer is freed unless writes are outstanding; its data are written
    only if no write is. *)
Definition load_answered x a (m : ResponseMsg) x' : Prop :=
  b_calls x' = b_calls x ++ [readCallback a] /\ b_loads x' = [] /\ b_stores x' = b_stores x /\
  exists e e', b_entry x = Some e /\ b_entry x' = Some e' /\
    e_rts e' = p_rts m /\ have_data (e_state e') = true /\
    e_DataBlk e' = (if decide (blk_state x = L1_I_S) then p_DataBlk m else e_DataBlk e) /\
    match b_stores x with
    | [] => b_tbe x' = None /\ CacheState (e_state e') = L1_S
    | _ => exists t, b_tbe x' = Some t /\ t_rts t = p_rts m /\ TBEState t = L1_SM
    end.
(** What the answer to a write does: the local copy is no longer readable. *)
Definition write_answered x a (m : ResponseMsg) x' : Prop :=
  b_calls x' = b_calls x ++ [writeCallback a (p_memfetch m)] /\ b_loads x' = b_loads x /\
  b_stores x' = tail (b_stores x) /\
  (blk_state x' = L1_I \/ blk_state x' = L1_I_I) /\
  has_data x' = has_data x /\ lease_of x' = lease_of x /\ holds x' = false /\
  (b_tbe x' = None <-> b_loads x = [] /\ tail (b_stores x) = []).
Definition answered (delay : bool) x a (m : ResponseMsg) x' : Prop :=
  b_pts x' = Z.max (b_pts x) (p_wts m) /\ b_mandatory x' = b_mandatory x /\ b_out x' = b_out x /\
  (if delay then b_responses x' = b_responses x /\ b_delay x' = tail (b_delay x)
   else b_responses x' = tail (b_responses x) /\ b_delay x' = b_delay x) /\
  match p_Type m with
  | DATA => load_answered x a m x'
  | _ => write_answered x a m x'
  end.

(** Raising the clock keeps the lease and the state of the line. *)
Lemma updatePts_ok x m :
  b_pts x < 4294967295 -> p_wts m < 4294967295 -> response_type_ok (p_Type m) = true -> b_cwid x <> [] ->
  exists e, b_updatePts x m = Some (set_bpts (set_bentry x e) (Z.max (b_pts x) (p_wts m))) /\
    match b_entry x, e with
    | Some e, Some e' => e_rts e' = e_rts e /\ e_DataBlk e' = e_DataBlk e /\
        CacheState (e_state e') = CacheState (e_state e) /\ have_data (e_state e') = have_data (e_state e)
    | None, None => True
    | _, _ => False
    end.
Proof using Type.
  intros Hp Hw Ht Hc. unfold b_updatePts. rewrite Ht. destruct (b_cwid x) as [|cw q] eqn:Eq; [done|].
  assert ((Z.max (b_pts x) (p_wts m) <? 4294967295) = true) as -> by lia.
  destruct (b_pts x <? p_wts m); simpl; eexists; (split; [reflexivity|]);
    destruct (b_entry x) as [e|]; simpl; try done.
  unfold expire_entry. repeat case_match; done.
Qed.


(** Runs the actions of an answer. *)
Ltac ans_pts :=
  match goal with
  | Hp : ?p < 4294967295, Hw : ?w < 4294967295 |- context [b_updatePts ?x ?m] =>
      let e := fresh "e" in let E := fresh "E" in let He := fresh "He" in
      destruct (updatePts_ok x m Hp Hw) as (e & E & He); [done|done|]; rewrite E; clear E; simpl in He;
      destruct e as [e|]; try done
  end.
Ltac ans_act :=
  apply bind_ex; unfold add_reads, add_writes; blk_eval; try (ans_pts; blk_eval); rewrite ?s32_small by lia;
  repeat (rewrite Z.leb_refl || rewrite Z.eqb_refl || (rewrite (proj2 (Z.leb_le _ _)) by lia) ); simpl;
  try (blk_reply; [solve_reply|]); [eexists; split; [reflexivity|]].
Ltac ans_acts := cbn [blk_actions]; repeat ans_act.

Lemma load_step (delay : bool) x a m :
  ok x -> response_at (port delay x) a = Some m -> response_ok x m -> p_Type m = DATA ->
  exists t, b_tbe x = Some t /\ pendingReads t = 1 /\ exists x',
    block_step (reply_event delay (p_Type m) (0 <? pendingWrites t)) a x = Some x' /\ ok x' /\ answered delay x a m x'.
Proof using Type.
  intros Hok Hm (Hp & Hw & Hans) Hty. unfold blk_step.
  destruct x as [p e t cw ld st r mand resp del out calls].
  destruct Hok as [Hcw Hlt Hrec Htbe]. simpl in *.
  destruct m as [ad ty sd ds db dty ak sp sz mrts mwts mf mfs]; simpl in *. subst ty.
  destruct t as [t|]; [|by destruct Htbe].
  destruct Htbe as (Hrd & Hwr & Hb & Hst). destruct t as [ts tsp tth trt prd pwr tdb]; simpl in *. subst prd pwr.
  destruct ld as [|i [|? ?]]; [done| |simpl in Hb; lia].
  eexists _; split; [done|split; [done|]]; simpl.
  unfold response_at in Hm. run Hm. subst. apply Z.eqb_eq in Heqb. simpl in Heqb. subst ad.
  unfold blk_state, blk_live; simpl.
  assert (is_Some e) as [e0 ->] by (simpl in Hst; destruct ts; try done; intuition lia).
  destruct cw as [|c cw]; [done|].
  destruct delay; simpl in E; [destruct del as [|m' del]|destruct resp as [|m' resp]]; try done; injection E as ->;
    destruct ts; try done; (destruct st as [|j st]; [|try (simpl in Hst; lia)]);
    cbn [L1_transition mbind option_bind data_done delay_data_done app];
    try rewrite (proj2 (Z.ltb_lt 0 (Z.of_nat (length (j :: st))))) by (simpl; lia);
    try (simpl in Hst; lia); cbn [L1_transition mbind option_bind data_done delay_data_done app];
    unfold answered, load_answered, blk_state; simpl;
    apply bind_ex.
  all: ans_acts; blk_done; destruct He as (? & ? & ? & ?).
  all: split; [split; simpl in *; [lia|lia|solve_recorded|]|].
  all: try (split_and!; [done..|]; intros ? [= <-]; by right).
  all: try (unfold tbe_inv; simpl; split_and!; lia || done || by eexists).
  all: split_and!; try done; eexists _, _; split_and!; try done; by eexists.
Qed.

Lemma write_step (delay : bool) x a m :
  ok x -> response_at (port delay x) a = Some m -> response_ok x m -> p_Type m = ACK \/ p_Type m = DATA_ATOMIC ->
  exists t, b_tbe x = Some t /\ 0 < pendingWrites t /\ exists x',
    block_step (reply_event delay (p_Type m) ((0 <? pendingReads t) || (1 <? pendingWrites t))) a x = Some x' /\
    ok x' /\ answered delay x a m x'.
Proof using Type.
  intros Hok Hm (Hp & Hw & Hans) Hty. unfold blk_step.
  destruct x as [p e t cw ld st r mand resp del out calls].
  destruct Hok as [Hcw Hlt Hrec Htbe]. simpl in *.
  destruct m as [ad ty sd ds db dty ak sp sz mrts mwts mf mfs]; simpl in *.
  destruct t as [t|]; [|exfalso; destruct Htbe as (-> & -> & _); by destruct Hty as [-> | ->]].
  destruct Htbe as (Hrd & Hwr & Hb & Hst). destruct t as [ts tsp tth trt prd pwr tdb]; simpl in *. subst prd pwr.
  destruct st as [|j st]; [by destruct Hty as [-> | ->]|].
  eexists _; split; [done|split; [simpl; lia|]]; simpl.
  unfold response_at in Hm. run Hm. subst. apply Z.eqb_eq in Heqb. simpl in Heqb. subst ad.
  unfold blk_state, blk_live; simpl.
  destruct cw as [|c cw]; [simpl in Hcw; lia|].
  assert ((if (0 <? Z.of_nat (length ld)) || (1 <? Z.of_nat (S (length st)))
           then 1 <= Z.of_nat (length ld) + Z.of_nat (length st) else ld = [] /\ st = [])) as Hmore.
  { destruct (Z.ltb_spec 0 (Z.of_nat (length ld))), (Z.ltb_spec 1 (Z.of_nat (S (length st)))); simpl; try lia.
    by split; apply nil_length_inv; lia. }
  destruct (_ || _) eqn:Em; [|destruct Hmore as [-> ->]].
  all: destruct ts; try (simpl in Hst; lia); try done.
  all: simpl; try (destruct (p <=? trt) eqn:Hlive; simpl).
  all: destruct delay; simpl in E; [destruct del as [|m' del]|destruct resp as [|m' resp]]; try done; injection E as ->.
  all: destruct Hty as [-> | ->]; cbn [L1_transition mbind option_bind write_done delay_write_done app reply_event];
    unfold answered, write_answered, blk_state; apply bind_ex.
  all: destruct e as [e|]; try (by destruct Hst as (_ & _ & [])); cbn [length] in *; ans_acts; blk_done.
  all: try (destruct He as (Hr1 & Hd1 & Hs1 & Hh1)).
  all: split; [split; simpl in *; [lia|lia|solve_recorded|]|].
  all: try (split_and!; [done..|]; try done; intros ? [= <-]; by left).
  all: try (unfold tbe_inv; simpl; split_and!; try lia; intuition (by eexists)).
  all: split_and!; simpl; try done; try (by left); try (by right).
  all: try (split; [done|intros [-> ->]; simpl in Hmore; lia]).
  all: left; by destruct (blk_live _).
Qed.

(** A response that would move the clock too far is set aside. *)
Lemma delay_step x a m :
  ok x -> response_at (b_responses x) a = Some m -> response_ok x m ->
  exists x', block_step Delay a x = Some x' /\ ok x' /\
    b_pts x' = b_pts x /\ b_calls x' = b_calls x /\ b_out x' = b_out x /\ b_mandatory x' = b_mandatory x /\
    b_loads x' = b_loads x /\ b_stores x' = b_stores x /\
    b_responses x' = tail (b_responses x) /\ b_delay x' = delay_insert m (b_delay x) /\ no_new_copy x x'.
Proof using Type.
  intros Hok Hm (Hp & Hw & Hans). unfold blk_step.
  assert (response_type_ok (p_Type m) = true) as Hok_ty by (by destruct (p_Type m)).
  destruct x as [p e t cw ld st r mand resp del out calls].
  destruct Hok as [Hcw Hlt Hrec Htbe]. simpl in *.
  destruct t as [t|]; [|exfalso; destruct Htbe as (-> & -> & _); by destruct (p_Type m)].
  assert (Htbe' := Htbe). destruct Htbe as (_ & _ & _ & Hst). unfold blk_state; simpl.
  destruct (TBEState t) eqn:Et; try done; simpl; rewrite ?Hm; simpl; rewrite ?Hm; simpl; rewrite ?Hok_ty;
    [..|destruct (blk_live _) eqn:Hlive; simpl; rewrite ?Hm; simpl; rewrite ?Hm; simpl; rewrite ?Hok_ty];
    simpl; (eexists; split; [done|split; [|split_and!; try done; try (unfold blk_live in Hlive; simpl in Hlive);
      unfold no_new_copy, readable, copy_rts, blk_state, blk_live; simpl; rewrite ?Et, ?Hlive; simpl; by rewrite ?andb_false_r]]); (split; [done..|]); simpl; unfold tbe_inv in *; simpl;
    rewrite Et in Htbe'; intuition (try lia; destruct e; done || by eexists).
Qed.
End requests.

(** ** The controller *)
Section safety.
Context {C : Type} `{TA : TagArray C L1Entry} `{TL : !TagArrayLaws C L1Entry default}.
Variables (g : Globals) (DATA_BLOCK XACT_MEMORY : bool) (NUMBER_OF_TBES CL_FIXED_LEASE : Z)
          (id : Z) (RECORDER DELAY_QUEUE_ENABLED : bool) (DELAY_QUEUE_THRESHOLD : Z).
Variable home : Z -> MachineID.
Hypothesis block_line : forall a, tag_block a -> is_line g a = true.
Hypothesis home_bank : forall a, tag_block a -> map_L1CacheMachId_to_L2Cache g a (machineID id) = Some (home a).
Implicit Types (s : L1 C) (a b : Z).
Abbreviation base := (base_ok g NUMBER_OF_TBES).
Abbreviation doTransition := (L1_doTransition g DATA_BLOCK XACT_MEMORY NUMBER_OF_TBES CL_FIXED_LEASE id RECORDER).
Abbreviation mandatory_in := (mandatoryQueue_in g DATA_BLOCK XACT_MEMORY NUMBER_OF_TBES CL_FIXED_LEASE id RECORDER).
Abbreviation response_in := (responseIntraChipL1Network_in g DATA_BLOCK XACT_MEMORY NUMBER_OF_TBES CL_FIXED_LEASE id
  RECORDER DELAY_QUEUE_ENABLED DELAY_QUEUE_THRESHOLD).
Abbreviation delay_in := (L2ResponseDelayQueue_in g DATA_BLOCK XACT_MEMORY NUMBER_OF_TBES CL_FIXED_LEASE id
  RECORDER DELAY_QUEUE_ENABLED).
Abbreviation block_step := (blk_step g DATA_BLOCK XACT_MEMORY CL_FIXED_LEASE id RECORDER home tag_fresh).

(** The invariant of the controller. *)
Definition L1_inv s : Prop := base s /\ forall a, tag_block a -> blk_ok RECORDER (abs s a).
(** Every other block is left alone. *)
Definition others_kept s s' a : Prop := forall b, tag_block b -> b <> a -> kept (abs s b) (abs s' b).

Lemma sim_inv s s' a x :
  L1_inv s -> sim g NUMBER_OF_TBES s s' a x -> blk_ok RECORDER x -> L1_inv s' /\ abs s' a = x /\ others_kept s s' a.
Proof using Type.
  intros [_ Hs] [Hb Ha Ho] Hx. split; [split; [done|]|done]. intros b Hbb.
  destruct (decide (b = a)) as [->|]; [by rewrite Ha|]. by eapply kept_ok, Hs; [apply Ho|].
Qed.

(** The message buffers are no part of the invariant. *)
Lemma L1_ports_inv s m r d : L1_inv s -> L1_inv (set_lports s m r d).
Proof using Type. intros [[] Hs]. split; [by split|]. intros a Ha. destruct (Hs a Ha). by split. Qed.

(** What a request at the head of the mandatory queue can lead to. *)
Definition request_outcome s (m : CacheMsg) (r : TransitionResult) s' : Prop :=
  let a := c_Address m in
  match r with
  | Valid =>
      served CL_FIXED_LEASE id home (abs s a) a m (abs s' a) /\ others_kept s s' a \/
      exists v, tag_block v /\ v <> a /\ b_tbe (abs s v) = None /\ is_Some (b_entry (abs s v)) /\
        abs s' v = set_bentry (abs s v) None /\ others_kept s s' v
  | ResourceStall => s' = s /\ map_size (l_tbes s) = NUMBER_OF_TBES
  | ProtocolStall => s' = s /\ exists v, v <> a /\ is_Some (b_entry (abs s v)) /\ is_Some (b_tbe (abs s v))
  end.

Lemma transition_outcome now s m ev :
  L1_inv s -> head (l_mandatory s) = Some m -> tag_block (c_Address m) ->
  request_ok (abs s (c_Address m)) m -> mandatory_request_type_to_event (c_Type m) = Some ev ->
  (ev = Load -> tag_lookup (l_cache s) (c_Address m) = None -> tag_cacheAvail (l_cache s) (c_Address m) = Some true) ->
  exists r s', doTransition now s ev (c_Address m) = Some (r, s') /\ L1_inv s' /\ request_outcome s m r s'.
Proof using block_line home_bank.
  intros Hinv Hm Ha Hreq Hty Hroom. destruct (Hinv) as [Hb Hok].
  assert (request_at (abs s (c_Address m)) (c_Address m) = Some m) as Hat
    by (unfold request_at; simpl; rewrite Hm; simpl; by rewrite Z.eqb_refl).
  destruct (request_step g DATA_BLOCK XACT_MEMORY CL_FIXED_LEASE id RECORDER home tag_fresh
    ltac:(intros b; apply tag_fresh_law) _ _ m ev (Hok _ Ha) Hat Hreq Hty) as (x & Hx & Hxok & Hserved).
  destruct (doTransition_refines g DATA_BLOCK XACT_MEMORY NUMBER_OF_TBES CL_FIXED_LEASE id RECORDER home
    block_line home_bank now s ev (c_Address m) x Hb Ha Hx) as [(E & Hfull & _)|[(E & -> & _)|(s' & E & Hsim & _)]].
  - intros -> Hn. split; [by apply Hroom|]. intros m' Hm'. congruence.
  - by exists ResourceStall, s.
  - by destruct (c_Type m).
  - exists Valid, s'. destruct (sim_inv s s' (c_Address m) x) as (? & Hx' & ?); [done..|].
    split; [done|split; [done|]]. left. by rewrite Hx'.
Qed.

Lemma replacement_outcome now s m v :
  L1_inv s -> tag_block v -> is_Some (tag_lookup (l_cache s) v) -> v <> c_Address m ->
  exists r s', doTransition now s L1_Replacement v = Some (r, s') /\ L1_inv s' /\ request_outcome s m r s'.
Proof using block_line home_bank.
  intros Hinv Hv He Hne. destruct (Hinv) as [Hb Hok].
  destruct (replacement_step g DATA_BLOCK XACT_MEMORY CL_FIXED_LEASE id RECORDER home tag_fresh (abs s v) v)
    as [(Ht & Hst & Hx & Hxok)|(Ht & x & Hx & HI & HS)]; [by apply Hok|done|..];
    (destruct (doTransition_refines g DATA_BLOCK XACT_MEMORY NUMBER_OF_TBES CL_FIXED_LEASE id RECORDER home
      block_line home_bank now s L1_Replacement v _ Hb Hv Hx) as [(E & _ & Hev)|[(E & _ & Hnot)|(s' & E & Hsim & Hst')]];
      [done|by destruct Hev as [|[|]]|..]).
  - by destruct Hnot, Hst.
  - destruct (sim_inv s s' v _ Hinv Hsim Hxok) as (? & Hx' & ?). exists Valid, s'.
    split; [done|split; [done|]]. right. exists v. by rewrite Hx'.
  - exists ProtocolStall, s. split; [done|split; [done|split; [done|]]]. by exists v.
  - by destruct (Hst' eq_refl).
Qed.

Lemma mandatory_port now s m :
  L1_inv s -> head (l_mandatory s) = Some m -> tag_block (c_Address m) -> request_ok (abs s (c_Address m)) m ->
  exists r s', mandatory_in now s = Some (r, s') /\ L1_inv s' /\ request_outcome s m r s'.
Proof using block_line home_bank.
  intros Hinv Hm Ha Hreq. assert (Hb := proj1 Hinv). assert (Hc := base_cache _ _ _ Hb).
  assert (exists ev, mandatory_request_type_to_event (c_Type m) = Some ev) as [ev Hty].
  { destruct Hreq as (_ & _ & Hty). destruct (c_Type m); by eauto. }
  unfold mandatoryQueue_in. rewrite Hm. simpl. rewrite Hty. simpl.
  case_bool_decide as Hst.
  { apply (transition_outcome now s m ev); try done. intros ->. by rewrite Hst in Hty. }
  rewrite tag_isTagPresent_law by done. simpl.
  case_bool_decide as Hpr.
  { apply (transition_outcome now s m ev); try done. intros _ Hn. rewrite Hn in Hpr. by destruct Hpr. }
  destruct (tag_cacheAvail_law (l_cache s) (c_Address m) Hc Ha) as (b & Hav & _).
  rewrite Hav. simpl. destruct b.
  - by apply (transition_outcome now s m ev).
  - destruct (tag_cacheProbe_law (l_cache s) (c_Address m) Hc Ha Hav) as (v & -> & Hv & He & Hne). simpl.
    by apply replacement_outcome.
Qed.

(** C3: a processor request never makes the L1 controller fail: under the
    controller's invariant, [mandatoryQueue_in] never reaches an error, an
    undefined transition or a failed assertion, and keeps the invariant. It serves
    the request (a load hits only under a live lease and is otherwise sent to the
    L2 with the present timestamp; a write always goes to the L2), evicts a line
    nobody waits for to make room, or stalls without a change, because the
    transaction buffers are used up or the victim is busy. *)
Theorem L1_request_safe now s m :
  L1_inv s -> head (l_mandatory s) = Some m -> tag_block (c_Address m) -> request_ok (abs s (c_Address m)) m ->
  exists r s', mandatory_in now s = Some (r, s') /\ L1_inv s' /\ request_outcome s m r s'.
Proof using block_line home_bank. apply mandatory_port. Qed.

(** The pending counts the ports check. *)
Lemma pending_at s a t : base s -> tag_block a -> l_tbes s !! a = Some t ->
  get_pending_reads g NUMBER_OF_TBES s a = Some (pendingReads t) /\
  get_pending_writes g NUMBER_OF_TBES s a = Some (pendingWrites t).
Proof using block_line.
  intros Hb Ha Ht. unfold get_pending_reads, get_pending_writes.
  rewrite (tbe_present_at g NUMBER_OF_TBES block_line), (tbe_of_at g NUMBER_OF_TBES block_line), Ht by done. done.
Qed.

(** The event a port triggers for a response. *)
Definition port_event (delay : bool) s m : option L1_Event :=
  response_event g NUMBER_OF_TBES s m (reply_event delay DATA true) (reply_event delay DATA false)
    (reply_event delay DATA_ATOMIC true) (reply_event delay DATA_ATOMIC false)
    (reply_event delay ACK true) (reply_event delay ACK false).

Lemma response_step s (delay : bool) m :
  let a := p_Address m in
  L1_inv s -> head (if delay then l_delay s else l_responses s) = Some m -> tag_block a -> response_ok (abs s a) m ->
  exists ev x, port_event delay s m = Some ev /\ block_step ev a (abs s a) = Some x /\ blk_ok RECORDER x /\
    answered delay (abs s a) a m x /\ ev <> Load /\ ev <> L1_WThru /\ ev <> L1_Atomic /\ ev <> L1_Replacement.
Proof using block_line.
  intros a Hinv Hm Ha Hrok. destruct (Hinv) as [Hb Hok].
  assert (response_at (port delay (abs s a)) a = Some m) as Hat
    by (unfold response_at, port; destruct delay; simpl; rewrite Hm; simpl; by rewrite Z.eqb_refl).
  unfold port_event, response_event. fold a.
  destruct (p_Type m) eqn:Hty; try (by destruct Hrok as (_ & _ & Hbad); rewrite Hty in Hbad).
  - destruct (load_step g DATA_BLOCK XACT_MEMORY CL_FIXED_LEASE id RECORDER home tag_fresh delay _ a m
      (Hok a Ha) Hat Hrok Hty) as (t & Ht & H1 & x & Hx & ? & ?).
    destruct (pending_at s a t Hb Ha Ht) as [-> ->]. simpl. rewrite H1. simpl. rewrite Hty in Hx.
    exists (reply_event delay DATA (0 <? pendingWrites t)), x.
    split_and!; try done; by destruct (0 <? pendingWrites t), delay.
  - destruct (write_step g DATA_BLOCK XACT_MEMORY CL_FIXED_LEASE id RECORDER home tag_fresh delay _ a m
      (Hok a Ha) Hat Hrok (or_intror Hty)) as (t & Ht & H1 & x & Hx & ? & ?).
    destruct (pending_at s a t Hb Ha Ht) as [-> ->]. simpl. rewrite (proj2 (Z.ltb_lt _ _) H1). simpl. rewrite Hty in Hx.
    eexists _, x. split; [done|]. split; [|split_and!; try done; by destruct (_ || _), delay].
    rewrite <- Hx. by destruct (_ || _).
  - destruct (write_step g DATA_BLOCK XACT_MEMORY CL_FIXED_LEASE id RECORDER home tag_fresh delay _ a m
      (Hok a Ha) Hat Hrok (or_introl Hty)) as (t & Ht & H1 & x & Hx & ? & ?).
    destruct (pending_at s a t Hb Ha Ht) as [-> ->]. simpl. rewrite (proj2 (Z.ltb_lt _ _) H1). simpl. rewrite Hty in Hx.
    eexists _, x. split; [done|]. split; [|split_and!; try done; by destruct (_ || _), delay].
    rewrite <- Hx. by destruct (_ || _).
Qed.

(** A response that is acted on. *)
Lemma response_outcome now s (delay : bool) m :
  let a := p_Address m in
  L1_inv s -> head (if delay then l_delay s else l_responses s) = Some m -> tag_block a -> response_ok (abs s a) m ->
  exists ev s', port_event delay s m = Some ev /\ doTransition now s ev a = Some (Valid, s') /\ L1_inv s' /\
    answered delay (abs s a) a m (abs s' a) /\ others_kept s s' a.
Proof using block_line home_bank.
  intros a Hinv Hm Ha Hrok. destruct (Hinv) as [Hb Hok].
  destruct (response_step s delay m Hinv Hm Ha Hrok) as (ev & x & Hev & Hx & Hxok & Hans & HL & HW & HA & HR).
  exists ev.
  destruct (doTransition_refines g DATA_BLOCK XACT_MEMORY NUMBER_OF_TBES CL_FIXED_LEASE id RECORDER home
    block_line home_bank now s ev a x Hb Ha Hx) as [(_ & _ & Hbad)|[(_ & -> & _)|(s' & E & Hsim & _)]].
  - by intros ->.
  - by destruct Hbad as [|[|]].
  - done.
  - exists s'. destruct (sim_inv s s' a x) as (? & Hx' & ?); [done..|]. by rewrite Hx'.
Qed.

Lemma response_port now s m :
  let a := p_Address m in
  L1_inv s -> head (l_responses s) = Some m -> id ∈ p_Destination m -> tag_block a -> response_ok (abs s a) m ->
  exists s', response_in now s = Some (Valid, s') /\ L1_inv s' /\ others_kept s s' a /\
    (if DELAY_QUEUE_ENABLED && (DELAY_QUEUE_THRESHOLD <? p_wts m - tag_getPts (l_cache s)) then
       b_pts (abs s' a) = b_pts (abs s a) /\ l_calls s' = l_calls s /\ l_out s' = l_out s /\
       b_loads (abs s' a) = b_loads (abs s a) /\ b_stores (abs s' a) = b_stores (abs s a) /\
       l_responses s' = tail (l_responses s) /\ l_delay s' = delay_insert m (l_delay s) /\ no_new_copy (abs s a) (abs s' a)
     else answered false (abs s a) a m (abs s' a)).
Proof using block_line home_bank.
  intros a Hinv Hm Hid Ha Hrok. unfold responseIntraChipL1Network_in. rewrite Hm. simpl.
  rewrite bool_decide_eq_true_2 by done. destruct (DELAY_QUEUE_ENABLED && _) eqn:Hd.
  - assert (response_at (b_responses (abs s a)) a = Some m) as Hat
      by (unfold response_at; simpl; rewrite Hm; simpl; by rewrite Z.eqb_refl).
    destruct (Hinv) as [Hb Hok].
    destruct (delay_step g DATA_BLOCK XACT_MEMORY CL_FIXED_LEASE id RECORDER home tag_fresh _ a m (Hok a Ha) Hat Hrok)
      as (x & Hx & Hxok & Hpost).
    destruct (doTransition_refines g DATA_BLOCK XACT_MEMORY NUMBER_OF_TBES CL_FIXED_LEASE id RECORDER home
      block_line home_bank now s Delay a x Hb Ha Hx) as [(_ & _ & Hbad)|[(_ & Hbad & _)|(s' & E & Hsim & _)]];
      [done|by destruct Hbad as [|[|]]|done|].
    exists s'. destruct (sim_inv s s' a x) as (? & <- & ?); [done..|].
    destruct Hpost as (? & ? & ? & _ & ? & ? & ? & ?). done.
  - destruct (response_outcome now s false m Hinv Hm Ha Hrok) as (ev & s' & Hev & E & ? & ? & ?).
    unfold port_event, reply_event in Hev. rewrite Hev. by exists s'.
Qed.

Lemma delay_port now (stalled : bool) s m :
  let a := p_Address m in
  L1_inv s -> DELAY_QUEUE_ENABLED = true -> head (l_delay s) = Some m -> id ∈ p_Destination m -> tag_block a ->
  response_ok (abs s a) m ->
  if stalled then
    exists s', delay_in now true s = Some (Valid, s') /\ L1_inv s' /\ others_kept s s' a /\
      answered true (abs s a) a m (abs s' a)
  else delay_in now false s = Some (ProtocolStall, s).
Proof using block_line home_bank.
  intros a Hinv Hen Hm Hid Ha Hrok.
  unfold L2ResponseDelayQueue_in. rewrite Hm, Hen. simpl. rewrite bool_decide_eq_true_2 by done.
  destruct stalled; [|done].
  destruct (response_outcome now s true m Hinv Hm Ha Hrok) as (ev & s' & Hev & E & ? & ? & ?).
  unfold port_event, reply_event in Hev. rewrite Hev. by exists s'.
Qed.
(** C4: a response of the L2 is always accepted: under the controller's
    invariant the response port reaches no error or failed assertion and keeps the
    invariant. A response that would move the clock beyond the threshold is put
    in the delay queue; any other completes its oldest request, moves the clock to
    its write timestamp if later, gives a load's line the lease the L2
    granted, makes the copy unreadable after a write, and frees the transaction buffer
    exactly when nothing else is outstanding. *)
Theorem L1_response_safe now s m :
  let a := p_Address m in
  L1_inv s -> head (l_responses s) = Some m -> id ∈ p_Destination m -> tag_block a -> response_ok (abs s a) m ->
  exists s', response_in now s = Some (Valid, s') /\ L1_inv s' /\ others_kept s s' a /\
    (if DELAY_QUEUE_ENABLED && (DELAY_QUEUE_THRESHOLD <? p_wts m - tag_getPts (l_cache s)) then
       b_pts (abs s' a) = b_pts (abs s a) /\ l_calls s' = l_calls s /\ l_out s' = l_out s /\
       b_loads (abs s' a) = b_loads (abs s a) /\ b_stores (abs s' a) = b_stores (abs s a) /\
       l_responses s' = tail (l_responses s) /\ l_delay s' = delay_insert m (l_delay s)
     else answered false (abs s a) a m (abs s' a)).
Proof using block_line home_bank.
  intros a Hinv Hm Hid Ha Hok. destruct (response_port now s m Hinv Hm Hid Ha Hok) as (s' & E & ? & ? & Hout).
  exists s'. split_and!; try done. destruct (DELAY_QUEUE_ENABLED && _); [|done]. destruct Hout as (? & ? & ? & ? & ? & ? & ? & _). done.
Qed.

(** A delayed response is held back until the scheduler is stalled and then
    completes its request just as an immediate one would. *)
Theorem L1_delayed_response_safe now (stalled : bool) s m :
  let a := p_Address m in
  L1_inv s -> DELAY_QUEUE_ENABLED = true -> head (l_delay s) = Some m -> id ∈ p_Destination m -> tag_block a ->
  response_ok (abs s a) m ->
  if stalled then
    exists s', delay_in now true s = Some (Valid, s') /\ L1_inv s' /\ others_kept s s' a /\
      answered true (abs s a) a m (abs s' a)
  else delay_in now false s = Some (ProtocolStall, s).
Proof using block_line home_bank. apply delay_port. Qed.
End safety.

(** ** A concrete controller *)
(** L1 number 5 of the small GPU, with the four-set two-way cache of CacheMemory. *)
Abbreviation L1Cache_state := (L1 (CacheMemory LastRef L1Entry)).

Definition L1_cache0 : CacheMemory LastRef L1Entry :=
  CacheMemory_new default_config true false L1Cache 2 2 (LastRef_new 4 2).

(** A load of 0x200 waits in the mandatory queue. *)
Definition load_0x200 : CacheMsg := mkCacheMsg 0x200 LD 4 GLOBAL 3 17 1 7 false 99.
Definition L1_start : L1Cache_state := mkL1 L1_cache0 ∅ ∅ ∅ ∅ ∅ [load_0x200] [] [] [] [].

Definition home_of (id a : Z) : MachineID :=
  from_option (fun m => m) (mkMachine L2Cache 0) (map_L1CacheMachId_to_L2Cache default_config a (machineID id)).

Lemma home_of_bank a : line_ok default_config a ->
  map_L1CacheMachId_to_L2Cache default_config a (machineID 5) = Some (home_of 5 a).
Proof.
  intros [Ha _]. unfold home_of.
  pose proof (L1_bank_total default_config default_config_wf ltac:(vm_compute; split; done) a 0 5 Ha
    ltac:(vm_compute; split; congruence) ltac:(vm_compute; split; congruence)) as E.
  change (machineID 5) with (mkMachine L1Cache (0 * g_PROCS_PER_CHIP default_config + 5)). by rewrite E.
Qed.

#[local] Instance L1_tags : TagArray (CacheMemory LastRef L1Entry) L1Entry :=
  CacheMemory_TagArray default_config true false.
#[local] Instance L1_laws : TagArrayLaws (CacheMemory LastRef L1Entry) L1Entry default :=
  CacheMemory_laws default_config true false.
Abbreviation inv := (L1_inv default_config 4 false).

Lemma block_is_line a : line_ok default_config a -> is_line default_config a = true.
Proof. by intros []. Qed.

Lemma line_ok_0x200 : line_ok default_config 0x200.
Proof. apply line_ok_L1. set_solver. Qed.

Lemma L1_start_inv : inv L1_start.
Proof.
  assert (cache_inv default_config L1_cache0 /\
    forall b, line_ok default_config b -> lookup default_config L1_cache0 b = None) as [Hc Hl].
  { apply CacheMemory_new_inv; try (by vm_compute) || (vm_compute; split; congruence).
    - by left.
    - apply (LastRef_new_ok 4 2); vm_compute; congruence. }
  split.
  - split; [exact Hc|split; [by vm_compute|]|apply queues_ok_empty..].
    intros a [t Ht]. simpl in Ht. by rewrite lookup_empty in Ht.
  - intros a Ha. split; simpl; [done|by vm_compute|by intros|]. rewrite lookup_empty.
    split_and!; [done..|]. intros e. change (lookup default_config L1_cache0 a = Some e -> stable (CacheState (e_state e))).
    by rewrite Hl.
Qed.

Lemma L1_request_safe_witness :
  exists r s', mandatoryQueue_in default_config true false 4 10 5 false 100 L1_start = Some (r, s') /\ inv s' /\
    request_outcome 4 10 5 (home_of 5) L1_start load_0x200 r s'.
Proof.
  apply (L1_request_safe (TA := L1_tags) (TL := L1_laws) default_config true false 4 10 5 false (home_of 5) block_is_line home_of_bank
           100 L1_start load_0x200 L1_start_inv); [reflexivity|exact line_ok_0x200|].
  split; [done|split; [by vm_compute|done]].
Defined.

(** The controller after the load missed, and the L2's answer: a lease until 10. *)
Definition L1_waiting : L1Cache_state :=
  from_option snd L1_start (L1_doTransition default_config true false 4 10 5 false 100 L1_start Load 0x200).
Definition data_0x200 (wts : Z) : ResponseMsg :=
  mkResponse 0x200 DATA (mkMachine L2Cache 4) {[5]} (replicate 128 7) false 0 GLOBAL 128 10 wts 0 [].
Definition with_ports (s : L1Cache_state) (r d : list ResponseMsg) : L1Cache_state := set_lports s (l_mandatory s) r d.

(** The queues are no part of the invariant. *)
Lemma with_ports_inv s r d : inv s -> inv (with_ports s r d).
Proof. apply L1_ports_inv. Qed.

Lemma L1_waiting_inv : inv L1_waiting.
Proof.
  destruct (transition_outcome (TA := L1_tags) (TL := L1_laws) default_config true false 4 10 5 false (home_of 5)
    block_is_line home_of_bank 100 L1_start load_0x200 Load L1_start_inv) as (r & s' & E & Hs' & _).
  - reflexivity.
  - exact line_ok_0x200.
  - split; [done|split; [by vm_compute|done]].
  - reflexivity.
  - intros _ _. by vm_compute.
  - change (c_Address load_0x200) with 0x200 in E. unfold L1_waiting. rewrite E. exact Hs'.
Qed.

Lemma L1_response_safe_witness :
  exists s', responseIntraChipL1Network_in default_config true false 4 10 5 false true 100 200
      (with_ports L1_waiting [data_0x200 3] []) = Some (Valid, s') /\ inv s' /\
    b_calls (abs s' 0x200) = [readCallback 0x200] /\ b_pts (abs s' 0x200) = 3.
Proof.
  destruct (L1_response_safe (TA := L1_tags) (TL := L1_laws) default_config true false 4 10 5 false true 100 (home_of 5) block_is_line home_of_bank
    200 (with_ports L1_waiting [data_0x200 3] []) (data_0x200 3)) as (s' & E & Hs' & _ & Hans).
  - apply with_ports_inv, L1_waiting_inv.
  - reflexivity.
  - set_solver.
  - exact line_ok_0x200.
  - split; [by vm_compute|split; [by vm_compute|]]. by vm_compute.
  - exists s'. split; [exact E|split; [exact Hs'|]].
    match type of Hans with (if ?c then _ else _) => replace c with false in Hans by (vm_compute; reflexivity) end.
    change (p_Address (data_0x200 3)) with 0x200 in Hans. destruct Hans as (Hp & _ & _ & _ & Hc & _). rewrite Hp, Hc. split; vm_compute; reflexivity.
Defined.

Lemma L1_delayed_response_safe_witness :
  exists s', L2ResponseDelayQueue_in default_config true false 4 10 5 false true 300 true
      (with_ports L1_waiting [] [data_0x200 500]) = Some (Valid, s') /\ inv s' /\ b_pts (abs s' 0x200) = 500.
Proof.
  destruct (L1_delayed_response_safe (TA := L1_tags) (TL := L1_laws) default_config true false 4 10 5 false true (home_of 5) block_is_line home_of_bank
    300 true (with_ports L1_waiting [] [data_0x200 500]) (data_0x200 500)) as (s' & E & Hs' & _ & Hans).
  - apply with_ports_inv, L1_waiting_inv.
  - reflexivity.
  - reflexivity.
  - set_solver.
  - exact line_ok_0x200.
  - split; [by vm_compute|split; [by vm_compute|]]. by vm_compute.
  - exists s'. split; [exact E|split; [exact Hs'|]]. change (p_Address (data_0x200 500)) with 0x200 in Hans.
    destruct Hans as (Hp & _). rewrite Hp. vm_compute. reflexivity.
Defined.
