(* ===== verification/RccL2.v ===== *)
(** A bank of the shared L2 of the relativistic coherence protocol:
    [protocols/tardis-VI-L2cache.sm]. States, events, actions, transitions and
    ports are those of the SLICC machine; [L2_doTransition] is the code SLICC
    generates for it ([slicc/symbols/StateMachine.C]). *)
From S2P Require Import Prelude Vector Config Address DataBlock CacheMemory Tables Requests TagArray RccMsg.

Inductive L2_State := L2_NP | L2_V | L2_IV | L2_IAV.
#[global] Instance L2_State_eq_dec : EqDecision L2_State.
Proof. solve_decision. Defined.

Inductive L2_Event :=
  | L1_GETS | L1_Write | L2_Atomic | L2_Replacement | L2_Replacement_clean
  | Mem_Data_PR | Mem_Data_PW | Mem_Data_PRW.

(** The protocol's part of an entry, and transaction buffers. *)
Record L2Entry := mkL2Entry { d_CacheState : L2_State; d_Dirty : bool; d_wts : Z }.
#[global] Instance L2Entry_default : Default L2Entry := mkL2Entry L2_NP false 0.

Record L2TBE := mkL2TBE {
  u_State : L2_State; u_DataBlk : list Z; u_Dirty : bool;
  L1_GetS_IDs : gset Z; L1_WBAck_ID : MachineID;
  u_Space : MemorySpaceType; deltaRequested : Z; RequestSize : Z;
  max_read_pts : Z; max_write_pts : Z; pending_read : bool; pending_write : bool;
  u_memfetch : Z; u_mfset : list (list Z) }.

Inductive L2_Action :=
  | a_issueFetchToMemory | a_issueFetchToMemoryForStore | c_exclusiveReplacement
  | ds_sendDataToRequestor | dst_sendDataToGetSRequestors
  | ds_sendAtomicDataGlobalToRequestor | dst_sendAtomicDataToGetSRequestors
  | wa_sendAckToRequestor | wat_sendAckToRequestorFromTBE
  | i_allocateTBE | il_allocateTBE | s_deallocateTBE | jj_popL1RequestQueue | o_popIncomingResponseQueue
  | m_writeDataToCache | mr_writeDataToCacheFromRequest | mtr_writeDataToTBEFromRequest
  | mt_writeDataToCacheFromTBE | ss_recordGetSL1ID | set_setMRU | qq_allocateL2CacheBlock | setmts_setMts
  | tr_updateL2BlockRts | tw_updateL2BlockWts | trt_updateL2BlockRts_fromTBE
  | tmrt_updateMaxReadPtsInTBE | tmwt_updateMaxWritePtsInTBE | d_markBlockDirty
  | dpr_markPendingRead | dpw_markPendingWrite | rr_deallocateL2CacheBlock | xx_recordGetXL1ID
  | z_stall | pM_profileRequestMiss | pH_profileRequestHit | pM_profileResponseMiss | pH_profileResponseHit.
#[global] Instance L2_Action_eq_dec : EqDecision L2_Action.
Proof. solve_decision. Defined.

(** ** Transitions *)
Definition write_miss : list L2_Action :=
  [pM_profileResponseMiss; qq_allocateL2CacheBlock; d_markBlockDirty; il_allocateTBE; xx_recordGetXL1ID;
   dpw_markPendingWrite; mtr_writeDataToTBEFromRequest; a_issueFetchToMemoryForStore].

Definition L2_transition (state : L2_State) (event : L2_Event) : option (L2_State * list L2_Action) :=
  match state, event with
  | L2_NP, L1_GETS => Some (L2_IV,
      [pM_profileRequestMiss; qq_allocateL2CacheBlock; i_allocateTBE; ss_recordGetSL1ID; dpr_markPendingRead;
       a_issueFetchToMemory; jj_popL1RequestQueue])
  | L2_NP, L1_Write => Some (L2_IV, write_miss ++ [wat_sendAckToRequestorFromTBE; jj_popL1RequestQueue])
  | L2_NP, L2_Atomic => Some (L2_IAV, write_miss ++ [jj_popL1RequestQueue])
  | L2_IAV, (L1_GETS | L1_Write | L2_Atomic | L2_Replacement | L2_Replacement_clean) => Some (L2_IAV, [z_stall])
  | L2_IAV, Mem_Data_PW => Some (L2_V,
      [m_writeDataToCache; mt_writeDataToCacheFromTBE; dst_sendAtomicDataToGetSRequestors; s_deallocateTBE;
       o_popIncomingResponseQueue])
  | L2_IV, L1_GETS => Some (L2_IV,
      [pH_profileRequestHit; ss_recordGetSL1ID; dpr_markPendingRead; tmrt_updateMaxReadPtsInTBE;
       jj_popL1RequestQueue])
  | L2_IV, L1_Write => Some (L2_IV,
      [pH_profileResponseHit; xx_recordGetXL1ID; dpw_markPendingWrite; tmwt_updateMaxWritePtsInTBE;
       mtr_writeDataToTBEFromRequest; wat_sendAckToRequestorFromTBE; jj_popL1RequestQueue])
  | L2_IV, Mem_Data_PR => Some (L2_V,
      [m_writeDataToCache; trt_updateL2BlockRts_fromTBE; dst_sendDataToGetSRequestors; s_deallocateTBE;
       o_popIncomingResponseQueue])
  | L2_IV, Mem_Data_PW => Some (L2_V,
      [m_writeDataToCache; mt_writeDataToCacheFromTBE; s_deallocateTBE; o_popIncomingResponseQueue])
  | L2_IV, Mem_Data_PRW => Some (L2_V,
      [m_writeDataToCache; mt_writeDataToCacheFromTBE; trt_updateL2BlockRts_fromTBE;
       dst_sendDataToGetSRequestors; s_deallocateTBE; o_popIncomingResponseQueue])
  | L2_IV, (L2_Atomic | L2_Replacement | L2_Replacement_clean) => Some (L2_IV, [z_stall])
  | L2_V, L1_GETS => Some (L2_V,
      [pH_profileRequestHit; tr_updateL2BlockRts; ds_sendDataToRequestor; set_setMRU; jj_popL1RequestQueue])
  | L2_V, L1_Write => Some (L2_V,
      [pH_profileResponseHit; d_markBlockDirty; tw_updateL2BlockWts; wa_sendAckToRequestor;
       mr_writeDataToCacheFromRequest; set_setMRU; jj_popL1RequestQueue])
  | L2_V, L2_Atomic => Some (L2_V,
      [pH_profileResponseHit; d_markBlockDirty; tw_updateL2BlockWts; ds_sendAtomicDataGlobalToRequestor;
       mr_writeDataToCacheFromRequest; set_setMRU; jj_popL1RequestQueue])
  | L2_V, L2_Replacement_clean => Some (L2_NP, [setmts_setMts; rr_deallocateL2CacheBlock])
  | L2_V, L2_Replacement => Some (L2_NP, [setmts_setMts; c_exclusiveReplacement; rr_deallocateL2CacheBlock])
  | _, _ => None
  end.

(** ** The controller *)
(** Everything the bank can change; queues are oldest first, [k_out] and
    [k_fetch] list the responses and the memory requests it sent. *)
Record L2 (C : Type) := mkL2 {
  k_cache : C; k_tbes : gmap Z L2TBE; k_requests : list RequestMsg; k_memory : list MemoryMsg;
  k_out : list ResponseMsg; k_fetch : list MemoryMsg }.
#[global] Arguments mkL2 {C}.
#[global] Arguments k_cache {C}.
#[global] Arguments k_tbes {C}.
#[global] Arguments k_requests {C}.
#[global] Arguments k_memory {C}.
#[global] Arguments k_out {C}.
#[global] Arguments k_fetch {C}.

(** Assignments to the fields of a transaction buffer. *)
Definition set_u_State st (t : L2TBE) : L2TBE :=
  mkL2TBE st (u_DataBlk t) (u_Dirty t) (L1_GetS_IDs t) (L1_WBAck_ID t) (u_Space t) (deltaRequested t) (RequestSize t)
    (max_read_pts t) (max_write_pts t) (pending_read t) (pending_write t) (u_memfetch t) (u_mfset t).
Definition set_u_data d dirty (t : L2TBE) : L2TBE :=
  mkL2TBE (u_State t) d dirty (L1_GetS_IDs t) (L1_WBAck_ID t) (u_Space t) (deltaRequested t) (RequestSize t)
    (max_read_pts t) (max_write_pts t) (pending_read t) (pending_write t) (u_memfetch t) (u_mfset t).
Definition set_u_readers ids size mfset (t : L2TBE) : L2TBE :=
  mkL2TBE (u_State t) (u_DataBlk t) (u_Dirty t) ids (L1_WBAck_ID t) (u_Space t) (deltaRequested t) size
    (max_read_pts t) (max_write_pts t) (pending_read t) (pending_write t) (u_memfetch t) mfset.
Definition set_u_writer id memfetch (t : L2TBE) : L2TBE :=
  mkL2TBE (u_State t) (u_DataBlk t) (u_Dirty t) (L1_GetS_IDs t) id (u_Space t) (deltaRequested t) (RequestSize t)
    (max_read_pts t) (max_write_pts t) (pending_read t) (pending_write t) memfetch (u_mfset t).
Definition set_u_pts r w (t : L2TBE) : L2TBE :=
  mkL2TBE (u_State t) (u_DataBlk t) (u_Dirty t) (L1_GetS_IDs t) (L1_WBAck_ID t) (u_Space t) (deltaRequested t)
    (RequestSize t) r w (pending_read t) (pending_write t) (u_memfetch t) (u_mfset t).
Definition set_u_pending r w (t : L2TBE) : L2TBE :=
  mkL2TBE (u_State t) (u_DataBlk t) (u_Dirty t) (L1_GetS_IDs t) (L1_WBAck_ID t) (u_Space t) (deltaRequested t)
    (RequestSize t) (max_read_pts t) (max_write_pts t) r w (u_memfetch t) (u_mfset t).

(** Assignments to the fields of an entry. *)
Definition set_d_State st (d : L2Entry) : L2Entry := mkL2Entry st (d_Dirty d) (d_wts d).
Definition set_d_Dirty b (d : L2Entry) : L2Entry := mkL2Entry (d_CacheState d) b (d_wts d).
Definition set_d_wts w (d : L2Entry) : L2Entry := mkL2Entry (d_CacheState d) (d_Dirty d) w.
Definition set_data blk dirty (e : Entry L2Entry) : Entry L2Entry :=
  map_state (set_d_Dirty dirty) (set_e_DataBlk e blk).

Section l2.
Context {C : Type} `{TagArray C L2Entry}.
(** The configuration; [id] is the number of the bank. *)
Variables (g : Globals) (DATA_BLOCK XACT_MEMORY : bool) (NUMBER_OF_TBES id : Z).
Implicit Types (s : L2 C) (a : Z).

Definition bankID : MachineID := mkMachine L2Cache id.
Definition set_kcache s c : L2 C := mkL2 c (k_tbes s) (k_requests s) (k_memory s) (k_out s) (k_fetch s).
Definition set_ktbes s t : L2 C := mkL2 (k_cache s) t (k_requests s) (k_memory s) (k_out s) (k_fetch s).
Definition set_kports s r m : L2 C := mkL2 (k_cache s) (k_tbes s) r m (k_out s) (k_fetch s).
Definition respond s (p : ResponseMsg) : L2 C :=
  mkL2 (k_cache s) (k_tbes s) (k_requests s) (k_memory s) (k_out s ++ [p]) (k_fetch s).
Definition to_memory s (m : MemoryMsg) : L2 C :=
  mkL2 (k_cache s) (k_tbes s) (k_requests s) (k_memory s) (k_out s) (k_fetch s ++ [m]).

(** A new transaction buffer; the fields without a default of their own have
    that of their type. *)
Definition L2TBE_new : L2TBE :=
  mkL2TBE L2_NP (DataBlock_new g DATA_BLOCK XACT_MEMORY) false ∅ (mkMachine L1Cache 0) NULL_space 0 0 0 0 false false 0
    (MemfetchSet_new g).
#[local] Instance L2TBE_default : Default L2TBE := L2TBE_new.

Definition on_kcache s (f : C -> option C) : option (L2 C) := c ← f (k_cache s); Some (set_kcache s c).
Definition on_ktbes s (f : gmap Z L2TBE -> option (gmap Z L2TBE)) : option (L2 C) :=
  t ← f (k_tbes s); Some (set_ktbes s t).
Definition L2_TBEs_isPresent s a : option bool := TBE_isPresent g NUMBER_OF_TBES (k_tbes s) a.
(** [L2_TBEs[address]], read and assigned through. *)
Definition L2_TBEs_lookup s a : option L2TBE := TBE_lookup g NUMBER_OF_TBES (k_tbes s) a.
Definition assign_tbe s a (f : L2TBE -> L2TBE) : option (L2 C) :=
  on_ktbes s (fun t => TBE_update g NUMBER_OF_TBES t a f).

Definition isL2CacheTagPresent s a : option bool := tag_isTagPresent (k_cache s) a.
(** [getL2CacheEntry(addr)], read and assigned through. *)
Definition getL2CacheEntry s a : option (Entry L2Entry) := tag_lookup (k_cache s) a.
Definition assign_entry s a (f : Entry L2Entry -> Entry L2Entry) : option (L2 C) :=
  on_kcache s (fun c => tag_assign c a f).
Definition changeL2Permission s a p : option (L2 C) :=
  b ← isL2CacheTagPresent s a;
  if (b : bool) then on_kcache s (fun c => tag_changePermission c a p) else Some s.

Definition getState s a : option L2_State :=
  b ← L2_TBEs_isPresent s a;
  if (b : bool) then t ← L2_TBEs_lookup s a; Some (u_State t)
  else
    b ← isL2CacheTagPresent s a;
    if (b : bool) then e ← getL2CacheEntry s a; Some (d_CacheState (e_state e)) else Some L2_NP.

Definition setState s a (st : L2_State) : option (L2 C) :=
  b ← L2_TBEs_isPresent s a;
  s ← (if (b : bool) then assign_tbe s a (set_u_State st) else Some s);
  b ← isL2CacheTagPresent s a;
  if (b : bool) then
    s ← assign_entry s a (map_state (set_d_State st));
    changeL2Permission s a (if decide (st = L2_V) then Read_Write else Busy)
  else Some s.

Definition L1Cache_request_type_to_event (type : CoherenceRequestType) : option L2_Event :=
  match type with
  | GETS => Some L1_GETS | REQ_DATA => Some L1_Write | REQ_DATA_ATOMIC => Some L2_Atomic | _ => None end.

(** [convertRequestToGenericType], which only knows these kinds. *)
Definition request_type_ok (type : CoherenceRequestType) : bool :=
  match type with GETS | DATA_UPGRADE | REQ_DATA | REQ_DATA_ATOMIC => true | _ => false end.

(** ** Actions *)
Definition issueFetch s a : option (L2 C) :=
  m ← head (k_requests s);
  Some (to_memory s (mkMemoryMsg a MEMORY_READ bankID bankID (DataBlock_new g DATA_BLOCK XACT_MEMORY))).

Definition exclusiveReplacement s a : option (L2 C) :=
  e ← getL2CacheEntry s a;
  Some (to_memory s (mkMemoryMsg a MEMORY_WB bankID bankID (e_DataBlk e))).

Definition sendDataToRequestor s a : option (L2 C) :=
  m ← head (k_requests s);
  rts ← tag_getRts (k_cache s) a;
  assert! q_pts m <=? rts;
  e ← getL2CacheEntry s a;
  mfset ← MemfetchSet_insert g (MemfetchSet_new g) (m_num (q_Requestor m)) (q_memfetch m);
  Some (respond s (mkResponse a DATA bankID {[m_num (q_Requestor m)]} (e_DataBlk e) (d_Dirty (e_state e)) 0
    (q_Space m) (q_RequestSize m) rts (d_wts (e_state e)) 0 mfset)).

Definition sendDataToGetSRequestors s a : option (L2 C) :=
  t ← L2_TBEs_lookup s a;
  assert! 0 <? Z.of_nat (size (L1_GetS_IDs t));
  rts ← tag_getRts (k_cache s) a;
  assert! max_read_pts t <=? rts;
  e ← getL2CacheEntry s a;
  b ← isL2CacheTagPresent s a;
  assert! (b : bool);
  Some (respond s (mkResponse a DATA bankID (L1_GetS_IDs t) (e_DataBlk e) (d_Dirty (e_state e)) 0
    (u_Space t) (RequestSize t) rts (d_wts (e_state e)) 0 (u_mfset t))).

Definition sendAtomicDataGlobalToRequestor s a : option (L2 C) :=
  m ← head (k_requests s);
  e ← getL2CacheEntry s a;
  Some (respond s (mkResponse a DATA_ATOMIC bankID {[m_num (q_Requestor m)]} (e_DataBlk e) (d_Dirty (e_state e)) 0
    (q_Space m) (q_RequestSize m) 0 (d_wts (e_state e)) (q_memfetch m) (MemfetchSet_new g))).

Definition sendAtomicDataToGetSRequestors s a : option (L2 C) :=
  t ← L2_TBEs_lookup s a;
  e ← getL2CacheEntry s a;
  b ← isL2CacheTagPresent s a;
  assert! (b : bool);
  Some (respond s (mkResponse a DATA_ATOMIC bankID {[m_num (L1_WBAck_ID t)]} (e_DataBlk e) (d_Dirty (e_state e)) 0
    (u_Space t) (RequestSize t) 0 (d_wts (e_state e)) (u_memfetch t) (MemfetchSet_new g))).

Definition sendAckToRequestor s a : option (L2 C) :=
  m ← head (k_requests s);
  e ← getL2CacheEntry s a;
  Some (respond s (mkResponse a ACK bankID {[m_num (q_Requestor m)]} (DataBlock_new g DATA_BLOCK XACT_MEMORY) false 0
    (q_Space m) (q_RequestSize m) 0 (d_wts (e_state e)) (q_memfetch m) (MemfetchSet_new g))).

Definition sendAckToRequestorFromTBE s a : option (L2 C) :=
  t ← L2_TBEs_lookup s a;
  b ← isL2CacheTagPresent s a;
  assert! (b : bool);
  Some (respond s (mkResponse a ACK bankID {[m_num (L1_WBAck_ID t)]} (DataBlock_new g DATA_BLOCK XACT_MEMORY) false 0
    (u_Space t) (RequestSize t) 0 (getTimeMax (max_write_pts t) (tag_getMts (k_cache s))) (u_memfetch t)
    (MemfetchSet_new g))).

(** Both allocations; [lease], if any, is the value [deltaRequested] gets. *)
Definition allocate_tbe s a (r w : RequestMsg -> Z) (lease : RequestMsg -> L2TBE -> Z) : option (L2 C) :=
  m ← head (k_requests s);
  s ← on_ktbes s (fun t => TBE_allocate g NUMBER_OF_TBES t a);
  e ← getL2CacheEntry s a;
  assign_tbe s a (fun t =>
    mkL2TBE (u_State t) (e_DataBlk e) (d_Dirty (e_state e)) ∅ (L1_WBAck_ID t) (q_Space m) (lease m t)
      (q_RequestSize m) (r m) (w m) false false (q_memfetch m) (u_mfset t)).

(** The profiling of an expired copy checks that the L1 says it expired. *)
Definition popL1RequestQueue s a : option (L2 C) :=
  match k_requests s with
  | [] => None
  | m :: l =>
      match q_Type m with
      | GETS =>
          b ← isL2CacheTagPresent s a;
          ok ← (if (b : bool) then
                  e ← getL2CacheEntry s a;
                  Some (if bool_decide (d_CacheState (e_state e) = L2_V) && q_InL1 m && (d_wts (e_state e) <? q_rts m)
                        then q_ExpiredInL1 m else true)
                else Some true);
          assert! (ok : bool);
          Some (set_kports s l (k_memory s))
      | REQ_DATA | REQ_DATA_ATOMIC => Some (set_kports s l (k_memory s))
      | _ => None
      end
  end.

Definition popMemory s : option (L2 C) :=
  match k_memory s with [] => None | _ :: l => Some (set_kports s (k_requests s) l) end.

Definition writeDataToCache s a : option (L2 C) :=
  mm ← head (k_memory s);
  s ← assign_entry s a (set_data (mm_DataBlk mm) false);
  s ← on_kcache s (fun c => tag_setRts c a (tag_getMts c));
  assign_entry s a (map_state (set_d_wts (tag_getMts (k_cache s)))).

Definition writeDataToCacheFromRequest s a : option (L2 C) :=
  m ← head (k_requests s);
  assert! q_Dirty m;
  assign_entry s a (set_data (q_DataBlk m) (q_Dirty m)).

Definition writeDataToTBEFromRequest s a : option (L2 C) :=
  m ← head (k_requests s);
  assert! q_Dirty m;
  assign_tbe s a (set_u_data (q_DataBlk m) (q_Dirty m)).

Definition writeDataToCacheFromTBE s a : option (L2 C) :=
  t ← L2_TBEs_lookup s a;
  assert! u_Dirty t;
  s ← assign_entry s a (set_data (u_DataBlk t) (u_Dirty t));
  s ← on_kcache s (fun c => tag_setRts c a (tag_getMts c));
  assign_entry s a (map_state (set_d_wts (getTimeMax (max_write_pts t) (tag_getMts (k_cache s))))).

Definition recordGetSL1ID s a : option (L2 C) :=
  m ← head (k_requests s);
  t ← L2_TBEs_lookup s a;
  assert! bool_decide (u_Space t = q_Space m);
  mfset ← MemfetchSet_insert g (u_mfset t) (m_num (q_Requestor m)) (q_memfetch m);
  assign_tbe s a (set_u_readers ({[m_num (q_Requestor m)]} ∪ L1_GetS_IDs t)
    (getIntMax (RequestSize t) (q_RequestSize m)) mfset).

Definition setMts s a : option (L2 C) :=
  rts ← tag_getRts (k_cache s) a;
  e ← getL2CacheEntry s a;
  Some (set_kcache s (tag_setMts (k_cache s)
    (getTimeMax (tag_getMts (k_cache s)) (getTimeMax rts (d_wts (e_state e)))))).

(** The lease a read at [pts] for [delta] extends the block to. *)
Definition extended_rts (pts delta wts rts : Z) : option Z :=
  x ← getTimePlusTime pts delta;
  y ← getTimePlusTime wts delta;
  Some (getTimeMax x (getTimeMax y rts)).

Definition updateL2BlockRts s a : option (L2 C) :=
  m ← head (k_requests s);
  e ← getL2CacheEntry s a;
  rts ← tag_getRts (k_cache s) a;
  r ← extended_rts (q_pts m) (q_deltaRequested m) (d_wts (e_state e)) rts;
  on_kcache s (fun c => tag_setRts c a r).

Definition updateL2BlockWts s a : option (L2 C) :=
  m ← head (k_requests s);
  e ← getL2CacheEntry s a;
  rts ← tag_getRts (k_cache s) a;
  x ← getTimePlusInt rts 1;
  assign_entry s a (map_state (set_d_wts (getTimeMax (getTimeMax (q_pts m) (d_wts (e_state e))) x))).

Definition updateL2BlockRts_fromTBE s a : option (L2 C) :=
  t ← L2_TBEs_lookup s a;
  e ← getL2CacheEntry s a;
  rts ← tag_getRts (k_cache s) a;
  r ← extended_rts (max_read_pts t) (deltaRequested t) (d_wts (e_state e)) rts;
  on_kcache s (fun c => tag_setRts c a r).

Definition updateMaxReadPtsInTBE s a : option (L2 C) :=
  m ← head (k_requests s);
  t ← L2_TBEs_lookup s a;
  assign_tbe s a (set_u_pts (getTimeMax (q_pts m) (max_read_pts t)) (max_write_pts t)).
Definition updateMaxWritePtsInTBE s a : option (L2 C) :=
  m ← head (k_requests s);
  t ← L2_TBEs_lookup s a;
  assign_tbe s a (set_u_pts (max_read_pts t) (getTimeMax (q_pts m) (max_write_pts t))).

Definition profileRequest s : option (L2 C) :=
  m ← head (k_requests s); assert! request_type_ok (q_Type m); Some s.

(** One action at address [a], at cycle [now]. *)
Definition L2_action (now : Z) (act : L2_Action) s a : option (L2 C) :=
  match act with
  | a_issueFetchToMemory | a_issueFetchToMemoryForStore => issueFetch s a
  | c_exclusiveReplacement => exclusiveReplacement s a
  | ds_sendDataToRequestor => sendDataToRequestor s a
  | dst_sendDataToGetSRequestors => sendDataToGetSRequestors s a
  | ds_sendAtomicDataGlobalToRequestor => sendAtomicDataGlobalToRequestor s a
  | dst_sendAtomicDataToGetSRequestors => sendAtomicDataToGetSRequestors s a
  | wa_sendAckToRequestor => sendAckToRequestor s a
  | wat_sendAckToRequestorFromTBE => sendAckToRequestorFromTBE s a
  | i_allocateTBE => allocate_tbe s a q_pts (fun _ => int_to_time 0) (fun m _ => q_deltaRequested m)
  | il_allocateTBE => allocate_tbe s a (fun _ => int_to_time 0) q_pts (fun _ t => deltaRequested t)
  | s_deallocateTBE => on_ktbes s (fun t => TBE_deallocate g NUMBER_OF_TBES t a)
  | jj_popL1RequestQueue => popL1RequestQueue s a
  | o_popIncomingResponseQueue => popMemory s
  | m_writeDataToCache => writeDataToCache s a
  | mr_writeDataToCacheFromRequest => writeDataToCacheFromRequest s a
  | mtr_writeDataToTBEFromRequest => writeDataToTBEFromRequest s a
  | mt_writeDataToCacheFromTBE => writeDataToCacheFromTBE s a
  | ss_recordGetSL1ID => recordGetSL1ID s a
  | set_setMRU => on_kcache s (fun c => tag_setMRU c a now)
  | qq_allocateL2CacheBlock =>
      b ← isL2CacheTagPresent s a;
      if (b : bool) then Some s else on_kcache s (fun c => tag_allocate c a now)
  | setmts_setMts => setMts s a
  | tr_updateL2BlockRts => updateL2BlockRts s a
  | tw_updateL2BlockWts => updateL2BlockWts s a
  | trt_updateL2BlockRts_fromTBE => updateL2BlockRts_fromTBE s a
  | tmrt_updateMaxReadPtsInTBE => updateMaxReadPtsInTBE s a
  | tmwt_updateMaxWritePtsInTBE => updateMaxWritePtsInTBE s a
  | d_markBlockDirty => assign_entry s a (map_state (set_d_Dirty true))
  | dpr_markPendingRead => assign_tbe s a (fun t => set_u_pending true (pending_write t) t)
  | dpw_markPendingWrite => assign_tbe s a (fun t => set_u_pending (pending_read t) true t)
  | rr_deallocateL2CacheBlock => on_kcache s (fun c => tag_deallocate c a)
  | xx_recordGetXL1ID => m ← head (k_requests s); assign_tbe s a (set_u_writer (q_Requestor m) (q_memfetch m))
  | z_stall => Some s
  | pM_profileRequestMiss | pH_profileRequestHit | pM_profileResponseMiss | pH_profileResponseHit => profileRequest s
  end.

Fixpoint L2_actions (now : Z) (acts : list L2_Action) s a : option (L2 C) :=
  match acts with [] => Some s | act :: acts => s ← L2_action now act s a; L2_actions now acts s a end.

(** ** Generated code *)
Definition needs_TBE (acts : list L2_Action) : bool := bool_decide (i_allocateTBE ∈ acts \/ il_allocateTBE ∈ acts).

Definition L2_doTransition (now : Z) s (event : L2_Event) a : option (TransitionResult * L2 C) :=
  state ← getState s a;
  '(next_state, acts) ← L2_transition state event;
  if needs_TBE acts && negb (TBE_areNSlotsAvailable NUMBER_OF_TBES (k_tbes s) 1) then Some (ResourceStall, s)
  else if bool_decide (z_stall ∈ acts) then Some (ProtocolStall, s)
  else
    s ← L2_actions now acts s a;
    s ← setState s a next_state;
    Some (Valid, s).

(** ** Ports *)
(** [memQueue_in]: memory's answers; the acknowledgement of a write-back is dropped. *)
Definition memQueue_in (now : Z) s : option (TransitionResult * L2 C) :=
  mm ← head (k_memory s);
  let a := mm_Address mm in
  match mm_Type mm with
  | MEMORY_READ =>
      t ← L2_TBEs_lookup s a;
      assert! pending_read t || pending_write t;
      L2_doTransition now s
        (if pending_read t && pending_write t then Mem_Data_PRW else if pending_read t then Mem_Data_PR else Mem_Data_PW) a
  | MEMORY_WB => s ← popMemory s; Some (Valid, s)
  | _ => None
  end.

(** [L1RequestIntraChipL2Network_in]. *)
Definition L1RequestIntraChipL2Network_in (now : Z) s : option (TransitionResult * L2 C) :=
  m ← head (k_requests s);
  let a := q_Address m in
  assert! bool_decide (m_type (q_Requestor m) = L1Cache);
  assert! bool_decide (q_Destination m = bankID);
  let request := event ← L1Cache_request_type_to_event (q_Type m); L2_doTransition now s event a in
  b ← tag_isTagPresent (k_cache s) a;
  if (b : bool) then request
  else
    avail ← tag_cacheAvail (k_cache s) a;
    if (avail : bool) then request
    else
      v ← tag_cacheProbe (k_cache s) a;
      e ← tag_lookup (k_cache s) v;
      L2_doTransition now s (if d_Dirty (e_state e) then L2_Replacement else L2_Replacement_clean) v.
End l2.
