(* ===== verification/RccL2Spec.v ===== *)
(** What an L2 bank does to one block: a block machine without tags, sets or
    tables, and the proof that the bank of RccL2 implements one such machine per
    block. *)
From S2P Require Import Prelude Vector Config Address DataBlock CacheMemory Tables Requests TagArray RccMsg RccL2.

(** ** The block machine *)
(** One block's share of the bank: its entry and its transaction buffer; and the
    clock of evicted blocks and the message buffers all blocks share. *)
Record Bank := mkBank {
  x_mts : Z; x_entry : option (Entry L2Entry); x_tbe : option L2TBE;
  x_requests : list RequestMsg; x_memory : list MemoryMsg;
  x_out : list ResponseMsg; x_fetch : list MemoryMsg }.

Section bank.
Variables (g : Globals) (DATA_BLOCK XACT_MEMORY : bool) (id : Z).
(** The entry of a block when allocated. *)
Variable fresh : Z -> Entry L2Entry.
Implicit Types (x : Bank) (a : Z) (m : RequestMsg) (t : L2TBE) (e : Entry L2Entry).

Definition set_x_mts x c : Bank := mkBank c (x_entry x) (x_tbe x) (x_requests x) (x_memory x) (x_out x) (x_fetch x).
Definition set_x_entry x (e : option (Entry L2Entry)) : Bank := mkBank (x_mts x) e (x_tbe x) (x_requests x) (x_memory x) (x_out x) (x_fetch x).
Definition set_x_tbe x (t : option L2TBE) : Bank := mkBank (x_mts x) (x_entry x) t (x_requests x) (x_memory x) (x_out x) (x_fetch x).
Definition set_x_ports x (r : list RequestMsg) (m : list MemoryMsg) : Bank := mkBank (x_mts x) (x_entry x) (x_tbe x) r m (x_out x) (x_fetch x).
Definition x_respond x p : Bank :=
  mkBank (x_mts x) (x_entry x) (x_tbe x) (x_requests x) (x_memory x) (x_out x ++ [p]) (x_fetch x).
Definition x_to_memory x mm : Bank :=
  mkBank (x_mts x) (x_entry x) (x_tbe x) (x_requests x) (x_memory x) (x_out x) (x_fetch x ++ [mm]).

(** The head of a queue, if it is about [a]. *)
Definition request_at x a : option RequestMsg := m ← head (x_requests x); assert! q_Address m =? a; Some m.
Definition memory_at x a : option MemoryMsg := m ← head (x_memory x); assert! mm_Address m =? a; Some m.

Definition on_entry x (f : Entry L2Entry -> Entry L2Entry) : option Bank :=
  e ← x_entry x; Some (set_x_entry x (Some (f e))).
Definition on_tbe x (f : L2TBE -> L2TBE) : option Bank := t ← x_tbe x; Some (set_x_tbe x (Some (f t))).

(** The responses. *)
Definition data_response a m e mfset : ResponseMsg :=
  mkResponse a DATA (bankID id) {[m_num (q_Requestor m)]} (e_DataBlk e) (d_Dirty (e_state e)) 0
    (q_Space m) (q_RequestSize m) (e_rts e) (d_wts (e_state e)) 0 mfset.
Definition data_response_all a t e : ResponseMsg :=
  mkResponse a DATA (bankID id) (L1_GetS_IDs t) (e_DataBlk e) (d_Dirty (e_state e)) 0
    (u_Space t) (RequestSize t) (e_rts e) (d_wts (e_state e)) 0 (u_mfset t).
Definition atomic_response a m e : ResponseMsg :=
  mkResponse a DATA_ATOMIC (bankID id) {[m_num (q_Requestor m)]} (e_DataBlk e) (d_Dirty (e_state e)) 0
    (q_Space m) (q_RequestSize m) 0 (d_wts (e_state e)) (q_memfetch m) (MemfetchSet_new g).
Definition atomic_response_waiting a t e : ResponseMsg :=
  mkResponse a DATA_ATOMIC (bankID id) {[m_num (L1_WBAck_ID t)]} (e_DataBlk e) (d_Dirty (e_state e)) 0
    (u_Space t) (RequestSize t) 0 (d_wts (e_state e)) (u_memfetch t) (MemfetchSet_new g).
Definition ack_response a m e : ResponseMsg :=
  mkResponse a ACK (bankID id) {[m_num (q_Requestor m)]} (DataBlock_new g DATA_BLOCK XACT_MEMORY) false 0
    (q_Space m) (q_RequestSize m) 0 (d_wts (e_state e)) (q_memfetch m) (MemfetchSet_new g).
Definition ack_response_waiting a mts t : ResponseMsg :=
  mkResponse a ACK (bankID id) {[m_num (L1_WBAck_ID t)]} (DataBlock_new g DATA_BLOCK XACT_MEMORY) false 0
    (u_Space t) (RequestSize t) 0 (Z.max (max_write_pts t) mts) (u_memfetch t) (MemfetchSet_new g).

Definition fetch_message a : MemoryMsg :=
  mkMemoryMsg a MEMORY_READ (bankID id) (bankID id) (DataBlock_new g DATA_BLOCK XACT_MEMORY).
Definition writeback_message a e : MemoryMsg := mkMemoryMsg a MEMORY_WB (bankID id) (bankID id) (e_DataBlk e).

Definition new_tbe m e (r w lease : Z) : L2TBE :=
  mkL2TBE L2_NP (e_DataBlk e) (d_Dirty (e_state e)) ∅ (mkMachine L1Cache 0) (q_Space m) lease
    (q_RequestSize m) r w false false (q_memfetch m) (MemfetchSet_new g).
Definition x_allocate_tbe x m r w lease : option Bank :=
  match x_tbe x, x_entry x with
  | None, Some e => Some (set_x_tbe x (Some (new_tbe m e r w lease)))
  | _, _ => None
  end.

(** Filling a line at timestamps [rts] and [wts]. *)
Definition fill blk dirty rts wts (e : Entry L2Entry) : Entry L2Entry :=
  map_state (set_d_wts wts) (set_e_rts (set_data blk dirty e) rts).

(** A read that says its copy is live must not be older than the last write. *)
Definition claim_ok x m : bool :=
  match x_entry x with
  | Some e =>
      if bool_decide (d_CacheState (e_state e) = L2_V) && q_InL1 m && (d_wts (e_state e) <? q_rts m)
      then q_ExpiredInL1 m else true
  | None => true
  end.

(** One action. *)
Definition bank_action (act : L2_Action) a x : option Bank :=
  match act with
  | a_issueFetchToMemory | a_issueFetchToMemoryForStore => m ← request_at x a; Some (x_to_memory x (fetch_message a))
  | c_exclusiveReplacement => e ← x_entry x; Some (x_to_memory x (writeback_message a e))
  | ds_sendDataToRequestor =>
      m ← request_at x a; e ← x_entry x;
      assert! q_pts m <=? e_rts e;
      mfset ← MemfetchSet_insert g (MemfetchSet_new g) (m_num (q_Requestor m)) (q_memfetch m);
      Some (x_respond x (data_response a m e mfset))
  | dst_sendDataToGetSRequestors =>
      t ← x_tbe x; e ← x_entry x;
      assert! 0 <? Z.of_nat (size (L1_GetS_IDs t));
      assert! max_read_pts t <=? e_rts e;
      Some (x_respond x (data_response_all a t e))
  | ds_sendAtomicDataGlobalToRequestor =>
      m ← request_at x a; e ← x_entry x; Some (x_respond x (atomic_response a m e))
  | dst_sendAtomicDataToGetSRequestors =>
      t ← x_tbe x; e ← x_entry x; Some (x_respond x (atomic_response_waiting a t e))
  | wa_sendAckToRequestor => m ← request_at x a; e ← x_entry x; Some (x_respond x (ack_response a m e))
  | wat_sendAckToRequestorFromTBE =>
      t ← x_tbe x; e ← x_entry x; Some (x_respond x (ack_response_waiting a (x_mts x) t))
  | i_allocateTBE => m ← request_at x a; x_allocate_tbe x m (q_pts m) 0 (q_deltaRequested m)
  | il_allocateTBE => m ← request_at x a; x_allocate_tbe x m 0 (q_pts m) 0
  | s_deallocateTBE => t ← x_tbe x; Some (set_x_tbe x None)
  | jj_popL1RequestQueue =>
      m ← request_at x a;
      match q_Type m with
      | GETS => assert! claim_ok x m; Some (set_x_ports x (tail (x_requests x)) (x_memory x))
      | REQ_DATA | REQ_DATA_ATOMIC => Some (set_x_ports x (tail (x_requests x)) (x_memory x))
      | _ => None
      end
  | o_popIncomingResponseQueue => mm ← memory_at x a; Some (set_x_ports x (x_requests x) (tail (x_memory x)))
  | m_writeDataToCache => mm ← memory_at x a; on_entry x (fill (mm_DataBlk mm) false (x_mts x) (x_mts x))
  | mr_writeDataToCacheFromRequest =>
      m ← request_at x a; assert! q_Dirty m; on_entry x (set_data (q_DataBlk m) (q_Dirty m))
  | mtr_writeDataToTBEFromRequest =>
      m ← request_at x a; assert! q_Dirty m; on_tbe x (set_u_data (q_DataBlk m) (q_Dirty m))
  | mt_writeDataToCacheFromTBE =>
      t ← x_tbe x; assert! u_Dirty t;
      on_entry x (fill (u_DataBlk t) (u_Dirty t) (x_mts x) (Z.max (max_write_pts t) (x_mts x)))
  | ss_recordGetSL1ID =>
      m ← request_at x a; t ← x_tbe x;
      assert! bool_decide (u_Space t = q_Space m);
      mfset ← MemfetchSet_insert g (u_mfset t) (m_num (q_Requestor m)) (q_memfetch m);
      Some (set_x_tbe x (Some (set_u_readers ({[m_num (q_Requestor m)]} ∪ L1_GetS_IDs t)
        (Z.max (RequestSize t) (q_RequestSize m)) mfset t)))
  | set_setMRU => e ← x_entry x; Some x
  | qq_allocateL2CacheBlock =>
      Some (match x_entry x with Some _ => x | None => set_x_entry x (Some (fresh a)) end)
  | setmts_setMts =>
      e ← x_entry x; Some (set_x_mts x (Z.max (x_mts x) (Z.max (e_rts e) (d_wts (e_state e)))))
  | tr_updateL2BlockRts =>
      m ← request_at x a; e ← x_entry x;
      r ← extended_rts (q_pts m) (q_deltaRequested m) (d_wts (e_state e)) (e_rts e);
      Some (set_x_entry x (Some (set_e_rts e r)))
  | tw_updateL2BlockWts =>
      m ← request_at x a; e ← x_entry x;
      n ← getTimePlusInt (e_rts e) 1;
      Some (set_x_entry x (Some (map_state (set_d_wts (Z.max (Z.max (q_pts m) (d_wts (e_state e))) n)) e)))
  | trt_updateL2BlockRts_fromTBE =>
      t ← x_tbe x; e ← x_entry x;
      r ← extended_rts (max_read_pts t) (deltaRequested t) (d_wts (e_state e)) (e_rts e);
      Some (set_x_entry x (Some (set_e_rts e r)))
  | tmrt_updateMaxReadPtsInTBE =>
      m ← request_at x a; on_tbe x (fun t => set_u_pts (Z.max (q_pts m) (max_read_pts t)) (max_write_pts t) t)
  | tmwt_updateMaxWritePtsInTBE =>
      m ← request_at x a; on_tbe x (fun t => set_u_pts (max_read_pts t) (Z.max (q_pts m) (max_write_pts t)) t)
  | d_markBlockDirty => on_entry x (map_state (set_d_Dirty true))
  | dpr_markPendingRead => on_tbe x (fun t => set_u_pending true (pending_write t) t)
  | dpw_markPendingWrite => on_tbe x (fun t => set_u_pending (pending_read t) true t)
  | rr_deallocateL2CacheBlock => e ← x_entry x; Some (set_x_entry x None)
  | xx_recordGetXL1ID => m ← request_at x a; on_tbe x (set_u_writer (q_Requestor m) (q_memfetch m))
  | z_stall => Some x
  | pM_profileRequestMiss | pH_profileRequestHit | pM_profileResponseMiss | pH_profileResponseHit =>
      m ← request_at x a; assert! request_type_ok (q_Type m); Some x
  end.

Fixpoint bank_actions (acts : list L2_Action) a x : option Bank :=
  match acts with [] => Some x | act :: acts => x ← bank_action act a x; bank_actions acts a x end.

Definition bank_state x : L2_State :=
  match x_tbe x with
  | Some t => u_State t
  | None => match x_entry x with Some e => d_CacheState (e_state e) | None => L2_NP end
  end.
Definition bank_set_state (st : L2_State) x : Bank :=
  set_x_entry (set_x_tbe x (set_u_State st <$> x_tbe x))
    ((fun e => set_e_Permission (map_state (set_d_State st) e) (if decide (st = L2_V) then Read_Write else Busy)) <$> x_entry x).

(** A transition of the block machine. *)
Definition bank_step (event : L2_Event) a x : option Bank :=
  '(next, acts) ← L2_transition (bank_state x) event;
  x ← bank_actions acts a x;
  Some (bank_set_state next x).
End bank.

(** What a block keeps while another one is handled: everything; the clock of
    evicted blocks does not go back. *)
Record kept (x x' : Bank) : Prop := {
  kept_mts : x_mts x <= x_mts x';
  kept_entry : x_entry x' = x_entry x;
  kept_tbe : x_tbe x' = x_tbe x;
}.
#[export] Instance kept_preorder : PreOrder kept.
Proof. split; [by intros x; split|]. intros x y z [] []. split; congruence || lia. Qed.

(** ** Refinement *)
Section refinement.
Context {C : Type} `{TA : TagArray C L2Entry} `{TL : !TagArrayLaws C L2Entry default}.
Variables (g : Globals) (DATA_BLOCK XACT_MEMORY : bool) (NUMBER_OF_TBES id : Z).
(** Blocks are lines. *)
Hypothesis block_line : forall a, tag_block a -> is_line g a = true.
Implicit Types (s : L2 C) (a b : Z).

Abbreviation action := (L2_action g DATA_BLOCK XACT_MEMORY NUMBER_OF_TBES id).
Abbreviation actions := (L2_actions g DATA_BLOCK XACT_MEMORY NUMBER_OF_TBES id).
Abbreviation doTransition := (L2_doTransition g DATA_BLOCK XACT_MEMORY NUMBER_OF_TBES id).
Abbreviation block_action := (bank_action g DATA_BLOCK XACT_MEMORY id tag_fresh).
Abbreviation block_actions := (bank_actions g DATA_BLOCK XACT_MEMORY id tag_fresh).
Abbreviation block_step := (bank_step g DATA_BLOCK XACT_MEMORY id tag_fresh).

(** The share of block [a]. *)
Definition abs s a : Bank :=
  mkBank (tag_getMts (k_cache s)) (tag_lookup (k_cache s) a) (k_tbes s !! a)
    (k_requests s) (k_memory s) (k_out s) (k_fetch s).

(** The bank's tables are well formed. *)
Record base_ok s : Prop := {
  base_cache : tag_ok (k_cache s);
  base_tbes : tbe_ok g NUMBER_OF_TBES (k_tbes s) }.

(** The bank went from [s] to [s'], block [a] from its share to [x]. *)
Record sim s s' a x : Prop := {
  sim_base : base_ok s';
  sim_abs : abs s' a = x;
  sim_others b : tag_block b -> b <> a -> kept (abs s b) (abs s' b) }.

Lemma bank_sim_refl s a : base_ok s -> sim s s a (abs s a).
Proof using Type. intros Hs. by split. Qed.
Lemma bank_sim_trans s1 s2 s3 a x2 x3 : sim s1 s2 a x2 -> sim s2 s3 a x3 -> sim s1 s3 a x3.
Proof using Type.
  intros [? ? H12] [? ? H23]. split; [done..|]. intros b Hb Hne. etrans; [by apply H12|by apply H23].
Qed.

(** The tables of the bank, read at block [a]. *)
Lemma bank_tag_present s a : base_ok s -> tag_block a ->
  isL2CacheTagPresent s a = Some (bool_decide (is_Some (tag_lookup (k_cache s) a))).
Proof using Type. intros Hs Ha. by apply tag_isTagPresent_law; [apply Hs|]. Qed.
Lemma bank_tbe_present_at s a : base_ok s -> tag_block a ->
  L2_TBEs_isPresent g NUMBER_OF_TBES s a = Some (bool_decide (is_Some (k_tbes s !! a))).
Proof using block_line. intros Hs Ha. apply TBE_isPresent_spec; [apply Hs|auto]. Qed.
Lemma bank_tbe_of_at s a : base_ok s -> tag_block a -> L2_TBEs_lookup g NUMBER_OF_TBES s a = k_tbes s !! a.
Proof using block_line. intros Hs Ha. apply TBE_lookup_spec; [apply Hs|auto]. Qed.
Lemma bank_getRts_at s a e : base_ok s -> tag_block a -> tag_lookup (k_cache s) a = Some e ->
  tag_getRts (k_cache s) a = Some (e_rts e).
Proof using Type. intros Hs. apply tag_getRts_law, Hs. Qed.

(** Writing one table. *)
Lemma bank_sim_cache s a c e :
  base_ok s -> tag_block a -> wrote tag_ok tag_block (k_cache s) c a e ->
  sim s (set_kcache s c) a (set_x_entry (abs s a) e).
Proof using Type.
  intros [] Ha (Hc & Hp & Hm & Hl). split; [by split| |].
  - unfold abs, set_x_entry; simpl. rewrite Hm, Hl by done. by rewrite decide_True.
  - intros b Hb Hne. split; simpl; try done; [lia|]. by rewrite Hl, decide_False.
Qed.
Lemma bank_sim_tbes s a t :
  base_ok s -> tbe_ok g NUMBER_OF_TBES t -> (forall b, b <> a -> t !! b = k_tbes s !! b) ->
  sim s (set_ktbes s t) a (set_x_tbe (abs s a) (t !! a)).
Proof using Type. intros [] Ht Hl. split; [by split|done|]. intros b Hb Hne. split; simpl; try done. by apply Hl. Qed.
Lemma bank_sim_ports s a r m : base_ok s -> sim s (set_kports s r m) a (set_x_ports (abs s a) r m).
Proof using Type. intros []. by split. Qed.
Lemma sim_respond s a p : base_ok s -> sim s (respond s p) a (x_respond (abs s a) p).
Proof using Type. intros []. by split. Qed.
Lemma sim_memory s a m : base_ok s -> sim s (to_memory s m) a (x_to_memory (abs s a) m).
Proof using Type. intros []. by split. Qed.
Lemma sim_mts s a n :
  base_ok s -> tag_getMts (k_cache s) <= n ->
  sim s (set_kcache s (tag_setMts (k_cache s) n)) a (set_x_mts (abs s a) n).
Proof using Type.
  intros [] Hn. destruct (tag_setMts_law (k_cache s) n) as (? & Hp' & _ & Hl); [done|].
  split; [by split| |].
  - unfold abs, set_x_mts; simpl. by rewrite Hp', Hl.
  - intros b Hb Hne. split; simpl; [lia|apply Hl|done].
Qed.

Lemma bank_assign_sim s a f e :
  base_ok s -> tag_block a -> tag_lookup (k_cache s) a = Some e ->
  e_Address (f e) = e_Address e -> e_Permission (f e) = e_Permission e ->
  exists s', assign_entry s a f = Some s' /\ sim s s' a (set_x_entry (abs s a) (Some (f e))).
Proof using Type.
  intros Hs Ha He Hf Hp. unfold assign_entry, on_kcache.
  destruct (tag_assign_law (k_cache s) a f e) as (c & -> & Hc); [apply Hs|done..|].
  eexists. split; [done|]. by apply bank_sim_cache.
Qed.
Lemma bank_on_entry_sim s a f x :
  base_ok s -> tag_block a -> (forall e, e_Address (f e) = e_Address e /\ e_Permission (f e) = e_Permission e) ->
  on_entry (abs s a) f = Some x -> exists s', assign_entry s a f = Some s' /\ sim s s' a x.
Proof using Type.
  intros Hs Ha Hf Hx. unfold on_entry in Hx. run Hx. subst x. by apply bank_assign_sim; try apply Hf.
Qed.
Lemma bank_setRts_sim s a r e :
  base_ok s -> tag_block a -> tag_lookup (k_cache s) a = Some e ->
  exists s', on_kcache s (fun c => tag_setRts c a r) = Some s' /\
    sim s s' a (set_x_entry (abs s a) (Some (set_e_rts e r))).
Proof using Type.
  intros Hs Ha He. unfold on_kcache.
  destruct (tag_setRts_law (k_cache s) a r e) as (c & -> & Hc); [apply Hs|done..|].
  eexists; split; [done|]. by apply bank_sim_cache.
Qed.
Lemma bank_on_tbe_sim s a f x :
  base_ok s -> on_tbe (abs s a) f = Some x ->
  exists s', assign_tbe g NUMBER_OF_TBES s a f = Some s' /\ sim s s' a x.
Proof using Type.
  intros Hs Hx. unfold on_tbe in Hx. run Hx. subst x. simpl in E. unfold assign_tbe, on_ktbes.
  destruct (TBE_update_spec g NUMBER_OF_TBES (k_tbes s) a f) as [-> Hok]; [apply Hs|by eexists|].
  eexists; split; [done|]. replace (Some (f x0)) with (alter f a (k_tbes s) !! a)
    by (rewrite lookup_alter_eq; by rewrite E).
  apply bank_sim_tbes; [done..|]. intros b Hb. by rewrite lookup_alter_ne.
Qed.

(** A peeked message is about the block. *)
Lemma bank_request_at_Some s a m : request_at (abs s a) a = Some m -> head (k_requests s) = Some m /\ q_Address m = a.
Proof using Type. unfold request_at. intros E. run E. subst. by apply Z.eqb_eq in Heqb. Qed.
Lemma memory_at_Some s a m : memory_at (abs s a) a = Some m -> head (k_memory s) = Some m /\ mm_Address m = a.
Proof using Type. unfold memory_at. intros E. run E. subst. by apply Z.eqb_eq in Heqb. Qed.

(** Writing data, lease and write timestamp of a line. *)
Lemma fill_sim s a blk dirty w e :
  base_ok s -> tag_block a -> tag_lookup (k_cache s) a = Some e ->
  exists s', (s ← assign_entry s a (set_data blk dirty);
              s ← on_kcache s (fun c => tag_setRts c a (tag_getMts c));
              assign_entry s a (map_state (set_d_wts (w (tag_getMts (k_cache s)))))) = Some s' /\
    sim s s' a (set_x_entry (abs s a) (Some (fill blk dirty (x_mts (abs s a)) (w (x_mts (abs s a))) e))).
Proof using Type.
  intros Hs Ha He.
  destruct (bank_assign_sim s a (set_data blk dirty) e Hs Ha He eq_refl eq_refl) as (s1 & -> & H1). simpl.
  assert (He1 := f_equal x_entry (sim_abs _ _ _ _ H1)). assert (Hm1 := f_equal x_mts (sim_abs _ _ _ _ H1)). simpl in He1, Hm1.
  change (on_kcache s1 (fun c => tag_setRts c a (tag_getMts c))) with (on_kcache s1 (fun c => tag_setRts c a (tag_getMts (k_cache s1)))).
  rewrite Hm1.
  destruct (bank_setRts_sim s1 a (tag_getMts (k_cache s)) _ (sim_base _ _ _ _ H1) Ha He1) as (s2 & -> & H2). simpl.
  assert (He2 := f_equal x_entry (sim_abs _ _ _ _ H2)). assert (Hm2 := f_equal x_mts (sim_abs _ _ _ _ H2)). simpl in He2, Hm2.
  rewrite Hm2, Hm1.
  destruct (bank_assign_sim s2 a (map_state (set_d_wts (w (tag_getMts (k_cache s))))) _ (sim_base _ _ _ _ H2) Ha He2 eq_refl eq_refl)
    as (s3 & -> & H3).
  exists s3. split; [done|]. eapply bank_sim_trans; [exact H1|]. eapply bank_sim_trans; [exact H2|].
  rewrite (sim_abs _ _ _ _ H2), (sim_abs _ _ _ _ H1) in H3. exact H3.
Qed.

Lemma allocate_tbe_sim s a (r w : RequestMsg -> Z) lease n m x :
  base_ok s -> tag_block a -> map_size (k_tbes s) < NUMBER_OF_TBES ->
  head (k_requests s) = Some m -> (forall t, deltaRequested t = 0 -> lease m t = n) ->
  x_allocate_tbe g (abs s a) m (r m) (w m) n = Some x ->
  exists s', allocate_tbe g DATA_BLOCK XACT_MEMORY NUMBER_OF_TBES s a r w lease = Some s' /\ sim s s' a x.
Proof using block_line.
  intros Hs Ha Hsz Hm Hn Hx. unfold x_allocate_tbe in Hx. simpl in Hx.
  destruct (k_tbes s !! a) eqn:Ht; [done|]. destruct (tag_lookup (k_cache s) a) as [e|] eqn:He; [|done].
  injection Hx as <-. unfold allocate_tbe. rewrite Hm. simpl. unfold on_ktbes at 1.
  destruct (TBE_allocate_spec (H := L2TBE_default g DATA_BLOCK XACT_MEMORY) g NUMBER_OF_TBES (k_tbes s) a)
    as [-> Hok]; [apply Hs|auto|done..|]. simpl.
  set (s1 := set_ktbes s _).
  assert (H1 : sim s s1 a (set_x_tbe (abs s a) (k_tbes s1 !! a))).
  { apply (bank_sim_tbes s a); [done..|]. intros b Hb. by apply lookup_insert_ne. }
  unfold getL2CacheEntry. simpl. rewrite He. simpl.
  destruct (bank_on_tbe_sim s1 a (fun t =>
    mkL2TBE (u_State t) (e_DataBlk e) (d_Dirty (e_state e)) ∅ (L1_WBAck_ID t) (q_Space m) (lease m t)
      (q_RequestSize m) (r m) (w m) false false (q_memfetch m) (u_mfset t))
    (set_x_tbe (abs s1 a) (Some (new_tbe g m e (r m) (w m) n))) (sim_base _ _ _ _ H1)) as (s2 & -> & H2).
  { unfold on_tbe. simpl. rewrite lookup_insert_eq. simpl. rewrite Hn by done. done. }
  exists s2. split; [done|]. eapply bank_sim_trans; [done|].
  destruct H2 as [? Habs ?]. split; [done| |done]. rewrite Habs. by rewrite (sim_abs _ _ _ _ H1).
Qed.

Lemma bank_alloc_block_sim s a now :
  base_ok s -> tag_block a -> (tag_lookup (k_cache s) a = None -> tag_cacheAvail (k_cache s) a = Some true) ->
  exists s', (b ← isL2CacheTagPresent s a;
              if (b : bool) then Some s else on_kcache s (fun c => tag_allocate c a now)) = Some s' /\
    sim s s' a (match tag_lookup (k_cache s) a with
                | Some _ => abs s a | None => set_x_entry (abs s a) (Some (tag_fresh a)) end).
Proof using Type.
  intros Hs Ha Hav. rewrite bank_tag_present by done. destruct (tag_lookup (k_cache s) a) eqn:He; simpl.
  - exists s. split; [done|]. by apply bank_sim_refl.
  - unfold on_kcache. destruct (tag_allocate_law (k_cache s) a now) as (c & -> & Hc); [apply Hs|by auto..|].
    eexists; split; [done|]. by apply bank_sim_cache.
Qed.

Definition is_alloc (act : L2_Action) : bool := match act with i_allocateTBE | il_allocateTBE => true | _ => false end.

(** What [act] needs from the whole bank: a free transaction buffer, a free way. *)
Definition has_room s a (act : L2_Action) : Prop :=
  (is_alloc act = true -> map_size (k_tbes s) < NUMBER_OF_TBES) /\
  (act = qq_allocateL2CacheBlock -> tag_lookup (k_cache s) a = None -> tag_cacheAvail (k_cache s) a = Some true).

(** Reads the tables in the goal as the block machine did. *)
Ltac reads s a :=
  repeat progress (simpl;
    repeat match goal with
    | |- context [L2_TBEs_lookup _ _ s a] => rewrite bank_tbe_of_at by done
    | H : k_tbes s !! a = Some _ |- context [k_tbes s !! a] => rewrite H
    | H : tag_lookup (k_cache s) a = Some _ |- context [tag_getRts (k_cache s) a] => erewrite (bank_getRts_at s a) by done
    | |- context [isL2CacheTagPresent s a] => rewrite bank_tag_present by done
    | H : tag_lookup (k_cache s) a = Some _ |- context [tag_lookup (k_cache s) a] => rewrite H
    | H : ?b = true |- context [if ?b then _ else None] => rewrite H
    | H : ?m = Some _ |- context [mbind _ ?m] => rewrite H
    end).

(** Every action of the bank refines that of the block machine. *)
Lemma bank_action_refines now act s a x :
  base_ok s -> tag_block a -> has_room s a act -> block_action act a (abs s a) = Some x ->
  exists s', action now act s a = Some s' /\ sim s s' a x.
Proof using block_line.
  intros Hs Ha [Htbe Hway] Hx.
  destruct act; simpl in Hx |- *;
    unfold issueFetch, exclusiveReplacement, sendDataToRequestor, sendDataToGetSRequestors,
      sendAtomicDataGlobalToRequestor, sendAtomicDataToGetSRequestors, sendAckToRequestor,
      sendAckToRequestorFromTBE, popMemory, writeDataToCacheFromRequest, writeDataToTBEFromRequest,
      recordGetSL1ID, setMts, updateL2BlockRts, updateL2BlockWts, updateL2BlockRts_fromTBE,
      updateMaxReadPtsInTBE, updateMaxWritePtsInTBE, profileRequest, getL2CacheEntry;
    try (apply bind_Some in Hx as (m & Hm & Hx); apply bank_request_at_Some in Hm as [Hm Hma]);
    try (apply bind_Some in Hx as (mm & Hm & Hx); apply memory_at_Some in Hm as [Hm Hma]);
    try rewrite Hm; simpl.
  all: try (by apply bank_on_tbe_sim).
  all: try (run Hx; simpl in *; subst x; reads s a; autorewrite with times; eexists; split; [done|];
      first [by apply sim_memory|by apply sim_respond|by apply bank_sim_refl]).
  - (* allocation of transaction buffers *)
    eapply (allocate_tbe_sim s a q_pts (fun _ => 0) _ (q_deltaRequested m)); [done|done|by apply Htbe|done|done|done].
  - eapply (allocate_tbe_sim s a (fun _ => 0) q_pts _ 0); [done|done|by apply Htbe|done|done|done].
  - run Hx. simpl in *. subst x. unfold on_ktbes.
    destruct (TBE_deallocate_spec g NUMBER_OF_TBES (k_tbes s) a) as [-> Hok]; [apply Hs|by eexists|]. simpl.
    eexists; split; [done|]. replace (@None L2TBE) with (delete a (k_tbes s) !! a) by apply lookup_delete_eq.
    apply bank_sim_tbes; [done..|]. intros b Hb. by rewrite lookup_delete_ne.
  - (* requests and answers of memory are popped *)
    unfold popL1RequestQueue. simpl in Hx. destruct (k_requests s) as [|m' l] eqn:El; [done|]. injection Hm as ->.
    unfold claim_ok in Hx. simpl in Hx.
    destruct (q_Type m); try done; try (injection Hx as <-; eexists; split; [done|]; by apply bank_sim_ports).
    rewrite bank_tag_present by done. unfold getL2CacheEntry.
    destruct (tag_lookup (k_cache s) a) as [e|]; simpl in Hx |- *; run Hx; subst x; rewrite ?Heqb;
      (eexists; split; [done|]; by apply bank_sim_ports).
  - simpl in Hx. destruct (k_memory s) as [|m' l] eqn:El; [done|].
    injection Hx as <-. eexists; split; [done|]. by apply bank_sim_ports.
  - (* data *)
    unfold on_entry in Hx. run Hx. subst x. simpl in *. unfold writeDataToCache. rewrite Hm. simpl.
    by apply (fill_sim s a (mm_DataBlk mm) false (fun t => t)).
  - run Hx. by apply bank_on_entry_sim.
  - run Hx. by apply bank_on_tbe_sim.
  - unfold on_entry in Hx. run Hx. simpl in *. subst x. unfold writeDataToCacheFromTBE. reads s a.
    match goal with |- context [getTimeMax (max_write_pts ?t) _] =>
      destruct (fill_sim s a (u_DataBlk t) (u_Dirty t) (getTimeMax (max_write_pts t)) _ Hs Ha E0) as (s' & E' & Hsim) end.
    rewrite Heqb in E', Hsim. exists s'. split; [exact E'|]. by autorewrite with times in Hsim.
  - run Hx. simpl in *. subst x. reads s a. autorewrite with times. apply bank_on_tbe_sim; [done|].
    unfold on_tbe. simpl. by rewrite E.
  - (* the cache *)
    run Hx. simpl in *. subst x. unfold on_kcache.
    destruct (tag_setMRU_law (k_cache s) a now _ (base_cache s Hs) Ha E) as (c & -> & Hc). simpl.
    eexists; split; [done|]. destruct (bank_sim_cache s a c _ Hs Ha Hc) as [? Habs ?]. split; [done| |done].
    rewrite Habs. unfold set_x_entry, abs; simpl. by rewrite E.
  - injection Hx as <-. by apply bank_alloc_block_sim; auto.
  - run Hx. simpl in *. subst x. reads s a. autorewrite with times. eexists; split; [done|]. apply sim_mts; [done|lia].
  - run Hx. simpl in *. subst x. reads s a. by apply bank_setRts_sim.
  - run Hx. simpl in *. subst x. reads s a. autorewrite with times. by apply bank_assign_sim.
  - run Hx. simpl in *. subst x. reads s a. by apply bank_setRts_sim.
  - unfold on_tbe in Hx. run Hx. simpl in *. subst x. reads s a. autorewrite with times.
    apply bank_on_tbe_sim; [done|]. unfold on_tbe. simpl. by rewrite E.
  - unfold on_tbe in Hx. run Hx. simpl in *. subst x. reads s a. autorewrite with times.
    apply bank_on_tbe_sim; [done|]. unfold on_tbe. simpl. by rewrite E.
  - by apply bank_on_entry_sim.
  - run Hx. simpl in *. subst x. unfold on_kcache.
    destruct (tag_deallocate_law (k_cache s) a) as (c & -> & Hc); [apply Hs|done|by eexists|].
    eexists; split; [done|]. by apply bank_sim_cache.
Qed.

(** Sequences allocate a transaction buffer only after actions that leave the
    table alone, and a way only after actions that change nothing. *)
Definition is_profile (act : L2_Action) : bool :=
  match act with
  | pM_profileRequestMiss | pH_profileRequestHit | pM_profileResponseMiss | pH_profileResponseHit => true
  | _ => false
  end.
Definition leaves_tbes (act : L2_Action) : bool :=
  is_profile act || bool_decide (act = qq_allocateL2CacheBlock \/ act = d_markBlockDirty).
Fixpoint wf_actions (acts : list L2_Action) : bool :=
  match acts with
  | [] => true
  | act :: acts =>
      (if existsb is_alloc acts then leaves_tbes act else true) &&
      (if bool_decide (qq_allocateL2CacheBlock ∈ acts) then is_profile act else true) && wf_actions acts
  end.

Lemma bank_transition_wf st ev next acts : L2_transition st ev = Some (next, acts) -> wf_actions acts = true.
Proof using Type. destruct st, ev; intros [= <- <-]; by vm_compute. Qed.

Lemma profile_same now act s a s' : is_profile act = true -> action now act s a = Some s' -> s' = s.
Proof using Type. intros Hp E. destruct act; try discriminate Hp; simpl in E; unfold profileRequest in E; run E; done. Qed.

Lemma action_tbes now act s a s' : leaves_tbes act = true -> action now act s a = Some s' -> k_tbes s' = k_tbes s.
Proof using Type.
  unfold leaves_tbes. intros [Hp|Hq%bool_decide_eq_true]%orb_true_iff E.
  - by rewrite (profile_same now act s a s' Hp E).
  - destruct Hq as [-> | ->]; simpl in E; unfold assign_entry, on_kcache in E; run E; [|by subst].
    destruct x; run E; by subst.
Qed.

(** ... and so does every well-formed sequence of them. *)
Lemma bank_actions_refine now acts s a x :
  base_ok s -> tag_block a -> wf_actions acts = true ->
  (existsb is_alloc acts = true -> map_size (k_tbes s) < NUMBER_OF_TBES) ->
  (qq_allocateL2CacheBlock ∈ acts -> tag_lookup (k_cache s) a = None -> tag_cacheAvail (k_cache s) a = Some true) ->
  block_actions acts a (abs s a) = Some x ->
  exists s', actions now acts s a = Some s' /\ sim s s' a x.
Proof using block_line.
  revert s. induction acts as [|act acts IH]; intros s Hs Ha Hwf Hal Hqq Hx; simpl in Hx |- *.
  { exists s. injection Hx as <-. split; [done|]. by apply bank_sim_refl. }
  simpl in Hwf. apply andb_true_iff in Hwf as [[Hwa Hwo]%andb_true_iff Hwf].
  apply bind_Some in Hx as (x1 & Hx1 & Hx). simpl in Hal.
  destruct (bank_action_refines now act s a x1 Hs Ha) as (s1 & E1 & H1); [split|done|].
  - intros Hact. apply Hal. by rewrite Hact.
  - intros -> Hn. apply Hqq; [by left|done].
  - rewrite E1. simpl. destruct (IH s1) as (s2 & E2 & H2); [apply H1|done|done| | | |].
    + intros Hex. rewrite Hex in Hwa. rewrite (action_tbes now act s a s1 Hwa E1). apply Hal. rewrite Hex. apply orb_true_r.
    + intros Hin Hn1. rewrite bool_decide_eq_true_2 in Hwo by done.
      rewrite (profile_same now act s a s1 Hwo E1) in *. apply Hqq; [by right|done].
    + by rewrite (sim_abs _ _ _ _ H1).
    + exists s2. split; [done|]. by eapply bank_sim_trans.
Qed.

Lemma bank_getState_abs s a : base_ok s -> tag_block a -> getState g NUMBER_OF_TBES s a = Some (bank_state (abs s a)).
Proof using block_line.
  intros Hs Ha. unfold getState, getL2CacheEntry. rewrite bank_tbe_present_at, bank_tbe_of_at, bank_tag_present by done. simpl.
  unfold bank_state. simpl. destruct (k_tbes s !! a) as [t|]; simpl; [done|].
  by destruct (tag_lookup (k_cache s) a) as [e|].
Qed.

Lemma bank_setState_sim s a st :
  base_ok s -> tag_block a ->
  exists s', setState g NUMBER_OF_TBES s a st = Some s' /\ sim s s' a (bank_set_state st (abs s a)).
Proof using block_line.
  intros Hs Ha. unfold setState. rewrite bank_tbe_present_at by done. simpl.
  assert (exists s1, (if bool_decide (is_Some (k_tbes s !! a)) then
      assign_tbe g NUMBER_OF_TBES s a (set_u_State st) else Some s) = Some s1 /\
    sim s s1 a (set_x_tbe (abs s a) (set_u_State st <$> k_tbes s !! a))) as (s1 & -> & H1).
  { destruct (k_tbes s !! a) as [t|] eqn:Ht; simpl.
    - apply bank_on_tbe_sim; [done|]. unfold on_tbe. simpl. by rewrite Ht.
    - exists s. split; [done|]. split; [done|unfold abs, set_x_tbe; simpl; by rewrite Ht|by intros; reflexivity]. }
  simpl. assert (Hs1 := sim_base _ _ _ _ H1). rewrite bank_tag_present by done. simpl.
  assert (He1 := f_equal x_entry (sim_abs _ _ _ _ H1)). simpl in He1.
  rewrite He1. destruct (tag_lookup (k_cache s) a) as [e|] eqn:He; simpl.
  - destruct (bank_assign_sim s1 a (map_state (set_d_State st)) e Hs1 Ha He1 eq_refl eq_refl) as (s2 & -> & H2). simpl.
    assert (Hs2 := sim_base _ _ _ _ H2).
    assert (He2 := f_equal x_entry (sim_abs _ _ _ _ H2)). simpl in He2.
    unfold changeL2Permission, on_kcache. rewrite bank_tag_present, He2 by done. simpl.
    destruct (tag_changePermission_law (k_cache s2) a (if decide (st = L2_V) then Read_Write else Busy) _ (base_cache s2 Hs2) Ha He2)
      as (c & -> & Hc); [by case_decide|]. simpl.
    eexists; split; [done|]. pose proof (bank_sim_cache s2 a c _ Hs2 Ha Hc) as H3.
    eapply bank_sim_trans; [exact H1|]. eapply bank_sim_trans; [exact H2|].
    rewrite (sim_abs _ _ _ _ H2), (sim_abs _ _ _ _ H1) in H3. unfold bank_set_state. simpl. by rewrite He.
  - exists s1. split; [done|]. unfold bank_set_state. simpl. rewrite He. simpl.
    destruct H1 as [? H1 ?]. split; [done| |done]. rewrite H1. unfold set_x_entry, set_x_tbe, abs; simpl. by rewrite He.
Qed.

Lemma bank_needs_TBE_existsb acts : needs_TBE acts = existsb is_alloc acts.
Proof using Type.
  unfold needs_TBE. apply eq_iff_eq_true. rewrite bool_decide_eq_true, existsb_exists. split.
  - intros [Hin|Hin]; eexists; (split; [by apply list_elem_of_In in Hin|done]).
  - intros (act & Hin & Hal). apply list_elem_of_In in Hin. destruct act; try done; auto.
Qed.

Definition is_request (ev : L2_Event) : Prop := ev = L1_GETS \/ ev = L1_Write \/ ev = L2_Atomic.
Definition is_replacement (ev : L2_Event) : Prop := ev = L2_Replacement \/ ev = L2_Replacement_clean.

(** A transition of the bank is a transition of the block machine, or a stall
    that changes nothing: because no transaction buffer is free, or because memory has
    not answered yet. *)
Lemma bank_doTransition_refines now s ev a x :
  base_ok s -> tag_block a -> block_step ev a (abs s a) = Some x ->
  (is_request ev -> tag_lookup (k_cache s) a = None -> tag_cacheAvail (k_cache s) a = Some true) ->
  (doTransition now s ev a = Some (ResourceStall, s) /\ map_size (k_tbes s) = NUMBER_OF_TBES /\
     is_request ev /\ bank_state (abs s a) = L2_NP) \/
  (doTransition now s ev a = Some (ProtocolStall, s) /\ (is_request ev \/ is_replacement ev) /\
     (bank_state (abs s a) = L2_IAV \/ bank_state (abs s a) = L2_IV /\ ev <> L1_GETS /\ ev <> L1_Write)) \/
  (exists s', doTransition now s ev a = Some (Valid, s') /\ sim s s' a x /\
     ((is_request ev \/ is_replacement ev) -> bank_state (abs s a) <> L2_IAV) /\
     (is_replacement ev \/ ev = L2_Atomic -> bank_state (abs s a) <> L2_IV)).
Proof using block_line.
  intros Hs Ha Hx Hroom. unfold bank_step in Hx. apply bind_Some in Hx as ([next acts] & Ht & Hx).
  apply bind_Some in Hx as (y & Hy & Hx). injection Hx as <-.
  unfold L2_doTransition. rewrite bank_getState_abs by done. simpl. rewrite Ht. simpl.
  rewrite bank_needs_TBE_existsb. assert (Hwf := bank_transition_wf _ _ _ _ Ht).
  destruct (existsb is_alloc acts && negb (TBE_areNSlotsAvailable NUMBER_OF_TBES (k_tbes s) 1)) eqn:Hstall.
  { left. split; [done|]. apply andb_true_iff in Hstall as [Hal Hsz%negb_true_iff]. split.
    - unfold TBE_areNSlotsAvailable in Hsz. apply Z.leb_gt in Hsz. pose proof (proj1 (base_tbes s Hs)). lia.
    - unfold is_request. clear -Ht Hal. destruct (bank_state (abs s a)), ev; try discriminate Ht; injection Ht as <- <-;
        (by vm_compute in Hal) || auto. }
  right. destruct (bool_decide (z_stall ∈ acts)) eqn:Hz.
  { left. split; [done|]. unfold is_request, is_replacement. clear -Ht Hz.
    destruct (bank_state (abs s a)), ev; try discriminate Ht;
      injection Ht as <- <-; (by vm_compute in Hz) || tauto || (split; [tauto|right; done]). }
  right. destruct (bank_actions_refine now acts s a y Hs Ha Hwf) as (s1 & -> & H1); [| |done|].
  { intros Hal. rewrite Hal in Hstall. apply negb_false_iff in Hstall.
    unfold TBE_areNSlotsAvailable in Hstall. apply Z.leb_le in Hstall. lia. }
  { intros Hqq Hn. apply Hroom; [|done]. apply (bool_decide_eq_true_2 _) in Hqq. unfold is_request. clear -Ht Hqq.
    destruct (bank_state (abs s a)), ev; try discriminate Ht;
      injection Ht as <- <-; tauto || by vm_compute in Hqq. }
  simpl. destruct (bank_setState_sim s1 a next (sim_base _ _ _ _ H1) Ha) as (s2 & -> & H2).
  exists s2. split; [done|]. split.
  - eapply bank_sim_trans; [done|]. by rewrite (sim_abs _ _ _ _ H1) in H2.
  - unfold is_request, is_replacement. clear -Ht Hz.
    destruct (bank_state (abs s a)), ev; try discriminate Ht; injection Ht as <- <-;
      (by vm_compute in Hz) || (split; intros; try done; naive_solver).
Qed.
End refinement.
