(* ===== verification/RccL2Safe.v ===== *)
(** Safety of the L2 banks: an invariant of the block machine of RccL2Spec, what
    every request and every answer of memory does to the timestamps and to the
    contents of a block, and the theorems that lift both to the whole bank. *)
From S2P Require Import Prelude Vector Config Address DataBlock Replacement CacheMemory Tables Requests TagArray RccMsg RccL2 RccL2Spec.

Section blk.
Variables (g : Globals) (DATA_BLOCK XACT_MEMORY : bool) (id : Z) (fresh : Z -> Entry L2Entry).
Hypothesis fresh_state : forall a, e_rts (fresh a) = 0 /\ e_state (fresh a) = default.
(** What memory holds for the block. *)
Implicit Types (x : Bank) (a : Z) (m : RequestMsg) (mem : list Z).
Abbreviation block_step := (bank_step g DATA_BLOCK XACT_MEMORY id fresh).

(** The contents of the block: the line's, those of the write that waits for
    memory, or memory's. *)
Definition contents mem x : list Z :=
  match x_tbe x, x_entry x with
  | Some t, _ => if pending_write t then u_DataBlk t else mem
  | None, Some e => e_DataBlk e
  | None, None => mem
  end.
(** The timestamp of the last write, and the end of the longest lease. *)
Definition wbound x : Z :=
  match x_tbe x, x_entry x with
  | Some t, _ => Z.max (x_mts x) (if pending_write t then max_write_pts t else 0)
  | None, Some e => d_wts (e_state e)
  | None, None => x_mts x
  end.
Definition rbound x : Z :=
  match x_tbe x, x_entry x with
  | None, Some e => Z.max (e_rts e) (d_wts (e_state e))
  | _, _ => wbound x
  end.

(** Who waits for memory's answer: the L1s that read the block, and the one whose atomic
    operation it is. *)
Definition readers x : gset Z := from_option (fun t => if pending_read t then L1_GetS_IDs t else ∅) ∅ (x_tbe x).
Definition writer x : option Z :=
  t ← x_tbe x; match u_State t with L2_IAV => Some (m_num (L1_WBAck_ID t)) | _ => None end.

(** A transaction buffer records what its state says. *)
Definition tbe_inv (t : L2TBE) : Prop :=
  0 <= max_read_pts t /\ 0 <= max_write_pts t /\ 0 <= deltaRequested t /\
  Z.of_nat (length (u_mfset t)) = g_NUM_PROCESSORS g /\
  (pending_write t = true -> u_Dirty t = true) /\
  (pending_read t = true -> L1_GetS_IDs t <> ∅) /\ (pending_read t = false -> L1_GetS_IDs t = ∅) /\
  match u_State t with
  | L2_IV => pending_read t || pending_write t = true
  | L2_IAV => pending_read t = false /\ pending_write t = true
  | _ => False
  end.
(** A line without a transaction buffer is valid, and clean only if memory has
    its data. *)
Definition line_inv mem (e : Entry L2Entry) : Prop :=
  d_CacheState (e_state e) = L2_V /\ 0 <= e_rts e /\ 0 <= d_wts (e_state e) /\
  (d_Dirty (e_state e) = false -> e_DataBlk e = mem).

(** Every response so far is within the bounds. *)
Definition log_ok a x : Prop :=
  forall p, p ∈ x_out x -> p_Address p = a -> p_wts p <= wbound x /\ (p_Type p = DATA -> p_rts p <= rbound x).

Record bank_ok mem a x : Prop := {
  ok_mts : 0 <= x_mts x;
  ok_line : match x_tbe x with
            | Some t => tbe_inv t /\ exists e, x_entry x = Some e /\ d_CacheState (e_state e) = u_State t
            | None => forall e, x_entry x = Some e -> line_inv mem e
            end;
  ok_log : log_ok a x;
}.

Lemma wbound_nonneg mem a x : bank_ok mem a x -> 0 <= wbound x <= rbound x.
Proof using Type.
  intros [Hm Hl _]. unfold rbound, wbound. destruct (x_tbe x) as [t|].
  - destruct (pending_write t), Hl as ((? & ? & _) & _); lia.
  - destruct (x_entry x) as [e|]; [|lia]. destruct (Hl e eq_refl) as (_ & ? & ? & _). lia.
Qed.

(** The invariant only looks at what other blocks cannot change, but for
    responses about other blocks. *)
Lemma bank_kept_ok mem a x x' :
  kept x x' -> (forall p, p ∈ x_out x' -> p_Address p = a -> p ∈ x_out x) -> bank_ok mem a x -> bank_ok mem a x'.
Proof using Type.
  intros [Hm He Ht] Ho [Hmts Hl Hlog]. split; [lia|by rewrite Ht, He|].
  intros p Hp Hpa. destruct (Hlog p (Ho p Hp Hpa) Hpa) as [Hw Hr].
  unfold rbound, wbound in *. rewrite Ht, He. destruct (x_tbe x) as [t|], (x_entry x) as [e|]; try destruct (pending_write t);
    (split; [lia|intros Hd; specialize (Hr Hd); lia]).
Qed.

(** ** Requests *)
(** What the bank asserts of a request: its space is that of the requests
    it joins, a copy said to be live is not older than the last write, timestamps
    leave room for the lease. *)
Definition request_ok mem x m : Prop :=
  0 <= m_num (q_Requestor m) < g_NUM_PROCESSORS g /\ 0 <= q_pts m /\ 0 <= q_deltaRequested m /\
  q_pts m + q_deltaRequested m < 2 ^ 63 /\ rbound x + q_deltaRequested m + 1 < 2 ^ 63 /\
  (forall t, x_tbe x = Some t -> u_Space t = q_Space m) /\
  match q_Type m with GETS => claim_ok x m = true | REQ_DATA | REQ_DATA_ATOMIC => q_Dirty m = true | _ => False end.

(** Who waits after a request, in its memory space. *)
Record waiters_after x m x' : Prop := {
  after_readers : readers x' =
    (match q_Type m with GETS => if decide (bank_state x = L2_V) then ∅ else {[m_num (q_Requestor m)]} | _ => ∅ end) ∪ readers x;
  after_writer : writer x' =
    match q_Type m with REQ_DATA_ATOMIC => if decide (bank_state x = L2_NP) then Some (m_num (q_Requestor m)) else writer x | _ => writer x end;
  after_space t : x_tbe x' = Some t -> u_Space t = q_Space m }.

(** A read is answered with the contents and a lease that contains its
    timestamp, ends no earlier than any lease before it, and starts with the last
    write; or waits for memory. *)
Definition read_served mem x a m x' : Prop :=
  contents mem x' = contents mem x /\
  ((bank_state x = L2_V /\ x_fetch x' = x_fetch x /\
    exists p, x_out x' = x_out x ++ [p] /\ p_Type p = DATA /\ p_Address p = a /\
      p_Destination p = {[m_num (q_Requestor m)]} /\ p_DataBlk p = contents mem x /\
      p_wts p = wbound x /\ q_pts m <= p_rts p /\ rbound x <= p_rts p) \/
   (bank_state x <> L2_V /\ x_out x' = x_out x /\
    x_fetch x' = x_fetch x ++ (if decide (bank_state x = L2_NP) then [fetch_message g DATA_BLOCK XACT_MEMORY id a] else []) /\
    exists t, x_tbe x' = Some t /\ u_State t = L2_IV /\ pending_read t = true /\
      m_num (q_Requestor m) ∈ L1_GetS_IDs t /\ q_pts m <= max_read_pts t)).
(** A write is acknowledged at a timestamp no lease or write before it exceeds;
    if the line is there, the timestamp is beyond every lease. *)
Definition write_timestamp x m (w : Z) : Prop :=
  q_pts m <= w /\ rbound x <= w /\ (bank_state x = L2_V -> forall e, x_entry x = Some e -> e_rts e < w).
Definition write_served mem x a m x' : Prop :=
  contents mem x' = q_DataBlk m /\
  exists p, x_out x' = x_out x ++ [p] /\ p_Type p = ACK /\ p_Address p = a /\
    p_Destination p = {[m_num (q_Requestor m)]} /\ write_timestamp x m (p_wts p) /\
    x_fetch x' = x_fetch x ++ (if decide (bank_state x = L2_NP) then [fetch_message g DATA_BLOCK XACT_MEMORY id a] else []).
(** An atomic operation on a line that is there returns the contents before its
    own write; otherwise it waits for memory. *)
Definition atomic_served mem x a m x' : Prop :=
  contents mem x' = q_DataBlk m /\
  ((bank_state x = L2_V /\ x_fetch x' = x_fetch x /\
    exists p, x_out x' = x_out x ++ [p] /\ p_Type p = DATA_ATOMIC /\ p_Address p = a /\
      p_Destination p = {[m_num (q_Requestor m)]} /\ write_timestamp x m (p_wts p)) \/
   (bank_state x = L2_NP /\ x_out x' = x_out x /\ x_fetch x' = x_fetch x ++ [fetch_message g DATA_BLOCK XACT_MEMORY id a] /\
    write_timestamp x m (wbound x') /\
    exists t, x_tbe x' = Some t /\ u_State t = L2_IAV /\ L1_WBAck_ID t = q_Requestor m)).
Definition request_served mem x a m x' : Prop :=
  x_requests x' = tail (x_requests x) /\ x_memory x' = x_memory x /\ x_mts x' = x_mts x /\
  wbound x <= wbound x' /\ rbound x <= rbound x' /\ waiters_after x m x' /\
  match q_Type m with
  | GETS => read_served mem x a m x'
  | REQ_DATA => write_served mem x a m x'
  | _ => atomic_served mem x a m x'
  end.
End blk.

(** Runs the actions of a transition one after the other on a block whose
    components are known. *)
Ltac bank_eval :=
  cbn [bank_action]; unfold request_at, memory_at, on_entry, on_tbe, x_allocate_tbe, extended_rts,
    getTimePlusTime, getTimePlusInt, x_respond, x_to_memory, set_x_mts, set_x_entry, set_x_tbe, set_x_ports;
  repeat (progress (simpl; rewrite ?Z.eqb_refl)).
Ltac solve_waiters Hty Hst :=
  split; rewrite ?Hty, ?Hst; unfold readers, writer; simpl;
  [ repeat case_match; simplify_eq/=; try done; try (match goal with H : false = false -> _ |- _ => rewrite (H eq_refl) end); done || set_solver
  | repeat case_match; simplify_eq/=; done || congruence
  | intros ? [= <-]; simpl; auto ].
Ltac bank_done := cbn [bank_actions]; eexists; split; [reflexivity|]; eexists; split; [reflexivity|].

Section requests.
Variables (g : Globals) (DATA_BLOCK XACT_MEMORY : bool) (id : Z) (fresh : Z -> Entry L2Entry).
Hypothesis fresh_state : forall a, e_rts (fresh a) = 0 /\ e_state (fresh a) = default.
Implicit Types (x : Bank) (a : Z) (m : RequestMsg) (mem : list Z).
Abbreviation block_step := (bank_step g DATA_BLOCK XACT_MEMORY id fresh).
Abbreviation ok := (bank_ok g).
Abbreviation served := (request_served g DATA_BLOCK XACT_MEMORY id).

Lemma insert_ok s i mf :
  Z.of_nat (length s) = g_NUM_PROCESSORS g -> 0 <= i < g_NUM_PROCESSORS g ->
  exists s', MemfetchSet_insert g s i mf = Some s' /\ Z.of_nat (length s') = g_NUM_PROCESSORS g.
Proof using Type.
  intros Hs Hi. destruct (MemfetchSet_insert_spec g s i mf Hs Hi) as (s' & l & E & Hl & _).
  exists s'. split; [done|]. congruence.
Qed.

Lemma checked_ok z : 0 <= z < 2 ^ 63 -> checked z = Some z.
Proof using Type. intros Hz. apply checked_Some. lia. Qed.

(** A response within the new bounds extends the log. *)
Lemma log_grows a x x' l :
  log_ok a x -> x_out x' = x_out x ++ l -> wbound x <= wbound x' -> rbound x <= rbound x' ->
  (forall p, p ∈ l -> p_wts p <= wbound x' /\ (p_Type p = DATA -> p_rts p <= rbound x')) -> log_ok a x'.
Proof using Type.
  intros Hlog Ho Hw Hr Hl p Hp Hpa. rewrite Ho, elem_of_app in Hp. destruct Hp as [Hp|Hp]; [|by apply Hl].
  destruct (Hlog p Hp Hpa) as [? Hd]. split; [lia|]. intros Ht. specialize (Hd Ht). lia.
Qed.

(** The block by its state. *)
Lemma at_V mem a x : ok mem a x -> bank_state x = L2_V ->
  exists e, x_tbe x = None /\ x_entry x = Some e /\ line_inv mem e.
Proof using Type.
  intros [_ Hl _] Hst. unfold bank_state in Hst. destruct (x_tbe x) as [t|].
  { destruct Hl as ((_ & _ & _ & _ & _ & _ & _ & Hs) & _). by rewrite Hst in Hs. }
  destruct (x_entry x) as [e|]; [|done]. exists e. auto.
Qed.
Lemma at_NP mem a x : ok mem a x -> bank_state x = L2_NP -> x_tbe x = None /\ x_entry x = None.
Proof using Type.
  intros [_ Hl _] Hst. unfold bank_state in Hst. destruct (x_tbe x) as [t|].
  { destruct Hl as ((_ & _ & _ & _ & _ & _ & _ & Hs) & _). by rewrite Hst in Hs. }
  destruct (x_entry x) as [e|]; [|done]. destruct (Hl e eq_refl) as [Hs _]. by rewrite Hst in Hs.
Qed.
Lemma at_wait mem a x : ok mem a x -> bank_state x = L2_IV \/ bank_state x = L2_IAV ->
  exists t e, x_tbe x = Some t /\ x_entry x = Some e /\ tbe_inv g t /\ u_State t = bank_state x.
Proof using Type.
  intros [_ Hl _] Hst. unfold bank_state in *. destruct (x_tbe x) as [t|].
  { destruct Hl as (Ht & e & He & _). exists t, e. auto. }
  destruct (x_entry x) as [e|]; [|by destruct Hst]. destruct (Hl e eq_refl) as [Hs _]. rewrite Hs in Hst. by destruct Hst.
Qed.
Lemma request_at_head x a m : request_at x a = Some m -> exists l, x_requests x = m :: l /\ q_Address m = a.
Proof using Type.
  unfold request_at. intros H. run H. subst. destruct (x_requests x) as [|m' l]; [done|].
  injection E as ->. exists l. split; [done|]. lia.
Qed.

Lemma read_step_V mem x a m :
  ok mem a x -> request_at x a = Some m -> request_ok g mem x m -> q_Type m = GETS -> bank_state x = L2_V ->
  exists x', block_step L1_GETS a x = Some x' /\ ok mem a x' /\ served mem x a m x'.
Proof using Type.
  intros Hok Hm (Hn & Hp & Hd & Ho1 & Ho2 & _ & Hc) Hty Hst. pose proof (wbound_nonneg g mem a x Hok) as Hwb.
  destruct (at_V mem a x Hok Hst) as (e & Et & Ee & Hs & Hr & Hw & Hcl).
  destruct (request_at_head x a m Hm) as (rq' & Er & <-).
  unfold bank_step. rewrite Hst. destruct x as [c e' t' rq mm out ft]. destruct Hok as [Hmts _ Hlog].
  unfold rbound, wbound in Ho2, Hwb. simpl in *. subst.
  destruct (insert_ok (MemfetchSet_new g) (m_num (q_Requestor m)) (q_memfetch m)) as (mf & Emf & _);
    [unfold MemfetchSet_new; rewrite length_replicate; lia|done|].
  cbn [L2_transition mbind option_bind]. apply bind_ex. cbn [bank_actions].
  apply bind_ex. bank_eval. rewrite Hty. simpl. eexists; split; [reflexivity|].
  apply bind_ex. bank_eval. rewrite !checked_ok by lia. simpl. eexists; split; [reflexivity|].
  rewrite !getTimeMax_max.
  apply bind_ex. bank_eval. rewrite Emf. simpl. rewrite (proj2 (Z.leb_le _ _)) by lia. eexists; split; [reflexivity|].
  apply bind_ex. bank_eval. eexists; split; [reflexivity|].
  apply bind_ex. bank_eval. rewrite Hty. unfold claim_ok in *; simpl in *. rewrite Hty in Hc. rewrite Hc.
  eexists; split; [reflexivity|]. bank_done.
  split.
  - split; simpl; [done|intros ? [= <-]; unfold line_inv; simpl; split_and!; [done|lia|lia|done]|].
    eapply (log_grows _ _ _ [_]); [exact Hlog|reflexivity|unfold wbound; simpl; lia|unfold rbound, wbound; simpl; lia|].
    intros p ->%list_elem_of_singleton. unfold wbound, rbound; simpl. lia.
  - unfold request_served, read_served. rewrite Hty, Hst. unfold wbound, rbound, contents; simpl.
    split_and!; try (done || lia || solve_waiters Hty Hst). left. split_and!; try done.
    eexists. split_and!; try reflexivity; simpl; lia.
Qed.

Lemma write_step_V mem x a m ev :
  ok mem a x -> request_at x a = Some m -> request_ok g mem x m -> bank_state x = L2_V ->
  ev = L1_Write /\ q_Type m = REQ_DATA \/ ev = L2_Atomic /\ q_Type m = REQ_DATA_ATOMIC ->
  exists x', block_step ev a x = Some x' /\ ok mem a x' /\ served mem x a m x'.
Proof using Type.
  intros Hok Hm (Hn & Hp & Hd & Ho1 & Ho2 & _ & Hc) Hst Hev. pose proof (wbound_nonneg g mem a x Hok) as Hwb.
  destruct (at_V mem a x Hok Hst) as (e & Et & Ee & Hs & Hr & Hw & Hcl).
  destruct (request_at_head x a m Hm) as (rq' & Er & <-).
  unfold bank_step. rewrite Hst. destruct x as [c e' t' rq mm out ft]. destruct Hok as [Hmts _ Hlog].
  unfold rbound, wbound in Ho2, Hwb. simpl in *. subst.
  assert (q_Dirty m = true) as Hdirty by (by destruct Hev as [[_ Hty]|[_ Hty]]; rewrite Hty in Hc).
  destruct Hev as [[-> Hty]|[-> Hty]].
  all: cbn [L2_transition mbind option_bind]; apply bind_ex; cbn [bank_actions].
  all: apply bind_ex; bank_eval; rewrite Hty; simpl; eexists; split; [reflexivity|].
  all: apply bind_ex; bank_eval; eexists; split; [reflexivity|].
  all: apply bind_ex; bank_eval; rewrite checked_ok by lia; simpl; eexists; split; [reflexivity|].
  all: apply bind_ex; bank_eval; eexists; split; [reflexivity|].
  all: apply bind_ex; bank_eval; rewrite Hdirty; eexists; split; [reflexivity|].
  all: apply bind_ex; bank_eval; eexists; split; [reflexivity|].
  all: apply bind_ex; bank_eval; rewrite Hty; eexists; split; [reflexivity|]; bank_done.
  all: split.
  1,3: split; simpl; [done|intros ? [= <-]; unfold line_inv; simpl; split_and!; [done|lia|lia|done]|];
    eapply (log_grows _ _ _ [_]); [exact Hlog|reflexivity|unfold wbound; simpl; lia|unfold rbound, wbound; simpl; lia|];
    intros p ->%list_elem_of_singleton; unfold wbound, rbound; simpl; lia || done.
  all: unfold request_served, write_served, atomic_served, write_timestamp; rewrite Hty, Hst;
    unfold wbound, rbound, contents; simpl.
  - split_and!; try (done || lia || solve_waiters Hty Hst). eexists. split_and!; try reflexivity; simpl; try lia.
    + intros _ ? [= <-]. lia.
    + by rewrite app_nil_r.
  - split_and!; try (done || lia || solve_waiters Hty Hst). left. split_and!; try done. eexists. split_and!; try reflexivity; simpl; try lia.
    intros _ ? [= <-]. lia.
Qed.
Lemma fresh_line a : e_rts (fresh a) = 0 /\ d_CacheState (e_state (fresh a)) = L2_NP /\ d_wts (e_state (fresh a)) = 0.
Proof using fresh_state. destruct (fresh_state a) as [-> ->]. done. Qed.

Lemma read_step_NP mem x a m :
  ok mem a x -> request_at x a = Some m -> request_ok g mem x m -> q_Type m = GETS -> bank_state x = L2_NP ->
  exists x', block_step L1_GETS a x = Some x' /\ ok mem a x' /\ served mem x a m x'.
Proof using fresh_state.
  intros Hok Hm (Hn & Hp & Hd & Ho1 & Ho2 & _ & Hc) Hty Hst. pose proof (wbound_nonneg g mem a x Hok) as Hwb.
  destruct (at_NP mem a x Hok Hst) as [Et Ee].
  destruct (request_at_head x a m Hm) as (rq' & Er & <-).
  unfold bank_step. rewrite Hst. destruct x as [c e' t' rq mm out ft]. destruct Hok as [Hmts _ Hlog].
  unfold rbound, wbound in Ho2, Hwb. simpl in *. subst.
  destruct (fresh_line (q_Address m)) as (Hfr & Hfs & Hfw).
  destruct (insert_ok (MemfetchSet_new g) (m_num (q_Requestor m)) (q_memfetch m)) as (mf & Emf & Hmf);
    [unfold MemfetchSet_new; rewrite length_replicate; lia|done|].
  cbn [L2_transition mbind option_bind]. apply bind_ex. cbn [bank_actions].
  apply bind_ex. bank_eval. rewrite Hty. simpl. eexists; split; [reflexivity|].
  apply bind_ex. bank_eval. eexists; split; [reflexivity|].
  apply bind_ex. bank_eval. rewrite bool_decide_eq_true_2 by done. rewrite Emf. simpl. eexists; split; [reflexivity|].
  apply bind_ex. bank_eval. eexists; split; [reflexivity|].
  apply bind_ex. bank_eval. eexists; split; [reflexivity|].
  apply bind_ex. bank_eval. rewrite Hty. unfold claim_ok; simpl. rewrite Hfs. simpl. eexists; split; [reflexivity|]. bank_done.
  split.
  - split; simpl; [done| |].
    + split; [|by eexists; split]. unfold tbe_inv; simpl. split_and!; try (done || lia). set_solver.
    + eapply (log_grows _ _ _ []); [exact Hlog|by rewrite app_nil_r|unfold wbound; simpl; lia|unfold rbound, wbound; simpl; lia|set_solver].
  - unfold request_served, read_served. rewrite Hty, Hst. unfold rbound, wbound, contents; simpl.
    split_and!; try (done || lia || solve_waiters Hty Hst). right. split_and!; try done.
    eexists. split_and!; try reflexivity; simpl; set_solver || lia.
Qed.

Lemma write_step_NP mem x a m ev :
  ok mem a x -> request_at x a = Some m -> request_ok g mem x m -> bank_state x = L2_NP ->
  ev = L1_Write /\ q_Type m = REQ_DATA \/ ev = L2_Atomic /\ q_Type m = REQ_DATA_ATOMIC ->
  exists x', block_step ev a x = Some x' /\ ok mem a x' /\ served mem x a m x'.
Proof using fresh_state.
  intros Hok Hm (Hn & Hp & Hd & Ho1 & Ho2 & _ & Hc) Hst Hev. pose proof (wbound_nonneg g mem a x Hok) as Hwb.
  destruct (at_NP mem a x Hok Hst) as [Et Ee].
  destruct (request_at_head x a m Hm) as (rq' & Er & <-).
  unfold bank_step. rewrite Hst. destruct x as [c e' t' rq mm out ft]. destruct Hok as [Hmts _ Hlog].
  unfold rbound, wbound in Ho2, Hwb. simpl in *. subst.
  assert (q_Dirty m = true) as Hdirty by (by destruct Hev as [[_ Hty]|[_ Hty]]; rewrite Hty in Hc). clear Hc.
  destruct Hev as [[-> Hty]|[-> Hty]].
  all: cbn [L2_transition mbind option_bind]; apply bind_ex; cbn [bank_actions write_miss app].
  all: apply bind_ex; bank_eval; rewrite Hty; simpl; eexists; split; [reflexivity|].
  all: repeat (apply bind_ex; bank_eval; rewrite ?Hdirty; eexists; split; [reflexivity|]).
  all: apply bind_ex; bank_eval; rewrite Hty; eexists; split; [reflexivity|]; bank_done.
  all: split.
  1,3: split; simpl; [done|split; [unfold tbe_inv; simpl; split_and!; try (done || lia)|by eexists; split]|].
  1,3: unfold MemfetchSet_new; rewrite length_replicate; lia.
  1,2: eapply (log_grows _ _ _ _); [exact Hlog|first [reflexivity|symmetry; apply app_nil_r]
         |unfold wbound; simpl; lia|unfold rbound, wbound; simpl; lia|].
  - intros p ->%list_elem_of_singleton. unfold wbound; simpl. split; [lia|done].
  - set_solver.
  - unfold request_served, write_served, write_timestamp. rewrite Hty, Hst. unfold rbound, wbound, contents; simpl.
    split_and!; try (done || lia || solve_waiters Hty Hst). eexists. split_and!; try reflexivity; simpl; done || lia.
  - unfold request_served, atomic_served, write_timestamp. rewrite Hty, Hst. unfold rbound, wbound, contents; simpl.
    split_and!; try (done || lia || solve_waiters Hty Hst). right. split_and!; try (done || lia || solve_waiters Hty Hst).
    eexists. by split_and!.
Qed.

Lemma read_step_IV mem x a m :
  ok mem a x -> request_at x a = Some m -> request_ok g mem x m -> q_Type m = GETS -> bank_state x = L2_IV ->
  exists x', block_step L1_GETS a x = Some x' /\ ok mem a x' /\ served mem x a m x'.
Proof using fresh_state.
  intros Hok Hm (Hn & Hp & Hd & Ho1 & Ho2 & Hsp & Hc) Hty Hst. pose proof (wbound_nonneg g mem a x Hok) as Hwb.
  destruct (at_wait mem a x Hok (or_introl Hst)) as (t & e & Et & Ee & (Hr & Hw & Hdl & Hmf & Hpw & Hpr & Hpn & Hu) & Hs).
  destruct (request_at_head x a m Hm) as (rq' & Er & <-).
  unfold bank_step. rewrite Hst. destruct x as [c e' t' rq mm out ft]. destruct Hok as [Hmts _ Hlog].
  unfold rbound, wbound in Ho2, Hwb. simpl in *. subst.
  destruct (insert_ok (u_mfset t) (m_num (q_Requestor m)) (q_memfetch m)) as (mf & Emf & Hmf'); [done..|].
  cbn [L2_transition mbind option_bind]. apply bind_ex. cbn [bank_actions].
  apply bind_ex. bank_eval. rewrite Hty. simpl. eexists; split; [reflexivity|].
  apply bind_ex. bank_eval. rewrite bool_decide_eq_true_2 by auto. rewrite Emf. simpl. eexists; split; [reflexivity|].
  repeat (apply bind_ex; bank_eval; eexists; split; [reflexivity|]).
  apply bind_ex. bank_eval. rewrite Hty in Hc |- *. unfold claim_ok in *; simpl in *. rewrite Hc. eexists; split; [reflexivity|]. bank_done.
  split.
  - split; simpl; [done|split; [unfold tbe_inv; simpl; split_and!; try (done || lia); set_solver|by eexists; split]|].
    eapply (log_grows _ _ _ []); [exact Hlog|symmetry; apply app_nil_r
      |unfold wbound; simpl; lia|unfold rbound, wbound; simpl; lia|set_solver].
  - unfold request_served, read_served. rewrite Hty, Hst. unfold rbound, wbound, contents; simpl.
    split_and!; try (done || lia || solve_waiters Hty Hst). right. split_and!; try (done || by rewrite app_nil_r).
    eexists. split_and!; try reflexivity; simpl; first [lia|apply elem_of_union_l; by apply elem_of_singleton].
Qed.

Lemma write_step_IV mem x a m :
  ok mem a x -> request_at x a = Some m -> request_ok g mem x m -> q_Type m = REQ_DATA -> bank_state x = L2_IV ->
  exists x', block_step L1_Write a x = Some x' /\ ok mem a x' /\ served mem x a m x'.
Proof using fresh_state.
  intros Hok Hm (Hn & Hp & Hd & Ho1 & Ho2 & Hsp & Hc) Hty Hst. pose proof (wbound_nonneg g mem a x Hok) as Hwb.
  destruct (at_wait mem a x Hok (or_introl Hst)) as (t & e & Et & Ee & (Hr & Hw & Hdl & Hmf & Hpw & Hpr & Hpn & Hu) & Hs).
  destruct (request_at_head x a m Hm) as (rq' & Er & <-).
  unfold bank_step. rewrite Hst. destruct x as [c e' t' rq mm out ft]. destruct Hok as [Hmts _ Hlog].
  unfold rbound, wbound in Ho2, Hwb. simpl in *. subst. rewrite Hty in Hc.
  cbn [L2_transition mbind option_bind]. apply bind_ex. cbn [bank_actions].
  apply bind_ex. bank_eval. rewrite Hty. simpl. eexists; split; [reflexivity|].
  repeat (apply bind_ex; bank_eval; rewrite ?Hc; eexists; split; [reflexivity|]).
  apply bind_ex. bank_eval. rewrite Hty. eexists; split; [reflexivity|]. bank_done.
  split.
  - split; simpl; [done|split; [unfold tbe_inv; simpl; split_and!; try (done || lia); by rewrite orb_true_r|by eexists; split]|].
    eapply (log_grows _ _ _ [_]); [exact Hlog|reflexivity
      |unfold wbound; simpl; destruct (pending_write t); lia|unfold rbound, wbound; simpl; destruct (pending_write t); lia|].
    intros p ->%list_elem_of_singleton. unfold wbound; simpl. split; [lia|done].
  - unfold request_served, write_served, write_timestamp. rewrite Hty, Hst. unfold rbound, wbound, contents; simpl.
    split_and!; try (done || (destruct (pending_write t); lia) || solve_waiters Hty Hst). eexists. split_and!; try reflexivity; simpl;
      first [done|by rewrite app_nil_r|destruct (pending_write t); lia].
Qed.
(** A request is served, or waits for memory's answer. *)
Definition waits x ev : Prop := bank_state x = L2_IAV \/ bank_state x = L2_IV /\ ev = L2_Atomic.

Lemma bank_request_step mem x a m ev :
  ok mem a x -> request_at x a = Some m -> request_ok g mem x m -> L1Cache_request_type_to_event (q_Type m) = Some ev ->
  exists x', block_step ev a x = Some x' /\ (waits x ev \/ ok mem a x' /\ served mem x a m x').
Proof using fresh_state.
  intros Hok Hm Hreq Hev. unfold waits.
  assert (q_Type m = GETS /\ ev = L1_GETS \/ q_Type m = REQ_DATA /\ ev = L1_Write \/ q_Type m = REQ_DATA_ATOMIC /\ ev = L2_Atomic)
    as Hcase by (destruct (q_Type m); try discriminate Hev; injection Hev as <-; auto).
  destruct (bank_state x) eqn:Hst.
  - destruct Hcase as [[Hty ->]|Hcase].
    + destruct (read_step_NP mem x a m) as (x' & ? & ? & ?); [done..|]. exists x'. auto.
    + destruct (write_step_NP mem x a m ev) as (x' & ? & ? & ?); [done..|naive_solver|]. exists x'. auto.
  - destruct Hcase as [[Hty ->]|Hcase].
    + destruct (read_step_V mem x a m) as (x' & ? & ? & ?); [done..|]. exists x'. auto.
    + destruct (write_step_V mem x a m ev) as (x' & ? & ? & ?); [done..|naive_solver|]. exists x'. auto.
  - destruct Hcase as [[Hty ->]|[[Hty ->]|[Hty ->]]].
    + destruct (read_step_IV mem x a m) as (x' & ? & ? & ?); [done..|]. exists x'. auto.
    + destruct (write_step_IV mem x a m) as (x' & ? & ? & ?); [done..|]. exists x'. auto.
    + unfold bank_step. rewrite Hst. eexists. split; [reflexivity|auto].
  - unfold bank_step. rewrite Hst. destruct Hcase as [[_ ->]|[[_ ->]|[_ ->]]]; eexists; (split; [reflexivity|auto]).
Qed.

(** ** Replacements *)
(** The line of a replaced block goes back to memory if it was written; the
    clock of evicted blocks passes every lease and write of the block. *)
Definition replaced mem x a x' : Prop :=
  x_entry x' = None /\ x_tbe x' = None /\ x_tbe x = None /\ x_requests x' = x_requests x /\ x_memory x' = x_memory x /\
  x_out x' = x_out x /\ x_mts x' = Z.max (x_mts x) (rbound x) /\
  exists e, x_entry x = Some e /\ e_DataBlk e = contents mem x /\
    (if d_Dirty (e_state e) then x_fetch x' = x_fetch x ++ [writeback_message id a e]
     else x_fetch x' = x_fetch x /\ contents mem x = mem).
Definition replacement_of (e : Entry L2Entry) : L2_Event :=
  if d_Dirty (e_state e) then L2_Replacement else L2_Replacement_clean.

Lemma bank_replacement_step mem x a e :
  ok mem a x -> x_entry x = Some e ->
  exists x', block_step (replacement_of e) a x = Some x' /\
    (bank_state x = L2_IV \/ bank_state x = L2_IAV \/ ok (contents mem x) a x' /\ replaced mem x a x').
Proof using Type.
  intros Hok He. unfold replacement_of. destruct (bank_state x) eqn:Hst.
  - destruct (at_NP mem a x Hok Hst) as [_ Hn]. congruence.
  - pose proof (wbound_nonneg g mem a x Hok) as Hwb. destruct (at_V mem a x Hok Hst) as (e' & Et & Ee & _ & Hr & Hw & Hcl).
    unfold bank_step. rewrite Hst. destruct x as [c e0 t' rq mm out ft]. destruct Hok as [Hmts _ Hlog].
    unfold rbound, wbound, contents in *. simpl in *. subst. injection Ee as ->.
    destruct (d_Dirty (e_state e')) eqn:Hd.
    all: eexists; split; [reflexivity|]; do 2 right; unfold replaced, contents, rbound, wbound; simpl; split.
    1,3: split; simpl; [lia|done|]; eapply (log_grows _ _ _ []); [exact Hlog|symmetry; apply app_nil_r
      |unfold wbound; simpl; lia|unfold rbound, wbound; simpl; lia|clear; set_solver].
    all: split_and!; try done; try lia; exists e'; rewrite Hd; auto.
  - unfold bank_step. rewrite Hst. destruct (d_Dirty _); eexists; (split; [reflexivity|auto]).
  - unfold bank_step. rewrite Hst. destruct (d_Dirty _); eexists; (split; [reflexivity|auto]).
Qed.

(** ** Memory's answers *)
(** Memory answers with what it holds; the lease fits. *)
Definition memory_ok mem x (mm : MemoryMsg) : Prop :=
  mm_Type mm = MEMORY_READ /\ mm_DataBlk mm = mem /\
  exists t, x_tbe x = Some t /\ max_read_pts t + deltaRequested t < 2 ^ 63 /\ rbound x + deltaRequested t < 2 ^ 63.
Definition memory_event (t : L2TBE) : L2_Event :=
  if pending_read t && pending_write t then Mem_Data_PRW else if pending_read t then Mem_Data_PR else Mem_Data_PW.
(** The answer completes the block: readers get the contents and a lease that
    contains their timestamps, the atomic operation gets the contents. *)
Definition memory_served mem x a x' : Prop :=
  x_requests x' = x_requests x /\ x_memory x' = tail (x_memory x) /\ x_mts x' = x_mts x /\ x_fetch x' = x_fetch x /\
  bank_state x' = L2_V /\ x_tbe x' = None /\ contents mem x' = contents mem x /\ wbound x' = wbound x /\ rbound x <= rbound x' /\
  forall t, x_tbe x = Some t ->
  match u_State t, pending_read t with
  | L2_IV, false => x_out x' = x_out x
  | L2_IV, true =>
      exists p, x_out x' = x_out x ++ [p] /\ p_Type p = DATA /\ p_Address p = a /\ p_Destination p = L1_GetS_IDs t /\
        p_DataBlk p = contents mem x /\ p_wts p = wbound x /\ max_read_pts t <= p_rts p /\ rbound x <= p_rts p
  | _, _ =>
      exists p, x_out x' = x_out x ++ [p] /\ p_Type p = DATA_ATOMIC /\ p_Address p = a /\
        p_Destination p = {[m_num (L1_WBAck_ID t)]} /\ p_DataBlk p = contents mem x /\ p_wts p = wbound x
  end.

Lemma memory_at_head x a mm : memory_at x a = Some mm -> exists l, x_memory x = mm :: l /\ mm_Address mm = a.
Proof using Type.
  unfold memory_at. intros H. run H. subst. destruct (x_memory x) as [|m' l]; [done|].
  injection E as ->. exists l. split; [done|]. lia.
Qed.
Lemma readers_pos (ids : gset Z) : ids <> ∅ -> (0 <? Z.of_nat (size ids)) = true.
Proof using Type.
  intros Hne. apply Z.ltb_lt. enough (size ids <> 0%nat) by lia. rewrite size_empty_iff. intros E. by apply Hne, leibniz_equiv.
Qed.

Lemma memory_step mem x a mm t :
  ok mem a x -> memory_at x a = Some mm -> x_tbe x = Some t -> memory_ok mem x mm ->
  exists x', block_step (memory_event t) a x = Some x' /\ ok mem a x' /\ memory_served mem x a x'.
Proof using Type.
  intros Hok Hm Et0 (Hty & Hdata & t0 & Et1 & Ho1 & Ho2). rewrite Et0 in Et1. injection Et1 as <-.
  pose proof (wbound_nonneg g mem a x Hok) as Hwb.
  assert (bank_state x = u_State t) as Hst by (unfold bank_state; by rewrite Et0).
  destruct (memory_at_head x a mm Hm) as (mq & Em & <-).
  unfold bank_step. rewrite Hst. destruct x as [c e' t' rq mm' out ft]. destruct Hok as [Hmts Hl Hlog].
  unfold rbound, wbound in Ho2, Hwb. simpl in *. subst.
  destruct Hl as ((Hr & Hw & Hdl & Hmf & Hpw & Hpr & Hpn & Hu) & e & -> & _).
  unfold memory_event. destruct (u_State t) eqn:Hs; [done|done| |].
  - destruct (pending_read t) eqn:Er, (pending_write t) eqn:Ew; simpl in Hu; try discriminate Hu; simpl;
      cbn [L2_transition mbind option_bind]; apply bind_ex; cbn [bank_actions];
      (apply bind_ex; bank_eval; eexists; split; [reflexivity|]).
    1,3: apply bind_ex; bank_eval; rewrite (Hpw eq_refl); eexists; split; [reflexivity|].
    1,3: apply bind_ex; bank_eval; rewrite !checked_ok by lia; simpl; eexists; split; [reflexivity|].
    1,2: rewrite !getTimeMax_max; apply bind_ex; bank_eval; rewrite (readers_pos _ (Hpr eq_refl));
      rewrite (proj2 (Z.leb_le _ _)) by lia; eexists; split; [reflexivity|].
    all: repeat (apply bind_ex; bank_eval; eexists; split; [reflexivity|]); bank_done; split.
    1,3,5: split; simpl; [lia|intros ? [= <-]; unfold line_inv; simpl; split_and!; done || lia|];
      eapply (log_grows _ _ _ _); [exact Hlog|first [reflexivity|symmetry; apply app_nil_r]
      |unfold wbound; simpl; rewrite Ew; lia|unfold rbound, wbound; simpl; rewrite Ew; lia|];
      first [by intros p Hp%elem_of_nil
            |intros p ->%list_elem_of_singleton; unfold rbound, wbound; simpl; lia].
    all: unfold memory_served, contents, rbound, wbound; simpl; rewrite Ew; split_and!; try (done || lia);
      intros ? [= <-]; rewrite Hs, Er; try done.
    all: eexists; split_and!; try reflexivity; simpl; lia.
  - destruct Hu as [Er Ew]. rewrite Er, Ew. simpl.
    cbn [L2_transition mbind option_bind]; apply bind_ex; cbn [bank_actions].
    apply bind_ex; bank_eval; eexists; split; [reflexivity|].
    apply bind_ex; bank_eval; rewrite (Hpw Ew); eexists; split; [reflexivity|].
    repeat (apply bind_ex; bank_eval; eexists; split; [reflexivity|]); bank_done; split.
    + split; simpl; [lia|intros ? [= <-]; unfold line_inv; simpl; split_and!; done || lia|].
      eapply (log_grows _ _ _ [_]); [exact Hlog|reflexivity
      |unfold wbound; simpl; rewrite Ew; lia|unfold rbound, wbound; simpl; rewrite Ew; lia|].
      intros p ->%list_elem_of_singleton; unfold rbound, wbound; simpl. split; [lia|done].
    + unfold memory_served, contents, rbound, wbound; simpl; rewrite Ew; split_and!; try (done || lia).
      intros ? [= <-]; rewrite Hs. eexists; split_and!; try reflexivity; simpl; lia.
Qed.
End requests.

(** ** Memory *)
(** What memory holds once it has handled the requests of a bank. *)
Fixpoint memory_after (mem : Z -> list Z) (l : list MemoryMsg) : Z -> list Z :=
  match l with
  | [] => mem
  | mm :: l =>
      memory_after (match mm_Type mm with
                    | MEMORY_WB => fun a => if decide (a = mm_Address mm) then mm_DataBlk mm else mem a
                    | _ => mem
                    end) l
  end.

Lemma memory_after_app mem l1 l2 : memory_after mem (l1 ++ l2) = memory_after (memory_after mem l1) l2.
Proof. revert mem. induction l1 as [|mm l1 IH]; intros mem; [done|]. simpl. apply IH. Qed.

(** ** The bank *)
Section safety.
Context {C : Type} `{TA : TagArray C L2Entry} `{TL : !TagArrayLaws C L2Entry default}.
Variables (g : Globals) (DATA_BLOCK XACT_MEMORY : bool) (NUMBER_OF_TBES id : Z) (mem : Z -> list Z).
Hypothesis block_line : forall a, tag_block a -> is_line g a = true.
Implicit Types (s : L2 C) (a b : Z) (m : RequestMsg).

Abbreviation base := (base_ok g NUMBER_OF_TBES).
Abbreviation doTransition := (L2_doTransition g DATA_BLOCK XACT_MEMORY NUMBER_OF_TBES id).
Abbreviation block_step := (bank_step g DATA_BLOCK XACT_MEMORY id tag_fresh).
Abbreviation request_in := (L1RequestIntraChipL2Network_in g DATA_BLOCK XACT_MEMORY NUMBER_OF_TBES id).
Abbreviation memory_in := (memQueue_in g DATA_BLOCK XACT_MEMORY NUMBER_OF_TBES id).
Abbreviation memory s := (memory_after mem (k_fetch s)).

(** Every block of the bank satisfies the invariant. *)
Definition L2_inv s : Prop := base s /\ forall a, tag_block a -> bank_ok g (memory s a) a (abs s a).

(** The responses about a block are in timestamp order: write timestamps do not go
    back, and no write is put before the end of a lease granted earlier. *)
Definition in_order (out : list ResponseMsg) : Prop :=
  forall l1 p l2 q, out = l1 ++ p :: l2 -> q ∈ l1 -> p_Address q = p_Address p ->
  p_wts q <= p_wts p /\ (p_Type p <> DATA -> p_Type q = DATA -> p_rts q <= p_wts p).

(** What a step on block [a] may add to the responses. *)
Definition adds a (x : Bank) (out : list ResponseMsg) : Prop :=
  out = x_out x \/ exists p, out = x_out x ++ [p] /\ p_Address p = a /\ wbound x <= p_wts p /\
    (p_Type p <> DATA -> rbound x <= p_wts p).

Lemma in_order_adds a (x : Bank) out : log_ok a x -> adds a x out -> in_order (x_out x) -> in_order out.
Proof using Type.
  intros Hlog [-> | (p & -> & Hpa & Hw & Hr)] Hin; [done|].
  intros l1 p' l2 q Heq Hq Ha. destruct l2 as [|r l2 _] using rev_ind.
  - apply app_inj_tail in Heq as [<- <-]. destruct (Hlog q Hq) as [Hwq Hrq]; [congruence|]. split; [lia|].
    intros Hp Hd. specialize (Hr Hp). specialize (Hrq Hd). lia.
  - rewrite app_comm_cons, app_assoc in Heq. apply app_inj_tail in Heq as [Heq _]. by apply (Hin l1 p' l2 q).
Qed.

(** A step on block [a] that keeps its invariant keeps the bank's. *)
Lemma bank_sim_inv s s' a x :
  L2_inv s -> sim g NUMBER_OF_TBES s s' a x -> adds a (abs s a) (x_out x) ->
  bank_ok g (memory s' a) a x -> (forall b, b <> a -> memory s' b = memory s b) ->
  L2_inv s' /\ abs s' a = x.
Proof using Type.
  intros [Hb Hok] [Hb' Habs Hothers] Hadd Hx Hmem. split; [split; [done|]|done]. intros b Hbl.
  destruct (decide (b = a)) as [->|Hne]; [by rewrite Habs|]. rewrite Hmem by done.
  apply (bank_kept_ok g _ b (abs s b)); [by apply Hothers| |by apply Hok].
  intros p Hp Hpb. simpl in *. assert (k_out s' = x_out x) as Ho by (by rewrite <- Habs). rewrite Ho in Hp.
  destruct Hadd as [E | (p' & E & Hpa & _)]; rewrite E in Hp; [done|]. apply elem_of_app in Hp as [Hp|Hp%list_elem_of_singleton]; [done|].
  congruence.
Qed.

(** What the request port did. *)
Definition others_kept s s' a : Prop := forall b, tag_block b -> b <> a -> kept (abs s b) (abs s' b).
Definition request_outcome s m (r : TransitionResult) s' : Prop :=
  let a := q_Address m in
  match r with
  | Valid =>
      request_served g DATA_BLOCK XACT_MEMORY id (memory s a) (abs s a) a m (abs s' a) /\ others_kept s s' a \/
      tag_lookup (k_cache s) a = None /\
      exists v, v <> a /\ tag_block v /\ replaced id (memory s v) (abs s v) v (abs s' v) /\ others_kept s s' v
  | ResourceStall => s' = s /\ map_size (k_tbes s) = NUMBER_OF_TBES /\ bank_state (abs s a) = L2_NP
  | ProtocolStall => s' = s /\ exists v, bank_state (abs s v) = L2_IV \/ bank_state (abs s v) = L2_IAV
  end.

Lemma served_adds a (x x' : Bank) m :
  0 <= wbound x <= rbound x ->
  request_served g DATA_BLOCK XACT_MEMORY id (memory_after mem (x_fetch x) a) x a m x' ->
  adds a x (x_out x') /\ (x_fetch x' = x_fetch x \/ x_fetch x' = x_fetch x ++ [fetch_message g DATA_BLOCK XACT_MEMORY id a]).
Proof using Type.
  clear block_line. intros Hwb (_ & _ & _ & _ & _ & _ & Hs). unfold adds.
  assert (forall (P : Prop) (d : Decision P) l, x_fetch x' = x_fetch x ++ (if d then l else []) ->
    x_fetch x' = x_fetch x \/ x_fetch x' = x_fetch x ++ l) as Hfetch
    by (intros P [] l ->; [by right|left; by rewrite app_nil_r]).
  destruct (q_Type m).
  1: destruct Hs as (_ & [(_ & Hf & p & Ho & Hty & Hpa & _ & _ & Hw & _)|(_ & Ho & Hf & _)]);
    [split; [right; exists p; split_and!; try done; lia || congruence|by left]|split; [by left|by eapply Hfetch]].
  3: destruct Hs as (_ & p & Ho & Hty & Hpa & _ & (_ & Hr & _) & Hf);
    split; [right; exists p; split_and!; try done; lia|by eapply Hfetch].
  all: destruct Hs as (_ & [(_ & Hf & p & Ho & Hty & Hpa & _ & (_ & Hr & _))|(_ & Ho & Hf & _)]);
    [split; [right; exists p; split_and!; try done; lia|by left]|split; [by left|by right]].
Qed.

Lemma fetch_keeps (l l' : list MemoryMsg) a :
  l' = l \/ l' = l ++ [fetch_message g DATA_BLOCK XACT_MEMORY id a] -> memory_after mem l' = memory_after mem l.
Proof using Type. intros [-> | ->]; [done|]. by rewrite memory_after_app. Qed.

(** A request handled by the bank. *)
Lemma request_outcome_ok now s m ev :
  let a := q_Address m in
  L2_inv s -> head (k_requests s) = Some m -> tag_block a -> request_ok g (memory s a) (abs s a) m ->
  L1Cache_request_type_to_event (q_Type m) = Some ev ->
  (tag_lookup (k_cache s) a = None -> tag_cacheAvail (k_cache s) a = Some true) ->
  exists r s', doTransition now s ev a = Some (r, s') /\ L2_inv s' /\ request_outcome s m r s' /\
    (in_order (k_out s) -> in_order (k_out s')).
Proof using block_line.
  intros a Hinv Hm Ha Hreq Hev Hroom. destruct (Hinv) as [Hb Hok].
  assert (request_at (abs s a) a = Some m) as Hat by (unfold request_at; simpl; rewrite Hm; simpl; by rewrite Z.eqb_refl).
  destruct (bank_request_step g DATA_BLOCK XACT_MEMORY id tag_fresh) with (mem := memory s a) (x := abs s a) (a := a) (m := m) (ev := ev)
    as (x & Hx & Hxok); [|by apply Hok|done..|].
  { intros b. destruct (tag_fresh_law b) as (_ & _ & ? & _ & ?). done. }
  destruct (bank_doTransition_refines g DATA_BLOCK XACT_MEMORY NUMBER_OF_TBES id block_line now s ev a x Hb Ha Hx)
    as [(E & ? & _ & ?)|[(E & _ & Hst)|(s' & E & Hsim & Hn1 & Hn2)]]; [by intros _; apply Hroom|..].
  - exists ResourceStall, s. done.
  - exists ProtocolStall, s. split_and!; try done. split; [done|]. exists a. clear -Hst. tauto.
  - exists Valid, s'.
    assert (is_request ev) as Hisr by (unfold is_request; destruct (q_Type m); try discriminate Hev; injection Hev as <-; auto).
    destruct Hxok as [[Hw|[Hw ->]]|[Hxok Hs]]; [by destruct Hn1; [left|]|by destruct Hn2; [right|]|].
    destruct (served_adds a (abs s a) x m (wbound_nonneg _ _ _ _ (Hok a Ha)) Hs) as [Hadd Hf].
    assert (memory s' = memory s) as Hmem.
    { apply (fetch_keeps _ _ a). rewrite <-(sim_abs _ _ _ _ _ _ Hsim) in Hf. exact Hf. }
    destruct (bank_sim_inv s s' a x Hinv Hsim Hadd) as [Hinv' Habs]; [by rewrite Hmem|by rewrite Hmem|].
    split_and!; try done.
    + left. fold a. rewrite Habs. split; [done|]. exact (sim_others _ _ _ _ _ _ Hsim).
    + replace (k_out s') with (x_out x) by (by rewrite <-Habs). apply (in_order_adds a (abs s a)); [|done].
      by apply (ok_log _ _ _ _ (Hok a Ha)).
Qed.

(** A line replaced for a request. *)
Lemma replacement_outcome_ok now s m v e :
  L2_inv s -> tag_block v -> tag_lookup (k_cache s) v = Some e ->
  tag_lookup (k_cache s) (q_Address m) = None -> v <> q_Address m ->
  exists r s', doTransition now s (replacement_of e) v = Some (r, s') /\ L2_inv s' /\ request_outcome s m r s' /\
    (in_order (k_out s) -> in_order (k_out s')).
Proof using block_line.
  intros Hinv Hv He Hn Hne. destruct (Hinv) as [Hb Hok].
  destruct (bank_replacement_step g DATA_BLOCK XACT_MEMORY id tag_fresh (memory s v) (abs s v) v e) as (x & Hx & Hxok); [by apply Hok|done|].
  assert (is_replacement (replacement_of e)) as Hrep by (unfold is_replacement, replacement_of; destruct (d_Dirty _); auto).
  assert (~ is_request (replacement_of e)) as Hnreq
    by (unfold is_request, replacement_of; destruct (d_Dirty _); intros [|[|]]; done).
  destruct (bank_doTransition_refines g DATA_BLOCK XACT_MEMORY NUMBER_OF_TBES id block_line now s _ v x Hb Hv Hx)
    as [(_ & _ & Hbad & _)|[(E & _ & Hst)|(s' & E & Hsim & Hn1 & Hn2)]]; [done..| |].
  - exists ProtocolStall, s. split_and!; try done. split; [done|]. exists v. clear -Hst. tauto.
  - exists Valid, s'. destruct Hxok as [Hw|[Hw|[Hxok Hr]]]; [by destruct Hn2; [left|]|by destruct Hn1; [right|]|].
    assert (Habs := sim_abs _ _ _ _ _ _ Hsim). pose proof Hr as (_ & _ & _ & _ & _ & Ho & _ & e' & He' & Hcont & Hf).
    rewrite <-Habs in Hf. simpl in Hf, He'. rewrite He in He'. injection He' as <-.
    destruct (bank_sim_inv s s' v x Hinv Hsim) as [Hinv' _].
    + left. by rewrite Ho.
    + destruct (d_Dirty (e_state e)).
      * rewrite Hf, memory_after_app. simpl. rewrite decide_True by done. by rewrite Hcont.
      * destruct Hf as [Hf Hmem]. rewrite Hf. by rewrite <-Hmem.
    + intros b Hbv. destruct (d_Dirty (e_state e)).
      * rewrite Hf, memory_after_app. simpl. by rewrite decide_False.
      * destruct Hf as [Hf _]. by rewrite Hf.
    + split_and!; try done.
      * right. split; [done|]. exists v. rewrite Habs. split_and!; try done. exact (sim_others _ _ _ _ _ _ Hsim).
      * replace (k_out s') with (k_out s); [done|]. transitivity (x_out x); [done|]. by rewrite <-Habs.
Qed.

(** Requests come from an L1 and are meant for this bank. *)
Definition addressed m : Prop := m_type (q_Requestor m) = L1Cache /\ q_Destination m = bankID id.

Lemma request_port now s m :
  let a := q_Address m in
  L2_inv s -> head (k_requests s) = Some m -> addressed m -> tag_block a -> request_ok g (memory s a) (abs s a) m ->
  exists r s', request_in now s = Some (r, s') /\ L2_inv s' /\ request_outcome s m r s' /\
    (in_order (k_out s) -> in_order (k_out s')).
Proof using block_line.
  intros a Hinv Hm [Hl1 Hdest] Ha Hreq. assert (Hc := base_cache _ _ _ (proj1 Hinv)).
  assert (exists ev, L1Cache_request_type_to_event (q_Type m) = Some ev) as [ev Hev].
  { destruct Hreq as (_ & _ & _ & _ & _ & _ & Hty). destruct (q_Type m); by eauto. }
  unfold L1RequestIntraChipL2Network_in. rewrite Hm. simpl. rewrite Hev. simpl.
  rewrite !bool_decide_eq_true_2 by done. rewrite tag_isTagPresent_law by done. simpl.
  case_bool_decide as Hpr.
  { apply (request_outcome_ok now s m ev); try done. intros Hn. rewrite Hn in Hpr. by destruct Hpr. }
  destruct (tag_cacheAvail_law (k_cache s) a Hc Ha) as (b & Hav & _). fold a. rewrite Hav. simpl. destruct b.
  - by apply (request_outcome_ok now s m ev).
  - destruct (tag_cacheProbe_law (k_cache s) a Hc Ha Hav) as (v & -> & Hv & [e He] & Hne). simpl. rewrite He. simpl.
    apply replacement_outcome_ok; try done. by apply eq_None_not_Some.
Qed.

Lemma memory_port now s mm t :
  let a := mm_Address mm in
  L2_inv s -> head (k_memory s) = Some mm -> tag_block a -> k_tbes s !! a = Some t ->
  memory_ok (memory s a) (abs s a) mm ->
  exists s', memory_in now s = Some (Valid, s') /\ L2_inv s' /\
    memory_served (memory s a) (abs s a) a (abs s' a) /\ others_kept s s' a /\
    (in_order (k_out s) -> in_order (k_out s')).
Proof using block_line.
  intros a Hinv Hm Ha Ht Hmok. destruct (Hinv) as [Hb Hok].
  assert (memory_at (abs s a) a = Some mm) as Hat by (unfold memory_at; simpl; rewrite Hm; simpl; by rewrite Z.eqb_refl).
  destruct (memory_step g DATA_BLOCK XACT_MEMORY id tag_fresh) with (mem := memory s a) (x := abs s a) (a := a) (mm := mm) (t := t)
    as (x & Hx & Hxok & Hs); [by apply Hok|done..|].
  pose proof (ok_line _ _ _ _ (Hok a Ha)) as Hl. simpl in Hl. rewrite Ht in Hl. destruct Hl as [Hti _].
  assert (pending_read t || pending_write t = true) as Hp
    by (destruct Hti as (_ & _ & _ & _ & _ & _ & _ & Hti); destruct (u_State t); try done; destruct Hti as [-> ->]; done).
  unfold memQueue_in. rewrite Hm. simpl. destruct Hmok as (Hty & Hmok). rewrite Hty.
  rewrite (bank_tbe_of_at g NUMBER_OF_TBES block_line) by done. fold a. rewrite Ht. simpl. rewrite Hp.
  destruct (bank_doTransition_refines g DATA_BLOCK XACT_MEMORY NUMBER_OF_TBES id block_line now s _ a x Hb Ha Hx)
    as [(_ & _ & Hbad & _)|[(_ & Hbad & _)|(s' & E & Hsim & _)]].
  1: intros Hbad; exfalso.
  1-3: clear -Hbad; revert Hbad; unfold is_request, is_replacement, memory_event;
    destruct (pending_read t), (pending_write t); naive_solver.
  exists s'. assert (Habs := sim_abs _ _ _ _ _ _ Hsim).
  assert (adds a (abs s a) (x_out x)) as Hadd.
  { pose proof (wbound_nonneg _ _ _ _ (Hok a Ha)) as Hwb.
    destruct Hs as (_ & _ & _ & _ & _ & _ & _ & _ & _ & Hs). specialize (Hs t Ht). unfold adds.
    assert (rbound (abs s a) = wbound (abs s a)) as Hrw by (unfold rbound; simpl; by rewrite Ht).
    destruct (u_State t), (pending_read t); try (left; exact Hs); right.
    all: try (destruct Hs as (p & Ho & Hpt & Hpa & _ & _ & Hw)); exists p; (split_and!; [done|done|lia|intros; lia]). }
  assert (memory s' = memory s) as Hmem.
  { destruct Hs as (_ & _ & _ & Hf & _). by rewrite <-Habs in Hf; simpl in Hf; rewrite Hf. }
  destruct (bank_sim_inv s s' a x Hinv Hsim Hadd) as [Hinv' _]; [by rewrite Hmem|by rewrite Hmem|].
  split_and!; try done.
  - by rewrite Habs.
  - exact (sim_others _ _ _ _ _ _ Hsim).
  - replace (k_out s') with (x_out x) by (by rewrite <-Habs). apply (in_order_adds a (abs s a)); [|done].
    by apply (ok_log _ _ _ _ (Hok a Ha)).
Qed.

(** C5: a request that is as the bank asserts never makes it fail. A request is so when it
    comes from an L1, uses the memory space of the requests it joins, leaves room in the
    timestamps for its lease, and if it is a read and claims a live copy, that copy is not older
    than the last write. Then under the bank's invariant the request port reaches no error,
    undefined transition or failed assertion, and keeps the invariant. A read gets the block's
    contents, the time of the last write and a lease that holds its own timestamp and ends no
    earlier than any lease granted before; a write or atomic operation becomes the contents, at a
    time no earlier than any lease or write before it, and strictly later than all leases only if
    the line is in the cache; requests for an absent line fetch it, once. Otherwise a victim goes
    back to memory if it was written, and the clock of evicted blocks passes all its leases; or
    the bank stalls without a change. *)
Theorem L2_request_safe now s m :
  let a := q_Address m in
  L2_inv s -> head (k_requests s) = Some m -> addressed m -> tag_block a -> request_ok g (memory s a) (abs s a) m ->
  exists r s', request_in now s = Some (r, s') /\ L2_inv s' /\ request_outcome s m r s'.
Proof using block_line.
  intros a Hinv Hm Hadr Ha Hreq. destruct (request_port now s m Hinv Hm Hadr Ha Hreq) as (r & s' & ? & ? & ? & _).
  by exists r, s'.
Qed.

(** C6: memory's answer is always accepted: under the bank's invariant it
    reaches no error or failed assertion and keeps the invariant. It installs the line
    with the block's contents (the waiting write's if there is one), answers all
    waiting readers at once with a lease that holds their latest timestamp, or the waiting
    atomic operation, and frees the transaction buffer. *)
Theorem L2_memory_safe now s mm t :
  let a := mm_Address mm in
  L2_inv s -> head (k_memory s) = Some mm -> tag_block a -> k_tbes s !! a = Some t ->
  memory_ok (memory s a) (abs s a) mm ->
  exists s', memory_in now s = Some (Valid, s') /\ L2_inv s' /\
    memory_served (memory s a) (abs s a) a (abs s' a) /\ others_kept s s' a.
Proof using block_line.
  intros a Hinv Hm Ha Ht Hok. destruct (memory_port now s mm t Hinv Hm Ha Ht Hok) as (s' & ? & ? & ? & ? & _).
  by exists s'.
Qed.

(** What happens to a bank: messages arrive, its ports handle requests, answers
    and acknowledgements of memory. *)
Inductive bank_moves : relation (L2 C) :=
  | moves_arrive s r mm : bank_moves s (set_kports s (k_requests s ++ r) (k_memory s ++ mm))
  | moves_request now s m r s' :
      head (k_requests s) = Some m -> addressed m -> tag_block (q_Address m) ->
      request_ok g (memory s (q_Address m)) (abs s (q_Address m)) m ->
      request_in now s = Some (r, s') -> bank_moves s s'
  | moves_memory now s mm t r s' :
      head (k_memory s) = Some mm -> tag_block (mm_Address mm) -> k_tbes s !! mm_Address mm = Some t ->
      memory_ok (memory s (mm_Address mm)) (abs s (mm_Address mm)) mm ->
      memory_in now s = Some (r, s') -> bank_moves s s'
  | moves_ack now s mm r s' :
      head (k_memory s) = Some mm -> mm_Type mm = MEMORY_WB -> memory_in now s = Some (r, s') -> bank_moves s s'.

(** The queues are no part of the invariant. *)
Lemma ports_inv s r mm : L2_inv s -> L2_inv (set_kports s r mm).
Proof using Type. intros [[] Hs]. split; [by split|]. intros a Ha. destruct (Hs a Ha). by split. Qed.

Lemma moves_ok s s' : bank_moves s s' -> L2_inv s -> in_order (k_out s) -> L2_inv s' /\ in_order (k_out s').
Proof using block_line.
  intros Hstep Hinv Hin. destruct Hstep as [s r mm|now s m r s' Hm Had Ha Hr E|now s mm t r s' Hm Ha Ht Hok E|now s mm r s' Hm Hty E].
  - split; [by apply ports_inv|done].
  - destruct (request_port now s m) as (r' & s'' & E' & ? & _ & ?); [done..|]. rewrite E in E'. injection E' as <- <-. auto.
  - destruct (memory_port now s mm t) as (s'' & E' & ? & _ & _ & ?); [done..|]. rewrite E in E'. injection E' as -> ->. auto.
  - unfold memQueue_in in E. rewrite Hm in E. simpl in E. rewrite Hty in E. unfold popMemory in E. run E.
    destruct (k_memory s) as [|m' l]; [done|]. run E0. subst. split; [by apply ports_inv|done].
Qed.

(** C7: timestamp order of the L2. Whatever requests and memory answers a bank
    handles, in whatever order, its invariant holds, write timestamps of a block never go
    back, and no write or atomic operation on a block is put before the end of a
    lease granted on it earlier. *)
Theorem L2_timestamp_order s0 s :
  L2_inv s0 -> in_order (k_out s0) -> rtc bank_moves s0 s -> L2_inv s /\ in_order (k_out s).
Proof using block_line.
  intros Hinv Hin Hmoves. induction Hmoves as [|s1 s2 s3 Hm _ IH]; [done|].
  destruct (moves_ok s1 s2 Hm Hinv Hin). by apply IH.
Qed.
End safety.

(** ** A concrete bank *)
(** L2 bank number 0 of the small GPU, with a four-set two-way cache. *)
Definition L2_cache0 : CacheMemory LastRef L2Entry :=
  CacheMemory_new default_config true false L2Cache 2 2 (LastRef_new 4 2).

(** A read and a write of block 0x200 by the L1s number 5 and 6. *)
Definition L2_request (type : CoherenceRequestType) (l1 pts lease : Z) (d : list Z) : RequestMsg :=
  mkRequest 0x200 type (mkMachine L1Cache l1) (mkMachine L2Cache 0) d true GLOBAL 128 lease pts 0 99
    false false false false false false false false 0 0 0.
Definition read_0x200 : RequestMsg := L2_request GETS 5 3 10 [].
Definition write_0x200 : RequestMsg := L2_request REQ_DATA 6 4 0 [1; 2; 3].
Definition L2_start (l : list RequestMsg) : L2 (CacheMemory LastRef L2Entry) := mkL2 L2_cache0 ∅ l [] [] [].
Definition memory0 (a : Z) : list Z := replicate 128 7.

#[local] Instance L2_tags : TagArray (CacheMemory LastRef L2Entry) L2Entry := CacheMemory_TagArray default_config true false.
#[local] Instance L2_laws : TagArrayLaws (CacheMemory LastRef L2Entry) L2Entry default :=
  CacheMemory_laws default_config true false.

Lemma bank_block_is_line a : line_ok default_config a -> is_line default_config a = true.
Proof. by intros []. Qed.
Lemma bank_line_0x200 : line_ok default_config 0x200.
Proof. apply line_ok_L1. set_solver. Qed.

Lemma L2_start_inv l : L2_inv default_config 4 memory0 (L2_start l).
Proof.
  assert (cache_inv default_config L2_cache0 /\
    forall b, line_ok default_config b -> lookup default_config L2_cache0 b = None) as [Hc Hl].
  { apply CacheMemory_new_inv; try (by vm_compute) || (vm_compute; split; congruence).
    - by right.
    - apply (LastRef_new_ok 4 2); vm_compute; congruence. }
  split.
  - split; [exact Hc|split; [by vm_compute|]].
    intros a [t Ht]. simpl in Ht. by rewrite lookup_empty in Ht.
  - intros a Ha. split; simpl; [done| |].
    + rewrite lookup_empty. intros e. change (lookup default_config L2_cache0 a = Some e -> line_inv (memory0 a) e). by rewrite Hl.
    + intros p Hp. by apply elem_of_nil in Hp.
Qed.

Lemma read_0x200_ok : request_ok default_config (memory_after memory0 [] 0x200) (abs (L2_start [read_0x200]) 0x200) read_0x200.
Proof. split_and!; try done; vm_compute; congruence || done. Qed.

Lemma L2_request_safe_witness :
  exists r s', L1RequestIntraChipL2Network_in default_config true false 4 0 100 (L2_start [read_0x200]) = Some (r, s') /\
    L2_inv default_config 4 memory0 s' /\
    request_outcome default_config true false 4 0 memory0 (L2_start [read_0x200]) read_0x200 r s'.
Proof.
  apply (L2_request_safe (TA := L2_tags) (TL := L2_laws) default_config true false 4 0 memory0 bank_block_is_line
           100 (L2_start [read_0x200]) read_0x200 (L2_start_inv _)); [reflexivity|by split|exact bank_line_0x200|exact read_0x200_ok].
Defined.

(** The bank after the read missed, and memory's answer. *)
Definition L2_read : L2 (CacheMemory LastRef L2Entry) :=
  from_option snd (L2_start []) (L1RequestIntraChipL2Network_in default_config true false 4 0 100 (L2_start [read_0x200])).
Definition answer_0x200 : MemoryMsg :=
  mkMemoryMsg 0x200 MEMORY_READ (mkMachine L2Cache 0) (mkMachine L2Cache 0) (memory0 0x200).
Definition L2_waiting : L2 (CacheMemory LastRef L2Entry) :=
  set_kports L2_read (k_requests L2_read ++ []) (k_memory L2_read ++ [answer_0x200]).
Definition waiting_tbe : L2TBE := from_option (fun t => t) (L2TBE_new default_config true false) (k_tbes L2_waiting !! 0x200).

Lemma L2_read_moves : rtc (bank_moves default_config true false 4 0 memory0) (L2_start [read_0x200]) L2_waiting.
Proof.
  eapply rtc_l; [|apply rtc_once, (moves_arrive _ _ _ _ _ _ L2_read [] [answer_0x200])].
  eapply (moves_request _ _ _ _ _ _ 100 _ read_0x200); [reflexivity|by split|exact bank_line_0x200|exact read_0x200_ok|].
  by vm_compute.
Qed.

Lemma L2_waiting_inv : L2_inv default_config 4 memory0 L2_waiting.
Proof.
  assert (forall s s', rtc (bank_moves default_config true false 4 0 memory0) s s' ->
    L2_inv default_config 4 memory0 s -> in_order (k_out s) -> L2_inv default_config 4 memory0 s') as H.
  { intros s s' Hm. induction Hm as [|s1 s2 s3 Hm _ IH]; [done|]. intros Hi Ho.
    destruct (moves_ok (TL := L2_laws) default_config true false 4 0 memory0 bank_block_is_line s1 s2 Hm Hi Ho). auto. }
  apply (H _ _ L2_read_moves); [apply L2_start_inv|]. intros l1 p l2 q Heq Hq. by destruct l1.
Qed.

Lemma waiting_memory_ok : memory_ok (memory_after memory0 (k_fetch L2_waiting) 0x200) (abs L2_waiting 0x200) answer_0x200.
Proof. split_and!; [done|by vm_compute|]. exists waiting_tbe. split_and!; by vm_compute. Qed.

Lemma L2_memory_safe_witness :
  exists s', memQueue_in default_config true false 4 0 200 L2_waiting = Some (Valid, s') /\
    L2_inv default_config 4 memory0 s' /\ bank_state (abs s' 0x200) = L2_V /\ contents (memory0 0x200) (abs s' 0x200) = replicate 128 7.
Proof.
  destruct (L2_memory_safe (TA := L2_tags) (TL := L2_laws) default_config true false 4 0 memory0 bank_block_is_line
    200 L2_waiting answer_0x200 waiting_tbe L2_waiting_inv) as (s' & E & Hs' & Hm & _).
  - by vm_compute.
  - exact bank_line_0x200.
  - by vm_compute.
  - exact waiting_memory_ok.
  - exists s'. split; [exact E|split; [exact Hs'|]]. destruct Hm as (_ & _ & _ & _ & Hst & _ & Hc & _).
    change (mm_Address answer_0x200) with 0x200 in Hst, Hc. split; [exact Hst|].
    replace (memory0 0x200) with (memory_after memory0 (k_fetch L2_waiting) 0x200) by (by vm_compute). rewrite Hc. by vm_compute.
Defined.

(** The read answered, then a write by another L1. *)
Definition L2_answered : L2 (CacheMemory LastRef L2Entry) :=
  from_option snd L2_waiting (memQueue_in default_config true false 4 0 200 L2_waiting).
Definition L2_write : L2 (CacheMemory LastRef L2Entry) :=
  set_kports L2_answered (k_requests L2_answered ++ [write_0x200]) (k_memory L2_answered ++ []).
Definition L2_written : L2 (CacheMemory LastRef L2Entry) :=
  from_option snd L2_write (L1RequestIntraChipL2Network_in default_config true false 4 0 300 L2_write).

Lemma L2_timestamp_order_witness :
  L2_inv default_config 4 memory0 L2_written /\ in_order (k_out L2_written) /\
  map p_rts (k_out L2_written) = [13; 0] /\ map p_wts (k_out L2_written) = [0; 14].
Proof.
  enough (L2_inv default_config 4 memory0 L2_written /\ in_order (k_out L2_written)) as [? ?] by (split_and!; try done; by vm_compute).
  apply (L2_timestamp_order (TA := L2_tags) (TL := L2_laws) default_config true false 4 0 memory0 bank_block_is_line
    (L2_start [read_0x200])); [apply L2_start_inv|intros l1 p l2 q Heq; by destruct l1|].
  etrans; [exact L2_read_moves|].
  eapply rtc_l; [eapply (moves_memory _ _ _ _ _ _ 200 _ answer_0x200 waiting_tbe Valid L2_answered)|].
  - by vm_compute.
  - exact bank_line_0x200.
  - by vm_compute.
  - exact waiting_memory_ok.
  - by vm_compute.
  - eapply rtc_l; [apply (moves_arrive _ _ _ _ _ _ L2_answered [write_0x200] [])|].
    apply rtc_once.
    eapply (moves_request _ _ _ _ _ _ 300 _ write_0x200); [by vm_compute|by split|exact bank_line_0x200| |by vm_compute].
    split_and!; by vm_compute.
Defined.
