(* ===== verification/RccSystem.v ===== *)
(** The L1s and the L2 banks together: a step relation in which the network only
    carries messages that were sent, the invariant that links leases held by L1s to
    leases granted by banks, and timestamp order across the system. *)
From S2P Require Import Prelude Vector Config Address DataBlock Replacement CacheMemory Tables Requests TagArray RccMsg.
From S2P Require RccL1 RccL1Spec RccL1Safe RccL2 RccL2Spec RccL2Safe.
Import RccL2 RccL1 RccL1Safe.

Abbreviation readable := RccL1Spec.readable.
Abbreviation copy_rts := RccL1Spec.copy_rts.
Abbreviation abs1 := RccL1Spec.abs.
Abbreviation abs2 := RccL2Spec.abs.

(** ** What an L1 sends and keeps *)
Section l1.
Context {C : Type} `{TA : TagArray C L1Entry} `{TL : !TagArrayLaws C L1Entry default}.
Variables (g : Globals) (DATA_BLOCK XACT_MEMORY : bool) (NUMBER_OF_TBES CL_FIXED_LEASE : Z)
          (id : Z) (RECORDER DELAY_QUEUE_ENABLED : bool) (DELAY_QUEUE_THRESHOLD : Z).
Variable home : Z -> MachineID.
Hypothesis block_line : forall a, tag_block a -> is_line g a = true.
Hypothesis home_bank : forall a, tag_block a -> map_L1CacheMachId_to_L2Cache g a (RccL1.machineID id) = Some (home a).
Implicit Types (s : L1 C) (a b : Z).
Abbreviation inv := (L1_inv g NUMBER_OF_TBES RECORDER).
Abbreviation pts s := (tag_getPts (l_cache s)).

(** A request of L1 number [id]. *)
Definition sent_ok (q : RequestMsg) : Prop :=
  q_Requestor q = RccL1.machineID id /\ 0 <= q_pts q < 4294967295 /\
  match q_Type q with
  | GETS => q_deltaRequested q = CL_FIXED_LEASE
  | REQ_DATA | REQ_DATA_ATOMIC => q_Dirty q = true /\ q_deltaRequested q = 0
  | _ => False
  end.

(** What a port of the L1 may do, seen from the rest of the system. *)
Record L1_effect s s' : Prop := {
  eff_inv : inv s';
  eff_pts : pts s <= pts s' < 4294967295;
  eff_out : l_out s' = l_out s \/ exists q, l_out s' = l_out s ++ [q] /\ sent_ok q;
  eff_in p : p ∈ l_responses s' ++ l_delay s' -> p ∈ l_responses s ++ l_delay s;
  eff_copies a : tag_block a -> readable (abs1 s' a) = true ->
    (readable (abs1 s a) = true /\ copy_rts (abs1 s' a) = copy_rts (abs1 s a)) \/
    exists p, p ∈ l_responses s ++ l_delay s /\ p_Type p = DATA /\ p_Address p = a /\
      p_rts p = copy_rts (abs1 s' a) /\ p_wts p <= pts s' }.

Lemma effect_refl s : inv s -> 0 <= pts s < 4294967295 -> L1_effect s s.
Proof using Type. intros. split; try done; [lia|by left|intros a Ha Hr; by left]. Qed.

Lemma served_effect s s' a m :
  inv s' -> 0 <= pts s < 4294967295 -> served CL_FIXED_LEASE id home (abs1 s a) a m (abs1 s' a) ->
  others_kept s s' a -> L1_effect s s'.
Proof using Type.
  intros Hinv Hp (Hpts & _ & Hr & Hd & Hcopy & _ & Hs) Ho. simpl in Hpts, Hr, Hd. split; [done|lia| |by rewrite Hr, Hd|].
  - assert (forall q, q_Requestor q = RccL1.machineID id -> q_pts q = pts s ->
      (match q_Type q with GETS => q_deltaRequested q = CL_FIXED_LEASE
       | REQ_DATA | REQ_DATA_ATOMIC => q_Dirty q = true /\ q_deltaRequested q = 0 | _ => False end) -> sent_ok q) as Hok
      by (intros q Hrq Hq ?; unfold sent_ok; by rewrite Hrq, Hq).
    destruct (c_Type m);
      try (destruct Hs as (_ & [(_ & _ & Hout & _)|(q & Hout & Hty & _ & Hq & Hdl & _ & _ & Hrq & _)]);
           [by left|right; exists q; split; [done|apply Hok; try done; by rewrite Hty]]);
      destruct Hs as (_ & q & Hout & Hty & _ & Hq & Hdi & Hdl & _ & _ & Hrq & _);
      right; exists q; (split; [done|apply Hok; try done; by rewrite Hty]).
  - intros b Hb Hrb. left. destruct (decide (b = a)) as [->|Hne]; [by apply Hcopy|].
    by apply RccL1Spec.kept_no_new_copy; [apply Ho|].
Qed.

Lemma mandatory_effect now s m r s' :
  inv s -> 0 <= pts s < 4294967295 -> head (l_mandatory s) = Some m -> tag_block (c_Address m) ->
  RccL1Safe.request_ok (abs1 s (c_Address m)) m ->
  mandatoryQueue_in g DATA_BLOCK XACT_MEMORY NUMBER_OF_TBES CL_FIXED_LEASE id RECORDER now s = Some (r, s') ->
  L1_effect s s'.
Proof using block_line home_bank.
  intros Hinv Hp Hm Ha Hreq E.
  destruct (mandatory_port g DATA_BLOCK XACT_MEMORY NUMBER_OF_TBES CL_FIXED_LEASE id RECORDER home block_line home_bank
    now s m Hinv Hm Ha Hreq) as (r' & s'' & E' & Hinv' & Hout).
  rewrite E in E'. injection E' as <- <-. destruct r.
  - destruct Hout as [[Hs Ho]|(v & Hv & Hne & Ht & He & Hx & Ho)]; [by eapply served_effect|].
    assert (Heq := f_equal (fun x => (RccL1Spec.b_pts x, RccL1Spec.b_out x, RccL1Spec.b_responses x, RccL1Spec.b_delay x)) Hx).
    simpl in Heq. injection Heq as Hp' Ho' Hr' Hd'. split; [done|lia|by left|by rewrite Hr', Hd'|].
    intros b Hb Hrb. left. destruct (decide (b = v)) as [->|Hnb]; [|by apply RccL1Spec.kept_no_new_copy; [apply Ho|]].
    exfalso. rewrite Hx in Hrb. unfold RccL1Spec.readable, RccL1Spec.blk_state in Hrb. simpl in Hrb, Ht. rewrite Ht in Hrb; by rewrite andb_false_r in Hrb.
  - destruct Hout as [-> _]. by apply effect_refl.
  - destruct Hout as [-> _]. by apply effect_refl.
Qed.

Lemma answered_effect s s' (delay : bool) a m :
  inv s' -> 0 <= pts s < 4294967295 -> p_wts m < 4294967295 -> p_Address m = a -> m ∈ l_responses s ++ l_delay s ->
  answered delay (abs1 s a) a m (abs1 s' a) -> others_kept s s' a -> L1_effect s s'.
Proof using Type.
  intros Hinv Hp Hw Hma Hm (Hpts & _ & Hout & Hports & Ha) Ho. simpl in Hpts, Hout, Hports.
  split; [done|lia|by left| |].
  - intros p Hin. destruct delay, Hports as [Hr Hd]; rewrite Hr, Hd in Hin;
      apply elem_of_app in Hin as [Hin|Hin]; apply elem_of_app; (by left) || (by right) || idtac.
    + right. destruct (l_delay s); [done|by right].
    + left. destruct (l_responses s); [done|by right].
  - intros b Hb Hrb. destruct (decide (b = a)) as [->|Hnb]; [|left; by apply RccL1Spec.kept_no_new_copy; [apply Ho|]].
    assert (forall x, RccL1Spec.blk_state x = L1_I \/ RccL1Spec.blk_state x = L1_I_I -> readable x = true -> False) as Hnot
      by (intros x Hx; unfold RccL1Spec.readable; destruct Hx as [-> | ->]; by rewrite andb_false_r).
    destruct (p_Type m) eqn:Hty; try (exfalso; destruct Ha as (_ & _ & _ & Hst & _); by apply (Hnot _ Hst)).
    right. exists m. destruct Ha as (_ & _ & _ & e & e' & _ & He' & Hrts & _ & _ & Hst).
    split_and!; try done; [|lia]. unfold RccL1Spec.copy_rts, RccL1Spec.lease_of.
    destruct (RccL1Spec.b_stores (abs1 s a)); [destruct Hst as [-> _]; rewrite He'; by simpl|by destruct Hst as (t & -> & -> & _)].
Qed.

Lemma elem_of_insert m p l : p ∈ delay_insert m l <-> p = m \/ p ∈ l.
Proof using Type.
  induction l as [|q l IH]; simpl; [by rewrite !elem_of_cons|]. case_match; rewrite !elem_of_cons, ?IH; tauto.
Qed.

Lemma response_effect now s m s' :
  inv s -> 0 <= pts s < 4294967295 -> head (l_responses s) = Some m -> id ∈ p_Destination m -> tag_block (p_Address m) ->
  response_ok (abs1 s (p_Address m)) m ->
  responseIntraChipL1Network_in g DATA_BLOCK XACT_MEMORY NUMBER_OF_TBES CL_FIXED_LEASE id RECORDER
    DELAY_QUEUE_ENABLED DELAY_QUEUE_THRESHOLD now s = Some (Valid, s') ->
  L1_effect s s'.
Proof using block_line home_bank.
  intros Hinv Hp Hm Hid Ha Hok E.
  destruct (response_port g DATA_BLOCK XACT_MEMORY NUMBER_OF_TBES CL_FIXED_LEASE id RECORDER DELAY_QUEUE_ENABLED
    DELAY_QUEUE_THRESHOLD home block_line home_bank now s m Hinv Hm Hid Ha Hok) as (s'' & E' & Hinv' & Ho & Hout).
  rewrite E in E'. injection E' as <-. destruct Hok as (_ & Hw & _).
  assert (m ∈ l_responses s) as Hin by (destruct (l_responses s); [done|]; injection Hm as ->; by left).
  destruct (DELAY_QUEUE_ENABLED && _).
  - destruct Hout as (Hpts & _ & Hout & _ & _ & Hr & Hd & Hcopy). simpl in Hpts. split; [done|lia|by left| |].
    + intros p. rewrite Hr, Hd, !elem_of_app, elem_of_insert. intros [Hp'|[->|Hp']]; [left|by left|by right].
      destruct (l_responses s); [done|by right].
    + intros b Hb Hrb. left. destruct (decide (b = p_Address m)) as [->|Hne]; [by apply Hcopy|].
      by apply RccL1Spec.kept_no_new_copy; [apply Ho|].
  - eapply (answered_effect s s' false (p_Address m) m); try done. apply elem_of_app. by left.
Qed.

Lemma delay_effect now s m s' :
  inv s -> 0 <= pts s < 4294967295 -> DELAY_QUEUE_ENABLED = true -> head (l_delay s) = Some m -> id ∈ p_Destination m ->
  tag_block (p_Address m) -> response_ok (abs1 s (p_Address m)) m ->
  L2ResponseDelayQueue_in g DATA_BLOCK XACT_MEMORY NUMBER_OF_TBES CL_FIXED_LEASE id RECORDER
    DELAY_QUEUE_ENABLED now true s = Some (Valid, s') ->
  L1_effect s s'.
Proof using block_line home_bank.
  intros Hinv Hp Hen Hm Hid Ha Hok E.
  destruct (delay_port g DATA_BLOCK XACT_MEMORY NUMBER_OF_TBES CL_FIXED_LEASE id RECORDER DELAY_QUEUE_ENABLED
    home block_line home_bank now true s m Hinv Hen Hm Hid Ha Hok) as (s'' & E' & Hinv' & Ho & Hout).
  rewrite E in E'. injection E' as <-. destruct Hok as (_ & Hw & _).
  eapply (answered_effect s s' true (p_Address m) m); try done. apply elem_of_app. right.
  destruct (l_delay s); [done|]. injection Hm as ->. by left.
Qed.
End l1.

(** ** What a bank sends and keeps *)
Section l2.
Context {C : Type} `{TA : TagArray C L2Entry} `{TL : !TagArrayLaws C L2Entry default}.
Variables (g : Globals) (DATA_BLOCK XACT_MEMORY : bool) (NUMBER_OF_TBES id : Z) (mem : Z -> list Z).
Hypothesis block_line : forall a, tag_block a -> is_line g a = true.
Implicit Types (s : L2 C) (a b : Z).
Abbreviation inv := (RccL2Safe.L2_inv g NUMBER_OF_TBES mem).
Abbreviation memory s := (RccL2Safe.memory_after mem (k_fetch s)).

(** What a port of the bank may do, seen from the rest of the system. *)
Record L2_effect s s' : Prop := {
  eff2_inv : inv s';
  eff2_order : RccL2Safe.in_order (k_out s');
  eff2_out : k_out s' = k_out s \/ exists p, k_out s' = k_out s ++ [p];
  eff2_in m : m ∈ k_requests s' -> m ∈ k_requests s }.

Lemma request_effect now s m r s' :
  inv s -> RccL2Safe.in_order (k_out s) -> head (k_requests s) = Some m -> RccL2Safe.addressed id m ->
  tag_block (q_Address m) -> RccL2Safe.request_ok g (memory s (q_Address m)) (abs2 s (q_Address m)) m ->
  L1RequestIntraChipL2Network_in g DATA_BLOCK XACT_MEMORY NUMBER_OF_TBES id now s = Some (r, s') -> L2_effect s s'.
Proof using block_line.
  intros Hinv Hord Hm Hadr Ha Hreq E.
  destruct (RccL2Safe.request_port g DATA_BLOCK XACT_MEMORY NUMBER_OF_TBES id mem block_line now s m Hinv Hm Hadr Ha Hreq)
    as (r' & s'' & E' & Hinv' & Hout & Hord').
  rewrite E in E'. injection E' as <- <-. destruct r.
  - destruct Hout as [[Hs _]|(_ & v & _ & _ & (_ & _ & _ & Hr & _ & Ho & _) & _)].
    + destruct (RccL2Safe.served_adds g DATA_BLOCK XACT_MEMORY id mem (q_Address m) _ _ m
        (RccL2Safe.wbound_nonneg _ _ _ _ (proj2 Hinv _ Ha)) Hs) as [Hadd _].
      destruct Hs as (Hr & _). simpl in Hr. split; [done|by apply Hord'| |].
      * destruct Hadd as [Hadd|(p & Hadd & _)]; [by left|right; by exists p].
      * rewrite Hr. destruct (k_requests s); [done|by right].
    + simpl in Hr, Ho. split; [done|by apply Hord'|by left|by rewrite Hr].
  - destruct Hout as [-> _]. by split; auto.
  - destruct Hout as [-> _]. by split; auto.
Qed.

Lemma memory_effect now s mm t r s' :
  inv s -> RccL2Safe.in_order (k_out s) -> head (k_memory s) = Some mm -> tag_block (mm_Address mm) ->
  k_tbes s !! mm_Address mm = Some t -> RccL2Safe.memory_ok (memory s (mm_Address mm)) (abs2 s (mm_Address mm)) mm ->
  memQueue_in g DATA_BLOCK XACT_MEMORY NUMBER_OF_TBES id now s = Some (r, s') -> L2_effect s s'.
Proof using block_line.
  intros Hinv Hord Hm Ha Ht Hok E.
  destruct (RccL2Safe.memory_port g DATA_BLOCK XACT_MEMORY NUMBER_OF_TBES id mem block_line now s mm t Hinv Hm Ha Ht Hok)
    as (s'' & E' & Hinv' & Hs & _ & Hord').
  rewrite E in E'. injection E' as -> ->.
  destruct Hs as (Hr & _ & _ & _ & _ & _ & _ & _ & _ & Hs). specialize (Hs t Ht). simpl in Hr.
  split; [done|by apply Hord'| |by rewrite Hr].
  destruct (u_State t), (pending_read t); try (by left); right; destruct Hs as (p & Hs & _); by exists p.
Qed.

Lemma ack_effect now s mm r s' :
  inv s -> RccL2Safe.in_order (k_out s) -> head (k_memory s) = Some mm -> mm_Type mm = MEMORY_WB ->
  memQueue_in g DATA_BLOCK XACT_MEMORY NUMBER_OF_TBES id now s = Some (r, s') -> L2_effect s s'.
Proof using Type.
  intros Hinv Hord Hm Hty E. unfold memQueue_in in E. rewrite Hm in E. simpl in E. rewrite Hty in E. unfold popMemory in E.
  run E. destruct (k_memory s) as [|m' l]; [done|]. run E0. subst.
  split; [by apply RccL2Safe.ports_inv|done|by left|done].
Qed.
End l2.

(** ** The system *)
Record System (C1 C2 : Type) := mkSystem { y_l1 : list (L1 C1); y_l2 : list (L2 C2) }.
#[global] Arguments mkSystem {C1 C2}.
#[global] Arguments y_l1 {C1 C2}.
#[global] Arguments y_l2 {C1 C2}.

Section system.
Context {C1 : Type} {TA1 : TagArray C1 L1Entry} {TL1 : TagArrayLaws C1 L1Entry default}.
Context {C2 : Type} {TA2 : TagArray C2 L2Entry} {TL2 : TagArrayLaws C2 L2Entry default}.
Variables (g : Globals) (DATA_BLOCK XACT_MEMORY : bool) (L1_TBES L2_TBES CL_FIXED_LEASE : Z)
          (RECORDER DELAY_QUEUE_ENABLED : bool) (DELAY_QUEUE_THRESHOLD : Z).
(** The bank of a block for an L1, and memory at the start, by bank. *)
Variables (home : Z -> Z -> MachineID) (mem : Z -> Z -> list Z).
Abbreviation block := (@tag_block C1 L1Entry TA1 default TL1).
Abbreviation block2 := (@tag_block C2 L2Entry TA2 default TL2).
Hypothesis same_blocks : forall a, block a <-> block2 a.
Hypothesis block_line : forall a, block a -> is_line g a = true.
Hypothesis home_bank : forall i a, 0 <= i < g_NUM_PROCESSORS g -> block a ->
  map_L1CacheMachId_to_L2Cache g a (RccL1.machineID i) = Some (home i a).
Hypothesis lease_range : 0 <= CL_FIXED_LEASE < 2 ^ 62.
Implicit Types (y : System C1 C2) (i j : nat) (s : L1 C1) (b : L2 C2) (a : Z).

Abbreviation l1_inv := (L1_inv g L1_TBES RECORDER).
Abbreviation l2_inv j := (RccL2Safe.L2_inv g L2_TBES (mem (Z.of_nat j))).
Abbreviation memory j b := (RccL2Safe.memory_after (mem (Z.of_nat j)) (k_fetch b)).
Abbreviation pts s := (tag_getPts (l_cache s)).
Abbreviation sent i := (sent_ok CL_FIXED_LEASE (Z.of_nat i)).

Definition put_l1 y i s : System C1 C2 := mkSystem (<[i := s]> (y_l1 y)) (y_l2 y).
Definition put_l2 y j b : System C1 C2 := mkSystem (y_l1 y) (<[j := b]> (y_l2 y)).

(** What a bank's requests need beyond being sent by an L1: room for the
    lease, one memory space per block, and copies claimed live that are not older than the
    last write. *)
Definition request_env b (m : RequestMsg) : Prop :=
  let x := abs2 b (q_Address m) in
  RccL2Safe.rbound x + q_deltaRequested m + 1 < 2 ^ 63 /\
  (forall t, RccL2Spec.x_tbe x = Some t -> u_Space t = q_Space m) /\ RccL2Spec.claim_ok x m = true.

(** One step of the system: the core issues a request; the network brings a
    message that was sent, in any order; a port of an L1 or of a bank runs; memory
    answers. *)
Inductive sys_step : relation (System C1 C2) :=
  | step_issue y i s c : y_l1 y !! i = Some s ->
      sys_step y (put_l1 y i (set_lports s (l_mandatory s ++ [c]) (l_responses s) (l_delay s)))
  | step_response_arrives y i s j b p : y_l1 y !! i = Some s -> y_l2 y !! j = Some b ->
      p ∈ k_out b -> Z.of_nat i ∈ p_Destination p ->
      sys_step y (put_l1 y i (set_lports s (l_mandatory s) (l_responses s ++ [p]) (l_delay s)))
  | step_request_arrives y i s j b q : y_l1 y !! i = Some s -> y_l2 y !! j = Some b ->
      q ∈ l_out s -> q_Destination q = bankID (Z.of_nat j) ->
      sys_step y (put_l2 y j (set_kports b (k_requests b ++ [q]) (k_memory b)))
  | step_memory_arrives y j b mm : y_l2 y !! j = Some b ->
      sys_step y (put_l2 y j (set_kports b (k_requests b) (k_memory b ++ [mm])))
  | step_mandatory y i s now m r s' : y_l1 y !! i = Some s ->
      head (l_mandatory s) = Some m -> block (c_Address m) -> RccL1Safe.request_ok (abs1 s (c_Address m)) m ->
      mandatoryQueue_in g DATA_BLOCK XACT_MEMORY L1_TBES CL_FIXED_LEASE (Z.of_nat i) RECORDER now s = Some (r, s') ->
      sys_step y (put_l1 y i s')
  | step_response y i s now m s' : y_l1 y !! i = Some s ->
      head (l_responses s) = Some m -> block (p_Address m) -> response_ok (abs1 s (p_Address m)) m ->
      responseIntraChipL1Network_in g DATA_BLOCK XACT_MEMORY L1_TBES CL_FIXED_LEASE (Z.of_nat i) RECORDER
        DELAY_QUEUE_ENABLED DELAY_QUEUE_THRESHOLD now s = Some (Valid, s') ->
      sys_step y (put_l1 y i s')
  | step_delayed y i s now m s' : y_l1 y !! i = Some s -> DELAY_QUEUE_ENABLED = true ->
      head (l_delay s) = Some m -> block (p_Address m) -> response_ok (abs1 s (p_Address m)) m ->
      L2ResponseDelayQueue_in g DATA_BLOCK XACT_MEMORY L1_TBES CL_FIXED_LEASE (Z.of_nat i) RECORDER
        DELAY_QUEUE_ENABLED now true s = Some (Valid, s') ->
      sys_step y (put_l1 y i s')
  | step_request y j b now m r b' : y_l2 y !! j = Some b ->
      head (k_requests b) = Some m -> block (q_Address m) -> request_env b m ->
      L1RequestIntraChipL2Network_in g DATA_BLOCK XACT_MEMORY L2_TBES (Z.of_nat j) now b = Some (r, b') ->
      sys_step y (put_l2 y j b')
  | step_memory y j b now mm t r b' : y_l2 y !! j = Some b ->
      head (k_memory b) = Some mm -> block (mm_Address mm) -> k_tbes b !! mm_Address mm = Some t ->
      RccL2Safe.memory_ok (memory j b (mm_Address mm)) (abs2 b (mm_Address mm)) mm ->
      memQueue_in g DATA_BLOCK XACT_MEMORY L2_TBES (Z.of_nat j) now b = Some (r, b') ->
      sys_step y (put_l2 y j b')
  | step_ack y j b now mm r b' : y_l2 y !! j = Some b -> head (k_memory b) = Some mm -> mm_Type mm = MEMORY_WB ->
      memQueue_in g DATA_BLOCK XACT_MEMORY L2_TBES (Z.of_nat j) now b = Some (r, b') ->
      sys_step y (put_l2 y j b').

(** A lease that a bank granted to L1 number [i] on block [a]. *)
Definition granted y i a (rts wts_max : Z) : Prop :=
  exists j b p, y_l2 y !! j = Some b /\ p ∈ k_out b /\ Z.of_nat i ∈ p_Destination p /\
    p_Address p = a /\ p_Type p = DATA /\ p_rts p = rts /\ p_wts p <= wts_max.

(** The invariant of the system: its controllers satisfy theirs, queues hold
    what was sent, and every readable copy was granted. *)
Record sys_ok y : Prop := {
  ok_size : Z.of_nat (length (y_l1 y)) <= g_NUM_PROCESSORS g;
  ok_l1 i s : y_l1 y !! i = Some s -> l1_inv s /\ 0 <= pts s < 4294967295;
  ok_l2 j b : y_l2 y !! j = Some b -> l2_inv j b /\ RccL2Safe.in_order (k_out b);
  ok_sent i s q : y_l1 y !! i = Some s -> q ∈ l_out s -> sent i q;
  ok_requests j b q : y_l2 y !! j = Some b -> q ∈ k_requests b ->
    exists i, (i < length (y_l1 y))%nat /\ sent i q /\ q_Destination q = bankID (Z.of_nat j);
  ok_responses i s p : y_l1 y !! i = Some s -> p ∈ l_responses s ++ l_delay s ->
    exists j b, y_l2 y !! j = Some b /\ p ∈ k_out b /\ Z.of_nat i ∈ p_Destination p;
  ok_copies i s a : y_l1 y !! i = Some s -> block a -> readable (abs1 s a) = true ->
    granted y i a (copy_rts (abs1 s a)) (pts s);
}.

Lemma granted_weaken y i a r w w' : w <= w' -> granted y i a r w -> granted y i a r w'.
Proof using Type. intros Hw (j & b & p & ? & ? & ? & ? & ? & ? & ?). exists j, b, p. split_and!; done || lia. Qed.

(** A step of one L1 ... *)
Lemma put_l1_ok y i s s' :
  sys_ok y -> y_l1 y !! i = Some s -> l1_inv s' -> pts s <= pts s' < 4294967295 ->
  (forall q, q ∈ l_out s' -> sent i q) ->
  (forall p, p ∈ l_responses s' ++ l_delay s' ->
     exists j b, y_l2 y !! j = Some b /\ p ∈ k_out b /\ Z.of_nat i ∈ p_Destination p) ->
  (forall a, block a -> readable (abs1 s' a) = true -> granted y i a (copy_rts (abs1 s' a)) (pts s')) ->
  sys_ok (put_l1 y i s').
Proof using Type.
  intros [Hsz H1 H2 Hse Hrq Hrs Hc] Hi Hinv Hp Hout Hin Hcop. destruct (H1 i s Hi) as [_ Hps].
  split; simpl; try done; rewrite ?length_insert; try done.
  - intros k s0. rewrite list_lookup_insert_Some. intros [(<- & <- & _)|[_ Hk]]; [split; [done|lia]|by apply (H1 k)].
  - intros k s0 q. rewrite list_lookup_insert_Some. intros [(<- & <- & _)|[_ Hk]]; [by apply Hout|by eapply Hse].
  - intros k s0 p. rewrite list_lookup_insert_Some. intros [(<- & <- & _)|[_ Hk]]; [by apply Hin|by eapply Hrs].
  - intros k s0 a. rewrite list_lookup_insert_Some. intros [(<- & <- & _)|[_ Hk]]; [by apply Hcop|by eapply Hc].
Qed.

Lemma effect_ok y i s s' :
  sys_ok y -> y_l1 y !! i = Some s -> L1_effect g L1_TBES CL_FIXED_LEASE (Z.of_nat i) RECORDER s s' ->
  sys_ok (put_l1 y i s').
Proof using Type.
  intros Hok Hi [Hinv Hp Hout Hin Hcop]. apply (put_l1_ok y i s s'); try done.
  - intros q Hq. destruct Hout as [E|(q' & E & Hsent)]; rewrite E in Hq; [by eapply (ok_sent y)|].
    apply elem_of_app in Hq as [Hq|Hq%list_elem_of_singleton]; [by eapply (ok_sent y)|by subst].
  - intros p Hp'. apply (ok_responses y Hok i s p Hi), Hin, Hp'.
  - intros a Ha Hr. destruct (Hcop a Ha Hr) as [[Hr' Heq]|(p & Hpin & Hty & Hpa & Hrts & Hw)].
    + rewrite Heq. eapply granted_weaken; [apply Hp|by apply (ok_copies y Hok i s a)].
    + destruct (ok_responses y Hok i s p Hi Hpin) as (j & b & Hj & Hpo & Hd). exists j, b, p. by split_and!.
Qed.

(** ... and of one bank. *)
Lemma put_l2_ok y j b b' :
  sys_ok y -> y_l2 y !! j = Some b -> l2_inv j b' -> RccL2Safe.in_order (k_out b') ->
  (forall p, p ∈ k_out b -> p ∈ k_out b') ->
  (forall q, q ∈ k_requests b' -> exists i, (i < length (y_l1 y))%nat /\ sent i q /\ q_Destination q = bankID (Z.of_nat j)) ->
  sys_ok (put_l2 y j b').
Proof using Type.
  intros [Hsz H1 H2 Hse Hrq Hrs Hc] Hj Hinv Hord Hout Hin.
  assert (forall k c p, y_l2 y !! k = Some c -> p ∈ k_out c -> exists c', <[j := b']> (y_l2 y) !! k = Some c' /\ p ∈ k_out c') as Hmono.
  { intros k c p Hk Hp. destruct (decide (j = k)) as [<-|Hne].
    - exists b'. rewrite list_lookup_insert_eq by (by eapply lookup_lt_Some). rewrite Hj in Hk. injection Hk as ->. auto.
    - exists c. by rewrite list_lookup_insert_ne. }
  split; simpl; try done.
  - intros k c. rewrite list_lookup_insert_Some. intros [(<- & <- & _)|[_ Hk]]; [done|by apply H2].
  - intros k c q. rewrite list_lookup_insert_Some. intros [(<- & <- & _)|[_ Hk]]; [by apply Hin|by eapply Hrq].
  - intros i s p Hi Hp. destruct (Hrs i s p Hi Hp) as (k & c & Hk & Hpc & Hd).
    destruct (Hmono k c p Hk Hpc) as (c' & ? & ?). by exists k, c'.
  - intros i s a Hi Ha Hr. destruct (Hc i s a Hi Ha Hr) as (k & c & p & Hk & Hpc & Hd).
    destruct (Hmono k c p Hk Hpc) as (c' & ? & ?). by exists k, c', p.
Qed.

Lemma effect2_ok y j b b' :
  sys_ok y -> y_l2 y !! j = Some b -> L2_effect g L2_TBES (mem (Z.of_nat j)) b b' -> sys_ok (put_l2 y j b').
Proof using Type.
  intros Hok Hj [Hinv Hord Hout Hin]. apply (put_l2_ok y j b b'); try done.
  - intros p Hp. destruct Hout as [->|(p' & ->)]; [done|]. apply elem_of_app. by left.
  - intros q Hq. apply (ok_requests y Hok j b q Hj), Hin, Hq.
Qed.

(** What an L1 sent is what a bank expects. *)
Lemma sent_request_ok y j b m i :
  sys_ok y -> y_l2 y !! j = Some b -> block (q_Address m) -> request_env b m ->
  (i < length (y_l1 y))%nat -> sent i m -> q_Destination m = bankID (Z.of_nat j) ->
  RccL2Safe.addressed (Z.of_nat j) m /\
  RccL2Safe.request_ok g (memory j b (q_Address m)) (abs2 b (q_Address m)) m.
Proof using lease_range.
  intros Hok Hj Ha (Hr & Hsp & Hcl) Hi (Hreq & Hp & Hty) Hd. pose proof (ok_size y Hok) as Hsz.
  split; [split; [by rewrite Hreq|done]|]. unfold RccL2Safe.request_ok. rewrite Hreq. simpl.
  assert (0 <= q_deltaRequested m < 2 ^ 62) as Hdl.
  { destruct (q_Type m); try done; [rewrite Hty|destruct Hty as [_ ->]|destruct Hty as [_ ->]]; lia. }
  split_and!; try done; try lia.
  destruct (q_Type m); try done; by destruct Hty.
Qed.

Lemma in_range y i s : sys_ok y -> y_l1 y !! i = Some s -> 0 <= Z.of_nat i < g_NUM_PROCESSORS g.
Proof using Type. intros Hok Hi%lookup_lt_Some. pose proof (ok_size y Hok). lia. Qed.

Lemma sys_step_ok y y' : sys_step y y' -> sys_ok y -> sys_ok y'.
Proof using same_blocks block_line home_bank lease_range.
  intros Hstep Hok.
  assert (forall a, block2 a -> is_line g a = true) as block_line2 by (intros a Ha; apply block_line, same_blocks, Ha).
  destruct Hstep as [y i s c Hi|y i s j b p Hi Hj Hp Hd|y i s j b q Hi Hj Hq Hd|y j b mm Hj
    |y i s now m r s' Hi Hm Ha Hr E|y i s now m s' Hi Hm Ha Hr E|y i s now m s' Hi Hen Hm Ha Hr E
    |y j b now m r b' Hj Hm Ha Hr E|y j b now mm t r b' Hj Hm Ha Ht Hr E|y j b now mm r b' Hj Hm Hty E].
  - destruct (ok_l1 y Hok i s Hi) as [Hinv Hp].
    apply (put_l1_ok y i s); try done; [by apply L1_ports_inv|split; [done|apply Hp]|..].
    + intros q Hq. by eapply (ok_sent y).
    + intros p Hp'. by apply (ok_responses y Hok i s p Hi).
    + intros a Ha Hr. by apply (ok_copies y Hok i s a Hi).
  - destruct (ok_l1 y Hok i s Hi) as [Hinv Hpt].
    apply (put_l1_ok y i s); try done; [by apply L1_ports_inv|split; [done|apply Hpt]|..].
    + intros q Hq. by eapply (ok_sent y).
    + intros p' [[Hp'|Hp'%list_elem_of_singleton]%elem_of_app|Hp']%elem_of_app; [|subst; by exists j, b|];
        apply (ok_responses y Hok i s p' Hi), elem_of_app; auto.
    + intros a Ha Hr. by apply (ok_copies y Hok i s a Hi).
  - destruct (ok_l2 y Hok j b Hj) as [Hinv Hord].
    apply (put_l2_ok y j b); try done; [by apply RccL2Safe.ports_inv|].
    intros q' [Hq'|Hq'%list_elem_of_singleton]%elem_of_app; [by apply (ok_requests y Hok j b q' Hj)|subst].
    exists i. split; [by eapply lookup_lt_Some|]. split; [by eapply (ok_sent y)|done].
  - destruct (ok_l2 y Hok j b Hj) as [Hinv Hord].
    apply (put_l2_ok y j b); try done; [by apply RccL2Safe.ports_inv|].
    intros q' Hq'. by apply (ok_requests y Hok j b q' Hj).
  - destruct (ok_l1 y Hok i s Hi) as [Hinv Hp]. apply (effect_ok y i s); [done..|].
    by eapply (mandatory_effect g DATA_BLOCK XACT_MEMORY L1_TBES CL_FIXED_LEASE (Z.of_nat i) RECORDER (home (Z.of_nat i))
      block_line (fun a => home_bank (Z.of_nat i) a (in_range y i s Hok Hi))).
  - destruct (ok_l1 y Hok i s Hi) as [Hinv Hp]. apply (effect_ok y i s); [done..|].
    eapply (response_effect g DATA_BLOCK XACT_MEMORY L1_TBES CL_FIXED_LEASE (Z.of_nat i) RECORDER DELAY_QUEUE_ENABLED
      DELAY_QUEUE_THRESHOLD (home (Z.of_nat i)) block_line (fun a => home_bank (Z.of_nat i) a (in_range y i s Hok Hi))); try done.
    destruct (ok_responses y Hok i s m Hi) as (j & b & _ & _ & ?); [|done].
    apply elem_of_app. left. destruct (l_responses s); [done|]. injection Hm as ->. by left.
  - destruct (ok_l1 y Hok i s Hi) as [Hinv Hp]. apply (effect_ok y i s); [done..|].
    eapply (delay_effect g DATA_BLOCK XACT_MEMORY L1_TBES CL_FIXED_LEASE (Z.of_nat i) RECORDER DELAY_QUEUE_ENABLED
      (home (Z.of_nat i)) block_line (fun a => home_bank (Z.of_nat i) a (in_range y i s Hok Hi))); try done.
    destruct (ok_responses y Hok i s m Hi) as (j & b & _ & _ & ?); [|done].
    apply elem_of_app. right. destruct (l_delay s); [done|]. injection Hm as ->. by left.
  - destruct (ok_l2 y Hok j b Hj) as [Hinv Hord]. apply (effect2_ok y j b); [done..|].
    destruct (ok_requests y Hok j b m Hj) as (i & Hi & Hs & Hd);
      [destruct (k_requests b); [done|]; injection Hm as ->; by left|].
    destruct (sent_request_ok y j b m i) as [Had Hreq]; [done..|].
    eapply (request_effect g DATA_BLOCK XACT_MEMORY L2_TBES (Z.of_nat j) _ block_line2); try done. by apply same_blocks.
  - destruct (ok_l2 y Hok j b Hj) as [Hinv Hord]. apply (effect2_ok y j b); [done..|].
    eapply (memory_effect g DATA_BLOCK XACT_MEMORY L2_TBES (Z.of_nat j) _ block_line2); try done. by apply same_blocks.
  - destruct (ok_l2 y Hok j b Hj) as [Hinv Hord]. apply (effect2_ok y j b); [done..|].
    by eapply (ack_effect g DATA_BLOCK XACT_MEMORY L2_TBES (Z.of_nat j)).
Qed.

Lemma reachable_ok y0 y : sys_ok y0 -> rtc sys_step y0 y -> sys_ok y.
Proof using same_blocks block_line home_bank lease_range.
  intros H0 Hsteps. induction Hsteps as [|y1 y2 y3 Hs _ IH]; [done|]. by apply IH, (sys_step_ok y1).
Qed.

(** C1: timestamp order across the system. Whatever cores, network, ports and memory
    do, a copy a load may hit was granted to this L1 by a bank; the L1's clock, which is
    the time of the load, lies in the lease; it is not before any write of the block that
    the bank ordered before the grant, and not after any write the bank acknowledged
    later. So hits under live leases never contradict the order of writes, although no
    copy is ever invalidated. *)
Theorem load_between_writes y0 y i s a :
  sys_ok y0 -> rtc sys_step y0 y -> y_l1 y !! i = Some s -> block a -> readable (abs1 s a) = true ->
  exists j b before p after, y_l2 y !! j = Some b /\ k_out b = before ++ p :: after /\
    p_Type p = DATA /\ p_Address p = a /\ Z.of_nat i ∈ p_Destination p /\ p_wts p <= pts s <= p_rts p /\
    (forall w, w ∈ before -> p_Address w = a -> p_wts w <= pts s) /\
    (forall w, w ∈ after -> p_Address w = a -> p_Type w <> DATA -> pts s <= p_wts w).
Proof using same_blocks block_line home_bank lease_range.
  intros H0 Hsteps Hi Ha Hr. pose proof (reachable_ok y0 y H0 Hsteps) as Hok.
  destruct (ok_copies y Hok i s a Hi Ha Hr) as (j & b & p & Hj & Hp & Hd & Hpa & Hty & Hrts & Hw).
  destruct (ok_l2 y Hok j b Hj) as [_ Hord].
  apply list_elem_of_split in Hp as (before & after & Hout). exists j, b, before, p, after.
  apply RccL1Spec.readable_live in Hr. simpl in Hr. split_and!; try done; [lia| |].
  - intros w Hin Hwa. destruct (Hord before p after w Hout Hin) as [? _]; [congruence|lia].
  - intros w (l1 & l2 & ->)%list_elem_of_split Hwa Hwt.
    destruct (Hord (before ++ p :: l1) w l2 p) as [_ Hlt]; [by rewrite Hout, <-app_assoc| |congruence|specialize (Hlt Hwt Hty); lia].
    apply elem_of_app. right. by left.
Qed.
End system.

(** ** A concrete system *)
(** Two L1s and bank number 0 of the small GPU; a core loads block 0x400. *)
Lemma home_of_L1 i a : 0 <= i < g_NUM_PROCESSORS default_config -> line_ok default_config a ->
  map_L1CacheMachId_to_L2Cache default_config a (RccL1.machineID i) = Some (home_of i a).
Proof.
  intros Hi [Ha _]. change (g_NUM_PROCESSORS default_config) with 16 in Hi. unfold home_of.
  pose proof (L1_bank_total default_config default_config_wf ltac:(vm_compute; split; done) a 0 i Ha
    ltac:(vm_compute; split; congruence) ltac:(change (g_PROCS_PER_CHIP default_config) with 16; lia)) as E.
  replace (0 * g_PROCS_PER_CHIP default_config + i) with i in E by lia. unfold RccL1.machineID. by rewrite E.
Qed.

#[local] Instance sys_tags1 : TagArray (CacheMemory LastRef L1Entry) L1Entry := CacheMemory_TagArray default_config true false.
#[local] Instance sys_laws1 : TagArrayLaws (CacheMemory LastRef L1Entry) L1Entry default := CacheMemory_laws default_config true false.
#[local] Instance sys_tags2 : TagArray (CacheMemory LastRef L2Entry) L2Entry := CacheMemory_TagArray default_config true false.
#[local] Instance sys_laws2 : TagArrayLaws (CacheMemory LastRef L2Entry) L2Entry default := CacheMemory_laws default_config true false.

Abbreviation memories := (fun _ : Z => RccL2Safe.memory0).
Abbreviation step := (sys_step default_config true false 4 4 10 false true 100 memories).
Abbreviation L1_state := (L1 (CacheMemory LastRef L1Entry)).
Abbreviation L2_state := (L2 (CacheMemory LastRef L2Entry)).
Abbreviation System_state := (System (CacheMemory LastRef L1Entry) (CacheMemory LastRef L2Entry)).

Definition L1_idle : L1_state := set_lports L1_start [] [] [].
Definition L2_idle : L2_state := RccL2Safe.L2_start [].
Definition start : System_state := mkSystem [L1_idle; L1_idle] [L2_idle].

(** The moves of the system, as a function. *)
Inductive Move :=
  | Issue (i : nat) (c : CacheMsg) | Core (i : nat)
  | BringRequest (i j n : nat) | BankRequest (j : nat)
  | BringMemory (j : nat) (mm : MemoryMsg) | BankMemory (j : nat)
  | BringResponse (i j n : nat) | Answer (i : nat).

Definition line_okb (a : Z) : bool := (0 <=? a) && (a <? 2 ^ 64) && is_line default_config a.
Definition issue_okb (x : RccL1Spec.Blk) (m : CacheMsg) : bool :=
  negb (c_profiled m) && (Z.of_nat (length (RccL1Spec.b_stores x)) <? 2 ^ 31 - 1) &&
  match c_Type m with LD => bool_decide (RccL1Spec.b_loads x = []) | ST | ATOMIC => true | _ => false end.
Definition answer_okb (x : RccL1Spec.Blk) (m : ResponseMsg) : bool :=
  (RccL1Spec.b_pts x <? 4294967295) && (p_wts m <? 4294967295) &&
  match p_Type m with
  | DATA => negb (bool_decide (RccL1Spec.b_loads x = []))
  | DATA_ATOMIC | ACK => negb (bool_decide (RccL1Spec.b_stores x = []))
  | _ => false
  end.
Definition request_envb (x : RccL2Spec.Bank) (m : RequestMsg) : bool :=
  (RccL2Safe.rbound x + q_deltaRequested m + 1 <? 2 ^ 63) &&
  match RccL2Spec.x_tbe x with Some t => bool_decide (u_Space t = q_Space m) | None => true end && RccL2Spec.claim_ok x m.
Definition memory_okb (data : list Z) (x : RccL2Spec.Bank) (mm : MemoryMsg) (t : L2TBE) : bool :=
  bool_decide (mm_Type mm = MEMORY_READ) && bool_decide (mm_DataBlk mm = data) &&
  (max_read_pts t + deltaRequested t <? 2 ^ 63) && (RccL2Safe.rbound x + deltaRequested t <? 2 ^ 63).

Definition play (now : Z) (mv : Move) (y : System_state) : option System_state :=
  match mv with
  | Issue i c =>
      s ← y_l1 y !! i; Some (put_l1 y i (set_lports s (l_mandatory s ++ [c]) (l_responses s) (l_delay s)))
  | Core i =>
      s ← y_l1 y !! i; m ← head (l_mandatory s);
      assert! line_okb (c_Address m); assert! issue_okb (abs1 s (c_Address m)) m;
      '(_, s') ← mandatoryQueue_in default_config true false 4 10 (Z.of_nat i) false now s;
      Some (put_l1 y i s')
  | BringRequest i j n =>
      s ← y_l1 y !! i; b ← y_l2 y !! j; q ← l_out s !! n;
      assert! bool_decide (q_Destination q = bankID (Z.of_nat j));
      Some (put_l2 y j (set_kports b (k_requests b ++ [q]) (k_memory b)))
  | BankRequest j =>
      b ← y_l2 y !! j; m ← head (k_requests b);
      assert! line_okb (q_Address m); assert! request_envb (abs2 b (q_Address m)) m;
      '(_, b') ← L1RequestIntraChipL2Network_in default_config true false 4 (Z.of_nat j) now b;
      Some (put_l2 y j b')
  | BringMemory j mm => b ← y_l2 y !! j; Some (put_l2 y j (set_kports b (k_requests b) (k_memory b ++ [mm])))
  | BankMemory j =>
      b ← y_l2 y !! j; mm ← head (k_memory b); t ← k_tbes b !! mm_Address mm;
      assert! line_okb (mm_Address mm);
      assert! memory_okb (RccL2Safe.memory_after RccL2Safe.memory0 (k_fetch b) (mm_Address mm)) (abs2 b (mm_Address mm)) mm t;
      '(_, b') ← memQueue_in default_config true false 4 (Z.of_nat j) now b;
      Some (put_l2 y j b')
  | BringResponse i j n =>
      s ← y_l1 y !! i; b ← y_l2 y !! j; p ← k_out b !! n;
      assert! bool_decide (Z.of_nat i ∈ p_Destination p);
      Some (put_l1 y i (set_lports s (l_mandatory s) (l_responses s ++ [p]) (l_delay s)))
  | Answer i =>
      s ← y_l1 y !! i; m ← head (l_responses s);
      assert! line_okb (p_Address m); assert! answer_okb (abs1 s (p_Address m)) m;
      '(r, s') ← responseIntraChipL1Network_in default_config true false 4 10 (Z.of_nat i) false true 100 now s;
      match r with Valid => Some (put_l1 y i s') | _ => None end
  end.
Fixpoint play_all (now : Z) (mvs : list Move) (y : System_state) : option System_state :=
  match mvs with [] => Some y | mv :: mvs => y ← play now mv y; play_all (now + 1) mvs y end.

Lemma line_0x400 : line_ok default_config 0x400.
Proof. apply line_ok_L1. set_solver. Qed.

Lemma start_ok : sys_ok default_config 4 4 10 false memories start.
Proof.
  assert (forall i s, y_l1 start !! i = Some s -> s = L1_idle) as H1 by (intros [|[|i]] s [= <-]; done).
  assert (forall j b, y_l2 start !! j = Some b -> b = L2_idle) as H2 by (intros [|j] b [= <-]; done).
  split.
  - by vm_compute.
  - intros i s ->%H1. split; [apply L1_ports_inv, L1_start_inv|by vm_compute].
  - intros j b ->%H2. split; [apply RccL2Safe.L2_start_inv|]. intros l1 p l2 q Heq. by destruct l1.
  - intros i s q ->%H1 Hq. by apply elem_of_nil in Hq.
  - intros j b q ->%H2 Hq. by apply elem_of_nil in Hq.
  - intros i s p ->%H1 Hp. by apply elem_of_nil in Hp.
  - intros i s a ->%H1 Ha Hr. exfalso. destruct (L1_start_inv) as [_ Hok]. specialize (Hok a Ha).
    assert (RccL1Spec.b_tbe (abs1 L1_idle a) = None) as Ht by (simpl; apply lookup_empty).
    assert (RccL1Spec.b_entry (abs1 L1_idle a) = None) as He.
    { change (lookup default_config L1_cache0 a = None). apply CacheMemory_new_inv; [by left|done|done| | | |exact Ha].
      - apply (LastRef_new_ok 4 2); vm_compute; congruence.
      - vm_compute; congruence.
      - by vm_compute. }
    unfold RccL1Spec.readable, RccL1Spec.blk_state in Hr. rewrite Ht, He in Hr. by rewrite andb_false_r in Hr.
Qed.

(** Moves are steps. *)
Lemma line_okb_ok a : line_okb a = true -> line_ok default_config a.
Proof. unfold line_okb. intros [[]%andb_true_iff ?]%andb_true_iff. split; [split; lia|done]. Qed.

Ltac split_checks :=
  repeat match goal with
  | H : _ && _ = true |- _ => apply andb_true_iff in H as [? ?]
  | H : bool_decide _ = true |- _ => apply bool_decide_eq_true in H
  | H : negb _ = true |- _ => apply negb_true_iff in H
  | H : bool_decide _ = false |- _ => apply bool_decide_eq_false in H
  end.

Lemma play_step now mv y y' : play now mv y = Some y' -> step y y'.
Proof.
  intros H. destruct mv; simpl in H.
  - run H. subst. by eapply step_issue.
  - run H. destruct x1 as [r s']. run H. subst. eapply step_mandatory; [done|done|by apply line_okb_ok| |done].
    unfold issue_okb in *. split_checks. split_and!; [done|lia|]. destruct (c_Type _); try done. by split_checks.
  - run H. subst. split_checks. eapply step_request_arrives; [done|done|by eapply list_elem_of_lookup_2|done].
  - run H. destruct x1 as [r b']. run H. subst. eapply step_request; [done|done|by apply line_okb_ok| |done].
    unfold request_envb in *. split_checks. split_and!; [lia| |done]. intros t Ht. rewrite Ht in *. by split_checks.
  - run H. subst. by eapply step_memory_arrives.
  - run H. destruct x2 as [r b']. run H. subst. eapply step_memory; [done|done|by apply line_okb_ok|done| |done].
    unfold memory_okb in *. split_checks. split_and!; [done|done|]. eexists. split_and!; [done|lia|lia].
  - run H. subst. split_checks. eapply step_response_arrives; [done|done|by eapply list_elem_of_lookup_2|done].
  - run H. destruct x1 as [[] s']; [|done..]. run H. subst. eapply step_response; [done|done|by apply line_okb_ok| |done].
    unfold answer_okb in *. split_checks. split_and!; [lia|lia|]. destruct (p_Type _); try done; by split_checks.
Qed.

Lemma play_all_steps mvs : forall now y y', play_all now mvs y = Some y' -> rtc step y y'.
Proof.
  induction mvs as [|mv mvs IH]; intros now y y' H; simpl in H; [by injection H as <-|].
  apply bind_Some in H as (y1 & H1 & H2). eapply rtc_l; [by eapply play_step|by eapply IH].
Qed.

(** A load that goes to memory and comes back. *)
Definition load (a req : Z) : CacheMsg := mkCacheMsg a LD 4 GLOBAL 3 req 1 7 false 99.
Definition store (a req : Z) : CacheMsg := mkCacheMsg a ST 4 GLOBAL 3 req 1 7 false 99.
Definition from_memory (a : Z) : MemoryMsg := mkMemoryMsg a MEMORY_READ (bankID 0) (bankID 0) (RccL2Safe.memory0 a).
Definition load_sent : list Move := [Issue 0 (load 0x400 1); Core 0; BringRequest 0 0 0].
Definition load_done : list Move :=
  load_sent ++ [BankRequest 0; BringMemory 0 (from_memory 0x400); BankMemory 0; BringResponse 0 0 0; Answer 0].
Definition y_sent : System_state := from_option (fun y => y) start (play_all 1 load_sent start).
Definition y_done : System_state := from_option (fun y => y) start (play_all 1 load_done start).
Definition l1_of (y : System_state) (i : nat) : L1_state := from_option (fun s => s) L1_idle (y_l1 y !! i).
Definition l2_of (y : System_state) (j : nat) : L2_state := from_option (fun s => s) L2_idle (y_l2 y !! j).

Lemma load_between_writes_witness :
  y_l1 y_done !! 0%nat = Some (l1_of y_done 0) /\ readable (abs1 (l1_of y_done 0) 0x400) = true /\
  exists j b before p after, y_l2 y_done !! j = Some b /\ k_out b = before ++ p :: after /\
    p_Type p = DATA /\ p_Address p = 0x400 /\ Z.of_nat 0 ∈ p_Destination p /\
    p_wts p <= tag_getPts (l_cache (l1_of y_done 0)) <= p_rts p /\
    (forall w, w ∈ before -> p_Address w = 0x400 -> p_wts w <= tag_getPts (l_cache (l1_of y_done 0))) /\
    (forall w, w ∈ after -> p_Address w = 0x400 -> p_Type w <> DATA -> tag_getPts (l_cache (l1_of y_done 0)) <= p_wts w).
Proof.
  assert (y_l1 y_done !! 0%nat = Some (l1_of y_done 0)) as Hi by (vm_compute; reflexivity).
  assert (readable (abs1 (l1_of y_done 0) 0x400) = true) as Hr by (vm_compute; reflexivity).
  split; [exact Hi|split; [exact Hr|]].
  apply (load_between_writes (TL1 := sys_laws1) (TL2 := sys_laws2) default_config true false 4 4 10 false true 100 home_of memories
    (fun a => iff_refl _) block_is_line home_of_L1 ltac:(lia) start y_done 0%nat (l1_of y_done 0) 0x400 start_ok); [|exact Hi|exact line_0x400|exact Hr].
  apply (play_all_steps load_done 1). vm_compute. reflexivity.
Defined.

(** ** A stale read *)
(** Blocks 0x400, 0x1400 and 0x2400 share a set of the bank. Core 0 loads X at
    0x400; core 1 loads the other two, which evicts X, then stores X and, after the
    acknowledgement, Y at 0x800; core 0 loads Y, and then X again. *)
Definition fetch (i : nat) (c : CacheMsg) (req resp : nat) : list Move :=
  [Issue i c; Core i; BringRequest i 0 req; BankRequest 0; BringMemory 0 (from_memory (c_Address c)); BankMemory 0;
   BringResponse i 0 resp; Answer i].
Definition store_done (req resp evict : nat) (c : CacheMsg) : list Move :=
  [Issue 1 c; Core 1; BringRequest 1 0 req] ++ repeat (BankRequest 0) evict ++
  [BankRequest 0; BringResponse 1 0 resp; Answer 1; BringMemory 0 (from_memory (c_Address c)); BankMemory 0].
Definition message_passing : list Move :=
  fetch 0 (load 0x400 1) 0 0 ++ fetch 1 (load 0x1400 2) 0 1 ++
  [Issue 1 (load 0x2400 3); Core 1; BringRequest 1 0 1; BankRequest 0; BankRequest 0;
   BringMemory 0 (from_memory 0x2400); BankMemory 0; BringResponse 1 0 2; Answer 1] ++
  store_done 2 3 1 (store 0x400 4) ++ store_done 3 4 0 (store 0x800 5) ++
  [Issue 0 (load 0x800 6); Core 0; BringRequest 0 0 1; BankRequest 0; BringResponse 0 0 5; Answer 0].
Definition y_message : System_state := from_option (fun y => y) start (play_all 1 message_passing start).
Definition y_stale : System_state := from_option (fun y => y) start (play_all 100 [Issue 0 (load 0x400 7); Core 0] y_message).
(** What an L1 holds of a block, and what its bank does. *)
Definition held (y : System_state) (i : nat) (a : Z) : option (list Z) := e_DataBlk <$> tag_lookup (l_cache (l1_of y i)) a.
Definition current (y : System_state) (a : Z) : list Z :=
  RccL2Safe.contents (RccL2Safe.memory_after RccL2Safe.memory0 (k_fetch (l2_of y 0)) a) (abs2 (l2_of y 0) a).

(** C2: a read that is too old. After an eviction the bank acknowledges a write at the
    end of the evicted lease, not after it. Core 1 stores X and, once that is
    acknowledged, Y, both at time 10; core 0 reads the new Y, which moves its clock to 10,
    and then still hits on its copy of X, whose lease ends at 10: it reads the value
    from before the store it must have seen. *)
Theorem stale_read_after_message :
  rtc step start y_message /\ rtc step y_message y_stale /\
  l_calls (l1_of y_message 1) =
    [readCallback 0x1400; readCallback 0x2400; writeCallback 0x400 99; writeCallback 0x800 99] /\
  held y_message 0 0x800 = Some (current y_message 0x800) /\ current y_message 0x800 <> RccL2Safe.memory0 0x800 /\
  l_calls (l1_of y_stale 0) = l_calls (l1_of y_message 0) ++ [readCallback 0x400] /\
  l_out (l1_of y_stale 0) = l_out (l1_of y_message 0) /\
  held y_stale 0 0x400 = Some (RccL2Safe.memory0 0x400) /\ current y_stale 0x400 <> RccL2Safe.memory0 0x400.
Proof.
  split; [apply (play_all_steps message_passing 1); vm_compute; reflexivity|].
  split; [apply (play_all_steps [Issue 0 (load 0x400 7); Core 0] 100); vm_compute; reflexivity|].
  split_and!; vm_compute; congruence.
Qed.
