(* ===== verification/RccView.v ===== *)
(** One L1, one block and its bank: how many messages about the block are on the way, and what the
    lease of the L1's copy has to do with them. *)
From S2P Require Import Prelude Config Address CacheMemory Tables Requests TagArray RccMsg RccL1 RccL2 RccL1Spec.
From S2P Require RccL2Spec RccL1Safe RccL2Safe.
Import RccL1Safe.

Abbreviation Bank := RccL2Spec.Bank.
Abbreviation wbound := RccL2Safe.wbound.
Abbreviation rbound := RccL2Safe.rbound.
Abbreviation readers := RccL2Safe.readers.
Abbreviation writer := RccL2Safe.writer.

(** ** Counting messages *)
Definition count {A} (f : A -> bool) (l : list A) : nat := length (List.filter f l).
Lemma count_app {A} (f : A -> bool) l k : count f (l ++ k) = (count f l + count f k)%nat.
Proof. unfold count. by rewrite List.filter_app, length_app. Qed.
Lemma count_cons {A} (f : A -> bool) x l : count f (x :: l) = (Nat.b2n (f x) + count f l)%nat.
Proof. unfold count. cbn. by destruct (f x). Qed.
Lemma count_nil {A} (f : A -> bool) : count f [] = 0%nat.
Proof. done. Qed.
Lemma count_perm {A} (f : A -> bool) l k : l ≡ₚ k -> count f l = count f k.
Proof. induction 1; rewrite ?count_cons; lia. Qed.

Definition is_read (q : RequestMsg) : bool := bool_decide (q_Type q = GETS).
Definition is_write (q : RequestMsg) : bool := negb (is_read q).
Definition is_data (p : ResponseMsg) : bool := bool_decide (p_Type p = DATA).
Definition is_ack (p : ResponseMsg) : bool := negb (is_data p).
(** Whether L1 [i] waits at the bank for memory's answer, to a read or to an atomic operation. *)
Definition reading (i : Z) (z : Bank) : nat := Nat.b2n (bool_decide (i ∈ readers z)).
Definition writing (i : Z) (z : Bank) : nat := Nat.b2n (bool_decide (writer z = Some i)).

(** ** The view *)
(** Of the block [x] of L1 [i], the block [z] of its bank, the requests [qs] of the L1 that the bank
    has not handled and its answers [ps] that the L1 has not handled, in order:
    - each access the L1 waits for is one request, one L1 waiting at the bank, or one answer;
    - a copy that the L1 has given up is older than its clock or than the last write; one that it may
      read was granted, and all answers to writes that are on the way come after its lease;
    - what requests say of copies is true. *)
Record view (i : Z) (space : MemorySpaceType) (x : Blk) (z : Bank) (qs : list RequestMsg) (ps : list ResponseMsg) : Prop := {
  view_reads : (count is_read qs + reading i z + count is_data ps)%nat = length (b_loads x);
  view_writes : (count is_write qs + writing i z + count is_ack ps)%nat = length (b_stores x);
  view_agrees : lease_agrees x;
  view_copy : has_data x = true -> lease_of x < b_pts x \/ lease_of x <= wbound z \/ holds x = true;
  view_held : has_data x = true -> holds x = true ->
    lease_of x <= rbound z /\ forall p, p ∈ ps -> p_Type p <> DATA -> lease_of x <= p_wts p;
  view_order : forall l1 p l2 w, ps = l1 ++ p :: l2 -> w ∈ l2 -> p_Type p = DATA -> p_Type w <> DATA -> p_rts p <= p_wts w;
  view_claims : forall q, q ∈ qs -> q_InL1 q = true -> q_ExpiredInL1 q = false -> q_Type q = GETS -> q_rts q <= wbound z;
  view_space : forall q, q ∈ qs -> q_Space q = space;
  view_types : forall p, p ∈ ps -> p_Type p = DATA \/ p_Type p = DATA_ATOMIC \/ p_Type p = ACK;
  view_bounds : forall p, p ∈ ps -> p_wts p <= wbound z /\ (p_Type p = DATA -> p_rts p <= rbound z);
}.

Section view.
Implicit Types (i : Z) (space : MemorySpaceType) (x : Blk) (z : Bank) (qs : list RequestMsg) (ps : list ResponseMsg).

(** The order of the requests does not matter. *)
Lemma view_perm i space x z qs qs' ps : qs ≡ₚ qs' -> view i space x z qs ps -> view i space x z qs' ps.
Proof.
  intros Hp []. split; try done.
  - by rewrite <- (count_perm _ _ _ Hp).
  - by rewrite <- (count_perm _ _ _ Hp).
  - intros q Hq. apply view_claims0. by rewrite Hp.
  - intros q Hq. apply view_space0. by rewrite Hp.
Qed.

(** What the L1 does. *)
Lemma view_kept i space x x' z qs ps : kept x x' -> view i space x z qs ps -> view i space x' z qs ps.
Proof.
  intros [Hp He Ht _ Hl Hs _] []. rewrite <- Hl in view_reads0. rewrite <- Hs in view_writes0.
  assert (has_data x' = has_data x /\ lease_of x' = lease_of x /\ holds x' = holds x) as (E1 & E2 & E3).
  { unfold has_data, lease_of, holds. rewrite Ht. unfold same_lease in He. destruct (b_entry x), (b_entry x'); try done. cbn; by destruct He as (-> & -> & _). }
  split; try done.
  - unfold lease_agrees in *. by rewrite Ht, E2.
  - rewrite E1, E2, E3. intros Hd. destruct (view_copy0 Hd) as [|[|]]; auto. left. lia.
  - by rewrite E1, E2, E3.
Qed.
Lemma view_evict i space x z qs ps : b_tbe x = None -> view i space x z qs ps -> view i space (set_bentry x None) z qs ps.
Proof. intros Ht []. split; try done. intros t Hn. cbn in Hn. congruence. Qed.

Lemma view_served i space lease id home x a (m : CacheMsg) x' z qs ps :
  served lease id home x a m x' -> c_Space m = space -> (c_Type m = LD -> b_loads x = []) ->
  c_Type m = LD \/ c_Type m = ST \/ c_Type m = ATOMIC ->
  view i space x z qs ps ->
  exists new, b_out x' = b_out x ++ new /\ view i space x' z (qs ++ new) ps /\
    forall q, q ∈ new -> q_Requestor q = RccL1.machineID id /\ q_Address q = a /\ q_Destination q = home a.
Proof.
  intros (Hpts & _ & _ & _ & _ & [Sd Sn Sa] & Hs) Hsp Hld Hty [].
  destruct (Sa view_agrees0) as [Hagr Hhold].
  assert (has_data x' = true -> lease_of x' < b_pts x' \/ lease_of x' <= wbound z \/ holds x' = true) as Hcopy.
  { intros Hd. destruct (Sd Hd) as [Hd' ->]. destruct (view_copy0 Hd') as [|[|Hh]]; [left; lia|by right; left|].
    destruct (Hhold Hh); [by right; right|left; lia]. }
  assert (has_data x' = true -> holds x' = true ->
    lease_of x' <= rbound z /\ forall p, p ∈ ps -> p_Type p <> DATA -> lease_of x' <= p_wts p) as Hheld.
  { intros Hd Hh. destruct (Sd Hd) as [Hd' ->]. apply view_held0; auto. }
  assert (forall q, q_Type q = REQ_DATA \/ q_Type q = REQ_DATA_ATOMIC \/ q_Type q = GETS /\ claims x q -> q_Space q = c_Space m ->
    forall q', q' ∈ qs ++ [q] -> (q_InL1 q' = true -> q_ExpiredInL1 q' = false -> q_Type q' = GETS -> q_rts q' <= wbound z) /\ q_Space q' = space) as Hnew.
  { intros q Hq Hqs q' [Hq'|Hq'%list_elem_of_singleton]%elem_of_app; [by split; [apply view_claims0|apply view_space0]|subst q'].
    split; [|congruence]. intros H1 H2 H3. destruct Hq as [|[|[_ Hc]]]; [congruence..|]. destruct (Hc H1 H2) as (Hd & -> & Hle & Hnh).
    destruct (view_copy0 Hd) as [|[|Hh]]; [lia|done|]. rewrite (Hnh view_agrees0) in Hh. done. }
  assert (c_Type m = LD /\ b_stores x' = b_stores x /\ load_served lease id home x a m x' \/
    b_loads x' = b_loads x /\ exists ty, (ty = REQ_DATA \/ ty = REQ_DATA_ATOMIC) /\ write_served id home x a m ty x') as [(Hl & Hst & Hs')|(Hlo & ty & Hq & Hs')].
  { destruct Hty as [Hty|[Hty|Hty]]; rewrite Hty in Hs; [left|right|right]; destruct Hs as [? ?]; split_and!; try done; eauto. }
  - destruct Hs' as [(_ & _ & Ho & _ & Hlo)|(q & Ho & Hqt & Hqa & _ & _ & _ & Hlo & Hqr & Hqd & Hqs & Hc)].
    + exists []. rewrite !app_nil_r. split; [done|]. split; [|by intros q Hq%elem_of_nil]. split; try done; congruence.
    + exists [q]. split; [done|]. split; [|by intros q' ->%list_elem_of_singleton].
      pose proof (Hnew q ltac:(tauto) Hqs) as Hq'. split; try done; [| |intros q' Hin; by apply Hq'..].
      * rewrite count_app, count_cons, count_nil, Hlo. unfold is_read at 2. rewrite bool_decide_eq_true_2 by done. rewrite Hld in view_reads0 by done. cbn in *. lia.
      * rewrite count_app, count_cons, count_nil, Hst. unfold is_write at 2, is_read. rewrite bool_decide_eq_true_2 by done. cbn. lia.
  - destruct Hs' as (q & Ho & Hqt & Hqa & _ & _ & _ & _ & Hst & Hqr & Hqd & Hqs).
    exists [q]. split; [done|]. split; [|by intros q' ->%list_elem_of_singleton].
    assert (is_read q = false) as Hr by (unfold is_read; rewrite Hqt; by destruct Hq as [-> | ->]).
    pose proof (Hnew q ltac:(rewrite Hqt; tauto) Hqs) as Hq'. split; try done; [| |intros q' Hin; by apply Hq'..].
    + rewrite count_app, count_cons, count_nil, Hr, Hlo. cbn. lia.
    + rewrite count_app, count_cons, count_nil, Hst, length_app. unfold is_write at 2. rewrite Hr. cbn. lia.
Qed.

(** The next answer is one the L1 expects. *)
Lemma view_response_ok i space x z qs m ps :
  view i space x z qs (m :: ps) -> b_pts x < 4294967295 -> p_wts m < 4294967295 -> response_ok x m.
Proof.
  intros [] Hp Hw. split; [done|split; [done|]]. rewrite count_cons in view_reads0, view_writes0. unfold is_ack in view_writes0.
  destruct (view_types0 m ltac:(by left)) as [Ht|Ht]; [|assert (is_data m = false) as Hd by (unfold is_data; apply bool_decide_eq_false_2; by destruct Ht as [-> | ->])].
  - assert (is_data m = true) as Hd by (unfold is_data; by rewrite bool_decide_eq_true_2). rewrite Hd in view_reads0. rewrite Ht. cbn in *. destruct (b_loads x); [cbn in *; lia|done].
  - rewrite Hd in view_writes0. cbn in *. assert (b_stores x <> []) as Hs by (destruct (b_stores x); [cbn in *; lia|done]). destruct Ht as [-> | ->]; done.
Qed.
Lemma view_answered i space x a m x' z qs ps :
  answered false x a m x' -> (length (b_loads x) <= 1)%nat -> view i space x z qs (m :: ps) -> view i space x' z qs ps.
Proof.
  intros (Hpts & _ & _ & _ & Ha) Hone []. rewrite count_cons in view_reads0, view_writes0. unfold is_ack in view_writes0 at 1.
  assert (forall p, p ∈ ps -> p ∈ m :: ps) as Hin by (intros; by right).
  assert (forall l1 p l2 w, ps = l1 ++ p :: l2 -> w ∈ l2 -> p_Type p = DATA -> p_Type w <> DATA -> p_rts p <= p_wts w) as Hord
    by (intros l1 p l2 w ->; apply (view_order0 (m :: l1)); done).
  destruct (view_types0 m ltac:(by left)) as [Ht|Ht].
  - assert (is_data m = true) as Hd by (unfold is_data; by rewrite bool_decide_eq_true_2). rewrite Hd in view_reads0, view_writes0.
    rewrite Ht in Ha. destruct Ha as (_ & Hl & Hst & e & e' & _ & He' & Hrts & Hdata & _ & Hcase).
    assert (lease_of x' = p_rts m) as Hlease by (unfold lease_of; by rewrite He').
    assert (holds x' = true) as Hh.
    { unfold holds. destruct (b_stores x); [destruct Hcase as [-> Hc]; rewrite He'; cbn; by rewrite bool_decide_eq_true_2|].
      destruct Hcase as (t & -> & _ & Hc). by rewrite bool_decide_eq_true_2. }
    cbn [Nat.b2n negb] in *.
    split; try done; auto.
    + rewrite Hl. cbn. lia.
    + rewrite Hst. lia.
    + intros t Htb _. rewrite Hlease. destruct (b_stores x); [destruct Hcase; congruence|]. destruct Hcase as (t' & Ht' & Hr & _). congruence.
    + intros _ _. rewrite Hlease. split; [by apply (view_bounds0 m); [left|]|]. intros p Hp Hnd. by apply (view_order0 [] m ps).
  - assert (p_Type m <> DATA) as Hnd by (by destruct Ht as [-> | ->]).
    assert (is_data m = false) as Hd by (unfold is_data; by rewrite bool_decide_eq_false_2). rewrite Hd in view_reads0, view_writes0.
    assert (write_answered x a m x') as (_ & Hl & Hst & _ & E1 & E2 & E3 & _) by (by destruct Ht as [Ht|Ht]; rewrite Ht in Ha).
    cbn [Nat.b2n negb] in *. split; try done; auto.
    + rewrite Hl. lia.
    + rewrite Hst. destruct (b_stores x); cbn in *; lia.
    + intros t Htb Hs. unfold holds in E3. rewrite Htb in E3. by apply bool_decide_eq_false in E3.
    + rewrite E1, E2. intros Hdt. destruct (view_copy0 Hdt) as [|[|Hh]]; [left; lia|by right; left|].
      right; left. destruct (view_held0 Hdt Hh) as [_ Hle]. specialize (Hle m ltac:(by left) Hnd). destruct (view_bounds0 m ltac:(by left)). lia.
    + rewrite E3. done.
Qed.

(** What the bank does: it handles requests, posts answers to this L1, and its times only grow. *)
Record advances (i : Z) z z' qs qs' new : Prop := {
  adv_wbound : wbound z <= wbound z';
  adv_rbound : rbound z <= rbound z';
  adv_reads : (count is_read qs' + reading i z' + count is_data new = count is_read qs + reading i z)%nat;
  adv_writes : (count is_write qs' + writing i z' + count is_ack new = count is_write qs + writing i z)%nat;
  adv_less q : q ∈ qs' -> q ∈ qs;
  adv_one : (length new <= 1)%nat;
  adv_types p : p ∈ new -> p_Type p = DATA \/ p_Type p = DATA_ATOMIC \/ p_Type p = ACK;
  adv_bounds p : p ∈ new -> p_wts p <= wbound z' /\ (p_Type p = DATA -> p_rts p <= rbound z') /\ (p_Type p <> DATA -> rbound z <= p_wts p) }.
Lemma view_bank i space x z z' qs qs' new ps :
  advances i z z' qs qs' new -> view i space x z qs ps -> view i space x z' qs' (ps ++ new).
Proof.
  intros [] []. split; try done.
  - rewrite count_app. lia.
  - rewrite count_app. lia.
  - intros Hd. destruct (view_copy0 Hd) as [|[|]]; auto. right; left. lia.
  - intros Hd Hh. destruct (view_held0 Hd Hh) as [Hr Hp]. split; [lia|]. intros p [Hin|Hin]%elem_of_app Hnd; [by apply Hp|].
    destruct (adv_bounds0 p Hin) as (_ & _ & Hb). specialize (Hb Hnd). lia.
  - intros l1 p l2 w Heq Hw Hp Hnw. destruct new as [|n [|? ?]]; [|clear adv_one0|cbn in adv_one0; lia].
    + rewrite app_nil_r in Heq. by eapply view_order0.
    + destruct l2 as [|r l2 _] using rev_ind; [by apply elem_of_nil in Hw|].
      rewrite app_comm_cons, app_assoc in Heq. apply app_inj_tail in Heq as [Heq <-].
      apply elem_of_app in Hw as [Hw|Hw%list_elem_of_singleton]; [by eapply view_order0|subst w].
      destruct (adv_bounds0 n ltac:(by left)) as (_ & _ & Hb). specialize (Hb Hnw).
      destruct (view_bounds0 p) as [_ Hr]; [rewrite Heq; apply elem_of_app; right; by left|]. specialize (Hr Hp). lia.
  - intros q Hq H1 H2 H3. specialize (view_claims0 q (adv_less0 q Hq) H1 H2 H3). lia.
  - intros q Hq. by apply view_space0, adv_less0.
  - intros p [Hin|Hin]%elem_of_app; auto.
  - intros p [Hin|Hin]%elem_of_app.
    + destruct (view_bounds0 p Hin) as [H1 H2]. split; [lia|]. intros Hp. specialize (H2 Hp). lia.
    + destruct (adv_bounds0 p Hin) as (? & ? & _). done.
Qed.

Lemma advances_pre i z z' pre qs qs' new : advances i z z' qs qs' new -> advances i z z' (pre ++ qs) (pre ++ qs') new.
Proof.
  intros []. split; try done; rewrite ?count_app; try lia. intros q. rewrite !elem_of_app. naive_solver.
Qed.

(** A read that the view allows claims no live copy older than the last write. *)
Lemma view_claim_ok i space g mem a x z qs ps q :
  RccL2Safe.bank_ok g mem a z -> view i space x z qs ps -> q ∈ qs -> q_Type q = GETS -> RccL2Spec.claim_ok z q = true.
Proof.
  intros [_ Hl _] Hv Hq Ht. unfold RccL2Spec.claim_ok. destruct (RccL2Spec.x_entry z) as [e|] eqn:He; [|done].
  destruct (_ && _) eqn:Hc; [|done]. apply andb_true_iff in Hc as [[Hst Hin]%andb_true_iff Hlt]. apply bool_decide_eq_true in Hst.
  destruct (q_ExpiredInL1 q) eqn:Hx; [done|]. exfalso. pose proof (view_claims _ _ _ _ _ _ Hv q Hq Hin Hx Ht) as Hle.
  unfold wbound, RccL2Safe.wbound in Hle. rewrite He in Hle. destruct (RccL2Spec.x_tbe z) as [t|].
  - destruct Hl as ((_ & _ & _ & _ & _ & _ & _ & Hu) & e' & He' & Hs). injection He' as <-. rewrite Hst in Hs. by rewrite <- Hs in Hu.
  - apply Z.ltb_lt in Hlt. lia.
Qed.
End view.

(** ** Steps of the bank *)
Definition to_L1 (i : Z) (l : list ResponseMsg) : list ResponseMsg := List.filter (fun p => bool_decide (i ∈ p_Destination p)) l.
Lemma to_L1_one i p : to_L1 i [p] = if decide (i ∈ p_Destination p) then [p] else [].
Proof. unfold to_L1. cbn. case_decide; [by rewrite bool_decide_eq_true_2|by rewrite bool_decide_eq_false_2]. Qed.
Lemma elem_of_to_L1 i l p : p ∈ to_L1 i l <-> p ∈ l /\ i ∈ p_Destination p.
Proof. unfold to_L1. rewrite !list_elem_of_In, List.filter_In, bool_decide_eq_true. done. Qed.

Section bank.
Variables (g : Globals) (DATA_BLOCK XACT_MEMORY : bool) (id : Z).
Implicit Types (i k a : Z) (z : Bank) (qs : list RequestMsg) (mem : list Z).
Abbreviation ok := (RccL2Safe.bank_ok g).

Lemma kept_advances i z z' qs : RccL2Spec.kept z z' -> 0 <= wbound z <= rbound z -> advances i z z' qs qs [].
Proof.
  intros [Hm He Ht] _.
  assert (readers z' = readers z /\ writer z' = writer z) as [Er Ew] by (unfold readers, writer, RccL2Safe.readers, RccL2Safe.writer; by rewrite Ht).
  assert (wbound z <= wbound z' /\ rbound z <= rbound z') as [Hw Hr].
  { unfold wbound, rbound, RccL2Safe.rbound, RccL2Safe.wbound. rewrite Ht, He.
    destruct (RccL2Spec.x_tbe z) as [t|], (RccL2Spec.x_entry z) as [e|]; try destruct (pending_write t); lia. }
  split; unfold reading, writing; rewrite ?Er, ?Ew, ?count_nil; try lia; try done; try (by intros p Hp%elem_of_nil); cbn; lia.
Qed.
Lemma replaced_advances i mem z a z' qs :
  RccL2Safe.replaced id mem z a z' -> 0 <= wbound z <= rbound z -> advances i z z' qs qs [].
Proof.
  intros (He & Ht & Ht0 & _ & _ & _ & Hm & _) [_ Hle].
  assert (readers z' = readers z /\ writer z' = writer z) as [Er Ew]
    by (unfold readers, writer, RccL2Safe.readers, RccL2Safe.writer; by rewrite Ht, Ht0).
  assert (wbound z' = Z.max (RccL2Spec.x_mts z) (rbound z) /\ rbound z' = Z.max (RccL2Spec.x_mts z) (rbound z)) as [E1 E2]
    by (rewrite <- Hm; unfold wbound, rbound, RccL2Safe.rbound, RccL2Safe.wbound; by rewrite Ht, He).
  split; unfold reading, writing; rewrite ?Er, ?Ew, ?E1, ?E2, ?count_nil; try lia; try done; try (by intros p Hp%elem_of_nil); cbn; lia.
Qed.

(** What a request leads to, in three cases: a read is answered, a read or an atomic operation waits,
    a write is answered. *)
Lemma served_cases mem z a m z' :
  RccL2Safe.request_served g DATA_BLOCK XACT_MEMORY id mem z a m z' -> ok mem a z ->
  q_Type m = GETS \/ q_Type m = REQ_DATA \/ q_Type m = REQ_DATA_ATOMIC ->
  let k := m_num (q_Requestor m) in
  (exists p, RccL2Spec.x_out z' = RccL2Spec.x_out z ++ [p] /\ p_Address p = a /\ p_Destination p = {[k]} /\
     readers z' = readers z /\ writer z' = writer z /\
     (q_Type m = GETS /\ p_Type p = DATA \/
      q_Type m <> GETS /\ (p_Type p = DATA_ATOMIC \/ p_Type p = ACK) /\ rbound z <= p_wts p)) \/
  (RccL2Spec.x_out z' = RccL2Spec.x_out z /\
     (q_Type m = GETS /\ readers z' = {[k]} ∪ readers z /\ writer z' = writer z \/
      q_Type m <> GETS /\ readers z' = readers z /\ writer z' = Some k /\ writer z = None)).
Proof.
  intros (_ & _ & _ & _ & _ & [Ar Aw _] & Hs) Hok Hty k. unfold RccL2Safe.read_served, RccL2Safe.write_served, RccL2Safe.atomic_served, RccL2Safe.write_timestamp in Hs.
  destruct Hty as [Ht|[Ht|Ht]]; rewrite Ht in Hs, Ar, Aw.
  - destruct Hs as (_ & [(Hst & _ & p & Ho & Hp & Ha & Hd & _)|(Hst & Ho & _)]).
    + left. exists p. rewrite decide_True in Ar by done. rewrite union_empty_l_L in Ar. split_and!; auto.
    + right. rewrite decide_False in Ar by done. auto.
  - destruct Hs as (_ & p & Ho & Hp & Ha & Hd & (_ & Hr & _) & _). left. exists p. rewrite union_empty_l_L in Ar.
    split_and!; auto. right. split_and!; [by rewrite Ht|by right|done].
  - rewrite union_empty_l_L in Ar. destruct Hs as (_ & [(Hst & _ & p & Ho & Hp & Ha & Hd & _ & Hr & _)|(Hst & Ho & _)]).
    + left. exists p. rewrite decide_False in Aw by congruence. split_and!; auto. right. split_and!; [by rewrite Ht|by left|done].
    + right. rewrite decide_True in Aw by done. split; [done|]. right. split_and!; [by rewrite Ht|done..|].
      destruct (RccL2Safe.at_NP g mem a z Hok Hst) as [Hn _]. unfold writer, RccL2Safe.writer. by rewrite Hn.
Qed.
Lemma served_advances mem mem' z a m z' :
  RccL2Safe.request_served g DATA_BLOCK XACT_MEMORY id mem z a m z' -> ok mem a z -> ok mem' a z' ->
  q_Type m = GETS \/ q_Type m = REQ_DATA \/ q_Type m = REQ_DATA_ATOMIC ->
  exists new, RccL2Spec.x_out z' = RccL2Spec.x_out z ++ new /\
    (forall p, p ∈ new -> p_Address p = a /\ p_Destination p = {[m_num (q_Requestor m)]}) /\
    forall i qs, (q_Type m = GETS -> i = m_num (q_Requestor m) -> reading i z = 0%nat) ->
      advances i z z' (if decide (i = m_num (q_Requestor m)) then m :: qs else qs) qs (to_L1 i new).
Proof.
  intros Hs Hok Hok' Hty. pose proof (RccL2Safe.ok_log _ _ _ _ Hok') as Hlog. set (k := m_num (q_Requestor m)).
  assert (wbound z <= wbound z' /\ rbound z <= rbound z') as [Hw Hr] by (destruct Hs as (_ & _ & _ & ? & ? & _); done).
  assert (forall i qs, (if decide (i = k) then m :: qs else qs) = (if decide (i = k) then [m] else []) ++ qs) as Hqs by (intros; by case_decide).
  destruct (served_cases _ _ _ _ _ Hs Hok Hty) as [(p & Ho & Ha & Hd & Er & Ew & Hc)|(Ho & Hc)].
  - exists [p]. split; [done|]. split; [by intros ? ->%list_elem_of_singleton|]. intros i qs _.
    destruct (Hlog p) as [Hpw Hpr]; [rewrite Ho; apply elem_of_app; right; by left|done|].
    rewrite Hqs, to_L1_one, Hd. split; [done|done| | | | | |]; unfold reading, writing; rewrite ?Er, ?Ew, ?count_app.
    1,2: destruct (decide (i = k)) as [->|Hne]; [rewrite decide_True by set_solver|rewrite decide_False by set_solver; rewrite !count_nil; lia];
      rewrite !count_cons, !count_nil; unfold is_write, is_ack;
      (assert (is_read m = is_data p) as -> by (unfold is_read, is_data; apply bool_decide_ext; destruct Hc as [[Hm Hp]|(Hm & [Hp|Hp] & _)]; rewrite Hp; naive_solver)); lia.
    + intros q Hq. apply elem_of_app. by right.
    + case_decide; cbn; lia.
    + intros p' Hp'. assert (p' = p) as -> by (case_decide; [by apply list_elem_of_singleton in Hp'|by apply elem_of_nil in Hp']). destruct Hc as [[_ ?]|(_ & ? & _)]; tauto.
    + intros p' Hp'. assert (p' = p) as -> by (case_decide; [by apply list_elem_of_singleton in Hp'|by apply elem_of_nil in Hp']).
      split; [done|split; [done|]]. intros Hnd. by destruct Hc as [[_ ?]|(_ & _ & ?)].
  - exists []. rewrite app_nil_r. split; [done|]. split; [by intros p Hp%elem_of_nil|]. intros i qs Hno. cbn [to_L1 List.filter].
    rewrite Hqs. split; [done|done| | |intros q Hq; apply elem_of_app; by right|cbn; lia|by intros p Hp%elem_of_nil|by intros p Hp%elem_of_nil];
      rewrite !count_app, !count_nil; unfold reading, writing in *;
      destruct Hc as [(Hm & Er & Ew)|(Hm & Er & Ew & Ew0)]; rewrite ?Er, ?Ew, ?Ew0;
      (destruct (decide (i = k)) as [->|Hne]; [|rewrite !count_nil]);
      rewrite ?count_cons, ?count_nil; unfold is_write, is_read;
      first [rewrite (bool_decide_eq_true_2 (q_Type m = GETS)) by done|rewrite (bool_decide_eq_false_2 (q_Type m = GETS)) by done|idtac]; cbn [Nat.b2n negb].
    + specialize (Hno Hm eq_refl). destruct (decide (k ∈ readers z)) as [Hi|Hi]; [rewrite (bool_decide_eq_true_2 _ Hi) in Hno; done|].
      rewrite (bool_decide_eq_false_2 _ Hi), bool_decide_eq_true_2 by set_solver. cbn. lia.
    + rewrite (bool_decide_ext (i ∈ {[k]} ∪ readers z) (i ∈ readers z)) by set_solver. lia.
    + lia.
    + lia.
    + lia.
    + lia.
    + rewrite bool_decide_eq_true_2, (bool_decide_eq_false_2 (None = Some k)) by done. cbn. lia.
    + rewrite (bool_decide_eq_false_2 (Some k = Some i)), (bool_decide_eq_false_2 (None = Some i)) by congruence. cbn. lia.
Qed.
Lemma memory_advances mem mem' z a z' t i qs :
  RccL2Safe.memory_served mem z a z' -> RccL2Spec.x_tbe z = Some t -> ok mem a z -> ok mem' a z' ->
  exists new, RccL2Spec.x_out z' = RccL2Spec.x_out z ++ new /\
    (forall p k, p ∈ new -> k ∈ p_Destination p -> k ∈ readers z \/ writer z = Some k) /\
    (forall p, p ∈ new -> p_Address p = a) /\ advances i z z' qs qs (to_L1 i new).
Proof.
  intros (_ & _ & _ & _ & _ & Ht' & _ & Hw & Hr & Hs) Ht Hok Hok'. pose proof (RccL2Safe.ok_log _ _ _ _ Hok') as Hlog.
  pose proof (RccL2Safe.ok_line _ _ _ _ Hok) as Hl. rewrite Ht in Hl. destruct Hl as [(_ & _ & _ & _ & _ & Hpr & Hpn & Hu) _].
  specialize (Hs t Ht). assert (rbound z = wbound z) as Hrw by (unfold rbound, wbound, RccL2Safe.rbound; by rewrite Ht).
  assert (forall k, reading k z' = 0%nat) as R' by (intros k; unfold reading, readers, RccL2Safe.readers; rewrite Ht'; cbn; by rewrite bool_decide_eq_false_2 by set_solver).
  assert (forall k, writing k z' = 0%nat) as W' by (intros k; unfold writing, writer, RccL2Safe.writer; by rewrite Ht').
  assert (exists new, RccL2Spec.x_out z' = RccL2Spec.x_out z ++ new /\ (length new <= 1)%nat /\
    (forall p k, p ∈ new -> k ∈ p_Destination p -> k ∈ readers z \/ writer z = Some k) /\
    (forall p, p ∈ new -> p_Address p = a /\ (p_Type p = DATA \/ p_Type p = DATA_ATOMIC \/ p_Type p = ACK) /\ wbound z <= p_wts p) /\
    reading i z = count is_data (to_L1 i new) /\ writing i z = count is_ack (to_L1 i new)) as (new & Ho & H1 & Hd & Hp & Er & Ew).
  { unfold reading, writing, readers, writer, RccL2Safe.readers, RccL2Safe.writer. rewrite Ht. cbn. destruct (u_State t) eqn:Hst; [done|done| |].
    - destruct (pending_read t) eqn:Hread.
      + destruct Hs as (p & Ho & Hp & Ha & Hd & _ & Hpw & _). exists [p]. rewrite to_L1_one, Hd. split_and!; [done|cbn; lia| | | |].
        * intros p' k ->%list_elem_of_singleton. rewrite Hd. by left.
        * intros p' ->%list_elem_of_singleton. split_and!; [done|by left|lia].
        * case_decide; rewrite ?count_cons, ?count_nil; unfold is_data; [rewrite !bool_decide_eq_true_2 by done; done|by rewrite bool_decide_eq_false_2].
        * rewrite bool_decide_eq_false_2 by done. case_decide; rewrite ?count_cons, ?count_nil; unfold is_ack, is_data; [by rewrite bool_decide_eq_true_2|done].
      + exists []. rewrite app_nil_r. split_and!; [done|cbn; lia|by intros p k Hp%elem_of_nil|by intros p Hp%elem_of_nil| |].
        * by rewrite bool_decide_eq_false_2 by set_solver.
        * by rewrite bool_decide_eq_false_2.
    - destruct Hu as [Hread _]. rewrite Hread in *. destruct Hs as (p & Ho & Hp & Ha & Hd & _ & Hpw). exists [p]. rewrite to_L1_one, Hd. split_and!; [done|cbn; lia| | | |].
      * intros p' k ->%list_elem_of_singleton. rewrite Hd. intros ->%elem_of_singleton. by right.
      * intros p' ->%list_elem_of_singleton. split_and!; [done|by right; left|lia].
      * rewrite bool_decide_eq_false_2 by set_solver. case_decide; rewrite ?count_cons, ?count_nil; unfold is_data; [by rewrite bool_decide_eq_false_2 by congruence|done].
      * case_decide as Hi; rewrite ?count_cons, ?count_nil; unfold is_ack, is_data.
        -- rewrite bool_decide_eq_true_2 by (f_equal; set_solver). by rewrite bool_decide_eq_false_2 by congruence.
        -- rewrite bool_decide_eq_false_2 by (intros [= E]; set_solver). done. }
  exists new. split; [done|]. split; [done|]. split; [intros p Hin; by apply Hp|].
  split; [unfold wbound in *; lia|done| | |done| | |].
  - rewrite R', Er. lia.
  - rewrite W', Ew. lia.
  - unfold to_L1. etrans; [|exact H1]. clear. induction new as [|p l IH]; cbn; [done|]. destruct (bool_decide _); cbn; lia.
  - intros p [Hin _]%elem_of_to_L1. by apply Hp.
  - intros p [Hin _]%elem_of_to_L1. destruct (Hp p Hin) as (Ha & _ & Hle). destruct (Hlog p) as [? ?]; [rewrite Ho; apply elem_of_app; by right|done|].
    split_and!; [done|done|]. intros _. unfold wbound, rbound in *. lia.
Qed.
End bank.
