(* ===== verification/RccOrdered.v ===== *)
(** The L1s and the banks with the ordered networks the protocol asks for: every message is delivered
    once, and the answers of a bank to an L1 in the order in which they were sent. Then neither side
    ever sends what the other does not accept. *)
From S2P Require Import Prelude Vector Config Address DataBlock Replacement CacheMemory Tables Requests TagArray RccMsg.
From S2P Require RccL1 RccL1Spec RccL1Safe RccL2 RccL2Spec RccL2Safe.
From S2P Require Import RccSystem RccView.
Import RccL2 RccL1 RccL1Safe.

(** ** The network *)
(** The requests on the way to the banks, in any order, and the answers on the way from each bank to
    each L1, first come first served. *)
Record Net (C1 C2 : Type) := mkNet {
  n_sys : System C1 C2; n_req : list RequestMsg; n_resp : nat -> nat -> list ResponseMsg }.
#[global] Arguments mkNet {C1 C2}.
#[global] Arguments n_sys {C1 C2}.
#[global] Arguments n_req {C1 C2}.
#[global] Arguments n_resp {C1 C2}.

Section ordered.
Context {C1 : Type} {TA1 : TagArray C1 L1Entry} {TL1 : TagArrayLaws C1 L1Entry default}.
Context {C2 : Type} {TA2 : TagArray C2 L2Entry} {TL2 : TagArrayLaws C2 L2Entry default}.
Variables (g : Globals) (DATA_BLOCK XACT_MEMORY : bool) (L1_TBES L2_TBES CL_FIXED_LEASE : Z)
          (RECORDER : bool) (DELAY_QUEUE_THRESHOLD : Z).
(** The bank of a block for an L1, memory at the start, by bank, and the memory space of a block. *)
Variables (home : Z -> Z -> MachineID) (mem : Z -> Z -> list Z) (space : Z -> MemorySpaceType).
Abbreviation block := (@tag_block C1 L1Entry TA1 default TL1).
Abbreviation block2 := (@tag_block C2 L2Entry TA2 default TL2).
Hypothesis same_blocks : forall a, block a <-> block2 a.
Hypothesis block_line : forall a, block a -> is_line g a = true.
Hypothesis home_bank : forall i a, 0 <= i < g_NUM_PROCESSORS g -> block a ->
  map_L1CacheMachId_to_L2Cache g a (RccL1.machineID i) = Some (home i a).
Hypothesis lease_range : 0 <= CL_FIXED_LEASE < 2 ^ 62.
Implicit Types (n : Net C1 C2) (i j : nat) (s : L1 C1) (b : L2 C2) (a : Z) (q : RequestMsg) (p : ResponseMsg).

Abbreviation memory j b := (RccL2Safe.memory_after (mem (Z.of_nat j)) (k_fetch b)).
Abbreviation pts s := (tag_getPts (l_cache s)).
Abbreviation step := (sys_step g DATA_BLOCK XACT_MEMORY L1_TBES L2_TBES CL_FIXED_LEASE RECORDER false DELAY_QUEUE_THRESHOLD mem).
Abbreviation ok := (sys_ok g L1_TBES L2_TBES CL_FIXED_LEASE RECORDER mem).
Abbreviation mandatory_in i := (mandatoryQueue_in g DATA_BLOCK XACT_MEMORY L1_TBES CL_FIXED_LEASE (Z.of_nat i) RECORDER).
Abbreviation response_in i := (responseIntraChipL1Network_in g DATA_BLOCK XACT_MEMORY L1_TBES CL_FIXED_LEASE (Z.of_nat i) RECORDER
  false DELAY_QUEUE_THRESHOLD).
Abbreviation request_in j := (L1RequestIntraChipL2Network_in g DATA_BLOCK XACT_MEMORY L2_TBES (Z.of_nat j)).
Abbreviation memory_in j := (memQueue_in g DATA_BLOCK XACT_MEMORY L2_TBES (Z.of_nat j)).

(** What a controller has sent in a step. *)
Definition sent s s' : list RequestMsg := drop (length (l_out s)) (l_out s').
Definition posted b b' : list ResponseMsg := drop (length (k_out b)) (k_out b').
Definition post (f : nat -> nat -> list ResponseMsg) (j : nat) (new : list ResponseMsg) : nat -> nat -> list ResponseMsg :=
  fun i k => f i k ++ (if decide (k = j) then to_L1 (Z.of_nat i) new else []).
Definition take_first (f : nat -> nat -> list ResponseMsg) (i j : nat) (l : list ResponseMsg) : nat -> nat -> list ResponseMsg :=
  fun i' j' => if decide (i' = i /\ j' = j) then l else f i' j'.
(** The timestamps leave room for the lease of a request. *)
Definition room b q : Prop := rbound (abs2 b (q_Address q)) + q_deltaRequested q + 1 < 2 ^ 63.

(** One step. Of the cores it is only asked what the sequencer guarantees, and that a block is used in
    one memory space; of memory, that it answers what was fetched with what it holds; of time, that
    it leaves room. What the controllers assert of each other's messages is not assumed. *)
Inductive net_step : relation (Net C1 C2) :=
  | net_issue n i s c : y_l1 (n_sys n) !! i = Some s ->
      net_step n (mkNet (put_l1 (n_sys n) i (set_lports s (l_mandatory s ++ [c]) (l_responses s) (l_delay s))) (n_req n) (n_resp n))
  | net_request n j b before q after : n_req n = before ++ q :: after -> y_l2 (n_sys n) !! j = Some b ->
      q_Destination q = bankID (Z.of_nat j) ->
      net_step n (mkNet (put_l2 (n_sys n) j (set_kports b (k_requests b ++ [q]) (k_memory b))) (before ++ after) (n_resp n))
  | net_response n i j s p l : y_l1 (n_sys n) !! i = Some s -> n_resp n i j = p :: l ->
      net_step n (mkNet (put_l1 (n_sys n) i (set_lports s (l_mandatory s) (l_responses s ++ [p]) (l_delay s)))
        (n_req n) (take_first (n_resp n) i j l))
  | net_memory_arrives n j b mm : y_l2 (n_sys n) !! j = Some b ->
      net_step n (mkNet (put_l2 (n_sys n) j (set_kports b (k_requests b) (k_memory b ++ [mm]))) (n_req n) (n_resp n))
  | net_mandatory n i s now m r s' : y_l1 (n_sys n) !! i = Some s -> head (l_mandatory s) = Some m ->
      block (c_Address m) -> RccL1Safe.request_ok (abs1 s (c_Address m)) m -> c_Space m = space (c_Address m) ->
      mandatory_in i now s = Some (r, s') ->
      net_step n (mkNet (put_l1 (n_sys n) i s') (n_req n ++ sent s s') (n_resp n))
  | net_answer n i s now m s' : y_l1 (n_sys n) !! i = Some s -> head (l_responses s) = Some m ->
      p_wts m < 4294967295 -> response_in i now s = Some (Valid, s') ->
      net_step n (mkNet (put_l1 (n_sys n) i s') (n_req n) (n_resp n))
  | net_bank_request n j b now m r b' : y_l2 (n_sys n) !! j = Some b -> head (k_requests b) = Some m -> room b m ->
      request_in j now b = Some (r, b') ->
      net_step n (mkNet (put_l2 (n_sys n) j b') (n_req n) (post (n_resp n) j (posted b b')))
  | net_bank_memory n j b now mm t r b' : y_l2 (n_sys n) !! j = Some b -> head (k_memory b) = Some mm -> block (mm_Address mm) ->
      k_tbes b !! mm_Address mm = Some t ->
      RccL2Safe.memory_ok (memory j b (mm_Address mm)) (abs2 b (mm_Address mm)) mm ->
      memory_in j now b = Some (r, b') ->
      net_step n (mkNet (put_l2 (n_sys n) j b') (n_req n) (post (n_resp n) j (posted b b')))
  | net_bank_ack n j b now mm r b' : y_l2 (n_sys n) !! j = Some b -> head (k_memory b) = Some mm -> mm_Type mm = MEMORY_WB ->
      memory_in j now b = Some (r, b') ->
      net_step n (mkNet (put_l2 (n_sys n) j b') (n_req n) (n_resp n)).

(** ** The invariant *)
Definition bank_of i a : nat := Z.to_nat (m_num (home (Z.of_nat i) a)).
Definition no_bank : RccL2Spec.Bank := RccL2Spec.mkBank 0 None None [] [] [] [].
Definition bank_block (y : System C1 C2) i a : RccL2Spec.Bank := from_option (fun b => abs2 b a) no_bank (y_l2 y !! bank_of i a).
Definition bank_requests (y : System C1 C2) i a : list RequestMsg := from_option k_requests [] (y_l2 y !! bank_of i a).
(** The requests of an L1 about a block, and the answers. *)
Definition about i a (l : list RequestMsg) : list RequestMsg :=
  List.filter (fun q => bool_decide (q_Requestor q = RccL1.machineID (Z.of_nat i)) && (q_Address q =? a)) l.
Definition at_block a (l : list ResponseMsg) : list ResponseMsg := List.filter (fun p => p_Address p =? a) l.
Definition requests n i a : list RequestMsg := about i a (n_req n ++ bank_requests (n_sys n) i a).
Definition answers n i s a : list ResponseMsg := at_block a (l_responses s ++ n_resp n i (bank_of i a)).
Definition sent_from i q : Prop :=
  q_Requestor q = RccL1.machineID (Z.of_nat i) /\ block (q_Address q) /\ q_Destination q = home (Z.of_nat i) (q_Address q).

Record net_ok n : Prop := {
  net_sys : ok (n_sys n);
  net_reqs q : q ∈ n_req n -> exists i s, y_l1 (n_sys n) !! i = Some s /\ q ∈ l_out s /\ sent_from i q;
  net_bank_reqs j b q : y_l2 (n_sys n) !! j = Some b -> q ∈ k_requests b ->
    exists i, (i < length (y_l1 (n_sys n)))%nat /\ sent_from i q /\ bank_of i (q_Address q) = j;
  net_resps i j p : p ∈ n_resp n i j ->
    exists b, y_l2 (n_sys n) !! j = Some b /\ p ∈ k_out b /\ Z.of_nat i ∈ p_Destination p /\ block (p_Address p) /\ bank_of i (p_Address p) = j;
  net_l1_resps i s p : y_l1 (n_sys n) !! i = Some s -> p ∈ l_responses s -> block (p_Address p);
  net_waiting j b a k : y_l2 (n_sys n) !! j = Some b -> block a -> k ∈ readers (abs2 b a) \/ writer (abs2 b a) = Some k ->
    exists i, k = Z.of_nat i /\ bank_of i a = j;
  net_space j b a t : y_l2 (n_sys n) !! j = Some b -> block a -> RccL2Spec.x_tbe (abs2 b a) = Some t -> u_Space t = space a;
  net_view i s a : y_l1 (n_sys n) !! i = Some s -> block a ->
    view (Z.of_nat i) (space a) (abs1 s a) (bank_block (n_sys n) i a) (requests n i a) (answers n i s a) }.

Lemma about_app i a l k : about i a (l ++ k) = about i a l ++ about i a k.
Proof. apply List.filter_app. Qed.
Lemma at_block_app a l k : at_block a (l ++ k) = at_block a l ++ at_block a k.
Proof. apply List.filter_app. Qed.
Lemma elem_of_about i a l q : q ∈ about i a l <-> q ∈ l /\ q_Requestor q = RccL1.machineID (Z.of_nat i) /\ q_Address q = a.
Proof. unfold about. by rewrite !list_elem_of_In, List.filter_In, andb_true_iff, bool_decide_eq_true, Z.eqb_eq. Qed.
Lemma elem_of_at a l p : p ∈ at_block a l <-> p ∈ l /\ p_Address p = a.
Proof. unfold at_block. by rewrite !list_elem_of_In, List.filter_In, Z.eqb_eq. Qed.
Lemma nil_of {A} (l : list A) : (forall x, x ∉ l) -> l = [].
Proof. destruct l as [|x l]; [done|]. intros H. destruct (H x). by left. Qed.
Lemma about_none i a l : (forall q, q ∈ l -> q_Requestor q = RccL1.machineID (Z.of_nat i) -> q_Address q <> a) -> about i a l = [].
Proof. intros H. apply nil_of. intros q (Hq & Hr & Ha)%elem_of_about. by apply (H q). Qed.
Lemma at_none a l : (forall p, p ∈ l -> p_Address p <> a) -> at_block a l = [].
Proof. intros H. apply nil_of. intros p (Hp & Ha)%elem_of_at. by apply (H p). Qed.
Lemma machineID_inj i k : RccL1.machineID (Z.of_nat i) = RccL1.machineID (Z.of_nat k) -> i = k.
Proof using Type. intros [= E]. clear -E. lia. Qed.
Lemma bank_of_home i a j : home (Z.of_nat i) a = bankID (Z.of_nat j) -> bank_of i a = j.
Proof using Type. intros E. unfold bank_of. rewrite E. cbn. clear. lia. Qed.
Lemma to_L1_none (i : Z) l : (forall p, p ∈ l -> i ∉ p_Destination p) -> to_L1 i l = [].
Proof. intros H. apply nil_of. intros p (Hp & Hi)%elem_of_to_L1. by apply (H p). Qed.

(** A step of an L1. *)
Lemma l1_step_ok n i s s' new f :
  net_ok n -> y_l1 (n_sys n) !! i = Some s -> ok (put_l1 (n_sys n) i s') -> l_out s' = l_out s ++ new ->
  (forall q, q ∈ new -> sent_from i q) -> (forall p, p ∈ l_responses s' -> block (p_Address p)) ->
  (forall i' j, i' <> i -> f i' j = n_resp n i' j) -> (forall j p, p ∈ f i j -> p ∈ n_resp n i j) ->
  (forall a, block a -> view (Z.of_nat i) (space a) (abs1 s' a) (bank_block (n_sys n) i a) (requests n i a ++ about i a new)
     (at_block a (l_responses s' ++ f i (bank_of i a)))) ->
  net_ok (mkNet (put_l1 (n_sys n) i s') (n_req n ++ new) f).
Proof using Type.
  intros Hok Hi Hsys Hout Hnew Hresp Hf Hfi Hv. pose proof (lookup_lt_Some _ _ _ Hi) as Hlt. destruct Hok. split; cbn [n_sys n_req n_resp put_l1 y_l1 y_l2] in *; try done.
  - intros q [Hq|Hq]%elem_of_app.
    + destruct (net_reqs0 q Hq) as (k & sk & Hk & Hqk & Hs). destruct (decide (i = k)) as [<-|Hne].
      * exists i, s'. rewrite list_lookup_insert_eq by done. split_and!; [done| |done]. rewrite Hi in Hk. injection Hk as <-.
        rewrite Hout. apply elem_of_app. by left.
      * exists k, sk. by rewrite list_lookup_insert_ne.
    + exists i, s'. rewrite list_lookup_insert_eq by done. split_and!; [done| |by apply Hnew]. rewrite Hout. apply elem_of_app. by right.
  - intros j b q. rewrite length_insert. apply net_bank_reqs0.
  - intros k j p Hp. destruct (decide (k = i)) as [->|Hne]; [by apply net_resps0, Hfi|]. rewrite Hf in Hp by done. by apply net_resps0.
  - intros k sk p. rewrite list_lookup_insert_Some. intros [(<- & <- & _)|[_ Hk]]; [apply Hresp|by eapply net_l1_resps0].
  - intros k sk a. rewrite list_lookup_insert_Some. intros [(<- & <- & _)|[Hne Hk]] Ha.
    + eapply view_perm, Hv; [|done]. unfold requests. cbn [n_sys n_req]. rewrite !about_app. solve_Permutation.
    + assert (about k a new = []) as E.
      { apply about_none. intros q Hq Hr _. destruct (Hnew q Hq) as (Hr' & _). rewrite Hr in Hr'. apply machineID_inj in Hr'. done. }
      replace (requests _ k a) with (requests n k a) by (unfold requests; cbn [n_sys n_req]; rewrite !about_app, E; by rewrite app_nil_r).
      unfold answers. cbn [n_resp]. rewrite Hf by done. by apply net_view0.
Qed.

(** A step of a bank. *)
Lemma l2_step_ok n j b b' new :
  net_ok n -> y_l2 (n_sys n) !! j = Some b -> ok (put_l2 (n_sys n) j b') -> k_out b' = k_out b ++ new ->
  (forall q, q ∈ k_requests b' -> q ∈ k_requests b) ->
  (forall i p, p ∈ new -> Z.of_nat i ∈ p_Destination p -> block (p_Address p) /\ bank_of i (p_Address p) = j) ->
  (forall a k, block a -> k ∈ readers (abs2 b' a) \/ writer (abs2 b' a) = Some k -> exists i, k = Z.of_nat i /\ bank_of i a = j) ->
  (forall a t, block a -> RccL2Spec.x_tbe (abs2 b' a) = Some t -> u_Space t = space a) ->
  (forall i s a, y_l1 (n_sys n) !! i = Some s -> block a -> bank_of i a = j ->
     advances (Z.of_nat i) (abs2 b a) (abs2 b' a) (about i a (k_requests b)) (about i a (k_requests b')) (at_block a (to_L1 (Z.of_nat i) new))) ->
  net_ok (mkNet (put_l2 (n_sys n) j b') (n_req n) (post (n_resp n) j new)).
Proof using Type.
  intros Hok Hj Hsys Hout Hreq Hnew Hwait Hspace Hadv. pose proof (lookup_lt_Some _ _ _ Hj) as Hlt. destruct Hok. split; cbn [n_sys n_req n_resp put_l2 y_l1 y_l2] in *; try done.
  - intros k bk q. rewrite list_lookup_insert_Some. intros [(<- & <- & _)|[Hne Hk]] Hq; [by eapply net_bank_reqs0, Hreq|by eapply net_bank_reqs0].
  - intros i k p. unfold post. case_decide as Hkj; [subst k|]; rewrite ?app_nil_r.
    + intros [Hp|[Hp Hd]%elem_of_to_L1]%elem_of_app; exists b'; rewrite list_lookup_insert_eq by done.
      * destruct (net_resps0 i j p Hp) as (b0 & Hb0 & Hp0 & Hrest). rewrite Hj in Hb0. injection Hb0 as <-. split; [done|].
        split; [rewrite Hout; apply elem_of_app; by left|done].
      * destruct (Hnew i p Hp Hd). split_and!; try done. rewrite Hout. apply elem_of_app. by right.
    + intros Hp. rewrite list_lookup_insert_ne by done. by apply net_resps0.
  - intros k bk a x. rewrite list_lookup_insert_Some. intros [(<- & <- & _)|[Hne Hk]]; [by apply Hwait|by eapply net_waiting0].
  - intros k bk a t. rewrite list_lookup_insert_Some. intros [(<- & <- & _)|[Hne Hk]]; [by apply Hspace|by eapply net_space0].
  - intros i s a Hi Ha. specialize (net_view0 i s a Hi Ha). unfold bank_block, requests, bank_requests, answers, post in *. cbn [n_sys n_req n_resp y_l2 put_l2] in *.
    destruct (decide (bank_of i a = j)) as [Hb|Hb].
    + rewrite Hb, list_lookup_insert_eq by done. rewrite Hb, Hj in net_view0. cbn [from_option] in *. rewrite about_app in *.
      rewrite app_assoc, at_block_app. eapply view_bank; [|exact net_view0]. by apply advances_pre, (Hadv i s a).
    + rewrite list_lookup_insert_ne by done. by rewrite app_nil_r.
Qed.
End ordered.
