(* ===== verification/SimtStack.v ===== *)
(** The reconvergence stack of a warp: [simt_stack] of
    [abstract_hardware_model.cc], with its [update] as written, a reference definition
    of what an update does, their equivalence, and the lockstep invariant. *)
From S2P Require Import Prelude.

Inductive op_type :=
  | NO_OP | ALU_OP | SFU_OP | ALU_SFU_OP | LOAD_OP | STORE_OP | BRANCH_OP | BARRIER_OP | MEMORY_BARRIER_OP
  | CALL_OPS | RET_OPS.
#[global] Instance op_type_eq_dec : EqDecision op_type.
Proof. solve_decision. Defined.

Inductive stack_entry_type := STACK_ENTRY_TYPE_NORMAL | STACK_ENTRY_TYPE_CALL.
#[global] Instance stack_entry_type_eq_dec : EqDecision stack_entry_type.
Proof. solve_decision. Defined.

(** [simt_mask_t], a bitset of [MAX_WARP_SIZE] bits, as the set of its members; its [test] throws
    beyond them. [address_type] is an unsigned 32-bit integer. *)
Definition MAX_WARP_SIZE : nat := 32.
Abbreviation simt_mask_t := (gset nat).
Definition null_pc : Z := u32 (-1).

Record simt_stack_entry := mkEntry {
  m_pc : Z; m_calldepth : Z; m_active_mask : simt_mask_t; m_recvg_pc : Z; m_branch_div_cycle : Z;
  m_type : stack_entry_type }.
Definition simt_stack_entry_new : simt_stack_entry := mkEntry null_pc 0 ∅ null_pc 0 STACK_ENTRY_TYPE_NORMAL.

(** The deque, top entry first. *)
Definition simt_stack := list simt_stack_entry.

Definition launch (start_pc : Z) (active_mask : simt_mask_t) : simt_stack :=
  [mkEntry start_pc 1 active_mask null_pc 0 STACK_ENTRY_TYPE_NORMAL].
Definition get_active_mask (s : simt_stack) : option simt_mask_t := m_active_mask <$> head s.
Definition get_pdom_stack_top_info (s : simt_stack) : option (Z * Z) := (fun e => (m_pc e, m_recvg_pc e)) <$> head s.
Definition get_rp (s : simt_stack) : option Z := m_recvg_pc <$> head s.

Definition set_m_pc (pc : Z) (e : simt_stack_entry) : simt_stack_entry :=
  mkEntry pc (m_calldepth e) (m_active_mask e) (m_recvg_pc e) (m_branch_div_cycle e) (m_type e).
Definition set_m_cycle (c : Z) (e : simt_stack_entry) : simt_stack_entry :=
  mkEntry (m_pc e) (m_calldepth e) (m_active_mask e) (m_recvg_pc e) c (m_type e).
Definition set_group (pc : Z) (mask : simt_mask_t) (e : simt_stack_entry) : simt_stack_entry :=
  mkEntry pc (m_calldepth e) mask (m_recvg_pc e) (m_branch_div_cycle e) (m_type e).
Definition set_recvg (r : Z) (e : simt_stack_entry) : simt_stack_entry :=
  mkEntry (m_pc e) (m_calldepth e) (m_active_mask e) r (m_branch_div_cycle e) (m_type e).
Definition set_depth (d : Z) (e : simt_stack_entry) : simt_stack_entry :=
  mkEntry (m_pc e) d (m_active_mask e) (m_recvg_pc e) (m_branch_div_cycle e) (m_type e).

Section update.
(** The size of a warp and the cycle counter. *)
Variables (m_warp_size : nat) (now : Z).
Implicit Types (s : simt_stack) (e : simt_stack_entry) (M done : simt_mask_t) (next_pc : list Z) (i : nat).

Definition pc_of next_pc i : Z := nth i next_pc null_pc.

(** The body of the scan over the threads: what is left of the active mask, the
    group's program counter and its members. *)
Definition scan_thread done next_pc (st : simt_mask_t * Z * simt_mask_t) i : simt_mask_t * Z * simt_mask_t :=
  let '(top_active_mask, tmp_next_pc, tmp_active_mask) := st in
  if decide (i ∈ top_active_mask) then
    if decide (i ∈ done) then (top_active_mask ∖ {[i]}, tmp_next_pc, tmp_active_mask)
    else if tmp_next_pc =? null_pc then (top_active_mask ∖ {[i]}, pc_of next_pc i, {[i]} ∪ tmp_active_mask)
    else if tmp_next_pc =? pc_of next_pc i then (top_active_mask ∖ {[i]}, tmp_next_pc, {[i]} ∪ tmp_active_mask)
    else st
  else st.
Definition threads : list nat := rev (seq 0 m_warp_size).
Definition scan done next_pc M : simt_mask_t * Z * simt_mask_t :=
  foldl (scan_thread done next_pc) (M, null_pc, ∅) threads.

Inductive loop_result := Returned (s : simt_stack) | Fell (s : simt_stack).

(** The while loop of [update]; [top_type] and [top_recvg_pc] are those of the
    top entry at its start. *)
Fixpoint update_loop (fuel : nat) done next_pc (recvg_pc : Z) (op : op_type) (top_recvg_pc : Z)
    (top_type : stack_entry_type) s M (warp_diverged : bool) (new_recvg_pc : Z) : option loop_result :=
  if decide (M = ∅) then Some (Fell s) else
  match fuel with
  | O => None
  | S fuel =>
      let loop := update_loop fuel done next_pc recvg_pc op top_recvg_pc top_type in
      let '(M, tmp_next_pc, tmp_active_mask) := scan done next_pc M in
      if tmp_next_pc =? null_pc then assert! bool_decide (M = ∅); loop s M warp_diverged new_recvg_pc
      else if bool_decide (op = CALL_OPS) then
        assert! bool_decide (M = ∅);
        Some (Returned (mkEntry tmp_next_pc 0 tmp_active_mask null_pc now STACK_ENTRY_TYPE_CALL :: s))
      else if bool_decide (op = RET_OPS /\ top_type = STACK_ENTRY_TYPE_CALL) then
        assert! bool_decide (M = ∅);
        match s with
        | _ :: t :: rest =>
            if bool_decide (tmp_next_pc = m_recvg_pc t /\ m_type t <> STACK_ENTRY_TYPE_CALL) then Some (Returned rest)
            else Some (Returned (set_m_pc tmp_next_pc t :: rest))
        | _ => None
        end
      else if bool_decide (tmp_next_pc = top_recvg_pc /\ top_type <> STACK_ENTRY_TYPE_CALL) then
        loop s M warp_diverged new_recvg_pc
      else
        match s with
        | [] => None
        | top :: rest =>
            let '(s, warp_diverged, new_recvg_pc) :=
              if negb (bool_decide (M = ∅)) && negb warp_diverged then
                (if recvg_pc =? top_recvg_pc then s
                 else simt_stack_entry_new :: set_m_cycle now (set_m_pc recvg_pc top) :: rest, true, recvg_pc)
              else (s, warp_diverged, new_recvg_pc) in
            if warp_diverged && (tmp_next_pc =? new_recvg_pc) then loop s M warp_diverged new_recvg_pc
            else
              match s with
              | [] => None
              | top :: rest =>
                  let top := set_group tmp_next_pc tmp_active_mask top in
                  let top := if (warp_diverged : bool) then set_recvg new_recvg_pc (set_depth 0 top)
                             else set_recvg top_recvg_pc top in
                  loop (simt_stack_entry_new :: top :: rest) M warp_diverged new_recvg_pc
              end
        end
  end.

Definition update (thread_done : simt_mask_t) next_pc (recvg_pc : Z) (next_inst_op : op_type) s : option simt_stack :=
  match s with
  | [] => None
  | top :: _ =>
      assert! Nat.eqb (length next_pc) m_warp_size;
      assert! negb (bool_decide (m_active_mask top = ∅));
      assert! Nat.leb m_warp_size MAX_WARP_SIZE;
      r ← update_loop (S (size (m_active_mask top))) thread_done next_pc recvg_pc next_inst_op (m_recvg_pc top) (m_type top)
            s (m_active_mask top) false null_pc;
      match r with Returned s => Some s | Fell s => match s with [] => None | _ :: s => Some s end end
  end.
End update.

(** ** Reference definition *)
Section spec.
Variables (m_warp_size : nat) (now : Z) (thread_done : simt_mask_t) (next_pc : list Z).
Implicit Types (s : simt_stack) (e : simt_stack_entry) (M : simt_mask_t) (i : nat) (p q r : Z).
Abbreviation pc_of := (pc_of next_pc).

(** The live threads of a mask, highest first, the program counters they go on at, and
    the threads that go on at one. *)
Definition live M : list nat := filter (fun i => i ∈ M /\ i ∉ thread_done) (threads m_warp_size).
Fixpoint distinct (l : list Z) : list Z :=
  match l with [] => [] | p :: l => p :: filter (fun q => q <> p) (distinct l) end.
Definition next_pcs M : list Z := distinct (map pc_of (live M)).
Definition group M p : simt_mask_t := list_to_set (filter (fun i => pc_of i = p) (live M)).

(** The entry of a group when the warp has diverged, and the entries of several; the
    first takes the place of [e]. *)
Definition branch r M p e : simt_stack_entry := set_recvg r (set_depth 0 (set_group p (group M p) e)).
Fixpoint branches r M (ps : list Z) e s : simt_stack :=
  match ps with [] => s | p :: ps => branches r M ps simt_stack_entry_new (branch r M p e :: s) end.

(** An update after an instruction other than a call or the return of one: threads
    at the reconvergence point leave the top entry; a single group that is left becomes the
    top entry; several make the top entry wait at [recvg_pc] below one entry each. *)
Definition leaves (top : simt_stack_entry) p : bool :=
  bool_decide (p = m_recvg_pc top /\ m_type top <> STACK_ENTRY_TYPE_CALL).
Definition advance (recvg_pc : Z) (top : simt_stack_entry) s : simt_stack :=
  let M := m_active_mask top in
  match filter (fun p => leaves top p = false) (next_pcs M) with
  | [] => s
  | (p :: _) as stays =>
      if bool_decide (last (next_pcs M) = Some p) then set_recvg (m_recvg_pc top) (set_group p (group M p) top) :: s
      else if recvg_pc =? m_recvg_pc top then branches recvg_pc M (filter (fun q => q <> recvg_pc) stays) top s
      else branches recvg_pc M (filter (fun q => q <> recvg_pc) stays) simt_stack_entry_new
             (set_m_cycle now (set_m_pc recvg_pc top) :: s)
  end.

(** A call keeps its threads together and starts an entry for the callee; its return
    drops that entry and goes on in the caller's, which goes too when it returns
    to its reconvergence point. Finished threads leave in either case. *)
Definition return_to p s : option simt_stack :=
  match s with
  | [] => None
  | t :: s => Some (if leaves t p then s else set_m_pc p t :: s)
  end.
Definition update_ref (recvg_pc : Z) (op : op_type) (top : simt_stack_entry) s : option simt_stack :=
  let M := m_active_mask top in
  if bool_decide (op = CALL_OPS) then
    match next_pcs M with
    | [] => Some s
    | [p] => Some (mkEntry p 0 (group M p) null_pc now STACK_ENTRY_TYPE_CALL :: top :: s)
    | _ => None
    end
  else if bool_decide (op = RET_OPS /\ m_type top = STACK_ENTRY_TYPE_CALL) then
    match next_pcs M with [] => Some s | [p] => return_to p s | _ => None end
  else Some (advance recvg_pc top s).

(** *** Lists of program counters *)
Lemma filter_all {A} (P : A -> Prop) `{!forall x, Decision (P x)} (l : list A) : (forall x, x ∈ l -> P x) -> filter P l = l.
Proof using Type.
  induction l as [|x l IH]; intros Hall; [done|]. rewrite filter_cons_True by (apply Hall; by left).
  f_equal. apply IH. intros y Hy. apply Hall. by right.
Qed.
Lemma filter_none {A} (P : A -> Prop) `{!forall x, Decision (P x)} (l : list A) : (forall x, x ∈ l -> ~ P x) -> filter P l = [].
Proof using Type.
  induction l as [|x l IH]; intros Hall; [done|]. rewrite filter_cons_False by (apply Hall; by left).
  apply IH. intros y Hy. apply Hall. by right.
Qed.

Lemma filter_map_pc p (l : list nat) :
  filter (fun q => q <> p) (map pc_of l) = map pc_of (filter (fun i => pc_of i <> p) l).
Proof using Type. induction l as [|i l IH]; [done|]. simpl. rewrite !filter_cons. repeat case_decide; simpl; congruence. Qed.

Lemma filter_swap p q (l : list Z) :
  filter (fun x => x <> p) (filter (fun x => x <> q) l) = filter (fun x => x <> q) (filter (fun x => x <> p) l).
Proof using Type. rewrite !list_filter_filter. apply list_filter_iff. tauto. Qed.

Lemma distinct_filter p (l : list Z) : distinct (filter (fun q => q <> p) l) = filter (fun q => q <> p) (distinct l).
Proof using Type.
  induction l as [|q l IH]; [done|]. rewrite filter_cons. simpl. case_decide.
  - simpl. rewrite filter_cons_True by done. by rewrite IH, filter_swap.
  - assert (q = p) as -> by (destruct (decide (q = p)); tauto). rewrite filter_cons_False by tauto.
    rewrite IH, list_filter_filter. apply list_filter_iff. tauto.
Qed.

Lemma elem_of_distinct p (l : list Z) : (p ∈ distinct l) <-> p ∈ l.
Proof using Type.
  induction l as [|q l IH]; [done|]. simpl. rewrite !elem_of_cons, list_elem_of_filter, IH.
  destruct (decide (p = q)); tauto.
Qed.
Lemma NoDup_distinct (l : list Z) : NoDup (distinct l).
Proof using Type.
  induction l as [|q l IH]; simpl; constructor; [|by apply NoDup_filter]. rewrite list_elem_of_filter. tauto.
Qed.

(** *** Groups *)
Definition threads_set : gset nat := list_to_set (threads m_warp_size).
Definition rest_of M p : simt_mask_t := list_to_set (filter (fun i => pc_of i <> p) (live M)).

Lemma elem_of_live M i : M ⊆ threads_set -> (i ∈ live M) <-> i ∈ M /\ i ∉ thread_done.
Proof using Type.
  intros HM. unfold live. rewrite list_elem_of_filter. split; [tauto|]. intros Hi. split; [done|].
  destruct Hi as [Hi _]. apply HM, elem_of_list_to_set in Hi. done.
Qed.
Lemma elem_of_group M p i : M ⊆ threads_set -> (i ∈ group M p) <-> i ∈ M /\ (i ∉ thread_done) /\ pc_of i = p.
Proof using Type. intros HM. unfold group. rewrite elem_of_list_to_set, list_elem_of_filter, elem_of_live by done. tauto. Qed.
Lemma elem_of_rest M p i : M ⊆ threads_set -> (i ∈ rest_of M p) <-> i ∈ M /\ (i ∉ thread_done) /\ pc_of i <> p.
Proof using Type. intros HM. unfold rest_of. rewrite elem_of_list_to_set, list_elem_of_filter, elem_of_live by done. tauto. Qed.
Lemma elem_of_next_pcs M p : M ⊆ threads_set -> (p ∈ next_pcs M) <-> exists i, i ∈ M /\ (i ∉ thread_done) /\ pc_of i = p.
Proof using Type.
  intros HM. unfold next_pcs. rewrite elem_of_distinct, list_elem_of_fmap. split.
  - intros (i & -> & Hi%elem_of_live); [|done]. exists i. tauto.
  - intros (i & Hi & Hd & <-). exists i. split; [done|]. by apply elem_of_live.
Qed.

Lemma rest_subset M p : M ⊆ threads_set -> rest_of M p ⊆ threads_set.
Proof using Type. intros HM i Hi%elem_of_rest; [|done]. apply HM. tauto. Qed.
Lemma live_rest M p : M ⊆ threads_set -> live (rest_of M p) = filter (fun i => pc_of i <> p) (live M).
Proof using Type.
  intros HM. unfold live at 1 2. rewrite list_filter_filter. apply list_filter_iff. intros i.
  rewrite elem_of_rest by done. tauto.
Qed.
Lemma next_pcs_rest M p ps : M ⊆ threads_set -> next_pcs M = p :: ps -> next_pcs (rest_of M p) = ps.
Proof using Type.
  intros HM Hp. unfold next_pcs in *. rewrite live_rest, <-filter_map_pc, distinct_filter, Hp by done.
  pose proof (NoDup_distinct (map pc_of (live M))) as Hnd. rewrite Hp in Hnd. apply NoDup_cons in Hnd as [Hnd _].
  rewrite filter_cons_False by tauto. apply filter_all. intros q Hq Heq. by subst q.
Qed.
Lemma group_rest M p q : M ⊆ threads_set -> p <> q -> group (rest_of M p) q = group M q.
Proof using Type.
  intros HM Hne. apply set_eq. intros i. rewrite !elem_of_group, elem_of_rest by (try apply rest_subset; done). naive_solver.
Qed.
Lemma next_pcs_nil M : M ⊆ threads_set -> next_pcs M = [] -> forall i, i ∈ M -> i ∈ thread_done.
Proof using Type.
  intros HM Hn i Hi. destruct (decide (i ∈ thread_done)) as [|Hd]; [done|].
  assert (pc_of i ∈ next_pcs M) as Hin by (apply elem_of_next_pcs; [done|by exists i]). rewrite Hn in Hin. by apply elem_of_nil in Hin.
Qed.
Lemma rest_empty M p : M ⊆ threads_set -> (rest_of M p = ∅) <-> next_pcs (rest_of M p) = [].
Proof using Type.
  intros HM. split.
  - intros ->. unfold next_pcs, live. by rewrite filter_none by set_solver.
  - intros Hn. apply set_eq. intros i. split; [|set_solver]. intros Hi.
    pose proof (next_pcs_nil _ (rest_subset M p HM) Hn i Hi). apply elem_of_rest in Hi; tauto.
Qed.
End spec.

(** ** The loop implements the reference *)
Section refinement.
Variables (m_warp_size : nat) (now : Z) (thread_done : simt_mask_t) (next_pc : list Z).
Implicit Types (s : simt_stack) (e top : simt_stack_entry) (M : simt_mask_t) (i : nat) (p q r : Z).
Abbreviation pc_of := (pc_of next_pc).
Abbreviation all_threads := (threads m_warp_size).
Abbreviation live_threads := (live m_warp_size thread_done).
Abbreviation pcs := (next_pcs m_warp_size thread_done next_pc).
Abbreviation rest_group := (rest_of m_warp_size thread_done next_pc).
Abbreviation group_of := (group m_warp_size thread_done next_pc).
Abbreviation masks M := (M ⊆ threads_set m_warp_size).
(** No live thread goes on at the null program counter. *)
Definition pcs_ok M : Prop := forall i, i ∈ M -> i ∉ thread_done -> pc_of i <> null_pc.


(** What a scan leaves and collects, once its group is found and from its start. *)
Lemma scan_found p (l : list nat) : p <> null_pc -> forall M g, exists M' g',
  foldl (scan_thread thread_done next_pc) (M, p, g) l = (M', p, g') /\
  (forall i, i ∈ M' <-> i ∈ M /\ ~ (i ∈ l /\ (i ∈ thread_done \/ pc_of i = p))) /\
  (forall i, i ∈ g' <-> i ∈ g \/ i ∈ l /\ i ∈ M /\ (i ∉ thread_done) /\ pc_of i = p).
Proof using Type.
  intros Hp. induction l as [|i l IH]; intros M g.
  { exists M, g. split; [done|]. split; intros j; rewrite elem_of_nil; tauto. }
  cbn [foldl scan_thread]. rewrite (proj2 (Z.eqb_neq p null_pc)) by done.
  assert (forall M' g', (forall j, j ∈ M' <-> j ∈ M /\ ~ (j = i /\ (j ∈ thread_done \/ pc_of j = p))) ->
    (forall j, j ∈ g' <-> j ∈ g \/ j = i /\ i ∈ M /\ (i ∉ thread_done) /\ pc_of i = p) ->
    exists M'' g'', foldl (scan_thread thread_done next_pc) (M', p, g') l = (M'', p, g'') /\
    (forall j, j ∈ M'' <-> j ∈ M /\ ~ (j ∈ i :: l /\ (j ∈ thread_done \/ pc_of j = p))) /\
    (forall j, j ∈ g'' <-> j ∈ g \/ j ∈ i :: l /\ j ∈ M /\ (j ∉ thread_done) /\ pc_of j = p)) as Hstep.
  { intros M' g' HM Hg. destruct (IH M' g') as (M'' & g'' & -> & HM' & Hg'). exists M'', g''. split; [done|].
    split; intros j; rewrite elem_of_cons; [rewrite HM', HM|rewrite Hg', Hg, HM]; destruct (decide (j = i)) as [->|]; tauto. }
  repeat (case_decide || case_match); apply Hstep; intros j; rewrite ?elem_of_difference, ?elem_of_union, ?elem_of_singleton;
    repeat match goal with H : (_ =? _) = true |- _ => apply Z.eqb_eq in H | H : (_ =? _) = false |- _ => apply Z.eqb_neq in H end;
    destruct (decide (j = i)) as [->|]; intuition congruence.
Qed.

Definition first_pc M (l : list nat) : Z :=
  from_option pc_of null_pc (head (filter (fun i => i ∈ M /\ i ∉ thread_done) l)).
Lemma scan_from (l : list nat) : forall M, pcs_ok M -> exists M' g',
  foldl (scan_thread thread_done next_pc) (M, null_pc, ∅) l = (M', first_pc M l, g') /\
  (forall i, i ∈ M' <-> i ∈ M /\ ~ (i ∈ l /\ (i ∈ thread_done \/ pc_of i = first_pc M l))) /\
  (forall i, i ∈ g' <-> i ∈ l /\ i ∈ M /\ (i ∉ thread_done) /\ pc_of i = first_pc M l).
Proof using Type.
  unfold first_pc. induction l as [|i l IH]; intros M HM.
  { exists M, ∅. split; [done|]. split; intros j; [rewrite elem_of_nil|]; set_solver. }
  cbn [foldl scan_thread]. rewrite filter_cons.
  destruct (decide (i ∈ M)) as [HiM|HiM]; [destruct (decide (i ∈ thread_done)) as [Hd|Hd]|].
  - rewrite decide_False by tauto. destruct (IH (M ∖ {[i]})) as (M' & g' & -> & HM' & Hg').
    { intros j Hj. apply HM. set_solver. }
    assert (filter (fun j => j ∈ M ∖ {[i]} /\ j ∉ thread_done) l = filter (fun j => j ∈ M /\ j ∉ thread_done) l) as Heq.
    { apply list_filter_iff. intros j. rewrite elem_of_difference, elem_of_singleton. split; [tauto|].
      intros [? ?]. split; [|done]. split; [done|]. intros ->. done. }
    rewrite Heq in *. exists M', g'. split; [done|]. set (p := from_option _ _ _) in *.
    split; intros j; [rewrite HM'|rewrite Hg']; rewrite elem_of_cons, elem_of_difference, elem_of_singleton;
      destruct (decide (j = i)) as [->|]; tauto.
  - rewrite decide_True by done. cbn [head from_option]. rewrite Z.eqb_refl.
    destruct (scan_found (pc_of i) l (HM i HiM Hd) (M ∖ {[i]}) ({[i]} ∪ ∅)) as (M' & g' & Heq & HM' & Hg').
    exists M', g'. split; [done|]. split; intros j; [rewrite HM'|rewrite Hg'];
      rewrite elem_of_cons, ?elem_of_union, ?elem_of_difference, elem_of_singleton; destruct (decide (j = i)) as [->|]; set_solver.
  - rewrite decide_False by tauto. destruct (IH M HM) as (M' & g' & -> & HM' & Hg'). exists M', g'. split; [done|].
    split; intros j; [rewrite HM'|rewrite Hg']; rewrite elem_of_cons; destruct (decide (j = i)) as [->|]; tauto.
Qed.

(** A scan extracts the group of the first of [next_pcs] and drops the finished threads. *)
Lemma scan_spec M : masks M -> pcs_ok M -> scan m_warp_size thread_done next_pc M =
  match pcs M with [] => (∅, null_pc, ∅) | p :: _ => (rest_group M p, p, group_of M p) end.
Proof using Type.
  intros Hm HM. unfold scan. destruct (scan_from all_threads M HM) as (M' & g' & -> & HM' & Hg').
  assert (forall j, j ∈ M -> j ∈ all_threads) as Hin. { intros j Hj%Hm. by apply elem_of_list_to_set in Hj. }
  assert (first_pc M all_threads = match pcs M with [] => null_pc | p :: _ => p end) as Hp.
  { unfold first_pc, pcs, live. by destruct (filter _ all_threads). }
  rewrite Hp in *. clear Hp.
  pose proof (next_pcs_nil m_warp_size thread_done next_pc M Hm) as Hnil. destruct (pcs M) as [|p ps] eqn:Hps.
  - f_equal; [f_equal|]; apply set_eq; intros j; [rewrite HM'|rewrite Hg'];
      specialize (Hnil eq_refl j); specialize (Hin j); set_solver.
  - f_equal; [f_equal|]; apply set_eq; intros j; [rewrite HM', elem_of_rest by done|rewrite Hg', elem_of_group by done];
      specialize (Hin j); tauto.
Qed.

(** The loop's scans walk through [next_pcs]. *)
Lemma loop_scan M : masks M -> pcs_ok M -> forall p ps, pcs M = p :: ps ->
  scan m_warp_size thread_done next_pc M = (rest_group M p, p, group_of M p) /\ p <> null_pc /\ (M <> ∅) /\
  masks (rest_group M p) /\ pcs_ok (rest_group M p) /\ pcs (rest_group M p) = ps /\ ((rest_group M p = ∅) <-> ps = []).
Proof using Type.
  intros Hm HM p ps Hp. rewrite scan_spec, Hp by done.
  destruct (elem_of_next_pcs m_warp_size thread_done next_pc M p Hm) as [(i & Hi & Hd & Hpi) _].
  { rewrite Hp. by left. }
  assert (pcs (rest_group M p) = ps) as Hps by by apply next_pcs_rest.
  split; [done|]. split; [subst p; by apply HM|]. split; [set_solver|]. split; [by apply rest_subset|].
  split; [|split; [done|by rewrite rest_empty, Hps]].
  intros j Hj%elem_of_rest; [|done]. apply HM. tauto.
Qed.
Lemma loop_done M : masks M -> pcs_ok M -> pcs M = [] -> scan m_warp_size thread_done next_pc M = (∅, null_pc, ∅).
Proof using Type. intros Hm HM Hp. by rewrite scan_spec, Hp. Qed.

Lemma branches_rest M p r ps : masks M -> p ∉ ps -> forall e s,
  branches m_warp_size thread_done next_pc r (rest_group M p) ps e s = branches m_warp_size thread_done next_pc r M ps e s.
Proof using Type.
  intros Hm. induction ps as [|q ps IH]; intros Hp e s; [done|]. apply not_elem_of_cons in Hp as [? ?]. cbn [branches].
  unfold branch. by rewrite IH, group_rest.
Qed.

Lemma pcs_head M p ps : pcs M = p :: ps -> p ∉ ps.
Proof using Type.
  intros Hp. pose proof (NoDup_distinct (map pc_of (live_threads M))) as Hnd. unfold pcs in Hp. rewrite Hp in Hnd.
  by apply NoDup_cons in Hnd as [? _].
Qed.

Section loop.
Variables (recvg_pc : Z) (op : op_type) (top_recvg_pc : Z) (top_type : stack_entry_type).
Hypothesis no_call : op <> CALL_OPS.
Hypothesis no_return : ~ (op = RET_OPS /\ top_type = STACK_ENTRY_TYPE_CALL).
Abbreviation loop fuel := (update_loop m_warp_size now fuel thread_done next_pc recvg_pc op top_recvg_pc top_type).
Abbreviation stays p := (bool_decide (p = top_recvg_pc /\ top_type <> STACK_ENTRY_TYPE_CALL) = false).

Lemma loop_empty fuel s w r : loop fuel s ∅ w r = Some (Fell s).
Proof using Type. destruct fuel; simpl; by rewrite decide_True. Qed.
Lemma loop_nil fuel M s w r : masks M -> pcs_ok M -> pcs M = [] -> loop (S fuel) s M w r = Some (Fell s).
Proof using Type.
  intros Hm HM Hp. cbn [update_loop]. case_decide; [done|]. rewrite loop_done by done. simpl. rewrite bool_decide_true by done. apply loop_empty.
Qed.

(** Once the warp has diverged each group gets its entry, but those that go on
    at a reconvergence point. *)
Lemma loop_diverged r : forall ps fuel M s e, pcs M = ps -> masks M -> pcs_ok M -> (length ps < fuel)%nat ->
  exists x, loop fuel (e :: s) M true r =
    Some (Fell (x :: branches m_warp_size thread_done next_pc r M (filter (fun p => p <> r /\ stays p) ps) e s)).
Proof using no_call no_return.
  induction ps as [|p ps IH]; intros fuel M s e Hp Hm HM Hf; (destruct fuel as [|fuel]; [simpl in Hf; lia|]).
  { exists e. by apply loop_nil. }
  destruct (loop_scan M Hm HM p ps Hp) as (Hscan & Hnull & Hne & Hm' & HM' & Hps & _).
  assert (p ∉ ps) as Hnd by by apply (pcs_head M).
  assert (forall P `{!forall x, Decision (P x)}, p ∉ filter P ps) as Hnf by (intros P ?; rewrite list_elem_of_filter; tauto).
  cbn [update_loop]. rewrite decide_False, Hscan by done. rewrite (proj2 (Z.eqb_neq _ _)) by done.
  rewrite !bool_decide_false by done. simpl in Hf. rewrite filter_cons.
  destruct (bool_decide _) eqn:Hout.
  - rewrite decide_False by (intros [? ?]; congruence). destruct (IH fuel (rest_group M p) s e) as [x ->]; [done..|lia|].
    exists x. by rewrite branches_rest.
  - rewrite andb_false_r. cbn [andb]. destruct (Z.eqb_spec p r) as [->|Hr].
    + rewrite decide_False by tauto. destruct (IH fuel (rest_group M r) s e) as [x ->]; [done..|lia|].
      exists x. by rewrite branches_rest.
    + rewrite decide_True by done. cbn [branches]. edestruct (IH fuel (rest_group M p)) as [x Hx]; [done..|lia|]. rewrite Hx.
      exists x. by rewrite branches_rest.
Qed.

(** Before it has, the groups at the reconvergence point leave; the first that stays
    decides. *)
Lemma loop_start top s : forall ps fuel M, pcs M = ps -> masks M -> pcs_ok M -> (length ps < fuel)%nat ->
  exists x, loop fuel (top :: s) M false null_pc = Some (Fell (x ::
    match filter (fun p => stays p) ps with
    | [] => s
    | p :: _ =>
        if bool_decide (last ps = Some p) then set_recvg top_recvg_pc (set_group p (group_of M p) top) :: s
        else if recvg_pc =? top_recvg_pc
        then branches m_warp_size thread_done next_pc recvg_pc M (filter (fun p => p <> recvg_pc /\ stays p) ps) top s
        else branches m_warp_size thread_done next_pc recvg_pc M (filter (fun p => p <> recvg_pc /\ stays p) ps)
               simt_stack_entry_new (set_m_cycle now (set_m_pc recvg_pc top) :: s)
    end)).
Proof using no_call no_return.
  induction ps as [|p ps IH]; intros fuel M Hp Hm HM Hf; (destruct fuel as [|fuel]; [simpl in Hf; lia|]).
  { exists top. by apply loop_nil. }
  destruct (loop_scan M Hm HM p ps Hp) as (Hscan & Hnull & Hne & Hm' & HM' & Hps & Hempty).
  assert (p ∉ ps) as Hnd by by apply (pcs_head M).
  cbn [update_loop]. rewrite decide_False, Hscan by done. rewrite (proj2 (Z.eqb_neq _ _)) by done.
  rewrite (bool_decide_false (op = CALL_OPS)), (bool_decide_false (op = RET_OPS /\ _)) by done. simpl in Hf.
  rewrite !filter_cons. destruct (bool_decide (p = top_recvg_pc /\ _)) eqn:Hout.
  { rewrite !decide_False by (try intros [? ?]; congruence). destruct (IH fuel (rest_group M p)) as [x ->]; [done..|lia|].
    exists x. do 3 f_equal. destruct (filter _ ps) as [|q qs] eqn:Hq; [done|].
    assert (q ∈ ps) as Hqs by (eapply list_elem_of_filter; rewrite Hq; by left).
    assert (last (p :: ps) = last ps) as -> by (destruct ps; [by apply elem_of_nil in Hqs|done]).
    rewrite group_rest, !branches_rest by (try (rewrite list_elem_of_filter); (done || tauto || congruence)). done. }
  rewrite decide_True by done. destruct (decide (ps = [])) as [->|Hps0].
  - rewrite (bool_decide_true (_ = ∅)) by tauto. rewrite (bool_decide_true (last _ = _)) by done. cbn [negb andb].
    rewrite (proj2 Hempty) by done. eexists. by rewrite loop_empty.
  - rewrite (bool_decide_false (_ = ∅)) by tauto. cbn [negb andb].
    rewrite (bool_decide_false (last _ = _)).
    2: { destruct ps as [|q ps]; [done|]. intros Hl. apply Hnd. apply last_Some_elem_of. done. }
    assert (forall P `{!forall x, Decision (P x)}, p ∉ filter P ps) as Hnf by (intros P ?; rewrite list_elem_of_filter; tauto).
    destruct (Z.eqb_spec recvg_pc top_recvg_pc) as [Hr|Hr]; cbn [andb]; (destruct (Z.eqb_spec p recvg_pc) as [Hpr|Hpr];
      [rewrite decide_False by tauto|rewrite decide_True by done; cbn [branches]]);
      (edestruct (loop_diverged recvg_pc ps fuel (rest_group M p)) as [x Hx]; [done..|lia|]);
      rewrite Hx; exists x; by rewrite branches_rest.
Qed.
End loop.

Lemma loop_single fuel recvg_pc op (top_recvg_pc : Z) top_type s M :
  masks M -> pcs_ok M -> (op = CALL_OPS \/ op <> CALL_OPS /\ op = RET_OPS /\ top_type = STACK_ENTRY_TYPE_CALL) ->
  update_loop m_warp_size now (S fuel) thread_done next_pc recvg_pc op top_recvg_pc top_type s M false null_pc =
  match pcs M with
  | [] => Some (Fell s)
  | [p] => if bool_decide (op = CALL_OPS) then Some (Returned (mkEntry p 0 (group_of M p) null_pc now STACK_ENTRY_TYPE_CALL :: s))
           else s' ← return_to p (tail s); Some (Returned s')
  | _ => None
  end.
Proof using Type.
  intros Hm HM Hop. destruct (pcs M) as [|p ps] eqn:Hp; [by apply loop_nil|].
  destruct (loop_scan M Hm HM p ps Hp) as (Hscan & Hnull & Hne & _ & _ & _ & Hempty).
  cbn [update_loop]. rewrite decide_False, Hscan by done. rewrite (proj2 (Z.eqb_neq _ _)) by done.
  destruct Hop as [->|(Hc & -> & ->)].
  - rewrite (bool_decide_true (CALL_OPS = CALL_OPS)) by done. destruct ps as [|q ps].
    + by rewrite (bool_decide_true (_ = ∅)) by tauto.
    + rewrite (bool_decide_false (_ = ∅)); [done|]. intros He%Hempty. done.
  - rewrite (bool_decide_false (RET_OPS = CALL_OPS)), (bool_decide_true (_ /\ _)) by done. destruct ps as [|q ps].
    + rewrite (bool_decide_true (_ = ∅)) by tauto. destruct s as [|? [|t s]]; try done. simpl. unfold leaves. by case_bool_decide.
    + rewrite (bool_decide_false (_ = ∅)); [done|]. intros He%Hempty. done.
Qed.

Lemma pcs_length M : masks M -> (length (pcs M) <= size M)%nat.
Proof using Type.
  intros Hm. unfold pcs. trans (length (live_threads M)).
  - rewrite <-(length_map pc_of). induction (map pc_of (live_threads M)) as [|q l IH]; simpl; [done|].
    pose proof (length_filter (fun x => x <> q) (distinct l)). lia.
  - rewrite <-(size_list_to_set (C := gset nat)).
    + apply subseteq_size. intros i Hi%elem_of_list_to_set. apply elem_of_live in Hi; tauto.
    + apply NoDup_filter. unfold threads. apply (NoDup_Permutation_proper _ _ (Permutation_rev (seq 0 m_warp_size))), NoDup_seq.
Qed.

Lemma update_ref_eq recvg_pc op top s :
  (m_warp_size <= MAX_WARP_SIZE)%nat -> length next_pc = m_warp_size -> m_active_mask top <> ∅ -> masks (m_active_mask top) -> pcs_ok (m_active_mask top) ->
  update m_warp_size now thread_done next_pc recvg_pc op (top :: s) =
  update_ref m_warp_size now thread_done next_pc recvg_pc op top s.
Proof using Type.
  intros Hw Hl Hne Hm HM. unfold update, update_ref. rewrite Hl, Nat.eqb_refl, bool_decide_false by done.
  rewrite (proj2 (Nat.leb_le _ _) Hw).
  destruct (decide (op = CALL_OPS)) as [Hc|Hc];
    [|destruct (decide (op = RET_OPS /\ m_type top = STACK_ENTRY_TYPE_CALL)) as [[Hr Ht]|Hr]].
  - rewrite loop_single, (bool_decide_true (op = _)) by tauto. by destruct (pcs _) as [|? [|]].
  - rewrite loop_single, (bool_decide_false (op = _)), (bool_decide_true (_ /\ _)) by tauto.
    destruct (pcs _) as [|? [|]]; [done| |done]. by destruct s.
  - rewrite (bool_decide_false (op = _)), (bool_decide_false (_ /\ _)) by done.
    destruct (loop_start recvg_pc op (m_recvg_pc top) (m_type top) Hc Hr top s _ (S (size (m_active_mask top))) _ eq_refl Hm HM)
      as [x ->]; [pose proof (pcs_length _ Hm); lia|].
    simpl. f_equal. unfold advance, leaves. rewrite <-(list_filter_filter (fun q => q <> recvg_pc)).
    destruct (filter _ (pcs _)) as [|q qs] eqn:Hq; [done|]. repeat case_match; try done.

Qed.

(** C17: [simt_stack::update] is its reference definition on every instruction: the scans
    and the loop over what is left of the mask split the top entry's threads into
    the groups with the same next program counter, in the order of their highest thread,
    and replace the top entry as [update_ref] says, its assertions failing only where
    a call or return diverges, or a return has no caller. *)
Theorem update_is_reference recvg_pc op top s :
  (m_warp_size <= MAX_WARP_SIZE)%nat -> length next_pc = m_warp_size -> m_active_mask top <> ∅ -> masks (m_active_mask top) -> pcs_ok (m_active_mask top) ->
  update m_warp_size now thread_done next_pc recvg_pc op (top :: s) =
  update_ref m_warp_size now thread_done next_pc recvg_pc op top s.
Proof using Type. apply update_ref_eq. Qed.
End refinement.

(** ** Lockstep *)
Section lockstep.
Variables (m_warp_size : nat).
Implicit Types (s : simt_stack) (e t top : simt_stack_entry) (done M U : simt_mask_t) (i : nat) (p q r : Z) (pc : nat -> Z).

(** The entry a thread goes on with: the topmost that holds it, within the
    frame of the innermost call. *)
Fixpoint owner s i : option simt_stack_entry :=
  match s with
  | [] => None
  | e :: s => if decide (i ∈ m_active_mask e) then Some e
              else if decide (m_type e = STACK_ENTRY_TYPE_CALL) then None else owner s i
  end.
Definition covered s i : Prop := Exists (fun e => i ∈ m_active_mask e) s.

(** The stack agrees with the program counters of the live threads, the threads of [U] being those
    of the entries above: an entry's threads that are in no higher one are at its program
    counter; below an entry with a reconvergence point its threads are owned by an entry that
    waits there; below the entry of a call is the caller's, all of whose live threads
    are in the call. *)
Fixpoint aligned pc done U s : Prop :=
  match s with
  | [] => True
  | e :: s =>
      ((m_active_mask e <> ∅) /\ m_active_mask e ⊆ threads_set m_warp_size) /\
      (forall i, i ∈ m_active_mask e -> i ∉ U -> i ∉ done -> pc i = m_pc e) /\
      (match m_type e with
       | STACK_ENTRY_TYPE_NORMAL => m_recvg_pc e <> null_pc -> forall i, i ∈ m_active_mask e -> i ∉ done ->
           exists e', owner s i = Some e' /\ m_pc e' = m_recvg_pc e
       | STACK_ENTRY_TYPE_CALL => m_recvg_pc e = null_pc /\ exists t s', s = t :: s' /\ m_active_mask e ⊆ m_active_mask t /\
           forall i, i ∈ m_active_mask t -> i ∉ done -> i ∈ U ∪ m_active_mask e
       end) /\
      aligned pc done (U ∪ m_active_mask e) s
  end.

(** Steps of the other threads: program counters change and threads finish in [U] only. *)
Lemma aligned_step pc pc' done done' s : forall U,
  (forall i, i ∈ threads_set m_warp_size -> i ∉ U -> i ∉ done' -> pc' i = pc i) -> done ⊆ done' ->
  aligned pc done U s -> aligned pc' done' U s.
Proof using Type.
  induction s as [|e s IH]; intros U Hpc Hd; [done|]. intros (Hm & Ho & Ht & Hs). split; [done|].
  split; [|split; [|apply IH; [set_solver|done..]]].
  - intros i ???. rewrite Hpc by (try done; by apply Hm). apply Ho; set_solver.
  - destruct (m_type e).
    + intros Hr i ??. apply Ht; set_solver.
    + destruct Ht as (? & t & s' & ? & ? & Ht). split; [done|]. exists t, s'. split; [done|]. split; [done|].
      intros i ??. apply Ht; set_solver.
Qed.

(** When entries above go, their live threads must be where their owners wait. *)
Lemma aligned_shrink pc done s : forall U U', U ⊆ U' ->
  (forall i, i ∈ U' -> i ∉ U -> i ∉ done -> exists e', owner s i = Some e' /\ m_pc e' = pc i) ->
  aligned pc done U' s -> aligned pc done U s.
Proof using Type.
  induction s as [|e s IH]; intros U U' HU Hown; [done|]. intros (Hm & Ho & Ht & Hs). split; [done|].
  split; [|split].
  - intros i Hi HiU Hd. destruct (decide (i ∈ U')) as [Hi'|]; [|by apply Ho].
    destruct (Hown i Hi' HiU Hd) as (e' & He' & <-). simpl in He'. rewrite decide_True in He' by done. congruence.
  - destruct (m_type e) eqn:Hty; [done|]. destruct Ht as (? & t & s' & ? & ? & Ht). split; [done|]. exists t, s'.
    split; [done|]. split; [done|]. intros i Hi Hd. specialize (Ht i Hi Hd).
    destruct (decide (i ∈ m_active_mask e)); [set_solver|]. destruct (decide (i ∈ U)); [set_solver|].
    destruct (Hown i) as (e' & He' & _); [set_solver|done..|]. simpl in He'. by rewrite decide_False, decide_True in He'.
  - apply (IH _ (U' ∪ m_active_mask e)); [set_solver| |done]. intros i Hi HiU Hd.
    destruct (Hown i) as (e' & He' & Hpc); [set_solver..|]. simpl in He'. rewrite decide_False in He' by set_solver.
    case_decide; [done|]. by exists e'.
Qed.

Lemma owner_covered s i e : owner s i = Some e -> covered s i.
Proof using Type.
  induction s as [|e' s IH]; simpl; [done|]. case_decide; [by left|]. case_decide; [done|]. intros H'. right. by apply IH.
Qed.
End lockstep.

Section preservation.
Variables (m_warp_size : nat) (now : Z) (thread_done : simt_mask_t) (next_pc : list Z).
Implicit Types (s : simt_stack) (e t top : simt_stack_entry) (M U : simt_mask_t) (i : nat) (p q r : Z).
Abbreviation pc_of := (pc_of next_pc).
Abbreviation pcs := (next_pcs m_warp_size thread_done next_pc).
Abbreviation group_of := (group m_warp_size thread_done next_pc).
Abbreviation masks M := (M ⊆ threads_set m_warp_size).
Abbreviation aligned := (aligned m_warp_size pc_of thread_done).

Definition groups M (ps : list Z) : simt_mask_t := ⋃ (map (group_of M) ps).
Lemma elem_of_groups M ps i : masks M -> (i ∈ groups M ps) <-> i ∈ M /\ (i ∉ thread_done) /\ pc_of i ∈ ps.
Proof using Type.
  intros Hm. unfold groups. rewrite elem_of_union_list. split.
  - intros (X & (p & -> & Hp)%list_elem_of_fmap & Hi%elem_of_group); [|done]. naive_solver.
  - intros (Hi & Hd & Hp). exists (group_of M (pc_of i)). split; [by apply list_elem_of_fmap_2|]. by apply elem_of_group.
Qed.

Lemma group_nonempty M p : masks M -> p ∈ pcs M -> group_of M p <> ∅.
Proof using Type. intros Hm (i & Hi)%elem_of_next_pcs; [|done]. intros He. assert (i ∈ group_of M p) by by apply elem_of_group. set_solver. Qed.
Lemma group_masks M p : masks M -> masks (group_of M p).
Proof using Type. intros Hm i Hi%elem_of_group; [|done]. apply Hm. tauto. Qed.

(** The entries of a divergence. *)
Lemma branches_aligned r M : masks M -> forall ps e s, NoDup ps -> (forall p, p ∈ ps -> p ∈ pcs M) ->
  aligned (groups M ps) s ->
  (r <> null_pc -> forall i, i ∈ groups M ps -> exists e', owner s i = Some e' /\ m_pc e' = r) ->
  (m_type e = STACK_ENTRY_TYPE_CALL -> r = null_pc /\ exists t s', s = t :: s' /\ groups M ps ⊆ m_active_mask t /\
     forall i, i ∈ m_active_mask t -> i ∉ thread_done -> i ∈ groups M ps) ->
  aligned ∅ (branches m_warp_size thread_done next_pc r M ps e s) /\
  forall i, i ∈ groups M ps \/ covered s i -> covered (branches m_warp_size thread_done next_pc r M ps e s) i.
Proof using Type.
  intros Hm. induction ps as [|p ps IH]; intros e s Hnd Hps Hs How Hcall.
  { split; [exact Hs|]. intros i [Hi|]; [|done]. by apply elem_of_groups in Hi as (_ & _ & ?%elem_of_nil). }
  apply NoDup_cons in Hnd as [Hp Hnd]. cbn [branches].
  assert (groups M (p :: ps) = groups M ps ∪ group_of M p) as Hg by (unfold groups; simpl; set_solver).
  assert (forall i, i ∈ groups M ps -> i ∉ group_of M p) as Hdisj.
  { intros i (?&?&?)%elem_of_groups (?&?&?)%elem_of_group; try done. congruence. }
  destruct (IH simt_stack_entry_new (branch m_warp_size thread_done next_pc r M p e :: s)) as [Ha Hc]; [done| | | |done| ].
  - intros q Hq. apply Hps. by right.
  - split; [|split; [|split]]; cbn.
    + split; [apply group_nonempty; [done|apply Hps; by left]|by apply group_masks].
    + intros i Hi _ _. apply elem_of_group in Hi; tauto.
    + destruct (m_type e).
      * intros Hr i Hi _. apply How; [done|]. rewrite Hg. set_solver.
      * destruct Hcall as (-> & t & s' & -> & Ht & Ht'); [done|]. split; [done|]. exists t, s'. split; [done|]. rewrite Hg in *. set_solver.
    + by rewrite <-Hg.
  - intros Hr i Hi. destruct (How Hr i) as (e' & He' & Hpc); [rewrite Hg; set_solver|]. exists e'. split; [|done].
    cbn. rewrite decide_False by by apply Hdisj. case_decide as Hty; [|done]. destruct (Hcall Hty) as [? _]. congruence.
  - split; [done|]. intros i Hi. apply Hc. rewrite Hg in Hi. unfold covered in *. rewrite Exists_cons. cbn. set_solver.
Qed.

(** The instruction of the top entry has been executed: below, the stack still agrees with the
    program counters. *)
Record executed top s : Prop := {
  ex_nonempty : m_active_mask top <> ∅;
  ex_masks : masks (m_active_mask top);
  ex_pcs : forall i, i ∈ m_active_mask top -> i ∉ thread_done -> pc_of i <> null_pc;
  ex_normal : m_type top = STACK_ENTRY_TYPE_NORMAL -> m_recvg_pc top <> null_pc ->
    forall i, i ∈ m_active_mask top -> i ∉ thread_done -> exists e', owner s i = Some e' /\ m_pc e' = m_recvg_pc top;
  ex_call : m_type top = STACK_ENTRY_TYPE_CALL -> m_recvg_pc top = null_pc /\ exists t s', s = t :: s' /\
    m_active_mask top ⊆ m_active_mask t /\ forall i, i ∈ m_active_mask t -> i ∉ thread_done -> i ∈ m_active_mask top;
  ex_below : aligned (m_active_mask top) s }.
Definition keeps s s' : Prop := forall i, i ∉ thread_done -> covered s i -> covered s' i.

Lemma executed_split top s i : executed top s -> i ∈ m_active_mask top -> i ∉ thread_done ->
  (pc_of i ∈ pcs (m_active_mask top)) /\ ((leaves top (pc_of i) = false) \/
    m_type top = STACK_ENTRY_TYPE_NORMAL /\ pc_of i = m_recvg_pc top /\ exists e', owner s i = Some e' /\ m_pc e' = pc_of i).
Proof using Type.
  intros Hex Hi Hd. split; [apply elem_of_next_pcs; [apply Hex|by exists i]|]. unfold leaves. case_bool_decide as Hl; [right|by left].
  destruct Hl as [Hp Ht]. assert (m_type top = STACK_ENTRY_TYPE_NORMAL) as Hn by by destruct (m_type top).
  split; [done|]. split; [done|]. rewrite Hp. apply (ex_normal top s Hex Hn); [|done..]. rewrite <-Hp. by apply (ex_pcs top s Hex).
Qed.

(** Threads go from the top entry: those that stay are [U]. *)
Lemma below_aligned top s U : executed top s -> U ⊆ m_active_mask top ->
  (forall i, i ∈ m_active_mask top -> i ∉ thread_done -> i ∉ U -> leaves top (pc_of i) = true) -> aligned U s.
Proof using Type.
  intros Hex HU Hl. apply (aligned_shrink _ _ _ s U (m_active_mask top) HU); [|apply Hex]. intros i Hi HiU Hd.
  destruct (executed_split top s i Hex Hi Hd) as [_ [Hs|(_ & _ & ?)]]; [|done]. rewrite Hl in Hs by done. done.
Qed.
Lemma gone_covered top s i : executed top s -> i ∉ thread_done -> covered (top :: s) i -> covered s i \/
  i ∈ m_active_mask top /\ (leaves top (pc_of i) = false) /\ pc_of i ∈ pcs (m_active_mask top).
Proof using Type.
  intros Hex Hd Hc. apply Exists_cons in Hc as [Hi|Hc]; [|by left].
  destruct (executed_split top s i Hex Hi Hd) as [? [?|(_ & _ & e' & He' & _)]]; [by right|left]. by apply owner_covered in He'.
Qed.

Lemma filter_head_last (P : Z -> Prop) `{!forall x, Decision (P x)} (l qs : list Z) p :
  NoDup l -> last l = Some p -> filter P l = p :: qs -> qs = [].
Proof using Type.
  intros Hnd (l' & ->)%last_Some Hf. rewrite filter_app in Hf.
  apply NoDup_app in Hnd as (_ & Hnd & _). destruct (filter P l') as [|q l''] eqn:Hl.
  - rewrite filter_cons in Hf. case_decide; simplify_list_eq; done.
  - simplify_list_eq. destruct (Hnd p); [|by left]. eapply list_elem_of_filter. rewrite Hl. by left.
Qed.

Abbreviation stays top := (filter (fun p => leaves top p = false) (pcs (m_active_mask top))).
Lemma elem_of_stays top q : (q ∈ stays top) <-> (leaves top q = false) /\ q ∈ pcs (m_active_mask top).
Proof using Type. apply (list_elem_of_filter (fun p => leaves top p = false)). Qed.
Lemma pcs_NoDup M : NoDup (pcs M).
Proof using Type. apply NoDup_distinct. Qed.

Lemma all_leave top s : executed top s -> stays top = [] -> aligned ∅ s /\ keeps (top :: s) s.
Proof using Type.
  intros Hex Hst. assert (forall i, i ∈ m_active_mask top -> i ∉ thread_done -> leaves top (pc_of i) = true) as Hl.
  { intros i Hi Hd. destruct (executed_split top s i Hex Hi Hd) as [Hin _]. destruct (leaves top (pc_of i)) eqn:Hl; [done|].
    assert (pc_of i ∈ stays top) as Hf by by apply elem_of_stays. rewrite Hst in Hf. by apply elem_of_nil in Hf. }
  split; [apply (below_aligned top); [done|set_solver|intros; by apply Hl]|].
  intros i Hd Hc. destruct (gone_covered top s i Hex Hd Hc) as [?|(Hi & Hl' & _)]; [done|]. rewrite Hl in Hl' by done. done.
Qed.

Lemma one_stays top s p : executed top s -> stays top = [p] ->
  let s' := set_recvg (m_recvg_pc top) (set_group p (group_of (m_active_mask top) p) top) :: s in
  aligned ∅ s' /\ keeps (top :: s) s'.
Proof using Type.
  intros Hex Hst. assert (masks (m_active_mask top)) as Hm by apply Hex. 
  assert (forall i, i ∈ (m_active_mask top) -> i ∉ thread_done -> leaves top (pc_of i) = false -> i ∈ group_of (m_active_mask top) p) as Hp.
  { intros i Hi Hd Hl. apply elem_of_group; [done|]. split; [done|]. split; [done|]. apply list_elem_of_singleton. rewrite <-Hst.
    apply elem_of_stays. split; [done|]. by apply (executed_split top s). }
  assert (group_of (m_active_mask top) p ⊆ (m_active_mask top)) as Hg by (intros i Hi%elem_of_group; [tauto|done]).
  assert (p ∈ stays top) as [Hlp Hin]%elem_of_stays by (rewrite Hst; by left). split.
  - split; [|split; [|split]]; cbn.
    + split; [by apply group_nonempty|by apply group_masks].
    + intros i Hi _ _. apply elem_of_group in Hi; tauto.
    + destruct (m_type top) eqn:Hty.
      * intros Hr i Hi Hd. apply (ex_normal top s Hex); auto.
      * destruct (ex_call top s Hex Hty) as (Hr & t & s' & -> & Ht & Ht'). split; [done|]. exists t, s'. split; [done|].
        split; [set_solver|]. intros i Hi Hd. apply elem_of_union_r, Hp; [auto|done|]. unfold leaves. apply bool_decide_false. tauto.
    + rewrite (left_id_L ∅ (∪)). apply (below_aligned top); [done..|]. intros i Hi Hd Hn. destruct (leaves top (pc_of i)) eqn:Hl; [done|].
      destruct Hn. by apply Hp.
  - intros i Hd Hc. apply Exists_cons. destruct (gone_covered top s i Hex Hd Hc) as [?|(Hi & Hl & _)]; [by right|left]. by apply Hp.
Qed.

(** The groups that stay and do not go on at the new reconvergence point. *)
Lemma elem_of_stay_groups r top i : masks (m_active_mask top) ->
  (i ∈ groups (m_active_mask top) (filter (fun q => q <> r) (stays top))) <->
  i ∈ m_active_mask top /\ (i ∉ thread_done) /\ (leaves top (pc_of i) = false) /\ pc_of i <> r.
Proof using Type.
  intros Hm. rewrite elem_of_groups, (list_elem_of_filter (fun q => q <> r)), elem_of_stays by done.
  split; [tauto|]. intros (Hi & Hd & Hl & Hr). split; [done|]. split; [done|]. split; [done|]. split; [done|].
  apply elem_of_next_pcs; [done|by exists i].
Qed.

Lemma diverge_same top s : executed top s ->
  let s' := branches m_warp_size thread_done next_pc (m_recvg_pc top) (m_active_mask top)
              (filter (fun q => q <> m_recvg_pc top) (stays top)) top s in
  aligned ∅ s' /\ keeps (top :: s) s'.
Proof using Type.
  intros Hex. assert (masks (m_active_mask top)) as Hm by apply Hex. 
  set (ps := filter (fun q => q <> m_recvg_pc top) (stays top)).
  assert (forall i, i ∈ (m_active_mask top) -> i ∉ thread_done -> leaves top (pc_of i) = false -> i ∈ groups (m_active_mask top) ps) as Hstay.
  { intros i Hi Hd Hl. apply elem_of_stay_groups; [done|]. split; [done|]. split; [done|]. split; [done|]. intros Hr.
    destruct (m_type top) eqn:Hty; [unfold leaves in Hl; rewrite bool_decide_true in Hl by (rewrite Hty; done); done|].
    destruct (ex_call top s Hex Hty) as [Hn _]. apply (ex_pcs top s Hex i); congruence. }
  destruct (branches_aligned (m_recvg_pc top) (m_active_mask top) Hm ps top s) as [Ha Hk].
  - apply NoDup_filter, NoDup_filter, pcs_NoDup.
  - intros q [_ Hq%elem_of_stays]%list_elem_of_filter. tauto.
  - apply (below_aligned top); [done|intros i Hi%elem_of_stay_groups; tauto|]. intros i Hi Hd Hn.
    destruct (leaves top (pc_of i)) eqn:Hl; [done|]. destruct Hn. by apply Hstay.
  - intros Hr i Hi. apply elem_of_stay_groups in Hi as (Hi & Hd & _); [|done]. destruct (m_type top) eqn:Hty; [by apply (ex_normal top s Hex)|].
    destruct (ex_call top s Hex Hty). congruence.
  - intros Hty. destruct (ex_call top s Hex Hty) as (Hn & t & s' & -> & Ht & Ht'). split; [done|]. exists t, s'. split; [done|].
    split; [intros i Hi%elem_of_stay_groups; [apply Ht; tauto|done]|]. intros i Hi Hd. apply Hstay; [auto|done|].
    unfold leaves. apply bool_decide_false. rewrite Hty. tauto.
  - split; [exact Ha|]. intros i Hd Hc. apply Hk. destruct (gone_covered top s i Hex Hd Hc) as [?|(Hi & Hl & _)]; [by right|left]. by apply Hstay.
Qed.

Lemma diverge_new r top s : executed top s ->
  (forall i, i ∈ m_active_mask top -> i ∉ thread_done -> leaves top (pc_of i) = false) ->
  let s' := branches m_warp_size thread_done next_pc r (m_active_mask top)
              (filter (fun q => q <> r) (stays top)) simt_stack_entry_new (set_m_cycle now (set_m_pc r top) :: s) in
  aligned ∅ s' /\ keeps (top :: s) s'.
Proof using Type.
  intros Hex Hstay. assert (masks (m_active_mask top)) as Hm by apply Hex. 
  set (ps := filter (fun q => q <> r) (stays top)). assert (groups (m_active_mask top) ps ⊆ (m_active_mask top)) as Hg by (intros i Hi%elem_of_stay_groups; [tauto|done]).
  destruct (branches_aligned r (m_active_mask top) Hm ps simt_stack_entry_new (set_m_cycle now (set_m_pc r top) :: s)) as [Ha Hk].
  - apply NoDup_filter, NoDup_filter, pcs_NoDup.
  - intros q [_ Hq%elem_of_stays]%list_elem_of_filter. tauto.
  - split; [split; apply Hex|]. cbn. split; [|split].
    + intros i Hi Hn Hd. destruct (decide (pc_of i = r)) as [|Hr]; [done|]. destruct Hn. apply elem_of_stay_groups; auto.
    + destruct (m_type top) eqn:Hty; [apply Hex; done|]. destruct (ex_call top s Hex Hty) as (Hn & t & s' & -> & Ht & Ht').
      split; [done|]. exists t, s'. split; [done|]. split; [done|]. intros i Hi Hd. apply elem_of_union_r. by apply Ht'.
    + replace (groups (m_active_mask top) ps ∪ m_active_mask top) with (m_active_mask top) by set_solver. apply Hex.
  - intros Hr i Hi. cbn. rewrite decide_True by by apply Hg. by eexists.
  - done.
  - split; [exact Ha|]. intros i Hd Hc. apply Hk. right. apply Exists_cons in Hc as [Hi|Hc]; [by left|by right].
Qed.

Lemma advance_aligned recvg_pc top s : executed top s ->
  (m_type top = STACK_ENTRY_TYPE_NORMAL -> m_recvg_pc top ∈ pcs (m_active_mask top) ->
   (1 < length (pcs (m_active_mask top)))%nat -> recvg_pc = m_recvg_pc top) ->
  aligned ∅ (advance m_warp_size now thread_done next_pc recvg_pc top s) /\
  keeps (top :: s) (advance m_warp_size now thread_done next_pc recvg_pc top s).
Proof using Type.
  intros Hex Hpd. unfold advance. destruct (stays top) as [|p qs] eqn:Hst; [by apply all_leave|].
  pose proof (pcs_NoDup (m_active_mask top)) as Hnd. case_bool_decide as Hlast.
  { pose proof (filter_head_last _ _ _ _ Hnd Hlast Hst) as ->. by apply one_stays. }
  rewrite <-Hst. destruct (Z.eqb_spec recvg_pc (m_recvg_pc top)) as [->|Hr]; [by apply diverge_same|].
  apply diverge_new; [done|]. intros i Hi Hd. destruct (executed_split top s i Hex Hi Hd) as [Hin [?|(Ht & Hp & _)]]; [done|].
  destruct Hr. apply Hpd; [done|by rewrite <-Hp|]. assert (p ∈ stays top) as [_ Hps]%elem_of_stays by (rewrite Hst; by left).
  destruct (pcs (m_active_mask top)) as [|q1 [|q2 l]]; simpl; [by apply elem_of_nil in Hps| |lia].
  apply list_elem_of_singleton in Hps as ->. done.
Qed.

(** Calls and returns keep the threads of the top entry together. *)
Lemma together top s p i : executed top s -> pcs (m_active_mask top) = [p] -> i ∈ m_active_mask top -> i ∉ thread_done -> pc_of i = p.
Proof using Type.
  intros Hex Hp Hi Hd. apply list_elem_of_singleton. rewrite <-Hp. apply elem_of_next_pcs; [apply Hex|by exists i].
Qed.
Lemma call_aligned top s p : executed top s -> pcs (m_active_mask top) = [p] ->
  let s' := mkEntry p 0 (group_of (m_active_mask top) p) null_pc now STACK_ENTRY_TYPE_CALL :: top :: s in
  aligned ∅ s' /\ keeps (top :: s) s'.
Proof using Type.
  intros Hex Hp. assert (masks (m_active_mask top)) as Hm by apply Hex.
  assert (group_of (m_active_mask top) p ⊆ m_active_mask top) as Hg by (intros i Hi%elem_of_group; [tauto|done]).
  assert (forall i, i ∈ m_active_mask top -> i ∉ thread_done -> i ∈ group_of (m_active_mask top) p) as Hall.
  { intros i Hi Hd. apply elem_of_group; [done|]. split; [done|]. split; [done|]. by apply (together top s). }
  split; [|intros i Hd Hc; by right]. split; [split|split; [|split; [|split; [split|split; [|split]]]]]; cbn.
  - apply group_nonempty; [done|]. rewrite Hp. by left.
  - by apply group_masks.
  - intros i Hi _ _. apply elem_of_group in Hi; tauto.
  - split; [done|]. exists top, s. split; [done|]. split; [done|]. intros i Hi Hd. apply elem_of_union_r. by apply Hall.
  - apply Hex.
  - done.
  - intros i Hi Hn Hd. destruct Hn. apply elem_of_union_r. by apply Hall.
  - destruct (m_type top) eqn:Hty; [apply Hex; done|]. destruct (ex_call top s Hex Hty) as (Hn & t & s' & -> & Ht & Ht').
    split; [done|]. exists t, s'. split; [done|]. split; [done|]. intros i Hi Hd. apply elem_of_union_r. by apply Ht'.
  - replace (∅ ∪ group_of (m_active_mask top) p ∪ m_active_mask top) with (m_active_mask top) by set_solver. apply Hex.
Qed.

Lemma return_aligned top s p : executed top s -> pcs (m_active_mask top) = [p] -> m_type top = STACK_ENTRY_TYPE_CALL ->
  exists s', return_to p s = Some s' /\ aligned ∅ s' /\ keeps (top :: s) s'.
Proof using Type.
  intros Hex Hp Hty. destruct (ex_call top s Hex Hty) as (_ & t & s' & -> & Ht & Ht').
  assert (forall i, i ∈ m_active_mask t -> i ∉ thread_done -> pc_of i = p) as Hpc.
  { intros i Hi Hd. apply (together top (t :: s')); auto. }
  destruct (ex_below _ _ Hex) as (Htm & _ & Htt & Hs). simpl. eexists. split; [done|]. destruct (leaves t p) eqn:Hl.
  - unfold leaves in Hl. apply bool_decide_eq_true in Hl as [-> Hnt]. destruct (m_type t); [|done].
    assert (forall i, i ∈ m_active_mask t -> i ∉ thread_done -> exists e', owner s' i = Some e' /\ m_pc e' = pc_of i) as Hown.
    { intros i Hi Hd. destruct (Htt) with (i := i) as (e' & ? & ?); [|done..|].
      - rewrite <-(Hpc i Hi Hd). apply (ex_pcs _ _ Hex); auto.
      - exists e'. by rewrite (Hpc i Hi Hd). }
    split.
    + apply (aligned_shrink _ _ _ s' ∅ (m_active_mask top ∪ m_active_mask t)); [set_solver| |done].
      intros i Hi _ Hd. apply Hown; [set_solver|done].
    + intros i Hd [Hi|[Hi|Hi]%Exists_cons]%Exists_cons; [| |done].
      all: destruct (Hown i) as (e' & He' & _); [auto|done|by apply owner_covered in He'].
  - split.
    + split; [done|]. split; [intros i Hi _ Hd; by apply Hpc|]. split.
      * cbn. destruct (m_type t); [done|]. destruct Htt as (? & u & s'' & ? & ? & Htt). split; [done|]. exists u, s''.
        split; [done|]. split; [done|]. set_solver.
      * cbn. by replace (∅ ∪ m_active_mask t) with (m_active_mask top ∪ m_active_mask t) by set_solver.
    + intros i Hd [Hi|[Hi|Hi]%Exists_cons]%Exists_cons; apply Exists_cons; cbn; auto.
Qed.

(** Every update keeps the stack aligned with the program counters. *)
Lemma update_aligned recvg_pc op top s : (m_warp_size <= MAX_WARP_SIZE)%nat -> length next_pc = m_warp_size -> executed top s ->
  (m_type top = STACK_ENTRY_TYPE_NORMAL -> m_recvg_pc top ∈ pcs (m_active_mask top) ->
   (1 < length (pcs (m_active_mask top)))%nat -> recvg_pc = m_recvg_pc top) ->
  (op = CALL_OPS \/ op = RET_OPS /\ m_type top = STACK_ENTRY_TYPE_CALL -> (length (pcs (m_active_mask top)) <= 1)%nat) ->
  exists s', update m_warp_size now thread_done next_pc recvg_pc op (top :: s) = Some s' /\ aligned ∅ s' /\ keeps (top :: s) s'.
Proof using Type.
  intros Hw Hl Hex Hpd Hone. assert (pcs (m_active_mask top) = [] -> aligned ∅ s /\ keeps (top :: s) s) as Hnone.
  { intros Hn. by apply all_leave; [|rewrite Hn]. }
  rewrite update_ref_eq by (done || apply Hex || exact (ex_pcs _ _ Hex)). unfold update_ref.
  case_bool_decide as Hc; [|case_bool_decide as Hr; [|eexists; split; [done|by apply advance_aligned]]];
    (destruct (pcs (m_active_mask top)) as [|p [|q ps]] eqn:Hp; [by eauto| |simpl in Hone; exfalso; cut (S (S (length ps)) <= 1)%nat; [lia|tauto]]).
  - eexists. split; [done|]. by apply call_aligned.
  - apply return_aligned; tauto.
Qed.
End preservation.

(** ** The warp *)
Section warp.
(** [ptx_thread_done], [get_pc] and [get_return_pc] of the threads of a warp. *)
Variables (warpSize : nat) (now : Z) (ptx_thread_done : nat -> bool) (get_pc get_return_pc : nat -> Z).
Definition RECONVERGE_RETURN_PC : Z := u32 (-2).

Definition update_thread (st : simt_mask_t * list Z * Z) (i : nat) : simt_mask_t * list Z * Z :=
  let '(thread_done, next_pc, reconvergence_pc) := st in
  if ptx_thread_done i then ({[i]} ∪ thread_done, next_pc ++ [u32 (-1)], reconvergence_pc)
  else (thread_done, next_pc ++ [get_pc i], if reconvergence_pc =? RECONVERGE_RETURN_PC then get_return_pc i else reconvergence_pc).
Definition updateSIMTStack (reconvergence_pc : Z) (op : op_type) (s : simt_stack) : option simt_stack :=
  let '(thread_done, next_pc, reconvergence_pc) := foldl update_thread (∅, [], reconvergence_pc) (seq 0 warpSize) in
  update warpSize now thread_done next_pc reconvergence_pc op s.

Definition done_threads : simt_mask_t := list_to_set (filter (fun i => ptx_thread_done i = true) (seq 0 warpSize)).
Definition thread_pcs : list Z := map (fun i => if ptx_thread_done i then null_pc else get_pc i) (seq 0 warpSize).
(** The reconvergence point: that of the instruction, unless it is the return address. *)
Definition reconvergence (reconvergence_pc : Z) : Z :=
  foldl (fun r i => if r =? RECONVERGE_RETURN_PC then get_return_pc i else r) reconvergence_pc
    (filter (fun i => ptx_thread_done i = false) (seq 0 warpSize)).

Lemma update_threads (l : list nat) : forall d n r, foldl update_thread (d, n, r) l =
  (list_to_set (filter (fun i => ptx_thread_done i = true) l) ∪ d,
   n ++ map (fun i => if ptx_thread_done i then null_pc else get_pc i) l,
   foldl (fun r i => if r =? RECONVERGE_RETURN_PC then get_return_pc i else r) r (filter (fun i => ptx_thread_done i = false) l)).
Proof using Type.
  induction l as [|i l IH]; intros d n r.
  { simpl. rewrite app_nil_r. f_equal. f_equal. set_solver. }
  cbn [foldl update_thread map]. rewrite !filter_cons. destruct (ptx_thread_done i) eqn:Hi; rewrite IH.
  - rewrite decide_True, decide_False by done. rewrite <-app_assoc. f_equal. f_equal. set_solver.
  - rewrite decide_False, decide_True by done. by rewrite <-app_assoc.
Qed.
Lemma updateSIMTStack_update r op s :
  updateSIMTStack r op s = update warpSize now done_threads thread_pcs (reconvergence r) op s.
Proof using Type. unfold updateSIMTStack. rewrite update_threads. simpl. by rewrite (right_id_L ∅ (∪)). Qed.

Lemma elem_of_done_threads i : (i < warpSize)%nat -> (i ∈ done_threads) <-> ptx_thread_done i = true.
Proof using Type.
  clear now get_pc get_return_pc. intros Hi. unfold done_threads. rewrite elem_of_list_to_set, list_elem_of_filter, elem_of_seq. split; [tauto|].
  intros H'. split; [done|lia].
Qed.
Lemma pc_of_thread i : (i < warpSize)%nat -> ptx_thread_done i = false -> pc_of thread_pcs i = get_pc i.
Proof using Type.
  clear now get_return_pc. intros Hi Hd. unfold pc_of, thread_pcs. apply nth_lookup_Some. rewrite list_lookup_fmap, lookup_seq_lt by done. simpl. by rewrite Hd.
Qed.
Lemma elem_of_threads_set i : (i ∈ threads_set warpSize) <-> (i < warpSize)%nat.
Proof using Type.
  clear now ptx_thread_done get_pc get_return_pc. unfold threads_set, threads.
  rewrite elem_of_list_to_set, list_elem_of_In, <-in_rev, <-list_elem_of_In, elem_of_seq. lia.
Qed.

Lemma live_thread M i : M ⊆ threads_set warpSize -> i ∈ M ->
  ((i ∉ done_threads) <-> ptx_thread_done i = false) /\ (i ∉ done_threads -> pc_of thread_pcs i = get_pc i).
Proof using Type.
  clear now get_return_pc. intros HM Hi%HM%elem_of_threads_set. rewrite elem_of_done_threads, not_true_iff_false by done.
  split; [done|]. by apply pc_of_thread.
Qed.
Lemma executed_step top s pc done : aligned warpSize pc done ∅ (top :: s) -> done ⊆ done_threads ->
  (forall i, (i < warpSize)%nat -> i ∉ m_active_mask top -> ptx_thread_done i = false -> get_pc i = pc i) ->
  (forall i, i ∈ m_active_mask top -> ptx_thread_done i = false -> get_pc i <> null_pc) ->
  executed warpSize done_threads thread_pcs top s.
Proof using Type.
  clear now get_return_pc. intros ((Hne & Hm) & _ & Ht & Hs) Hd Hother Hnull. rewrite (left_id_L ∅ (∪)) in Hs. split; [done|done| | | |].
  - intros i Hi Hid. destruct (live_thread _ i Hm Hi) as [Hl ->]; [|done]. apply Hnull; tauto.
  - intros Hty. rewrite Hty in Ht. intros Hr i Hi Hid. apply Ht; [done..|]. set_solver.
  - intros Hty. rewrite Hty in Ht. destruct Ht as (Hr & t & s' & -> & Ht & Ht'). split; [done|]. exists t, s'. split; [done|].
    split; [done|]. intros i Hi Hid. specialize (Ht' i Hi). set_solver.
  - apply (aligned_step warpSize pc _ done); [|done..]. intros i Hi Hn Hid. destruct (live_thread _ i (reflexivity _) Hi) as [Hl ->]; [|done].
    apply Hother; [by apply elem_of_threads_set|done|by apply Hl].
Qed.

(** C16: Threads stay in lockstep. When the stack agrees with the program counters before an
    instruction of the top entry is executed, and the instruction's reconvergence point
    is that of the entry whenever some of its threads get there and others do not (the
    immediate postdominator is no further than an enclosing one), [updateSIMTStack] succeeds and
    gives a stack that agrees with the new program counters: all live threads of
    the new active mask are at its program counter, at every divergence,
    reconvergence, call and return, and no live thread is lost. *)
Theorem updateSIMTStack_lockstep r op top s pc done : (warpSize <= MAX_WARP_SIZE)%nat ->
  aligned warpSize pc done ∅ (top :: s) -> done ⊆ done_threads ->
  (forall i, (i < warpSize)%nat -> i ∉ m_active_mask top -> ptx_thread_done i = false -> get_pc i = pc i) ->
  (forall i, i ∈ m_active_mask top -> ptx_thread_done i = false -> get_pc i <> null_pc) ->
  (forall i j, i ∈ m_active_mask top -> j ∈ m_active_mask top -> ptx_thread_done i = false -> ptx_thread_done j = false ->
     get_pc i = m_recvg_pc top -> get_pc j <> get_pc i -> m_type top = STACK_ENTRY_TYPE_NORMAL ->
     reconvergence r = m_recvg_pc top) ->
  (forall i j, i ∈ m_active_mask top -> j ∈ m_active_mask top -> ptx_thread_done i = false -> ptx_thread_done j = false ->
     op = CALL_OPS \/ op = RET_OPS /\ m_type top = STACK_ENTRY_TYPE_CALL -> get_pc i = get_pc j) ->
  exists s', updateSIMTStack r op (top :: s) = Some s' /\
    aligned warpSize get_pc done_threads ∅ s' /\
    (forall top', head s' = Some top' -> forall i, i ∈ m_active_mask top' -> ptx_thread_done i = false -> get_pc i = m_pc top') /\
    (forall i, ptx_thread_done i = false -> covered (top :: s) i -> covered s' i).
Proof using Type.
  intros Hw Hal Hd Hother Hnull Hpd Hone. rewrite updateSIMTStack_update. pose proof (executed_step top s pc done Hal Hd Hother Hnull) as Hex.
  assert (m_active_mask top ⊆ threads_set warpSize) as Hm by apply Hal.
  assert (forall p, p ∈ next_pcs warpSize done_threads thread_pcs (m_active_mask top) ->
    exists i, i ∈ m_active_mask top /\ ptx_thread_done i = false /\ get_pc i = p) as Hpcs.
  { intros p (i & Hi & Hid & <-)%elem_of_next_pcs; [|done]. destruct (live_thread _ i Hm Hi) as [Hl ->]; [|done]. exists i. tauto. }
  pose proof (NoDup_distinct (map (pc_of thread_pcs) (live warpSize done_threads (m_active_mask top)))) as Hnd.
  fold (next_pcs warpSize done_threads thread_pcs (m_active_mask top)) in Hnd.
  destruct (update_aligned warpSize now done_threads thread_pcs (reconvergence r) op top s Hw) as (s' & Hu & Ha & Hk).
  - unfold thread_pcs. by rewrite length_map, length_seq.
  - done.
  - intros Hty Hin Hlen. destruct (Hpcs _ Hin) as (i & Hi & Hid & Hp).
    assert (exists q, q ∈ next_pcs warpSize done_threads thread_pcs (m_active_mask top) /\ q <> m_recvg_pc top) as (q & Hq & Hne).
    { destruct (next_pcs _ _ _ _) as [|q1 [|q2 l]]; simpl in Hlen; [lia..|]. apply NoDup_cons in Hnd as [Hnd _].
      destruct (decide (q1 = m_recvg_pc top)) as [->|]; [exists q2|exists q1]; set_solver. }
    destruct (Hpcs _ Hq) as (j & Hj & Hjd & Hjp). apply (Hpd i j); congruence.
  - intros Hop. destruct (next_pcs _ _ _ _) as [|q1 [|q2 l]] eqn:Hn; simpl; [lia..|].
    destruct (Hpcs q1) as (i & Hi & Hid & Hp); [by left|]. destruct (Hpcs q2) as (j & Hj & Hjd & Hq); [by right; left|].
    apply NoDup_cons in Hnd as [[]%not_elem_of_cons _]. rewrite (Hone i j) in Hp by done. congruence.
  - assert (aligned warpSize get_pc done_threads ∅ s') as Ha'.
    { apply (aligned_step warpSize (pc_of thread_pcs) _ done_threads); [|done..]. intros i Hi _ Hid.
      by destruct (live_thread _ i (reflexivity _) Hi) as [_ ->]. }
    exists s'. split; [done|]. split; [done|]. split.
    + intros top' Ht i Hi Hid. destruct s' as [|e s']; [done|]. injection Ht as ->. destruct Ha' as ((_ & Hm') & Hpc & _).
      apply Hpc; [done|set_solver|]. by apply (live_thread _ i Hm' Hi).
    + intros i Hid Hc. apply Hk; [|done]. intros Hin%elem_of_list_to_set%list_elem_of_filter. destruct Hin. congruence.
Qed.
End warp.

(** A launched warp is aligned. *)
Lemma launch_aligned n pc done start_pc M : M <> ∅ -> M ⊆ threads_set n -> (forall i, i ∈ M -> pc i = start_pc) ->
  aligned n pc done ∅ (launch start_pc M).
Proof. intros Hne HM Hpc. split; [done|]. split; [intros i Hi _ _; by apply Hpc|]. split; [by intros []|done]. Qed.

(** A warp of four at a branch: thread 3 has finished, thread 1 takes the branch. *)
Definition example_done (i : nat) : bool := Nat.eqb i 3.
Definition example_pc (i : nat) : Z := if Nat.eqb i 1 then 24 else 16.
Definition example_top : simt_stack_entry := mkEntry 8 1 {[0; 1; 2; 3]}%nat null_pc 0 STACK_ENTRY_TYPE_NORMAL.

Lemma example_members i : i ∈ m_active_mask example_top -> i = 0%nat \/ i = 1%nat \/ i = 2%nat \/ i = 3%nat.
Proof. cbn. rewrite !elem_of_union, !elem_of_singleton. tauto. Qed.
Lemma example_threads i : i ∈ threads_set 4 -> i ∈ m_active_mask example_top.
Proof. assert (threads_set 4 ⊆ m_active_mask example_top) as Hs by (apply (bool_decide_unpack _); vm_compute; exact I). apply Hs. Qed.

Lemma update_is_reference_witness : update 4 7 {[3%nat]} [16; 24; 16; null_pc] 40 BRANCH_OP [example_top] =
  update_ref 4 7 {[3%nat]} [16; 24; 16; null_pc] 40 BRANCH_OP example_top [] /\
  update_ref 4 7 {[3%nat]} [16; 24; 16; null_pc] 40 BRANCH_OP example_top [] =
  Some [mkEntry 24 0 {[1%nat]} 40 0 STACK_ENTRY_TYPE_NORMAL; mkEntry 16 0 {[0; 2]}%nat 40 0 STACK_ENTRY_TYPE_NORMAL;
        mkEntry 40 1 {[0; 1; 2; 3]}%nat null_pc 7 STACK_ENTRY_TYPE_NORMAL].
Proof.
  split; [apply update_is_reference|vm_compute; reflexivity].
  - unfold MAX_WARP_SIZE. lia.
  - reflexivity.
  - vm_compute. discriminate.
  - apply (bool_decide_unpack _). vm_compute. exact I.
  - intros i Hm Hd. destruct (example_members i Hm) as [->|[->|[->| ->]]]; try (vm_compute; discriminate). by destruct Hd; apply elem_of_singleton.
Defined.

Lemma updateSIMTStack_lockstep_witness : exists s', updateSIMTStack 4 7 example_done example_pc (fun _ => 0) 40 BRANCH_OP [example_top] = Some s' /\
  aligned 4 example_pc (done_threads 4 example_done) ∅ s' /\
  (forall top', head s' = Some top' -> forall i, i ∈ m_active_mask top' -> example_done i = false -> example_pc i = m_pc top') /\
  (forall i, example_done i = false -> covered [example_top] i -> covered s' i).
Proof.
  apply (updateSIMTStack_lockstep 4 7 example_done example_pc (fun _ => 0) 40 BRANCH_OP example_top [] (fun _ => 8) ∅).
  - unfold MAX_WARP_SIZE. lia.
  - apply launch_aligned; [vm_compute; discriminate|apply (bool_decide_unpack _); vm_compute; exact I|done].
  - apply empty_subseteq.
  - intros i Hi Hn _. destruct Hn. apply elem_of_threads_set, example_threads in Hi. exact Hi.
  - intros i Hm _. destruct (example_members i Hm) as [->|[->|[->| ->]]]; vm_compute; discriminate.
  - intros i j _ _ _ _ Hr. exfalso. revert Hr. unfold example_pc. case_match; vm_compute; discriminate.
  - intros i j _ _ _ _ [Hc|[Hc _]]; discriminate.
Defined.
