(* ===== verification/Scoreboard.v ===== *)
(** The register scoreboard of a shader core ([gpgpu-sim/scoreboard.cc]) and the counts of
    outstanding register writes of its load/store unit ([gpgpu-sim/shader.cc]), with the system
    they form with the issue stage: no instruction is issued while a register it reads
    or writes is pending. *)
From S2P Require Import Prelude SimtStack.

(** ** Instructions *)
Inductive memory_op_t := no_memory_op | memory_load | memory_store.
#[global] Instance memory_op_t_eq_dec : EqDecision memory_op_t.
Proof. solve_decision. Defined.
Inductive memory_space :=
  | undefined_space | reg_space | local_space | shared_space | param_space_unclassified | param_space_kernel
  | param_space_local | const_space | tex_space | surf_space | global_space | generic_space | instruction_space.
#[global] Instance memory_space_eq_dec : EqDecision memory_space.
Proof. solve_decision. Defined.

(** What the scoreboard reads of an instruction: registers are unsigned, [pred], [ar1] and
    [ar2] signed; none is 0 or less. *)
Record inst_t := mkInst {
  op : op_type; memory_op : memory_op_t; out : list Z; in_ : list Z; pred : Z; ar1 : Z; ar2 : Z; space : memory_space }.
Definition is_load (i : inst_t) : bool := bool_decide (op i = LOAD_OP \/ memory_op i = memory_load).
Definition is_local (t : memory_space) : bool := bool_decide (t = local_space \/ t = param_space_local).
Definition is_global (t : memory_space) : bool := bool_decide (t = global_space).

(** ** The scoreboard *)
Record Scoreboard := mkScoreboard {
  reg_table : list (gset Z); longopregs : list (gset Z); cacheopregs : list (gset Z) }.
Definition Scoreboard_new (n_warps : nat) : Scoreboard :=
  mkScoreboard (replicate n_warps ∅) (replicate n_warps ∅) (replicate n_warps ∅).

(** A change of a warp's row; an index beyond the vector is undefined. *)
Definition on_row (f : gset Z -> gset Z) (wid : nat) (t : list (gset Z)) : option (list (gset Z)) :=
  row ← t !! wid; Some (<[wid := f row]> t).
(** The loops over the four destination registers, 0 being none. *)
Fixpoint for_regs {S} (l : list Z) (f : Z -> S -> option S) (s : S) : option S :=
  match l with
  | [] => Some s
  | r :: l => s ← (if 0 <? r then f r s else Some s); for_regs l f s
  end.

Definition reserveRegister (wid : nat) (regnum : Z) (s : Scoreboard) : option Scoreboard :=
  row ← (reg_table s !! wid : option (gset Z));
  assert! negb (bool_decide (regnum ∈@{gset Z} row));
  t ← on_row (union {[regnum]}) wid (reg_table s);
  Some (mkScoreboard t (longopregs s) (cacheopregs s)).
Definition releaseRegister (wid : nat) (regnum : Z) (s : Scoreboard) : option Scoreboard :=
  row ← (reg_table s !! wid : option (gset Z));
  if negb (bool_decide (regnum ∈@{gset Z} row)) then Some s
  else t ← on_row (fun row => row ∖ {[regnum]}) wid (reg_table s); Some (mkScoreboard t (longopregs s) (cacheopregs s)).
Definition islongop (warp_id : nat) (regnum : Z) (s : Scoreboard) : option bool :=
  row ← (longopregs s !! warp_id : option (gset Z)); Some (bool_decide (regnum ∈@{gset Z} row)).

Definition mark_long (wid : nat) (r : Z) (s : Scoreboard) : option Scoreboard :=
  t ← on_row (union {[r]}) wid (longopregs s); Some (mkScoreboard (reg_table s) t (cacheopregs s)).
Definition mark_cache (wid : nat) (r : Z) (s : Scoreboard) : option Scoreboard :=
  t ← on_row (union {[r]}) wid (cacheopregs s); Some (mkScoreboard (reg_table s) (longopregs s) t).
Definition reserveRegisters (wid : nat) (i : inst_t) (s : Scoreboard) : option Scoreboard :=
  s ← for_regs (out i) (reserveRegister wid) s;
  s ← (if is_load i && bool_decide (space i = global_space \/ space i = local_space \/ space i = tex_space)
       then for_regs (out i) (mark_long wid) s else Some s);
  if is_load i && (is_local (space i) || is_global (space i)) then for_regs (out i) (mark_cache wid) s else Some s.

Definition releaseOne (wid : nat) (r : Z) (s : Scoreboard) : option Scoreboard :=
  s ← releaseRegister wid r s;
  t ← on_row (fun row => row ∖ {[r]}) wid (longopregs s);
  u ← on_row (fun row => row ∖ {[r]}) wid (cacheopregs s);
  Some (mkScoreboard (reg_table s) t u).
Definition releaseRegisters (wid : nat) (i : inst_t) (s : Scoreboard) : option Scoreboard :=
  for_regs (out i) (releaseOne wid) s.

(** The registers of an instruction, as a set of [int]s. *)
Definition add_reg (r : Z) (regs : gset Z) : gset Z := if 0 <? r then {[s32 r]} ∪ regs else regs.
Definition inst_regs (i : inst_t) : gset Z :=
  foldl (fun regs r => add_reg r regs) ∅ (out i ++ in_ i ++ [pred i; ar1 i; ar2 i]).
Definition collides (regs : gset Z) (row : gset Z) : bool := existsb (fun r => bool_decide (u32 r ∈@{gset Z} row)) (elements regs).
Definition checkCollision (wid : nat) (i : inst_t) (s : Scoreboard) : option bool :=
  row ← (reg_table s !! wid : option (gset Z)); Some (collides (inst_regs i) row).
Definition checkDependCacheop (wid : nat) (i : inst_t) (s : Scoreboard) : option bool :=
  row ← (cacheopregs s !! wid : option (gset Z)); Some (collides (inst_regs i) row).
Definition pendingWrites (wid : nat) (s : Scoreboard) : option bool :=
  row ← (reg_table s !! wid : option (gset Z)); Some (negb (bool_decide (row =@{gset Z} ∅))).

(** ** The load/store unit's counts *)
Abbreviation writes := (gmap (nat * Z) Z).
Definition count (m : writes) (k : nat * Z) : Z := default 0 (m !! k).
Record ldst_unit := mkLdst { m_scoreboard : Scoreboard; m_pending_writes : writes }.
Definition set_count (k : nat * Z) (c : Z) (u : ldst_unit) : ldst_unit :=
  mkLdst (m_scoreboard u) (<[k := u32 c]> (m_pending_writes u)).
Definition erase_count (k : nat * Z) (u : ldst_unit) : ldst_unit :=
  mkLdst (m_scoreboard u) (delete k (m_pending_writes u)).
Definition on_scoreboard (f : Scoreboard -> option Scoreboard) (u : ldst_unit) : option ldst_unit :=
  s ← f (m_scoreboard u); Some (mkLdst s (m_pending_writes u)).

(** A load of [n_accesses] accesses enters the unit; one of them hits. *)
Definition ldst_issue (wid : nat) (i : inst_t) (n_accesses : Z) (u : ldst_unit) : option ldst_unit :=
  if is_load i && negb (bool_decide (space i = shared_space))
  then for_regs (out i) (fun r u => Some (set_count (wid, r) (count (m_pending_writes u) (wid, r) + n_accesses) u)) u
  else Some u.
Definition access_hit (wid : nat) (i : inst_t) (u : ldst_unit) : option ldst_unit :=
  if is_load i then for_regs (out i) (fun r u => Some (set_count (wid, r) (count (m_pending_writes u) (wid, r) - 1) u)) u
  else Some u.
(** An access that is sent away checks that it is counted. *)
Definition access_sent (wid : nat) (i : inst_t) (u : ldst_unit) : option ldst_unit :=
  if is_load i then for_regs (out i) (fun r u => assert! 0 <? count (m_pending_writes u) (wid, r); Some u) u else Some u.
Definition write_one (wid : nat) (i : inst_t) (r : Z) (u : ldst_unit) : option ldst_unit :=
  if negb (bool_decide (space i = shared_space)) then
    assert! 0 <? count (m_pending_writes u) (wid, r);
    let u := set_count (wid, r) (count (m_pending_writes u) (wid, r) - 1) u in
    if count (m_pending_writes u) (wid, r) =? 0 then on_scoreboard (releaseRegister wid r) (erase_count (wid, r) u) else Some u
  else on_scoreboard (releaseRegister wid r) u.
Definition writeback (wid : nat) (i : inst_t) (u : ldst_unit) : option ldst_unit := for_regs (out i) (write_one wid i) u.
(** A load leaves the dispatch register; with no outstanding access it is complete. *)
Fixpoint pending_requests (wid : nat) (l : list Z) (u : ldst_unit) : bool * ldst_unit :=
  match l with
  | [] => (false, u)
  | r :: l =>
      if (0 <? r) && bool_decide (m_pending_writes u !! (wid, r) <> None) then
        if 0 <? count (m_pending_writes u) (wid, r) then (true, u) else pending_requests wid l (erase_count (wid, r) u)
      else pending_requests wid l u
  end.
Definition load_dispatched (wid : nat) (i : inst_t) (u : ldst_unit) : option ldst_unit :=
  let '(pending, u) := pending_requests wid (out i) u in
  if pending then Some u else on_scoreboard (releaseRegisters wid i) u.

(** ** The pipeline *)
(** What an instruction in flight waits for: the end of its execution, a
    shared-memory result, its turn in the load/store unit, or accesses still to send and to be
    answered. *)
Inductive stage := Executing | Shared | Queued | Loading (unsent outstanding : Z).
Record flight := mkFlight { f_wid : nat; f_inst : inst_t; f_stage : stage }.
Record pipeline := mkPipeline { p_unit : ldst_unit; p_flights : gmap nat flight }.
Definition pipeline_new (n_warps : nat) : pipeline := mkPipeline (mkLdst (Scoreboard_new n_warps) ∅) ∅.

Inductive event :=
  | Issue (id wid : nat) (i : inst_t) (st : stage)
  | Complete (id : nat) | SharedResult (id : nat)
  | Enter (id : nat) (n_accesses : Z) | Hit (id : nat) | Send (id : nat) | Response (id : nat).

Definition dests (i : inst_t) : list Z := filter (fun r => 0 < r) (out i).
Definition sources (i : inst_t) : list Z := filter (fun r => 0 < r) (in_ i ++ [pred i; ar1 i; ar2 i]).

(** The scheduler's test before an issue, the unit an instruction goes to, and
    what the other events wait for. *)
Definition goes_to (i : inst_t) (st : stage) : bool :=
  match st with
  | Executing => true
  | Shared => is_load i && bool_decide (space i = shared_space)
  | Queued => is_load i && negb (bool_decide (space i = shared_space))
  | Loading _ _ => false
  end.
Definition inst_ok (i : inst_t) : Prop :=
  NoDup (dests i) /\ Forall (fun r => r < 2 ^ 32) (dests i) /\ Forall (fun r => r < 2 ^ 32) (sources i).
Definition enabled (e : event) (p : pipeline) : Prop :=
  match e with
  | Issue id wid i st => p_flights p !! id = None /\ inst_ok i /\ goes_to i st = true /\
      checkCollision wid i (m_scoreboard (p_unit p)) = Some false
  | Complete id => exists w i, p_flights p !! id = Some (mkFlight w i Executing)
  | SharedResult id => exists w i, p_flights p !! id = Some (mkFlight w i Shared)
  | Enter id n => (exists w i, p_flights p !! id = Some (mkFlight w i Queued)) /\ 0 <= n < 2 ^ 32
  | Hit id | Send id => exists w i u o, p_flights p !! id = Some (mkFlight w i (Loading u o)) /\ 0 < u
  | Response id => exists w i u o, p_flights p !! id = Some (mkFlight w i (Loading u o)) /\ 0 < o
  end.

(** The accesses left of a load; the last one it sends makes it leave the dispatch
    register in the same cycle. *)
Definition after_access (id w : nat) (i : inst_t) (unsent outstanding : Z) (fl : gmap nat flight) (u : ldst_unit) : option pipeline :=
  if unsent =? 0 then
    u ← load_dispatched w i u;
    Some (mkPipeline u (if outstanding =? 0 then delete id fl else <[id := mkFlight w i (Loading 0 outstanding)]> fl))
  else Some (mkPipeline u (<[id := mkFlight w i (Loading unsent outstanding)]> fl)).
Definition with_flight (id : nat) (p : pipeline) (f : nat -> inst_t -> stage -> option pipeline) : option pipeline :=
  fl ← p_flights p !! id; f (f_wid fl) (f_inst fl) (f_stage fl).
Definition pipe_step (e : event) (p : pipeline) : option pipeline :=
  let fl := p_flights p in
  match e with
  | Issue id wid i st =>
      u ← on_scoreboard (reserveRegisters wid i) (p_unit p); Some (mkPipeline u (<[id := mkFlight wid i st]> fl))
  | Complete id => with_flight id p (fun w i _ => u ← on_scoreboard (releaseRegisters w i) (p_unit p); Some (mkPipeline u (delete id fl)))
  | SharedResult id => with_flight id p (fun w i _ => u ← writeback w i (p_unit p); Some (mkPipeline u (delete id fl)))
  | Enter id n => with_flight id p (fun w i _ => u ← ldst_issue w i n (p_unit p); after_access id w i n 0 fl u)
  | Hit id => with_flight id p (fun w i st =>
      match st with Loading u o => x ← access_hit w i (p_unit p); after_access id w i (u - 1) o fl x | _ => None end)
  | Send id => with_flight id p (fun w i st =>
      match st with Loading u o => x ← access_sent w i (p_unit p); after_access id w i (u - 1) (o + 1) fl x | _ => None end)
  | Response id => with_flight id p (fun w i st =>
      match st with
      | Loading u o => x ← writeback w i (p_unit p);
          Some (mkPipeline x (if (u =? 0) && (o =? 1) then delete id fl else <[id := mkFlight w i (Loading u (o - 1))]> fl))
      | _ => None
      end)
  end.

(** ** Loops over registers *)
Lemma for_regs_dests {S} (f : Z -> S -> option S) (l : list Z) s : for_regs l f s = for_regs (filter (fun r => 0 < r) l) f s.
Proof.
  revert s. induction l as [|r l IH]; intros s; [done|]. cbn [for_regs]. rewrite filter_cons. destruct (Z.ltb_spec 0 r) as [Hr|Hr].
  - rewrite decide_True by done. cbn [for_regs]. rewrite (proj2 (Z.ltb_lt _ _) Hr). destruct (f r s); [apply IH|done].
  - rewrite decide_False by lia. apply IH.
Qed.
(** A loop whose rounds each succeed from where the previous ones led. *)
Lemma for_regs_inv {S} (f : Z -> S -> option S) (P : list Z -> S -> Prop) (l : list Z) :
  (forall r l s, P (r :: l) s -> 0 < r /\ exists s', f r s = Some s' /\ P l s') ->
  forall s, P l s -> exists s', for_regs l f s = Some s' /\ P [] s'.
Proof.
  intros Hf. induction l as [|r l IH]; intros s Hs; [by exists s|]. destruct (Hf r l s Hs) as (Hr & s' & Hs' & Hl).
  cbn [for_regs]. rewrite (proj2 (Z.ltb_lt _ _) Hr), Hs'. by apply IH.
Qed.

Lemma elem_of_dests r i : (r ∈ dests i) <-> 0 < r /\ r ∈ out i.
Proof. apply list_elem_of_filter. Qed.
Lemma dests_positive r i : r ∈ dests i -> 0 < r.
Proof. intros H%elem_of_dests. tauto. Qed.

(** The rows of the three tables. *)
Definition lengths (n : nat) (s : Scoreboard) : Prop :=
  length (reg_table s) = n /\ length (longopregs s) = n /\ length (cacheopregs s) = n.
Lemma on_row_Some f wid t : (wid < length t)%nat -> exists row, t !! wid = Some row /\ on_row f wid t = Some (<[wid := f row]> t).
Proof. intros [row Hr]%lookup_lt_is_Some. exists row. split; [done|]. unfold on_row. by rewrite Hr. Qed.

(** [s'] is [s] with a warp's pending registers changed to [row], and possibly other
    marks. *)
Definition row_set (wid : nat) (row : gset Z) (s s' : Scoreboard) : Prop :=
  reg_table s' = <[wid := row]> (reg_table s) /\ length (longopregs s') = length (longopregs s) /\
  length (cacheopregs s') = length (cacheopregs s).
Lemma row_set_lengths n wid row s s' : row_set wid row s s' -> lengths n s -> lengths n s'.
Proof. intros (H1 & H2 & H3) (? & ? & ?). split; [by rewrite H1, length_insert|]. split; congruence. Qed.
Lemma row_set_trans wid row row' s s' s'' : row_set wid row s s' -> row_set wid row' s' s'' -> row_set wid row' s s''.
Proof.
  intros (H1 & H2 & H3) (H1' & H2' & H3'). split; [by rewrite H1', H1, list_insert_insert_eq|]. split; congruence.
Qed.
Lemma row_set_id wid row s : reg_table s !! wid = Some row -> row_set wid row s s.
Proof. intros H. split; [symmetry; by apply list_insert_id|done]. Qed.
Lemma row_set_lookup n wid row s s' : lengths n s -> (wid < n)%nat -> row_set wid row s s' -> reg_table s' !! wid = Some row.
Proof. intros (H & _) Hw (-> & _). apply list_lookup_insert_eq. lia. Qed.

Section rows.
Variables (n wid : nat).
Hypothesis wid_ok : (wid < n)%nat.

Lemma marks_spec (f : Z -> Scoreboard -> option Scoreboard) l s row :
  (forall r s, lengths n s -> exists s', f r s = Some s' /\ lengths n s' /\ reg_table s' = reg_table s) ->
  lengths n s -> reg_table s !! wid = Some row -> exists s', for_regs l f s = Some s' /\ row_set wid row s s'.
Proof using wid_ok.
  intros Hf Hs Hrow. rewrite for_regs_dests.
  destruct (for_regs_inv f (fun l s' => Forall (fun r => 0 < r) l /\ lengths n s' /\ reg_table s' = reg_table s)
              (filter (fun r => 0 < r) l)) with (s := s) as (s' & Hs' & _ & Hn & Ht).
  - intros r l' s1 (Hpos & Hn & Ht). apply Forall_cons in Hpos as [Hr Hpos]. split; [done|].
    destruct (Hf r s1 Hn) as (s2 & ? & ? & ?). exists s2. split; [done|]. split; [done|]. split; [done|congruence].
  - split; [|done]. apply Forall_forall. intros r Hr. apply list_elem_of_filter in Hr. tauto.
  - exists s'. split; [done|]. destruct Hs as (? & ? & ?), Hn as (? & ? & ?). split; [|split; congruence].
    rewrite Ht. symmetry. by apply list_insert_id.
Qed.
Lemma mark_long_ok r s : lengths n s -> exists s', mark_long wid r s = Some s' /\ lengths n s' /\ reg_table s' = reg_table s.
Proof using wid_ok.
  intros (H1 & H2 & H3). unfold mark_long. destruct (on_row_Some (union {[r]}) wid (longopregs s)) as (row & _ & ->); [lia|].
  eexists. split; [done|]. repeat split; cbn; rewrite ?length_insert; done.
Qed.
Lemma mark_cache_ok r s : lengths n s -> exists s', mark_cache wid r s = Some s' /\ lengths n s' /\ reg_table s' = reg_table s.
Proof using wid_ok.
  intros (H1 & H2 & H3). unfold mark_cache. destruct (on_row_Some (union {[r]}) wid (cacheopregs s)) as (row & _ & ->); [lia|].
  eexists. split; [done|]. repeat split; cbn; rewrite ?length_insert; done.
Qed.

Lemma reserve_spec l s row : lengths n s -> reg_table s !! wid = Some row -> NoDup l -> Forall (fun r => 0 < r) l ->
  (forall r, r ∈ l -> r ∉ row) ->
  exists s', for_regs l (reserveRegister wid) s = Some s' /\ row_set wid (list_to_set l ∪ row) s s'.
Proof using wid_ok.
  intros Hs Hrow Hnd Hpos Hfresh. destruct (for_regs_inv (reserveRegister wid)
    (fun l' s' => Forall (fun r => 0 < r) l' /\ NoDup l' /\ exists row', row_set wid row' s s' /\
       (forall r, r ∈ l' -> r ∉ row') /\ list_to_set l ∪ row = list_to_set l' ∪ row') l) with (s := s) as (s' & Hs' & _ & _ & row' & H & _ & Heq).
  - intros r l' s1 (Hp & Hn & row' & Hset & Hf & Heq). apply Forall_cons in Hp as [Hr Hp]. apply NoDup_cons in Hn as [Hrl Hn].
    split; [done|]. unfold reserveRegister, on_row. rewrite (row_set_lookup n wid row' s s1) by done. unfold mbind, option_bind.
    case_bool_decide as Hx; [by destruct (Hf r (list_elem_of_here _ _))|]. eexists. split; [done|]. split; [done|]. split; [done|].
    exists ({[r]} ∪ row'). split; [|split; [|rewrite Heq; set_solver]].
    + apply (row_set_trans wid row' _ s s1); [done|]. by split.
    + intros q Hq. assert (q ∉ row') by (apply Hf; by right). set_solver.
  - split; [done|]. split; [done|]. exists row. split; [by apply row_set_id|done].
  - exists s'. split; [done|]. rewrite Heq. by rewrite list_to_set_nil, (left_id_L ∅ (∪)).
Qed.

Lemma release_spec (f : Z -> Scoreboard -> option Scoreboard) l s row : Forall (fun r => 0 < r) l ->
  (forall r s row, lengths n s -> reg_table s !! wid = Some row -> exists s', f r s = Some s' /\ row_set wid (row ∖ {[r]}) s s') ->
  lengths n s -> reg_table s !! wid = Some row ->
  exists s', for_regs l f s = Some s' /\ row_set wid (row ∖ list_to_set l) s s'.
Proof using wid_ok.
  intros Hpos Hf Hs Hrow. destruct (for_regs_inv f
    (fun l' s' => Forall (fun r => 0 < r) l' /\ exists row', row_set wid row' s s' /\
       row ∖ list_to_set l = row' ∖ list_to_set l') l) with (s := s) as (s' & Hs' & _ & row' & H & Heq).
  - intros r l' s1 (Hp & row' & Hset & Heq). apply Forall_cons in Hp as [Hr Hp]. split; [done|].
    destruct (Hf r s1 row') as (s2 & H2 & Hset'); [by eapply row_set_lengths|by apply (row_set_lookup n wid row' s s1)|].
    exists s2. split; [done|]. split; [done|]. exists (row' ∖ {[r]}). split; [by eapply row_set_trans|]. rewrite Heq. set_solver.
  - split; [done|]. exists row. by split; [apply row_set_id|].
  - exists s'. split; [done|]. rewrite Heq. by rewrite list_to_set_nil, difference_empty_L.
Qed.
Lemma releaseRegister_ok r s row : lengths n s -> reg_table s !! wid = Some row ->
  exists s', releaseRegister wid r s = Some s' /\ row_set wid (row ∖ {[r]}) s s'.
Proof using wid_ok.
  clear wid_ok. intros Hs Hrow. unfold releaseRegister, on_row. rewrite Hrow. unfold mbind, option_bind. case_bool_decide as Hr; cbn; eexists; (split; [done|]).
  - by split.
  - rewrite difference_disjoint_L by set_solver. by apply row_set_id.
Qed.
Lemma releaseOne_ok r s row : lengths n s -> reg_table s !! wid = Some row ->
  exists s', releaseOne wid r s = Some s' /\ row_set wid (row ∖ {[r]}) s s'.
Proof using wid_ok.
  intros Hs Hrow. unfold releaseOne. destruct (releaseRegister_ok r s row Hs Hrow) as (s1 & -> & H1). cbn.
  pose proof (row_set_lengths n _ _ _ _ H1 Hs) as (L1 & L2 & L3).
  destruct (on_row_Some (fun row => row ∖ {[r]}) wid (longopregs s1)) as (? & _ & ->); [lia|].
  destruct (on_row_Some (fun row => row ∖ {[r]}) wid (cacheopregs s1)) as (? & _ & ->); [lia|].
  eexists. split; [done|]. destruct H1 as (? & ? & ?). repeat split; cbn; rewrite ?length_insert; done.
Qed.
End rows.

Section operations.
Variables (n wid : nat) (i : inst_t).
Hypothesis wid_ok : (wid < n)%nat.

Lemma out_positive l : Forall (fun r => 0 < r) (filter (fun r => 0 < r) l).
Proof. apply Forall_forall. intros r Hr. apply list_elem_of_filter in Hr. tauto. Qed.

Lemma reserveRegisters_spec s row : lengths n s -> reg_table s !! wid = Some row -> NoDup (dests i) ->
  (forall r, r ∈ dests i -> r ∉ row) ->
  exists s', reserveRegisters wid i s = Some s' /\ row_set wid (list_to_set (dests i) ∪ row) s s'.
Proof using wid_ok.
  intros Hs Hrow Hnd Hf. unfold reserveRegisters. rewrite for_regs_dests. fold (dests i).
  destruct (reserve_spec n wid wid_ok (dests i) s row Hs Hrow Hnd (out_positive _) Hf) as (s1 & -> & H1). cbn [mbind option_bind].
  pose proof (row_set_lengths n _ _ _ _ H1 Hs) as L1. pose proof (row_set_lookup n _ _ _ _ Hs wid_ok H1) as R1.
  assert (forall b : bool, exists s2, (if b then for_regs (out i) (mark_long wid) s1 else Some s1) = Some s2 /\
    row_set wid (list_to_set (dests i) ∪ row) s1 s2) as Hlong.
  { intros []; [|exists s1; split; [done|by apply row_set_id]]. apply (marks_spec n wid wid_ok); [|done..]. by apply mark_long_ok. }
  destruct (Hlong (is_load i && bool_decide (space i = global_space \/ space i = local_space \/ space i = tex_space))) as (s2 & -> & H2).
  cbn [mbind option_bind]. pose proof (row_set_lengths n _ _ _ _ H2 L1) as L2. pose proof (row_set_lookup n _ _ _ _ L1 wid_ok H2) as R2.
  assert (row_set wid (list_to_set (dests i) ∪ row) s s2) as H12 by by eapply row_set_trans.
  destruct (is_load i && _); [|by exists s2].
  destruct (marks_spec n wid wid_ok (mark_cache wid) (out i) s2 _ (mark_cache_ok n wid wid_ok) L2 R2) as (s3 & -> & H3).
  exists s3. split; [done|]. by eapply row_set_trans.
Qed.
Lemma releaseRegisters_spec s row : lengths n s -> reg_table s !! wid = Some row ->
  exists s', releaseRegisters wid i s = Some s' /\ row_set wid (row ∖ list_to_set (dests i)) s s'.
Proof using wid_ok.
  intros Hs Hrow. unfold releaseRegisters. rewrite for_regs_dests.
  apply (release_spec n wid wid_ok); [apply out_positive| |done..]. by apply releaseOne_ok.
Qed.

(** A loop that changes the count of each destination by [g] and perhaps
    releases the register. *)
Lemma counts_loop (f : Z -> ldst_unit -> option ldst_unit) (g : option Z -> option Z) (release : bool) u row :
  NoDup (dests i) -> lengths n (m_scoreboard u) -> reg_table (m_scoreboard u) !! wid = Some row ->
  (forall r u1 row1, r ∈ dests i -> m_pending_writes u1 !! (wid, r) = m_pending_writes u !! (wid, r) ->
     lengths n (m_scoreboard u1) -> reg_table (m_scoreboard u1) !! wid = Some row1 ->
     exists s2, f r u1 = Some (mkLdst s2 (partial_alter g (wid, r) (m_pending_writes u1))) /\
       row_set wid (if release then row1 ∖ {[r]} else row1) (m_scoreboard u1) s2) ->
  exists s' m', for_regs (out i) f u = Some (mkLdst s' m') /\
    row_set wid (if release then row ∖ list_to_set (dests i) else row) (m_scoreboard u) s' /\
    forall k, m' !! k = if decide (k.1 = wid /\ k.2 ∈ dests i) then g (m_pending_writes u !! k) else m_pending_writes u !! k.
Proof using wid_ok.
  intros Hnd Hs Hrow Hf. rewrite for_regs_dests. fold (dests i).
  destruct (for_regs_inv f
    (fun l u' => Forall (fun r => 0 < r) l /\ NoDup l /\ l ⊆ dests i /\
       (exists row', row_set wid row' (m_scoreboard u) (m_scoreboard u') /\
          if release then row ∖ list_to_set (dests i) = row' ∖ list_to_set l else row' = row) /\
       forall k, m_pending_writes u' !! k = if decide (k.1 = wid /\ k.2 ∈ dests i /\ k.2 ∉ l)
         then g (m_pending_writes u !! k) else m_pending_writes u !! k) (dests i)) with (s := u) as (u' & Hu & _ & _ & _ & (row' & Hset & Heq) & Hm).
  - intros r l u1 (Hp & Hn & Hsub & (row1 & Hset & Heq) & Hm). apply Forall_cons in Hp as [Hr Hp]. apply NoDup_cons in Hn as [Hrl Hn]. split; [done|].
    assert (m_pending_writes u1 !! (wid, r) = m_pending_writes u !! (wid, r)) as Hold by (rewrite Hm, decide_False; [done|cbn; set_solver]).
    destruct (Hf r u1 row1) as (s2 & -> & Hset2); [set_solver|done|by eapply row_set_lengths|by eapply row_set_lookup|].
    eexists. split; [done|]. cbn. split; [done|]. split; [done|]. split; [set_solver|]. split.
    + eexists. split; [by eapply row_set_trans|]. destruct release; [|done]. rewrite Heq. set_solver.
    + intros [w q]. cbn. destruct (decide ((w, q) = (wid, r))) as [[= -> ->]|Hne].
      * rewrite lookup_partial_alter_eq, decide_True, Hold; [done|]. split; [done|]. split; [set_solver|done].
      * rewrite lookup_partial_alter_ne by done. rewrite Hm. cbn. apply decide_ext. rewrite not_elem_of_cons.
        split; [tauto|]. intros (-> & ? & ?). split; [done|]. split; [done|]. split; [congruence|done].
  - split; [apply out_positive|]. split; [done|]. split; [done|]. split.
    + exists row. split; [by apply row_set_id|]. by destruct release.
    + intros k. rewrite decide_False; [done|tauto].
  - rewrite Hu. destruct u' as [s' m']. cbn in *. exists s', m'. split; [done|]. split.
    + destruct release; [|by subst row']. by rewrite Heq, difference_empty_L.
    + intros k. rewrite Hm. apply decide_ext. rewrite elem_of_nil. tauto.
Qed.

(** [u'] has the counts [c'] for the destinations, and pending registers [row]. *)
Definition unit_set (c' : option Z) (row : gset Z) (u u' : ldst_unit) : Prop :=
  row_set wid row (m_scoreboard u) (m_scoreboard u') /\
  forall k, m_pending_writes u' !! k = if decide (k.1 = wid /\ k.2 ∈ dests i) then c' else m_pending_writes u !! k.
Definition counted (c : option Z) (u : ldst_unit) : Prop := forall r, r ∈ dests i -> m_pending_writes u !! (wid, r) = c.

Lemma counts_loop_at (f : Z -> ldst_unit -> option ldst_unit) (c c' : option Z) (release : bool) u row :
  NoDup (dests i) -> lengths n (m_scoreboard u) -> reg_table (m_scoreboard u) !! wid = Some row -> counted c u ->
  (forall r u1 row1, m_pending_writes u1 !! (wid, r) = c ->
     lengths n (m_scoreboard u1) -> reg_table (m_scoreboard u1) !! wid = Some row1 ->
     exists s2, f r u1 = Some (mkLdst s2 (partial_alter (fun _ => c') (wid, r) (m_pending_writes u1))) /\
       row_set wid (if release then row1 ∖ {[r]} else row1) (m_scoreboard u1) s2) ->
  exists u', for_regs (out i) f u = Some u' /\ unit_set c' (if release then row ∖ list_to_set (dests i) else row) u u'.
Proof using wid_ok.
  intros Hnd Hs Hrow Hc Hf. destruct (counts_loop f (fun _ => c') release u row Hnd Hs Hrow) as (s' & m' & -> & ? & ?).
  - intros r u1 row1 Hr Heq. apply Hf. rewrite Heq. by apply Hc.
  - by exists (mkLdst s' m').
Qed.

Lemma insert_alter (m : writes) k c : <[k := c]> m = partial_alter (fun _ => Some c) k m.
Proof. done. Qed.

Lemma ldst_issue_spec N u row : NoDup (dests i) -> lengths n (m_scoreboard u) -> reg_table (m_scoreboard u) !! wid = Some row ->
  is_load i = true -> space i <> shared_space -> counted None u -> 0 <= N < 2 ^ 32 ->
  exists u', ldst_issue wid i N u = Some u' /\ unit_set (Some N) row u u'.
Proof using wid_ok.
  intros Hnd Hs Hrow Hl Hsp Hc HN. unfold ldst_issue. rewrite Hl, bool_decide_false by done.
  apply (counts_loop_at _ None (Some N) false); [done..|]. intros r u1 row1 Hr _ Hrow1. unfold set_count, count. rewrite Hr. cbn.
  rewrite u32_small by done. eexists. split; [done|]. by apply row_set_id.
Qed.
Lemma access_hit_spec c u row : NoDup (dests i) -> lengths n (m_scoreboard u) -> reg_table (m_scoreboard u) !! wid = Some row ->
  is_load i = true -> counted (Some c) u -> 0 < c < 2 ^ 32 ->
  exists u', access_hit wid i u = Some u' /\ unit_set (Some (c - 1)) row u u'.
Proof using wid_ok.
  intros Hnd Hs Hrow Hl Hc Hb. unfold access_hit. rewrite Hl.
  apply (counts_loop_at _ (Some c) (Some (c - 1)) false); [done..|]. intros r u1 row1 Hr _ Hrow1. unfold set_count, count. rewrite Hr. cbn.
  rewrite u32_small by lia. eexists. split; [done|]. by apply row_set_id.
Qed.
Lemma access_sent_spec c u row : NoDup (dests i) -> lengths n (m_scoreboard u) -> reg_table (m_scoreboard u) !! wid = Some row ->
  is_load i = true -> counted (Some c) u -> 0 < c < 2 ^ 32 ->
  exists u', access_sent wid i u = Some u' /\ unit_set (Some c) row u u'.
Proof using wid_ok.
  intros Hnd Hs Hrow Hl Hc Hb. unfold access_sent. rewrite Hl.
  apply (counts_loop_at _ (Some c) (Some c) false); [done..|]. intros r u1 row1 Hr _ Hrow1. unfold count. rewrite Hr. cbn.
  rewrite (proj2 (Z.ltb_lt _ _)) by lia. destruct u1 as [s1 m1]. exists s1. cbn in *. split; [|by apply row_set_id].
  by rewrite <-insert_alter, insert_id.
Qed.
Lemma writeback_shared_spec u row : NoDup (dests i) -> lengths n (m_scoreboard u) -> reg_table (m_scoreboard u) !! wid = Some row ->
  space i = shared_space -> counted None u ->
  exists u', writeback wid i u = Some u' /\ unit_set None (row ∖ list_to_set (dests i)) u u'.
Proof using wid_ok.
  intros Hnd Hs Hrow Hsp Hc. apply (counts_loop_at _ None None true); [done..|]. intros r u1 row1 Hr Hs1 Hrow1.
  unfold write_one, on_scoreboard. rewrite bool_decide_true by done. cbn [negb].
  destruct (releaseRegister_ok n wid wid_ok r _ _ Hs1 Hrow1) as (s2 & -> & H2). exists s2. split; [|done]. cbn. do 2 f_equal.
    rewrite <-(partial_alter_self (m_pending_writes u1) (wid, r)) at 1. by rewrite Hr.
Qed.
Lemma writeback_spec c u row : NoDup (dests i) -> lengths n (m_scoreboard u) -> reg_table (m_scoreboard u) !! wid = Some row ->
  space i <> shared_space -> counted (Some c) u -> 0 < c < 2 ^ 32 ->
  exists u', writeback wid i u = Some u' /\
    unit_set (if c =? 1 then None else Some (c - 1)) (if c =? 1 then row ∖ list_to_set (dests i) else row) u u'.
Proof using wid_ok.
  intros Hnd Hs Hrow Hsp Hc Hb. apply (counts_loop_at _ (Some c)); [done..|]. intros r u1 row1 Hr Hs1 Hrow1.
  unfold write_one, on_scoreboard, set_count, erase_count, count. rewrite bool_decide_false by done. cbn. rewrite Hr. cbn.
  rewrite (proj2 (Z.ltb_lt _ _)) by lia. rewrite lookup_insert_eq, u32_small by lia. cbn. destruct (Z.eqb_spec c 1) as [->|].
  - destruct (releaseRegister_ok n wid wid_ok r _ _ Hs1 Hrow1) as (s2 & -> & H2). exists s2. split; [|done]. cbn. do 2 f_equal.
    by rewrite delete_insert_eq.
  - rewrite (proj2 (Z.eqb_neq _ _)) by lia. eexists. split; [done|]. by apply row_set_id.
Qed.

Lemma pending_requests_outstanding c l u : 0 < c -> (forall r, r ∈ filter (fun r => 0 < r) l -> m_pending_writes u !! (wid, r) = Some c) ->
  pending_requests wid l u = (negb (bool_decide (filter (fun r => 0 < r) l = [])), u).
Proof.
  intros Hc. induction l as [|r l IH]; intros Hu; [done|]. cbn [pending_requests]. rewrite filter_cons in *. destruct (Z.ltb_spec 0 r) as [Hr|Hr].
  - rewrite decide_True in * by done. rewrite bool_decide_true by (rewrite Hu by (by left); done). cbn [andb].
    unfold count. rewrite Hu by by left. cbn. rewrite (proj2 (Z.ltb_lt _ _)) by done. done.
  - rewrite decide_False in * by lia. by apply IH.
Qed.
Lemma pending_requests_none l : forall u, NoDup (filter (fun r => 0 < r) l) ->
  (forall r, r ∈ filter (fun r => 0 < r) l -> m_pending_writes u !! (wid, r) = Some 0) ->
  exists m', pending_requests wid l u = (false, mkLdst (m_scoreboard u) m') /\
    forall k, m' !! k = if decide (k.1 = wid /\ k.2 ∈ filter (fun r => 0 < r) l) then None else m_pending_writes u !! k.
Proof.
  induction l as [|r l IH]; intros u Hnd Hu.
  { exists (m_pending_writes u). split; [by destruct u|]. intros k. rewrite decide_False; [done|]. intros [_ []%elem_of_nil]. }
  cbn [pending_requests]. rewrite filter_cons in *. destruct (Z.ltb_spec 0 r) as [Hr|Hr].
  - rewrite decide_True in * by done. apply NoDup_cons in Hnd as [Hrl Hnd]. rewrite bool_decide_true by (rewrite Hu by (by left); done).
    cbn [andb]. unfold count. rewrite Hu by by left. cbn. destruct (IH (erase_count (wid, r) u)) as (m' & -> & Hm'); [done| |].
    { intros q Hq. unfold erase_count. cbn. rewrite lookup_delete_ne by congruence. apply Hu. by right. }
    exists m'. split; [done|]. intros [w q]. rewrite Hm'. cbn. destruct (decide ((w, q) = (wid, r))) as [[= -> ->]|Hne].
    + rewrite lookup_delete_eq, (decide_True (P := wid = wid /\ r ∈ r :: _)); [by case_decide|]. split; [done|by left].
    + rewrite lookup_delete_ne by done. apply decide_ext. rewrite elem_of_cons. split; [tauto|]. intros [-> [->|?]]; [done|tauto].
  - rewrite decide_False in * by lia. by apply IH.
Qed.
Lemma load_dispatched_spec c u row : NoDup (dests i) -> lengths n (m_scoreboard u) -> reg_table (m_scoreboard u) !! wid = Some row ->
  counted (Some c) u -> 0 <= c ->
  exists u', load_dispatched wid i u = Some u' /\
    unit_set (if c =? 0 then None else Some c) (if c =? 0 then row ∖ list_to_set (dests i) else row) u u'.
Proof using wid_ok.
  intros Hnd Hs Hrow Hc Hb. unfold load_dispatched. destruct (Z.eqb_spec c 0) as [->|Hne].
  - destruct (pending_requests_none (out i) u Hnd Hc) as (m' & -> & Hm'). unfold on_scoreboard. cbn [m_scoreboard m_pending_writes].
    destruct (releaseRegisters_spec (m_scoreboard u) row Hs Hrow) as (s' & -> & Hs'). by eexists.
  - rewrite (pending_requests_outstanding c) by (lia || exact Hc). fold (dests i).
    assert (unit_set (Some c) row u u) as Hu.
    { split; [by apply row_set_id|]. intros [w r]. cbn. case_decide as Hd; [|done]. destruct Hd as [-> Hd]. by apply Hc. }
    case_bool_decide as Hd; cbn [negb]; [|by exists u]. unfold on_scoreboard.
    destruct (releaseRegisters_spec (m_scoreboard u) row Hs Hrow) as (s' & -> & Hs'). eexists. split; [done|].
    rewrite Hd, list_to_set_nil, difference_empty_L in Hs'. by split; [|apply Hu].
Qed.
End operations.

(** ** The invariant of the pipeline *)
Definition stage_count (st : stage) : option Z := match st with Loading u o => Some (u + o) | _ => None end.
Definition stage_ok (i : inst_t) (st : stage) : Prop :=
  match st with
  | Executing => True
  | Shared => is_load i = true /\ space i = shared_space
  | Queued => is_load i = true /\ space i <> shared_space
  | Loading u o => (is_load i = true /\ space i <> shared_space) /\ 0 <= u /\ 0 <= o /\ 0 < u + o < 2 ^ 32
  end.

(** Registers are pending exactly for the instructions in flight, each for one of them, and the
    counts are those of the accesses that loads wait for. *)
Record p_inv (n : nat) (p : pipeline) : Prop := {
  pi_lengths : lengths n (m_scoreboard (p_unit p));
  pi_rows : forall w row, reg_table (m_scoreboard (p_unit p)) !! w = Some row -> forall r,
    (r ∈ row) <-> exists id i st, p_flights p !! id = Some (mkFlight w i st) /\ r ∈ dests i;
  pi_disjoint : forall id id' w i i' st st' r, p_flights p !! id = Some (mkFlight w i st) ->
    p_flights p !! id' = Some (mkFlight w i' st') -> r ∈ dests i -> r ∈ dests i' -> id = id';
  pi_flight : forall id w i st, p_flights p !! id = Some (mkFlight w i st) -> (w < n)%nat /\ NoDup (dests i) /\ stage_ok i st;
  pi_count : forall id w i st, p_flights p !! id = Some (mkFlight w i st) -> counted w i (stage_count st) (p_unit p);
  pi_nocount : forall w r, m_pending_writes (p_unit p) !! (w, r) <> None ->
    exists id i st, p_flights p !! id = Some (mkFlight w i st) /\ r ∈ dests i }.

Section steps.
Variables (n : nat) (p : pipeline) (id : nat) (w : nat) (i : inst_t) (st : stage).
Hypothesis Hinv : p_inv n p.
Hypothesis Hid : p_flights p !! id = Some (mkFlight w i st).

Lemma flight_row : exists row, reg_table (m_scoreboard (p_unit p)) !! w = Some row.
Proof using Hinv Hid.
  destruct (pi_flight n p Hinv _ _ _ _ Hid) as [Hw _]. destruct (pi_lengths n p Hinv) as [Hl _].
  apply lookup_lt_is_Some. lia.
Qed.
Lemma changed_inv st' row u' : reg_table (m_scoreboard (p_unit p)) !! w = Some row -> stage_ok i st' ->
  unit_set w i (stage_count st') row (p_unit p) u' -> p_inv n (mkPipeline u' (<[id := mkFlight w i st']> (p_flights p))).
Proof using Hinv Hid.
  intros Hrow Hst [Hset Hm]. pose proof Hset as (Ht & _ & _). rewrite list_insert_id in Ht by done.
  assert (forall id1 w1 i1 st1, <[id := mkFlight w i st']> (p_flights p) !! id1 = Some (mkFlight w1 i1 st1) ->
    exists st0, p_flights p !! id1 = Some (mkFlight w1 i1 st0) /\ (id1 = id -> st1 = st') /\ (id1 <> id -> st1 = st0)) as Hback.
  { intros id1 w1 i1 st1 H1. destruct (decide (id1 = id)) as [->|].
    - rewrite lookup_insert_eq in H1. injection H1 as <- <- <-. by exists st.
    - rewrite lookup_insert_ne in H1 by done. by exists st1. }
  assert (forall id1 w1 i1 st0, p_flights p !! id1 = Some (mkFlight w1 i1 st0) ->
    exists st1, <[id := mkFlight w i st']> (p_flights p) !! id1 = Some (mkFlight w1 i1 st1)) as Hforth.
  { intros id1 w1 i1 st0 H1. destruct (decide (id1 = id)) as [->|]; [|rewrite lookup_insert_ne by done; by exists st0].
    rewrite lookup_insert_eq. exists st'. congruence. }
  split; cbn.
  - eapply row_set_lengths; [done|apply Hinv].
  - intros w1 row1 H1 r. rewrite Ht in H1. rewrite (pi_rows n p Hinv w1 row1 H1 r). split.
    + intros (id1 & i1 & st1 & H' & Hr). destruct (Hforth _ _ _ _ H') as [st2 ?]. by exists id1, i1, st2.
    + intros (id1 & i1 & st1 & H' & Hr). destruct (Hback _ _ _ _ H') as (st2 & ? & _). by exists id1, i1, st2.
  - intros id1 id2 w1 i1 i2 st1 st2 r (?&?&_)%Hback (?&?&_)%Hback. by eapply (pi_disjoint n p Hinv).
  - intros id1 w1 i1 st1 (st0 & H1 & Heq & Hne)%Hback. destruct (pi_flight n p Hinv _ _ _ _ H1) as (? & ? & ?). split; [done|]. split; [done|].
    destruct (decide (id1 = id)) as [->|]; [|by rewrite Hne]. rewrite Heq by done. congruence.
  - intros id1 w1 i1 st1 (st0 & H1 & Heq & Hne)%Hback r Hr. rewrite Hm. cbn. destruct (decide (id1 = id)) as [->|Hd].
    + rewrite Heq by done. rewrite decide_True; [done|]. split; congruence.
    + rewrite Hne, decide_False; [by apply (pi_count n p Hinv _ _ _ _ H1)|  |done].
      intros [-> Hr']. destruct Hd. by eapply (pi_disjoint n p Hinv).
  - intros w1 r Hn. rewrite Hm in Hn. cbn in Hn. case_decide as Hd.
    + destruct Hd as [-> Hr]. destruct (Hforth _ _ _ _ Hid) as [st1 ?]. by exists id, i, st1.
    + destruct (pi_nocount n p Hinv _ _ Hn) as (id1 & i1 & st1 & H1 & Hr). destruct (Hforth _ _ _ _ H1) as [st2 ?]. by exists id1, i1, st2.
Qed.
Lemma removed_inv row u' : reg_table (m_scoreboard (p_unit p)) !! w = Some row ->
  unit_set w i None (row ∖ list_to_set (dests i)) (p_unit p) u' -> p_inv n (mkPipeline u' (delete id (p_flights p))).
Proof using Hinv Hid.
  intros Hrow [Hset Hm]. pose proof Hset as (Ht & _ & _). destruct (pi_flight n p Hinv _ _ _ _ Hid) as (Hw & _ & _).
  split; cbn.
  - eapply row_set_lengths; [done|apply Hinv].
  - intros w1 row1 H1 r. assert ((r ∈ row1) <-> (exists row0, reg_table (m_scoreboard (p_unit p)) !! w1 = Some row0 /\ r ∈ row0) /\
      ~ (w1 = w /\ r ∈ dests i)) as ->.
    { destruct (decide (w1 = w)) as [->|Hne].
      - rewrite (row_set_lookup n _ _ _ _ (pi_lengths n p Hinv) Hw Hset) in H1. injection H1 as <-.
        rewrite elem_of_difference, elem_of_list_to_set, Hrow. naive_solver.
      - rewrite Ht, list_lookup_insert_ne in H1 by done. rewrite H1. naive_solver. }
    split.
    + intros [(row0 & H0 & Hr) Hn]. apply (pi_rows n p Hinv _ _ H0) in Hr as (id1 & i1 & st1 & H' & Hr).
      exists id1, i1, st1. split; [|done]. rewrite lookup_delete_ne; [done|]. intros <-. rewrite Hid in H'. naive_solver.
    + intros (id1 & i1 & st1 & (Hne & H')%lookup_delete_Some & Hr). destruct (pi_flight n p Hinv _ _ _ _ H') as (Hw1 & _ & _).
      destruct (pi_lengths n p Hinv) as [Hl _]. destruct (lookup_lt_is_Some_2 (reg_table (m_scoreboard (p_unit p))) w1) as [row0 H0]; [lia|].
      split; [exists row0; split; [done|]; apply (pi_rows n p Hinv _ _ H0); eauto|].
      intros [-> Hr']. destruct Hne. by eapply (pi_disjoint n p Hinv).
  - intros id1 id2 w1 i1 i2 st1 st2 r (_&?)%lookup_delete_Some (_&?)%lookup_delete_Some. by eapply (pi_disjoint n p Hinv).
  - intros id1 w1 i1 st1 (_&?)%lookup_delete_Some. by eapply (pi_flight n p Hinv).
  - intros id1 w1 i1 st1 (Hne&H1)%lookup_delete_Some r Hr. rewrite Hm, decide_False; [by apply (pi_count n p Hinv _ _ _ _ H1)|].
    cbn. intros [-> Hr']. destruct Hne. by eapply (pi_disjoint n p Hinv).
  - intros w1 r Hn. rewrite Hm in Hn. cbn in Hn. case_decide as Hd; [done|].
    destruct (pi_nocount n p Hinv _ _ Hn) as (id1 & i1 & st1 & H1 & Hr). exists id1, i1, st1. split; [|done].
    rewrite lookup_delete_ne; [done|]. intros <-. rewrite Hid in H1. naive_solver.
Qed.
End steps.

(** An instruction that collides with nothing. *)
Lemma foldl_add_reg l : forall g r, (r ∈ foldl (fun regs r => add_reg r regs) g l) <-> r ∈ g \/ exists q, q ∈ l /\ 0 < q /\ r = s32 q.
Proof.
  induction l as [|q l IH]; intros g r; cbn [foldl].
  { split; [by left|]. intros [|(q & []%elem_of_nil & _)]; done. }
  rewrite IH. unfold add_reg. setoid_rewrite elem_of_cons. destruct (Z.ltb_spec 0 q) as [Hq|Hq].
  - rewrite elem_of_union, elem_of_singleton. split; [|naive_solver].
    intros [[->|?]|(x & ? & ? & ->)]; [right; exists q; auto|by left|right; exists x; auto].
  - split; [|intros [|(x & [->|?] & ? & ?)]; [by left|lia|right; by exists x]]. intros [?|(x & ? & ? & ->)]; [by left|right; exists x; auto].
Qed.
Lemma elem_of_inst_regs i r : (r ∈ inst_regs i) <-> exists q, (q ∈ dests i \/ q ∈ sources i) /\ r = s32 q.
Proof.
  unfold inst_regs, dests, sources. rewrite foldl_add_reg. setoid_rewrite list_elem_of_filter.
  split; [intros [[]%not_elem_of_empty|(q & Hq & Hpos & ->)]|intros (q & Hq & ->); right]; exists q.
  - apply elem_of_app in Hq. tauto.
  - rewrite elem_of_app. tauto.
Qed.
Lemma u32_s32 r : 0 <= r < 2 ^ 32 -> u32 (s32 r) = r.
Proof.
  intros Hr. unfold u32, s32. rewrite Zminus_mod_idemp_l. rewrite <-(Z.mod_small r (2 ^ 32)) at 2 by done. f_equal. lia.
Qed.
Lemma collides_spec i row : inst_ok i ->
  collides (inst_regs i) row = true <-> exists q, (q ∈ dests i \/ q ∈ sources i) /\ q ∈ row.
Proof.
  intros (_ & Hd & Hs). rewrite Forall_forall in Hd, Hs. unfold collides. rewrite existsb_exists.
  assert (forall q, q ∈ dests i \/ q ∈ sources i -> 0 < q < 2 ^ 32) as Hb.
  { intros q [Hq|Hq]; (split; [apply list_elem_of_filter in Hq; tauto|auto]). }
  split.
  - intros (r & Hr%list_elem_of_In%elem_of_elements%elem_of_inst_regs & Hrow). destruct Hr as (q & Hq & ->).
    rewrite u32_s32 in Hrow by (specialize (Hb q Hq); lia). apply bool_decide_eq_true in Hrow. by exists q.
  - intros (q & Hq & Hrow). exists (s32 q). split.
    + apply list_elem_of_In, elem_of_elements, elem_of_inst_regs. by exists q.
    + rewrite u32_s32 by (specialize (Hb q Hq); lia). by apply bool_decide_eq_true.
Qed.

Lemma issued_inv n p id wid i st row s' : p_inv n p -> p_flights p !! id = None -> (wid < n)%nat -> NoDup (dests i) -> stage_ok i st ->
  stage_count st = None -> reg_table (m_scoreboard (p_unit p)) !! wid = Some row -> (forall r, r ∈ dests i -> r ∉ row) ->
  row_set wid (list_to_set (dests i) ∪ row) (m_scoreboard (p_unit p)) s' ->
  p_inv n (mkPipeline (mkLdst s' (m_pending_writes (p_unit p))) (<[id := mkFlight wid i st]> (p_flights p))).
Proof.
  intros Hinv Hid Hw Hnd Hst Hnone Hrow Hfresh Hset. pose proof Hset as (Ht & _ & _).
  assert (forall id1 i1 st1 r, p_flights p !! id1 = Some (mkFlight wid i1 st1) -> r ∈ dests i1 -> r ∉ dests i) as Hother.
  { intros id1 i1 st1 r H1 Hr Hr'. apply (Hfresh r Hr'), (pi_rows n p Hinv _ _ Hrow). eauto. }
  split; cbn.
  - eapply row_set_lengths; [done|apply Hinv].
  - intros w1 row1 H1 r. assert ((r ∈ row1) <-> (exists row0, reg_table (m_scoreboard (p_unit p)) !! w1 = Some row0 /\ r ∈ row0) \/
      (w1 = wid /\ r ∈ dests i)) as ->.
    { destruct (decide (w1 = wid)) as [->|Hne].
      - rewrite (row_set_lookup n _ _ _ _ (pi_lengths n p Hinv) Hw Hset) in H1. injection H1 as <-.
        rewrite elem_of_union, elem_of_list_to_set, Hrow. naive_solver.
      - rewrite Ht, list_lookup_insert_ne in H1 by done. rewrite H1. naive_solver. }
    split.
    + intros [(row0 & H0 & Hr)|[-> Hr]].
      * apply (pi_rows n p Hinv _ _ H0) in Hr as (id1 & i1 & st1 & H' & Hr). exists id1, i1, st1. split; [|done].
        rewrite lookup_insert_ne; [done|congruence].
      * exists id, i, st. by rewrite lookup_insert_eq.
    + intros (id1 & i1 & st1 & [(<- & [= -> -> ->])|(Hne & H')]%lookup_insert_Some & Hr); [by right|left].
      destruct (pi_flight n p Hinv _ _ _ _ H') as (Hw1 & _ & _). destruct (pi_lengths n p Hinv) as [Hl _].
      destruct (lookup_lt_is_Some_2 (reg_table (m_scoreboard (p_unit p))) w1) as [row0 H0]; [lia|].
      exists row0. split; [done|]. apply (pi_rows n p Hinv _ _ H0). eauto.
  - intros id1 id2 w1 i1 i2 st1 st2 r H1 H2 Hr1 Hr2.
    apply lookup_insert_Some in H1 as [[<- E1]|[_ H1]], H2 as [[<- E2]|[_ H2]]; simplify_eq; [done| | |by eapply (pi_disjoint n p Hinv)].
    + by destruct (Hother _ _ _ _ H2 Hr2).
    + by destruct (Hother _ _ _ _ H1 Hr1).
  - intros id1 w1 i1 st1 [(<- & [= -> -> ->])|(_ & H1)]%lookup_insert_Some; [done|by eapply (pi_flight n p Hinv)].
  - intros id1 w1 i1 st1 [(<- & [= -> -> ->])|(_ & H1)]%lookup_insert_Some; intros r Hr; [|by apply (pi_count n p Hinv _ _ _ _ H1)]. rewrite Hnone.
    cbn. destruct (m_pending_writes (p_unit p) !! (w1, r)) eqn:Hc; [|done].
    destruct (pi_nocount n p Hinv w1 r) as (id1 & i2 & st2 & H1 & Hr'); [congruence|]. by destruct (Hother _ _ _ _ H1 Hr').
  - intros w1 r Hn. destruct (pi_nocount n p Hinv _ _ Hn) as (id1 & i1 & st1 & H1 & Hr). exists id1, i1, st1. split; [|done].
    rewrite lookup_insert_ne; [done|congruence].
Qed.

Lemma pipeline_new_inv n : p_inv n (pipeline_new n).
Proof.
  split; cbn.
  - by repeat split; apply length_replicate.
  - intros w row [-> _]%lookup_replicate r. rewrite elem_of_empty. split; [done|]. intros (id & i & st & H & _). by rewrite lookup_empty in H.
  - intros id id' w i i' st st' r H. by rewrite lookup_empty in H.
  - intros id w i st H. by rewrite lookup_empty in H.
  - intros id w i st H. by rewrite lookup_empty in H.
  - intros w r H. by rewrite lookup_empty in H.
Qed.

(** ** Steps *)
Lemma after_access_inv n p id w i st u o u1 row : p_inv n p -> p_flights p !! id = Some (mkFlight w i st) ->
  reg_table (m_scoreboard (p_unit p)) !! w = Some row -> unit_set w i (Some (u + o)) row (p_unit p) u1 ->
  is_load i = true -> space i <> shared_space -> 0 <= u -> 0 <= o -> u + o < 2 ^ 32 ->
  exists p', after_access id w i u o (p_flights p) u1 = Some p' /\ p_inv n p'.
Proof.
  intros Hinv Hid Hrow [Hset Hm] Hl Hsp Hu Ho Hb. destruct (pi_flight n p Hinv _ _ _ _ Hid) as (Hw & Hnd & _).
  pose proof (row_set_lengths n _ _ _ _ Hset (pi_lengths n p Hinv)) as L1.
  pose proof (row_set_lookup n _ _ _ _ (pi_lengths n p Hinv) Hw Hset) as R1. unfold after_access.
  destruct (Z.eqb_spec u 0) as [->|Hne].
  - destruct (load_dispatched_spec n w i Hw o u1 row Hnd L1 R1) as (u2 & -> & Hset2 & Hm2); [|done|].
    { intros r Hr. rewrite Hm, decide_True by done. done. }
    eexists. split; [done|]. assert (forall c row', unit_set w i c row' u1 u2 -> unit_set w i c row' (p_unit p) u2) as Htr.
    { intros c row' [? Hm']. split; [by eapply row_set_trans|]. intros k. rewrite Hm', Hm. by case_decide. }
    destruct (Z.eqb_spec o 0) as [->|Ho0].
    + by apply (removed_inv n p id w i st Hinv Hid row), Htr.
    + apply (changed_inv n p id w i st Hinv Hid (Loading 0 o) row); [done|split; [done|lia]|]. by apply Htr.
  - eexists. split; [done|]. apply (changed_inv n p id w i st Hinv Hid (Loading u o) row); [done|split; [done|lia]|done].
Qed.

Lemma no_collision n p wid i : p_inv n p -> inst_ok i -> checkCollision wid i (m_scoreboard (p_unit p)) = Some false ->
  (wid < n)%nat /\ exists row, reg_table (m_scoreboard (p_unit p)) !! wid = Some row /\
    forall r, r ∈ dests i \/ r ∈ sources i -> r ∉ row.
Proof.
  intros Hinv Hi Hc. unfold checkCollision in Hc. destruct (reg_table _ !! wid) as [row|] eqn:Hrow; [|done].
  split; [apply lookup_lt_Some in Hrow; destruct (pi_lengths n p Hinv); lia|]. exists row. split; [done|].
  intros r Hr Hin. injection Hc as Hc. enough (collides (inst_regs i) row = true) by congruence. apply collides_spec; eauto.
Qed.

Lemma issue_inv n p id wid i st : p_inv n p -> enabled (Issue id wid i st) p ->
  exists p', pipe_step (Issue id wid i st) p = Some p' /\ p_inv n p'.
Proof.
  intros Hinv (Hid & Hi & Hst & Hc). destruct (no_collision n p wid i Hinv Hi Hc) as (Hw & row & Hrow & Hfresh).
  cbn. unfold on_scoreboard. destruct (reserveRegisters_spec n wid i Hw _ row (pi_lengths n p Hinv) Hrow) as (s' & -> & Hs'); [apply Hi|auto|].
  eexists. split; [done|]. apply (issued_inv n p id wid i st row); try done; [apply Hi| | |auto].
  - destruct st; cbn in *; try done; apply andb_true_iff in Hst as [? Hs]; (split; [done|]).
    + by apply bool_decide_eq_true in Hs.
    + apply negb_true_iff in Hs. by apply bool_decide_eq_false in Hs.
  - by destruct st.
Qed.

Lemma step_inv n p e : p_inv n p -> enabled e p -> exists p', pipe_step e p = Some p' /\ p_inv n p'.
Proof.
  intros Hinv He. destruct e as [id wid i st|id|id|id N|id|id|id]; [by apply issue_inv| | | | | |].
  all: unfold enabled in He; match type of He with
       | context [mkFlight _ _ (Loading _ _)] => destruct He as (w & i & u & o & Hid & Hpos)
       | _ /\ _ => destruct He as ((w & i & Hid) & HN)
       | _ => destruct He as (w & i & Hid)
       end.
  all: destruct (pi_flight n p Hinv _ _ _ _ Hid) as (Hw & Hnd & Hst); pose proof (pi_count n p Hinv _ _ _ _ Hid) as Hc;
    pose proof (pi_lengths n p Hinv) as Hl; destruct (flight_row n p id w i _ Hinv Hid) as [row Hrow];
    cbn -[after_access]; unfold with_flight; rewrite Hid; cbn -[after_access]; cbn in Hc.
  - unfold on_scoreboard. destruct (releaseRegisters_spec n w i Hw _ row Hl Hrow) as (s' & -> & Hs'). eexists. split; [done|].
    apply (removed_inv n p id w i _ Hinv Hid row); [done|]. split; [done|]. intros [w1 r]. cbn. case_decide as Hd; [|done].
    destruct Hd as [-> Hr]. by apply Hc.
  - destruct (writeback_shared_spec n w i Hw (p_unit p) row) as (u' & -> & Hu'); [done|done|done|apply Hst|done|]. eexists. split; [done|].
    by apply (removed_inv n p id w i _ Hinv Hid row).
  - destruct Hst as [Hld Hsp]. destruct (ldst_issue_spec n w i Hw N (p_unit p) row) as (u' & -> & Hu'); [done..|].
    cbn -[after_access]. eapply (after_access_inv n p id w i _ N 0); [done..| |done|done|lia|lia|lia]. by rewrite Z.add_0_r.
  - destruct Hst as ((Hld & Hsp) & ? & ? & ?). destruct (access_hit_spec n w i Hw (u + o) (p_unit p) row) as (u' & -> & Hu'); [done..|].
    cbn -[after_access]. eapply (after_access_inv n p id w i _ (u - 1) o); [done..| |done|done|lia|lia|lia].
    by replace (u - 1 + o) with (u + o - 1) by lia.
  - destruct Hst as ((Hld & Hsp) & ? & ? & ?). destruct (access_sent_spec n w i Hw (u + o) (p_unit p) row) as (u' & -> & Hu'); [done..|].
    cbn -[after_access]. eapply (after_access_inv n p id w i _ (u - 1) (o + 1)); [done..| |done|done|lia|lia|lia].
    by replace (u - 1 + (o + 1)) with (u + o) by lia.
  - destruct Hst as ((Hld & Hsp) & ? & ? & ?). destruct (writeback_spec n w i Hw (u + o) (p_unit p) row) as (u' & -> & Hu'); [done..|].
    eexists. split; [done|]. destruct (Z.eqb_spec (u + o) 1) as [Heq|Hne].
    + rewrite (proj2 (Z.eqb_eq u 0)), (proj2 (Z.eqb_eq o 1)) by lia. by apply (removed_inv n p id w i _ Hinv Hid row).
    + replace ((u =? 0) && (o =? 1)) with false by (symmetry; apply andb_false_iff; rewrite !Z.eqb_neq; lia).
      apply (changed_inv n p id w i _ Hinv Hid (Loading u (o - 1)) row); [done|split; [done|lia]|].
      cbn. by replace (u + (o - 1)) with (u + o - 1) by lia.
Qed.

(** ** Every run *)
Inductive runs (n : nat) : pipeline -> Prop :=
  | runs_new : runs n (pipeline_new n)
  | runs_step p e p' : runs n p -> enabled e p -> pipe_step e p = Some p' -> runs n p'.
Lemma runs_inv n p : runs n p -> p_inv n p.
Proof.
  induction 1 as [|p e p' _ IH He Hp]; [apply pipeline_new_inv|].
  destruct (step_inv n p e IH He) as (p1 & Hp1 & ?). congruence.
Qed.

(** C18: The scoreboard protects registers. In every run of a core's issue stage, execution units
    and load/store unit, no step fails an assertion: an instruction that
    [checkCollision] lets issue never reserves a reserved register, and no access count
    goes below zero. An instruction is issued only when no instruction of its warp in flight
    writes a register it reads or writes, and [pendingWrites] is false exactly when
    none of the warp's instructions in flight has a destination left. *)
Theorem scoreboard_hazard_free n p : runs n p ->
  (forall e, enabled e p -> exists p', pipe_step e p = Some p' /\ runs n p') /\
  (forall id wid i st, enabled (Issue id wid i st) p -> forall id' i' st' r, p_flights p !! id' = Some (mkFlight wid i' st') ->
     r ∈ dests i' -> (r ∉ dests i) /\ r ∉ sources i) /\
  (forall wid, (wid < n)%nat -> exists b, pendingWrites wid (m_scoreboard (p_unit p)) = Some b /\
     ((b = true) <-> exists id i st r, p_flights p !! id = Some (mkFlight wid i st) /\ r ∈ dests i)).
Proof.
  intros Hruns. pose proof (runs_inv n p Hruns) as Hinv. split; [|split].
  - intros e He. destruct (step_inv n p e Hinv He) as (p' & Hp & _). exists p'. split; [done|]. by eapply runs_step.
  - intros id wid i st (_ & Hi & _ & Hc) id' i' st' r Hid Hr.
    destruct (no_collision n p wid i Hinv Hi Hc) as (_ & row & Hrow & Hfresh).
    assert (r ∈ row) as Hin by (apply (pi_rows n p Hinv _ _ Hrow); eauto). split; intros Hr'; apply (Hfresh r); auto.
  - intros wid Hw. destruct (pi_lengths n p Hinv) as [Hl _]. unfold pendingWrites.
    destruct (lookup_lt_is_Some_2 (reg_table (m_scoreboard (p_unit p))) wid) as [row Hrow]; [lia|]. rewrite Hrow. eexists. split; [done|].
    rewrite negb_true_iff, bool_decide_eq_false. split.
    + intros Hne. destruct (set_choose_L row Hne) as [r Hr]. apply (pi_rows n p Hinv _ _ Hrow) in Hr as (id & i & st & ? & ?).
      by exists id, i, st, r.
    + intros (id & i & st & r & ? & ?) ->. apply (not_elem_of_empty (C := gset Z) r). apply (pi_rows n p Hinv _ _ Hrow). eauto.
Qed.

(** A load of register 5 by warp 1. *)
Definition example_load : inst_t := mkInst LOAD_OP memory_load [5; 0; 0; 0] [6; 0; 0; 0] 0 0 0 global_space.
Fixpoint run_events (es : list event) (p : pipeline) : option pipeline :=
  match es with [] => Some p | e :: es => p ← pipe_step e p; run_events es p end.
Definition example_pipeline : pipeline :=
  default (pipeline_new 2) (pipe_step (Issue 0 1 example_load Queued) (pipeline_new 2)).

(** After the load is written back no write is pending, but the register keeps its marks of a
    long operation and of a cache operation: [releaseRegister] clears neither. *)
Example marks_outlive_load :
  (fun p => let s := m_scoreboard (p_unit p) in
     (pendingWrites 1 s, islongop 1 5 s, checkDependCacheop 1 example_load s)) <$>
    run_events [Issue 0 1 example_load Queued; Enter 0 1; Send 0; Response 0] (pipeline_new 2) =
  Some (Some false, Some true, Some true).
Proof. vm_compute. reflexivity. Qed.

Lemma scoreboard_hazard_free_witness : runs 2 example_pipeline /\ (
  (forall e, enabled e example_pipeline -> exists p', pipe_step e example_pipeline = Some p' /\ runs 2 p') /\
  (forall id wid i st, enabled (Issue id wid i st) example_pipeline ->
     forall id' i' st' r, p_flights example_pipeline !! id' = Some (mkFlight wid i' st') ->
     r ∈ dests i' -> (r ∉ dests i) /\ r ∉ sources i) /\
  (forall wid, (wid < 2)%nat -> exists b, pendingWrites wid (m_scoreboard (p_unit example_pipeline)) = Some b /\
     ((b = true) <-> exists id i st r, p_flights example_pipeline !! id = Some (mkFlight wid i st) /\ r ∈ dests i))).
Proof.
  assert (runs 2 example_pipeline) as Hr.
  { apply (runs_step 2 (pipeline_new 2) (Issue 0 1 example_load Queued)); [apply runs_new| |vm_compute; reflexivity].
    split; [reflexivity|]. split; [|split; reflexivity]. split; [|split]; apply (bool_decide_unpack _); vm_compute; exact I. }
  split; [exact Hr|]. apply (scoreboard_hazard_free 2 example_pipeline Hr).
Defined.
