(* ===== verification/GpuTags.v ===== *)
(** Geometry and tags of the caches of the GPU model: [cache_config] of
    [gpgpu-sim/gpu-config.h], [LOGB2] of [gpgpu-sim/gpu-misc.cc], and [tag_array] of
    [gpgpu-sim/gpu-cache.h] and [gpu-cache.cc]. *)
From S2P Require Import Prelude.

(** ** Configuration *)
Inductive replacement_policy_t := LRU | FIFO.
Inductive write_policy_t := READ_ONLY | WRITE_BACK | WRITE_THROUGH | WRITE_EVICT | LOCAL_WB_GLOBAL_WT.
Inductive allocation_policy_t := ON_MISS | ON_FILL.
Inductive write_allocate_policy_t := NO_WRITE_ALLOCATE | WRITE_ALLOCATE.
#[global] Instance replacement_policy_t_eq_dec : EqDecision replacement_policy_t.
Proof. solve_decision. Defined.
#[global] Instance write_policy_t_eq_dec : EqDecision write_policy_t.
Proof. solve_decision. Defined.
#[global] Instance allocation_policy_t_eq_dec : EqDecision allocation_policy_t.
Proof. solve_decision. Defined.

Record cache_config := mkConfig {
  m_nset : Z; m_nset_log2 : Z; m_line_sz : Z; m_line_sz_log2 : Z; m_assoc : Z;
  m_replacement_policy : replacement_policy_t; m_write_policy : write_policy_t;
  m_alloc_policy : allocation_policy_t; m_write_alloc_policy : write_allocate_policy_t;
  m_mshr_entries : Z; m_mshr_max_merge : Z; m_miss_queue_size : Z }.

Definition nonzero_bit (v mask : Z) : Z := if Z.land v mask =? 0 then 0 else 1.
Definition LOGB2_step (mask width : Z) (vr : Z * Z) : Z * Z :=
  let '(v, r) := vr in
  let shift := Z.shiftl (nonzero_bit v mask) width in (Z.shiftr v shift, Z.lor r shift).
Definition LOGB2 (v : Z) : Z :=
  snd (LOGB2_step 0x2 0 (LOGB2_step 0xC 1 (LOGB2_step 0xF0 2 (LOGB2_step 0xFF00 3 (LOGB2_step 0xFFFF0000 4 (v, 0)))))).

(** [init] after the numbers and policies of the configuration string are read. *)
Definition cache_config_init (nset line_sz assoc : Z) rp wp ap wap (mshr_entries mshr_max_merge miss_queue_size : Z) : cache_config :=
  mkConfig nset (LOGB2 nset) line_sz (LOGB2 line_sz) assoc rp wp ap wap mshr_entries mshr_max_merge miss_queue_size.

(** ** Lines *)
Inductive cache_block_state := INVALID | RESERVED | VALID | MODIFIED.
#[global] Instance cache_block_state_eq_dec : EqDecision cache_block_state.
Proof. solve_decision. Defined.
Inductive cache_request_status := HIT | HIT_RESERVED | MISS | RESERVATION_FAIL.
#[global] Instance cache_request_status_eq_dec : EqDecision cache_request_status.
Proof. solve_decision. Defined.

Record cache_block_t := mkBlock {
  m_tag : Z; m_block_addr : Z; m_alloc_time : Z; m_last_access_time : Z; m_fill_time : Z; m_status : cache_block_state }.
Definition cache_block_new : cache_block_t := mkBlock 0 0 0 0 0 INVALID.
Definition block_allocate (tag block_addr time : Z) (e : cache_block_t) : cache_block_t := mkBlock tag block_addr time time 0 RESERVED.
Definition block_fill (time : Z) (e : cache_block_t) : option cache_block_t :=
  assert! bool_decide (m_status e = RESERVED);
  Some (mkBlock (m_tag e) (m_block_addr e) (m_alloc_time e) (m_last_access_time e) time VALID).
Definition set_status (st : cache_block_state) (e : cache_block_t) : cache_block_t :=
  mkBlock (m_tag e) (m_block_addr e) (m_alloc_time e) (m_last_access_time e) (m_fill_time e) st.
Definition touch (time : Z) (e : cache_block_t) : cache_block_t :=
  mkBlock (m_tag e) (m_block_addr e) (m_alloc_time e) time (m_fill_time e) (m_status e).

Section tags.
Variable m_config : cache_config.

Definition get_num_lines : Z := u32 (m_nset m_config * m_assoc m_config).
Definition set_index (addr : Z) : Z :=
  u32 (Z.land (Z.shiftr addr (m_line_sz_log2 m_config)) (u32 (m_nset m_config - 1))).
Definition tag (addr : Z) : Z := Z.shiftr addr (u32 (m_line_sz_log2 m_config + m_nset_log2 m_config)).
(** The complement is taken of an [unsigned], which is then extended with zeros. *)
Definition block_addr (addr : Z) : Z := Z.land addr (Z.lxor (u32 (m_line_sz m_config - 1)) (2 ^ 32 - 1)).

(** ** The tag array *)
Record tag_array := mkTags { m_lines : list cache_block_t; m_access : Z; m_miss : Z; m_pending_hit : Z }.
Definition tag_array_new : tag_array := mkTags (replicate (Z.to_nat get_num_lines) cache_block_new) 0 0 0.
Definition with_lines (l : list cache_block_t) (t : tag_array) : tag_array := mkTags l (m_access t) (m_miss t) (m_pending_hit t).

(** The victims found so far: [None] is the code's index -1. *)
Record victims := mkVictims { invalid_line : option nat; valid_line : option nat; valid_timestamp : Z; all_reserved : bool }.
Inductive probed := Found (st : cache_request_status) (idx : nat) | Scanned (v : victims).

Definition candidate (index : nat) (line : cache_block_t) (v : victims) : victims :=
  if bool_decide (m_status line = RESERVED) then v
  else if bool_decide (m_status line = INVALID) then mkVictims (Some index) (valid_line v) (valid_timestamp v) false
  else
    let time := match m_replacement_policy m_config with LRU => m_last_access_time line | FIFO => m_alloc_time line end in
    if time <? valid_timestamp v then mkVictims (invalid_line v) (Some index) time false
    else mkVictims (invalid_line v) (valid_line v) (valid_timestamp v) false.
Fixpoint probe_ways (ways : nat) (index : nat) (lines : list cache_block_t) (wanted : Z) (v : victims) : option probed :=
  match ways with
  | O => Some (Scanned v)
  | S ways =>
      line ← lines !! index;
      if (m_tag line =? wanted) && bool_decide (m_status line = RESERVED) then Some (Found HIT_RESERVED index)
      else if (m_tag line =? wanted) && bool_decide (m_status line = VALID \/ m_status line = MODIFIED) then Some (Found HIT index)
      else probe_ways ways (S index) lines wanted (candidate index line v)
  end.
(** [idx] is the caller's variable, set unless every line of the set is reserved. *)
Definition probe (addr : Z) (idx : nat) (t : tag_array) : option (cache_request_status * nat) :=
  r ← probe_ways (Z.to_nat (m_assoc m_config)) (Z.to_nat (u32 (set_index addr * m_assoc m_config))) (m_lines t) (tag addr)
        (mkVictims None None (2 ^ 32 - 1) true);
  match r with
  | Found st i => Some (st, i)
  | Scanned v =>
      if all_reserved v then assert! bool_decide (m_alloc_policy m_config = ON_MISS); Some (RESERVATION_FAIL, idx)
      else match invalid_line v, valid_line v with
           | Some i, _ => Some (MISS, i)
           | None, Some i => Some (MISS, i)
           | None, None => None
           end
  end.

Definition on_line (f : cache_block_t -> cache_block_t) (i : nat) (t : tag_array) : option tag_array :=
  line ← m_lines t !! i; Some (with_lines (<[i := f line]> (m_lines t)) t).
(** [access] with its outputs: the status, the index, and the dirty line it evicted. *)
Definition access (addr time : Z) (idx : nat) (t : tag_array) : option (cache_request_status * nat * option cache_block_t * tag_array) :=
  let t := mkTags (m_lines t) (u32 (m_access t + 1)) (m_miss t) (m_pending_hit t) in
  '(st, i) ← probe addr idx t;
  match st with
  | HIT_RESERVED =>
      t ← on_line (touch time) i (mkTags (m_lines t) (m_access t) (m_miss t) (u32 (m_pending_hit t + 1))); Some (st, i, None, t)
  | HIT => t ← on_line (touch time) i t; Some (st, i, None, t)
  | MISS =>
      let t := mkTags (m_lines t) (m_access t) (u32 (m_miss t + 1)) (m_pending_hit t) in
      if bool_decide (m_alloc_policy m_config = ON_MISS) then
        line ← m_lines t !! i;
        t ← on_line (block_allocate (tag addr) (block_addr addr) time) i t;
        Some (st, i, (if bool_decide (m_status line = MODIFIED) then Some line else None), t)
      else Some (st, i, None, t)
  | RESERVATION_FAIL => Some (st, i, None, mkTags (m_lines t) (m_access t) (u32 (m_miss t + 1)) (m_pending_hit t))
  end.
(** The overload for callers that cannot write back. *)
Definition access_clean (addr time : Z) (idx : nat) (t : tag_array) : option (cache_request_status * nat * tag_array) :=
  '(st, i, evicted, t) ← access addr time idx t;
  match evicted with None => Some (st, i, t) | Some _ => None end.

Definition fill_index (index : nat) (time : Z) (t : tag_array) : option tag_array :=
  assert! bool_decide (m_alloc_policy m_config = ON_MISS);
  line ← m_lines t !! index; line ← block_fill time line;
  Some (with_lines (<[index := line]> (m_lines t)) t).
Definition fill_addr (addr time : Z) (t : tag_array) : option tag_array :=
  assert! bool_decide (m_alloc_policy m_config = ON_FILL);
  '(st, i) ← probe addr 0 t;
  assert! bool_decide (st = MISS);
  line ← m_lines t !! i; line ← block_fill time (block_allocate (tag addr) (block_addr addr) time line);
  Some (with_lines (<[i := line]> (m_lines t)) t).
Definition flush (t : tag_array) : tag_array := with_lines (map (set_status INVALID) (m_lines t)) t.
End tags.

(** ** The set of blocks a tag array holds *)
Section spec.
Variable cfg : cache_config.
Implicit Types (t : tag_array) (b time : Z) (i j k : nat) (line : cache_block_t).

(** A geometry of powers of two, and lines that an [unsigned] can count. *)
Record config_ok : Prop := {
  ok_nset : 0 <= m_nset_log2 cfg /\ m_nset cfg = 2 ^ m_nset_log2 cfg;
  ok_line : 0 <= m_line_sz_log2 cfg /\ m_line_sz cfg = 2 ^ m_line_sz_log2 cfg;
  ok_bits : m_line_sz_log2 cfg + m_nset_log2 cfg < 32;
  ok_assoc : 0 < m_assoc cfg;
  ok_lines : m_nset cfg * m_assoc cfg < 2 ^ 32 }.
(** The addresses the caches pass to their tags. *)
Definition aligned b : Prop := 0 <= b < 2 ^ 32 /\ block_addr cfg b = b.
(** No access has the time 2^32 - 1, the scan's bound. *)
Definition time_ok time : Prop := 0 <= time < 2 ^ 32 - 1.

Definition live line : Prop := m_status line <> INVALID.
Definition holds t b i line : Prop := m_lines t !! i = Some line /\ live line /\ m_block_addr line = b.
Record tags_inv t : Prop := {
  ti_length : Z.of_nat (length (m_lines t)) = m_nset cfg * m_assoc cfg;
  ti_line : forall i line, m_lines t !! i = Some line -> live line ->
    aligned (m_block_addr line) /\ m_tag line = tag cfg (m_block_addr line) /\
    Z.of_nat i / m_assoc cfg = set_index cfg (m_block_addr line);
  ti_unique : forall b i j li lj, holds t b i li -> holds t b j lj -> i = j;
  ti_times : forall i line, m_lines t !! i = Some line -> time_ok (m_alloc_time line) /\ time_ok (m_last_access_time line) }.

(** The lines of a block's set. *)
Definition in_set b i : Prop := Z.of_nat i / m_assoc cfg = set_index cfg b.

Hypothesis Hcfg : config_ok.

Lemma set_index_eq b : 0 <= b < 2 ^ 32 -> set_index cfg b = (b / m_line_sz cfg) `mod` m_nset cfg.
Proof using Hcfg.
  intros Hb. destruct Hcfg as [[Hn1 Hn2] [Hl1 Hl2] Hbits _ _]. unfold set_index.
  rewrite Z.shiftr_div_pow2 by lia. rewrite <-Hl2, Hn2.
  assert (2 ^ m_nset_log2 cfg < 2 ^ 32) as Hlt by (apply Z.pow_lt_mono_r; lia).
  assert (0 < 2 ^ m_nset_log2 cfg) as Hpos by (apply Z.pow_pos_nonneg; lia).
  rewrite (u32_small (2 ^ m_nset_log2 cfg - 1)) by lia.
  replace (2 ^ m_nset_log2 cfg - 1) with (Z.ones (m_nset_log2 cfg)) by (rewrite Z.ones_equiv; lia). rewrite Z.land_ones by lia.
  apply u32_small. pose proof (Z.mod_pos_bound (b / m_line_sz cfg) (2 ^ m_nset_log2 cfg)). lia.
Qed.
Lemma tag_eq b : tag cfg b = b / m_line_sz cfg / m_nset cfg.
Proof using Hcfg.
  destruct Hcfg as [[Hn1 Hn2] [Hl1 Hl2] Hbits _ _]. unfold tag. rewrite u32_small by lia.
  rewrite Z.shiftr_div_pow2, Z.pow_add_r, Hn2, Hl2 by lia. rewrite Z.div_div by lia. done.
Qed.
Lemma block_addr_eq b : 0 <= b -> block_addr cfg b = b `mod` 2 ^ 32 / m_line_sz cfg * m_line_sz cfg.
Proof using Hcfg.
  intros Hb. destruct Hcfg as [[Hn _] [Hl1 Hl2] Hbits _ _]. unfold block_addr. rewrite Hl2. set (l := m_line_sz_log2 cfg) in *.
  assert (2 ^ l < 2 ^ 32) as Hlt by (apply Z.pow_lt_mono_r; lia). assert (0 < 2 ^ l) as Hpos by (apply Z.pow_pos_nonneg; lia).
  rewrite u32_small by lia. replace (2 ^ l - 1) with (Z.ones l) by (rewrite Z.ones_equiv; lia).
  replace (2 ^ 32 - 1) with (Z.ones 32) by done. rewrite <-Z.shiftr_div_pow2, <-Z.shiftl_mul_pow2 by lia.
  apply Z.bits_inj'. intros i Hi. rewrite Z.land_spec, Z.lxor_spec, Z.shiftl_spec by lia.
  destruct (decide (i < l)) as [Hil|Hil].
  - rewrite !Z.ones_spec_low, (Z.testbit_neg_r _ (i - l)) by lia. by rewrite andb_false_r.
  - rewrite (Z.ones_spec_high l), Z.shiftr_spec by lia. replace (i - l + l) with i by lia. rewrite xorb_false_l.
    destruct (decide (i < 32)).
    + rewrite Z.ones_spec_low, Z.mod_pow2_bits_low by lia. apply andb_true_r.
    + rewrite Z.ones_spec_high, Z.mod_pow2_bits_high by lia. apply andb_false_r.
Qed.
(** Set index and tag identify a block. *)
Lemma tag_set_inj b b' : aligned b -> aligned b' -> tag cfg b = tag cfg b' -> set_index cfg b = set_index cfg b' -> b = b'.
Proof using Hcfg.
  intros [Hb Ha] [Hb' Ha'] Ht Hs. rewrite !tag_eq in Ht. rewrite !set_index_eq in Hs by done.
  rewrite block_addr_eq, Z.mod_small in Ha, Ha' by lia. destruct Hcfg as [[Hn1 Hn2] _ _ _ _].
  assert (0 < m_nset cfg) by (rewrite Hn2; apply Z.pow_pos_nonneg; lia). rewrite <-Ha, <-Ha'. f_equal.
  rewrite (Z.div_mod (b / m_line_sz cfg) (m_nset cfg)), (Z.div_mod (b' / m_line_sz cfg) (m_nset cfg)) by lia. congruence.
Qed.
Lemma set_index_range b : 0 <= b < 2 ^ 32 -> 0 <= set_index cfg b < m_nset cfg.
Proof using Hcfg.
  intros Hb. rewrite set_index_eq by done. destruct Hcfg as [[Hn1 Hn2] _ _ _ _]. apply Z.mod_pos_bound. rewrite Hn2. apply Z.pow_pos_nonneg; lia.
Qed.

(** ** The scan of a set *)
Definition time_of line : Z := match m_replacement_policy cfg with LRU => m_last_access_time line | FIFO => m_alloc_time line end.
Definition replaceable line : Prop := m_status line = VALID \/ m_status line = MODIFIED.
Definition range (lines : list cache_block_t) (a e : nat) (P : nat -> cache_block_t -> Prop) : Prop :=
  forall i line, (a <= i < e)%nat -> lines !! i = Some line -> P i line.

(** What the scan knows of the lines from [a] to [e]. *)
Record scanned (lines : list cache_block_t) (a e : nat) (v : victims) : Prop := {
  sc_reserved : all_reserved v = true -> range lines a e (fun _ line => m_status line = RESERVED) /\
    invalid_line v = None /\ valid_line v = None;
  sc_open : all_reserved v = false -> invalid_line v <> None \/ valid_line v <> None;
  sc_invalid : match invalid_line v with
    | Some i => (a <= i < e)%nat /\ exists line, lines !! i = Some line /\ m_status line = INVALID
    | None => range lines a e (fun _ line => live line)
    end;
  sc_valid : match valid_line v with
    | Some i => (a <= i < e)%nat /\ exists line, lines !! i = Some line /\ replaceable line /\ time_of line = valid_timestamp v
    | None => valid_timestamp v = 2 ^ 32 - 1
    end;
  sc_oldest : range lines a e (fun _ line => replaceable line -> valid_timestamp v <= time_of line) }.

Lemma scanned_none lines a : scanned lines a a (mkVictims None None (2 ^ 32 - 1) true).
Proof. split; cbn; [intros _; split; [|done]|done| |done|]; intros i line Hi; lia. Qed.

Lemma range_S lines a e P line : (a <= e)%nat -> lines !! e = Some line -> range lines a e P -> P e line -> range lines a (S e) P.
Proof.
  intros Ha Hl Hr Hp i l Hi Hli. destruct (decide (i = e)) as [->|]; [congruence|]. apply Hr; [lia|done].
Qed.
Lemma scanned_candidate lines a e v line : (a <= e)%nat -> lines !! e = Some line -> time_ok (time_of line) ->
  scanned lines a e v -> scanned lines a (S e) (candidate cfg e line v).
Proof.
  intros Ha Hl Ht [H1 H2 H3 H4 H5]. unfold candidate. fold (time_of line).
  case_bool_decide as Hres; [|case_bool_decide as Hinv; [|destruct (Z.ltb_spec (time_of line) (valid_timestamp v)) as [Hlt|Hge]]].
  - split; [|done| | |].
    + intros Hall. destruct (H1 Hall) as (? & ? & ?). split; [by eapply range_S|done].
    + destruct (invalid_line v); [destruct H3; split; [lia|done]|]. eapply range_S; [done..|]. unfold live. by rewrite Hres.
    + destruct (valid_line v); [destruct H4; split; [lia|done]|done].
    + eapply range_S; [done..|]. unfold replaceable. rewrite Hres. by intros [].
  - split; cbn; [done|by left| | |].
    + split; [lia|]. by exists line.
    + destruct (valid_line v); [destruct H4; split; [lia|done]|done].
    + eapply range_S; [done..|]. unfold replaceable. rewrite Hinv. by intros [].
  - assert (replaceable line) as Hrep by (unfold replaceable; destruct (m_status line); auto; done).
    split; cbn; [done|intros _; right; discriminate| | |].
    + destruct (invalid_line v); [destruct H3; split; [lia|done]|]. by eapply range_S.
    + split; [lia|]. by exists line.
    + eapply range_S; [done..| |done]. intros i l Hi Hli Hr. specialize (H5 i l Hi Hli Hr). unfold time_of in *. lia.
  - assert (replaceable line) as Hrep by (unfold replaceable; destruct (m_status line); auto; done).
    split; cbn; [done| | | |].
    + intros _. right. intros Hn. rewrite Hn in H4. destruct Ht. unfold time_of in *. lia.
    + destruct (invalid_line v); [destruct H3; split; [lia|done]|]. by eapply range_S.
    + destruct (valid_line v); [destruct H4; split; [lia|done]|done].
    + eapply range_S; [done..|]. done.
Qed.

(** The scan finds the first line with the wanted tag that is not invalid, or has seen all lines. *)
Lemma probe_ways_spec lines wanted a ways : forall e v, (a <= e)%nat -> (e + ways <= length lines)%nat ->
  range lines a (e + ways) (fun _ line => time_ok (time_of line)) -> scanned lines a e v ->
  (exists i line, lines !! i = Some line /\ (e <= i < e + ways)%nat /\ live line /\ m_tag line = wanted /\
     probe_ways cfg ways e lines wanted v = Some (Found (if bool_decide (m_status line = RESERVED) then HIT_RESERVED else HIT) i)) \/
  (range lines e (e + ways) (fun _ line => live line -> m_tag line <> wanted) /\
   exists v', probe_ways cfg ways e lines wanted v = Some (Scanned v') /\ scanned lines a (e + ways) v').
Proof.
  induction ways as [|ways IH]; intros e v Ha Hlen Ht Hs; cbn [probe_ways].
  { right. split; [intros i line Hi; lia|]. exists v. by rewrite Nat.add_0_r. }
  destruct (lookup_lt_is_Some_2 lines e) as [line Hl]; [lia|]. rewrite Hl. cbn [mbind option_bind].
  destruct (Z.eqb_spec (m_tag line) wanted) as [Htag|Htag]; cbn [andb]; [case_bool_decide as Hres; [|case_bool_decide as Hval]|].
  1-2: left; exists e, line; (split; [done|]); (split; [lia|]); split; [unfold live; destruct (m_status line); naive_solver|].
  1-2: by rewrite ?(bool_decide_true (m_status line = _)), ?(bool_decide_false (m_status line = _)) by done.
  all: assert (live line -> m_tag line <> wanted) as Hno by (unfold live; destruct (m_status line); naive_solver).
  all: destruct (IH (S e) (candidate cfg e line v)) as [(i & l & ? & ? & ? & ? & ?)|(Hr & v' & ? & ?)]; [lia|lia|
      by replace (S e + ways)%nat with (e + S ways)%nat by lia|apply scanned_candidate; [lia|done|apply (Ht e); [lia|done]|done]|left; exists i, l;
      split; [done|]; split; [lia|done]|right].
  all: replace (e + S ways)%nat with (S e + ways)%nat by lia; split; [|by exists v'].
  all: intros i l Hi Hli; destruct (decide (i = e)) as [->|]; [by replace l with line by congruence|apply (Hr i); [lia|done]].
Qed.

(** ** Probes and accesses *)
Lemma in_set_range t b i line : tags_inv t -> 0 <= b < 2 ^ 32 -> m_lines t !! i = Some line ->
  in_set b i <-> (Z.to_nat (u32 (set_index cfg b * m_assoc cfg)) <= i < Z.to_nat (u32 (set_index cfg b * m_assoc cfg)) + Z.to_nat (m_assoc cfg))%nat.
Proof using Hcfg.
  intros Ht Hb Hl. pose proof (set_index_range b Hb) as Hs. destruct Hcfg as [_ _ _ Ha Hn].
  assert (0 <= set_index cfg b * m_assoc cfg < 2 ^ 32) by nia. rewrite u32_small by lia. unfold in_set.
  pose proof (Z.div_mod (Z.of_nat i) (m_assoc cfg)) as Hd. pose proof (Z.mod_pos_bound (Z.of_nat i) (m_assoc cfg) Ha) as Hm. nia.
Qed.
Lemma set_fits t b : tags_inv t -> 0 <= b < 2 ^ 32 ->
  (Z.to_nat (u32 (set_index cfg b * m_assoc cfg)) + Z.to_nat (m_assoc cfg) <= length (m_lines t))%nat.
Proof using Hcfg.
  intros Ht Hb. pose proof (set_index_range b Hb) as Hs. pose proof (ti_length t Ht) as Hlen. destruct Hcfg as [_ _ _ Ha Hn].
  assert (0 <= set_index cfg b * m_assoc cfg < 2 ^ 32) by nia. rewrite u32_small by lia.
  assert ((set_index cfg b + 1) * m_assoc cfg <= m_nset cfg * m_assoc cfg) by nia. lia.
Qed.

Lemma block_addr_aligned a : 0 <= a -> aligned (block_addr cfg a).
Proof using Hcfg.
  intros Ha. pose proof (block_addr_eq a Ha) as Heq. destruct Hcfg as [_ [Hl1 Hl2] _ _ _].
  assert (0 < m_line_sz cfg) as Hpos by (rewrite Hl2; apply Z.pow_pos_nonneg; lia).
  pose proof (Z.mod_pos_bound a (2 ^ 32)). pose proof (Z.div_mod (a `mod` 2 ^ 32) (m_line_sz cfg)).
  pose proof (Z.mod_pos_bound (a `mod` 2 ^ 32) (m_line_sz cfg)).
  assert (0 <= a `mod` 2 ^ 32 / m_line_sz cfg) by (apply Z.div_pos; lia).
  assert (0 <= block_addr cfg a < 2 ^ 32) as Hb by (rewrite Heq; nia). split; [done|].
  rewrite (block_addr_eq (block_addr cfg a)), (Z.mod_small (block_addr cfg a)) by lia. by rewrite Heq, Z.div_mul by lia.
Qed.

(** A victim: an invalid line, or the oldest when there is none. *)
Definition best_victim t b line : Prop :=
  m_status line = INVALID \/ replaceable line /\
    forall j l, in_set b j -> m_lines t !! j = Some l -> live l /\ (replaceable l -> time_of line <= time_of l).
Inductive probe_result t b (idx : nat) : cache_request_status -> nat -> Prop :=
  | probe_hit i line : holds t b i line -> m_status line <> RESERVED -> probe_result t b idx HIT i
  | probe_reserved i line : holds t b i line -> m_status line = RESERVED -> probe_result t b idx HIT_RESERVED i
  | probe_miss i line : (forall j l, ~ holds t b j l) -> m_lines t !! i = Some line -> in_set b i -> m_status line <> RESERVED ->
      best_victim t b line -> probe_result t b idx MISS i
  | probe_fail : (forall j l, ~ holds t b j l) -> (forall j l, in_set b j -> m_lines t !! j = Some l -> m_status l = RESERVED) ->
      probe_result t b idx RESERVATION_FAIL idx.

Lemma probe_spec t b idx : tags_inv t -> aligned b -> m_alloc_policy cfg = ON_MISS ->
  exists st i, probe cfg b idx t = Some (st, i) /\ probe_result t b idx st i.
Proof using Hcfg.
  intros Ht Hb Hon. unfold probe. set (base := Z.to_nat (u32 (set_index cfg b * m_assoc cfg))).
  pose proof (set_fits t b Ht (proj1 Hb)) as Hfit. fold base in Hfit.
  assert (forall i line, m_lines t !! i = Some line -> time_ok (time_of line)) as Htimes.
  { intros i line Hi. unfold time_of. destruct (ti_times t Ht i line Hi). by case_match. }
  assert (forall i line, m_lines t !! i = Some line -> in_set b i <-> (base <= i < base + Z.to_nat (m_assoc cfg))%nat) as Hset.
  { intros i line Hi. exact (in_set_range t b i line Ht (proj1 Hb) Hi). }
  assert (forall i line, m_lines t !! i = Some line -> live line -> in_set b i -> m_tag line = tag cfg b -> holds t b i line) as Hholds.
  { intros i line Hi Hlive Hin Htag. split; [done|]. split; [done|]. destruct (ti_line t Ht i line Hi Hlive) as (Ha & Htg & Hs).
    apply tag_set_inj; [done|done|congruence|unfold in_set in Hin; congruence]. }
  destruct (probe_ways_spec (m_lines t) (tag cfg b) base (Z.to_nat (m_assoc cfg)) base (mkVictims None None (2 ^ 32 - 1) true))
    as [(i & line & Hi & Hr & Hlive & Htag & ->)|(Hno & v & -> & Hv)]; [done|done| |apply scanned_none| |].
  { intros i line _ Hi. by eapply Htimes. }
  - cbn. eexists _, i. split; [done|]. assert (holds t b i line) as Hh by (apply Hholds; try done; by eapply Hset).
    case_bool_decide; by econstructor.
  - cbn [mbind option_bind]. assert (forall j l, ~ holds t b j l) as Hnone.
    { intros j l (Hj & Hlive & Hbl). destruct (ti_line t Ht j l Hj Hlive) as (_ & Htg & Hs). rewrite Hbl in Htg, Hs.
      by apply (Hno j l); [eapply Hset| | |]. }
    destruct Hv as [H1 H2 H3 H4 H5]. destruct (all_reserved v).
    { rewrite bool_decide_true by done. eexists _, _. split; [done|]. constructor; [done|].
      intros j l Hj Hl. apply (proj1 (H1 eq_refl) j); [by eapply Hset|done]. }
    destruct (invalid_line v) as [i|].
    + destruct H3 as (Hi & line & Hl & Hst). eexists _, _. split; [done|]. econstructor; [done|done|by eapply Hset|congruence|by left].
    + destruct (valid_line v) as [i|]; [|by destruct (H2 eq_refl)]. destruct H4 as (Hi & line & Hl & Hrep & Htime).
      eexists _, _. split; [done|]. econstructor; [done|done|by eapply Hset|destruct Hrep; congruence|right]. split; [done|].
      intros j l Hj Hlj. split; [apply (H3 j); [by eapply Hset|done]|]. intros Hrl. rewrite Htime. apply (H5 j); [by eapply Hset|done..].
Qed.

(** A line is replaced: by the same block, by a block no line holds, or by nothing. *)
Lemma put_line_inv t i line line' (a m p : Z) : tags_inv t -> m_lines t !! i = Some line ->
  time_ok (m_alloc_time line') /\ time_ok (m_last_access_time line') ->
  (live line' -> (live line /\ m_block_addr line' = m_block_addr line /\ m_tag line' = m_tag line) \/
     (aligned (m_block_addr line') /\ m_tag line' = tag cfg (m_block_addr line') /\ in_set (m_block_addr line') i /\
      forall j l, ~ holds t (m_block_addr line') j l)) ->
  tags_inv (mkTags (<[i := line']> (m_lines t)) a m p).
Proof.
  intros Ht Hi Htime Hlive. pose proof (lookup_lt_Some _ _ _ Hi) as Hlt.
  assert (forall j l, <[i := line']> (m_lines t) !! j = Some l -> j = i /\ l = line' \/ j <> i /\ m_lines t !! j = Some l) as Hcase.
  { intros j l Hj. destruct (decide (j = i)) as [->|Hne]; [left|right].
    - rewrite list_lookup_insert_eq in Hj by done. by injection Hj.
    - by rewrite list_lookup_insert_ne in Hj. }
  assert (forall b j l, j <> i -> m_lines t !! j = Some l -> live l -> m_block_addr l = b -> live line' -> m_block_addr line' <> b) as Hother.
  { intros b j l Hne Hj Hl Hb Hl' Heq. destruct (Hlive Hl') as [(Hll & Hbb & _)|(_ & _ & _ & Hno)].
    - apply Hne, (ti_unique t Ht b j i l line); [by split|]. split; [done|]. split; [done|congruence].
    - apply (Hno j l). split; [done|]. split; [done|congruence]. }
  split; cbn.
  - rewrite length_insert. apply Ht.
  - intros j l [[-> ->]|[_ Hj]]%Hcase Hl; [|by apply (ti_line t Ht)]. destruct (Hlive Hl) as [(Hll & -> & ->)|(? & ? & ? & _)]; [|done].
    by apply (ti_line t Ht).
  - intros b j k lj lk (Hj & Hlj & Hbj) (Hk & Hlk & Hbk). cbn in *. apply Hcase in Hj as [[-> ->]|[Hnj Hj]], Hk as [[-> ->]|[Hnk Hk]]; [done| | |].
    + by destruct (Hother b k lk).
    + by destruct (Hother b j lj).
    + eapply (ti_unique t Ht b); by split.
  - intros j l [[-> ->]|[_ Hj]]%Hcase; [done|by apply (ti_times t Ht j)].
Qed.

Lemma counters_inv t (a m p : Z) : tags_inv t -> tags_inv (mkTags (m_lines t) a m p).
Proof. intros Ht. split; [exact (ti_length t Ht)|exact (ti_line t Ht)|exact (ti_unique t Ht)|exact (ti_times t Ht)]. Qed.

(** What an access does to the lines. *)
Inductive access_result t b time : cache_request_status -> nat -> option cache_block_t -> list cache_block_t -> Prop :=
  | access_touch st i line : st = HIT \/ st = HIT_RESERVED -> m_lines t !! i = Some line ->
      access_result t b time st i None (<[i := touch time line]> (m_lines t))
  | access_miss i victim : m_lines t !! i = Some victim ->
      access_result t b time MISS i (if bool_decide (m_status victim = MODIFIED) then Some victim else None)
        (<[i := mkBlock (tag cfg b) b time time 0 RESERVED]> (m_lines t))
  | access_fail i : access_result t b time RESERVATION_FAIL i None (m_lines t).

Lemma access_spec t b time idx : tags_inv t -> aligned b -> m_alloc_policy cfg = ON_MISS -> time_ok time ->
  exists st i ev t', access cfg b time idx t = Some (st, i, ev, t') /\ probe_result t b idx st i /\
    access_result t b time st i ev (m_lines t') /\ tags_inv t'.
Proof using Hcfg.
  intros Ht Hb Hon Htime. unfold access. set (t0 := mkTags (m_lines t) _ _ _).
  pose proof (counters_inv t (u32 (m_access t + 1)) (m_miss t) (m_pending_hit t) Ht : tags_inv t0) as Ht0.
  destruct (probe_spec t0 b idx Ht0 Hb Hon) as (st & i & -> & Hp).
  assert (probe_result t b idx st i) as Hp' by (destruct Hp; [eapply probe_hit|eapply probe_reserved|eapply probe_miss|eapply probe_fail]; done).
  assert (forall i line, m_lines t !! i = Some line -> forall a m p, tags_inv (mkTags (<[i := touch time line]> (m_lines t)) a m p)) as Htouch.
  { intros j line Hj a m p. apply (put_line_inv t j line); [done..| |]; cbn; [split; [|done]; by destruct (ti_times t Ht j line Hj)|by left]. }
  pose proof Hp' as Hpr.
  cbn [mbind option_bind]. destruct Hp' as [i line (Hi & _) _|i line (Hi & _) _|i line Hno Hi Hin Hst Hbest|Hno Hall]; unfold on_line; cbn.
  - rewrite Hi. cbn. eexists _, _, _, _. split; [done|]. split; [done|]. split; [apply access_touch; auto|]. by apply Htouch.
  - rewrite Hi. cbn. eexists _, _, _, _. split; [done|]. split; [done|]. split; [apply access_touch; auto|]. by apply Htouch.
  - rewrite bool_decide_true by done. rewrite Hi. cbn. destruct Hb as [Hb Ha]. unfold block_allocate. rewrite Ha.
    eexists _, _, _, _. split; [done|]. split; [done|]. split; [by apply access_miss|].
    apply (put_line_inv t i line); [done..|]. intros _. right. done.
  - eexists _, _, _, _. split; [done|]. split; [done|]. split; [exact (access_fail t b time idx)|]. by apply counters_inv.
Qed.

Lemma access_inv t b time idx st i ev t' : tags_inv t -> aligned b -> m_alloc_policy cfg = ON_MISS -> time_ok time ->
  access cfg b time idx t = Some (st, i, ev, t') -> tags_inv t'.
Proof using Hcfg.
  intros Ht Hb Hon Htime Ha. destruct (access_spec t b time idx Ht Hb Hon Htime) as (? & ? & ? & ? & Ha' & _ & _ & Hi). congruence.
Qed.

(** Lines change their state. *)
Lemma set_status_inv t i line st : tags_inv t -> m_lines t !! i = Some line -> (st <> INVALID -> live line) ->
  tags_inv (with_lines (<[i := set_status st line]> (m_lines t)) t).
Proof.
  intros Ht Hi Hst. apply (put_line_inv t i line); [done|done|exact (ti_times t Ht i line Hi)|]. intros Hl. left. split; [by apply Hst|done].
Qed.
Lemma fill_index_spec t i time line : tags_inv t -> m_alloc_policy cfg = ON_MISS -> m_lines t !! i = Some line -> m_status line = RESERVED ->
  exists line', fill_index cfg i time t = Some (with_lines (<[i := line']> (m_lines t)) t) /\
    m_status line' = VALID /\ m_block_addr line' = m_block_addr line /\ tags_inv (with_lines (<[i := line']> (m_lines t)) t).
Proof.
  intros Ht Hon Hi Hst. unfold fill_index, block_fill. rewrite bool_decide_true by done. rewrite Hi. cbn. rewrite bool_decide_true by done.
  eexists. split; [done|]. split; [done|]. split; [done|]. apply (put_line_inv t i line); [done|done|exact (ti_times t Ht i line Hi)|].
  intros _. left. split; [unfold live; congruence|done].
Qed.
Lemma tag_array_new_inv : tags_inv (tag_array_new cfg).
Proof using Hcfg.
  destruct Hcfg as [[Hn1 Hn2] _ _ Ha Hl]. assert (0 < m_nset cfg) by (rewrite Hn2; apply Z.pow_pos_nonneg; lia).
  split; cbn.
  - rewrite length_replicate. unfold get_num_lines. rewrite u32_small by nia. nia.
  - intros i line [-> _]%lookup_replicate []. done.
  - intros b i j li lj ([-> _]%lookup_replicate & [] & _). done.
  - intros i line [-> _]%lookup_replicate. unfold time_ok; cbn; lia.
Qed.

Definition held t b : Prop := exists i line, holds t b i line.
Lemma held_put t i line' (a m p : Z) b : (i < length (m_lines t))%nat ->
  held (mkTags (<[i := line']> (m_lines t)) a m p) b <->
  (live line' /\ m_block_addr line' = b) \/ exists j line, j <> i /\ holds t b j line.
Proof.
  intros Hi. split.
  - intros (j & line & Hj & Hl & Hb). cbn in Hj. destruct (decide (j = i)) as [->|Hne]; [left|right; exists j, line].
    + rewrite list_lookup_insert_eq in Hj by done. injection Hj as <-. done.
    + rewrite list_lookup_insert_ne in Hj by done. by split.
  - intros [[Hl Hb]|(j & line & Hne & Hj & Hl & Hb)].
    + exists i, line'. split; [cbn; by apply list_lookup_insert_eq|done].
    + exists j, line. split; [cbn; by rewrite list_lookup_insert_ne|done].
Qed.

(** C24: [tag_array::access] on a cache that allocates on a miss. The blocks of the tag array
    stay in lines of their sets, each in one line. A block some line holds is a hit, or a
    pending hit when its line is reserved, and the line is touched; a block no line holds
    is a miss that puts it, reserved, in an invalid line of its set or, when there is none,
    in the oldest of those that are not reserved, whose old contents are handed out when
    they are dirty, all other blocks staying; and it is refused, with no change, exactly when every
    line of the set is reserved. *)
Theorem tag_access_correct t b time idx : tags_inv t -> aligned b -> m_alloc_policy cfg = ON_MISS -> time_ok time ->
  exists st i ev t', access cfg b time idx t = Some (st, i, ev, t') /\ tags_inv t' /\
    probe_result t b idx st i /\ access_result t b time st i ev (m_lines t') /\
    forall b', held t' b' <->
      match st with
      | MISS => b' = b \/ exists j line, j <> i /\ holds t b' j line
      | _ => held t b'
      end.
Proof using Hcfg.
  intros Ht Hb Hon Htime. destruct (access_spec t b time idx Ht Hb Hon Htime) as (st & i & ev & t' & Ha & Hp & Hr & Hi).
  exists st, i, ev, t'. split; [done|]. split; [done|]. split; [done|]. split; [done|]. intros b'.
  destruct t' as [ls a m p]. cbn in Hr. inversion Hr as [st0 i0 line Hst Hl|i0 victim Hl|]; subst.
  - rewrite held_put by (by eapply lookup_lt_Some). transitivity (held t b'); [|by destruct Hst; subst]. split.
    + intros [[Hlive Hbb]|(j & l & _ & Hj)]; [exists i, line|by exists j, l]. by split.
    + intros (j & l & Hj). destruct (decide (j = i)) as [->|]; [left|right; by exists j, l]. destruct Hj as (Hj & ? & ?). naive_solver.
  - rewrite held_put by (by eapply lookup_lt_Some). split; (intros [Hb'|?]; [left|by right]); [by destruct Hb'|by subst].
  - done.
Qed.
End spec.

(** ** The L1 data cache of a GTX 480: 32 sets of 4 lines of 128 bytes *)
Definition fermi_L1 : cache_config :=
  cache_config_init 32 128 4 LRU LOCAL_WB_GLOBAL_WT ON_MISS NO_WRITE_ALLOCATE 32 8 8.
Lemma fermi_L1_ok : config_ok fermi_L1.
Proof. split; vm_compute; try split; congruence. Qed.
(** Two addresses 2^32 bytes apart are one block. *)
Example block_addr_truncates : block_addr fermi_L1 (2 ^ 32 + 0x80001040) = block_addr fermi_L1 0x80001040.
Proof. reflexivity. Qed.

Definition example_tags : tag_array :=
  match access fermi_L1 0x80001000 5 0 (tag_array_new fermi_L1) with Some (_, _, _, t) => t | None => tag_array_new fermi_L1 end.
Lemma example_tags_inv : tags_inv fermi_L1 example_tags.
Proof.
  apply (access_inv fermi_L1 fermi_L1_ok (tag_array_new fermi_L1) 0x80001000 5 0 MISS 3 None).
  - apply tag_array_new_inv, fermi_L1_ok.
  - vm_compute. done.
  - done.
  - vm_compute. split; congruence.
  - vm_compute. reflexivity.
Qed.
Lemma tag_access_correct_witness : exists st i ev t', access fermi_L1 0x80002000 6 0 example_tags = Some (st, i, ev, t') /\
  tags_inv fermi_L1 t' /\ probe_result fermi_L1 example_tags 0x80002000 0 st i /\
  access_result fermi_L1 example_tags 0x80002000 6 st i ev (m_lines t') /\
  forall b', held t' b' <->
    match st with
    | MISS => b' = 0x80002000 \/ exists j line, j <> i /\ holds example_tags b' j line
    | _ => held example_tags b'
    end.
Proof.
  apply (tag_access_correct fermi_L1 fermi_L1_ok example_tags 0x80002000 6 0 example_tags_inv).
  - vm_compute. split; [split; congruence|reflexivity].
  - reflexivity.
  - vm_compute. split; congruence.
Defined.
