(* ===== verification/GpuCache.v ===== *)
(** The caches of the GPU model: [mshr_table], [baseline_cache], [read_only_cache],
    [data_cache] and its L1 and L2 instances of [gpgpu-sim/gpu-cache.h] and [gpu-cache.cc],
    over the tags of [GpuTags]. *)
From S2P Require Import Prelude GpuTags.

(** ** Memory fetches *)
Inductive mem_access_type :=
  | GLOBAL_ACC_R | LOCAL_ACC_R | CONST_ACC_R | TEXTURE_ACC_R | GLOBAL_ACC_W | LOCAL_ACC_W | L1_WRBK_ACC | L2_WRBK_ACC
  | INST_ACC_R | L2_WR_ALLOC_R | MEM_FENCE | RUBY_DRAM_R | RUBY_DRAM_W.
#[global] Instance mem_access_type_eq_dec : EqDecision mem_access_type.
Proof. solve_decision. Defined.
(** What the caches read of a [mem_fetch]; one is known by its identity, as the code
    knows it by its pointer. *)
Record mem_fetch := mkFetch { f_addr : Z; f_data_size : Z; f_write : bool; f_type : mem_access_type; f_atomic : bool }.
Definition set_data_size (n : Z) (f : mem_fetch) : mem_fetch := mkFetch (f_addr f) n (f_write f) (f_type f) (f_atomic f).

Inductive cache_event := WRITE_BACK_REQUEST_SENT | READ_REQUEST_SENT | WRITE_REQUEST_SENT.
#[global] Instance cache_event_eq_dec : EqDecision cache_event.
Proof. solve_decision. Defined.
Definition was_write_sent (events : list cache_event) : bool := existsb (fun e => bool_decide (e = WRITE_REQUEST_SENT)) events.
Definition was_read_sent (events : list cache_event) : bool := existsb (fun e => bool_decide (e = READ_REQUEST_SENT)) events.

(** ** Miss status holding registers *)
Record mshr_entry := mkMshr { m_list : list nat; m_has_atomic : bool }.
Record mshr_table := mkMshrs { m_data : gmap Z mshr_entry; m_current_response : list Z }.

Section caches.
Variable m_config : cache_config.
Abbreviation num_entries := (m_mshr_entries m_config).
Abbreviation max_merged := (m_mshr_max_merge m_config).

Definition mshr_probe (block : Z) (m : mshr_table) : bool := bool_decide (is_Some (m_data m !! block)).
Definition mshr_full (block : Z) (m : mshr_table) : bool :=
  match m_data m !! block with
  | Some e => max_merged <=? Z.of_nat (length (m_list e))
  | None => num_entries <=? Z.of_nat (size (m_data m))
  end.
Definition mshr_add (block : Z) (mf : nat) (atomic : bool) (m : mshr_table) : option mshr_table :=
  let e := default (mkMshr [] false) (m_data m !! block) in
  let l := m_list e ++ [mf] in
  let data := <[block := mkMshr l (m_has_atomic e || atomic)]> (m_data m) in
  assert! Z.of_nat (size data) <=? num_entries;
  assert! Z.of_nat (length l) <=? max_merged;
  Some (mkMshrs data (m_current_response m)).
Definition mark_ready (block : Z) (m : mshr_table) : option (bool * mshr_table) :=
  e ← m_data m !! block;
  let current := m_current_response m ++ [block] in
  assert! Nat.leb (length current) (size (m_data m));
  Some (m_has_atomic e, mkMshrs (m_data m) current).
Definition access_ready (m : mshr_table) : bool := match m_current_response m with [] => false | _ => true end.
Definition mshr_next_access (m : mshr_table) : option (nat * mshr_table) :=
  match m_current_response m with
  | [] => None
  | block :: current =>
      e ← m_data m !! block;
      match m_list e with
      | [] => None
      | [mf] => Some (mf, mkMshrs (delete block (m_data m)) current)
      | mf :: l => Some (mf, mkMshrs (<[block := mkMshr l (m_has_atomic e)]> (m_data m)) (m_current_response m))
      end
  end.

(** ** The caches *)
Record extra_mf_fields := mkExtra { x_block_addr : Z; x_cache_index : nat; x_data_size : Z }.
(** [m_fetches] holds the fetches that exist, [m_next] the next fresh identity. *)
Record cache := mkCache {
  m_tag_array : tag_array; m_mshrs : mshr_table; m_miss_queue : list nat; m_extra_mf_fields : gmap nat extra_mf_fields;
  m_fetches : gmap nat mem_fetch; m_next : nat }.
Definition cache_new : cache := mkCache (tag_array_new m_config) (mkMshrs ∅ []) [] ∅ ∅ 0.

Definition with_tags (t : tag_array) (c : cache) : cache :=
  mkCache t (m_mshrs c) (m_miss_queue c) (m_extra_mf_fields c) (m_fetches c) (m_next c).
Definition with_mshrs (m : mshr_table) (c : cache) : cache :=
  mkCache (m_tag_array c) m (m_miss_queue c) (m_extra_mf_fields c) (m_fetches c) (m_next c).
Definition with_queue (q : list nat) (c : cache) : cache :=
  mkCache (m_tag_array c) (m_mshrs c) q (m_extra_mf_fields c) (m_fetches c) (m_next c).
Definition with_extra (x : gmap nat extra_mf_fields) (c : cache) : cache :=
  mkCache (m_tag_array c) (m_mshrs c) (m_miss_queue c) x (m_fetches c) (m_next c).
Definition with_fetches (f : gmap nat mem_fetch) (c : cache) : cache :=
  mkCache (m_tag_array c) (m_mshrs c) (m_miss_queue c) (m_extra_mf_fields c) f (m_next c).
(** [new mem_fetch] *)
Definition new_fetch (f : mem_fetch) (c : cache) : nat * cache :=
  (m_next c, mkCache (m_tag_array c) (m_mshrs c) (m_miss_queue c) (m_extra_mf_fields c) (<[m_next c := f]> (m_fetches c)) (S (m_next c))).

(** [cycle]: the request handed to the memory port, if any. *)
Definition cycle (memport_full : Z -> bool -> bool) (c : cache) : option (option nat * cache) :=
  match m_miss_queue c with
  | [] => Some (None, c)
  | mf :: q =>
      f ← m_fetches c !! mf;
      if memport_full (f_data_size f) (f_write f) then Some (None, c) else Some (Some mf, with_queue q c)
  end.

Definition fill (mf : nat) (time : Z) (c : cache) : option cache :=
  e ← m_extra_mf_fields c !! mf;
  f ← m_fetches c !! mf;
  let c := with_fetches (<[mf := set_data_size (x_data_size e) f]> (m_fetches c)) c in
  t ← match m_alloc_policy m_config with
      | ON_MISS => fill_index m_config (x_cache_index e) time (m_tag_array c)
      | ON_FILL => fill_addr m_config (x_block_addr e) time (m_tag_array c)
      end;
  '(has_atomic, m) ← mark_ready (x_block_addr e) (m_mshrs c);
  t ← (if (has_atomic : bool) then
         assert! bool_decide (m_alloc_policy m_config = ON_MISS);
         on_line (set_status MODIFIED) (x_cache_index e) t
       else Some t);
  Some (with_extra (delete mf (m_extra_mf_fields c)) (with_mshrs m (with_tags t c))).
Definition waiting_for_fill (mf : nat) (c : cache) : bool := bool_decide (is_Some (m_extra_mf_fields c !! mf)).
Definition next_access (c : cache) : option (nat * cache) :=
  '(mf, m) ← mshr_next_access (m_mshrs c); Some (mf, with_mshrs m c).
Definition cache_flush (c : cache) : cache := with_tags (flush (m_tag_array c)) c.

Definition miss_queue_full (num_miss : Z) (c : cache) : bool :=
  m_miss_queue_size m_config <=? Z.of_nat (length (m_miss_queue c)) + num_miss.
Definition tags_access (read_only : bool) (block time : Z) (index : nat) (t : tag_array) :
    option (nat * option cache_block_t * tag_array) :=
  if read_only then '(_, i, t) ← access_clean m_config block time index t; Some (i, None, t)
  else '(_, i, evicted, t) ← access m_config block time index t; Some (i, evicted, t).

(** [send_read_request]: whether the miss was taken, the dirty line it evicted, the events. *)
Definition send_read_request (block : Z) (cache_index : nat) (mf : nat) (time : Z) (read_only wa : bool)
    (events : list cache_event) (c : cache) : option (bool * option cache_block_t * list cache_event * cache) :=
  f ← m_fetches c !! mf;
  let mshr_hit := mshr_probe block (m_mshrs c) in
  let mshr_avail := negb (mshr_full block (m_mshrs c)) in
  if mshr_hit && mshr_avail then
    '(_, evicted, t) ← tags_access read_only block time cache_index (m_tag_array c);
    m ← mshr_add block mf (f_atomic f) (m_mshrs c);
    Some (true, evicted, events, with_mshrs m (with_tags t c))
  else if negb mshr_hit && mshr_avail && (Z.of_nat (length (m_miss_queue c)) <? m_miss_queue_size m_config) then
    '(index, evicted, t) ← tags_access read_only block time cache_index (m_tag_array c);
    m ← mshr_add block mf (f_atomic f) (m_mshrs c);
    let c := with_extra (<[mf := mkExtra block index (f_data_size f)]> (m_extra_mf_fields c)) (with_mshrs m (with_tags t c)) in
    let c := with_fetches (<[mf := set_data_size (m_line_sz m_config) f]> (m_fetches c)) c in
    Some (true, evicted, if wa then events else events ++ [READ_REQUEST_SENT], with_queue (m_miss_queue c ++ [mf]) c)
  else Some (false, None, events, c).

Abbreviation result := (option (cache_request_status * list cache_event * cache)).
Definition send_write_request (mf : nat) (request : cache_event) (events : list cache_event) (c : cache) : list cache_event * cache :=
  (events ++ [request], with_queue (m_miss_queue c ++ [mf]) c).

(** *** Hits *)
Definition hit_modify (block time : Z) (cache_index : nat) (modify : bool) (c : cache) : option cache :=
  '(_, i, t) ← access_clean m_config block time cache_index (m_tag_array c);
  t ← (if modify then on_line (set_status MODIFIED) i t else Some t);
  Some (with_tags t c).
Definition wr_hit_wb (addr time : Z) (cache_index mf : nat) (events : list cache_event) (c : cache) : result :=
  c ← hit_modify (block_addr m_config addr) time cache_index true c; Some (HIT, events, c).
Definition wr_hit_wt (addr time : Z) (cache_index mf : nat) (events : list cache_event) (c : cache) : result :=
  if miss_queue_full 0 c then Some (RESERVATION_FAIL, events, c) else
  c ← hit_modify (block_addr m_config addr) time cache_index true c;
  let '(events, c) := send_write_request mf WRITE_REQUEST_SENT events c in Some (HIT, events, c).
Definition wr_hit_we (addr time : Z) (cache_index mf : nat) (events : list cache_event) (c : cache) : result :=
  if miss_queue_full 0 c then Some (RESERVATION_FAIL, events, c) else
  let '(events, c) := send_write_request mf WRITE_REQUEST_SENT events c in
  t ← on_line (set_status INVALID) cache_index (m_tag_array c);
  Some (HIT, events, with_tags t c).
Definition wr_hit_global_we_local_wb (addr time : Z) (cache_index mf : nat) (events : list cache_event) (c : cache) : result :=
  f ← m_fetches c !! mf;
  if bool_decide (f_type f = GLOBAL_ACC_W) then wr_hit_we addr time cache_index mf events c
  else wr_hit_wb addr time cache_index mf events c.
Definition rd_hit_base (addr time : Z) (cache_index mf : nat) (events : list cache_event) (c : cache) : result :=
  f ← m_fetches c !! mf;
  if f_atomic f then
    assert! bool_decide (f_type f = GLOBAL_ACC_R);
    c ← hit_modify (block_addr m_config addr) time cache_index true c; Some (HIT, events, c)
  else c ← hit_modify (block_addr m_config addr) time cache_index false c; Some (HIT, events, c).

(** *** Misses *)
(** The write-back of an evicted dirty line. *)
Definition write_back (type : mem_access_type) (evicted : option cache_block_t) (c : cache) : option (nat * cache) :=
  match evicted with
  | Some e =>
      if bool_decide (m_write_policy m_config = WRITE_THROUGH) then None
      else Some (new_fetch (mkFetch (m_block_addr e) (m_line_sz m_config) true type false) c)
  | None => None
  end.
Definition rd_miss_base (addr time : Z) (cache_index mf : nat) (events : list cache_event) (c : cache) : result :=
  if miss_queue_full 1 c then Some (RESERVATION_FAIL, events, c) else
  '(do_miss, evicted, events, c) ← send_read_request (block_addr m_config addr) cache_index mf time false false events c;
  let '(events, c) := match write_back L1_WRBK_ACC evicted c with
                      | Some (wb, c) => send_write_request wb WRITE_BACK_REQUEST_SENT events c
                      | None => (events, c)
                      end in
  Some (if (do_miss : bool) then MISS else RESERVATION_FAIL, events, c).
Definition wr_miss_wa (addr time : Z) (cache_index mf : nat) (events : list cache_event) (c : cache) : result :=
  let block := block_addr m_config addr in
  let mshr_hit := mshr_probe block (m_mshrs c) in
  let mshr_avail := negb (mshr_full block (m_mshrs c)) in
  if miss_queue_full 2 c || (negb (mshr_hit && mshr_avail) &&
       negb (negb mshr_hit && mshr_avail && (Z.of_nat (length (m_miss_queue c)) <? m_miss_queue_size m_config)))
  then Some (RESERVATION_FAIL, events, c) else
  let '(events, c) := send_write_request mf WRITE_REQUEST_SENT events c in
  f ← m_fetches c !! mf;
  let '(n_mf, c) := new_fetch (mkFetch (f_addr f) (f_data_size f) false L2_WR_ALLOC_R false) c in
  '(do_miss, evicted, events, c) ← send_read_request block cache_index n_mf time false true events c;
  let c := match write_back L2_WRBK_ACC evicted c with
           | Some (wb, c) => with_queue (m_miss_queue c ++ [wb]) c
           | None => c
           end in
  Some (if (do_miss : bool) then MISS else RESERVATION_FAIL, events, c).
Definition wr_miss_no_wa (addr time : Z) (cache_index mf : nat) (events : list cache_event) (c : cache) : result :=
  if miss_queue_full 0 c then Some (RESERVATION_FAIL, events, c) else
  let '(events, c) := send_write_request mf WRITE_REQUEST_SENT events c in Some (MISS, events, c).

(** *** The access functions *)
(** The member functions the constructor of [data_cache] selects; a read-only policy is refused. *)
Definition m_wr_hit : option (Z -> Z -> nat -> nat -> list cache_event -> cache -> result) :=
  match m_write_policy m_config with
  | READ_ONLY => None
  | WRITE_BACK => Some wr_hit_wb
  | WRITE_THROUGH => Some wr_hit_wt
  | WRITE_EVICT => Some wr_hit_we
  | LOCAL_WB_GLOBAL_WT => Some wr_hit_global_we_local_wb
  end.
Definition m_wr_miss : Z -> Z -> nat -> nat -> list cache_event -> cache -> result :=
  match m_write_alloc_policy m_config with WRITE_ALLOCATE => wr_miss_wa | NO_WRITE_ALLOCATE => wr_miss_no_wa end.

(** [l1_cache::access] and [l2_cache::access], which are the same; the index that
    [probe] does not set on a failure, -1 in the code, is never read. *)
Definition data_access (mf : nat) (time : Z) (events : list cache_event) (c : cache) : result :=
  wr_hit ← m_wr_hit;
  f ← m_fetches c !! mf;
  assert! f_data_size f <=? m_line_sz m_config;
  let addr := f_addr f in
  '(status, cache_index) ← probe m_config (block_addr m_config addr) 0 (m_tag_array c);
  match status, f_write f with
  | RESERVATION_FAIL, _ => Some (RESERVATION_FAIL, events, c)
  | HIT, true => wr_hit addr time cache_index mf events c
  | _, true => m_wr_miss addr time cache_index mf events c
  | HIT, false => rd_hit_base addr time cache_index mf events c
  | _, false => rd_miss_base addr time cache_index mf events c
  end.
Definition read_only_access (mf : nat) (time : Z) (events : list cache_event) (c : cache) : result :=
  f ← m_fetches c !! mf;
  assert! f_data_size f <=? m_line_sz m_config;
  assert! bool_decide (m_write_policy m_config = READ_ONLY);
  assert! negb (f_write f);
  let block := block_addr m_config (f_addr f) in
  '(status, cache_index) ← probe m_config block 0 (m_tag_array c);
  match status with
  | HIT =>
      '(_, _, t) ← access_clean m_config block time cache_index (m_tag_array c);
      Some (HIT, events, with_tags t c)
  | RESERVATION_FAIL => Some (RESERVATION_FAIL, events, c)
  | _ =>
      if miss_queue_full 0 c then Some (RESERVATION_FAIL, events, c) else
      '(do_miss, _, events, c) ← send_read_request block cache_index mf time true false events c;
      Some (if (do_miss : bool) then MISS else RESERVATION_FAIL, events, c)
  end.
End caches.
