(* ===== verification/GpuCacheSafe.v ===== *)
(** The caches of [GpuCache] with the requests that reach them, the memory port and the
    answers of memory: the invariant of their runs. *)
From S2P Require Import Prelude GpuTags GpuCache.

(** ** Tags *)
Section tags.
Variable cfg : cache_config.
Hypothesis Hcfg : config_ok cfg.
Hypothesis Hon : m_alloc_policy cfg = ON_MISS.
Implicit Types (t : tag_array) (b time : Z) (i : nat).

Definition reserved_for t b i : Prop :=
  exists line, m_lines t !! i = Some line /\ m_status line = RESERVED /\ m_block_addr line = b.
Definition keeps_reserved t t' : Prop := forall b i, reserved_for t b i -> reserved_for t' b i.
Definition clean t : Prop := forall i line, m_lines t !! i = Some line -> m_status line <> MODIFIED.

(** A line that is not reserved is replaced, or a reserved one stays so for its block. *)
Lemma keeps_put t t' i line line' : m_lines t !! i = Some line -> m_lines t' = <[i := line']> (m_lines t) ->
  (m_status line = RESERVED -> m_status line' = RESERVED /\ m_block_addr line' = m_block_addr line) -> keeps_reserved t t'.
Proof.
  intros Hi Ht' Hr b j (l & Hj & Hres & Hb). unfold reserved_for. rewrite Ht'. destruct (decide (j = i)) as [->|Hne].
  - exists line'. rewrite list_lookup_insert_eq by by eapply lookup_lt_Some. assert (l = line) as -> by congruence.
    destruct (Hr Hres). split; [done|]. split; congruence.
  - exists l. by rewrite list_lookup_insert_ne.
Qed.
Lemma clean_put t i line' t' : clean t -> m_lines t' = <[i := line']> (m_lines t) -> m_status line' <> MODIFIED -> clean t'.
Proof.
  intros Hc Ht' Hl j l Hj. rewrite Ht' in Hj. apply list_lookup_insert_Some in Hj as [(-> & <- & _)|[_ Hj]]; [done|by eapply Hc].
Qed.

Lemma probe_status t b idx idx' st st' i i' : tags_inv cfg t -> probe_result cfg t b idx st i -> probe_result cfg t b idx' st' i' -> st = st'.
Proof.
  intros Ht [j line Hh Hn|j line Hh Hn|j line Hno Hj Hin Hs _|Hno Hall] [j' line' Hh' Hn'|j' line' Hh' Hn'|j' line' Hno' Hj' Hin' Hs' _|Hno' Hall'];
    try done; try (by destruct (Hno _ _ Hh')); try (by destruct (Hno' _ _ Hh)).
  - pose proof (ti_unique cfg t Ht b _ _ _ _ Hh Hh'). subst. destruct Hh, Hh'. congruence.
  - pose proof (ti_unique cfg t Ht b _ _ _ _ Hh Hh'). subst. destruct Hh, Hh'. congruence.
  - by destruct Hs; apply (Hall' j).
  - by destruct Hs'; apply (Hall j').
Qed.

(** A hit touches its line, which is not reserved. *)
Lemma hit_access t b time idx i : tags_inv cfg t -> aligned cfg b -> time_ok time -> probe_result cfg t b 0 HIT i ->
  exists line t', m_lines t !! i = Some line /\ live line /\ m_status line <> RESERVED /\
    access_clean cfg b time idx t = Some (HIT, i, t') /\ tags_inv cfg t' /\ m_lines t' = <[i := touch time line]> (m_lines t).
Proof using Hcfg Hon.
  intros Ht Hb Htime Hp. destruct (access_spec cfg Hcfg t b time idx Ht Hb Hon Htime) as (st & j & ev & t' & Ha & Hp' & Hr & Ht').
  pose proof (probe_status _ _ _ _ _ _ _ _ Ht Hp Hp') as <-. inversion Hp as [? line Hh Hn| | |]; subst. inversion Hp' as [? line' Hh' Hn'| | |]; subst.
  pose proof (ti_unique cfg t Ht b _ _ _ _ Hh Hh') as <-. inversion Hr as [? ? l _ Hl Heq| |]; subst.
  destruct Hh as (Hi & Hlive & _). exists line, t'. split; [done|]. split; [done|]. split; [done|].
  unfold access_clean. rewrite Ha. split; [done|]. split; [done|]. congruence.
Qed.

(** A miss or a pending hit leaves a line reserved for the block. *)
Lemma reserve_access t b time idx st i0 : tags_inv cfg t -> aligned cfg b -> time_ok time -> probe_result cfg t b 0 st i0 ->
  st = MISS \/ st = HIT_RESERVED ->
  exists st' i ev t', access cfg b time idx t = Some (st', i, ev, t') /\ tags_inv cfg t' /\ keeps_reserved t t' /\
    reserved_for t' b i /\ (clean t -> clean t' /\ ev = None).
Proof using Hcfg Hon.
  intros Ht Hb Htime Hp Hst. destruct (access_spec cfg Hcfg t b time idx Ht Hb Hon Htime) as (st' & j & ev & t' & Ha & Hp' & Hr & Ht').
  pose proof (probe_status _ _ _ _ _ _ _ _ Ht Hp Hp') as <-. exists st, j, ev, t'. split; [done|]. split; [done|].
  inversion Hr as [? ? line Hst2 Hl Hls|? victim Hv Hls|]; subst; [|destruct Hst as [|]; try done|by destruct Hst].
  - destruct Hst as [->| ->]; [by destruct Hst2|]. inversion Hp' as [|? line' (Hl' & _ & Hbb) Hres| |]; subst.
    assert (line' = line) as -> by congruence. assert (m_lines t' = <[j := touch time line]> (m_lines t)) as Hls by done.
    split; [|split; [|split; [|done]]].
    + eapply keeps_put; [done|done|]. by split.
    + exists (touch time line). rewrite Hls, list_lookup_insert_eq by by eapply lookup_lt_Some. by split.
    + eapply clean_put; [done|done|]. cbn. congruence.
  - inversion Hp' as [| |? victim' _ Hv' _ Hnr _|]; subst. assert (victim' = victim) as -> by congruence.
    assert (m_lines t' = <[j := mkBlock (tag cfg b) b time time 0 RESERVED]> (m_lines t)) as Hls by done. split; [|split].
    + eapply keeps_put; [done|done|]. done.
    + eexists. rewrite Hls, list_lookup_insert_eq by by eapply lookup_lt_Some. by split.
    + intros Hc. split; [by eapply clean_put|]. rewrite bool_decide_false; [done|]. by eapply Hc.
Qed.
End tags.

(** ** A cache in its surroundings *)
(** The requests memory has not answered, and the read fetches the cache took and those it gave
    back, latest first. *)
Record state := mkState { s_cache : cache; s_memory : list nat; s_accepted : list nat; s_returned : list nat }.
Inductive move :=
  | Request (f : mem_fetch) (time : Z) | Cycle (memport_full : Z -> bool -> bool) | Fill (mf : nat) (time : Z) | Next.

Section system.
(** [ro] is the read-only cache, otherwise a data cache. *)
Variables (cfg : cache_config) (ro : bool).
Implicit Types (s : state) (c : cache) (b time : Z) (mf id i : nat).

Definition cache_access mf time (events : list cache_event) c : option (cache_request_status * list cache_event * cache) :=
  if ro then read_only_access cfg mf time events c else data_access cfg mf time events c.

(** A request is a new fetch; a miss takes it, or for a write that allocates the read
    fetch made for it. *)
Definition taken (f : mem_fetch) id (st : cache_request_status) : list nat :=
  match st, f_write f, m_write_alloc_policy cfg with
  | MISS, false, _ => [id]
  | MISS, true, WRITE_ALLOCATE => [S id]
  | _, _, _ => []
  end.
Definition step (m : move) s : option state :=
  match m with
  | Request f time =>
      let '(id, c) := new_fetch f (s_cache s) in
      '(st, _, c) ← cache_access id time [] c;
      Some (mkState c (s_memory s) (taken f id st ++ s_accepted s) (s_returned s))
  | Cycle full =>
      '(sent, c) ← cycle full (s_cache s);
      let reads := match sent with
                   | Some mf => match m_fetches c !! mf with Some f => if f_write f then [] else [mf] | None => [] end
                   | None => []
                   end in
      Some (mkState c (reads ++ s_memory s) (s_accepted s) (s_returned s))
  | Fill mf time =>
      c ← fill cfg mf time (s_cache s);
      Some (mkState c (filter (fun id => id <> mf) (s_memory s)) (s_accepted s) (s_returned s))
  | Next => '(mf, c) ← next_access (s_cache s); Some (mkState c (s_memory s) (s_accepted s) (mf :: s_returned s))
  end.

Definition allowed (m : move) s : Prop :=
  match m with
  | Request f time => f_data_size f <= m_line_sz cfg /\ 0 <= f_addr f /\ time_ok time /\
      (f_atomic f = true -> f_write f = false /\ f_type f = GLOBAL_ACC_R) /\
      (ro = true -> f_write f = false /\ f_atomic f = false)
  | Cycle _ => True
  | Fill mf _ => mf ∈ s_memory s
  | Next => access_ready (m_mshrs (s_cache s)) = true
  end.

Abbreviation tags s := (m_tag_array (s_cache s)).
Abbreviation data s := (m_data (m_mshrs (s_cache s))).
Abbreviation current s := (m_current_response (m_mshrs (s_cache s))).
Abbreviation queue s := (m_miss_queue (s_cache s)).
Abbreviation extra s := (m_extra_mf_fields (s_cache s)).
Abbreviation fetches s := (m_fetches (s_cache s)).
Abbreviation next s := (m_next (s_cache s)).

(** Every request that is out has its line reserved and its registers waiting; registers are
    ready or have a request out; the fetches taken are given back or wait in one
    register, once. *)
Record inv s : Prop := {
  iv_tags : tags_inv cfg (tags s);
  iv_clean : ro = true -> clean (tags s) /\ forall b e, data s !! b = Some e -> m_has_atomic e = false;
  iv_extra : forall mf x, extra s !! mf = Some x -> reserved_for (tags s) (x_block_addr x) (x_cache_index x) /\
    is_Some (data s !! x_block_addr x) /\ x_block_addr x ∉ current s;
  iv_extra_inj : forall mf mf' x x', extra s !! mf = Some x -> extra s !! mf' = Some x' -> x_block_addr x = x_block_addr x' -> mf = mf';
  iv_current : NoDup (current s) /\ forall b, b ∈ current s -> is_Some (data s !! b);
  iv_entry : forall b e, data s !! b = Some e -> m_list e <> [] /\ Z.of_nat (length (m_list e)) <= m_mshr_max_merge cfg /\
    (b ∈ current s \/ exists mf x, extra s !! mf = Some x /\ x_block_addr x = b);
  iv_size : Z.of_nat (size (data s)) <= Z.max 0 (m_mshr_entries cfg);
  iv_lists : forall b b' e e' id, data s !! b = Some e -> data s !! b' = Some e' -> id ∈ m_list e -> id ∈ m_list e' -> b = b';
  iv_once : NoDup (s_returned s) /\ forall b e, data s !! b = Some e -> NoDup (m_list e) /\ forall id, id ∈ m_list e -> id ∉ s_returned s;
  iv_accepted : forall id, id ∈ s_accepted s <-> id ∈ s_returned s \/ exists b e, data s !! b = Some e /\ id ∈ m_list e;
  iv_sent : forall id, is_Some (extra s !! id) <->
    id ∈ s_memory s \/ (id ∈ queue s /\ exists f, fetches s !! id = Some f /\ f_write f = false);
  iv_nodup : NoDup (s_memory s ++ queue s);
  iv_fresh : forall id, id ∈ s_accepted s \/ id ∈ s_memory s \/ id ∈ queue s -> (id < next s)%nat;
  iv_heap : forall id, (id < next s)%nat <-> is_Some (fetches s !! id) }.

Abbreviation st_mk t m q x f n mem acc ret := (mkState (mkCache t m q x f n) mem acc ret).

(** *** Changes that keep the invariant *)
Lemma inv_tags t t' m q x f n mem acc ret : tags_inv cfg t' -> keeps_reserved t t' -> (ro = true -> clean t -> clean t') ->
  inv (st_mk t m q x f n mem acc ret) -> inv (st_mk t' m q x f n mem acc ret).
Proof.
  intros Ht Hk Hc [H1 H2 H3 H4 H5 H6 H7 H8 H9 H10 H11 H12 H13 H14]. split; try done; cbn in *.
  - intros Hro. destruct (H2 Hro). split; [by apply Hc|done].
  - intros mf e He. destruct (H3 mf e He) as (? & ? & ?). split; [by apply Hk|done].
Qed.
Lemma inv_new t m q x f n mem acc ret (g : mem_fetch) : inv (st_mk t m q x f n mem acc ret) ->
  inv (st_mk t m q x (<[n := g]> f) (S n) mem acc ret).
Proof.
  intros [H1 H2 H3 H4 H5 H6 H7 H8 H9 H10 H11 H12 H13 H14]. split; try done; cbn in *.
  - intros id. rewrite H11. assert (id ∈ q -> id <> n) as Hne by (intros Hq ->; specialize (H13 n ltac:(auto)); lia).
    split; (intros [?|[Hq ?]]; [by left|right; split; [done|]]); specialize (Hne Hq); [by rewrite lookup_insert_ne|].
    by rewrite lookup_insert_ne in * by done.
  - intros id Hid. specialize (H13 id Hid). lia.
  - intros id. rewrite lookup_insert. case_decide as Heq; [subst; split; [by eexists|lia]|]. rewrite <-H14. lia.
Qed.
(** A fetch keeps its direction. *)
Lemma inv_update t m q x f n mem acc ret id (g g' : mem_fetch) : f !! id = Some g -> f_write g' = f_write g ->
  inv (st_mk t m q x f n mem acc ret) -> inv (st_mk t m q x (<[id := g']> f) n mem acc ret).
Proof.
  intros Hg Hw [H1 H2 H3 H4 H5 H6 H7 H8 H9 H10 H11 H12 H13 H14]. split; try done; cbn in *.
  - intros j. rewrite H11. rewrite lookup_insert. case_decide as Heq; [subst j|done].
    split; (intros [?|(Hq & g1 & Hg1 & ?)]; [by left|right; split; [done|]]); [exists g'|exists g]; (split; [done|congruence]).
  - intros j. rewrite H14, lookup_insert. case_decide as Heq; [subst j|done]. split; [by eexists|intros _; by eexists].
Qed.
(** A write is queued. *)
Lemma inv_write t m q x f n mem acc ret id (g : mem_fetch) : f !! id = Some g -> f_write g = true -> id ∉ mem ++ q ->
  inv (st_mk t m q x f n mem acc ret) -> inv (st_mk t m (q ++ [id]) x f n mem acc ret).
Proof.
  intros Hg Hw Hid [H1 H2 H3 H4 H5 H6 H7 H8 H9 H10 H11 H12 H13 H14]. split; try done; cbn in *.
  - intros j. rewrite H11, elem_of_app, list_elem_of_singleton. split; [intros [?|[? ?]]; [by left|right; auto]|].
    intros [?|[[?| ->] (g1 & Hg1 & ?)]]; [by left|right; eauto|congruence].
  - rewrite app_assoc. apply NoDup_app. split; [done|]. split; [|by apply NoDup_singleton].
    intros j Hj Hn%list_elem_of_singleton. by subst.
  - intros j. rewrite elem_of_app, list_elem_of_singleton. intros [?|[?|[?| ->]]]; [auto..|]. apply H14. by eexists.
Qed.

(** A fetch joins a register. *)
Lemma inv_merge t d cur q x f n mem acc ret b e id (atomic : bool) : d !! b = Some e ->
  Z.of_nat (length (m_list e ++ [id])) <= m_mshr_max_merge cfg -> (id < n)%nat -> id ∉ acc -> (ro = true -> atomic = false) ->
  inv (st_mk t (mkMshrs d cur) q x f n mem acc ret) ->
  inv (st_mk t (mkMshrs (<[b := mkMshr (m_list e ++ [id]) (m_has_atomic e || atomic)]> d) cur) q x f n mem (id :: acc) ret).
Proof.
  intros Hb Hlen Hid Hacc Hat [H1 H2 H3 H4 H5 H6 H7 H8 H9 H10 H11 H12 H13 H14].
  assert (forall b' e', d !! b' = Some e' -> id ∉ m_list e') as Hnew.
  { intros b' e' He' Hin. apply Hacc, H10. right. by exists b', e'. }
  assert (id ∉ ret) as Hret by (intros Hr; apply Hacc, H10; by left).
  split; try done; cbn in *.
  - intros Hro. destruct (H2 Hro) as [? Hna]. split; [done|]. intros b' e' [(<- & <-)|[_ He']]%lookup_insert_Some; [|by eapply Hna].
    cbn. by rewrite (Hna b e Hb), Hat.
  - intros mf y Hy. destruct (H3 mf y Hy) as (? & ? & ?). split; [done|]. split; [|done]. apply lookup_insert_is_Some'. by right.
  - destruct H5 as [? Hcur]. split; [done|]. intros b' Hb'. apply lookup_insert_is_Some'. right. by apply Hcur.
  - intros b' e' [(<- & <-)|[_ He']]%lookup_insert_Some; [|by apply H6]. destruct (H6 b e Hb) as (_ & _ & ?).
    split; [by destruct (m_list e)|done].
  - rewrite map_size_insert_Some by done. done.
  - intros b1 b2 e1 e2 j He1 He2 Hj1 Hj2. apply lookup_insert_Some in He1 as [(<- & <-)|[Hn1 He1]], He2 as [(<- & <-)|[Hn2 He2]]; cbn in *.
    + done.
    + apply elem_of_app in Hj1 as [Hj1|Hj1%list_elem_of_singleton]; [by eapply H8|subst; by destruct (Hnew _ _ He2)].
    + apply elem_of_app in Hj2 as [Hj2|Hj2%list_elem_of_singleton]; [by eapply H8|subst; by destruct (Hnew _ _ He1)].
    + by eapply H8.
  - destruct H9 as [? Hl]. split; [done|]. intros b' e' [(<- & <-)|[_ He']]%lookup_insert_Some; [|by apply (Hl b')]. cbn.
    destruct (Hl b e Hb) as [Hnd Hdis]. split.
    + apply NoDup_app. split; [done|]. split; [|by apply NoDup_singleton]. intros j Hj Hn%list_elem_of_singleton. subst. by destruct (Hnew b e Hb).
    + intros j [Hj|Hj%list_elem_of_singleton]%elem_of_app; [by apply Hdis|by subst].
  - intros j. rewrite elem_of_cons, H10. split.
    + intros [->|[?|(b' & e' & He' & Hj)]]; [right|by left|right].
      * eexists b, _. rewrite lookup_insert_eq. split; [done|]. cbn. apply elem_of_app. right. by left.
      * destruct (decide (b' = b)) as [->|]; [|exists b', e'; by rewrite lookup_insert_ne].
        eexists b, _. rewrite lookup_insert_eq. split; [done|]. cbn. apply elem_of_app. left. congruence.
    + intros [?|(b' & e' & [(<- & <-)|[_ He']]%lookup_insert_Some & Hj)]; [by right; left| |right; right; by exists b', e'].
      cbn in Hj. apply elem_of_app in Hj as [Hj|Hj%list_elem_of_singleton]; [right; right; by exists b, e|by left].
  - intros j. rewrite elem_of_cons. intros [[->|?]|?]; [done|auto..].
Qed.

(** A fetch gets a register and a request. *)
Lemma inv_open t d cur q x f n mem acc ret b i id (atomic : bool) (g : mem_fetch) sz : d !! b = None ->
  Z.of_nat (S (size d)) <= m_mshr_entries cfg -> 1 <= m_mshr_max_merge cfg -> f !! id = Some g -> f_write g = false ->
  id ∉ acc -> id ∉ mem ++ q -> (ro = true -> atomic = false) -> reserved_for t b i ->
  inv (st_mk t (mkMshrs d cur) q x f n mem acc ret) ->
  inv (st_mk t (mkMshrs (<[b := mkMshr [id] atomic]> d) cur) (q ++ [id]) (<[id := mkExtra b i sz]> x) f n mem (id :: acc) ret).
Proof.
  intros Hb Hsize Hmax Hg Hw Hacc Hq Hat Hres [H1 H2 H3 H4 H5 H6 H7 H8 H9 H10 H11 H12 H13 H14].
  assert (forall b' e', d !! b' = Some e' -> id ∉ m_list e') as Hnew.
  { intros b' e' He' Hin. apply Hacc, H10. right. by exists b', e'. }
  assert (id ∉ ret) as Hret by (intros Hr; apply Hacc, H10; by left).
  assert (forall mf y, x !! mf = Some y -> x_block_addr y <> b) as Hother.
  { intros mf y Hy <-. destruct (H3 mf y Hy) as (_ & [e He] & _). cbn in *. congruence. }
  assert (x !! id = None) as Hxid.
  { apply eq_None_not_Some. intros Hx%H11. cbn in Hx. apply Hq, elem_of_app. destruct Hx as [?|[? _]]; auto. }
  assert (b ∉ cur) as Hbc. { intros Hc. apply H5 in Hc. cbn in Hc. rewrite Hb in Hc. by destruct Hc. }
  split; try done; cbn in *.
  - intros Hro. destruct (H2 Hro) as [? Hna]. split; [done|]. intros b' e' [(<- & <-)|[_ He']]%lookup_insert_Some; [by apply Hat|by eapply Hna].
  - intros mf y [(<- & <-)|[_ Hy]]%lookup_insert_Some.
    + cbn. split; [done|]. split; [|done]. by rewrite lookup_insert_eq.
    + destruct (H3 mf y Hy) as (? & ? & ?). split; [done|]. split; [|done]. apply lookup_insert_is_Some'. by right.
  - intros m1 m2 y1 y2 [(<- & <-)|[_ Hy1]]%lookup_insert_Some [(<- & <-)|[_ Hy2]]%lookup_insert_Some; cbn; intros Heq; [done| | |by eapply H4].
    + by destruct (Hother _ _ Hy2).
    + by destruct (Hother _ _ Hy1).
  - destruct H5 as [? Hcur]. split; [done|]. intros b' Hb'. apply lookup_insert_is_Some'. right. by apply Hcur.
  - intros b' e' [(<- & <-)|[Hne He']]%lookup_insert_Some.
    + cbn. split; [done|]. split; [done|]. right. exists id. eexists. by rewrite lookup_insert_eq.
    + destruct (H6 b' e' He') as (? & ? & [?|(mf & y & Hy & ?)]); (split; [done|]; split; [done|]); [by left|right].
      exists mf, y. split; [|done]. rewrite lookup_insert_ne; [done|congruence].
  - rewrite map_size_insert_None by done. lia.
  - intros b1 b2 e1 e2 j [(<- & <-)|[_ He1]]%lookup_insert_Some [(<- & <-)|[_ He2]]%lookup_insert_Some; cbn; [done| | |by eapply H8].
    + intros Hj%list_elem_of_singleton Hj2. subst. by destruct (Hnew _ _ He2).
    + intros Hj1 Hj%list_elem_of_singleton. subst. by destruct (Hnew _ _ He1).
  - destruct H9 as [? Hl]. split; [done|]. intros b' e' [(<- & <-)|[_ He']]%lookup_insert_Some; [|by apply (Hl b')]. cbn.
    split; [by apply NoDup_singleton|]. intros j Hj%list_elem_of_singleton. by subst.
  - intros j. rewrite elem_of_cons, H10. split.
    + intros [->|[?|(b' & e' & He' & Hj)]]; [right|by left|right; exists b', e'; rewrite lookup_insert_ne; [done|congruence]].
      exists b. eexists. rewrite lookup_insert_eq. split; [done|]. by left.
    + intros [?|(b' & e' & [(<- & <-)|[_ He']]%lookup_insert_Some & Hj)]; [by right; left| |right; right; by exists b', e'].
      left. by apply list_elem_of_singleton in Hj.
  - intros j. rewrite lookup_insert_is_Some', H11, elem_of_app, list_elem_of_singleton. split.
    + intros [<-|[?|[? ?]]]; [right; split; [by right|by exists g]|by left|right; auto].
    + intros [?|[[?| ->] ?]]; [auto..|by left].
  - rewrite app_assoc. apply NoDup_app. split; [done|]. split; [|by apply NoDup_singleton].
    intros j Hj Hn%list_elem_of_singleton. by subst.
  - assert (id < n)%nat by (apply H14; by eexists). intros j. rewrite elem_of_app, elem_of_cons, list_elem_of_singleton.
    intros [[->|?]|[?|[?| ->]]]; auto.
Qed.

(** *** Accesses *)
Hypothesis Hcfg : config_ok cfg.
Hypothesis Hon : m_alloc_policy cfg = ON_MISS.
Hypothesis Hmerge : 1 <= m_mshr_max_merge cfg.


Lemma tags_access_ok t b time idx st i0 : tags_inv cfg t -> aligned cfg b -> time_ok time -> probe_result cfg t b 0 st i0 ->
  st = MISS \/ st = HIT_RESERVED -> (ro = true -> clean t) ->
  exists i ev t', tags_access cfg ro b time idx t = Some (i, ev, t') /\ tags_inv cfg t' /\ keeps_reserved t t' /\
    reserved_for t' b i /\ (ro = true -> clean t').
Proof using Hcfg Hon.
  intros Ht Hb Htime Hp Hst Hc. destruct (reserve_access cfg Hcfg Hon t b time idx st i0 Ht Hb Htime Hp Hst) as (st' & i & ev & t' & Ha & ? & ? & ? & Hclean).
  unfold tags_access, access_clean. rewrite Ha. destruct ro.
  - destruct (Hclean (Hc eq_refl)) as [? ->]. exists i, None, t'. split; [done|]. done.
  - exists i, ev, t'. split; [done|]. done.
Qed.

(** A read miss, or the read of a write miss. *)
Lemma send_read_ok c mem acc ret b id time wa events st i0 (g : mem_fetch) : inv (mkState c mem acc ret) ->
  m_fetches c !! id = Some g -> f_write g = false -> (ro = true -> f_atomic g = false) -> id ∉ acc -> id ∉ mem ++ m_miss_queue c ->
  aligned cfg b -> time_ok time -> probe_result cfg (m_tag_array c) b 0 st i0 -> st = MISS \/ st = HIT_RESERVED ->
  exists do_miss ev events' c', send_read_request cfg b i0 id time ro wa events c = Some (do_miss, ev, events', c') /\
    inv (mkState c' mem (if (do_miss : bool) then id :: acc else acc) ret).
Proof using Hcfg Hon Hmerge.
  intros Hinv Hg Hw Hat Hacc Hq Hb Htime Hp Hst. unfold send_read_request. rewrite Hg. cbn [mbind option_bind].
  destruct c as [t [d cur] q x f n]. cbn in *.
  destruct (tags_access_ok t b time i0 st i0 (iv_tags _ Hinv) Hb Htime Hp Hst) as (i & ev & t' & Hta & Ht' & Hk & Hres & Hc').
  { intros Hro. apply (iv_clean _ Hinv Hro). }
  assert (inv (st_mk t' (mkMshrs d cur) q x f n mem acc ret)) as Hinv' by (eapply inv_tags; [done|done| |done]; auto).
  assert (id < n)%nat as Hid by (apply (iv_heap _ Hinv); by eexists).
  unfold mshr_probe, mshr_full, mshr_add. cbn [m_data m_current_response]. destruct (d !! b) as [e|] eqn:Hd.
  - rewrite bool_decide_true by by eexists. cbn [andb negb]. destruct (Z.leb_spec (m_mshr_max_merge cfg) (Z.of_nat (length (m_list e)))) as [Hle|Hlt]; cbn.
    { eexists _, _, _, _. split; [done|]. exact Hinv. }
    rewrite Hta. cbn. rewrite map_size_insert_Some by done.
    pose proof (iv_size _ Hinv) as Hsz. cbn in Hsz. pose proof (iv_entry _ Hinv b e Hd) as (Hne & _).
    assert (Z.of_nat (length (m_list e ++ [id])) <= m_mshr_max_merge cfg) as Hlen by (rewrite length_app; cbn; lia).
    assert (0 < size d)%nat as Hpos. { destruct (decide (size d = 0)%nat) as [Hz|]; [|lia]. apply map_size_empty_inv in Hz. subst. by rewrite lookup_empty in Hd. }
    rewrite (proj2 (Z.leb_le (Z.of_nat (size d)) _)), (proj2 (Z.leb_le _ (m_mshr_max_merge cfg))) by lia.
    eexists _, _, _, _. split; [done|]. by apply inv_merge.
  - rewrite bool_decide_false by by intros []. cbn [andb negb].
    destruct (Z.leb_spec (m_mshr_entries cfg) (Z.of_nat (size d))) as [Hle|Hlt]; cbn; [by eexists _, _, _, _|].
    destruct (Z.ltb_spec (Z.of_nat (length q)) (m_miss_queue_size cfg)); [|by eexists _, _, _, _]. rewrite Hta. cbn.
    rewrite map_size_insert_None by done. rewrite (proj2 (Z.leb_le _ (m_mshr_entries cfg))) by lia.
    rewrite (proj2 (Z.leb_le (Z.of_nat 1) _)) by lia. eexists _, _, _, _. split; [done|].
    eapply inv_update; [done| |]; [done|]. by eapply inv_open; [done|lia|done..].
Qed.

(** The evicted line is written back, with either kind of request. *)
Lemma write_back_ok c mem acc ret type ev : inv (mkState c mem acc ret) ->
  match write_back cfg type ev c with
  | Some (wb, c') => inv (mkState (with_queue (m_miss_queue c' ++ [wb]) c') mem acc ret)
  | None => True
  end.
Proof using Type.
  intros Hinv. unfold write_back. destruct ev as [e|]; [|done]. case_bool_decide; [done|]. cbn. destruct c as [t m q x f n]. cbn.
  eapply inv_write; [cbn; by rewrite lookup_insert_eq|done| |by apply inv_new].
  intros Hin%elem_of_app. pose proof (iv_fresh _ Hinv n) as Hf. cbn in Hf. destruct Hin; (assert (n < n)%nat by auto); lia.
Qed.

Section data_requests.
Variables (c : cache) (mem acc ret : list nat) (id : nat) (time : Z) (g : mem_fetch).
Hypothesis Hinv : inv (mkState c mem acc ret).
Hypothesis Hg : m_fetches c !! id = Some g.
Hypothesis Haddr : 0 <= f_addr g.
Hypothesis Hacc : id ∉ acc.
Hypothesis Hq : id ∉ mem ++ m_miss_queue c.
Hypothesis Htime : time_ok time.
Implicit Types (events : list cache_event).

(** The outcome of an access: the cache keeps the invariant, the fetches [new] being taken. *)
Definition kept (r : option (cache_request_status * list cache_event * cache)) (taken : cache_request_status -> list nat) : Prop :=
  exists st events c', r = Some (st, events, c') /\ inv (mkState c' mem (taken st ++ acc) ret).
Abbreviation block := (block_addr cfg (f_addr g)).

Lemma hit_modify_ok i idx (modify : bool) : (modify = true -> ro = false) -> probe_result cfg (m_tag_array c) block 0 HIT i ->
  exists c', hit_modify cfg block time idx modify c = Some c' /\ inv (mkState c' mem acc ret) /\ m_miss_queue c' = m_miss_queue c /\ m_fetches c' = m_fetches c.
Proof using Haddr Hcfg Hg Hinv Hon Hq Htime.
  intros Hro Hp. pose proof (iv_tags _ Hinv) as Ht. destruct c as [t m q x f n]. cbn in *.
  destruct (hit_access cfg Hcfg Hon t block time idx i Ht (block_addr_aligned cfg Hcfg _ Haddr) Htime Hp)
    as (line & t' & Hl & Hlive & Hres & Ha & Ht' & Hls). unfold hit_modify. cbn [m_tag_array]. rewrite Ha. cbn.
  assert (m_lines t' !! i = Some (touch time line)) as Hl' by (rewrite Hls; apply list_lookup_insert_eq; by eapply lookup_lt_Some).
  destruct modify.
  - unfold on_line. rewrite Hl'. cbn. eexists. split; [done|]. split; [|done]. eapply (inv_tags t); [| | |done].
    + apply set_status_inv; [done|done|]. done.
    + eapply keeps_put; [exact Hl|cbn; by rewrite Hls, list_insert_insert_eq|done].
    + intros Hr. rewrite Hro in Hr by done. done.
  - eexists. split; [done|]. split; [|done]. eapply (inv_tags t); [done| | |done].
    + by eapply keeps_put.
    + intros _ Hc. eapply clean_put; [done|done|]. cbn. by eapply Hc.
Qed.

Lemma kept_fail events (tk : cache_request_status -> list nat) : tk RESERVATION_FAIL = [] -> kept (Some (RESERVATION_FAIL, events, c)) tk.
Proof using Hinv. intros Htk. eexists _, _, _. split; [done|]. by rewrite Htk. Qed.

Lemma queue_write c' : inv (mkState c' mem acc ret) -> m_fetches c' !! id = Some g -> f_write g = true ->
  m_miss_queue c' = m_miss_queue c -> inv (mkState (with_queue (m_miss_queue c' ++ [id]) c') mem acc ret).
Proof using Hq.
  intros Hi Hg' Hw Heq. rewrite <-Heq in Hq. destruct c' as [t m q x f n]. by eapply inv_write.
Qed.

Lemma write_hit_ok i (tk : cache_request_status -> list nat) events wr_hit : ro = false -> f_write g = true -> tk RESERVATION_FAIL = [] -> tk HIT = [] ->
  m_wr_hit cfg = Some wr_hit -> probe_result cfg (m_tag_array c) block 0 HIT i -> kept (wr_hit (f_addr g) time i id events c) tk.
Proof using Hcfg Hon Hinv Haddr Htime Hg Hq.
  intros Hro Hw Hf Hh Hm Hp.
  assert (forall events, kept (wr_hit_wb cfg (f_addr g) time i id events c) tk) as Hwb.
  { intros ev. unfold wr_hit_wb. destruct (hit_modify_ok i i true ltac:(done) Hp) as (c' & -> & Hc' & _).
    eexists _, _, _. split; [done|]. by rewrite Hh. }
  assert (forall events, kept (wr_hit_we cfg (f_addr g) time i id events c) tk) as Hwe.
  { intros ev. unfold wr_hit_we. destruct (miss_queue_full cfg 0 c); [by apply kept_fail|]. cbn.
    inversion Hp as [? line (Hl & Hlive & _) Hres| | |]; subst. unfold on_line. rewrite Hl. cbn. eexists _, _, _. split; [done|]. rewrite Hh.
    pose proof (queue_write c Hinv Hg Hw eq_refl) as Hi. pose proof (iv_tags _ Hinv) as Ht. destruct c as [t m q x f n]. cbn in *.
    eapply (inv_tags t); [by apply set_status_inv|by eapply keeps_put| |done]. intros _ Hc. eapply clean_put; [done|done|]. done. }
  unfold m_wr_hit in Hm. destruct (m_write_policy cfg); [done|..]; injection Hm as <-.
  - apply Hwb.
  - unfold wr_hit_wt. destruct (miss_queue_full cfg 0 c); [by apply kept_fail|].
    destruct (hit_modify_ok i i true ltac:(done) Hp) as (c' & -> & Hc' & Hq' & Hf'). cbn. eexists _, _, _. split; [done|]. rewrite Hh.
    apply queue_write; [done|by rewrite Hf'|done|done].
  - apply Hwe.
  - unfold wr_hit_global_we_local_wb. rewrite Hg. cbn. case_bool_decide; [apply Hwe|apply Hwb].
Qed.

Lemma read_hit_ok i (tk : cache_request_status -> list nat) events : ro = false -> tk HIT = [] -> (f_atomic g = true -> f_type g = GLOBAL_ACC_R) ->
  probe_result cfg (m_tag_array c) block 0 HIT i -> kept (rd_hit_base cfg (f_addr g) time i id events c) tk.
Proof using Hcfg Hon Hinv Haddr Htime Hg Hq.
  intros Hro Hh Hat Hp. unfold rd_hit_base. rewrite Hg. cbn. destruct (f_atomic g).
  - rewrite bool_decide_true by auto. destruct (hit_modify_ok i i true ltac:(done) Hp) as (c' & -> & Hc' & _). eexists _, _, _. split; [done|]. by rewrite Hh.
  - destruct (hit_modify_ok i i false ltac:(done) Hp) as (c' & -> & Hc' & _). eexists _, _, _. split; [done|]. by rewrite Hh.
Qed.

Lemma read_miss_ok i (tk : cache_request_status -> list nat) events st : ro = false -> f_write g = false ->
  tk RESERVATION_FAIL = [] -> tk MISS = [id] -> probe_result cfg (m_tag_array c) block 0 st i -> st = MISS \/ st = HIT_RESERVED ->
  kept (rd_miss_base cfg (f_addr g) time i id events c) tk.
Proof using Hcfg Hon Hmerge Hinv Haddr Htime Hg Hq Hacc.
  intros Hro Hw Hf Hm Hp Hst. unfold rd_miss_base. destruct (miss_queue_full cfg 1 c); [by apply kept_fail|].
  destruct (send_read_ok c mem acc ret block id time false events st i g Hinv Hg Hw) as (dm & ev & events' & c' & Hs & Hi);
    [by rewrite Hro|done|done|by apply (block_addr_aligned cfg Hcfg)|done|done|done|]. rewrite Hro in Hs. rewrite Hs. cbn.
  pose proof (write_back_ok c' mem _ ret L1_WRBK_ACC ev Hi) as Hwb. destruct (write_back cfg L1_WRBK_ACC ev c') as [[wb c1]|]; cbn;
    eexists _, _, _; (split; [done|]); destruct dm; rewrite ?Hf, ?Hm; done.
Qed.

(** A write that misses is sent on; with write allocation a read fetch [S id] follows. *)
Lemma write_miss_ok i (tk : cache_request_status -> list nat) events st : ro = false -> f_write g = true -> m_next c = S id ->
  tk RESERVATION_FAIL = [] -> tk MISS = (match m_write_alloc_policy cfg with WRITE_ALLOCATE => [S id] | NO_WRITE_ALLOCATE => [] end) ->
  probe_result cfg (m_tag_array c) block 0 st i -> st = MISS \/ st = HIT_RESERVED ->
  kept (m_wr_miss cfg (f_addr g) time i id events c) tk.
Proof using Hcfg Hon Hmerge Hinv Haddr Htime Hg Hq Hacc.
  intros Hro Hw Hn Hf Hm Hp Hst. pose proof (queue_write c Hinv Hg Hw eq_refl) as Hi.
  unfold m_wr_miss. destruct (m_write_alloc_policy cfg).
  { unfold wr_miss_no_wa. destruct (miss_queue_full cfg 0 c); [by apply kept_fail|]. cbn. eexists _, _, _. split; [done|]. by rewrite Hm. }
  unfold wr_miss_wa. destruct (_ || _); [by apply kept_fail|]. cbn [send_write_request]. cbv zeta.
  change (m_fetches (with_queue (m_miss_queue c ++ [id]) c)) with (m_fetches c). rewrite Hg. cbn [mbind option_bind].
  set (g' := mkFetch (f_addr g) (f_data_size g) false L2_WR_ALLOC_R false). set (c1 := with_queue (m_miss_queue c ++ [id]) c) in *.
  assert (inv (mkState (snd (new_fetch g' c1)) mem acc ret)) as Hi1 by (destruct c; cbn; by apply inv_new).
  assert (forall j, j ∈ acc \/ j ∈ mem \/ j ∈ m_miss_queue c1 -> j <> S id) as Hfresh.
  { intros j Hj ->. pose proof (iv_fresh _ Hi (S id) Hj) as Hlt. cbn in Hlt. lia. }
  destruct (send_read_ok (snd (new_fetch g' c1)) mem acc ret block (S id) time true (events ++ [WRITE_REQUEST_SENT]) st i g' Hi1)
    as (dm & ev & events' & c' & Hs & Hi'); [cbn; rewrite Hn; by rewrite lookup_insert_eq|done|done| | |by apply (block_addr_aligned cfg Hcfg)|done|done|done|].
  { intros Hin. by apply (Hfresh (S id)); [left|]. }
  { intros [Hin|Hin]%elem_of_app; apply (Hfresh (S id)); auto. }
  rewrite Hro in Hs. unfold new_fetch in Hs. cbn [snd] in Hs. unfold new_fetch. replace (m_next c1) with (S id) in * by (by rewrite <-Hn). rewrite Hs. cbn.
  pose proof (write_back_ok c' mem _ ret L2_WRBK_ACC ev Hi') as Hwb. destruct (write_back cfg L2_WRBK_ACC ev c') as [[wb c2]|];
    eexists _, _, _; (split; [done|]); destruct dm; rewrite ?Hf, ?Hm; done.
Qed.

Lemma read_only_ok (tk : cache_request_status -> list nat) events : ro = true -> m_write_policy cfg = READ_ONLY -> f_write g = false ->
  f_atomic g = false -> f_data_size g <= m_line_sz cfg -> tk RESERVATION_FAIL = [] -> tk HIT = [] -> tk MISS = [id] ->
  kept (read_only_access cfg id time events c) tk.
Proof using Hcfg Hon Hmerge Hinv Haddr Htime Hg Hq Hacc.
  intros Hro Hwp Hw Hat Hsz Hf Hh Hm. unfold read_only_access. rewrite Hg. cbn. rewrite (proj2 (Z.leb_le _ _) Hsz), bool_decide_true, Hw by done.
  cbn. pose proof (iv_tags _ Hinv) as Ht. cbn in Ht.
  destruct (probe_spec cfg Hcfg (m_tag_array c) block 0 Ht (block_addr_aligned cfg Hcfg _ Haddr) Hon) as (st & j & Hpr & Hp). rewrite Hpr. cbn.
  assert (st = MISS \/ st = HIT_RESERVED -> kept (if miss_queue_full cfg 0 c then Some (RESERVATION_FAIL, events, c) else
      '(do_miss, _, events, c) ← send_read_request cfg block j id time true false events c;
      Some (if (do_miss : bool) then MISS else RESERVATION_FAIL, events, c)) tk) as Hmiss.
  { intros Hst. destruct (miss_queue_full cfg 0 c); [by apply kept_fail|].
    destruct (send_read_ok c mem acc ret block id time false events st j g Hinv Hg Hw) as (dm & ev & events' & c' & Hs & Hi);
      [done|done|done|by apply (block_addr_aligned cfg Hcfg)|done|done|done|]. rewrite Hro in Hs. rewrite Hs. cbn.
    eexists _, _, _. split; [done|]. destruct dm; rewrite ?Hf, ?Hm; done. }
  destruct st; [|by apply Hmiss; auto..|by apply kept_fail].
  destruct (hit_modify_ok j j false ltac:(done) Hp) as (c' & Hc' & Hi & _). unfold hit_modify in Hc'.
  destruct (access_clean cfg block time j (m_tag_array c)) as [[[? ?] t']|]; [|done]. cbn in *. injection Hc' as <-.
  eexists _, _, _. split; [done|]. by rewrite Hh.
Qed.
End data_requests.

(** *** Moves *)
Hypothesis Hpolicy : if ro then m_write_policy cfg = READ_ONLY else m_write_policy cfg <> READ_ONLY.

Lemma data_access_ok c mem acc ret id time (g : mem_fetch) (tk : cache_request_status -> list nat) events :
  ro = false -> inv (mkState c mem acc ret) -> m_fetches c !! id = Some g -> 0 <= f_addr g -> id ∉ acc -> id ∉ mem ++ m_miss_queue c ->
  time_ok time -> m_next c = S id -> f_data_size g <= m_line_sz cfg -> (f_atomic g = true -> f_write g = false /\ f_type g = GLOBAL_ACC_R) ->
  (forall st, tk st = taken g id st) -> kept mem acc ret (data_access cfg id time events c) tk.
Proof using Hcfg Hon Hmerge Hpolicy.
  intros Hro Hinv Hg Haddr Hacc Hq Htime Hn Hsz Hat Htk. rewrite Hro in Hpolicy. unfold data_access.
  assert (exists wr_hit, m_wr_hit cfg = Some wr_hit) as [wr_hit Hwr] by (unfold m_wr_hit; destruct (m_write_policy cfg); [done|by eexists..]).
  rewrite Hwr, Hg. cbn. rewrite (proj2 (Z.leb_le _ _) Hsz). pose proof (iv_tags _ Hinv) as Ht. cbn in Ht.
  destruct (probe_spec cfg Hcfg (m_tag_array c) (block_addr cfg (f_addr g)) 0 Ht (block_addr_aligned cfg Hcfg _ Haddr) Hon) as (st & i & Hpr & Hp).
  rewrite Hpr. cbn. assert (tk RESERVATION_FAIL = []) as Hf by by rewrite Htk. assert (tk HIT = []) as Hh by by rewrite Htk.
  destruct (f_write g) eqn:Hw.
  - assert (tk MISS = (match m_write_alloc_policy cfg with WRITE_ALLOCATE => [S id] | NO_WRITE_ALLOCATE => [] end)) as Hm.
    { rewrite Htk. unfold taken. by rewrite Hw. }
    destruct st; [|apply (write_miss_ok c mem acc ret id time g Hinv Hg Haddr Hacc Hq Htime i tk events _ Hro Hw Hn Hf Hm Hp); auto..|apply kept_fail; auto].
    apply (write_hit_ok c mem acc ret id time g Hinv Hg Haddr Hq Htime i tk events wr_hit Hro Hw); auto.
  - assert (tk MISS = [id]) as Hm by (rewrite Htk; unfold taken; by rewrite Hw).
    destruct st; [|apply (read_miss_ok c mem acc ret id time g Hinv Hg Haddr Hacc Hq Htime i tk events _ Hro Hw Hf Hm Hp); auto..|apply kept_fail; auto].
    apply (read_hit_ok c mem acc ret id time g Hinv Hg Haddr Hq Htime i tk events Hro); auto. intros Ha. by apply Hat.
Qed.

Lemma request_ok s (f : mem_fetch) time : inv s -> allowed (Request f time) s -> exists s', step (Request f time) s = Some s' /\ inv s'.
Proof using Hcfg Hon Hmerge Hpolicy.
  intros Hinv (Hsz & Haddr & Htime & Hat & Hrof). destruct s as [c mem acc ret]. cbn [step new_fetch s_cache].
  set (id := m_next c). set (c1 := mkCache _ _ _ _ _ _).
  assert (inv (mkState c1 mem acc ret)) as Hi by (destruct c; by apply inv_new).
  assert (forall j, j ∈ acc \/ j ∈ mem \/ j ∈ m_miss_queue c -> j <> id) as Hfresh.
  { intros j Hj ->. pose proof (iv_fresh _ Hinv id Hj) as Hlt. cbn in Hlt. subst id. lia. }
  assert (m_fetches c1 !! id = Some f) as Hg by apply lookup_insert_eq.
  assert (id ∉ acc) as Hacc by (intros Hin; by apply (Hfresh id); [left|]).
  assert (id ∉ mem ++ m_miss_queue c1) as Hq by (intros [Hin|Hin]%elem_of_app; apply (Hfresh id); auto).
  assert (kept mem acc ret (cache_access id time [] c1) (taken f id)) as (st & ev & c' & -> & Hi').
  { assert (ro = false -> kept mem acc ret (data_access cfg id time [] c1) (taken f id)) as Hdata.
    { intros Hro. by apply (data_access_ok c1 mem acc ret id time f). }
    assert (ro = true -> kept mem acc ret (read_only_access cfg id time [] c1) (taken f id)) as Hread.
    { intros Hro. destruct (Hrof Hro) as [Hw ?]. rewrite Hro in Hpolicy. apply (read_only_ok c1 mem acc ret id time f); try done.
      unfold taken. by rewrite Hw. }
    unfold cache_access. destruct (Bool.bool_dec ro true) as [Hro|Hro%not_true_is_false].
    - specialize (Hread Hro). by rewrite Hro.
    - specialize (Hdata Hro). by rewrite Hro. }
  eexists. split; [done|]. exact Hi'.
Qed.

Lemma cycle_ok s full : inv s -> exists s', step (Cycle full) s = Some s' /\ inv s'.
Proof using Type.
  intros Hinv. destruct s as [[t m q x f n] mem acc ret]. cbn. unfold cycle. cbn. destruct q as [|mf q]; [by eexists|].
  destruct (proj1 (iv_heap _ Hinv mf)) as [g Hg]; [apply (iv_fresh _ Hinv); right; right; by left|]. cbn in Hg. rewrite Hg. cbn.
  destruct (full _ _); cbn; [by eexists|]. rewrite Hg. eexists. split; [done|].
  destruct Hinv as [H1 H2 H3 H4 H5 H6 H7 H8 H9 H10 H11 H12 H13 H14]. cbn in *.
  apply NoDup_app in H12 as (Hnm & Hdis & [Hmf Hnq]%NoDup_cons). split; try done; cbn in *.
  - intros j. rewrite H11, elem_of_app, elem_of_cons. destruct (f_write g) eqn:Hw.
    + rewrite elem_of_nil. split; [intros [?|[[->|?] (g' & Hg' & Hw')]]; [by left; right|congruence|right; eauto]|].
      intros [[[]|?]|[? ?]]; [by left|right; auto].
    + rewrite list_elem_of_singleton. split; [intros [?|[[->|?] ?]]; [by left; right|by left; left|right; auto]|].
      intros [[->|?]|[? ?]]; [right; split; [by left|by exists g]|by left|right; auto].
  - destruct (f_write g); cbn.
    + apply NoDup_app. split; [done|]. split; [|done]. intros j Hj Hjq. apply (Hdis j Hj). by right.
    + apply NoDup_cons. split.
      * rewrite elem_of_app. intros [Hj|Hj]; [|done]. apply (Hdis mf Hj). by left.
      * apply NoDup_app. split; [done|]. split; [|done]. intros j Hj Hjq. apply (Hdis j Hj). by right.
  - intros j. rewrite elem_of_app. intros Hj. apply H13. rewrite elem_of_cons. destruct (f_write g); rewrite ?elem_of_nil, ?list_elem_of_singleton in Hj; tauto.
Qed.

Lemma domain_bound (d : gmap Z mshr_entry) (l : list Z) : NoDup l -> (forall b, b ∈ l -> is_Some (d !! b)) -> (length l <= size d)%nat.
Proof using Type.
  clear. intros Hnd Hd. rewrite <-(size_list_to_set (C := gset Z)) by done. rewrite <-size_dom. apply subseteq_size.
  intros b Hb%elem_of_list_to_set. by apply elem_of_dom, Hd.
Qed.

(** The line and the registers of an answer. *)
Lemma inv_filled t t' d cur q x f n mem acc ret mf y (l : cache_block_t) : inv (st_mk t (mkMshrs d cur) q x f n mem acc ret) ->
  x !! mf = Some y -> mf ∈ mem -> tags_inv cfg t' -> m_lines t' = <[x_cache_index y := l]> (m_lines t) -> (ro = true -> m_status l <> MODIFIED) ->
  inv (st_mk t' (mkMshrs d (cur ++ [x_block_addr y])) q (delete mf x) f n (filter (fun id => id <> mf) mem) acc ret).
Proof using Type.
  intros [H1 H2 H3 H4 H5 H6 H7 H8 H9 H10 H11 H12 H13 H14] Hy Hmf Ht' Hls Hl. cbn in *.
  destruct (H3 mf y Hy) as ((ly & Hly & Hres & Hb) & Hd & Hcur).
  assert (forall mf' y', delete mf x !! mf' = Some y' -> x !! mf' = Some y' /\ x_block_addr y' <> x_block_addr y) as Hdel.
  { intros mf' y' [Hne Hy']%lookup_delete_Some. split; [done|]. intros Heq. apply Hne. symmetry. by eapply H4. }
  apply NoDup_app in H12 as (Hnm & Hdis & Hnq). split; try done; cbn in *.
  - intros Hro. destruct (H2 Hro). split; [|done]. eapply clean_put; [done|done|]. by apply Hl.
  - intros mf' y' [Hy' Hne]%Hdel. destruct (H3 mf' y' Hy') as ((l' & Hl' & Hres' & Hb') & ? & ?). split; [|split; [done|]].
    + exists l'. rewrite Hls, list_lookup_insert_ne; [done|]. intros Heq. rewrite Heq in Hly. congruence.
    + rewrite elem_of_app, list_elem_of_singleton. intros [?|?]; done.
  - intros m1 m2 y1 y2 [Hy1 _]%Hdel [Hy2 _]%Hdel. by eapply H4.
  - destruct H5 as [Hnd Hc]. split.
    + apply NoDup_app. split; [done|]. split; [|by apply NoDup_singleton]. intros b Hb' Hn%list_elem_of_singleton. by subst.
    + intros b [Hb'|Hb'%list_elem_of_singleton]%elem_of_app; [by apply Hc|by subst].
  - intros b e He. destruct (H6 b e He) as (? & ? & Hor). split; [done|]. split; [done|]. rewrite elem_of_app, list_elem_of_singleton.
    destruct Hor as [?|(mf' & y' & Hy' & <-)]; [auto|]. destruct (decide (mf' = mf)) as [->|]; [left; right; congruence|].
    right. exists mf', y'. by rewrite lookup_delete_ne.
  - intros j. rewrite lookup_delete_is_Some, list_elem_of_filter, H11. split.
    + intros [Hne [?|?]]; [left; split; [congruence|done]|by right].
    + intros [[Hne ?]|[Hq ?]]; [split; [congruence|by left]|split; [|by right]]. intros <-. by destruct (Hdis mf).
  - apply NoDup_app. split; [by apply NoDup_filter|]. split; [|done]. intros j [_ Hj]%list_elem_of_filter. by apply Hdis.
  - intros j Hj. apply H13. destruct Hj as [?|[[_ ?]%list_elem_of_filter|?]]; auto.
Qed.

Lemma fill_ok s mf time : inv s -> allowed (Fill mf time) s -> exists s', step (Fill mf time) s = Some s' /\ inv s'.
Proof using Hon.
  intros Hinv Hmf. destruct s as [[t [d cur] q x f n] mem acc ret]. cbn in *.
  destruct (proj2 (iv_sent _ Hinv mf)) as [y Hy]; [by left|]. destruct (proj1 (iv_heap _ Hinv mf)) as [g Hg]; [apply (iv_fresh _ Hinv); auto|].
  cbn in Hy, Hg. destruct (iv_extra _ Hinv mf y Hy) as ((l & Hl & Hres & Hb) & [e He] & Hcur). cbn in *.
  destruct (fill_index_spec cfg t (x_cache_index y) time l (iv_tags _ Hinv) Hon Hl Hres) as (l' & Hf & Hst & Hb' & Ht').
  unfold fill. cbn. rewrite Hy. cbn. rewrite Hg, Hon. cbn. rewrite Hf. cbn.
  assert (length (cur ++ [x_block_addr y]) <= size d)%nat as Hlen.
  { destruct (iv_current _ Hinv) as [Hnd Hc]. apply domain_bound.
    - apply NoDup_app. split; [done|]. split; [|by apply NoDup_singleton]. intros b Hb1 Hn%list_elem_of_singleton. by subst.
    - intros b [?|?%list_elem_of_singleton]%elem_of_app; [by apply Hc|subst; by eexists]. }
  unfold mark_ready. cbn. rewrite He. cbn. rewrite (proj2 (Nat.leb_le _ _) Hlen). cbn.
  assert (inv (st_mk t (mkMshrs d cur) q x (<[mf := set_data_size (x_data_size y) g]> f) n mem acc ret)) as Hi.
  { by eapply inv_update; [exact Hg| |]. }
  destruct (m_has_atomic e) eqn:Hat.
  - rewrite bool_decide_true by done. unfold on_line. cbn. rewrite list_lookup_insert_eq by by eapply lookup_lt_Some. cbn.
    eexists. split; [done|]. eapply (inv_filled t _ d cur q x _ n mem acc ret mf y (set_status MODIFIED l')); [done|done|done| | |].
    + apply (set_status_inv cfg (with_lines (<[x_cache_index y := l']> (m_lines t)) t)); [done| |].
      * cbn. apply list_lookup_insert_eq. by eapply lookup_lt_Some.
      * intros _. unfold live. by rewrite Hst.
    + cbn. by rewrite list_insert_insert_eq.
    + intros Hro. destruct (iv_clean _ Hinv Hro) as [_ Hna]. specialize (Hna _ _ He). congruence.
  - eexists. split; [done|]. eapply (inv_filled t _ d cur q x _ n mem acc ret mf y l'); try done. intros _. by rewrite Hst.
Qed.

(** The last fetch of a register leaves, and a fetch before it. *)
Lemma inv_last t d cur q x f n mem acc ret b e mf : d !! b = Some e -> m_list e = [mf] ->
  inv (st_mk t (mkMshrs d (b :: cur)) q x f n mem acc ret) -> inv (st_mk t (mkMshrs (delete b d) cur) q x f n mem acc (mf :: ret)).
Proof using Type.
  intros He Hml [H1 H2 H3 H4 H5 H6 H7 H8 H9 H10 H11 H12 H13 H14]. cbn in *. destruct H5 as [[Hbc Hnc]%NoDup_cons Hc].
  destruct H9 as [Hnr Hl]. destruct (Hl b e He) as [_ Hdis]. rewrite Hml in Hdis.
  assert (forall b' e', delete b d !! b' = Some e' -> d !! b' = Some e' /\ b' <> b) as Hdel by (intros b' e' [? ?]%lookup_delete_Some; done).
  split; try done; cbn in *.
  - intros Hro. destruct (H2 Hro) as [? Hna]. split; [done|]. intros b' e' [He' _]%Hdel. by eapply Hna.
  - intros mf' y Hy. destruct (H3 mf' y Hy) as (? & ? & [? ?]%not_elem_of_cons). split; [done|]. split; [|done]. by rewrite lookup_delete_ne.
  - split; [done|]. intros b' Hb'. rewrite lookup_delete_ne by (intros ->; done). apply Hc. by right.
  - intros b' e' [He' Hne]%Hdel. destruct (H6 b' e' He') as (? & ? & Hor). split; [done|]. split; [done|].
    destruct Hor as [[->|?]%elem_of_cons|?]; [done|by left|by right].
  - rewrite map_size_delete_Some by by eexists. lia.
  - intros b1 b2 e1 e2 j [He1 _]%Hdel [He2 _]%Hdel. by eapply H8.
  - split; [apply NoDup_cons; split; [apply Hdis; by left|done]|]. intros b' e' [He' Hne]%Hdel. destruct (Hl b' e' He') as [? Hd'].
    split; [done|]. intros j Hj. apply not_elem_of_cons. split; [|by apply Hd']. intros ->. apply Hne.
    eapply (H8 b' b e' e mf); [done|done|done|]. rewrite Hml. by left.
  - intros j. rewrite H10, elem_of_cons. split.
    + intros [?|(b' & e' & He' & Hj)]; [left; by right|]. destruct (decide (b' = b)) as [->|].
      * assert (e' = e) as -> by congruence. rewrite Hml in Hj. apply list_elem_of_singleton in Hj. left. by left.
      * right. exists b', e'. by rewrite lookup_delete_ne.
    + intros [[->|?]|(b' & e' & [He' _]%Hdel & Hj)]; [right; exists b, e; rewrite Hml; split; [done|by left]|by left|right; by exists b', e'].
Qed.
Lemma inv_head t d cur q x f n mem acc ret b e mf mf2 l : d !! b = Some e -> m_list e = mf :: mf2 :: l ->
  inv (st_mk t (mkMshrs d (b :: cur)) q x f n mem acc ret) ->
  inv (st_mk t (mkMshrs (<[b := mkMshr (mf2 :: l) (m_has_atomic e)]> d) (b :: cur)) q x f n mem acc (mf :: ret)).
Proof using Type.
  intros He Hml [H1 H2 H3 H4 H5 H6 H7 H8 H9 H10 H11 H12 H13 H14]. cbn in *.
  destruct H9 as [Hnr Hl]. destruct (Hl b e He) as [Hnd Hdis]. rewrite Hml in Hnd, Hdis. apply NoDup_cons in Hnd as [Hmf Hnd].
  assert (forall b' e', <[b := mkMshr (mf2 :: l) (m_has_atomic e)]> d !! b' = Some e' -> exists e0, d !! b' = Some e0 /\
    m_has_atomic e' = m_has_atomic e0 /\ (forall j, j ∈ m_list e' -> j ∈ m_list e0 /\ j <> mf) /\ m_list e' <> [] /\
    (length (m_list e') <= length (m_list e0))%nat /\ NoDup (m_list e') /\ (b' <> b -> e' = e0)) as Hins.
  { intros b' e' [(<- & <-)|[Hne He']]%lookup_insert_Some.
    - exists e. rewrite Hml. cbn. split; [done|]. split; [done|]. split; [|split; [done|]; split; [lia|]; done].
      intros j Hj. split; [by right|]. by intros ->.
    - exists e'. destruct (Hl b' e' He') as [? _]. destruct (H6 b' e' He') as (? & _). split; [done|]. split; [done|]. split; [|done].
      intros j Hj. split; [done|]. intros ->. apply Hne. eapply (H8 b b' e e' mf); [done|done| |done]. rewrite Hml. by left. }
  assert (forall b', is_Some (d !! b') -> is_Some (<[b := mkMshr (mf2 :: l) (m_has_atomic e)]> d !! b')) as Hsome
    by (intros b' Hb'; apply lookup_insert_is_Some'; by right).
  split; try done; cbn in *.
  - intros Hro. destruct (H2 Hro) as [? Hna]. split; [done|]. intros b' e' (e0 & He0 & -> & _)%Hins. by eapply Hna.
  - intros mf' y Hy. destruct (H3 mf' y Hy) as (? & ? & ?). split; [done|]. split; [by apply Hsome|done].
  - destruct H5 as [? Hc]. split; [done|]. intros b' Hb'. by apply Hsome, Hc.
  - intros b' e' (e0 & He0 & _ & _ & ? & ? & _)%Hins. destruct (H6 b' e0 He0) as (? & ? & Hor). split; [done|]. split; [lia|done].
  - by rewrite map_size_insert_Some.
  - intros b1 b2 e1 e2 j (e01 & He1 & _ & Hj1 & _)%Hins (e02 & He2 & _ & Hj2 & _)%Hins H1j H2j.
    eapply (H8 b1 b2 e01 e02 j); [done|done|by apply Hj1|by apply Hj2].
  - split; [apply NoDup_cons; split; [apply Hdis; by left|done]|]. intros b' e' (e0 & He0 & _ & Hj0 & _ & _ & Hnd' & _)%Hins. split; [done|].
    intros j Hj. destruct (Hj0 j Hj) as [Hin Hne]. apply not_elem_of_cons. split; [done|]. by apply (Hl b' e0 He0).
  - intros j. rewrite H10, elem_of_cons. split.
    + intros [?|(b' & e' & He' & Hj)]; [left; by right|]. destruct (decide (b' = b)) as [->|].
      * assert (e' = e) as -> by congruence. rewrite Hml in Hj. apply elem_of_cons in Hj as [->|Hj]; [left; by left|right].
        exists b. eexists. by rewrite lookup_insert_eq.
      * right. exists b', e'. by rewrite lookup_insert_ne.
    + intros [[->|?]|(b' & e' & (e0 & He0 & _ & Hj0 & _)%Hins & Hj)].
      * right. exists b, e. rewrite Hml. split; [done|by left].
      * by left.
      * right. exists b', e0. split; [done|]. by apply Hj0.
Qed.

Lemma next_ok s : inv s -> allowed Next s -> exists s', step Next s = Some s' /\ inv s'.
Proof using Type.
  intros Hinv Hready. destruct s as [[t [d cur] q x f n] mem acc ret]. cbn in *. unfold next_access, mshr_next_access, access_ready in *. cbn in *.
  destruct cur as [|b cur]; [done|]. destruct (iv_current _ Hinv) as [_ Hc]. destruct (Hc b) as [e He]; [by left|]. cbn in He. rewrite He. cbn.
  destruct (iv_entry _ Hinv b e He) as (Hne & _).
  destruct (m_list e) as [|mf [|mf2 l]] eqn:Hml; [done| |]; cbn; (eexists; split; [done|]); [by eapply inv_last|by eapply inv_head].
Qed.

Lemma step_keeps s m : inv s -> allowed m s -> exists s', step m s = Some s' /\ inv s'.
Proof using Hcfg Hon Hmerge Hpolicy.
  intros Hinv Hm. destruct m; [by apply request_ok|by apply cycle_ok|by apply fill_ok|by apply next_ok].
Qed.

Lemma new_inv : inv (mkState (cache_new cfg) [] [] []).
Proof using Hcfg.
  split; cbn; try done.
  - by apply tag_array_new_inv.
  - intros _. split; [|done]. intros i line [-> _]%lookup_replicate. done.
  - split; [constructor|]. intros b Hb. by apply elem_of_nil in Hb.
  - rewrite map_size_empty. lia.
  - split; [constructor|done].
  - intros id. rewrite !elem_of_nil. split; [done|]. intros [[]|(b & e & H & _)]. by rewrite lookup_empty in H.
  - intros id. rewrite !elem_of_nil, lookup_empty. split; [by intros []|]. intros [[]|[[] _]].
  - constructor.
  - intros id. rewrite !elem_of_nil. tauto.
  - intros id. rewrite lookup_empty. split; [lia|by intros []].
Qed.
End system.

(** ** Every run *)
Inductive runs (cfg : cache_config) (ro : bool) : state -> Prop :=
  | runs_new : runs cfg ro (mkState (cache_new cfg) [] [] [])
  | runs_step s m s' : runs cfg ro s -> allowed cfg ro m s -> step cfg ro m s = Some s' -> runs cfg ro s'.

(** The caches that are meant: a geometry of powers of two, allocation on a miss, registers
    that hold a fetch, and a write policy that fits the kind of cache. *)
Record cache_ok (cfg : cache_config) (ro : bool) : Prop := {
  co_config : config_ok cfg;
  co_alloc : m_alloc_policy cfg = ON_MISS;
  co_merge : 1 <= m_mshr_max_merge cfg;
  co_policy : if ro then m_write_policy cfg = READ_ONLY else m_write_policy cfg <> READ_ONLY }.

Lemma cache_runs_inv cfg ro s : cache_ok cfg ro -> runs cfg ro s -> inv cfg ro s.
Proof.
  intros [H1 H2 H3 H4]. induction 1 as [|s m s' _ IH Hm Hs]; [by apply new_inv|].
  destruct (step_keeps cfg ro H1 H2 H3 H4 s m IH Hm) as (s1 & Hs1 & ?). congruence.
Qed.

(** A fetch waits: its block's data have come, or a request for the block is on its way
    and holds a reserved line. *)
Definition waits (s : state) (id : nat) : Prop :=
  exists b e, m_data (m_mshrs (s_cache s)) !! b = Some e /\ id ∈ m_list e /\
    (b ∈ m_current_response (m_mshrs (s_cache s)) \/
     exists mf x, m_extra_mf_fields (s_cache s) !! mf = Some x /\ x_block_addr x = b /\
       reserved_for (m_tag_array (s_cache s)) b (x_cache_index x) /\ (mf ∈ s_memory s \/ mf ∈ m_miss_queue (s_cache s))).

(** C19: A cache loses no fetch. In every run of a read-only or data cache, under all write
    policies, no assertion fails: an answer of memory always finds its line reserved and its
    registers waiting, and a ready register always has a fetch to give. The fetches
    given back are different ones the cache took; each of the others waits in the registers,
    for an answer that is on its way or to be given back; and the registers and the merged
    fetches stay within their numbers. *)
Theorem cache_serves_misses cfg ro s : cache_ok cfg ro -> runs cfg ro s ->
  (forall m, allowed cfg ro m s -> exists s', step cfg ro m s = Some s' /\ runs cfg ro s') /\
  (NoDup (s_returned s) /\ forall id, id ∈ s_returned s -> id ∈ s_accepted s) /\
  (forall id, id ∈ s_accepted s -> id ∉ s_returned s -> waits s id) /\
  Z.of_nat (size (m_data (m_mshrs (s_cache s)))) <= Z.max 0 (m_mshr_entries cfg) /\
  (forall b e, m_data (m_mshrs (s_cache s)) !! b = Some e -> Z.of_nat (length (m_list e)) <= m_mshr_max_merge cfg).
Proof.
  intros Hok Hruns. pose proof (cache_runs_inv cfg ro s Hok Hruns) as Hinv. destruct Hok as [H1 H2 H3 H4]. split; [|split; [|split; [|split]]].
  - intros m Hm. destruct (step_keeps cfg ro H1 H2 H3 H4 s m Hinv Hm) as (s' & Hs & _). exists s'. split; [done|]. by eapply runs_step.
  - split; [apply (iv_once _ _ _ Hinv)|]. intros id Hid. apply (iv_accepted _ _ _ Hinv). by left.
  - intros id Hid Hn. apply (iv_accepted _ _ _ Hinv) in Hid as [?|(b & e & He & Hin)]; [done|]. exists b, e. split; [done|]. split; [done|].
    destruct (iv_entry _ _ _ Hinv b e He) as (_ & _ & [?|(mf & x & Hx & <-)]); [by left|right]. exists mf, x. split; [done|]. split; [done|].
    split; [apply (iv_extra _ _ _ Hinv mf x Hx)|]. destruct (proj1 (iv_sent _ _ _ Hinv mf)) as [?|[? _]]; [by eexists|auto..].
  - apply (iv_size _ _ _ Hinv).
  - intros b e He. apply (iv_entry _ _ _ Hinv b e He).
Qed.

Fixpoint run_moves cfg ro (ms : list move) (s : state) : option state :=
  match ms with [] => Some s | m :: ms => s ← step cfg ro m s; run_moves cfg ro ms s end.
Fixpoint all_allowed cfg ro (ms : list move) (s : state) : Prop :=
  match ms with [] => True | m :: ms => allowed cfg ro m s /\ forall s', step cfg ro m s = Some s' -> all_allowed cfg ro ms s' end.
Lemma run_moves_runs cfg ro ms : forall s s', runs cfg ro s -> all_allowed cfg ro ms s -> run_moves cfg ro ms s = Some s' -> runs cfg ro s'.
Proof.
  induction ms as [|m ms IH]; intros s s' Hr Ha Hs; cbn in *; [by injection Hs as <-|]. destruct Ha as [Hm Ha].
  destruct (step cfg ro m s) as [s1|] eqn:H1; [|done]. apply (IH s1); [by eapply runs_step|by apply Ha|done].
Qed.

(** A read-only cache of one line of 128 bytes, and a request for an address. *)
Definition one_line : cache_config := cache_config_init 1 128 1 LRU READ_ONLY ON_MISS NO_WRITE_ALLOCATE 4 4 4.
Lemma one_line_ok : cache_ok one_line true.
Proof. split; [|reflexivity|vm_compute; congruence|reflexivity]. split; vm_compute; try split; congruence. Qed.
Definition read_of (addr : Z) : mem_fetch := mkFetch addr 32 false CONST_ACC_R false.
Definition port_free : Z -> bool -> bool := fun _ _ => false.
(** Block 0 arrives; before it is read out block 128 evicts it and arrives too; block 0 is
    wanted again, then everything is read out. *)
Definition lost_moves : list move :=
  [Request (read_of 0) 1; Cycle port_free; Fill 0 2; Request (read_of 128) 3; Cycle port_free; Fill 1 4;
   Request (read_of 0) 5; Next; Next; Next].
Definition lost_state : state := default (mkState (cache_new one_line) [] [] []) (run_moves one_line true lost_moves (mkState (cache_new one_line) [] [] [])).
Lemma read_allowed addr time s : 0 <= addr -> time_ok time -> allowed one_line true (Request (read_of addr) time) s.
Proof. intros Ha Ht. split; [vm_compute; congruence|]. split; [done|]. split; [done|]. by split. Qed.
Ltac allow_move :=
  lazymatch goal with
  | |- allowed _ _ (Request _ _) _ => apply read_allowed; [lia|unfold time_ok; lia]
  | |- allowed _ _ (Cycle _) _ => exact I
  | |- allowed _ _ (Fill _ _) _ => cbn [allowed s_memory]; apply (bool_decide_unpack _); vm_compute; exact I
  | |- allowed _ _ Next _ => reflexivity
  end.
Ltac allow_moves :=
  repeat lazymatch goal with
  | |- all_allowed _ _ (_ :: _) _ => split; [allow_move|let s' := fresh "s" in let Hs := fresh in intros s' Hs; vm_compute in Hs; injection Hs as <-]
  | |- all_allowed _ _ [] _ => exact I
  end.
Lemma lost_allowed : all_allowed one_line true lost_moves (mkState (cache_new one_line) [] [] []).
Proof. unfold lost_moves. allow_moves. Qed.
Lemma lost_runs : runs one_line true lost_state.
Proof. apply (run_moves_runs one_line true lost_moves (mkState (cache_new one_line) [] [] [])); [constructor|apply lost_allowed|vm_compute; reflexivity]. Qed.

(** The cache of [lost_state]: its line is reserved for block 0, with nothing to wait for. *)
Record stuck (s : state) : Prop := {
  st_lines : m_lines (m_tag_array (s_cache s)) = [mkBlock 0 0 5 5 0 RESERVED];
  st_memory : s_memory s = [];
  st_queue : m_miss_queue (s_cache s) = [];
  st_extra : m_extra_mf_fields (s_cache s) = ∅;
  st_mshrs : m_mshrs (s_cache s) = mkMshrs ∅ [] }.
Lemma lost_stuck : stuck lost_state.
Proof. split; vm_compute; reflexivity. Qed.

Lemma stuck_refuses s id f time :
  stuck s -> tags_inv one_line (m_tag_array (s_cache s)) -> allowed one_line true (Request f time) s -> block_addr one_line (f_addr f) <> 0 ->
  m_fetches (s_cache s) !! id = Some f -> cache_access one_line true id time [] (s_cache s) = Some (RESERVATION_FAIL, [], s_cache s).
Proof.
  intros Hst Hinv (Hsz & Ha & _ & _ & Hro) Hb Hf. destruct (Hro eq_refl) as [Hw _].
  unfold cache_access, read_only_access. rewrite Hf. cbn [mbind option_bind]. rewrite (proj2 (Z.leb_le _ _) Hsz), Hw. cbn [negb].
  rewrite bool_decide_true by reflexivity. pose proof (co_config _ _ one_line_ok) as Hcfg.
  assert (forall j l, m_lines (m_tag_array (s_cache s)) !! j = Some l -> m_status l = RESERVED /\ m_block_addr l = 0) as Hlines.
  { rewrite (st_lines s Hst). intros [|[|j]] l Hj; [injection Hj as <-; split; reflexivity|discriminate..]. }
  destruct (probe_spec one_line Hcfg _ (block_addr one_line (f_addr f)) 0 Hinv (block_addr_aligned one_line Hcfg _ Ha) eq_refl) as (st & i & -> & Hp).
  cbn. destruct Hp as [i l (Hi & _ & Hbl) Hn|i l (Hi & _ & Hbl) Hn|i l Hno Hi _ Hn _|]; [..|done]; destruct (Hlines _ _ Hi); congruence.
Qed.

(** The moves that ask for another block than [b]. *)
Definition not_for (b : Z) (m : move) : Prop := match m with Request f _ => block_addr one_line (f_addr f) <> b | _ => True end.
Inductive goes_on (P : move -> Prop) : state -> state -> Prop :=
  | goes_nowhere s : goes_on P s s
  | goes_step s m s1 s2 : allowed one_line true m s -> P m -> step one_line true m s = Some s1 -> goes_on P s1 s2 -> goes_on P s s2.
Lemma stuck_step s m s1 :
  runs one_line true s -> stuck s -> allowed one_line true m s -> not_for 0 m -> step one_line true m s = Some s1 ->
  stuck s1 /\ s_accepted s1 = s_accepted s /\ s_returned s1 = s_returned s.
Proof.
  intros Hr Hst Hm Hn Hs. destruct m as [f time|full|mf time|]; cbn [step not_for] in *.
  - unfold new_fetch in Hs. set (s0 := mkState (mkCache (m_tag_array (s_cache s)) (m_mshrs (s_cache s)) (m_miss_queue (s_cache s)) (m_extra_mf_fields (s_cache s))
      (<[m_next (s_cache s) := f]> (m_fetches (s_cache s))) (S (m_next (s_cache s)))) (s_memory s) (s_accepted s) (s_returned s)).
    assert (Hst0 : stuck s0) by (destruct Hst; by split).
    pose proof (stuck_refuses s0 (m_next (s_cache s)) f time Hst0 (iv_tags _ _ _ (cache_runs_inv _ _ _ one_line_ok Hr)) Hm Hn (lookup_insert_eq _ _ _)) as Href.
    cbn [s_cache s0] in Href. rewrite Href in Hs.
    cbn [mbind option_bind] in Hs. injection Hs as <-. destruct Hst0. by split.
  - unfold cycle in Hs. rewrite (st_queue s Hst) in Hs. cbn [mbind option_bind] in Hs. injection Hs as <-. destruct Hst. by split.
  - cbn [allowed] in Hm. rewrite (st_memory s Hst) in Hm. by apply elem_of_nil in Hm.
  - cbn [allowed] in Hm. rewrite (st_mshrs s Hst) in Hm. done.
Qed.
Lemma stuck_goes_on s s1 :
  goes_on (not_for 0) s s1 -> runs one_line true s -> stuck s -> stuck s1 /\ s_accepted s1 = s_accepted s /\ s_returned s1 = s_returned s.
Proof.
  induction 1 as [s|s m s1 s2 Hm Hn Hs _ IH]; intros Hr Hst; [done|].
  destruct (stuck_step s m s1 Hr Hst Hm Hn Hs) as (Hst1 & Ha & Hret). rewrite <- Ha, <- Hret. apply IH; [by eapply runs_step|done].
Qed.
Lemma goes_on_moves ms : forall s, all_allowed one_line true ms s -> forall s1, run_moves one_line true ms s = Some s1 -> goes_on (fun _ => True) s s1.
Proof.
  induction ms as [|m ms IH]; intros s Ha s1 Hs; cbn in *; [injection Hs as <-; constructor|]. destruct Ha as [Hm Ha].
  destruct (step one_line true m s) as [s2|] eqn:H2; [|done]. eapply goes_step; [exact Hm|exact I|exact H2|]. apply IH; [by apply Ha|done].
Qed.
(** Block 0 is asked for once more, and arrives. *)
Definition freeing_moves : list move := [Request (read_of 0) 6; Cycle port_free; Fill 3 7].
Lemma freeing_allowed : all_allowed one_line true freeing_moves lost_state.
Proof.
  unfold freeing_moves. assert (lost_state = ltac:(let s := eval vm_compute in lost_state in exact s)) as -> by (vm_compute; reflexivity). allow_moves.
Qed.


Lemma cache_serves_misses_witness : runs one_line true lost_state /\
  (forall m, allowed one_line true m lost_state -> exists s', step one_line true m lost_state = Some s' /\ runs one_line true s') /\
  (NoDup (s_returned lost_state) /\ forall id, id ∈ s_returned lost_state -> id ∈ s_accepted lost_state) /\
  (forall id, id ∈ s_accepted lost_state -> id ∉ s_returned lost_state -> waits lost_state id) /\
  Z.of_nat (size (m_data (m_mshrs (s_cache lost_state)))) <= Z.max 0 (m_mshr_entries one_line) /\
  (forall b e, m_data (m_mshrs (s_cache lost_state)) !! b = Some e -> Z.of_nat (length (m_list e)) <= m_mshr_max_merge one_line).
Proof. split; [exact lost_runs|]. apply (cache_serves_misses one_line true lost_state one_line_ok lost_runs). Defined.
