(* ===== verification/TexFifo.v ===== *)
(** The ring buffers of the texture cache: [tex_cache::fifo] of [gpgpu-sim/gpu-cache.h],
    and the bounded queue each one is. *)
From S2P Require Import Prelude.

(** [m_data] holds [None] where no entry was ever stored. *)
Record fifo (T : Type) := mkFifo { q_head : Z; q_tail : Z; q_num : Z; q_size : Z; q_data : list (option T) }.
#[global] Arguments mkFifo {T} _ _ _ _ _.
#[global] Arguments q_head {T} _.
#[global] Arguments q_tail {T} _.
#[global] Arguments q_num {T} _.
#[global] Arguments q_size {T} _.
#[global] Arguments q_data {T} _.

Section fifo.
Context {T : Type}.
Implicit Types (f : fifo T) (e : T).

Definition fifo_new (size : Z) : fifo T := mkFifo 0 0 0 size (replicate (Z.to_nat size) None).
Definition full f : bool := q_num f =? q_size f.
Definition empty f : bool := q_num f =? 0.
Definition inc_head f : fifo T :=
  mkFifo (u32 (q_head f + 1) `mod` q_size f) (q_tail f) (u32 (q_num f + 1)) (q_size f) (q_data f).
Definition inc_tail f : option (fifo T) :=
  assert! 0 <? q_num f;
  Some (mkFifo (q_head f) (u32 (q_tail f + 1) `mod` q_size f) (u32 (q_num f - 1)) (q_size f) (q_data f)).
(** An assignment through [m_data[index]]. *)
Definition store (index : Z) e f : option (fifo T) :=
  _ ← q_data f !! Z.to_nat index;
  Some (mkFifo (q_head f) (q_tail f) (q_num f) (q_size f) (<[Z.to_nat index := Some e]> (q_data f))).
Definition push e f : option (Z * fifo T) :=
  assert! negb (full f);
  f' ← store (q_head f) e f;
  Some (q_head f, inc_head f').
Definition peek f : option T := x ← q_data f !! Z.to_nat (q_tail f); x.
Definition pop f : option (T * fifo T) :=
  assert! negb (empty f);
  result ← peek f;
  f' ← inc_tail f;
  Some (result, f').
Definition peek_at (index : Z) f : option T :=
  assert! index <? q_size f;
  x ← q_data f !! Z.to_nat index; x.
Definition next_pop_index f : Z := q_tail f.

(** ** The bounded queue, oldest entry first *)
Implicit Types (l : list T) (k : nat).
(** The slot of the [k]-th oldest entry. *)
Definition slot f k : Z := (q_tail f + Z.of_nat k) `mod` q_size f.
Record is_queue f l : Prop := {
  fq_size : 0 <= q_size f < 2 ^ 32;
  fq_length : Z.of_nat (length (q_data f)) = q_size f;
  fq_num : q_num f = Z.of_nat (length l);
  fq_room : Z.of_nat (length l) <= q_size f;
  fq_tail : 0 <= q_tail f /\ (0 < q_size f -> q_tail f < q_size f);
  fq_head : q_head f = slot f (length l);
  fq_entry : forall k e, l !! k = Some e -> q_data f !! Z.to_nat (slot f k) = Some (Some e) }.

Lemma slot_range f k : 0 < q_size f -> 0 <= slot f k < q_size f.
Proof. intros H. by apply Z.mod_pos_bound. Qed.
(** Entries of one queue are in different slots. *)
Lemma slot_inj f j k : Z.of_nat j < q_size f -> Z.of_nat k < q_size f -> slot f j = slot f k -> j = k.
Proof.
  unfold slot. intros Hj Hk H.
  pose proof (Z.div_mod (q_tail f + Z.of_nat j) (q_size f) ltac:(lia)).
  pose proof (Z.div_mod (q_tail f + Z.of_nat k) (q_size f) ltac:(lia)).
  assert (q_size f * ((q_tail f + Z.of_nat j) `div` q_size f - (q_tail f + Z.of_nat k) `div` q_size f) = Z.of_nat j - Z.of_nat k) by lia.
  destruct (Z.lt_trichotomy ((q_tail f + Z.of_nat j) `div` q_size f) ((q_tail f + Z.of_nat k) `div` q_size f)) as [?|[?|?]]; nia.
Qed.
Lemma slot_0 f l : is_queue f l -> 0 < q_size f -> slot f 0 = q_tail f.
Proof. intros Hf Hs. unfold slot. destruct (fq_tail f l Hf). rewrite Z.add_0_r. apply Z.mod_small. lia. Qed.
Lemma slot_next f l k : is_queue f l -> 0 < q_size f -> u32 (slot f k + 1) `mod` q_size f = slot f (S k).
Proof.
  intros Hf Hs. pose proof (slot_range f k Hs). pose proof (fq_size f l Hf). rewrite u32_small by lia.
  unfold slot. rewrite Zplus_mod_idemp_l. f_equal. lia.
Qed.

Lemma new_queue size : 0 <= size < 2 ^ 32 -> is_queue (fifo_new size) [].
Proof.
  intros Hs. split; cbn; try lia; try done.
  rewrite length_replicate. lia.
Qed.
Lemma full_spec f l : is_queue f l -> full f = bool_decide (Z.of_nat (length l) = q_size f).
Proof. intros Hf. unfold full. rewrite (fq_num f l Hf). apply Bool.eq_iff_eq_true. rewrite bool_decide_eq_true. lia. Qed.
Lemma empty_spec f l : is_queue f l -> empty f = bool_decide (l = []).
Proof.
  intros Hf. unfold empty. rewrite (fq_num f l Hf). apply Bool.eq_iff_eq_true. rewrite bool_decide_eq_true, <-length_zero_iff_nil. lia.
Qed.

Lemma lookup_slot f l k : is_queue f l -> 0 < q_size f -> is_Some (q_data f !! Z.to_nat (slot f k)).
Proof. intros Hf Hs. apply lookup_lt_is_Some_2. pose proof (slot_range f k Hs). pose proof (fq_length f l Hf). lia. Qed.

Lemma push_spec e f l : is_queue f l -> Z.of_nat (length l) < q_size f ->
  exists f', push e f = Some (slot f (length l), f') /\ is_queue f' (l ++ [e]) /\ q_size f' = q_size f /\ q_tail f' = q_tail f.
Proof.
  intros Hf Hl. assert (0 < q_size f) as Hs by lia. unfold push, store.
  rewrite (full_spec f l Hf), bool_decide_false by lia. cbn [negb].
  rewrite (fq_head f l Hf). destruct (lookup_slot f l (length l) Hf Hs) as [x ->]. cbn [mbind option_bind].
  pose proof (slot_next f l (length l) Hf Hs) as slot_next0. eexists. split; [done|]. split; [|done]. unfold inc_head. cbn [q_head q_tail q_num q_size q_data].
  destruct Hf as [H1 H2 H3 H4 H5 H6 H7]. split; cbn [q_head q_tail q_num q_size q_data]; rewrite ?length_insert, ?length_app; cbn [length]; try done; try lia.
  - rewrite H3, u32_small by lia. lia.
  - rewrite slot_next0. unfold slot. cbn. do 2 f_equal. lia.
  - intros k y Hk. unfold slot in *. cbn [q_tail q_size]. apply lookup_app_Some in Hk as [Hk|[Hge Hk]].
    + rewrite list_lookup_insert_ne; [by apply H7|]. intros Heq. apply Z2Nat.inj in Heq; try (apply Z.mod_pos_bound; lia).
      apply lookup_lt_Some in Hk. assert (length l = k); [|lia]. apply (slot_inj f); [lia|lia|]. unfold slot. by symmetry.
    + destruct (k - length l)%nat eqn:Hd; [|done]. injection Hk as <-. assert (k = length l) as -> by lia.
      apply list_lookup_insert_eq. pose proof (Z.mod_pos_bound (q_tail f + Z.of_nat (length l)) (q_size f)). lia.
Qed.
Lemma push_full e f l : is_queue f l -> Z.of_nat (length l) = q_size f -> push e f = None.
Proof. intros Hf Hl. unfold push. by rewrite (full_spec f l Hf), bool_decide_true by done. Qed.

Lemma peek_spec e f l : is_queue f (e :: l) -> peek f = Some e.
Proof.
  intros Hf. unfold peek. pose proof (fq_room f _ Hf) as Hr. cbn [length] in Hr.
  rewrite <-(slot_0 f _ Hf) by lia. by rewrite (fq_entry f _ Hf 0%nat e eq_refl).
Qed.
Lemma pop_spec e f l : is_queue f (e :: l) ->
  exists f', pop f = Some (e, f') /\ is_queue f' l /\ q_size f' = q_size f /\ forall k, slot f' k = slot f (S k).
Proof.
  intros Hf. pose proof (fq_room f _ Hf) as Hr. cbn [length] in Hr. assert (0 < q_size f) as Hs by lia.
  unfold pop. rewrite (empty_spec f _ Hf), bool_decide_false by done. cbn [negb].
  rewrite (peek_spec e f l Hf). cbn [mbind option_bind]. unfold inc_tail. rewrite (fq_num f _ Hf).
  rewrite (proj2 (Z.ltb_lt _ _)) by (cbn; lia). cbn [mbind option_bind]. eexists. split; [done|].
  rewrite <-(slot_0 f _ Hf) by done. rewrite (slot_next f _ 0 Hf) by done.
  match goal with |- is_queue ?f0 _ /\ _ => set (f' := f0) end.
  assert (forall k, slot f' k = slot f (S k)) as Hslot.
  { intros k. unfold slot at 1. cbn. unfold slot. rewrite Zplus_mod_idemp_l. f_equal. lia. }
  split; [|done]. destruct Hf as [H1 H2 H3 H4 H5 H6 H7]. subst f'. split; cbn [q_head q_tail q_num q_size q_data]; try done; try lia.
  - cbn [length]. rewrite u32_small; lia.
  - pose proof (slot_range f 1 Hs). lia.
  - by rewrite Hslot.
  - intros k y Hk. rewrite Hslot. by apply H7.
Qed.
Lemma pop_empty f : is_queue f [] -> pop f = None.
Proof. intros Hf. unfold pop. by rewrite (empty_spec f _ Hf). Qed.

Lemma peek_at_spec f l k e : is_queue f l -> l !! k = Some e -> peek_at (slot f k) f = Some e.
Proof.
  intros Hf Hk. pose proof (lookup_lt_Some _ _ _ Hk). pose proof (fq_room f l Hf). assert (0 < q_size f) as Hs by lia.
  unfold peek_at. rewrite (proj2 (Z.ltb_lt _ _)) by apply (slot_range f k Hs). by rewrite (fq_entry f l Hf k e Hk).
Qed.
Lemma store_spec f l k e : is_queue f l -> (k < length l)%nat ->
  exists f', store (slot f k) e f = Some f' /\ is_queue f' (<[k := e]> l) /\ q_size f' = q_size f /\ q_tail f' = q_tail f.
Proof.
  intros Hf Hk. pose proof (fq_room f l Hf). assert (0 < q_size f) as Hs by lia. unfold store.
  destruct (lookup_slot f l k Hf Hs) as [x ->]. cbn [mbind option_bind]. eexists. split; [done|]. split; [|done].
  destruct Hf as [H1 H2 H3 H4 H5 H6 H7]. split; cbn [q_head q_tail q_num q_size q_data]; rewrite ?length_insert; try done.
  intros j y Hj. unfold slot. cbn [q_tail q_size]. fold (slot f j) (slot f k). apply list_lookup_insert_Some in Hj as [(-> & <- & _)|[Hne Hj]].
  - apply list_lookup_insert_eq. pose proof (slot_range f j Hs). lia.
  - rewrite list_lookup_insert_ne; [by apply H7|]. intros Heq. apply Z2Nat.inj in Heq; try apply (slot_range f _ Hs).
    apply Hne, (slot_inj f); [lia| |done]. apply lookup_lt_Some in Hj. lia.
Qed.
Lemma next_pop_spec f e l : is_queue f (e :: l) -> next_pop_index f = slot f 0.
Proof. intros Hf. pose proof (fq_room f _ Hf) as Hr. cbn in Hr. unfold next_pop_index. rewrite (slot_0 f _ Hf); [done|lia]. Qed.
End fifo.
