(* ===== verification/GpuTex.v ===== *)
(** The texture cache of the GPU model: [tex_cache] of [gpgpu-sim/gpu-cache.h] and
    [gpu-cache.cc], which prefetches: a request takes its line at once, and its data are read
    when the requests before it have been. *)
From S2P Require Import Prelude GpuTags GpuCache TexFifo.

Record fragment_entry := mkFragment { f_request : nat; f_cache_index : nat; f_miss : bool; f_fragment_size : Z }.
Record rob_entry := mkRob { r_ready : bool; r_time : Z; r_index : nat; r_request : nat; r_block_addr : Z }.
Definition rob_entry_new (i mf : nat) (a : Z) : rob_entry := mkRob false 0 i mf a.
Definition rob_ready (time : Z) (r : rob_entry) : rob_entry := mkRob true time (r_index r) (r_request r) (r_block_addr r).
Record data_block := mkData { d_valid : bool; d_block_addr : Z }.
Definition data_block_new : data_block := mkData false 0.

(** [x_fetches] holds the fetches that exist; [x_rob_index] is the index [extra_mf_fields]
    keeps for a fetch. *)
Record tex_cache := mkTex {
  x_tags : tag_array; x_fragment_fifo : fifo fragment_entry; x_request_fifo : fifo nat; x_rob : fifo rob_entry;
  x_cache : list data_block; x_result_fifo : fifo nat; x_rob_index : gmap nat Z; x_fetches : gmap nat mem_fetch }.

Section tex.
Variable m_config : cache_config.
(** The last number of the configuration string, which only this cache reads. *)
Variable m_result_fifo_entries : Z.
(** The control size of a fetch, which does not change. *)
Variable get_ctrl_size : nat -> Z.

(** The union members of the configuration under the names of this cache. *)
Definition m_fragment_fifo_entries : Z := m_mshr_entries m_config.
Definition m_request_fifo_entries : Z := m_mshr_max_merge m_config.
Definition m_rob_entries : Z := m_miss_queue_size m_config.

Definition tex_cache_new : option tex_cache :=
  assert! bool_decide (m_write_policy m_config = READ_ONLY);
  assert! bool_decide (m_alloc_policy m_config = ON_MISS);
  Some (mkTex (tag_array_new m_config) (fifo_new m_fragment_fifo_entries) (fifo_new m_request_fifo_entries)
          (fifo_new m_rob_entries) (replicate (Z.to_nat (get_num_lines m_config)) data_block_new)
          (fifo_new m_result_fifo_entries) ∅ ∅).

(** [access]: the status and the events. *)
Definition tex_access (mf : nat) (time : Z) (events : list cache_event) (c : tex_cache) :
    option (cache_request_status * list cache_event * tex_cache) :=
  if full (x_fragment_fifo c) || full (x_request_fifo c) || full (x_rob c) then Some (RESERVATION_FAIL, events, c) else
  f ← x_fetches c !! mf;
  assert! f_data_size f <=? m_line_sz m_config;
  let block := block_addr m_config (f_addr f) in
  '(status, cache_index, tags) ← access_clean m_config block time 0 (x_tags c);
  assert! bool_decide (status <> RESERVATION_FAIL);
  assert! bool_decide (status <> HIT_RESERVED);
  '(_, fragments) ← push (mkFragment mf cache_index (bool_decide (status = MISS)) (f_data_size f)) (x_fragment_fifo c);
  if bool_decide (status = MISS) then
    '(rob_index, rob) ← push (rob_entry_new cache_index mf block) (x_rob c);
    let fetches := <[mf := set_data_size (m_line_sz m_config) f]> (x_fetches c) in
    tags ← fill_index m_config cache_index time tags;
    '(_, requests) ← push mf (x_request_fifo c);
    Some (MISS, events ++ [READ_REQUEST_SENT],
          mkTex tags fragments requests rob (x_cache c) (x_result_fifo c) (<[mf := rob_index]> (x_rob_index c)) fetches)
  else
    Some (HIT_RESERVED, events,
          mkTex tags fragments (x_request_fifo c) (x_rob c) (x_cache c) (x_result_fifo c) (x_rob_index c) (x_fetches c)).

(** The first half of [cycle]: the request handed to the memory port, if any. *)
Definition send_request (memport_full : Z -> bool -> bool) (c : tex_cache) : option (option nat * tex_cache) :=
  if empty (x_request_fifo c) then Some (None, c) else
  mf ← peek (x_request_fifo c);
  if memport_full (get_ctrl_size mf) false then Some (None, c) else
  '(_, requests) ← pop (x_request_fifo c);
  Some (Some mf, mkTex (x_tags c) (x_fragment_fifo c) requests (x_rob c) (x_cache c) (x_result_fifo c) (x_rob_index c) (x_fetches c)).
(** A fragment leaves for the results. *)
Definition deliver (mf : nat) (rob : fifo rob_entry) (cache : list data_block) (c : tex_cache) : option tex_cache :=
  '(_, results) ← push mf (x_result_fifo c);
  '(_, fragments) ← pop (x_fragment_fifo c);
  Some (mkTex (x_tags c) fragments (x_request_fifo c) rob cache results (x_rob_index c) (x_fetches c)).
(** The second half of [cycle]. The last assertion of a hit assigns the address of the block to
    the line it means to compare it with, and fails when that address is 0. *)
Definition read_line (c : tex_cache) : option tex_cache :=
  if empty (x_fragment_fifo c) || full (x_result_fifo c) then Some c else
  e ← peek (x_fragment_fifo c);
  f ← x_fetches c !! f_request e;
  let block := block_addr m_config (f_addr f) in
  if f_miss e then
    r ← peek_at (next_pop_index (x_rob c)) (x_rob c);
    assert! bool_decide (r_request r = f_request e);
    assert! r_block_addr r =? block;
    if r_ready r then
      assert! bool_decide (r_index r = f_cache_index e);
      _ ← x_cache c !! r_index r;
      '(_, rob) ← pop (x_rob c);
      deliver (f_request e) rob (<[r_index r := mkData true (r_block_addr r)]> (x_cache c)) c
    else Some c
  else
    d ← x_cache c !! f_cache_index e;
    assert! d_valid d;
    assert! negb (block =? 0);
    deliver (f_request e) (x_rob c) (<[f_cache_index e := mkData (d_valid d) block]> (x_cache c)) c.
Definition tex_cycle (memport_full : Z -> bool -> bool) (c : tex_cache) : option (option nat * tex_cache) :=
  '(sent, c) ← send_request memport_full c;
  c ← read_line c;
  Some (sent, c).

Definition tex_fill (mf : nat) (time : Z) (c : tex_cache) : option tex_cache :=
  rob_index ← x_rob_index c !! mf;
  assert! negb (empty (x_rob c));
  r ← peek_at rob_index (x_rob c);
  assert! negb (r_ready r);
  rob ← store rob_index (rob_ready time r) (x_rob c);
  f ← x_fetches c !! mf;
  assert! r_block_addr r =? block_addr m_config (f_addr f);
  Some (mkTex (x_tags c) (x_fragment_fifo c) (x_request_fifo c) rob (x_cache c) (x_result_fifo c) (x_rob_index c) (x_fetches c)).
Definition tex_access_ready (c : tex_cache) : bool := negb (empty (x_result_fifo c)).
Definition tex_next_access (c : tex_cache) : option (nat * tex_cache) :=
  '(mf, results) ← pop (x_result_fifo c);
  Some (mf, mkTex (x_tags c) (x_fragment_fifo c) (x_request_fifo c) (x_rob c) (x_cache c) results (x_rob_index c) (x_fetches c)).
End tex.
