(* ===== verification/GpuTexSafe.v ===== *)
(** The texture cache of [GpuTex] with its requests, the memory port and the answers of
    memory, which may come in any order: the invariant of its runs. *)
From S2P Require Import Prelude GpuTags GpuCache TexFifo GpuTex.

(** ** Tags without reserved lines *)
Section tags.
Variable cfg : cache_config.
Hypothesis Hcfg : config_ok cfg.
Hypothesis Hon : m_alloc_policy cfg = ON_MISS.
Implicit Types (t : tag_array) (b time : Z) (i : nat).

Definition settled (lines : list cache_block_t) : Prop :=
  forall i line, lines !! i = Some line -> m_status line = VALID \/ m_status line = INVALID.
Lemma settled_put lines i line : settled lines -> m_status line = VALID -> settled (<[i := line]> lines).
Proof. intros Hs Hl j l [(-> & <- & _)|[_ Hj]]%list_lookup_insert_Some; [by left|by eapply Hs]. Qed.

Lemma touch_valid time line : m_status line = VALID -> m_status (touch time line) = VALID /\ m_block_addr (touch time line) = m_block_addr line.
Proof. done. Qed.

(** A request finds its block, or a line that can take it at once. *)
Lemma settled_access t b time : tags_inv cfg t -> settled (m_lines t) -> aligned cfg b -> time_ok time ->
  exists st i t1 t2 line, access_clean cfg b time 0 t = Some (st, i, t1) /\ (i < length (m_lines t))%nat /\
    (st = MISS /\ fill_index cfg i time t1 = Some t2 \/
     st = HIT /\ t1 = t2 /\ exists old, m_lines t !! i = Some old /\ m_status old = VALID /\ m_block_addr old = b) /\
    m_lines t2 = <[i := line]> (m_lines t) /\ m_status line = VALID /\ m_block_addr line = b /\ tags_inv cfg t2 /\ settled (m_lines t2).
Proof using Hcfg Hon.
  intros Ht Hset Hb Htime. destruct (access_spec cfg Hcfg t b time 0 Ht Hb Hon Htime) as (st & i & ev & t' & Ha & Hp & Hr & Ht').
  unfold access_clean. rewrite Ha. destruct Hp as [i line (Hi & Hlive & Hbl) Hn|i line (Hi & Hlive & Hbl) Hn|i line Hno Hi _ Hn _|_ Hall].
  - inversion Hr as [? ? line' _ Hi' Hls| |]; subst. assert (line' = line) as -> by congruence. destruct (Hset i line Hi) as [Hv|]; [|done].
    exists HIT, i, t', t', (touch time line). cbn. split; [done|]. split; [by eapply lookup_lt_Some|].
    split; [right; split; [done|]; split; [done|]; by exists line|]. split; [done|]. split; [done|]. split; [done|]. split; [done|].
    assert (m_lines t' = <[i := touch time line]> (m_lines t)) as -> by done. by apply settled_put.
  - destruct (Hset i line Hi); congruence.
  - inversion Hr as [? ? line' Hst| ? victim Hi' Hls|]; subst; [by destruct Hst|]. assert (victim = line) as -> by congruence.
    rewrite bool_decide_false by (destruct (Hset i line Hi); congruence). assert (i < length (m_lines t))%nat as Hlt by by eapply lookup_lt_Some.
    set (res := mkBlock (tag cfg b) b time time 0 RESERVED). assert (m_lines t' = <[i := res]> (m_lines t)) as Hl' by done.
    destruct (fill_index_spec cfg t' i time res Ht' Hon) as (line' & Hf & Hv & Hbl & Hti); [rewrite Hl'; by apply list_lookup_insert_eq|done|].
    exists MISS, i, t', (with_lines (<[i := line']> (m_lines t')) t'), line'. cbn. split; [done|]. split; [done|]. split; [by left|].
    rewrite Hl', list_insert_insert_eq. split; [done|]. split; [done|]. split; [done|]. split; [by rewrite Hl', list_insert_insert_eq in Hti|].
    by apply settled_put.
  - exfalso. pose proof (set_fits cfg Hcfg t b Ht (proj1 Hb)) as Hfit. pose proof (ok_assoc cfg Hcfg).
    destruct (lookup_lt_is_Some_2 (m_lines t) (Z.to_nat (u32 (set_index cfg b * m_assoc cfg)))) as [l Hl]; [lia|].
    assert (m_status l = RESERVED).
    { apply (Hall _ _ (proj2 (in_set_range cfg Hcfg t b _ l Ht (proj1 Hb) Hl) ltac:(lia)) Hl). }
    destruct (Hset _ _ Hl); congruence.
Qed.
End tags.

(** ** What the lines hold when the waiting fragments have been read *)
Section plays.
(** The block each fetch is for. *)
Implicit Types (blk : nat -> option Z) (lines : list cache_block_t) (cache : list data_block) (frags : list fragment_entry).

Definition agrees lines cache : Prop :=
  forall i line, lines !! i = Some line -> m_status line = VALID -> cache !! i = Some (mkData true (m_block_addr line)).
Fixpoint plays blk lines cache frags : Prop :=
  match frags with
  | [] => agrees lines cache
  | e :: frags => exists b, blk (f_request e) = Some b /\
      if f_miss e then (f_cache_index e < length cache)%nat /\ plays blk lines (<[f_cache_index e := mkData true b]> cache) frags
      else cache !! f_cache_index e = Some (mkData true b) /\ plays blk lines cache frags
  end.

Lemma plays_ext blk blk' lines frags : forall cache,
  (forall e, e ∈ frags -> blk' (f_request e) = blk (f_request e)) -> plays blk lines cache frags -> plays blk' lines cache frags.
Proof.
  induction frags as [|e frags IH]; intros cache Hext Hp; cbn in *; [done|]. destruct Hp as (b & Hb & Hp). exists b.
  split; [rewrite Hext by set_solver; done|]. destruct (f_miss e); destruct Hp as [? Hp]; (split; [done|]; apply IH; [set_solver|done]).
Qed.

(** A request for a block that a line holds. *)
Lemma plays_hit blk lines i old line e frags : lines !! i = Some old -> m_status old = VALID ->
  m_status line = VALID -> m_block_addr line = m_block_addr old ->
  blk (f_request e) = Some (m_block_addr old) -> f_cache_index e = i -> f_miss e = false ->
  forall cache, plays blk lines cache frags -> plays blk (<[i := line]> lines) cache (frags ++ [e]).
Proof.
  intros Hi Hv Hv' Hb He Hidx Hm. induction frags as [|e' frags IH]; intros cache Hp; cbn in *.
  - exists (m_block_addr old). split; [done|]. rewrite Hm. split; [rewrite Hidx; by apply Hp|].
    intros j l [(-> & <- & _)|[_ Hj]]%list_lookup_insert_Some Hl; [rewrite Hb; by apply (Hp _ old)|by apply Hp].
  - destruct Hp as (b & Hbe & Hp). exists b. split; [done|]. destruct (f_miss e'); destruct Hp as [? Hp]; (split; [done|]; by apply IH).
Qed.
(** A request that takes a line. *)
Lemma plays_miss blk lines line e b frags : m_status line = VALID -> m_block_addr line = b ->
  blk (f_request e) = Some b -> f_miss e = true -> (f_cache_index e < length lines)%nat ->
  forall cache, length cache = length lines -> plays blk lines cache frags -> plays blk (<[f_cache_index e := line]> lines) cache (frags ++ [e]).
Proof.
  intros Hv Hb He Hm Hlt. induction frags as [|e' frags IH]; intros cache Hlen Hp; cbn in *.
  - exists b. split; [done|]. rewrite Hm. split; [lia|].
    intros j l [(-> & <- & ?)|[Hne Hj]]%list_lookup_insert_Some Hl.
    + rewrite Hb. apply list_lookup_insert_eq. lia.
    + rewrite list_lookup_insert_ne by done. by apply Hp.
  - destruct Hp as (b' & Hbe & Hp). exists b'. split; [done|]. destruct (f_miss e'); destruct Hp as [? Hp]; (split; [done|]); apply IH; [|done..].
    by rewrite length_insert.
Qed.
End plays.

(** ** The cache in its surroundings *)
(** The requests memory has not answered; the fetches the cache took and those it gave back,
    oldest first. *)
Record tex_state := mkTexState {
  t_cache : tex_cache; t_next : nat; t_memory : list nat; t_accepted : list nat; t_returned : list nat }.
Inductive tex_move :=
  | TexAccess (f : mem_fetch) (time : Z) | TexCycle (memport_full : Z -> bool -> bool) | TexFill (mf : nat) (time : Z) | TexNext.

Section system.
Variables (cfg : cache_config) (results : Z) (get_ctrl_size : nat -> Z).
Implicit Types (s : tex_state) (c : tex_cache) (mf : nat) (time : Z).

Definition with_fetch mf (f : mem_fetch) c : tex_cache :=
  mkTex (x_tags c) (x_fragment_fifo c) (x_request_fifo c) (x_rob c) (x_cache c) (x_result_fifo c) (x_rob_index c) (<[mf := f]> (x_fetches c)).
Definition tex_step (m : tex_move) s : option tex_state :=
  match m with
  | TexAccess f time =>
      '(st, _, c) ← tex_access cfg (t_next s) time [] (with_fetch (t_next s) f (t_cache s));
      Some (mkTexState c (S (t_next s)) (t_memory s) (t_accepted s ++ (if bool_decide (st = RESERVATION_FAIL) then [] else [t_next s]))
              (t_returned s))
  | TexCycle port =>
      '(sent, c) ← tex_cycle cfg get_ctrl_size port (t_cache s);
      Some (mkTexState c (t_next s) (option_list sent ++ t_memory s) (t_accepted s) (t_returned s))
  | TexFill mf time =>
      c ← tex_fill cfg mf time (t_cache s);
      Some (mkTexState c (t_next s) (filter (fun id => id <> mf) (t_memory s)) (t_accepted s) (t_returned s))
  | TexNext =>
      '(mf, c) ← tex_next_access (t_cache s);
      Some (mkTexState c (t_next s) (t_memory s) (t_accepted s) (t_returned s ++ [mf]))
  end.
Definition tex_allowed (m : tex_move) s : Prop :=
  match m with
  | TexAccess f time => f_data_size f <= m_line_sz cfg /\ 0 <= f_addr f /\ time_ok time /\ block_addr cfg (f_addr f) <> 0
  | TexCycle _ => True
  | TexFill mf _ => mf ∈ t_memory s
  | TexNext => tex_access_ready (t_cache s) = true
  end.

Definition blk (fetches : gmap nat mem_fetch) mf : option Z := (fun f => block_addr cfg (f_addr f)) <$> fetches !! mf.
Definition misses (frags : list fragment_entry) : list fragment_entry := filter (fun e => f_miss e = true) frags.
Definition rob_of (b : nat -> option Z) (e : fragment_entry) (r : rob_entry) : Prop :=
  r_request r = f_request e /\ r_index r = f_cache_index e /\ b (f_request e) = Some (r_block_addr r).
Definition waits_memory (robs : list rob_entry) (k : nat) mf : Prop :=
  exists r, robs !! k = Some r /\ r_ready r = false /\ r_request r = mf.

Lemma rob_ext b b' frags robs : (forall e, e ∈ frags -> b' (f_request e) = b (f_request e)) ->
  Forall2 (rob_of b) (misses frags) robs -> Forall2 (rob_of b') (misses frags) robs.
Proof.
  intros Hext. assert (forall e, e ∈ misses frags -> b' (f_request e) = b (f_request e)) as Hm.
  { intros e He. apply Hext. by apply list_elem_of_filter in He as [_ ?]. }
  clear Hext. induction 1 as [|e r es rs (H1 & H2 & H3) H IH]; constructor; [|apply IH; set_solver].
  split; [done|]. split; [done|]. rewrite Hm; [done|set_solver].
Qed.

(** The four queues with the lists they hold; the reorder buffer lists the fragments that
    missed, and those not ready are the requests that are out. *)
Record tex_inv s (frags : list fragment_entry) (reqs : list nat) (robs : list rob_entry) (res : list nat) : Prop := {
  xv_tags : tags_inv cfg (x_tags (t_cache s));
  xv_settled : settled (m_lines (x_tags (t_cache s)));
  xv_frags : is_queue (x_fragment_fifo (t_cache s)) frags;
  xv_reqs : is_queue (x_request_fifo (t_cache s)) reqs;
  xv_robs : is_queue (x_rob (t_cache s)) robs;
  xv_res : is_queue (x_result_fifo (t_cache s)) res;
  xv_cache : length (x_cache (t_cache s)) = length (m_lines (x_tags (t_cache s)));
  xv_plays : plays (blk (x_fetches (t_cache s))) (m_lines (x_tags (t_cache s))) (x_cache (t_cache s)) frags;
  xv_rob : Forall2 (rob_of (blk (x_fetches (t_cache s)))) (misses frags) robs;
  xv_zero : forall e, e ∈ frags -> blk (x_fetches (t_cache s)) (f_request e) <> Some 0;
  xv_order : t_accepted s = t_returned s ++ res ++ map f_request frags;
  xv_once : NoDup (t_accepted s);
  xv_next : forall id, id ∈ t_accepted s -> (id < t_next s)%nat;
  xv_sent : NoDup (reqs ++ t_memory s);
  xv_out : forall mf, mf ∈ reqs ++ t_memory s <-> exists k, waits_memory robs k mf;
  xv_index : forall k mf, waits_memory robs k mf -> x_rob_index (t_cache s) !! mf = Some (slot (x_rob (t_cache s)) k) }.
Definition tex_inv_ex s : Prop := exists frags reqs robs res, tex_inv s frags reqs robs res.

Hypothesis Hcfg : config_ok cfg.
Hypothesis Hon : m_alloc_policy cfg = ON_MISS.

Lemma waits_request s frags reqs robs res k mf : tex_inv s frags reqs robs res -> waits_memory robs k mf ->
  exists e, e ∈ frags /\ f_request e = mf /\ misses frags !! k = Some e.
Proof.
  intros Hi (r & Hr & _ & <-). destruct (Forall2_lookup_r _ _ _ _ _ (xv_rob _ _ _ _ _ Hi) Hr) as (e & He & Hre & _).
  exists e. split; [|done]. apply list_elem_of_lookup_2 in He. by apply list_elem_of_filter in He as [_ He].
Qed.
Lemma frag_accepted s frags reqs robs res e : tex_inv s frags reqs robs res -> e ∈ frags -> f_request e ∈ t_accepted s.
Proof.
  intros Hi He. rewrite (xv_order _ _ _ _ _ Hi). apply elem_of_app; right. apply elem_of_app; right. apply list_elem_of_fmap. by exists e.
Qed.
(** A fetch waits in one entry of the reorder buffer. *)
Lemma waits_unique s frags reqs robs res j k mf : tex_inv s frags reqs robs res -> waits_memory robs j mf -> waits_memory robs k mf -> j = k.
Proof.
  intros Hi Hj Hk. destruct (waits_request _ _ _ _ _ _ _ Hi Hj) as (e & _ & He & Hje), (waits_request _ _ _ _ _ _ _ Hi Hk) as (e' & _ & He' & Hke).
  assert (NoDup (map f_request (misses frags))) as Hnd.
  { pose proof (xv_once _ _ _ _ _ Hi) as Hn. rewrite (xv_order _ _ _ _ _ Hi), app_assoc in Hn. apply NoDup_app in Hn as (_ & _ & Hn).
    eapply sublist_NoDup; [done|]. apply (fmap_sublist f_request), sublist_filter. }
  eapply NoDup_lookup; [done|..]; rewrite list_lookup_fmap; [rewrite Hje|rewrite Hke]; cbn; [done|congruence].
Qed.
(** *** Each operation keeps the invariant *)
Lemma tex_next_ok s : tex_inv_ex s -> tex_allowed TexNext s -> exists s', tex_step TexNext s = Some s' /\ tex_inv_ex s'.
Proof.
  intros (frags & reqs & robs & res & Hi) Hall. cbn in *. unfold tex_access_ready in Hall. rewrite (empty_spec _ _ (xv_res _ _ _ _ _ Hi)) in Hall.
  destruct res as [|mf res]; [done|]. unfold tex_next_access. destruct (pop_spec _ _ _ (xv_res _ _ _ _ _ Hi)) as (q & -> & Hq & _).
  cbn. eexists. split; [done|]. exists frags, reqs, robs, res. destruct Hi. split; cbn; try done.
  rewrite xv_order0. by rewrite <-!app_assoc.
Qed.

Lemma tex_send_ok port s : tex_inv_ex s -> exists sent c, send_request get_ctrl_size port (t_cache s) = Some (sent, c) /\
  tex_inv_ex (mkTexState c (t_next s) (option_list sent ++ t_memory s) (t_accepted s) (t_returned s)) /\
  x_fragment_fifo c = x_fragment_fifo (t_cache s) /\ x_result_fifo c = x_result_fifo (t_cache s) /\
  (empty (x_request_fifo (t_cache s)) = true -> c = t_cache s /\ sent = None).
Proof.
  intros (frags & reqs & robs & res & Hi). unfold send_request. rewrite (empty_spec _ _ (xv_reqs _ _ _ _ _ Hi)).
  assert (forall c, c = t_cache s -> tex_inv_ex (mkTexState c (t_next s) (t_memory s) (t_accepted s) (t_returned s))) as Hsame.
  { intros c ->. exists frags, reqs, robs, res. by destruct Hi. }
  destruct reqs as [|mf reqs]; cbn; [eexists _, _; split; [done|]; split; [by apply Hsame|done]|].
  rewrite (peek_spec _ _ _ (xv_reqs _ _ _ _ _ Hi)). cbn. destruct (port _ _); [eexists _, _; split; [done|]; split; [by apply Hsame|done]|].
  destruct (pop_spec _ _ _ (xv_reqs _ _ _ _ _ Hi)) as (q & -> & Hq & _). cbn. eexists _, _. split; [done|]. split; [|done].
  exists frags, reqs, robs, res. destruct Hi. split; cbn; try done.
  - by rewrite <-Permutation_middle.
  - intros id. rewrite <-xv_out0. rewrite <-Permutation_middle. done.
Qed.

(** A fragment leaves for the results. *)
Lemma deliver_ok s e frags reqs robs0 robs res rob cache :
  tex_inv s (e :: frags) reqs robs0 res -> full (x_result_fifo (t_cache s)) = false ->
  is_queue rob robs -> length cache = length (x_cache (t_cache s)) ->
  plays (blk (x_fetches (t_cache s))) (m_lines (x_tags (t_cache s))) cache frags ->
  Forall2 (rob_of (blk (x_fetches (t_cache s)))) (misses frags) robs ->
  (forall mf, mf ∈ reqs ++ t_memory s <-> exists k, waits_memory robs k mf) ->
  (forall k mf, waits_memory robs k mf -> x_rob_index (t_cache s) !! mf = Some (slot rob k)) ->
  exists c, deliver (f_request e) rob cache (t_cache s) = Some c /\ q_num (x_result_fifo c) = q_num (x_result_fifo (t_cache s)) + 1 /\
    tex_inv_ex (mkTexState c (t_next s) (t_memory s) (t_accepted s) (t_returned s)).
Proof.
  intros Hi Hfull Hrob Hlen Hp Hr Hout Hidx. unfold deliver. pose proof (xv_res _ _ _ _ _ Hi) as Hres.
  rewrite (full_spec _ _ Hres) in Hfull. apply bool_decide_eq_false in Hfull. pose proof (fq_room _ _ Hres).
  destruct (push_spec (f_request e) _ _ Hres) as (q & -> & Hq & _); [lia|]. cbn.
  destruct (pop_spec _ _ _ (xv_frags _ _ _ _ _ Hi)) as (q' & -> & Hq' & _). cbn. eexists. split; [done|]. cbn. split.
  - rewrite (fq_num _ _ Hq), (fq_num _ _ Hres), length_app. cbn. lia.
  - exists frags, reqs, robs, (res ++ [f_request e]). destruct Hi. split; cbn; try done.
    + congruence.
    + intros e' He'. apply xv_zero0. set_solver.
    + rewrite xv_order0. cbn. by rewrite <-app_assoc.
Qed.

Lemma tex_read_ok s : tex_inv_ex s -> exists c, read_line cfg (t_cache s) = Some c /\
  tex_inv_ex (mkTexState c (t_next s) (t_memory s) (t_accepted s) (t_returned s)) /\
  (t_memory s = [] -> empty (x_request_fifo (t_cache s)) = true -> empty (x_fragment_fifo (t_cache s)) = false ->
   full (x_result_fifo (t_cache s)) = false -> q_num (x_result_fifo c) = q_num (x_result_fifo (t_cache s)) + 1).
Proof.
  intros (frags & reqs & robs & res & Hi). unfold read_line. pose proof (xv_frags _ _ _ _ _ Hi) as Hf.
  assert (tex_inv_ex (mkTexState (t_cache s) (t_next s) (t_memory s) (t_accepted s) (t_returned s))) as Hsame.
  { exists frags, reqs, robs, res. by destruct Hi. }
  destruct (full (x_result_fifo (t_cache s))) eqn:Hfull; [rewrite orb_true_r; eexists; split; [done|]; by split|]. rewrite orb_false_r.
  rewrite (empty_spec _ _ Hf). destruct frags as [|e frags]; cbn; [eexists; split; [done|]; by split|]. rewrite (peek_spec _ _ _ Hf). cbn.
  pose proof (xv_plays _ _ _ _ _ Hi) as (b & Hb & Hp). unfold blk in Hb. apply fmap_Some in Hb as (f & Hfe & Hb). rewrite Hfe. cbn. rewrite <-Hb.
  pose proof (xv_rob _ _ _ _ _ Hi) as Hr. unfold misses in Hr. destruct (f_miss e) eqn:Hm.
  - rewrite filter_cons_True in Hr by done. inversion Hr as [|? r ? robs' (Hr1 & Hr2 & Hr3) Hr']; subst. fold (misses frags) in Hr'.
    pose proof (xv_robs _ _ _ _ _ Hi) as Hq. rewrite (next_pop_spec _ _ _ Hq). rewrite (peek_at_spec _ _ 0 r Hq) by done. cbn.
    rewrite bool_decide_true by done. unfold blk in Hr3. rewrite Hfe in Hr3. injection Hr3 as Hr3. rewrite Hr3, Z.eqb_refl.
    destruct (r_ready r) eqn:Hready.
    + rewrite bool_decide_true by done. destruct Hp as [Hlt Hp].
      destruct (lookup_lt_is_Some_2 (x_cache (t_cache s)) (r_index r)) as [d ->]; [by rewrite Hr2|]. cbn.
      destruct (pop_spec _ _ _ Hq) as (rob & -> & Hrob & _ & Hslot). cbn.
      assert (forall k mf, waits_memory (r :: robs') k mf -> exists k', k = S k' /\ waits_memory robs' k' mf) as Hw.
      { intros [|k] mf (r0 & Hr0 & ? & ?); [cbn in Hr0; congruence|]. exists k. split; [done|]. by exists r0. }
      edestruct (deliver_ok s e frags reqs (r :: robs') robs' res rob (<[r_index r := mkData true (r_block_addr r)]> (x_cache (t_cache s))) Hi Hfull Hrob)
        as (c & -> & Hn & Hi'); [by rewrite length_insert|by rewrite Hr2, <-Hr3|done| | |by eauto].
      * intros mf. rewrite (xv_out _ _ _ _ _ Hi). split; [intros (k & Hk)|intros (k & r0 & Hk)].
        -- destruct (Hw _ _ Hk) as (k' & _ & ?). by exists k'.
        -- exists (S k), r0. done.
      * intros k mf Hk. rewrite Hslot. apply (xv_index _ _ _ _ _ Hi). done.
    + eexists. split; [done|]. split; [done|]. intros Hmem Hreq _ _. exfalso.
      assert (f_request e ∈ reqs ++ t_memory s) as Hin.
      { apply (xv_out _ _ _ _ _ Hi). exists 0%nat, r. done. }
      rewrite (empty_spec _ _ (xv_reqs _ _ _ _ _ Hi)) in Hreq. apply bool_decide_eq_true in Hreq. rewrite Hreq, Hmem in Hin. by apply not_elem_of_nil in Hin.
  - rewrite filter_cons_False in Hr by (by rewrite Hm). fold (misses frags) in Hr. destruct Hp as [Hd Hp]. rewrite Hd. cbn.
    destruct (Z.eqb_spec b 0) as [->|_]; [exfalso; apply (xv_zero _ _ _ _ _ Hi e); [set_solver|unfold blk; rewrite Hfe; cbn; congruence]|]. cbn.
    rewrite list_insert_id by done.
    edestruct (deliver_ok s e frags reqs robs robs res (x_rob (t_cache s)) (x_cache (t_cache s)) Hi Hfull) as (c & -> & Hn & Hi');
      [by apply Hi|done|done|done|by apply Hi|by apply Hi|by eauto].
Qed.
Lemma tex_fill_ok s mf time : tex_inv_ex s -> mf ∈ t_memory s -> exists s', tex_step (TexFill mf time) s = Some s' /\ tex_inv_ex s'.
Proof using.
  clear Hcfg Hon.
  intros (frags & reqs & robs & res & Hi) Hmf. cbn. unfold tex_fill. pose proof (xv_robs _ _ _ _ _ Hi) as Hq.
  destruct (proj1 (xv_out _ _ _ _ _ Hi mf)) as (k & Hk); [set_solver|]. rewrite (xv_index _ _ _ _ _ Hi _ _ Hk). cbn [mbind option_bind].
  pose proof Hk as (r & Hr & Hready & <-). pose proof (lookup_lt_Some _ _ _ Hr) as Hlt.
  rewrite (empty_spec _ _ Hq), bool_decide_false by by (destruct robs). cbn [negb].
  rewrite (peek_at_spec _ _ _ _ Hq Hr). cbn [mbind option_bind]. rewrite Hready. cbn [negb].
  destruct (store_spec _ _ k (rob_ready time r) Hq Hlt) as (rob & -> & Hrob & Hsize & Htail). cbn [mbind option_bind].
  destruct (Forall2_lookup_r _ _ _ _ _ (xv_rob _ _ _ _ _ Hi) Hr) as (e & He & Hre & Hie & Hb). rewrite <-Hre in Hb.
  pose proof Hb as Hb'. unfold blk in Hb'. apply fmap_Some in Hb' as (f & -> & ->). cbn. rewrite Z.eqb_refl. eexists. split; [done|].
  assert (forall j id, waits_memory (<[k := rob_ready time r]> robs) j id <-> j <> k /\ waits_memory robs j id) as Hw.
  { intros j id. split.
    - intros (r0 & [(-> & <- & _)|[? Hj]]%list_lookup_insert_Some & H1 & H2); [done|]. split; [done|]. by exists r0.
    - intros [Hne (r0 & Hj & ?)]. exists r0. by rewrite list_lookup_insert_ne. }
  exists frags, reqs, (<[k := rob_ready time r]> robs), res. pose proof (fun j id => waits_unique _ _ _ _ _ j k id Hi) as Huniq.
  pose proof (xv_sent _ _ _ _ _ Hi) as Hnd. apply NoDup_app in Hnd as (Hn1 & Hn2 & Hn3).
  destruct Hi. split; cbn; try done.
  - rewrite <-(list_insert_id (misses frags) k e He). apply Forall2_insert; [done|]. split; [done|]. split; [done|]. by rewrite <-Hre.
  - apply NoDup_app. split; [done|]. split; [|by apply NoDup_filter]. intros id Hin [_ ?]%list_elem_of_filter. by eapply Hn2.
  - intros id. transitivity (id ∈ reqs ++ t_memory s /\ id <> r_request r).
    + rewrite !elem_of_app, list_elem_of_filter. split; [intros [?|[??]]|intros [[?|?] ?]]; auto. split; [by left|]. intros ->. by eapply Hn2.
    + rewrite xv_out0. split.
      * intros [(j & Hj) Hne]. exists j. apply Hw. split; [|done]. intros ->. destruct Hj as (r0 & ? & _ & <-). congruence.
      * intros (j & [Hne Hj]%Hw). split; [by exists j|]. intros ->. by apply Hne, (Huniq j (r_request r)).
  - intros j id [_ Hj]%Hw. rewrite (xv_index0 _ _ Hj). unfold slot. by rewrite Hsize, Htail.
Qed.

Lemma with_fetch_inv s f frags reqs robs res : tex_inv s frags reqs robs res ->
  tex_inv (mkTexState (with_fetch (t_next s) f (t_cache s)) (S (t_next s)) (t_memory s) (t_accepted s) (t_returned s)) frags reqs robs res.
Proof.
  intros Hi. assert (forall e, e ∈ frags -> blk (<[t_next s := f]> (x_fetches (t_cache s))) (f_request e) = blk (x_fetches (t_cache s)) (f_request e)) as Hext.
  { intros e He. unfold blk. rewrite lookup_insert_ne; [done|]. pose proof (xv_next _ _ _ _ _ Hi _ (frag_accepted _ _ _ _ _ _ Hi He)). lia. }
  destruct Hi. split; cbn; try done.
  - by eapply plays_ext.
  - eapply rob_ext; done.
  - intros e He. rewrite Hext by done. by apply xv_zero0.
  - intros id Hid. specialize (xv_next0 id Hid). lia.
Qed.
(** A new fetch is taken. *)
Definition fresh s id : Prop := (id ∉ t_accepted s) /\ (id < t_next s)%nat.
Lemma accept_order s frags reqs robs res id : tex_inv s frags reqs robs res -> fresh s id ->
  NoDup (t_accepted s ++ [id]) /\ (forall x, x ∈ t_accepted s ++ [id] -> (x < t_next s)%nat) /\
  forall e, f_request e = id -> t_accepted s ++ [id] = t_returned s ++ res ++ map f_request (frags ++ [e]).
Proof.
  intros Hi [Hnew Hid]. split; [|split].
  - apply NoDup_app. split; [apply Hi|]. split; [set_solver|apply NoDup_singleton].
  - intros x [Hx| ->%list_elem_of_singleton]%elem_of_app; [by apply (xv_next _ _ _ _ _ Hi)|done].
  - intros e <-. rewrite (xv_order _ _ _ _ _ Hi), map_app. cbn. by rewrite <-!app_assoc.
Qed.
Lemma accept_zero b0 frags e b : (forall e0, e0 ∈ frags -> b0 (f_request e0) <> Some 0) -> b0 (f_request e) = Some b -> b <> 0 ->
  forall e0, e0 ∈ frags ++ [e] -> b0 (f_request e0) <> Some 0.
Proof. intros Hz He Hb e0 [?| ->%list_elem_of_singleton]%elem_of_app; [by apply Hz|]. congruence. Qed.

Lemma accept_hit s frags reqs robs res id i b old line t2 qf n : tex_inv s frags reqs robs res -> fresh s id ->
  blk (x_fetches (t_cache s)) id = Some b -> b <> 0 ->
  m_lines (x_tags (t_cache s)) !! i = Some old -> m_status old = VALID -> m_block_addr old = b ->
  m_lines t2 = <[i := line]> (m_lines (x_tags (t_cache s))) -> m_status line = VALID -> m_block_addr line = b ->
  tags_inv cfg t2 -> settled (m_lines t2) -> is_queue qf (frags ++ [mkFragment id i false n]) ->
  tex_inv (mkTexState (mkTex t2 qf (x_request_fifo (t_cache s)) (x_rob (t_cache s)) (x_cache (t_cache s)) (x_result_fifo (t_cache s))
      (x_rob_index (t_cache s)) (x_fetches (t_cache s))) (t_next s) (t_memory s) (t_accepted s ++ [id]) (t_returned s))
    (frags ++ [mkFragment id i false n]) reqs robs res.
Proof.
  intros Hi Hfresh Hb Hz Hold Hvo Hbo Hls Hv Hbl Ht Hset Hq. destruct (accept_order _ _ _ _ _ _ Hi Hfresh) as (Hn1 & Hn2 & Ho).
  destruct Hi. split; cbn; try done.
  - by rewrite Hls, length_insert.
  - rewrite Hls. apply (plays_hit _ _ _ old); cbn; congruence.
  - unfold misses. rewrite filter_app, filter_cons_False by done. by rewrite app_nil_r.
  - by eapply accept_zero.
  - by apply Ho.
Qed.
Lemma accept_miss s frags reqs robs res id i b f line t2 qf qr qb n m : tex_inv s frags reqs robs res -> fresh s id ->
  x_fetches (t_cache s) !! id = Some f -> block_addr cfg (f_addr f) = b -> b <> 0 -> (i < length (m_lines (x_tags (t_cache s))))%nat ->
  m_lines t2 = <[i := line]> (m_lines (x_tags (t_cache s))) -> m_status line = VALID -> m_block_addr line = b ->
  tags_inv cfg t2 -> settled (m_lines t2) -> is_queue qf (frags ++ [mkFragment id i true n]) -> is_queue qr (reqs ++ [id]) ->
  is_queue qb (robs ++ [rob_entry_new i id b]) -> q_size qb = q_size (x_rob (t_cache s)) -> q_tail qb = q_tail (x_rob (t_cache s)) ->
  tex_inv (mkTexState (mkTex t2 qf qr qb (x_cache (t_cache s)) (x_result_fifo (t_cache s))
      (<[id := slot (x_rob (t_cache s)) (length robs)]> (x_rob_index (t_cache s))) (<[id := set_data_size m f]> (x_fetches (t_cache s))))
      (t_next s) (t_memory s) (t_accepted s ++ [id]) (t_returned s))
    (frags ++ [mkFragment id i true n]) (reqs ++ [id]) (robs ++ [rob_entry_new i id b]) res.
Proof.
  intros Hi Hfresh Hf Hb Hz Hlt Hls Hv Hbl Ht Hset Hqf Hqr Hqb Hsz Htl. destruct (accept_order _ _ _ _ _ _ Hi Hfresh) as (Hn1 & Hn2 & Ho).
  assert (forall x, blk (<[id := set_data_size m f]> (x_fetches (t_cache s))) x = blk (x_fetches (t_cache s)) x) as Hext.
  { intros x. unfold blk. destruct (decide (x = id)) as [->|]; [by rewrite lookup_insert_eq, Hf|by rewrite lookup_insert_ne]. }
  assert (blk (x_fetches (t_cache s)) id = Some b) as Hid by (unfold blk; rewrite Hf; cbn; congruence).
  set (e := mkFragment id i true n) in *. set (r := rob_entry_new i id b) in *.
  assert (forall k x, waits_memory (robs ++ [r]) k x <-> waits_memory robs k x \/ k = length robs /\ x = id) as Hw.
  { intros k x. split.
    - intros (r0 & [Hk|[Hge Hk]]%lookup_app_Some & H1 & H2); [left; by exists r0|right].
      destruct (k - length robs)%nat eqn:Hd; [|done]. injection Hk as <-. split; [lia|done].
    - intros [(r0 & Hk & ?)|[-> ->]]; [exists r0; split; [by apply lookup_app_l_Some|done]|]. exists r. by rewrite list_lookup_middle. }
  assert (id ∉ reqs ++ t_memory s) as Hout.
  { intros (k & Hk)%(xv_out _ _ _ _ _ Hi). destruct (waits_request _ _ _ _ _ _ _ Hi Hk) as (e0 & He0 & <- & _).
    destruct Hfresh as [Hnew _]. by apply Hnew, (frag_accepted _ _ _ _ _ _ Hi He0). }
  destruct Hi. split; cbn; try done.
  - by rewrite Hls, length_insert.
  - apply (plays_ext (blk (x_fetches (t_cache s)))); [by intros|]. rewrite Hls. by apply (plays_miss _ _ line e b frags Hv Hbl Hid eq_refl Hlt).
  - apply (rob_ext (blk (x_fetches (t_cache s)))); [by intros|]. unfold misses. rewrite filter_app, filter_cons_True by done.
    apply Forall2_app; [done|]. by repeat constructor.
  - intros e0 He0. rewrite Hext. revert e0 He0. by eapply accept_zero.
  - by apply Ho.
  - rewrite <-app_assoc, (Permutation_app_comm [id]), app_assoc. apply NoDup_app. split; [done|]. split; [set_solver|apply NoDup_singleton].
  - intros x. transitivity (x ∈ reqs ++ t_memory s \/ x = id); [set_solver|]. rewrite xv_out0. setoid_rewrite Hw. naive_solver.
  - intros k x [Hk|[-> ->]]%Hw.
    + rewrite lookup_insert_ne; [rewrite (xv_index0 _ _ Hk); unfold slot; congruence|]. intros <-. apply Hout, xv_out0. by exists k.
    + rewrite lookup_insert_eq. unfold slot. congruence.
Qed.

(** A request for a new fetch. *)
Lemma tex_access_fetch s f frags reqs robs res id time : tex_inv s frags reqs robs res -> fresh s id ->
  x_fetches (t_cache s) !! id = Some f ->
  f_data_size f <= m_line_sz cfg -> 0 <= f_addr f -> time_ok time -> block_addr cfg (f_addr f) <> 0 ->
  exists st ev c, tex_access cfg id time [] (t_cache s) = Some (st, ev, c) /\
    tex_inv_ex (mkTexState c (t_next s) (t_memory s) (t_accepted s ++ (if bool_decide (st = RESERVATION_FAIL) then [] else [id])) (t_returned s)).
Proof using Hcfg Hon get_ctrl_size.
  intros Hi Hfresh Hf Hsz Ha Htime Hzero. unfold tex_access.
  destruct (full (x_fragment_fifo (t_cache s)) || full (x_request_fifo (t_cache s)) || full (x_rob (t_cache s))) eqn:Hfull.
  { eexists _, _, _. split; [done|]. cbn. rewrite app_nil_r. exists frags, reqs, robs, res. by destruct Hi. }
  apply orb_false_iff in Hfull as [[Hff Hfr]%orb_false_iff Hfb]. rewrite Hf. cbn [mbind option_bind]. rewrite (proj2 (Z.leb_le _ _) Hsz).
  destruct (settled_access cfg Hcfg Hon (x_tags (t_cache s)) (block_addr cfg (f_addr f)) time) as
    (st & i & t1 & t2 & line & -> & Hlt & Hst & Hls & Hv & Hbl & Ht2 & Hset); [apply Hi|apply Hi|by apply (block_addr_aligned cfg Hcfg)|done|].
  cbn [mbind option_bind]. pose proof (xv_frags _ _ _ _ _ Hi) as Hqf. pose proof (fq_room _ _ Hqf).
  rewrite (full_spec _ _ Hqf) in Hff. apply bool_decide_eq_false in Hff.
  destruct Hst as [[-> Hfill]|(-> & -> & old & Hold & Hvo & Hbo)]; cbn [bool_decide].
  - rewrite !bool_decide_true by done.
    pose proof (xv_robs _ _ _ _ _ Hi) as Hqb. pose proof (fq_room _ _ Hqb). rewrite (full_spec _ _ Hqb) in Hfb. apply bool_decide_eq_false in Hfb.
    pose proof (xv_reqs _ _ _ _ _ Hi) as Hqr. pose proof (fq_room _ _ Hqr). rewrite (full_spec _ _ Hqr) in Hfr. apply bool_decide_eq_false in Hfr.
    destruct (push_spec (mkFragment id i true (f_data_size f)) _ _ Hqf) as (qf & -> & Hqf' & _); [lia|].
    destruct (push_spec (rob_entry_new i id (block_addr cfg (f_addr f))) _ _ Hqb) as (qb & -> & Hqb' & Hsb & Htb); [lia|].
    destruct (push_spec id _ _ Hqr) as (qr & Hpr & Hqr' & _); [lia|]. cbn [mbind option_bind]. rewrite Hfill. cbn [mbind option_bind]. rewrite Hpr.
    eexists _, _, _. split; [done|]. rewrite bool_decide_false by done. eexists _, _, _, _. by apply (accept_miss s frags reqs robs res id i (block_addr cfg (f_addr f)) f line).
  - destruct (push_spec (mkFragment id i false (f_data_size f)) _ _ Hqf) as (qf & Hpush & Hqf' & _); [lia|].
    rewrite !bool_decide_true, (bool_decide_false (HIT = MISS)) by done. rewrite Hpush. eexists _, _, _. split; [done|]. eexists _, _, _, _.
    eapply accept_hit; try done. unfold blk. by rewrite Hf.
Qed.
Lemma tex_access_ok s f time : tex_inv_ex s -> tex_allowed (TexAccess f time) s ->
  exists s', tex_step (TexAccess f time) s = Some s' /\ tex_inv_ex s'.
Proof using Hcfg Hon.
  intros (frags & reqs & robs & res & Hi) (Hsz & Ha & Htime & Hz). cbn.
  destruct (tex_access_fetch _ f _ _ _ _ (t_next s) time (with_fetch_inv s f _ _ _ _ Hi)) as (st & ev & c & Hacc & Hi'); try done.
  - split; cbn; [|lia]. intros Hin%(xv_next _ _ _ _ _ Hi). lia.
  - cbn. by rewrite lookup_insert_eq.
  - cbn in Hacc, Hi'. rewrite Hacc. by eexists.
Qed.
Lemma tex_cycle_ok s port : tex_inv_ex s -> exists s', tex_step (TexCycle port) s = Some s' /\ tex_inv_ex s' /\
  (t_memory s = [] -> empty (x_request_fifo (t_cache s)) = true -> empty (x_fragment_fifo (t_cache s)) = false ->
   full (x_result_fifo (t_cache s)) = false -> q_num (x_result_fifo (t_cache s')) = q_num (x_result_fifo (t_cache s)) + 1).
Proof.
  intros Hi. cbn. unfold tex_cycle. destruct (tex_send_ok port s Hi) as (sent & c & -> & Hi' & Hf & Hr & Hsame). cbn.
  destruct (tex_read_ok _ Hi') as (c' & Hc' & Hi'' & Hn). cbn in *. rewrite Hc'. cbn. eexists. split; [done|]. split; [done|].
  cbn. intros Hmem Hreq Hfr Hres. destruct (Hsame Hreq) as [-> ->]. by apply Hn.
Qed.

Lemma tex_step_ok s m : tex_inv_ex s -> tex_allowed m s -> exists s', tex_step m s = Some s' /\ tex_inv_ex s'.
Proof using Hcfg Hon.
  intros Hi Hall. destruct m as [f time|port|mf time|].
  - by apply tex_access_ok.
  - destruct (tex_cycle_ok s port Hi) as (s' & ? & ? & _). by exists s'.
  - by apply tex_fill_ok.
  - by apply tex_next_ok.
Qed.

Definition tex_start : option tex_state :=
  c ← tex_cache_new cfg results; Some (mkTexState c 0 [] [] []).
Inductive tex_runs : tex_state -> Prop :=
  | tex_runs_start s : tex_start = Some s -> tex_runs s
  | tex_runs_step s m s' : tex_runs s -> tex_allowed m s -> tex_step m s = Some s' -> tex_runs s'.
End system.

(** A texture cache: what its constructor asserts, a geometry of powers of two, and fifos
    whose sizes an [unsigned] holds. *)
Record tex_ok (cfg : cache_config) (results : Z) : Prop := {
  to_config : config_ok cfg;
  to_alloc : m_alloc_policy cfg = ON_MISS;
  to_policy : m_write_policy cfg = READ_ONLY;
  to_sizes : forall n, n ∈ [m_fragment_fifo_entries cfg; m_request_fifo_entries cfg; m_rob_entries cfg; results] -> 0 <= n < 2 ^ 32 }.

Lemma tex_start_ok cfg results : tex_ok cfg results -> exists s, tex_start cfg results = Some s /\ tex_inv_ex cfg s.
Proof.
  intros [Hcfg Hon Hro Hsz]. unfold tex_start, tex_cache_new. rewrite !bool_decide_true by done. cbn. eexists. split; [done|].
  exists [], [], [], []. split; cbn; try done; try (apply new_queue, Hsz; set_solver).
  - by apply tag_array_new_inv.
  - intros i line [-> _]%lookup_replicate. by right.
  - by rewrite !length_replicate.
  - intros i line [-> _]%lookup_replicate. done.
  - constructor.
  - by intros e He%not_elem_of_nil.
  - constructor.
  - intros mf. split; [by intros He%not_elem_of_nil|]. by intros (k & r & Hr & _).
  - by intros k mf (r & Hr & _).
Qed.
Lemma tex_runs_inv cfg results ctl s : tex_ok cfg results -> tex_runs cfg results ctl s -> tex_inv_ex cfg s.
Proof.
  intros Hok. induction 1 as [s Hs|s m s' _ IH Hm Hs].
  - destruct (tex_start_ok cfg results Hok) as (s0 & ? & ?). congruence.
  - destruct (tex_step_ok cfg ctl (to_config _ _ Hok) (to_alloc _ _ Hok) s m IH Hm) as (s1 & Hs1 & ?). congruence.
Qed.

(** C21: The texture cache answers in order. In every run in which no fetch is for block 0,
    whatever the order in which memory answers, no assertion fails; the
    fetches come out in the order they were taken; a fragment that hit finds its block in its
    line when its turn comes, although the line may have been taken since; and when memory
    has answered everything, each cycle moves the oldest fragment to the results, if they
    have room. *)
Theorem tex_cache_in_order cfg results ctl s : tex_ok cfg results -> tex_runs cfg results ctl s ->
  (forall m, tex_allowed cfg m s -> exists s', tex_step cfg ctl m s = Some s' /\ tex_runs cfg results ctl s') /\
  NoDup (t_accepted s) /\ (exists rest, t_accepted s = t_returned s ++ rest) /\
  (forall e, peek (x_fragment_fifo (t_cache s)) = Some e -> empty (x_fragment_fifo (t_cache s)) = false -> f_miss e = false ->
     exists f, x_fetches (t_cache s) !! f_request e = Some f /\
       x_cache (t_cache s) !! f_cache_index e = Some (mkData true (block_addr cfg (f_addr f)))) /\
  (forall port, t_memory s = [] -> empty (x_request_fifo (t_cache s)) = true -> empty (x_fragment_fifo (t_cache s)) = false ->
     full (x_result_fifo (t_cache s)) = false ->
     exists s', tex_step cfg ctl (TexCycle port) s = Some s' /\ q_num (x_result_fifo (t_cache s')) = q_num (x_result_fifo (t_cache s)) + 1).
Proof.
  intros Hok Hruns. pose proof (tex_runs_inv _ _ _ _ Hok Hruns) as Hex. pose proof Hex as (frags & reqs & robs & res & Hi).
  split; [|split; [apply Hi|split; [|split]]].
  - intros m Hm. destruct (tex_step_ok cfg ctl (to_config _ _ Hok) (to_alloc _ _ Hok) s m Hex Hm) as (s' & Hs & _). exists s'. split; [done|].
    by eapply tex_runs_step.
  - eexists. apply (xv_order _ _ _ _ _ _ Hi).
  - intros e He Hempty Hm. pose proof (xv_frags _ _ _ _ _ _ Hi) as Hq. rewrite (empty_spec _ _ Hq) in Hempty.
    destruct frags as [|e' frags]; [done|]. rewrite (peek_spec _ _ _ Hq) in He. injection He as ->.
    destruct (xv_plays _ _ _ _ _ _ Hi) as (b & Hb & Hp). rewrite Hm in Hp. unfold blk in Hb. apply fmap_Some in Hb as (f & Hf & ->).
    exists f. split; [done|]. apply Hp.
  - intros port Hmem Hreq Hf Hres. destruct (tex_cycle_ok cfg ctl (to_config _ _ Hok) (to_alloc _ _ Hok) s port Hex) as (s' & Hs & _ & Hn). exists s'. split; [done|]. by apply Hn.
Qed.

(** The texture cache of a GTX 480, and a run: two blocks are asked for, the first again; the
    answers come in the other order. *)
Definition fermi_L1T : cache_config := cache_config_init 4 128 24 LRU READ_ONLY ON_MISS NO_WRITE_ALLOCATE 128 4 128.
Lemma fermi_L1T_ok : tex_ok fermi_L1T 2.
Proof.
  split; [split; vm_compute; try split; congruence|done..|]. intros n Hn. cbn in Hn.
  repeat (apply elem_of_cons in Hn as [->|Hn]; [by vm_compute|]). by apply not_elem_of_nil in Hn.
Qed.
Definition texture_of (addr : Z) : mem_fetch := mkFetch addr 32 false TEXTURE_ACC_R false.
Definition port_open : Z -> bool -> bool := fun _ _ => false.
Fixpoint tex_run cfg ctl (ms : list tex_move) (s : tex_state) : option tex_state :=
  match ms with [] => Some s | m :: ms => s ← tex_step cfg ctl m s; tex_run cfg ctl ms s end.
Fixpoint tex_all_allowed cfg ctl (ms : list tex_move) (s : tex_state) : Prop :=
  match ms with [] => True | m :: ms => tex_allowed cfg m s /\ forall s', tex_step cfg ctl m s = Some s' -> tex_all_allowed cfg ctl ms s' end.
Lemma tex_run_runs cfg results ctl ms : forall s s', tex_runs cfg results ctl s -> tex_all_allowed cfg ctl ms s ->
  tex_run cfg ctl ms s = Some s' -> tex_runs cfg results ctl s'.
Proof.
  induction ms as [|m ms IH]; intros s s' Hr Ha Hs; cbn in *; [by injection Hs as <-|]. destruct Ha as [Hm Ha].
  destruct (tex_step cfg ctl m s) as [s1|] eqn:H1; [|done]. apply (IH s1); [by eapply tex_runs_step|by apply Ha|done].
Qed.

Definition tex_example : list tex_move :=
  [TexAccess (texture_of 0x1000) 1; TexAccess (texture_of 0x2000) 2; TexAccess (texture_of 0x1040) 3;
   TexCycle port_open; TexCycle port_open; TexFill 1 4; TexFill 0 5; TexCycle port_open; TexNext; TexCycle port_open; TexCycle port_open].
Definition tex_zero : list tex_move :=
  [TexAccess (texture_of 0) 1; TexAccess (texture_of 64) 2; TexCycle port_open; TexFill 0 3; TexCycle port_open].
Definition no_ctl : nat -> Z := fun _ => 8.

(** C22: A texture fetch for block 0 that hits stops the simulator: the assertion that should
    compare the address the line holds with the block's assigns it instead. After two fetches
    for block 0, the answer to the first and its delivery, [cycle] fails. *)
Theorem tex_zero_hit_fails : exists s0 s, tex_start fermi_L1T 2 = Some s0 /\ tex_run fermi_L1T no_ctl tex_zero s0 = Some s /\
  t_accepted s = [0; 1]%nat /\ t_memory s = [] /\
  forall port, tex_step fermi_L1T no_ctl (TexCycle port) s = None.
Proof.
  destruct (tex_start fermi_L1T 2) as [s0|] eqn:H0; [|by vm_compute in H0]. exists s0. injection H0 as <-.
  eexists. split; [done|]. split; [vm_compute; reflexivity|]. split; [reflexivity|]. split; [reflexivity|].
  intros port. reflexivity.
Qed.

Definition tex_begin : tex_state := default (mkTexState (mkTex (tag_array_new fermi_L1T) (fifo_new 0) (fifo_new 0) (fifo_new 0) [] (fifo_new 0) ∅ ∅) 0 [] [] []) (tex_start fermi_L1T 2).
Definition tex_example_state : tex_state := default tex_begin (tex_run fermi_L1T no_ctl tex_example tex_begin).
Lemma texture_allowed addr time s : 0 <= addr -> time_ok time -> block_addr fermi_L1T addr <> 0 -> tex_allowed fermi_L1T (TexAccess (texture_of addr) time) s.
Proof. intros Ha Ht Hb. split; [vm_compute; congruence|]. by split. Qed.
Ltac tex_allow_move :=
  lazymatch goal with
  | |- tex_allowed _ (TexAccess _ _) _ => apply texture_allowed; [lia|unfold time_ok; lia|vm_compute; congruence]
  | |- tex_allowed _ (TexCycle _) _ => exact I
  | |- tex_allowed _ (TexFill _ _) _ => cbn [tex_allowed t_memory]; apply (bool_decide_unpack _); vm_compute; exact I
  | |- tex_allowed _ TexNext _ => reflexivity
  end.
Ltac tex_allow_moves :=
  repeat lazymatch goal with
  | |- tex_all_allowed _ _ (_ :: _) _ => split; [tex_allow_move|let s' := fresh "s" in let Hs := fresh in intros s' Hs; vm_compute in Hs; injection Hs as <-]
  | |- tex_all_allowed _ _ [] _ => exact I
  end.
Lemma tex_example_allowed : tex_all_allowed fermi_L1T no_ctl tex_example tex_begin.
Proof. unfold tex_example. tex_allow_moves. Qed.
Lemma tex_example_runs : tex_runs fermi_L1T 2 no_ctl tex_example_state.
Proof. apply (tex_run_runs fermi_L1T 2 no_ctl tex_example tex_begin); [by constructor|apply tex_example_allowed|vm_compute; reflexivity]. Qed.

Lemma tex_cache_in_order_witness : t_returned tex_example_state = [0%nat] /\ t_accepted tex_example_state = [0; 1; 2]%nat /\
  (forall m, tex_allowed fermi_L1T m tex_example_state ->
     exists s', tex_step fermi_L1T no_ctl m tex_example_state = Some s' /\ tex_runs fermi_L1T 2 no_ctl s').
Proof. split; [reflexivity|]. split; [reflexivity|]. apply (tex_cache_in_order fermi_L1T 2 no_ctl tex_example_state fermi_L1T_ok tex_example_runs). Defined.
