(* ===== verification/MessageSize.v ===== *)
(** Message sizes: the enumeration [MessageSizeType] of [protocols/RubySlicc_Exports.sm] and its
    conversions in [network/Network.h]. *)
From S2P Require Import Prelude.

Inductive MessageSizeType :=
  | MessageSizeType_Undefined | MessageSizeType_Control | MessageSizeType_Data | MessageSizeType_Request_Control
  | MessageSizeType_Reissue_Control | MessageSizeType_Response_Data | MessageSizeType_ResponseL2hit_Data
  | MessageSizeType_ResponseLocal_Data | MessageSizeType_Response_Control | MessageSizeType_Writeback_Data
  | MessageSizeType_Writeback_Control | MessageSizeType_Forwarded_Control | MessageSizeType_Invalidate_Control
  | MessageSizeType_Unblock_Control | MessageSizeType_Persistent_Control | MessageSizeType_Completion_Control
  | MessageSizeType_Custom_8 | MessageSizeType_Custom_16 | MessageSizeType_Custom_24 | MessageSizeType_Custom_32
  | MessageSizeType_Custom_40 | MessageSizeType_Custom_48 | MessageSizeType_Custom_56 | MessageSizeType_Custom_64
  | MessageSizeType_Custom_72 | MessageSizeType_Custom_80 | MessageSizeType_Custom_88 | MessageSizeType_Custom_96
  | MessageSizeType_Custom_104 | MessageSizeType_Custom_112 | MessageSizeType_Custom_120 | MessageSizeType_Custom_128
  | MessageSizeType_Custom_136 | MessageSizeType_Custom_144 | MessageSizeType_Custom_152 | MessageSizeType_Custom_160
  | MessageSizeType_Custom_168 | MessageSizeType_Custom_176 | MessageSizeType_Custom_184 | MessageSizeType_Custom_192
  | MessageSizeType_Custom_200 | MessageSizeType_Custom_208 | MessageSizeType_Custom_216 | MessageSizeType_Custom_224
  | MessageSizeType_Custom_232 | MessageSizeType_Custom_240 | MessageSizeType_Custom_248 | MessageSizeType_Custom_256.
#[export] Instance MessageSizeType_eq_dec : EqDecision MessageSizeType.
Proof. solve_decision. Defined.

(** The enumerators in order, and the number of each. *)
Definition MessageSizeTypes : list MessageSizeType := [
  MessageSizeType_Undefined; MessageSizeType_Control; MessageSizeType_Data; MessageSizeType_Request_Control;
  MessageSizeType_Reissue_Control; MessageSizeType_Response_Data; MessageSizeType_ResponseL2hit_Data;
  MessageSizeType_ResponseLocal_Data; MessageSizeType_Response_Control; MessageSizeType_Writeback_Data;
  MessageSizeType_Writeback_Control; MessageSizeType_Forwarded_Control; MessageSizeType_Invalidate_Control;
  MessageSizeType_Unblock_Control; MessageSizeType_Persistent_Control; MessageSizeType_Completion_Control;
  MessageSizeType_Custom_8; MessageSizeType_Custom_16; MessageSizeType_Custom_24; MessageSizeType_Custom_32;
  MessageSizeType_Custom_40; MessageSizeType_Custom_48; MessageSizeType_Custom_56; MessageSizeType_Custom_64;
  MessageSizeType_Custom_72; MessageSizeType_Custom_80; MessageSizeType_Custom_88; MessageSizeType_Custom_96;
  MessageSizeType_Custom_104; MessageSizeType_Custom_112; MessageSizeType_Custom_120; MessageSizeType_Custom_128;
  MessageSizeType_Custom_136; MessageSizeType_Custom_144; MessageSizeType_Custom_152; MessageSizeType_Custom_160;
  MessageSizeType_Custom_168; MessageSizeType_Custom_176; MessageSizeType_Custom_184; MessageSizeType_Custom_192;
  MessageSizeType_Custom_200; MessageSizeType_Custom_208; MessageSizeType_Custom_216; MessageSizeType_Custom_224;
  MessageSizeType_Custom_232; MessageSizeType_Custom_240; MessageSizeType_Custom_248; MessageSizeType_Custom_256].
Definition MessageSizeType_NUM : nat := 48.
Definition size_number (t : MessageSizeType) : nat :=
  match t with
  | MessageSizeType_Undefined => 0 | MessageSizeType_Control => 1 | MessageSizeType_Data => 2
  | MessageSizeType_Request_Control => 3 | MessageSizeType_Reissue_Control => 4 | MessageSizeType_Response_Data => 5
  | MessageSizeType_ResponseL2hit_Data => 6 | MessageSizeType_ResponseLocal_Data => 7
  | MessageSizeType_Response_Control => 8 | MessageSizeType_Writeback_Data => 9
  | MessageSizeType_Writeback_Control => 10 | MessageSizeType_Forwarded_Control => 11
  | MessageSizeType_Invalidate_Control => 12 | MessageSizeType_Unblock_Control => 13
  | MessageSizeType_Persistent_Control => 14 | MessageSizeType_Completion_Control => 15
  | MessageSizeType_Custom_8 => 16 | MessageSizeType_Custom_16 => 17 | MessageSizeType_Custom_24 => 18
  | MessageSizeType_Custom_32 => 19 | MessageSizeType_Custom_40 => 20 | MessageSizeType_Custom_48 => 21
  | MessageSizeType_Custom_56 => 22 | MessageSizeType_Custom_64 => 23 | MessageSizeType_Custom_72 => 24
  | MessageSizeType_Custom_80 => 25 | MessageSizeType_Custom_88 => 26 | MessageSizeType_Custom_96 => 27
  | MessageSizeType_Custom_104 => 28 | MessageSizeType_Custom_112 => 29 | MessageSizeType_Custom_120 => 30
  | MessageSizeType_Custom_128 => 31 | MessageSizeType_Custom_136 => 32 | MessageSizeType_Custom_144 => 33
  | MessageSizeType_Custom_152 => 34 | MessageSizeType_Custom_160 => 35 | MessageSizeType_Custom_168 => 36
  | MessageSizeType_Custom_176 => 37 | MessageSizeType_Custom_184 => 38 | MessageSizeType_Custom_192 => 39
  | MessageSizeType_Custom_200 => 40 | MessageSizeType_Custom_208 => 41 | MessageSizeType_Custom_216 => 42
  | MessageSizeType_Custom_224 => 43 | MessageSizeType_Custom_232 => 44 | MessageSizeType_Custom_240 => 45
  | MessageSizeType_Custom_248 => 46 | MessageSizeType_Custom_256 => 47
  end%nat.

(** The size class of a number of bytes; more than 256 is an error. *)
Definition int_to_MessageSizeType (size : Z) : option MessageSizeType :=
  if size <=? 8 then Some MessageSizeType_Custom_8 else
  if size <=? 16 then Some MessageSizeType_Custom_16 else
  if size <=? 24 then Some MessageSizeType_Custom_24 else
  if size <=? 32 then Some MessageSizeType_Custom_32 else
  if size <=? 40 then Some MessageSizeType_Custom_40 else
  if size <=? 48 then Some MessageSizeType_Custom_48 else
  if size <=? 56 then Some MessageSizeType_Custom_56 else
  if size <=? 64 then Some MessageSizeType_Custom_64 else
  if size <=? 72 then Some MessageSizeType_Custom_72 else
  if size <=? 80 then Some MessageSizeType_Custom_80 else
  if size <=? 88 then Some MessageSizeType_Custom_88 else
  if size <=? 96 then Some MessageSizeType_Custom_96 else
  if size <=? 104 then Some MessageSizeType_Custom_104 else
  if size <=? 112 then Some MessageSizeType_Custom_112 else
  if size <=? 120 then Some MessageSizeType_Custom_120 else
  if size <=? 128 then Some MessageSizeType_Custom_128 else
  if size <=? 136 then Some MessageSizeType_Custom_136 else
  if size <=? 144 then Some MessageSizeType_Custom_144 else
  if size <=? 152 then Some MessageSizeType_Custom_152 else
  if size <=? 160 then Some MessageSizeType_Custom_160 else
  if size <=? 168 then Some MessageSizeType_Custom_168 else
  if size <=? 176 then Some MessageSizeType_Custom_176 else
  if size <=? 184 then Some MessageSizeType_Custom_184 else
  if size <=? 192 then Some MessageSizeType_Custom_192 else
  if size <=? 200 then Some MessageSizeType_Custom_200 else
  if size <=? 208 then Some MessageSizeType_Custom_208 else
  if size <=? 216 then Some MessageSizeType_Custom_216 else
  if size <=? 224 then Some MessageSizeType_Custom_224 else
  if size <=? 232 then Some MessageSizeType_Custom_232 else
  if size <=? 240 then Some MessageSizeType_Custom_240 else
  if size <=? 248 then Some MessageSizeType_Custom_248 else
  if size <=? 256 then Some MessageSizeType_Custom_256 else
  None.

Section sizes.
(** [Network::DATA_MESSAGE_SIZE], set from the configuration. *)
Variable DATA_MESSAGE_SIZE : Z.
Definition CONTROL_MESSAGE_SIZE : Z := 8.
Definition MessageSizeType_to_int (size_type : MessageSizeType) : option Z :=
  match size_type with
  | MessageSizeType_Undefined => None
  | MessageSizeType_Control | MessageSizeType_Request_Control | MessageSizeType_Reissue_Control
  | MessageSizeType_Response_Control | MessageSizeType_Writeback_Control | MessageSizeType_Forwarded_Control
  | MessageSizeType_Invalidate_Control | MessageSizeType_Unblock_Control | MessageSizeType_Persistent_Control
  | MessageSizeType_Completion_Control
    => Some CONTROL_MESSAGE_SIZE
  | MessageSizeType_Data | MessageSizeType_Response_Data | MessageSizeType_ResponseLocal_Data
  | MessageSizeType_ResponseL2hit_Data | MessageSizeType_Writeback_Data
    => Some (s32 (DATA_MESSAGE_SIZE + CONTROL_MESSAGE_SIZE))
  | MessageSizeType_Custom_8 => Some 8
  | MessageSizeType_Custom_16 => Some 16
  | MessageSizeType_Custom_24 => Some 24
  | MessageSizeType_Custom_32 => Some 32
  | MessageSizeType_Custom_40 => Some 40
  | MessageSizeType_Custom_48 => Some 48
  | MessageSizeType_Custom_56 => Some 56
  | MessageSizeType_Custom_64 => Some 64
  | MessageSizeType_Custom_72 => Some 72
  | MessageSizeType_Custom_80 => Some 80
  | MessageSizeType_Custom_88 => Some 88
  | MessageSizeType_Custom_96 => Some 96
  | MessageSizeType_Custom_104 => Some 104
  | MessageSizeType_Custom_112 => Some 112
  | MessageSizeType_Custom_120 => Some 120
  | MessageSizeType_Custom_128 => Some 128
  | MessageSizeType_Custom_136 => Some 136
  | MessageSizeType_Custom_144 => Some 144
  | MessageSizeType_Custom_152 => Some 152
  | MessageSizeType_Custom_160 => Some 160
  | MessageSizeType_Custom_168 => Some 168
  | MessageSizeType_Custom_176 => Some 176
  | MessageSizeType_Custom_184 => Some 184
  | MessageSizeType_Custom_192 => Some 192
  | MessageSizeType_Custom_200 => Some 200
  | MessageSizeType_Custom_208 => Some 208
  | MessageSizeType_Custom_216 => Some 216
  | MessageSizeType_Custom_224 => Some 224
  | MessageSizeType_Custom_232 => Some 232
  | MessageSizeType_Custom_240 => Some 240
  | MessageSizeType_Custom_248 => Some 248
  | MessageSizeType_Custom_256 => Some 256
  end.

Definition rounds_up (size : Z) : bool :=
  match int_to_MessageSizeType size with
  | Some t => bool_decide (MessageSizeType_to_int t = Some (8 * ((size + 7) / 8))) &&
              bool_decide (int_to_MessageSizeType (8 * ((size + 7) / 8)) = Some t)
  | None => false
  end.
(** The class of a size is the least multiple of 8 that holds it, and a class is the class of
    its own size. *)
Lemma size_class_roundtrip size : 0 < size <= 256 ->
  exists t, int_to_MessageSizeType size = Some t /\ MessageSizeType_to_int t = Some (8 * ((size + 7) / 8)) /\
    int_to_MessageSizeType (8 * ((size + 7) / 8)) = Some t.
Proof.
  intros Hs. assert (forallb rounds_up (seqZ 1 256) = true) as Hall by by vm_compute. rewrite forallb_forall in Hall.
  specialize (Hall size). unfold rounds_up in Hall. destruct (int_to_MessageSizeType size) as [t|].
  - exists t. split; [done|]. rewrite andb_true_iff, !bool_decide_eq_true in Hall. apply Hall.
    apply list_elem_of_In, elem_of_seqZ. lia.
  - enough (false = true) by done. apply Hall. apply list_elem_of_In, elem_of_seqZ. lia.
Qed.
Lemma size_range t n : 0 <= DATA_MESSAGE_SIZE < 2 ^ 20 -> MessageSizeType_to_int t = Some n -> 8 <= n < 2 ^ 20 + 8.
Proof.
  intros Hd Ht. destruct t; simpl in Ht; try done; apply (inj Some) in Ht as <-;
    try (rewrite s32_small by (unfold CONTROL_MESSAGE_SIZE; lia)); unfold CONTROL_MESSAGE_SIZE; lia.
Qed.
Lemma size_number_lt t : (size_number t < MessageSizeType_NUM)%nat.
Proof. destruct t; cbn; unfold MessageSizeType_NUM; lia. Qed.
Lemma size_number_nth t : MessageSizeTypes !! size_number t = Some t.
Proof. by destruct t. Qed.
End sizes.
