(* ===== verification/NetBuffers.v ===== *)
(** The message buffers of a network: network messages ([slicc_interface/NetworkMessage.h]) and
    the store of buffers the switches and throttles share by pointer. *)
From S2P Require Import Prelude Vector Config Address PrioHeap EventQueue MessageBuffer NodeSet NetDest MessageSize.

Abbreviation NetDest := (list NodeSet).

(** A cell of a vector, checked. *)
Definition ref {A} (l : list A) (i : Z) : option A := if i <? 0 then None else l !! Z.to_nat i.
Lemma ref_range {A} (l : list A) (x : Z) : 0 <= x < Z.of_nat (length l) -> exists y, ref l x = Some y /\ l !! Z.to_nat x = Some y.
Proof.
  intros Hx. unfold ref. destruct (Z.ltb_spec x 0); [lia|]. destruct (lookup_lt_is_Some_2 l (Z.to_nat x)) as [y Hy]; [lia|]. by exists y.
Qed.
Lemma ref_Some {A} (l : list A) (x : Z) y : ref l x = Some y -> l !! Z.to_nat x = Some y /\ y ∈ l.
Proof. unfold ref. destruct (x <? 0); [done|]. intros H. split; [done|]. by eapply list_elem_of_lookup_2. Qed.

(** What the network reads of a message; the rest is its body. *)
Record NetworkMessage (Q : Type) := mkNetMsg {
  nm_body : Q; nm_destination : NetDest; nm_message_size : MessageSizeType; m_internal_dest : option NetDest }.
#[global] Arguments mkNetMsg {Q} _ _ _ _.
#[global] Arguments nm_body {Q} _.
#[global] Arguments nm_destination {Q} _.
#[global] Arguments nm_message_size {Q} _.
#[global] Arguments m_internal_dest {Q} _.

Section network.
Context {Q R : Type}.
Abbreviation NetMsg := (NetworkMessage Q).
Abbreviation Buffer := (MessageBuffer NetMsg).
Implicit Types (m : Message NetMsg) (i : nat).

(** [getInternalDestination]: the destination, until a switch has set another; an assignment
    through its result. *)
Definition getInternalDestination m : NetDest := from_option id (nm_destination (payload m)) (m_internal_dest (payload m)).
Definition setInternalDestination (d : NetDest) m : Message NetMsg :=
  mkMessage (mkNetMsg (nm_body (payload m)) (nm_destination (payload m)) (nm_message_size (payload m)) (Some d))
    (m_LastEnqueueTime m) (m_DelayedCycles m).

(** The buffers by identity, the scheduler, and how many random numbers were drawn. *)
Record NetState := mkNet { buffers : gmap nat Buffer; net_world : World R; draws : nat }.
Implicit Types (s : NetState).
Definition with_buffer i (b : Buffer) s : NetState := mkNet (<[i := b]> (buffers s)) (net_world s) (draws s).
Definition with_world (w : World R) s : NetState := mkNet (buffers s) w (draws s).

Variables (RANDOMIZATION : bool) (random : nat -> Z).

Definition net_isReady i s : option bool := b ← buffers s !! i; isReady b (net_world s).
Definition net_peek i s : option (Message NetMsg) := b ← buffers s !! i; peekAtHeadOfQueue b (net_world s).
Definition net_pop i s : option NetState := b ← buffers s !! i; b ← pop b (net_world s); Some (with_buffer i b s).
Definition net_slots i (n : Z) s : option (bool * NetState) :=
  b ← buffers s !! i; let '(r, b) := areNSlotsAvailable b (net_world s) n in Some (r, with_buffer i b s).
Definition net_getSize i s : option (Z * NetState) :=
  b ← buffers s !! i; let '(n, b) := getSize b (net_world s) in Some (n, with_buffer i b s).
Definition net_enqueue i m (delta : Z) s : option NetState :=
  b ← buffers s !! i;
  '(b, w) ← enqueue RANDOMIZATION b (net_world s) m delta (random (draws s), random (draws s + 1)%nat, random (draws s + 2)%nat);
  Some (mkNet (<[i := b]> (buffers s)) w (draws s + 3)).
Definition net_schedule (consumer : nat) (delta : Z) s : option NetState :=
  w ← scheduleEvent (net_world s) (Some consumer) delta; Some (with_world w s).
Definition net_setConsumer (consumer : nat) i s : option NetState :=
  b ← buffers s !! i; b ← setConsumer b consumer; Some (with_buffer i b s).
Definition net_clear i s : option NetState :=
  b ← buffers s !! i; b ← MessageBuffer.clear b; Some (with_buffer i b s).

Fixpoint for_all (f : nat -> NetState -> option NetState) (l : list nat) s : option NetState :=
  match l with [] => Some s | i :: l => s ← f i s; for_all f l s end.
End network.
#[global] Arguments NetState Q R : clear implicits.

(** ** Buffers as bags *)
(** Ordered and unordered buffers alike hold a bag of messages. *)
Section bags.
Context {P R : Type}.
Variable RANDOMIZATION : bool.
Implicit Types (b : MessageBuffer P) (n : MessageBufferNode P) (w : World R) (msg : Message P).

Record bag_inv b : Prop := {
  bag_heap : heap_inv (b_heap b);
  bag_nodes : Forall (fun n => n_delay_queue n = false /\ n_msg_counter n <= m_msg_counter b) (elems (b_heap b));
  bag_once : NoDup (n_msg_counter <$> elems (b_heap b));
  bag_consumer : m_ordering_set (cfg b) = true }.
(** Arrival times are those asked for. *)
Definition exact b : Prop := RANDOMIZATION = false \/ m_randomization (cfg b) = false.
(** A message asked for after [delta] cycles does not overtake the last one. *)
Definition punctual (now delta : Z) b : Prop := m_strict_fifo (cfg b) = true -> exact b -> m_last_arrival_time b <= now + delta.

Lemma bag_comparable (l : list (MessageBufferNode P)) k :
  Forall (fun n => n_delay_queue n = false /\ n_msg_counter n <= k) l -> NoDup (n_msg_counter <$> l) -> comparable l.
Proof.
  intros Hn Hd. apply (nodes_comparable l false); [|done]. eapply Forall_impl; [exact Hn|]. by intros n [? _].
Qed.

Lemma arrival_ok b w delta r1 r2 r3 : 0 < delta -> 0 <= r1 -> 0 <= r3 -> punctual (getTime w) delta b ->
  exists t b', arrival RANDOMIZATION b w delta (r1, r2, r3) = (t, b') /\ getTime w < t /\
    (m_strict_fifo (cfg b) = true -> m_last_arrival_time b' <= t) /\
    b' = set_arrival b (m_last_arrival_time b') /\ (exact b -> t = getTime w + delta).
Proof.
  intros Hd H1 H3 Hp. unfold arrival. pose proof (random_time_pos r1 r2 r3 H1 H3). unfold punctual, exact in *.
  destruct RANDOMIZATION, (m_randomization (cfg b)), (m_strict_fifo (cfg b)); simpl;
    try destruct (Z.ltb_spec (m_last_arrival_time b) (getTime w)); eexists _, _; (split; [done|]); simpl; split_and!;
    try lia; try done; try (by intros [|]); try (by destruct b); intros _; apply Hp; auto.
Qed.

Lemma bag_enqueue b w msg delta c x r1 r2 r3 :
  bag_inv b -> eq_inv w -> m_current_size (heap w) + 1 < 2 ^ 30 -> m_consumer (cfg b) = Some c -> consumers w !! c = Some x ->
  0 < delta -> 0 <= r1 -> 0 <= r3 -> punctual (getTime w) delta b -> m_LastEnqueueTime msg <= getTime w ->
  - 2 ^ 31 <= m_msg_counter b < 2 ^ 31 - 1 -> m_current_size (b_heap b) + 1 < 2 ^ 30 ->
  exists b' w' n k, enqueue RANDOMIZATION b w msg delta (r1, r2, r3) = Some (b', w') /\ bag_inv b' /\
    elems (b_heap b') ≡ₚ n :: elems (b_heap b) /\ n_msgptr n = Some (mkMessage (payload msg) (n_time n) k) /\
    cfg b' = cfg b /\ m_msg_counter b' = m_msg_counter b + 1 /\ m_last_arrival_time b' = n_time n /\
    (exact b -> n_time n = getTime w + delta) /\ eq_inv w' /\ scheduleEventAbsolute w (Some c) (n_time n) = Some w'.
Proof.
  intros Hb Hw Hwb Hcon Hx Hd H1 H3 Hp Hle Hcnt Hlen. unfold enqueue, enqueue_node. set (b1 := count_enqueue b w).
  change (m_ordering_set (cfg b1)) with (m_ordering_set (cfg b)). rewrite (bag_consumer b Hb).
  rewrite (proj2 (Z.ltb_lt 0 delta)) by done.
  destruct (arrival_ok b1 w delta r1 r2 r3 Hd H1 H3 Hp) as (t & b2 & -> & Ht & Hla & Hb2 & Hex). cbn beta iota.
  rewrite (proj2 (Z.ltb_lt (getTime w) t)) by done.
  assert (cfg b2 = cfg b) as Hc by by rewrite Hb2. assert (b_heap b2 = b_heap b) as Hh by by rewrite Hb2.
  assert (m_msg_counter b2 = m_msg_counter b + 1) as Hm by (rewrite Hb2; simpl; by rewrite s32_small by lia).
  assert (negb (m_strict_fifo (cfg b2)) || (m_last_arrival_time b2 <=? t) = true) as ->.
  { rewrite Hc. destruct (m_strict_fifo (cfg b)) eqn:Hs; [|done]. apply Z.leb_le. by apply Hla. }
  rewrite (proj2 (Z.leb_le (m_LastEnqueueTime msg) (getTime w))) by done. cbn [cfg set_arrival b_heap]. rewrite Hc, Hh, Hcon. cbn zeta.
  set (n := mkNode t _ _ _ _).
  assert (Forall (fun n => n_delay_queue n = false /\ n_msg_counter n <= m_msg_counter b + 1) (n :: elems (b_heap b))) as Hall.
  { constructor; [cbn; split; [done|lia]|]. eapply Forall_impl; [apply (bag_nodes b Hb)|]. intros n' [? ?]. split; [done|lia]. }
  assert (NoDup (n_msg_counter <$> n :: elems (b_heap b))) as Honce.
  { cbn. constructor; [|apply Hb]. cbn. rewrite Hm. intros (n' & Heq & Hin)%list_elem_of_fmap.
    pose proof (proj1 (Forall_forall _ _) (bag_nodes b Hb) n' Hin) as [_ ?]. lia. }
  destruct (insert_correct (b_heap b) n) as (h & -> & Hhi & Hpe & Hsz); [apply Hb|done|by eapply bag_comparable|]. simpl.
  destruct (schedule_elems w c x t Hw Hwb Hx Ht) as (w' & new & Hsch & Hw' & _). rewrite Hsch. simpl.
  eexists _, w', n, _. split; [done|]. split; [|split; [exact Hpe|split; [done|split; [done|split; [exact Hm|by split]]]]].
  split; cbn; [done|..].
  - rewrite Hpe, Hm. done.
  - by rewrite Hpe.
  - rewrite Hc. apply Hb.
Qed.

(** Reading takes a message out of the bag. *)
Lemma bag_isReady b w : bag_inv b -> exists r, isReady b w = Some r /\ (r = true -> 0 < m_current_size (b_heap b)).
Proof.
  intros Hb. unfold isReady. destruct (bag_heap b Hb) as [(_ & Hs & _) _].
  unfold size. rewrite s32_small by lia. destruct (Z.ltb_spec 0 (m_current_size (b_heap b))); [|by exists false].
  destruct (extractMin_correct (b_heap b)) as (n & h & _ & _ & _ & _ & -> & _); [apply Hb|done|eapply bag_comparable; apply Hb|].
  simpl. eexists. split; [done|]. done.
Qed.
Lemma bag_pop b w : bag_inv b -> isReady b w = Some true ->
  exists n b', peekMin (b_heap b) = Some n /\ n_time n <= getTime w /\ pop b w = Some b' /\ bag_inv b' /\
    elems (b_heap b) ≡ₚ n :: elems (b_heap b') /\ cfg b' = cfg b /\ m_msg_counter b' = m_msg_counter b /\
    m_last_arrival_time b' = m_last_arrival_time b.
Proof.
  intros Hb Hr. destruct (bag_isReady b w Hb) as (r & Hr' & Hpos). rewrite Hr in Hr'. injection Hr' as <-. specialize (Hpos eq_refl).
  destruct (extractMin_correct (b_heap b)) as (n & h & Hext & Hh & Hp & Hs & Hpk & _); [apply Hb|done|eapply bag_comparable; apply Hb|].
  exists n. unfold pop. rewrite Hr, Hext. simpl. eexists. split; [done|].
  unfold isReady, size in Hr. destruct (bag_heap b Hb) as [(_ & Hsm & _) _]. rewrite s32_small in Hr by lia.
  rewrite (proj2 (Z.ltb_lt _ _)) in Hr by done. rewrite Hpk in Hr. simpl in Hr. injection Hr as Hr. apply Z.leb_le in Hr.
  split; [done|]. split; [done|]. pose proof (bag_nodes b Hb) as Hn. pose proof (bag_once b Hb) as Ho.
  rewrite Hp in Hn, Ho. apply Forall_cons in Hn as [_ Hn]. apply NoDup_cons in Ho as [_ Ho].
  split; [|done]. split; cbn; [done..|apply Hb].
Qed.
End bags.

(** ** The state of a network *)
Section state.
Context {Q R : Type}.
Variables (RANDOMIZATION : bool) (random : nat -> Z).
Hypothesis random_nonneg : forall k, 0 <= random k.
(** The delay with which messages enter a buffer. *)
Variable delay : nat -> option Z.
Implicit Types (s : NetState Q R) (i k : nat) (m : Message (NetworkMessage Q)) (n : MessageBufferNode (NetworkMessage Q)) (d : Z).

(** A message carries the time it arrives. *)
Definition stamped n : Prop := exists m, n_msgptr n = Some m /\ m_LastEnqueueTime m = n_time n.
Definition bag s i : list (MessageBufferNode (NetworkMessage Q)) :=
  match buffers s !! i with Some b => elems (b_heap b) | None => [] end.

(** Every buffer is usable and can take [room] more messages, and so can the scheduler. *)
Record buffer_ok (room : Z) (w : World R) i (b : MessageBuffer (NetworkMessage Q)) : Prop := {
  bo_bag : bag_inv b;
  bo_stamped : Forall stamped (elems (b_heap b));
  bo_consumer : exists c, m_consumer (cfg b) = Some c /\ c ∈ dom (consumers w);
  bo_room : - 2 ^ 31 <= m_msg_counter b /\ m_msg_counter b + room < 2 ^ 31 /\ m_current_size (b_heap b) + room < 2 ^ 30;
  bo_punctual : forall d, delay i = Some d -> 0 < d /\ punctual RANDOMIZATION (getTime w) d b }.
Record net_inv (room : Z) s : Prop := {
  nv_room : 0 <= room;
  nv_world : eq_inv (net_world s);
  nv_heap : m_current_size (heap (net_world s)) + room < 2 ^ 30;
  nv_buffer i b : buffers s !! i = Some b -> buffer_ok room (net_world s) i b }.

(** What no operation of the network changes. *)
Record frame s s' : Prop := {
  fr_buffers : dom (buffers s') = dom (buffers s);
  fr_time : getTime (net_world s') = getTime (net_world s);
  fr_consumers : dom (consumers (net_world s')) = dom (consumers (net_world s)) }.
#[export] Instance frame_preorder : PreOrder frame.
Proof.
  split.
  - by split.
  - intros s1 s2 s3 [A B C] [D E F]. split; congruence.
Qed.

Lemma buffer_ok_weaken room room' w w' i b : room' <= room -> getTime w' = getTime w -> dom (consumers w') = dom (consumers w) ->
  buffer_ok room w i b -> buffer_ok room' w' i b.
Proof. intros Hr Ht Hd [A B C D E]. split; [done|done|by rewrite Hd|lia|by rewrite Ht]. Qed.
Lemma net_inv_weaken room room' s : 0 <= room' <= room -> net_inv room s -> net_inv room' s.
Proof.
  intros Hr [A B C D]. split; [lia|done|lia|]. intros i b Hb. eapply buffer_ok_weaken; [|done..|by apply D]. lia.
Qed.

(** One buffer changes, and perhaps the scheduler. *)
Lemma net_inv_update room room' s i b' w' k : 0 <= room' <= room -> net_inv room s -> is_Some (buffers s !! i) ->
  eq_inv w' -> getTime w' = getTime (net_world s) -> dom (consumers w') = dom (consumers (net_world s)) ->
  m_current_size (heap w') + room' < 2 ^ 30 -> buffer_ok room' w' i b' ->
  net_inv room' (mkNet (<[i := b']> (buffers s)) w' k) /\ frame s (mkNet (<[i := b']> (buffers s)) w' k).
Proof.
  intros Hr [A B C D] Hi Hw Ht Hd Hh Hb. split.
  - split; cbn; [lia|done|done|]. intros j b [[<- <-]|[? Hj]]%lookup_insert_Some; [done|].
    eapply buffer_ok_weaken; [|done..|by apply D]. lia.
  - split; cbn; [by apply dom_insert_lookup_L|done|done].
Qed.
Lemma bag_insert s i b' w' k j : bag (mkNet (<[i := b']> (buffers s)) w' k) j = if decide (j = i) then elems (b_heap b') else bag s j.
Proof. unfold bag; cbn. case_decide; [subst; by rewrite lookup_insert_eq|by rewrite lookup_insert_ne]. Qed.

(** Questions to a buffer change only what it remembers of them. *)
Definition same_content (b b' : MessageBuffer (NetworkMessage Q)) : Prop :=
  b_heap b' = b_heap b /\ cfg b' = cfg b /\ m_msg_counter b' = m_msg_counter b /\ m_last_arrival_time b' = m_last_arrival_time b.
Lemma same_content_ok room w i b b' : same_content b b' -> buffer_ok room w i b -> buffer_ok room w i b'.
Proof.
  intros (A & B & C & D) [[E1 E2 E3 E4] F G H I]. unfold punctual, exact in *. split; rewrite ?A, ?B, ?C; [|done..|].
  - split; rewrite ?A, ?B, ?C; done.
  - intros d Hd. destruct (I d Hd) as [? Hp]. split; [done|]. unfold punctual, exact. rewrite B, D. exact Hp.
Qed.
Lemma net_ask room s i b b' : net_inv room s -> buffers s !! i = Some b -> same_content b b' ->
  net_inv room (with_buffer i b' s) /\ frame s (with_buffer i b' s) /\ (forall j, bag (with_buffer i b' s) j = bag s j) /\
  forall j, j <> i -> buffers (with_buffer i b' s) !! j = buffers s !! j.
Proof.
  intros Hi Hb Hs. destruct (net_inv_update room room s i b' (net_world s) (draws s)) as [? ?];
    [pose proof (nv_room _ _ Hi); lia|done|by eexists|apply Hi|done|done|apply Hi|eapply same_content_ok; [done|by apply Hi]|].
  split; [done|]. split; [done|]. split; [|intros j Hj; cbn; by rewrite lookup_insert_ne].
  intros j. unfold with_buffer. rewrite bag_insert. case_decide; [|done]. subst. unfold bag. rewrite Hb. by destruct Hs as [-> _].
Qed.
Lemma net_slots_ok room s i (n : Z) : net_inv room s -> is_Some (buffers s !! i) ->
  exists r s', net_slots i n s = Some (r, s') /\ net_inv room s' /\ frame s s' /\ (forall j, bag s' j = bag s j) /\
    forall j, j <> i -> buffers s' !! j = buffers s !! j.
Proof.
  intros Hi [b Hb]. unfold net_slots. rewrite Hb. cbn. destruct (areNSlotsAvailable b (net_world s) n) as [r b'] eqn:Ha. eexists _, _. split; [done|].
  apply (net_ask room s i b); [done..|]. unfold areNSlotsAvailable in Ha. repeat case_match; simplify_eq; done.
Qed.
Lemma net_getSize_ok room s i : net_inv room s -> is_Some (buffers s !! i) ->
  exists r s', net_getSize i s = Some (r, s') /\ net_inv room s' /\ frame s s' /\ (forall j, bag s' j = bag s j) /\
    forall j, j <> i -> buffers s' !! j = buffers s !! j.
Proof.
  intros Hi [b Hb]. unfold net_getSize. rewrite Hb. cbn. destruct (getSize b (net_world s)) as [r b'] eqn:Ha. eexists _, _. split; [done|].
  apply (net_ask room s i b); [done..|]. unfold getSize in Ha. case_match; simplify_eq; done.
Qed.

(** Reading. *)
Lemma net_ready_ok room s i : net_inv room s -> is_Some (buffers s !! i) ->
  exists r, net_isReady i s = Some r /\ (r = true -> bag s i <> []).
Proof.
  intros Hi [b Hb]. unfold net_isReady, bag. rewrite Hb. cbn. pose proof (bo_bag _ _ _ _ (nv_buffer _ _ Hi i b Hb)) as Hbag.
  destruct (bag_isReady b (net_world s) Hbag) as (r & Hr & Hp). exists r. split; [done|]. intros ->. specialize (Hp eq_refl).
  rewrite <-(length_elems (b_heap b)) in Hp by apply Hbag. intros Hn. rewrite Hn in Hp. cbn in Hp. lia.
Qed.
Lemma net_read room s i : net_inv room s -> net_isReady i s = Some true ->
  exists n m, net_peek i s = Some m /\ n_msgptr n = Some m /\ n ∈ bag s i /\ m_LastEnqueueTime m <= getTime (net_world s) /\
    forall s', buffers s' !! i = buffers s !! i -> getTime (net_world s') = getTime (net_world s) ->
      forall room', net_inv room' s' -> exists s'', net_pop i s' = Some s'' /\ net_inv room' s'' /\ frame s' s'' /\
        bag s' i ≡ₚ n :: bag s'' i /\ (forall j, j <> i -> buffers s'' !! j = buffers s' !! j) /\ forall j, j <> i -> bag s'' j = bag s' j.
Proof.
  intros Hi Hr. unfold net_isReady in Hr. apply bind_Some in Hr as (b & Hb & Hr). pose proof (nv_buffer _ _ Hi i b Hb) as Hok.
  destruct (bag_pop b (net_world s) (bo_bag _ _ _ _ Hok) Hr) as (n & b' & Hpk & Hle & Hpop & Hbag & Hperm & Hc & Hm & Hl).
  assert (n ∈ elems (b_heap b)) as Hin by (rewrite Hperm; by left).
  destruct (proj1 (Forall_forall _ _) (bo_stamped _ _ _ _ Hok) n Hin) as (m & Hmsg & Hst).
  exists n, m. unfold net_peek, peekAtHeadOfQueue. rewrite Hb. cbn. rewrite Hr. cbn. rewrite Hpk. cbn.
  split; [done|]. split; [done|]. split; [unfold bag; by rewrite Hb|]. split; [lia|].
  intros s' Hs' Ht room' Hi'. unfold net_pop. rewrite Hs'. cbn.
  assert (pop b (net_world s') = Some b') as ->.
  { rewrite <-Hpop. unfold pop, isReady. by rewrite Ht. }
  cbn. pose proof (nv_buffer _ _ Hi' i b Hs') as Hok'.
  destruct (net_inv_update room' room' s' i b' (net_world s') (draws s')) as [Hv Hf];
    [pose proof (nv_room _ _ Hi'); lia|done|by eexists|apply Hi'|done|done|apply Hi'| |].
  - destruct Hok' as [A B C D E]. split; [done| |by rewrite Hc| |].
    + rewrite Hperm in B. by apply Forall_cons in B as [_ B].
    + rewrite Hm. pose proof (length_elems _ (proj1 (bag_heap _ A))) as L1. pose proof (length_elems _ (proj1 (bag_heap _ Hbag))) as L2.
      rewrite Hperm in L1. cbn in L1. lia.
    + intros d Hd. destruct (E d Hd) as [? Hp]. split; [done|]. unfold punctual, exact in *. by rewrite Hc, Hl.
  - eexists. split; [done|]. split; [done|]. split; [done|]. split.
    + unfold with_buffer. rewrite bag_insert, decide_True by done. unfold bag. by rewrite Hs'.
    + split; intros j Hj; [cbn; by rewrite lookup_insert_ne|]. unfold with_buffer. by rewrite bag_insert, decide_False.
Qed.

(** Sending. *)
Lemma net_enqueue_ok room s i m d : net_inv room s -> 1 <= room -> is_Some (buffers s !! i) -> delay i = Some d ->
  m_LastEnqueueTime m <= getTime (net_world s) ->
  exists s' n m', net_enqueue RANDOMIZATION random i m d s = Some s' /\ net_inv (room - 1) s' /\ frame s s' /\
    bag s' i ≡ₚ n :: bag s i /\ n_msgptr n = Some m' /\ payload m' = payload m /\ forall j, j <> i -> buffers s' !! j = buffers s !! j.
Proof using random_nonneg.
  intros Hi Hroom [b Hb] Hd Hle. unfold net_enqueue. rewrite Hb. cbn. pose proof (nv_buffer _ _ Hi i b Hb) as [Hbag Hst (c & Hc & Hcd) Hcnt Hp].
  apply elem_of_dom in Hcd as [x Hx]. destruct (Hp d Hd) as [Hd0 Hpd]. pose proof (nv_heap _ _ Hi).
  destruct (bag_enqueue RANDOMIZATION b (net_world s) m d c x (random (draws s)) (random (draws s + 1)%nat) (random (draws s + 2)%nat))
    as (b' & w' & n & k & -> & Hbag' & Hperm & Hmsg & Hcfg & Hmc & Hla & Hex & Hw' & Hsch);
    [done|apply Hi|lia|done|done|done|apply random_nonneg|apply random_nonneg|done|done|lia|lia|]. cbn.
  destruct (schedule_grows _ _ _ _ (nv_world _ _ Hi) ltac:(lia) Hsch) as (Ht & Hdom & Hsz).
  assert (m_current_size (b_heap b') = m_current_size (b_heap b) + 1) as Hsize.
  { pose proof (length_elems _ (proj1 (bag_heap _ Hbag))) as L1. pose proof (length_elems _ (proj1 (bag_heap _ Hbag'))) as L2.
    rewrite Hperm in L2. cbn in L2. lia. }
  destruct (net_inv_update room (room - 1) s i b' w' (draws s + 3)) as [Hv Hf];
    [lia|done|by eexists|done|done|done|lia| |].
  - split; [done| |rewrite Hcfg, Hdom; exists c; split; [done|]; apply elem_of_dom; by eexists|lia|].
    + rewrite Hperm. constructor; [|done]. eexists. split; [exact Hmsg|done].
    + intros d' Hd'. assert (d' = d) as -> by congruence. split; [done|]. intros Hs He. unfold exact in *. rewrite Hcfg in *. rewrite Hla, Ht.
      rewrite Hex by done. lia.
  - exists (mkNet (<[i:=b']> (buffers s)) w' (draws s + 3)), n, (mkMessage (payload m) (n_time n) k). split; [done|]. split; [done|]. split; [done|]. split.
    + rewrite bag_insert, decide_True by done. rewrite Hperm. unfold bag. by rewrite Hb.
    + split; [done|]. split; [done|]. intros j Hj. cbn. by rewrite lookup_insert_ne.
Qed.
Lemma net_schedule_ok room s c (d : Z) : net_inv room s -> 1 <= room -> 0 < d -> c ∈ dom (consumers (net_world s)) ->
  exists s', net_schedule c d s = Some s' /\ net_inv (room - 1) s' /\ frame s s' /\ buffers s' = buffers s /\
    EventQueue.pending (net_world s') c (getTime (net_world s) + d).
Proof.
  intros Hi Hroom Hd [x Hx]%elem_of_dom. unfold net_schedule, scheduleEvent. pose proof (nv_heap _ _ Hi).
  destruct (schedule_elems (net_world s) c x (d + getTime (net_world s)) (nv_world _ _ Hi)) as (w' & new & Hsch & Hw' & Hpend & _); [lia|done|lia|].
  destruct (schedule_grows _ _ _ _ (nv_world _ _ Hi) ltac:(lia) Hsch) as (Ht & Hdom & Hsz).
  rewrite Hsch. cbn. eexists. split; [done|]. split; [|split; [by split|split; [done|by rewrite Z.add_comm]]].
  split; cbn; [lia|done|lia|]. intros i b Hb. eapply buffer_ok_weaken; [|done|done|by apply Hi]. lia.
Qed.
End state.

(** ** What a buffer holds *)
Section contents.
Context {Q R : Type}.
Implicit Types (s : NetState Q R) (i : nat).
Definition contents s i : list (NetworkMessage Q) := omap (fun n => payload <$> n_msgptr n) (bag s i).
Lemma contents_cons s s' i n m : bag s' i ≡ₚ n :: bag s i -> n_msgptr n = Some m -> contents s' i ≡ₚ payload m :: contents s i.
Proof. intros Hb Hm. unfold contents. rewrite Hb. cbn. by rewrite Hm. Qed.
Lemma contents_buffer s s' i : buffers s' !! i = buffers s !! i -> contents s' i = contents s i.
Proof. intros H. unfold contents, bag. by rewrite H. Qed.
Lemma isReady_same s s' i : buffers s' !! i = buffers s !! i -> getTime (net_world s') = getTime (net_world s) ->
  net_isReady i s' = net_isReady i s.
Proof. intros H Ht. unfold net_isReady. rewrite H. destruct (buffers s !! i); [|done]. cbn. unfold isReady. by rewrite Ht. Qed.
(** Asking again for room gives the same answer. *)
Lemma slots_again i (n : Z) s r s' : net_slots i n s = Some (r, s') -> exists s'', net_slots i n s' = Some (r, s'').
Proof.
  unfold net_slots. intros H. apply bind_Some in H as (b & Hb & H). destruct (areNSlotsAvailable b (net_world s) n) as [r' b'] eqn:Ha.
  injection H as -> <-. cbn. rewrite lookup_insert_eq. cbn.
  enough (fst (areNSlotsAvailable b' (net_world s) n) = r) as He.
  { destruct (areNSlotsAvailable b' (net_world s) n) as [r2 b2]. cbn in He. subst. by eexists. }
  unfold areNSlotsAvailable in *. cbn in *. destruct (m_buf_max_size (cfg b) =? -1) eqn:E1; [injection Ha as <- <-; by rewrite E1|].
  destruct (_ <=? _) eqn:E2; injection Ha as <- <-; cbn; by rewrite E1, E2.
Qed.
End contents.

(** ** The copies of messages a group of buffers holds *)
Section copies.
Context {Q R : Type}.
Implicit Types (s : NetState Q R) (i k l : nat) (j : Z) (n : MessageBufferNode (NetworkMessage Q)) (d : NetDest) (L : list nat).

Definition has d l j : bool := match d !! l with Some t => bool_decide (j ∈ to_set t) | None => false end.
Lemma has_spec d l j : has d l j = true <-> at_node d l j.
Proof.
  unfold has, at_node. destruct (d !! l) as [t|]; [|split; [done|by intros (t & ? & _)]]. rewrite bool_decide_eq_true.
  split; [intros ?; by exists t|by intros (t' & [= <-] & ?)].
Qed.

(** The bodies of the messages for machine [j] of level [l]. *)
Definition addressed l j n : list Q :=
  match n_msgptr n with
  | Some m => if has (getInternalDestination m) l j then [nm_body (payload m)] else []
  | None => []
  end.
Definition copies s L l j : list Q := L ≫= fun i => bag s i ≫= addressed l j.

Lemma copies_same s s' L l j : (forall i, i ∈ L -> bag s' i ≡ₚ bag s i) -> copies s' L l j ≡ₚ copies s L l j.
Proof.
  unfold copies. induction L as [|i L IH]; intros H; [done|]. cbn. apply Permutation_app; [|apply IH; set_solver].
  rewrite (H i); [done|set_solver].
Qed.
Lemma copies_add s s' L l j i n : NoDup L -> bag s' i ≡ₚ n :: bag s i -> (forall k, k <> i -> bag s' k ≡ₚ bag s k) ->
  copies s' L l j ≡ₚ (if decide (i ∈ L) then addressed l j n else []) ++ copies s L l j.
Proof.
  intros HL Hi Hk. unfold copies. induction HL as [|k L Hnin HL IH]; cbn.
  { by rewrite decide_False by apply not_elem_of_nil. }
  destruct (decide (k = i)) as [->|Hne].
  - rewrite decide_True by (by left). rewrite Hi. cbn. rewrite <-app_assoc. f_equiv. f_equiv. apply copies_same. intros k' Hk'.
    apply Hk. by intros ->.
  - rewrite (Hk k Hne), IH. destruct (decide (i ∈ L)).
    + rewrite decide_True by (by right). by rewrite !app_assoc, (Permutation_app_comm (addressed l j n)).
    + rewrite decide_False by (rewrite elem_of_cons; intros [|]; congruence). done.
Qed.
End copies.

(** ** A network of three buffers, with a message for two machines in the first *)
Definition two_machines : NetDest := from_option id [] (add_all gpu_level (NetDest_new 3 gpu_count) [mkMachine L1Cache 1; mkMachine L1Cache 2]).
Definition one_machine : NetDest := from_option id [] (nd_add gpu_level (NetDest_new 3 gpu_count) (mkMachine L1Cache 1)).
Definition multicast : Message (NetworkMessage Z) := mkMessage (mkNetMsg 7 two_machines MessageSizeType_Control None) 0 0.
Definition empty_buffer : MessageBuffer (NetworkMessage Z) := fresh_buffer 0 true (-1).
Definition loaded : MessageBuffer (NetworkMessage Z) * World unit :=
  from_option id (empty_buffer, idle_world) (enqueue false empty_buffer idle_world multicast 1 (0, 0, 0)).
Definition example_net : NetState Z unit :=
  mkNet {[0%nat := loaded.1; 1%nat := empty_buffer; 2%nat := empty_buffer]} (set_time loaded.2 2) 0.
Definition example_delay (i : nat) : option Z := Some 1.


Lemma machines_wf : netdest_wf 3 gpu_count two_machines /\ netdest_wf 3 gpu_count one_machine.
Proof.
  assert (forall m, m ∈ [mkMachine L1Cache 1; mkMachine L1Cache 2] -> valid gpu_level 3 gpu_count m) as Hv.
  { intros m Hm. repeat (apply elem_of_cons in Hm as [->|Hm]; [split; split; vm_compute; congruence|]). by apply not_elem_of_nil in Hm. }
  destruct (add_all_spec gpu_level 3 gpu_count gpu_levels_inj (NetDest_new 3 gpu_count) [mkMachine L1Cache 1; mkMachine L1Cache 2] gpu_new_wf) as (d & Hd & Hwf & _);
    [by apply Forall_forall|].
  destruct (nd_add_spec gpu_level 3 gpu_count gpu_levels_inj (NetDest_new 3 gpu_count) (mkMachine L1Cache 1) gpu_new_wf) as (e & He & Hwe & _);
    [apply Hv; by left|].
  unfold two_machines, one_machine. rewrite Hd, He. done.
Qed.
Lemma empty_buffer_ok room (w : World unit) i : 0 <= room < 2 ^ 30 -> 0 <= getTime w -> 0%nat ∈ dom (consumers w) ->
  buffer_ok false example_delay room w i empty_buffer.
Proof.
  intros Hr Ht Hd. split.
  - split; [exact PrioHeap_new_inv|by constructor..|done].
  - constructor.
  - by exists 0%nat.
  - cbn. lia.
  - intros d [= <-]. split; [done|]. intros _ _. cbn. lia.
Qed.
Lemma loaded_ok : exists n k, bag_inv loaded.1 /\ elems (b_heap loaded.1) = [n] /\ n_msgptr n = Some (mkMessage (payload multicast) (n_time n) k) /\
  cfg loaded.1 = cfg empty_buffer /\ m_msg_counter loaded.1 = 1 /\ m_last_arrival_time loaded.1 = 2 /\ n_time n = 2 /\ eq_inv loaded.2 /\
  (forall e, e ∈ elems (heap loaded.2) -> m_time e = 2) /\ getTime loaded.2 = 1.
Proof.
  destruct (bag_enqueue false empty_buffer idle_world multicast 1 0 Consumer_new 0 0 0)
    as (b & w & n & k & E & Hb & Hp & Hm & Hc & Hcnt & Hla & Hex & Hw & _); try (vm_compute; intuition congruence).
  { apply (empty_buffer_ok 0 idle_world 0); [lia|done|]. apply elem_of_dom. by eexists. }
  { exact idle_world_inv. }
  assert (loaded = (b, w)) as Hl by (unfold loaded; by rewrite E). rewrite Hl. cbn [fst snd].
  exists n, k. specialize (Hex (or_introl eq_refl)). change (getTime idle_world + 1) with 2 in Hex.
  split; [done|]. split; [by apply Permutation_singleton_r|]. split; [done|]. split; [done|]. split; [done|]. split; [congruence|]. split; [done|].
  split; [done|]. assert (w = loaded.2) as -> by by rewrite Hl. split; [|by vm_compute].
  assert (elems (heap loaded.2) = [mkEvent 2 (Some 0%nat)]) as -> by by vm_compute. by intros e ->%list_elem_of_singleton.
Qed.
Lemma example_net_inv : net_inv false example_delay 50 example_net.
Proof.
  destruct loaded_ok as (n & k & Hbag & Hel & Hmsg & Hcfg & Hcnt & Hla & Hn & Hw & Hev & Ht).
  assert (0%nat ∈ dom (consumers (set_time loaded.2 2))) as Hdom by (apply (bool_decide_unpack _); by vm_compute).
  split; cbn [net_world example_net buffers]; [lia| | |].
  - apply eq_inv_set_time; [done|lia|]. intros e He. rewrite Hev by done. lia.
  - by vm_compute.
  - intros i b [[<- <-]|[_ [[<- <-]|[_ [<- <-]%lookup_singleton_Some]]%lookup_insert_Some]]%lookup_insert_Some; [|by apply empty_buffer_ok..].
    split.
    + done.
    + rewrite Hel. constructor; [|done]. by eexists.
    + rewrite Hcfg. by exists 0%nat.
    + rewrite Hcnt. split; [lia|]. split; [lia|]. by vm_compute.
    + intros d [= <-]. split; [done|]. intros _ _. rewrite Hla. by vm_compute.
Qed.
