(* ===== verification/PerfectSwitch.v ===== *)
(** The crossbar of a switch: [network/simple/PerfectSwitch.C] and [PerfectSwitch.h]. Ports are
    rows of buffers, one for each virtual network. *)
From S2P Require Import Prelude Vector Config Address PrioHeap EventQueue MessageBuffer NodeSet NetDest NetBuffers.

Definition PRIORITY_SWITCH_LIMIT : Z := 128.
Record LinkOrder := mkLink { m_link : Z; m_value : Z }.
(** [m_self] is the switch as a consumer of the scheduler. *)
Record PerfectSwitch := mkSwitch {
  m_self : nat; m_in : list (list nat); m_out : list (list nat); m_routing_table : list NetDest; m_link_order : list LinkOrder;
  m_virtual_networks : Z; m_round_robin_start : Z; m_wakeups_wo_switch : Z }.

Section switch.
Context {Q R : Type}.
Abbreviation Net := (NetState Q R).
Implicit Types (sw : PerfectSwitch) (s : Net) (d : NetDest) (vnet : Z).
Variables (RANDOMIZATION : bool) (random : nat -> Z).
(** [g_adaptive_routing], [SimpleNetwork::isVNetOrdered], and [std::sort] by [m_value]. *)
Variables (g_adaptive_routing : bool) (isVNetOrdered : Z -> bool) (sort : list LinkOrder -> list LinkOrder).

Definition PerfectSwitch_new (self : nat) (NUMBER_OF_VIRTUAL_NETWORKS : Z) : PerfectSwitch :=
  mkSwitch self [] [] [] [] NUMBER_OF_VIRTUAL_NETWORKS 0 0.
Definition with_order (o : list LinkOrder) sw : PerfectSwitch :=
  mkSwitch (m_self sw) (m_in sw) (m_out sw) (m_routing_table sw) o (m_virtual_networks sw) (m_round_robin_start sw) (m_wakeups_wo_switch sw).
Definition with_start (start wakeups : Z) sw : PerfectSwitch :=
  mkSwitch (m_self sw) (m_in sw) (m_out sw) (m_routing_table sw) (m_link_order sw) (m_virtual_networks sw) start wakeups.
Definition with_table (t : list NetDest) sw : PerfectSwitch :=
  mkSwitch (m_self sw) (m_in sw) (m_out sw) t (m_link_order sw) (m_virtual_networks sw) (m_round_robin_start sw) (m_wakeups_wo_switch sw).

Definition addInPort (ins : list nat) sw s : option (PerfectSwitch * Net) :=
  assert! Z.of_nat (length ins) =? m_virtual_networks sw;
  s ← for_all (net_setConsumer (m_self sw)) ins s;
  Some (mkSwitch (m_self sw) (m_in sw ++ [ins]) (m_out sw) (m_routing_table sw) (m_link_order sw) (m_virtual_networks sw)
          (m_round_robin_start sw) (m_wakeups_wo_switch sw), s).
Definition addOutPort (outs : list nat) (routing_table_entry : NetDest) sw : option PerfectSwitch :=
  assert! Z.of_nat (length outs) =? m_virtual_networks sw;
  Some (mkSwitch (m_self sw) (m_in sw) (m_out sw ++ [outs]) (m_routing_table sw ++ [routing_table_entry])
          (m_link_order sw ++ [mkLink (Z.of_nat (length (m_out sw))) 0]) (m_virtual_networks sw) (m_round_robin_start sw) (m_wakeups_wo_switch sw)).
Definition clearRoutingTables sw : PerfectSwitch := with_table [] sw.
Definition clearBuffers sw s : option Net := s ← for_all net_clear (mjoin (m_in sw)) s; for_all net_clear (mjoin (m_out sw)) s.
Definition reconfigureOutPort (routing_table_entry : NetDest) sw : PerfectSwitch :=
  with_table (m_routing_table sw ++ [routing_table_entry]) sw.

(** *** Routing *)
(** How clogged each link is. *)
Fixpoint queue_length (l : list nat) s : option (Z * Net) :=
  match l with
  | [] => Some (0, s)
  | i :: l => '(n, s) ← net_getSize i s; '(k, s) ← queue_length l s; Some (n + k, s)
  end.
Fixpoint measure_links (outlink : Z) (outs : list (list nat)) s : option (list LinkOrder * Net) :=
  match outs with
  | [] => Some ([], s)
  | l :: outs =>
      '(out_queue_length, s) ← queue_length l s;
      let value := Z.lor (s32 (Z.shiftl out_queue_length 8)) (Z.land (random (draws s)) 0xff) in
      '(order, s) ← measure_links (outlink + 1) outs (mkNet (buffers s) (net_world s) (draws s + 1));
      Some (mkLink outlink value :: order, s)
  end.
Definition order_links vnet sw s : option (PerfectSwitch * Net) :=
  if negb g_adaptive_routing then Some (sw, s) else
  if isVNetOrdered vnet then Some (with_order (imap (fun i _ => mkLink (Z.of_nat i) 0) (m_out sw)) sw, s) else
  '(order, s) ← measure_links 0 (m_out sw) s; Some (with_order (sort order) sw, s).

(** The links a message goes out on, each with the destinations it is responsible for; in the
    end no destination is left. *)
Fixpoint route (order : list LinkOrder) (table : list NetDest) d : option (list (Z * NetDest)) :=
  match order with
  | [] => assert! nd_count d =? 0; Some []
  | l :: order =>
      entry ← ref table (m_link l);
      b ← nd_intersectionIsNotEmpty d entry;
      if (b : bool) then
        x ← nd_AND d entry;
        d ← removeNetDest d entry;
        r ← route order table d;
        Some ((m_link l, x) :: r)
      else route order table d
  end.

(** *** Moving messages *)
Definition out_buffer sw vnet (link : Z) : option nat := row ← ref (m_out sw) link; ref row vnet.
(** All output queues have room; the first that has not ends the questions. *)
Fixpoint enough_slots sw vnet (links : list (Z * NetDest)) s : option (bool * Net) :=
  match links with
  | [] => Some (true, s)
  | (link, _) :: links =>
      i ← out_buffer sw vnet link;
      '(b, s) ← net_slots i 1 s;
      if (b : bool) then enough_slots sw vnet links s else Some (false, s)
  end.
Fixpoint send_copies sw vnet (m : Message (NetworkMessage Q)) (links : list (Z * NetDest)) s : option Net :=
  match links with
  | [] => Some s
  | (link, x) :: links =>
      i ← out_buffer sw vnet link;
      s ← net_enqueue RANDOMIZATION random i (setInternalDestination x m) 1 s;
      send_copies sw vnet m links s
  end.
(** The messages waiting at one input port; a message that is blocked makes the switch try again
    at the next cycle. *)
Fixpoint drain_port (fuel : nat) (i : nat) vnet sw s : option (PerfectSwitch * Net) :=
  match fuel with
  | O => None
  | S fuel =>
      ready ← net_isReady i s;
      if negb ready then Some (sw, s) else
      m ← net_peek i s;
      assert! Nat.eqb (length (m_link_order sw)) (length (m_routing_table sw));
      assert! Nat.eqb (length (m_link_order sw)) (length (m_out sw));
      '(sw, s) ← order_links vnet sw s;
      links ← route (m_link_order sw) (m_routing_table sw) (getInternalDestination m);
      '(enough, s) ← enough_slots sw vnet links s;
      if negb enough then s ← net_schedule (m_self sw) 1 s; Some (sw, s) else
      s ← send_copies sw vnet m links s;
      s ← net_pop i s;
      drain_port fuel i vnet sw s
  end.
Definition process_port (incoming : Z) vnet sw s : option (PerfectSwitch * Net) :=
  row ← ref (m_in sw) incoming;
  i ← ref row vnet;
  b ← buffers s !! i;
  drain_port (S (Z.to_nat (m_current_size (b_heap b)))) i vnet sw s.
Fixpoint process_ports (n : nat) (incoming : Z) vnet sw s : option (PerfectSwitch * Net) :=
  match n with
  | O => Some (sw, s)
  | S n =>
      let incoming := if Z.of_nat (length (m_in sw)) <=? incoming + 1 then 0 else incoming + 1 in
      '(sw, s) ← process_port incoming vnet sw s;
      process_ports n incoming vnet sw s
  end.
Fixpoint process_vnets (vnets : list Z) sw s : option (PerfectSwitch * Net) :=
  match vnets with
  | [] => Some (sw, s)
  | vnet :: vnets =>
      let incoming := m_round_robin_start sw in
      let start := if Z.of_nat (length (m_in sw)) <=? incoming + 1 then 0 else incoming + 1 in
      '(sw, s) ← process_ports (length (m_in sw)) incoming vnet (with_start start (m_wakeups_wo_switch sw) sw) s;
      process_vnets vnets sw s
  end.
(** High virtual networks first, and every so often low ones. *)
Definition wakeup sw s : option (PerfectSwitch * Net) :=
  let wakeups := m_wakeups_wo_switch sw + 1 in
  let vnets := seqZ 0 (m_virtual_networks sw) in
  if PRIORITY_SWITCH_LIMIT <? wakeups then process_vnets vnets (with_start (m_round_robin_start sw) 0 sw) s
  else process_vnets (rev vnets) (with_start (m_round_robin_start sw) wakeups sw) s.
End switch.
