(* ===== verification/PerfectSwitchSafe.v ===== *)
(** The crossbar of [PerfectSwitch] routes every destination over one link, and loses,
    duplicates and misdelivers no message. *)
From S2P Require Import Prelude Vector Config Address PrioHeap EventQueue MessageBuffer NodeSet NetDest MessageSize NetBuffers PerfectSwitch.

(** ** Routing *)
Section route.
Variables (NUM : nat) (base_count : Z -> Z).
Implicit Types (d : NetDest) (order : list LinkOrder) (table : list NetDest) (l : nat) (j : Z).
Abbreviation dest_wf := (netdest_wf NUM base_count).

Lemma at_node_level d l j : dest_wf d -> at_node d l j -> (l < NUM)%nat.
Proof. intros Hd (t & Ht & _). rewrite <-(nd_length _ _ _ Hd). by eapply lookup_lt_Some. Qed.
Lemma has_AND d e x l j : dest_wf d -> dest_wf e -> nd_AND d e = Some x -> has x l j = has d l j && has e l j.
Proof.
  intros Hd He Hx. destruct (nd_AND_spec NUM base_count d e Hd He) as (x' & Hx' & Hwf & Hat). assert (x' = x) as -> by congruence.
  apply eq_true_iff_eq. rewrite andb_true_iff, !has_spec. split.
  - intros H. pose proof (at_node_level _ _ _ Hwf H). by apply Hat.
  - intros [H1 H2]. pose proof (at_node_level _ _ _ Hd H1). by apply Hat.
Qed.
Lemma has_remove d e x l j : dest_wf d -> dest_wf e -> removeNetDest d e = Some x -> has x l j = has d l j && negb (has e l j).
Proof.
  intros Hd He Hx. destruct (removeNetDest_spec NUM base_count d e Hd He) as (x' & Hx' & Hwf & Hat). assert (x' = x) as -> by congruence.
  apply eq_true_iff_eq. rewrite andb_true_iff, negb_true_iff, <-not_true_iff_false, !has_spec. split.
  - intros H. pose proof (at_node_level _ _ _ Hwf H). by apply Hat.
  - intros [H1 H2]. pose proof (at_node_level _ _ _ Hd H1). by apply Hat.
Qed.

(** Every destination is behind one of the links still to be tried. *)
Definition covers order table d : Prop :=
  forall l j, has d l j = true -> exists o e, o ∈ order /\ ref table (m_link o) = Some e /\ has e l j = true.
Definition responsible (links : list (Z * NetDest)) l j : nat := length (filter (fun p : Z * NetDest => has p.2 l j = true) links).

Lemma route_spec table order : (forall o, o ∈ order -> exists e, ref table (m_link o) = Some e /\ dest_wf e) ->
  forall d, dest_wf d -> covers order table d ->
  exists links, route order table d = Some links /\ (length links <= length order)%nat /\
    (forall k x, (k, x) ∈ links -> dest_wf x /\ (exists o, o ∈ order /\ m_link o = k) /\
       exists e, ref table k = Some e /\ forall l j, has x l j = true -> has d l j = true /\ has e l j = true) /\
    forall l j, responsible links l j = Nat.b2n (has d l j).
Proof.
  induction order as [|o order IH]; intros Hord d Hd Hcov; cbn [route].
  { assert (forall l j, has d l j = false) as Hno.
    { intros l j. apply not_true_is_false. intros (o & _ & Ho & _)%Hcov. by apply not_elem_of_nil in Ho. }
    rewrite (proj2 (nd_count_zero d)); [|intros l j; rewrite <-has_spec; by rewrite Hno].
    exists []. split; [done|]. split; [done|]. split; [by intros k x ?%not_elem_of_nil|]. intros l j. by rewrite Hno. }
  destruct (Hord o) as (e & He & Hwe); [by left|]. rewrite He. cbn [mbind option_bind].
  destruct (nd_intersection_spec NUM base_count d e Hd Hwe) as (b & -> & Hb). cbn [mbind option_bind].
  assert (forall o', o' ∈ order -> exists e', ref table (m_link o') = Some e' /\ dest_wf e') as Hord' by (intros; apply Hord; by right).
  destruct b.
  - destruct (nd_AND_spec NUM base_count d e Hd Hwe) as (x & Hx & Hwx & _). rewrite Hx. cbn [mbind option_bind].
    destruct (removeNetDest_spec NUM base_count d e Hd Hwe) as (d' & Hd' & Hwd' & _). rewrite Hd'. cbn [mbind option_bind].
    pose proof (fun l j => has_AND d e x l j Hd Hwe Hx) as HA. pose proof (fun l j => has_remove d e d' l j Hd Hwe Hd') as HR.
    destruct (IH Hord' d' Hwd') as (links & -> & Hlen & Hin & Hres).
    { intros l j Hh. rewrite HR in Hh. apply andb_true_iff in Hh as [H1 H2]. destruct (Hcov l j H1) as (o' & e' & Ho' & He' & H3).
      apply elem_of_cons in Ho' as [->|Ho']; [|by exists o', e']. assert (e' = e) as -> by congruence. by rewrite H3 in H2. }
    cbn [mbind option_bind]. exists ((m_link o, x) :: links). split; [done|]. split; [cbn; lia|]. split.
    + intros k y [[= -> ->]|Hy]%elem_of_cons.
      * split; [done|]. split; [exists o; split; [by left|done]|]. exists e. split; [done|]. intros l j Hh. rewrite HA in Hh. by apply andb_true_iff.
      * destruct (Hin k y Hy) as (H1 & (o' & H2 & H3) & e' & H4 & H5). split; [done|]. split; [exists o'; split; [by right|done]|].
        exists e'. split; [done|]. intros l j Hh. destruct (H5 l j Hh) as [H6 H7]. rewrite HR in H6. by apply andb_true_iff in H6 as [? _].
    + intros l j. unfold responsible in *. specialize (Hres l j). specialize (HA l j). specialize (HR l j). destruct (has x l j) eqn:Hxj.
      * rewrite filter_cons_True by done. cbn [length]. rewrite Hres, HR. by destruct (has d l j), (has e l j).
      * rewrite filter_cons_False by (cbn; by rewrite Hxj). rewrite Hres, HR. by destruct (has d l j), (has e l j).
  - destruct (IH Hord' d Hd) as (links & -> & Hlen & Hin & Hres).
    { intros l j Hh. destruct (Hcov l j Hh) as (o' & e' & Ho' & He' & H3). apply elem_of_cons in Ho' as [->|Ho']; [|by exists o', e'].
      exfalso. assert (e' = e) as -> by congruence. enough (false = true) by done. apply Hb. exists l, j. by rewrite <-!has_spec. }
    exists links. split; [done|]. split; [cbn; lia|]. split; [|done]. intros k x Hx. destruct (Hin k x Hx) as (H1 & (o' & H2 & H3) & H4).
    split; [done|]. split; [exists o'; split; [by right|done]|done].
Qed.
End route.

(** ** Moving messages *)
Section switch.
Context {Q R : Type}.
Variables (RANDOMIZATION : bool) (random : nat -> Z).
Hypothesis random_nonneg : forall k, 0 <= random k.
Variables (g_adaptive_routing : bool) (isVNetOrdered : Z -> bool) (sort : list LinkOrder -> list LinkOrder).
Hypothesis sort_permutes : forall o, sort o ≡ₚ o.
Variables (NUM : nat) (base_count : Z -> Z) (delay : nat -> option Z).
Implicit Types (sw : PerfectSwitch) (s : NetState Q R) (i k : nat) (m : Message (NetworkMessage Q)) (vnet : Z) (L : list nat).
Abbreviation Inv := (net_inv (Q := Q) (R := R) RANDOMIZATION delay).

(** A switch whose ports have one buffer for each virtual network, no buffer twice; whose
    table has an entry, and whose order a link, for each output port; and whose output buffers are
    reached in one cycle. *)
Record switch_ok sw : Prop := {
  so_vnets : 0 <= m_virtual_networks sw;
  so_rows row : row ∈ m_in sw ++ m_out sw -> Z.of_nat (length row) = m_virtual_networks sw;
  so_once : NoDup (mjoin (m_in sw ++ m_out sw));
  so_table : length (m_routing_table sw) = length (m_out sw);
  so_entries e : e ∈ m_routing_table sw -> netdest_wf NUM base_count e;
  so_order : m_link <$> m_link_order sw ≡ₚ seqZ 0 (Z.of_nat (length (m_out sw)));
  so_delay i : i ∈ mjoin (m_out sw) -> delay i = Some 1;
  so_start : 0 <= m_round_robin_start sw /\ m_round_robin_start sw <= Z.of_nat (length (m_in sw)) }.
(** Its buffers exist, and it can be woken. *)
Definition placed sw s : Prop :=
  (forall i, i ∈ mjoin (m_in sw ++ m_out sw) -> is_Some (buffers s !! i)) /\ m_self sw ∈ dom (consumers (net_world s)).
(** The messages at the inputs, at most [M] in each buffer, are for machines the table knows. *)
Definition routable sw (n : MessageBufferNode (NetworkMessage Q)) : Prop :=
  forall m, n_msgptr n = Some m -> netdest_wf NUM base_count (getInternalDestination m) /\
    forall l j, has (getInternalDestination m) l j = true -> exists e, e ∈ m_routing_table sw /\ has e l j = true.
Definition inputs_ok (M : nat) sw s : Prop :=
  forall i, i ∈ mjoin (m_in sw) -> (length (bag s i) <= M)%nat /\ Forall (routable sw) (bag s i).

Lemma placed_frame sw s s' : frame s s' -> placed sw s -> placed sw s'.
Proof.
  intros [Hb _ Hc] [H1 H2]. split; [|by rewrite Hc]. intros i Hi. apply elem_of_dom. rewrite Hb. apply elem_of_dom. by apply H1.
Qed.
Lemma inputs_sub M sw s s' : (forall i, i ∈ mjoin (m_in sw) -> exists n, bag s i ≡ₚ n ++ bag s' i) -> inputs_ok M sw s -> inputs_ok M sw s'.
Proof.
  intros Hs Hi i Hin. destruct (Hi i Hin) as [Hlen Hall]. destruct (Hs i Hin) as [n Hn]. rewrite Hn in Hlen, Hall.
  rewrite length_app in Hlen. apply Forall_app in Hall as [_ ?]. split; [lia|done].
Qed.

Lemma order_link sw o : switch_ok sw -> o ∈ m_link_order sw -> 0 <= m_link o < Z.of_nat (length (m_out sw)).
Proof.
  intros Hsw Ho. assert (m_link o ∈ m_link <$> m_link_order sw) as Hin by (apply list_elem_of_fmap; by exists o).
  rewrite (so_order sw Hsw) in Hin. apply elem_of_seqZ in Hin. lia.
Qed.
Lemma out_buffer_ok sw vnet x : switch_ok sw -> 0 <= vnet < m_virtual_networks sw -> 0 <= x < Z.of_nat (length (m_out sw)) ->
  exists i, out_buffer sw vnet x = Some i /\ i ∈ mjoin (m_out sw).
Proof.
  intros Hsw Hv Hx. unfold out_buffer. destruct (ref_range (m_out sw) x Hx) as (row & -> & Hrow). cbn.
  assert (row ∈ m_out sw) as Hin by by eapply list_elem_of_lookup_2.
  destruct (ref_range row vnet) as (i & Hi & Hl); [rewrite (so_rows sw Hsw row) by set_solver; lia|]. exists i. split; [done|].
  apply list_elem_of_join. exists row. split; [by eapply list_elem_of_lookup_2|done].
Qed.
Lemma in_out_disjoint sw i : switch_ok sw -> i ∈ mjoin (m_in sw) -> i ∉ mjoin (m_out sw).
Proof. intros Hsw Hi Ho. pose proof (so_once sw Hsw) as Hn. rewrite join_app in Hn. apply NoDup_app in Hn as (_ & Hn & _). by eapply Hn. Qed.
Lemma with_order_ok sw o : switch_ok sw -> (m_link <$> o) ≡ₚ seqZ 0 (Z.of_nat (length (m_out sw))) -> switch_ok (with_order o sw).
Proof. intros [A B C D E F G H] Ho. by split. Qed.

(** Looking at the links changes no message. *)
Lemma queue_length_ok room (l : list nat) : forall s, Inv room s -> (forall i, i ∈ l -> is_Some (buffers s !! i)) ->
  exists x s', queue_length l s = Some (x, s') /\ Inv room s' /\ frame s s' /\ (forall j, bag s' j = bag s j) /\
    forall j, j ∉ l -> buffers s' !! j = buffers s !! j.
Proof.
  induction l as [|i l IH]; intros s Hi Hl; cbn [queue_length]; [by exists 0, s|].
  destruct (net_getSize_ok RANDOMIZATION delay room s i Hi) as (n & s1 & -> & Hi1 & Hf1 & Hb1 & Ho1); [apply Hl; by left|]. cbn.
  destruct (IH s1 Hi1) as (x & s2 & -> & Hi2 & Hf2 & Hb2 & Ho2).
  { intros k Hk. apply elem_of_dom. rewrite (fr_buffers _ _ Hf1). apply elem_of_dom, Hl. by right. }
  cbn. eexists _, s2. split; [done|]. split; [done|]. split; [by etransitivity|]. split; [intros j; by rewrite Hb2|].
  intros j Hj. rewrite Ho2, Ho1; [done|set_solver..].
Qed.
Lemma measure_ok room (outs : list (list nat)) : forall x s, Inv room s -> (forall i, i ∈ mjoin outs -> is_Some (buffers s !! i)) ->
  exists o s', measure_links random x outs s = Some (o, s') /\ (m_link <$> o) = seqZ x (Z.of_nat (length outs)) /\
    Inv room s' /\ frame s s' /\ (forall j, bag s' j = bag s j) /\ forall j, j ∉ mjoin outs -> buffers s' !! j = buffers s !! j.
Proof.
  induction outs as [|l outs IH]; intros x s Hi Hl; cbn [measure_links]; [by exists [], s|].
  destruct (queue_length_ok room l s Hi) as (n & s1 & -> & Hi1 & Hf1 & Hb1 & Ho1); [intros i Hin; apply Hl; cbn; set_solver|]. cbn [mbind option_bind].
  set (s1' := mkNet (buffers s1) (net_world s1) (draws s1 + 1)).
  assert (Inv room s1') as Hi1' by (destruct Hi1; by split). assert (frame s1 s1') as Hf1' by (by split).
  destruct (IH (x + 1) s1' Hi1') as (o & s2 & -> & Ho & Hi2 & Hf2 & Hb2 & Ho2).
  { intros k Hk. apply elem_of_dom. rewrite (fr_buffers _ _ Hf1'), (fr_buffers _ _ Hf1). apply elem_of_dom, Hl. cbn. set_solver. }
  cbn [mbind option_bind]. eexists _, s2. split; [done|]. split; [|split; [done|split; [do 2 (etransitivity; [done|]); done|split]]].
  - csimpl. rewrite Ho. rewrite (seqZ_cons x) by lia. f_equal. f_equal; lia.
  - intros j. rewrite Hb2. apply Hb1.
  - cbn. intros j Hj. rewrite Ho2 by set_solver. apply Ho1. set_solver.
Qed.
Lemma ordered_links (outs : list (list nat)) :
  m_link <$> imap (fun i _ => mkLink (Z.of_nat i) 0) outs = seqZ 0 (Z.of_nat (length outs)).
Proof.
  unfold seqZ. rewrite Nat2Z.id. apply list_eq. intros k. rewrite !list_lookup_fmap, list_lookup_imap.
  destruct (outs !! k) as [row|] eqn:Hk.
  - rewrite lookup_seq_lt by (by eapply lookup_lt_Some). cbn. f_equal. lia.
  - rewrite lookup_seq_ge by (by apply lookup_ge_None_1). done.
Qed.
Lemma order_ok room vnet sw s : switch_ok sw -> placed sw s -> Inv room s ->
  exists o s', order_links random g_adaptive_routing isVNetOrdered sort vnet sw s = Some (with_order o sw, s') /\
    (m_link <$> o) ≡ₚ seqZ 0 (Z.of_nat (length (m_out sw))) /\ Inv room s' /\ frame s s' /\ (forall j, bag s' j = bag s j) /\
    forall j, j ∉ mjoin (m_out sw) -> buffers s' !! j = buffers s !! j.
Proof using random_nonneg sort_permutes.
  intros Hsw [Hp _] Hi. unfold order_links. destruct (negb g_adaptive_routing).
  { exists (m_link_order sw), s. split; [by destruct sw|]. split; [apply Hsw|]. done. }
  destruct (isVNetOrdered vnet).
  { eexists _, s. split; [done|]. split; [|done]. rewrite <-ordered_links. done. }
  destruct (measure_ok room (m_out sw) 0 s Hi) as (o & s' & -> & Ho & Hi' & Hf & Hb & Hoth).
  { intros i Hin. apply Hp. rewrite join_app. set_solver. }
  cbn. exists (sort o), s'. split; [done|]. split; [|done]. rewrite <-Ho. apply (fmap_Permutation m_link), sort_permutes.
Qed.
Lemma slots_ok room sw vnet links : forall s, Inv room s ->
  (forall x d, (x, d) ∈ links -> exists i, out_buffer sw vnet x = Some i /\ is_Some (buffers s !! i)) ->
  exists b s', enough_slots sw vnet links s = Some (b, s') /\ Inv room s' /\ frame s s' /\ (forall j, bag s' j = bag s j) /\
    forall j, (forall x d, (x, d) ∈ links -> out_buffer sw vnet x <> Some j) -> buffers s' !! j = buffers s !! j.
Proof.
  induction links as [|[x d] links IH]; intros s Hi Hl; cbn [enough_slots]; [by exists true, s|].
  destruct (Hl x d) as (i & Ho & Hb); [by left|]. rewrite Ho. cbn [mbind option_bind].
  destruct (net_slots_ok RANDOMIZATION delay room s i 1 Hi Hb) as (r & s1 & -> & Hi1 & Hf1 & Hb1 & Ho1). cbn [mbind option_bind].
  assert (forall j, (forall y e, (y, e) ∈ (x, d) :: links -> out_buffer sw vnet y <> Some j) -> j <> i) as Hne.
  { intros j Hj ->. eapply Hj; [by left|done]. }
  destruct r; [|exists false, s1; split; [done|]; split; [done|]; split; [done|]; split; [done|]; intros j Hj; by apply Ho1, Hne].
  destruct (IH s1 Hi1) as (b & s2 & -> & Hi2 & Hf2 & Hb2 & Ho2).
  { intros y e Hy. destruct (Hl y e) as (k & Hk & Hbk); [by right|]. exists k. split; [done|]. apply elem_of_dom. rewrite (fr_buffers _ _ Hf1). by apply elem_of_dom. }
  exists b, s2. split; [done|]. split; [done|]. split; [by etransitivity|]. split; [intros j; by rewrite Hb2|].
  intros j Hj. rewrite Ho2 by (intros y e Hy; apply (Hj y e); by right). by apply Ho1, Hne.
Qed.

(** The copies sent out over the links. *)
Definition sent m (links : list (Z * NetDest)) l j : list Q :=
  links ≫= fun p => if has p.2 l j then [nm_body (payload m)] else [].
Lemma sent_replicate m links l j : sent m links l j = replicate (responsible links l j) (nm_body (payload m)).
Proof.
  unfold sent, responsible. induction links as [|p links IH]; [done|]. cbn [mbind list_bind]. rewrite IH. destruct (has p.2 l j) eqn:Hp.
  - by rewrite filter_cons_True by done.
  - by rewrite filter_cons_False by (by rewrite Hp).
Qed.
Lemma addressed_set n m m' d l j : n_msgptr n = Some m' -> payload m' = payload (setInternalDestination d m) ->
  addressed l j n = if has d l j then [nm_body (payload m)] else [].
Proof. intros Hn Hp. unfold addressed, getInternalDestination. rewrite Hn, Hp. done. Qed.

Lemma send_ok sw vnet m links : forall room s, Inv room s -> Z.of_nat (length links) <= room ->
  m_LastEnqueueTime m <= getTime (net_world s) ->
  (forall x d, (x, d) ∈ links -> exists i, out_buffer sw vnet x = Some i /\ is_Some (buffers s !! i) /\ delay i = Some 1) ->
  exists s', send_copies RANDOMIZATION random sw vnet m links s = Some s' /\ Inv (room - Z.of_nat (length links)) s' /\ frame s s' /\
    (forall k, (forall x d, (x, d) ∈ links -> out_buffer sw vnet x <> Some k) -> buffers s' !! k = buffers s !! k) /\
    (forall o q, q ∈ contents s' o -> q ∈ contents s o \/
       exists x d, (x, d) ∈ links /\ out_buffer sw vnet x = Some o /\ q = payload (setInternalDestination d m)) /\
    forall L (inL : bool), NoDup L -> (forall x d i, (x, d) ∈ links -> out_buffer sw vnet x = Some i -> i ∈ L <-> inL = true) ->
      forall l j, copies s' L l j ≡ₚ (if inL then sent m links l j else []) ++ copies s L l j.
Proof using random_nonneg.
  induction links as [|[x d] links IH]; intros room s Hi Hroom Hle Hl; cbn [send_copies].
  { exists s. rewrite Z.sub_0_r. split; [done|]. split; [done|]. split; [done|]. split; [done|].
    split; [by left|]. intros L inL _ _ l j. by destruct inL. }
  destruct (Hl x d) as (i & Ho & Hb & Hd); [by left|]. rewrite Ho. cbn [mbind option_bind]. cbn [length] in Hroom.
  destruct (net_enqueue_ok RANDOMIZATION random random_nonneg delay room s i (setInternalDestination d m) 1 Hi)
    as (s1 & n & m' & -> & Hi1 & Hf1 & Hbag & Hn & Hpay & Hoth); [lia|done|done|done|]. cbn [mbind option_bind].
  destruct (IH (room - 1) s1 Hi1) as (s2 & -> & Hi2 & Hf2 & Hoth2 & Hnew & Hcop).
  { lia. }
  { by rewrite (fr_time _ _ Hf1). }
  { intros y e Hy. destruct (Hl y e) as (k & ? & Hk & ?); [by right|]. exists k. split; [done|]. split; [|done].
    apply elem_of_dom. rewrite (fr_buffers _ _ Hf1). by apply elem_of_dom. }
  exists s2. split; [done|]. split; [cbn [length]; by replace (room - Z.of_nat (S (length links))) with (room - 1 - Z.of_nat (length links)) by lia|].
  split; [by etransitivity|]. split; [|split].
  - intros k Hk. rewrite Hoth2 by (intros y e Hy; eapply Hk; by right). apply Hoth. intros ->. eapply Hk; [by left|done].
  - intros o q [Hq|(y & e & Hy & Hoy & ->)]%Hnew; [|right; exists y, e; split; [by right|done]].
    destruct (decide (o = i)) as [->|Hne]; [|left; by rewrite <-(contents_buffer s s1 o) by by apply Hoth].
    rewrite (contents_cons s s1 i n m' Hbag Hn) in Hq. apply elem_of_cons in Hq as [->|Hq]; [|by left].
    right. exists x, d. split; [by left|done].
  - intros L inL HL Hin l j. rewrite (Hcop L inL HL) by (intros y e k Hy; apply (Hin y e); by right).
    rewrite (copies_add s s1 L l j i n HL Hbag) by (intros k Hk; unfold bag; by rewrite Hoth).
    rewrite (addressed_set n m m' d l j Hn Hpay). pose proof (Hin x d i ltac:(by left) Ho) as Hmem. unfold sent. cbn [mbind list_bind].
    destruct inL.
    + rewrite decide_True by (by apply Hmem). cbn [snd]. rewrite !app_assoc. f_equiv. apply Permutation_app_comm.
    + by rewrite decide_False by (rewrite Hmem; congruence).
Qed.

(** The buffers of one virtual network. *)
Record is_column sw vnet L : Prop := {
  ic_once : NoDup L;
  ic_all row i : row ∈ m_in sw ++ m_out sw -> ref row vnet = Some i -> i ∈ L;
  ic_only row v i : row ∈ m_in sw ++ m_out sw -> ref row v = Some i -> i ∈ L -> v = vnet }.
(** A message on an output that was relayed from an input, for machines of the entry of the link. *)
Definition relayed sw s o (q : NetworkMessage Q) : Prop := exists x row e i (q0 : NetworkMessage Q) d,
  ref (m_out sw) x = Some row /\ o ∈ row /\ ref (m_routing_table sw) x = Some e /\ i ∈ mjoin (m_in sw) /\ q0 ∈ contents s i /\
  netdest_wf NUM base_count d /\ (forall l j, has d l j = true -> has e l j = true) /\
  q = payload (setInternalDestination d (mkMessage q0 0 0)).
(** What the switch keeps from one step to the next: its ports, and the copies of messages on
    each virtual network; its inputs only lose messages. *)
Record moved sw s sw' s' : Prop := {
  mv_in : m_in sw' = m_in sw;
  mv_out : m_out sw' = m_out sw;
  mv_table : m_routing_table sw' = m_routing_table sw;
  mv_vnets : m_virtual_networks sw' = m_virtual_networks sw;
  mv_self : m_self sw' = m_self sw;
  mv_frame : frame s s';
  mv_taken i : i ∈ mjoin (m_in sw) -> exists n, bag s i ≡ₚ n ++ bag s' i;
  mv_sent o q : q ∈ contents s' o -> q ∈ contents s o \/ relayed sw s o q;
  mv_other j : j ∉ mjoin (m_in sw ++ m_out sw) -> buffers s' !! j = buffers s !! j;
  mv_copies vnet L l j : is_column sw vnet L -> copies s' L l j ≡ₚ copies s L l j }.
Lemma moved_same sw s sw' s' : m_in sw' = m_in sw -> m_out sw' = m_out sw -> m_routing_table sw' = m_routing_table sw ->
  m_virtual_networks sw' = m_virtual_networks sw -> m_self sw' = m_self sw -> frame s s' -> (forall j, bag s' j = bag s j) ->
  (forall j, j ∉ mjoin (m_in sw ++ m_out sw) -> buffers s' !! j = buffers s !! j) -> moved sw s sw' s'.
Proof.
  intros A B C D E F Hb Ho. split; [done..| | |done|].
  - intros i _. exists []. by rewrite Hb.
  - intros o q. unfold contents. rewrite Hb. by left.
  - intros vnet L l j _. apply copies_same. intros i _. by rewrite Hb.
Qed.
Lemma moved_trans sw1 s1 sw2 s2 sw3 s3 : moved sw1 s1 sw2 s2 -> moved sw2 s2 sw3 s3 -> moved sw1 s1 sw3 s3.
Proof.
  intros [A1 B1 C1 D1 E1 F1 G1 S1 O1 H1] [A2 B2 C2 D2 E2 F2 G2 S2 O2 H2]. split; try congruence.
  - by etransitivity.
  - intros i Hi. destruct (G1 i Hi) as [n1 Hn1]. destruct (G2 i) as [n2 Hn2]; [by rewrite A1|]. exists (n1 ++ n2).
    by rewrite Hn1, Hn2, app_assoc.
  - intros o q [Hq|(x & row & e & i & q0 & d & X1 & X2 & X3 & X4 & X5 & X6)]%S2; [by apply S1|]. right. rewrite A1 in X4. rewrite B1 in X1. rewrite C1 in X3.
    exists x, row, e, i, q0, d. split; [done|]. split; [done|]. split; [done|]. split; [done|]. split; [|done].
    destruct (G1 i X4) as [n1 Hn1]. unfold contents in *. rewrite Hn1, omap_app. apply elem_of_app. by right.
  - intros j Hj. rewrite O2 by (by rewrite A1, B1). by apply O1.
  - intros vnet L l j HL. rewrite (H2 vnet); [by apply (H1 vnet)|]. destruct HL as [X Y Z]. split; rewrite ?A1, ?B1; done.
Qed.
Lemma moved_placed sw s sw' s' : moved sw s sw' s' -> placed sw s -> placed sw' s'.
Proof.
  intros Hm Hp. apply (placed_frame sw s s' (mv_frame _ _ _ _ Hm)) in Hp as [H1 H2]. split.
  - by rewrite (mv_in _ _ _ _ Hm), (mv_out _ _ _ _ Hm).
  - by rewrite (mv_self _ _ _ _ Hm).
Qed.
Lemma moved_inputs M sw s sw' s' : moved sw s sw' s' -> inputs_ok M sw s -> inputs_ok M sw' s'.
Proof.
  intros Hm Hi. apply (inputs_sub M sw s s' (mv_taken _ _ _ _ Hm)) in Hi. intros i. rewrite (mv_in _ _ _ _ Hm). intros Hin.
  destruct (Hi i Hin) as [Hl Ha]. split; [done|]. eapply Forall_impl; [exact Ha|]. intros n Hn m Hm'. rewrite (mv_table _ _ _ _ Hm). by apply Hn.
Qed.

(** The links of a message that waits at an input. *)
Lemma routes vnet sw s i n m o M : switch_ok sw -> inputs_ok M sw s -> i ∈ mjoin (m_in sw) -> n ∈ bag s i -> n_msgptr n = Some m ->
  0 <= vnet < m_virtual_networks sw -> m_link <$> o ≡ₚ seqZ 0 (Z.of_nat (length (m_out sw))) ->
  exists links, route o (m_routing_table sw) (getInternalDestination m) = Some links /\ (length links <= length (m_out sw))%nat /\
    (forall x d, (x, d) ∈ links -> exists i, out_buffer sw vnet x = Some i /\ i ∈ mjoin (m_out sw)) /\
    (forall x d, (x, d) ∈ links -> netdest_wf NUM base_count d /\
       exists e, ref (m_routing_table sw) x = Some e /\ forall l j, has d l j = true -> has e l j = true) /\
    forall l j, responsible links l j = Nat.b2n (has (getInternalDestination m) l j).
Proof.
  intros Hsw Hin Hi Hn Hm Hv Ho. destruct (Hin i Hi) as [_ Hall]. destruct (proj1 (Forall_forall _ _) Hall n Hn m Hm) as [Hwf Hcov].
  pose proof (with_order_ok sw o Hsw Ho) as Hsw'. pose proof (so_table sw Hsw) as Ht.
  destruct (route_spec NUM base_count (m_routing_table sw) o) with (d := getInternalDestination m) as (links & Hl & Hlen & Hlinks & Hres); [| done | |].
  - intros x Hx. pose proof (order_link _ x Hsw' Hx) as Hr. cbn in Hr. destruct (ref_range (m_routing_table sw) (m_link x)) as (e & He & Hl); [lia|].
    exists e. split; [done|]. apply (so_entries sw Hsw). by eapply list_elem_of_lookup_2.
  - intros l j Hh. destruct (Hcov l j Hh) as (e & [k Hk]%list_elem_of_lookup_1 & He). pose proof (lookup_lt_Some _ _ _ Hk).
    assert (Z.of_nat k ∈ m_link <$> o) as (x & Hx & Hxo)%list_elem_of_fmap by (rewrite Ho; apply elem_of_seqZ; lia).
    exists x, e. split; [done|]. split; [|done]. unfold ref. rewrite <-Hx, Nat2Z.id. by destruct (Z.ltb_spec (Z.of_nat k) 0); [lia|].
  - exists links. split; [done|]. split.
    { pose proof (Permutation_length Ho) as Hlo. rewrite length_fmap, length_seqZ in Hlo. lia. }
    split; [|split; [|done]]; intros x d Hx; destruct (Hlinks x d Hx) as (Hwd & (y & Hy & <-) & e & He & Hsub).
    + apply out_buffer_ok; [done|done|]. by apply (order_link _ y Hsw').
    + split; [done|]. exists e. split; [done|]. intros l j Hh. by apply Hsub.
Qed.

(** One message leaves an input for the outputs. *)
Lemma move_ok vnet sw s i room M : switch_ok sw -> placed sw s -> Inv room s -> inputs_ok M sw s ->
  0 <= vnet < m_virtual_networks sw -> (exists row, row ∈ m_in sw /\ ref row vnet = Some i) -> net_isReady i s = Some true ->
  Z.of_nat (length (m_out sw)) + 1 <= room ->
  exists m o s1 links enough s2,
    net_peek i s = Some m /\ order_links random g_adaptive_routing isVNetOrdered sort vnet sw s = Some (with_order o sw, s1) /\
    switch_ok (with_order o sw) /\ route o (m_routing_table sw) (getInternalDestination m) = Some links /\
    enough_slots (with_order o sw) vnet links s1 = Some (enough, s2) /\
    if enough then
      exists s3 s4 n, send_copies RANDOMIZATION random (with_order o sw) vnet m links s2 = Some s3 /\ net_pop i s3 = Some s4 /\
        bag s i ≡ₚ n :: bag s4 i /\ Inv (room - Z.of_nat (length (m_out sw))) s4 /\ moved sw s (with_order o sw) s4
    else exists s3, net_schedule (m_self sw) 1 s2 = Some s3 /\ Inv (room - 1) s3 /\ moved sw s (with_order o sw) s3.
Proof using random_nonneg sort_permutes.
  intros Hsw Hp Hi Hin Hv (row & Hrow & Href) Hready.
  assert (i ∈ mjoin (m_in sw)) as Hii by (apply list_elem_of_join; exists row; split; [by eapply ref_Some|done]). intros Hroom.
  destruct (net_read RANDOMIZATION delay room s i Hi Hready) as (n & m & Hpk & Hmsg & Hn & Hle & Hpop).
  destruct (order_ok room vnet sw s Hsw Hp Hi) as (o & s1 & Hord & Ho & Hi1 & Hf1 & Hb1 & Hoth1).
  pose proof (with_order_ok sw o Hsw Ho) as Hsw'.
  destruct (routes vnet sw s i n m o M Hsw Hin Hii Hn Hmsg Hv Ho) as (links & Hroute & Hlen & Hlinks & Hent & Hres).
  pose proof (proj1 (placed_frame _ _ _ Hf1 Hp)) as Hp1.
  destruct (slots_ok room (with_order o sw) vnet links s1 Hi1) as (enough & s2 & Hen & Hi2 & Hf2 & Hb2 & Hoth2).
  { intros x d Hx. destruct (Hlinks x d Hx) as (k & Hk & Hkin). exists k. split; [done|]. apply Hp1. rewrite join_app. set_solver. }
  assert (frame s s2) as Hf by by etransitivity. pose proof (placed_frame _ _ _ Hf Hp) as [Hp2 Hself].
  exists m, o, s1, links, enough, s2. split; [done|]. split; [done|]. split; [done|]. split; [done|]. split; [done|]. destruct enough.
  - destruct (send_ok (with_order o sw) vnet m links room s2 Hi2) as (s3 & Hsend & Hi3 & Hf3 & Hoth3 & Hnew & Hcop).
    { lia. } { by rewrite (fr_time _ _ Hf). }
    { intros x d Hx. destruct (Hlinks x d Hx) as (k & Hk & Hkin). exists k. split; [done|]. split; [apply Hp2; rewrite join_app; set_solver|by apply (so_delay sw Hsw)]. }
    pose proof (in_out_disjoint sw i Hsw Hii) as Hio.
    assert (forall x d, (x, d) ∈ links -> out_buffer sw vnet x <> Some i) as Hni.
    { intros x d Hx. destruct (Hlinks x d Hx) as (k & -> & Hk). congruence. }
    assert (buffers s3 !! i = buffers s !! i) as Hsame by (rewrite Hoth3 by done; rewrite Hoth2 by done; by apply Hoth1).
    assert (frame s s3) as Hf' by by etransitivity.
    destruct (Hpop s3 Hsame (fr_time _ _ Hf') _ Hi3) as (s4 & Hpop' & Hi4 & Hf4 & Hb4 & Hpops & Hoth4).
    assert (bag s3 i = bag s i) as Hbi by (unfold bag; by rewrite Hsame).
    exists s3, s4, n. split; [done|]. split; [done|]. split; [by rewrite <-Hbi|]. split; [eapply net_inv_weaken; [|done]; lia|].
    assert (forall k, k ∉ mjoin (m_out sw) -> buffers s3 !! k = buffers s !! k) as Hout3.
    { intros k Hk. assert (forall x d, (x, d) ∈ links -> out_buffer sw vnet x <> Some k) as Hnk.
      { intros x d Hx Hk'. destruct (Hlinks x d Hx) as (k' & Hk2 & Hkin). congruence. }
      rewrite Hoth3, Hoth2, Hoth1; done. }
    split; [done..|by etransitivity| | | |].
    + intros k Hk. destruct (decide (k = i)) as [->|Hne]; [exists [n]; by rewrite <-Hbi|]. exists []. rewrite Hoth4 by done.
      unfold bag. rewrite Hout3 by (by apply in_out_disjoint). done.
    + intros o' q Hq. destruct (decide (o' = i)) as [->|Hne].
      { left. unfold contents in *. rewrite <-Hbi, Hb4. cbn. destruct (payload <$> n_msgptr n); [by right|done]. }
      assert (contents s4 o' = contents s3 o') as Heq by (unfold contents; by rewrite Hoth4). rewrite Heq in Hq.
      apply Hnew in Hq as [Hq|(x & d & Hx & Ho' & ->)]; [left; unfold contents in *; by rewrite Hb2, Hb1 in Hq|]. right.
      destruct (Hent x d Hx) as (Hwd & e & He & Hsub). change (out_buffer sw vnet x = Some o') in Ho'. unfold out_buffer in Ho'.
      apply bind_Some in Ho' as (row' & Hrow' & Ho'). apply ref_Some in Ho' as [_ Ho'].
      exists x, row', e, i, (payload m), d. split; [done|]. split; [done|]. split; [done|]. split; [done|].
      split; [apply list_elem_of_omap; exists n; by rewrite Hmsg|]. by split.
    + intros k Hk. rewrite join_app, not_elem_of_app in Hk. destruct (decide (k = i)) as [->|Hne]; [tauto|].
      rewrite Hpops by done. apply Hout3, Hk.
    + intros v L l j HL. pose proof (Hcop L (bool_decide (v = vnet)) (ic_once _ _ _ HL)) as Hc. specialize (fun H => Hc H l j).
      pose proof (copies_add s4 s3 L l j i n (ic_once _ _ _ HL) Hb4) as Hadd.
      assert (copies s2 L l j ≡ₚ copies s L l j) as Hs2 by (apply copies_same; intros k _; by rewrite Hb2, Hb1).
      rewrite Hs2 in Hc.
      assert (addressed l j n = sent m links l j) as Had.
      { rewrite sent_replicate, Hres. unfold addressed. rewrite Hmsg. by destruct (has _ l j). }
      rewrite Had in Hadd. apply (Permutation_app_inv_l (if bool_decide (v = vnet) then sent m links l j else [])).
      rewrite <-Hc.
      * rewrite Hadd by (intros k Hk; by rewrite Hoth4). f_equiv. case_bool_decide as Hvn.
        -- rewrite decide_True; [done|]. subst v. eapply (ic_all _ _ _ HL); [|done]. set_solver.
        -- rewrite decide_False; [done|]. intros HiL. apply Hvn. symmetry. eapply (ic_only _ _ _ HL); [|done|done]. set_solver.
      * intros x d k Hx Hk. unfold out_buffer in Hk. cbn in Hk. apply bind_Some in Hk as (r & Hr & Hk). apply ref_Some in Hr as [_ Hr].
        rewrite bool_decide_eq_true. split; [intros HkL; symmetry; eapply (ic_only _ _ _ HL); [|done|done]; set_solver|intros ->].
        eapply (ic_all _ _ _ HL); [|done]. set_solver.
  - destruct (net_schedule_ok RANDOMIZATION delay room s2 (m_self sw) 1 Hi2) as (s3 & Hsch & Hi3 & Hf3 & Hb3 & _); [lia|lia|done|].
    exists s3. split; [done|]. split; [done|]. apply moved_same; try done; [by etransitivity| |].
    + intros j. unfold bag at 1. rewrite Hb3. change (bag s2 j = bag s j). by rewrite Hb2, Hb1.
    + intros k Hk. rewrite join_app, not_elem_of_app in Hk. rewrite Hb3, Hoth2, Hoth1; [done|apply Hk|].
      intros x d Hx Hk'. destruct (Hlinks x d Hx) as (k' & Hk2 & Hkin). change (out_buffer sw vnet x = Some k) in Hk'. apply Hk. congruence.
Qed.

(** *** The loops *)
Lemma order_lengths sw : switch_ok sw ->
  Nat.eqb (length (m_link_order sw)) (length (m_routing_table sw)) = true /\ Nat.eqb (length (m_link_order sw)) (length (m_out sw)) = true.
Proof.
  intros Hsw. pose proof (Permutation_length (so_order sw Hsw)) as Hl. rewrite length_fmap, length_seqZ in Hl.
  rewrite (so_table sw Hsw), !Nat.eqb_eq. lia.
Qed.
Definition visit_cost (M : nat) sw : Z := Z.of_nat M * Z.of_nat (length (m_out sw)) + 1.

Lemma drain_ok vnet i M fuel : forall sw s room, switch_ok sw -> placed sw s -> Inv room s -> inputs_ok M sw s ->
  0 <= vnet < m_virtual_networks sw -> (exists row, row ∈ m_in sw /\ ref row vnet = Some i) ->
  (length (bag s i) < fuel)%nat -> visit_cost (length (bag s i)) sw <= room ->
  exists sw' s', drain_port RANDOMIZATION random g_adaptive_routing isVNetOrdered sort fuel i vnet sw s = Some (sw', s') /\
    switch_ok sw' /\ Inv (room - visit_cost (length (bag s i)) sw) s' /\ moved sw s sw' s' /\
    m_round_robin_start sw' = m_round_robin_start sw.
Proof using random_nonneg sort_permutes.
  unfold visit_cost. induction fuel as [|fuel IH]; intros sw s room Hsw Hp Hi Hin Hv Hrow Hfuel Hroom; [lia|]. cbn [drain_port].
  assert (is_Some (buffers s !! i)) as Hb.
  { destruct Hrow as (row & Hr & Hir). apply Hp. rewrite join_app. apply elem_of_app; left. apply list_elem_of_join. exists row.
    split; [by eapply ref_Some|done]. }
  destruct (net_ready_ok RANDOMIZATION delay room s i Hi Hb) as (ready & Hr & Hne). rewrite Hr. cbn [mbind option_bind].
  destruct ready; cbn [negb].
  2: { exists sw, s. split; [done|]. split; [done|]. split; [eapply net_inv_weaken; [|done]; nia|]. split; [by apply moved_same|done]. }
  specialize (Hne eq_refl). assert (1 <= length (bag s i))%nat by (destruct (bag s i); [done|cbn; lia]).
  destruct (move_ok vnet sw s i room M Hsw Hp Hi Hin Hv Hrow Hr) as (m & o & s1 & links & enough & s2 & -> & -> & Hsw' & Hroute & Hen & Hcase); [nia|].
  cbn [mbind option_bind]. destruct (order_lengths sw Hsw) as [-> ->]. cbn [m_link_order with_order m_routing_table].
  change (m_link_order (with_order o sw)) with o. change (m_routing_table (with_order o sw)) with (m_routing_table sw).
  rewrite Hroute. cbn [mbind option_bind]. rewrite Hen. cbn [mbind option_bind]. destruct enough; cbn [negb].
  - destruct Hcase as (s3 & s4 & n & -> & Hpop & Hbag & Hi4 & Hm). cbn [mbind option_bind]. rewrite Hpop. cbn [mbind option_bind].
    pose proof (Permutation_length Hbag) as Hlen. cbn in Hlen.
    destruct (IH (with_order o sw) s4 (room - Z.of_nat (length (m_out sw))) Hsw') as (sw' & s' & -> & Hsw'' & Hi' & Hm' & Hst);
      [by eapply moved_placed|done|by eapply moved_inputs|done|done|lia|cbn; nia|].
    exists sw', s'. split; [done|]. split; [done|]. split; [|split; [by eapply moved_trans|done]].
    cbn in Hi'. eapply net_inv_weaken; [|done]. nia.
  - destruct Hcase as (s3 & Hsch & Hi3 & Hm). change (m_self (with_order o sw)) with (m_self sw). rewrite Hsch. cbn [mbind option_bind].
    exists (with_order o sw), s3. split; [done|]. split; [done|]. split; [eapply net_inv_weaken; [|done]; nia|]. done.
Qed.

Lemma process_port_ok incoming vnet M sw s room : switch_ok sw -> placed sw s -> Inv room s -> inputs_ok M sw s ->
  0 <= vnet < m_virtual_networks sw -> 0 <= incoming < Z.of_nat (length (m_in sw)) -> visit_cost M sw <= room ->
  exists sw' s', process_port RANDOMIZATION random g_adaptive_routing isVNetOrdered sort incoming vnet sw s = Some (sw', s') /\
    switch_ok sw' /\ Inv (room - visit_cost M sw) s' /\ moved sw s sw' s' /\ m_round_robin_start sw' = m_round_robin_start sw.
Proof using random_nonneg sort_permutes.
  intros Hsw Hp Hi Hin Hv Hinc Hroom. unfold process_port. destruct (ref_range (m_in sw) incoming Hinc) as (row & Hr & Hl). rewrite Hr. cbn [mbind option_bind].
  assert (row ∈ m_in sw) as Hrow by by eapply list_elem_of_lookup_2.
  destruct (ref_range row vnet) as (i & Href & Hli); [rewrite (so_rows sw Hsw row) by set_solver; done|]. rewrite Href. cbn [mbind option_bind].
  assert (i ∈ mjoin (m_in sw)) as Hii by (apply list_elem_of_join; exists row; split; [by eapply list_elem_of_lookup_2|done]).
  destruct (proj1 Hp i) as [b Hb]; [rewrite join_app; set_solver|]. rewrite Hb. cbn [mbind option_bind].
  destruct (Hin i Hii) as [HM _].
  assert (Z.of_nat (length (bag s i)) = m_current_size (b_heap b)) as Hsize.
  { unfold bag. rewrite Hb. apply length_elems, (bag_heap _ (bo_bag _ _ _ _ _ _ (nv_buffer _ _ _ _ Hi i b Hb))). }
  unfold visit_cost in *. destruct (drain_ok vnet i M (S (Z.to_nat (m_current_size (b_heap b)))) sw s room) as (sw' & s' & -> & Hsw' & Hi' & Hm & Hst);
    try done; [by exists row|lia|unfold visit_cost; nia|].
  exists sw', s'. split; [done|]. split; [done|]. split; [eapply net_inv_weaken; [|done]; unfold visit_cost; nia|]. done.
Qed.
Lemma process_ports_ok vnet M k : forall incoming sw s room, switch_ok sw -> placed sw s -> Inv room s -> inputs_ok M sw s ->
  0 <= vnet < m_virtual_networks sw -> - 1 <= incoming -> (k <= length (m_in sw))%nat -> Z.of_nat k * visit_cost M sw <= room ->
  exists sw' s', process_ports RANDOMIZATION random g_adaptive_routing isVNetOrdered sort k incoming vnet sw s = Some (sw', s') /\
    switch_ok sw' /\ Inv (room - Z.of_nat k * visit_cost M sw) s' /\ moved sw s sw' s' /\ m_round_robin_start sw' = m_round_robin_start sw.
Proof using random_nonneg sort_permutes.
  induction k as [|k IH]; intros incoming sw s room Hsw Hp Hi Hin Hv Hinc Hk Hroom; cbn [process_ports].
  { exists sw, s. rewrite Z.sub_0_r. split; [done|]. split; [done|]. split; [done|]. split; [by apply moved_same|done]. }
  set (next := if Z.of_nat (length (m_in sw)) <=? incoming + 1 then 0 else incoming + 1).
  assert (0 <= next < Z.of_nat (length (m_in sw))) as Hnext by (unfold next; destruct (Z.leb_spec (Z.of_nat (length (m_in sw))) (incoming + 1)); lia).
  assert (0 < visit_cost M sw) by (unfold visit_cost; nia).
  destruct (process_port_ok next vnet M sw s room Hsw Hp Hi Hin Hv Hnext) as (sw1 & s1 & -> & Hsw1 & Hi1 & Hm1 & Hst1); [lia|]. cbn [mbind option_bind].
  destruct (IH next sw1 s1 (room - visit_cost M sw) Hsw1) as (sw2 & s2 & -> & Hsw2 & Hi2 & Hm2 & Hst2);
    [by eapply moved_placed|done|by eapply moved_inputs|by rewrite (mv_vnets _ _ _ _ Hm1)|lia|rewrite (mv_in _ _ _ _ Hm1); lia| |].
  { unfold visit_cost in *. rewrite (mv_out _ _ _ _ Hm1). lia. }
  exists sw2, s2. split; [done|]. split; [done|]. split; [|split; [by eapply moved_trans|congruence]].
  unfold visit_cost in *. rewrite (mv_out _ _ _ _ Hm1) in Hi2. eapply net_inv_weaken; [|done]. lia.
Qed.
Lemma with_start_ok sw start w : switch_ok sw -> 0 <= start <= Z.of_nat (length (m_in sw)) -> switch_ok (with_start start w sw).
Proof. intros [A B C D E F G H] Hs. by split. Qed.
Lemma process_vnets_ok M vnets : forall sw s room, switch_ok sw -> placed sw s -> Inv room s -> inputs_ok M sw s ->
  (forall v, v ∈ vnets -> 0 <= v < m_virtual_networks sw) ->
  Z.of_nat (length vnets) * (Z.of_nat (length (m_in sw)) * visit_cost M sw) <= room ->
  exists sw' s', process_vnets RANDOMIZATION random g_adaptive_routing isVNetOrdered sort vnets sw s = Some (sw', s') /\
    switch_ok sw' /\ Inv (room - Z.of_nat (length vnets) * (Z.of_nat (length (m_in sw)) * visit_cost M sw)) s' /\ moved sw s sw' s'.
Proof using random_nonneg sort_permutes.
  induction vnets as [|v vnets IH]; intros sw s room Hsw Hp Hi Hin Hv Hroom; cbn [process_vnets].
  { exists sw, s. rewrite Z.sub_0_r. split; [done|]. split; [done|]. split; [done|]. by apply moved_same. }
  set (start := if Z.of_nat (length (m_in sw)) <=? m_round_robin_start sw + 1 then 0 else m_round_robin_start sw + 1).
  destruct (so_start sw Hsw) as [Hs0 Hs1].
  assert (switch_ok (with_start start (m_wakeups_wo_switch sw) sw)) as Hsw0.
  { apply with_start_ok; [done|]. unfold start. destruct (Z.leb_spec (Z.of_nat (length (m_in sw))) (m_round_robin_start sw + 1)); lia. }
  assert (0 < visit_cost M sw) by (unfold visit_cost; nia). cbn [length] in Hroom.
  destruct (process_ports_ok v M (length (m_in sw)) (m_round_robin_start sw) (with_start start (m_wakeups_wo_switch sw) sw) s room Hsw0)
    as (sw1 & s1 & -> & Hsw1 & Hi1 & Hm1 & _); [done|done|done|apply Hv; by left|lia|done|cbn; unfold visit_cost in *; cbn; nia|]. cbn [mbind option_bind].
  assert (moved sw s sw1 s1) as Hm by (eapply moved_trans; [by apply (moved_same sw s (with_start start (m_wakeups_wo_switch sw) sw) s)|done]).
  destruct (IH sw1 s1 (room - Z.of_nat (length (m_in sw)) * visit_cost M sw) Hsw1) as (sw2 & s2 & -> & Hsw2 & Hi2 & Hm2);
    [by eapply moved_placed|exact Hi1|by eapply moved_inputs|intros x Hx; rewrite (mv_vnets _ _ _ _ Hm); apply Hv; by right| |].
  { unfold visit_cost in *. rewrite (mv_out _ _ _ _ Hm), (mv_in _ _ _ _ Hm). nia. }
  exists sw2, s2. split; [done|]. split; [done|]. split; [|by eapply moved_trans].
  unfold visit_cost in *. rewrite (mv_out _ _ _ _ Hm), (mv_in _ _ _ _ Hm) in Hi2. eapply net_inv_weaken; [|done]. cbn [length]. nia.
Qed.

(** Room for the worst case of a wakeup. *)
Definition wakeup_cost (M : nat) sw : Z := m_virtual_networks sw * (Z.of_nat (length (m_in sw)) * visit_cost M sw).
Lemma wakeup_ok M sw s room : switch_ok sw -> placed sw s -> Inv room s -> inputs_ok M sw s -> wakeup_cost M sw <= room ->
  exists sw' s', wakeup RANDOMIZATION random g_adaptive_routing isVNetOrdered sort sw s = Some (sw', s') /\
    switch_ok sw' /\ Inv (room - wakeup_cost M sw) s' /\ moved sw s sw' s'.
Proof using random_nonneg sort_permutes.
  intros Hsw Hp Hi Hin Hroom. pose proof (so_vnets sw Hsw). unfold wakeup, wakeup_cost in *. destruct (so_start sw Hsw).
  assert (forall w, switch_ok (with_start (m_round_robin_start sw) w sw)) as Hsw' by (intros w; by apply with_start_ok).
  destruct (PRIORITY_SWITCH_LIMIT <? m_wakeups_wo_switch sw + 1).
  - destruct (process_vnets_ok M (seqZ 0 (m_virtual_networks sw)) (with_start (m_round_robin_start sw) 0 sw) s room)
      as (sw' & s' & -> & Hsw1 & Hi' & Hm); try done.
    + intros v Hv. apply elem_of_seqZ in Hv. cbn. lia.
    + rewrite length_seqZ, Z2Nat.id by done. exact Hroom.
    + rewrite length_seqZ, Z2Nat.id in Hi' by done. exists sw', s'. split; [done|]. split; [done|]. split; [exact Hi'|].
      eapply moved_trans; [|exact Hm]. by apply moved_same.
  - destruct (process_vnets_ok M (rev (seqZ 0 (m_virtual_networks sw))) (with_start (m_round_robin_start sw) (m_wakeups_wo_switch sw + 1) sw) s room)
      as (sw' & s' & -> & Hsw1 & Hi' & Hm); try done.
    + intros v Hv. apply list_elem_of_In, in_rev, list_elem_of_In, elem_of_seqZ in Hv. cbn. lia.
    + rewrite length_rev, length_seqZ, Z2Nat.id by done. exact Hroom.
    + rewrite length_rev, length_seqZ, Z2Nat.id in Hi' by done. exists sw', s'. split; [done|]. split; [done|]. split; [exact Hi'|].
      eapply moved_trans; [|exact Hm]. by apply moved_same.
Qed.
End switch.

(** ** The contract of the crossbar *)
(** The buffers of one virtual network, inputs and outputs. *)
Definition column (sw : PerfectSwitch) (vnet : Z) : list nat := omap (fun row => ref row vnet) (m_in sw ++ m_out sw).

Section columns.
Implicit Types (rows : list (list nat)) (v x : Z).
Lemma ref_once (row : list nat) v x i : NoDup row -> ref row v = Some i -> ref row x = Some i -> v = x.
Proof.
  unfold ref. destruct (Z.ltb_spec v 0), (Z.ltb_spec x 0); try done. intros Hn Hv Hx.
  pose proof (NoDup_lookup _ _ _ _ Hn Hv Hx). lia.
Qed.
Lemma row_once rows row row' v x i : NoDup (mjoin rows) -> row ∈ rows -> row' ∈ rows ->
  ref row v = Some i -> ref row' x = Some i -> v = x.
Proof.
  induction rows as [|r rows IH]; intros Hn Hr Hr' Hv Hx; [by apply not_elem_of_nil in Hr|]. cbn in Hn. apply NoDup_app in Hn as (Hn1 & Hn2 & Hn3).
  assert (forall r0 y, r0 ∈ rows -> ref r0 y = Some i -> i ∈ mjoin rows) as Hjoin.
  { intros r0 y Hr0 Hy. apply list_elem_of_join. exists r0. split; [by eapply ref_Some|done]. }
  apply elem_of_cons in Hr as [->|Hr], Hr' as [->|Hr'].
  - exact (ref_once _ v x i Hn1 Hv Hx).
  - destruct (Hn2 i); [by eapply ref_Some|by eapply Hjoin].
  - destruct (Hn2 i); [by eapply ref_Some|by eapply Hjoin].
  - by apply IH.
Qed.
Lemma column_once rows v : NoDup (mjoin rows) -> NoDup (omap (fun row => ref row v) rows).
Proof.
  induction rows as [|r rows IH]; intros Hn; cbn; [constructor|]. cbn in Hn. apply NoDup_app in Hn as (Hn1 & Hn2 & Hn3).
  destruct (ref r v) as [i|] eqn:Hi; [|by apply IH]. constructor; [|by apply IH].
  intros (r' & Hr' & Hi')%list_elem_of_omap. apply (Hn2 i); [by eapply ref_Some|]. apply list_elem_of_join. exists r'.
  split; [by eapply ref_Some|done].
Qed.
Lemma column_ok sw vnet : NoDup (mjoin (m_in sw ++ m_out sw)) -> is_column sw vnet (column sw vnet).
Proof.
  intros Hn. split.
  - by apply column_once.
  - intros row i Hrow Hi. apply list_elem_of_omap. by exists row.
  - intros row v i Hrow Hi (row' & Hrow' & Hi')%list_elem_of_omap. exact (row_once _ row row' v vnet i Hn Hrow Hrow' Hi Hi').
Qed.
End columns.

(** The crossbar loses, duplicates and misdelivers nothing. On a switch whose routing table
    reaches every machine its waiting messages are for, and whose buffers have room,
    [wakeup] never fails, under adaptive routing or not: on each virtual network, and for each
    machine, the buffers of the switch hold the same copies of messages for that machine after
    it as before, although a message is split over the links; a new message on an output comes
    from an input and is for machines of the entry of the link; inputs only lose messages; and
    the ports stay as they were. *)
Theorem wakeup_conserves {Q R : Type} RANDOMIZATION random adaptive ordered sort NUM base_count delay M room
    (sw : PerfectSwitch) (s : NetState Q R) :
  (forall k, 0 <= random k) -> (forall o, sort o ≡ₚ o) ->
  switch_ok NUM base_count delay sw -> placed sw s -> net_inv RANDOMIZATION delay room s ->
  inputs_ok NUM base_count M sw s -> wakeup_cost M sw <= room ->
  exists sw' s', wakeup RANDOMIZATION random adaptive ordered sort sw s = Some (sw', s') /\
    switch_ok NUM base_count delay sw' /\ m_in sw' = m_in sw /\ m_out sw' = m_out sw /\
    net_inv RANDOMIZATION delay (room - wakeup_cost M sw) s' /\
    (forall vnet l j, copies s' (column sw vnet) l j ≡ₚ copies s (column sw vnet) l j) /\
    (forall o q, q ∈ contents s' o -> q ∈ contents s o \/ relayed NUM base_count sw s o q) /\
    forall i, i ∈ mjoin (m_in sw) -> exists taken, bag s i ≡ₚ taken ++ bag s' i.
Proof.
  intros Hrnd Hsort Hsw Hp Hi Hin Hroom.
  destruct (wakeup_ok RANDOMIZATION random Hrnd adaptive ordered sort Hsort NUM base_count delay M sw s room Hsw Hp Hi Hin Hroom)
    as (sw' & s' & Hw & Hsw' & Hi' & Hm). exists sw', s'. split; [done|]. split; [done|]. split; [apply Hm|]. split; [apply Hm|].
  split; [done|]. split; [|split; apply Hm]. intros vnet l j. apply (mv_copies _ _ _ _ _ _ Hm vnet), column_ok, Hsw.
Qed.

(** ** A switch with one input and two outputs, and the example network *)
Definition example_switch : PerfectSwitch :=
  mkSwitch 0 [[0%nat]] [[1%nat]; [2%nat]] [one_machine; two_machines] [mkLink 0 0; mkLink 1 0] 1 0 0.
Lemma example_switch_ok : switch_ok 3 gpu_count example_delay example_switch.
Proof.
  split; cbn; try done.
  - intros row Hr. repeat (apply elem_of_cons in Hr as [->|Hr]; [done|]). by apply not_elem_of_nil in Hr.
  - repeat constructor; set_solver.
  - intros e He. destruct machines_wf. apply elem_of_cons in He as [->|He]; [done|]. by apply list_elem_of_singleton in He as ->.
Qed.
Lemma example_inputs_ok : inputs_ok 3 gpu_count 1 example_switch example_net.
Proof.
  destruct loaded_ok as (n & k & Hbag & Hel & Hmsg & _). intros i ->%list_elem_of_singleton.
  assert (bag example_net 0 = [n]) as -> by (rewrite <-Hel; reflexivity). split; [cbn; lia|]. constructor; [|done].
  intros m Hm. assert (m = mkMessage (payload multicast) (n_time n) k) as -> by congruence. cbn. split; [apply machines_wf|].
  intros l j Hh. exists two_machines. split; [right; by left|done].
Qed.

(** The message goes out on both links, each copy for one machine. *)
Lemma wakeup_conserves_witness :
  let w := wakeup false (fun _ => 0) false (fun _ => false) (fun o => o) example_switch example_net in
  exists sw' s', w = Some (sw', s') /\ (length (bag s' 0), length (bag s' 1), length (bag s' 2)) = (0, 1, 1)%nat /\
    copies s' (column example_switch 0) 0 1 ≡ₚ [7] /\ copies s' (column example_switch 0) 0 2 ≡ₚ [7].
Proof.
  destruct (wakeup_conserves false (fun _ => 0) false (fun _ => false) (fun o => o) 3 gpu_count example_delay 1 50 example_switch example_net)
    as (sw' & s' & Hw & _ & _ & _ & _ & Hc & _); [done|done|exact example_switch_ok| |exact example_net_inv|exact example_inputs_ok|by vm_compute|].
  - split; [|apply (bool_decide_unpack _); by vm_compute]. intros i Hi.
    repeat (apply elem_of_cons in Hi as [->|Hi]; [vm_compute; by eexists|]). by apply not_elem_of_nil in Hi.
  - cbn zeta. exists sw', s'. split; [exact Hw|]. split; [vm_compute in Hw; injection Hw as <- <-; reflexivity|].
    split; [apply (Hc 0 0%nat 1)|apply (Hc 0 0%nat 2)].
Defined.
