(* ===== verification/Throttle.v ===== *)
(** The links of the network: [network/simple/Throttle.C] and [Throttle.h]. A throttle moves the
    messages of the intermediate queues of an output port to the next switch, no more in a
    cycle than the bandwidth of the link. *)
From S2P Require Import Prelude Vector Config Address PrioHeap EventQueue MessageBuffer NodeSet NetDest MessageSize NetBuffers.

Definition HIGH_RANGE : Z := 256.
Definition ADJUST_INTERVAL : Z := 50000.
Definition MESSAGE_SIZE_MULTIPLIER : Z := 1000.
Definition BROADCAST_SCALING : Z := 1.
Definition PRIORITY_SWITCH_LIMIT : Z := 128.

(** [t_self] is the throttle as a consumer of the scheduler; its name and its share of the time
    it was busy, a floating-point statistic, are left out. *)
Record Throttle := mkThrottle {
  t_self : nat; t_in : list nat; t_out : list nat; m_message_counters : list (list Z); m_vnets : Z; m_units_remaining : list Z;
  m_bash_counter : Z; m_bandwidth_since_sample : Z; m_last_bandwidth_sample : Z;
  m_link_bandwidth_multiplier : Z; m_link_latency : Z; t_wakeups_wo_switch : Z }.

Section throttle.
Context {Q R : Type}.
Abbreviation Net := (NetState Q R).
Implicit Types (t : Throttle) (s : Net) (vnet : Z) (m : Message (NetworkMessage Q)).
Variables (RANDOMIZATION : bool) (random : nat -> Z).
(** The configuration; [over_threshold used bandwidth] is the floating-point comparison of the
    utilization with [g_bash_bandwidth_adaptive_threshold]. *)
Variables (g_endpoint_bandwidth DATA_MESSAGE_SIZE : Z) (over_threshold : Z -> Z -> bool).

Definition with_units (u : list Z) t : Throttle :=
  mkThrottle (t_self t) (t_in t) (t_out t) (m_message_counters t) (m_vnets t) u (m_bash_counter t) (m_bandwidth_since_sample t)
    (m_last_bandwidth_sample t) (m_link_bandwidth_multiplier t) (m_link_latency t) (t_wakeups_wo_switch t).
Definition with_counters (c : list (list Z)) t : Throttle :=
  mkThrottle (t_self t) (t_in t) (t_out t) c (m_vnets t) (m_units_remaining t) (m_bash_counter t) (m_bandwidth_since_sample t)
    (m_last_bandwidth_sample t) (m_link_bandwidth_multiplier t) (m_link_latency t) (t_wakeups_wo_switch t).
Definition with_wakeups (n : Z) t : Throttle :=
  mkThrottle (t_self t) (t_in t) (t_out t) (m_message_counters t) (m_vnets t) (m_units_remaining t) (m_bash_counter t) (m_bandwidth_since_sample t)
    (m_last_bandwidth_sample t) (m_link_bandwidth_multiplier t) (m_link_latency t) n.
Definition with_samples (counter since last : Z) t : Throttle :=
  mkThrottle (t_self t) (t_in t) (t_out t) (m_message_counters t) (m_vnets t) (m_units_remaining t) counter since last
    (m_link_bandwidth_multiplier t) (m_link_latency t) (t_wakeups_wo_switch t).

Definition clearStats t : Throttle := with_counters ((fun row : list Z => (fun _ => 0) <$> row) <$> m_message_counters t) t.
(** [init], which both constructors call. *)
Definition Throttle_init (self : nat) (link_latency link_bandwidth_multiplier : Z) : option Throttle :=
  assert! 0 <? link_bandwidth_multiplier;
  Some (clearStats (mkThrottle self [] [] [] 0 [] HIGH_RANGE 0 0 link_bandwidth_multiplier link_latency 0)).
Definition getLinkBandwidth t : Z := s32 (g_endpoint_bandwidth * m_link_bandwidth_multiplier t).

Definition addVirtualNetwork (i o : nat) t s : option (Throttle * Net) :=
  let t := mkThrottle (t_self t) (t_in t ++ [i]) (t_out t ++ [o]) (m_message_counters t) (m_vnets t) (m_units_remaining t ++ [0])
             (m_bash_counter t) (m_bandwidth_since_sample t) (m_last_bandwidth_sample t)
             (m_link_bandwidth_multiplier t) (m_link_latency t) (t_wakeups_wo_switch t) in
  i ← ref (t_in t) (m_vnets t);
  s ← net_setConsumer (t_self t) i s;
  Some (mkThrottle (t_self t) (t_in t) (t_out t) (m_message_counters t) (m_vnets t + 1) (m_units_remaining t)
          (m_bash_counter t) (m_bandwidth_since_sample t) (m_last_bandwidth_sample t)
          (m_link_bandwidth_multiplier t) (m_link_latency t) (t_wakeups_wo_switch t), s).
Fixpoint add_networks (l : list (nat * nat)) t s : option (Throttle * Net) :=
  match l with
  | [] => Some (t, s)
  | (i, o) :: l => '(t, s) ← addVirtualNetwork i o t s; add_networks l t s
  end.
Definition addLinks (in_vec out_vec : list nat) t s : option (Throttle * Net) :=
  assert! Nat.eqb (length in_vec) (length out_vec);
  '(t, s) ← add_networks (zip in_vec out_vec) t s;
  Some (with_counters (replicate MessageSizeType_NUM (replicate (length in_vec) 0)) t, s).
Definition Throttle_clear t s : option Net :=
  for_all (fun k s => i ← t_in t !! k; o ← t_out t !! k; s ← net_clear i s; net_clear o s) (seq 0 (Z.to_nat (m_vnets t))) s.

Definition network_message_to_size m : option Z :=
  n ← MessageSizeType_to_int DATA_MESSAGE_SIZE (nm_message_size (payload m));
  if 1 <? BROADCAST_SCALING then
    b ← nd_isBroadcast (nm_destination (payload m));
    Some (if (b : bool) then s32 (s32 (n * MESSAGE_SIZE_MULTIPLIER) * BROADCAST_SCALING) else s32 (n * MESSAGE_SIZE_MULTIPLIER))
  else Some (s32 (n * MESSAGE_SIZE_MULTIPLIER)).

(** *** One virtual network *)
Definition count_message m vnet t : option Throttle :=
  row ← m_message_counters t !! size_number (nm_message_size (payload m));
  n ← ref row vnet;
  Some (with_counters (<[size_number (nm_message_size (payload m)) := <[Z.to_nat vnet := s32 (n + 1)]> row]> (m_message_counters t)) t).
(** The first message of the input starts to be sent, and moves at once. *)
Definition start_message (i o : nat) vnet t s : option (Throttle * Net) :=
  m ← net_peek i s;
  size ← network_message_to_size m;
  units ← ref (m_units_remaining t) vnet;
  s ← net_enqueue RANDOMIZATION random o m (m_link_latency t) s;
  s ← net_pop i s;
  t ← count_message m vnet (with_units (<[Z.to_nat vnet := s32 (units + size)]> (m_units_remaining t)) t);
  Some (t, s).
(** There is something to send on the link. *)
Definition waiting (i : nat) vnet t s : option bool :=
  r ← net_isReady i s; units ← ref (m_units_remaining t) vnet; Some (r || (0 <? units)).
Fixpoint send_messages (fuel : nat) (i o : nat) vnet (bw_remaining : Z) t s : option (Z * Throttle * Net) :=
  match fuel with
  | O => None
  | S fuel =>
      if negb (0 <? bw_remaining) then Some (bw_remaining, t, s) else
      w ← waiting i vnet t s;
      if negb w then Some (bw_remaining, t, s) else
      '(room, s) ← net_slots o 1 s;
      if negb room then Some (bw_remaining, t, s) else
      units ← ref (m_units_remaining t) vnet;
      ready ← net_isReady i s;
      '(t, s) ← (if (units =? 0) && ready then start_message i o vnet t s else Some (t, s));
      units ← ref (m_units_remaining t) vnet;
      let diff := s32 (units - bw_remaining) in
      send_messages fuel i o vnet (Z.max 0 (s32 (- diff))) (with_units (<[Z.to_nat vnet := Z.max 0 diff]> (m_units_remaining t)) t) s
  end.
(** The output is full although there is bandwidth left and something to send. *)
Definition blocked (i o : nat) vnet (bw_remaining : Z) t s : option (bool * Net) :=
  if negb (0 <? bw_remaining) then Some (false, s) else
  w ← waiting i vnet t s;
  if negb w then Some (false, s) else
  '(room, s) ← net_slots o 1 s;
  Some (negb room, s).
Fixpoint throttle_vnets (vnets : list Z) (bw_remaining : Z) (schedule_wakeup : bool) t s : option (Z * bool * Throttle * Net) :=
  match vnets with
  | [] => Some (bw_remaining, schedule_wakeup, t, s)
  | vnet :: vnets =>
      o ← ref (t_out t) vnet;
      i ← ref (t_in t) vnet;
      units ← ref (m_units_remaining t) vnet;
      assert! 0 <=? units;
      '(bw_remaining, t, s) ← send_messages (S (Z.to_nat bw_remaining)) i o vnet bw_remaining t s;
      '(b, s) ← blocked i o vnet bw_remaining t s;
      throttle_vnets vnets bw_remaining (schedule_wakeup || b) t s
  end.

(** *** The use of the link, sampled *)
Fixpoint sample (fuel : nat) (current_time : Z) t : option Throttle :=
  match fuel with
  | O => None
  | S fuel =>
      if negb (ADJUST_INTERVAL <? current_time - m_last_bandwidth_sample t) then Some t else
      let counter := if over_threshold (m_bandwidth_since_sample t) (getLinkBandwidth t) then m_bash_counter t + 1 else m_bash_counter t - 1 in
      sample fuel current_time
        (with_samples (Z.max 0 (Z.min HIGH_RANGE counter)) 0 (m_last_bandwidth_sample t + ADJUST_INTERVAL) t)
  end.

Definition Throttle_wakeup t s : option (Throttle * Net) :=
  assert! 0 <? getLinkBandwidth t;
  let wakeups := t_wakeups_wo_switch t + 1 in
  let vnets := seqZ 0 (m_vnets t) in
  let '(vnets, wakeups) := if PRIORITY_SWITCH_LIMIT <? wakeups then (vnets, 0) else (rev vnets, wakeups) in
  '(bw_remaining, schedule_wakeup, t, s) ← throttle_vnets vnets (getLinkBandwidth t) false (with_wakeups wakeups t) s;
  let used := getLinkBandwidth t - bw_remaining in
  let t := with_samples (m_bash_counter t) (s32 (m_bandwidth_since_sample t + used)) (m_last_bandwidth_sample t) t in
  let now := getTime (net_world s) in
  t ← sample (S (Z.to_nat ((now - m_last_bandwidth_sample t) / ADJUST_INTERVAL))) now t;
  if (0 <? bw_remaining) && negb schedule_wakeup then Some (t, s) else
  s ← net_schedule (t_self t) 1 s;
  Some (t, s).

Definition broadcastBandwidthAvailable (rand : Z) t : bool :=
  negb (Z.quot HIGH_RANGE 4 + Z.rem rand (Z.quot HIGH_RANGE 2) <? m_bash_counter t).
End throttle.
