(* ===== verification/ThrottleSafe.v ===== *)
(** The throttles of the network move every message on, within the bandwidth of the link, and
    are woken again while there is something left to send. *)
From S2P Require Import Prelude Vector Config Address PrioHeap EventQueue MessageBuffer NodeSet NetDest MessageSize NetBuffers Throttle.

(** ** One virtual network *)
Section throttle.
Context {Q R : Type}.
Variables (RANDOMIZATION : bool) (random : nat -> Z).
Hypothesis random_nonneg : forall k, 0 <= random k.
Variables (g_endpoint_bandwidth DATA_MESSAGE_SIZE : Z) (over_threshold : Z -> Z -> bool).
Hypothesis data_size : 0 <= DATA_MESSAGE_SIZE < 2 ^ 20.
Variable delay : nat -> option Z.
Implicit Types (t : Throttle) (s : NetState Q R) (i o : nat) (m : Message (NetworkMessage Q)) (q : NetworkMessage Q) (vnet : Z).
Abbreviation Inv := (net_inv (Q := Q) (R := R) RANDOMIZATION delay).
Abbreviation bandwidth := (getLinkBandwidth g_endpoint_bandwidth).

(** The units of bandwidth a message takes. *)
Definition weight q : Z := from_option id 0 (network_message_to_size DATA_MESSAGE_SIZE (mkMessage q 0 0)).
Definition weights (l : list (NetworkMessage Q)) : Z := total (weight <$> l).
Definition sized q : Prop := nm_message_size q <> MessageSizeType_Undefined.
Lemma message_size m : sized (payload m) -> network_message_to_size DATA_MESSAGE_SIZE m = Some (weight (payload m)) /\ 0 < weight (payload m) < 2 ^ 30.
Proof using data_size.
  intros Hs. unfold weight, network_message_to_size. cbn [payload].
  destruct (MessageSizeType_to_int DATA_MESSAGE_SIZE (nm_message_size (payload m))) as [n|] eqn:Hn.
  - cbn. split; [done|]. pose proof (size_range _ _ _ data_size Hn). unfold MESSAGE_SIZE_MULTIPLIER. rewrite s32_small by lia. lia.
  - exfalso. unfold sized in Hs. by destruct (nm_message_size (payload m)).
Qed.

(** A throttle with one input, output and count of units for each virtual network. *)
Record throttle_ok t : Prop := {
  th_in : Z.of_nat (length (t_in t)) = m_vnets t;
  th_out : Z.of_nat (length (t_out t)) = m_vnets t;
  th_once : NoDup (t_in t ++ t_out t);
  th_units : Z.of_nat (length (m_units_remaining t)) = m_vnets t;
  th_range : Forall (fun u => 0 <= u < 2 ^ 30) (m_units_remaining t);
  th_counters : length (m_message_counters t) = MessageSizeType_NUM;
  th_counts : Forall (fun row => Z.of_nat (length row) = m_vnets t) (m_message_counters t);
  th_bandwidth : 0 < bandwidth t;
  th_delay o : o ∈ t_out t -> delay o = Some (m_link_latency t);
  th_bash : 0 <= m_bash_counter t <= HIGH_RANGE }.
(** What a wakeup leaves as it is. *)
Record same_ports t t' : Prop := {
  sp_self : t_self t' = t_self t;
  sp_in : t_in t' = t_in t;
  sp_out : t_out t' = t_out t;
  sp_vnets : m_vnets t' = m_vnets t;
  sp_mult : m_link_bandwidth_multiplier t' = m_link_bandwidth_multiplier t;
  sp_latency : m_link_latency t' = m_link_latency t }.
#[export] Instance same_ports_preorder : PreOrder same_ports.
Proof. split; [by split|]. intros ??? [] []. split; congruence. Qed.
Lemma same_ports_bandwidth t t' : same_ports t t' -> bandwidth t' = bandwidth t.
Proof. intros [? ? ? ? H ?]. unfold getLinkBandwidth. by rewrite H. Qed.
Lemma with_units_ok t vnet u : throttle_ok t -> 0 <= u < 2 ^ 30 -> throttle_ok (with_units (<[Z.to_nat vnet := u]> (m_units_remaining t)) t).
Proof.
  intros [A B C D E F G H I J] Hu. split; cbn; try done.
  - by rewrite length_insert.
  - by apply Forall_insert.
Qed.
Lemma count_ok m vnet t : throttle_ok t -> 0 <= vnet < m_vnets t ->
  exists c, count_message m vnet t = Some (with_counters c t) /\ throttle_ok (with_counters c t).
Proof.
  intros Ht Hv. unfold count_message. pose proof (size_number_lt (nm_message_size (payload m))) as Hs. rewrite <-(th_counters t Ht) in Hs.
  destruct (lookup_lt_is_Some_2 _ _ Hs) as [row Hrow]. rewrite Hrow. cbn.
  pose proof (proj1 (Forall_lookup _ _) (th_counts t Ht) _ _ Hrow) as Hl. cbn in Hl.
  destruct (ref_range row vnet) as (n & -> & _); [lia|]. cbn. eexists. split; [done|]. destruct Ht as [A B C D E F G H I J]. split; cbn; try done.
  - by rewrite length_insert.
  - apply Forall_insert; [done|]. by rewrite length_insert.
Qed.

(** Messages [moved] go from [i] to [o], and the count of units of [vnet] records what is still
    to be paid for them. *)
Record carried i o vnet (moved : list (NetworkMessage Q)) (bw : Z) t s (bw' : Z) t' s' : Prop := {
  cr_ports : same_ports t t';
  cr_bash : m_bash_counter t' = m_bash_counter t;
  cr_frame : frame s s';
  cr_in : contents s i ≡ₚ moved ++ contents s' i;
  cr_out : contents s' o ≡ₚ moved ++ contents s o;
  cr_bw : 0 <= bw' <= bw;
  cr_units : exists u u', ref (m_units_remaining t) vnet = Some u /\
    m_units_remaining t' = <[Z.to_nat vnet := u']> (m_units_remaining t) /\ u' + (bw - bw') = u + weights moved;
  cr_other j : j <> i -> j <> o -> buffers s' !! j = buffers s !! j }.

Lemma weights_app l k : weights (l ++ k) = weights l + weights k.
Proof. unfold weights. by rewrite fmap_app, total_app. Qed.
Lemma ref_insert (l : list Z) vnet x u : ref l vnet = Some x -> ref (<[Z.to_nat vnet := u]> l) vnet = Some u.
Proof.
  unfold ref. destruct (vnet <? 0); [done|]. intros H. rewrite list_lookup_insert_eq; [done|]. by eapply lookup_lt_Some.
Qed.
Lemma carried_refl i o vnet bw t s s' u : ref (m_units_remaining t) vnet = Some u -> 0 <= bw -> frame s s' ->
  (forall j, bag s' j = bag s j) -> (forall j, j <> o -> buffers s' !! j = buffers s !! j) -> carried i o vnet [] bw t s bw t s'.
Proof.
  intros Hu Hbw Hf Hb Ho. split; [done|done|done|unfold contents; by rewrite Hb|unfold contents; by rewrite Hb|lia| |by intros j _ ?; apply Ho].
  exists u, u. split; [done|]. split; [|unfold weights; cbn; lia]. symmetry. apply list_insert_id. by apply ref_Some in Hu as [? _].
Qed.
Lemma carried_trans i o vnet mv1 mv2 bw1 t1 s1 bw2 t2 s2 bw3 t3 s3 : carried i o vnet mv1 bw1 t1 s1 bw2 t2 s2 ->
  carried i o vnet mv2 bw2 t2 s2 bw3 t3 s3 -> carried i o vnet (mv1 ++ mv2) bw1 t1 s1 bw3 t3 s3.
Proof.
  intros [A1 B1 C1 D1 E1 F1 (u1 & u1' & G1 & H1 & I1) J1] [A2 B2 C2 D2 E2 F2 (u2 & u2' & G2 & H2 & I2) J2]. split.
  - by etransitivity.
  - congruence.
  - by etransitivity.
  - by rewrite D1, D2, app_assoc.
  - rewrite E2, E1, !app_assoc. f_equiv. apply Permutation_app_comm.
  - lia.
  - exists u1, u2'. split; [done|]. rewrite H1 in G2. rewrite (ref_insert _ _ _ u1' G1) in G2. injection G2 as <-.
    split; [rewrite H2, H1; apply list_insert_insert_eq|]. rewrite weights_app. lia.
  - intros j Hi Ho. rewrite J2, J1; done.
Qed.

(** A message is started. *)
Lemma start_message_ok i o vnet t s room : throttle_ok t -> Inv room s -> 1 <= room -> i <> o -> 0 <= vnet < m_vnets t ->
  net_isReady i s = Some true -> is_Some (buffers s !! o) -> delay o = Some (m_link_latency t) -> Forall sized (contents s i) ->
  ref (m_units_remaining t) vnet = Some 0 ->
  exists q c s', start_message RANDOMIZATION random DATA_MESSAGE_SIZE i o vnet t s =
      Some (with_counters c (with_units (<[Z.to_nat vnet := weight q]> (m_units_remaining t)) t), s') /\
    throttle_ok (with_counters c (with_units (<[Z.to_nat vnet := weight q]> (m_units_remaining t)) t)) /\ 0 < weight q < 2 ^ 30 /\
    Inv (room - 1) s' /\ frame s s' /\ contents s i ≡ₚ q :: contents s' i /\ contents s' o ≡ₚ q :: contents s o /\
    forall j, j <> i -> j <> o -> buffers s' !! j = buffers s !! j.
Proof using random_nonneg data_size.
  intros Ht Hi Hroom Hio Hv Hr Ho Hd Hsz Hu. unfold start_message.
  destruct (net_read RANDOMIZATION delay room s i Hi Hr) as (n & m & -> & Hmsg & Hn & Hle & Hpop). cbn [mbind option_bind].
  assert (sized (payload m)) as Hsm.
  { eapply (proj1 (Forall_forall _ _) Hsz). apply list_elem_of_omap. exists n. by rewrite Hmsg. }
  destruct (message_size m Hsm) as [-> Hw]. cbn [mbind option_bind]. rewrite Hu. cbn [mbind option_bind].
  destruct (net_enqueue_ok RANDOMIZATION random random_nonneg delay room s o m (m_link_latency t) Hi Hroom Ho Hd Hle)
    as (s1 & n' & m' & -> & Hi1 & Hf1 & Hbag & Hn' & Hpay & Hoth). cbn [mbind option_bind].
  destruct (Hpop s1 (Hoth i Hio) (fr_time _ _ Hf1) _ Hi1) as (s2 & -> & Hi2 & Hf2 & Hbag2 & Hoth2 & _). cbn [mbind option_bind].
  rewrite Z.add_0_l, s32_small by lia.
  destruct (count_ok m vnet (with_units (<[Z.to_nat vnet := weight (payload m)]> (m_units_remaining t)) t)) as (c & -> & Hc); [apply with_units_ok; [done|lia]|done|].
  cbn [mbind option_bind]. exists (payload m), c, s2. split; [done|]. split; [done|]. split; [lia|]. split; [done|]. split; [by etransitivity|].
  split; [rewrite <-(contents_buffer s s1 i) by (by apply Hoth); by eapply contents_cons|].
  split; [|intros j Hj1 Hj2; rewrite Hoth2, Hoth; done].
  rewrite (contents_buffer s1 s2 o) by (apply Hoth2; congruence). rewrite <-Hpay. by eapply contents_cons.
Qed.

(** Part of the bandwidth is spent on the message under way. *)
Lemma spend u bw : 0 <= u < 2 ^ 30 -> 0 < bw < 2 ^ 31 ->
  Z.max 0 (s32 (- s32 (u - bw))) = Z.max 0 (bw - u) /\ Z.max 0 (s32 (u - bw)) = Z.max 0 (u - bw).
Proof. intros Hu Hb. rewrite (s32_small (u - bw)) by lia. rewrite s32_small by lia. split; f_equal; lia. Qed.
Lemma spent_ok i o vnet t t1 s s1 bw u u1 moved : ref (m_units_remaining t) vnet = Some u -> throttle_ok t1 -> same_ports t t1 ->
  m_bash_counter t1 = m_bash_counter t -> m_units_remaining t1 = <[Z.to_nat vnet := u1]> (m_units_remaining t) ->
  0 <= u1 < 2 ^ 30 -> 0 < bw < 2 ^ 31 -> u1 = u + weights moved -> frame s s1 ->
  contents s i ≡ₚ moved ++ contents s1 i -> contents s1 o ≡ₚ moved ++ contents s o -> (forall j, j <> i -> j <> o -> buffers s1 !! j = buffers s !! j) ->
  let t2 := with_units (<[Z.to_nat vnet := Z.max 0 (u1 - bw)]> (m_units_remaining t1)) t1 in
  throttle_ok t2 /\ carried i o vnet moved bw t s (Z.max 0 (bw - u1)) t2 s1.
Proof.
  intros Hu Ht Hp Hb Hu1 Hr Hbw Hw Hf Hin Hout Hoth. split.
  - apply with_units_ok; [done|lia].
  - split; [by destruct Hp; split|done|done|done|done|lia| |done]. exists u, (Z.max 0 (u1 - bw)). split; [done|].
    split; [cbn; rewrite Hu1; apply list_insert_insert_eq|lia].
Qed.

Lemma waiting_ok i vnet t s room u : Inv room s -> is_Some (buffers s !! i) -> ref (m_units_remaining t) vnet = Some u ->
  exists r, net_isReady i s = Some r /\ waiting i vnet t s = Some (r || (0 <? u)).
Proof.
  intros Hi Hb Hu. destruct (net_ready_ok RANDOMIZATION delay room s i Hi Hb) as (r & Hr & _). exists r. split; [done|].
  unfold waiting. by rewrite Hr, Hu.
Qed.
Lemma waiting_same i vnet t s s' : buffers s' !! i = buffers s !! i -> getTime (net_world s') = getTime (net_world s) ->
  waiting i vnet t s' = waiting i vnet t s.
Proof. intros H Ht. unfold waiting. by rewrite (isReady_same s s' i). Qed.

(** The buffers of a virtual network exist; the messages at its input have a size. *)
Record wired i o vnet t s : Prop := {
  wi_in : ref (t_in t) vnet = Some i;
  wi_out : ref (t_out t) vnet = Some o;
  wi_i : is_Some (buffers s !! i);
  wi_o : is_Some (buffers s !! o);
  wi_sized : Forall sized (contents s i) }.
Lemma wired_apart i o vnet t s : throttle_ok t -> wired i o vnet t s ->
  i <> o /\ 0 <= vnet < m_vnets t /\ delay o = Some (m_link_latency t) /\ exists u, ref (m_units_remaining t) vnet = Some u /\ 0 <= u < 2 ^ 30.
Proof.
  intros Ht [Hi Ho _ _ _]. apply ref_Some in Ho as [Hlo Ho]. assert (Hi' := Hi). apply ref_Some in Hi as [Hl Hin].
  assert (0 <= vnet) as Hv by (unfold ref in Hi'; by destruct (Z.ltb_spec vnet 0)).
  pose proof (lookup_lt_Some _ _ _ Hl). pose proof (th_in t Ht). pose proof (th_units t Ht). split.
  { intros ->. pose proof (th_once t Ht) as Hn. apply NoDup_app in Hn as (_ & Hn & _). by eapply Hn. }
  split; [lia|]. split; [by apply th_delay|]. destruct (ref_range (m_units_remaining t) vnet) as (u & Hu & Hlu); [lia|].
  exists u. split; [done|]. by apply (proj1 (Forall_lookup _ _) (th_range t Ht) _ _ Hlu).
Qed.
Lemma wired_carried i o vnet moved bw t s bw' t' s' : carried i o vnet moved bw t s bw' t' s' -> wired i o vnet t s -> wired i o vnet t' s'.
Proof.
  intros H [A B C D E]. split.
  - by rewrite (sp_in _ _ (cr_ports _ _ _ _ _ _ _ _ _ _ H)).
  - by rewrite (sp_out _ _ (cr_ports _ _ _ _ _ _ _ _ _ _ H)).
  - apply elem_of_dom. rewrite (fr_buffers _ _ (cr_frame _ _ _ _ _ _ _ _ _ _ H)). by apply elem_of_dom.
  - apply elem_of_dom. rewrite (fr_buffers _ _ (cr_frame _ _ _ _ _ _ _ _ _ _ H)). by apply elem_of_dom.
  - rewrite (cr_in _ _ _ _ _ _ _ _ _ _ H) in E. by apply Forall_app in E as [_ E].
Qed.

(** One turn of the loop. *)
Lemma turn_ok i o vnet bw t s room r u : throttle_ok t -> Inv room s -> wired i o vnet t s -> 0 < bw < 2 ^ 31 ->
  net_isReady i s = Some r -> ref (m_units_remaining t) vnet = Some u -> r || (0 <? u) = true ->
  Z.of_nat (length (contents s i)) <= room ->
  exists t1 s1 u1 moved, (if (u =? 0) && r then start_message RANDOMIZATION random DATA_MESSAGE_SIZE i o vnet t s else Some (t, s)) = Some (t1, s1) /\
    ref (m_units_remaining t1) vnet = Some u1 /\ 0 < u1 < 2 ^ 30 /\ Inv (room - Z.of_nat (length moved)) s1 /\
    let t2 := with_units (<[Z.to_nat vnet := Z.max 0 (u1 - bw)]> (m_units_remaining t1)) t1 in
    throttle_ok t2 /\ carried i o vnet moved bw t s (Z.max 0 (bw - u1)) t2 s1.
Proof using random_nonneg data_size.
  intros Ht Hi Hw Hbw Hr Hu Hgo Hroom. destruct (wired_apart i o vnet t s Ht Hw) as (Hio & Hv & Hd & u' & Hu' & Hur). assert (u' = u) as -> by congruence.
  destruct ((u =? 0) && r) eqn:Hstart.
  - apply andb_true_iff in Hstart as [->%Z.eqb_eq ->].
    assert (1 <= Z.of_nat (length (contents s i))) as Hne.
    { destruct (net_read RANDOMIZATION delay room s i Hi Hr) as (n & m & _ & Hmsg & Hn & _).
      assert (payload m ∈ contents s i) as Hin by (apply list_elem_of_omap; exists n; by rewrite Hmsg).
      destruct (contents s i); [by apply not_elem_of_nil in Hin|cbn; lia]. }
    destruct (start_message_ok i o vnet t s room Ht Hi ltac:(lia) Hio Hv Hr (wi_o _ _ _ _ _ Hw) Hd (wi_sized _ _ _ _ _ Hw) Hu)
      as (q & c & s1 & -> & Hok & Hq & Hi1 & Hf & Hin & Hout & Hoth).
    eexists _, s1, (weight q), [q]. split; [done|]. split; [cbn; by eapply ref_insert|]. split; [done|]. split; [done|].
    eapply spent_ok; [done|done|by split|done|done|lia|done| |done..]. unfold weights. cbn. lia.
  - assert (0 < u) as Hpos by (destruct r; [rewrite andb_true_r in Hstart; apply Z.eqb_neq in Hstart; lia|by apply Z.ltb_lt]).
    exists t, s, u, []. split; [done|]. split; [done|]. split; [lia|]. split; [by rewrite Z.sub_0_r|].
    eapply spent_ok; try done; [symmetry; apply list_insert_id; by apply ref_Some in Hu as [? _]|unfold weights; cbn; lia].
Qed.

(** The loop ends, out of bandwidth, or with nothing to send, or with a full output. *)
Lemma loop_ok i o vnet fuel : forall bw t s room, throttle_ok t -> Inv room s -> wired i o vnet t s -> 0 <= bw < 2 ^ 31 ->
  (Z.to_nat bw < fuel)%nat -> Z.of_nat (length (contents s i)) <= room ->
  exists bw' t' s' moved, send_messages RANDOMIZATION random DATA_MESSAGE_SIZE fuel i o vnet bw t s = Some (bw', t', s') /\
    throttle_ok t' /\ Inv (room - Z.of_nat (length moved)) s' /\ carried i o vnet moved bw t s bw' t' s' /\
    (0 < bw' -> waiting i vnet t' s' = Some true -> exists s0, net_slots o 1 s' = Some (false, s0)).
Proof using random_nonneg data_size.
  induction fuel as [|fuel IH]; intros bw t s room Ht Hi Hw Hbw Hfuel Hroom; [lia|]. cbn [send_messages].
  destruct (wired_apart i o vnet t s Ht Hw) as (Hio & _ & _ & u & Hu & _).
  assert (Inv (room - Z.of_nat (length (@nil (NetworkMessage Q)))) s) as Hi0 by (cbn [length]; by rewrite Z.sub_0_r).
  destruct (Z.ltb_spec 0 bw); cbn [negb].
  2: { exists bw, t, s, []. split; [done|]. split; [done|]. split; [done|]. split; [eapply carried_refl; [exact Hu|lia|done..]|]. lia. }
  destruct (waiting_ok i vnet t s room u Hi (wi_i _ _ _ _ _ Hw) Hu) as (r & Hr & Hwait). rewrite Hwait. cbn [mbind option_bind].
  destruct (r || (0 <? u)) eqn:Hgo; cbn [negb].
  2: { exists bw, t, s, []. split; [done|]. split; [done|]. split; [done|]. split; [eapply carried_refl; [exact Hu|lia|done..]|]. intros _. congruence. }
  destruct (net_slots_ok RANDOMIZATION delay room s o 1 Hi (wi_o _ _ _ _ _ Hw)) as (b & s1 & Hslots & Hi1 & Hf1 & Hb1 & Hoth1).
  assert (carried i o vnet [] bw t s bw t s1) as Hc1 by (eapply carried_refl; [exact Hu|lia|done..]).
  pose proof (wired_carried _ _ _ _ _ _ _ _ _ _ Hc1 Hw) as Hw1.
  rewrite Hslots. cbn [mbind option_bind]. destruct b; cbn [negb].
  2: { exists bw, t, s1, []. split; [done|]. split; [done|]. split; [cbn [length]; by rewrite Z.sub_0_r|]. split; [done|].
       intros _ _. by eapply slots_again. }
  rewrite Hu. cbn [mbind option_bind].
  assert (net_isReady i s1 = Some r) as Hr1 by (rewrite <-Hr; apply isReady_same; [by apply Hoth1|apply Hf1]).
  rewrite Hr1. cbn [mbind option_bind].
  assert (contents s1 i = contents s i) as Hcon by (unfold contents; by rewrite Hb1).
  destruct (turn_ok i o vnet bw t s1 room r u Ht Hi1 Hw1) as (t2 & s2 & u2 & moved & -> & Hu2 & Hr2 & Hi2 & Ht3 & Hc2);
    [lia|done|done|done|by rewrite Hcon|]. cbn [mbind option_bind]. rewrite Hu2. cbn [mbind option_bind].
  destruct (spend u2 bw) as [-> ->]; [lia|lia|].
  pose proof (Permutation_length (cr_in _ _ _ _ _ _ _ _ _ _ Hc2)) as Hlen. rewrite length_app, Hcon in Hlen.
  destruct (IH (Z.max 0 (bw - u2)) _ s2 (room - Z.of_nat (length moved)) Ht3 Hi2) as (bw' & t' & s' & moved' & -> & Ht' & Hi' & Hc' & Hexit);
    [by eapply wired_carried|lia|lia|lia|].
  exists bw', t', s', (moved ++ moved'). split; [done|]. split; [done|].
  split; [rewrite length_app; eapply net_inv_weaken; [|exact Hi']; pose proof (nv_room _ _ _ _ Hi'); lia|].
  split; [|done]. rewrite <-(app_nil_l (moved ++ moved')). eapply carried_trans; [exact Hc1|]. by eapply carried_trans.
Qed.
Lemma blocked_ok i o vnet bw t s room : throttle_ok t -> Inv room s -> wired i o vnet t s -> 0 <= bw ->
  (0 < bw -> waiting i vnet t s = Some true -> exists s0, net_slots o 1 s = Some (false, s0)) ->
  exists b s', blocked i o vnet bw t s = Some (b, s') /\ Inv room s' /\ carried i o vnet [] bw t s bw t s' /\
    (0 < bw -> b = false -> waiting i vnet t s' = Some false).
Proof.
  intros Ht Hi Hw Hbw Hexit. unfold blocked. destruct (wired_apart i o vnet t s Ht Hw) as (Hio & _ & _ & u & Hu & _).
  destruct (Z.ltb_spec 0 bw); cbn [negb].
  2: { exists false, s. split; [done|]. split; [done|]. split; [eapply carried_refl; [exact Hu|lia|done..]|]. lia. }
  destruct (waiting_ok i vnet t s room u Hi (wi_i _ _ _ _ _ Hw) Hu) as (r & Hr & Hwait). rewrite Hwait. cbn [mbind option_bind].
  destruct (r || (0 <? u)); cbn [negb].
  2: { exists false, s. split; [done|]. split; [done|]. split; [eapply carried_refl; [exact Hu|lia|done..]|]. done. }
  destruct (net_slots_ok RANDOMIZATION delay room s o 1 Hi (wi_o _ _ _ _ _ Hw)) as (b & s1 & Hslots & Hi1 & Hf1 & Hb1 & Hoth1).
  rewrite Hslots. cbn [mbind option_bind]. exists (negb b), s1. split; [done|]. split; [done|].
  split; [eapply carried_refl; [exact Hu|lia|done..]|]. intros _ Hb. destruct Hexit as (s0 & Hs0); [done|done|]. rewrite Hslots in Hs0. by injection Hs0 as -> _.
Qed.

(** *** All virtual networks *)
(** What a wakeup has done to the virtual networks [vnets]: [moved] gives the messages that
    went over each. *)
Record carried_all (vnets : list Z) (moved : Z -> list (NetworkMessage Q)) (bw : Z) t s (bw' : Z) t' s' : Prop := {
  ca_ports : same_ports t t';
  ca_bash : m_bash_counter t' = m_bash_counter t;
  ca_frame : frame s s';
  ca_in v i : ref (t_in t) v = Some i -> contents s i ≡ₚ moved v ++ contents s' i;
  ca_out v o : ref (t_out t) v = Some o -> contents s' o ≡ₚ moved v ++ contents s o;
  ca_bw : 0 <= bw' <= bw;
  ca_units : total (m_units_remaining t') + (bw - bw') = total (m_units_remaining t) + total ((fun v => weights (moved v)) <$> vnets);
  ca_none v : v ∉ vnets -> moved v = [] /\ ref (m_units_remaining t') v = ref (m_units_remaining t) v /\
    forall i, ref (t_in t) v = Some i -> buffers s' !! i = buffers s !! i;
  ca_other j : j ∉ t_in t ++ t_out t -> buffers s' !! j = buffers s !! j }.

Lemma ref_inj {A} (l : list A) v w x : NoDup l -> ref l v = Some x -> ref l w = Some x -> v = w.
Proof.
  unfold ref. intros Hn. destruct (Z.ltb_spec v 0), (Z.ltb_spec w 0); try done. intros Hv Hw.
  pose proof (NoDup_lookup _ _ _ _ Hn Hv Hw). lia.
Qed.
Lemma carried_one i o vnet moved bw t s bw' t' s' : throttle_ok t -> wired i o vnet t s -> carried i o vnet moved bw t s bw' t' s' ->
  carried_all [vnet] (fun v => if decide (v = vnet) then moved else []) bw t s bw' t' s'.
Proof.
  intros Ht [Wi Wo _ _ _] [A B C D E F (u & u' & Hu & Hu' & Hsum) J]. pose proof (th_once t Ht) as Hn.
  apply NoDup_app in Hn as (Hni & Hd & Hno). apply ref_Some in Wi as Hii. destruct Hii as [_ Hii].
  apply ref_Some in Wo as Hoo. destruct Hoo as [_ Hoo].
  split; try done.
  - intros v j Hj. case_decide as Hv; [subst v; assert (j = i) as -> by congruence; done|]. apply ref_Some in Hj as Hjl. destruct Hjl as [_ Hjl].
    rewrite (contents_buffer s s'); [done|]. apply J; [intros ->; apply Hv; eapply (ref_inj (t_in t)); eassumption|intros ->; eapply Hd; eassumption].
  - intros v j Hj. case_decide as Hv; [subst v; assert (j = o) as -> by congruence; done|]. apply ref_Some in Hj as Hjl. destruct Hjl as [_ Hjl].
    rewrite (contents_buffer s s'); [done|]. apply J; [intros ->; eapply Hd; eassumption|intros ->; apply Hv; eapply (ref_inj (t_out t)); eassumption].
  - rewrite Hu'. apply ref_Some in Hu as [Hl _]. pose proof (total_insert _ _ u u' Hl). cbn [fmap list_fmap]. rewrite decide_True by done.
    unfold total at 3. cbn. lia.
  - intros v Hv%not_elem_of_cons. destruct Hv as [Hv _]. rewrite decide_False by done. split; [done|]. split.
    + rewrite Hu'. unfold ref in *. destruct (Z.ltb_spec v 0), (Z.ltb_spec vnet 0); try done. apply list_lookup_insert_ne. lia.
    + intros j Hj. apply ref_Some in Hj as Hjl. destruct Hjl as [_ Hjl]. apply J; [intros ->; apply Hv; eapply (ref_inj (t_in t)); eassumption|intros ->; eapply Hd; eassumption].
  - intros j Hj. rewrite elem_of_app in Hj. apply J; intros ->; apply Hj; [by left|by right].
Qed.
Lemma carried_all_trans vs1 vs2 mv1 mv2 bw1 t1 s1 bw2 t2 s2 bw3 t3 s3 : (forall v, v ∈ vs1 -> v ∉ vs2) ->
  carried_all vs1 mv1 bw1 t1 s1 bw2 t2 s2 -> carried_all vs2 mv2 bw2 t2 s2 bw3 t3 s3 ->
  carried_all (vs1 ++ vs2) (fun v => mv1 v ++ mv2 v) bw1 t1 s1 bw3 t3 s3.
Proof.
  intros Hd [A1 B1 C1 D1 E1 F1 G1 H1 I1] [A2 B2 C2 D2 E2 F2 G2 H2 I2]. pose proof (sp_in _ _ A1) as Hin. pose proof (sp_out _ _ A1) as Hout. split.
  - by etransitivity.
  - congruence.
  - by etransitivity.
  - intros v i Hi. rewrite (D1 v i Hi), (D2 v i) by (by rewrite Hin). by rewrite app_assoc.
  - intros v o Ho. rewrite (E2 v o) by (by rewrite Hout). rewrite (E1 v o Ho), !app_assoc. f_equiv. apply Permutation_app_comm.
  - lia.
  - rewrite fmap_app, total_app.
    assert ((fun v => weights (mv1 v ++ mv2 v)) <$> vs1 = (fun v => weights (mv1 v)) <$> vs1) as ->.
    { apply list_fmap_ext. intros k v Hv%list_elem_of_lookup_2. destruct (H2 v) as [-> _]; [by apply Hd|by rewrite app_nil_r]. }
    assert ((fun v => weights (mv1 v ++ mv2 v)) <$> vs2 = (fun v => weights (mv2 v)) <$> vs2) as ->; [|lia].
    apply list_fmap_ext. intros k v Hv%list_elem_of_lookup_2. destruct (H1 v) as [-> _]; [by intros ?%Hd|done].
  - intros v Hv. rewrite not_elem_of_app in Hv. destruct (H1 v) as (-> & Hu1 & Hb1); [apply Hv|]. destruct (H2 v) as (-> & Hu2 & Hb2); [apply Hv|].
    split; [done|]. split; [congruence|]. intros i Hi. rewrite Hb2 by (by rewrite Hin). by apply Hb1.
  - intros j Hj. rewrite I2 by (by rewrite Hin, Hout). by apply I1.
Qed.

Definition placed t s : Prop := (forall j, j ∈ t_in t ++ t_out t -> is_Some (buffers s !! j)) /\ t_self t ∈ dom (consumers (net_world s)).
Definition inputs_ok (M : nat) t s : Prop := forall i, i ∈ t_in t -> (length (contents s i) <= M)%nat /\ Forall sized (contents s i).
Definition idle t s vnet : Prop := forall i, ref (t_in t) vnet = Some i -> net_isReady i s = Some false /\ ref (m_units_remaining t) vnet = Some 0.
Lemma carried_placed vs mv bw t s bw' t' s' : carried_all vs mv bw t s bw' t' s' -> placed t s -> placed t' s'.
Proof.
  intros H [A B]. pose proof (ca_ports _ _ _ _ _ _ _ _ H) as [C D E _ _ _]. pose proof (ca_frame _ _ _ _ _ _ _ _ H) as [F _ G]. split.
  - intros j. rewrite D, E. intros Hj. apply elem_of_dom. rewrite F. by apply elem_of_dom, A.
  - by rewrite C, G.
Qed.
Lemma carried_inputs M vs mv bw t s bw' t' s' : carried_all vs mv bw t s bw' t' s' -> inputs_ok M t s -> inputs_ok M t' s'.
Proof.
  intros H Hin i. rewrite (sp_in _ _ (ca_ports _ _ _ _ _ _ _ _ H)). intros Hi. destruct (Hin i Hi) as [Hl Hs].
  apply list_elem_of_lookup_1 in Hi as [k Hk]. assert (ref (t_in t) (Z.of_nat k) = Some i) as Hr.
  { unfold ref. destruct (Z.ltb_spec (Z.of_nat k) 0); [lia|]. by rewrite Nat2Z.id. }
  rewrite (ca_in _ _ _ _ _ _ _ _ H _ i Hr) in Hl, Hs. rewrite length_app in Hl. apply Forall_app in Hs as [_ Hs]. split; [lia|done].
Qed.
Lemma carried_idle vs mv bw t s bw' t' s' v : carried_all vs mv bw t s bw' t' s' -> v ∉ vs -> idle t s v -> idle t' s' v.
Proof.
  intros H Hv Hid i. rewrite (sp_in _ _ (ca_ports _ _ _ _ _ _ _ _ H)). intros Hi. destruct (Hid i Hi) as [Hr Hu].
  destruct (ca_none _ _ _ _ _ _ _ _ H v Hv) as (_ & -> & Hb). split; [|done]. rewrite <-Hr.
  apply isReady_same; [by apply Hb|apply (fr_time _ _ (ca_frame _ _ _ _ _ _ _ _ H))].
Qed.
Lemma waiting_idle i o vnet t s room : throttle_ok t -> Inv room s -> wired i o vnet t s -> waiting i vnet t s = Some false -> idle t s vnet.
Proof.
  intros Ht Hi Hw Hwait j Hj. assert (j = i) as -> by (pose proof (wi_in _ _ _ _ _ Hw); congruence).
  destruct (wired_apart i o vnet t s Ht Hw) as (_ & _ & _ & u & Hu & Hr).
  destruct (waiting_ok i vnet t s room u Hi (wi_i _ _ _ _ _ Hw) Hu) as (r & Hready & Hwait'). rewrite Hwait in Hwait'. injection Hwait' as Hz.
  symmetry in Hz. apply orb_false_iff in Hz as [-> Hz%Z.ltb_ge]. split; [done|]. rewrite Hu. f_equal. lia.
Qed.
Lemma vnet_wired M t s vnet : throttle_ok t -> placed t s -> inputs_ok M t s -> 0 <= vnet < m_vnets t ->
  exists i o, wired i o vnet t s /\ i ∈ t_in t.
Proof.
  intros Ht [Hp _] Hin Hv. pose proof (th_in t Ht). pose proof (th_out t Ht).
  destruct (ref_range (t_in t) vnet) as (i & Hi & _); [lia|]. destruct (ref_range (t_out t) vnet) as (o & Ho & _); [lia|].
  apply ref_Some in Hi as Hi'. apply ref_Some in Ho as Ho'. exists i, o. split; [|apply Hi']. split; [done|done| | |apply Hin, Hi'].
  - apply Hp, elem_of_app. left. apply Hi'.
  - apply Hp, elem_of_app. right. apply Ho'.
Qed.

Lemma vnets_ok M vs : forall bw flag t s room, throttle_ok t -> Inv room s -> placed t s -> inputs_ok M t s -> 0 <= bw < 2 ^ 31 ->
  NoDup vs -> (forall v, v ∈ vs -> 0 <= v < m_vnets t) -> Z.of_nat (length vs) * Z.of_nat M <= room ->
  exists bw' b t' s' moved, throttle_vnets RANDOMIZATION random DATA_MESSAGE_SIZE vs bw flag t s = Some (bw', b, t', s') /\
    throttle_ok t' /\ Inv (room - Z.of_nat (length vs) * Z.of_nat M) s' /\ carried_all vs moved bw t s bw' t' s' /\
    (b = false -> flag = false) /\ (0 < bw' -> b = false -> forall v, v ∈ vs -> idle t' s' v).
Proof using random_nonneg data_size.
  induction vs as [|v vs IH]; intros bw flag t s room Ht Hi Hp Hin Hbw Hnd Hrange Hroom; cbn [throttle_vnets].
  { exists bw, flag, t, s, (fun _ => []). split; [done|]. split; [done|]. split; [eapply net_inv_weaken; [|done]; cbn in *; lia|].
    split; [|split; [done|by intros _ _ v ?%not_elem_of_nil]]. split; try done; [lia|cbn; lia]. }
  apply NoDup_cons in Hnd as [Hv Hnd]. destruct (vnet_wired M t s v Ht Hp Hin) as (i & o & Hw & Hit); [apply Hrange; by left|].
  destruct (wired_apart i o v t s Ht Hw) as (_ & _ & _ & u & Hu & Hur).
  rewrite (wi_out _ _ _ _ _ Hw), (wi_in _ _ _ _ _ Hw), Hu. cbn [mbind option_bind]. rewrite (proj2 (Z.leb_le 0 u)) by lia.
  pose proof (proj1 (Hin i Hit)) as Hlen. cbn [length] in Hroom.
  destruct (loop_ok i o v (S (Z.to_nat bw)) bw t s room Ht Hi Hw Hbw) as (bw1 & t1 & s1 & mv1 & -> & Ht1 & Hi1 & Hc1 & Hexit); [lia|nia|].
  cbn [mbind option_bind]. pose proof (wired_carried _ _ _ _ _ _ _ _ _ _ Hc1 Hw) as Hw1.
  destruct (blocked_ok i o v bw1 t1 s1 _ Ht1 Hi1 Hw1) as (b & s2 & -> & Hi2 & Hc2 & Hidle); [apply Hc1|done|]. cbn [mbind option_bind].
  pose proof (carried_trans _ _ _ _ _ _ _ _ _ _ _ _ _ _ Hc1 Hc2) as Hc. rewrite app_nil_r in Hc. pose proof (carried_one _ _ _ _ _ _ _ _ _ _ Ht Hw Hc) as Hone.
  assert (length mv1 <= M)%nat as HM.
  { pose proof (Permutation_length (cr_in _ _ _ _ _ _ _ _ _ _ Hc1)) as Hl. rewrite length_app in Hl. lia. }
  pose proof (cr_bw _ _ _ _ _ _ _ _ _ _ Hc) as Hbw1.
  destruct (IH bw1 (flag || b) t1 s2 (room - Z.of_nat (length mv1))) as (bw' & b' & t' & s' & mv2 & -> & Ht' & Hi' & Hall & Hflag & Hid);
    [done|done|by eapply carried_placed|by eapply carried_inputs|lia|done| |nia|].
  { intros x Hx. rewrite (sp_vnets _ _ (cr_ports _ _ _ _ _ _ _ _ _ _ Hc)). apply Hrange. by right. }
  assert (forall x, x ∈ [v] -> x ∉ vs) as Hdis by (by intros x ->%list_elem_of_singleton).
  eexists bw', b', t', s', _. split; [done|]. split; [done|]. split; [eapply net_inv_weaken; [|exact Hi']; cbn [length]; nia|].
  split; [exact (carried_all_trans [v] vs _ _ _ _ _ _ _ _ _ _ _ Hdis Hone Hall)|].
  split; [intros ->; by destruct flag; [discriminate Hflag|]|]. intros Hpos -> x Hx. apply elem_of_cons in Hx as [->|Hx]; [|by apply Hid].
  pose proof (Hflag eq_refl) as Hor. apply orb_false_iff in Hor as [_ ->]. eapply carried_idle; [exact Hall|done|].
  eapply waiting_idle; [exact Ht1|exact Hi2|by eapply wired_carried|]. apply Hidle; [|done].
  pose proof (ca_bw _ _ _ _ _ _ _ _ Hall). lia.
Qed.

(** *** The whole wakeup *)
Lemma sample_ok fuel now : forall t, (Z.to_nat ((now - m_last_bandwidth_sample t) / ADJUST_INTERVAL) < fuel)%nat -> 0 <= m_bash_counter t <= HIGH_RANGE ->
  exists c since last, sample g_endpoint_bandwidth over_threshold fuel now t = Some (with_samples c since last t) /\
    0 <= c <= HIGH_RANGE /\ now - last <= ADJUST_INTERVAL.
Proof.
  unfold ADJUST_INTERVAL, HIGH_RANGE. induction fuel as [|fuel IH]; intros t Hf Hc; [lia|]. cbn [sample].
  unfold ADJUST_INTERVAL, HIGH_RANGE. destruct (Z.ltb_spec 50000 (now - m_last_bandwidth_sample t)) as [Hlt|Hge]; cbn [negb].
  - match goal with |- context [sample _ _ fuel now ?t1] => destruct (IH t1) as (c & since & last & -> & Hr & Hl) end.
    + cbn. replace (now - (m_last_bandwidth_sample t + 50000)) with (now - m_last_bandwidth_sample t + -1 * 50000) by lia.
      rewrite Z.div_add by lia. pose proof (Z.div_le_lower_bound (now - m_last_bandwidth_sample t) 50000 1). lia.
    + cbn. lia.
    + exists c, since, last. split; [done|]. split; [done|]. done.
  - exists (m_bash_counter t), (m_bandwidth_since_sample t), (m_last_bandwidth_sample t). split; [by destruct t|]. split; [done|]. done.
Qed.
Lemma vnet_order t n (l : list Z) k : (if PRIORITY_SWITCH_LIMIT <? n then (seqZ 0 (m_vnets t), 0) else (rev (seqZ 0 (m_vnets t)), n)) = (l, k) ->
  l ≡ₚ seqZ 0 (m_vnets t).
Proof. destruct (_ <? _); intros [= <- <-]; [done|]. symmetry; apply Permutation_rev. Qed.
Lemma throttle_wakeup_ok M t s room : throttle_ok t -> Inv room s -> placed t s -> inputs_ok M t s -> m_vnets t * Z.of_nat M + 1 <= room ->
  exists t' s' moved used, Throttle_wakeup RANDOMIZATION random g_endpoint_bandwidth DATA_MESSAGE_SIZE over_threshold t s = Some (t', s') /\
    throttle_ok t' /\ same_ports t t' /\ Inv (room - (m_vnets t * Z.of_nat M + 1)) s' /\
    (forall v i, ref (t_in t) v = Some i -> contents s i ≡ₚ moved v ++ contents s' i) /\
    (forall v o, ref (t_out t) v = Some o -> contents s' o ≡ₚ moved v ++ contents s o) /\
    (forall j, j ∉ t_in t ++ t_out t -> buffers s' !! j = buffers s !! j) /\ frame s s' /\
    0 <= used <= bandwidth t /\
    total (m_units_remaining t') + used = total (m_units_remaining t) + total ((fun v => weights (moved v)) <$> seqZ 0 (m_vnets t)) /\
    (pending (net_world s') (t_self t) (getTime (net_world s) + 1) \/ forall v, 0 <= v < m_vnets t -> idle t' s' v) /\
    getTime (net_world s') - m_last_bandwidth_sample t' <= ADJUST_INTERVAL.
Proof using random_nonneg data_size.
  intros Ht Hi Hp Hin Hroom. unfold Throttle_wakeup. pose proof (th_bandwidth t Ht) as Hbw. rewrite (proj2 (Z.ltb_lt _ _) Hbw).
  destruct (if PRIORITY_SWITCH_LIMIT <? _ then _ else _) as [vs n] eqn:Hvs. pose proof (vnet_order _ _ _ _ Hvs) as Hperm. clear Hvs.
  set (t0 := with_wakeups n t). assert (throttle_ok t0) as Ht0 by (destruct Ht; by split).
  assert (NoDup vs) as Hnd by (rewrite Hperm; apply NoDup_seqZ).
  assert (Z.of_nat (length vs) = m_vnets t) as Hl.
  { rewrite Hperm, length_seqZ. pose proof (th_in t Ht). lia. }
  assert (bandwidth t < 2 ^ 31) as Hbw' by (unfold getLinkBandwidth, s32; pose proof (Z.mod_pos_bound (g_endpoint_bandwidth * m_link_bandwidth_multiplier t + 2 ^ 31) (2 ^ 32)); lia).
  destruct (vnets_ok M vs (bandwidth t) false t0 s room Ht0 Hi Hp Hin) as (bw' & b & t1 & s1 & mv & -> & Ht1 & Hi1 & Hc & _ & Hidle);
    [lia|done| |rewrite Hl; lia|].
  { intros v. rewrite Hperm, elem_of_seqZ. cbn. lia. }
  cbn [mbind option_bind]. pose proof (ca_ports _ _ _ _ _ _ _ _ Hc) as Hsp. rewrite (same_ports_bandwidth _ _ Hsp). change (bandwidth t0) with (bandwidth t).
  pose proof (carried_placed _ _ _ _ _ _ _ _ Hc Hp) as Hp1. pose proof (fr_time _ _ (ca_frame _ _ _ _ _ _ _ _ Hc)) as Htime.
  destruct (sample_ok (S (Z.to_nat ((getTime (net_world s1) - m_last_bandwidth_sample t1) / ADJUST_INTERVAL))) (getTime (net_world s1))
    (with_samples (m_bash_counter t1) (s32 (m_bandwidth_since_sample t1 + (bandwidth t - bw'))) (m_last_bandwidth_sample t1) t1))
    as (c & since & last & Hs & Hc' & Hlast); [cbn; lia|apply Ht1|]. cbn [with_samples m_last_bandwidth_sample] in Hs |- *. rewrite Hs. cbn [mbind option_bind].
  set (t' := with_samples c since last _). assert (throttle_ok t') as Ht' by (destruct Ht1; by split).
  assert (same_ports t t') as Hsp' by (destruct Hsp; by split).
  assert (total (m_units_remaining t1) + (bandwidth t - bw') =
    total (m_units_remaining t) + total ((fun v => weights (mv v)) <$> seqZ 0 (m_vnets t))) as Hunits.
  { rewrite (ca_units _ _ _ _ _ _ _ _ Hc). f_equal. apply total_perm. by rewrite Hperm. }
  pose proof (ca_bw _ _ _ _ _ _ _ _ Hc) as Hused.
  assert (1 <= room - Z.of_nat (length vs) * Z.of_nat M) as Hroom1 by (rewrite Hl; lia).
  destruct ((0 <? bw') && negb b) eqn:Hdone.
  - apply andb_true_iff in Hdone as [Hpos%Z.ltb_lt Hb%negb_true_iff]. exists t', s1, mv, (bandwidth t - bw').
    split; [done|]. split; [done|]. split; [done|]. split; [eapply net_inv_weaken; [|exact Hi1]; rewrite Hl; lia|].
    split; [apply Hc|]. split; [apply Hc|]. split; [apply Hc|]. split; [apply Hc|]. split; [lia|]. split; [exact Hunits|]. split; [|done].
    right. intros v Hv. apply (Hidle Hpos Hb v). rewrite Hperm. apply elem_of_seqZ. lia.
  - destruct (net_schedule_ok RANDOMIZATION delay _ s1 (t_self t1) 1 Hi1 Hroom1) as (s2 & Hsch & Hi2 & Hf2 & Hb2 & Hpend); [lia|apply Hp1|].
    change (t_self t') with (t_self t1). rewrite Hsch. cbn [mbind option_bind]. exists t', s2, mv, (bandwidth t - bw').
    assert (forall i, contents s2 i = contents s1 i) as Hcont by (intros i; apply contents_buffer; by rewrite Hb2).
    split; [done|]. split; [done|]. split; [done|]. split; [eapply net_inv_weaken; [|exact Hi2]; rewrite Hl; lia|].
    split; [intros v i; rewrite Hcont; apply Hc|]. split; [intros v o; rewrite Hcont; apply Hc|].
    split; [intros j; rewrite Hb2; apply Hc|]. split; [etransitivity; [apply Hc|done]|]. split; [lia|]. split; [exact Hunits|].
    split; [left|by rewrite (fr_time _ _ Hf2)]. rewrite <-Htime. by rewrite (sp_self _ _ Hsp) in Hpend.
Qed.
End throttle.

(** C34: A throttle loses nothing, keeps to its bandwidth and forgets nothing. Its [wakeup] always
    ends without an error; on each virtual network it moves some of the waiting messages,
    unchanged, from the input to the output; the bandwidth it used is the size of these
    messages, less what is still to be paid for the last of them, and never more than the
    bandwidth of the link; it is woken again in the next cycle unless nothing can be sent and
    nothing is to be paid; and its sample of the use of the link is up to date. *)
Theorem throttle_conserves {Q R : Type} RANDOMIZATION random bandwidth DATA_MESSAGE_SIZE over_threshold delay M room
    (t : Throttle) (s : NetState Q R) :
  (forall k, 0 <= random k) -> 0 <= DATA_MESSAGE_SIZE < 2 ^ 20 ->
  throttle_ok bandwidth delay t -> net_inv RANDOMIZATION delay room s -> placed t s -> inputs_ok M t s ->
  m_vnets t * Z.of_nat M + 1 <= room ->
  exists t' s' moved used, Throttle_wakeup RANDOMIZATION random bandwidth DATA_MESSAGE_SIZE over_threshold t s = Some (t', s') /\
    throttle_ok bandwidth delay t' /\ same_ports t t' /\ net_inv RANDOMIZATION delay (room - (m_vnets t * Z.of_nat M + 1)) s' /\
    (forall v i, ref (t_in t) v = Some i -> contents s i ≡ₚ moved v ++ contents s' i) /\
    (forall v o, ref (t_out t) v = Some o -> contents s' o ≡ₚ moved v ++ contents s o) /\
    (forall j, j ∉ t_in t ++ t_out t -> buffers s' !! j = buffers s !! j) /\ frame s s' /\
    0 <= used <= getLinkBandwidth bandwidth t /\
    total (m_units_remaining t') + used =
      total (m_units_remaining t) + total ((fun v => weights DATA_MESSAGE_SIZE (moved v)) <$> seqZ 0 (m_vnets t)) /\
    (pending (net_world s') (t_self t) (getTime (net_world s) + 1) \/ forall v, 0 <= v < m_vnets t -> idle t' s' v) /\
    getTime (net_world s') - m_last_bandwidth_sample t' <= ADJUST_INTERVAL.
Proof. intros Hr Hd Ht Hi Hp Hin Hroom. by apply throttle_wakeup_ok. Qed.

(** ** A throttle on the example network *)
Definition example_throttle : Throttle := mkThrottle 0 [0%nat] [1%nat] (replicate MessageSizeType_NUM [0]) 1 [0] HIGH_RANGE 0 0 1 1 0.
Lemma example_throttle_ok : throttle_ok 3000 example_delay example_throttle.
Proof.
  split; cbn; try done; try lia.
  - repeat constructor; set_solver.
  - by repeat constructor.
  - by repeat constructor.
Qed.
Lemma example_contents : contents example_net 0 = [payload multicast].
Proof.
  destruct loaded_ok as (n & k & _ & Hel & Hmsg & _). unfold contents. assert (bag example_net 0 = [n]) as -> by (rewrite <-Hel; reflexivity).
  cbn. by rewrite Hmsg.
Qed.
(** A control message takes 8000 units: with 3000 units a cycle, it moves at once, 5000 units
    are still to be paid, and the throttle is woken again. *)
Lemma throttle_conserves_witness :
  exists t' s', Throttle_wakeup false (fun _ => 0) 3000 128 (fun _ _ => false) example_throttle example_net = Some (t', s') /\
    m_units_remaining t' = [5000] /\ contents s' 1 ≡ₚ [payload multicast] /\ pending (net_world s') 0 3.
Proof.
  destruct (throttle_conserves false (fun _ => 0) 3000 128 (fun _ _ => false) example_delay 1 50 example_throttle example_net)
    as (t' & s' & mv & used & Hw & _ & _ & _ & Hi & Ho & _ & _ & _ & _ & Hnext & _);
    [done|lia|exact example_throttle_ok|exact example_net_inv| | |by vm_compute|].
  - split; [|apply (bool_decide_unpack _); by vm_compute]. intros j Hj.
    repeat (apply elem_of_cons in Hj as [->|Hj]; [vm_compute; by eexists|]). by apply not_elem_of_nil in Hj.
  - intros i ->%list_elem_of_singleton. rewrite example_contents. split; [cbn; lia|]. by repeat constructor.
  - exists t', s'. split; [exact Hw|]. assert (m_units_remaining t' = [5000] /\ contents s' 0 = []) as [Hu Hc].
    { vm_compute in Hw. injection Hw as <- <-. split; reflexivity. }
    split; [exact Hu|]. specialize (Hi 0 0%nat eq_refl). specialize (Ho 0 1%nat eq_refl). rewrite example_contents, Hc, app_nil_r in Hi. split.
    + rewrite Ho, <-Hi. reflexivity.
    + destruct Hnext as [Hp|Hidle]; [exact Hp|]. exfalso. destruct (Hidle 0 ltac:(cbn; lia) 0%nat) as [_ Hz].
      * vm_compute in Hw. injection Hw as <- _. reflexivity.
      * rewrite Hu in Hz. discriminate Hz.
Defined.
