(* ===== verification/Topology.v ===== *)
(** The topology of the network: [network/simple/Topology.C] and [Topology.h]. It numbers the
    switches, lists the links, and computes the routing tables from all shortest paths. The
    first [m_nodes] numbers are the links into the network, the next [m_nodes] the queues out
    of it, and the others the switches. *)
From S2P Require Import Prelude Vector Config Address NodeSet NetDest NetBuffers.

Abbreviation SwitchID := Z (only parsing).
Abbreviation Matrix := (list (list Z)) (only parsing).
Definition INFINITE_LATENCY : Z := 10000.
Definition DEFAULT_BW_MULTIPLIER : Z := 1.

(** A cell of a matrix, read and written. *)
Definition mget (m : Matrix) (i j : Z) : option Z := row ← ref m i; ref row j.
Definition mset (m : Matrix) (i j x : Z) : option Matrix :=
  row ← ref m i; _ ← ref row j; Some (<[Z.to_nat i := <[Z.to_nat j := x]> row]> m).

(** ** All shortest paths *)
(** The three matrices the search works on. *)
Record Search := mkSearch { current_dist : Matrix; latencies : Matrix; inter_switches : Matrix }.
Implicit Types (s : Search).

(** The innermost loop: the best way from [i] to [j] over one other switch. *)
Fixpoint best_switch (ks : list Z) (i j minimum previous_minimum intermediate_switch : Z) s : option (Z * Z * Search) :=
  match ks with
  | [] => Some (minimum, intermediate_switch, s)
  | k :: ks =>
      a ← mget (current_dist s) i k;
      b ← mget (current_dist s) k j;
      let minimum := Z.min minimum (s32 (a + b)) in
      if negb (previous_minimum =? minimum) then
        x ← mget (inter_switches s) i k;
        y ← mget (inter_switches s) k j;
        inters ← mset (inter_switches s) i j (s32 (s32 (x + y) + 1));
        best_switch ks i j minimum minimum k (mkSearch (current_dist s) (latencies s) inters)
      else best_switch ks i j minimum minimum intermediate_switch s
  end.
Definition relax (i j : Z) (change : bool) s : option (bool * Search) :=
  start ← mget (current_dist s) i j;
  '(minimum, intermediate_switch, s) ← best_switch (seqZ 0 (Z.of_nat (length (current_dist s)))) i j start start (-1) s;
  now ← mget (current_dist s) i j;
  if negb (now =? minimum) then
    d ← mset (current_dist s) i j minimum;
    assert! 0 <=? intermediate_switch;
    row ← ref (latencies s) i;
    assert! intermediate_switch <? Z.of_nat (length row);
    a ← mget (latencies s) i intermediate_switch;
    b ← mget (latencies s) intermediate_switch j;
    l ← mset (latencies s) i j (s32 (a + b));
    Some (true, mkSearch d l (inter_switches s))
  else Some (change, s).
Fixpoint relax_all (pairs : list (Z * Z)) (change : bool) s : option (bool * Search) :=
  match pairs with
  | [] => Some (change, s)
  | (i, j) :: pairs => '(change, s) ← relax i j change s; relax_all pairs change s
  end.
Definition all_pairs (n : Z) : list (Z * Z) := seqZ 0 n ≫= fun i => pair i <$> seqZ 0 n.
Fixpoint extend_shortest_path (fuel : nat) s : option Search :=
  match fuel with
  | O => None
  | S fuel =>
      '(change, s) ← relax_all (all_pairs (Z.of_nat (length (current_dist s)))) false s;
      if (change : bool) then extend_shortest_path fuel s else Some s
  end.
(** [shortest_path]; a round with a change lowers the sum of the entries, which bounds the
    number of rounds. *)
Definition weight_sum (m : Matrix) : Z := total (total <$> m).
Definition shortest_path (weights lats inters : Matrix) : option Search :=
  extend_shortest_path (S (Z.to_nat (weight_sum weights))) (mkSearch weights lats inters).

Definition link_is_shortest_path_to_node (src next final : SwitchID) (weights dist : Matrix) : option bool :=
  w ← mget weights src next;
  a ← mget dist next final;
  b ← mget dist src final;
  Some (s32 (w + a) =? b).

(** ** Links *)
(** One position of the five vectors [m_links_*_vector] and [m_bw_multiplier_vector]. *)
Record Link := mkLinkTo { l_src : SwitchID; l_dest : SwitchID; l_latency : Z; l_bw : Z; l_weight : Z }.
Record Topology := mkTopology {
  m_nodes : Z; m_number_of_switches : Z; m_links : list Link; m_component_latencies : Matrix; m_component_inter_switches : Matrix }.
Implicit Types (t : Topology).

Definition newSwitchID t : SwitchID * Topology :=
  (m_number_of_switches t + m_nodes t + m_nodes t,
   mkTopology (m_nodes t) (m_number_of_switches t + 1) (m_links t) (m_component_latencies t) (m_component_inter_switches t)).
Definition addLink (src dest : SwitchID) (link_latency bw_multiplier link_weight : Z) t : option Topology :=
  assert! src <=? m_number_of_switches t + m_nodes t + m_nodes t;
  assert! dest <=? m_number_of_switches t + m_nodes t + m_nodes t;
  Some (mkTopology (m_nodes t) (m_number_of_switches t) (m_links t ++ [mkLinkTo src dest link_latency bw_multiplier link_weight])
          (m_component_latencies t) (m_component_inter_switches t)).
Definition addLink3 (src dest : SwitchID) (link_latency : Z) t : option Topology :=
  addLink src dest link_latency DEFAULT_BW_MULTIPLIER link_latency t.
Definition addLink4 (src dest : SwitchID) (link_latency bw_multiplier : Z) t : option Topology :=
  addLink src dest link_latency bw_multiplier link_latency t.
(** The loops that add the links collected before. *)
Fixpoint add_links (l : list (SwitchID * SwitchID * Z * Z)) t : option Topology :=
  match l with
  | [] => Some t
  | (src, dest, latency, bw) :: l => t ← addLink4 src dest latency bw t; add_links l t
  end.
Fixpoint new_switches (n : nat) t : list SwitchID * Topology :=
  match n with
  | O => ([], t)
  | S n => let '(id, t) := newSwitchID t in let '(l, t) := new_switches n t in (id :: l, t)
  end.

Section topology.
(** The tables SLICC generates for the machine types, [base_level] first to last in [types]. *)
Variables (types : list MachineType) (base_level : MachineType -> Z) (NUM : nat) (base_count base_number : Z -> Z).
(** [MachineType_chip_count], by level and chip. *)
Variable chip_count : Z -> Z -> Z.
(** The configuration. *)
Variables (numberOfChips NETWORK_LINK_LATENCY ON_CHIP_LINK_LATENCY : Z).
Variables (numberOfL1CachePerChip numberOfL2CachePerChip numberOfDirectoryPerChip g_PROCS_PER_CLUSTER : Z).

(** *** The switches of the chips *)
Record PerChip := mkPerChip { endpointConnectionExist : list bool; componentCount : list Z; pc_links : list (SwitchID * SwitchID * Z * Z) }.
Definition connect_component (nodes chip mType : Z) (p : PerChip) : option PerChip :=
  let '(latency, bw_multiplier) := if mType =? base_level Directory then (NETWORK_LINK_LATENCY, 1) else (ON_CHIP_LINK_LATENCY, 10) in
  n ← ref (componentCount p) mType;
  let node := base_number mType + n in
  let switch := chip + nodes * 2 in
  e ← ref (endpointConnectionExist p) node;
  assert! negb e;
  Some (mkPerChip (<[Z.to_nat node := true]> (endpointConnectionExist p)) (<[Z.to_nat mType := n + 1]> (componentCount p))
          (pc_links p ++ [(node, switch, latency, n + base_number mType); (switch, node + nodes, latency, bw_multiplier)])).
Fixpoint connect_components (nodes : Z) (l : list (Z * Z)) (p : PerChip) : option PerChip :=
  match l with
  | [] => Some p
  | (chip, mType) :: l => p ← connect_component nodes chip mType p; connect_components nodes l p
  end.
(** The machines chip by chip, type by type. *)
Definition chip_machines : list (Z * Z) :=
  seqZ 0 numberOfChips ≫= fun chip => seqZ 0 (Z.of_nat NUM) ≫= fun mType => (fun _ => (chip, mType)) <$> seqZ 0 (chip_count mType chip).
Definition makeSwitchesPerChip (nodes : Z) : option (list (SwitchID * SwitchID * Z * Z)) :=
  p ← connect_components nodes chip_machines
        (mkPerChip (replicate (Z.to_nat nodes) false) (replicate NUM 0) []);
  assert! forallb id (endpointConnectionExist p);
  assert! bool_decide (componentCount p = base_count <$> seqZ 0 (Z.of_nat NUM));
  Some (pc_links p).

(** *** The topologies *)
Definition torus_neighbours (nodes n side node : Z) : list SwitchID :=
  [ if Z.rem node side =? 0 then node - 1 + side else node - 1;
    if Z.rem (node + 1) side =? 0 then node + 1 - side else node + 1;
    if node - side <? 2 * nodes then node - side + side * side else node - side;
    if 2 * nodes + n <=? node + side then node + side - side * side else node + side ].
Definition make2DTorus t : option Topology :=
  let n := Z.quot (m_nodes t) (Z.of_nat NUM) in
  let '(torusSwitches, t) := new_switches (Z.to_nat n) t in
  l ← makeSwitchesPerChip (m_nodes t);
  let side := Z.sqrt n in
  let torus := torusSwitches ≫= fun node =>
                 (fun next => (node, next, NETWORK_LINK_LATENCY, 1)) <$> torus_neighbours (m_nodes t) n side node in
  add_links (l ++ torus) t.
Definition both_ways (a b : SwitchID) (latency bw : Z) : list (SwitchID * SwitchID * Z * Z) := [(a, b, latency, bw); (b, a, latency, bw)].
Definition makePtToPt t : option Topology :=
  let n := Z.quot (m_nodes t) (Z.of_nat NUM) in
  let '(_, t) := new_switches (Z.to_nat (2 * n)) t in
  l ← makeSwitchesPerChip (m_nodes t);
  let intra chip := chip + m_nodes t * 2 in
  let inter chip := chip + m_nodes t * 2 + numberOfChips in
  let up := seqZ 0 numberOfChips ≫= fun chip => both_ways (intra chip) (inter chip) ON_CHIP_LINK_LATENCY 10 in
  let across := seqZ 0 numberOfChips ≫= fun chip => seqZ (chip + 1) (numberOfChips - (chip + 1)) ≫= fun other =>
                  both_ways (inter chip) (inter other) NETWORK_LINK_LATENCY 1 in
  add_links (l ++ up ++ across) t.

(** A switch of its own for each of some nodes; every [group] of them share one more switch when
    there is a group size; a group size of zero divides by zero. *)
Fixpoint cluster_nodes (ids : list Z) (base group : Z) (last_level : list SwitchID) t : option (list SwitchID * Topology) :=
  match ids with
  | [] => Some (last_level, t)
  | i :: ids =>
      assert! negb (group =? 0);
      let '(last_level, t) :=
        if Z.rem i group =? 0 then let '(id, t) := newSwitchID t in (last_level ++ [id], t) else (last_level, t) in
      let '(new_switch, t) := newSwitchID t in
      t ← addLink3 (base + i) new_switch NETWORK_LINK_LATENCY t;
      top ← last last_level;
      t ← addLink3 new_switch top NETWORK_LINK_LATENCY t;
      cluster_nodes ids base group last_level t
  end.
Fixpoint single_nodes (ids : list Z) (base : Z) (last_level : list SwitchID) t : option (list SwitchID * Topology) :=
  match ids with
  | [] => Some (last_level, t)
  | i :: ids =>
      let '(new_switch, t) := newSwitchID t in
      t ← addLink3 (base + i) new_switch NETWORK_LINK_LATENCY t;
      single_nodes ids base (last_level ++ [new_switch]) t
  end.
Fixpoint link_all (l : list (SwitchID * SwitchID)) t : option Topology :=
  match l with
  | [] => Some t
  | (src, dest) :: l => t ← addLink3 src dest NETWORK_LINK_LATENCY t; link_all l t
  end.
Definition makeGPGPUSimCrossbar t : option Topology :=
  '(last_level, t) ← cluster_nodes (seqZ 0 numberOfL1CachePerChip) (base_number (base_level L1Cache)) g_PROCS_PER_CLUSTER [] t;
  '(last_level, t) ← single_nodes (seqZ 0 numberOfL2CachePerChip) (base_number (base_level L2Cache)) last_level t;
  '(last_level, t) ← single_nodes (seqZ 0 numberOfDirectoryPerChip) (base_number (base_level Directory)) last_level t;
  let '(root_switch, t) := newSwitchID t in
  t ← link_all ((fun id => (id, root_switch)) <$> last_level) t;
  link_all ((fun i => (root_switch, m_nodes t + i)) <$> seqZ 0 (m_nodes t)) t.

(** One level of the tree up, and one down. *)
Fixpoint level_up (fan_out_degree i : Z) (last_level next_level : list SwitchID) t : option (list SwitchID * Topology) :=
  match last_level with
  | [] => Some (next_level, t)
  | id :: last_level =>
      let '(next_level, t) :=
        if Z.rem i fan_out_degree =? 0 then let '(new, t) := newSwitchID t in (next_level ++ [new], t) else (next_level, t) in
      top ← last next_level;
      t ← addLink3 id top NETWORK_LINK_LATENCY t;
      level_up fan_out_degree (i + 1) last_level next_level t
  end.
Fixpoint levels_up (fuel : nat) (fan_out_degree : Z) (last_level : list SwitchID) t : option (list SwitchID * Topology) :=
  match fuel with
  | O => None
  | S fuel =>
      if (length last_level <=? 1)%nat then Some (last_level, t) else
      '(next_level, t) ← level_up fan_out_degree 0 last_level [] t;
      levels_up fuel fan_out_degree next_level t
  end.
Fixpoint level_down (fan_out_degree size root_switch i : Z) (out_level next_level : list SwitchID) t : option (list SwitchID * Topology) :=
  match out_level with
  | [] => Some (next_level, t)
  | id :: out_level =>
      let '(next_level, t) :=
        if Z.rem i fan_out_degree =? 0 then
          if fan_out_degree <? size then let '(new, t) := newSwitchID t in (next_level ++ [new], t)
          else (next_level ++ [root_switch], t)
        else (next_level, t) in
      top ← last next_level;
      t ← addLink3 top id NETWORK_LINK_LATENCY t;
      level_down fan_out_degree size root_switch (i + 1) out_level next_level t
  end.
Fixpoint levels_down (fuel : nat) (fan_out_degree root_switch : Z) (out_level : list SwitchID) t : option Topology :=
  match fuel with
  | O => None
  | S fuel =>
      if (length out_level =? 1)%nat then Some t else
      '(next_level, t) ← level_down fan_out_degree (Z.of_nat (length out_level)) root_switch 0 out_level [] t;
      levels_down fuel fan_out_degree root_switch next_level t
  end.
Definition makeHierarchicalSwitch (fan_out_degree : Z) t : option Topology :=
  '(last_level, t) ← single_nodes (seqZ 0 (m_nodes t)) 0 [] t;
  '(top, t) ← levels_up (length last_level) fan_out_degree last_level t;
  root_switch ← head top;
  levels_down (S (Z.to_nat (m_nodes t))) fan_out_degree root_switch ((fun i => m_nodes t + i) <$> seqZ 0 (m_nodes t)) t.

Inductive TopologyType := TORUS_2D | HIERARCHICAL_SWITCH | CROSSBAR | GPGPUSIM_CROSSBAR | PT_TO_PT | FILE_SPECIFIED.
Variables (g_NETWORK_TOPOLOGY : TopologyType) (FAN_OUT_DEGREE : Z).
(** What [makeFileSpecified] reads of its file, which is not modelled. *)
Variable makeFileSpecified : Topology -> option Topology.
Definition Topology_new (number_of_nodes : Z) : option Topology :=
  let t := mkTopology number_of_nodes 0 [] [] [] in
  if number_of_nodes =? 1 then
    let '(id, t) := newSwitchID t in
    t ← addLink3 0 id NETWORK_LINK_LATENCY t;
    addLink3 id 1 NETWORK_LINK_LATENCY t
  else
    match g_NETWORK_TOPOLOGY with
    | TORUS_2D => make2DTorus t
    | HIERARCHICAL_SWITCH => makeHierarchicalSwitch FAN_OUT_DEGREE t
    | CROSSBAR => makeHierarchicalSwitch 1024 t
    | GPGPUSIM_CROSSBAR => makeGPGPUSimCrossbar t
    | PT_TO_PT => makePtToPt t
    | FILE_SPECIFIED => makeFileSpecified t
    end.

(** *** The routing tables *)
Definition all_machines : list MachineID := types ≫= fun mt => machines mt 0 (base_count (base_level mt)).
Fixpoint add_reachable (l : list MachineID) (d : Z) (src next : SwitchID) (weights dist : Matrix) (result : NetDest) : option NetDest :=
  match l with
  | [] => Some result
  | mach :: l =>
      b ← link_is_shortest_path_to_node src next (d + base_number (Z.of_nat NUM)) weights dist;
      result ← (if (b : bool) then nd_add base_level result mach else Some result);
      add_reachable l (d + 1) src next weights dist result
  end.
Definition shortest_path_to_node (src next : SwitchID) (weights dist : Matrix) : option NetDest :=
  add_reachable all_machines 0 src next weights dist (NetDest_new NUM base_count).

(** The calls [makeLink] makes of the network, in order. *)
Inductive LinkCall :=
| makeInLink (src dest : Z) (routing_table_entry : NetDest) (link_latency bw_multiplier : Z)
| makeOutLink (src dest : Z) (routing_table_entry : NetDest) (link_latency link_weight bw_multiplier : Z)
| makeInternalLink (src dest : Z) (routing_table_entry : NetDest) (link_latency link_weight bw_multiplier : Z).
Definition makeLink (nodes : Z) (src dest : SwitchID) (entry : NetDest) (link_latency link_weight bw_multiplier : Z) : option LinkCall :=
  assert! (2 * nodes <=? src) || (2 * nodes <=? dest);
  if src <? nodes then Some (makeInLink src (dest - 2 * nodes) entry link_latency bw_multiplier)
  else if dest <? 2 * nodes then
    assert! nodes <=? dest;
    Some (makeOutLink (src - 2 * nodes) (dest - nodes) entry link_latency link_weight bw_multiplier)
  else
    assert! 2 * nodes <=? src;
    Some (makeInternalLink (src - 2 * nodes) (dest - 2 * nodes) entry link_latency link_weight bw_multiplier).

(** The matrices of [createLinks], filled in link by link. *)
Record Weights := mkWeights { topology_weights : Matrix; topology_latency : Matrix; component_latencies : Matrix; topology_bw_multis : Matrix }.
Fixpoint zero_diagonal (ids : list Z) (m : Matrix) : option Matrix :=
  match ids with [] => Some m | i :: ids => m ← mset m i i 0; zero_diagonal ids m end.
Fixpoint fill_weights (l : list Link) (w : Weights) : option Weights :=
  match l with
  | [] => Some w
  | k :: l =>
      a ← mset (topology_weights w) (l_src k) (l_dest k) (l_weight k);
      b ← mset (topology_latency w) (l_src k) (l_dest k) (l_latency k);
      c ← mset (component_latencies w) (l_src k) (l_dest k) (l_latency k);
      d ← mset (topology_bw_multis w) (l_src k) (l_dest k) (l_bw k);
      fill_weights l (mkWeights a b c d)
  end.
Fixpoint connect (pairs : list (Z * Z)) (nodes : Z) (w : Weights) (dist : Matrix) : option (list LinkCall) :=
  match pairs with
  | [] => Some []
  | (i, j) :: pairs =>
      weight ← mget (topology_weights w) i j;
      bw_multiplier ← mget (topology_bw_multis w) i j;
      latency ← mget (topology_latency w) i j;
      if (0 <? weight) && negb (weight =? INFINITE_LATENCY) then
        destination_set ← shortest_path_to_node i j (topology_weights w) dist;
        assert! negb (latency =? -1);
        c ← makeLink nodes i j destination_set latency weight bw_multiplier;
        l ← connect pairs nodes w dist;
        Some (c :: l)
      else connect pairs nodes w dist
  end.
Definition max_switch_id t : Z := foldl (fun m k => Z.max (Z.max m (l_src k)) (l_dest k)) 0 (m_links t).
Definition square (n x : Z) : Matrix := replicate (Z.to_nat n) (replicate (Z.to_nat n) x).
Definition createLinks t : option (list LinkCall * Topology) :=
  let n := max_switch_id t + 1 in
  zero ← zero_diagonal (seqZ 0 n) (square n INFINITE_LATENCY);
  w ← fill_weights (m_links t) (mkWeights zero (square n (-1)) (square n (-1)) (square n (-1)));
  s ← shortest_path (topology_weights w) (component_latencies w) (square n 0);
  calls ← connect (all_pairs n) (m_nodes t) w (current_dist s);
  Some (calls, mkTopology (m_nodes t) (m_number_of_switches t) (m_links t) (latencies s) (inter_switches s)).
End topology.
