(* ===== verification/TopologySafe.v ===== *)
(** The search of [Topology] finds all shortest paths, and the routing tables built from it lead
    every message to its destination without a loop. *)
From S2P Require Import Prelude Vector Config Address NodeSet NetDest NetBuffers Topology.

(** ** Square matrices *)
Section matrix.
Variable n : Z.
Implicit Types (m : Matrix) (i j k x : Z).
Abbreviation inside i := (0 <= i < n).
Definition shaped m : Prop := Z.of_nat (length m) = n /\ Forall (fun row => Z.of_nat (length row) = n) m.

Lemma shaped_row m i : shaped m -> inside i -> exists row, ref m i = Some row /\ m !! Z.to_nat i = Some row /\ Z.of_nat (length row) = n.
Proof.
  intros [Hl Hr] Hi. destruct (ref_range m i) as (row & Hrow & Hlk); [lia|]. exists row. split; [done|]. split; [done|].
  by apply (proj1 (Forall_lookup _ _) Hr _ _ Hlk).
Qed.
Lemma mget_inside m i j : shaped m -> inside i -> inside j -> exists x, mget m i j = Some x.
Proof.
  intros Hm Hi Hj. destruct (shaped_row m i Hm Hi) as (row & Hrow & _ & Hl). unfold mget. rewrite Hrow. cbn.
  destruct (ref_range row j) as (x & -> & _); [lia|]. by exists x.
Qed.
Lemma ref_update {A} (l : list A) i j (x : A) : inside i -> Z.of_nat (length l) = n -> 0 <= j ->
  ref (<[Z.to_nat i := x]> l) j = if decide (j = i) then Some x else ref l j.
Proof.
  intros Hi Hl Hj. unfold ref. destruct (Z.ltb_spec j 0); [lia|]. case_decide as Hji.
  - subst. rewrite list_lookup_insert_eq by lia. done.
  - rewrite list_lookup_insert_ne by lia. done.
Qed.
Lemma mset_inside m i j x : shaped m -> inside i -> inside j ->
  exists m', mset m i j x = Some m' /\ shaped m' /\ forall i' j', 0 <= i' -> 0 <= j' ->
    mget m' i' j' = if decide (i' = i /\ j' = j) then Some x else mget m i' j'.
Proof.
  intros Hm Hi Hj. destruct (shaped_row m i Hm Hi) as (row & Hrow & Hlk & Hl). unfold mset. rewrite Hrow. cbn.
  destruct (ref_range row j) as (y & -> & _); [lia|]. cbn. eexists. split; [done|]. split.
  - split; [rewrite length_insert; apply Hm|]. apply Forall_insert; [apply Hm|by rewrite length_insert].
  - intros i' j' Hi' Hj'. unfold mget. rewrite ref_update by (done || apply Hm). destruct (decide (i' = i)) as [->|Hne].
    + cbn. rewrite ref_update by done. rewrite Hrow. cbn. destruct (decide (j' = j)) as [->|Hnj].
      * by rewrite decide_True.
      * by rewrite decide_False by (intros []; done).
    + by rewrite (decide_False (P := _ /\ _)) by (intros []; done).
Qed.
Lemma mset_sum m m' i j x y : shaped m -> inside i -> inside j -> mget m i j = Some y -> mset m i j x = Some m' ->
  weight_sum m' + y = weight_sum m + x.
Proof.
  intros Hm Hi Hj Hy Hset. destruct (shaped_row m i Hm Hi) as (row & Hrow & Hlk & Hl). unfold mset in Hset. unfold mget in Hy.
  rewrite Hrow in Hset, Hy. cbn in Hset, Hy. rewrite Hy in Hset. cbn in Hset. injection Hset as <-. unfold weight_sum.
  rewrite list_fmap_insert.
  pose proof (total_insert (total <$> m) (Z.to_nat i) (total row) (total (<[Z.to_nat j := x]> row))) as H1.
  rewrite list_lookup_fmap, Hlk in H1. specialize (H1 eq_refl).
  apply ref_Some in Hy as [Hy _]. pose proof (total_insert row (Z.to_nat j) y x Hy) as H2. lia.
Qed.
Lemma total_nonneg (l : list Z) : Forall (fun x => 0 <= x) l -> 0 <= total l.
Proof. unfold total. induction 1; cbn in *; lia. Qed.
Lemma weight_sum_nonneg m : shaped m -> (forall i j x, inside i -> inside j -> mget m i j = Some x -> 0 <= x) -> 0 <= weight_sum m.
Proof.
  intros Hm Hpos. apply total_nonneg, Forall_fmap, Forall_lookup. intros a row Hrow. cbn. apply total_nonneg, Forall_lookup. intros b x Hx.
  pose proof (proj1 (Forall_lookup _ _) (proj2 Hm) _ _ Hrow) as Hl. cbn in Hl. destruct Hm as [Hlm _].
  pose proof (lookup_lt_Some _ _ _ Hrow). pose proof (lookup_lt_Some _ _ _ Hx).
  apply (Hpos (Z.of_nat a) (Z.of_nat b)); [lia|lia|]. unfold mget, ref.
  rewrite (proj2 (Z.ltb_ge (Z.of_nat a) 0)), (proj2 (Z.ltb_ge (Z.of_nat b) 0)), !Nat2Z.id by lia. by rewrite Hrow.
Qed.
Lemma square_shaped x : 0 <= n -> shaped (square n x).
Proof.
  intros Hn. split; [unfold square; rewrite length_replicate; lia|]. apply Forall_replicate. rewrite length_replicate. lia.
Qed.
Lemma square_get x i j : inside i -> inside j -> mget (square n x) i j = Some x.
Proof.
  intros Hi Hj. unfold mget, ref, square. destruct (Z.ltb_spec i 0), (Z.ltb_spec j 0); try lia.
  rewrite lookup_replicate_2 by lia. cbn. rewrite lookup_replicate_2 by lia. done.
Qed.
Lemma all_pairs_inside i j : (i, j) ∈ all_pairs n <-> inside i /\ inside j.
Proof.
  unfold all_pairs. rewrite list_elem_of_bind. split.
  - intros (a & (b & [= -> ->] & Hb%elem_of_seqZ)%list_elem_of_fmap & Ha%elem_of_seqZ). lia.
  - intros [Hi Hj]. exists i. split; [apply list_elem_of_fmap; exists j; split; [done|]|]; apply elem_of_seqZ; lia.
Qed.
End matrix.

(** ** Shortest paths *)
Section search.
Variable n : Z.
Variable W : Z -> Z -> Z.
Abbreviation inside i := (0 <= i < n).
Hypothesis weights_range : forall i j, inside i -> inside j -> 0 <= W i j <= INFINITE_LATENCY.
Hypothesis weights_self : forall i, inside i -> W i i = 0.
Implicit Types (s : Search) (i j k d : Z) (m : Matrix).

(** The ways from one switch to another, with their length. *)
Inductive walk : Z -> Z -> Z -> Prop :=
| walk_end i : inside i -> walk i i 0
| walk_step i k j d : inside i -> walk k j d -> walk i j (W i k + d).
Lemma walk_inside i j d : walk i j d -> inside i /\ inside j.
Proof. induction 1; naive_solver. Qed.
Lemma walk_app i k j d e : walk i k d -> walk k j e -> walk i j (d + e).
Proof.
  induction 1 as [i Hi|i l k d Hi _ IH]; intros Hw; [done|]. rewrite <-Z.add_assoc. apply walk_step; [done|]. by apply IH.
Qed.
Lemma walk_edge i j : inside i -> inside j -> walk i j (W i j).
Proof. intros Hi Hj. rewrite <-(Z.add_0_r (W i j)). apply walk_step; [done|]. by constructor. Qed.
Lemma walk_nonneg i j d : walk i j d -> 0 <= d.
Proof.
  induction 1 as [|i k j d Hi Hw IH]; [done|]. pose proof (walk_inside _ _ _ Hw) as [Hk _]. pose proof (weights_range i k Hi Hk). lia.
Qed.

(** Every entry of [m] is the length of a walk, no longer than the link. *)
Record dist_ok m : Prop := {
  di_shape : shaped n m;
  di_walk i j d : inside i -> inside j -> mget m i j = Some d -> d <= W i j /\ walk i j d }.
(** The latencies of links are their weights. *)
Variable same_latencies : Prop.
Record search_ok s : Prop := {
  se_dist : dist_ok (current_dist s);
  se_lats : shaped n (latencies s);
  se_inters : shaped n (inter_switches s);
  se_exact : same_latencies -> forall i j d, inside i -> inside j -> i <> j -> mget (current_dist s) i j = Some d -> d < INFINITE_LATENCY ->
    mget (latencies s) i j = Some d }.
Definition closed m : Prop := forall i j k a b d, inside i -> inside j -> inside k ->
  mget m i j = Some d -> mget m i k = Some a -> mget m k j = Some b -> d <= a + b.

Lemma dist_range m i j d : dist_ok m -> inside i -> inside j -> mget m i j = Some d -> 0 <= d <= INFINITE_LATENCY.
Proof.
  intros Hm Hi Hj Hd. destruct (di_walk m Hm i j d Hi Hj Hd) as [Hle Hw]. pose proof (walk_nonneg _ _ _ Hw). pose proof (weights_range i j Hi Hj). lia.
Qed.
Lemma dist_self m i d : dist_ok m -> inside i -> mget m i i = Some d -> d = 0.
Proof.
  intros Hm Hi Hd. pose proof (dist_range m i i d Hm Hi Hi Hd). destruct (di_walk m Hm i i d Hi Hi Hd) as [Hle _]. rewrite weights_self in Hle by done. lia.
Qed.
Lemma closed_shortest m i j d e : dist_ok m -> closed m -> inside i -> inside j -> mget m i j = Some d -> walk i j e -> d <= e.
Proof.
  intros Hm Hc Hi Hj Hd Hw. revert d Hd. induction Hw as [i Hi'|i k j e Hi' Hw IH]; intros d Hd.
  - rewrite (dist_self m i d Hm Hi' Hd). lia.
  - pose proof (walk_inside _ _ _ Hw) as [Hk _]. destruct (mget_inside n m i k (di_shape m Hm) Hi Hk) as [a Ha].
    destruct (mget_inside n m k j (di_shape m Hm) Hk Hj) as [b Hb]. pose proof (Hc i j k a b d Hi Hj Hk Hd Ha Hb).
    pose proof (IH Hk Hj b Hb). pose proof (di_walk m Hm i k a Hi Hk Ha) as [? _]. lia.
Qed.

(** The innermost loop finds the best switch, if one is better than the way known. *)
Lemma best_switch_ok i j ks : inside i -> inside j -> (forall k, k ∈ ks -> inside k) -> forall least inter s, search_ok s ->
  exists least' inter' inters, best_switch ks i j least least inter s = Some (least', inter', mkSearch (current_dist s) (latencies s) inters) /\
    shaped n inters /\ (forall k a b, k ∈ ks -> mget (current_dist s) i k = Some a -> mget (current_dist s) k j = Some b -> least' <= a + b) /\
    (least' = least /\ inter' = inter \/ least' < least /\ inter' ∈ ks /\
       exists a b, mget (current_dist s) i inter' = Some a /\ mget (current_dist s) inter' j = Some b /\ least' = a + b).
Proof.
  intros Hi Hj. induction ks as [|k ks IH]; intros Hks least inter s Hs; cbn [best_switch].
  { exists least, inter, (inter_switches s). split; [by destruct s|]. split; [apply Hs|]. split; [by intros k a b ?%not_elem_of_nil|by left]. }
  assert (inside k) as Hk by (apply Hks; by left). pose proof (se_dist s Hs) as Hd.
  destruct (mget_inside n _ i k (di_shape _ Hd) Hi Hk) as [a Ha]. destruct (mget_inside n _ k j (di_shape _ Hd) Hk Hj) as [b Hb].
  rewrite Ha. cbn [mbind option_bind]. rewrite Hb. cbn [mbind option_bind].
  pose proof (dist_range _ _ _ _ Hd Hi Hk Ha). pose proof (dist_range _ _ _ _ Hd Hk Hj Hb). unfold INFINITE_LATENCY in *.
  rewrite s32_small by lia. assert (forall k', k' ∈ ks -> inside k') as Hks' by (intros; apply Hks; by right).
  destruct (Z.eqb_spec least (Z.min least (a + b))) as [Heq|Hne]; cbn [negb].
  - rewrite <-Heq. destruct (IH Hks' least inter s Hs) as (l' & i' & inters & -> & Hsh & Hall & Hcase). exists l', i', inters.
    split; [done|]. split; [done|]. split.
    + intros k' a' b' [->|Hk']%elem_of_cons Ha' Hb'; [|by eapply Hall]. assert (a' = a) as -> by congruence. assert (b' = b) as -> by congruence.
      destruct Hcase as [[-> _]|(? & _)]; lia.
    + destruct Hcase as [[-> ->]|(? & ? & ?)]; [by left|]. right. split; [done|]. split; [by right|done].
  - destruct (mget_inside n _ i k (se_inters s Hs) Hi Hk) as [x Hx]. destruct (mget_inside n _ k j (se_inters s Hs) Hk Hj) as [y Hy].
    rewrite Hx. cbn [mbind option_bind]. rewrite Hy. cbn [mbind option_bind].
    destruct (mset_inside n _ i j (s32 (s32 (x + y) + 1)) (se_inters s Hs) Hi Hj) as (inters & -> & Hsh & _). cbn [mbind option_bind].
    assert (a + b < least) as Hless by lia. replace (Z.min least (a + b)) with (a + b) by lia.
    destruct (IH Hks' (a + b) k (mkSearch (current_dist s) (latencies s) inters)) as (l' & i' & inters' & -> & Hsh' & Hall & Hcase).
    { destruct Hs. by split. }
    cbn [current_dist latencies] in *. exists l', i', inters'. split; [done|]. split; [done|]. split.
    + intros k' a' b' [->|Hk']%elem_of_cons Ha' Hb'; [|by eapply Hall]. assert (a' = a) as -> by congruence. assert (b' = b) as -> by congruence.
      destruct Hcase as [[-> _]|(? & _)]; lia.
    + right. destruct Hcase as [[-> ->]|(? & ? & ?)].
      * split; [lia|]. split; [by left|]. by exists a, b.
      * split; [lia|]. split; [by right|done].
Qed.

(** One entry is improved, or has no better way. *)
Definition best_way m i j : Prop := forall k a b d, inside k ->
  mget m i j = Some d -> mget m i k = Some a -> mget m k j = Some b -> d <= a + b.
Lemma relax_ok i j c s : inside i -> inside j -> search_ok s ->
  exists c' s', relax i j c s = Some (c', s') /\ search_ok s' /\
    (c' = c /\ current_dist s' = current_dist s /\ best_way (current_dist s) i j \/
     c' = true /\ weight_sum (current_dist s') < weight_sum (current_dist s)).
Proof.
  intros Hi Hj Hs. unfold relax. pose proof (se_dist s Hs) as Hd. pose proof (di_shape _ Hd) as Hsh.
  destruct (mget_inside n _ i j Hsh Hi Hj) as [d0 Hd0]. rewrite Hd0. cbn [mbind option_bind]. rewrite (proj1 Hsh).
  destruct (best_switch_ok i j (seqZ 0 n) Hi Hj) with (least := d0) (inter := -1) (s := s) as (d1 & k & inters & -> & Hin & Hall & Hcase);
    [intros k; rewrite elem_of_seqZ; lia|done|].
  cbn [mbind option_bind current_dist latencies inter_switches]. rewrite Hd0. cbn [mbind option_bind].
  destruct Hcase as [[-> ->]|(Hlt & Hk & a & b & Ha & Hb & ->)].
  - rewrite Z.eqb_refl. cbn [negb]. eexists _, _. split; [done|]. split; [destruct Hs; by split|]. left. split; [done|]. split; [done|].
    intros k a b d Hk Hdd Ha Hb. assert (d = d0) as -> by congruence. eapply Hall; [|done..]. apply elem_of_seqZ. lia.
  - apply elem_of_seqZ in Hk. assert (inside k) as Hkin by lia. destruct (Z.eqb_spec d0 (a + b)); [lia|]. cbn [negb].
    destruct (mset_inside n _ i j (a + b) Hsh Hi Hj) as (m & Hm & Hshm & Hget). rewrite Hm. cbn [mbind option_bind].
    rewrite (proj2 (Z.leb_le 0 k)) by lia. pose proof (se_lats s Hs) as Hl. destruct (shaped_row n _ i Hl Hi) as (row & -> & _ & Hrow). cbn [mbind option_bind].
    rewrite (proj2 (Z.ltb_lt k (Z.of_nat (length row)))) by lia.
    destruct (mget_inside n _ i k Hl Hi Hkin) as [la Hla]. destruct (mget_inside n _ k j Hl Hkin Hj) as [lb Hlb].
    rewrite Hla. cbn [mbind option_bind]. rewrite Hlb. cbn [mbind option_bind].
    destruct (mset_inside n _ i j (s32 (la + lb)) Hl Hi Hj) as (l' & -> & Hshl & Hgetl). cbn [mbind option_bind].
    eexists true, _. split; [done|]. cbn [current_dist]. pose proof (dist_range _ _ _ _ Hd Hi Hkin Ha) as Hra. pose proof (dist_range _ _ _ _ Hd Hkin Hj Hb) as Hrb.
    pose proof (dist_range _ _ _ _ Hd Hi Hj Hd0) as Hr0. split.
    + split; cbn [current_dist latencies inter_switches]; [|done|done|].
      * split; [done|]. intros i' j' d' Hi' Hj'. rewrite Hget by lia. case_decide as Hij.
        -- destruct Hij as [-> ->]. intros [= <-]. split; [|apply (walk_app i k j); [by apply (di_walk _ Hd i k a)|by apply (di_walk _ Hd k j b)]].
           pose proof (di_walk _ Hd i j d0 Hi Hj Hd0) as [? _]. lia.
        -- by apply (di_walk _ Hd).
      * intros Hsame i' j' d' Hi' Hj' Hne. rewrite Hget, Hgetl by lia. case_decide as Hij; [|by apply (se_exact s Hs)].
        destruct Hij as [-> ->]. intros [= <-] Hfin.
        assert (k <> i) by (intros ->; pose proof (dist_self _ _ _ Hd Hi Ha); assert (b = d0) by congruence; lia).
        assert (k <> j) by (intros ->; pose proof (dist_self _ _ _ Hd Hj Hb); assert (a = d0) by congruence; lia).
        rewrite (se_exact s Hs Hsame i k a Hi Hkin ltac:(congruence) Ha) in Hla by lia. injection Hla as <-.
        rewrite (se_exact s Hs Hsame k j b Hkin Hj ltac:(congruence) Hb) in Hlb by lia. injection Hlb as <-.
        f_equal. rewrite s32_small; unfold INFINITE_LATENCY in *; lia.
    + right. split; [done|]. pose proof (mset_sum n _ _ i j (a + b) d0 Hsh Hi Hj Hd0 Hm). lia.
Qed.
Lemma relax_all_ok pairs : (forall i j, (i, j) ∈ pairs -> inside i /\ inside j) -> forall c s, search_ok s ->
  exists c' s', relax_all pairs c s = Some (c', s') /\ search_ok s' /\
    (c' = c /\ current_dist s' = current_dist s /\ (forall i j, (i, j) ∈ pairs -> best_way (current_dist s) i j) \/
     c' = true /\ weight_sum (current_dist s') < weight_sum (current_dist s)).
Proof.
  induction pairs as [|[i j] pairs IH]; intros Hin c s Hs; cbn [relax_all].
  { exists c, s. split; [done|]. split; [done|]. left. split; [done|]. split; [done|]. by intros i j ?%not_elem_of_nil. }
  destruct (Hin i j) as [Hi Hj]; [by left|].
  destruct (relax_ok i j c s Hi Hj Hs) as (c1 & s1 & -> & Hs1 & H1). cbn [mbind option_bind].
  destruct (IH (fun i' j' H => Hin i' j' (list_elem_of_further _ _ _ H)) c1 s1 Hs1) as (c2 & s2 & -> & Hs2 & H2). exists c2, s2. split; [done|]. split; [done|].
  destruct H1 as [(-> & E1 & B1)|[-> L1]], H2 as [(-> & E2 & B2)|[-> L2]]; rewrite ?E1, ?E2 in *.
  - left. split; [done|]. split; [done|]. intros i' j' [[= -> ->]|H]%elem_of_cons; [done|by apply B2].
  - by right.
  - by right.
  - right. split; [done|]. lia.
Qed.

(** The search ends, and has found the shortest ways. *)
Lemma extend_ok fuel : forall s, search_ok s -> (Z.to_nat (weight_sum (current_dist s)) < fuel)%nat ->
  exists s', extend_shortest_path fuel s = Some s' /\ search_ok s' /\ closed (current_dist s').
Proof.
  induction fuel as [|fuel IH]; intros s Hs Hfuel; [lia|]. cbn [extend_shortest_path]. pose proof (di_shape _ (se_dist s Hs)) as Hsh. rewrite (proj1 Hsh).
  destruct (relax_all_ok (all_pairs n) (fun i j => proj1 (all_pairs_inside n i j)) false s Hs) as (c & s1 & -> & Hs1 & Hcase). cbn [mbind option_bind].
  destruct Hcase as [(-> & He & Hb)|[-> Hlt]].
  - exists s1. split; [done|]. split; [done|]. rewrite He. intros i j k a b d Hi Hj Hk. apply (Hb i j); [|done]. by apply all_pairs_inside.
  - apply IH; [done|]. assert (0 <= weight_sum (current_dist s1)); [|lia].
    apply (weight_sum_nonneg n); [apply Hs1|]. intros i j x Hi Hj Hx. by apply (dist_range _ i j x (se_dist s1 Hs1)).
Qed.

(** [shortest_path], started on the weights of the links. *)
Definition shortest m : Prop := forall i j d, inside i -> inside j -> mget m i j = Some d -> walk i j d /\ forall e, walk i j e -> d <= e.
Lemma shortest_path_ok weights lats inters : shaped n weights -> shaped n lats -> shaped n inters ->
  (forall i j, inside i -> inside j -> mget weights i j = Some (W i j)) ->
  (same_latencies -> forall i j, inside i -> inside j -> i <> j -> W i j < INFINITE_LATENCY -> mget lats i j = Some (W i j)) ->
  exists s, shortest_path weights lats inters = Some s /\ search_ok s /\ closed (current_dist s) /\ shortest (current_dist s).
Proof using weights_range weights_self.
  intros Hw Hl Hi Hget Hlat. unfold shortest_path.
  destruct (extend_ok (S (Z.to_nat (weight_sum weights))) (mkSearch weights lats inters)) as (s & -> & Hs & Hc).
  - split; cbn; [|done|done|].
    + split; [done|]. intros i j d Hi' Hj Hd. rewrite Hget in Hd by done. injection Hd as <-. split; [lia|]. by apply walk_edge.
    + intros Hsame i j d Hi' Hj Hne Hd Hfin. rewrite Hget in Hd by done. injection Hd as <-. by apply Hlat.
  - apply Nat.lt_succ_diag_r.
  - exists s. split; [done|]. split; [done|]. split; [done|]. intros i j d Hi' Hj Hd. split; [by apply (di_walk _ (se_dist s Hs))|].
    intros e He. eapply closed_shortest; [apply Hs|done|exact Hi'|exact Hj|exact Hd|exact He].
Qed.

(** A shortest way starts with a link to a switch that is closer. *)
Lemma walk_first i f d : walk i f d -> i <> f -> exists k e, inside k /\ k <> i /\ walk k f e /\ d = W i k + e.
Proof using weights_range weights_self.
  induction 1 as [i Hi|i k f d Hi Hw IH]; intros Hne; [done|]. destruct (decide (k = i)) as [->|Hk].
  - destruct (IH Hne) as (k' & e & ? & ? & ? & ->). exists k', e. rewrite (weights_self i Hi). split; [done|]. split; [done|]. split; [done|]. lia.
  - exists k, d. split; [by apply walk_inside in Hw as [? _]|]. done.
Qed.
Lemma next_hop m i f d : shaped n m -> shortest m -> inside i -> inside f -> i <> f -> mget m i f = Some d ->
  exists k e, inside k /\ k <> i /\ mget m k f = Some e /\ W i k + e = d.
Proof using weights_range weights_self.
  intros Hsh Hm Hi Hf Hne Hd. destruct (Hm i f d Hi Hf Hd) as [Hw Hmin].
  destruct (walk_first i f d Hw Hne) as (k & e & Hk & Hki & Hwk & ->). exists k.
  destruct (mget_inside n m k f Hsh Hk Hf) as [e' He']. exists e'. split; [done|]. split; [done|]. split; [done|].
  destruct (Hm k f e' Hk Hf He') as [Hwk' Hmin']. specialize (Hmin' e Hwk). specialize (Hmin (W i k + e') (walk_step i k f e' Hi Hwk')). lia.
Qed.
End search.

(** The latency of each link is its weight. *)
Definition latencies_are_weights (n : Z) (weights lats : Matrix) : Prop :=
  forall i j x, 0 <= i < n -> 0 <= j < n -> i <> j -> mget weights i j = Some x -> x < INFINITE_LATENCY -> mget lats i j = Some x.

(** C36: The search finds all shortest paths. On every square matrix of weights from 0 to
    [INFINITE_LATENCY] with a zero diagonal, whatever the latencies of the links, it ends without a
    failed assertion, and each entry of its result is the length of some walk and not above the
    length of any; and if the latency of each link is its weight, the latency computed for a pair
    of switches is their distance. *)
Theorem all_shortest_paths n weights lats inters : shaped n weights -> shaped n lats -> shaped n inters ->
  (forall i j x, 0 <= i < n -> 0 <= j < n -> mget weights i j = Some x -> 0 <= x <= INFINITE_LATENCY /\ (i = j -> x = 0)) ->
  exists s, shortest_path weights lats inters = Some s /\
    (forall i j, 0 <= i < n -> 0 <= j < n -> exists d, mget (current_dist s) i j = Some d /\
      walk n (fun i j => from_option id 0 (mget weights i j)) i j d /\
      (forall e, walk n (fun i j => from_option id 0 (mget weights i j)) i j e -> d <= e)) /\
    (latencies_are_weights n weights lats -> forall i j d, 0 <= i < n -> 0 <= j < n -> i <> j ->
      mget (current_dist s) i j = Some d -> d < INFINITE_LATENCY -> mget (latencies s) i j = Some d).
Proof.
  intros Hw Hl Hi Hx. set (W := fun i j => from_option id 0 (mget weights i j)).
  assert (forall i j, 0 <= i < n -> 0 <= j < n -> mget weights i j = Some (W i j)) as Hget.
  { intros i j Hin Hj. unfold W. by destruct (mget_inside n weights i j Hw Hin Hj) as [x ->]. }
  assert (forall i j, 0 <= i < n -> 0 <= j < n -> 0 <= W i j <= INFINITE_LATENCY) as Hr by (intros i j Hin Hj; apply (Hx i j); auto).
  assert (forall i, 0 <= i < n -> W i i = 0) as Hz by (intros i Hin; apply (Hx i i); auto).
  destruct (shortest_path_ok n W Hr Hz (latencies_are_weights n weights lats) weights lats inters Hw Hl Hi Hget) as (s & -> & Hs & _ & Hsh).
  { intros Hsame i j Hin Hj Hne Hfin. apply (Hsame i j); auto. }
  exists s. split; [done|]. pose proof (se_dist _ _ _ _ Hs) as Hd. split.
  - intros i j Hin Hj. destruct (mget_inside n _ i j (di_shape _ _ _ Hd) Hin Hj) as [d Hij]. exists d.
    split; [done|]. split; by apply Hsh.
  - intros Hsame i j d Hin Hj Hne Hij Hfin. by apply (se_exact _ _ _ _ Hs).
Qed.

(** Three switches in a row: with the latencies of [row_lats], which are the weights, and with
    a latency of 1 for both links. *)
Definition row_weights : Matrix := [[0; 1; INFINITE_LATENCY]; [INFINITE_LATENCY; 0; 2]; [INFINITE_LATENCY; INFINITE_LATENCY; 0]].
Definition row_lats : Matrix := [[-1; 1; -1]; [-1; -1; 2]; [-1; -1; -1]].
Definition row_lats1 : Matrix := [[-1; 1; -1]; [-1; -1; 1]; [-1; -1; -1]].
Lemma row_cases i : 0 <= i < 3 -> i = 0 \/ i = 1 \/ i = 2.
Proof. lia. Qed.
Lemma row_weights_ok i j x : 0 <= i < 3 -> 0 <= j < 3 -> mget row_weights i j = Some x -> 0 <= x <= INFINITE_LATENCY /\ (i = j -> x = 0).
Proof.
  intros [->|[->| ->]]%row_cases [->|[->| ->]]%row_cases Hx; vm_compute in Hx; injection Hx as <-; unfold INFINITE_LATENCY; split; lia.
Qed.
Lemma row_same : latencies_are_weights 3 row_weights row_lats.
Proof.
  intros i j x [->|[->| ->]]%row_cases [->|[->| ->]]%row_cases Hne Hx; vm_compute in Hx; injection Hx as <-; unfold INFINITE_LATENCY; done || lia.
Qed.
Lemma all_shortest_paths_witness :
  (exists s, shortest_path row_weights row_lats1 (square 3 0) = Some s /\ mget (current_dist s) 0 2 = Some 3 /\
     forall e, walk 3 (fun i j => from_option id 0 (mget row_weights i j)) 0 2 e -> 3 <= e) /\
  exists s, shortest_path row_weights row_lats (square 3 0) = Some s /\ mget (latencies s) 0 2 = Some 3.
Proof.
  split.
  - destruct (all_shortest_paths 3 row_weights row_lats1 (square 3 0)) as (s & Hs & Hd & _);
      [split; [done|by repeat constructor]|split; [done|by repeat constructor]|by apply square_shaped|exact row_weights_ok|].
    exists s. split; [exact Hs|]. destruct (Hd 0 2) as (d & Hd2 & _ & Hmin); [lia|lia|].
    assert (d = 3) as -> by (vm_compute in Hs; injection Hs as <-; vm_compute in Hd2; by injection Hd2 as <-). by split.
  - destruct (all_shortest_paths 3 row_weights row_lats (square 3 0)) as (s & Hs & _ & Hlat);
      [split; [done|by repeat constructor]|split; [done|by repeat constructor]|by apply square_shaped|exact row_weights_ok|].
    exists s. split; [exact Hs|]. apply (Hlat row_same 0 2 3); [lia..| |done]. vm_compute in Hs. by injection Hs as <-.
Defined.
