(* ===== verification/Routing.v ===== *)
(** The routing tables of [Topology]: an output link of a switch is responsible for the machines
    that a shortest path over it leads to. *)
From S2P Require Import Prelude Vector Config Address NodeSet NetDest NetBuffers Topology TopologySafe.

(** ** The weights of the links *)
(** The last link from [i] to [j] counts; without one the weight is infinite. *)
Definition on_link (i j : Z) (k : Link) : bool := (l_src k =? i) && (l_dest k =? j).
Definition weight_of (links : list Link) (i j : Z) : Z :=
  foldl (fun w k => if on_link i j k then l_weight k else w) (if i =? j then 0 else INFINITE_LATENCY) links.
Lemma on_link_spec i j k : on_link i j k = true <-> l_src k = i /\ l_dest k = j.
Proof. unfold on_link. rewrite andb_true_iff, !Z.eqb_eq. done. Qed.
Lemma weight_of_cases links i j : weight_of links i j = (if i =? j then 0 else INFINITE_LATENCY) /\ (forall k, k ∈ links -> on_link i j k = false) \/
  exists k, k ∈ links /\ on_link i j k = true /\ weight_of links i j = l_weight k.
Proof.
  unfold weight_of. induction links as [|k links IH] using rev_ind; [left; split; [done|by intros k ?%not_elem_of_nil]|].
  rewrite foldl_app. cbn [foldl]. destruct (on_link i j k) eqn:Hk.
  - right. exists k. split; [apply elem_of_app; right; by left|done].
  - destruct IH as [[-> Hno]|(k' & Hin & Hon & ->)].
    + left. split; [done|]. intros k' [Hk'|Hk']%elem_of_app; [by apply Hno|]. by apply list_elem_of_singleton in Hk' as ->.
    + right. exists k'. split; [apply elem_of_app; by left|done].
Qed.

(** ** Filling in the matrices *)
Section fill.
Variables (nodes n : Z).
Abbreviation inside i := (0 <= i < n).

(** The links lead from an endpoint to a switch, from a switch to a switch, or from a switch to
    the queue of an endpoint, and have a latency and a finite weight. *)
Record link_ok (k : Link) : Prop := {
  lk_src : inside (l_src k);
  lk_dest : inside (l_dest k);
  lk_weight : 0 < l_weight k < INFINITE_LATENCY;
  lk_latency : 0 <= l_latency k;
  lk_ends : 0 <= l_src k < nodes /\ 2 * nodes <= l_dest k \/ 2 * nodes <= l_src k /\ nodes <= l_dest k /\ l_src k <> l_dest k }.
Record weights_ok (links : list Link) (w : Weights) : Prop := {
  we_weights : shaped n (topology_weights w);
  we_latency : shaped n (topology_latency w);
  we_component : shaped n (component_latencies w);
  we_bw : shaped n (topology_bw_multis w);
  we_get i j : inside i -> inside j -> mget (topology_weights w) i j = Some (weight_of links i j);
  we_link i j k : inside i -> inside j -> k ∈ links -> on_link i j k = true ->
    exists k', k' ∈ links /\ on_link i j k' = true /\ weight_of links i j = l_weight k' /\
      mget (topology_latency w) i j = Some (l_latency k') /\ mget (component_latencies w) i j = Some (l_latency k') }.

Lemma zero_diagonal_ok (ids : list Z) : (forall i, i ∈ ids -> inside i) -> forall m, shaped n m ->
  exists m', zero_diagonal ids m = Some m' /\ shaped n m' /\ forall i j, inside i -> inside j ->
    mget m' i j = if decide (i = j /\ i ∈ ids) then Some 0 else mget m i j.
Proof.
  induction ids as [|a ids IH]; intros Hids m Hm; cbn [zero_diagonal].
  { exists m. split; [done|]. split; [done|]. intros i j _ _. rewrite decide_False; [done|]. by intros [_ ?%not_elem_of_nil]. }
  destruct (mset_inside n m a a 0 Hm) as (m1 & -> & Hm1 & Hget); [apply Hids; by left..|]. cbn [mbind option_bind].
  destruct (IH (fun i H => Hids i (list_elem_of_further _ _ _ H)) m1 Hm1) as (m' & -> & Hm' & Hget'). exists m'. split; [done|]. split; [done|].
  intros i j Hi Hj. rewrite Hget', Hget by lia. destruct (decide (i = j)) as [->|Hne].
  - destruct (decide (j ∈ ids)) as [Hin|Hin].
    + rewrite !decide_True; [done|split; [done|by right]|done].
    + rewrite (decide_False (P := j = j /\ j ∈ ids)) by (by intros []). destruct (decide (j = a)) as [->|Hja].
      * rewrite !decide_True; [done|split; [done|by left]|done].
      * rewrite !decide_False; [done|intros [_ [|]%elem_of_cons]; done|intros []; done].
  - rewrite !decide_False; [done|by intros [? _]|intros [-> ->]; done|by intros [? _]].
Qed.
Lemma fill_weights_ok links : forall done w, weights_ok done w -> Forall link_ok links ->
  exists w', fill_weights links w = Some w' /\ weights_ok (done ++ links) w'.
Proof.
  induction links as [|k links IH]; intros prior w Hw Hall; cbn [fill_weights]; [exists w; by rewrite app_nil_r|].
  apply Forall_cons in Hall as [Hk Hall]. pose proof (lk_src k Hk) as Hs. pose proof (lk_dest k Hk) as Hd.
  destruct (mset_inside n _ (l_src k) (l_dest k) (l_weight k) (we_weights _ _ Hw) Hs Hd) as (a & -> & Ha & Hga). cbn [mbind option_bind].
  destruct (mset_inside n _ (l_src k) (l_dest k) (l_latency k) (we_latency _ _ Hw) Hs Hd) as (b & -> & Hb & Hgb). cbn [mbind option_bind].
  destruct (mset_inside n _ (l_src k) (l_dest k) (l_latency k) (we_component _ _ Hw) Hs Hd) as (c & -> & Hc & Hgc). cbn [mbind option_bind].
  destruct (mset_inside n _ (l_src k) (l_dest k) (l_bw k) (we_bw _ _ Hw) Hs Hd) as (d & -> & Hd' & Hgd). cbn [mbind option_bind].
  destruct (IH (prior ++ [k]) (mkWeights a b c d)) as (w' & -> & Hw'); [|done|exists w'; by rewrite <-app_assoc in Hw'].
  assert (forall i j, weight_of (prior ++ [k]) i j = if on_link i j k then l_weight k else weight_of prior i j) as Hof.
  { intros i j. unfold weight_of. by rewrite foldl_app. }
  split; cbn; [done..| |].
  - intros i j Hi Hj. rewrite Hga by lia. rewrite Hof. case_decide as Hij.
    + destruct Hij as [-> ->]. by rewrite (proj2 (on_link_spec _ _ k)).
    + rewrite (proj1 (not_true_iff_false _)); [by apply Hw|]. intros [? ?]%on_link_spec. by apply Hij.
  - intros i j k' Hi Hj Hin Hon. rewrite Hgb, Hgc, Hof by lia. case_decide as Hij.
    + destruct Hij as [-> ->]. exists k. rewrite (proj2 (on_link_spec _ _ k)) by done. split; [apply elem_of_app; right; by left|done].
    + assert (on_link i j k = false) as Hk' by (apply not_true_iff_false; intros [? ?]%on_link_spec; by apply Hij). rewrite Hk'.
      apply elem_of_app in Hin as [Hin|Hin]; [|apply list_elem_of_singleton in Hin as ->; congruence].
      destruct (we_link _ _ Hw i j k' Hi Hj Hin Hon) as (x & Hx & ?). exists x. split; [apply elem_of_app; by left|done].
Qed.
End fill.

(** ** Routing tables *)
Section routing.
Variables (types : list MachineType) (base_level : MachineType -> Z) (NUM : nat) (base_count base_number : Z -> Z).
Hypothesis counts_nonneg : forall i, 0 <= base_count i.
Hypothesis levels_inj : forall t u, known base_level NUM t -> known base_level NUM u -> base_level t = base_level u -> t = u.
Hypothesis types_known : forall mt, mt ∈ types -> known base_level NUM mt.
Hypothesis types_once : NoDup types.
Abbreviation machine_list := (all_machines types base_level base_count).
Abbreviation nodes := (base_number (Z.of_nat NUM)).
(** The machines are as many as there are endpoints. *)
Hypothesis nodes_count : Z.of_nat (length machine_list) = nodes.

Lemma all_machines_valid m : m ∈ machine_list -> valid base_level NUM base_count m.
Proof using types_known.
  unfold all_machines, machines. intros (mt & (k & -> & Hk%elem_of_seqZ)%list_elem_of_fmap & Hmt)%list_elem_of_bind. split; cbn; [by apply types_known|lia].
Qed.
Lemma all_machines_once : NoDup machine_list.
Proof using types_once.
  unfold all_machines, machines. clear nodes_count types_known. induction types_once as [|mt l Hmt Hl IH]; cbn; [constructor|].
  apply NoDup_app. split; [apply NoDup_fmap; [by intros ?? [=]|apply NoDup_seqZ]|]. split; [|by apply IH].
  intros m (k & -> & _)%list_elem_of_fmap (mt' & (k' & [= -> ->] & _)%list_elem_of_fmap & Hmt')%list_elem_of_bind. done.
Qed.
(** The queue out of the network of a machine. *)
Definition out_queue (d : nat) : Z := Z.of_nat d + nodes.

Variable n : Z.
Abbreviation inside i := (0 <= i < n).
Hypothesis queues_inside : 2 * nodes <= n.

Lemma out_queue_inside d m : machine_list !! d = Some m -> inside (out_queue d).
Proof using nodes_count queues_inside. intros Hd%lookup_lt_Some. unfold out_queue. lia. Qed.

Section tables.
Variable W : Z -> Z -> Z.
Variables (weights dist : Matrix).
Hypothesis weights_get : forall i j, inside i -> inside j -> mget weights i j = Some (W i j).
Hypothesis dist_shaped : shaped n dist.
Hypothesis dist_range : forall i j d, inside i -> inside j -> mget dist i j = Some d -> 0 <= d <= INFINITE_LATENCY.

Definition leads i j (d : nat) : Prop := exists a b, mget dist j (out_queue d) = Some a /\ mget dist i (out_queue d) = Some b /\ W i j + a = b.
Lemma leads_spec i j d m : inside i -> inside j -> machine_list !! d = Some m -> 0 <= W i j <= INFINITE_LATENCY ->
  exists r, link_is_shortest_path_to_node i j (Z.of_nat d + nodes) weights dist = Some r /\ (r = true <-> leads i j d).
Proof using weights_get dist_shaped dist_range nodes_count queues_inside.
  intros Hi Hj Hm Hw. pose proof (out_queue_inside d m Hm) as Hf. unfold link_is_shortest_path_to_node. rewrite weights_get by done. cbn [mbind option_bind].
  fold (out_queue d). destruct (mget_inside n dist j _ dist_shaped Hj Hf) as [a Ha]. destruct (mget_inside n dist i _ dist_shaped Hi Hf) as [b Hb].
  rewrite Ha. cbn [mbind option_bind]. rewrite Hb. cbn [mbind option_bind]. eexists. split; [done|].
  pose proof (dist_range _ _ _ Hj Hf Ha). unfold INFINITE_LATENCY in *. rewrite s32_small by lia. rewrite Z.eqb_eq. unfold leads. split.
  - intros He. by exists a, b.
  - intros (a' & b' & ? & ? & ?). congruence.
Qed.
Lemma add_reachable_ok i j l : inside i -> inside j -> 0 <= W i j <= INFINITE_LATENCY -> forall prior result, prior ++ l = machine_list ->
  netdest_wf NUM base_count result ->
  exists r, add_reachable base_level NUM base_number l (Z.of_nat (length prior)) i j weights dist result = Some r /\ netdest_wf NUM base_count r /\
    forall m, valid base_level NUM base_count m -> member base_level r m <-> member base_level result m \/
      exists d, (length prior <= d)%nat /\ machine_list !! d = Some m /\ leads i j d.
Proof using weights_get dist_shaped dist_range nodes_count queues_inside levels_inj types_known.
  intros Hi Hj Hw. induction l as [|m l IH]; intros prior result Hl Hres; cbn [add_reachable].
  { exists result. split; [done|]. split; [done|]. intros m Hm. split; [by left|]. intros [|(d & Hd & Hlk%lookup_lt_Some & _)]; [done|].
    rewrite <-Hl, app_nil_r in Hlk. lia. }
  assert (machine_list !! length prior = Some m) as Hm by (rewrite <-Hl; by rewrite list_lookup_middle).
  destruct (leads_spec i j (length prior) m Hi Hj Hm Hw) as (b & -> & Hb). cbn [mbind option_bind].
  assert (valid base_level NUM base_count m) as Hv by (apply all_machines_valid; by eapply list_elem_of_lookup_2).
  assert (exists result', (if b then nd_add base_level result m else Some result) = Some result' /\ netdest_wf NUM base_count result' /\
    forall m', valid base_level NUM base_count m' -> member base_level result' m' <-> member base_level result m' \/ (m' = m /\ b = true)) as (r1 & -> & Hr1 & Hmem).
  { destruct b.
    - destruct (nd_add_spec base_level NUM base_count levels_inj result m Hres Hv) as (r & Hr & Hwf & Hmem). exists r. split; [done|]. split; [done|].
      intros m' Hm'. rewrite Hmem by done. naive_solver.
    - exists result. split; [done|]. split; [done|]. naive_solver. }
  cbn [mbind option_bind]. destruct (IH (prior ++ [m]) r1) as (r & Hr & Hwf & Hmem'); [by rewrite <-app_assoc|done|].
  rewrite length_app in Hr, Hmem'. cbn [length] in Hr, Hmem'. replace (Z.of_nat (length prior + 1)) with (Z.of_nat (length prior) + 1) in Hr by lia.
  exists r. split; [done|]. split; [done|]. intros m' Hm'. rewrite Hmem', Hmem by done. split.
  - intros [[?|[-> Hbt]]|(d & ? & ? & ?)]; [by left| |right; exists d; split; [lia|done]].
    right. exists (length prior). split; [lia|]. split; [done|]. by apply Hb.
  - intros [?|(d & Hd & Hlk & Hle)]; [left; by left|]. destruct (decide (d = length prior)) as [->|Hne].
    + left. right. assert (m' = m) as -> by congruence. split; [done|]. by apply Hb.
    + right. exists d. split; [lia|done].
Qed.
(** The entry of the link from [i] to [j]. *)
Definition entry_ok i j (e : NetDest) : Prop := netdest_wf NUM base_count e /\
  forall d m, machine_list !! d = Some m -> member base_level e m <-> leads i j d.
Lemma entry_exists i j : inside i -> inside j -> 0 <= W i j <= INFINITE_LATENCY ->
  exists e, shortest_path_to_node types base_level NUM base_count base_number i j weights dist = Some e /\ entry_ok i j e.
Proof using weights_get dist_shaped dist_range nodes_count queues_inside levels_inj types_known counts_nonneg types_once.
  intros Hi Hj Hw. unfold shortest_path_to_node. destruct (NetDest_new_wf base_level NUM base_count counts_nonneg) as [Hnew Hempty].
  destruct (add_reachable_ok i j machine_list Hi Hj Hw [] (NetDest_new NUM base_count) eq_refl Hnew) as (e & He & Hwf & Hmem).
  exists e. split; [exact He|]. split; [done|]. intros d m Hm. rewrite Hmem by (apply all_machines_valid; by eapply list_elem_of_lookup_2). split.
  - intros [[]%Hempty|(d' & _ & Hm' & Hl)]. by assert (d' = d) as <- by (eapply NoDup_lookup; [apply all_machines_once|done|done]).
  - intros Hl. right. exists d. split; [apply Nat.le_0_l|done].
Qed.
End tables.

(** *** The links of the network *)
(** The link a call is for, in the numbers of [Topology], and its entry. *)
Definition call_link (c : LinkCall) : Z * Z * NetDest :=
  match c with
  | makeInLink src dest e _ _ => (src, dest + 2 * nodes, e)
  | makeOutLink src dest e _ _ _ => (src + 2 * nodes, dest + nodes, e)
  | makeInternalLink src dest e _ _ _ => (src + 2 * nodes, dest + 2 * nodes, e)
  end.
Lemma makeLink_ok k i j e lat w bw : link_ok nodes n k -> on_link i j k = true ->
  exists c, makeLink nodes i j e lat w bw = Some c /\ call_link c = (i, j, e).
Proof.
  intros Hk [<- <-]%on_link_spec. pose proof (lk_ends _ _ k Hk) as Hends. unfold makeLink.
  rewrite (proj2 (orb_true_iff _ _)) by (rewrite !Z.leb_le; lia).
  destruct (Z.ltb_spec (l_src k) nodes); [eexists; split; [done|]; cbn; f_equal; f_equal; lia|].
  destruct (Z.ltb_spec (l_dest k) (2 * nodes)).
  - rewrite (proj2 (Z.leb_le nodes (l_dest k))) by lia. eexists; split; [done|]; cbn; f_equal; f_equal; lia.
  - rewrite (proj2 (Z.leb_le (2 * nodes) (l_src k))) by lia. eexists; split; [done|]; cbn; f_equal; f_equal; lia.
Qed.

Variable links : list Link.
Hypothesis links_ok : Forall (link_ok nodes n) links.
Abbreviation W := (weight_of links).
Lemma weight_range i j : inside i -> inside j -> 0 <= W i j <= INFINITE_LATENCY.
Proof using links_ok nodes_count.
  intros Hi Hj. unfold INFINITE_LATENCY. destruct (weight_of_cases links i j) as [[-> _]|(k & Hk & _ & ->)]; [destruct (i =? j); unfold INFINITE_LATENCY; lia|].
  pose proof (lk_weight _ _ k (proj1 (Forall_forall _ _) links_ok k Hk)) as Hr. unfold INFINITE_LATENCY in Hr. lia.
Qed.
Lemma weight_self i : W i i = 0.
Proof using links_ok counts_nonneg nodes_count.
  destruct (weight_of_cases links i i) as [[-> _]|(k & Hk & [Hs Hd]%on_link_spec & _)]; [by rewrite Z.eqb_refl|].
  pose proof (lk_ends _ _ k (proj1 (Forall_forall _ _) links_ok k Hk)) as Hends. lia.
Qed.
Lemma weight_link i j : 0 < W i j < INFINITE_LATENCY -> exists k, k ∈ links /\ on_link i j k = true /\ W i j = l_weight k.
Proof.
  intros Hw. destruct (weight_of_cases links i j) as [[He _]|?]; [|done]. rewrite He in Hw. destruct (i =? j); unfold INFINITE_LATENCY in Hw; lia.
Qed.
Lemma weight_apart i j : inside i -> inside j -> i <> j -> 0 < W i j.
Proof using links_ok nodes_count.
  intros Hi Hj Hne. destruct (weight_of_cases links i j) as [[-> _]|(k & Hk & _ & ->)].
  - destruct (Z.eqb_spec i j); [done|unfold INFINITE_LATENCY; lia].
  - apply (lk_weight _ _ k (proj1 (Forall_forall _ _) links_ok k Hk)).
Qed.

Lemma connect_ok w dist pairs : weights_ok n links w -> shaped n dist ->
  (forall i j d, inside i -> inside j -> mget dist i j = Some d -> 0 <= d <= INFINITE_LATENCY) ->
  (forall i j, (i, j) ∈ pairs -> inside i /\ inside j) ->
  exists calls, connect types base_level NUM base_count base_number pairs nodes w dist = Some calls /\
    (forall c, c ∈ calls -> exists i j e, (i, j) ∈ pairs /\ 0 < W i j < INFINITE_LATENCY /\ call_link c = (i, j, e) /\ entry_ok W dist i j e) /\
    (forall i j, (i, j) ∈ pairs -> 0 < W i j < INFINITE_LATENCY -> exists c e, c ∈ calls /\ call_link c = (i, j, e) /\ entry_ok W dist i j e).
Proof using links_ok counts_nonneg levels_inj types_known types_once nodes_count queues_inside.
  intros Hw Hd Hrange. induction pairs as [|[i j] pairs IH]; intros Hin; cbn [connect].
  { exists []. split; [done|]. split; [by intros c ?%not_elem_of_nil|by intros i j ?%not_elem_of_nil]. }
  destruct (Hin i j) as [Hi Hj]; [by left|]. rewrite (we_get _ _ _ Hw i j Hi Hj). cbn [mbind option_bind].
  destruct (mget_inside n _ i j (we_bw _ _ _ Hw) Hi Hj) as [bw ->]. cbn [mbind option_bind].
  destruct (mget_inside n _ i j (we_latency _ _ _ Hw) Hi Hj) as [lat Hlat]. rewrite Hlat. cbn [mbind option_bind].
  destruct IH as (calls & Hc & Hsound & Hcomplete); [intros; apply Hin; by right|].
  pose proof (weight_range i j Hi Hj) as Hr. destruct ((0 <? W i j) && negb (W i j =? INFINITE_LATENCY)) eqn:Hlink.
  - apply andb_true_iff in Hlink as [H1%Z.ltb_lt H2%negb_true_iff]. apply Z.eqb_neq in H2. assert (0 < W i j < INFINITE_LATENCY) as Hfin by lia.
    destruct (entry_exists W (topology_weights w) dist (we_get _ _ _ Hw) Hd Hrange i j Hi Hj Hr) as (e & -> & He). cbn [mbind option_bind].
    destruct (weight_link i j Hfin) as (k & Hk & Hon & _). destruct (we_link _ _ _ Hw i j k Hi Hj Hk Hon) as (k' & Hk' & Hon' & _ & Hl' & _).
    assert (lat = l_latency k') as -> by congruence. pose proof (proj1 (Forall_forall _ _) links_ok k' Hk') as Hok.
    rewrite (proj2 (Z.eqb_neq _ _)) by (pose proof (lk_latency _ _ _ Hok); lia). cbn [negb].
    destruct (makeLink_ok k' i j e (l_latency k') (W i j) bw Hok Hon') as (c & -> & Hcl). cbn [mbind option_bind]. rewrite Hc. cbn [mbind option_bind].
    exists (c :: calls). split; [done|]. split.
    + intros c' [->|Hc']%elem_of_cons; [exists i, j, e; split; [by left|done]|]. destruct (Hsound c' Hc') as (i' & j' & e' & ? & ?). exists i', j', e'. split; [by right|done].
    + intros i' j' [[= -> ->]|Hp]%elem_of_cons Hw'; [exists c, e; split; [by left|done]|]. destruct (Hcomplete i' j' Hp Hw') as (c' & e' & ? & ?). exists c', e'. split; [by right|done].
  - exists calls. split; [done|]. split.
    + intros c' Hc'. destruct (Hsound c' Hc') as (i' & j' & e' & ? & ?). exists i', j', e'. split; [by right|done].
    + intros i' j' [[= -> ->]|Hp]%elem_of_cons Hw'; [|by apply Hcomplete]. exfalso. apply andb_false_iff in Hlink as [H1%Z.ltb_ge|H2%negb_false_iff]; [lia|].
      apply Z.eqb_eq in H2. lia.
Qed.

Lemma createLinks_ok t : m_links t = links -> m_nodes t = nodes -> max_switch_id t + 1 = n -> 0 <= n ->
  exists calls t' dist, createLinks types base_level NUM base_count base_number t = Some (calls, t') /\ shaped n dist /\ shortest n W dist /\
    (forall i j d, inside i -> inside j -> mget dist i j = Some d -> 0 <= d <= INFINITE_LATENCY) /\
    (forall c, c ∈ calls -> exists i j e, inside i /\ inside j /\ 0 < W i j < INFINITE_LATENCY /\ call_link c = (i, j, e) /\ entry_ok W dist i j e) /\
    (forall i j, inside i -> inside j -> 0 < W i j < INFINITE_LATENCY -> exists c e, c ∈ calls /\ call_link c = (i, j, e) /\ entry_ok W dist i j e) /\
    ((forall k, k ∈ links -> l_latency k = l_weight k) -> forall i j d, inside i -> inside j -> i <> j ->
       mget dist i j = Some d -> d < INFINITE_LATENCY -> mget (m_component_latencies t') i j = Some d).
Proof using links_ok counts_nonneg levels_inj types_known types_once nodes_count queues_inside.
  intros Hl Hn Hmax Hpos. unfold createLinks. rewrite Hmax, Hl, Hn.
  assert (forall x, shaped n (square n x)) as Hsq by (intros x; by apply square_shaped).
  destruct (zero_diagonal_ok n (seqZ 0 n)) with (m := square n INFINITE_LATENCY) as (z & -> & Hz & Hgz); [intros i; rewrite elem_of_seqZ; lia|done|].
  cbn [mbind option_bind].
  destruct (fill_weights_ok nodes n links [] (mkWeights z (square n (-1)) (square n (-1)) (square n (-1)))) as (w & -> & Hw); [|done|].
  { split; cbn; try done.
    - intros i j Hi Hj. rewrite Hgz, square_get by done. unfold weight_of. cbn. destruct (Z.eqb_spec i j) as [->|Hne].
      + rewrite decide_True; [done|]. split; [done|]. apply elem_of_seqZ. lia.
      + by rewrite decide_False by (by intros [? _]).
    - by intros i j k _ _ ?%not_elem_of_nil. }
  cbn [mbind option_bind app] in *.
  destruct (shortest_path_ok n W weight_range (fun i _ => weight_self i) (forall k, k ∈ links -> l_latency k = l_weight k)
    (topology_weights w) (component_latencies w) (square n 0)) as (s & -> & Hs & Hc & Hsh);
    [apply Hw|apply Hw|done|apply Hw| |].
  { intros Hsame i j Hi Hj Hne Hfin. destruct (weight_link i j) as (k & Hk & Hon & _); [pose proof (weight_apart i j Hi Hj Hne); lia|].
    destruct (we_link _ _ _ Hw i j k Hi Hj Hk Hon) as (k' & Hk' & _ & -> & _ & ->). f_equal. by apply Hsame. }
  cbn [mbind option_bind]. pose proof (di_shape _ _ _ (se_dist _ _ _ _ Hs)) as Hshape.
  assert (forall i j d, inside i -> inside j -> mget (current_dist s) i j = Some d -> 0 <= d <= INFINITE_LATENCY) as Hrange.
  { intros i j d Hi Hj. by apply (dist_range n W weight_range _ i j d (se_dist _ _ _ _ Hs)). }
  destruct (connect_ok w (current_dist s) (all_pairs n) Hw Hshape Hrange (fun i j => proj1 (all_pairs_inside n i j))) as (calls & -> & Hsound & Hcomplete).
  cbn [mbind option_bind]. eexists calls, _, (current_dist s). split; [done|]. split; [done|]. split; [done|]. split; [done|]. split; [|split].
  - intros c Hcin. destruct (Hsound c Hcin) as (i & j & e & Hp%all_pairs_inside & ?). exists i, j, e. split; [apply Hp|]. split; [apply Hp|done].
  - intros i j Hi Hj. apply Hcomplete. by apply all_pairs_inside.
  - intros Hsame i j d Hi Hj Hne Hd Hfin. cbn. by apply (se_exact _ _ _ _ Hs).
Qed.
End routing.

(** The tables of the machine types are consistent: types have distinct levels from 0 to [NUM],
    and the machines are as many as the endpoints. *)
Record tables_ok (types : list MachineType) (base_level : MachineType -> Z) (NUM : nat) (base_count base_number : Z -> Z) : Prop := {
  ta_counts i : 0 <= base_count i;
  ta_levels mt mu : known base_level NUM mt -> known base_level NUM mu -> base_level mt = base_level mu -> mt = mu;
  ta_types mt : mt ∈ types -> known base_level NUM mt;
  ta_once : NoDup types;
  ta_nodes : Z.of_nat (length (all_machines types base_level base_count)) = base_number (Z.of_nat NUM) }.
