(* ===== verification/Crossbar.v ===== *)
(** The topology the GPU is configured with, [GPGPUSIM_CROSSBAR], connects every machine and
    every switch with every machine, and its routing tables are complete. *)
From S2P Require Import Prelude Vector Config Address NodeSet NetDest NetBuffers Topology TopologySafe Routing.

Lemma max_switch_id_ge (l : list Link) : forall m k, (k ∈ l -> l_src k <= foldl (fun m k => Z.max (Z.max m (l_src k)) (l_dest k)) m l /\
    l_dest k <= foldl (fun m k => Z.max (Z.max m (l_src k)) (l_dest k)) m l) /\
  m <= foldl (fun m k => Z.max (Z.max m (l_src k)) (l_dest k)) m l.
Proof.
  induction l as [|a l IH]; intros m k; cbn [foldl]; [split; [by intros ?%not_elem_of_nil|lia]|].
  destruct (IH (Z.max (Z.max m (l_src a)) (l_dest a)) k) as [H1 H2]. split; [|lia]. intros [->|Hk]%elem_of_cons; [lia|by apply H1].
Qed.
Lemma max_switch_id_le (l : list Link) b : (forall k, k ∈ l -> l_src k <= b /\ l_dest k <= b) -> forall m, m <= b ->
  foldl (fun m k => Z.max (Z.max m (l_src k)) (l_dest k)) m l <= b.
Proof.
  induction l as [|a l IH]; intros Hl m Hm; [done|]. cbn [foldl]. destruct (Hl a); [by left|].
  apply IH; [intros k Hk; apply Hl; by right|lia].
Qed.

(** ** Ways up the tree *)
Section up.
Variable links : list Link.
(** [i] is at most [h] links away from one of the switches [L]. *)
Inductive up (L : list Z) : nat -> Z -> Prop :=
| up_here h (i : Z) : i ∈ L -> up L h i
| up_link h k : k ∈ links -> up L h (l_dest k) -> up L (S h) (l_src k).
End up.
Lemma up_mono links links' L L' h h' i : (forall k, k ∈ links -> k ∈ links') -> (forall x, x ∈ L -> x ∈ L') -> (h <= h')%nat ->
  up links L h i -> up links' L' h' i.
Proof.
  intros Hl HL Hh Hu. revert h' Hh. induction Hu as [h i Hi|h k Hk Hu IH]; intros h' Hh; [by apply up_here, HL|].
  destruct h' as [|h']; [lia|]. apply up_link; [by apply Hl|]. apply IH. lia.
Qed.
Lemma up_more links L L' h i : up links L h i -> (forall x, x ∈ L -> up links L' 1 x) -> up links L' (h + 1) i.
Proof.
  intros Hu Hx. induction Hu as [h i Hi|h k Hk Hu IH]; [|by apply up_link].
  eapply up_mono; [done|done| |by apply Hx]. lia.
Qed.

Section crossbar.
Variables (nodes LAT : Z).
Implicit Types (t : Topology) (L : list Z) (i : Z) (k : Link).
Definition endpoint i : Prop := 0 <= i < nodes.
Definition switch t i : Prop := 2 * nodes <= i < 2 * nodes + m_number_of_switches t.

(** Under construction: the top switches are [L], and the endpoints of [A] are attached. *)
Record building (A : Z -> Prop) L t : Prop := {
  bu_nodes : m_nodes t = nodes;
  bu_count : 0 <= m_number_of_switches t;
  bu_top x : x ∈ L -> switch t x;
  bu_links k : k ∈ m_links t -> l_weight k = LAT /\ l_latency k = LAT /\ (endpoint (l_src k) \/ switch t (l_src k)) /\ switch t (l_dest k) /\
    l_src k <> l_dest k;
  bu_switches i : switch t i -> up (m_links t) L 1 i;
  bu_attached i : A i -> up (m_links t) L 2 i }.

Lemma new_top A L t id t' : building A L t -> newSwitchID t = (id, t') -> building A (L ++ [id]) t' /\ id = 2 * nodes + m_number_of_switches t /\ switch t' id.
Proof.
  intros [B C D E F G] [= <- <-]. rewrite B. assert (switch (mkTopology (m_nodes t) (m_number_of_switches t + 1) (m_links t) (m_component_latencies t)
    (m_component_inter_switches t)) (m_number_of_switches t + nodes + nodes)) as Hnew by (unfold switch; cbn; lia).
  split; [|split; [lia|by rewrite B in Hnew]]. assert (forall x, x ∈ L -> x ∈ L ++ [m_number_of_switches t + nodes + nodes]) as HL by (intros; apply elem_of_app; by left).
  split; cbn; [done|lia|..].
  - intros x [Hx%D|Hx]%elem_of_app; [unfold switch in *; cbn; lia|]. apply list_elem_of_singleton in Hx as ->. by rewrite B in Hnew.
  - intros k Hk. destruct (E k Hk) as (? & ? & Hs & Hd & ?). unfold switch in *. cbn. split; [done|]. split; [done|]. split; [|split; [lia|done]].
    destruct Hs; [by left|right; lia].
  - intros i Hi. destruct (decide (i = m_number_of_switches t + nodes + nodes)) as [->|Hne].
    + apply up_here, elem_of_app. right. by left.
    + eapply up_mono; [done|exact HL|done|]. apply F. unfold switch in *. cbn in Hi. lia.
  - intros i Hi. eapply up_mono; [done|exact HL|done|by apply G].
Qed.
Lemma add_link_ok A L t src dest : building A L t -> endpoint src \/ switch t src -> switch t dest -> src <> dest -> 0 <= nodes ->
  exists t', addLink3 src dest LAT t = Some t' /\ m_links t' = m_links t ++ [mkLinkTo src dest LAT DEFAULT_BW_MULTIPLIER LAT] /\
    m_number_of_switches t' = m_number_of_switches t /\ m_nodes t' = nodes /\ building A L t'.
Proof.
  intros [B C D E F G] Hs Hd Hne Hn. unfold addLink3, addLink. rewrite B.
  rewrite (proj2 (Z.leb_le src _)), (proj2 (Z.leb_le dest _)) by (unfold switch, endpoint in *; lia).
  eexists. split; [done|]. split; [done|]. split; [done|]. split; [done|].
  assert (forall k, k ∈ m_links t -> k ∈ m_links t ++ [mkLinkTo src dest LAT DEFAULT_BW_MULTIPLIER LAT]) as Hl by (intros; apply elem_of_app; by left).
  split; cbn; try done.
  - intros k [Hk|Hk]%elem_of_app; [by apply E|]. by apply list_elem_of_singleton in Hk as ->.
  - intros i Hi. eapply up_mono; [exact Hl|done|done|by apply F].
  - intros i Hi. eapply up_mono; [exact Hl|done|done|by apply G].
Qed.
(** Attaching an endpoint to a switch that is one link below the top. *)
Lemma attach_ok A L t src dest : building A L t -> endpoint src -> switch t dest -> 0 <= nodes ->
  exists t', addLink3 src dest LAT t = Some t' /\ m_number_of_switches t' = m_number_of_switches t /\
    building (fun i => A i \/ i = src) L t'.
Proof.
  intros Hb Hs Hd Hn. destruct (add_link_ok A L t src dest Hb) as (t' & -> & Hl & Hc & _ & Hb'); [by left|done| |done|].
  { unfold endpoint, switch in *. lia. }
  exists t'. split; [done|]. split; [done|]. destruct Hb' as [B C D E F G]. split; try done. intros i [Hi| ->]; [by apply G|].
  assert (src = l_src (mkLinkTo src dest LAT DEFAULT_BW_MULTIPLIER LAT)) as Hsrc by done. rewrite Hsrc at 1. apply up_link; [rewrite Hl; apply elem_of_app; right; by left|].
  apply F. unfold switch in *. cbn. lia.
Qed.
(** A new switch one link below the top. *)
Lemma new_below A L t top id t1 : building A L t -> top ∈ L -> newSwitchID t = (id, t1) -> 0 <= nodes ->
  forall t2 src, endpoint src -> addLink3 src id LAT t1 = Some t2 -> 
  exists t3, addLink3 id top LAT t2 = Some t3 /\ building (fun i => A i \/ i = src) L t3.
Proof.
  intros Hb Htop Hid Hn t2 src Hsrc Hadd. destruct (new_top A L t id t1 Hb Hid) as (Hb1 & Hidv & Hsw).
  destruct (attach_ok A (L ++ [id]) t1 src id Hb1 Hsrc Hsw Hn) as (t2' & Ht2 & Hc2 & Hb2). rewrite Hadd in Ht2. injection Ht2 as <-.
  assert (switch t2 id) as Hsw2 by (unfold switch in *; by rewrite Hc2).
  pose proof (bu_top _ _ _ Hb top Htop) as Htsw.
  assert (switch t2 top) as Htop2.
  { destruct Hb2 as [B C D _ _ _]. apply D, elem_of_app. by left. }
  destruct (add_link_ok (fun i => A i \/ i = src) (L ++ [id]) t2 id top Hb2) as (t3 & -> & Hl3 & Hc3 & _ & Hb3); [by right|done| |done|].
  { unfold switch in Htsw. lia. }
  exists t3. split; [done|]. pose proof (new_top A L t id t1 Hb Hid) as _.
  assert (forall k, k ∈ m_links t2 -> k ∈ m_links t3) as Hsub by (intros; rewrite Hl3; apply elem_of_app; by left).
  assert (mkLinkTo id top LAT DEFAULT_BW_MULTIPLIER LAT ∈ m_links t3) as Hnew by (rewrite Hl3; apply elem_of_app; right; by left).
  assert (mkLinkTo src id LAT DEFAULT_BW_MULTIPLIER LAT ∈ m_links t2) as Hfirst.
  { unfold addLink3, addLink in Hadd. repeat case_match; try done. injection Hadd as <-. cbn. apply elem_of_app; right; by left. }
  assert (forall k, k ∈ m_links t -> k ∈ m_links t3) as Hold.
  { intros k Hk. apply Hsub. unfold addLink3, addLink in Hadd. repeat case_match; try done. injection Hadd as <-. cbn. apply elem_of_app; left.
    by injection Hid as _ <-. }
  assert (m_number_of_switches t3 = m_number_of_switches t + 1) as Hcount by (rewrite Hc3, Hc2; by injection Hid as _ <-).
  destruct Hb3 as [B C D E F G]. split; try done.
  - intros x Hx. apply D, elem_of_app. by left.
  - intros i Hi. destruct (decide (i = id)) as [->|Hne].
    + apply (up_link _ _ _ (mkLinkTo id top LAT DEFAULT_BW_MULTIPLIER LAT)); [done|]. by apply up_here.
    + eapply up_mono; [exact Hold|done|done|]. apply (bu_switches _ _ _ Hb). unfold switch in *. lia.
  - intros i [Hi| ->].
    + eapply up_mono; [exact Hold|done|done|by apply (bu_attached _ _ _ Hb)].
    + apply (up_link _ _ _ (mkLinkTo src id LAT DEFAULT_BW_MULTIPLIER LAT)); [by apply Hsub|].
      apply (up_link _ _ _ (mkLinkTo id top LAT DEFAULT_BW_MULTIPLIER LAT)); [done|]. by apply up_here.
Qed.

Hypothesis nodes_pos : 0 <= nodes.
Lemma building_ext A A' L t : (forall i, A' i -> A i) -> building A L t -> building A' L t.
Proof. intros HA [B C D E F G]. split; try done. intros i Hi. by apply G, HA. Qed.

Lemma cluster_ok base group : forall ids A L t, building A L t -> (L <> [] \/ forall i rest, ids = i :: rest -> Z.rem i group = 0) ->
  (forall i, i ∈ ids -> endpoint (base + i)) -> (ids = [] \/ group <> 0) ->
  exists L' t', cluster_nodes LAT ids base group L t = Some (L', t') /\ building (fun e => A e \/ exists i, i ∈ ids /\ e = base + i) L' t'.
Proof using nodes_pos.
  induction ids as [|i ids IH]; intros A L t Hb Hfirst Hends Hgroup; cbn [cluster_nodes].
  { exists L, t. split; [done|]. eapply building_ext; [|exact Hb]. intros e [?|(i & ?%not_elem_of_nil & _)]; done. }
  destruct Hgroup as [?|Hgroup]; [done|]. rewrite (proj2 (Z.eqb_neq _ _) Hgroup). cbn [negb].
  assert (exists L1 t1, (if Z.rem i group =? 0 then let '(id, t) := newSwitchID t in (L ++ [id], t) else (L, t)) = (L1, t1) /\
    building A L1 t1 /\ exists top, last L1 = Some top) as (L1 & t1 & -> & Hb1 & top & Htop).
  { destruct (Z.eqb_spec (Z.rem i group) 0) as [|Hrem].
    - destruct (newSwitchID t) as [id t1] eqn:Hid. destruct (new_top A L t id t1 Hb Hid) as (Hb1 & _ & _).
      exists (L ++ [id]), t1. split; [done|]. split; [done|]. exists id. apply last_snoc.
    - exists L, t. split; [done|]. split; [done|]. destruct Hfirst as [Hne|Hz]; [|exfalso; apply Hrem; by eapply Hz].
      destruct (last L) as [top|] eqn:Hl; [by exists top|]. by apply last_None in Hl. }
  destruct (newSwitchID t1) as [id t2] eqn:Hid. destruct (new_top A L1 t1 id t2 Hb1 Hid) as (Hb2 & _ & Hsw).
  assert (endpoint (base + i)) as Hsrc by (apply Hends; by left).
  destruct (attach_ok A (L1 ++ [id]) t2 (base + i) id Hb2 Hsrc Hsw nodes_pos) as (t3 & Ht3 & _ & _). rewrite Ht3. cbn [mbind option_bind].
  rewrite Htop. cbn [mbind option_bind].
  destruct (new_below A L1 t1 top id t2 Hb1 (last_Some_elem_of _ _ Htop) Hid nodes_pos t3 (base + i) Hsrc Ht3) as (t4 & -> & Hb4). cbn [mbind option_bind].
  destruct (IH _ L1 t4 Hb4) as (L' & t' & -> & Hb'); [left; by intros ->|intros; apply Hends; by right|by right|].
  exists L', t'. split; [done|]. eapply building_ext; [|exact Hb']. intros e [?|(x & [->|Hx]%elem_of_cons & ->)]; [left; by left|left; by right|].
  right. by exists x.
Qed.
Lemma single_ok base : forall ids A L t, building A L t -> (forall i, i ∈ ids -> endpoint (base + i)) ->
  exists L' t', single_nodes LAT ids base L t = Some (L', t') /\ building (fun e => A e \/ exists i, i ∈ ids /\ e = base + i) L' t'.
Proof using nodes_pos.
  induction ids as [|i ids IH]; intros A L t Hb Hends; cbn [single_nodes].
  { exists L, t. split; [done|]. eapply building_ext; [|exact Hb]. intros e [?|(i & ?%not_elem_of_nil & _)]; done. }
  destruct (newSwitchID t) as [id t1] eqn:Hid. destruct (new_top A L t id t1 Hb Hid) as (Hb1 & _ & Hsw).
  destruct (attach_ok A (L ++ [id]) t1 (base + i) id Hb1) as (t2 & -> & _ & Hb2); [apply Hends; by left|done|done|]. cbn [mbind option_bind].
  destruct (IH _ (L ++ [id]) t2 Hb2) as (L' & t' & -> & Hb'); [intros; apply Hends; by right|].
  exists L', t'. split; [done|]. eapply building_ext; [|exact Hb']. intros e [?|(x & [->|Hx]%elem_of_cons & ->)]; [left; by left|left; by right|].
  right. by exists x.
Qed.
Definition plain (p : Z * Z) : Link := mkLinkTo p.1 p.2 LAT DEFAULT_BW_MULTIPLIER LAT.
Lemma link_all_ok : forall l t, (forall p, p ∈ l -> p.1 <= m_number_of_switches t + m_nodes t + m_nodes t /\ p.2 <= m_number_of_switches t + m_nodes t + m_nodes t) ->
  exists t', link_all LAT l t = Some t' /\ m_links t' = m_links t ++ (plain <$> l) /\ m_number_of_switches t' = m_number_of_switches t /\ m_nodes t' = m_nodes t.
Proof.
  induction l as [|[src dest] l IH]; intros t Hl; cbn [link_all]; [exists t; by rewrite app_nil_r|].
  destruct (Hl (src, dest)) as [Hs Hd]; [by left|]. cbn in Hs, Hd. unfold addLink3, addLink. rewrite (proj2 (Z.leb_le src _) Hs), (proj2 (Z.leb_le dest _) Hd). cbn [mbind option_bind].
  match goal with |- context [link_all LAT l ?t1] => destruct (IH t1) as (t' & -> & Hl' & Hc & Hn); [cbn; intros p Hp; apply Hl; by right|] end.
  exists t'. split; [done|]. split; [rewrite Hl'; cbn; by rewrite <-app_assoc|]. split; [by rewrite Hc|by rewrite Hn].
Qed.

(** The finished tree: links between switches and endpoints, all of which are near the root, and
    links from the root to every queue. *)
Record star root t : Prop := {
  st_nodes : m_nodes t = nodes;
  st_root : switch t root;
  st_links k : k ∈ m_links t -> l_weight k = LAT /\ l_latency k = LAT /\ l_src k <> l_dest k /\
    (endpoint (l_src k) /\ switch t (l_dest k) \/ switch t (l_src k) /\ (switch t (l_dest k) \/ nodes <= l_dest k < 2 * nodes));
  st_up i : endpoint i \/ switch t i -> up (m_links t) [root] 3 i;
  st_queues q : nodes <= q < 2 * nodes -> exists k, k ∈ m_links t /\ l_src k = root /\ l_dest k = q }.
Lemma root_ok A L t root t1 : building A L t -> (forall e, endpoint e -> A e) -> newSwitchID t = (root, t1) ->
  exists t2 t3, link_all LAT ((fun id => (id, root)) <$> L) t1 = Some t2 /\
    link_all LAT ((fun i => (root, m_nodes t2 + i)) <$> seqZ 0 (m_nodes t2)) t2 = Some t3 /\ star root t3.
Proof using nodes_pos.
  intros Hb HA Hid. destruct (new_top A L t root t1 Hb Hid) as (Hb1 & Hroot & Hsw). pose proof (bu_nodes _ _ _ Hb1) as Hn1.
  assert (Hcount : m_number_of_switches t1 = m_number_of_switches t + 1) by (by injection Hid as _ <-). pose proof (bu_count _ _ _ Hb) as Hc0.
  assert (Hlt1 : m_links t1 = m_links t) by (by injection Hid as _ <-).
  destruct (link_all_ok ((fun id => (id, root)) <$> L) t1) as (t2 & -> & Hl2 & Hc2 & Hn2).
  { intros p (x & -> & Hx)%list_elem_of_fmap. cbn. pose proof (bu_top _ _ _ Hb x Hx) as Hxs. unfold switch in *. lia. }
  assert (m_nodes t2 = nodes) as Hn2' by congruence.
  destruct (link_all_ok ((fun i => (root, m_nodes t2 + i)) <$> seqZ 0 (m_nodes t2)) t2) as (t3 & Ht3 & Hl3 & Hc3 & Hn3).
  { intros p (x & -> & Hx%elem_of_seqZ)%list_elem_of_fmap. cbn. unfold switch in *. lia. }
  exists t2, t3. split; [done|]. split; [exact Ht3|].
  assert (forall x, switch t3 x <-> switch t1 x) as Hsw3 by (intros x; unfold switch; by rewrite Hc3, Hc2).
  assert (forall k, k ∈ m_links t -> k ∈ m_links t3) as Hold by (intros k Hk; rewrite Hl3, Hl2, Hlt1, !elem_of_app; by left; left).
  assert (forall x, x ∈ L -> up (m_links t3) [root] 1 x) as Htop.
  { intros x Hx. apply (up_link _ _ _ (plain (x, root))); [|apply up_here; by left].
    rewrite Hl3, Hl2, !elem_of_app. left. right. apply list_elem_of_fmap. exists (x, root). split; [done|]. apply list_elem_of_fmap. by exists x. }
  split; [congruence|by apply Hsw3|..].
  - intros k. rewrite Hl3, Hl2, Hlt1, !elem_of_app. intros [[Hk|Hk]|Hk].
    + destruct (bu_links _ _ _ Hb k Hk) as (? & ? & Hs & Hd & ?). rewrite !Hsw3. split; [done|]. split; [done|]. split; [done|]. unfold switch in *.
      destruct Hs; [left; split; [done|lia]|right; split; [lia|left; lia]].
    + apply list_elem_of_fmap in Hk as (p & -> & (x & -> & Hx)%list_elem_of_fmap). cbn. rewrite !Hsw3. pose proof (bu_top _ _ _ Hb x Hx) as Hxs. unfold switch in *.
      split; [done|]. split; [done|]. split; [lia|]. right. split; [lia|left; lia].
    + apply list_elem_of_fmap in Hk as (p & -> & (x & -> & Hx%elem_of_seqZ)%list_elem_of_fmap). cbn. rewrite !Hsw3. unfold switch in *.
      split; [done|]. split; [done|]. split; [lia|]. right. split; [lia|right; lia].
  - intros i [Hi|Hi].
    + pose proof (bu_attached _ _ _ Hb i (HA i Hi)) as Hu. apply (up_more (m_links t3) L [root] 2 i); [|done]. eapply up_mono; [exact Hold|done|done|exact Hu].
    + apply Hsw3 in Hi. destruct (decide (i = root)) as [->|Hne]; [apply up_here; by left|].
      assert (switch t i) as Hi' by (unfold switch in *; lia). pose proof (bu_switches _ _ _ Hb i Hi') as Hu.
      eapply (up_mono (m_links t3) _ [root] _ 2); [done|done|lia|]. apply (up_more (m_links t3) L [root] 1 i); [|done]. eapply up_mono; [exact Hold|done|done|exact Hu].
  - intros q Hq. exists (plain (root, q)). split; [|done]. rewrite Hl3, elem_of_app. right. apply list_elem_of_fmap. exists (root, q). split; [done|].
    apply list_elem_of_fmap. exists (q - nodes). rewrite Hn2'. split; [f_equal; lia|]. apply elem_of_seqZ. lia.
Qed.
End crossbar.

(** ** The routing tables of the crossbar *)
Section star.
Variables (nodes LAT root : Z) (t : Topology).
Hypothesis some_nodes : 0 < nodes.
Hypothesis latency_range : 0 < LAT /\ 4 * LAT < INFINITE_LATENCY.
Hypothesis is_star : star nodes LAT root t.
Abbreviation n := (max_switch_id t + 1).
Abbreviation W := (weight_of (m_links t)).

Lemma link_inside k : k ∈ m_links t -> 0 <= l_src k < n /\ 0 <= l_dest k < n.
Proof using some_nodes is_star.
  intros Hk. pose proof (max_switch_id_ge (m_links t) 0 k) as [Hge _]. specialize (Hge Hk). fold (max_switch_id t) in Hge.
  destruct (st_links _ _ _ _ is_star k Hk) as (_ & _ & _ & Hends). unfold endpoint, switch in Hends. lia.
Qed.
Lemma root_inside : 0 <= root < n /\ 2 * nodes <= root.
Proof using some_nodes is_star.
  destruct (st_queues _ _ _ _ is_star nodes) as (k & Hk & Hroot & _); [lia|]. pose proof (link_inside k Hk) as [Hs _].
  rewrite Hroot in Hs. split; [done|]. apply (st_root _ _ _ _ is_star).
Qed.
Lemma star_links_ok : Forall (link_ok nodes n) (m_links t).
Proof using some_nodes is_star latency_range.
  apply Forall_forall. intros k Hk. pose proof (link_inside k Hk) as [Hs Hd]. destruct (st_links _ _ _ _ is_star k Hk) as (Hw & Hl & Hne & Hends).
  split; [done|done|lia|lia|]. unfold endpoint, switch in Hends. lia.
Qed.
Lemma star_weight k : k ∈ m_links t -> W (l_src k) (l_dest k) = LAT.
Proof using is_star.
  intros Hk. destruct (weight_of_cases (m_links t) (l_src k) (l_dest k)) as [[_ Hno]|(k' & Hk' & _ & ->)].
  - specialize (Hno k Hk). by rewrite (proj2 (on_link_spec _ _ _)) in Hno.
  - by apply (st_links _ _ _ _ is_star).
Qed.
Lemma up_walk h i : up (m_links t) [root] h i -> exists d, walk n W i root d /\ d <= Z.of_nat h * LAT.
Proof using some_nodes is_star latency_range.
  induction 1 as [h i Hi|h k Hk Hu (d & Hw & Hd)].
  - apply list_elem_of_singleton in Hi as ->. exists 0. split; [apply walk_end, root_inside|lia].
  - exists (W (l_src k) (l_dest k) + d). split; [apply walk_step; [by apply link_inside|done]|]. rewrite star_weight by done. lia.
Qed.
Lemma star_walk i q : endpoint nodes i \/ switch nodes t i -> nodes <= q < 2 * nodes -> exists d, walk n W i q d /\ d <= 4 * LAT.
Proof using some_nodes is_star latency_range.
  intros Hi Hq. destruct (up_walk 3 i (st_up _ _ _ _ is_star i Hi)) as (d & Hw & Hd). destruct (st_queues _ _ _ _ is_star q Hq) as (k & Hk & Hs & Hq').
  exists (d + LAT). split; [|lia]. eapply walk_app; [exact Hw|]. rewrite <-(star_weight k Hk), <-Hs, <-Hq'. by apply walk_edge; apply link_inside.
Qed.
End star.

(** The crossbar topology is built. *)
Lemma crossbar_built (base_level : MachineType -> Z) (base_number : Z -> Z) (nodes LAT n1 n2 n3 group : Z) : 0 <= nodes -> n1 <= 0 \/ group <> 0 ->
  (forall e, 0 <= e < nodes <-> base_number (base_level L1Cache) <= e < base_number (base_level L1Cache) + n1 \/
     base_number (base_level L2Cache) <= e < base_number (base_level L2Cache) + n2 \/
     base_number (base_level Directory) <= e < base_number (base_level Directory) + n3) ->
  exists root t, makeGPGPUSimCrossbar base_level base_number LAT n1 n2 n3 group (mkTopology nodes 0 [] [] []) = Some t /\ star nodes LAT root t.
Proof.
  intros Hn Hgroup Htile. set (t0 := mkTopology nodes 0 [] [] []).
  assert (building nodes LAT (fun _ => False) [] t0) as H0.
  { split; cbn; try done; [by intros x ?%not_elem_of_nil|by intros k ?%not_elem_of_nil|unfold switch; cbn; lia]. }
  assert (forall b m i, i ∈ seqZ 0 m -> b <= b + i < b + m) as Hseq by (intros b m i ?%elem_of_seqZ; lia).
  unfold makeGPGPUSimCrossbar.
  destruct (cluster_ok nodes LAT Hn (base_number (base_level L1Cache)) group (seqZ 0 n1) _ [] t0 H0) as (L1 & t1 & -> & H1).
  { right. intros i rest Hi. destruct (decide (0 < n1)) as [Hp|Hp]; [|rewrite seqZ_nil in Hi by lia; done].
    rewrite seqZ_cons in Hi by done. injection Hi as <- _. by destruct group. }
  { intros i Hi%(Hseq (base_number (base_level L1Cache))). unfold endpoint. apply Htile. lia. }
  { destruct Hgroup; [left; by apply seqZ_nil|by right]. }
  cbn [mbind option_bind].
  destruct (single_ok nodes LAT Hn (base_number (base_level L2Cache)) (seqZ 0 n2) _ L1 t1 H1) as (L2 & t2 & -> & H2).
  { intros i Hi%(Hseq (base_number (base_level L2Cache))). unfold endpoint. apply Htile. lia. }
  cbn [mbind option_bind].
  destruct (single_ok nodes LAT Hn (base_number (base_level Directory)) (seqZ 0 n3) _ L2 t2 H2) as (L3 & t3 & -> & H3).
  { intros i Hi%(Hseq (base_number (base_level Directory))). unfold endpoint. apply Htile. lia. }
  cbn [mbind option_bind]. destruct (newSwitchID t3) as [root t4] eqn:Hid.
  destruct (root_ok nodes LAT Hn _ L3 t3 root t4 H3) as (t5 & t6 & -> & Ht6 & Hstar); [|exact Hid|].
  { intros e He. apply Htile in He as [He|[He|He]].
    - left; left; right. exists (e - base_number (base_level L1Cache)). split; [apply elem_of_seqZ; lia|lia].
    - left; right. exists (e - base_number (base_level L2Cache)). split; [apply elem_of_seqZ; lia|lia].
    - right. exists (e - base_number (base_level Directory)). split; [apply elem_of_seqZ; lia|lia]. }
  cbn [mbind option_bind]. rewrite Ht6. by exists root, t6.
Qed.

(** C35: The crossbar routes every message. For every machine count and nonzero cluster size, the topology
    of the configured type [GPGPUSIM_CROSSBAR] is built, its links are created, and: from every
    endpoint and every switch, for every machine, some link's routing entry holds the machine;
    whichever such link a message takes, it comes closer to the machine, so it cannot loop; no
    machine is farther than four links; and the latency recorded between an endpoint and a
    machine is their distance. *)
Theorem crossbar_routes types base_level NUM base_count base_number chip_count chips LAT chip_lat n1 n2 n3 group fan_out file nodes :
  tables_ok types base_level NUM base_count base_number -> nodes = base_number (Z.of_nat NUM) -> 1 < nodes ->
  0 < LAT -> 4 * LAT < INFINITE_LATENCY -> n1 <= 0 \/ group <> 0 ->
  (forall e, 0 <= e < nodes <-> base_number (base_level L1Cache) <= e < base_number (base_level L1Cache) + n1 \/
     base_number (base_level L2Cache) <= e < base_number (base_level L2Cache) + n2 \/
     base_number (base_level Directory) <= e < base_number (base_level Directory) + n3) ->
  exists t calls t' dist,
    Topology_new base_level NUM base_count base_number chip_count chips LAT chip_lat n1 n2 n3 group GPGPUSIM_CROSSBAR fan_out file nodes = Some t /\
    createLinks types base_level NUM base_count base_number t = Some (calls, t') /\
    forall d m, all_machines types base_level base_count !! d = Some m ->
      (forall i, endpoint nodes i \/ switch nodes t i /\ i <= max_switch_id t ->
         exists b, mget dist i (out_queue NUM base_number d) = Some b /\ 0 < b <= 4 * LAT /\
           mget (m_component_latencies t') i (out_queue NUM base_number d) = Some b /\
           exists c j e, c ∈ calls /\ call_link NUM base_number c = (i, j, e) /\ member base_level e m) /\
      forall c i j e, c ∈ calls -> call_link NUM base_number c = (i, j, e) -> member base_level e m ->
        exists a b, mget dist i (out_queue NUM base_number d) = Some b /\ mget dist j (out_queue NUM base_number d) = Some a /\ 0 <= a < b.
Proof.
  intros [Hcounts Hinj Hknown Honce Hcount] Hnodes Hn Hlat Hfin Hgroup Htile.
  destruct (crossbar_built base_level base_number nodes LAT n1 n2 n3 group) as (root & t & Ht & Hstar); [lia|done..|].
  assert (0 < nodes) as Hpos by lia. assert (0 < LAT /\ 4 * LAT < INFINITE_LATENCY) as HL by done.
  pose proof (star_links_ok nodes LAT root t Hpos HL Hstar) as Hlinks. pose proof (root_inside nodes LAT root t Hpos Hstar) as [Hroot Hroot2].
  rewrite Hnodes in Hlinks.
  destruct (createLinks_ok types base_level NUM base_count base_number Hcounts Hinj Hknown Honce Hcount (max_switch_id t + 1)
    ltac:(lia) (m_links t) Hlinks t eq_refl) as (calls & t' & dist & Hcreate & Hshape & Hshort & Hrange & Hsound & Hcomplete & Hlats);
    [rewrite <-Hnodes; apply Hstar|done|lia|].
  exists t, calls, t', dist. split; [unfold Topology_new; by destruct (Z.eqb_spec nodes 1); [lia|]|]. split; [done|].
  intros d m Hm. assert (nodes <= out_queue NUM base_number d < 2 * nodes) as Hq.
  { unfold out_queue. pose proof (lookup_lt_Some _ _ _ Hm). lia. }
  set (q := out_queue NUM base_number d) in *. assert (0 <= q < max_switch_id t + 1) as Hqn by lia. split.
  - intros i Hi. assert (0 <= i < max_switch_id t + 1 /\ i <> q) as [Hin Hne] by (unfold endpoint, switch in Hi; lia).
    destruct (mget_inside (max_switch_id t + 1) dist i q Hshape Hin Hqn) as [b Hb]. exists b. split; [done|].
    destruct (star_walk nodes LAT root t Hpos HL Hstar i q) as (d' & Hw & Hd'); [destruct Hi as [?|[? _]]; auto|done|].
    destruct (Hshort i q b Hin Hqn Hb) as [Hwb Hmin]. specialize (Hmin d' Hw).
    destruct (next_hop (max_switch_id t + 1) (weight_of (m_links t))) with (m := dist) (i := i) (f := q) (d := b) as (k & e & Hk & Hki & He & Hsum);
      [intros x y Hx Hy; by eapply (weight_range types base_level NUM base_count base_number)|
       intros x _; by eapply (weight_self types base_level NUM base_count base_number)|done..|].
    pose proof (Hrange k q e Hk Hqn He) as Hre.
    pose proof (weight_apart types base_level NUM base_count base_number Hcount (max_switch_id t + 1) (m_links t) Hlinks i k Hin Hk ltac:(congruence)) as Hpw.
    split; [lia|]. split.
    + apply Hlats; [|done..|lia]. intros x Hx. destruct (st_links _ _ _ _ Hstar x Hx) as (-> & -> & _). done.
    + destruct (Hcomplete i k Hin Hk) as (c & en & Hc & Hcl & _ & Hmem); [lia|]. exists c, k, en. split; [done|]. split; [done|].
      apply (Hmem d m Hm). by exists e, b.
  - intros c i j e Hc Hcl Hmem. destruct (Hsound c Hc) as (i' & j' & e' & Hi & Hj & Hw & Hcl' & _ & Hent). rewrite Hcl in Hcl'. injection Hcl' as <- <- <-.
    apply (Hent d m Hm) in Hmem as (a & b & Ha & Hb & Hsum). exists a, b. split; [done|]. split; [done|].
    pose proof (Hrange j q a Hj Hqn Ha). lia.
Qed.

(** Two L1s in a cluster, an L2 bank and a directory. *)
Definition small_count (i : Z) : Z := if i =? 0 then 2 else 1.
Definition small_number (i : Z) : Z := if i =? 0 then 0 else if i =? 1 then 2 else if i =? 2 then 3 else 4.
Definition small_types : list MachineType := [L1Cache; L2Cache; Directory].
Definition small_topology : option Topology :=
  Topology_new gpu_level 3 small_count small_number (fun _ _ => 0) 1 1 1 2 1 1 2 GPGPUSIM_CROSSBAR 4 (fun _ => None) 4.
Lemma small_tables : tables_ok small_types gpu_level 3 small_count small_number.
Proof.
  split.
  - intros i. unfold small_count. destruct (i =? 0); lia.
  - exact gpu_levels_inj.
  - intros mt Hmt. repeat (apply elem_of_cons in Hmt as [->|Hmt]; [split; vm_compute; congruence|]). by apply not_elem_of_nil in Hmt.
  - apply (bool_decide_unpack _). by vm_compute.
  - reflexivity.
Qed.
Lemma crossbar_routes_witness :
  exists t calls t' c j e, small_topology = Some t /\ createLinks small_types gpu_level 3 small_count small_number t = Some (calls, t') /\
    c ∈ calls /\ call_link 3 small_number c = (0, j, e) /\ member gpu_level e (mkMachine Directory 0).
Proof.
  destruct (crossbar_routes small_types gpu_level 3 small_count small_number (fun _ _ => 0) 1 1 1 2 1 1 2 4 (fun _ => None) 4 small_tables)
    as (t & calls & t' & dist & Ht & Hc & Hroute); [done|lia|lia|unfold INFINITE_LATENCY; lia|by right| |].
  - intros e. change (small_number (gpu_level L1Cache)) with 0. change (small_number (gpu_level L2Cache)) with 2.
    change (small_number (gpu_level Directory)) with 3. lia.
  - destruct (Hroute 3%nat (mkMachine Directory 0) eq_refl) as [Hall _].
    destruct (Hall 0 ltac:(left; unfold endpoint; lia)) as (b & _ & _ & _ & c & j & e & Hin & Hcl & Hmem).
    exists t, calls, t', c, j, e. split; [exact Ht|]. split; [exact Hc|]. split; [exact Hin|]. split; [exact Hcl|exact Hmem].
Defined.
