(* ===== verification/SimpleNetwork.v ===== *)
(** The network as a whole: [network/simple/Switch.C] and [SimpleNetwork.C]. A switch is a
    crossbar with a throttle on each output; the network creates the queues of the endpoints
    and connects switches as [Topology] asks. *)
From S2P Require Import Prelude Vector Config Address PrioHeap EventQueue MessageBuffer NodeSet NetDest MessageSize NetBuffers PerfectSwitch Throttle Topology.

(** [m_buffers_to_free] only owns memory. *)
Record Switch := mkSwitchBox { m_perfect_switch_ptr : PerfectSwitch; m_throttles : list Throttle }.
Record SimpleNetwork := mkSimpleNetwork {
  n_nodes : Z; n_virtual_networks : Z; m_toNetQueues : list (list nat); m_fromNetQueues : list (list nat);
  m_endpoint_switches : list (option Z); m_switch_ptr_vector : list Switch; m_in_use : list bool; m_ordered : list bool }.

Section network.
Context {Q R : Type}.
Abbreviation Net := (NetState Q R).
Implicit Types (s : Net) (sw : Switch) (net : SimpleNetwork).
Variables (FINITE_BUFFERING : bool) (FINITE_BUFFER_SIZE : Z).

(** *** Allocation *)
Definition new_buffer s : nat * Net :=
  let i := fresh (dom (buffers s)) in (i, mkNet (<[i := MessageBuffer_new]> (buffers s)) (net_world s) (draws s)).
Definition new_consumer s : nat * Net :=
  let c := fresh (dom (consumers (net_world s))) in (c, with_world (set_consumer (net_world s) c Consumer_new) s).
Definition net_setOrdering (order : bool) (i : nat) s : option Net := b ← buffers s !! i; Some (with_buffer i (setOrdering b order) s).
Definition net_setSize (size : Z) (i : nat) s : option Net := b ← buffers s !! i; Some (with_buffer i (MessageBuffer.setSize b size) s).
(** A queue between switches. *)
Definition new_queue s : option (nat * Net) :=
  let '(i, s) := new_buffer s in
  s ← net_setOrdering true i s;
  s ← (if FINITE_BUFFERING then net_setSize FINITE_BUFFER_SIZE i s else Some s);
  Some (i, s).
Fixpoint new_queues (n : nat) s : option (list nat * Net) :=
  match n with
  | O => Some ([], s)
  | S n => '(i, s) ← new_queue s; '(l, s) ← new_queues n s; Some (i :: l, s)
  end.

(** *** [Switch] *)
Definition Switch_new (vnets : Z) s : Switch * Net :=
  let '(c, s) := new_consumer s in (mkSwitchBox (PerfectSwitch_new c vnets) [], s).
Definition Switch_addInPort (ins : list nat) sw s : option (Switch * Net) :=
  '(p, s) ← addInPort ins (m_perfect_switch_ptr sw) s; Some (mkSwitchBox p (m_throttles sw), s).
Definition Switch_addOutPort (outs : list nat) (routing_table_entry : NetDest) (link_latency bw_multiplier : Z) sw s : option (Switch * Net) :=
  let '(c, s) := new_consumer s in
  throttle ← Throttle_init c link_latency bw_multiplier;
  '(intermediateBuffers, s) ← new_queues (length outs) s;
  p ← addOutPort intermediateBuffers routing_table_entry (m_perfect_switch_ptr sw);
  '(throttle, s) ← addLinks intermediateBuffers outs throttle s;
  Some (mkSwitchBox p (m_throttles sw ++ [throttle]), s).
Definition Switch_clearRoutingTables sw : Switch := mkSwitchBox (clearRoutingTables (m_perfect_switch_ptr sw)) (m_throttles sw).
Fixpoint clear_throttles (l : list Throttle) s : option Net :=
  match l with [] => Some s | t :: l => s ← Throttle_clear t s; clear_throttles l s end.
Definition Switch_clearBuffers sw s : option Net := s ← clearBuffers (m_perfect_switch_ptr sw) s; clear_throttles (m_throttles sw) s.
Definition Switch_reconfigureOutPort (routing_table_entry : NetDest) sw : Switch :=
  mkSwitchBox (reconfigureOutPort routing_table_entry (m_perfect_switch_ptr sw)) (m_throttles sw).
Definition getThrottle (link_number : Z) sw : option Throttle := ref (m_throttles sw) link_number.
Definition Switch_clearStats sw : Switch := mkSwitchBox (m_perfect_switch_ptr sw) (Throttle.clearStats <$> m_throttles sw).

(** *** [SimpleNetwork] *)
Definition with_switches (l : list Switch) net : SimpleNetwork :=
  mkSimpleNetwork (n_nodes net) (n_virtual_networks net) (m_toNetQueues net) (m_fromNetQueues net) (m_endpoint_switches net) l (m_in_use net) (m_ordered net).
Definition update_switch (k : Z) (f : Switch -> Net -> option (Switch * Net)) net s : option (SimpleNetwork * Net) :=
  sw ← ref (m_switch_ptr_vector net) k;
  '(sw, s) ← f sw s;
  Some (with_switches (<[Z.to_nat k := sw]> (m_switch_ptr_vector net)) net, s).
Definition reconfigure (k : Z) (routing_table_entry : NetDest) net s : option (SimpleNetwork * Net) :=
  update_switch k (fun sw s => Some (Switch_reconfigureOutPort routing_table_entry sw, s)) net s.
Definition SimpleNetwork_makeOutLink (src dest : Z) (entry : NetDest) (link_latency bw_multiplier : Z) (isReconfiguration : bool) net s :
    option (SimpleNetwork * Net) :=
  assert! dest <? n_nodes net;
  assert! src <? Z.of_nat (length (m_switch_ptr_vector net));
  if isReconfiguration then reconfigure src entry net s else
  outs ← ref (m_fromNetQueues net) dest;
  '(net, s) ← update_switch src (Switch_addOutPort outs entry link_latency bw_multiplier) net s;
  _ ← ref (m_endpoint_switches net) dest;
  Some (mkSimpleNetwork (n_nodes net) (n_virtual_networks net) (m_toNetQueues net) (m_fromNetQueues net)
          (<[Z.to_nat dest := Some src]> (m_endpoint_switches net)) (m_switch_ptr_vector net) (m_in_use net) (m_ordered net), s).
Definition SimpleNetwork_makeInLink (src dest : Z) (isReconfiguration : bool) net s : option (SimpleNetwork * Net) :=
  assert! src <? n_nodes net;
  if isReconfiguration then Some (net, s) else
  ins ← ref (m_toNetQueues net) src;
  update_switch dest (Switch_addInPort ins) net s.
Definition SimpleNetwork_makeInternalLink (src dest : Z) (entry : NetDest) (link_latency bw_multiplier : Z) (isReconfiguration : bool) net s :
    option (SimpleNetwork * Net) :=
  if isReconfiguration then reconfigure src entry net s else
  '(queues, s) ← new_queues (Z.to_nat (n_virtual_networks net)) s;
  '(net, s) ← update_switch dest (Switch_addInPort queues) net s;
  update_switch src (Switch_addOutPort queues entry link_latency bw_multiplier) net s.
Definition make_link (isReconfiguration : bool) (c : LinkCall) net s : option (SimpleNetwork * Net) :=
  match c with
  | makeInLink src dest _ _ _ => SimpleNetwork_makeInLink src dest isReconfiguration net s
  | makeOutLink src dest entry latency _ bw => SimpleNetwork_makeOutLink src dest entry latency bw isReconfiguration net s
  | makeInternalLink src dest entry latency _ bw => SimpleNetwork_makeInternalLink src dest entry latency bw isReconfiguration net s
  end.
Fixpoint make_links (isReconfiguration : bool) (l : list LinkCall) net s : option (SimpleNetwork * Net) :=
  match l with [] => Some (net, s) | c :: l => '(net, s) ← make_link isReconfiguration c net s; make_links isReconfiguration l net s end.

(** The queues of the endpoints: into and out of the network, in turn. *)
Fixpoint node_queues (vnets : nat) s : list nat * list nat * Net :=
  match vnets with
  | O => ([], [], s)
  | S vnets =>
      let '(i, s) := new_buffer s in
      let '(o, s) := new_buffer s in
      let '(ins, outs, s) := node_queues vnets s in
      (i :: ins, o :: outs, s)
  end.
Fixpoint all_node_queues (nodes vnets : nat) s : list (list nat) * list (list nat) * Net :=
  match nodes with
  | O => ([], [], s)
  | S nodes =>
      let '(ins, outs, s) := node_queues vnets s in
      let '(inss, outss, s) := all_node_queues nodes vnets s in
      (ins :: inss, outs :: outss, s)
  end.
Fixpoint new_switch_boxes (n : nat) (vnets : Z) s : list Switch * Net :=
  match n with
  | O => ([], s)
  | S n => let '(sw, s) := Switch_new vnets s in let '(l, s) := new_switch_boxes n vnets s in (sw :: l, s)
  end.
(** [topology] is the result of [Topology], [calls] that of [createLinks] on it. *)
Definition SimpleNetwork_new (nodes NUMBER_OF_VIRTUAL_NETWORKS : Z) (topology : Topology) (calls : list LinkCall) s : option (SimpleNetwork * Net) :=
  let vnets := Z.to_nat NUMBER_OF_VIRTUAL_NETWORKS in
  let '(ins, outs, s) := all_node_queues (Z.to_nat nodes) vnets s in
  let '(switches, s) := new_switch_boxes (Z.to_nat (m_number_of_switches topology)) NUMBER_OF_VIRTUAL_NETWORKS s in
  make_links false calls
    (mkSimpleNetwork nodes NUMBER_OF_VIRTUAL_NETWORKS ins outs (replicate (Z.to_nat nodes) None) switches (replicate vnets false) (replicate vnets false)) s.

Fixpoint clear_switches (l : list Switch) s : option Net :=
  match l with [] => Some s | sw :: l => s ← Switch_clearBuffers sw s; clear_switches l s end.
(** The endpoint queues are cleared in turn. *)
Fixpoint clear_pairs (l : list (nat * nat)) s : option Net :=
  match l with [] => Some s | (i, o) :: l => s ← net_clear i s; s ← net_clear o s; clear_pairs l s end.
Definition reset net s : option Net :=
  s ← clear_pairs (zip (mjoin (m_toNetQueues net)) (mjoin (m_fromNetQueues net))) s;
  clear_switches (m_switch_ptr_vector net) s.

Definition checkNetworkAllocation (id : Z) (ordered : bool) (network_num : Z) net : option SimpleNetwork :=
  assert! id <? n_nodes net;
  assert! network_num <? n_virtual_networks net;
  _ ← ref (m_in_use net) network_num;
  Some (mkSimpleNetwork (n_nodes net) (n_virtual_networks net) (m_toNetQueues net) (m_fromNetQueues net) (m_endpoint_switches net)
          (m_switch_ptr_vector net) (<[Z.to_nat network_num := true]> (m_in_use net))
          (if ordered then <[Z.to_nat network_num := true]> (m_ordered net) else m_ordered net)).
Definition getToNetQueue (id : Z) (ordered : bool) (network_num : Z) net : option (nat * SimpleNetwork) :=
  net ← checkNetworkAllocation id ordered network_num net;
  row ← ref (m_toNetQueues net) id;
  i ← ref row network_num;
  Some (i, net).
Definition getFromNetQueue (id : Z) (ordered : bool) (network_num : Z) net : option (nat * SimpleNetwork) :=
  net ← checkNetworkAllocation id ordered network_num net;
  row ← ref (m_fromNetQueues net) id;
  i ← ref row network_num;
  Some (i, net).
Definition isVNetOrdered (vnet : Z) net : option bool := ref (m_ordered net) vnet.
Definition getThrottles (id : Z) net : option (list Throttle) :=
  assert! 0 <=? id;
  assert! id <? n_nodes net;
  k ← ref (m_endpoint_switches net) id;
  k ← k;
  sw ← ref (m_switch_ptr_vector net) k;
  Some (m_throttles sw).
Definition SimpleNetwork_clearStats net : SimpleNetwork := with_switches (Switch_clearStats <$> m_switch_ptr_vector net) net.
End network.
