(* ===== verification/NetworkSafe.v ===== *)
(** The network delivers every message exactly once to each machine it is for: the crossbars
    and throttles of [SimpleNetwork] together, in every order in which they may run. *)
From S2P Require Import Prelude Vector Config Address PrioHeap EventQueue MessageBuffer NodeSet NetDest MessageSize NetBuffers PerfectSwitch Throttle.
From S2P Require PerfectSwitchSafe ThrottleSafe.
From S2P Require Import Topology SimpleNetwork.

(** ** Copies, by the contents of the buffers *)
Section bodies.
Context {Q R : Type}.
Implicit Types (s : NetState Q R) (i o l : nat) (j : Z) (q : NetworkMessage Q) (L : list nat).
(** The destinations of a message on its way, and its body if machine [j] of level [l] is one. *)
Definition remaining q : NetDest := getInternalDestination (mkMessage q 0 0).
Definition bodies l j q : list Q := if has (remaining q) l j then [nm_body q] else [].
Lemma addressed_bodies l j (ns : list (MessageBufferNode (NetworkMessage Q))) :
  ns ≫= addressed l j = omap (fun n => payload <$> n_msgptr n) ns ≫= bodies l j.
Proof.
  induction ns as [|n ns IH]; [done|]. cbn [mbind list_bind omap list_omap]. rewrite IH. unfold addressed. destruct (n_msgptr n) as [m|]; [|done]. done.
Qed.
Lemma copies_contents s L l j : copies s L l j = L ≫= fun i => contents s i ≫= bodies l j.
Proof. unfold copies. induction L as [|i L IH]; [done|]. cbn [mbind list_bind]. by rewrite IH, addressed_bodies. Qed.
Lemma bodies_perm l j (ms ms' : list (NetworkMessage Q)) : ms ≡ₚ ms' -> ms ≫= bodies l j ≡ₚ ms' ≫= bodies l j.
Proof. by intros ->. Qed.
Lemma bodies_app l j (ms ms' : list (NetworkMessage Q)) : (ms ++ ms') ≫= bodies l j = (ms ≫= bodies l j) ++ (ms' ≫= bodies l j).
Proof. apply bind_app. Qed.

(** Buffers that keep their contents hold the same copies; one that gains messages adds theirs. *)
Lemma copies_gain s s' L l j i ms : NoDup L -> contents s' i ≡ₚ ms ++ contents s i -> (forall k, k <> i -> contents s' k ≡ₚ contents s k) ->
  copies s' L l j ≡ₚ (if decide (i ∈ L) then ms ≫= bodies l j else []) ++ copies s L l j.
Proof.
  intros HL Hi Hk. rewrite !copies_contents. induction HL as [|k L Hnin HL IH]; cbn [mbind list_bind].
  { by rewrite decide_False by apply not_elem_of_nil. }
  destruct (decide (k = i)) as [->|Hne].
  - rewrite decide_True by (by left). rewrite decide_False in IH by done. rewrite IH, (bodies_perm l j _ _ Hi), bodies_app. by rewrite <-app_assoc.
  - rewrite IH, (bodies_perm l j _ _ (Hk k Hne)). destruct (decide (i ∈ L)).
    + rewrite decide_True by (by right). rewrite !app_assoc. f_equiv. apply Permutation_app_comm.
    + rewrite decide_False by (rewrite elem_of_cons; intros [|]; congruence). done.
Qed.
Lemma copies_keep s s' L l j : (forall k, k ∈ L -> contents s' k ≡ₚ contents s k) -> copies s' L l j ≡ₚ copies s L l j.
Proof.
  intros Hk. rewrite !copies_contents. induction L as [|k L IH]; [done|]. cbn [mbind list_bind].
  rewrite IH by (intros; apply Hk; by right). by rewrite (bodies_perm l j _ _ (Hk k ltac:(by left))).
Qed.
(** Messages that move from one buffer of the group to another are still there. *)
Lemma copies_move s s' L l j i o ms : NoDup L -> i <> o -> (i ∈ L <-> o ∈ L) -> contents s i ≡ₚ ms ++ contents s' i ->
  contents s' o ≡ₚ ms ++ contents s o -> (forall k, k ∈ L -> k <> i -> k <> o -> contents s' k ≡ₚ contents s k) ->
  copies s' L l j ≡ₚ copies s L l j.
Proof.
  intros HL Hne Hio Hi Ho Hk. destruct (decide (i ∈ L)) as [HiL|HiL].
  - pose proof (proj1 Hio HiL) as HoL. rewrite !copies_contents.
    destruct (proj1 (elem_of_Permutation _ _) HiL) as [L1 HL1]. rewrite HL1 in HL, HoL. apply NoDup_cons in HL as [Hi1 HL].
    apply elem_of_cons in HoL as [->|HoL]; [done|]. destruct (proj1 (elem_of_Permutation _ _) HoL) as [L2 HL2]. rewrite HL2 in HL, Hi1. apply NoDup_cons in HL as [Ho2 HL].
    rewrite HL1, HL2. cbn [mbind list_bind]. rewrite (bodies_perm l j _ _ Hi), (bodies_perm l j _ _ Ho), !bodies_app.
    assert (L2 ≫= (fun k => contents s' k ≫= bodies l j) ≡ₚ L2 ≫= (fun k => contents s k ≫= bodies l j)) as ->.
    { rewrite <-!copies_contents. apply copies_keep. intros k Hk2. apply Hk; [rewrite HL1, HL2; by do 2 right| |]; intros ->; set_solver. }
    rewrite !app_assoc. f_equiv. f_equiv. apply Permutation_app_comm.
  - apply copies_keep. intros k HkL. apply Hk; [done| |]; intros ->; tauto.
Qed.
End bodies.

(** ** The network while it runs *)
Section network.
Context {Q R : Type}.
Variables (RANDOMIZATION : bool) (random : nat -> Z).
Hypothesis random_nonneg : forall k, 0 <= random k.
Variables (g_adaptive_routing : bool) (sort : list LinkOrder -> list LinkOrder).
Hypothesis sort_permutes : forall o, sort o ≡ₚ o.
Variables (g_endpoint_bandwidth DATA_MESSAGE_SIZE : Z) (over_threshold : Z -> Z -> bool).
Hypothesis data_size : 0 <= DATA_MESSAGE_SIZE < 2 ^ 20.
Variables (NUM : nat) (base_count : Z -> Z) (delay : nat -> option Z).
Abbreviation Net := (NetState Q R).
Abbreviation Msg := (NetworkMessage Q).
Implicit Types (s : Net) (sw : Switch) (net : SimpleNetwork) (t : Throttle) (i o l : nat) (j v x : Z) (q : Msg).

(** The network with its buffers, and what its endpoints have sent and received so far, each
    message with the queue it was sent to or received from. *)
Record Running := mkRunning { rn_net : SimpleNetwork; rn_state : Net; rn_sent : list (nat * Msg); rn_received : list (nat * Msg) }.
Implicit Types (r : Running).

(** What can happen next: a switch or one of its throttles is woken; an endpoint sends a
    message, or takes one that is ready; the scheduler takes the next event, which moves the
    time. *)
Inductive Move :=
| WakeSwitch (k : Z)
| WakeThrottle (k link : Z)
| Send (i : nat) (d : Z) (m : Message Msg)
| Receive (i : nat)
| Advance.

Definition vnet_ordered net v : bool := from_option id false (isVNetOrdered v net).
Definition switch_wakeup net sw s : option (Switch * Net) :=
  '(p, s) ← wakeup RANDOMIZATION random g_adaptive_routing (vnet_ordered net) sort (m_perfect_switch_ptr sw) s;
  Some (mkSwitchBox p (m_throttles sw), s).
Definition throttle_wakeup (link : Z) sw s : option (Switch * Net) :=
  t ← getThrottle link sw;
  '(t, s) ← Throttle_wakeup RANDOMIZATION random g_endpoint_bandwidth DATA_MESSAGE_SIZE over_threshold t s;
  Some (mkSwitchBox (m_perfect_switch_ptr sw) (<[Z.to_nat link := t]> (m_throttles sw)), s).
Definition net_advance s : option Net :=
  min ← peekMin (heap (net_world s));
  let w := set_time (net_world s) (m_time min) in
  '(_, h) ← extractMin (heap w);
  Some (with_world (EventQueue.set_heap w h) s).
Definition net_step (mv : Move) r : option Running :=
  match mv with
  | WakeSwitch k => '(net, s) ← update_switch k (switch_wakeup (rn_net r)) (rn_net r) (rn_state r); Some (mkRunning net s (rn_sent r) (rn_received r))
  | WakeThrottle k link => '(net, s) ← update_switch k (throttle_wakeup link) (rn_net r) (rn_state r); Some (mkRunning net s (rn_sent r) (rn_received r))
  | Send i d m => s ← net_enqueue RANDOMIZATION random i m d (rn_state r); Some (mkRunning (rn_net r) s ((i, payload m) :: rn_sent r) (rn_received r))
  | Receive i =>
      ready ← net_isReady i (rn_state r);
      if negb ready then Some r else
      m ← net_peek i (rn_state r);
      s ← net_pop i (rn_state r);
      Some (mkRunning (rn_net r) s (rn_sent r) ((i, payload m) :: rn_received r))
  | Advance => s ← net_advance (rn_state r); Some (mkRunning (rn_net r) s (rn_sent r) (rn_received r))
  end.
Fixpoint net_run (moves : list Move) r : option Running :=
  match moves with [] => Some r | mv :: moves => r ← net_step mv r; net_run moves r end.

(** *** The wiring *)
(** The buffers of the network, the virtual network each belongs to, and the machines that can be
    reached through it. *)
Variables (all : list nat) (vnet_of : nat -> Z) (dests : nat -> nat -> Z -> bool).
Hypothesis all_once : NoDup all.
Record switch_wf sw : Prop := {
  sw_crossbar : PerfectSwitchSafe.switch_ok NUM base_count delay (m_perfect_switch_ptr sw);
  sw_throttle t : t ∈ m_throttles sw -> ThrottleSafe.throttle_ok g_endpoint_bandwidth delay t;
  sw_vnet row v i : row ∈ m_in (m_perfect_switch_ptr sw) ++ m_out (m_perfect_switch_ptr sw) -> ref row v = Some i -> i ∈ all /\ vnet_of i = v;
  sw_covered i l j : i ∈ mjoin (m_in (m_perfect_switch_ptr sw)) -> dests i l j = true ->
    exists e, e ∈ m_routing_table (m_perfect_switch_ptr sw) /\ has e l j = true;
  sw_entry x row e i l j : ref (m_out (m_perfect_switch_ptr sw)) x = Some row -> i ∈ row -> ref (m_routing_table (m_perfect_switch_ptr sw)) x = Some e ->
    has e l j = true -> dests i l j = true;
  sw_wire t v i o : t ∈ m_throttles sw -> ref (t_in t) v = Some i -> ref (t_out t) v = Some o ->
    i ∈ all /\ o ∈ all /\ vnet_of i = v /\ vnet_of o = v /\ forall l j, dests i l j = true -> dests o l j = true }.
Definition switch_placed sw s : Prop :=
  PerfectSwitchSafe.placed (m_perfect_switch_ptr sw) s /\ forall t, t ∈ m_throttles sw -> ThrottleSafe.placed t s.
(** A message that may be in a buffer: it is only for machines that can be reached from there. *)
Definition good i q : Prop :=
  netdest_wf NUM base_count (remaining q) /\ ThrottleSafe.sized q /\ forall l j, has (remaining q) l j = true -> dests i l j = true.
(** The copies for machine [j] of level [l] among messages sent or received on network [v]. *)
Definition on_vnet v l j (log : list (nat * Msg)) : list Q := log ≫= fun p => if vnet_of p.1 =? v then bodies l j p.2 else [].
Definition group v : list nat := filter (fun i => vnet_of i = v) all.

Record running_ok (room : Z) r : Prop := {
  ro_switch sw : sw ∈ m_switch_ptr_vector (rn_net r) -> switch_wf sw /\ switch_placed sw (rn_state r);
  ro_inv : net_inv RANDOMIZATION delay room (rn_state r);
  ro_ends i : i ∈ mjoin (m_toNetQueues (rn_net r)) ++ mjoin (m_fromNetQueues (rn_net r)) -> i ∈ all /\ is_Some (buffers (rn_state r) !! i);
  ro_good i q : q ∈ contents (rn_state r) i -> good i q;
  ro_received i q : (i, q) ∈ rn_received r -> good i q;
  ro_account v l j : on_vnet v l j (rn_sent r) ≡ₚ on_vnet v l j (rn_received r) ++ copies (rn_state r) (group v) l j }.

(** What may be asked of the network: a message sent is for machines of the network and comes
    after the delay of its queue; messages are received from the queues out of the network. *)
Definition move_ok (net : SimpleNetwork) (mv : Move) : Prop :=
  match mv with
  | Send i d m => i ∈ mjoin (m_toNetQueues net) /\ delay i = Some d /\ good i (payload m)
  | Receive i => i ∈ mjoin (m_fromNetQueues net)
  | _ => True
  end.
(** The room a move may take, by the longest of the buffers. *)
Definition longest s : nat := foldr Nat.max 0%nat ((fun i => length (bag s i)) <$> all).
Definition move_cost (mv : Move) r : Z :=
  match mv with
  | WakeSwitch k => from_option (fun sw => PerfectSwitchSafe.wakeup_cost (longest (rn_state r)) (m_perfect_switch_ptr sw)) 0 (ref (m_switch_ptr_vector (rn_net r)) k)
  | WakeThrottle k link =>
      from_option (fun t => m_vnets t * Z.of_nat (longest (rn_state r)) + 1) 0 (sw ← ref (m_switch_ptr_vector (rn_net r)) k; getThrottle link sw)
  | Send _ _ _ => 1
  | _ => 0
  end.
Definition move_now (mv : Move) r : bool :=
  match mv with
  | WakeSwitch k => bool_decide (is_Some (ref (m_switch_ptr_vector (rn_net r)) k))
  | WakeThrottle k link => bool_decide (is_Some (sw ← ref (m_switch_ptr_vector (rn_net r)) k; getThrottle link sw))
  | Send _ _ m => m_LastEnqueueTime m <=? getTime (net_world (rn_state r))
  | Receive _ => true
  | Advance => 0 <? m_current_size (heap (net_world (rn_state r)))
  end.
(** There is room for all of the moves. *)
Fixpoint affordable (room : Z) (moves : list Move) r : bool :=
  match moves with
  | [] => true
  | mv :: moves =>
      (move_cost mv r <=? room) && move_now mv r &&
      match net_step mv r with Some r' => affordable (room - move_cost mv r) moves r' | None => true end
  end.

Lemma longest_ge s i : i ∈ all -> (length (bag s i) <= longest s)%nat.
Proof.
  unfold longest. clear all_once. induction all as [|k L IH]; intros Hi; [by apply not_elem_of_nil in Hi|]. cbn.
  apply elem_of_cons in Hi as [->|Hi]; [lia|]. specialize (IH Hi). lia.
Qed.
Lemma group_once v : NoDup (group v).
Proof using all_once. by apply NoDup_filter. Qed.
Lemma elem_of_vnet_group v i : i ∈ group v <-> vnet_of i = v /\ i ∈ all.
Proof. unfold group. by rewrite list_elem_of_filter. Qed.
Lemma on_vnet_cons v l j i q (log : list (nat * Msg)) :
  on_vnet v l j ((i, q) :: log) = (if vnet_of i =? v then bodies l j q else []) ++ on_vnet v l j log.
Proof. done. Qed.

(** *** Buffers in their rows *)
Lemma elem_ref {A} (row : list A) (y : A) : y ∈ row -> exists v, ref row v = Some y.
Proof.
  intros [k Hk]%list_elem_of_lookup_1. exists (Z.of_nat k). unfold ref. rewrite (proj2 (Z.ltb_ge _ _)) by lia. by rewrite Nat2Z.id.
Qed.
Lemma elem_cell (rows : list (list nat)) i : i ∈ mjoin rows -> exists row v, row ∈ rows /\ ref row v = Some i.
Proof. intros (row & Hi & Hrow)%list_elem_of_join. destruct (elem_ref row i Hi) as [v Hv]. by exists row, v. Qed.
Lemma cell_group sw row v i w : switch_wf sw -> row ∈ m_in (m_perfect_switch_ptr sw) ++ m_out (m_perfect_switch_ptr sw) -> ref row v = Some i ->
  (i ∈ group w <-> w = v).
Proof.
  intros Hsw Hrow Hi. destruct (sw_vnet sw Hsw row v i Hrow Hi) as [Hall <-]. rewrite elem_of_vnet_group. split; [by intros [? _]|by intros ->].
Qed.
Lemma group_column sw v : switch_wf sw -> PerfectSwitchSafe.is_column (m_perfect_switch_ptr sw) v (group v).
Proof using all_once.
  intros Hsw. split.
  - apply group_once.
  - intros row i Hrow Hi. by apply (cell_group sw row v i v Hsw Hrow Hi).
  - intros row x i Hrow Hi Hg. symmetry. by apply (cell_group sw row x i v Hsw Hrow Hi).
Qed.
Lemma input_all sw i : switch_wf sw -> i ∈ mjoin (m_in (m_perfect_switch_ptr sw)) -> i ∈ all.
Proof.
  intros Hsw (row & v & Hrow & Hi)%elem_cell. apply (sw_vnet sw Hsw row v i); [|done]. apply elem_of_app. by left.
Qed.
Lemma contents_bag s i q : q ∈ contents s i <-> exists n m, n ∈ bag s i /\ n_msgptr n = Some m /\ payload m = q.
Proof.
  unfold contents. rewrite list_elem_of_omap. split.
  - intros (n & Hn & Hq). destruct (n_msgptr n) as [m|] eqn:Hm; [|done]. injection Hq as <-. by exists n, m.
  - intros (n & m & Hn & Hm & <-). exists n. split; [done|]. by rewrite Hm.
Qed.
Lemma contents_length s i : (length (contents s i) <= length (bag s i))%nat.
Proof. unfold contents. induction (bag s i) as [|n l IH]; cbn; [lia|]. destruct (n_msgptr n); cbn; lia. Qed.

(** *** Placement *)
Lemma switch_placed_frame sw s s' : frame s s' -> switch_placed sw s -> switch_placed sw s'.
Proof.
  intros Hf [H1 H2]. split; [by eapply PerfectSwitchSafe.placed_frame|]. intros t Ht. destruct (H2 t Ht) as [A B]. destruct Hf as [F _ G]. split; [|by rewrite G].
  intros i Hi. apply elem_of_dom. rewrite F. by apply elem_of_dom, A.
Qed.
Lemma is_Some_frame s s' i : frame s s' -> is_Some (buffers s !! i) -> is_Some (buffers s' !! i).
Proof. intros Hf Hi. apply elem_of_dom. rewrite (fr_buffers _ _ Hf). by apply elem_of_dom. Qed.

(** One switch changes, and buffers keep or relocate their messages. *)
Lemma running_update room room' r k sw' s' : running_ok room r -> switch_wf sw' -> switch_placed sw' s' -> frame (rn_state r) s' ->
  net_inv RANDOMIZATION delay room' s' -> (forall i q, q ∈ contents s' i -> good i q) ->
  (forall v l j, copies s' (group v) l j ≡ₚ copies (rn_state r) (group v) l j) ->
  running_ok room' (mkRunning (with_switches (<[k := sw']> (m_switch_ptr_vector (rn_net r))) (rn_net r)) s' (rn_sent r) (rn_received r)).
Proof.
  intros [A B C D E F] Hwf Hp Hf Hi Hg Hc. split; cbn; [|done| |done|done|].
  - intros sw Hsw. apply list_elem_of_lookup_1 in Hsw as [x Hx]. destruct (decide (x = k)) as [->|Hne].
    + apply list_lookup_insert_Some in Hx as [(_ & <- & _)|(? & _)]; done.
    + rewrite list_lookup_insert_ne in Hx by done. destruct (A sw) as [? ?]; [by eapply list_elem_of_lookup_2|]. split; [done|by eapply switch_placed_frame].
  - intros i Hin. destruct (C i Hin). split; [done|by eapply is_Some_frame].
  - intros v l j. rewrite Hc. apply F.
Qed.

(** *** A crossbar is woken *)
Lemma crossbar_inputs room r sw : running_ok room r -> switch_wf sw -> 
  PerfectSwitchSafe.inputs_ok NUM base_count (longest (rn_state r)) (m_perfect_switch_ptr sw) (rn_state r).
Proof.
  intros Hr Hwf i Hi. split; [by apply longest_ge, (input_all sw)|]. apply Forall_forall. intros n Hn m Hm.
  destruct (ro_good _ _ Hr i (payload m)) as (H1 & _ & H3); [apply contents_bag; by exists n, m|]. split; [exact H1|].
  intros l j Hh. apply (sw_covered sw Hwf i l j Hi). by apply H3.
Qed.
Lemma good_relayed sw s o q : switch_wf sw -> (forall i q, q ∈ contents s i -> good i q) ->
  PerfectSwitchSafe.relayed NUM base_count (m_perfect_switch_ptr sw) s o q -> good o q.
Proof.
  intros Hwf Hg (x & row & e & k & q0 & d & H1 & H2 & H3 & H4 & H5 & H6 & H7 & ->). destruct (Hg k q0 H5) as (_ & G2 & _).
  split; [exact H6|]. split; [exact G2|]. intros l j Hh. by apply (sw_entry sw Hwf x row e o l j H1 H2 H3), H7.
Qed.
Lemma switch_step room r k : running_ok room r -> move_now (WakeSwitch k) r = true -> move_cost (WakeSwitch k) r <= room ->
  exists r', net_step (WakeSwitch k) r = Some r' /\ running_ok (room - move_cost (WakeSwitch k) r) r' /\
    m_toNetQueues (rn_net r') = m_toNetQueues (rn_net r) /\ m_fromNetQueues (rn_net r') = m_fromNetQueues (rn_net r).
Proof using all_once random_nonneg sort_permutes.
  intros Hr [sw Hsw]%bool_decide_eq_true Hcost. cbn [net_step move_cost] in *. unfold update_switch. rewrite Hsw in *. cbn [from_option mbind option_bind] in *.
  assert (sw ∈ m_switch_ptr_vector (rn_net r)) as Hin by by apply ref_Some in Hsw as [_ ?].
  destruct (ro_switch _ _ Hr sw Hin) as [Hwf [Hp Hpt]]. unfold switch_wakeup.
  destruct (PerfectSwitchSafe.wakeup_ok RANDOMIZATION random random_nonneg g_adaptive_routing (vnet_ordered (rn_net r)) sort sort_permutes NUM base_count
    delay (longest (rn_state r)) (m_perfect_switch_ptr sw) (rn_state r) room) as (p & s' & -> & Hok & Hi & Hm);
    [apply Hwf|done|apply Hr|by eapply crossbar_inputs|done|]. cbn [mbind option_bind].
  eexists. split; [done|]. split; [|done].
  destruct Hm as [M1 M2 M3 M4 M5 M6 M7 M8 M9 M10]. eapply running_update; [done| | |done|exact Hi| |].
  - destruct Hwf as [W1 W2 W3 W4 W5 W6]. split; cbn; rewrite ?M1, ?M2, ?M3; done.
  - split; [|intros t Ht; by eapply switch_placed_frame; [|split; [exact Hp|exact Hpt]|]]. cbn.
    destruct (PerfectSwitchSafe.placed_frame _ _ _ M6 Hp) as [P1 P2]. split; [by rewrite M1, M2|by rewrite M5].
  - intros o q [Hq|Hq]%M8; [by apply (ro_good _ _ Hr)|]. by eapply good_relayed; [exact Hwf|apply (ro_good _ _ Hr)|].
  - intros v l j. by apply (M10 v), group_column.
Qed.

(** *** A throttle is woken *)
Lemma throttle_ref sw t v i : switch_wf sw -> t ∈ m_throttles sw -> ref (t_in t) v = Some i -> exists o, ref (t_out t) v = Some o.
Proof.
  intros Hwf Ht. destruct (sw_throttle sw Hwf t Ht) as [A B _ _ _ _ _ _ _ _]. unfold ref. destruct (Z.ltb_spec v 0); [done|]. intros Hi%lookup_lt_Some.
  destruct (lookup_lt_is_Some_2 (t_out t) (Z.to_nat v)) as [o Ho]; [lia|]. by exists o.
Qed.
Lemma throttle_ref_out sw t v o : switch_wf sw -> t ∈ m_throttles sw -> ref (t_out t) v = Some o -> exists i, ref (t_in t) v = Some i.
Proof.
  intros Hwf Ht. destruct (sw_throttle sw Hwf t Ht) as [A B _ _ _ _ _ _ _ _]. unfold ref. destruct (Z.ltb_spec v 0); [done|]. intros Hi%lookup_lt_Some.
  destruct (lookup_lt_is_Some_2 (t_in t) (Z.to_nat v)) as [o' Ho]; [lia|]. by exists o'.
Qed.
Lemma port_group sw t v w i : switch_wf sw -> t ∈ m_throttles sw -> ref (t_in t) v = Some i \/ ref (t_out t) v = Some i -> (i ∈ group w <-> w = v).
Proof.
  intros Hwf Ht Hi. assert (i ∈ all /\ vnet_of i = v) as [Hall <-].
  { destruct Hi as [Hi|Ho].
    - destruct (throttle_ref sw t v i Hwf Ht Hi) as [o Ho]. by destruct (sw_wire sw Hwf t v i o Ht Hi Ho) as (? & _ & ? & _).
    - destruct (throttle_ref_out sw t v i Hwf Ht Ho) as [i' Hi]. by destruct (sw_wire sw Hwf t v i' i Ht Hi Ho) as (_ & ? & _ & ? & _). }
  rewrite elem_of_vnet_group. split; [by intros [? _]|by intros ->].
Qed.
(** The links of a throttle relocate messages, each on its own virtual network. *)
Record throttled t s s' (mv : Z -> list Msg) : Prop := {
  tt_in v i : ref (t_in t) v = Some i -> contents s i ≡ₚ mv v ++ contents s' i;
  tt_out v o : ref (t_out t) v = Some o -> contents s' o ≡ₚ mv v ++ contents s o;
  tt_other k : k ∉ t_in t ++ t_out t -> buffers s' !! k = buffers s !! k }.
Lemma port_index t k : k ∈ t_in t ++ t_out t -> exists v, ref (t_in t) v = Some k \/ ref (t_out t) v = Some k.
Proof. intros [Hk|Hk]%elem_of_app; destruct (elem_ref _ _ Hk) as [v Hv]; exists v; auto. Qed.
Lemma throttled_copies sw t s s' mv v l j : switch_wf sw -> t ∈ m_throttles sw -> throttled t s s' mv ->
  copies s' (group v) l j ≡ₚ copies s (group v) l j.
Proof using all_once.
  intros Hwf Ht [T1 T2 T3]. destruct (ref (t_in t) v) as [i|] eqn:Hi.
  - destruct (throttle_ref sw t v i Hwf Ht Hi) as [o Ho]. apply (copies_move s s' (group v) l j i o (mv v)); [apply group_once| | |by apply T1|by apply T2|].
    + intros ->. pose proof (ThrottleSafe.th_once _ _ _ (sw_throttle sw Hwf t Ht)) as Hn. apply NoDup_app in Hn as (_ & Hn & _).
      apply (Hn o); [by apply ref_Some in Hi as [_ ?]|by apply ref_Some in Ho as [_ ?]].
    + rewrite (port_group sw t v v i Hwf Ht), (port_group sw t v v o Hwf Ht); auto.
    + intros k Hk Hki Hko. rewrite (contents_buffer s s' k); [done|]. apply T3. intros [x [Hx|Hx]]%port_index;
        pose proof (proj1 (port_group sw t x v k Hwf Ht ltac:(auto)) Hk) as ->; congruence.
  - apply copies_keep. intros k Hk. rewrite (contents_buffer s s' k); [done|]. apply T3. intros [x Hx]%port_index.
    pose proof (proj1 (port_group sw t x v k Hwf Ht Hx) Hk) as ->. destruct Hx as [Hx|Hx]; [congruence|].
    destruct (throttle_ref_out sw t x k Hwf Ht Hx) as [i' Hi']. congruence.
Qed.
Lemma throttled_good sw t s s' mv : switch_wf sw -> t ∈ m_throttles sw -> throttled t s s' mv ->
  (forall i q, q ∈ contents s i -> good i q) -> forall i q, q ∈ contents s' i -> good i q.
Proof.
  intros Hwf Ht [T1 T2 T3] Hg k q Hq. destruct (decide (k ∈ t_in t ++ t_out t)) as [Hk|Hk].
  - destruct (port_index t k Hk) as [v [Hv|Hv]].
    + apply Hg. rewrite (T1 v k Hv). apply elem_of_app. by right.
    + rewrite (T2 v k Hv) in Hq. apply elem_of_app in Hq as [Hq|Hq]; [|by apply Hg].
      destruct (throttle_ref_out sw t v k Hwf Ht Hv) as [i Hi]. destruct (sw_wire sw Hwf t v i k Ht Hi Hv) as (_ & _ & _ & _ & Hd).
      destruct (Hg i q) as (G1 & G2 & G3); [rewrite (T1 v i Hi); apply elem_of_app; by left|]. split; [done|]. split; [done|]. intros l j Hh. by apply Hd, G3.
  - apply Hg. by rewrite <-(contents_buffer s s' k (T3 k Hk)).
Qed.
Lemma throttle_step room r k link : running_ok room r -> move_now (WakeThrottle k link) r = true -> move_cost (WakeThrottle k link) r <= room ->
  exists r', net_step (WakeThrottle k link) r = Some r' /\ running_ok (room - move_cost (WakeThrottle k link) r) r' /\
    m_toNetQueues (rn_net r') = m_toNetQueues (rn_net r) /\ m_fromNetQueues (rn_net r') = m_fromNetQueues (rn_net r).
Proof using all_once random_nonneg data_size.
  intros Hr Hnow%bool_decide_eq_true Hcost. cbn [net_step move_cost] in *. unfold update_switch, throttle_wakeup.
  destruct Hnow as [t Ht']. rewrite Ht' in *. apply bind_Some in Ht' as (sw & Hsw & Hlink). rewrite Hsw. cbn [from_option mbind option_bind] in *. rewrite Hlink.
  assert (sw ∈ m_switch_ptr_vector (rn_net r)) as Hin by by apply ref_Some in Hsw as [_ ?].
  apply ref_Some in Hlink as [Hlk Ht]. destruct (ro_switch _ _ Hr sw Hin) as [Hwf [Hp Hpt]]. cbn [mbind option_bind].
  destruct (ThrottleSafe.throttle_wakeup_ok RANDOMIZATION random random_nonneg g_endpoint_bandwidth DATA_MESSAGE_SIZE over_threshold data_size delay
    (longest (rn_state r)) t (rn_state r) room) as (t' & s' & mv & used & -> & Ht' & Hsp & Hi & Tin & Tout & Toth & Hf & _);
    [by apply (sw_throttle sw Hwf)|apply Hr|by apply Hpt| |done|].
  { intros i Hit. destruct (elem_ref _ _ Hit) as [v Hv]. destruct (throttle_ref sw t v i Hwf Ht Hv) as [o Ho].
    destruct (sw_wire sw Hwf t v i o Ht Hv Ho) as (Hall & _). split; [etransitivity; [apply contents_length|by apply longest_ge]|].
    apply Forall_forall. intros q Hq. apply (ro_good _ _ Hr i q Hq). }
  cbn [mbind option_bind]. eexists. split; [done|]. split; [|done]. assert (throttled t (rn_state r) s' mv) as Htt by by split.
  assert (forall u, u ∈ <[Z.to_nat link:=t']> (m_throttles sw) -> u = t' \/ u ∈ m_throttles sw) as Hup.
  { intros u [x Hx]%list_elem_of_lookup_1. apply list_lookup_insert_Some in Hx as [(_ & <- & _)|(_ & Hx)]; [by left|right; by eapply list_elem_of_lookup_2]. }
  destruct Hsp as [S1 S2 S3 S4 S5 S6]. eapply running_update; [done| | |done|exact Hi|by eapply throttled_good; [..|apply (ro_good _ _ Hr)]|intros; by eapply throttled_copies].
  - destruct Hwf as [W1 W2 W3 W4 W5 W6]. split; cbn; [done| |done..|].
    + intros u [->|Hu]%Hup; [done|by apply W2].
    + intros u v i o [->|Hu]%Hup; [rewrite S2, S3|]; by apply W6.
  - split; cbn; [by eapply PerfectSwitchSafe.placed_frame|]. intros u [->|Hu]%Hup.
    + destruct (switch_placed_frame sw (rn_state r) s' Hf (conj Hp Hpt)) as [_ H]. destruct (H t Ht) as [P1 P2]. split; [by rewrite S2, S3|by rewrite S1].
    + by apply (switch_placed_frame sw (rn_state r) s' Hf (conj Hp Hpt)).
Qed.

(** *** The endpoints and the scheduler *)
Lemma gained v l j i q : i ∈ all -> (if decide (i ∈ group v) then [q] ≫= bodies l j else []) = if vnet_of i =? v then bodies l j q else [].
Proof.
  intros Hi. cbn [mbind list_bind]. rewrite app_nil_r. destruct (Z.eqb_spec (vnet_of i) v).
  - by rewrite decide_True by (by apply elem_of_vnet_group).
  - by rewrite decide_False by (rewrite elem_of_vnet_group; by intros [? _]).
Qed.
Lemma send_step room r i d (m : Message Msg) : running_ok room r -> move_ok (rn_net r) (Send i d m) -> move_now (Send i d m) r = true -> 1 <= room ->
  exists r', net_step (Send i d m) r = Some r' /\ running_ok (room - 1) r' /\ rn_net r' = rn_net r.
Proof using all_once random_nonneg.
  intros Hr (Hi & Hd & Hgood) Hnow%Z.leb_le Hroom. cbn [net_step]. destruct (ro_ends _ _ Hr i) as [Hall Hbuf]; [apply elem_of_app; by left|].
  destruct (net_enqueue_ok RANDOMIZATION random random_nonneg delay room (rn_state r) i m d (ro_inv _ _ Hr) Hroom Hbuf Hd Hnow)
    as (s' & n & m' & -> & Hi' & Hf & Hbag & Hmsg & Hpay & Hoth). cbn [mbind option_bind]. eexists. split; [done|]. split; [|done].
  pose proof (contents_cons _ _ _ _ _ Hbag Hmsg) as Hc. rewrite Hpay in Hc.
  assert (forall k, k <> i -> contents s' k = contents (rn_state r) k) as Hk by (intros k Hk; by apply contents_buffer, Hoth).
  destruct Hr as [A B C D E F]. split; cbn [rn_net rn_state rn_sent rn_received]; [|done| | |done|].
  - intros sw Hsw. destruct (A sw Hsw). split; [done|by eapply switch_placed_frame].
  - intros k Hin. destruct (C k Hin). split; [done|by eapply is_Some_frame].
  - intros k q Hq. destruct (decide (k = i)) as [->|Hne]; [|apply D; by rewrite <-Hk].
    rewrite Hc in Hq. apply elem_of_cons in Hq as [->|Hq]; [done|by apply D].
  - intros v l j. rewrite (copies_gain (rn_state r) s' (group v) l j i [payload m] (group_once v) Hc) by (intros k Hne; by rewrite Hk).
    rewrite (gained v l j i _ Hall), on_vnet_cons, F. apply Permutation_app_swap_app.
Qed.
Lemma receive_step room r i : running_ok room r -> i ∈ mjoin (m_fromNetQueues (rn_net r)) ->
  exists r', net_step (Receive i) r = Some r' /\ running_ok room r' /\ rn_net r' = rn_net r.
Proof using all_once.
  intros Hr Hin. cbn [net_step]. destruct (ro_ends _ _ Hr i) as [Hall Hbuf]; [apply elem_of_app; by right|].
  destruct (net_ready_ok RANDOMIZATION delay room (rn_state r) i (ro_inv _ _ Hr) Hbuf) as (b & Hready & _). rewrite Hready. cbn [mbind option_bind].
  destruct b; cbn [negb]; [|by exists r].
  destruct (net_read RANDOMIZATION delay room (rn_state r) i (ro_inv _ _ Hr) Hready) as (n & m & -> & Hmsg & Hn & _ & Hpop).
  destruct (Hpop (rn_state r) eq_refl eq_refl room (ro_inv _ _ Hr)) as (s' & -> & Hi' & Hf & Hbag & Hoth & _). cbn [mbind option_bind].
  eexists. split; [done|]. split; [|done]. pose proof (contents_cons _ _ _ _ _ Hbag Hmsg) as Hc.
  assert (forall k, k <> i -> contents s' k = contents (rn_state r) k) as Hk by (intros k Hk; by apply contents_buffer, Hoth).
  destruct Hr as [A B C D E F]. split; cbn [rn_net rn_state rn_sent rn_received]; [|done| | | |].
  - intros sw Hsw. destruct (A sw Hsw). split; [done|by eapply switch_placed_frame].
  - intros k Hki. destruct (C k Hki). split; [done|by eapply is_Some_frame].
  - intros k q Hq. apply D. destruct (decide (k = i)) as [->|Hne]; [rewrite Hc; by right|by rewrite <-Hk].
  - intros k q [[= -> ->]|Hq]%elem_of_cons; [|by apply E]. apply D. rewrite Hc. by left.
  - intros v l j. rewrite F, on_vnet_cons.
    rewrite (copies_gain s' (rn_state r) (group v) l j i [payload m] (group_once v) Hc) by (intros k Hne; by rewrite Hk).
    rewrite (gained v l j i _ Hall), <-app_assoc. apply Permutation_app_swap_app.
Qed.
Lemma advance_ok room s : net_inv RANDOMIZATION delay room s -> 0 < m_current_size (heap (net_world s)) ->
  exists s', net_advance s = Some s' /\ net_inv RANDOMIZATION delay room s' /\ buffers s' = buffers s /\ consumers (net_world s') = consumers (net_world s).
Proof.
  intros Hi Hpos. pose proof (nv_world _ _ _ _ Hi) as Hw.
  destruct (extractMin_correct (heap (net_world s))) as (e & h & Hext & Hh & Hperm & Hsz & Hpk & Hmin); [apply Hw|done|apply event_comparable|].
  assert (e ∈ elems (heap (net_world s))) as Hin by (rewrite Hperm; by left). pose proof (inv_future _ Hw e Hin) as Hle.
  unfold net_advance. rewrite Hpk. cbn [mbind option_bind]. change (heap (set_time (net_world s) (m_time e))) with (heap (net_world s)). rewrite Hext.
  cbn [mbind option_bind]. eexists. split; [done|]. split; [|done].
  assert (forall e', e' ∈ elems (heap (net_world s)) -> m_time e <= m_time e') as Hall.
  { intros e' He'. by apply Z.leb_le, (Hmin e'). }
  destruct Hi as [A B C D]. split; cbn [net_world with_world buffers]; [done| | |].
  - apply eq_inv_remove with e; [by apply eq_inv_set_time|done|done|done].
  - cbn. lia.
  - intros i b Hb. destruct (D i b Hb) as [D1 D2 D3 D4 D5]. split; [done..|]. intros d Hd. destruct (D5 d Hd) as [? Hp]. split; [done|].
    intros H1 H2. specialize (Hp H1 H2). unfold getTime in *. cbn in *. lia.
Qed.
Lemma advance_step room r : running_ok room r -> move_now Advance r = true ->
  exists r', net_step Advance r = Some r' /\ running_ok room r' /\ rn_net r' = rn_net r.
Proof.
  intros Hr Hnow%Z.ltb_lt. cbn [net_step]. destruct (advance_ok room (rn_state r) (ro_inv _ _ Hr) Hnow) as (s' & -> & Hi & Hb & Hc).
  cbn [mbind option_bind]. eexists. split; [done|]. split; [|done]. destruct Hr as [A B C D E F].
  assert (forall i, bag s' i = bag (rn_state r) i) as Hbag by (intros i; unfold bag; by rewrite Hb).
  split; cbn [rn_net rn_state rn_sent rn_received]; [|done| | |done|].
  - intros sw Hsw. destruct (A sw Hsw) as [? [[P1 P2] P3]]. split; [done|]. split; [split; [by rewrite Hb|by rewrite Hc]|].
    intros t Ht. destruct (P3 t Ht) as [P4 P5]. split; [by rewrite Hb|by rewrite Hc].
  - intros i. rewrite Hb. apply C.
  - intros i q Hq. apply D. unfold contents in *. by rewrite <-Hbag.
  - intros v l j. rewrite F. f_equiv. symmetry. apply copies_same. intros i _. by rewrite Hbag.
Qed.

(** *** Runs *)
Definition sends (moves : list Move) : list (nat * Msg) := omap (fun mv => match mv with Send i _ m => Some (i, payload m) | _ => None end) moves.
Lemma step_ok room mv r : running_ok room r -> move_ok (rn_net r) mv -> move_now mv r = true -> move_cost mv r <= room ->
  exists r', net_step mv r = Some r' /\ running_ok (room - move_cost mv r) r' /\ 
    m_toNetQueues (rn_net r') = m_toNetQueues (rn_net r) /\ m_fromNetQueues (rn_net r') = m_fromNetQueues (rn_net r).
Proof using all_once random_nonneg sort_permutes data_size.
  intros Hr Hok Hnow Hcost. destruct mv as [k|k link|i d m|i|].
  - by apply switch_step.
  - by apply throttle_step.
  - destruct (send_step room r i d m Hr Hok Hnow Hcost) as (r' & ? & ? & Hn). exists r'. by rewrite Hn.
  - destruct (receive_step room r i Hr Hok) as (r' & ? & ? & Hn). exists r'. cbn [move_cost]. by rewrite Z.sub_0_r, Hn.
  - destruct (advance_step room r Hr Hnow) as (r' & ? & ? & Hn). exists r'. cbn [move_cost]. by rewrite Z.sub_0_r, Hn.
Qed.
Lemma step_sent mv r r' : net_step mv r = Some r' -> rn_sent r' = reverse (sends [mv]) ++ rn_sent r.
Proof.
  destruct mv as [k|k link|i d m|i|]; cbn [net_step]; intros H.
  - by apply bind_Some in H as ([net s] & _ & [= <-]).
  - by apply bind_Some in H as ([net s] & _ & [= <-]).
  - by apply bind_Some in H as (s & _ & [= <-]).
  - apply bind_Some in H as (b & _ & H). destruct b; cbn [negb] in H; [|by injection H as <-].
    apply bind_Some in H as (m & _ & H). by apply bind_Some in H as (s & _ & [= <-]).
  - by apply bind_Some in H as (s & _ & [= <-]).
Qed.
Lemma run_ok moves : forall room r, running_ok room r -> Forall (move_ok (rn_net r)) moves -> affordable room moves r = true ->
  exists r' room', net_run moves r = Some r' /\ running_ok room' r' /\ rn_sent r' = reverse (sends moves) ++ rn_sent r.
Proof using all_once random_nonneg sort_permutes data_size.
  induction moves as [|mv moves IH]; intros room r Hr Hok Haff; cbn [net_run]; [by exists r, room|].
  apply Forall_cons in Hok as [Hmv Hok]. cbn [affordable] in Haff. apply andb_true_iff in Haff as [[Hcost%Z.leb_le Hnow]%andb_true_iff Haff].
  destruct (step_ok room mv r Hr Hmv Hnow Hcost) as (r1 & Hst & Hr1 & Hto & Hfrom). rewrite Hst in Haff |- *. cbn [mbind option_bind].
  destruct (IH _ r1 Hr1) as (r' & room' & -> & Hr' & Hs); [|exact Haff|].
  { eapply Forall_impl; [exact Hok|]. intros [| | | |]; cbn [move_ok]; rewrite ?Hto, ?Hfrom; done. }
  exists r', room'. split; [done|]. split; [done|]. rewrite Hs, (step_sent _ _ _ Hst), app_assoc. f_equal. rewrite <-reverse_app. f_equal.
  unfold sends. by rewrite <-omap_app.
Qed.

(** A network before any message is sent. *)
Record quiet room net s : Prop := {
  qt_switch sw : sw ∈ m_switch_ptr_vector net -> switch_wf sw /\ switch_placed sw s;
  qt_inv : net_inv RANDOMIZATION delay room s;
  qt_ends i : i ∈ mjoin (m_toNetQueues net) ++ mjoin (m_fromNetQueues net) -> i ∈ all /\ is_Some (buffers s !! i);
  qt_empty i : contents s i = [] }.
Lemma quiet_ok room net s : quiet room net s -> running_ok room (mkRunning net s [] []).
Proof.
  intros [A B C D]. split; cbn [rn_net rn_state rn_sent rn_received]; [done|done|done| | |].
  - intros i q. rewrite D. by intros ?%not_elem_of_nil.
  - by intros i q ?%not_elem_of_nil.
  - intros v l j. rewrite copies_contents. cbn [app on_vnet mbind list_bind]. clear all_once. induction (group v) as [|i L IH]; [done|]. cbn. by rewrite D.
Qed.
End network.
