(* ===== verification/NetworkDelivery.v ===== *)
(** The network of [SimpleNetwork] delivers: the theorem, a check of the wiring of a network that
    was built, and an example that runs. *)
From S2P Require Import Prelude Vector Config Address PrioHeap EventQueue MessageBuffer NodeSet NetDest MessageSize NetBuffers PerfectSwitch Throttle.
From S2P Require PerfectSwitchSafe ThrottleSafe.
From S2P Require Import Topology Crossbar SimpleNetwork NetworkSafe.

(** ** A check of the wiring *)
Section check.
Variables (NUM : nat) (base_count : Z -> Z) (delay : nat -> option Z) (g_endpoint_bandwidth : Z).
Implicit Types (d : NetDest) (sw : Switch) (t : Throttle) (i l : nat) (j v : Z).

Definition set_check (x : NodeSet) : bool :=
  (0 <=? m_nSize x) && (Z.of_nat (length (m_p_nArray x)) =? setSize_words (m_nSize x)) &&
  forallb (fun w => (0 <=? w) && (w <? 2 ^ 64)) (m_p_nArray x) && forallb (fun j => j <? m_nSize x) (elements_of (m_p_nArray x)).
Lemma set_check_ok x : set_check x = true -> set_wf x.
Proof.
  intros [[[H1 H2]%andb_true_iff H3]%andb_true_iff H4]%andb_true_iff. split; [lia|lia| |].
  - apply Forall_forall. intros w Hw. apply list_elem_of_In, (proj1 (forallb_forall _ _) H3), andb_true_iff in Hw as [? ?]. lia.
  - intros j Hj. apply elem_of_elements_of, list_elem_of_In, (proj1 (forallb_forall _ _) H4) in Hj. lia.
Qed.
Definition dest_check d : bool :=
  Nat.eqb (length d) NUM && forallb (fun p : nat * NodeSet => set_check p.2 && (m_nSize p.2 =? base_count (Z.of_nat p.1))) (imap pair d).
Lemma dest_check_ok d : dest_check d = true -> netdest_wf NUM base_count d.
Proof.
  intros [H1%Nat.eqb_eq H2]%andb_true_iff. split; [done|]. intros i x Hx.
  assert ((i, x) ∈ imap pair d) as Hin by (apply list_elem_of_lookup_2 with i; by rewrite list_lookup_imap, Hx).
  apply list_elem_of_In, (proj1 (forallb_forall _ _) H2), andb_true_iff in Hin as [Hs%set_check_ok Hn%Z.eqb_eq]. done.
Qed.
(** The machines of a destination. *)
Definition machines d : list (nat * Z) := mjoin (imap (fun l x => pair l <$> elements_of (m_p_nArray x)) d).
Lemma has_machines d l j : has d l j = true <-> (l, j) ∈ machines d.
Proof.
  unfold has, machines. rewrite list_elem_of_join. split.
  - destruct (d !! l) as [x|] eqn:Hx; [|done]. intros Hj%bool_decide_eq_true. exists (pair l <$> elements_of (m_p_nArray x)). split.
    + apply list_elem_of_fmap. exists j. split; [done|]. unfold to_set in Hj. by apply elem_of_list_to_set in Hj.
    + apply list_elem_of_lookup_2 with l. by rewrite list_lookup_imap, Hx.
  - intros (ms & Hin & [k Hk]%list_elem_of_lookup_1). rewrite list_lookup_imap in Hk. apply fmap_Some in Hk as (x & Hx & ->).
    apply list_elem_of_fmap in Hin as (y & [= -> ->] & Hy). rewrite Hx. apply bool_decide_eq_true. unfold to_set. by apply elem_of_list_to_set.
Qed.

Definition crossbar_check (p : PerfectSwitch) : bool :=
  (0 <=? m_virtual_networks p) && forallb (fun row => Z.of_nat (length row) =? m_virtual_networks p) (m_in p ++ m_out p) &&
  bool_decide (NoDup (mjoin (m_in p ++ m_out p))) && Nat.eqb (length (m_routing_table p)) (length (m_out p)) &&
  forallb dest_check (m_routing_table p) && bool_decide (m_link <$> m_link_order p = seqZ 0 (Z.of_nat (length (m_out p)))) &&
  forallb (fun i => bool_decide (delay i = Some 1)) (mjoin (m_out p)) && (0 <=? m_round_robin_start p) &&
  (m_round_robin_start p <=? Z.of_nat (length (m_in p))).
Ltac split_checks := repeat match goal with H : _ && _ = true |- _ => apply andb_true_iff in H as [? ?] end.
Ltac use_checks := intros; match goal with H : forallb _ ?l = true, Hx : ?x ∈ ?l |- _ => apply list_elem_of_In, (proj1 (forallb_forall _ _) H) in Hx end.
Lemma crossbar_check_ok p : crossbar_check p = true -> PerfectSwitchSafe.switch_ok NUM base_count delay p.
Proof.
  unfold crossbar_check. intros H. split_checks. split.
  - lia.
  - intros row Hrow. use_checks. lia.
  - by eapply bool_decide_eq_true.
  - by apply Nat.eqb_eq.
  - intros e He. use_checks. by apply dest_check_ok.
  - match goal with H : bool_decide (_ <$> _ = _) = true |- _ => by apply bool_decide_eq_true in H as -> end.
  - intros i Hi. use_checks. by eapply bool_decide_eq_true.
  - lia.
Qed.
Definition throttle_check t : bool :=
  (Z.of_nat (length (t_in t)) =? m_vnets t) && (Z.of_nat (length (t_out t)) =? m_vnets t) && bool_decide (NoDup (t_in t ++ t_out t)) &&
  (Z.of_nat (length (m_units_remaining t)) =? m_vnets t) && forallb (fun u => (0 <=? u) && (u <? 2 ^ 30)) (m_units_remaining t) &&
  Nat.eqb (length (m_message_counters t)) MessageSizeType_NUM && forallb (fun row => Z.of_nat (length row) =? m_vnets t) (m_message_counters t) &&
  (0 <? getLinkBandwidth g_endpoint_bandwidth t) && forallb (fun o => bool_decide (delay o = Some (m_link_latency t))) (t_out t) &&
  (0 <=? m_bash_counter t) && (m_bash_counter t <=? HIGH_RANGE).
Lemma throttle_check_ok t : throttle_check t = true -> ThrottleSafe.throttle_ok g_endpoint_bandwidth delay t.
Proof.
  unfold throttle_check. intros H. split_checks. split; try lia.
  - by eapply bool_decide_eq_true.
  - apply Forall_forall. intros u Hu. use_checks. split_checks. lia.
  - by apply Nat.eqb_eq.
  - apply Forall_forall. intros u Hu. use_checks. lia.
  - intros o Ho. use_checks. by eapply bool_decide_eq_true.
Qed.

(** The machines that can be reached through a buffer, from a table. *)
Variables (all : list nat) (vnet_of : nat -> Z) (reach : nat -> list (nat * Z)).
Definition dests i l j : bool := bool_decide ((l, j) ∈ reach i).
Definition cells_check (rows : list (list nat)) : bool :=
  forallb (fun row => forallb (fun p : nat * nat => bool_decide (p.2 ∈ all) && (vnet_of p.2 =? Z.of_nat p.1)) (imap pair row)) rows.
Definition switch_check sw : bool :=
  let p := m_perfect_switch_ptr sw in
  crossbar_check p && forallb throttle_check (m_throttles sw) && cells_check (m_in p ++ m_out p) &&
  forallb (fun i => forallb (fun m : nat * Z => existsb (fun e => has e m.1 m.2) (m_routing_table p)) (reach i)) (mjoin (m_in p)) &&
  forallb (fun pe : list nat * NetDest => forallb (fun i => forallb (fun m => bool_decide (m ∈ reach i)) (machines pe.2)) pe.1) (zip (m_out p) (m_routing_table p)) &&
  forallb (fun t => cells_check [t_in t; t_out t] &&
    forallb (fun io : nat * nat => forallb (fun m => bool_decide (m ∈ reach io.2)) (reach io.1)) (zip (t_in t) (t_out t))) (m_throttles sw).
Lemma cells_check_ok rows row v i : cells_check rows = true -> row ∈ rows -> ref row v = Some i -> i ∈ all /\ vnet_of i = v.
Proof.
  unfold cells_check. intros H Hrow Hi. use_checks. unfold ref in Hi. destruct (Z.ltb_spec v 0); [done|].
  assert ((Z.to_nat v, i) ∈ imap pair row) as Hin by (apply list_elem_of_lookup_2 with (Z.to_nat v); by rewrite list_lookup_imap, Hi).
  apply list_elem_of_In, (proj1 (forallb_forall _ _) Hrow), andb_true_iff in Hin as [Ha%bool_decide_eq_true Hv%Z.eqb_eq]. cbn [fst snd] in *. split; [done|lia].
Qed.
Lemma ref_zip {A B} (k : list A) (l : list B) v x y : ref k v = Some x -> ref l v = Some y -> (x, y) ∈ zip k l.
Proof.
  unfold ref. destruct (v <? 0); [done|]. intros Hx Hy. apply list_elem_of_lookup_2 with (Z.to_nat v). apply lookup_zip_with_Some. by exists x, y.
Qed.
Lemma switch_check_ok sw : switch_check sw = true -> switch_wf g_endpoint_bandwidth NUM base_count delay all vnet_of dests sw.
Proof.
  unfold switch_check. cbn zeta. intros H. split_checks. split.
  - by apply crossbar_check_ok.
  - intros t Ht. apply throttle_check_ok. eapply (proj1 (forallb_forall throttle_check _)); [done|by apply list_elem_of_In].
  - intros row v i Hrow Hi. by eapply cells_check_ok.
  - intros i l j Hi Hd%bool_decide_eq_true. 
    match goal with H : forallb _ (mjoin _) = true |- _ => apply list_elem_of_In, (proj1 (forallb_forall _ _) H) in Hi end.
    apply list_elem_of_In, (proj1 (forallb_forall _ _) Hi), existsb_exists in Hd as (e & He & Hh). exists e. split; [by apply list_elem_of_In|done].
  - intros x row e i l j Hrow Hi He Hh%has_machines. pose proof (ref_zip _ _ _ _ _ Hrow He) as Hz.
    match goal with H : forallb _ (zip _ _) = true |- _ => apply list_elem_of_In, (proj1 (forallb_forall _ _) H) in Hz end.
    apply list_elem_of_In, (proj1 (forallb_forall _ _) Hz) in Hi. apply list_elem_of_In, (proj1 (forallb_forall _ _) Hi) in Hh. exact Hh.
  - intros t v i o Ht Hi Ho.
    match goal with H : forallb (fun t => cells_check _ && _) _ = true |- _ => apply list_elem_of_In, (proj1 (forallb_forall _ _) H), andb_true_iff in Ht as [Hc Hz] end.
    destruct (cells_check_ok _ (t_in t) v i Hc) as [? ?]; [by left|done|]. destruct (cells_check_ok _ (t_out t) v o Hc) as [? ?]; [right; by left|done|].
    split; [done|]. split; [done|]. split; [done|]. split; [done|]. intros l j Hd%bool_decide_eq_true.
    pose proof (ref_zip _ _ _ _ _ Hi Ho) as Hio. apply list_elem_of_In, (proj1 (forallb_forall _ _) Hz) in Hio.
    apply list_elem_of_In, (proj1 (forallb_forall _ _) Hio) in Hd. exact Hd.
Qed.

Definition placed_check {Q R} sw (s : NetState Q R) : bool :=
  forallb (fun i => bool_decide (is_Some (buffers s !! i))) (mjoin (m_in (m_perfect_switch_ptr sw) ++ m_out (m_perfect_switch_ptr sw))) &&
  bool_decide (m_self (m_perfect_switch_ptr sw) ∈ dom (consumers (net_world s))) &&
  forallb (fun t => forallb (fun i => bool_decide (is_Some (buffers s !! i))) (t_in t ++ t_out t) && bool_decide (t_self t ∈ dom (consumers (net_world s))))
    (m_throttles sw).
Lemma placed_check_ok {Q R} sw (s : NetState Q R) : placed_check sw s = true -> switch_placed sw s.
Proof.
  unfold placed_check. intros H. split_checks. split; [split|].
  - intros i Hi. use_checks. by eapply bool_decide_eq_true.
  - by eapply bool_decide_eq_true.
  - intros t Ht. match goal with H : forallb _ (m_throttles sw) = true |- _ => apply list_elem_of_In, (proj1 (forallb_forall _ _) H), andb_true_iff in Ht as [Hb Hc] end.
    split; [|by eapply bool_decide_eq_true]. intros i Hi. apply list_elem_of_In, (proj1 (forallb_forall _ _) Hb) in Hi. by eapply bool_decide_eq_true.
Qed.
End check.

(** A buffer that was connected and not used. *)
Section unused.
Context {Q R : Type}.
Implicit Types (b : MessageBuffer (NetworkMessage Q)) (s : NetState Q R).
Record unused b : Prop := { un_heap : b_heap b = PrioHeap_new; un_counter : m_msg_counter b = 0; un_arrival : m_last_arrival_time b = 0; un_order : m_ordering_set (cfg b) = true }.
Definition unused_check b : bool :=
  let v := m_heap (b_heap b) in
  match m_vec v with [] => true | _ => false end && (m_size v =? 0) && (m_max_size v =? 0) && (m_current_size (b_heap b) =? 0) &&
  (m_msg_counter b =? 0) && (m_last_arrival_time b =? 0) && m_ordering_set (cfg b).
Lemma unused_check_ok b : unused_check b = true -> unused b.
Proof.
  unfold unused_check. cbn zeta. rewrite !andb_true_iff. intros ((((((H1 & H2%Z.eqb_eq) & H3%Z.eqb_eq) & H4%Z.eqb_eq) & H5%Z.eqb_eq) & H6%Z.eqb_eq) & H7).
  split; [|done..]. destruct (b_heap b) as [[l x y] z]. cbn in *. destruct l; [|done]. by subst.
Qed.
Definition consumer_check s b : bool := match m_consumer (cfg b) with Some c => bool_decide (c ∈ dom (consumers (net_world s))) | None => false end.
Lemma unused_ok RANDOMIZATION delay room s i b : unused b -> consumer_check s b = true -> 0 <= room < 2 ^ 30 -> 0 <= getTime (net_world s) ->
  (forall d, delay i = Some d -> 0 < d) -> buffer_ok RANDOMIZATION delay room (net_world s) i b.
Proof.
  intros [H1 H2 H3 H4] Hc Hr Ht Hd. split.
  - split; rewrite ?H1, ?H4; [exact PrioHeap_new_inv|by constructor..|done].
  - rewrite H1. constructor.
  - unfold consumer_check in Hc. destruct (m_consumer (cfg b)) as [c|]; [|done]. exists c. split; [done|by eapply bool_decide_eq_true].
  - rewrite H1, H2. cbn. lia.
  - intros d Hi. specialize (Hd d Hi). split; [done|]. intros _ _. lia.
Qed.
Lemma unused_contents s i : (forall i b, buffers s !! i = Some b -> unused b) -> contents s i = [].
Proof.
  intros H. unfold contents, bag. destruct (buffers s !! i) as [b|] eqn:Hb; [|done]. by rewrite (un_heap b (H i b Hb)).
Qed.
Lemma unused_inv RANDOMIZATION delay room s r : net_world s = mkWorld EventQueue_init (consumers (net_world s)) r ->
  map_Forall (fun _ x => m_last_scheduled_wakeup x <= 1) (consumers (net_world s)) -> 0 <= room < 2 ^ 30 -> (forall i d, delay i = Some d -> 0 < d) ->
  (forall i b, buffers s !! i = Some b -> unused b /\ consumer_check s b = true) -> net_inv RANDOMIZATION delay room s.
Proof.
  intros Hw Hc Hr Hd Hb. assert (getTime (net_world s) = 1) as Ht by (rewrite Hw; reflexivity). split; [lia| | |].
  - rewrite Hw. apply World_init_inv. intros c x Hx. exact (Hc c x Hx).
  - rewrite Hw. cbn. lia.
  - intros i b Hi. destruct (Hb i b Hi). apply unused_ok; [done|done|done|lia|apply Hd].
Qed.
End unused.

(** C33: The network delivers every message exactly once to each machine it is for, and to no
    other, whatever the order in which its switches and throttles run. On a network whose
    switches have correct tables and wiring, no move ever fails: at every moment, on each virtual
    network and for each machine, what was sent is what was received and what the buffers still
    hold; and a message is only received from a queue through which all of its machines can be
    reached. *)
Theorem network_delivers {Q R : Type} RANDOMIZATION random adaptive sort bandwidth DATA_MESSAGE_SIZE over_threshold NUM base_count delay all vnet_of dests
    room (net : SimpleNetwork) (s : NetState Q R) (moves : list Move) :
  (forall k, 0 <= random k) -> (forall o, sort o ≡ₚ o) -> 0 <= DATA_MESSAGE_SIZE < 2 ^ 20 -> NoDup all ->
  quiet RANDOMIZATION bandwidth NUM base_count delay all vnet_of dests room net s ->
  Forall (move_ok NUM base_count delay dests net) moves ->
  affordable RANDOMIZATION random adaptive sort bandwidth DATA_MESSAGE_SIZE over_threshold all room moves (mkRunning net s [] []) = true ->
  exists r, net_run RANDOMIZATION random adaptive sort bandwidth DATA_MESSAGE_SIZE over_threshold moves (mkRunning net s [] []) = Some r /\
    rn_sent r = reverse (sends moves) /\
    (forall v l j, on_vnet vnet_of v l j (rn_sent r) ≡ₚ on_vnet vnet_of v l j (rn_received r) ++ copies (rn_state r) (group all vnet_of v) l j) /\
    forall i q, (i, q) ∈ rn_received r -> forall l j, has (remaining q) l j = true -> dests i l j = true.
Proof.
  intros Hrnd Hsort Hdata Hall Hq Hok Haff.
  destruct (run_ok RANDOMIZATION random Hrnd adaptive sort Hsort bandwidth DATA_MESSAGE_SIZE over_threshold Hdata NUM base_count delay all vnet_of dests Hall
    moves room (mkRunning net s [] [])) as (r & room' & Hrun & Hr & Hs); [by apply quiet_ok|done|done|].
  exists r. split; [exact Hrun|]. split; [by rewrite Hs, app_nil_r|]. split; [apply Hr|]. intros i q Hin. by destruct (ro_received _ _ _ _ _ _ _ _ _ _ Hr i q Hin) as (_ & _ & ?).
Qed.

(** ** A network that was built, and runs *)
(** The endpoints' side of the queues: each is ordered, and a consumer waits at the queues out of
    the network. *)
Fixpoint connect_queues {Q R} (l : list (nat * nat)) (consumer : nat) (s : NetState Q R) : option (NetState Q R) :=
  match l with
  | [] => Some s
  | (i, o) :: l =>
      s ← net_setOrdering true i s; s ← net_setOrdering true o s; s ← net_setConsumer consumer o s; connect_queues l consumer s
  end.
Definition built : option (SimpleNetwork * NetState Z unit) :=
  t ← small_topology;
  '(calls, t) ← createLinks small_types gpu_level 3 small_count small_number t;
  let '(c, s) := new_consumer (mkNet ∅ (mkWorld EventQueue_init ∅ ()) 0) in
  '(net, s) ← SimpleNetwork_new false 0 4 2 t calls s;
  s ← connect_queues (zip (mjoin (m_toNetQueues net)) (mjoin (m_fromNetQueues net))) c s;
  Some (net, s).
Definition built_net : SimpleNetwork := from_option fst (mkSimpleNetwork 0 0 [] [] [] [] [] []) built.
Definition built_state : NetState Z unit := from_option snd (mkNet ∅ (mkWorld EventQueue_init ∅ ()) 0) built.
Definition built_buffers : list nat := seq 0 44.
Definition built_vnet (i : nat) : Z := if bool_decide (i < 16)%nat then (Z.of_nat i `div` 2) `mod` 2 else (Z.of_nat i) `mod` 2.
Definition built_delay (i : nat) : option Z := Some 1.
Definition everyone : list (nat * Z) := [(0%nat, 0); (0%nat, 1); (1%nat, 0); (2%nat, 0)].
(** What is behind a queue: the entry of the link it belongs to. *)
Definition entries_of (sw : Switch) : list (list nat * NetDest) :=
  let p := m_perfect_switch_ptr sw in zip (m_out p) (m_routing_table p) ++ zip (t_out <$> m_throttles sw) (m_routing_table p).
Definition built_reach (i : nat) : list (nat * Z) :=
  match list_find (fun pe : list nat * NetDest => i ∈ pe.1) (mjoin (entries_of <$> m_switch_ptr_vector built_net)) with
  | Some (_, (_, e)) => machines e
  | None => everyone
  end.
(** The second L1 sends one message to the first L1 and the directory on network 1. *)
Definition small_dest : NetDest := from_option id [] (add_all gpu_level (NetDest_new 3 small_count) [mkMachine L1Cache 0; mkMachine Directory 0]).
Definition small_message : Message (NetworkMessage Z) := mkMessage (mkNetMsg 7 small_dest MessageSizeType_Control None) 0 0.
Definition wake_all : list (Move (Q := Z)) :=
  mjoin (imap (fun k sw => WakeSwitch (Z.of_nat k) :: imap (fun j _ => WakeThrottle (Z.of_nat k) (Z.of_nat j)) (m_throttles sw)) (m_switch_ptr_vector built_net)).
Definition built_moves : list (Move (Q := Z)) :=
  Send 6 1 small_message :: mjoin (replicate 8 (Advance :: wake_all)) ++ [Receive 3; Receive 15; Receive 7].

Lemma built_unused i b : buffers built_state !! i = Some b -> unused b /\ consumer_check built_state b = true.
Proof.
  intros Hi. assert (map_Forall (fun _ b => unused_check b && consumer_check built_state b = true) (buffers built_state)) as Hall
    by (apply (bool_decide_unpack _); by vm_compute).
  specialize (Hall i b Hi). apply andb_true_iff in Hall as [H1%unused_check_ok H2]. exact (conj H1 H2).
Qed.
Lemma built_quiet : quiet false 10000 3 small_count built_delay built_buffers built_vnet (dests built_reach) 10000 built_net built_state.
Proof.
  split.
  - assert (forallb (fun sw => switch_check 3 small_count built_delay 10000 built_buffers built_vnet built_reach sw && placed_check sw built_state)
      (m_switch_ptr_vector built_net) = true) as Hc by by vm_compute.
    intros sw Hsw. apply list_elem_of_In, (proj1 (forallb_forall _ _) Hc), andb_true_iff in Hsw as [H1%switch_check_ok H2%placed_check_ok]. exact (conj H1 H2).
  - apply (unused_inv false built_delay 10000 built_state ()); [by vm_compute| |lia|by intros i d [= <-]|exact built_unused].
    apply (bool_decide_unpack _). by vm_compute.
  - assert (Forall (fun i => i ∈ built_buffers /\ is_Some (buffers built_state !! i)) (mjoin (m_toNetQueues built_net) ++ mjoin (m_fromNetQueues built_net))) as H
      by (apply (bool_decide_unpack _); by vm_compute). exact (proj1 (Forall_forall _ _) H).
  - intros i. apply unused_contents. intros j b Hb. exact (proj1 (built_unused j b Hb)).
Qed.
Lemma small_good : good 3 small_count (dests built_reach) 6 (payload small_message).
Proof.
  split; [apply dest_check_ok; by vm_compute|]. split; [done|]. intros l j Hh%has_machines. apply bool_decide_eq_true.
  assert (Forall (fun m => m ∈ built_reach 6) (machines (remaining (payload small_message)))) as H by (apply (bool_decide_unpack _); by vm_compute).
  exact (proj1 (Forall_forall _ _) H _ Hh).
Qed.
(** Both machines get the message, each once and over its own queue; nobody else gets it. *)
Lemma network_delivers_witness :
  exists r, net_run false (fun _ => 0) false (fun o => o) 10000 128 (fun _ _ => false) built_moves (mkRunning built_net built_state [] []) = Some r /\
    fst <$> rn_received r = [15%nat; 3%nat] /\ on_vnet built_vnet 1 0 0 (rn_received r) ≡ₚ [7] /\ on_vnet built_vnet 1 2 0 (rn_received r) ≡ₚ [7] /\
    on_vnet built_vnet 1 0 1 (rn_received r) ≡ₚ [].
Proof.
  destruct (network_delivers false (fun _ => 0) false (fun o => o) 10000 128 (fun _ _ => false) 3 small_count built_delay built_buffers built_vnet (dests built_reach)
    10000 built_net built_state built_moves) as (r & Hrun & Hsent & Hacc & _).
  - done.
  - done.
  - lia.
  - apply NoDup_seq.
  - exact built_quiet.
  - assert (Forall (fun mv => match mv with Send i d m => i = 6%nat /\ d = 1 /\ m = small_message | Receive i => i ∈ mjoin (m_fromNetQueues built_net) | _ => True end) built_moves) as Hm.
    { vm_compute. repeat (constructor; [first [done | set_solver]|]). constructor. }
    eapply Forall_impl; [exact Hm|]. intros [k|k link|i d m|i|]; cbn [move_ok]; [exact (fun _ => I)|exact (fun _ => I)| |exact (fun H => H)|exact (fun _ => I)].
    intros (-> & -> & ->). split; [apply (bool_decide_unpack _); by vm_compute|]. split; [reflexivity|exact small_good].
  - vm_compute. reflexivity.
  - exists r. split; [exact Hrun|].
    assert ((fun r : Running => (fst <$> rn_received r, copies (rn_state r) (group built_buffers built_vnet 1) 0 0,
      copies (rn_state r) (group built_buffers built_vnet 1) 2 0, on_vnet built_vnet 1 0 0 (rn_sent r), on_vnet built_vnet 1 2 0 (rn_sent r), on_vnet built_vnet 1 0 1 (rn_sent r))) <$>
      net_run false (fun _ => 0) false (fun o => o) 10000 128 (fun _ _ => false) built_moves (mkRunning built_net built_state [] []) =
      Some ([15%nat; 3%nat], [], [], [7], [7], [])) as Hc by (vm_compute; reflexivity).
    rewrite Hrun in Hc. apply (inj Some) in Hc. rewrite !pair_equal_spec in Hc. destruct Hc as (((((H1 & H2) & H3) & H4) & H5) & H6).
    split; [exact H1|]. pose proof (Hacc 1 0%nat 0) as A. pose proof (Hacc 1 2%nat 0) as B. pose proof (Hacc 1 0%nat 1) as C.
    rewrite H2, H4, app_nil_r in A. rewrite H3, H5, app_nil_r in B. rewrite H6 in C.
    split; [symmetry; exact A|]. split; [symmetry; exact B|]. apply Permutation_nil, app_eq_nil in C as [-> _]. reflexivity.
Defined.
