(* ===== verification/Coalescer.v ===== *)
(** The memory accesses of a warp: [warp_inst_t::generate_mem_accesses] and the coalescing rules
    it follows ([abstract_hardware_model.cc] and [abstract_hardware_model.h]). *)
From S2P Require Import Prelude SimtStack Scoreboard GpuCache.

(** ** Maps in the order of their keys, and bitsets *)
Definition by_key {V} : relation (Z * V) := fun p q => p.1 <= q.1.
#[global] Instance by_key_dec {V} (p q : Z * V) : Decision (by_key p q).
Proof. unfold by_key. apply _. Defined.
(** The order in which a [std::map] is iterated. *)
Definition in_order {V} (m : gmap Z V) : list (Z * V) := merge_sort by_key (map_to_list m).
(** The loops over a list that may fail. *)
Fixpoint each {A B} (f : A -> B -> option B) (l : list A) (b : B) : option B :=
  match l with [] => Some b | x :: l => b ← f x b; each f l b end.

(** [std::bitset<N>::set] and [test] throw beyond the last bit. *)
Definition MAX_MEMORY_ACCESS_SIZE : Z := 128.
Definition set_bit (n i : Z) (s : gset Z) : option (gset Z) := assert! (0 <=? i) && (i <? n); Some ({[i]} ∪ s).
Definition set_thread (t : nat) (s : gset nat) : option (gset nat) := assert! Nat.ltb t MAX_WARP_SIZE; Some ({[t]} ∪ s).
Fixpoint test_bits (n : Z) (l : list Z) (s : gset Z) : option bool :=
  match l with
  | [] => Some false
  | i :: l => assert! (0 <=? i) && (i <? n); if bool_decide (i ∈ s) then Some true else test_bits n l s
  end.

(** ** Configuration and instructions *)
Record core_config := mkCore {
  warp_size : nat; mem_warp_parts : nat; shmem_limited_broadcast : bool; num_shmem_bank : Z; gpgpu_coalesce_arch : Z;
  gpgpu_cache_texl1_linesize : Z; gpgpu_cache_constl1_linesize : Z }.
Definition WORD_SIZE : Z := 4.
Definition shmem_bank_func (cfg : core_config) (addr : Z) : option Z :=
  assert! negb (num_shmem_bank cfg =? 0); Some ((u32 addr / WORD_SIZE) `mod` num_shmem_bank cfg).
Definition line_size_based_tag_func (address line_size : Z) : Z := u32 (Z.land address (not64 (u64 (line_size - 1)))).

Record mem_access_t := mkAccess {
  a_type : mem_access_type; a_addr : Z; a_size : Z; a_write : bool; a_mask : gset nat; a_bytes : gset Z }.
Record transaction_info := mkTrans { chunks : gset Z; bytes : gset Z; threads : gset nat }.
Definition transaction_new : transaction_info := mkTrans ∅ ∅ ∅.
Definition MAX_ACCESSES_PER_INSN_PER_THREAD : Z := 8.

(** What the accesses of a warp depend on, and the queue they are put in; [memreqaddr] is the
    vector of addresses of each thread, empty until it is valid. *)
Record warp_inst_t := mkWarp {
  w_empty : bool; w_op : op_type; w_memory_op : memory_op_t; w_space : memory_space; w_isatomic : bool; data_size : Z;
  w_active : gset nat; memreqaddr : list (list Z); m_per_scalar_thread_valid : bool; m_mem_accesses_created : bool;
  m_accessq : list mem_access_t; cycles : Z }.
Definition warp_is_load (w : warp_inst_t) : bool := bool_decide (w_op w = LOAD_OP \/ w_memory_op w = memory_load).
Definition warp_is_store (w : warp_inst_t) : bool := bool_decide (w_op w = STORE_OP \/ w_memory_op w = memory_store).
Definition with_accesses (q : list mem_access_t) (w : warp_inst_t) : warp_inst_t :=
  mkWarp (w_empty w) (w_op w) (w_memory_op w) (w_space w) (w_isatomic w) (data_size w) (w_active w) (memreqaddr w) (m_per_scalar_thread_valid w)
    (m_mem_accesses_created w) q (cycles w).
Definition with_cycles (n : Z) (w : warp_inst_t) : warp_inst_t :=
  mkWarp (w_empty w) (w_op w) (w_memory_op w) (w_space w) (w_isatomic w) (data_size w) (w_active w) (memreqaddr w) (m_per_scalar_thread_valid w)
    (m_mem_accesses_created w) (m_accessq w) n.
Definition with_created (w : warp_inst_t) : warp_inst_t :=
  mkWarp (w_empty w) (w_op w) (w_memory_op w) (w_space w) (w_isatomic w) (data_size w) (w_active w) (memreqaddr w) (m_per_scalar_thread_valid w)
    true (m_accessq w) (cycles w).
Definition active (w : warp_inst_t) (thread : nat) : option bool := assert! Nat.ltb thread MAX_WARP_SIZE; Some (bool_decide (thread ∈ w_active w)).
Definition address_of (w : warp_inst_t) (thread : nat) (access : Z) : option Z := row ← memreqaddr w !! thread; row !! Z.to_nat access.

Section coalesce.
Variable cfg : core_config.
Implicit Types (w : warp_inst_t) (info : transaction_info) (addr : Z) (thread : nat).

(** *** Transactions *)
(** A thread joins a transaction with [size] bytes at [addr]. *)
Definition join_transaction thread addr size info : option transaction_info :=
  let chunk := Z.land addr 127 / 32 in
  chunks ← set_bit 4 chunk (chunks info);
  threads ← set_thread thread (threads info);
  bytes ← each (fun i => set_bit MAX_MEMORY_ACCESS_SIZE (Z.land addr 127 + i)) (seqZ 0 size) (bytes info);
  Some (mkTrans chunks bytes threads).
Definition segment_size w : Z :=
  if data_size w =? 1 then 32 else if data_size w =? 2 then 64
  else if (data_size w =? 4) || (data_size w =? 8) || (data_size w =? 16) then 128 else 0.

(** The smallest of 32, 64 and 128 bytes that holds the chunks that are used. *)
Definition memory_coalescing_arch_13_reduce_and_send (is_write : bool) (access_type : mem_access_type) (segment : Z) (p : Z * transaction_info) w :
    option warp_inst_t :=
  let '(addr, info) := p in
  assert! Z.land addr (u32 (segment - 1)) =? 0;
  let q i := bool_decide (i ∈ chunks info) in
  assert! q 0 || q 1 || q 2 || q 3;
  '(addr, size, lower, upper) ← (
    if segment =? 128 then
      let lower_half_used := q 0 || q 1 in
      let upper_half_used := q 2 || q 3 in
      if lower_half_used && negb upper_half_used then Some (addr, 64, q 0, q 1)
      else if negb lower_half_used && upper_half_used then Some (addr + 64, 64, q 2, q 3)
      else assert! lower_half_used && upper_half_used; Some (addr, 128, false, false)
    else if segment =? 64 then
      if addr `mod` 128 =? 0 then Some (addr, 64, q 0, q 1) else assert! addr `mod` 128 =? 64; Some (addr, 64, q 2, q 3)
    else Some (addr, segment, false, false));
  '(addr, size) ← (
    if size =? 64 then
      if lower && negb upper then Some (addr, 32)
      else if negb lower && upper then Some (addr + 32, 32)
      else assert! lower && upper; Some (addr, 64)
    else Some (addr, size));
  Some (with_accesses (m_accessq w ++ [mkAccess access_type (u32 addr) size is_write (threads info) (bytes info)]) w).

(** *** Coalescing *)
Definition subwarp_threads (warp_parts subwarp : nat) : list nat :=
  let subwarp_size := (warp_size cfg / warp_parts)%nat in seq (subwarp * subwarp_size) subwarp_size.
(** The accesses of a thread: those to local memory were split into pieces of four bytes. *)
Definition access_pieces w : Z * Z :=
  if bool_decide (w_space w = local_space \/ w_space w = param_space_local) && (4 <=? data_size w) then (4, data_size w / 4) else (data_size w, 1).
Definition coalesce_access w thread (size : Z) (access : Z) (transactions : gmap Z transaction_info) : option (gmap Z transaction_info) :=
  addr ← address_of w thread access;
  let block_address := line_size_based_tag_func addr (segment_size w) in
  assert! block_address =? line_size_based_tag_func (u64 (addr + size - 1)) (segment_size w);
  info ← join_transaction thread addr size (from_option id transaction_new (transactions !! block_address));
  Some (<[block_address := info]> transactions).
Definition coalesce_thread w thread (transactions : gmap Z transaction_info) : option (gmap Z transaction_info) :=
  a ← active w thread;
  if negb a then Some transactions else
  let '(size, num_accesses) := access_pieces w in
  assert! num_accesses <=? MAX_ACCESSES_PER_INSN_PER_THREAD;
  each (coalesce_access w thread size) (seqZ 0 num_accesses) transactions.
Definition coalesce_subwarp (is_write : bool) (access_type : mem_access_type) (subwarp : nat) w : option warp_inst_t :=
  transactions ← each (coalesce_thread w) (subwarp_threads (mem_warp_parts cfg) subwarp) ∅;
  each (memory_coalescing_arch_13_reduce_and_send is_write access_type (segment_size w)) (in_order transactions) w.
Definition memory_coalescing_arch_13 (is_write : bool) (access_type : mem_access_type) w : option warp_inst_t :=
  assert! Nat.ltb 0 (mem_warp_parts cfg);
  each (coalesce_subwarp is_write access_type) (seq 0 (mem_warp_parts cfg)) w.

(** *** Atomics: threads that touch the same bytes are in different transactions *)
Fixpoint place_atomic thread addr (size : Z) (l : list transaction_info) : option (list transaction_info) :=
  let idx := Z.land addr 127 in
  let join info :=
    info' ← join_transaction thread addr size info;
    assert! forallb (fun i => bool_decide ((idx + i) ∉ bytes info)) (seqZ 0 size);
    Some info' in
  match l with
  | [] => info ← join transaction_new; Some [info]
  | info :: l =>
      conflict ← test_bits MAX_MEMORY_ACCESS_SIZE (seqZ idx (u32 (idx + size - 1) - idx + 1)) (bytes info);
      if (conflict : bool) then l ← place_atomic thread addr size l; Some (info :: l)
      else info ← join info; Some (info :: l)
  end.
Definition coalesce_atomic w thread (transactions : gmap Z (list transaction_info)) : option (gmap Z (list transaction_info)) :=
  a ← active w thread;
  if negb a then Some transactions else
  addr ← address_of w thread 0;
  let block_address := line_size_based_tag_func addr (segment_size w) in
  assert! block_address =? line_size_based_tag_func (u64 (addr + data_size w - 1)) (segment_size w);
  l ← place_atomic thread addr (data_size w) (from_option id [] (transactions !! block_address));
  Some (<[block_address := l]> transactions).
Definition atomic_subwarp (is_write : bool) (access_type : mem_access_type) (subwarp : nat) w : option warp_inst_t :=
  transactions ← each (coalesce_atomic w) (subwarp_threads 2 subwarp) ∅;
  each (fun p : Z * list transaction_info =>
          each (fun info => memory_coalescing_arch_13_reduce_and_send is_write access_type (segment_size w) (p.1, info)) p.2)
    (in_order transactions) w.
Definition memory_coalescing_arch_13_atomic (is_write : bool) (access_type : mem_access_type) w : option warp_inst_t :=
  assert! bool_decide (w_space w = global_space);
  each (atomic_subwarp is_write access_type) (seq 0 2) w.

(** *** Shared memory: conflicts between its banks *)
Abbreviation banks := (gmap Z (gmap Z Z)).
Definition count_bank w thread (bank_accs : banks) : option banks :=
  a ← active w thread;
  if negb a then Some bank_accs else
  addr ← address_of w thread 0;
  bank ← shmem_bank_func cfg addr;
  let word := line_size_based_tag_func addr WORD_SIZE in
  let words := from_option id ∅ (bank_accs !! bank) in
  Some (<[bank := <[word := from_option id 0 (words !! word) + 1]> words]> bank_accs).
(** The first word, of the first bank, that more than one thread reads. *)
Fixpoint find_word (words : list (Z * Z)) : option Z :=
  match words with [] => None | (word, n) :: words => if 1 <? n then Some word else find_word words end.
Fixpoint find_broadcast (l : list (Z * gmap Z Z)) : option (Z * Z) :=
  match l with
  | [] => None
  | (bank, words) :: l => match find_word (in_order words) with Some word => Some (bank, word) | None => find_broadcast l end
  end.
Definition bank_accesses (broadcast : option (Z * Z)) (bank : Z) (words : gmap Z Z) : option Z :=
  let bank_accesses := foldr Z.add 0 (snd <$> in_order words) in
  match broadcast with
  | Some (broadcast_bank, broadcast_word) =>
      if broadcast_bank =? bank then
        match words !! broadcast_word with
        | Some n => assert! 1 <? n; assert! n - 1 <=? bank_accesses; Some (bank_accesses - (n - 1))
        | None => Some bank_accesses
        end
      else Some bank_accesses
  | None => Some bank_accesses
  end.
Definition max_bank_accesses (bank_accs : banks) : option Z :=
  if shmem_limited_broadcast cfg then
    let broadcast := find_broadcast (in_order bank_accs) in
    each (fun p : Z * gmap Z Z => fun m => n ← bank_accesses broadcast p.1 p.2; Some (Z.max m n)) (in_order bank_accs) 0
  else Some (foldr Z.max 0 ((fun p : Z * gmap Z Z => Z.of_nat (size p.2)) <$> in_order bank_accs)).
Definition shared_subwarp w (subwarp : nat) (total_accesses : Z) : option Z :=
  bank_accs ← each (count_bank w) (subwarp_threads (mem_warp_parts cfg) subwarp) ∅;
  n ← max_bank_accesses bank_accs;
  Some (total_accesses + n).
Definition shared_accesses w : option warp_inst_t :=
  assert! Nat.ltb 0 (mem_warp_parts cfg);
  total_accesses ← each (shared_subwarp w) (seq 0 (mem_warp_parts cfg)) 0;
  assert! (0 <? total_accesses) && (total_accesses <=? Z.of_nat (warp_size cfg));
  Some (with_cycles total_accesses w).

(** *** Texture and constant caches: one access for each line *)
Definition line_access w (cache_block_size : Z) thread (st : gmap Z (gset nat) * gset Z) : option (gmap Z (gset nat) * gset Z) :=
  let '(accesses, byte_mask) := st in
  a ← active w thread;
  if negb a then Some st else
  addr ← address_of w thread 0;
  let block_address := line_size_based_tag_func addr cache_block_size in
  mask ← set_thread thread (from_option id ∅ (accesses !! block_address));
  let idx := u32 (u64 (addr - block_address)) in
  byte_mask ← each (fun i => set_bit MAX_MEMORY_ACCESS_SIZE (u32 (idx + i))) (seqZ 0 (data_size w)) byte_mask;
  Some (<[block_address := mask]> accesses, byte_mask).
Definition line_accesses (is_write : bool) (access_type : mem_access_type) (cache_block_size : Z) w : option warp_inst_t :=
  if cache_block_size =? 0 then Some w else
  assert! bool_decide (m_accessq w = []);
  '(accesses, byte_mask) ← each (line_access w cache_block_size) (seq 0 (warp_size cfg)) (∅, ∅);
  Some (with_accesses ((fun p : Z * gset nat => mkAccess access_type p.1 cache_block_size is_write p.2 byte_mask) <$> in_order accesses) w).

Definition generate_mem_accesses w : option warp_inst_t :=
  if w_empty w || bool_decide (w_op w = MEMORY_BARRIER_OP) || m_mem_accesses_created w then Some w else
  if negb (bool_decide (w_op w = LOAD_OP \/ w_op w = STORE_OP)) then Some w else
  if bool_decide (w_active w = ∅) then Some w else
  assert! warp_is_load w || warp_is_store w;
  assert! m_per_scalar_thread_valid w;
  let is_write := warp_is_store w in
  w ← match w_space w with
      | shared_space => shared_accesses w
      | tex_space => line_accesses is_write TEXTURE_ACC_R (gpgpu_cache_texl1_linesize cfg) w
      | const_space | param_space_kernel => line_accesses is_write CONST_ACC_R (gpgpu_cache_constl1_linesize cfg) w
      | global_space | local_space | param_space_local =>
          let access_type :=
            if bool_decide (w_space w = global_space) then (if is_write then GLOBAL_ACC_W else GLOBAL_ACC_R)
            else if is_write then LOCAL_ACC_W else LOCAL_ACC_R in
          assert! gpgpu_coalesce_arch cfg =? 13;
          if w_isatomic w then memory_coalescing_arch_13_atomic is_write access_type w
          else memory_coalescing_arch_13 is_write access_type w
      | _ => None
      end;
  Some (with_created w).
End coalesce.
