(* ===== verification/CoalescerSafe.v ===== *)
(** The coalescing rules serve every byte a warp asks for, and nothing else, with as few and as
    small accesses as the rules allow. *)
From S2P Require Import Prelude SimtStack Scoreboard GpuCache Coalescer.

(** ** Loops and maps *)
Lemma each_app {A B} (f : A -> B -> option B) l k b : each f (l ++ k) b = each f l b ≫= each f k.
Proof. revert b. induction l as [|x l IH]; intros b; [done|]. cbn. destruct (f x b) as [b'|]; [|done]. cbn. apply IH. Qed.
(** A loop that adds an element at a time keeps what holds of the elements so far. *)
Lemma each_grows {A B} (f : A -> B -> option B) (P : list A -> B -> Prop) l : forall done b, P done b ->
  (forall x done b, x ∈ l -> P done b -> exists b', f x b = Some b' /\ P (done ++ [x]) b') ->
  exists b', each f l b = Some b' /\ P (done ++ l) b'.
Proof.
  induction l as [|x l IH]; intros d b Hb Hstep; cbn [each]; [exists b; by rewrite app_nil_r|].
  destruct (Hstep x d b) as (b1 & Hf & H1); [by left|done|]. rewrite Hf. cbn.
  destruct (IH (d ++ [x]) b1 H1) as (b2 & He & H2); [intros; apply Hstep; [by right|done]|]. exists b2. split; [done|]. by rewrite <-app_assoc in H2.
Qed.
Lemma elem_of_in_order {V} (m : gmap Z V) k v : (k, v) ∈ in_order m <-> m !! k = Some v.
Proof. unfold in_order. rewrite merge_sort_Permutation. apply elem_of_map_to_list. Qed.
Lemma in_order_keys {V} (m : gmap Z V) : NoDup (in_order m).*1.
Proof. unfold in_order. rewrite merge_sort_Permutation. apply NoDup_fst_map_to_list. Qed.

(** ** Addresses *)
(** The sizes of segments and accesses. *)
Definition small_power (n : Z) : Prop := n = 1 \/ n = 2 \/ n = 4 \/ n = 8 \/ n = 16 \/ n = 32 \/ n = 64 \/ n = 128.
Lemma tag_segment a n : small_power n -> 0 <= a < 2 ^ 32 -> line_size_based_tag_func a n = a - a `mod` n.
Proof.
  intros Hn Ha. unfold line_size_based_tag_func.
  assert (exists k, 0 <= k < 64 /\ n = 2 ^ k) as (k & Hk & ->).
  { destruct Hn as [->|[->|[->|[->|[->|[->|[->| ->]]]]]]]; [exists 0|exists 1|exists 2|exists 3|exists 4|exists 5|exists 6|exists 7]; done. }
  assert (not64 (u64 (2 ^ k - 1)) = u64 (Z.shiftl ones64 k)) as ->.
  { apply Z.bits_inj'. intros i Hi. unfold not64. rewrite Z.lxor_spec, !testbit_u64, testbit_ones64 by lia.
    rewrite Z.shiftl_spec by lia. replace (2 ^ k - 1) with (Z.ones k) by (rewrite Z.ones_equiv; lia).
    destruct (decide (i < 64)); [rewrite !bool_decide_eq_true_2 by lia|rewrite !bool_decide_eq_false_2 by lia; done].
    cbn [andb]. destruct (decide (i < k)).
    - rewrite Z.ones_spec_low, (Z.testbit_neg_r _ (i - k)) by lia. done.
    - rewrite Z.ones_spec_high, testbit_ones64 by lia. rewrite bool_decide_eq_true_2 by lia. done. }
  rewrite land_high_mask by lia. pose proof (Z.pow_pos_nonneg 2 k). rewrite u32_small.
  - pose proof (Z.div_mod a (2 ^ k)). lia.
  - pose proof (Z.div_mod a (2 ^ k)). pose proof (Z.mod_pos_bound a (2 ^ k)). pose proof (Z.div_pos a (2 ^ k)). nia.
Qed.
Lemma land_127 a : Z.land a 127 = a `mod` 128.
Proof. change 127 with (Z.ones 7). by rewrite Z.land_ones by lia. Qed.
Lemma mod_of_multiple a n m : 0 < n -> (n | m) -> 0 < m -> (a `mod` m) `mod` n = a `mod` n.
Proof. intros Hn [k ->] Hm. rewrite (Z.mul_comm k n), Z.rem_mul_r by nia. rewrite Z.mul_comm, Z.mod_add by lia. apply Z.mod_mod. lia. Qed.
(** An aligned piece lies in one block of any larger size. *)
Lemma aligned_inside a n m : 0 < n -> (n | m) -> 0 < m -> a `mod` n = 0 -> a `mod` m + n <= m.
Proof.
  intros Hn Hd Hm Ha. pose proof (mod_of_multiple a n m Hn Hd Hm) as He. rewrite Ha in He.
  pose proof (Z.mod_pos_bound a m Hm). apply Z.mod_divide in He as [k Hk]; [|lia]. destruct Hd as [j ->]. assert (k < j) by nia. nia.
Qed.

(** ** Transactions *)
Abbreviation piece := (nat * Z)%type.
Section transactions.
Variable size : Z.
Hypothesis size_ok : size = 1 \/ size = 2 \/ size = 4 \/ size = 8 \/ size = 16.
Implicit Types (info : transaction_info) (P : list piece) (p : piece) (m : gmap Z transaction_info) (l : list transaction_info).

(** The bytes of a piece, by their place in their 128 bytes. *)
Definition byte_of p (b : Z) : Prop := p.2 `mod` 128 <= b < p.2 `mod` 128 + size.
Definition piece_ok p : Prop := (p.1 < MAX_WARP_SIZE)%nat /\ 0 <= p.2 /\ p.2 + size <= 2 ^ 32 /\ p.2 `mod` size = 0.
(** A transaction of the pieces [P]. *)
Record holds info P : Prop := {
  hd_chunk c : c ∈ chunks info <-> exists p, p ∈ P /\ c = p.2 `mod` 128 / 32;
  hd_thread t : t ∈ threads info <-> exists p, p ∈ P /\ t = p.1;
  hd_byte b : b ∈ bytes info <-> exists p, p ∈ P /\ byte_of p b }.
Lemma size_divides n : n = 32 \/ n = 64 \/ n = 128 -> (size | n).
Proof using size_ok. intros Hn. destruct size_ok as [->|[->|[->|[->| ->]]]], Hn as [->|[->| ->]]; apply Z.mod_divide; done. Qed.
Lemma piece_inside p n : piece_ok p -> n = 32 \/ n = 64 \/ n = 128 -> p.2 `mod` n + size <= n.
Proof using size_ok. intros (_ & _ & _ & Ha) Hn. apply aligned_inside; [lia|by apply size_divides|lia|done]. Qed.
Lemma set_bit_in n i s : 0 <= i < n -> set_bit n i s = Some ({[i]} ∪ s).
Proof. intros Hi. unfold set_bit. by rewrite (proj2 (Z.leb_le 0 _)), (proj2 (Z.ltb_lt _ _)) by lia. Qed.
Lemma set_bytes_ok k (l : list Z) : forall s, (forall i, i ∈ l -> 0 <= k + i < MAX_MEMORY_ACCESS_SIZE) ->
  exists s', each (fun i => set_bit MAX_MEMORY_ACCESS_SIZE (k + i)) l s = Some s' /\ forall b, b ∈ s' <-> b ∈ s \/ exists i, i ∈ l /\ b = k + i.
Proof.
  induction l as [|i l IH]; intros s Hl; cbn [each]; [exists s; split; [done|]; set_solver|].
  rewrite (set_bit_in _ _ _ (Hl i ltac:(by left))). cbn [mbind option_bind].
  destruct (IH ({[k + i]} ∪ s)) as (s' & -> & Hs'); [intros; apply Hl; by right|]. exists s'. split; [done|]. intros b. rewrite Hs', elem_of_union, elem_of_singleton.
  split; [intros [[->|?]|(j & ? & ->)]; [right; exists i; split; [by left|done]|by left|right; exists j; split; [by right|done]]|].
  intros [?|(j & [->|?]%elem_of_cons & ->)]; [by left; right|by left; left|right; by exists j].
Qed.
Lemma join_ok p info P : piece_ok p -> holds info P ->
  exists info', join_transaction p.1 p.2 size info = Some info' /\ holds info' (p :: P).
Proof using size_ok.
  intros Hp [H1 H2 H3]. pose proof (piece_inside p 128 Hp ltac:(auto)) as Hin. destruct Hp as (Ht & Ha & Hb & Hal).
  unfold join_transaction, set_thread. rewrite land_127. pose proof (Z.mod_pos_bound p.2 128).
  assert (0 <= p.2 `mod` 128 / 32 < 4) as Hc by (split; [apply Z.div_pos; lia|apply Z.div_lt_upper_bound; lia]).
  rewrite (set_bit_in 4) by done. rewrite (proj2 (Nat.ltb_lt _ _) Ht). cbn [mbind option_bind].
  destruct (set_bytes_ok (p.2 `mod` 128) (seqZ 0 size) (bytes info)) as (bs & -> & Hbs).
  { intros i Hi%elem_of_seqZ. unfold MAX_MEMORY_ACCESS_SIZE. lia. }
  cbn [mbind option_bind]. eexists. split; [done|]. split; cbn [chunks threads bytes].
  - intros c. rewrite elem_of_union, elem_of_singleton, H1. setoid_rewrite elem_of_cons. naive_solver.
  - intros t. rewrite elem_of_union, elem_of_singleton, H2. setoid_rewrite elem_of_cons. naive_solver.
  - intros b. rewrite Hbs, H3. setoid_rewrite elem_of_cons. unfold byte_of. split.
    + intros [(q & ? & ?)|(i & Hi%elem_of_seqZ & ->)]; [exists q; auto|exists p; split; [by left|lia]].
    + intros (q & [->|?] & ?); [right; exists (b - p.2 `mod` 128); split; [apply elem_of_seqZ; lia|lia]|left; by exists q].
Qed.
Lemma holds_new : holds transaction_new [].
Proof using Type. clear size_ok. split; intros x; unfold transaction_new; cbn; (split; [set_solver|intros (p & ?%not_elem_of_nil & _); done]). Qed.
Lemma holds_same info P P' : holds info P -> (forall p, p ∈ P <-> p ∈ P') -> holds info P'.
Proof. intros [A B C] H. split; intros x; rewrite ?A, ?B, ?C; by setoid_rewrite H. Qed.

(** *** An access for a transaction *)
(** It is one of the sizes, aligned, and no larger than its pieces make it. *)
Record serves (segment : Z) (a : mem_access_t) P : Prop := {
  sv_size : (a_size a = 32 \/ a_size a = 64 \/ a_size a = 128) /\ a_size a <= segment;
  sv_aligned : (a_size a | a_addr a);
  sv_inside p : p ∈ P -> a_addr a <= p.2 /\ p.2 + size <= a_addr a + a_size a;
  sv_mask t : t ∈ a_mask a <-> exists p, p ∈ P /\ t = p.1;
  sv_bytes b : b ∈ a_bytes a <-> exists p, p ∈ P /\ byte_of p b;
  sv_tight : 32 < a_size a -> exists p q, p ∈ P /\ q ∈ P /\ p.2 < a_addr a + a_size a / 2 <= q.2 }.

(** What the chunks say of a piece in the segment at [k]. *)
Lemma chunk_used info P i : holds info P -> bool_decide (i ∈ chunks info) = true <-> exists p, p ∈ P /\ i * 32 <= p.2 `mod` 128 < i * 32 + 32.
Proof.
  intros H. rewrite bool_decide_eq_true, (hd_chunk _ _ H). split; intros (p & Hp & Hi); exists p; split; try done.
  - subst i. pose proof (Z.div_mod (p.2 `mod` 128) 32). pose proof (Z.mod_pos_bound (p.2 `mod` 128) 32). lia.
  - apply (Z.div_unique _ _ _ (p.2 `mod` 128 - i * 32)); lia.
Qed.

(** A piece starts between two addresses. *)
Definition used P (lo hi : Z) : Prop := exists p, p ∈ P /\ lo <= p.2 < hi.
Definition within P (base len : Z) : Prop := forall p, p ∈ P -> piece_ok p /\ base <= p.2 /\ p.2 + size <= base + len.
Lemma used_chunk info P base i : holds info P -> within P base 128 -> (128 | base) ->
  bool_decide (i ∈ chunks info) = true <-> used P (base + 32 * i) (base + 32 * i + 32).
Proof using size_ok.
  intros H Hw [k Hk]. rewrite (chunk_used _ _ _ H). split; intros (p & Hp & Hi); exists p; (split; [done|]);
    destruct (Hw p Hp) as (_ & Hlo & Hhi); assert (p.2 `mod` 128 = p.2 - base) as He by (symmetry; apply (Z.mod_unique _ _ k); lia); lia.
Qed.
Lemma used_app P lo mi hi : lo <= mi <= hi -> used P lo hi <-> used P lo mi \/ used P mi hi.
Proof.
  intros Hm. split.
  - intros (p & Hp & Hi). destruct (decide (p.2 < mi)); [left|right]; exists p; split; try done; lia.
  - intros [(p & ? & ?)|(p & ? & ?)]; exists p; split; try done; lia.
Qed.
Lemma within_used P base len : P <> [] -> within P base len -> used P base (base + len).
Proof using size_ok.
  intros HP Hw. destruct P as [|p P]; [done|]. exists p. split; [by left|]. destruct (Hw p ltac:(by left)) as (_ & ? & ?). lia.
Qed.
(** When one half is not used the other holds all. *)
Lemma half P base h : (h = 32 \/ h = 64) -> (h | base) -> within P base (2 * h) ->
  (~ used P (base + h) (base + 2 * h) -> within P base h) /\ (~ used P base (base + h) -> within P (base + h) h).
Proof using size_ok.
  intros Hh [k Hk] Hw. split; intros Hno p Hp; destruct (Hw p Hp) as (Hok & Hlo & Hhi); pose proof (piece_inside p h Hok ltac:(lia)) as Hin.
  - assert (p.2 < base + h) as Hlt by (destruct (decide (p.2 < base + h)); [done|]; exfalso; apply Hno; exists p; split; [done|]; lia).
    assert (p.2 `mod` h = p.2 - base) as He by (symmetry; apply (Z.mod_unique _ _ k); lia). split; [done|lia].
  - assert (base + h <= p.2) as Hge by (destruct (decide (p.2 < base + h)); [|lia]; exfalso; apply Hno; exists p; split; [done|]; lia).
    assert (p.2 `mod` h = p.2 - (base + h)) as He by (symmetry; apply (Z.mod_unique _ _ (k + 1)); lia). split; [done|lia].
Qed.

(** The two choices of the reduction: a half of 128 bytes, then a half of 64. *)
Record narrowed (segment k : Z) P (addr sz : Z) : Prop := {
  nw_within : within P addr sz;
  nw_range : k <= addr /\ addr + sz <= k + segment;
  nw_aligned : (sz | addr);
  nw_tight : 32 < sz -> used P addr (addr + sz / 2) /\ used P (addr + sz / 2) (addr + sz) }.
Lemma narrow64 segment k P addr lower upper : P <> [] -> within P addr 64 -> k <= addr /\ addr + 64 <= k + segment -> (64 | addr) ->
  (lower = true <-> used P addr (addr + 32)) -> (upper = true <-> used P (addr + 32) (addr + 64)) ->
  exists addr' sz', (if lower && negb upper then Some (addr, 32) else if negb lower && upper then Some (addr + 32, 32)
    else assert! lower && upper; Some (addr, 64)) = Some (addr', sz') /\ (sz' = 32 \/ sz' = 64) /\ narrowed segment k P addr' sz'.
Proof using size_ok.
  intros HP Hw Hr [j Hj] Hlo Hhi.
  destruct (half P addr 32) as [Hl Hu]; [auto|exists (2 * j); lia|exact Hw|]. change (2 * 32) with 64 in *.
  pose proof (within_used P addr 64 HP Hw) as Hall. rewrite (used_app P addr (addr + 32)) in Hall by lia.
  destruct lower, upper; cbn [andb negb].
  - exists addr, 64. split; [done|]. split; [auto|]. split; [done|done|by exists j|]. intros _. change (64 / 2) with 32. split; [by apply Hlo|by apply Hhi].
  - exists addr, 32. split; [done|]. split; [auto|]. split; [apply Hl; intros ?%Hhi; done|lia|exists (2 * j); lia|lia].
  - exists (addr + 32), 32. split; [done|]. split; [auto|]. split; [apply Hu; intros ?%Hlo; done|lia|exists (2 * j + 1); lia|lia].
  - exfalso. destruct Hall as [?%Hlo|?%Hhi]; done.
Qed.
Definition pick (l : bool) {A} (x y : A) : A := if l then x else y.

Lemma reduce_ok segment k info P w is_write type : (segment = 32 \/ segment = 64 \/ segment = 128) -> (segment | k) -> 0 <= k -> k + segment <= 2 ^ 32 ->
  holds info P -> P <> [] -> within P k segment ->
  exists a, memory_coalescing_arch_13_reduce_and_send is_write type segment (k, info) w = Some (with_accesses (m_accessq w ++ [a]) w) /\
    serves segment a P /\ k <= a_addr a /\ a_addr a + a_size a <= k + segment /\ a_type a = type /\ a_write a = is_write.
Proof using size_ok.
  intros Hs Hk H0 Htop Hinfo HP Hw. unfold memory_coalescing_arch_13_reduce_and_send.
  assert (Z.land k (u32 (segment - 1)) = 0) as ->.
  { destruct Hk as [j ->]. destruct Hs as [->|[->| ->]]; [change (u32 (32 - 1)) with (Z.ones 5)|change (u32 (64 - 1)) with (Z.ones 6)|change (u32 (128 - 1)) with (Z.ones 7)];
      rewrite Z.land_ones by lia; apply Z.mod_mul; lia. }
  rewrite Z.eqb_refl. set (base := k - k `mod` 128).
  assert (128 | base) as Hbase by (exists (k / 128); pose proof (Z.div_mod k 128); unfold base; lia).
  pose proof (Z.mod_pos_bound k 128) as Hmod. assert (segment | 128) as Hdiv by (destruct Hs as [->|[->| ->]]; [by exists 4|by exists 2|by exists 1]).
  assert (k `mod` 128 + segment <= 128) as Hfit by (apply aligned_inside; [lia|done|lia|by apply Z.mod_divide; [lia|]]).
  assert (within P base 128) as Hwb by (intros p Hp; destruct (Hw p Hp) as (? & ? & ?); split; [done|unfold base; lia]).
  pose proof (fun i => used_chunk info P base i Hinfo Hwb Hbase) as Hq.
  assert (forall i lo hi, base + 32 * i = lo -> hi = lo + 32 -> bool_decide (i ∈ chunks info) = true <-> used P lo hi) as Hq' by (intros i lo hi <- ->; apply Hq).
  pose proof (within_used P base 128 HP Hwb) as Hall.
  assert (bool_decide (0 ∈ chunks info) || bool_decide (1 ∈ chunks info) || bool_decide (2 ∈ chunks info) || bool_decide (3 ∈ chunks info) = true) as Hsome.
  { rewrite !orb_true_iff, !Hq. rewrite (used_app P base (base + 32)), (used_app P (base + 32) (base + 64)), (used_app P (base + 64) (base + 96)) in Hall by lia.
    replace (base + 32 * 0) with base by lia. change (32 * 1) with 32. change (32 * 2) with 64. change (32 * 3) with 96.
    rewrite <-!Z.add_assoc. change (32 + 32) with 64. change (64 + 32) with 96. change (96 + 32) with 128. tauto. }
  rewrite Hsome.
  assert (forall addr sz, (sz = 32 \/ sz = 64 \/ sz = 128) -> narrowed segment k P addr sz ->
    serves segment (mkAccess type (u32 addr) sz is_write (threads info) (bytes info)) P /\ k <= u32 addr /\ u32 addr + sz <= k + segment) as Hdone.
  { intros addr sz Hsz [N1 N2 N3 N4]. rewrite u32_small by lia. split; [|lia]. split; cbn; [split; [done|lia]|done| |apply Hinfo|apply Hinfo|].
    - intros p Hp. apply (N1 p Hp).
    - intros Hlt. destruct (N4 Hlt) as [(p & Hp & ?) (q & Hin & ?)]. exists p, q. split; [done|]. split; [done|lia]. }
  assert (forall addr lower upper, within P addr 64 -> k <= addr /\ addr + 64 <= k + segment -> (64 | addr) ->
    (lower = true <-> used P addr (addr + 32)) -> (upper = true <-> used P (addr + 32) (addr + 64)) ->
    exists a, ('(addr, size) ← (if lower && negb upper then Some (addr, 32) else if negb lower && upper then Some (addr + 32, 32)
      else assert! lower && upper; Some (addr, 64));
      Some (with_accesses (m_accessq w ++ [mkAccess type (u32 addr) size is_write (threads info) (bytes info)]) w)) =
      Some (with_accesses (m_accessq w ++ [a]) w) /\
      serves segment a P /\ k <= a_addr a /\ a_addr a + a_size a <= k + segment /\ a_type a = type /\ a_write a = is_write) as Hfinish.
  { intros addr lower upper W1 W2 W3 W4 W5. destruct (narrow64 segment k P addr lower upper HP W1 W2 W3 W4 W5) as (addr' & sz' & -> & Hsz & N).
    cbn [mbind option_bind]. eexists. split; [done|]. destruct (Hdone addr' sz' ltac:(lia) N) as (D1 & D2 & D3). done. }
  clear Hsome. destruct Hs as [->|[->| ->]].
  - cbn [Z.eqb Pos.eqb mbind option_bind]. eexists. split; [done|]. destruct (Hdone k 32) as (D1 & D2 & D3); [auto| |done]. split; [done|lia|done|lia].
  - cbn [Z.eqb Pos.eqb]. destruct Hk as [j Hj]. pose proof (Z.div_mod k 128) as Hdm.
    destruct (Z.eqb_spec (k `mod` 128) 0) as [Hz|Hz].
    + cbn [mbind option_bind Z.eqb Pos.eqb]. apply Hfinish; [done|lia|by exists j|apply Hq'; unfold base; lia|apply Hq'; unfold base; lia].
    + assert (k `mod` 128 = 64) as H64 by lia. rewrite H64. cbn [mbind option_bind Z.eqb Pos.eqb].
      apply Hfinish; [done|lia|by exists j|apply Hq'; unfold base; lia|apply Hq'; unfold base; lia].
  - cbn [Z.eqb Pos.eqb]. assert (k = base) as Hkb by (destruct Hk as [j Hj]; unfold base; pose proof (Z.div_mod k 128); lia).
    assert (forall i j lo hi, base + 32 * i = lo -> j = i + 1 -> hi = lo + 64 ->
      bool_decide (i ∈ chunks info) || bool_decide (j ∈ chunks info) = true <-> used P lo hi) as Hhalf.
    { intros i j lo hi Hi -> ->. rewrite orb_true_iff, (Hq' i lo (lo + 32) Hi eq_refl), (Hq' (i + 1) (lo + 32) (lo + 64)) by lia.
      by rewrite (used_app P lo (lo + 32) (lo + 64)) by lia. }
    pose proof (Hhalf 0 1 k (k + 64) ltac:(lia) eq_refl ltac:(lia)) as Hlow. pose proof (Hhalf 2 3 (k + 64) (k + 128) ltac:(lia) eq_refl ltac:(lia)) as Hhigh.
    destruct (half P k 64) as [Hl Hu]; [auto|destruct Hk as [j ->]; exists (2 * j); lia|exact Hw|]. change (2 * 64) with 128 in *.
    destruct (bool_decide (0 ∈ chunks info) || bool_decide (1 ∈ chunks info)) eqn:Elow, (bool_decide (2 ∈ chunks info) || bool_decide (3 ∈ chunks info)) eqn:Ehigh;
      cbn [andb negb mbind option_bind Z.eqb Pos.eqb].
    + eexists. split; [done|]. destruct (Hdone k 128) as (D1 & D2 & D3); [auto| |done]. split; [done|lia|done|]. intros _. change (128 / 2) with 64.
      split; [by apply Hlow|by apply Hhigh].
    + apply Hfinish; [apply Hl; intros ?%Hhigh; done|lia|destruct Hk as [j ->]; exists (2 * j); lia|apply Hq'; lia|apply Hq'; lia].
    + apply Hfinish; [apply Hu; intros ?%Hlow; done|lia|destruct Hk as [j ->]; exists (2 * j + 1); lia|apply Hq'; lia|apply Hq'; lia].
    + rewrite Hkb in Hlow, Hhigh. rewrite (used_app P base (base + 64)) in Hall by lia. destruct Hall as [?%Hlow|?%Hhigh]; done.
Qed.
End transactions.

(** ** Half-warps *)
Section subwarps.
Variables (cfg : core_config) (w : warp_inst_t).
Abbreviation size := (fst (access_pieces w)).
Abbreviation pieces_each := (snd (access_pieces w)).
Abbreviation segment := (segment_size w).
Implicit Types (p : piece) (P : list piece) (a : mem_access_t) (ts : list nat).

(** What an active thread asks for. *)
Definition requests (p : piece) : Prop := p.1 ∈ w_active w /\ exists access, 0 <= access < pieces_each /\ address_of w p.1 access = Some p.2.
(** An instruction of a width that exists, whose active threads are of the warp and ask for
    aligned pieces of a 32-bit address space. *)
Record warp_ok : Prop := {
  wk_size : data_size w = 1 \/ data_size w = 2 \/ data_size w = 4 \/ data_size w = 8 \/ data_size w = 16;
  wk_warp : (warp_size cfg <= MAX_WARP_SIZE)%nat;
  wk_threads t : t ∈ w_active w -> (t < warp_size cfg)%nat;
  wk_address t access : t ∈ w_active w -> 0 <= access < pieces_each -> exists addr, address_of w t access = Some addr;
  wk_aligned t access addr : t ∈ w_active w -> 0 <= access < pieces_each -> address_of w t access = Some addr ->
    0 <= addr /\ addr + size <= 2 ^ 32 /\ addr `mod` size = 0 }.
Hypothesis Hw : warp_ok.

Lemma size_cases : size = 1 \/ size = 2 \/ size = 4 \/ size = 8 \/ size = 16.
Proof using Hw. unfold access_pieces. destruct (_ && _); cbn; [auto|apply Hw]. Qed.
Lemma segment_cases : segment = 32 \/ segment = 64 \/ segment = 128.
Proof using Hw. unfold segment_size. destruct (wk_size Hw) as [->|[->|[->|[->| ->]]]]; cbn; auto. Qed.
Lemma pieces_range : 1 <= pieces_each <= MAX_ACCESSES_PER_INSN_PER_THREAD.
Proof using Hw.
  unfold access_pieces, MAX_ACCESSES_PER_INSN_PER_THREAD. destruct (bool_decide _); cbn [andb]; [|cbn; lia].
  destruct (wk_size Hw) as [->|[->|[->|[->| ->]]]]; vm_compute; split; congruence.
Qed.
Lemma requested_ok p : requests p -> piece_ok size p.
Proof using Hw.
  intros (Ht & k & Hk & Ha). destruct (wk_aligned Hw _ _ _ Ht Hk Ha) as (? & ? & ?). split; [|done].
  pose proof (wk_threads Hw _ Ht). pose proof (wk_warp Hw). lia.
Qed.
Definition segment_of (addr : Z) : Z := addr - addr `mod` segment.
Lemma request_tag p : requests p -> line_size_based_tag_func p.2 segment = segment_of p.2 /\
  line_size_based_tag_func (u64 (p.2 + size - 1)) segment = segment_of p.2.
Proof using Hw.
  intros Hp. pose proof (requested_ok p Hp) as Hok. pose proof size_cases as Hs. pose proof segment_cases as Hseg.
  pose proof (piece_inside size Hs p segment Hok Hseg) as Hin. destruct Hok as (_ & H0 & H1 & _).
  assert (small_power segment) as Hsp by (unfold small_power; lia). unfold segment_of. rewrite u64_small, !tag_segment by (done || lia).
  split; [done|]. pose proof (Z.mod_pos_bound p.2 segment). rewrite <-(Z.mod_unique (p.2 + size - 1) segment (p.2 / segment) (p.2 `mod` segment + size - 1)).
  - lia.
  - lia.
  - pose proof (Z.div_mod p.2 segment). lia.
Qed.
Lemma request_within P k : (forall p, p ∈ P -> requests p /\ segment_of p.2 = k) -> within size P k segment.
Proof using Hw.
  intros HP p Hp. destruct (HP p Hp) as [Hr Hk]. pose proof (requested_ok p Hr) as Hok. split; [done|].
  pose proof (piece_inside size size_cases p segment Hok segment_cases). unfold segment_of in Hk. pose proof (Z.mod_pos_bound p.2 segment). pose proof segment_cases. lia.
Qed.
Lemma segment_place p : requests p -> (segment | segment_of p.2) /\ 0 <= segment_of p.2 /\ segment_of p.2 + segment <= 2 ^ 32.
Proof using Hw.
  intros Hp. destruct (requested_ok p Hp) as (_ & H0 & H1 & _). pose proof segment_cases as Hs. pose proof size_cases. unfold segment_of.
  pose proof (Z.div_mod p.2 segment) as Hdm. pose proof (Z.mod_pos_bound p.2 segment). split; [exists (p.2 / segment); lia|].
  assert (0 <= p.2 / segment) by (apply Z.div_pos; lia). split; [nia|].
  assert (exists j, 2 ^ 32 = segment * j) as [j Hj] by (destruct Hs as [->|[->| ->]]; [by exists (2 ^ 27)|by exists (2 ^ 26)|by exists (2 ^ 25)]).
  assert (p.2 / segment < j) by (apply Z.div_lt_upper_bound; lia). nia.
Qed.

(** *** Transactions by segment *)
Record collected (m : gmap Z transaction_info) P : Prop := {
  cl_some k info : m !! k = Some info -> exists P', P' <> [] /\ holds size info P' /\ forall p, p ∈ P' <-> p ∈ P /\ segment_of p.2 = k;
  cl_none k p : m !! k = None -> p ∈ P -> segment_of p.2 <> k }.
Lemma collect_one p access m P : requests p -> address_of w p.1 access = Some p.2 -> collected m P ->
  exists m', coalesce_access w p.1 size access m = Some m' /\ collected m' (P ++ [p]).
Proof using Hw.
  intros Hp Ha [C1 C2]. unfold coalesce_access. rewrite Ha. cbn [mbind option_bind]. destruct (request_tag p Hp) as [-> ->]. rewrite Z.eqb_refl.
  set (k := segment_of p.2).
  assert (exists P', holds size (from_option id transaction_new (m !! k)) P' /\ forall q, q ∈ P' <-> q ∈ P /\ segment_of q.2 = k) as (P' & HP' & Hin).
  { destruct (m !! k) as [info|] eqn:Hk; cbn.
    - destruct (C1 k info Hk) as (P' & _ & ? & ?). by exists P'.
    - exists []. split; [apply holds_new|]. intros q. split; [by intros ?%not_elem_of_nil|]. intros [Hq He]. by destruct (C2 k q Hk Hq). }
  destruct (join_ok size size_cases p _ P' (requested_ok p Hp) HP') as (info & -> & Hinfo). cbn [mbind option_bind].
  eexists. split; [done|]. split.
  - intros k' i. rewrite lookup_insert_Some. intros [[<- <-]|[Hne Hk']].
    + exists (p :: P'). split; [done|]. split; [done|]. intros q. rewrite elem_of_cons, elem_of_app, Hin, list_elem_of_singleton. unfold k. naive_solver.
    + destruct (C1 k' i Hk') as (Q & HQ & Hh & HQin). exists Q. split; [done|]. split; [done|]. intros q. rewrite HQin, elem_of_app, list_elem_of_singleton.
      split; [intros [? ?]; auto|]. intros [[?| ->] ?]; [auto|]. by destruct Hne.
  - intros k' q. rewrite lookup_insert_None, elem_of_app, list_elem_of_singleton. intros [Hk' Hne] [Hq| ->]; [by apply C2|]. done.
Qed.

Lemma collected_same m P P' : collected m P -> (forall p, p ∈ P <-> p ∈ P') -> collected m P'.
Proof using Type.
  clear Hw. intros [A B] H. split; [|intros k p Hk Hp; apply (B k p Hk); by apply H]. intros k info Hk. destruct (A k info Hk) as (Q & ? & ? & HQ).
  exists Q. split; [done|]. split; [done|]. intros p. by rewrite HQ, H.
Qed.
Lemma collect_thread t m P : (t < MAX_WARP_SIZE)%nat -> collected m P ->
  exists m' P', coalesce_thread w t m = Some m' /\ collected m' P' /\ forall p, p ∈ P' <-> p ∈ P \/ requests p /\ p.1 = t.
Proof using Hw.
  intros Ht Hm. unfold coalesce_thread, active. rewrite (proj2 (Nat.ltb_lt _ _) Ht). cbn [mbind option_bind].
  destruct (bool_decide (t ∈ w_active w)) eqn:Hact; cbn [negb].
  - apply bool_decide_eq_true in Hact. destruct (access_pieces w) as [sz n] eqn:Hap. pose proof pieces_range as Hn. rewrite Hap in Hn. cbn in Hn.
    rewrite (proj2 (Z.leb_le n _)) by lia.
    destruct (each_grows (coalesce_access w t sz) (fun done m => exists P', collected m P' /\
      forall p, p ∈ P' <-> p ∈ P \/ p.1 = t /\ exists access, access ∈ done /\ address_of w t access = Some p.2) (seqZ 0 n) [] m) as (m' & -> & P' & Hc & HP').
    + exists P. split; [done|]. intros p. split; [auto|]. intros [?|(_ & k & ?%not_elem_of_nil & _)]; done.
    + intros access done m1 Hacc%elem_of_seqZ (P1 & Hc1 & HP1). destruct (wk_address Hw t access Hact) as [addr Haddr]; [rewrite Hap; cbn; lia|].
      destruct (collect_one (t, addr) access m1 P1) as (m2 & Hs & Hc2); [|done|done|].
      { split; [done|]. exists access. rewrite Hap. cbn. split; [lia|done]. }
      rewrite Hap in Hs. cbn in Hs. exists m2. split; [done|]. eexists. split; [exact Hc2|]. intros p. rewrite elem_of_app, HP1, list_elem_of_singleton. split.
      * intros [[?|(? & k & ? & ?)]| ->]; [by left|right; split; [done|]; exists k; split; [apply elem_of_app; by left|done]|].
        right. split; [done|]. exists access. split; [apply elem_of_app; right; by apply list_elem_of_singleton|done].
      * intros [?|(? & k & [?|Hk%list_elem_of_singleton]%elem_of_app & Hk')]; [by left; left|left; right; split; [done|]; by exists k|].
        right. subst k. destruct p; cbn in *. congruence.
    + exists m', P'. split; [done|]. split; [done|]. intros p. rewrite HP'. unfold requests. rewrite Hap. cbn [snd app]. split; (intros [?|H]; [by left|right]).
      * destruct H as (<- & k & Hk%elem_of_seqZ & ?). split; [|done]. split; [done|]. exists k. split; [lia|done].
      * destruct H as ((_ & k & ? & ?) & <-). split; [done|]. exists k. split; [apply elem_of_seqZ; lia|done].
  - apply bool_decide_eq_false in Hact. exists m, P. split; [done|]. split; [done|]. intros p. split; [auto|]. intros [?|((? & _) & <-)]; done.
Qed.
Lemma collect_subwarp ts : (forall t, t ∈ ts -> (t < MAX_WARP_SIZE)%nat) ->
  exists m P, each (coalesce_thread w) ts ∅ = Some m /\ collected m P /\ forall p, p ∈ P <-> requests p /\ p.1 ∈ ts.
Proof using Hw.
  intros Hts. destruct (each_grows (coalesce_thread w) (fun done m => exists P, collected m P /\ forall p, p ∈ P <-> requests p /\ p.1 ∈ done) ts [] ∅)
    as (m & Hm & P & Hc & HP).
  - exists []. split; [split; [done|by intros k p _ ?%not_elem_of_nil]|]. intros p. split; [by intros ?%not_elem_of_nil|by intros [_ ?%not_elem_of_nil]].
  - intros t done m Ht (P & Hc & HP). destruct (collect_thread t m P (Hts t Ht) Hc) as (m' & P' & Hs & Hc' & HP').
    exists m'. split; [done|]. exists P'. split; [done|]. intros p. rewrite HP', HP, elem_of_app, list_elem_of_singleton. naive_solver.
  - exists m, P. by split.
Qed.

(** *** The accesses of a half-warp *)
Record access_for (is_write : bool) (type : mem_access_type) ts a : Prop := {
  af_type : a_type a = type /\ a_write a = is_write;
  af_size : (a_size a = 32 \/ a_size a = 64 \/ a_size a = 128) /\ a_size a <= segment;
  af_aligned : (a_size a | a_addr a);
  af_inside p : requests p -> p.1 ∈ ts -> segment_of p.2 = segment_of (a_addr a) -> a_addr a <= p.2 /\ p.2 + size <= a_addr a + a_size a;
  af_mask t : t ∈ a_mask a <-> t ∈ ts /\ exists addr, requests (t, addr) /\ segment_of addr = segment_of (a_addr a);
  af_bytes b : b ∈ a_bytes a <-> exists p, requests p /\ p.1 ∈ ts /\ segment_of p.2 = segment_of (a_addr a) /\ byte_of size p b;
  af_tight : 32 < a_size a -> exists p q, requests p /\ requests q /\ p.1 ∈ ts /\ q.1 ∈ ts /\ a_addr a <= p.2 < a_addr a + a_size a / 2 /\
    a_addr a + a_size a / 2 <= q.2 < a_addr a + a_size a }.
Record coalesced (is_write : bool) (type : mem_access_type) ts (l : list mem_access_t) : Prop := {
  co_each a : a ∈ l -> access_for is_write type ts a;
  co_all p : requests p -> p.1 ∈ ts -> exists a, a ∈ l /\ segment_of (a_addr a) = segment_of p.2;
  co_once : NoDup ((fun a => segment_of (a_addr a)) <$> l) }.

Lemma each_sends {A} (f : A -> warp_inst_t -> option warp_inst_t) (Rel : A -> mem_access_t -> Prop) l : forall w',
  (forall x w', x ∈ l -> exists a, f x w' = Some (with_accesses (m_accessq w' ++ [a]) w') /\ Rel x a) ->
  exists sent, each f l w' = Some (with_accesses (m_accessq w' ++ sent) w') /\ Forall2 Rel l sent.
Proof using Type.
  clear Hw. induction l as [|x l IH]; intros w' Hf; cbn [each]; [exists []; rewrite app_nil_r; split; [by destruct w'|done]|].
  destruct (Hf x w' ltac:(by left)) as (a & -> & Ha). cbn [mbind option_bind].
  destruct (IH (with_accesses (m_accessq w' ++ [a]) w')) as (sent & -> & Hs); [intros; apply Hf; by right|].
  exists (a :: sent). split; [|by constructor]. unfold with_accesses. cbn. by rewrite <-app_assoc.
Qed.
Lemma segment_unique k addr : (segment | k) -> k <= addr < k + segment -> segment_of addr = k.
Proof using Hw. intros [j ->] Ha. unfold segment_of. rewrite <-(Z.mod_unique addr segment j (addr - j * segment)); lia. Qed.
(** The access that is sent for the transaction of a segment. *)
Record answers (is_write : bool) (type : mem_access_type) ts (x : Z * transaction_info) a : Prop := {
  an_access : access_for is_write type ts a;
  an_segment : segment_of (a_addr a) = x.1 }.
Lemma reduce_answers is_write type ts m P x w' : collected m P -> (forall p, p ∈ P <-> requests p /\ p.1 ∈ ts) -> x ∈ in_order m ->
  exists a, memory_coalescing_arch_13_reduce_and_send is_write type segment x w' = Some (with_accesses (m_accessq w' ++ [a]) w') /\ answers is_write type ts x a.
Proof using Hw.
  intros [C1 _] HP Hx. destruct x as [k info]. apply elem_of_in_order in Hx. destruct (C1 k info Hx) as (Q & HQne & HQ & HQin).
  assert (forall p, p ∈ Q <-> (requests p /\ p.1 ∈ ts) /\ segment_of p.2 = k) as HQr by (intros p; by rewrite HQin, HP).
  assert (exists p, p ∈ Q) as [p0 Hp0] by (destruct Q as [|p Q]; [done|exists p; by left]).
  pose proof (proj1 (HQr p0) Hp0) as [[Hr0 _] Hk0]. destruct (segment_place p0 Hr0) as (Hd & H0 & Htop). rewrite Hk0 in Hd, H0, Htop.
  destruct (reduce_ok size size_cases segment k info Q w' is_write type segment_cases Hd H0 Htop HQ HQne) as (a & Ha & [S1 S2 S3 S4 S5 S6] & Hlo & Hhi & Hty & Hwr).
  { apply request_within. intros p Hp. apply HQr in Hp as [[? _] ?]. done. }
  exists a. split; [done|]. assert (segment_of (a_addr a) = k) as Hseg by (apply segment_unique; [done|]; destruct S1 as [? _]; lia).
  split; [|done]. split; rewrite ?Hseg.
  - done.
  - done.
  - done.
  - intros p Hp Hts Hk. apply S3. by apply HQr.
  - intros t. rewrite S4. split.
    + intros ([t' addr] & Hp & ->). apply HQr in Hp as [[? ?] ?]. split; [done|]. by exists addr.
    + intros (Hts & addr & Hp & Hk). exists (t, addr). split; [|done]. by apply HQr.
  - intros b. rewrite S5. split; [intros (p & Hp & ?); apply HQr in Hp as [[? ?] ?]; by exists p|intros (p & ? & ? & ? & ?); exists p; split; [|done]; by apply HQr].
  - intros H32. destruct (S6 H32) as (p & q & Hp & Hq & Hlt). destruct (S3 p Hp), (S3 q Hq). pose proof size_cases.
    apply HQr in Hp as [[? ?] ?], Hq as [[? ?] ?]. exists p, q. split; [done|]. split; [done|]. split; [done|]. split; [done|]. lia.
Qed.
Lemma answers_coalesced is_write type ts m P sent : collected m P -> (forall p, p ∈ P <-> requests p /\ p.1 ∈ ts) ->
  Forall2 (answers is_write type ts) (in_order m) sent -> coalesced is_write type ts sent.
Proof using Hw.
  intros [C1 C2] HP Hsent. split.
  - intros a [i Hi]%list_elem_of_lookup_1. destruct (Forall2_lookup_r _ _ _ _ _ Hsent Hi) as (x & _ & Hx). apply Hx.
  - intros p Hp Hts. destruct (m !! segment_of p.2) as [info|] eqn:Hm; [|by destruct (C2 _ p Hm); [apply HP|]].
    apply elem_of_in_order, list_elem_of_lookup_1 in Hm as [i Hi]. destruct (Forall2_lookup_l _ _ _ _ _ Hsent Hi) as (a & Ha & Hx).
    exists a. split; [by eapply list_elem_of_lookup_2|]. apply Hx.
  - assert ((fun a => segment_of (a_addr a)) <$> sent = (in_order m).*1) as -> by (clear -Hsent; induction Hsent as [|x a ks as_ Hxa _ IH]; [done|]; cbn [fmap list_fmap]; destruct Hxa as [_ Hxa]; by rewrite Hxa, IH).
    apply in_order_keys.
Qed.
Lemma coalesce_subwarp_ok is_write type i q :
  (forall t, t ∈ subwarp_threads cfg (mem_warp_parts cfg) i -> (t < MAX_WARP_SIZE)%nat) ->
  exists sent, coalesce_subwarp cfg is_write type i (with_accesses q w) = Some (with_accesses (q ++ sent) w) /\
    coalesced is_write type (subwarp_threads cfg (mem_warp_parts cfg) i) sent.
Proof using Hw.
  intros Hts. destruct (collect_subwarp _ Hts) as (m & P & Hm & Hc & HP). unfold coalesce_subwarp.
  change (each (coalesce_thread (with_accesses q w))) with (each (coalesce_thread w)). rewrite Hm. cbn [mbind option_bind].
  destruct (each_sends (memory_coalescing_arch_13_reduce_and_send is_write type segment) (answers is_write type (subwarp_threads cfg (mem_warp_parts cfg) i))
    (in_order m) (with_accesses q w)) as (sent & Hs & Hf).
  { intros x w' Hx. by apply (reduce_answers is_write type _ m P). }
  exists sent. split; [exact Hs|]. by eapply answers_coalesced.
Qed.
(** The half-warps divide the warp. *)
Lemma subwarp_bound parts i t : (warp_size cfg <= MAX_WARP_SIZE)%nat -> (i < parts)%nat -> t ∈ subwarp_threads cfg parts i -> (t < MAX_WARP_SIZE)%nat.
Proof using Type.
  clear Hw. unfold subwarp_threads. intros Hws Hi [? Ht]%elem_of_seq. pose proof (Nat.Div0.mul_div_le (warp_size cfg) parts). nia.
Qed.
Lemma subwarp_cover parts t : (0 < parts)%nat -> Nat.divide parts (warp_size cfg) -> (t < warp_size cfg)%nat ->
  exists i, (i < parts)%nat /\ t ∈ subwarp_threads cfg parts i /\ forall j, (j < parts)%nat -> t ∈ subwarp_threads cfg parts j -> j = i.
Proof using Type.
  clear Hw. intros Hp [n Hn] Ht. unfold subwarp_threads. rewrite Hn, Nat.div_mul by lia. exists (t / n)%nat. assert (0 < n)%nat by nia.
  pose proof (Nat.div_mod t n ltac:(lia)). pose proof (Nat.mod_upper_bound t n ltac:(lia)). split; [|split].
  - apply Nat.Div0.div_lt_upper_bound. nia.
  - apply elem_of_seq. nia.
  - intros j Hj [? ?]%elem_of_seq. nia.
Qed.
Lemma coalesce_ok is_write type : (0 < mem_warp_parts cfg)%nat -> exists groups,
  memory_coalescing_arch_13 cfg is_write type w = Some (with_accesses (m_accessq w ++ mjoin groups) w) /\
  length groups = mem_warp_parts cfg /\
  forall i l, groups !! i = Some l -> coalesced is_write type (subwarp_threads cfg (mem_warp_parts cfg) i) l.
Proof using Hw.
  intros Hparts. unfold memory_coalescing_arch_13. rewrite (proj2 (Nat.ltb_lt _ _) Hparts).
  destruct (each_grows (coalesce_subwarp cfg is_write type) (fun done w' => exists groups, w' = with_accesses (m_accessq w ++ mjoin groups) w /\
    length groups = length done /\ forall i l, groups !! i = Some l -> exists k, done !! i = Some k /\ coalesced is_write type (subwarp_threads cfg (mem_warp_parts cfg) k) l)
    (seq 0 (mem_warp_parts cfg)) [] w) as (w' & -> & groups & -> & Hlen & Hg).
  - exists []. cbn. rewrite app_nil_r. split; [by destruct w|]. done.
  - intros k done w' Hk%elem_of_seq (groups & -> & Hlen & Hg).
    destruct (coalesce_subwarp_ok is_write type k (m_accessq w ++ mjoin groups)) as (sent & -> & Hs); [intros t; apply subwarp_bound; [apply Hw|lia]|].
    eexists. split; [done|]. exists (groups ++ [sent]). split; [by rewrite join_app, <-app_assoc; cbn; rewrite app_nil_r|].
    split; [rewrite !length_app; cbn; lia|]. intros i l [Hi|[Hi Hl]]%lookup_app_Some.
    + destruct (Hg i l Hi) as (k' & ? & ?). exists k'. split; [by apply lookup_app_l_Some|done].
    + apply list_lookup_singleton_Some in Hl as [Hz <-]. exists k. split; [|done]. rewrite lookup_app_r by lia. apply list_lookup_singleton_Some. split; [lia|done].
  - exists groups. split; [done|]. cbn [app] in Hlen, Hg. rewrite length_seq in Hlen. split; [done|]. intros i l Hi. destruct (Hg i l Hi) as (k & Hk & ?).
    apply lookup_seq in Hk as [-> _]. done.
Qed.
End subwarps.

(** ** Atomics *)
(** Threads of one transaction touch different bytes. *)
Definition exclusive (size : Z) (P : list piece) : Prop := ForallOrdPairs (fun p q => forall b, byte_of size p b -> ~ byte_of size q b) P.
Section atomics.
Variables (cfg : core_config) (w : warp_inst_t).
Hypothesis Hw : warp_ok cfg w.
Hypothesis Hglobal : w_space w = global_space.
Abbreviation size := (data_size w).
Abbreviation segment := (segment_size w).
Implicit Types (p : piece) (P : list piece) (l : list transaction_info) (ts : list nat).

Lemma atomic_pieces : access_pieces w = (size, 1).
Proof using Hglobal. unfold access_pieces. rewrite Hglobal. done. Qed.
(** The pieces of the active threads, in turn. *)
Definition asked ts : list piece := omap (fun t => if bool_decide (t ∈ w_active w) then pair t <$> address_of w t 0 else None) ts.
Lemma asked_requests ts p : p ∈ asked ts <-> requests w p /\ p.1 ∈ ts.
Proof using Hglobal.
  unfold asked, requests. rewrite atomic_pieces, list_elem_of_omap. cbn [snd]. split.
  - intros (t & Ht & Hp). destruct (bool_decide (t ∈ w_active w)) eqn:Ha; [|done]. apply bool_decide_eq_true in Ha. apply fmap_Some in Hp as (addr & Haddr & ->).
    split; [|done]. split; [done|]. exists 0. split; [lia|done].
  - intros ((Ha & k & Hk & Haddr) & Ht). exists p.1. split; [done|]. rewrite bool_decide_eq_true_2 by done. replace k with 0 in Haddr by lia. rewrite Haddr. by destruct p.
Qed.
Definition packed l (Ps : list (list piece)) : Prop := Forall2 (fun info P => holds size info P /\ P <> [] /\ exclusive size P) l Ps.

Lemma test_bits_ok (r : list Z) (s : gset Z) : (forall i, i ∈ r -> 0 <= i < MAX_MEMORY_ACCESS_SIZE) ->
  exists b, test_bits MAX_MEMORY_ACCESS_SIZE r s = Some b /\ (b = true <-> exists i, i ∈ r /\ i ∈ s).
Proof using Type.
  clear Hw Hglobal. induction r as [|i r IH]; intros Hr; cbn [test_bits]; [exists false; split; [done|]; split; [done|by intros (i & ?%not_elem_of_nil & _)]|].
  pose proof (Hr i ltac:(by left)). rewrite (proj2 (Z.leb_le 0 i)), (proj2 (Z.ltb_lt i _)) by lia. cbn [andb].
  destruct (bool_decide (i ∈ s)) eqn:Hi.
  - apply bool_decide_eq_true in Hi. exists true. split; [done|]. split; [|done]. intros _. exists i. split; [by left|done].
  - apply bool_decide_eq_false in Hi. destruct IH as (b & -> & Hb); [intros; apply Hr; by right|]. exists b. split; [done|]. rewrite Hb.
    split; intros (j & Hj & ?); exists j; (split; [|done]); [by right|]. apply elem_of_cons in Hj as [->|?]; done.
Qed.
Lemma place_ok p l Ps : requests w p -> packed l Ps ->
  exists l' Ps', place_atomic p.1 p.2 size l = Some l' /\ packed l' Ps' /\ mjoin Ps' ≡ₚ p :: mjoin Ps.
Proof using Hw Hglobal.
  intros Hp Hl. pose proof (requested_ok cfg w Hw p Hp) as Hok. pose proof (size_cases cfg w Hw) as Hs. rewrite atomic_pieces in Hok, Hs. cbn [fst] in Hok, Hs.
  pose proof (piece_inside size Hs p 128 Hok ltac:(auto)) as Hin. pose proof (Z.mod_pos_bound p.2 128).
  assert (forall (info : transaction_info) P, (holds size info P /\ forall b, byte_of size p b -> b ∉ bytes info) -> exists info',
    (info' ← join_transaction p.1 p.2 size info; assert! forallb (fun i => bool_decide ((Z.land p.2 127 + i) ∉ bytes info)) (seqZ 0 size); Some info') = Some info' /\
    holds size info' (p :: P)) as Hjoin.
  { intros info P [HP Hfree]. destruct (join_ok size Hs p info P Hok HP) as (info' & -> & Hi). cbn [mbind option_bind]. rewrite land_127.
    assert (forallb (fun i => bool_decide ((p.2 `mod` 128 + i) ∉ bytes info)) (seqZ 0 size) = true) as ->; [|by exists info'].
    apply forallb_forall. intros i Hi'%list_elem_of_In%elem_of_seqZ. apply bool_decide_eq_true, Hfree. unfold byte_of. lia. }
  induction Hl as [|info P l Ps (HP & HPne & HPx) Hl IH]; cbn [place_atomic].
  - destruct (Hjoin transaction_new []) as (info & -> & Hi); [split; [apply holds_new|intros b _; cbn; set_solver]|]. cbn [mbind option_bind].
    exists [info], [[p]]. split; [done|]. split; [|done]. constructor; [|constructor]. split; [done|]. split; [done|]. repeat constructor.
  - rewrite land_127, u32_small by lia. replace (p.2 `mod` 128 + size - 1 - p.2 `mod` 128 + 1) with size by lia.
    destruct (test_bits_ok (seqZ (p.2 `mod` 128) size) (bytes info)) as (b & -> & Hb).
    { intros i Hi%elem_of_seqZ. unfold MAX_MEMORY_ACCESS_SIZE. lia. }
    cbn [mbind option_bind]. destruct b.
    + destruct IH as (l' & Ps' & -> & Hl' & Hperm). cbn [mbind option_bind]. exists (info :: l'), (P :: Ps'). split; [done|].
      split; [by constructor|]. cbn. rewrite Hperm. by rewrite Permutation_middle.
    + assert (forall b, byte_of size p b -> b ∉ bytes info) as Hfree.
      { intros b Hb' Hin'. enough (false = true) by done. apply Hb. exists b. split; [apply elem_of_seqZ; unfold byte_of in Hb'; lia|done]. }
      destruct (Hjoin info P (conj HP Hfree)) as (info' & Hj & Hi). rewrite land_127 in Hj. rewrite Hj. cbn [mbind option_bind].
      exists (info' :: l), ((p :: P) :: Ps). split; [done|]. split; [|done]. constructor; [|done]. split; [done|]. split; [done|]. constructor; [|done].
      apply Forall_forall. intros q Hq b Hpb Hqb. apply (Hfree b Hpb). apply (hd_byte _ _ _ HP). by exists q.
Qed.

Record packed_map (m : gmap Z (list transaction_info)) P : Prop := {
  pk_some k l : m !! k = Some l -> exists Ps, packed l Ps /\ mjoin Ps ≡ₚ filter (fun p => segment_of w p.2 = k) P;
  pk_none k : m !! k = None -> filter (fun p => segment_of w p.2 = k) P = [] }.
Lemma coalesce_atomic_ok t m P : (t < MAX_WARP_SIZE)%nat -> packed_map m P ->
  exists m', coalesce_atomic w t m = Some m' /\ packed_map m' (P ++ asked [t]).
Proof using Hw Hglobal.
  intros Ht [M1 M2]. unfold coalesce_atomic, active, asked. rewrite (proj2 (Nat.ltb_lt _ _) Ht). cbn [mbind option_bind omap list_omap].
  destruct (bool_decide (t ∈ w_active w)) eqn:Hact; cbn [negb]; [|exists m; rewrite app_nil_r; done].
  apply bool_decide_eq_true in Hact. destruct (wk_address cfg w Hw t 0 Hact) as [addr Haddr]; [rewrite atomic_pieces; cbn; lia|]. rewrite Haddr. cbn [mbind option_bind fmap option_fmap option_map].
  assert (requests w (t, addr)) as Hp by (split; [done|]; exists 0; rewrite atomic_pieces; cbn; split; [lia|done]).
  pose proof (request_tag cfg w Hw (t, addr) Hp) as [E1 E2]. rewrite atomic_pieces in E2. cbn [fst snd] in E1, E2. rewrite E1, E2, Z.eqb_refl.
  set (k := segment_of w addr).
  assert (exists Ps, packed (from_option id [] (m !! k)) Ps /\ mjoin Ps ≡ₚ filter (fun p => segment_of w p.2 = k) P) as (Ps & HPs & Hperm).
  { destruct (m !! k) as [l|] eqn:Hk; cbn; [by apply M1|]. exists []. split; [constructor|]. by rewrite (M2 k Hk). }
  destruct (place_ok (t, addr) _ Ps Hp HPs) as (l' & Ps' & Hpl & Hl' & Hperm'). cbn [fst snd] in Hpl. rewrite Hpl. cbn [mbind option_bind].
  eexists. split; [done|]. split.
  - intros k' l. rewrite lookup_insert_Some, filter_app. intros [[<- <-]|[Hne Hk']].
    + exists Ps'. split; [done|]. rewrite filter_cons_True by done. cbn. rewrite Hperm', Hperm. by rewrite Permutation_app_comm.
    + destruct (M1 k' l Hk') as (Q & HQ & Hq). exists Q. split; [done|]. rewrite filter_cons_False by done. cbn. by rewrite app_nil_r.
  - intros k'. rewrite lookup_insert_None, filter_app. intros [Hk' Hne]. rewrite (M2 k' Hk'), filter_cons_False by done. done.
Qed.

(** *** The accesses of atomics *)
Record atomic_for (is_write : bool) (type : mem_access_type) (a : mem_access_t) P : Prop := {
  at_serves : serves size segment a P;
  at_exclusive : exclusive size P;
  at_type : a_type a = type /\ a_write a = is_write }.
Lemma send_packed is_write type k l Ps : packed l Ps -> (forall P p, P ∈ Ps -> p ∈ P -> requests w p /\ segment_of w p.2 = k) -> forall w', exists sent,
  each (fun info => memory_coalescing_arch_13_reduce_and_send is_write type segment (k, info)) l w' = Some (with_accesses (m_accessq w' ++ sent) w') /\
  Forall2 (atomic_for is_write type) sent Ps.
Proof using Hw Hglobal.
  pose proof (size_cases cfg w Hw) as Hs. rewrite atomic_pieces in Hs. cbn [fst] in Hs.
  intros Hl HP. induction Hl as [|info P l Ps (Hi & Hne & Hx) Hl IH]; intros w'; cbn [each].
  { exists []. rewrite app_nil_r. split; [by destruct w'|constructor]. }
  assert (forall p, p ∈ P -> requests w p /\ segment_of w p.2 = k) as HP1 by (intros p; apply HP; by left).
  assert (exists p, p ∈ P) as [p0 Hp0] by (destruct P as [|p P]; [done|exists p; by left]).
  destruct (HP1 p0 Hp0) as [Hr0 Hk0]. destruct (segment_place cfg w Hw p0 Hr0) as (Hd & H0 & Htop). rewrite Hk0 in Hd, H0, Htop.
  pose proof (request_within cfg w Hw P k HP1) as Hwithin. rewrite atomic_pieces in Hwithin.
  destruct (reduce_ok size Hs segment k info P w' is_write type (segment_cases cfg w Hw) Hd H0 Htop Hi Hne Hwithin) as (a & -> & Hsv & _ & _ & Hty & Hwr).
  cbn [mbind option_bind]. destruct (IH ltac:(intros Q q HQ; apply HP; by right) (with_accesses (m_accessq w' ++ [a]) w')) as (sent & -> & Hf).
  exists (a :: sent). split; [unfold with_accesses; cbn; by rewrite <-app_assoc|]. by constructor.
Qed.
Lemma by_segment (ks : list Z) : NoDup ks -> forall P, (forall p, p ∈ P -> segment_of w p.2 ∈ ks) ->
  (ks ≫= fun k => filter (fun p => segment_of w p.2 = k) P) ≡ₚ P.
Proof using Type.
  clear Hw Hglobal. induction 1 as [|k ks Hk Hks IH]; intros P HP; cbn [mbind list_bind].
  - destruct P as [|p P]; [done|]. destruct (not_elem_of_nil _ (HP p ltac:(by left))).
  - etransitivity; [|apply (filter_app_complement (fun p : piece => segment_of w p.2 = k) P)]. f_equiv.
    rewrite <-(IH (filter (fun p => ~ segment_of w p.2 = k) P)).
    + clear IH HP Hks. induction ks as [|x ks IH]; [done|]. apply not_elem_of_cons in Hk as [Hkx Hk]. cbn [mbind list_bind]. rewrite (IH Hk). f_equiv.
      rewrite list_filter_filter. assert (filter (fun p => segment_of w p.2 = x) P = filter (fun p => segment_of w p.2 = x /\ segment_of w p.2 <> k) P) as ->; [|done].
      apply list_filter_iff. intros p. split; [intros <-; split; [done|congruence]|by intros [? _]].
    + intros p [Hp Hin]%list_elem_of_filter. apply HP in Hin as [?|?]%elem_of_cons; done.
Qed.
Lemma send_packed_map is_write type m P (entries : list (Z * list transaction_info)) : packed_map m P -> (forall p, p ∈ P -> requests w p) ->
  (forall e, e ∈ entries -> m !! e.1 = Some e.2) -> forall w', exists sent Ps,
  each (fun p : Z * list transaction_info => each (fun info => memory_coalescing_arch_13_reduce_and_send is_write type segment (p.1, info)) p.2) entries w' =
    Some (with_accesses (m_accessq w' ++ sent) w') /\ Forall2 (atomic_for is_write type) sent Ps /\
  mjoin Ps ≡ₚ (entries.*1 ≫= fun k => filter (fun p => segment_of w p.2 = k) P).
Proof using Hw Hglobal.
  intros [M1 _] HPr Hin. induction entries as [|[k l] entries IH]; intros w'; cbn [each].
  { exists [], []. rewrite app_nil_r. split; [by destruct w'|]. split; [constructor|done]. }
  destruct (M1 k l (Hin (k, l) ltac:(by left))) as (Qs & Hl & Hq). cbn [fst snd].
  destruct (send_packed is_write type k l Qs Hl) with (w' := w') as (sent & -> & Hf).
  { intros Q p HQ Hp. assert (p ∈ mjoin Qs) as Hj by (apply list_elem_of_join; by exists Q). rewrite Hq in Hj. apply list_elem_of_filter in Hj as [? ?]. by split; [apply HPr|]. }
  cbn [mbind option_bind]. destruct (IH ltac:(intros; apply Hin; by right) (with_accesses (m_accessq w' ++ sent) w')) as (sent' & Ps & -> & Hf' & Hj).
  exists (sent ++ sent'), (Qs ++ Ps). split; [unfold with_accesses; cbn; by rewrite <-app_assoc|]. split; [by apply Forall2_app|].
  rewrite join_app. cbn [fmap list_fmap mbind list_bind fst]. by rewrite Hq, Hj.
Qed.
Lemma atomic_subwarp_ok is_write type i q :
  (forall t, t ∈ subwarp_threads cfg 2 i -> (t < MAX_WARP_SIZE)%nat) ->
  exists sent Ps, atomic_subwarp cfg is_write type i (with_accesses q w) = Some (with_accesses (q ++ sent) w) /\
    Forall2 (atomic_for is_write type) sent Ps /\ mjoin Ps ≡ₚ asked (subwarp_threads cfg 2 i).
Proof using Hw Hglobal.
  intros Hts. unfold atomic_subwarp. change (each (coalesce_atomic (with_accesses q w))) with (each (coalesce_atomic w)).
  destruct (each_grows (coalesce_atomic w) (fun done m => packed_map m (asked done)) (subwarp_threads cfg 2 i) [] ∅) as (m & -> & Hm).
  - split; [intros k l ?|]; done.
  - intros t done m Ht Hm. destruct (coalesce_atomic_ok t m _ (Hts t Ht) Hm) as (m' & Hs & Hm'). exists m'. split; [done|].
    unfold asked in *. by rewrite omap_app.
  - cbn [app mbind option_bind] in *.
    destruct (send_packed_map is_write type m _ (in_order m) Hm) with (w' := with_accesses q w) as (sent & Ps & Hs & Hf & Hj).
    + intros p [Hp _]%asked_requests. done.
    + intros [k l] He. by apply elem_of_in_order in He.
    + exists sent, Ps. split; [exact Hs|]. split; [done|]. rewrite Hj. apply by_segment; [apply in_order_keys|]. intros p Hp.
      destruct (m !! segment_of w p.2) as [l|] eqn:Hl.
      * apply elem_of_in_order in Hl. apply list_elem_of_fmap. by exists (segment_of w p.2, l).
      * pose proof (pk_none _ _ Hm _ Hl) as Hn. assert (p ∈ filter (fun q => segment_of w q.2 = segment_of w p.2) (asked (subwarp_threads cfg 2 i))) as Hf'
          by (by apply list_elem_of_filter). rewrite Hn in Hf'. by apply not_elem_of_nil in Hf'.
Qed.
Lemma atomics_ok is_write type : exists sent Ps,
  memory_coalescing_arch_13_atomic cfg is_write type w = Some (with_accesses (m_accessq w ++ sent) w) /\
  Forall2 (atomic_for is_write type) sent Ps /\ mjoin Ps ≡ₚ asked (subwarp_threads cfg 2 0) ++ asked (subwarp_threads cfg 2 1).
Proof using Hw Hglobal.
  unfold memory_coalescing_arch_13_atomic. rewrite bool_decide_eq_true_2 by done. cbn [seq each].
  destruct (atomic_subwarp_ok is_write type 0 (m_accessq w)) as (s0 & P0 & E0 & F0 & J0); [intros t; apply (subwarp_bound cfg 2); [apply Hw|lia]|].
  destruct (atomic_subwarp_ok is_write type 1 (m_accessq w ++ s0)) as (s1 & P1 & E1 & F1 & J1); [intros t; apply (subwarp_bound cfg 2); [apply Hw|lia]|].
  assert (with_accesses (m_accessq w) w = w) as Hid by by destruct w. rewrite Hid in E0. rewrite E0. cbn [mbind option_bind]. rewrite E1. cbn [mbind option_bind].
  exists (s0 ++ s1), (P0 ++ P1). split; [by rewrite app_assoc|]. split; [by apply Forall2_app|]. by rewrite join_app, J0, J1.
Qed.
End atomics.

(** ** Shared memory *)
#[export] Instance total_proper : Proper ((≡ₚ) ==> (=)) total.
Proof. intros l k. apply total_perm. Qed.
Section shared.
Variables (cfg : core_config) (w : warp_inst_t).
Hypothesis Hw : warp_ok cfg w.
Hypothesis Hbanks : 0 < num_shmem_bank cfg.
Implicit Types (m : gmap Z (gmap Z Z)) (words : gmap Z Z) (ts : list nat) (b : Z).

(** The bank and the word a thread touches. *)
Definition touched t : option (Z * Z) :=
  if bool_decide (t ∈ w_active w) then
    addr ← address_of w t 0; Some ((u32 addr / WORD_SIZE) `mod` num_shmem_bank cfg, line_size_based_tag_func addr WORD_SIZE)
  else None.
(** The words of a bank that a half-warp touches. *)
Definition words_at ts b : gset Z := list_to_set (omap (fun t => match touched t with Some (b', x) => if b' =? b then Some x else None | None => None end) ts).
Definition sum_of words : Z := foldr Z.add 0 (snd <$> in_order words).

Lemma sum_of_perm words : sum_of words = total (snd <$> map_to_list words).
Proof using Type. clear Hw Hbanks. unfold sum_of. change (foldr Z.add 0 (snd <$> in_order words)) with (total (snd <$> in_order words)). apply total_perm. unfold in_order. by rewrite merge_sort_Permutation. Qed.
Lemma sum_of_insert words x n : sum_of (<[x := n]> words) = sum_of words - from_option id 0 (words !! x) + n.
Proof using Type.
  clear Hw Hbanks. rewrite !sum_of_perm. rewrite <-insert_delete_eq. rewrite map_to_list_insert by apply lookup_delete_eq. csimpl. unfold total at 1. cbn.
  change (foldr Z.add 0 (snd <$> map_to_list (delete x words))) with (total (snd <$> map_to_list (delete x words))).
  destruct (words !! x) as [k|] eqn:Hx; cbn.
  - rewrite <-(total_perm _ _ (fmap_Permutation snd _ _ (map_to_list_delete words x k Hx))). csimpl. unfold total. cbn. lia.
  - rewrite delete_id by done. lia.
Qed.
Record counted m ts : Prop := {
  ct_words b words : m !! b = Some words -> words <> ∅ /\ dom words = words_at ts b;
  ct_none b : m !! b = None -> words_at ts b = ∅;
  ct_counts b words x n : m !! b = Some words -> words !! x = Some n -> 1 <= n <= sum_of words;
  ct_sum b words : m !! b = Some words -> Z.of_nat (size words) <= sum_of words <= Z.of_nat (length ts) }.
Lemma words_at_app ts ts' b : words_at (ts ++ ts') b = words_at ts b ∪ words_at ts' b.
Proof using Type. clear Hw Hbanks. unfold words_at. by rewrite omap_app, list_to_set_app_L. Qed.
Lemma count_bank_ok t m ts : (t < MAX_WARP_SIZE)%nat -> counted m ts -> exists m', count_bank cfg w t m = Some m' /\ counted m' (ts ++ [t]).
Proof using Hw Hbanks.
  intros Ht [C1 C2 C3 C4]. unfold count_bank, active, shmem_bank_func. rewrite (proj2 (Nat.ltb_lt _ _) Ht). cbn [mbind option_bind].
  assert (forall b words, m !! b = Some words -> Z.of_nat (size words) <= sum_of words <= Z.of_nat (length (ts ++ [t]))) as C4'.
  { intros b words Hb. rewrite length_app. pose proof (C4 b words Hb). cbn. lia. }
  destruct (bool_decide (t ∈ w_active w)) eqn:Hact; cbn [negb].
  - pose proof Hact as Hin. apply bool_decide_eq_true in Hin. pose proof (pieces_range cfg w Hw).
    destruct (wk_address cfg w Hw t 0 Hin) as [addr Haddr]; [lia|]. rewrite Haddr. cbn [mbind option_bind]. rewrite (proj2 (Z.eqb_neq (num_shmem_bank cfg) 0)) by lia.
    cbn [negb mbind option_bind]. set (bank := (u32 addr / WORD_SIZE) `mod` num_shmem_bank cfg). set (x := line_size_based_tag_func addr WORD_SIZE).
    assert (forall b, words_at [t] b = if bank =? b then {[x]} else ∅) as Hone.
    { intros b. unfold words_at, touched. cbn [omap list_omap]. rewrite Hact, Haddr. cbn [mbind option_bind]. fold bank x. destruct (bank =? b); cbn; set_solver. }
    eexists. split; [done|]. set (words0 := from_option id ∅ (m !! bank)).
    assert (dom words0 = words_at ts bank) as Hdom by (unfold words0; destruct (m !! bank) as [ws|] eqn:Hb; cbn; [by apply C1|by rewrite (C2 _ Hb)]).
    assert (Z.of_nat (size words0) <= sum_of words0 <= Z.of_nat (length ts)) as Hsum0 by (unfold words0; destruct (m !! bank) as [ws|] eqn:Hb; cbn; [by eapply C4|]; rewrite map_size_empty, sum_of_perm, map_to_list_empty; cbn; lia).
    assert (forall y n, words0 !! y = Some n -> 1 <= n <= sum_of words0) as Hcnt0.
    { unfold words0. destruct (m !! bank) as [ws|] eqn:Hb; cbn; [intros y n; by apply (C3 bank)|done]. }
    assert (0 <= from_option id 0 (words0 !! x)) as Hnn by (destruct (words0 !! x) as [n|] eqn:Hx; cbn; [pose proof (Hcnt0 _ _ Hx); lia|lia]).
    split.
    + intros b words. rewrite words_at_app, Hone. intros [[<- <-]|[Hne Hb]]%lookup_insert_Some.
      * rewrite Z.eqb_refl. split; [apply insert_non_empty|]. rewrite dom_insert_L, Hdom. set_solver.
      * rewrite (proj2 (Z.eqb_neq _ _) Hne), union_empty_r_L. by apply C1.
    + intros b. rewrite words_at_app, Hone. intros [Hb Hne]%lookup_insert_None. rewrite (proj2 (Z.eqb_neq _ _) Hne), union_empty_r_L. by apply C2.
    + intros b words y n [[<- <-]|[Hne Hb]]%lookup_insert_Some; [|by apply (C3 b)]. rewrite sum_of_insert.
      intros [[<- <-]|[Hyx Hy]]%lookup_insert_Some; [|pose proof (Hcnt0 y n Hy); lia]. destruct (words0 !! x) as [k|] eqn:Hx; cbn in *; [pose proof (Hcnt0 x k Hx); lia|lia].
    + intros b words [[<- <-]|[Hne Hb]]%lookup_insert_Some; [|by apply (C4' b)]. rewrite sum_of_insert, length_app. cbn [length].
      destruct (words0 !! x) as [k|] eqn:Hx; cbn [from_option id] in *; [rewrite map_size_insert_Some by (by eexists); lia|rewrite map_size_insert_None by done; lia].
  - exists m. split; [done|]. assert (forall b, words_at (ts ++ [t]) b = words_at ts b) as He.
    { intros b. rewrite words_at_app. unfold words_at at 2, touched. cbn [omap list_omap]. rewrite Hact. cbn. by rewrite union_empty_r_L. }
    split; [intros b words; rewrite He; apply C1|intros b; rewrite He; apply C2|done|done].
Qed.

(** The threads of a half-warp that touch a word of a bank, and those that touch the bank. *)
Definition sharers ts b x : Z := Z.of_nat (length (filter (fun t => touched t = Some (b, x)) ts)).
Definition loads_of ts b : Z := Z.of_nat (length (filter (fun t => fst <$> touched t = Some b) ts)).
Definition words_of m b : gmap Z Z := from_option id ∅ (m !! b).
Definition exact m ts : Prop := forall b,
  (forall x, from_option id 0 (words_of m b !! x) = sharers ts b x) /\ sum_of (words_of m b) = loads_of ts b.
Lemma words_of_insert m b b' ws : words_of (<[b := ws]> m) b' = if decide (b = b') then ws else words_of m b'.
Proof using Type.
  clear Hw Hbanks. unfold words_of. destruct (decide (b = b')) as [<-|Hne]; [by rewrite lookup_insert_eq|by rewrite lookup_insert_ne].
Qed.
Lemma exact_new : exact ∅ [].
Proof using Type. clear Hw Hbanks. intros b. unfold words_of. rewrite lookup_empty. split; [intros x; cbn; by rewrite lookup_empty|done]. Qed.
Lemma count_bank_exact t m m' ts : (t < MAX_WARP_SIZE)%nat -> exact m ts -> count_bank cfg w t m = Some m' -> exact m' (ts ++ [t]).
Proof using Hbanks.
  intros Ht Hm. unfold count_bank, active, shmem_bank_func. rewrite (proj2 (Nat.ltb_lt _ _) Ht). cbn [mbind option_bind].
  rewrite (proj2 (Z.eqb_neq (num_shmem_bank cfg) 0)) by lia. cbn [negb].
  assert (forall b x, sharers (ts ++ [t]) b x = sharers ts b x + (if decide (touched t = Some (b, x)) then 1 else 0)) as Hsh.
  { intros b x. unfold sharers. rewrite filter_app, length_app, filter_cons. destruct (decide _); cbn; lia. }
  assert (forall b, loads_of (ts ++ [t]) b = loads_of ts b + (if decide (fst <$> touched t = Some b) then 1 else 0)) as Hlo.
  { intros b. unfold loads_of. rewrite filter_app, length_app, filter_cons. destruct (decide _); cbn; lia. }
  destruct (bool_decide (t ∈ w_active w)) eqn:Hact; cbn [negb].
  - destruct (address_of w t 0) as [addr|] eqn:Haddr; [|done]. cbn [mbind option_bind]. intros [= <-].
    assert (touched t = Some ((u32 addr / WORD_SIZE) `mod` num_shmem_bank cfg, line_size_based_tag_func addr WORD_SIZE)) as Htouch
      by (unfold touched; rewrite Hact, Haddr; done).
    rewrite Htouch in Hsh, Hlo. set (bank := (u32 addr / WORD_SIZE) `mod` num_shmem_bank cfg) in *. set (x := line_size_based_tag_func addr WORD_SIZE) in *.
    fold (words_of m bank). intros b. rewrite Hlo. setoid_rewrite Hsh. destruct (Hm b) as [Hc Hs]. rewrite words_of_insert. destruct (decide (bank = b)) as [<-|Hne].
    + split.
      * intros y. destruct (decide (x = y)) as [<-|Hy].
        -- rewrite lookup_insert_eq, decide_True by done. cbn [from_option]. by rewrite Hc.
        -- rewrite lookup_insert_ne by done. rewrite decide_False by congruence. rewrite Hc. lia.
      * rewrite decide_True by done. rewrite sum_of_insert, Hs. lia.
    + split.
      * intros y. rewrite decide_False by congruence. rewrite Hc. lia.
      * rewrite decide_False by (cbn; congruence). rewrite Hs. lia.
  - intros [= <-]. assert (touched t = None) as Htouch by (unfold touched; by rewrite Hact). rewrite Htouch in Hsh, Hlo.
    intros b. rewrite Hlo. setoid_rewrite Hsh. destruct (Hm b) as [Hc Hs]. split; [intros x; rewrite Hc|rewrite Hs]; rewrite decide_False by done; lia.
Qed.

(** The word that is broadcast: of the words that more than one thread touches, the lowest of the lowest
    bank. Every other access to a bank takes a cycle. *)
Definition broadcast_rule ts (bc : option (Z * Z)) : Prop :=
  match bc with
  | Some (b, x) => 1 < sharers ts b x /\ forall b' x', 1 < sharers ts b' x' -> b < b' \/ b' = b /\ x <= x'
  | None => forall b x, sharers ts b x <= 1
  end.
Definition broadcast_cost ts (bc : option (Z * Z)) b : Z :=
  loads_of ts b - match bc with Some (b', x) => if b' =? b then sharers ts b' x - 1 else 0 | None => 0 end.
Lemma in_order_sorted {V} (l : gmap Z V) : StronglySorted by_key (in_order l).
Proof using Type.
  clear Hw Hbanks. unfold in_order. apply StronglySorted_merge_sort; unfold by_key; [intros ? ? ?; lia|intros x y; lia].
Qed.
Lemma find_word_first (l : list (Z * Z)) : StronglySorted by_key l ->
  match find_word l with
  | Some x => (exists n, (x, n) ∈ l /\ 1 < n) /\ forall y k, (y, k) ∈ l -> 1 < k -> x <= y
  | None => forall y k, (y, k) ∈ l -> k <= 1
  end.
Proof using Type.
  clear Hw Hbanks. induction 1 as [|[y k] l Hs IH Hall]; cbn [find_word]; [by intros ? ? ?%not_elem_of_nil|]. rewrite Forall_forall in Hall.
  destruct (Z.ltb_spec 1 k) as [Hk|Hk].
  - split; [exists k; split; [by left|done]|]. intros y' k' [[= -> ->]|Hin]%elem_of_cons _; [lia|]. exact (Hall _ Hin).
  - destruct (find_word l) as [x|].
    + destruct IH as [(n & ? & ?) Hmin]. split; [exists n; split; [by right|done]|]. intros y' k' [[= -> ->]|Hin]%elem_of_cons Hk'; [lia|by eapply Hmin].
    + intros y' k' [[= -> ->]|Hin]%elem_of_cons; [done|by eapply IH].
Qed.
Lemma find_broadcast_first (l : list (Z * gmap Z Z)) : StronglySorted by_key l ->
  match find_broadcast l with
  | Some (b, x) => (exists words, (b, words) ∈ l /\ find_word (in_order words) = Some x) /\
      forall b' words, (b', words) ∈ l -> find_word (in_order words) <> None -> b <= b'
  | None => forall b words, (b, words) ∈ l -> find_word (in_order words) = None
  end.
Proof using Type.
  clear Hw Hbanks. induction 1 as [|[b words] l Hs IH Hall]; cbn [find_broadcast]; [by intros ? ? ?%not_elem_of_nil|]. rewrite Forall_forall in Hall.
  destruct (find_word (in_order words)) as [x|] eqn:Hf.
  - split; [exists words; split; [by left|done]|]. intros b' words' [[= -> ->]|Hin]%elem_of_cons _; [lia|]. exact (Hall _ Hin).
  - destruct (find_broadcast l) as [[b' x]|].
    + destruct IH as [(ws & ? & ?) Hmin]. split; [exists ws; split; [by right|done]|]. intros b1 w1 [[= -> ->]|Hin]%elem_of_cons Hw1; [congruence|by eapply Hmin].
    + intros b1 w1 [[= -> ->]|Hin]%elem_of_cons; [done|by eapply IH].
Qed.
Lemma shared_word m ts b x : exact m ts -> 1 < sharers ts b x -> exists words, m !! b = Some words /\ words !! x = Some (sharers ts b x).
Proof using Type.
  clear Hw Hbanks. intros Hm. destruct (Hm b) as [Hc _]. rewrite <- Hc. unfold words_of. destruct (m !! b) as [words|]; cbn; unfold id; [|by rewrite lookup_empty].
  destruct (words !! x) as [n|] eqn:Hx; cbn; unfold id; [|lia]. intros _. by exists words.
Qed.
Lemma find_broadcast_rule m ts : exact m ts -> broadcast_rule ts (find_broadcast (in_order m)).
Proof using Type.
  clear Hw Hbanks. intros Hm. pose proof (find_broadcast_first (in_order m) (in_order_sorted m)) as Hb.
  assert (forall b words x n, m !! b = Some words -> words !! x = Some n -> sharers ts b x = n) as Hn.
  { intros b words x n Hmb Hx. destruct (Hm b) as [Hc _]. rewrite <- Hc. unfold words_of. by rewrite Hmb; cbn; unfold id; rewrite Hx. }
  assert (forall b x words, m !! b = Some words -> 1 < sharers ts b x -> match find_word (in_order words) with Some y => y <= x | None => False end) as Hword.
  { intros b x words Hmb Hlt. destruct (shared_word m ts b x Hm Hlt) as (ws & Hws & Hx). assert (ws = words) as -> by congruence.
    pose proof (find_word_first _ (in_order_sorted words)) as Hf. apply elem_of_in_order in Hx. destruct (find_word (in_order words)); [by eapply Hf|]. specialize (Hf _ _ Hx). lia. }
  destruct (find_broadcast (in_order m)) as [[b x]|]; cbn [broadcast_rule].
  - destruct Hb as [(words & Hin%elem_of_in_order & Hf) Hmin]. pose proof (find_word_first _ (in_order_sorted words)) as Hfirst. rewrite Hf in Hfirst.
    destruct Hfirst as [(n & Hx%elem_of_in_order & Hlt) _]. rewrite (Hn b words x n Hin Hx). split; [done|]. intros b' x' Hlt'.
    destruct (shared_word m ts b' x' Hm Hlt') as (words' & Hws & _). specialize (Hword b' x' words' Hws Hlt').
    assert (b <= b') as Hle by (apply (Hmin b' words'); [by apply elem_of_in_order|by destruct (find_word (in_order words'))]).
    destruct (decide (b = b')) as [<-|]; [right|left; lia]. split; [done|]. assert (words' = words) as -> by congruence. by rewrite Hf in Hword.
  - intros b x. destruct (Z.le_gt_cases (sharers ts b x) 1) as [?|Hlt]; [done|]. destruct (shared_word m ts b x Hm) as (words & Hws & _); [lia|].
    specialize (Hword b x words Hws ltac:(lia)). rewrite (Hb b words) in Hword by by apply elem_of_in_order. done.
Qed.
Lemma bank_accesses_exact m ts b words n : exact m ts -> m !! b = Some words ->
  bank_accesses (find_broadcast (in_order m)) b words = Some n -> n = broadcast_cost ts (find_broadcast (in_order m)) b.
Proof using Type.
  clear Hw Hbanks. intros Hm Hb. pose proof (find_broadcast_rule m ts Hm) as Hrule. destruct (Hm b) as [Hc Hs]. unfold words_of in *. rewrite Hb in *. cbn in Hc, Hs. unfold id in *.
  unfold bank_accesses, broadcast_cost. fold (sum_of words). rewrite Hs. destruct (find_broadcast (in_order m)) as [[bb x]|]; [|intros [= <-]; lia].
  destruct (Z.eqb_spec bb b) as [->|]; [|intros [= <-]; lia]. destruct Hrule as [Hlt _]. rewrite <- Hc in *. destruct (words !! x) as [k|]; [|cbn in Hlt; lia]. cbn.
  destruct (1 <? k); [|done]. destruct (k - 1 <=? loads_of ts b); [|done]. intros [= <-]. done.
Qed.

(** *** The most loaded bank *)
Definition worst ts (n : Z) : Prop :=
  (forall b, Z.of_nat (size (words_at ts b)) <= n) /\ (n = 0 \/ exists b, Z.of_nat (size (words_at ts b)) = n).
Definition worst_broadcast ts (n : Z) : Prop :=
  exists bc, broadcast_rule ts bc /\ (forall b, broadcast_cost ts bc b <= n) /\ (n = 0 \/ exists b, broadcast_cost ts bc b = n).
Definition half_warp_cycles ts (n : Z) : Prop := if shmem_limited_broadcast cfg then worst_broadcast ts n else worst ts n.
Lemma max_list (l : list Z) : (forall x, x ∈ l -> x <= foldr Z.max 0 l) /\ (foldr Z.max 0 l = 0 \/ foldr Z.max 0 l ∈ l).
Proof using Type.
  clear Hw Hbanks. induction l as [|y l [IH1 IH2]]; cbn [foldr]; [split; [by intros x ?%not_elem_of_nil|by left]|]. split.
  - intros x [->|Hx]%elem_of_cons; [lia|]. specialize (IH1 x Hx). lia.
  - destruct (Z.max_spec y (foldr Z.max 0 l)) as [[_ ->]|[_ ->]]; [destruct IH2; [by left|right; by right]|right; by left].
Qed.
Lemma find_word_spec (l : list (Z * Z)) x : find_word l = Some x -> exists n, (x, n) ∈ l /\ 1 < n.
Proof using Type.
  clear Hw Hbanks. induction l as [|[y k] l IH]; cbn [find_word]; [done|]. destruct (Z.ltb_spec 1 k); [intros [= <-]; exists k; split; [by left|done]|].
  intros Hx. destruct (IH Hx) as (n & ? & ?). exists n. split; [by right|done].
Qed.
Lemma find_broadcast_spec (l : list (Z * gmap Z Z)) b x : find_broadcast l = Some (b, x) -> exists words n, (b, words) ∈ l /\ words !! x = Some n /\ 1 < n.
Proof using Type.
  clear Hw Hbanks. induction l as [|[y ws] l IH]; cbn [find_broadcast]; [done|]. destruct (find_word (in_order ws)) as [z|] eqn:Hf.
  - intros [= -> ->]. destruct (find_word_spec _ _ Hf) as (n & Hn%elem_of_in_order & ?). exists ws, n. split; [by left|done].
  - intros Hx. destruct (IH Hx) as (words & n & ? & ?). exists words, n. split; [by right|done].
Qed.
Lemma bank_accesses_ok m ts b words : counted m ts -> m !! b = Some words ->
  exists n, bank_accesses (find_broadcast (in_order m)) b words = Some n /\ 1 <= n <= Z.of_nat (length ts).
Proof using Type.
  clear Hw Hbanks. intros [C1 C2 C3 C4] Hb. unfold bank_accesses. fold (sum_of words). pose proof (C4 b words Hb).
  assert (1 <= sum_of words) as Hpos.
  { destruct (C1 b words Hb) as [Hne _]. apply map_choose in Hne as (x & n & Hx). pose proof (C3 b words x n Hb Hx). lia. }
  destruct (find_broadcast (in_order m)) as [[bb bw]|] eqn:Hf; [|exists (sum_of words); split; [done|lia]].
  destruct (Z.eqb_spec bb b) as [->|]; [|exists (sum_of words); split; [done|lia]].
  destruct (find_broadcast_spec _ _ _ Hf) as (ws & n & Hin%elem_of_in_order & Hn & Hlt). assert (ws = words) as -> by congruence. rewrite Hn.
  rewrite (proj2 (Z.ltb_lt 1 n)) by done. pose proof (C3 b words bw n Hb Hn). rewrite (proj2 (Z.leb_le (n - 1) _)) by lia. eexists. split; [done|lia].
Qed.
Lemma loop_max (f : Z * gmap Z Z -> option Z) (top : Z) l : forall acc, 0 <= acc <= top -> (forall e, e ∈ l -> exists n, f e = Some n /\ 1 <= n <= top) ->
  exists r, each (fun e (x : Z) => n ← f e; Some (Z.max x n)) l acc = Some r /\ acc <= r <= top /\ (l <> [] -> 1 <= r) /\
    (forall e n, e ∈ l -> f e = Some n -> n <= r) /\ (r = acc \/ exists e, e ∈ l /\ f e = Some r).
Proof using Type.
  clear Hw Hbanks. induction l as [|e l IH]; intros acc Hacc Hf; cbn [each].
  { exists acc. split; [done|]. split; [lia|]. split; [done|]. split; [by intros e n ?%not_elem_of_nil|by left]. }
  destruct (Hf e ltac:(by left)) as (n & Hfe & Hn). rewrite Hfe. cbn [mbind option_bind].
  destruct (IH (Z.max acc n)) as (r & -> & Hr & _ & Hall & Hatt); [lia|intros; apply Hf; by right|].
  exists r. split; [done|]. split; [lia|]. split; [lia|]. split.
  - intros e' n' [->|Hin]%elem_of_cons He'; [rewrite Hfe in He'; injection He' as <-; lia|by eapply Hall].
  - destruct Hatt as [->|(e' & ? & ?)]; [|right; exists e'; split; [by right|done]].
    destruct (Z.max_spec acc n) as [[_ ->]|[_ ->]]; [right; exists e; split; [by left|done]|by left].
Qed.
Lemma worst_of_loop m ts n : exact m ts -> 0 <= n ->
  (forall e k, e ∈ in_order m -> bank_accesses (find_broadcast (in_order m)) e.1 e.2 = Some k -> k <= n) ->
  (forall e, e ∈ in_order m -> exists k, bank_accesses (find_broadcast (in_order m)) e.1 e.2 = Some k) ->
  (n = 0 \/ exists e, e ∈ in_order m /\ bank_accesses (find_broadcast (in_order m)) e.1 e.2 = Some n) -> worst_broadcast ts n.
Proof using Type.
  clear Hw Hbanks. intros Hm H0 Hle Htot Hatt. exists (find_broadcast (in_order m)). pose proof (find_broadcast_rule m ts Hm) as Hrule. split; [done|]. split.
  - intros b. destruct (m !! b) as [words|] eqn:Hb.
    + assert ((b, words) ∈ in_order m) as Hin by by apply elem_of_in_order. destruct (Htot _ Hin) as [k Hk].
      pose proof (Hle _ _ Hin Hk). by rewrite <- (bank_accesses_exact m ts b words k Hm Hb Hk).
    + unfold broadcast_cost. destruct (Hm b) as [_ Hs]. unfold words_of in Hs. rewrite Hb in Hs. cbn in Hs. unfold id in Hs. rewrite <- Hs.
      destruct (find_broadcast (in_order m)) as [[b' x]|]; [|rewrite sum_of_perm, map_to_list_empty; cbn; lia].
      destruct (Z.eqb_spec b' b) as [->|]; [|rewrite sum_of_perm, map_to_list_empty; cbn; lia].
      destruct Hrule as [Hlt _]. destruct (shared_word m ts b x Hm Hlt) as (ws & ? & _). congruence.
  - destruct Hatt as [->|([b words] & Hin & Hk)]; [by left|right]. exists b. apply elem_of_in_order in Hin as Hb. symmetry. by eapply bank_accesses_exact.
Qed.
Lemma max_ok m ts : counted m ts -> exact m ts -> exists n, max_bank_accesses cfg m = Some n /\ 0 <= n <= Z.of_nat (length ts) /\
  ((exists b, words_at ts b <> ∅) -> 1 <= n) /\ half_warp_cycles ts n.
Proof using Type.
  clear Hw Hbanks. intros Hm Hex. unfold half_warp_cycles. pose proof Hm as [C1 C2 C3 C4]. unfold max_bank_accesses.
  assert ((exists b, words_at ts b <> ∅) -> exists b words, m !! b = Some words) as Hne.
  { intros [b Hb]. destruct (m !! b) as [words|] eqn:Hmb; [by exists b, words|]. by rewrite (C2 b Hmb) in Hb. }
  destruct (shmem_limited_broadcast cfg).
  - destruct (loop_max (fun e => bank_accesses (find_broadcast (in_order m)) e.1 e.2) (Z.of_nat (length ts)) (in_order m) 0) as (n & -> & Hn & Hpos & Hall & Hatt).
    + lia.
    + intros [b words] Hin%elem_of_in_order. by apply (bank_accesses_ok m ts).
    + assert (forall e, e ∈ in_order m -> exists k, bank_accesses (find_broadcast (in_order m)) e.1 e.2 = Some k) as Htot.
      { intros [b words] Hin%elem_of_in_order. destruct (bank_accesses_ok m ts b words Hm Hin) as (k & ? & _). by exists k. }
      exists n. split; [done|]. split; [lia|]. split; [|apply (worst_of_loop m ts n Hex ltac:(lia) Hall Htot Hatt)]. intros (b & words & Hb)%Hne. apply Hpos. apply elem_of_in_order in Hb. intros Hz. rewrite Hz in Hb. by apply not_elem_of_nil in Hb.
  - set (l := (fun p : Z * gmap Z Z => Z.of_nat (size p.2)) <$> in_order m). pose proof (max_list l) as [M1 M2].
    assert (forall b words, m !! b = Some words -> Z.of_nat (size words) <= foldr Z.max 0 l) as Hle.
    { intros b words Hb. apply M1, list_elem_of_fmap. exists (b, words). split; [done|by apply elem_of_in_order]. }
    assert (foldr Z.max 0 l = 0 \/ exists b words, m !! b = Some words /\ foldr Z.max 0 l = Z.of_nat (size words)) as Hatt.
    { destruct M2 as [?|Hin]; [by left|right]. apply list_elem_of_fmap in Hin as ([b words] & He & Hin%elem_of_in_order). by exists b, words. }
    exists (foldr Z.max 0 l). split; [done|]. split; [|split].
    + destruct Hatt as [->|(b & words & Hb & ->)]; [lia|]. pose proof (C4 b words Hb). lia.
    + intros (b & words & Hb)%Hne. pose proof (Hle b words Hb). destruct (C1 b words Hb) as [Hne' _].
      assert (size words <> 0%nat) by (intros Hz; by apply map_size_empty_iff in Hz). lia.
    + split.
      * intros b. destruct (m !! b) as [words|] eqn:Hb; [destruct (C1 b words Hb) as [_ <-]; rewrite size_dom; by eapply Hle|rewrite (C2 b Hb), size_empty; destruct Hatt as [->|(? & ? & _ & ->)]; lia].
      * destruct Hatt as [?|(b & words & Hb & ->)]; [by left|right; exists b]. destruct (C1 b words Hb) as [_ <-]. by rewrite size_dom.
Qed.

(** *** The cycles of an access to shared memory *)
Lemma shared_subwarp_ok i total : (i < mem_warp_parts cfg)%nat -> exists n, shared_subwarp cfg w i total = Some (total + n) /\
  0 <= n <= Z.of_nat (warp_size cfg / mem_warp_parts cfg) /\ ((exists t, t ∈ subwarp_threads cfg (mem_warp_parts cfg) i /\ t ∈ w_active w) -> 1 <= n) /\
  half_warp_cycles (subwarp_threads cfg (mem_warp_parts cfg) i) n.
Proof using Hw Hbanks.
  intros Hi. unfold shared_subwarp. set (ts := subwarp_threads cfg (mem_warp_parts cfg) i).
  destruct (each_grows (count_bank cfg w) (fun done m => counted m done /\ exact m done) ts [] ∅) as (m & -> & Hm & Hex).
  - split; [|apply exact_new]. split; [done| |done|done]. intros b _. done.
  - intros t done m Ht [Hm Hex]. assert (t < MAX_WARP_SIZE)%nat as Htb by (eapply subwarp_bound; [apply Hw|exact Hi|exact Ht]).
    destruct (count_bank_ok t m done Htb Hm) as (m' & Hc & Hm'). exists m'. split; [done|]. split; [done|]. by eapply count_bank_exact.
  - cbn [app mbind option_bind] in *. destruct (max_ok m ts Hm Hex) as (n & -> & Hn & Hpos & Hworst). cbn [mbind option_bind]. exists n. split; [done|].
    split; [unfold ts, subwarp_threads in Hn; rewrite length_seq in Hn; lia|]. split; [|done]. intros (t & Ht & Hact). apply Hpos.
    destruct (wk_address cfg w Hw t 0 Hact) as [addr Haddr]; [pose proof (pieces_range cfg w Hw); lia|].
    exists ((u32 addr / WORD_SIZE) `mod` num_shmem_bank cfg). unfold words_at. intros Hz.
    assert (line_size_based_tag_func addr WORD_SIZE ∈ (∅ : gset Z)) as Hin; [|by apply not_elem_of_empty in Hin]. rewrite <-Hz.
    apply elem_of_list_to_set, list_elem_of_omap. exists t. split; [done|]. unfold touched. rewrite bool_decide_eq_true_2 by done. rewrite Haddr. cbn [mbind option_bind].
    by rewrite Z.eqb_refl.
Qed.
Lemma shared_ok : (0 < mem_warp_parts cfg)%nat -> Nat.divide (mem_warp_parts cfg) (warp_size cfg) -> w_active w <> ∅ -> exists ns,
  shared_accesses cfg w = Some (with_cycles (foldr Z.add 0 ns) w) /\ 1 <= foldr Z.add 0 ns <= Z.of_nat (warp_size cfg) /\ length ns = mem_warp_parts cfg /\
  (forall i n, ns !! i = Some n -> half_warp_cycles (subwarp_threads cfg (mem_warp_parts cfg) i) n).
Proof using Hw Hbanks.
  intros Hparts Hdiv [t Ht]%set_choose_L. unfold shared_accesses. rewrite (proj2 (Nat.ltb_lt _ _) Hparts).
  destruct (each_grows (shared_subwarp cfg w) (fun done tot => exists ns, tot = foldr Z.add 0 ns /\ length ns = length done /\
    0 <= tot <= Z.of_nat (length done * (warp_size cfg / mem_warp_parts cfg)) /\ ((exists i, i ∈ done /\ t ∈ subwarp_threads cfg (mem_warp_parts cfg) i) -> 1 <= tot) /\
    (forall i n, ns !! i = Some n -> exists k, done !! i = Some k /\ half_warp_cycles (subwarp_threads cfg (mem_warp_parts cfg) k) n))
    (seq 0 (mem_warp_parts cfg)) [] 0) as (tot & -> & ns & -> & Hlen & Htot & Hpos & Hworst).
  - exists []. split; [done|]. split; [done|]. split; [cbn; lia|]. split; [by intros (i & ?%not_elem_of_nil & _)|done].
  - intros k done tot Hk%elem_of_seq (ns & -> & Hlen & Htot & Hpos & Hworst). destruct (shared_subwarp_ok k (foldr Z.add 0 ns)) as (n & -> & Hn & Hn1 & Hnw); [lia|].
    eexists. split; [done|]. exists (ns ++ [n]). assert (foldr Z.add 0 (ns ++ [n]) = foldr Z.add 0 ns + n) as ->.
    { change (total (ns ++ [n]) = total ns + n). rewrite total_app. unfold total. cbn. lia. }
    split; [done|]. rewrite !length_app. cbn [length]. split; [lia|]. split; [lia|]. split.
    + intros (i & [Hi|Hi%list_elem_of_singleton]%elem_of_app & Hti); [specialize (Hpos (ex_intro _ i (conj Hi Hti))); lia|]. subst i.
      specialize (Hn1 (ex_intro _ t (conj Hti Ht))). lia.
    + intros i x [Hi|[Hi Hx]]%lookup_app_Some.
      * destruct (Hworst i x Hi) as (k' & ? & ?). exists k'. split; [by apply lookup_app_l_Some|done].
      * apply list_lookup_singleton_Some in Hx as [Hz <-]. exists k. split; [|exact Hnw]. rewrite lookup_app_r by lia. apply list_lookup_singleton_Some. split; [lia|done].
  - cbn [app mbind option_bind] in *. rewrite length_seq in Hlen, Htot. destruct (subwarp_cover cfg (mem_warp_parts cfg) t Hparts Hdiv (wk_threads cfg w Hw t Ht)) as (i & Hi & Hti & _).
    assert (1 <= foldr Z.add 0 ns) as H1 by (apply Hpos; exists i; split; [apply elem_of_seq; lia|done]).
    destruct Hdiv as [n Hn]. rewrite Hn, Nat.div_mul in Htot by lia. assert (foldr Z.add 0 ns <= Z.of_nat (warp_size cfg)) as H2 by (rewrite Hn; nia).
    rewrite (proj2 (Z.ltb_lt 0 _)), (proj2 (Z.leb_le _ (Z.of_nat (warp_size cfg)))) by lia. exists ns. split; [done|]. split; [lia|]. split; [done|].
    intros j x Hj. destruct (Hworst j x Hj) as (k & Hk & ?). apply lookup_seq in Hk as [-> _]. done.
Qed.
End shared.

(** ** The contracts *)
(** A load or store that was issued, with its addresses and some active thread, and a warp that
    its parts divide. *)
Record issuable (cfg : core_config) (w : warp_inst_t) : Prop := {
  is_warp : warp_ok cfg w;
  is_issued : w_empty w = false /\ m_mem_accesses_created w = false;
  is_addressed : m_per_scalar_thread_valid w = true;
  is_access : w_op w = LOAD_OP \/ w_op w = STORE_OP;
  is_active : w_active w <> ∅;
  is_parts : (0 < mem_warp_parts cfg)%nat /\ Nat.divide (mem_warp_parts cfg) (warp_size cfg) }.
Definition type_of (s : memory_space) (is_write : bool) : mem_access_type :=
  if bool_decide (s = global_space) then (if is_write then GLOBAL_ACC_W else GLOBAL_ACC_R) else if is_write then LOCAL_ACC_W else LOCAL_ACC_R.
Lemma generate_issued cfg w : issuable cfg w -> (w_space w = shared_space \/ gpgpu_coalesce_arch cfg = 13 /\
    (w_space w = global_space \/ w_space w = local_space \/ w_space w = param_space_local)) ->
  generate_mem_accesses cfg w = (
    w ← (if bool_decide (w_space w = shared_space) then shared_accesses cfg w
         else if w_isatomic w then memory_coalescing_arch_13_atomic cfg (warp_is_store w) (type_of (w_space w) (warp_is_store w)) w
         else memory_coalescing_arch_13 cfg (warp_is_store w) (type_of (w_space w) (warp_is_store w)) w);
    Some (with_created w)).
Proof.
  intros [_ [H1 H2] H3 H4 H5 _] Hs. unfold generate_mem_accesses. rewrite H1, H2, H3. cbn [orb].
  rewrite bool_decide_eq_false_2 by (destruct H4 as [->| ->]; done). rewrite (bool_decide_eq_true_2 _ H4). cbn [orb negb].
  rewrite bool_decide_eq_false_2 by done. assert (warp_is_load w || warp_is_store w = true) as ->.
  { unfold warp_is_load, warp_is_store. destruct H4 as [->| ->]; [by rewrite bool_decide_eq_true_2 by auto|]. apply orb_true_iff. right. apply bool_decide_eq_true. auto. }
  unfold type_of. destruct Hs as [->|[Ha [->|[->| ->]]]]; [done|rewrite Ha; cbn; by destruct (w_isatomic w)..].
Qed.

(** C25: A load or store of global or local memory by a warp is coalesced as the rules of compute
    capability 1.3 ask. For a warp whose threads ask for aligned pieces, no assertion fails, and
    the accesses of each half-warp are, one for each segment that is touched: a transaction
    of 32, 64 or 128 bytes, aligned to its size, that holds every piece asked for in the
    segment, with exactly the threads that asked and exactly the bytes they asked for; and no
    transaction is larger than needed, since both halves of one of 64 or 128 bytes are used. *)
Theorem coalesced_accesses cfg w : issuable cfg w -> gpgpu_coalesce_arch cfg = 13 -> w_isatomic w = false ->
  (w_space w = global_space \/ w_space w = local_space \/ w_space w = param_space_local) ->
  exists groups, generate_mem_accesses cfg w = Some (with_created (with_accesses (m_accessq w ++ mjoin groups) w)) /\
    length groups = mem_warp_parts cfg /\
    (forall i l, groups !! i = Some l ->
      coalesced w (warp_is_store w) (type_of (w_space w) (warp_is_store w)) (subwarp_threads cfg (mem_warp_parts cfg) i) l) /\
    forall p, requests w p -> exists i, (i < mem_warp_parts cfg)%nat /\ p.1 ∈ subwarp_threads cfg (mem_warp_parts cfg) i /\
      forall j, (j < mem_warp_parts cfg)%nat -> p.1 ∈ subwarp_threads cfg (mem_warp_parts cfg) j -> j = i.
Proof.
  intros Hi Ha Hatomic Hs. rewrite generate_issued by auto. rewrite bool_decide_eq_false_2 by (destruct Hs as [->|[->| ->]]; done). rewrite Hatomic.
  pose proof Hi as [Hw _ _ _ _ [Hp Hd]].
  destruct (coalesce_ok cfg w Hw (warp_is_store w) (type_of (w_space w) (warp_is_store w)) Hp) as (groups & -> & Hlen & Hg). cbn [mbind option_bind].
  exists groups. split; [done|]. split; [done|]. split; [done|]. intros p [Hact _]. apply subwarp_cover; [done|done|]. by apply (wk_threads _ _ Hw).
Qed.

(** C26: Atomics on the same bytes are never in one transaction. The accesses of an atomic
    instruction serve each active thread exactly once, and two threads that share a
    transaction touch no byte in common, so that the order of their updates does not matter. *)
Theorem atomic_accesses cfg w : issuable cfg w -> gpgpu_coalesce_arch cfg = 13 -> w_isatomic w = true -> w_space w = global_space ->
  Nat.divide 2 (warp_size cfg) ->
  exists sent Ps, generate_mem_accesses cfg w = Some (with_created (with_accesses (m_accessq w ++ sent) w)) /\
    mjoin Ps ≡ₚ asked w (seq 0 (warp_size cfg)) /\
    Forall2 (atomic_for w (warp_is_store w) (type_of global_space (warp_is_store w))) sent Ps.
Proof.
  intros Hi Ha Hatomic Hs [n Hn]. rewrite generate_issued by auto. rewrite Hs. rewrite bool_decide_eq_false_2 by done. rewrite Hatomic.
  pose proof (is_warp _ _ Hi) as Hw.
  destruct (atomics_ok cfg w Hw Hs (warp_is_store w) (type_of global_space (warp_is_store w))) as (sent & Ps & -> & Hf & Hj). cbn [mbind option_bind].
  exists sent, Ps. split; [done|]. split; [|done]. rewrite Hj. unfold asked. rewrite <-omap_app. unfold subwarp_threads.
  rewrite Hn, Nat.div_mul by lia. replace (0 * n)%nat with 0%nat by lia. replace (1 * n)%nat with (0 + n)%nat by lia. rewrite <-seq_app.
  by replace (n + n)%nat with (n * 2)%nat by lia.
Qed.

(** C27: An access to shared memory takes between one cycle and one for each thread. No assertion
    about bank conflicts can fail. With the limited broadcast, the default, its cycles are the sum, over
    the half-warps, of the accesses to the bank that has most of them, when the threads that share the
    lowest shared word of the lowest bank that has one count as one access and all others count for
    themselves; without it, of the number of different words touched in the bank with most words. *)
Theorem shared_cycles cfg w : issuable cfg w -> w_space w = shared_space -> 0 < num_shmem_bank cfg ->
  exists ns, generate_mem_accesses cfg w = Some (with_created (with_cycles (foldr Z.add 0 ns) w)) /\
    1 <= foldr Z.add 0 ns <= Z.of_nat (warp_size cfg) /\ length ns = mem_warp_parts cfg /\
    forall i n, ns !! i = Some n ->
      if shmem_limited_broadcast cfg then worst_broadcast cfg w (subwarp_threads cfg (mem_warp_parts cfg) i) n
      else worst cfg w (subwarp_threads cfg (mem_warp_parts cfg) i) n.
Proof.
  intros Hi Hs Hb. rewrite generate_issued by auto. rewrite bool_decide_eq_true_2 by done.
  destruct (shared_ok cfg w (is_warp _ _ Hi) Hb) as (ns & -> & Hr & Hl & Hworst); [apply Hi..|]. by exists ns.
Qed.

(** ** A warp of four threads *)
Definition small_core : core_config := mkCore 4 2 false 16 13 128 64.
Definition small_warp (s : memory_space) (atomic : bool) (addrs : list Z) : warp_inst_t :=
  mkWarp false LOAD_OP no_memory_op s atomic 4 {[0%nat; 1%nat; 3%nat]} ((fun a => [a]) <$> addrs) true false [] 1.
Lemma core_issuable limited s atomic a0 a1 a2 a3 : (forall a, a ∈ [a0; a1; a3] -> 0 <= a /\ a + 4 <= 2 ^ 32 /\ a `mod` 4 = 0) ->
  issuable (mkCore 4 2 limited 16 13 128 64) (small_warp s atomic [a0; a1; a2; a3]).
Proof.
  intros Ha. assert (access_pieces (small_warp s atomic [a0; a1; a2; a3]) = (4, 1)) as He by (unfold access_pieces; by destruct (_ && _)).
  assert (forall t, t ∈ ({[0%nat; 1%nat; 3%nat]} : gset nat) -> t = 0%nat \/ t = 1%nat \/ t = 3%nat) as Ht by set_solver.
  split; try done; [|by left|split; [cbn; lia|by exists 2%nat]]. split.
  - cbn. auto.
  - cbn. unfold MAX_WARP_SIZE. lia.
  - intros t Hin. cbn. destruct (Ht t Hin) as [->|[->| ->]]; lia.
  - intros t k Hin. rewrite He. cbn [snd]. intros Hk. replace k with 0 by lia. destruct (Ht t Hin) as [->|[->| ->]]; cbn; by eexists.
  - intros t k a Hin. rewrite He. cbn [fst snd]. intros Hk. replace k with 0 by lia.
    destruct (Ht t Hin) as [->|[->| ->]]; cbn; intros [= <-]; apply Ha; set_solver.
Qed.
Lemma small_issuable s atomic a0 a1 a2 a3 : (forall a, a ∈ [a0; a1; a3] -> 0 <= a /\ a + 4 <= 2 ^ 32 /\ a `mod` 4 = 0) ->
  issuable small_core (small_warp s atomic [a0; a1; a2; a3]).
Proof. apply core_issuable. Qed.
(** Two neighbours share 32 bytes, a thread of the other half-warp has an access of its own. *)
Lemma coalesced_accesses_witness :
  (fun w => (fun a => (a_addr a, a_size a, filter (fun t => t ∈ a_mask a) (seq 0 4))) <$> m_accessq w) <$>
    generate_mem_accesses small_core (small_warp global_space false [64; 68; 0; 132]) = Some [(64, 32, [0%nat; 1%nat]); (128, 32, [3%nat])] /\
  exists groups, generate_mem_accesses small_core (small_warp global_space false [64; 68; 0; 132]) =
    Some (with_created (with_accesses (mjoin groups) (small_warp global_space false [64; 68; 0; 132]))) /\ length groups = 2%nat.
Proof.
  destruct (coalesced_accesses small_core (small_warp global_space false [64; 68; 0; 132])) as (groups & Hg & Hl & _).
  - apply small_issuable. intros a Ha. repeat (apply elem_of_cons in Ha as [->|Ha]; [done|]). by apply not_elem_of_nil in Ha.
  - done.
  - done.
  - by left.
  - split; [vm_compute; reflexivity|]. by exists groups.
Defined.
(** Two threads that update the same word get an access each. *)
Lemma atomic_accesses_witness :
  (fun w => length (m_accessq w)) <$> generate_mem_accesses small_core (small_warp global_space true [64; 64; 0; 132]) = Some 3%nat /\
  exists sent Ps, mjoin Ps ≡ₚ [(0%nat, 64); (1%nat, 64); (3%nat, 132)] /\
    Forall2 (atomic_for (small_warp global_space true [64; 64; 0; 132]) false GLOBAL_ACC_R) sent Ps.
Proof.
  destruct (atomic_accesses small_core (small_warp global_space true [64; 64; 0; 132])) as (sent & Ps & _ & Hj & Hf).
  - apply small_issuable. intros a Ha. repeat (apply elem_of_cons in Ha as [->|Ha]; [done|]). by apply not_elem_of_nil in Ha.
  - done.
  - done.
  - done.
  - by exists 2%nat.
  - split; [vm_compute; reflexivity|]. exists sent, Ps. split; [exact Hj|exact Hf].
Defined.
(** Two words of bank 0 take two cycles; the other half-warp takes one. *)
Definition broadcast_core : core_config := mkCore 4 2 true 16 13 128 64.
Lemma shared_cycles_witness :
  (cycles <$> generate_mem_accesses small_core (small_warp shared_space false [0; 64; 0; 4]) = Some 3 /\
   exists ns, 1 <= foldr Z.add 0 ns <= 4 /\ forall n, ns !! 0%nat = Some n ->
     worst small_core (small_warp shared_space false [0; 64; 0; 4]) (subwarp_threads small_core 2 0) n) /\
  (cycles <$> generate_mem_accesses broadcast_core (small_warp shared_space false [0; 0; 0; 4]) = Some 2 /\
   exists ns, 1 <= foldr Z.add 0 ns <= 4 /\ forall n, ns !! 0%nat = Some n ->
     worst_broadcast broadcast_core (small_warp shared_space false [0; 0; 0; 4]) (subwarp_threads broadcast_core 2 0) n).
Proof.
  split.
  - destruct (shared_cycles small_core (small_warp shared_space false [0; 64; 0; 4])) as (ns & _ & Hr & _ & Hworst).
    + apply small_issuable. intros a Ha. repeat (apply elem_of_cons in Ha as [->|Ha]; [done|]). by apply not_elem_of_nil in Ha.
    + done.
    + done.
    + split; [vm_compute; reflexivity|]. exists ns. split; [exact Hr|]. exact (fun n => Hworst 0%nat n).
  - destruct (shared_cycles broadcast_core (small_warp shared_space false [0; 0; 0; 4])) as (ns & _ & Hr & _ & Hworst).
    + apply core_issuable. intros a Ha. repeat (apply elem_of_cons in Ha as [->|Ha]; [done|]). by apply not_elem_of_nil in Ha.
    + done.
    + done.
    + split; [vm_compute; reflexivity|]. exists ns. split; [exact Hr|]. exact (fun n => Hworst 0%nat n).
Defined.
(** Alignment is needed: the access for a word that crosses 32 bytes holds only its beginning. *)
Example unaligned_is_cut :
  (fun w => (fun a => (a_addr a, a_size a, filter (fun b => b ∈ a_bytes a) (seqZ 0 128))) <$> m_accessq w) <$>
    generate_mem_accesses small_core (mkWarp false LOAD_OP no_memory_op global_space false 4 {[0%nat]} [[30]] true false [] 1) =
  Some [(0, 32, [30; 31; 32; 33])].
Proof. vm_compute. reflexivity. Qed.
