(* ===== verification/LocalMemory.v ===== *)
(** How many thread blocks a shader core takes and where the local memory of its threads is:
    [shader_core_config::max_cta], [shader_core_ctx::set_max_cta] and
    [translate_local_memaddr] ([gpgpu-sim/shader.cc]). *)
From S2P Require Import Prelude Coalescer.

(** ** The memory map *)
Definition GLOBAL_HEAP_START : Z := 0x80000000.
Definition SHARED_MEM_SIZE_MAX : Z := 64 * 1024.
Definition LOCAL_MEM_SIZE_MAX : Z := 8 * 1024.
Definition MAX_STREAMING_MULTIPROCESSORS : Z := 64.
Definition MAX_THREAD_PER_SM : Z := 2048.
Definition TOTAL_SHARED_MEM : Z := MAX_STREAMING_MULTIPROCESSORS * SHARED_MEM_SIZE_MAX.
Definition TOTAL_LOCAL_MEM : Z := MAX_STREAMING_MULTIPROCESSORS * MAX_THREAD_PER_SM * LOCAL_MEM_SIZE_MAX.
Definition SHARED_GENERIC_START : Z := GLOBAL_HEAP_START - TOTAL_SHARED_MEM.
Definition LOCAL_GENERIC_START : Z := SHARED_GENERIC_START - TOTAL_LOCAL_MEM.
Definition MAX_CTA_PER_SHADER : Z := 32.

(** ** Configuration and kernels *)
(** [c_num_shader] is the number of cores, clusters times cores of a cluster. *)
Record shader_core_config := mkShader {
  c_core : core_config; n_thread_per_shader : Z; max_cta_per_core : Z; gpgpu_shmem_size : Z; gpgpu_shader_registers : Z;
  c_num_shader : Z; gpgpu_local_mem_map : bool }.
Definition c_warp_size (c : shader_core_config) : Z := Z.of_nat (warp_size (c_core c)).
(** What is read of a kernel: the shared memory of a block and the registers of a thread. *)
Record kernel_info_t := mkKernel { threads_per_cta : Z; num_blocks : Z; smem : Z; regs : Z }.
(** The mapping of local memory that [set_max_cta] fixes, with the number of the core. *)
Record local_map := mkLocal { m_sid : Z; kernel_max_cta_per_shader : Z; kernel_padded_threads_per_cta : Z }.

Section config.
Variable cfg : shader_core_config.
Implicit Types (k : kernel_info_t) (m : local_map).

(** Division by zero ends the program. *)
Definition divide (a b : Z) : option Z := assert! negb (b =? 0); Some (a / b).
Definition padded_cta_size (threads : Z) : option Z :=
  assert! negb (c_warp_size cfg =? 0);
  Some (if threads `mod` c_warp_size cfg =? 0 then threads else u32 (u32 (threads / c_warp_size cfg + 1) * c_warp_size cfg)).
Definition gs_min2 (a b : Z) : Z := if a <? b then a else b.
Definition max_cta k : option Z :=
  padded_cta_size ← padded_cta_size (threads_per_cta k);
  result_thread ← divide (n_thread_per_shader cfg) padded_cta_size;
  result_shmem ← (if 0 <? smem k then divide (gpgpu_shmem_size cfg) (smem k) else Some (u32 (-1)));
  result_regs ← (if 0 <? regs k
    then divide (gpgpu_shader_registers cfg) (u32 (padded_cta_size * Z.land (u32 (regs k + 3)) (u32 (Z.lnot 3)))) else Some (u32 (-1)));
  let result_cta := max_cta_per_core cfg in
  let result := gs_min2 (gs_min2 (gs_min2 result_thread result_shmem) result_regs) result_cta in
  result ← (if num_blocks k <? u32 (result * c_num_shader cfg) then
      result ← divide (num_blocks k) (c_num_shader cfg);
      Some (if (num_blocks k) `mod` (c_num_shader cfg) =? 0 then result else u32 (result + 1))
    else Some result);
  assert! result <=? MAX_CTA_PER_SHADER;
  assert! negb (result <? 1);
  Some result.
Definition set_max_cta k m : option local_map :=
  n ← max_cta k; p ← padded_cta_size (threads_per_cta k); Some (mkLocal (m_sid m) n p).

(** *** Local memory *)
(** Where the words of a thread start, and how many threads the words of each address are
    for. *)
Definition thread_base m (tid num_shader : Z) : option (Z * Z) :=
  let P := kernel_padded_threads_per_cta m in
  if gpgpu_local_mem_map cfg then
    assert! negb (P =? 0);
    Some (u32 (4 * (P * (m_sid m + num_shader * (tid / P)) + tid `mod` P)), u32 (P * kernel_max_cta_per_shader m * num_shader))
  else Some (u32 (4 * (n_thread_per_shader cfg * m_sid m + tid)), u32 (num_shader * n_thread_per_shader cfg)).
Definition translate_local_memaddr m (localaddr tid num_shader datasize : Z) : option (list Z) :=
  '(thread_base, max_concurrent_threads) ← thread_base m tid num_shader;
  assert! thread_base <? u32 (4 * max_concurrent_threads);
  if 4 <=? datasize then
    assert! datasize `mod` 4 =? 0;
    let num_accesses := datasize / 4 in
    assert! num_accesses <=? MAX_ACCESSES_PER_INSN_PER_THREAD;
    assert! localaddr `mod` 4 =? 0;
    Some ((fun i => u32 (u32 (localaddr / 4 + i) * max_concurrent_threads * 4 + thread_base + LOCAL_GENERIC_START)) <$> seqZ 0 num_accesses)
  else
    assert! 0 <? datasize;
    let local_word := localaddr / 4 in
    let local_word_offset := localaddr `mod` 4 in
    assert! u32 (localaddr + datasize - 1) / 4 =? local_word;
    Some [u32 (local_word * max_concurrent_threads * 4 + local_word_offset + thread_base + LOCAL_GENERIC_START)].
End config.

(** ** The blocks fit *)
(** A configuration: warps and cores, and numbers the unsigned integers hold. *)
Record config_ok (cfg : shader_core_config) : Prop := {
  cf_warp : 1 <= c_warp_size cfg <= 32;
  cf_threads : 1 <= n_thread_per_shader cfg <= MAX_THREAD_PER_SM;
  cf_shader : 1 <= c_num_shader cfg <= MAX_STREAMING_MULTIPROCESSORS;
  cf_memory : 0 <= gpgpu_shmem_size cfg < 2 ^ 32 /\ 0 <= gpgpu_shader_registers cfg < 2 ^ 32;
  cf_cta : 1 <= max_cta_per_core cfg <= MAX_CTA_PER_SHADER }.
(** The threads of a block, up to whole warps, and the registers of a thread, up to fours. *)
Definition padded (cfg : shader_core_config) (threads : Z) : Z := (threads + c_warp_size cfg - 1) / c_warp_size cfg * c_warp_size cfg.
Definition rounded (regs : Z) : Z := (regs + 3) / 4 * 4.
(** A kernel one block of which fits a core. *)
Record kernel_ok (cfg : shader_core_config) (k : kernel_info_t) : Prop := {
  kn_threads : 1 <= threads_per_cta k;
  kn_blocks : 1 <= num_blocks k < 2 ^ 32;
  kn_fits : padded cfg (threads_per_cta k) <= n_thread_per_shader cfg;
  kn_smem : 0 <= smem k <= gpgpu_shmem_size cfg;
  kn_regs : 0 <= regs k <= 256 /\ padded cfg (threads_per_cta k) * rounded (regs k) <= gpgpu_shader_registers cfg }.

Section fits.
Variables (cfg : shader_core_config) (k : kernel_info_t).
Hypotheses (Hcfg : config_ok cfg) (Hk : kernel_ok cfg k).
Abbreviation P := (padded cfg (threads_per_cta k)).
Lemma padded_bounds : 1 <= P <= 2048 /\ threads_per_cta k <= P.
Proof using Hcfg Hk.
  destruct Hcfg as [Hw Ht _ _ _], Hk as [H1 _ Hf _ _]. unfold MAX_THREAD_PER_SM in Ht. unfold padded in *. set (W := c_warp_size cfg) in *.
  pose proof (Z.div_mod (threads_per_cta k + W - 1) W). pose proof (Z.mod_pos_bound (threads_per_cta k + W - 1) W). lia.
Qed.
Lemma padded_cta : padded_cta_size cfg (threads_per_cta k) = Some P.
Proof using Hcfg Hk.
  pose proof padded_bounds as [Hb Hle]. destruct Hcfg as [Hw _ _ _ _], Hk as [H1 _ _ _ _]. unfold padded_cta_size.
  rewrite (proj2 (Z.eqb_neq _ _)) by lia. cbn [negb]. unfold padded in *. set (W := c_warp_size cfg) in *. set (t := threads_per_cta k) in *.
  pose proof (Z.div_mod t W) as Hd. pose proof (Z.mod_pos_bound t W) as Hm. destruct (Z.eqb_spec (t `mod` W) 0) as [He|He].
  - do 2 f_equal. rewrite <-(Z.div_unique (t + W - 1) W (t / W) (W - 1)); lia.
  - assert ((t + W - 1) / W = t / W + 1) as Hq by (symmetry; apply (Z.div_unique _ _ _ (t `mod` W - 1)); lia). rewrite Hq in *.
    rewrite (u32_small (t / W + 1)) by nia. rewrite u32_small by lia. done.
Qed.
Lemma rounded_land r : 0 <= r <= 256 -> Z.land (u32 (r + 3)) (u32 (Z.lnot 3)) = rounded r.
Proof using Type.
  clear Hcfg Hk. intros Hr. rewrite u32_small by lia. unfold rounded. change (u32 (Z.lnot 3)) with (Z.land (Z.ones 32) (Z.lnot (Z.ones 2))).
  rewrite Z.land_assoc, Z.land_ones by lia. rewrite Z.mod_small by lia. change (Z.lnot (Z.ones 2)) with (Z.shiftl (-1) 2).
  apply Z.bits_inj'. intros i Hi. change 4 with (2 ^ 2). rewrite <-Z.shiftr_div_pow2, <-Z.shiftl_mul_pow2, Z.land_spec, !Z.shiftl_spec by lia.
  destruct (decide (i < 2)); [rewrite !(Z.testbit_neg_r _ (i - 2)) by lia; apply andb_false_r|].
  rewrite Z.bits_m1, Z.shiftr_spec by lia. rewrite andb_true_r. f_equal. lia.
Qed.
Lemma gs_min2_min a b : gs_min2 a b = Z.min a b.
Proof using Type. clear Hcfg Hk. unfold gs_min2. destruct (Z.ltb_spec a b); lia. Qed.
Lemma divide_some a b : b <> 0 -> divide a b = Some (a / b).
Proof using Type. clear Hcfg Hk. intros Hb. unfold divide. by rewrite (proj2 (Z.eqb_neq _ _)) by done. Qed.
(** The quotients that limit the blocks. *)
Lemma limit_ok a b : 0 <= b <= a -> a < 2 ^ 32 -> exists q, (if 0 <? b then divide a b else Some (u32 (-1))) = Some q /\ 1 <= q /\ q < 2 ^ 32 /\ (0 < b -> q * b <= a).
Proof using Type.
  clear Hcfg Hk. intros Hb Ha. destruct (Z.ltb_spec 0 b).
  - rewrite divide_some by lia. exists (a / b). split; [done|]. pose proof (Z.div_mod a b). pose proof (Z.mod_pos_bound a b).
    assert (1 <= a / b) by (apply Z.div_le_lower_bound; lia). split; [done|]. split; [apply Z.div_lt_upper_bound; nia|]. intros _. nia.
  - exists (u32 (-1)). split; [done|]. assert (b = 0) as -> by lia. split; [by vm_compute|]. split; [by vm_compute|]. lia.
Qed.
(** Enough blocks for every core, when there are. *)
Lemma spread_ok n : 1 <= n <= MAX_CTA_PER_SHADER -> exists r,
  (if num_blocks k <? u32 (n * c_num_shader cfg) then
     result ← divide (num_blocks k) (c_num_shader cfg);
     Some (if num_blocks k `mod` c_num_shader cfg =? 0 then result else u32 (result + 1))
   else Some n) = Some r /\ 1 <= r <= n.
Proof using Hcfg Hk.
  intros Hn. destruct Hcfg as [_ _ Hs _ _], Hk as [_ Hb _ _ _]. unfold MAX_CTA_PER_SHADER, MAX_STREAMING_MULTIPROCESSORS in *. rewrite u32_small by nia.
  destruct (Z.ltb_spec (num_blocks k) (n * c_num_shader cfg)) as [Hlt|]; [|exists n; split; [done|lia]].
  rewrite divide_some by lia. cbn [mbind option_bind]. eexists. split; [done|].
  pose proof (Z.div_mod (num_blocks k) (c_num_shader cfg)) as Hd. pose proof (Z.mod_pos_bound (num_blocks k) (c_num_shader cfg)) as Hm.
  assert (num_blocks k / c_num_shader cfg < n) by (apply Z.div_lt_upper_bound; nia). pose proof (Z.div_pos (num_blocks k) (c_num_shader cfg)).
  destruct (Z.eqb_spec (num_blocks k `mod` c_num_shader cfg) 0); [|rewrite u32_small; nia]. nia.
Qed.
Lemma max_cta_ok : exists n, max_cta cfg k = Some n /\ 1 <= n <= max_cta_per_core cfg /\ n * P <= n_thread_per_shader cfg /\
  (0 < smem k -> n * smem k <= gpgpu_shmem_size cfg) /\ (0 < regs k -> n * (P * rounded (regs k)) <= gpgpu_shader_registers cfg).
Proof using Hcfg Hk.
  pose proof padded_bounds as [HP Hle]. unfold max_cta. rewrite padded_cta. cbn [mbind option_bind]. destruct Hk as [H1 Hb Hf Hs [Hr Hrf]].
  pose proof Hcfg as [Hw Ht Hsh [Hm1 Hm2] Hc]. rewrite (divide_some (n_thread_per_shader cfg)) by lia. cbn [mbind option_bind].
  destruct (limit_ok (gpgpu_shmem_size cfg) (smem k)) as (q1 & -> & Hq1 & _ & Hl1); [lia|lia|]. cbn [mbind option_bind].
  assert (exists q, (if 0 <? regs k then divide (gpgpu_shader_registers cfg) (u32 (P * Z.land (u32 (regs k + 3)) (u32 (Z.lnot 3)))) else Some (u32 (-1))) = Some q /\
    1 <= q /\ (0 < regs k -> q * (P * rounded (regs k)) <= gpgpu_shader_registers cfg)) as (q2 & -> & Hq2 & Hl2).
  { rewrite rounded_land by lia. assert (0 <= rounded (regs k)) by (unfold rounded; pose proof (Z.div_pos (regs k + 3) 4); lia).
    rewrite (u32_small (P * _)) by nia. destruct (Z.ltb_spec 0 (regs k)); [|exists (u32 (-1)); split; [done|]; split; [by vm_compute|lia]].
    assert (0 < P * rounded (regs k)) by (unfold rounded in *; pose proof (Z.div_le_lower_bound (regs k + 3) 4 1); nia).
    destruct (limit_ok (gpgpu_shader_registers cfg) (P * rounded (regs k))) as (q & Hq & ? & _ & Hqq); [lia|lia|].
    rewrite (proj2 (Z.ltb_lt _ _)) in Hq by done. exists q. split; [done|]. split; [done|]. intros _. by apply Hqq. }
  cbn [mbind option_bind]. cbv zeta. 
  rewrite !gs_min2_min. pose proof (Z.div_mod (n_thread_per_shader cfg) P). pose proof (Z.mod_pos_bound (n_thread_per_shader cfg) P).
  assert (1 <= n_thread_per_shader cfg / P) by (apply Z.div_le_lower_bound; lia).
  set (n := Z.min _ _). assert (1 <= n <= MAX_CTA_PER_SHADER) as Hn by (unfold n; lia).
  destruct (spread_ok n Hn) as (r & -> & Hr1 & Hr2). cbn [mbind option_bind]. rewrite (proj2 (Z.leb_le r _)) by lia. rewrite (proj2 (Z.ltb_ge r 1)) by lia. cbn [negb].
  exists r. split; [done|]. assert (n <= n_thread_per_shader cfg / P /\ n <= q1 /\ n <= q2 /\ n <= max_cta_per_core cfg) as (Hn1 & Hn2 & Hn3 & Hn4) by (unfold n; lia).
  assert (0 <= rounded (regs k)) by (unfold rounded; pose proof (Z.div_pos (regs k + 3) 4); lia).
  split; [lia|]. split; [nia|]. split; intros Hz; [specialize (Hl1 Hz)|specialize (Hl2 Hz)]; nia.
Qed.
End fits.

(** ** Every thread has a memory of its own *)
Section place.
Variables (cfg : shader_core_config) (m : local_map).
Abbreviation P := (kernel_padded_threads_per_cta m).
Abbreviation S := (c_num_shader cfg).
(** The threads of a core that have local memory, and of all cores. *)
Definition local_threads : Z := if gpgpu_local_mem_map cfg then P * kernel_max_cta_per_shader m else n_thread_per_shader cfg.
Definition all_threads : Z := local_threads * S.
(** The place of a thread among them; the thread at a place; the thread and its byte that an
    address is for. *)
Definition slot_of (tid : Z) : Z :=
  if gpgpu_local_mem_map cfg then P * (m_sid m + S * (tid / P)) + tid `mod` P else n_thread_per_shader cfg * m_sid m + tid.
Definition thread_at (slot : Z) : Z * Z :=
  if gpgpu_local_mem_map cfg then ((slot / P) `mod` S, P * (slot / P / S) + slot `mod` P)
  else (slot / n_thread_per_shader cfg, slot `mod` n_thread_per_shader cfg).
Definition owner (addr : Z) : Z * Z * Z :=
  let x := addr - LOCAL_GENERIC_START in (thread_at ((x / 4) `mod` all_threads), 4 * (x / 4 / all_threads) + x `mod` 4).

Hypotheses (Hcfg : config_ok cfg) (Hsid : 0 <= m_sid m < S).
Hypothesis Hm : 1 <= P /\ 1 <= kernel_max_cta_per_shader m /\ P * kernel_max_cta_per_shader m <= n_thread_per_shader cfg.
Lemma local_threads_bounds : 1 <= local_threads <= 2048 /\ 1 <= all_threads <= 131072.
Proof using Hcfg Hsid Hm.
  pose proof Hcfg as [_ Ht Hs _ _]. unfold all_threads, local_threads, MAX_THREAD_PER_SM, MAX_STREAMING_MULTIPROCESSORS in *.
  destruct (gpgpu_local_mem_map cfg); nia.
Qed.
Lemma slot_of_ok tid : 0 <= tid < local_threads -> 0 <= slot_of tid < all_threads /\ thread_at (slot_of tid) = (m_sid m, tid).
Proof using Hcfg Hsid Hm.
  pose proof local_threads_bounds as [Hlt Hall]. unfold slot_of, thread_at, all_threads, local_threads in *. intros Ht. destruct (gpgpu_local_mem_map cfg).
  - pose proof (Z.div_mod tid P) as Hd. pose proof (Z.mod_pos_bound tid P) as Hb. set (c := tid / P) in *. set (r := tid `mod` P) in *.
    assert (0 <= c < kernel_max_cta_per_shader m) by nia.
    assert (0 <= m_sid m + S * c < S * kernel_max_cta_per_shader m) by nia. split; [nia|].
    assert ((P * (m_sid m + S * c) + r) / P = m_sid m + S * c) as -> by (symmetry; apply (Z.div_unique _ _ _ r); lia).
    assert ((P * (m_sid m + S * c) + r) `mod` P = r) as -> by (symmetry; apply (Z.mod_unique _ _ (m_sid m + S * c)); lia).
    rewrite <-(Z.mod_unique _ S c (m_sid m)), <-(Z.div_unique _ S c (m_sid m)) by lia. f_equal; lia.
  - split; [nia|]. f_equal.
    + symmetry. apply (Z.div_unique _ _ _ tid); lia.
    + symmetry. apply (Z.mod_unique _ _ (m_sid m)); lia.
Qed.
(** The address of a byte of a thread. *)
Definition locate (tid b : Z) : Z := b / 4 * all_threads * 4 + b `mod` 4 + 4 * slot_of tid + LOCAL_GENERIC_START.
Lemma owner_locate tid b : 0 <= tid < local_threads -> 0 <= b < LOCAL_MEM_SIZE_MAX ->
  owner (locate tid b) = (m_sid m, tid, b) /\ LOCAL_GENERIC_START <= locate tid b < SHARED_GENERIC_START.
Proof using Hcfg Hsid Hm.
  intros Ht Hb. destruct (slot_of_ok tid Ht) as [Hs Hat]. pose proof local_threads_bounds as [_ Hall]. unfold owner, locate.
  pose proof (Z.div_mod b 4) as Hd. pose proof (Z.mod_pos_bound b 4) as Hr. set (w := b / 4) in *. set (o := b `mod` 4) in *.
  replace (w * all_threads * 4 + o + 4 * slot_of tid + LOCAL_GENERIC_START - LOCAL_GENERIC_START) with (4 * (w * all_threads + slot_of tid) + o) by lia.
  rewrite <-(Z.div_unique _ 4 (w * all_threads + slot_of tid) o), <-(Z.mod_unique _ 4 (w * all_threads + slot_of tid) o) by lia.
  rewrite <-(Z.div_unique _ all_threads w (slot_of tid)), <-(Z.mod_unique _ all_threads w (slot_of tid)) by lia. rewrite Hat.
  split; [f_equal; lia|]. unfold LOCAL_MEM_SIZE_MAX in Hb. assert (0 <= w < 2048) by lia.
  change SHARED_GENERIC_START with (LOCAL_GENERIC_START + 4 * 2048 * 131072). nia.
Qed.
(** What the assertions check and the code computes, without the wrap-around. *)
Lemma thread_base_ok tid : 0 <= tid < local_threads -> thread_base cfg m tid S = Some (4 * slot_of tid, all_threads).
Proof using Hcfg Hsid Hm.
  intros Ht. destruct (slot_of_ok tid Ht) as [Hs _]. pose proof local_threads_bounds as [_ Hall]. unfold thread_base, slot_of, all_threads, local_threads in *.
  destruct (gpgpu_local_mem_map cfg).
  - rewrite (proj2 (Z.eqb_neq _ _)) by lia. cbn [negb]. rewrite !u32_small by lia. done.
  - rewrite !u32_small by lia. do 2 f_equal. lia.
Qed.
(** The pieces an access asks for: words, or the bytes within one. *)
Record local_access (a size : Z) : Prop := {
  la_size : 1 <= size <= 32;
  la_inside : 0 <= a /\ a + size <= LOCAL_MEM_SIZE_MAX;
  la_words : 4 <= size -> size `mod` 4 = 0 /\ a `mod` 4 = 0;
  la_bytes : size < 4 -> a `mod` 4 + size <= 4 }.
Lemma locate_word tid b i : b `mod` 4 = 0 -> locate tid (b + 4 * i) = (b / 4 + i) * all_threads * 4 + 4 * slot_of tid + LOCAL_GENERIC_START.
Proof using Type.
  clear Hcfg Hsid Hm. intros Hb. unfold locate. rewrite (Z.mul_comm 4 i), Z.mod_add, Z.div_add by lia. rewrite Hb. lia.
Qed.
Lemma locate_byte tid b j : 0 <= j -> b `mod` 4 + j < 4 -> locate tid (b + j) = locate tid b + j.
Proof using Type.
  clear Hcfg Hsid Hm. intros Hj Hb. unfold locate. pose proof (Z.div_mod b 4). pose proof (Z.mod_pos_bound b 4).
  rewrite <-(Z.div_unique (b + j) 4 (b / 4) (b `mod` 4 + j)), <-(Z.mod_unique (b + j) 4 (b / 4) (b `mod` 4 + j)) by lia. lia.
Qed.
Lemma translate_ok tid a size : 0 <= tid < local_threads -> local_access a size ->
  translate_local_memaddr cfg m a tid S size = Some (if 4 <=? size then (fun i => locate tid (a + 4 * i)) <$> seqZ 0 (size / 4) else [locate tid a]).
Proof using Hcfg Hsid Hm.
  intros Ht [Hsz [Ha Hin] Hw Hby]. destruct (slot_of_ok tid Ht) as [Hs _]. pose proof local_threads_bounds as [_ Hall].
  assert (forall b, 0 <= b < LOCAL_MEM_SIZE_MAX -> u32 (locate tid b) = locate tid b) as Hu.
  { intros b Hb. destruct (owner_locate tid b Ht Hb) as [_ Hl]. apply u32_small. change SHARED_GENERIC_START with 2143289344 in Hl. change LOCAL_GENERIC_START with 1069547520 in Hl. lia. }
  unfold translate_local_memaddr. rewrite thread_base_ok by done. cbn [mbind option_bind]. rewrite (u32_small (4 * all_threads)) by lia.
  rewrite (proj2 (Z.ltb_lt _ _)) by lia. unfold LOCAL_MEM_SIZE_MAX in *. destruct (Z.leb_spec 4 size) as [H4|H4].
  - destruct (Hw H4) as [-> Ha4]. rewrite Ha4. cbn [Z.eqb]. unfold MAX_ACCESSES_PER_INSN_PER_THREAD.
    rewrite (proj2 (Z.leb_le (size / 4) 8)) by (apply Z.div_le_upper_bound; lia). f_equal. apply list_fmap_ext. intros n i Hi%lookup_seqZ.
    pose proof (Z.div_mod size 4). pose proof (Z.mod_pos_bound size 4). pose proof (Z.div_mod a 4).
    rewrite (u32_small (a / 4 + i)) by lia. rewrite <-locate_word by done. rewrite Hu by lia. done.
  - rewrite (proj2 (Z.ltb_lt 0 size)) by lia. specialize (Hby H4). rewrite (u32_small (a + size - 1)) by lia.
    pose proof (Z.div_mod a 4). pose proof (Z.mod_pos_bound a 4). rewrite <-(Z.div_unique (a + size - 1) 4 (a / 4) (a `mod` 4 + size - 1)) by lia.
    rewrite Z.eqb_refl. do 2 f_equal. change (u32 (locate tid a) = locate tid a). apply Hu. lia.
Qed.
End place.

(** C15: Each thread has a local memory of its own. [max_cta] finds how many blocks of a kernel
    fit a core, and with the mapping it fixes, either of the two, [translate_local_memaddr]
    never fails for a thread of these blocks and an access inside its local memory: it gives one address for each
    word, aligned like the access, and every byte of every piece is within the region of
    local memory and is the byte asked for of this thread and core and of no other, as [owner]
    reads it off the address. *)
Theorem local_memory_private cfg k m : config_ok cfg -> kernel_ok cfg k -> 0 <= m_sid m < c_num_shader cfg ->
  exists m', set_max_cta cfg k m = Some m' /\ m_sid m' = m_sid m /\
    threads_per_cta k * kernel_max_cta_per_shader m' <= local_threads cfg m' <= n_thread_per_shader cfg /\
    forall tid a size, 0 <= tid < local_threads cfg m' -> local_access a size ->
    exists l, translate_local_memaddr cfg m' a tid (c_num_shader cfg) size = Some l /\
      Z.of_nat (length l) = Z.max 1 (size / 4) /\
      forall i p, l !! i = Some p -> p `mod` 4 = a `mod` 4 /\
      forall j, 0 <= j < Z.min 4 size -> owner cfg m' (p + j) = (m_sid m, tid, a + 4 * Z.of_nat i + j) /\
        LOCAL_GENERIC_START <= p + j < SHARED_GENERIC_START.
Proof.
  intros Hcfg Hk Hsid. destruct (max_cta_ok cfg k Hcfg Hk) as (n & Hn & Hn1 & HnP & _). pose proof (padded_bounds cfg k Hcfg Hk) as [HP Hle].
  unfold set_max_cta. rewrite Hn, padded_cta by done. cbn [mbind option_bind]. set (m' := mkLocal _ _ _). exists m'. split; [done|]. split; [done|].
  assert (1 <= kernel_padded_threads_per_cta m' /\ 1 <= kernel_max_cta_per_shader m' /\
    kernel_padded_threads_per_cta m' * kernel_max_cta_per_shader m' <= n_thread_per_shader cfg) as Hm' by (cbn; lia).
  split; [unfold local_threads; destruct (gpgpu_local_mem_map cfg); cbn; nia|]. intros tid a size Ht Hacc. pose proof Hacc as [Hsz [Ha Hin] Hw Hby].
  rewrite (translate_ok cfg m' Hcfg Hsid Hm' tid a size Ht Hacc). eexists. split; [done|]. pose proof (Z.div_mod size 4). pose proof (Z.mod_pos_bound size 4).
  assert (forall b j, 0 <= b -> 0 <= j -> b `mod` 4 + j < 4 -> b + j < LOCAL_MEM_SIZE_MAX ->
    owner cfg m' (locate cfg m' tid b + j) = (m_sid m, tid, b + j) /\ LOCAL_GENERIC_START <= locate cfg m' tid b + j < SHARED_GENERIC_START) as Hbyte.
  { intros b j Hb Hj Hbj Htop. rewrite <-locate_byte by done. apply (owner_locate cfg m' Hcfg Hsid Hm'); [done|lia]. }
  assert (forall b, locate cfg m' tid b `mod` 4 = b `mod` 4) as Hal.
  { intros b. unfold locate. change LOCAL_GENERIC_START with (267386880 * 4).
    replace (_ + _ + _ + _) with (b `mod` 4 + (b / 4 * all_threads cfg m' + slot_of cfg m' tid + 267386880) * 4) by lia. rewrite Z.mod_add by lia. by apply Z.mod_mod. }
  destruct (Z.leb_spec 4 size) as [H4|H4].
  - rewrite length_fmap, length_seqZ. split; [lia|]. intros i p Hp. apply list_lookup_fmap_Some in Hp as (z & -> & Hz%lookup_seqZ).
    destruct (Hw H4) as [_ Ha4]. assert ((a + 4 * z) `mod` 4 = 0) as Haz by (rewrite (Z.mul_comm 4), Z.mod_add by lia; done).
    split; [by rewrite Hal, Haz, Ha4|]. intros j Hj. destruct (Hbyte (a + 4 * z) j) as [-> ?]; [lia|lia|lia|lia|]. split; [f_equal; lia|done].
  - split; [cbn; lia|]. intros i p [-> <-]%list_lookup_singleton_Some. split; [apply Hal|]. intros j Hj.
    destruct (Hbyte a j) as [-> ?]; [lia|lia|lia|lia|]. split; [f_equal; lia|done].
Qed.

(** ** A core of 1024 threads, one of sixteen *)
Definition gtx : shader_core_config := mkShader (mkCore 32 2 false 16 13 128 64) 1024 8 16384 16384 16 true.
Definition kernel_of_192 : kernel_info_t := mkKernel 192 1000 1024 20.
Lemma local_memory_private_witness :
  (m ← set_max_cta gtx kernel_of_192 (mkLocal 3 0 0); translate_local_memaddr gtx m 16 197 16 8) = Some [1069758740; 1069807892] /\
  exists m l, translate_local_memaddr gtx m 16 197 16 8 = Some l /\ forall p, l !! 1%nat = Some p -> owner gtx m (p + 2) = (3, 197, 22).
Proof.
  split; [vm_compute; reflexivity|].
  destruct (local_memory_private gtx kernel_of_192 (mkLocal 3 0 0)) as (m' & Hm & _ & Hthreads & H).
  - split; vm_compute; intuition congruence.
  - split; vm_compute; intuition congruence.
  - vm_compute. intuition congruence.
  - destruct (H 197 16 8) as (l & Hl & _ & Hp).
    + revert Hthreads. assert (m' = mkLocal 3 4 192) as -> by (revert Hm; vm_compute; congruence). vm_compute. intuition congruence.
    + split; vm_compute; intuition congruence.
    + exists m', l. split; [exact Hl|]. intros p Hlp. destruct (Hp 1%nat p Hlp) as [_ Hb]. destruct (Hb 2) as [Ho _]; [vm_compute; intuition congruence|exact Ho].
Defined.
