(* ===== verification/Barrier.v ===== *)
(** The barriers of the thread blocks on a shader core: [barrier_set_t] ([gpgpu-sim/shader.cc]
    and [shader.h]), and what they guarantee to the warps of a block. *)
From S2P Require Import Prelude Coalescer.

(** ** Sets of warps *)
(** A bitset of [WARP_PER_CTA_MAX] bits; its operations on a single bit throw beyond them. *)
Definition WARP_PER_CTA_MAX : nat := 48.
Abbreviation warp_set_t := (gset nat).
Definition test (w : nat) (s : warp_set_t) : option bool := assert! Nat.ltb w WARP_PER_CTA_MAX; Some (bool_decide (w ∈ s)).
Definition set_warp (w : nat) (s : warp_set_t) : option warp_set_t := assert! Nat.ltb w WARP_PER_CTA_MAX; Some ({[w]} ∪ s).
Definition reset_warp (w : nat) (s : warp_set_t) : option warp_set_t := assert! Nat.ltb w WARP_PER_CTA_MAX; Some (s ∖ {[w]}).

(** ** The barrier set *)
Record barrier_set_t := mkBarriers {
  m_max_cta_per_core : Z; m_max_warps_per_core : Z; m_cta_to_warps : gmap Z warp_set_t;
  m_warp_active : warp_set_t; m_warp_at_barrier : warp_set_t }.
Definition barrier_set_new (max_warps_per_core max_cta_per_core : Z) : option barrier_set_t :=
  assert! negb (Z.of_nat WARP_PER_CTA_MAX <? max_warps_per_core);
  Some (mkBarriers max_cta_per_core max_warps_per_core ∅ ∅ ∅).
Definition with_waiting (s : warp_set_t) (b : barrier_set_t) : barrier_set_t :=
  mkBarriers (m_max_cta_per_core b) (m_max_warps_per_core b) (m_cta_to_warps b) (m_warp_active b) s.
Definition with_active (s : warp_set_t) (b : barrier_set_t) : barrier_set_t :=
  mkBarriers (m_max_cta_per_core b) (m_max_warps_per_core b) (m_cta_to_warps b) s (m_warp_at_barrier b).
Definition with_ctas (m : gmap Z warp_set_t) (b : barrier_set_t) : barrier_set_t :=
  mkBarriers (m_max_cta_per_core b) (m_max_warps_per_core b) m (m_warp_active b) (m_warp_at_barrier b).

Definition allocate_barrier (cta_id : Z) (warps : warp_set_t) (b : barrier_set_t) : option barrier_set_t :=
  assert! cta_id <? m_max_cta_per_core b;
  assert! bool_decide (m_cta_to_warps b !! cta_id = None);
  let b := with_ctas (<[cta_id := warps]> (m_cta_to_warps b)) b in
  assert! Z.of_nat (size (m_cta_to_warps b)) <=? m_max_cta_per_core b;
  let b := with_active (m_warp_active b ∪ warps) b in
  Some (with_waiting (m_warp_at_barrier b ∖ warps) b).
Definition deallocate_barrier (cta_id : Z) (b : barrier_set_t) : option barrier_set_t :=
  match m_cta_to_warps b !! cta_id with
  | None => Some b
  | Some warps =>
      let at_barrier := warps ∩ m_warp_at_barrier b in
      assert! bool_decide (at_barrier = ∅);
      let active := warps ∩ m_warp_active b in
      assert! bool_decide (active = ∅);
      let b := with_active (m_warp_active b ∖ warps) b in
      let b := with_waiting (m_warp_at_barrier b ∖ warps) b in
      Some (with_ctas (delete cta_id (m_cta_to_warps b)) b)
  end.
(** The end of [warp_reaches_barrier] and of [warp_exit]: when all warps of the block that run
    have reached the barrier, they are released. *)
Definition release (warps_in_cta : warp_set_t) (b : barrier_set_t) : barrier_set_t :=
  let at_barrier := warps_in_cta ∩ m_warp_at_barrier b in
  let active := warps_in_cta ∩ m_warp_active b in
  if bool_decide (at_barrier = active) then with_waiting (m_warp_at_barrier b ∖ at_barrier) b else b.
Definition warp_reaches_barrier (cta_id : Z) (warp_id : nat) (b : barrier_set_t) : option barrier_set_t :=
  warps ← m_cta_to_warps b !! cta_id;
  mine ← test warp_id warps;
  assert! (mine : bool);
  at_barrier ← set_warp warp_id (m_warp_at_barrier b);
  Some (release warps (with_waiting at_barrier b)).
Definition available_for_fetch (warp_id : nat) (b : barrier_set_t) : option bool :=
  active ← test warp_id (m_warp_active b);
  if (active : bool) then test warp_id (m_warp_at_barrier b) else Some false.
(** The first block that holds the warp; the end of the map must not be read. *)
Fixpoint find_cta (warp_id : nat) (l : list (Z * warp_set_t)) : option warp_set_t :=
  match l with
  | [] => None
  | (_, warps) :: l => mine ← test warp_id warps; if (mine : bool) then Some warps else find_cta warp_id l
  end.
Definition warp_exit (warp_id : nat) (b : barrier_set_t) : option barrier_set_t :=
  active ← reset_warp warp_id (m_warp_active b);
  let b := with_active active b in
  warps ← find_cta warp_id (in_order (m_cta_to_warps b));
  Some (release warps b).
Definition warp_waiting_at_barrier (warp_id : nat) (b : barrier_set_t) : option bool := test warp_id (m_warp_at_barrier b).

(** ** Runs *)
Inductive barrier_event :=
  | Allocate (cta_id : Z) (warps : warp_set_t) | Deallocate (cta_id : Z)
  | Reach (cta_id : Z) (warp_id : nat) | Exit (warp_id : nat).
Definition barrier_step (e : barrier_event) (b : barrier_set_t) : option barrier_set_t :=
  match e with
  | Allocate cta_id warps => allocate_barrier cta_id warps b
  | Deallocate cta_id => deallocate_barrier cta_id b
  | Reach cta_id warp_id => warp_reaches_barrier cta_id warp_id b
  | Exit warp_id => warp_exit warp_id b
  end.
(** What the core asks of the barriers: a block is allocated to a free context and free warps,
    and is deallocated when its threads have exited; a warp that waits does nothing, since
    [shd_warp_t::waiting] keeps the schedulers from issuing it. *)
Definition runs_in (b : barrier_set_t) (cta_id : Z) (warp_id : nat) : Prop :=
  (exists warps, m_cta_to_warps b !! cta_id = Some warps /\ warp_id ∈ warps) /\ warp_id ∈ m_warp_active b /\ warp_id ∉ m_warp_at_barrier b.
Definition barrier_allowed (e : barrier_event) (b : barrier_set_t) : Prop :=
  match e with
  | Allocate cta_id warps =>
      0 <= cta_id < m_max_cta_per_core b /\ m_cta_to_warps b !! cta_id = None /\
      (forall w, w ∈ warps -> (w < WARP_PER_CTA_MAX)%nat) /\
      forall c ws, m_cta_to_warps b !! c = Some ws -> ws ## warps
  | Deallocate cta_id => forall warps, m_cta_to_warps b !! cta_id = Some warps -> warps ## m_warp_active b
  | Reach cta_id w => runs_in b cta_id w
  | Exit w => exists cta_id, runs_in b cta_id w
  end.
Inductive barrier_run (b0 : barrier_set_t) : list barrier_event -> barrier_set_t -> Prop :=
  | barrier_start : barrier_run b0 [] b0
  | barrier_next t b e b' : barrier_run b0 t b -> barrier_allowed e b -> barrier_step e b = Some b' -> barrier_run b0 (e :: t) b'.

(** The barriers a warp has reached since its block was allocated; a run's last event comes
    first. *)
Fixpoint arrivals (t : list barrier_event) (w : nat) : nat :=
  match t with
  | [] => 0
  | Allocate _ warps :: t => if bool_decide (w ∈ warps) then 0 else arrivals t w
  | Reach _ v :: t => if Nat.eqb v w then S (arrivals t w) else arrivals t w
  | _ :: t => arrivals t w
  end.

(** ** The invariant *)
Section barriers.
Implicit Types (b : barrier_set_t) (t : list barrier_event) (w v : nat) (W : warp_set_t) (c : Z).
(** The warps of a block keep pace: each that runs has reached [k] barriers, or [k + 1] when it waits;
    and some warp that runs does not wait. *)
Definition in_phase t b W : Prop :=
  (exists k, forall v, v ∈ W -> v ∈ m_warp_active b -> arrivals t v = (k + if decide (v ∈ m_warp_at_barrier b) then 1 else 0)%nat) /\
  ((exists v, v ∈ W /\ v ∈ m_warp_active b) -> exists v, v ∈ W /\ v ∈ m_warp_active b /\ v ∉ m_warp_at_barrier b).
Record barriers_ok t b : Prop := {
  bo_cta c W : m_cta_to_warps b !! c = Some W -> 0 <= c < m_max_cta_per_core b /\ forall w, w ∈ W -> (w < WARP_PER_CTA_MAX)%nat;
  bo_disjoint c c' W W' : m_cta_to_warps b !! c = Some W -> m_cta_to_warps b !! c' = Some W' -> c <> c' -> W ## W';
  bo_active w : w ∈ m_warp_active b -> exists c W, m_cta_to_warps b !! c = Some W /\ w ∈ W;
  bo_waiting w : w ∈ m_warp_at_barrier b -> w ∈ m_warp_active b;
  bo_phase c W : m_cta_to_warps b !! c = Some W -> in_phase t b W }.

Lemma test_ok w W : (w < WARP_PER_CTA_MAX)%nat -> test w W = Some (bool_decide (w ∈ W)).
Proof. intros Hw. unfold test. by rewrite (proj2 (Nat.ltb_lt _ _) Hw). Qed.
Lemma set_warp_ok w W : (w < WARP_PER_CTA_MAX)%nat -> set_warp w W = Some ({[w]} ∪ W).
Proof. intros Hw. unfold set_warp. by rewrite (proj2 (Nat.ltb_lt _ _) Hw). Qed.
Lemma reset_warp_ok w W : (w < WARP_PER_CTA_MAX)%nat -> reset_warp w W = Some (W ∖ {[w]}).
Proof. intros Hw. unfold reset_warp. by rewrite (proj2 (Nat.ltb_lt _ _) Hw). Qed.
(** The loop of [warp_exit] finds the one block of the warp. *)
Lemma find_cta_ok w (l : list (Z * warp_set_t)) : (w < WARP_PER_CTA_MAX)%nat -> forall c W, (c, W) ∈ l -> w ∈ W ->
  (forall c' W', (c', W') ∈ l -> w ∈ W' -> W' = W) -> find_cta w l = Some W.
Proof.
  intros Hw c W. induction l as [|[c' W'] l IH]; intros Hin HwW Hone; [by apply not_elem_of_nil in Hin|]. cbn [find_cta]. rewrite test_ok by done. cbn [mbind option_bind].
  destruct (bool_decide (w ∈ W')) eqn:Hd; [apply bool_decide_eq_true in Hd; f_equal; apply (Hone c'); [by left|done]|].
  apply bool_decide_eq_false in Hd. apply IH; [|done|intros c2 W2 H2; apply (Hone c2); by right].
  apply elem_of_cons in Hin as [[= <- <-]|Hin]; [done|done].
Qed.
(** A map whose keys are below a bound has no more entries. *)
Lemma size_below {V} (m : gmap Z V) n : 0 <= n -> (forall c x, m !! c = Some x -> 0 <= c < n) -> Z.of_nat (size m) <= n.
Proof.
  intros Hn H. rewrite <-size_dom. assert (dom m ⊆ list_to_set (C := gset Z) (seqZ 0 n)) as Hs.
  { intros c [x Hx]%elem_of_dom. apply elem_of_list_to_set, elem_of_seqZ. specialize (H c x Hx). lia. }
  apply subseteq_size in Hs. rewrite size_list_to_set in Hs by apply NoDup_seqZ. rewrite length_seqZ in Hs. lia.
Qed.

(** Releasing a block whose warps are in phase, or have all arrived. *)
Lemma release_fields W b : m_max_cta_per_core (release W b) = m_max_cta_per_core b /\ m_cta_to_warps (release W b) = m_cta_to_warps b /\
  m_warp_active (release W b) = m_warp_active b /\
  (forall v, v ∉ W -> v ∈ m_warp_at_barrier (release W b) <-> v ∈ m_warp_at_barrier b) /\
  (forall v, v ∈ m_warp_at_barrier (release W b) -> v ∈ m_warp_at_barrier b).
Proof. unfold release. case_bool_decide; cbn; (split; [done|split; [done|split; [done|]]]); set_solver. Qed.
Lemma release_phase t W b : (forall v, v ∈ m_warp_at_barrier b -> v ∈ m_warp_active b) ->
  (exists k, forall v, v ∈ W -> v ∈ m_warp_active b -> arrivals t v = (k + if decide (v ∈ m_warp_at_barrier b) then 1 else 0)%nat) ->
  in_phase t (release W b) W.
Proof.
  intros Hwait [k Hk]. unfold release. case_bool_decide as He.
  - split; cbn [with_waiting m_warp_active m_warp_at_barrier].
    + exists (S k). intros v Hv Ha. rewrite (Hk v Hv Ha). rewrite decide_True by set_solver. rewrite decide_False by set_solver. lia.
    + intros (v & Hv & Ha). exists v. split; [done|]. split; [done|]. set_solver.
  - split; [by exists k|]. intros _. destruct (set_choose_or_empty ((W ∩ m_warp_active b) ∖ m_warp_at_barrier b)) as [[v Hv]|Hn]; [exists v; set_solver|].
    destruct He. apply set_eq. intros v. specialize (Hwait v). split; [set_solver|]. intros [? ?]%elem_of_intersection. apply elem_of_intersection. split; [done|].
    destruct (decide (v ∈ m_warp_at_barrier b)); [done|]. exfalso. apply (not_elem_of_empty (C := gset nat) v). rewrite <-Hn. set_solver.
Qed.
Lemma in_phase_same t t' b b' W : (forall v, v ∈ W -> (v ∈ m_warp_active b' <-> v ∈ m_warp_active b) /\ (v ∈ m_warp_at_barrier b' <-> v ∈ m_warp_at_barrier b) /\
  arrivals t' v = arrivals t v) -> in_phase t b W -> in_phase t' b' W.
Proof.
  intros H [[k Hk] Hrun]. split.
  - exists k. intros v Hv Ha. destruct (H v Hv) as (Ha' & Hb' & ->). rewrite (Hk v Hv) by by apply Ha'. f_equal. repeat case_decide; tauto.
  - intros (v & Hv & Ha). destruct Hrun as (u & Hu & Hua & Hub); [exists v; split; [done|]; by apply (H v Hv)|]. exists u. destruct (H u Hu) as (? & ? & _). tauto.
Qed.

Lemma allocate_ok t b c W : barriers_ok t b -> barrier_allowed (Allocate c W) b ->
  exists b', allocate_barrier c W b = Some b' /\ barriers_ok (Allocate c W :: t) b'.
Proof.
  intros [H1 H2 H3 H4 H5] (Hc & Hfree & Hw & Hdis). unfold allocate_barrier. rewrite (proj2 (Z.ltb_lt c _)) by lia. rewrite bool_decide_eq_true_2 by done.
  cbn [with_ctas m_cta_to_warps m_max_cta_per_core]. rewrite (proj2 (Z.leb_le _ _)).
  2:{ apply size_below; [lia|]. intros c' v [[<- _]|[_ Hl]]%lookup_insert_Some; [done|by apply (H1 c' v)]. }
  eexists. split; [done|]. split; cbn [with_ctas with_active with_waiting m_cta_to_warps m_max_cta_per_core m_warp_active m_warp_at_barrier].
  - intros c' W' [[<- <-]|[_ Hl]]%lookup_insert_Some; [done|by apply (H1 c' W')].
  - intros c1 c2 W1 W2 [[<- <-]|[Hn1 Hl1]]%lookup_insert_Some [[<- <-]|[Hn2 Hl2]]%lookup_insert_Some Hne; [done|symmetry; by apply (Hdis c2)|by apply (Hdis c1)|by apply (H2 c1 c2)].
  - intros w [Ha|Ha]%elem_of_union; [|exists c, W; by rewrite lookup_insert_eq].
    destruct (H3 w Ha) as (c' & W' & Hl & Hin). exists c', W'. split; [|done]. rewrite lookup_insert_ne; [done|]. intros <-. congruence.
  - intros w [Ha Hn]%elem_of_difference. apply elem_of_union. left. by apply H4.
  - intros c' W' [[<- <-]|[Hne Hl]]%lookup_insert_Some.
    + split; [|intros (v & Hv & _); exists v; set_solver]. exists 0%nat. intros v Hv _. cbn [arrivals]. rewrite bool_decide_eq_true_2 by done. rewrite decide_False by set_solver. done.
    + pose proof (Hdis c' W' Hl) as Hd. eapply in_phase_same; [|by apply (H5 c' W')]. intros v Hv. cbn [m_warp_active m_warp_at_barrier arrivals].
      rewrite bool_decide_eq_false_2 by set_solver. set_solver.
Qed.
Lemma deallocate_ok t b c : barriers_ok t b -> barrier_allowed (Deallocate c) b ->
  exists b', deallocate_barrier c b = Some b' /\ barriers_ok (Deallocate c :: t) b'.
Proof.
  intros Hok Hal. unfold deallocate_barrier. destruct (m_cta_to_warps b !! c) as [W|] eqn:Hc; [|exists b; split; [done|]; by destruct Hok; split].
  specialize (Hal W Hc). destruct Hok as [H1 H2 H3 H4 H5]. rewrite bool_decide_eq_true_2 by set_solver. rewrite bool_decide_eq_true_2 by set_solver.
  eexists. split; [done|]. split; cbn [with_ctas with_active with_waiting m_cta_to_warps m_max_cta_per_core m_warp_active m_warp_at_barrier].
  - intros c' W' [_ Hl]%lookup_delete_Some. by apply (H1 c' W').
  - intros c1 c2 W1 W2 [_ Hl1]%lookup_delete_Some [_ Hl2]%lookup_delete_Some. by apply H2.
  - intros w [Ha Hn]%elem_of_difference. destruct (H3 w Ha) as (c' & W' & Hl & Hin). exists c', W'. split; [|done]. rewrite lookup_delete_ne; [done|]. intros <-. congruence.
  - intros w [Ha Hn]%elem_of_difference. apply elem_of_difference. split; [by apply H4|done].
  - intros c' W' [Hne Hl]%lookup_delete_Some. pose proof (H2 c c' W W' Hc Hl Hne) as Hd. eapply in_phase_same; [|by apply (H5 c' W')].
    intros v Hv. cbn [m_warp_active m_warp_at_barrier arrivals]. set_solver.
Qed.
Lemma reach_ok t b c w : barriers_ok t b -> barrier_allowed (Reach c w) b ->
  exists b', warp_reaches_barrier c w b = Some b' /\ barriers_ok (Reach c w :: t) b'.
Proof.
  intros [H1 H2 H3 H4 H5] ((W & Hc & HwW) & Ha & Hn). unfold warp_reaches_barrier. rewrite Hc. cbn [mbind option_bind].
  destruct (H1 c W Hc) as [Hrange Hbound]. rewrite test_ok by auto. cbn [mbind option_bind]. rewrite bool_decide_eq_true_2 by done.
  rewrite set_warp_ok by auto. cbn [mbind option_bind]. set (b1 := with_waiting _ b). destruct (release_fields W b1) as (E1 & E2 & E3 & E4 & E5).
  eexists. split; [done|]. split; rewrite ?E1, ?E2, ?E3; try done.
  - intros v Hv%E5. cbn in Hv. apply elem_of_union in Hv as [->%elem_of_singleton|Hv]; [done|by apply H4].
  - intros c' W' Hl. change (m_cta_to_warps b !! c' = Some W') in Hl. destruct (decide (c' = c)) as [->|Hne].
    + rewrite Hc in Hl. injection Hl as <-. apply release_phase; [cbn; set_solver|]. destruct (H5 c W Hc) as [[k Hk] _]. exists k. intros v Hv Hva. cbn in Hva |- *.
      specialize (Hk v Hv Hva). destruct (Nat.eqb_spec w v) as [->|Hwv].
      * rewrite decide_False in Hk by done. rewrite decide_True by set_solver. lia.
      * rewrite Hk. f_equal. repeat case_decide; set_solver.
    + pose proof (H2 c c' W W' Hc Hl ltac:(done)) as Hd. eapply in_phase_same; [|by apply (H5 c' W')]. intros v Hv. rewrite E3, E4 by set_solver.
      cbn. destruct (Nat.eqb_spec w v) as [->|]; set_solver.
Qed.
Lemma exit_ok t b w : barriers_ok t b -> barrier_allowed (Exit w) b -> exists b', warp_exit w b = Some b' /\ barriers_ok (Exit w :: t) b'.
Proof.
  intros [H1 H2 H3 H4 H5] (c & (W & Hc & HwW) & Ha & Hn). unfold warp_exit. destruct (H1 c W Hc) as [Hrange Hbound].
  rewrite reset_warp_ok by auto. cbn [mbind option_bind with_active m_cta_to_warps]. rewrite (find_cta_ok w _ (Hbound w HwW) c W).
  2:{ unfold in_order. rewrite merge_sort_Permutation. by apply elem_of_map_to_list. }
  2: done.
  2:{ intros c' W' Hin Hw'. unfold in_order in Hin. rewrite merge_sort_Permutation in Hin. apply elem_of_map_to_list in Hin.
      destruct (decide (c' = c)) as [->|Hne]; [congruence|]. exfalso. exact (H2 c c' W W' Hc Hin (not_eq_sym Hne) w HwW Hw'). }
  cbn [mbind option_bind]. set (b1 := with_active (m_warp_active b ∖ {[w]}) b). destruct (release_fields W b1) as (E1 & E2 & E3 & E4 & E5).
  eexists. split; [done|]. split; rewrite ?E1, ?E2, ?E3; try done.
  - intros v Hv. apply H3. cbn in Hv. set_solver.
  - intros v Hv%E5. cbn in Hv |- *. apply elem_of_difference. split; [by apply H4|]. intros ->%elem_of_singleton. done.
  - intros c' W' Hl. change (m_cta_to_warps b !! c' = Some W') in Hl. destruct (decide (c' = c)) as [->|Hne].
    + rewrite Hc in Hl. injection Hl as <-. apply release_phase; [cbn; intros v Hv; apply elem_of_difference; split; [by apply H4|set_solver]|].
      destruct (H5 c W Hc) as [[k Hk] _]. exists k. intros v Hv Hva. cbn in Hva |- *. apply Hk; [done|]. set_solver.
    + pose proof (H2 c c' W W' Hc Hl ltac:(done)) as Hd. eapply in_phase_same; [|by apply (H5 c' W')]. intros v Hv. rewrite E3, E4 by set_solver.
      cbn. set_solver.
Qed.
Lemma barrier_step_ok t b e : barriers_ok t b -> barrier_allowed e b -> exists b', barrier_step e b = Some b' /\ barriers_ok (e :: t) b'.
Proof. destruct e; [apply allocate_ok|apply deallocate_ok|apply reach_ok|apply exit_ok]. Qed.
Lemma barriers_new max_warps max_cta b : barrier_set_new max_warps max_cta = Some b -> barriers_ok [] b.
Proof. unfold barrier_set_new. intros H. run H. subst b. split; cbn; intros *; set_solver. Qed.
Lemma barrier_run_ok b0 t b : barriers_ok [] b0 -> barrier_run b0 t b -> barriers_ok t b.
Proof.
  intros H0. induction 1 as [|t b e b' _ IH Hal He]; [done|]. destruct (barrier_step_ok t b e IH Hal) as (b2 & H2 & Hok). congruence.
Qed.
End barriers.

(** C14: The barriers of a core. In every order in which blocks start and end and their warps
    reach barriers and exit, no assertion fails; no warp passes its [n]-th barrier before every
    warp of its block that runs has reached its own [n]-th; and a block whose warps have not all exited
    always has a warp that does not wait, so that no block hangs at a barrier. *)
Theorem barriers_separate max_warps max_cta b0 t b e : barrier_set_new max_warps max_cta = Some b0 -> barrier_run b0 t b ->
  (barrier_allowed e b -> exists b', barrier_step e b = Some b') /\
  (forall c W v u, m_cta_to_warps b !! c = Some W -> v ∈ W -> v ∈ m_warp_active b -> v ∉ m_warp_at_barrier b -> u ∈ W -> u ∈ m_warp_active b ->
     (arrivals t v <= arrivals t u)%nat) /\
  (forall c W v, m_cta_to_warps b !! c = Some W -> v ∈ W -> v ∈ m_warp_active b ->
     exists u, u ∈ W /\ u ∈ m_warp_active b /\ u ∉ m_warp_at_barrier b).
Proof.
  intros Hnew Hrun. pose proof (barrier_run_ok b0 t b (barriers_new _ _ _ Hnew) Hrun) as Hok. split; [|split].
  - intros Hal. destruct (barrier_step_ok t b e Hok Hal) as (b' & ? & _). by exists b'.
  - intros c W v u Hc Hv Hva Hvn Hu Hua. destruct (bo_phase _ _ Hok c W Hc) as [[k Hk] _]. rewrite (Hk v Hv Hva), (Hk u Hu Hua), decide_False by done. lia.
  - intros c W v Hc Hv Hva. destruct (bo_phase _ _ Hok c W Hc) as [_ Hr]. apply Hr. by exists v.
Qed.

(** ** A block of two warps *)
Definition two_warps : barrier_set_t := mkBarriers 8 48 {[0 := {[0%nat; 1%nat]}]} {[0%nat; 1%nat]} ∅.
Definition one_waits : barrier_set_t := with_waiting {[0%nat]} two_warps.
Lemma one_waits_run : barrier_run (mkBarriers 8 48 ∅ ∅ ∅) [Reach 0 0%nat; Allocate 0 {[0%nat; 1%nat]}] one_waits.
Proof.
  apply (barrier_next _ _ two_warps); [apply (barrier_next _ _ _ _ _ (barrier_start _))| |].
  - split; [done|]. split; [done|]. split; [|intros c ws ?; set_solver]. intros w Hw. assert (w = 0%nat \/ w = 1%nat) as [->| ->] by set_solver; unfold WARP_PER_CTA_MAX; lia.
  - vm_compute. reflexivity.
  - split; [|cbn; set_solver]. exists {[0%nat; 1%nat]}. split; [done|]. set_solver.
  - vm_compute. reflexivity.
Qed.
(** Warp 0 waits until warp 1 reaches the barrier or exits. *)
Lemma barriers_separate_witness :
  (warp_waiting_at_barrier 0 one_waits, warp_reaches_barrier 0 1 one_waits ≫= warp_waiting_at_barrier 0,
   Barrier.warp_exit 1 one_waits ≫= warp_waiting_at_barrier 0) = (Some true, Some false, Some false) /\
  (exists b', warp_reaches_barrier 0 1 one_waits = Some b') /\ exists u, u ∈ m_warp_active one_waits /\ u ∉ m_warp_at_barrier one_waits.
Proof.
  split; [vm_compute; reflexivity|].
  destruct (barriers_separate 48 8 (mkBarriers 8 48 ∅ ∅ ∅) [Reach 0 0%nat; Allocate 0 {[0%nat; 1%nat]}] one_waits (Reach 0 1%nat)) as (Hstep & _ & Halive).
  - vm_compute. reflexivity.
  - exact one_waits_run.
  - split.
    + apply Hstep. split; [|cbn; set_solver]. exists {[0%nat; 1%nat]}. split; [done|]. set_solver.
    + destruct (Halive 0 {[0%nat; 1%nat]} 0%nat) as (u & _ & Hu & Hn); [done|set_solver|cbn; set_solver|]. exists u. split; [exact Hu|exact Hn].
Defined.
(** [available_for_fetch] answers the opposite of what its name says: a warp that waits is
    available, one that runs is not. *)
Example waiting_is_available : (available_for_fetch 0 one_waits, available_for_fetch 1 one_waits) = (Some true, Some false).
Proof. vm_compute. reflexivity. Qed.
