(* ===== verification/Warps.v ===== *)
(** A warp as the front end of a shader core sees it: [shd_warp_t] ([gpgpu-sim/shader.h] and
    [shader.cc]), the static instructions it holds and the pipeline registers it issues to
    ([register_set] of [abstract_hardware_model.h]). *)
From S2P Require Import Prelude SimtStack Scoreboard GpuCache Coalescer.

(** ** Results *)
(** An assertion that fails, or undefined behaviour, ends the simulation; the error says which part
    of the core made it fail. *)
Inductive part := FrontEnd | Functional | Addresses | Reconvergence | Registers | LoadStore.
#[global] Instance part_eq_dec : EqDecision part.
Proof. solve_decision. Defined.
Inductive result (A : Type) := Ok (x : A) | Failed (p : part).
#[global] Arguments Ok {A} x.
#[global] Arguments Failed {A} p.
#[global] Instance result_ret : MRet result := fun A x => Ok x.
#[global] Instance result_bind : MBind result := fun A B f m => match m with Ok x => f x | Failed p => Failed p end.
#[global] Instance result_fmap : FMap result := fun A B f m => match m with Ok x => Ok (f x) | Failed p => Failed p end.
Definition lift {A} (p : part) (o : option A) : result A := match o with Some x => Ok x | None => Failed p end.
Definition check (p : part) (b : bool) : result unit := if b then Ok tt else Failed p.

(** ** Instructions *)
(** What [ptx_fetch_inst] returns: the scoreboard's view with the program counters, size
    and latency. *)
Record instruction := mkInstruction {
  i_pc : Z; isize : Z; reconvergence_pc : Z; i_static : inst_t; i_isatomic : bool; i_data_size : Z; initiation_interval : Z }.
Definition is_store (i : inst_t) : bool := bool_decide (op i = STORE_OP \/ memory_op i = memory_store).
(** An instruction in a pipeline register: with its warp, what the threads made of it, and the
    lanes with a callback. *)
Record issued := mkIssued { p_wid : nat; p_inst : instruction; p_dyn : warp_inst_t; p_callbacks : gset nat }.
Definition with_dyn (d : warp_inst_t) (p : issued) : issued := mkIssued (p_wid p) (p_inst p) d (p_callbacks p).
(** [warp_inst_t::issue] on a copy of the static instruction. *)
Definition issue (i : instruction) (mask : gset nat) (warp_id : nat) : issued :=
  mkIssued warp_id i (mkWarp false (op (i_static i)) (memory_op (i_static i)) (space (i_static i)) (i_isatomic i) (i_data_size i) mask [] false false []
    (initiation_interval i)) ∅.
(** The scoreboard's view of it: its space is the one that was accessed. *)
Definition issued_inst (p : issued) : inst_t :=
  let i := i_static (p_inst p) in mkInst (op i) (memory_op i) (out i) (in_ i) (pred i) (ar1 i) (ar2 i) (w_space (p_dyn p)).

(** *** Pipeline registers *)
Definition register_set := list (option issued).
Definition register_set_new (num : nat) : register_set := replicate num None.
Fixpoint get_free (regs : register_set) : option nat :=
  match regs with [] => None | None :: _ => Some 0%nat | Some _ :: regs => S <$> get_free regs end.
Definition has_free (regs : register_set) : bool := existsb (fun r => match r with None => true | Some _ => false end) regs.

(** ** Warps *)
Record ibuffer_entry := mkSlot { m_inst : option instruction; m_valid : bool }.
Definition ibuffer_entry_new : ibuffer_entry := mkSlot None false.
Definition IBUFFER_SIZE : nat := 2.
Record shd_warp_t := mkShdWarp {
  m_cta_id : Z; m_warp_id : Z; m_warp_size : nat; m_dynamic_cta_id : Z; m_dynamic_warp_id : Z; m_next_pc : Z;
  n_completed : Z; m_active_threads : gset nat; m_imiss_pending : bool; m_ibuffer : list ibuffer_entry; m_next : nat;
  m_n_atomic : Z; m_n_gmem : Z; m_membar : bool; m_sc_fence : bool; m_done_exit : bool;
  m_stores_outstanding : Z; m_inst_in_pipeline : Z }.

Definition set_next_pc (pc : Z) (w : shd_warp_t) : shd_warp_t :=
  mkShdWarp (m_cta_id w) (m_warp_id w) (m_warp_size w) (m_dynamic_cta_id w) (m_dynamic_warp_id w) pc (n_completed w) (m_active_threads w)
    (m_imiss_pending w) (m_ibuffer w) (m_next w) (m_n_atomic w) (m_n_gmem w) (m_membar w) (m_sc_fence w) (m_done_exit w)
    (m_stores_outstanding w) (m_inst_in_pipeline w).
Definition set_threads (n : Z) (active : gset nat) (w : shd_warp_t) : shd_warp_t :=
  mkShdWarp (m_cta_id w) (m_warp_id w) (m_warp_size w) (m_dynamic_cta_id w) (m_dynamic_warp_id w) (m_next_pc w) n active
    (m_imiss_pending w) (m_ibuffer w) (m_next w) (m_n_atomic w) (m_n_gmem w) (m_membar w) (m_sc_fence w) (m_done_exit w)
    (m_stores_outstanding w) (m_inst_in_pipeline w).
Definition set_imiss (b : bool) (w : shd_warp_t) : shd_warp_t :=
  mkShdWarp (m_cta_id w) (m_warp_id w) (m_warp_size w) (m_dynamic_cta_id w) (m_dynamic_warp_id w) (m_next_pc w) (n_completed w) (m_active_threads w)
    b (m_ibuffer w) (m_next w) (m_n_atomic w) (m_n_gmem w) (m_membar w) (m_sc_fence w) (m_done_exit w)
    (m_stores_outstanding w) (m_inst_in_pipeline w).
Definition set_ibuffer (l : list ibuffer_entry) (next : nat) (w : shd_warp_t) : shd_warp_t :=
  mkShdWarp (m_cta_id w) (m_warp_id w) (m_warp_size w) (m_dynamic_cta_id w) (m_dynamic_warp_id w) (m_next_pc w) (n_completed w) (m_active_threads w)
    (m_imiss_pending w) l next (m_n_atomic w) (m_n_gmem w) (m_membar w) (m_sc_fence w) (m_done_exit w)
    (m_stores_outstanding w) (m_inst_in_pipeline w).
Definition set_memory (n_atomic n_gmem : Z) (membar sc_fence : bool) (w : shd_warp_t) : shd_warp_t :=
  mkShdWarp (m_cta_id w) (m_warp_id w) (m_warp_size w) (m_dynamic_cta_id w) (m_dynamic_warp_id w) (m_next_pc w) (n_completed w) (m_active_threads w)
    (m_imiss_pending w) (m_ibuffer w) (m_next w) n_atomic n_gmem membar sc_fence (m_done_exit w)
    (m_stores_outstanding w) (m_inst_in_pipeline w).
Definition set_stores (n : Z) (w : shd_warp_t) : shd_warp_t :=
  mkShdWarp (m_cta_id w) (m_warp_id w) (m_warp_size w) (m_dynamic_cta_id w) (m_dynamic_warp_id w) (m_next_pc w) (n_completed w) (m_active_threads w)
    (m_imiss_pending w) (m_ibuffer w) (m_next w) (m_n_atomic w) (m_n_gmem w) (m_membar w) (m_sc_fence w) (m_done_exit w)
    n (m_inst_in_pipeline w).
Definition set_in_pipeline (n : Z) (w : shd_warp_t) : shd_warp_t :=
  mkShdWarp (m_cta_id w) (m_warp_id w) (m_warp_size w) (m_dynamic_cta_id w) (m_dynamic_warp_id w) (m_next_pc w) (n_completed w) (m_active_threads w)
    (m_imiss_pending w) (m_ibuffer w) (m_next w) (m_n_atomic w) (m_n_gmem w) (m_membar w) (m_sc_fence w) (m_done_exit w)
    (m_stores_outstanding w) n.
Definition set_done_exit (w : shd_warp_t) : shd_warp_t :=
  mkShdWarp (m_cta_id w) (m_warp_id w) (m_warp_size w) (m_dynamic_cta_id w) (m_dynamic_warp_id w) (m_next_pc w) (n_completed w) (m_active_threads w)
    (m_imiss_pending w) (m_ibuffer w) (m_next w) (m_n_atomic w) (m_n_gmem w) (m_membar w) (m_sc_fence w) true
    (m_stores_outstanding w) (m_inst_in_pipeline w).

(** A warp that no kernel has used; the statistics of its stalls are left out. *)
Definition shd_warp_new (warp_size : nat) : shd_warp_t :=
  mkShdWarp 0 (u32 (-1)) warp_size (u32 (-1)) (u32 (-1)) 0 (Z.of_nat warp_size) ∅ false (replicate IBUFFER_SIZE ibuffer_entry_new) 0 0 0 false false true 0 0.
Definition reset (w : shd_warp_t) : result shd_warp_t :=
  _ ← check FrontEnd (m_stores_outstanding w =? 0);
  _ ← check FrontEnd (m_inst_in_pipeline w =? 0);
  Ok (mkShdWarp (m_cta_id w) (u32 (-1)) (m_warp_size w) (u32 (-1)) (u32 (-1)) (m_next_pc w) (Z.of_nat (m_warp_size w)) (m_active_threads w) false
    (m_ibuffer w) 0 0 0 false false true (m_stores_outstanding w) (m_inst_in_pipeline w)).
Definition init (start_pc cta_id : Z) (wid : nat) (active : gset nat) (dynamic_cta_id dynamic_warp_id : Z) (w : shd_warp_t) : result shd_warp_t :=
  _ ← check FrontEnd (Z.of_nat (size active) <=? n_completed w);
  _ ← check FrontEnd (n_completed w <=? Z.of_nat (m_warp_size w));
  Ok (mkShdWarp cta_id (Z.of_nat wid) (m_warp_size w) dynamic_cta_id dynamic_warp_id start_pc (n_completed w - Z.of_nat (size active)) active
    (m_imiss_pending w) (m_ibuffer w) (m_next w) (m_n_atomic w) (m_n_gmem w) (m_membar w) (m_sc_fence w) false
    (m_stores_outstanding w) (m_inst_in_pipeline w)).

Definition functional_done (w : shd_warp_t) : bool := n_completed w =? Z.of_nat (m_warp_size w).
Definition stores_done (w : shd_warp_t) : bool := m_stores_outstanding w =? 0.
Definition inst_in_pipeline (w : shd_warp_t) : bool := 0 <? m_inst_in_pipeline w.
Definition hardware_done (w : shd_warp_t) : bool := functional_done w && stores_done w && negb (inst_in_pipeline w).
Definition set_completed (lane : nat) (w : shd_warp_t) : result shd_warp_t :=
  _ ← check FrontEnd (Nat.ltb lane MAX_WARP_SIZE && bool_decide (lane ∈ m_active_threads w));
  Ok (set_threads (u32 (n_completed w + 1)) (m_active_threads w ∖ {[lane]}) w).

Definition inc_n_atomic (w : shd_warp_t) : shd_warp_t := set_memory (u32 (m_n_atomic w + 1)) (m_n_gmem w) (m_membar w) (m_sc_fence w) w.
Definition dec_n_atomic (n : Z) (w : shd_warp_t) : shd_warp_t := set_memory (u32 (m_n_atomic w - n)) (m_n_gmem w) (m_membar w) (m_sc_fence w) w.
Definition inc_n_gmem (w : shd_warp_t) : shd_warp_t := set_memory (m_n_atomic w) (u32 (m_n_gmem w + 1)) (m_membar w) (m_sc_fence w) w.
Definition dec_n_gmem (n : Z) (w : shd_warp_t) : shd_warp_t :=
  let n := u32 (m_n_gmem w - n) in set_memory (m_n_atomic w) n (m_membar w) (if n =? 0 then false else m_sc_fence w) w.
Definition set_membar (w : shd_warp_t) : shd_warp_t := set_memory (m_n_atomic w) (m_n_gmem w) true (m_sc_fence w) w.
Definition clear_membar (w : shd_warp_t) : shd_warp_t := set_memory (m_n_atomic w) (m_n_gmem w) false (m_sc_fence w) w.
Definition set_sc_fence (w : shd_warp_t) : shd_warp_t := set_memory (m_n_atomic w) (m_n_gmem w) (m_membar w) true w.

Definition inc_store_req (w : shd_warp_t) : shd_warp_t := set_stores (u32 (m_stores_outstanding w + 1)) w.
Definition dec_store_req (w : shd_warp_t) : result shd_warp_t :=
  _ ← check FrontEnd (0 <? m_stores_outstanding w); Ok (set_stores (m_stores_outstanding w - 1) w).
Definition inc_inst_in_pipeline (w : shd_warp_t) : shd_warp_t := set_in_pipeline (u32 (m_inst_in_pipeline w + 1)) w.
Definition dec_inst_in_pipeline (w : shd_warp_t) : result shd_warp_t :=
  _ ← check FrontEnd (0 <? m_inst_in_pipeline w); Ok (set_in_pipeline (m_inst_in_pipeline w - 1) w).

(** *** The instruction buffer *)
Definition ibuffer_fill (slot : nat) (pI : option instruction) (w : shd_warp_t) : result shd_warp_t :=
  _ ← check FrontEnd (Nat.ltb slot IBUFFER_SIZE); Ok (set_ibuffer (<[slot := mkSlot pI true]> (m_ibuffer w)) 0 w).
Definition ibuffer_empty (w : shd_warp_t) : bool := forallb (fun s => negb (m_valid s)) (m_ibuffer w).
Fixpoint flush_slots (n : nat) (w : shd_warp_t) : result shd_warp_t :=
  match n with
  | O => Ok w
  | S n =>
      w ← flush_slots n w;
      s ← lift FrontEnd (m_ibuffer w !! n);
      w ← (if m_valid s then dec_inst_in_pipeline w else Ok w);
      Ok (set_ibuffer (<[n := ibuffer_entry_new]> (m_ibuffer w)) (m_next w) w)
  end.
Definition ibuffer_flush (w : shd_warp_t) : result shd_warp_t := flush_slots IBUFFER_SIZE w.
Definition ibuffer_next (w : shd_warp_t) : result ibuffer_entry := lift FrontEnd (m_ibuffer w !! m_next w).
Definition ibuffer_free (w : shd_warp_t) : shd_warp_t := set_ibuffer (<[m_next w := ibuffer_entry_new]> (m_ibuffer w)) (m_next w) w.
Definition ibuffer_step (w : shd_warp_t) : shd_warp_t := set_ibuffer (m_ibuffer w) ((m_next w + 1) `mod` IBUFFER_SIZE)%nat w.
