(* ===== verification/FrontEnd.v ===== *)
(** The front end of a shader core ([shader_core_ctx] of [gpgpu-sim/shader.cc] and [gpu-sim.cc]):
    thread blocks start, warps fetch, decode and are issued by the loose round-robin scheduler,
    threads execute and exit, and finished warps give their block back. *)
From S2P Require Import Prelude SimtStack Scoreboard GpuCache Coalescer LocalMemory Barrier Warps.

(** ** State *)
Record front_config := mkFront {
  f_shader : shader_core_config; gpgpu_max_insn_issue_per_warp : nat; is_SC : bool; l1i_line_sz : Z; PROGRAM_MEM_START : Z;
  pipe_width_sp : nat; pipe_width_sfu : nat; pipe_width_mem : nat }.
(** What the timing model reads of a [ptx_thread_info]; a hardware thread and its block. *)
Record thread_info := mkThread { is_done : bool; get_pc : Z; get_return_pc : Z }.
Record thread_ctx_t := mkThreadCtx { t_cta_id : Z; t_active : bool }.
(** What executing an instruction does to a thread: whether its predicate turns it off, whether it leaves
    a callback, what it accesses, whether it exits, and where it goes on. *)
Record outcome := mkOutcome {
  o_skip : bool; o_callback : bool; o_space : memory_space; o_addr : Z; o_data_size : Z; o_exit : bool; o_pc : Z; o_return_pc : Z }.
Inductive cache_status := HIT | MISS | RESERVATION_FAIL.
Inductive ruby_stall_type := NO_RUBY_STALL | RUBY_SEQUENCER_STALL | RUBY_MSHR_STALL | RUBY_MSHR_ACCESS_NOT_ALLOWED.
#[global] Instance ruby_stall_type_eq_dec : EqDecision ruby_stall_type.
Proof. solve_decision. Defined.
Inductive pipe := SP | SFU | MEM.
#[global] Instance pipe_eq_dec : EqDecision pipe.
Proof. solve_decision. Defined.

(** The blocks: their hardware threads, the threads that run, and how many of each context. *)
Record blocks := mkBlocks {
  m_threadState : list thread_ctx_t; b_active_threads : gset nat; m_not_completed : Z; m_cta_status : list Z; m_n_active_cta : Z;
  m_kernel : option kernel_info_t; b_map : local_map; b_dynamic_cta_id : Z; b_dynamic_warp_id : Z }.

Section front_end.
(** The functional simulator: the state of the program, what an instruction does to a thread, the
    instruction at an address, where a block starts. *)
Context {Machine : Type} (ptx_exec_inst : Machine -> nat -> instruction -> Machine * outcome).
Context (ptx_fetch_inst : Z -> option instruction) (ptx_sim_init_thread : Machine -> nat -> Machine * (Z * Z)).
Variables (cfg : front_config) (now : Z).
Abbreviation shader := (f_shader cfg).
Definition threads_per_warp : nat := warp_size (c_core shader).
Definition max_warps_per_shader : nat := Z.to_nat (n_thread_per_shader shader) / threads_per_warp.

Record core := mkCore {
  m_warp : list shd_warp_t; m_barriers : barrier_set_t; m_thread : list (option thread_info); m_blocks : blocks;
  m_simt_stack : list simt_stack; m_scoreboard : Scoreboard; m_pipeline_reg : pipe -> register_set;
  m_inst_fetch_buffer : option (Z * nat); m_last_warp_fetched : nat; m_machine : Machine }.
Implicit Types (c : core) (w : shd_warp_t) (wid tid lane : nat) (p : issued).

Definition set_warps l c : core :=
  mkCore l (m_barriers c) (m_thread c) (m_blocks c) (m_simt_stack c) (m_scoreboard c) (m_pipeline_reg c) (m_inst_fetch_buffer c) (m_last_warp_fetched c) (m_machine c).
Definition set_barriers b c : core :=
  mkCore (m_warp c) b (m_thread c) (m_blocks c) (m_simt_stack c) (m_scoreboard c) (m_pipeline_reg c) (m_inst_fetch_buffer c) (m_last_warp_fetched c) (m_machine c).
Definition set_thread l m c : core :=
  mkCore (m_warp c) (m_barriers c) l (m_blocks c) (m_simt_stack c) (m_scoreboard c) (m_pipeline_reg c) (m_inst_fetch_buffer c) (m_last_warp_fetched c) m.
Definition set_blocks b c : core :=
  mkCore (m_warp c) (m_barriers c) (m_thread c) b (m_simt_stack c) (m_scoreboard c) (m_pipeline_reg c) (m_inst_fetch_buffer c) (m_last_warp_fetched c) (m_machine c).
Definition set_stacks l c : core :=
  mkCore (m_warp c) (m_barriers c) (m_thread c) (m_blocks c) l (m_scoreboard c) (m_pipeline_reg c) (m_inst_fetch_buffer c) (m_last_warp_fetched c) (m_machine c).
Definition set_board b c : core :=
  mkCore (m_warp c) (m_barriers c) (m_thread c) (m_blocks c) (m_simt_stack c) b (m_pipeline_reg c) (m_inst_fetch_buffer c) (m_last_warp_fetched c) (m_machine c).
Definition set_regs r c : core :=
  mkCore (m_warp c) (m_barriers c) (m_thread c) (m_blocks c) (m_simt_stack c) (m_scoreboard c) r (m_inst_fetch_buffer c) (m_last_warp_fetched c) (m_machine c).
Definition set_fetch f last c : core :=
  mkCore (m_warp c) (m_barriers c) (m_thread c) (m_blocks c) (m_simt_stack c) (m_scoreboard c) (m_pipeline_reg c) f last (m_machine c).
Definition on_warp wid (f : shd_warp_t -> result shd_warp_t) c : result core :=
  w ← lift FrontEnd (m_warp c !! wid); w ← f w; Ok (set_warps (<[wid := w]> (m_warp c)) c).
Definition warp wid c : result shd_warp_t := lift FrontEnd (m_warp c !! wid).

(** The loops over lists that may fail. *)
Fixpoint for_each {A S} (f : A -> S -> result S) (l : list A) (s : S) : result S :=
  match l with [] => Ok s | x :: l => s ← f x s; for_each f l s end.

Definition shader_core_ctx_new (sid : Z) (m : Machine) : result core :=
  barriers ← lift FrontEnd (barrier_set_new (Z.of_nat max_warps_per_shader) (max_cta_per_core shader));
  let threads := Z.to_nat (n_thread_per_shader shader) in
  Ok (mkCore (replicate max_warps_per_shader (shd_warp_new threads_per_warp)) barriers (replicate threads None)
    (mkBlocks (replicate threads (mkThreadCtx (u32 (-1)) false)) ∅ 0 (replicate (Z.to_nat MAX_CTA_PER_SHADER) 0) 0 None (mkLocal sid 0 0) 0 0)
    (replicate max_warps_per_shader []) (Scoreboard_new max_warps_per_shader)
    (fun r => register_set_new (match r with SP => pipe_width_sp cfg | SFU => pipe_width_sfu cfg | MEM => pipe_width_mem cfg end))
    None 0 m).

(** ** Threads *)
Definition ptx_thread_done tid c : result bool :=
  t ← lift FrontEnd (m_thread c !! tid); Ok (match t with None => true | Some t => is_done t end).
(** [warp_exit]: when every thread of the warp is done, it leaves the barriers. *)
Definition warp_threads wid : list nat := seq (wid * threads_per_warp) threads_per_warp.
Fixpoint all_done (l : list nat) c : result bool :=
  match l with [] => Ok true | tid :: l => d ← ptx_thread_done tid c; r ← all_done l c; Ok ((d : bool) && r) end.
Definition warp_exit wid c : result core :=
  done ← all_done (warp_threads wid) c;
  if (done : bool) then b ← lift FrontEnd (Barrier.warp_exit wid (m_barriers c)); Ok (set_barriers b c) else Ok c.

Definition make_valid (d : warp_inst_t) : warp_inst_t :=
  if m_per_scalar_thread_valid d then d
  else mkWarp (w_empty d) (w_op d) (w_memory_op d) (w_space d) (w_isatomic d) (data_size d) (w_active d)
    (replicate threads_per_warp (replicate (Z.to_nat MAX_ACCESSES_PER_INSN_PER_THREAD) 0)) true (m_mem_accesses_created d) (m_accessq d) (cycles d).
Definition with_addresses (rows : list (list Z)) (d : warp_inst_t) : warp_inst_t :=
  mkWarp (w_empty d) (w_op d) (w_memory_op d) (w_space d) (w_isatomic d) (data_size d) (w_active d) rows (m_per_scalar_thread_valid d)
    (m_mem_accesses_created d) (m_accessq d) (cycles d).
Definition with_space (s : memory_space) (size : Z) (d : warp_inst_t) : warp_inst_t :=
  mkWarp (w_empty d) (w_op d) (w_memory_op d) s (w_isatomic d) size (w_active d) (memreqaddr d) (m_per_scalar_thread_valid d)
    (m_mem_accesses_created d) (m_accessq d) (cycles d).
Definition set_not_active lane (d : warp_inst_t) : warp_inst_t :=
  mkWarp (w_empty d) (w_op d) (w_memory_op d) (w_space d) (w_isatomic d) (data_size d) (w_active d ∖ {[lane]}) (memreqaddr d) (m_per_scalar_thread_valid d)
    (m_mem_accesses_created d) (m_accessq d) (cycles d).
Definition with_atomic (d : warp_inst_t) : warp_inst_t :=
  mkWarp (w_empty d) (w_op d) (w_memory_op d) (w_space d) true (data_size d) (w_active d) (memreqaddr d) (m_per_scalar_thread_valid d)
    (m_mem_accesses_created d) (m_accessq d) (cycles d).
(** [set_addr] of one address and of several. *)
Fixpoint write_addrs (i : nat) (addrs : list Z) (row : list Z) : list Z :=
  match addrs with [] => row | a :: addrs => write_addrs (S i) addrs (<[i := a]> row) end.
Definition set_addr lane (addrs : list Z) (d : warp_inst_t) : result warp_inst_t :=
  let d := make_valid d in
  _ ← check Addresses (Z.of_nat (length addrs) <=? MAX_ACCESSES_PER_INSN_PER_THREAD);
  row ← lift Addresses (memreqaddr d !! lane);
  Ok (with_addresses (<[lane := write_addrs 0 addrs row]> (memreqaddr d)) d).
Definition add_callback lane p : issued :=
  let d := p_dyn p in
  let d := if m_per_scalar_thread_valid d then d else with_atomic (make_valid d) in
  mkIssued (p_wid p) (p_inst p) d ({[lane]} ∪ p_callbacks p).
Definition has_callback lane p : bool :=
  bool_decide (lane ∈ w_active (p_dyn p)) && m_per_scalar_thread_valid (p_dyn p) && bool_decide (lane ∈ p_callbacks p).
Definition get_addr lane (d : warp_inst_t) : result Z :=
  _ ← check Addresses (m_per_scalar_thread_valid d); lift Addresses (address_of d lane 0).

(** ** Execution *)
(** The call of [ptx_exec_inst] for a thread of a warp. *)
Definition exec_thread lane tid (st : core * issued) : result (core * issued) :=
  let '(c, p) := st in
  t ← lift Reconvergence (mjoin (m_thread c !! tid));
  _ ← check Functional (get_pc t =? i_pc (p_inst p));
  _ ← check Functional (negb (is_done t));
  let '(m, o) := ptx_exec_inst (m_machine c) tid (p_inst p) in
  let exits := negb (o_skip o) && o_exit o in
  let c := set_thread (<[tid := Some (mkThread exits (o_pc o) (o_return_pc o))]> (m_thread c)) m c in
  if o_skip o then Ok (c, with_dyn (set_not_active lane (p_dyn p)) p) else
  c ← (if exits then warp_exit (p_wid p) c else Ok c);
  let p := if o_callback o then add_callback lane p else p in
  d ← set_addr lane [o_addr o] (with_space (o_space o) (data_size (p_dyn p)) (p_dyn p));
  Ok (c, with_dyn (with_space (o_space o) (o_data_size o) d) p).
Definition checkExecutionStatusAndUpdate lane tid (st : core * issued) : result (core * issued) :=
  let '(c, p) := st in
  let i := i_static (p_inst p) in
  c ← (if has_callback lane p then on_warp (p_wid p) (fun w => Ok (inc_n_atomic w)) c else Ok c);
  c ← (if is_SC cfg && (is_load i || is_store i) &&
          bool_decide (w_space (p_dyn p) = global_space \/ w_space (p_dyn p) = local_space \/ w_space (p_dyn p) = param_space_local)
       then on_warp (p_wid p) (fun w => Ok (inc_n_gmem w)) c else Ok c);
  d ← (if is_local (w_space (p_dyn p)) && (is_load i || is_store i) then
         addr ← get_addr lane (p_dyn p);
         addrs ← lift Addresses (translate_local_memaddr shader (b_map (m_blocks c)) (u32 addr) (Z.of_nat tid) (c_num_shader shader) (data_size (p_dyn p)));
         set_addr lane addrs (p_dyn p)
       else Ok (p_dyn p));
  done ← ptx_thread_done tid c;
  c ← (if (done : bool) then on_warp (p_wid p) (fun w => w ← set_completed lane w; ibuffer_flush w) c else Ok c);
  Ok (c, with_dyn d p).
Definition execute_lane lane (st : core * issued) : result (core * issued) :=
  let '(c, p) := st in
  if negb (bool_decide (lane ∈ w_active (p_dyn p))) then Ok st else
  let tid := (threads_per_warp * p_wid p + lane)%nat in
  st ← exec_thread lane tid st; checkExecutionStatusAndUpdate lane tid st.
Definition execute_warp_inst_t (st : core * issued) : result (core * issued) := for_each execute_lane (seq 0 threads_per_warp) st.
Definition func_exec_inst (st : core * issued) : result (core * issued) :=
  '(c, p) ← execute_warp_inst_t st;
  if is_load (issued_inst p) || is_store (issued_inst p) then
    d ← lift Addresses (generate_mem_accesses (c_core shader) (p_dyn p)); Ok (c, with_dyn d p)
  else Ok (c, p).

(** ** Issue *)
Definition update_stack wid p c : result core :=
  done ← for_each (fun lane l => d ← ptx_thread_done (wid * threads_per_warp + lane) c; Ok (l ++ [d])) (seq 0 threads_per_warp) [];
  s ← lift FrontEnd (m_simt_stack c !! wid);
  let thread lane := mjoin (m_thread c !! (wid * threads_per_warp + lane)%nat) in
  s ← lift Reconvergence (updateSIMTStack threads_per_warp now (fun lane => nth lane done true) (fun lane => from_option get_pc 0 (thread lane))
    (fun lane => from_option get_return_pc 0 (thread lane)) (reconvergence_pc (p_inst p)) (op (i_static (p_inst p))) s);
  Ok (set_stacks (<[wid := s]> (m_simt_stack c)) c).
Definition put (r : pipe) (slot : nat) p c : core :=
  set_regs (fun r' => if decide (r' = r) then <[slot := Some p]> (m_pipeline_reg c r) else m_pipeline_reg c r') c.
(** The order of an issue: a barrier, a memory barrier, or the fence of sequential consistency. *)
Definition issue_order (i : instruction) wid c : result core :=
  if bool_decide (op (i_static i) = BARRIER_OP) then
    w ← warp wid c; b ← lift FrontEnd (warp_reaches_barrier (m_cta_id w) wid (m_barriers c)); Ok (set_barriers b c)
  else if bool_decide (op (i_static i) = MEMORY_BARRIER_OP) then on_warp wid (fun w => Ok (set_membar w)) c
  else
    w ← warp wid c;
    if is_SC cfg && (is_load (i_static i) || is_store (i_static i)) &&
       bool_decide (space (i_static i) = global_space \/ space (i_static i) = local_space) && (0 <? m_n_gmem w)
    then on_warp wid (fun w => Ok (set_sc_fence w)) c else Ok c.
(** What [ptx_fetch_inst] answers has been decoded when its kernel was loaded, which the first assertion
    of the code checks. *)
Definition issue_warp (r : pipe) (next_inst : instruction) (active_mask : gset nat) wid c : result core :=
  slot ← lift FrontEnd (get_free (m_pipeline_reg c r));
  c ← on_warp wid (fun w => Ok (ibuffer_free w)) c;
  '(c, p) ← func_exec_inst (c, issue next_inst active_mask wid);
  c ← issue_order next_inst wid c;
  c ← update_stack wid p c;
  b ← lift Registers (reserveRegisters wid (issued_inst p) (m_scoreboard c));
  c ← on_warp wid (fun w => Ok (set_next_pc (u32 (i_pc next_inst + isize next_inst)) w)) (set_board b c);
  Ok (put r slot p c).

(** *** The scheduler *)
Definition waiting wid c : result bool :=
  w ← warp wid c;
  if functional_done w then Ok true else
  at_barrier ← lift FrontEnd (warp_waiting_at_barrier (Z.to_nat (m_warp_id w)) (m_barriers c));
  if (at_barrier : bool) then Ok true else
  w' ← warp (Z.to_nat (m_warp_id w)) c;
  if m_membar w' then Ok true else Ok (0 <? m_n_atomic w).
Definition warp_mem_barrier_waiting_for_writes wid (i : instruction) c : result bool :=
  if bool_decide (op (i_static i) = MEMORY_BARRIER_OP) then lift FrontEnd (pendingWrites wid (m_scoreboard c)) else Ok false.
Definition control_hazard wid (pc : Z) c : result core := on_warp wid (fun w => ibuffer_flush (set_next_pc pc w)) c.

(** Why the load/store unit stalled, when it did; and what a check of a warp found: a valid
    instruction, one that is ready, and whether it was issued. *)
Variable ldst_stall : option ruby_stall_type.
Record found := mkFound { valid_inst : bool; ready_inst : bool; issued_now : bool }.
(** An instruction that is ready is issued to a pipe with room. *)
Definition issue_ready (i : instruction) wid c : result (core * bool) :=
  s ← lift FrontEnd (m_simt_stack c !! wid);
  active_mask ← lift Reconvergence (get_active_mask s);
  w ← warp wid c;
  _ ← check FrontEnd (inst_in_pipeline w);
  let o := op (i_static i) in
  if bool_decide (o = LOAD_OP \/ o = STORE_OP \/ o = MEMORY_BARRIER_OP) then
    if has_free (m_pipeline_reg c MEM) then
      if is_SC cfg && m_sc_fence w then Ok (c, false) else c ← issue_warp MEM i active_mask wid c; Ok (c, true)
    else _ ← check LoadStore (bool_decide (ldst_stall <> Some NO_RUBY_STALL)); Ok (c, false)
  else if has_free (m_pipeline_reg c SP) && negb (bool_decide (o = SFU_OP)) then c ← issue_warp SP i active_mask wid c; Ok (c, true)
  else if bool_decide (o = SFU_OP \/ o = ALU_SFU_OP) && has_free (m_pipeline_reg c SFU) then c ← issue_warp SFU i active_mask wid c; Ok (c, true)
  else Ok (c, false).
Definition try_issue wid c : result (core * found) :=
  w ← warp wid c;
  s ← ibuffer_next w;
  stack ← lift FrontEnd (m_simt_stack c !! wid);
  '(pc, _) ← lift Reconvergence (get_pdom_stack_top_info stack);
  match m_inst s with
  | Some i =>
      _ ← check FrontEnd (m_valid s);
      if negb (pc =? i_pc i) then c ← control_hazard wid pc c; Ok (c, mkFound false false false)
      else
        collision ← lift FrontEnd (checkCollision wid (i_static i) (m_scoreboard c));
        writes ← warp_mem_barrier_waiting_for_writes wid i c;
        if (collision : bool) then _ ← lift FrontEnd (checkDependCacheop wid (i_static i) (m_scoreboard c)); Ok (c, mkFound true false false)
        else if (writes : bool) then Ok (c, mkFound true false false)
        else '(c, issued) ← issue_ready i wid c; Ok (c, mkFound true true issued)
  | None => if m_valid s then c ← control_hazard wid pc c; Ok (c, mkFound false false false) else Ok (c, mkFound false false false)
  end.
Definition join_found (f g : found) : found :=
  mkFound (valid_inst f || valid_inst g) (ready_inst f || ready_inst g) (issued_now f || issued_now g).
(** The while loop for a warp; the fuel is the number of checks that are left, and a check follows
    only checks that issued. *)
Fixpoint issue_loop (checks : nat) wid c (f : found) : result (core * found) :=
  match checks with
  | O => Ok (c, f)
  | S checks =>
      wait ← waiting wid c;
      w ← warp wid c;
      if (wait : bool) || ibuffer_empty w then Ok (c, f) else
      '(c, g) ← try_issue wid c;
      c ← (if issued_now g then on_warp wid (fun w => Ok (ibuffer_step w)) c else Ok c);
      if issued_now g then issue_loop checks wid c (join_found f g) else Ok (c, join_found f g)
  end.
Record scheduler_unit := mkScheduler { supervised_warps : list nat; m_last_sup_id_issued : nat }.
Definition add_supervised_warp_id wid (s : scheduler_unit) : scheduler_unit := mkScheduler (supervised_warps s ++ [wid]) (m_last_sup_id_issued s).
(** The warps in turn until one issues. *)
Fixpoint schedule (s : scheduler_unit) (turns : list nat) c (f : found) : result (core * scheduler_unit * found) :=
  match turns with
  | [] => Ok (c, s, f)
  | i :: turns =>
      let supervised_id := ((m_last_sup_id_issued s + 1 + i) `mod` length (supervised_warps s))%nat in
      wid ← lift FrontEnd (supervised_warps s !! supervised_id);
      '(c, g) ← issue_loop (gpgpu_max_insn_issue_per_warp cfg) wid c (mkFound false false false);
      if issued_now g then Ok (c, mkScheduler (supervised_warps s) supervised_id, join_found f g)
      else schedule s turns c (join_found f g)
  end.
(** A cycle; it tells Ruby when the scheduler issued nothing. *)
Definition LooseRoundRobbin_cycle (s : scheduler_unit) c : result (core * scheduler_unit * bool) :=
  '(c, s, f) ← schedule s (seq 0 (length (supervised_warps s))) c (mkFound false false false);
  Ok (c, s, negb (valid_inst f) || negb (ready_inst f) || negb (issued_now f)).
Fixpoint issue_all (l : list scheduler_unit) c : result (core * list scheduler_unit * bool) :=
  match l with
  | [] => Ok (c, [], false)
  | s :: l => '(c, s, stalled) ← LooseRoundRobbin_cycle s c; '(c, l, rest) ← issue_all l c; Ok (c, s :: l, stalled || rest)
  end.

(** ** Fetch and decode *)
Definition decode c : result core :=
  match m_inst_fetch_buffer c with
  | None => Ok c
  | Some (pc, wid) =>
      let pI1 := ptx_fetch_inst pc in
      c ← on_warp wid (fun w => w ← ibuffer_fill 0 pI1 w; Ok (inc_inst_in_pipeline w)) c;
      c ← match pI1 with
          | None => Ok c
          | Some i =>
              match ptx_fetch_inst (u32 (pc + isize i)) with
              | None => Ok c
              | Some _ as pI2 => on_warp wid (fun w => w ← ibuffer_fill 1 pI2 w; Ok (inc_inst_in_pipeline w)) c
              end
          end;
      Ok (set_fetch None (m_last_warp_fetched c) c)
  end.
(** [register_cta_thread_exit]: the last thread of a block frees its barrier, the last block the
    kernel. *)
Definition with_status (l : list Z) (n : Z) (k : option kernel_info_t) (b : blocks) : blocks :=
  mkBlocks (m_threadState b) (b_active_threads b) (m_not_completed b) l n k (b_map b) (b_dynamic_cta_id b) (b_dynamic_warp_id b).
Definition register_cta_thread_exit (cta_num : Z) c : result core :=
  let b := m_blocks c in
  status ← lift FrontEnd (m_cta_status b !! Z.to_nat cta_num);
  _ ← check FrontEnd (0 <? status);
  let l := <[Z.to_nat cta_num := status - 1]> (m_cta_status b) in
  if negb (status - 1 =? 0) then Ok (set_blocks (with_status l (m_n_active_cta b) (m_kernel b) b) c) else
  let n := u32 (m_n_active_cta b - 1) in
  barriers ← lift FrontEnd (deallocate_barrier cta_num (m_barriers c));
  k ← (if n =? 0 then _ ← check FrontEnd (bool_decide (m_kernel b <> None)); Ok None else Ok (m_kernel b));
  Ok (set_barriers barriers (set_blocks (with_status l n k b) c)).
Definition deactivate tid (b : blocks) : blocks :=
  mkBlocks (alter (fun t => mkThreadCtx (t_cta_id t) false) tid (m_threadState b)) (b_active_threads b) (m_not_completed b) (m_cta_status b) (m_n_active_cta b)
    (m_kernel b) (b_map b) (b_dynamic_cta_id b) (b_dynamic_warp_id b).
Definition forget tid (b : blocks) : blocks :=
  mkBlocks (m_threadState b) (b_active_threads b ∖ {[tid]}) (u32 (m_not_completed b - 1)) (m_cta_status b) (m_n_active_cta b)
    (m_kernel b) (b_map b) (b_dynamic_cta_id b) (b_dynamic_warp_id b).
Definition exit_thread wid tid (st : core * bool) : result (core * bool) :=
  let '(c, did_exit) := st in
  t ← lift FrontEnd (m_threadState (m_blocks c) !! tid);
  if negb (t_active t) then Ok st else
  w ← warp wid c;
  c ← register_cta_thread_exit (m_cta_id w) (set_blocks (deactivate tid (m_blocks c)) c);
  let c := set_blocks (forget tid (m_blocks c)) c in
  _ ← check FrontEnd (bool_decide (mjoin (m_thread c !! tid) <> None));
  Ok (c, true).
(** A warp that has finished is reclaimed. *)
Definition reclaim wid c : result core :=
  w ← warp wid c;
  writes ← lift FrontEnd (pendingWrites wid (m_scoreboard c));
  if hardware_done w && negb writes && negb (m_done_exit w) then
    '(c, did_exit) ← for_each (exit_thread wid) (warp_threads wid) (c, false);
    if (did_exit : bool) then on_warp wid (fun w => Ok (set_done_exit w)) c else Ok c
  else Ok c.
(** The instruction cache answers an access for an address and a number of bytes. *)
Variable icache : Z -> Z -> cache_status.
Definition fetch_warp wid c : result core :=
  w ← warp wid c;
  let pc := m_next_pc w in
  let ppc := u32 (pc + PROGRAM_MEM_START cfg) in
  let offset_in_block := Z.land pc (u32 (l1i_line_sz cfg - 1)) in
  let nbytes := if l1i_line_sz cfg <? u32 (offset_in_block + 16) then u32 (l1i_line_sz cfg - offset_in_block) else 16 in
  match icache ppc nbytes with
  | MISS => on_warp wid (fun w => Ok (set_imiss true w)) (set_fetch (m_inst_fetch_buffer c) wid c)
  | HIT => Ok (set_fetch (Some (pc, wid)) wid c)
  | RESERVATION_FAIL => Ok (set_fetch (m_inst_fetch_buffer c) wid c)
  end.
Fixpoint fetch_loop (turns : list nat) (last : nat) c : result core :=
  match turns with
  | [] => Ok c
  | i :: turns =>
      let wid := ((last + 1 + i) `mod` max_warps_per_shader)%nat in
      c ← reclaim wid c;
      w ← warp wid c;
      if negb (functional_done w) && negb (m_imiss_pending w) && ibuffer_empty w then fetch_warp wid c else fetch_loop turns last c
  end.
(** The access that a miss waited for, when one is ready. *)
Definition fetch (access_ready : option nat) c : result core :=
  c ← match m_inst_fetch_buffer c with
      | None => fetch_loop (seq 0 max_warps_per_shader) (m_last_warp_fetched c) c
      | Some _ => Ok c
      end;
  match access_ready with None => Ok c | Some wid => on_warp wid (fun w => Ok (set_imiss false w)) c end.

(** ** Blocks *)
Definition reinit_state (tids : list nat) (b : blocks) : blocks :=
  mkBlocks (foldl (fun l tid => alter (fun t => mkThreadCtx (u32 (-1)) (t_active t)) tid l) (m_threadState b) tids) (b_active_threads b)
    (m_not_completed b) (m_cta_status b) (m_n_active_cta b) (m_kernel b) (b_map b) (b_dynamic_cta_id b) (b_dynamic_warp_id b).
Definition reinit (start_thread end_thread : nat) c : result core :=
  let c := set_blocks (reinit_state (seq start_thread (end_thread - start_thread)) (m_blocks c)) c in
  let first := (start_thread / threads_per_warp)%nat in
  for_each (fun wid c => c ← on_warp wid reset c; Ok (set_stacks (<[wid := []]> (m_simt_stack c)) c))
    (seq first (end_thread / threads_per_warp - first)) c.
Definition next_pc tid c : result Z := t ← lift FrontEnd (m_thread c !! tid); Ok (match t with None => u32 (-1) | Some t => get_pc t end).
Definition occupy (tids : gset nat) (b : blocks) : blocks :=
  mkBlocks (m_threadState b) (tids ∪ b_active_threads b) (u32 (m_not_completed b + Z.of_nat (size tids))) (m_cta_status b) (m_n_active_cta b)
    (m_kernel b) (b_map b) (b_dynamic_cta_id b) (u32 (b_dynamic_warp_id b + 1)).
Definition init_warp (cta_id start_pc : Z) (end_thread : nat) wid c : result core :=
  let lanes := filter (fun lane => (wid * threads_per_warp + lane < end_thread)%nat) (seq 0 threads_per_warp) in
  let tids : gset nat := list_to_set ((fun lane => wid * threads_per_warp + lane)%nat <$> lanes) in
  _ ← check FrontEnd (bool_decide (tids ## b_active_threads (m_blocks c)));
  let mask : gset nat := list_to_set lanes in
  let c := set_stacks (<[wid := launch start_pc mask]> (m_simt_stack c)) c in
  c ← on_warp wid (init start_pc cta_id wid mask (b_dynamic_cta_id (m_blocks c)) (b_dynamic_warp_id (m_blocks c))) c;
  Ok (set_blocks (occupy tids (m_blocks c)) c).
Definition init_warps (cta_id : Z) (start_thread end_thread : nat) c : result core :=
  start_pc ← next_pc start_thread c;
  let start_warp := (start_thread / threads_per_warp)%nat in
  let end_warp := (end_thread / threads_per_warp + if Nat.eqb (end_thread `mod` threads_per_warp) 0 then 0 else 1)%nat in
  for_each (init_warp cta_id start_pc end_thread) (seq start_warp (end_warp - start_warp)) c.
(** A hardware thread gets a new thread of the kernel; the old one must be done. *)
Definition bind_thread (cta_id : Z) tid c : result core :=
  t ← lift FrontEnd (m_thread c !! tid);
  _ ← check FrontEnd (match t with None => true | Some t => is_done t end);
  let '(m, (pc, return_pc)) := ptx_sim_init_thread (m_machine c) tid in
  let b := m_blocks c in
  let c := set_blocks (mkBlocks (<[tid := mkThreadCtx cta_id true]> (m_threadState b)) (b_active_threads b) (m_not_completed b) (m_cta_status b)
    (m_n_active_cta b) (m_kernel b) (b_map b) (b_dynamic_cta_id b) (b_dynamic_warp_id b)) c in
  Ok (set_thread (<[tid := Some (mkThread false pc return_pc)]> (m_thread c)) m c).
Definition free_cta (n : Z) (b : blocks) : option nat :=
  fst <$> list_find (fun i => m_cta_status b !! i = Some 0) (seq 0 (Z.to_nat n)).
Definition count_block (cta_id n : Z) (b : blocks) : blocks :=
  mkBlocks (m_threadState b) (b_active_threads b) (m_not_completed b) (<[Z.to_nat cta_id := n]> (m_cta_status b)) (m_n_active_cta b)
    (m_kernel b) (b_map b) (b_dynamic_cta_id b) (b_dynamic_warp_id b).
Definition start_block (b : blocks) : blocks :=
  mkBlocks (m_threadState b) (b_active_threads b) (m_not_completed b) (m_cta_status b) (u32 (m_n_active_cta b + 1))
    (m_kernel b) (b_map b) (u32 (b_dynamic_cta_id b + 1)) (b_dynamic_warp_id b).
Definition with_map (m : local_map) (k : option kernel_info_t) (b : blocks) : blocks :=
  mkBlocks (m_threadState b) (b_active_threads b) (m_not_completed b) (m_cta_status b) (m_n_active_cta b)
    k m (b_dynamic_cta_id b) (b_dynamic_warp_id b).
Definition issue_block2core (k : kernel_info_t) c : result core :=
  m ← lift FrontEnd (set_max_cta shader k (b_map (m_blocks c)));
  let c := set_blocks (with_map m (m_kernel (m_blocks c)) (m_blocks c)) c in
  free ← lift FrontEnd (free_cta (kernel_max_cta_per_shader m) (m_blocks c));
  padded ← lift FrontEnd (padded_cta_size shader (threads_per_cta k));
  let start_thread := (free * Z.to_nat padded)%nat in
  let end_thread := (start_thread + Z.to_nat (threads_per_cta k))%nat in
  let tids := seq start_thread (Z.to_nat (threads_per_cta k)) in
  c ← reinit start_thread end_thread c;
  c ← for_each (bind_thread (Z.of_nat free)) tids c;
  _ ← check FrontEnd ((0 <? threads_per_cta k) && (threads_per_cta k <=? n_thread_per_shader shader));
  let c := set_blocks (count_block (Z.of_nat free) (threads_per_cta k) (m_blocks c)) c in
  warps ← lift FrontEnd (foldr (fun tid s => s ← s; set_warp (tid / threads_per_warp)%nat s) (Some ∅) tids);
  b ← lift FrontEnd (allocate_barrier (Z.of_nat free) warps (m_barriers c));
  c ← init_warps (Z.of_nat free) start_thread end_thread (set_barriers b c);
  Ok (set_blocks (start_block (m_blocks c)) c).
(** The cluster's part for this core: a core that is empty takes a kernel, and gets a block of its
    kernel when there is room. *)
Definition set_kernel (k : kernel_info_t) c : core := set_blocks (with_map (b_map (m_blocks c)) (Some k) (m_blocks c)) c.
Definition cluster_issue_block (selected : option kernel_info_t) (more_ctas : bool) c : result core :=
  let c := match m_kernel (m_blocks c), selected with
           | None, Some k => if m_not_completed (m_blocks c) =? 0 then set_kernel k c else c
           | _, _ => c
           end in
  match m_kernel (m_blocks c) with
  | None => Ok c
  | Some k =>
      n ← lift FrontEnd (max_cta shader k);
      if more_ctas && (m_n_active_cta (m_blocks c) <? n) then issue_block2core k c else Ok c
  end.

(** ** What the pipelines call *)
Definition decrement_gmem_count wid (n : Z) : core -> result core :=
  on_warp wid (fun w => _ ← check FrontEnd (n <=? m_n_gmem w); Ok (dec_n_gmem n w)).
Definition decrement_atomic_count wid (n : Z) : core -> result core :=
  on_warp wid (fun w => _ ← check FrontEnd (n <=? m_n_atomic w); Ok (dec_n_atomic n w)).
Definition store_ack wid : core -> result core := on_warp wid dec_store_req.
Definition warp_clear_mem_barrier wid : core -> result core :=
  on_warp wid (fun w => _ ← check FrontEnd (Nat.ltb wid max_warps_per_shader); _ ← check FrontEnd (m_membar w); Ok (clear_membar w)).
(** [shader_core_ctx::writeback] for an instruction. *)
Definition write_back p c : result core :=
  b ← lift FrontEnd (releaseRegisters (p_wid p) (issued_inst p) (m_scoreboard c)); on_warp (p_wid p) dec_inst_in_pipeline (set_board b c).
(** The load/store unit: its registers are released one at a time or at the end, and its stores are
    counted; and the end of an instruction. *)
Definition release_register wid (r : Z) c : result core := b ← lift FrontEnd (releaseRegister wid r (m_scoreboard c)); Ok (set_board b c).
Definition release_registers p c : result core := b ← lift FrontEnd (releaseRegisters (p_wid p) (issued_inst p) (m_scoreboard c)); Ok (set_board b c).
Definition inc_store wid : core -> result core := on_warp wid (fun w => Ok (inc_store_req w)).
Definition instruction_done wid : core -> result core := on_warp wid dec_inst_in_pipeline.
End front_end.
