(* ===== verification/FrontEndSafe.v ===== *)
(** The front end of a shader core keeps its books: the invariant of its counts of threads, instructions
    and blocks, and that each step of [FrontEnd] keeps it without a failed assertion, whatever the
    program does. The theorem about its runs is in FrontEndRuns. *)
From S2P Require Import Prelude SimtStack Scoreboard GpuCache Coalescer LocalMemory Barrier Warps FrontEnd.

(** ** Computations that do not fail in the front end *)
Definition safe {A} (P : A -> Prop) (r : result A) : Prop := match r with Ok x => P x | Failed p => p <> FrontEnd end.
Lemma safe_bind {A B} (P : A -> Prop) (Q : B -> Prop) (r : result A) f : safe P r -> (forall x, P x -> safe Q (f x)) -> safe Q (r ≫= f).
Proof. destruct r as [x|p]; cbn; auto. Qed.
Lemma safe_mono {A} (P Q : A -> Prop) (r : result A) : safe P r -> (forall x, P x -> Q x) -> safe Q r.
Proof. destruct r as [x|p]; cbn; auto. Qed.
Lemma safe_ok {A} (P : A -> Prop) x : P x -> safe P (Ok x).
Proof. done. Qed.
(** An option that is a value, and one another part answers for. *)
Lemma safe_some {A B} (Q : B -> Prop) p (o : option A) f x : o = Some x -> safe Q (f x) -> safe Q (lift p o ≫= f).
Proof. by intros ->. Qed.
Lemma safe_other {A B} (Q : B -> Prop) p (o : option A) f : p <> FrontEnd -> (forall x, o = Some x -> safe Q (f x)) -> safe Q (lift p o ≫= f).
Proof. intros Hp H. destruct o as [x|]; cbn; [by apply H|done]. Qed.
Lemma safe_check {B} (Q : B -> Prop) b (r : result B) : b = true -> safe Q r -> safe Q (check FrontEnd b ≫= fun _ => r).
Proof. by intros ->. Qed.
Lemma safe_check_other {B} (Q : B -> Prop) p b (r : result B) : p <> FrontEnd -> (b = true -> safe Q r) -> safe Q (check p b ≫= fun _ => r).
Proof. intros Hp H. destruct b; cbn; [by apply H|done]. Qed.
Lemma safe_for_each {A S} (P : list A -> S -> Prop) f (l : list A) : forall done s, P done s ->
  (forall done x s, x ∈ l -> P done s -> safe (P (done ++ [x])) (f x s)) -> safe (P (done ++ l)) (for_each f l s).
Proof.
  induction l as [|x l IH]; intros d s Hs Hstep; cbn [for_each]; [by rewrite app_nil_r|].
  apply (safe_bind (P (d ++ [x]))); [apply Hstep; [by left|done]|]. intros s' Hs'. change (x :: l) with ([x] ++ l). rewrite app_assoc.
  apply IH; [done|]. intros; apply Hstep; [by right|done].
Qed.
Lemma safe_for_each_inv {A S} (P : S -> Prop) f (l : list A) s : P s -> (forall x s, x ∈ l -> P s -> safe P (f x s)) -> safe P (for_each f l s).
Proof. intros Hs Hstep. apply (safe_for_each (fun _ => P) f l [] s Hs). intros. by apply Hstep. Qed.
Lemma safe_for_each_at {A S} (P : list A -> S -> Prop) f (l : list A) s : P [] s ->
  (forall l1 x l2 s, l = l1 ++ x :: l2 -> P l1 s -> safe (P (l1 ++ [x])) (f x s)) -> safe (P l) (for_each f l s).
Proof.
  intros Hs Hstep. enough (forall l1 l2 s, l = l1 ++ l2 -> P l1 s -> safe (P l) (for_each f l2 s)) as Hall by by apply (Hall []).
  intros l1 l2. revert l1. induction l2 as [|x l2 IH]; intros l1 s1 E H1; cbn [for_each]; [rewrite app_nil_r in E; by subst|].
  eapply safe_bind; [by apply (Hstep l1 x l2)|]. intros s2. apply (IH (l1 ++ [x])). by rewrite <-app_assoc.
Qed.

(** ** The tables of the scoreboard keep their sizes *)
Lemma on_row_size f wid t t' : on_row f wid t = Some t' -> length t' = length t.
Proof. unfold on_row. intros H. run H. subst t'. apply length_insert. Qed.
Lemma on_row_some f wid t : (wid < length t)%nat -> exists t', on_row f wid t = Some t'.
Proof. intros H. destruct (lookup_lt_is_Some_2 t wid H) as [row Hr]. unfold on_row. rewrite Hr. by eexists. Qed.
Lemma for_regs_keeps {S} (P : S -> Prop) l f s s' : (forall r s s', P s -> f r s = Some s' -> P s') -> P s -> for_regs l f s = Some s' -> P s'.
Proof.
  intros Hf. revert s. induction l as [|r l IH]; intros s Hs H; cbn in H; [by injection H as <-|]. run H.
  destruct (0 <? r); [eauto|]. injection E as <-. eauto.
Qed.
Lemma reserve_size n wid i s s' : lengths n s -> reserveRegisters wid i s = Some s' -> lengths n s'.
Proof.
  unfold reserveRegisters. intros Hs H. run H.
  assert (lengths n x) as Hx.
  { eapply for_regs_keeps; [|exact Hs|exact E]. clear. intros r s s' (A & B & C) H. unfold reserveRegister in H. run H. subst s'.
    split; [cbn; by rewrite (on_row_size _ _ _ _ E0)|done]. }
  assert (forall (b : bool) s s' f, (forall r s s', lengths n s -> f r s = Some s' -> lengths n s') ->
    (if b then for_regs (out i) f s else Some s) = Some s' -> lengths n s -> lengths n s') as Hif.
  { clear. intros b s s' f Hf H Hs. destruct b; [eapply for_regs_keeps; eauto|]. by injection H as <-. }
  eapply Hif; [|exact H|]; [|eapply Hif; [|exact E0|done]]; clear; intros r s s' (A & B & C) H; [unfold mark_cache in H|unfold mark_long in H]; run H; subst s';
    (split; [done|]); cbn; rewrite ?(on_row_size _ _ _ _ E); done.
Qed.
Lemma release_ok n wid i s : lengths n s -> (wid < n)%nat -> exists s', releaseRegisters wid i s = Some s' /\ lengths n s'.
Proof.
  intros Hs Hw. unfold releaseRegisters. revert s Hs. induction (out i) as [|r l IH]; intros s Hs; cbn [for_regs]; [by exists s|].
  assert (exists s1, (if 0 <? r then releaseOne wid r s else Some s) = Some s1 /\ lengths n s1) as (s1 & -> & H1); [|by apply IH].
  destruct (0 <? r); [|by exists s]. destruct Hs as (A & B & C). unfold releaseOne.
  assert (exists s1, releaseRegister wid r s = Some s1 /\ lengths n s1) as (s1 & -> & A1 & B1 & C1).
  { unfold releaseRegister. destruct (lookup_lt_is_Some_2 (reg_table s) wid) as [row Hr]; [lia|]. rewrite Hr. cbn [mbind option_bind].
    destruct (negb _); [by exists s|]. destruct (on_row_some (fun row => row ∖ {[r]}) wid (reg_table s)) as [t Ht]; [lia|]. rewrite Ht.
    eexists. split; [done|]. split; [cbn; by rewrite (on_row_size _ _ _ _ Ht)|done]. }
  cbn [mbind option_bind]. destruct (on_row_some (fun row => row ∖ {[r]}) wid (longopregs s1)) as [t Ht]; [lia|]. rewrite Ht. cbn [mbind option_bind].
  destruct (on_row_some (fun row => row ∖ {[r]}) wid (cacheopregs s1)) as [u Hu]; [lia|]. rewrite Hu. eexists. split; [done|].
  split; [done|]. cbn. by rewrite (on_row_size _ _ _ _ Ht), (on_row_size _ _ _ _ Hu).
Qed.
Lemma row_some (t : list (gset Z)) n wid : length t = n -> (wid < n)%nat -> exists row, t !! wid = Some row.
Proof. intros <- H. destruct (lookup_lt_is_Some_2 t wid H) as [row Hr]. by exists row. Qed.

(** ** A warp *)
Section warp.
Variable W : nat.
Hypothesis W_ok : (0 < W <= MAX_WARP_SIZE)%nat.
Implicit Types (w : shd_warp_t) (al : gset nat) (wid lane n : nat).
Definition valid_slots w : nat := length (filter (fun s => m_valid s = true) (m_ibuffer w)).
(** The books of a warp: [al] are its lanes whose threads run, [n] its instructions in the pipeline
    beyond the buffer, and [act] says that it has threads of a block. *)
Record warp_inv al (act : Prop) n wid w : Prop := {
  wi_size : m_warp_size w = W;
  wi_active : m_active_threads w = al /\ forall lane, lane ∈ al -> (lane < W)%nat;
  wi_completed : n_completed w = Z.of_nat W - Z.of_nat (size al);
  wi_slots : length (m_ibuffer w) = IBUFFER_SIZE /\ (m_next w < IBUFFER_SIZE)%nat;
  wi_valid s : s ∈ m_ibuffer w -> m_inst s <> None -> m_valid s = true;
  wi_pipeline : m_inst_in_pipeline w = Z.of_nat (valid_slots w + n);
  wi_idle : al = ∅ -> ibuffer_empty w = true;
  wi_id : al <> ∅ -> m_warp_id w = Z.of_nat wid;
  wi_rest : ~ act -> m_stores_outstanding w = 0 /\ m_inst_in_pipeline w = 0 }.

Lemma lanes_size al : (forall lane, lane ∈ al -> (lane < W)%nat) -> (size al <= W)%nat.
Proof using Type.
  clear W_ok. intros H. assert (al ⊆ list_to_set (C := gset nat) (seq 0 W)) as Hs by (intros l Hl; apply elem_of_list_to_set, elem_of_seq; specialize (H l Hl); lia).
  apply subseteq_size in Hs. rewrite size_list_to_set in Hs by apply NoDup_seq. by rewrite length_seq in Hs.
Qed.
Lemma functional_done_iff al act n wid w : warp_inv al act n wid w -> functional_done w = true <-> al = ∅.
Proof using Type.
  clear W_ok. intros [H1 _ H3 _ _ _ _ _ _]. unfold functional_done. rewrite Z.eqb_eq, H1, H3. rewrite <-(leibniz_equiv_iff al), <-size_empty_iff. lia.
Qed.
(** Two entries, valid or not. *)
Lemma two_slots w : length (m_ibuffer w) = IBUFFER_SIZE -> exists s0 s1, m_ibuffer w = [s0; s1] /\
  valid_slots w = ((if m_valid s0 then 1 else 0) + (if m_valid s1 then 1 else 0))%nat /\
  ibuffer_empty w = negb (m_valid s0) && negb (m_valid s1).
Proof using Type.
  clear W_ok. unfold IBUFFER_SIZE, valid_slots, ibuffer_empty. destruct (m_ibuffer w) as [|s0 [|s1 [|]]]; try done. intros _. exists s0, s1. split; [done|].
  cbn [forallb]. rewrite !filter_cons, filter_nil, andb_true_r. by destruct (m_valid s0), (m_valid s1).
Qed.
Lemma warp_inv_slots al act n wid w : warp_inv al act n wid w -> exists s0 s1, m_ibuffer w = [s0; s1] /\
  valid_slots w = ((if m_valid s0 then 1 else 0) + (if m_valid s1 then 1 else 0))%nat /\ ibuffer_empty w = negb (m_valid s0) && negb (m_valid s1).
Proof using Type. clear W_ok. intros H. apply two_slots, H. Qed.

(** Changes that leave the books alone. *)
Lemma warp_inv_same al act n wid w w' : m_warp_size w' = m_warp_size w -> m_active_threads w' = m_active_threads w -> n_completed w' = n_completed w ->
  m_ibuffer w' = m_ibuffer w -> m_next w' = m_next w -> m_inst_in_pipeline w' = m_inst_in_pipeline w -> m_warp_id w' = m_warp_id w ->
  m_stores_outstanding w' = m_stores_outstanding w -> warp_inv al act n wid w -> warp_inv al act n wid w'.
Proof using Type.
  clear W_ok. intros E1 E2 E3 E4 E5 E6 E7 E8 [? ? ? ? ? ? ? ? ?]. split; unfold valid_slots, ibuffer_empty in *; rewrite ?E1, ?E2, ?E3, ?E4, ?E5, ?E6, ?E7, ?E8; done.
Qed.
Lemma warp_inv_act al (act act' : Prop) n wid w : (~ act' -> ~ act) -> warp_inv al act n wid w -> warp_inv al act' n wid w.
Proof using Type. clear W_ok. intros H [? ? ? ? ? ? ? ? ?]. split; auto. Qed.
Lemma warp_inv_step al act n wid w : warp_inv al act n wid w -> warp_inv al act n wid (ibuffer_step w).
Proof using Type.
  clear W_ok. intros [? ? ? [? ?] ? ? ? ? ?]. split; try done. split; [done|]. apply Nat.mod_upper_bound. done.
Qed.
(** An issue takes a valid entry out of the buffer into the pipeline. *)
Lemma warp_inv_free al act n wid w s : warp_inv al act n wid w -> m_ibuffer w !! m_next w = Some s -> m_valid s = true ->
  warp_inv al act (S n) wid (ibuffer_free w).
Proof using Type.
  clear W_ok. intros H Hs Hv. destruct (warp_inv_slots _ _ _ _ _ H) as (s0 & s1 & Hb & Hn & He).
  assert (length (m_ibuffer (ibuffer_free w)) = IBUFFER_SIZE) as Hl by (cbn; rewrite length_insert; apply H).
  destruct (two_slots _ Hl) as (t0 & t1 & Hb' & Hn' & He').
  destruct H as [? ? ? [? ?] Hvalid Hp Hidle ? ?]. unfold ibuffer_free, set_ibuffer in *. cbn [m_ibuffer] in *. rewrite Hb in Hb', Hs.
  assert (m_next w = 0%nat /\ t0 = ibuffer_entry_new /\ t1 = s1 /\ s = s0 \/ m_next w = 1%nat /\ t0 = s0 /\ t1 = ibuffer_entry_new /\ s = s1) as Hcase.
  { unfold IBUFFER_SIZE in *. destruct (m_next w) as [|[|]]; [left|right|lia]; cbn in Hb', Hs; injection Hb' as <- <-; injection Hs as <-; done. }
  split; try done; cbn [m_ibuffer m_next m_inst_in_pipeline m_active_threads n_completed m_warp_id m_stores_outstanding].
  - rewrite Hb, Hb'. intros x Hx Hi. rewrite !elem_of_cons in Hx.
    assert (x = ibuffer_entry_new \/ x ∈ m_ibuffer w) as [-> |Hin]; [|done|by apply Hvalid].
    rewrite Hb. destruct Hcase as [(_ & -> & -> & _)|(_ & -> & -> & _)]; set_solver.
  - rewrite Hn'. rewrite Hp, Hn. destruct Hcase as [(_ & -> & -> & ->)|(_ & -> & -> & ->)]; cbn [ibuffer_entry_new m_valid]; rewrite Hv; destruct (m_valid _); lia.
  - intros Ha. specialize (Hidle Ha). rewrite He in Hidle. apply andb_true_iff in Hidle as [Hi0 Hi1]. apply negb_true_iff in Hi0, Hi1.
    destruct Hcase as [(_ & _ & _ & ->)|(_ & _ & _ & ->)]; congruence.
Qed.

(** A flush gives the entries back. *)
Definition flushed (n : nat) w : shd_warp_t := set_ibuffer [ibuffer_entry_new; ibuffer_entry_new] (m_next w) (set_in_pipeline (Z.of_nat n) w).
Lemma flush_ok n w : length (m_ibuffer w) = IBUFFER_SIZE -> m_inst_in_pipeline w = Z.of_nat (valid_slots w + n) -> ibuffer_flush w = Ok (flushed n w).
Proof using Type.
  clear W_ok. intros Hl Hp. destruct (two_slots w Hl) as (s0 & s1 & Hb & Hn & _). unfold ibuffer_flush, IBUFFER_SIZE, flushed. rewrite Hn in Hp.
  destruct w. cbn in Hb, Hp. subst m_ibuffer. cbn. unfold dec_inst_in_pipeline. cbn. subst m_inst_in_pipeline.
  destruct (m_valid s0) eqn:E0; cbn; rewrite ?(proj2 (Z.ltb_lt _ _)) by lia; cbn; destruct (m_valid s1) eqn:E1; cbn; rewrite ?(proj2 (Z.ltb_lt _ _)) by lia; cbn;
    unfold set_ibuffer, set_in_pipeline; cbn; do 2 f_equal; lia.
Qed.
Lemma flushed_inv al act n wid w : m_warp_size w = W -> (m_active_threads w = al /\ forall lane, lane ∈ al -> (lane < W)%nat) ->
  n_completed w = Z.of_nat W - Z.of_nat (size al) -> (m_next w < IBUFFER_SIZE)%nat -> (al <> ∅ -> m_warp_id w = Z.of_nat wid) ->
  (~ act -> m_stores_outstanding w = 0 /\ n = 0%nat) -> warp_inv al act n wid (flushed n w).
Proof using Type.
  clear W_ok. intros H1 H2 H3 H4 H5 H6. split; try done; cbn.
  - intros s Hs Hi. assert (s = ibuffer_entry_new) as -> by set_solver. done.
  - intros Ha. destruct (H6 Ha) as [? ->]. done.
Qed.
Lemma hazard_ok al act n wid w pc : warp_inv al act n wid w -> exists w', ibuffer_flush (set_next_pc pc w) = Ok w' /\ warp_inv al act n wid w' /\ m_cta_id w' = m_cta_id w.
Proof using Type.
  clear W_ok. intros H. rewrite (flush_ok n); [|apply H..]. eexists. split; [done|]. split; [|done]. destruct H as [? ? ? [? ?] ? Hp ? ? Hr].
  apply flushed_inv; try done. intros Ha. destruct (Hr Ha) as [? Hz]. split; [done|]. lia.
Qed.
(** A thread that is done leaves its warp, and the buffer is flushed. *)
Lemma complete_ok al act n wid w lane : warp_inv al act n wid w -> lane ∈ al ->
  exists w', (w ← set_completed lane w; ibuffer_flush w) = Ok w' /\ warp_inv (al ∖ {[lane]}) act n wid w' /\ m_cta_id w' = m_cta_id w.
Proof using W_ok.
  intros H Hl. pose proof H as [H1 [H2 Hb] H3 [H4 H4'] _ Hp _ H7 Hr]. pose proof (lanes_size al Hb) as Hsz.
  assert (size al = S (size (al ∖ {[lane]}))) as Hs.
  { rewrite (union_difference_singleton_L lane al) at 1 by done. rewrite size_union, size_singleton by set_solver. done. }
  unfold set_completed. rewrite H2, bool_decide_eq_true_2 by done. rewrite (proj2 (Nat.ltb_lt _ _)) by (specialize (Hb lane Hl); unfold MAX_WARP_SIZE in *; lia). cbn [andb check mbind result_bind].
  rewrite (flush_ok n); [|done..]. eexists. split; [done|]. split; [|done]. apply flushed_inv; try done; cbn.
  - split; [done|]. intros l Hll. apply Hb. set_solver.
  - unfold MAX_WARP_SIZE in *. rewrite H3, u32_small by lia. lia.
  - intros _. apply H7. set_solver.
  - intros Ha. destruct (Hr Ha) as [? Hz]. split; [done|]. lia.
Qed.
(** Decoded instructions enter the buffer. *)
Definition filled (slot : nat) (pI : option instruction) (n : nat) w : shd_warp_t :=
  set_in_pipeline (Z.of_nat (S (valid_slots w + n))) (set_ibuffer (<[slot := mkSlot pI true]> (m_ibuffer w)) 0 w).
Lemma ibuffer_fill_ok al act n wid w slot pI s : warp_inv al act n wid w -> act -> al <> ∅ -> Z.of_nat n < 2 ^ 31 -> m_ibuffer w !! slot = Some s -> m_valid s = false ->
  exists w', (w ← ibuffer_fill slot pI w; Ok (inc_inst_in_pipeline w)) = Ok w' /\ warp_inv al act n wid w' /\ m_cta_id w' = m_cta_id w /\
    forall slot', slot' <> slot -> m_ibuffer w' !! slot' = m_ibuffer w !! slot'.
Proof using Type.
  clear W_ok. intros H Hact Hal Hn Hs Hv. destruct (warp_inv_slots _ _ _ _ _ H) as (s0 & s1 & Hb & Hc & _). pose proof (wi_pipeline _ _ _ _ _ H) as Hp.
  assert (slot < IBUFFER_SIZE)%nat as Hlt by (rewrite <-(proj1 (wi_slots _ _ _ _ _ H)); by apply lookup_lt_Some in Hs).
  unfold ibuffer_fill. rewrite (proj2 (Nat.ltb_lt _ _) Hlt). cbn [check mbind result_bind]. eexists. split; [done|].
  assert (m_ibuffer w !! slot = Some s) as Hs' by done. rewrite Hb in Hs'.
  set (l := <[slot := mkSlot pI true]> (m_ibuffer w)). assert (length l = IBUFFER_SIZE) as Hll by (unfold l; rewrite length_insert; apply H).
  destruct (two_slots (set_ibuffer l 0 w) Hll) as (t0 & t1 & Hb' & Hn' & _). cbn in Hb'.
  assert (u32 (m_inst_in_pipeline w + 1) = Z.of_nat (valid_slots (set_ibuffer l 0 w) + n)) as Hpipe.
  { rewrite Hp, u32_small by (rewrite Hc; destruct (m_valid s0), (m_valid s1); lia). rewrite Hn', Hc. unfold l in Hb'. rewrite Hb in Hb'. unfold IBUFFER_SIZE in Hlt.
    destruct slot as [|[|]]; [| |lia]; cbn in Hb', Hs'; injection Hb' as <- <-; injection Hs' as ->; rewrite Hv; cbn; destruct (m_valid _); lia. }
  split; [|split; [done|intros slot' Hne; change (l !! slot' = m_ibuffer w !! slot'); unfold l; by rewrite list_lookup_insert_ne]].
  destruct H as [? ? ? [? ?] Hvalid ? Hidle ? ?]. split; try done; cbn.
  - split; [done|]. unfold IBUFFER_SIZE. lia.
  - intros x Hx Hi. apply list_elem_of_lookup in Hx as [j Hx]. destruct (decide (j = slot)) as [->|Hne].
    + unfold l in Hx. rewrite list_lookup_insert_eq in Hx by (rewrite Hb; cbn; unfold IBUFFER_SIZE in Hlt; lia). by injection Hx as <-.
    + unfold l in Hx. rewrite list_lookup_insert_ne in Hx by done. apply Hvalid; [by eapply list_elem_of_lookup_2|done].
Qed.
(** An instruction leaves the pipeline. *)
Lemma dec_ok al act n wid w : warp_inv al act (S n) wid w -> exists w', dec_inst_in_pipeline w = Ok w' /\ warp_inv al act n wid w' /\ m_cta_id w' = m_cta_id w.
Proof using Type.
  clear W_ok. intros [? ? ? [? ?] ? Hp ? ? Hr]. unfold dec_inst_in_pipeline. rewrite (proj2 (Z.ltb_lt _ _)) by lia. eexists. split; [done|]. split; [|done].
  split; try done; unfold valid_slots in *; cbn; [lia|]. intros Ha. destruct (Hr Ha). lia.
Qed.
Lemma reset_ok n wid w : warp_inv ∅ False n wid w -> exists w', reset w = Ok w' /\ warp_inv ∅ False n wid w' /\ m_cta_id w' = m_cta_id w.
Proof using W_ok.
  intros [H1 [H2 Hb] H3 [H4 H4'] Hv Hp Hi _ Hr]. destruct (Hr (fun f => f)) as [Hr1 Hr2]. unfold reset. rewrite Hr1, Hr2. cbn. eexists. split; [done|]. split; [|done].
  split; try done; cbn; rewrite ?Hr2; [rewrite size_empty, H1; lia|split; [done|unfold IBUFFER_SIZE; lia]|]. rewrite <-Hr2. exact Hp.
Qed.
Lemma init_ok n wid w pc cta mask d e : warp_inv ∅ False n wid w -> (forall lane, lane ∈ mask -> (lane < W)%nat) ->
  exists w', init pc cta wid mask d e w = Ok w' /\ warp_inv mask True n wid w' /\ m_cta_id w' = cta.
Proof using W_ok.
  intros [H1 [H2 Hb] H3 [H4 H4'] Hv Hp Hi _ Hr] Hm. pose proof (lanes_size mask Hm). rewrite size_empty in H3. unfold init.
  rewrite (proj2 (Z.leb_le _ (n_completed w))) by lia. rewrite (proj2 (Z.leb_le (n_completed w) _)) by lia. cbn. eexists. split; [done|]. split; [|done].
  split; try done; cbn; [lia|]. intros _. by apply Hi.
Qed.
Lemma warp_new_inv wid : warp_inv ∅ False 0 wid (shd_warp_new W).
Proof using W_ok. split; cbn; try done; [rewrite size_empty; lia|unfold IBUFFER_SIZE; lia|set_solver]. Qed.
End warp.

(** ** The core *)
Record front_ok (cfg : front_config) : Prop := {
  fo_config : config_ok (f_shader cfg);
  fo_warps : Z.to_nat (n_thread_per_shader (f_shader cfg)) = (max_warps_per_shader cfg * threads_per_warp cfg)%nat;
  fo_bits : (0 < max_warps_per_shader cfg <= WARP_PER_CTA_MAX)%nat }.

Section core.
Context {Machine : Type}.
Variable cfg : front_config.
Hypothesis Hcfg : front_ok cfg.
Abbreviation core := (@core Machine).
Abbreviation W := (threads_per_warp cfg).
Abbreviation N := (max_warps_per_shader cfg).
Abbreviation shader := (f_shader cfg).
Implicit Types (c : core) (w : shd_warp_t) (b : blocks) (k : kernel_info_t) (wid tid lane i n : nat) (fl : nat -> nat) (l : list (option thread_info)).

Lemma W_ok : (0 < W <= MAX_WARP_SIZE)%nat.
Proof using Hcfg. destruct Hcfg as [[Hw _ _ _ _] _ _]. unfold c_warp_size, threads_per_warp, MAX_WARP_SIZE in *. lia. Qed.
Lemma tid_warp wid lane : (lane < W)%nat -> ((wid * W + lane) / W = wid /\ (wid * W + lane) `mod` W = lane)%nat.
Proof using Hcfg.
  pose proof W_ok. intros Hl. split; [symmetry; apply (Nat.div_unique _ _ _ lane); lia|symmetry; apply (Nat.mod_unique _ _ wid); lia].
Qed.
Lemma tid_split tid : (tid = tid / W * W + tid `mod` W /\ tid `mod` W < W)%nat.
Proof using Hcfg. pose proof W_ok. pose proof (Nat.div_mod tid W). pose proof (Nat.mod_upper_bound tid W). lia. Qed.

(** *** Threads that run *)
Definition alive l tid : bool := match l !! tid with Some (Some t) => negb (is_done t) | _ => false end.
Definition alive_lanes l wid : gset nat := list_to_set (filter (fun lane => alive l (wid * W + lane) = true) (seq 0 W)).
Lemma elem_of_alive_lanes l wid lane : lane ∈ alive_lanes l wid <-> (lane < W)%nat /\ alive l (wid * W + lane) = true.
Proof using Type. clear Hcfg. unfold alive_lanes. rewrite elem_of_list_to_set, list_elem_of_filter, elem_of_seq. intuition lia. Qed.
Definition busy b wid : Prop := exists tid, tid ∈ b_active_threads b /\ (tid / W = wid)%nat.

(** *** Blocks *)
(** The hardware threads of a block's context, and those of them it uses. *)
Definition P k : nat := Z.to_nat (padded shader (threads_per_cta k)).
Definition in_block k i tid : Prop := (tid / P k = i /\ tid `mod` P k < Z.to_nat (threads_per_cta k))%nat.
Definition block_threads b k i : gset nat := filter (fun tid => (tid / P k = i)%nat) (b_active_threads b).
Record blocks_inv b (cta : nat -> Z) (m : gmap Z warp_set_t) : Prop := {
  bk_none : m_kernel b = None -> b_active_threads b = ∅ /\ m = ∅ /\ forall i s, m_cta_status b !! i = Some s -> s = 0;
  bk_kernel k : m_kernel b = Some k -> kernel_ok shader k;
  bk_place k tid : m_kernel b = Some k -> tid ∈ b_active_threads b -> cta (tid / W)%nat = Z.of_nat (tid / P k) /\ in_block k (tid / P k) tid /\ (tid / P k < 32)%nat;
  bk_status k i s : m_kernel b = Some k -> m_cta_status b !! i = Some s -> s = Z.of_nat (size (block_threads b k i));
  bk_count : m_n_active_cta b = Z.of_nat (length (filter (fun s => 0 < s) (m_cta_status b)));
  bk_threads : m_not_completed b = Z.of_nat (size (b_active_threads b));
  bk_ctas k (x : Z) : m_kernel b = Some k -> (exists ws, m !! x = Some ws) <-> exists i, x = Z.of_nat i /\ block_threads b k i <> ∅;
  bk_warps k i ws wid : m_kernel b = Some k -> m !! Z.of_nat i = Some ws -> wid ∈ ws <-> in_block k i (wid * W) }.

(** *** The books of the core; [fl] counts the instructions of each warp that have left its buffer. *)
Definition cta_of c wid : Z := from_option m_cta_id 0 (m_warp c !! wid).
Definition barriers_inv l (s : barrier_set_t) : Prop :=
  (exists t, barriers_ok t s) /\ Barrier.m_max_cta_per_core s = max_cta_per_core shader /\ forall wid, wid ∈ m_warp_active s <-> alive_lanes l wid <> ∅.
Record core_inv fl c : Prop := {
  ci_lengths : length (m_warp c) = N /\ length (m_thread c) = (N * W)%nat /\ length (m_threadState (m_blocks c)) = (N * W)%nat /\
    length (m_simt_stack c) = N /\ lengths N (m_scoreboard c) /\ length (m_cta_status (m_blocks c)) = 32%nat;
  ci_warps wid w : m_warp c !! wid = Some w -> warp_inv W (alive_lanes (m_thread c) wid) (busy (m_blocks c) wid) (fl wid) wid w;
  ci_alive tid : alive (m_thread c) tid = true -> tid ∈ b_active_threads (m_blocks c);
  ci_bound tid : tid ∈ b_active_threads (m_blocks c) -> exists t, m_thread c !! tid = Some (Some t);
  ci_states tid t : m_threadState (m_blocks c) !! tid = Some t -> tid ∈ b_active_threads (m_blocks c) <-> t_active t = true;
  ci_barriers : barriers_inv (m_thread c) (m_barriers c);
  ci_blocks : blocks_inv (m_blocks c) (cta_of c) (m_cta_to_warps (m_barriers c)) }.
(** The warp that was fetched runs and has an empty buffer. *)
Definition fetch_inv c : Prop :=
  forall pc wid, m_inst_fetch_buffer c = Some (pc, wid) -> alive_lanes (m_thread c) wid <> ∅ /\ exists w, m_warp c !! wid = Some w /\ ibuffer_empty w = true.
(** What an operation on a warp leaves alone, and what one that issues nothing does. *)
Record frame wid c c' : Prop := {
  fr_warps v : v <> wid -> m_warp c' !! v = m_warp c !! v;
  fr_threads tid : (tid / W <> wid)%nat -> m_thread c' !! tid = m_thread c !! tid;
  fr_blocks : m_blocks c' = m_blocks c;
  fr_fetch : m_inst_fetch_buffer c' = m_inst_fetch_buffer c }.
Record keeps wid c c' : Prop := {
  kp_warps v : v <> wid -> m_warp c' !! v = m_warp c !! v;
  kp_threads tid : (tid / W <> wid)%nat -> m_thread c' !! tid = m_thread c !! tid;
  kp_blocks : m_blocks c' = m_blocks c;
  kp_fetch : m_inst_fetch_buffer c' = m_inst_fetch_buffer c;
  kp_regs : m_pipeline_reg c' = m_pipeline_reg c }.
Lemma keeps_frame wid c c' : keeps wid c c' -> frame wid c c'.
Proof using Type. clear Hcfg. intros [? ? ? ? ?]. by split. Qed.
Lemma keeps_refl wid c : keeps wid c c.
Proof using Type. clear Hcfg. by split. Qed.
Lemma keeps_trans wid c1 c2 c3 : keeps wid c1 c2 -> keeps wid c2 c3 -> keeps wid c1 c3.
Proof using Type.
  clear Hcfg. intros [A1 A2 A3 A4 A5] [B1 B2 B3 B4 B5]. split; [intros v Hv; by rewrite B1, A1|intros tid Ht; by rewrite B2, A2|congruence..].
Qed.
Lemma frame_trans wid c1 c2 c3 : frame wid c1 c2 -> frame wid c2 c3 -> frame wid c1 c3.
Proof using Type.
  clear Hcfg. intros [A1 A2 A3 A4] [B1 B2 B3 B4]. split; [intros v Hv; by rewrite B1, A1|intros tid Ht; by rewrite B2, A2|congruence..].
Qed.
Lemma alive_lanes_same l l' wid : (forall tid, (tid / W = wid)%nat -> alive l' tid = alive l tid) -> alive_lanes l' wid = alive_lanes l wid.
Proof using Hcfg.
  intros H. apply set_eq. intros lane. rewrite !elem_of_alive_lanes. split; intros [Hl Ha]; (split; [done|]);
    [rewrite <-H|rewrite H]; try done; by apply tid_warp.
Qed.
Lemma fetch_frame wid c c' w : fetch_inv c -> frame wid c c' -> m_warp c !! wid = Some w -> ibuffer_empty w = false -> fetch_inv c'.
Proof using Hcfg.
  intros Hf [K1 K2 _ K4] Hw He pc v Hv. rewrite K4 in Hv. destruct (Hf pc v Hv) as (Ha & w' & Hw' & He').
  assert (v <> wid) as Hne by congruence. split; [|exists w'; by rewrite K1].
  rewrite (alive_lanes_same (m_thread c)); [done|]. intros tid Ht. unfold alive. by rewrite K2 by congruence.
Qed.

(** The invariant reads these fields only. *)
Lemma core_inv_same fl c c' : m_warp c' = m_warp c -> m_thread c' = m_thread c -> m_blocks c' = m_blocks c -> m_barriers c' = m_barriers c ->
  length (m_simt_stack c') = length (m_simt_stack c) -> lengths N (m_scoreboard c') -> core_inv fl c -> core_inv fl c'.
Proof using Type.
  clear Hcfg. intros E1 E2 E3 E4 E5 Hs [? ? ? ? ? ? Hb]. split; rewrite ?E1, ?E2, ?E3, ?E4, ?E5; try done; [tauto|].
  assert (cta_of c' = cta_of c) as -> by (unfold cta_of; by rewrite E1). done.
Qed.
Lemma board_of fl c : core_inv fl c -> lengths N (m_scoreboard c).
Proof using Type. clear Hcfg. intros H. by destruct (ci_lengths _ _ H) as (_ & _ & _ & _ & ? & _). Qed.
(** A step of one warp: its threads may finish, its record changes. *)
Lemma rebuild fl fl' c wid w w' l' (m' : Machine) s' : core_inv fl c -> m_warp c !! wid = Some w -> length l' = length (m_thread c) ->
  (forall tid, (tid / W <> wid)%nat -> l' !! tid = m_thread c !! tid) -> (forall tid, alive l' tid = true -> alive (m_thread c) tid = true) ->
  (forall tid t, m_thread c !! tid = Some (Some t) -> exists t, l' !! tid = Some (Some t)) ->
  barriers_inv l' s' -> m_cta_to_warps s' = m_cta_to_warps (m_barriers c) ->
  warp_inv W (alive_lanes l' wid) (busy (m_blocks c) wid) (fl' wid) wid w' -> m_cta_id w' = m_cta_id w -> (forall v, v <> wid -> fl' v = fl v) ->
  core_inv fl' (set_warps (<[wid := w']> (m_warp c)) (set_barriers s' (set_thread l' m' c))).
Proof using Hcfg.
  intros [H1 H2 H3 H4 H5 H6 H7] Hw Hl Hother Hal Hnn Hs Hm Hw' Hc Hfl. split; cbn.
  - rewrite length_insert, Hl. done.
  - intros v x Hv. destruct (decide (v = wid)) as [->|Hne].
    + rewrite list_lookup_insert_eq in Hv by by eapply lookup_lt_Some. by injection Hv as <-.
    + rewrite list_lookup_insert_ne in Hv by done. rewrite Hfl by done. rewrite (alive_lanes_same (m_thread c)); [by apply H2|].
      intros tid Ht. unfold alive. by rewrite Hother by congruence.
  - intros tid Ht. by apply H3, Hal.
  - intros tid Ht. destruct (H4 tid Ht) as [t Htid]. by apply (Hnn tid t).
  - done.
  - done.
  - rewrite Hm. assert (forall v, cta_of (set_warps (<[wid:=w']> (m_warp c)) (set_barriers s' (set_thread l' m' c))) v = cta_of c v) as He.
    { intros v. unfold cta_of. cbn. destruct (decide (v = wid)) as [->|Hne]; [|by rewrite list_lookup_insert_ne].
      rewrite list_lookup_insert_eq by by eapply lookup_lt_Some. rewrite Hw. done. }
    destruct H7 as [B1 B2 B3 B4 B5 B6 B7 B8]. split; try done. intros k tid Hk Ht. rewrite He. by apply B3.
Qed.
(** A step that changes the record of a warp only. *)
Lemma set_warp_inv fl fl' c wid w w' : core_inv fl c -> m_warp c !! wid = Some w ->
  (warp_inv W (alive_lanes (m_thread c) wid) (busy (m_blocks c) wid) (fl wid) wid w ->
   warp_inv W (alive_lanes (m_thread c) wid) (busy (m_blocks c) wid) (fl' wid) wid w') -> m_cta_id w' = m_cta_id w -> (forall v, v <> wid -> fl' v = fl v) ->
  core_inv fl' (set_warps (<[wid := w']> (m_warp c)) c).
Proof using Hcfg.
  intros H Hw Hw' Hc Hfl. pose proof (ci_warps _ _ H wid w Hw) as Hi.
  pose proof (rebuild fl fl' c wid w w' (m_thread c) (m_machine c) (m_barriers c) H Hw) as Hr. destruct c. apply Hr; try done; [eauto|apply H|auto].
Qed.
Lemma on_warp_inv fl fl' c wid f : core_inv fl c -> (wid < N)%nat -> (forall v, v <> wid -> fl' v = fl v) ->
  (forall w, m_warp c !! wid = Some w -> warp_inv W (alive_lanes (m_thread c) wid) (busy (m_blocks c) wid) (fl wid) wid w ->
     safe (fun w' => warp_inv W (alive_lanes (m_thread c) wid) (busy (m_blocks c) wid) (fl' wid) wid w' /\ m_cta_id w' = m_cta_id w) (f w)) ->
  safe (fun c' => core_inv fl' c' /\ keeps wid c c' /\ m_barriers c' = m_barriers c /\ m_thread c' = m_thread c) (on_warp wid f c).
Proof using Hcfg.
  intros H Hwid Hfl Hf. destruct (lookup_lt_is_Some_2 (m_warp c) wid) as [w Hw]; [by rewrite (proj1 (ci_lengths _ _ H))|].
  unfold on_warp. rewrite Hw. cbn [lift mbind result_bind]. pose proof (Hf w Hw (ci_warps _ _ H wid w Hw)) as Hs. destruct (f w) as [w'|p]; [|done].
  destruct Hs as [Hi Hc]. cbn. split; [by apply (set_warp_inv fl fl' c wid w)|]. split; [|done]. split; try done. intros v Hv. cbn. by rewrite list_lookup_insert_ne.
Qed.

(** *** Execution of a lane *)
Lemma warp_at fl c wid : core_inv fl c -> (wid < N)%nat -> exists w, m_warp c !! wid = Some w.
Proof using Type. clear Hcfg. intros H Hw. destruct (lookup_lt_is_Some_2 (m_warp c) wid) as [w ?]; [by rewrite (proj1 (ci_lengths _ _ H))|]. by exists w. Qed.
Lemma lane_bound wid lane : (wid < N)%nat -> (lane < W)%nat -> (wid * W + lane < N * W)%nat.
Proof using Type. clear Hcfg. intros. nia. Qed.
Lemma warps_bound wid : (wid < N)%nat -> (wid < WARP_PER_CTA_MAX)%nat.
Proof using Hcfg. pose proof (fo_bits _ Hcfg). lia. Qed.
Lemma thread_done_ok c tid : (tid < length (m_thread c))%nat -> ptx_thread_done tid c = Ok (negb (alive (m_thread c) tid)).
Proof using Type.
  clear Hcfg. intros Ht. destruct (lookup_lt_is_Some_2 (m_thread c) tid Ht) as [t Htid]. unfold ptx_thread_done, alive. rewrite Htid. cbn.
  destruct t as [t|]; [|done]. by rewrite negb_involutive.
Qed.
Lemma all_done_ok c (l : list nat) : (forall tid, tid ∈ l -> (tid < length (m_thread c))%nat) ->
  all_done l c = Ok (forallb (fun tid => negb (alive (m_thread c) tid)) l).
Proof using Type.
  clear Hcfg. induction l as [|tid l IH]; intros Hl; [done|]. cbn [all_done forallb]. rewrite thread_done_ok by (apply Hl; by left). cbn [mbind result_bind].
  rewrite IH by (intros; apply Hl; by right). done.
Qed.
Lemma warp_done_ok c wid : length (m_thread c) = (N * W)%nat -> (wid < N)%nat ->
  all_done (warp_threads cfg wid) c = Ok (bool_decide (alive_lanes (m_thread c) wid = ∅)).
Proof using Type.
  clear Hcfg. intros Hl Hw. rewrite all_done_ok.
  2:{ intros tid Ht. unfold warp_threads in Ht. apply elem_of_seq in Ht. rewrite Hl. pose proof (lane_bound wid (tid - wid * W)) as Hb. lia. }
  f_equal. apply Bool.eq_iff_eq_true. rewrite bool_decide_eq_true, forallb_forall. split.
  - intros H. apply elem_of_equiv_empty_L. intros lane (Hlane & Ha)%elem_of_alive_lanes. specialize (H (wid * W + lane)%nat).
    rewrite Ha in H. cbn in H. apply (diff_false_true). apply H. apply list_elem_of_In. unfold warp_threads. apply elem_of_seq. lia.
  - intros He tid Ht. apply list_elem_of_In, elem_of_seq in Ht. destruct (alive (m_thread c) tid) eqn:Ha; [|done]. exfalso.
    apply (not_elem_of_empty (C := gset nat) (tid - wid * W)%nat). rewrite <-He. apply elem_of_alive_lanes. split; [lia|]. by replace (wid * W + (tid - wid * W))%nat with tid by lia.
Qed.
(** A warp whose last thread has exited leaves the barriers. *)
Lemma exit_barrier fl c wid l' : core_inv fl c -> (wid < N)%nat -> alive_lanes (m_thread c) wid <> ∅ -> wid ∉ m_warp_at_barrier (m_barriers c) ->
  alive_lanes l' wid = ∅ -> (forall v, v <> wid -> alive_lanes l' v = alive_lanes (m_thread c) v) ->
  exists s', Barrier.warp_exit wid (m_barriers c) = Some s' /\ barriers_inv l' s' /\ m_cta_to_warps s' = m_cta_to_warps (m_barriers c) /\
    wid ∉ m_warp_at_barrier s'.
Proof using Hcfg.
  intros H Hw Hal Hn Hl' Hother. destruct (ci_barriers _ _ H) as ((t & Hok) & Hmax & Hact). pose proof (proj2 (Hact wid) Hal) as Hin.
  destruct (bo_active _ _ Hok wid Hin) as (cta_id & ws & Hc & Hws).
  destruct (exit_ok t (m_barriers c) wid Hok) as (s' & Hs & Hok'); [exists cta_id; split; [by exists ws|done]|]. exists s'. split; [done|].
  assert (m_cta_to_warps s' = m_cta_to_warps (m_barriers c) /\ Barrier.m_max_cta_per_core s' = max_cta_per_core shader /\
    (forall v, v ∈ m_warp_active s' <-> v ∈ m_warp_active (m_barriers c) /\ v <> wid) /\ wid ∉ m_warp_at_barrier s') as (Hm & Hmax' & Hact' & Hn').
  { unfold Barrier.warp_exit in Hs. rewrite reset_warp_ok in Hs by by apply warps_bound. cbn [mbind option_bind with_active m_cta_to_warps] in Hs.
    destruct (find_cta _ _) as [ws'|]; [|done]. cbn in Hs. injection Hs as <-. destruct (release_fields ws' (with_active (m_warp_active (m_barriers c) ∖ {[wid]}) (m_barriers c))) as (E1 & E2 & E3 & _ & E5).
    rewrite E1, E2, E3. split; [done|]. split; [done|]. split; [intros v; cbn; set_solver|]. intros Hx%E5. done. }
  split; [|done]. split; [by exists (Exit wid :: t)|]. split; [done|]. intros v. rewrite Hact', Hact. destruct (decide (v = wid)) as [->|Hne]; [naive_solver|].
  rewrite Hother by done. tauto.
Qed.

(** What a lane sees on its way: the warp runs, and a barrier instruction leaves its threads. *)
Definition lane_post wid (i : instruction) c (al : gset nat) (st : core * issued) : Prop :=
  keeps wid c st.1 /\ p_wid st.2 = wid /\ p_inst st.2 = i /\ (wid ∉ m_warp_at_barrier (m_barriers st.1)) /\
  (op (i_static i) = BARRIER_OP -> alive_lanes (m_thread st.1) wid = al).
(** The counters of outstanding operations are no concern. *)
Definition remembers w w' : Prop := exists n_atomic n_gmem membar fence, w' = set_memory n_atomic n_gmem membar fence w.
Lemma remembers_refl w : remembers w w.
Proof using Type. clear Hcfg. exists (m_n_atomic w), (m_n_gmem w), (m_membar w), (m_sc_fence w). by destruct w. Qed.
Lemma remembers_inv al act n wid w w' : remembers w w' -> warp_inv W al act n wid w -> warp_inv W al act n wid w' /\ m_cta_id w' = m_cta_id w.
Proof using Type. clear Hcfg. intros (a & g & b & f & ->) H. split; [|done]. eapply warp_inv_same; [..|exact H]; done. Qed.

Section lane.
Context (ptx_exec_inst : Machine -> nat -> instruction -> Machine * outcome).
(** No thread exits at a barrier instruction. *)
Hypothesis bar_stays : forall m tid (i : instruction), op (i_static i) = BARRIER_OP -> o_exit (ptx_exec_inst m tid i).2 = false.
Variables (wid lane : nat).
Hypotheses (Hwid : (wid < N)%nat) (Hlane : (lane < W)%nat).
Abbreviation tid := (W * wid + lane)%nat.
Lemma tid_at : tid = (wid * W + lane)%nat /\ (tid / W)%nat = wid.
Proof using Hcfg Hlane. clear Hwid. split; [lia|]. rewrite (Nat.mul_comm W). by apply tid_warp. Qed.

(** The threads after the lane has executed, [done] or not. *)
Record stepped (done : bool) (l l' : list (option thread_info)) : Prop := {
  sp_length : length l' = length l;
  sp_other t : t <> tid -> l' !! t = l !! t;
  sp_was : alive l tid = true;
  sp_is : alive l' tid = negb done;
  sp_bound : exists t, l' !! tid = Some (Some t) }.
Lemma stepped_alive d l l' t : stepped d l l' -> alive l' t = true -> alive l t = true.
Proof using Type. clear Hcfg Hlane Hwid bar_stays. intros [_ H1 H2 _ _] Ht. destruct (decide (t = tid)) as [->|]; [done|]. unfold alive in *. by rewrite H1 in Ht. Qed.
Lemma stepped_lanes d l l' : stepped d l l' -> alive_lanes l' wid = (if d then alive_lanes l wid ∖ {[lane]} else alive_lanes l wid) /\
  lane ∈ alive_lanes l wid /\ forall v, v <> wid -> alive_lanes l' v = alive_lanes l v.
Proof using Hcfg Hlane.
  clear Hwid bar_stays. intros [_ H1 H2 H3 _]. destruct tid_at as [Et Ew]. split; [|split].
  - assert (forall x, (x < W)%nat -> x <> lane -> alive l' (wid * W + x) = alive l (wid * W + x)) as Hx by (intros x ? ?; unfold alive; rewrite H1 by lia; done).
    apply set_eq. intros x. assert (x ∈ (if d then alive_lanes l wid ∖ {[lane]} else alive_lanes l wid) <-> x ∈ alive_lanes l wid /\ (d = true -> x <> lane)) as -> by (destruct d; set_solver).
    rewrite !elem_of_alive_lanes. destruct (decide (x = lane)) as [->|Hne].
    + rewrite <-Et, H2, H3. destruct d; cbn; naive_solver.
    + split; [intros [Hl Ha]; rewrite Hx in Ha by done; auto|intros [[Hl Ha] _]; split; [done|]; by rewrite Hx].
  - apply elem_of_alive_lanes. by rewrite <-Et.
  - intros v Hv. apply alive_lanes_same. intros t Ht. unfold alive. rewrite H1; [done|]. intros ->. congruence.
Qed.
(** What the call of the functional simulator leaves. *)
Definition exec_post c (i : instruction) (st : core * issued) : Prop :=
  exists d l' m' s', st.1 = set_barriers s' (set_thread l' m' c) /\ stepped d (m_thread c) l' /\ barriers_inv l' s' /\
    m_cta_to_warps s' = m_cta_to_warps (m_barriers c) /\ (wid ∉ m_warp_at_barrier s') /\ p_wid st.2 = wid /\ p_inst st.2 = i /\
    (op (i_static i) = BARRIER_OP -> d = false).
Lemma exec_thread_ok fl c p : core_inv fl c -> p_wid p = wid -> wid ∉ m_warp_at_barrier (m_barriers c) ->
  safe (exec_post c (p_inst p)) (exec_thread ptx_exec_inst cfg lane tid (c, p)).
Proof using Hcfg Hlane Hwid bar_stays.
  intros H Hp Hn. unfold exec_thread. apply safe_other; [done|]. intros t Ht. destruct (m_thread c !! tid) as [[t'|]|] eqn:Htid; try done. cbn in Ht. injection Ht as ->.
  apply safe_check_other; [done|]. intros _. apply safe_check_other; [done|]. intros Hd.
  pose proof (bar_stays (m_machine c) tid (p_inst p)) as Hbar. destruct (ptx_exec_inst (m_machine c) tid (p_inst p)) as [m o]. cbn in Hbar.
  set (d := negb (o_skip o) && o_exit o). set (l' := <[tid := Some (mkThread d (o_pc o) (o_return_pc o))]> (m_thread c)).
  assert (tid < length (m_thread c))%nat as Hlt by by eapply lookup_lt_Some.
  assert (stepped d (m_thread c) l') as Hst.
  { unfold l'. split; [by rewrite length_insert|intros x Hx; by rewrite list_lookup_insert_ne|unfold alive; by rewrite Htid| |rewrite list_lookup_insert_eq by done; by eexists].
    unfold alive. by rewrite list_lookup_insert_eq by done. }
  destruct (stepped_lanes d (m_thread c) l' Hst) as (Hlanes & Hin & Hother).
  assert (op (i_static (p_inst p)) = BARRIER_OP -> d = false) as Hbd by (intros Hb; unfold d; rewrite Hbar by done; apply andb_false_r).
  assert (d = false -> barriers_inv l' (m_barriers c)) as Hsame.
  { intros Hdf. rewrite Hdf in Hlanes. destruct (ci_barriers _ _ H) as (? & ? & Hact). split; [done|]. split; [done|]. intros v. rewrite Hact.
    destruct (decide (v = wid)) as [->|]; [by rewrite Hlanes|by rewrite Hother]. }
  assert (forall s' p' (q : result warp_inst_t) (f : warp_inst_t -> issued), barriers_inv l' s' -> m_cta_to_warps s' = m_cta_to_warps (m_barriers c) -> wid ∉ m_warp_at_barrier s' ->
     p_wid p' = wid -> p_inst p' = p_inst p -> (forall x, p_wid (f x) = p_wid p' /\ p_inst (f x) = p_inst p') -> (forall x, q = Failed x -> x <> FrontEnd) ->
     safe (exec_post c (p_inst p)) (dd ← q; Ok (set_barriers s' (set_thread l' m c), f dd))) as Hdone.
  { intros s' p' q f Hs Hm Hnb Hw Hi Hf Hq. destruct q as [dd|x]; [|cbn; by apply Hq]. cbn. destruct (Hf dd) as [F1 F2]. exists d, l', m, s'. cbn [fst snd]. rewrite F1, F2, Hw, Hi. done. }
  destruct (o_skip o) eqn:Hskip.
  - assert (d = false) as Hdf by (unfold d; done). specialize (Hdone (m_barriers c) p (Ok (set_not_active lane (p_dyn p))) (fun x => with_dyn x p)).
    destruct c. apply Hdone; try done. by apply Hsame.
  - assert (forall s', barriers_inv l' s' -> m_cta_to_warps s' = m_cta_to_warps (m_barriers c) -> wid ∉ m_warp_at_barrier s' -> safe (exec_post c (p_inst p))
       (let p := if o_callback o then add_callback cfg lane p else p in
        dd ← set_addr cfg lane [o_addr o] (with_space (o_space o) (data_size (p_dyn p)) (p_dyn p));
        Ok (set_barriers s' (set_thread l' m c), with_dyn (with_space (o_space o) (o_data_size o) dd) p))) as Hrest.
    { intros s' Hs Hm Hnb. apply (Hdone s' (if o_callback o then add_callback cfg lane p else p) _
        (fun dd => with_dyn (with_space (o_space o) (o_data_size o) dd) (if o_callback o then add_callback cfg lane p else p))); try done; [by destruct (o_callback o)..|].
      intros x. unfold set_addr. destruct (Z.of_nat _ <=? _); cbn; [|by intros [= <-]]. destruct (memreqaddr _ !! lane); cbn; [done|by intros [= <-]]. }
    fold d. destruct d eqn:Hdd; cbn [mbind result_bind].
    + unfold warp_exit. rewrite Hp, warp_done_ok by (cbn; try (rewrite (sp_length _ _ _ Hst); by destruct (ci_lengths _ _ H) as (_ & ? & _)); done).
      cbn [mbind result_bind m_thread set_thread].
      case_bool_decide as He.
      * destruct (exit_barrier fl c wid l' H Hwid) as (s' & Hs & Hsi & Hsm & Hsn); [set_solver|done|done|done|]. cbn [m_barriers set_thread]. rewrite Hs. cbn [lift mbind result_bind].
        by apply Hrest.
      * destruct c. apply Hrest; try done. destruct (ci_barriers _ _ H) as (? & ? & Hact). split; [done|]. split; [done|]. intros v. rewrite Hact.
        destruct (decide (v = wid)) as [->|]; [set_solver|by rewrite Hother].
    + destruct c. apply Hrest; try done. by apply Hsame.
Qed.
(** The record of the warp on the way through [checkExecutionStatusAndUpdate]. *)
Definition counting c w c' : Prop := exists w', remembers w w' /\ c' = set_warps (<[wid := w']> (m_warp c)) c.
Lemma count_step c w f (b : bool) c1 : m_warp c !! wid = Some w -> counting c w c1 ->
  (forall x, remembers w x -> exists y, f x = Ok y /\ remembers w y) -> safe (counting c w) (if b then on_warp wid f c1 else Ok c1).
Proof using Type.
  clear Hcfg Hwid Hlane bar_stays. intros Hw (w1 & H1 & ->) Hf. destruct b; [|cbn; by exists w1]. unfold on_warp. cbn [set_warps m_warp].
  rewrite list_lookup_insert_eq by by eapply lookup_lt_Some. cbn [lift mbind result_bind]. destruct (Hf w1 H1) as (w2 & -> & H2). cbn. exists w2. split; [done|].
  unfold set_warps. cbn. by rewrite list_insert_insert_eq.
Qed.
Lemma remembers_set w x a g (mb sf : bool) : remembers w x -> remembers w (set_memory a g mb sf x).
Proof using Type. clear Hcfg Hwid Hlane bar_stays. intros (a' & g' & b' & f' & ->). by exists a, g, mb, sf. Qed.
Lemma addresses_bind {B} (Q : B -> Prop) (r : result warp_inst_t) f : (forall x, r = Failed x -> x <> FrontEnd) -> (forall d, safe Q (f d)) -> safe Q (r ≫= f).
Proof using Type. clear Hcfg Hwid Hlane bar_stays. intros Hr Hf. destruct r as [d|x]; cbn; [apply Hf|by apply Hr]. Qed.
Lemma set_addr_fails n (addrs : list Z) (d : warp_inst_t) x : set_addr cfg n addrs d = Failed x -> x <> FrontEnd.
Proof using Type.
  clear Hcfg Hwid Hlane bar_stays. unfold set_addr. destruct (Z.of_nat _ <=? _); cbn; [|by intros [= <-]]. destruct (memreqaddr _ !! n); cbn; [done|by intros [= <-]].
Qed.
Lemma check_execution_ok fl c c1 p l' m' s' d : core_inv fl c -> c1 = set_barriers s' (set_thread l' m' c) -> stepped d (m_thread c) l' -> barriers_inv l' s' ->
  m_cta_to_warps s' = m_cta_to_warps (m_barriers c) -> p_wid p = wid ->
  safe (fun st => core_inv fl st.1 /\ keeps wid c st.1 /\ m_barriers st.1 = s' /\ m_thread st.1 = l' /\ p_wid st.2 = wid /\ p_inst st.2 = p_inst p)
    (checkExecutionStatusAndUpdate cfg lane tid (c1, p)).
Proof using Hcfg Hlane Hwid.
  clear bar_stays. intros H -> Hst Hs Hm Hp. unfold checkExecutionStatusAndUpdate. rewrite Hp. destruct (warp_at fl c wid H Hwid) as [w Hw].
  destruct (stepped_lanes d (m_thread c) l' Hst) as (Hlanes & Hin & Hother). set (c1 := set_barriers s' (set_thread l' m' c)).
  assert (m_warp c1 !! wid = Some w) as Hw1 by done.
  assert (counting c1 w c1) as H0 by (exists w; split; [apply remembers_refl|unfold set_warps; rewrite list_insert_id by done; by destruct c]).
  eapply safe_bind; [apply (count_step c1 w); [done|exact H0|]|].
  { intros x Hx. eexists. split; [done|]. by apply remembers_set. }
  intros c2 H2. eapply safe_bind; [apply (count_step c1 w); [done|exact H2|]|].
  { intros x Hx. eexists. split; [done|]. by apply remembers_set. }
  intros c3 (w3 & H3 & ->). apply addresses_bind.
  { intros x. destruct (_ && _); [|done]. unfold get_addr. destruct (m_per_scalar_thread_valid _); cbn; [|by intros [= <-]].
    destruct (address_of _ _ _); cbn; [|by intros [= <-]]. destruct (translate_local_memaddr _ _ _ _ _ _); cbn; [apply set_addr_fails|by intros [= <-]]. }
  intros dd. assert (tid < length (m_thread (set_warps (<[wid:=w3]> (m_warp c1)) c1)))%nat as Hlt.
  { cbn. destruct (sp_bound _ _ _ Hst) as [t Ht]. by eapply lookup_lt_Some. }
  rewrite thread_done_ok by done. cbn [mbind result_bind m_thread set_warps c1 set_barriers set_thread]. rewrite (sp_is _ _ _ Hst), negb_involutive.
  pose proof (ci_warps _ _ H wid w Hw) as Hi. destruct (remembers_inv _ _ _ _ _ _ H3 Hi) as [Hi3 Hc3].
  assert (exists w4, (if d then w ← set_completed lane w3; ibuffer_flush w else Ok w3) = Ok w4 /\ warp_inv W (alive_lanes l' wid) (busy (m_blocks c) wid) (fl wid) wid w4 /\ m_cta_id w4 = m_cta_id w) as (w4 & He4 & Hi4 & Hc4).
  { rewrite Hlanes. destruct d; [|by exists w3]. destruct (complete_ok W W_ok _ _ _ _ _ _ Hi3 Hin) as (w4 & ? & ? & ?). exists w4. split; [done|]. split; [done|congruence]. }
  assert ((if d then on_warp wid (fun w => w ← set_completed lane w; ibuffer_flush w) (set_warps (<[wid:=w3]> (m_warp c1)) c1) else Ok (set_warps (<[wid:=w3]> (m_warp c1)) c1)) =
    Ok (set_warps (<[wid:=w4]> (m_warp c)) c1)) as ->.
  { destruct d; [|by injection He4 as ->]. unfold on_warp. cbn [m_warp set_warps]. rewrite list_lookup_insert_eq by by eapply lookup_lt_Some. cbn [lift mbind result_bind].
    cbn [mbind result_bind] in He4. rewrite He4. unfold set_warps. cbn. by rewrite list_insert_insert_eq. }
  cbn [mbind result_bind safe fst snd]. split; [|split; [|done]].
  - apply (rebuild fl fl c wid w w4 l' m' s' H Hw); try done; [apply Hst| | |].
    + intros t Ht. apply Hst. intros ->. by destruct tid_at.
    + intros t. by apply (stepped_alive d).
    + intros t x Hx. destruct (decide (t = tid)) as [->|Hne]; [apply Hst|]. rewrite (sp_other _ _ _ Hst) by done. by exists x.
  - split; try done; cbn.
    + intros v Hv. by rewrite list_lookup_insert_ne.
    + intros t Ht. apply Hst. intros ->. by destruct tid_at.
Qed.
Lemma execute_lane_ok fl c p al : core_inv fl c -> p_wid p = wid -> (wid ∉ m_warp_at_barrier (m_barriers c)) ->
  (op (i_static (p_inst p)) = BARRIER_OP -> alive_lanes (m_thread c) wid = al) ->
  safe (fun st => core_inv fl st.1 /\ lane_post wid (p_inst p) c al st) (execute_lane ptx_exec_inst cfg lane (c, p)).
Proof using Hcfg Hlane Hwid bar_stays.
  intros H Hp Hn Hal. unfold execute_lane. destruct (negb _); [cbn; split; [done|]; split; [apply keeps_refl|done]|]. rewrite Hp.
  eapply safe_bind; [by apply (exec_thread_ok fl)|]. intros [c1 p1] (d & l' & m' & s' & E & Hst & Hs & Hm & Hnb & Hpw & Hpi & Hbd). cbn [fst snd] in *.
  eapply safe_mono; [by apply (check_execution_ok fl c c1 p1 l' m' s' d)|]. intros [c2 p2] (Hinv & Hk & Hb & Ht & Hpw2 & Hpi2). cbn [fst snd] in *. split; [done|].
  split; [done|]. split; [done|]. split; [cbn; congruence|]. cbn. rewrite Hb, Ht. split; [done|]. intros Hbar. destruct (stepped_lanes d _ _ Hst) as (Hl & _ & _). rewrite Hl, (Hbd Hbar). auto.
Qed.
End lane.

Section step.
Context (ptx_exec_inst : Machine -> nat -> instruction -> Machine * outcome).
Hypothesis bar_stays : forall m tid (i : instruction), op (i_static i) = BARRIER_OP -> o_exit (ptx_exec_inst m tid i).2 = false.
Lemma func_exec_ok fl c p wid : core_inv fl c -> (wid < N)%nat -> p_wid p = wid -> (wid ∉ m_warp_at_barrier (m_barriers c)) ->
  safe (fun st => core_inv fl st.1 /\ lane_post wid (p_inst p) c (alive_lanes (m_thread c) wid) st) (func_exec_inst ptx_exec_inst cfg (c, p)).
Proof using Hcfg bar_stays.
  intros H Hwid Hp Hn. unfold func_exec_inst, execute_warp_inst_t.
  eapply (safe_bind (fun st => core_inv fl st.1 /\ lane_post wid (p_inst p) c (alive_lanes (m_thread c) wid) st)).
  - apply safe_for_each_inv; [split; [done|]; split; [apply keeps_refl|done]|]. intros lane [c1 p1] Hlane%elem_of_seq (H1 & Hk & Hp1 & Hi1 & Hn1 & Hal1). cbn [fst snd] in *.
    eapply safe_mono; [apply (execute_lane_ok ptx_exec_inst bar_stays wid lane Hwid ltac:(lia) fl c1 p1 (alive_lanes (m_thread c) wid)); [done|done|done|by rewrite Hi1]|].
    intros [c2 p2] (H2 & Hk2 & Hp2 & Hi2 & Hn2 & Hal2). cbn [fst snd] in *. split; [done|]. split; [by eapply keeps_trans|]. split; [done|]. split; [cbn; congruence|].
    split; [done|]. rewrite Hi1 in Hal2. exact Hal2.
  - intros [c1 p1] H1. destruct (_ || _); [|done]. apply safe_other; [done|]. intros d _. exact H1.
Qed.

(** *** The barrier of a warp's block *)
Lemma P_warps k : kernel_ok shader k -> exists q, (P k = q * W /\ 0 < q)%nat.
Proof using Hcfg.
  clear bar_stays. intros Hk. destruct (padded_bounds shader k (fo_config _ Hcfg) Hk) as [HP _]. pose proof W_ok as HW. unfold P, padded, c_warp_size in *. fold W in *.
  set (x := (threads_per_cta k + Z.of_nat W - 1) / Z.of_nat W) in *. exists (Z.to_nat x). split; [rewrite Z2Nat.inj_mul by nia; by rewrite Nat2Z.id|]. assert (0 < x) by nia. lia.
Qed.
Lemma warp_block k tid : kernel_ok shader k -> (tid / P k = (tid / W * W) / P k /\ (tid / W * W) `mod` P k <= tid `mod` P k)%nat.
Proof using Hcfg.
  clear bar_stays. intros Hk. destruct (P_warps k Hk) as (q & HP & Hq). pose proof W_ok as HW. rewrite HP. destruct (tid_split tid) as [Ht Hm]. set (v := (tid / W)%nat) in *.
  assert (tid / (q * W) = v / q)%nat as Hd by (symmetry; apply (Nat.div_unique _ _ _ ((v `mod` q) * W + tid `mod` W)); [pose proof (Nat.mod_upper_bound v q); nia|pose proof (Nat.div_mod v q); nia]).
  assert (v * W / (q * W) = v / q)%nat as Hd' by (rewrite Nat.Div0.div_mul_cancel_r by lia; done). split; [by rewrite Hd, Hd'|].
  pose proof (Nat.div_mod tid (q * W)). pose proof (Nat.div_mod (v * W) (q * W)). nia.
Qed.
Lemma in_cta fl c wid w : core_inv fl c -> m_warp c !! wid = Some w -> alive_lanes (m_thread c) wid <> ∅ ->
  exists ws, m_cta_to_warps (m_barriers c) !! m_cta_id w = Some ws /\ wid ∈ ws.
Proof using Hcfg.
  clear bar_stays. intros H Hw [lane Hl]%set_choose_L. apply elem_of_alive_lanes in Hl as [Hl Ha]. pose proof (ci_alive _ _ H _ Ha) as Hin. set (tid := (wid * W + lane)%nat) in *.
  destruct (tid_warp wid lane Hl) as [Htw _]. fold tid in Htw. destruct (ci_blocks _ _ H) as [B1 B2 B3 B4 B5 B6 B7 B8].
  destruct (m_kernel (m_blocks c)) as [k|] eqn:Hk; [|destruct (B1 eq_refl) as [He _]; set_solver].
  destruct (B3 k tid eq_refl Hin) as (Hc & [_ Hb] & _). rewrite Htw in Hc. unfold cta_of in Hc. rewrite Hw in Hc. cbn in Hc. rewrite Hc.
  destruct (proj2 (B7 k (Z.of_nat (tid / P k)) eq_refl)) as [ws Hws].
  { exists (tid / P k)%nat. split; [done|]. unfold block_threads. intros He. apply (not_elem_of_empty (C := gset nat) tid). rewrite <-He. by apply elem_of_filter. }
  exists ws. split; [done|]. apply (B8 k (tid / P k)%nat ws wid eq_refl Hws). destruct (warp_block k tid (B2 k eq_refl)) as [E1 E2]. rewrite Htw in E1, E2. split; [done|lia].
Qed.
Lemma reach_inv fl c wid w : core_inv fl c -> (wid < N)%nat -> m_warp c !! wid = Some w -> alive_lanes (m_thread c) wid <> ∅ -> (wid ∉ m_warp_at_barrier (m_barriers c)) ->
  exists s', warp_reaches_barrier (m_cta_id w) wid (m_barriers c) = Some s' /\ core_inv fl (set_barriers s' c).
Proof using Hcfg.
  clear bar_stays. intros H Hwid Hw Ha Hn. destruct (in_cta fl c wid w H Hw Ha) as (ws & Hws & Hin). destruct (ci_barriers _ _ H) as ((t & Hok) & Hmax & Hact).
  destruct (reach_ok t (m_barriers c) (m_cta_id w) wid Hok) as (s' & Hs & Hok'); [split; [by exists ws|]; split; [by apply Hact|done]|]. exists s'. split; [done|].
  assert (m_cta_to_warps s' = m_cta_to_warps (m_barriers c) /\ Barrier.m_max_cta_per_core s' = max_cta_per_core shader /\ m_warp_active s' = m_warp_active (m_barriers c)) as (E1 & E2 & E3).
  { unfold warp_reaches_barrier in Hs. rewrite Hws in Hs. cbn [mbind option_bind] in Hs. rewrite test_ok in Hs by by apply warps_bound. cbn [mbind option_bind] in Hs.
    rewrite bool_decide_eq_true_2, set_warp_ok in Hs by (done || by apply warps_bound). cbn [mbind option_bind] in Hs. injection Hs as <-.
    destruct (release_fields ws (with_waiting ({[wid]} ∪ m_warp_at_barrier (m_barriers c)) (m_barriers c))) as (F1 & F2 & F3 & _). by rewrite F1, F2, F3. }
  destruct H as [? ? ? ? ? ? ?]. split; try done; cbn; [|by rewrite E1]. split; [by eexists|]. split; [done|]. intros v. by rewrite E3.
Qed.

(** *** The registers *)
Definition of_warp wid (o : option issued) : bool := match o with Some p => Nat.eqb (p_wid p) wid | None => false end.
Definition count_warp wid (regs : register_set) : nat := foldr (fun o n => ((if of_warp wid o then 1 else 0) + n)%nat) 0%nat regs.
Definition in_regs c wid : nat :=
  (count_warp wid (m_pipeline_reg c SP) + count_warp wid (m_pipeline_reg c SFU) + count_warp wid (m_pipeline_reg c MEM))%nat.
Lemma get_free_some regs : has_free regs = true -> exists i, get_free regs = Some i.
Proof using Type.
  clear Hcfg bar_stays. induction regs as [|[p|] regs IH]; cbn; [done| |by eexists]. intros H. destruct (IH H) as [i ->]. by eexists.
Qed.
Lemma get_free_none regs i : get_free regs = Some i -> regs !! i = Some None.
Proof using Type.
  clear Hcfg bar_stays. revert i. induction regs as [|[p|] regs IH]; intros i; cbn; [done| |by intros [= <-]].
  destruct (get_free regs) as [j|]; [|done]. cbn. intros [= <-]. cbn. by apply IH.
Qed.
Lemma count_insert wid regs i o o' : regs !! i = Some o ->
  (count_warp wid (<[i := o']> regs) + (if of_warp wid o then 1 else 0) = count_warp wid regs + (if of_warp wid o' then 1 else 0))%nat.
Proof using Type.
  clear Hcfg bar_stays. unfold register_set in *. revert i. induction regs as [|x regs IH]; intros [|i] H; [done..| |].
  - injection H as ->. cbn. lia.
  - specialize (IH i H). change (<[S i := o']> (x :: regs)) with (x :: <[i := o']> regs). unfold count_warp in *. cbn [foldr]. lia.
Qed.
Lemma in_regs_put r slot p c wid : get_free (m_pipeline_reg c r) = Some slot ->
  in_regs (put r slot p c) wid = (in_regs c wid + if Nat.eqb (p_wid p) wid then 1 else 0)%nat.
Proof using Type.
  clear Hcfg bar_stays. intros Hs%get_free_none. pose proof (count_insert wid _ _ _ (Some p) Hs) as Hc. cbn [of_warp] in Hc. unfold in_regs, put, set_regs. cbn [m_pipeline_reg].
  unfold register_set in *. destruct r; repeat case_decide; try done; lia.
Qed.

(** *** Issue *)
Definition one_more wid fl : nat -> nat := fun v => (fl v + if Nat.eqb wid v then 1 else 0)%nat.
Lemma one_more_other wid fl v : v <> wid -> one_more wid fl v = fl v.
Proof using Type. clear Hcfg bar_stays. intros Hv. unfold one_more. rewrite (proj2 (Nat.eqb_neq _ _)) by done. lia. Qed.
Lemma one_more_self wid fl : one_more wid fl wid = S (fl wid).
Proof using Type. clear Hcfg bar_stays. unfold one_more. rewrite Nat.eqb_refl. lia. Qed.
Lemma issue_order_ok fl c wid (i : instruction) : core_inv fl c -> (wid < N)%nat ->
  (op (i_static i) = BARRIER_OP -> alive_lanes (m_thread c) wid <> ∅) -> (wid ∉ m_warp_at_barrier (m_barriers c)) ->
  safe (fun c' => core_inv fl c' /\ keeps wid c c') (issue_order cfg i wid c).
Proof using Hcfg.
  clear bar_stays. intros H Hwid Ha Hn. unfold issue_order. destruct (warp_at fl c wid H Hwid) as [w Hw].
  assert (forall g, (forall w, remembers w (g w)) -> safe (fun c' => core_inv fl c' /\ keeps wid c c') (on_warp wid (fun w => Ok (g w)) c)) as Hset.
  { intros g Hg. eapply safe_mono; [apply (on_warp_inv fl fl); try done|].
    - intros x Hx Hi. cbn. by apply remembers_inv.
    - cbn. tauto. }
  case_bool_decide as Hb.
  - unfold warp. rewrite Hw. cbn [lift mbind result_bind]. destruct (reach_inv fl c wid w H Hwid Hw (Ha Hb) Hn) as (s' & -> & Hi). cbn. split; [done|]. by split.
  - case_bool_decide.
    + apply (Hset set_membar). intros x. by eexists _, _, _, _.
    + unfold warp. rewrite Hw. cbn [lift mbind result_bind]. destruct (_ && _ && _ && _); [|cbn; split; [done|apply keeps_refl]].
      apply (Hset set_sc_fence). intros x. by eexists _, _, _, _.
Qed.
Lemma update_stack_ok now fl c wid p : core_inv fl c -> (wid < N)%nat -> safe (fun c' => core_inv fl c' /\ keeps wid c c') (update_stack cfg now wid p c).
Proof using Hcfg.
  clear bar_stays. intros H Hwid. destruct (ci_lengths _ _ H) as (L1 & L2 & L3 & L4 & L5 & L6). unfold update_stack. eapply (safe_bind (fun _ => True)).
  - apply safe_for_each_inv; [done|]. intros lane l Hlane%elem_of_seq _. rewrite thread_done_ok by (rewrite L2; apply lane_bound; lia). done.
  - intros l _. destruct (lookup_lt_is_Some_2 (m_simt_stack c) wid) as [s Hs]; [lia|]. rewrite Hs. cbn [lift mbind result_bind]. apply safe_other; [done|]. intros s' _. cbn.
    split; [|by split]. apply (core_inv_same fl c); try done. cbn. by rewrite length_insert.
Qed.
Definition issued_post r wid c fl c' : Prop :=
  exists c0 slot p, core_inv (one_more wid fl) c0 /\ keeps wid c c0 /\ get_free (m_pipeline_reg c0 r) = Some slot /\ p_wid p = wid /\ c' = put r slot p c0.
Lemma issue_warp_ok now r (i : instruction) mask fl c wid w s : core_inv fl c -> (wid < N)%nat -> alive_lanes (m_thread c) wid <> ∅ ->
  (wid ∉ m_warp_at_barrier (m_barriers c)) -> m_warp c !! wid = Some w -> m_ibuffer w !! m_next w = Some s -> m_valid s = true ->
  has_free (m_pipeline_reg c r) = true -> safe (issued_post r wid c fl) (issue_warp ptx_exec_inst cfg now r i mask wid c).
Proof using Hcfg bar_stays.
  intros H Hwid Ha Hn Hw Hs Hv Hfree. destruct (get_free_some _ Hfree) as [slot Hslot]. unfold issue_warp. rewrite Hslot. cbn [lift mbind result_bind].
  eapply safe_bind; [apply (on_warp_inv fl (one_more wid fl) c wid); [done|done|intros; by apply one_more_other|]|].
  { intros x Hx Hi. assert (x = w) as -> by congruence. cbn. split; [|done]. rewrite one_more_self. by eapply warp_inv_free. }
  intros c1 (H1 & K1 & B1 & T1). eapply safe_bind; [apply (func_exec_ok (one_more wid fl) c1 (issue i mask wid) wid); [done|done|done|by rewrite B1]|].
  intros [c2 p2] (H2 & K2 & Hp2 & Hi2 & Hn2 & Hal2). cbn [fst snd] in *.
  eapply safe_bind; [apply (issue_order_ok (one_more wid fl) c2 wid i); [done|done|intros Hb; rewrite Hal2, T1 by done; done|done]|].
  intros c3 (H3 & K3). eapply safe_bind; [by apply (update_stack_ok now (one_more wid fl) c3 wid)|]. intros c4 (H4 & K4).
  apply safe_other; [done|]. intros b Hb. pose proof (reserve_size N _ _ _ _ (board_of _ _ H4) Hb) as Hb'.
  assert (core_inv (one_more wid fl) (set_board b c4)) as H5 by by apply (core_inv_same _ c4).
  eapply safe_bind; [apply (on_warp_inv (one_more wid fl) (one_more wid fl) (set_board b c4) wid); try done|].
  { intros x Hx Hi. cbn. split; [|done]. eapply warp_inv_same; [..|exact Hi]; done. }
  intros c6 (H6 & K6 & _). cbn [safe]. exists c6, slot, p2. split; [done|].
  assert (keeps wid c4 (set_board b c4)) as K5 by by split.
  assert (keeps wid c c6) as K. { eapply keeps_trans; [exact K1|]. eapply keeps_trans; [exact K2|]. eapply keeps_trans; [exact K3|]. eapply keeps_trans; [exact K4|]. by eapply keeps_trans. }
  split; [done|]. split; [by rewrite (kp_regs _ _ _ K)|done].
Qed.

(** *** The books with the registers; [rest] counts the instructions further on. *)
Definition books (rest : nat -> nat) c : Prop :=
  core_inv (fun v => in_regs c v + rest v)%nat c /\ fetch_inv c /\ forall r slot p, m_pipeline_reg c r !! slot = Some (Some p) -> (p_wid p < N)%nat.
Lemma core_inv_ext fl fl' c : (forall v, fl v = fl' v) -> core_inv fl c -> core_inv fl' c.
Proof using Type. clear Hcfg bar_stays. intros E [? H2 ? ? ? ? ?]. split; try done. intros v w Hw. rewrite <-E. by apply H2. Qed.
Lemma books_issued rest r wid c c' w : books rest c -> (wid < N)%nat -> issued_post r wid c (fun v => in_regs c v + rest v)%nat c' ->
  m_warp c !! wid = Some w -> ibuffer_empty w = false -> books rest c' /\ frame wid c c'.
Proof using Hcfg.
  clear bar_stays. intros (H & Hf & Hr) Hwid (c0 & slot & p & H0 & K & Hs & Hp & ->) Hw He.
  assert (frame wid c (put r slot p c0)) as F by (destruct K; by split). split; [|done].
  split; [|split; [by apply (fetch_frame wid c _ w)|]].
  - eapply (core_inv_ext (one_more wid (fun v => in_regs c v + rest v)%nat)); [|apply (core_inv_same _ c0); try done; by apply (board_of _ _ H0)].
    intros v. rewrite in_regs_put by done. unfold one_more, in_regs. rewrite (kp_regs _ _ _ K), Hp. lia.
  - intros r' slot' p' Hl. unfold put, set_regs, register_set in *. cbn [m_pipeline_reg] in Hl. case_decide as Hd.
    + destruct (decide (slot' = slot)) as [->|Hne].
      * rewrite list_lookup_insert_eq in Hl by (apply get_free_none in Hs; by eapply lookup_lt_Some). injection Hl as <-. by rewrite Hp.
      * rewrite list_lookup_insert_ne, (kp_regs _ _ _ K) in Hl by done. by eapply Hr.
    + rewrite (kp_regs _ _ _ K) in Hl. by eapply Hr.
Qed.
Lemma books_keeps rest wid c c' w : books rest c -> keeps wid c c' -> core_inv (fun v => in_regs c v + rest v)%nat c' ->
  m_warp c !! wid = Some w -> ibuffer_empty w = false -> books rest c'.
Proof using Hcfg.
  clear bar_stays. intros (H & Hf & Hr) K H' Hw He. split; [|split; [apply (fetch_frame wid c _ w); [done|by apply keeps_frame|done|done]|]].
  - eapply core_inv_ext; [|exact H']. intros v. cbn. unfold in_regs. by rewrite (kp_regs _ _ _ K).
  - rewrite (kp_regs _ _ _ K). done.
Qed.

(** *** The scheduler *)
Lemma warp_waiting_ok fl c wid : core_inv fl c -> (wid < N)%nat -> exists b : bool, waiting wid c = Ok b /\
  (b = false -> alive_lanes (m_thread c) wid <> ∅ /\ (wid ∉ m_warp_at_barrier (m_barriers c))).
Proof using Hcfg.
  clear bar_stays. intros H Hwid. destruct (warp_at fl c wid H Hwid) as [w Hw]. pose proof (ci_warps _ _ H wid w Hw) as Hi. unfold waiting, warp. rewrite Hw. cbn [lift mbind result_bind].
  pose proof (functional_done_iff _ _ _ _ _ _ Hi) as Hd. destruct (functional_done w); [by exists true|].
  assert (alive_lanes (m_thread c) wid <> ∅) as Ha by (intros He; by apply Hd in He). rewrite (wi_id _ _ _ _ _ _ Hi Ha), Nat2Z.id. unfold warp_waiting_at_barrier.
  rewrite test_ok by by apply warps_bound. cbn [lift mbind result_bind]. case_bool_decide; [by exists true|]. rewrite Hw. cbn [lift mbind result_bind].
  destruct (m_membar w); [by exists true|]. eexists. split; [done|]. done.
Qed.
Lemma hazard_inv fl c wid pc : core_inv fl c -> (wid < N)%nat -> safe (fun c' => core_inv fl c' /\ keeps wid c c') (control_hazard wid pc c).
Proof using Hcfg.
  clear bar_stays. intros H Hwid. eapply safe_mono; [apply (on_warp_inv fl fl); try done|cbn; tauto].
  intros x Hx Hi. destruct (hazard_ok W _ _ _ _ _ pc Hi) as (w' & -> & ? & ?). done.
Qed.
Variables (now : Z) (ldst_stall : option ruby_stall_type).
Lemma ready_ok rest c wid (i : instruction) w s : books rest c -> (wid < N)%nat -> alive_lanes (m_thread c) wid <> ∅ -> (wid ∉ m_warp_at_barrier (m_barriers c)) ->
  m_warp c !! wid = Some w -> ibuffer_empty w = false -> m_ibuffer w !! m_next w = Some s -> m_valid s = true ->
  safe (fun st : core * bool => books rest st.1 /\ frame wid c st.1) (issue_ready ptx_exec_inst cfg now ldst_stall i wid c).
Proof using Hcfg bar_stays.
  intros Hbk Hwid Ha Hn Hw He Hs Hv. pose proof Hbk as (H & _). destruct (ci_lengths _ _ H) as (L1 & L2 & L3 & L4 & L5 & L6). unfold issue_ready.
  destruct (lookup_lt_is_Some_2 (m_simt_stack c) wid) as [st Hst]; [lia|]. rewrite Hst. cbn [lift mbind result_bind]. apply safe_other; [done|]. intros mask _.
  unfold warp. rewrite Hw. cbn [lift mbind result_bind]. pose proof (ci_warps _ _ H wid w Hw) as Hi. apply safe_check.
  { unfold inst_in_pipeline. apply Z.ltb_lt. rewrite (wi_pipeline _ _ _ _ _ _ Hi). destruct (warp_inv_slots W _ _ _ _ _ Hi) as (s0 & s1 & _ & Hc & He'). rewrite He' in He.
    destruct (m_valid s0), (m_valid s1); try done; lia. }
  assert (forall r, has_free (m_pipeline_reg c r) = true -> safe (fun st : core * bool => books rest st.1 /\ frame wid c st.1) (c' ← issue_warp ptx_exec_inst cfg now r i mask wid c; Ok (c', true))) as Hissue.
  { intros r Hfree. eapply safe_bind; [by apply (issue_warp_ok now r i mask (fun v => in_regs c v + rest v)%nat c wid w s)|]. intros c' Hc'. cbn.
    by apply (books_issued rest r wid c c' w). }
  case_bool_decide; [destruct (has_free (m_pipeline_reg c MEM)) eqn:Hf|].
  - destruct (is_SC cfg && m_sc_fence w); [by apply safe_ok|by apply Hissue].
  - apply safe_check_other; done.
  - destruct (has_free (m_pipeline_reg c SP)) eqn:Hsp; cbn [andb].
    + destruct (negb _); [by apply Hissue|]. destruct (bool_decide (op (i_static i) = SFU_OP \/ op (i_static i) = ALU_SFU_OP)); cbn [andb]; [|done].
      destruct (has_free (m_pipeline_reg c SFU)) eqn:Hsfu; [by apply Hissue|done].
    + destruct (bool_decide (op (i_static i) = SFU_OP \/ op (i_static i) = ALU_SFU_OP)); cbn [andb]; [|done].
      destruct (has_free (m_pipeline_reg c SFU)) eqn:Hsfu; [by apply Hissue|done].
Qed.
Lemma try_ok rest c wid w : books rest c -> (wid < N)%nat -> alive_lanes (m_thread c) wid <> ∅ -> (wid ∉ m_warp_at_barrier (m_barriers c)) ->
  m_warp c !! wid = Some w -> ibuffer_empty w = false -> safe (fun st : core * found => books rest st.1 /\ frame wid c st.1) (try_issue ptx_exec_inst cfg now ldst_stall wid c).
Proof using Hcfg bar_stays.
  intros Hbk Hwid Ha Hn Hw He. pose proof Hbk as (H & _). destruct (ci_lengths _ _ H) as (L1 & L2 & L3 & L4 & (L5 & L5' & L5'') & L6). unfold try_issue, warp. rewrite Hw.
  cbn [lift mbind result_bind]. pose proof (ci_warps _ _ H wid w Hw) as Hi. destruct (wi_slots _ _ _ _ _ _ Hi) as [Hl Hnx].
  destruct (lookup_lt_is_Some_2 (m_ibuffer w) (m_next w)) as [s Hs]; [lia|]. unfold ibuffer_next. rewrite Hs. cbn [lift mbind result_bind].
  destruct (lookup_lt_is_Some_2 (m_simt_stack c) wid) as [st Hst]; [lia|]. rewrite Hst. cbn [lift mbind result_bind]. apply safe_other; [done|]. intros [pc rpc] _.
  assert (forall f, safe (fun st : core * found => books rest st.1 /\ frame wid c st.1) (c' ← control_hazard wid pc c; Ok (c', f))) as Hhaz.
  { intros f. eapply safe_bind; [by apply (hazard_inv (fun v => in_regs c v + rest v)%nat)|]. intros c' [Hc K]. cbn. split; [by apply (books_keeps rest wid c c' w)|by apply keeps_frame]. }
  destruct (m_inst s) as [i|] eqn:Hmi.
  - assert (m_valid s = true) as Hv by (apply (wi_valid _ _ _ _ _ _ Hi); [by eapply list_elem_of_lookup_2|congruence]). apply safe_check; [done|]. destruct (negb _); [apply Hhaz|].
    unfold checkCollision, checkDependCacheop. destruct (row_some (reg_table (m_scoreboard c)) N wid L5 Hwid) as [row Hrow]. rewrite Hrow. cbn [lift mbind option_bind result_bind].
    unfold warp_mem_barrier_waiting_for_writes, pendingWrites. rewrite Hrow. cbn [lift mbind option_bind result_bind].
    destruct (row_some (cacheopregs (m_scoreboard c)) N wid L5'' Hwid) as [row' Hrow']. rewrite Hrow'. cbn [lift mbind option_bind result_bind].
    assert (exists b : bool, (if bool_decide (op (i_static i) = MEMORY_BARRIER_OP) then Ok (negb (bool_decide (row = ∅))) else Ok false) = Ok b) as [b ->] by (case_bool_decide; by eexists).
    cbn [mbind result_bind]. destruct (collides _ row); [done|]. destruct b; [done|]. eapply safe_bind; [by apply (ready_ok rest c wid i w s)|]. intros [c' issued'] Hc'. exact Hc'.
  - destruct (m_valid s); [apply Hhaz|done].
Qed.
Lemma issue_loop_ok rest wid : (wid < N)%nat -> forall checks c f, books rest c -> safe (fun st : core * found => books rest st.1) (issue_loop ptx_exec_inst cfg now ldst_stall checks wid c f).
Proof using Hcfg bar_stays.
  intros Hwid. induction checks as [|checks IH]; intros c f Hbk; cbn [issue_loop]; [done|]. pose proof Hbk as (H & _).
  destruct (warp_waiting_ok _ c wid H Hwid) as (b & -> & Hb). destruct (warp_at _ c wid H Hwid) as [w Hw]. unfold warp. rewrite Hw. cbn [lift mbind result_bind].
  destruct b; [done|]. cbn [orb]. destruct (ibuffer_empty w) eqn:He; [done|]. destruct (Hb eq_refl) as [Ha Hn].
  eapply safe_bind; [by apply (try_ok rest c wid w)|]. intros [c1 g] [Hc1 F1]. cbn [fst] in *. destruct (issued_now g); [|done]. pose proof Hc1 as (H1 & Hf1 & Hr1).
  eapply safe_bind; [apply (on_warp_inv (fun v => in_regs c1 v + rest v)%nat (fun v => in_regs c1 v + rest v)%nat c1 wid); try done|].
  { intros x Hx Hi. cbn. split; [by apply warp_inv_step|done]. }
  intros c2 (H2 & K2 & B2 & T2). apply IH. split; [|split].
  - eapply core_inv_ext; [|exact H2]. intros v. cbn. unfold in_regs. by rewrite (kp_regs _ _ _ K2).
  - apply (fetch_frame wid c c2 w); [apply Hbk| |done|done]. eapply frame_trans; [exact F1|by apply keeps_frame].
  - rewrite (kp_regs _ _ _ K2). done.
Qed.
(** The warps that a scheduler supervises are warps of the core. *)
Definition supervises (s : scheduler_unit) : Prop := forall wid, wid ∈ supervised_warps s -> (wid < N)%nat.
Lemma schedule_ok rest turns : forall s c f, books rest c -> supervises s -> (turns <> [] -> supervised_warps s <> []) ->
  safe (fun st : core * scheduler_unit * found => books rest st.1.1 /\ supervised_warps st.1.2 = supervised_warps s)
    (schedule ptx_exec_inst cfg now ldst_stall s turns c f).
Proof using Hcfg bar_stays.
  induction turns as [|i turns IH]; intros s c f Hbk Hs Hne; cbn [schedule]; [done|].
  assert (0 < length (supervised_warps s))%nat as Hpos by (destruct (supervised_warps s); [by destruct (Hne)|cbn; lia]).
  destruct (lookup_lt_is_Some_2 (supervised_warps s) ((m_last_sup_id_issued s + 1 + i) `mod` length (supervised_warps s))%nat) as [wid Hw]; [apply Nat.mod_upper_bound; lia|].
  rewrite Hw. cbn [lift mbind result_bind]. eapply safe_bind; [apply (issue_loop_ok rest wid); [apply Hs; by eapply list_elem_of_lookup_2|done]|].
  intros [c1 g] Hc1. cbn [fst] in Hc1. destruct (issued_now g); [done|]. apply IH; [done|done|]. intros _ He. rewrite He in Hpos. cbn in Hpos. lia.
Qed.
Lemma issue_all_ok rest ss : forall c, books rest c -> Forall supervises ss ->
  safe (fun st : core * list scheduler_unit * bool => books rest st.1.1 /\ Forall supervises st.1.2) (issue_all ptx_exec_inst cfg now ldst_stall ss c).
Proof using Hcfg bar_stays.
  induction ss as [|s ss IH]; intros c Hbk Hs; cbn [issue_all]; [done|]. apply Forall_cons in Hs as [Hs Hss].
  eapply (safe_bind (fun st : core * scheduler_unit * bool => books rest st.1.1 /\ supervised_warps st.1.2 = supervised_warps s)).
  - unfold LooseRoundRobbin_cycle. eapply safe_bind; [apply (schedule_ok rest); [done|done|]|intros [[c1 s1] g] H1; exact H1].
    intros Ht He. rewrite He in Ht. done.
  - intros [[c1 s1] b1] [H1 E1]. cbn [fst snd] in *. eapply safe_bind; [by apply IH|]. intros [[c2 ss2] b2] [H2 E2]. cbn [fst snd] in *. cbn [safe fst snd].
    split; [done|]. apply Forall_cons. split; [|done]. unfold supervises. by rewrite E1.
Qed.

(** *** Decode *)
Lemma alive_busy fl c wid : core_inv fl c -> alive_lanes (m_thread c) wid <> ∅ -> busy (m_blocks c) wid.
Proof using Hcfg.
  clear bar_stays. intros H [lane Hl]%set_choose_L. apply elem_of_alive_lanes in Hl as [Hl Ha]. exists (wid * W + lane)%nat. split; [by apply (ci_alive _ _ H)|by apply tid_warp].
Qed.
Lemma fill_inv fl c wid w slot pI s : core_inv fl c -> (wid < N)%nat -> alive_lanes (m_thread c) wid <> ∅ -> Z.of_nat (fl wid) < 2 ^ 31 ->
  m_warp c !! wid = Some w -> m_ibuffer w !! slot = Some s -> m_valid s = false ->
  exists w', on_warp wid (fun w => w ← ibuffer_fill slot pI w; Ok (inc_inst_in_pipeline w)) c = Ok (set_warps (<[wid := w']> (m_warp c)) c) /\
    core_inv fl (set_warps (<[wid := w']> (m_warp c)) c) /\ forall slot', slot' <> slot -> m_ibuffer w' !! slot' = m_ibuffer w !! slot'.
Proof using Hcfg.
  clear bar_stays. intros H Hwid Ha Hfl Hw Hs Hv. pose proof (ci_warps _ _ H wid w Hw) as Hi.
  destruct (ibuffer_fill_ok W _ _ _ _ _ slot pI s Hi (alive_busy _ _ _ H Ha) Ha Hfl Hs Hv) as (w' & E & Hi' & Hc & Hsl).
  exists w'. unfold on_warp. rewrite Hw. cbn [lift mbind result_bind] in *. rewrite E. split; [done|]. split; [|done]. by apply (set_warp_inv fl fl c wid w).
Qed.
Variable ptx_fetch_inst : Z -> option instruction.
Lemma decode_ok rest c : books rest c -> (forall wid, Z.of_nat (in_regs c wid + rest wid) < 2 ^ 31) -> safe (books rest) (decode ptx_fetch_inst c).
Proof using Hcfg.
  clear bar_stays. intros (H & Hf & Hr) Hfl. unfold decode. destruct (m_inst_fetch_buffer c) as [[pc wid]|] eqn:Hb; [|done].
  destruct (Hf pc wid Hb) as (Ha & w & Hw & He). assert (wid < N)%nat as Hwid by (rewrite <-(proj1 (ci_lengths _ _ H)); by eapply lookup_lt_Some).
  destruct (warp_inv_slots W _ _ _ _ _ (ci_warps _ _ H wid w Hw)) as (s0 & s1 & Hbuf & _ & He'). rewrite He' in He. apply andb_true_iff in He as [H0%negb_true_iff H1%negb_true_iff].
  destruct (fill_inv _ c wid w 0 (ptx_fetch_inst pc) s0 H Hwid Ha (Hfl wid) Hw) as (w1 & -> & Hi1 & Hs1); [by rewrite Hbuf|done|]. cbn [mbind result_bind].
  assert (forall w2, core_inv (fun v => in_regs c v + rest v)%nat (set_warps (<[wid := w2]> (m_warp c)) c) -> safe (books rest) (Ok (set_fetch None (m_last_warp_fetched c) (set_warps (<[wid := w2]> (m_warp c)) c)))) as Hdone.
  { intros w2 H2. cbn. split; [by eapply core_inv_same; [..|exact H2]; try done; apply (board_of _ _ H2)|]. split; [by intros ? ?|done]. }
  destruct (ptx_fetch_inst pc) as [i|]; [|by apply Hdone]. destruct (ptx_fetch_inst _) as [i2|]; [|by apply Hdone].
  edestruct (fill_inv _ (set_warps (<[wid:=w1]> (m_warp c)) c) wid w1 1 (Some i2) s1 Hi1) as (w2 & E2 & Hi2 & _); [done|done|by apply Hfl| |by rewrite Hs1, Hbuf|done|].
  - cbn. rewrite list_lookup_insert_eq; [done|by eapply lookup_lt_Some].
  - rewrite E2. cbn [mbind result_bind]. unfold set_warps in *. cbn [m_warp m_barriers m_thread m_blocks m_simt_stack m_scoreboard m_pipeline_reg m_inst_fetch_buffer m_last_warp_fetched m_machine] in *.
    rewrite list_insert_insert_eq in *. by apply (Hdone w2).
Qed.
End step.

(** *** A thread leaves its block *)
(** Counting the entries of a list with a property. *)
Lemma count_change {A} (Q : A -> Prop) `{!forall x, Decision (Q x)} (l : list A) i x y : l !! i = Some x ->
  (length (filter Q (<[i := y]> l)) + (if decide (Q x) then 1 else 0) = length (filter Q l) + (if decide (Q y) then 1 else 0))%nat.
Proof using Type.
  clear Hcfg. revert i. induction l as [|z l IH]; intros [|i] Hi; [done..| |].
  - injection Hi as ->. change (<[0%nat := y]> (x :: l)) with (y :: l). rewrite !filter_cons. repeat case_decide; cbn; lia.
  - cbn in Hi. specialize (IH i Hi). change (<[S i := y]> (z :: l)) with (z :: <[i := y]> l). rewrite !filter_cons. repeat case_decide; cbn; lia.
Qed.
Lemma active_bound fl c : core_inv fl c -> (size (b_active_threads (m_blocks c)) <= 2048)%nat.
Proof using Hcfg.
  intros H. assert (b_active_threads (m_blocks c) ⊆ list_to_set (C := gset nat) (seq 0 (N * W))) as Hs.
  { intros tid Ht. apply elem_of_list_to_set, elem_of_seq. destruct (ci_bound _ _ H tid Ht) as [t Htid]. apply lookup_lt_Some in Htid.
    destruct (ci_lengths _ _ H) as (_ & L & _). lia. }
  apply subseteq_size in Hs. rewrite size_list_to_set, length_seq in Hs by apply NoDup_seq. rewrite <-(fo_warps _ Hcfg) in Hs.
  destruct (fo_config _ Hcfg) as [_ Ht _ _ _]. unfold MAX_THREAD_PER_SM in Ht. lia.
Qed.
Lemma warp_inv_done al (act act' : Prop) n wid w : hardware_done w = true -> warp_inv W al act n wid w -> warp_inv W al act' n wid w.
Proof using Type.
  clear Hcfg. unfold hardware_done, stores_done, inst_in_pipeline. intros [[_ Hs%Z.eqb_eq]%andb_true_iff Hp%negb_true_iff%Z.ltb_ge]%andb_true_iff [? ? ? ? ? Hn ? ? ?].
  split; try done. intros _. split; [done|]. lia.
Qed.
(** The end of a block: none of its warps runs. *)
Lemma block_ends fl c k i ws : core_inv fl c -> m_kernel (m_blocks c) = Some k -> (forall tid, tid ∈ block_threads (m_blocks c) k i -> alive (m_thread c) tid = false) ->
  m_cta_to_warps (m_barriers c) !! Z.of_nat i = Some ws ->
  exists s', deallocate_barrier (Z.of_nat i) (m_barriers c) = Some s' /\ barriers_inv (m_thread c) s' /\ m_cta_to_warps s' = delete (Z.of_nat i) (m_cta_to_warps (m_barriers c)).
Proof using Hcfg.
  intros H Hk Hdone Hws. destruct (ci_barriers _ _ H) as ((t & Hok) & Hmax & Hact). destruct (ci_blocks _ _ H) as [_ B2 _ _ _ _ _ B8].
  assert (forall v, v ∈ ws -> v ∉ m_warp_active (m_barriers c)) as Hnone.
  { intros v Hv Ha%Hact. apply (B8 k i ws v Hk Hws) in Hv as [Hv _]. apply set_choose_L in Ha as [lane (Hl & Ha)%elem_of_alive_lanes].
    rewrite Hdone in Ha; [done|]. apply elem_of_filter. split; [|by apply (ci_alive _ _ H)].
    destruct (warp_block k (v * W + lane) (B2 k Hk)) as [-> _]. by rewrite (proj1 (tid_warp v lane Hl)). }
  destruct (deallocate_ok t (m_barriers c) (Z.of_nat i) Hok) as (s' & Hs & Hok').
  { intros ws' Hws' v Hv. rewrite Hws in Hws'. injection Hws' as <-. by apply Hnone. }
  exists s'. split; [done|]. unfold deallocate_barrier in Hs. rewrite Hws in Hs. run Hs. subst s'. cbn. split; [|done].
  split; [by eexists|]. split; [done|]. intros v. cbn. rewrite <-Hact. set_solver.
Qed.
Section leave.
Context (b : blocks) (cta : nat -> Z) (m : gmap Z warp_set_t) (k : kernel_info_t) (tid : nat) (s : Z).
Abbreviation i := (tid / P k)%nat.
Abbreviation positive := (fun s : Z => (0 < s)%Z).
Hypotheses (HB : blocks_inv b cta m) (Hk : m_kernel b = Some k) (Hin : tid ∈ b_active_threads b) (Hstatus : m_cta_status b !! i = Some s).
Lemma left_status : (size (block_threads b k i ∖ {[tid]}) = Z.to_nat (s - 1))%nat /\ 0 < s.
Proof using HB Hk Hin Hstatus.
  clear Hcfg. pose proof (bk_status _ _ _ HB k i s Hk Hstatus) as Hs. assert (tid ∈ block_threads b k i) as Ht by by apply elem_of_filter.
  assert (size (block_threads b k i) = S (size (block_threads b k i ∖ {[tid]}))) as Hsz; [|rewrite Hsz in Hs; lia].
  rewrite (union_difference_singleton_L tid (block_threads b k i)) at 1 by done. rewrite size_union, size_singleton by set_solver. done.
Qed.
Lemma left_other j : j <> i -> block_threads b k j ∖ {[tid]} = block_threads b k j.
Proof using Type. clear Hcfg HB Hk Hin Hstatus cta m s. intros Hj. apply set_eq. intros t. unfold block_threads. rewrite elem_of_difference, elem_of_singleton, elem_of_filter. naive_solver. Qed.
Lemma left_all j x : <[i := (s - 1)%Z]> (m_cta_status b) !! j = Some x -> x = Z.of_nat (size (block_threads b k j ∖ {[tid]})).
Proof using HB Hk Hin Hstatus.
  clear Hcfg. intros Hx. destruct left_status as [Hs Hp]. destruct (decide (j = i)) as [->|Hne].
  - rewrite list_lookup_insert_eq in Hx by by eapply lookup_lt_Some. injection Hx as <-. lia.
  - rewrite list_lookup_insert_ne in Hx by done. rewrite left_other by done. by apply (bk_status _ _ _ HB k).
Qed.
Lemma left_count : (length (filter positive (<[i := (s - 1)%Z]> (m_cta_status b))) + (if decide (s - 1 = 0)%Z then 1 else 0) = length (filter positive (m_cta_status b)))%nat.
Proof using HB Hk Hin Hstatus. clear Hcfg. destruct left_status as [_ Hp]. pose proof (count_change positive _ _ _ (s - 1) Hstatus). repeat case_decide; lia. Qed.
(** When no block is left, no thread is. *)
Lemma left_none : length (m_cta_status b) = 32%nat -> length (filter positive (<[i := (s - 1)%Z]> (m_cta_status b))) = 0%nat -> b_active_threads b ∖ {[tid]} = ∅.
Proof using HB Hk Hin Hstatus.
  clear Hcfg. intros Hl H0. apply set_eq. intros t. split; [|set_solver]. intros [Ht Hne]%elem_of_difference. exfalso. destruct (bk_place _ _ _ HB k t Hk Ht) as (_ & _ & Hlt).
  destruct (lookup_lt_is_Some_2 (<[i := (s - 1)%Z]> (m_cta_status b)) (t / P k)%nat) as [x Hx]; [by rewrite length_insert, Hl|]. pose proof (left_all _ _ Hx) as E.
  assert (t ∈ block_threads b k (t / P k) ∖ {[tid]}) as Hd by (apply elem_of_difference; split; [by apply elem_of_filter|done]).
  assert (0 < x) as Hx0. { assert (size (block_threads b k (t / P k) ∖ {[tid]}) <> 0%nat); [|lia]. intros Hz%size_empty_inv. set_solver. }
  apply length_zero_iff_nil in H0. assert (x ∈ filter positive (<[i := (s - 1)%Z]> (m_cta_status b))) as Hf by (apply list_elem_of_filter; split; [done|by eapply list_elem_of_lookup_2]).
  rewrite H0 in Hf. by apply not_elem_of_nil in Hf.
Qed.
Lemma leave_blocks (n : Z) (k' : option kernel_info_t) (m' : gmap Z warp_set_t) : (size (b_active_threads b) <= 2048)%nat -> length (m_cta_status b) = 32%nat ->
  (if decide (s - 1 = 0)%Z then n = m_n_active_cta b - 1 /\ k' = (if n =? 0 then None else Some k) /\ m' = delete (Z.of_nat i) m
   else n = m_n_active_cta b /\ k' = Some k /\ m' = m) ->
  blocks_inv (forget tid (with_status (<[i := (s - 1)%Z]> (m_cta_status b)) n k' (deactivate tid b))) cta m'.
Proof using HB Hk Hin Hstatus.
  clear Hcfg. intros Hsz Hl Hcase. pose proof left_count as Hc. pose proof (bk_count _ _ _ HB) as Hn. destruct left_status as [Hs Hp].
  set (b1 := forget tid (with_status (<[i := (s - 1)%Z]> (m_cta_status b)) n k' (deactivate tid b))).
  assert (forall j, block_threads b1 k j = block_threads b k j ∖ {[tid]}) as Hd.
  { intros j. apply set_eq. intros t. unfold block_threads. rewrite elem_of_difference, !elem_of_filter. cbn. set_solver. }
  assert (forall k0, m_kernel b1 = Some k0 -> k0 = k) as Hk0.
  { intros k0. cbn. case_decide; destruct Hcase as (_ & -> & _); [destruct (n =? 0)|]; congruence. }
  assert (m' ⊆ m) as Hsub by (case_decide; destruct Hcase as (_ & _ & ->); [apply delete_subseteq|done]).
  assert (n = Z.of_nat (length (filter positive (<[i := (s - 1)%Z]> (m_cta_status b))))) as Hnew by (case_decide; destruct Hcase as (-> & _); lia).
  assert (forall x : Z, (exists ws, m' !! x = Some ws) <-> exists j, x = Z.of_nat j /\ block_threads b k j ∖ {[tid]} <> ∅) as Hctas.
  { intros x. pose proof (bk_ctas _ _ _ HB k x Hk) as Hx. case_decide as Hz; destruct Hcase as (_ & _ & ->).
    - assert (block_threads b k i ∖ {[tid]} = ∅) as He by (apply leibniz_equiv, size_empty_iff; lia).
      split.
      + intros [ws [Hne Hw]%lookup_delete_Some]. destruct (proj1 Hx) as (j & -> & Hj); [by eexists|]. exists j. split; [done|]. rewrite left_other; [done|]. congruence.
      + intros (j & -> & Hj). assert (j <> i) as Hne by congruence. rewrite left_other in Hj by done. destruct (proj2 Hx) as [ws Hw]; [by exists j|].
        exists ws. rewrite lookup_delete_ne by lia. done.
    - rewrite Hx. split; intros (j & -> & Hj); exists j; (split; [done|]).
      + destruct (decide (j = i)) as [->|]; [|by rewrite left_other]. intros He%(f_equal size). rewrite size_empty in He. lia.
      + set_solver. }
  split; cbn [b1 forget with_status deactivate m_kernel b_active_threads m_cta_status m_n_active_cta m_not_completed].
  - intros Hnk. assert (n = 0) as Hn0. { case_decide; destruct Hcase as (_ & E & _); rewrite E in Hnk; [|done]. by destruct (Z.eqb_spec n 0). }
    assert (b_active_threads b ∖ {[tid]} = ∅) as He by (apply left_none; [done|lia]). split; [done|]. split.
    + apply map_eq. intros x. rewrite lookup_empty. destruct (m' !! x) eqn:E; [|done]. exfalso. destruct (proj1 (Hctas x)) as (j & _ & Hj); [by eexists|].
      apply Hj. apply set_eq. intros t. unfold block_threads. rewrite elem_of_difference, elem_of_filter. set_solver.
    + intros j x Hx. rewrite (left_all j x Hx). apply Nat2Z.inj_iff with (m := 0%nat), size_empty_iff. intros t. unfold block_threads.
      rewrite elem_of_difference, elem_of_filter. set_solver.
  - intros k0 E. rewrite (Hk0 k0 E). by apply (bk_kernel _ _ _ HB).
  - intros k0 t E Ht. rewrite (Hk0 k0 E). apply (bk_place _ _ _ HB k); [done|set_solver].
  - intros k0 j x E Hx. rewrite (Hk0 k0 E), Hd. by apply left_all.
  - done.
  - rewrite (bk_threads _ _ _ HB). assert (size (b_active_threads b) = S (size (b_active_threads b ∖ {[tid]}))) as E.
    { rewrite (union_difference_singleton_L tid (b_active_threads b)) at 1 by done. rewrite size_union, size_singleton by set_solver. done. }
    rewrite u32_small by lia. lia.
  - intros k0 x E. rewrite (Hk0 k0 E). setoid_rewrite Hd. apply Hctas.
  - intros k0 j ws wid E Hw. rewrite (Hk0 k0 E). apply (bk_warps _ _ _ HB k); [done|]. by eapply lookup_weaken.
Qed.
End leave.
(** What the end of a warp leaves alone. *)
Record quiet c c' : Prop := {
  qt_warps : m_warp c' = m_warp c;
  qt_threads : m_thread c' = m_thread c;
  qt_fetch : m_inst_fetch_buffer c' = m_inst_fetch_buffer c;
  qt_regs : m_pipeline_reg c' = m_pipeline_reg c }.
Lemma left_core fl c wid w tid (l : list Z) (n : Z) (k' : option kernel_info_t) s' : core_inv fl c -> m_warp c !! wid = Some w -> hardware_done w = true -> (tid / W)%nat = wid ->
  alive (m_thread c) tid = false -> length l = 32%nat -> barriers_inv (m_thread c) s' ->
  let b := forget tid (with_status l n k' (deactivate tid (m_blocks c))) in
  blocks_inv b (cta_of c) (m_cta_to_warps s') -> core_inv fl (set_barriers s' (set_blocks b c)).
Proof using Type.
  clear Hcfg. intros H Hw Hd Ht Ha Hl Hs b Hb. pose proof H as [(L1 & L2 & L3 & L4 & L5 & L6) H2 H3 H4 H5 H6 H7].
  split; cbn [set_barriers set_blocks m_warp m_thread m_barriers m_blocks m_simt_stack m_scoreboard b forget with_status deactivate b_active_threads m_threadState m_cta_status].
  - rewrite length_alter. done.
  - intros v x Hv. pose proof (H2 v x Hv) as Hi. destruct (decide (v = wid)) as [->|Hne].
    + assert (x = w) as -> by congruence. by eapply warp_inv_done.
    + eapply warp_inv_act; [|exact Hi]. intros Hn (t & Htin & Htw). apply Hn. exists t. split; [|done]. cbn. apply elem_of_difference. split; [done|].
      intros ->%elem_of_singleton. congruence.
  - intros t Hta. apply elem_of_difference. split; [by apply H3|]. intros ->%elem_of_singleton. congruence.
  - intros t [Htin _]%elem_of_difference. by apply H4.
  - intros t x Hx. rewrite elem_of_difference, elem_of_singleton. destruct (decide (t = tid)) as [->|Hne].
    + rewrite list_lookup_alter_eq in Hx. destruct (m_threadState (m_blocks c) !! tid); [|done]. injection Hx as <-. cbn. naive_solver.
    + rewrite list_lookup_alter_ne in Hx by done. rewrite <-(H5 t x Hx). tauto.
  - done.
  - assert (cta_of (set_barriers s' (set_blocks b c)) = cta_of c) as E by done. by rewrite E.
Qed.
Lemma exit_thread_ok fl c wid w tid d : core_inv fl c -> m_warp c !! wid = Some w -> hardware_done w = true -> (tid / W)%nat = wid -> (tid < N * W)%nat ->
  safe (fun st : core * bool => core_inv fl st.1 /\ quiet c st.1) (exit_thread wid tid (c, d)).
Proof using Hcfg.
  intros H Hw Hd Ht Hlt. pose proof (ci_lengths _ _ H) as (L1 & L2 & L3 & L4 & L5 & L6). unfold exit_thread.
  destruct (lookup_lt_is_Some_2 (m_threadState (m_blocks c)) tid) as [t Htid]; [lia|]. rewrite Htid. cbn [lift mbind result_bind].
  destruct (t_active t) eqn:Hta; cbn [negb]; [|by split]. pose proof (proj2 (ci_states _ _ H tid t Htid) Hta) as Hin.
  pose proof (ci_blocks _ _ H) as HB. destruct (m_kernel (m_blocks c)) as [k|] eqn:Hk; [|destruct (bk_none _ _ _ HB Hk) as [He _]; set_solver].
  destruct (bk_place _ _ _ HB k tid Hk Hin) as (Hcta & _ & Hi). rewrite Ht in Hcta. unfold cta_of in Hcta. rewrite Hw in Hcta. cbn in Hcta.
  destruct (lookup_lt_is_Some_2 (m_cta_status (m_blocks c)) (tid / P k)%nat) as [s Hs]; [lia|].
  assert (alive (m_thread c) tid = false) as Ha.
  { destruct (alive (m_thread c) tid) eqn:E; [|done]. exfalso. unfold hardware_done in Hd. apply andb_true_iff in Hd as [[Hd _]%andb_true_iff _].
    apply (functional_done_iff _ _ _ _ _ _ (ci_warps _ _ H wid w Hw)) in Hd. destruct (tid_split tid) as [Hsplit Hm]. rewrite Ht in Hsplit.
    apply (not_elem_of_empty (C := gset nat) (tid `mod` W)%nat). rewrite <-Hd. apply elem_of_alive_lanes. split; [done|]. by rewrite <-Hsplit. }
  unfold warp. rewrite Hw. cbn [lift mbind result_bind]. unfold register_cta_thread_exit. rewrite Hcta, Nat2Z.id.
  cbn [set_blocks m_blocks deactivate m_cta_status m_barriers m_n_active_cta m_kernel]. rewrite Hs. cbn [lift mbind result_bind].
  destruct (left_status (m_blocks c) (cta_of c) _ k tid s HB Hk Hin Hs) as [Hsz Hpos]. rewrite (proj2 (Z.ltb_lt 0 s) Hpos). cbn [check mbind result_bind].
  pose proof (leave_blocks (m_blocks c) (cta_of c) _ k tid s HB Hk Hin Hs) as Hleave. pose proof (active_bound _ _ H) as Hab.
  assert (forall (n : Z) (k' : option kernel_info_t) s', barriers_inv (m_thread c) s' -> blocks_inv (forget tid (with_status (<[(tid / P k)%nat := s - 1]> (m_cta_status (m_blocks c))) n k' (deactivate tid (m_blocks c)))) (cta_of c) (m_cta_to_warps s') ->
    let c' := set_barriers s' (set_blocks (forget tid (with_status (<[(tid / P k)%nat := s - 1]> (m_cta_status (m_blocks c))) n k' (deactivate tid (m_blocks c)))) c) in
    safe (fun st : core * bool => core_inv fl st.1 /\ quiet c st.1) (_ ← check FrontEnd (bool_decide (mjoin (m_thread c' !! tid) <> None)); Ok (c', true))) as Hdone.
  { intros n k' s' Hb HB' c'. destruct (ci_bound _ _ H tid Hin) as [x Hx]. apply safe_check; [cbn; by rewrite Hx|]. cbn. split; [|by split].
    apply (left_core fl c wid w tid); try done. by rewrite length_insert. }
  destruct (Z.eqb_spec (s - 1) 0) as [Hz|Hz]; cbn [negb].
  - pose proof (bk_count _ _ _ HB) as Hn. pose proof (left_count _ _ _ _ _ _ HB Hk Hin Hs) as Hc. rewrite decide_True in Hc by done.
    assert (0 <= m_n_active_cta (m_blocks c) - 1 < 2 ^ 32) as Hr.
    { pose proof (length_filter (fun s => 0 < s) (m_cta_status (m_blocks c))). lia. }
    destruct (proj2 (bk_ctas _ _ _ HB k (Z.of_nat (tid / P k)) Hk)) as [ws Hws]; [exists (tid / P k)%nat; split; [done|]; intros He; apply (not_elem_of_empty (C := gset nat) tid); rewrite <-He; by apply elem_of_filter|].
    destruct (block_ends fl c k (tid / P k)%nat ws H Hk) as (s' & -> & Hb & Hm); [|done|].
    { intros t' Ht'. destruct (decide (t' = tid)) as [->|Hne]; [done|]. exfalso. rewrite Hz in Hsz. apply size_empty_inv in Hsz. apply (not_elem_of_empty (C := gset nat) t'). apply Hsz. set_solver. }
    cbn [lift mbind result_bind]. rewrite u32_small by lia.
    destruct (m_n_active_cta (m_blocks c) - 1 =? 0) eqn:Hn0.
    + rewrite Hk, bool_decide_eq_true_2 by done. cbn [check mbind result_bind]. apply (Hdone _ _ s'); [done|]. rewrite Hm. apply Hleave; [done|done|]. rewrite decide_True by done. by rewrite Hn0.
    + cbn [mbind result_bind]. rewrite Hk. apply (Hdone _ _ s'); [done|]. rewrite Hm. apply Hleave; [done|done|]. rewrite decide_True by done. by rewrite Hn0.
  - cbn [mbind result_bind]. specialize (Hdone (m_n_active_cta (m_blocks c)) (m_kernel (m_blocks c)) (m_barriers c) (ci_barriers _ _ H)). rewrite Hk in Hdone |- *.
    destruct c. apply Hdone. apply Hleave; [done|done|]. by rewrite decide_False.
Qed.
(** *** Fetch *)
(** The books with nothing fetched, for which the buffers do not matter. *)
Definition idle_books rest c : Prop := books rest c /\ m_inst_fetch_buffer c = None.
Lemma quiet_books rest c c' : idle_books rest c -> core_inv (fun v => in_regs c v + rest v)%nat c' -> quiet c c' -> idle_books rest c'.
Proof using Type.
  clear Hcfg. intros ((H & _ & Hr) & Hf) H' [Q1 Q2 Q3 Q4]. split; [|congruence]. split; [|split].
  - eapply core_inv_ext; [|exact H']. intros v. cbn. unfold in_regs. by rewrite Q4.
  - intros pc v Hv. congruence.
  - by rewrite Q4.
Qed.
(** A change of the record of a warp that keeps its buffer. *)
Lemma on_warp_books rest rest' c wid f : books rest c -> (wid < N)%nat -> (forall v, v <> wid -> rest' v = rest v) ->
  (forall w, m_warp c !! wid = Some w -> warp_inv W (alive_lanes (m_thread c) wid) (busy (m_blocks c) wid) (in_regs c wid + rest wid) wid w ->
     safe (fun w' => warp_inv W (alive_lanes (m_thread c) wid) (busy (m_blocks c) wid) (in_regs c wid + rest' wid) wid w' /\ m_cta_id w' = m_cta_id w /\ m_ibuffer w' = m_ibuffer w) (f w)) ->
  safe (fun c' => books rest' c' /\ keeps wid c c' /\ m_barriers c' = m_barriers c /\ m_thread c' = m_thread c) (on_warp wid f c).
Proof using Hcfg.
  intros (H & Hf & Hr) Hwid Hrest Hw. destruct (warp_at _ c wid H Hwid) as [w Hat]. pose proof (ci_warps _ _ H wid w Hat) as Hi. specialize (Hw w Hat Hi). unfold on_warp. rewrite Hat.
  cbn [lift mbind result_bind]. destruct (f w) as [w'|]; [|done]. destruct Hw as (Hi' & Hc & Hb). cbn [mbind result_bind safe]. split; [|split; [split; try done; intros v Hv; cbn; by rewrite list_lookup_insert_ne|done]].
  split; [|split; [|done]].
  - apply (core_inv_ext (fun v => in_regs c v + rest' v)%nat); [done|].
    apply (set_warp_inv (fun v => in_regs c v + rest v)%nat _ c wid w); try done. intros v Hv. cbn. by rewrite Hrest.
  - intros pc v Hv. destruct (Hf pc v Hv) as (Ha & x & Hx & He). split; [done|]. cbn. destruct (decide (v = wid)) as [->|Hne]; [|exists x; by rewrite list_lookup_insert_ne].
    exists w'. rewrite list_lookup_insert_eq by by eapply lookup_lt_Some. split; [done|]. assert (x = w) as -> by congruence. unfold ibuffer_empty in *. by rewrite Hb.
Qed.
Lemma on_warp_same rest c wid (f : shd_warp_t -> shd_warp_t) : books rest c -> (wid < N)%nat ->
  (forall w, let w' := f w in m_warp_size w' = m_warp_size w /\ m_active_threads w' = m_active_threads w /\ n_completed w' = n_completed w /\ m_ibuffer w' = m_ibuffer w /\
     m_next w' = m_next w /\ m_inst_in_pipeline w' = m_inst_in_pipeline w /\ m_warp_id w' = m_warp_id w /\ m_stores_outstanding w' = m_stores_outstanding w /\ m_cta_id w' = m_cta_id w) ->
  safe (fun c' => books rest c' /\ keeps wid c c') (on_warp wid (fun w => Ok (f w)) c).
Proof using Hcfg.
  intros H Hwid Hf. eapply safe_mono; [apply (on_warp_books rest rest c wid); try done|cbn; tauto].
  intros w _ Hi. destruct (Hf w) as (E1 & E2 & E3 & E4 & E5 & E6 & E7 & E8 & E9). cbn. split; [|done]. by eapply (warp_inv_same W _ _ _ _ w).
Qed.
Lemma reclaim_ok rest c wid : idle_books rest c -> (wid < N)%nat -> safe (idle_books rest) (reclaim cfg wid c).
Proof using Hcfg.
  intros Hb Hwid. pose proof Hb as ((H & Hf & Hr) & Hnone). destruct (warp_at _ c wid H Hwid) as [w Hw]. destruct (board_of _ _ H) as (L5 & _ & _). unfold reclaim, warp.
  rewrite Hw. cbn [lift mbind result_bind]. unfold pendingWrites. destruct (row_some (reg_table (m_scoreboard c)) N wid L5 Hwid) as [row ->]. cbn [lift mbind option_bind result_bind].
  destruct (hardware_done w && _ && _) eqn:Hd; [|done]. apply andb_true_iff in Hd as [[Hd _]%andb_true_iff _].
  eapply (safe_bind (fun st : core * bool => core_inv (fun v => in_regs c v + rest v)%nat st.1 /\ quiet c st.1)).
  - apply safe_for_each_inv; [by split|]. intros tid [c1 d1] Ht [H1 [Q1 Q2 Q3 Q4]]. cbn [fst] in *. apply elem_of_seq in Ht.
    assert (tid = wid * W + (tid - wid * W))%nat as E by lia. assert (tid - wid * W < W)%nat as Hl by lia.
    eapply safe_mono; [apply (exit_thread_ok (fun v => in_regs c v + rest v)%nat c1 wid w tid d1); [done|by rewrite Q1|done| |]|].
    + rewrite E. by apply tid_warp.
    + rewrite E. by apply lane_bound.
    + intros [c2 d2] [H2 [R1 R2 R3 R4]]. cbn [fst] in *. split; [done|]. split; congruence.
  - intros [c1 did] [H1 Hq]. cbn [fst] in *. pose proof (quiet_books rest c c1 Hb H1 Hq) as Hb1. destruct did; [|done].
    eapply safe_mono; [apply (on_warp_same rest c1 wid set_done_exit); [apply Hb1|done|done]|]. intros c2 [H2 K]. split; [done|]. rewrite (kp_fetch _ _ _ K). apply Hb1.
Qed.
Variable icache : Z -> Z -> cache_status.
Lemma set_fetch_books rest c f last : books rest c -> fetch_inv (set_fetch f last c) -> books rest (set_fetch f last c).
Proof using Type.
  clear Hcfg icache. intros (H & _ & Hr) Hf. split; [|by split]. eapply core_inv_same; [..|exact H]; try done. apply (board_of _ _ H).
Qed.
Lemma fetch_warp_ok rest c wid w : books rest c -> m_inst_fetch_buffer c = None -> (wid < N)%nat -> m_warp c !! wid = Some w -> functional_done w = false -> ibuffer_empty w = true ->
  safe (books rest) (fetch_warp cfg icache wid c).
Proof using Hcfg.
  intros Hb Hnone Hwid Hw Hd He. unfold fetch_warp, warp. rewrite Hw. cbn [lift mbind result_bind].
  assert (books rest (set_fetch (m_inst_fetch_buffer c) wid c)) as Hsame by (apply set_fetch_books; [done|]; intros pc v Hv; cbn in Hv; congruence).
  destruct (icache _ _).
  - apply set_fetch_books; [done|]. intros pc v [= _ <-]. split; [|by exists w]. intros Ha. pose proof Hb as (H & _).
    apply (functional_done_iff _ _ _ _ _ _ (ci_warps _ _ H wid w Hw)) in Ha. congruence.
  - eapply safe_mono; [by apply (on_warp_same rest)|]. by intros c' [? _].
  - done.
Qed.
Lemma fetch_loop_ok rest turns last : forall c, idle_books rest c -> safe (books rest) (fetch_loop cfg icache turns last c).
Proof using Hcfg.
  induction turns as [|i turns IH]; intros c Hb; cbn [fetch_loop]; [apply Hb|]. set (wid := ((last + 1 + i) `mod` N)%nat).
  assert (wid < N)%nat as Hwid by (apply Nat.mod_upper_bound; pose proof (fo_bits _ Hcfg); lia).
  eapply safe_bind; [by apply (reclaim_ok rest)|]. intros c1 Hb1. pose proof Hb1 as ((H1 & _) & Hnone). destruct (warp_at _ c1 wid H1 Hwid) as [w Hw]. unfold warp. rewrite Hw. cbn [lift mbind result_bind].
  destruct (_ && _ && _) eqn:Hc; [|by apply IH]. apply andb_true_iff in Hc as [[Hc _]%andb_true_iff He]. apply negb_true_iff in Hc.
  apply (fetch_warp_ok rest c1 wid w); try done. apply Hb1.
Qed.
Lemma fetch_ok rest ready c : books rest c -> (forall wid, ready = Some wid -> (wid < N)%nat) -> safe (books rest) (fetch cfg icache ready c).
Proof using Hcfg.
  intros Hb Hready. unfold fetch. eapply (safe_bind (books rest)).
  - destruct (m_inst_fetch_buffer c) as [pc|] eqn:Hf; [done|]. by apply fetch_loop_ok.
  - intros c1 Hb1. destruct ready as [wid|]; [|done]. eapply safe_mono; [apply (on_warp_same rest c1 wid (set_imiss false)); [done|by apply Hready|done]|]. by intros c2 [? _].
Qed.

(** *** What the pipelines call *)
Lemma release_registers_books rest c p : books rest c -> (p_wid p < N)%nat -> safe (books rest) (release_registers p c).
Proof using Type.
  clear Hcfg icache. intros (H & Hf & Hr) Hwid. unfold release_registers. destruct (release_ok N (p_wid p) (issued_inst p) _ (board_of _ _ H) Hwid) as (s' & -> & Hs').
  split; [|by split]. eapply core_inv_same; [..|exact H]; done.
Qed.
Lemma release_register_books rest c wid r : books rest c -> (wid < N)%nat -> safe (books rest) (release_register wid r c).
Proof using Type.
  clear Hcfg icache. intros (H & Hf & Hr) Hwid. unfold release_register. destruct (board_of _ _ H) as (L & L' & L''). destruct (row_some _ _ _ L Hwid) as [row Hrow].
  assert (exists s', releaseRegister wid r (m_scoreboard c) = Some s' /\ lengths N s') as (s' & -> & Hs').
  { unfold releaseRegister. rewrite Hrow. cbn [mbind option_bind]. destruct (negb _); [by eexists|].
    destruct (on_row_some (fun row => row ∖ {[r]}) wid (reg_table (m_scoreboard c))) as [t Ht]; [lia|]. rewrite Ht. eexists. split; [done|].
    split; [cbn; by rewrite (on_row_size _ _ _ _ Ht)|done]. }
  split; [|by split]. eapply core_inv_same; [..|exact H]; done.
Qed.
Definition one_less wid (rest : nat -> nat) : nat -> nat := fun v => (rest v - if Nat.eqb wid v then 1 else 0)%nat.
Lemma done_books rest c wid : books rest c -> (wid < N)%nat -> (0 < rest wid)%nat -> safe (books (one_less wid rest)) (instruction_done wid c).
Proof using Hcfg.
  clear icache. intros H Hwid Hpos. eapply safe_mono; [apply (on_warp_books rest (one_less wid rest) c wid); [done|done| |]|cbn; tauto].
  - intros v Hv. unfold one_less. rewrite (proj2 (Nat.eqb_neq _ _)) by done. lia.
  - intros w _ Hi. replace (in_regs c wid + rest wid)%nat with (S (in_regs c wid + one_less wid rest wid)) in Hi by (unfold one_less; rewrite Nat.eqb_refl; lia).
    destruct (dec_ok W _ _ _ _ _ Hi) as (w' & E & Hi' & Hc). rewrite E. cbn. split; [done|]. split; [done|]. unfold dec_inst_in_pipeline in E. destruct (0 <? _); [|done]. by injection E as <-.
Qed.
Lemma write_back_books rest c p : books rest c -> (p_wid p < N)%nat -> (0 < rest (p_wid p))%nat -> safe (books (one_less (p_wid p) rest)) (write_back p c).
Proof using Hcfg.
  clear icache. intros H Hwid Hpos. pose proof (release_registers_books rest c p H Hwid) as Hrel. unfold release_registers in Hrel. unfold write_back.
  destruct (releaseRegisters _ _ _) as [b|]; [|done]. by apply done_books.
Qed.
Lemma inc_store_ok rest c wid : books rest c -> (wid < N)%nat -> (0 < rest wid)%nat -> safe (books rest) (inc_store wid c).
Proof using Hcfg.
  clear icache. intros H Hwid Hpos. eapply safe_mono; [apply (on_warp_books rest rest c wid); try done|cbn; tauto].
  intros w _ [? ? ? [? ?] ? Hp ? ? Hr]. cbn. split; [|done]. split; try done. intros Hn. destruct (Hr Hn). lia.
Qed.
Lemma store_ack_ok rest c wid w : books rest c -> m_warp c !! wid = Some w -> 0 < m_stores_outstanding w -> safe (books rest) (store_ack wid c).
Proof using Hcfg.
  clear icache. intros H Hw Hpos. assert (wid < N)%nat as Hwid by (destruct H as (H & _); rewrite <-(proj1 (ci_lengths _ _ H)); by eapply lookup_lt_Some).
  eapply safe_mono; [apply (on_warp_books rest rest c wid); try done|cbn; tauto].
  intros x Hx [? ? ? [? ?] ? Hp ? ? Hr]. assert (x = w) as -> by congruence. unfold dec_store_req. rewrite (proj2 (Z.ltb_lt _ _) Hpos). cbn. split; [|done].
  split; try done. intros Hn. destruct (Hr Hn). lia.
Qed.
(** The counters of outstanding operations. *)
Lemma counter_ok rest c wid w f : books rest c -> m_warp c !! wid = Some w -> (exists w', f w = Ok w' /\ remembers w w') -> safe (books rest) (on_warp wid f c).
Proof using Hcfg.
  clear icache. intros H Hw (w' & E & Hr). assert (wid < N)%nat as Hwid by (destruct H as (H & _); rewrite <-(proj1 (ci_lengths _ _ H)); by eapply lookup_lt_Some).
  eapply safe_mono; [apply (on_warp_books rest rest c wid); try done|cbn; tauto].
  intros x Hx Hi. assert (x = w) as -> by congruence. rewrite E. cbn. destruct (remembers_inv _ _ _ _ _ _ Hr Hi) as [? ?]. split; [done|]. split; [done|].
  by destruct Hr as (? & ? & ? & ? & ->).
Qed.
(** A pipeline takes an instruction. *)
Definition move_out (r : pipe) (slot : nat) c : core := set_regs (fun r' => if decide (r' = r) then <[slot := None]> (m_pipeline_reg c r) else m_pipeline_reg c r') c.
Lemma move_out_ok rest r slot p c : books rest c -> m_pipeline_reg c r !! slot = Some (Some p) -> (p_wid p < N)%nat /\ books (one_more (p_wid p) rest) (move_out r slot c).
Proof using Type.
  clear Hcfg icache. intros (H & Hf & Hr) Hs. split; [by eapply Hr|].
  assert (forall v, (in_regs (move_out r slot c) v + (if Nat.eqb (p_wid p) v then 1 else 0) = in_regs c v)%nat) as Hc.
  { intros v. pose proof (count_insert v _ _ _ None Hs) as Hc. cbn [of_warp] in Hc. unfold in_regs, move_out, set_regs. cbn [m_pipeline_reg].
    unfold register_set in *. destruct r; repeat case_decide; try done; lia. }
  split; [|split; [done|]].
  - apply (core_inv_ext (fun v => in_regs c v + rest v)%nat); [intros v; specialize (Hc v); unfold one_more; lia|].
    eapply core_inv_same; [..|exact H]; try done. apply (board_of _ _ H).
  - intros r' slot' p' Hl. unfold move_out, set_regs, register_set in *. cbn [m_pipeline_reg] in Hl. case_decide; [|by eapply Hr].
    destruct (decide (slot' = slot)) as [->|Hne]; [rewrite list_lookup_insert_eq in Hl by (by eapply lookup_lt_Some); congruence|].
    rewrite list_lookup_insert_ne in Hl by done. by eapply Hr.
Qed.
End core.
