(* ===== verification/FrontEndRuns.v ===== *)
(** The runs of the front end of a shader core: a block starts in a free context, and every order of
    the steps of the core and of its pipelines keeps the books. *)
From S2P Require Import Prelude SimtStack Scoreboard GpuCache Coalescer LocalMemory Barrier Warps FrontEnd FrontEndSafe.

Section runs.
Context {Machine : Type}.
Variable cfg : front_config.
Hypothesis Hcfg : front_ok cfg.
Abbreviation core := (@core Machine).
Abbreviation W := (threads_per_warp cfg).
Abbreviation N := (max_warps_per_shader cfg).
Abbreviation shader := (f_shader cfg).
Implicit Types (c : core) (w : shd_warp_t) (k : kernel_info_t) (wid tid lane i n : nat) (fl rest : nat -> nat) (l : list (option thread_info)).

(** ** A free context *)
(** A core takes a kernel when it has none. *)
Lemma kernel_books rest c k : books cfg rest c -> m_kernel (m_blocks c) = None -> kernel_ok shader k -> books cfg rest (set_kernel k c).
Proof using Type.
  clear Hcfg. intros ([H1 H2 H3 H4 H5 H6 H7] & Hf & Hr) Hk Hok. destruct (bk_none _ _ _ _ H7 Hk) as (Ha & Hm & Hs). split; [|by split]. split; try done.
  assert (forall j, block_threads cfg (m_blocks (set_kernel k c)) k j = ∅) as He by (intros j; unfold block_threads; cbn; rewrite Ha; set_solver).
  destruct H7 as [B1 B2 B3 B4 B5 B6 B7 B8]. split; try done; cbn in *.
  - congruence.
  - intros k' tid _ Ht. rewrite Ha in Ht. set_solver.
  - intros k' j s [= <-] Hj. rewrite He, size_empty. by apply Hs in Hj.
  - intros k' x [= <-]. rewrite Hm. setoid_rewrite He. split; [intros [ws Hw]; by rewrite lookup_empty in Hw|naive_solver].
  - intros k' j ws wid _ Hw. rewrite Hm, lookup_empty in Hw. done.
Qed.

Section start.
Context (k : kernel_info_t) (i : nat).
Abbreviation P := (P cfg k).
Abbreviation T := (Z.to_nat (threads_per_cta k)).
Abbreviation start_thread := (i * P)%nat.
Abbreviation end_thread := (i * P + T)%nat.
Hypothesis Hk : kernel_ok shader k.
(** The context is one that fits the core. *)
Hypothesis Hfit : (S i * P <= N * W)%nat.
Lemma T_ok : (0 < T <= P)%nat.
Proof using Hcfg Hk. clear Hfit. destruct (padded_bounds shader k (fo_config _ Hcfg) Hk) as [HP HT]. destruct Hk as [Ht _ _ _ _]. unfold FrontEndSafe.P. lia. Qed.
Lemma fits tid : (start_thread <= tid < end_thread)%nat -> (tid < N * W /\ tid / P = i)%nat.
Proof using Hcfg Hk Hfit.
  pose proof T_ok as HT. intros Ht. split; [nia|]. symmetry. apply (Nat.div_unique _ _ _ (tid - i * P)); lia.
Qed.
(** The warps of the context, from the first to the one with the last thread. *)
Definition block_warps : gset nat := list_to_set ((fun tid => tid / W)%nat <$> seq start_thread T).
Lemma elem_of_block_warps wid : wid ∈ block_warps <-> exists tid, (start_thread <= tid < end_thread /\ tid / W = wid)%nat.
Proof using Type.
  clear Hcfg Hk Hfit. unfold block_warps. rewrite elem_of_list_to_set, list_elem_of_fmap. setoid_rewrite elem_of_seq. naive_solver.
Qed.
Lemma start_warp : exists q, (start_thread = q * W)%nat.
Proof using Hcfg Hk. clear Hfit. destruct (P_warps cfg Hcfg k Hk) as (q & HP & _). exists (i * q)%nat. rewrite HP. lia. Qed.
(** Their numbers are the ones the loops go through. *)
Lemma block_warps_range wid : wid ∈ block_warps <-> (start_thread / W <= wid < end_thread / W + (if Nat.eqb (end_thread `mod` W) 0 then 0 else 1))%nat.
Proof using Hcfg Hk.
  clear Hfit. pose proof (W_ok cfg Hcfg) as HW. pose proof T_ok as HT. destruct start_warp as [q Hq]. rewrite elem_of_block_warps, Hq.
  rewrite Nat.div_mul by lia. pose proof (Nat.div_mod (q * W + T) W) as Hd. pose proof (Nat.mod_upper_bound (q * W + T) W) as Hm.
  split.
  - intros (tid & Ht & <-). destruct (tid_split cfg Hcfg tid) as [Hs Hl]. split; [nia|]. destruct (Nat.eqb_spec ((q * W + T) `mod` W) 0); nia.
  - intros [H1 H2]. exists (wid * W)%nat. rewrite Nat.div_mul by lia. split; [|done]. destruct (Nat.eqb_spec ((q * W + T) `mod` W) 0); nia.
Qed.
Lemma block_warps_place wid : wid ∈ block_warps <-> in_block cfg k i (wid * W).
Proof using Hcfg Hk.
  clear Hfit. pose proof (W_ok cfg Hcfg) as HW. pose proof T_ok as HT. rewrite elem_of_block_warps. unfold in_block. split.
  - intros (tid & Ht & <-). destruct (warp_block cfg Hcfg k tid Hk) as [E1 E2]. rewrite <-E1.
    assert (tid / P = i)%nat as E by (symmetry; apply (Nat.div_unique _ _ _ (tid - i * P)); lia). split; [done|].
    pose proof (Nat.div_mod tid P). lia.
  - intros [Hd Hm]. exists (wid * W)%nat. rewrite Nat.div_mul by lia. split; [|done]. pose proof (Nat.div_mod (wid * W) P). nia.
Qed.
Lemma block_warps_lt wid : wid ∈ block_warps -> (wid < N)%nat.
Proof using Hcfg Hk Hfit.
  rewrite elem_of_block_warps. intros (tid & Ht & <-). destruct (fits tid Ht) as [Hlt _]. pose proof (W_ok cfg Hcfg). apply Nat.Div0.div_lt_upper_bound. lia.
Qed.

(** *** The context is free *)
Section free.
Context (fl : nat -> nat) (c : core).
Hypotheses (H : core_inv cfg fl c) (Hkernel : m_kernel (m_blocks c) = Some k) (Hfree : m_cta_status (m_blocks c) !! i = Some 0).
Lemma free_threads tid : tid ∈ b_active_threads (m_blocks c) -> (tid / P)%nat <> i.
Proof using H Hkernel Hfree.
  clear Hcfg Hk Hfit. intros Ht Hi. pose proof (bk_status _ _ _ _ (ci_blocks _ _ _ H) k i 0 Hkernel Hfree) as Hs.
  assert (size (block_threads cfg (m_blocks c) k i) = 0%nat) as Hz by lia. apply size_empty_inv in Hz.
  apply (not_elem_of_empty (C := gset nat) tid). apply Hz. by apply elem_of_filter.
Qed.
Lemma free_warp wid : wid ∈ block_warps -> ~ busy cfg (m_blocks c) wid /\ alive_lanes cfg (m_thread c) wid = ∅.
Proof using H Hkernel Hfree Hcfg Hk.
  clear Hfit. intros Hw%block_warps_place. assert (~ busy cfg (m_blocks c) wid) as Hb.
  { intros (tid & Ht & Hwid). apply (free_threads tid Ht). destruct (warp_block cfg Hcfg k tid Hk) as [-> _]. rewrite Hwid. apply Hw. }
  split; [done|]. destruct (decide (alive_lanes cfg (m_thread c) wid = ∅)) as [|Hne]; [done|]. exfalso. apply Hb. by apply (alive_busy cfg Hcfg fl c wid).
Qed.
Lemma free_warp_inv wid w : wid ∈ block_warps -> m_warp c !! wid = Some w -> warp_inv W ∅ False (fl wid) wid w.
Proof using H Hkernel Hfree Hcfg Hk.
  clear Hfit. intros Hw Hat. destruct (free_warp wid Hw) as [Hb He]. rewrite <-He. eapply warp_inv_act; [|by apply (ci_warps _ _ _ H)]. done.
Qed.
End free.

(** *** The context is made ready *)
Definition tids : list nat := seq start_thread T.
Lemma elem_of_tids tid : tid ∈ tids <-> (start_thread <= tid < end_thread)%nat.
Proof using Type. clear Hcfg Hk Hfit. unfold tids. rewrite elem_of_seq. lia. Qed.
Lemma reinit_states (ts : list nat) tid (t : thread_ctx_t) : forall s : list thread_ctx_t,
  foldl (fun s tid => alter (fun t => mkThreadCtx (u32 (-1)) (t_active t)) tid s) s ts !! tid = Some t -> exists t0, s !! tid = Some t0 /\ t_active t = t_active t0.
Proof using Type.
  clear Hcfg Hk Hfit. induction ts as [|x ts IH]; intros s; cbn [foldl]; [by exists t|]. intros (t0 & Ht & E)%IH. destruct (decide (tid = x)) as [->|Hne].
  - rewrite list_lookup_alter_eq in Ht. destruct (s !! x) as [t1|]; [|done]. cbn in Ht. injection Ht as <-. by exists t1.
  - rewrite list_lookup_alter_ne in Ht by done. by exists t0.
Qed.
Lemma reinit_length (ts : list nat) : forall s : list thread_ctx_t,
  length (foldl (fun s tid => alter (fun t => mkThreadCtx (u32 (-1)) (t_active t)) tid s) s ts) = length s.
Proof using Type. clear Hcfg Hk Hfit. induction ts as [|x ts IH]; intros s; cbn [foldl]; [done|]. by rewrite IH, length_alter. Qed.
(** What the start of a block leaves alone. *)
Record held c c' : Prop := {
  hd_warps v : v ∉ block_warps -> m_warp c' !! v = m_warp c !! v;
  hd_fetch : m_inst_fetch_buffer c' = m_inst_fetch_buffer c;
  hd_regs : m_pipeline_reg c' = m_pipeline_reg c;
  hd_alive v : v ∉ block_warps -> alive_lanes cfg (m_thread c') v = alive_lanes cfg (m_thread c) v }.
Lemma held_trans c1 c2 c3 : held c1 c2 -> held c2 c3 -> held c1 c3.
Proof using Type. clear Hcfg Hk Hfit. intros [A1 A2 A3 A4] [B1 B2 B3 B4]. split; [intros v Hv; by rewrite B1, A1|congruence..|intros v Hv; by rewrite B4, A4]. Qed.
Definition reinited : blocks -> blocks := reinit_state (seq start_thread (end_thread - start_thread)).
Lemma reinit_ok fl c : core_inv cfg fl c -> m_kernel (m_blocks c) = Some k -> m_cta_status (m_blocks c) !! i = Some 0 ->
  safe (fun c' => core_inv cfg fl c' /\ m_blocks c' = reinited (m_blocks c) /\ m_thread c' = m_thread c /\ m_barriers c' = m_barriers c /\ held c c') (reinit cfg start_thread end_thread c).
Proof using Hcfg Hk Hfit.
  intros H Hkernel Hfree. unfold reinit. assert (core_inv cfg fl (set_blocks (reinited (m_blocks c)) c)) as H0.
  { destruct H as [(L1 & L2 & L3 & L4 & L5 & L6) H2 H3 H4 H5 H6 [B1 B2 B3 B4 B5 B6 B7 B8]]. split; try done; cbn; [by rewrite reinit_length|].
    intros tid t (t0 & Ht & ->)%reinit_states. by apply H5. }
  apply safe_for_each_inv; [split; [exact H0|]; split; [done|]; split; [done|]; split; [done|]; by split|]. intros wid c1 Hwid%elem_of_seq (H1 & Hb & Ht & Hbar & Hh).
  assert (wid ∈ block_warps) as Hin by (apply block_warps_range; lia). pose proof (block_warps_lt wid Hin) as Hlt.
  assert (m_kernel (m_blocks c1) = Some k /\ m_cta_status (m_blocks c1) !! i = Some 0) as [Hkernel1 Hfree1] by by rewrite Hb.
  eapply safe_bind; [apply (on_warp_inv cfg Hcfg fl fl c1 wid); [done|done|done|]|].
  - intros w Hw Hi. destruct (free_warp fl c1 H1 Hkernel1 Hfree1 wid Hin) as [Hbusy He]. rewrite He in *.
    destruct (reset_ok W (W_ok cfg Hcfg) (fl wid) wid w) as (w' & -> & Hi' & Hc); [by apply (free_warp_inv fl c1)|]. cbn. split; [|done].
    eapply warp_inv_act; [|exact Hi']. tauto.
  - intros c2 (H2 & [K1 K2 K3 K4 K5] & Hbar2 & Ht2). cbn [safe]. split.
    + eapply core_inv_same; [..|exact H2]; try done; [cbn; by rewrite length_insert|]. apply (board_of _ _ _ H2).
    + cbn. split; [congruence|]. split; [congruence|]. split; [congruence|]. eapply held_trans; [exact Hh|]. split; try done; intros v Hv; [apply K1; congruence|]. cbn. by rewrite Ht2.
Qed.
Context (ptx_sim_init_thread : Machine -> nat -> Machine * (Z * Z)).
(** The threads are bound. *)
Record bound (ts : list nat) c c' : Prop := {
  bd_same : m_warp c' = m_warp c /\ m_barriers c' = m_barriers c /\ m_simt_stack c' = m_simt_stack c /\ m_scoreboard c' = m_scoreboard c /\
    m_pipeline_reg c' = m_pipeline_reg c /\ m_inst_fetch_buffer c' = m_inst_fetch_buffer c;
  bd_blocks : exists states, length states = length (m_threadState (m_blocks c)) /\
    (forall tid, tid ∈ ts -> states !! tid = Some (mkThreadCtx (Z.of_nat i) true)) /\ (forall tid, tid ∉ ts -> states !! tid = m_threadState (m_blocks c) !! tid) /\
    m_blocks c' = mkBlocks states (b_active_threads (m_blocks c)) (m_not_completed (m_blocks c)) (m_cta_status (m_blocks c)) (m_n_active_cta (m_blocks c))
      (m_kernel (m_blocks c)) (b_map (m_blocks c)) (b_dynamic_cta_id (m_blocks c)) (b_dynamic_warp_id (m_blocks c));
  bd_length : length (m_thread c') = length (m_thread c);
  bd_new tid : tid ∈ ts -> exists t, m_thread c' !! tid = Some (Some t) /\ is_done t = false;
  bd_old tid : tid ∉ ts -> m_thread c' !! tid = m_thread c !! tid }.
Lemma bind_ok fl c : core_inv cfg fl c -> m_kernel (m_blocks c) = Some k -> m_cta_status (m_blocks c) !! i = Some 0 ->
  safe (bound tids c) (for_each (bind_thread ptx_sim_init_thread (Z.of_nat i)) tids c).
Proof using Hcfg Hk Hfit.
  intros H Hkernel Hfree. destruct (ci_lengths _ _ _ H) as (L1 & L2 & L3 & _). apply (safe_for_each_at (fun ts => bound ts c)).
  { split; [done| |done|by intros tid Hn%not_elem_of_nil|done]. exists (m_threadState (m_blocks c)). split; [done|]. split; [intros tid Hn; by apply not_elem_of_nil in Hn|]. split; [done|]. by destruct (m_blocks c). }
  intros ts tid l2 c1 El [Hsame (states & Hl & Hnew & Hold & Hb) Hlen Hn Ho]. assert (tid ∈ tids) as Hin by (rewrite El; set_solver).
  assert (tid ∉ ts) as Hnin. { pose proof (NoDup_seq start_thread T) as Hnd. change (NoDup tids) in Hnd. rewrite El in Hnd. apply NoDup_app in Hnd as (_ & Hd & _). intros Hx. apply (Hd tid Hx). by left. }
  apply elem_of_tids, fits in Hin as [Hlt Hdiv]. unfold bind_thread. rewrite (Ho tid Hnin). destruct (lookup_lt_is_Some_2 (m_thread c) tid) as [t Ht]; [lia|].
  rewrite Ht. cbn [lift mbind result_bind]. assert (alive (m_thread c) tid = false) as Ha.
  { destruct (alive (m_thread c) tid) eqn:E; [|done]. exfalso. by apply (free_threads fl c H Hkernel Hfree tid); [apply (ci_alive _ _ _ H)|]. }
  apply safe_check. { unfold alive in Ha. rewrite Ht in Ha. destruct t; [|done]. by apply negb_false_iff in Ha. }
  destruct (ptx_sim_init_thread _ _) as [m [pc rpc]]. cbn [safe]. split; cbn.
  - done.
  - exists (<[tid := mkThreadCtx (Z.of_nat i) true]> states). rewrite Hb. cbn. split; [by rewrite length_insert|]. split; [|split; [|done]].
    + intros x [Hx| ->%list_elem_of_singleton]%elem_of_app; [|rewrite list_lookup_insert_eq; [done|lia]]. rewrite list_lookup_insert_ne by (intros ->; done). by apply Hnew.
    + intros x [Hx1 Hx2]%not_elem_of_app. rewrite list_elem_of_singleton in Hx2. rewrite list_lookup_insert_ne by done. by apply Hold.
  - by rewrite length_insert.
  - intros x [Hx| ->%list_elem_of_singleton]%elem_of_app; [|rewrite list_lookup_insert_eq by lia; by eexists]. rewrite list_lookup_insert_ne by (intros ->; done). by apply Hn.
  - intros x [Hx1 Hx2]%not_elem_of_app. rewrite list_elem_of_singleton in Hx2. rewrite list_lookup_insert_ne by done. by apply Ho.
Qed.
(** The warps of the block. *)
Lemma warps_of_tids (ts : list nat) : (forall tid, tid ∈ ts -> (tid / W < WARP_PER_CTA_MAX)%nat) ->
  foldr (fun tid s => s ← s; set_warp (tid / W)%nat s) (Some ∅) ts = Some (list_to_set ((fun tid => tid / W)%nat <$> ts) : gset nat).
Proof using Type.
  clear Hcfg Hk Hfit. induction ts as [|tid ts IH]; intros Ht; [done|]. cbn [foldr]. rewrite IH by (intros; apply Ht; by right). cbn [mbind option_bind].
  rewrite set_warp_ok by (apply Ht; by left). by rewrite fmap_cons, list_to_set_cons.
Qed.
Lemma context_warps : foldr (fun tid s => s ← s; set_warp (tid / W)%nat s) (Some ∅) tids = Some block_warps.
Proof using Hcfg Hk Hfit.
  unfold block_warps. apply warps_of_tids. intros tid Ht%elem_of_tids. apply (warps_bound cfg Hcfg), block_warps_lt, elem_of_block_warps. by exists tid.
Qed.

(** *** The warps start *)
Definition warp_numbers : list nat :=
  seq (start_thread / W) (end_thread / W + (if Nat.eqb (end_thread `mod` W) 0 then 0 else 1) - start_thread / W).
Lemma elem_of_warp_numbers v : v ∈ warp_numbers <-> v ∈ block_warps.
Proof using Hcfg Hk. clear Hfit. unfold warp_numbers. rewrite block_warps_range, elem_of_seq. lia. Qed.
Section starting.
Context (fl : nat -> nat) (c : core).
Abbreviation active := (b_active_threads (m_blocks c)).
Record ready : Prop := {
  rd_warps v : v ∈ block_warps -> exists w, m_warp c !! v = Some w /\ warp_inv W ∅ False (fl v) v w;
  rd_idle tid : tid ∈ active -> (tid / W)%nat ∉ block_warps;
  rd_bound tid : tid ∈ active -> (tid < N * W)%nat;
  rd_count : m_not_completed (m_blocks c) = Z.of_nat (size active);
  rd_alive v lane : v ∈ block_warps -> (lane < W)%nat -> alive (m_thread c) (v * W + lane) = true <-> (v * W + lane < end_thread)%nat }.
Record inited (vs : list nat) c' : Prop := {
  in_same : m_barriers c' = m_barriers c /\ m_thread c' = m_thread c /\ m_scoreboard c' = m_scoreboard c /\ m_pipeline_reg c' = m_pipeline_reg c /\
    m_inst_fetch_buffer c' = m_inst_fetch_buffer c /\ length (m_simt_stack c') = length (m_simt_stack c) /\ length (m_warp c') = length (m_warp c);
  in_new v : v ∈ vs -> exists w, m_warp c' !! v = Some w /\ warp_inv W (alive_lanes cfg (m_thread c) v) True (fl v) v w /\ m_cta_id w = Z.of_nat i;
  in_old v : v ∉ vs -> m_warp c' !! v = m_warp c !! v;
  in_blocks : exists a d, m_blocks c' = mkBlocks (m_threadState (m_blocks c)) a (Z.of_nat (size a)) (m_cta_status (m_blocks c)) (m_n_active_cta (m_blocks c))
      (m_kernel (m_blocks c)) (b_map (m_blocks c)) (b_dynamic_cta_id (m_blocks c)) d /\
    forall tid, tid ∈ a <-> tid ∈ active \/ tid ∈ tids /\ (tid / W)%nat ∈ vs }.
Hypothesis Hready : ready.
Lemma bounded_size (a : gset nat) : (forall tid, tid ∈ a -> (tid < N * W)%nat) -> (size a <= 2048)%nat.
Proof using Hcfg.
  clear Hready Hfit Hk. intros Ha. assert (a ⊆ list_to_set (C := gset nat) (seq 0 (N * W))) as Hs by (intros tid Ht; apply elem_of_list_to_set, elem_of_seq; specialize (Ha tid Ht); lia).
  apply subseteq_size in Hs. rewrite size_list_to_set, length_seq in Hs by apply NoDup_seq. rewrite <-(fo_warps _ Hcfg) in Hs.
  destruct (fo_config _ Hcfg) as [_ Ht _ _ _]. unfold MAX_THREAD_PER_SM in Ht. lia.
Qed.
Abbreviation lanes_of := (fun v => filter (fun lane => (v * W + lane < end_thread)%nat) (seq 0 W)).
Abbreviation tids_of := (fun v => list_to_set ((fun lane => v * W + lane)%nat <$> lanes_of v) : gset nat).
Lemma elem_of_tids_of v tid : v ∈ block_warps -> tid ∈ tids_of v <-> tid ∈ tids /\ (tid / W)%nat = v.
Proof using Hcfg Hk.
  clear Hready Hfit. intros Hv. pose proof (W_ok cfg Hcfg) as HW. destruct start_warp as [q Hq]. pose proof (proj1 (block_warps_range v) Hv) as [Hlo _]. rewrite Hq, Nat.div_mul in Hlo by lia.
  rewrite elem_of_list_to_set, list_elem_of_fmap, elem_of_tids. setoid_rewrite list_elem_of_filter. setoid_rewrite elem_of_seq. split.
  - intros (lane & -> & He & Hl). split; [nia|]. apply (tid_warp cfg Hcfg). lia.
  - intros [Ht <-]. destruct (tid_split cfg Hcfg tid) as [Hs Hl]. exists (tid `mod` W)%nat. lia.
Qed.
Lemma mask_alive v : v ∈ block_warps -> list_to_set (lanes_of v) = alive_lanes cfg (m_thread c) v.
Proof using Hready.
  clear Hcfg Hk Hfit. intros Hv. apply set_eq. intros lane. rewrite elem_of_list_to_set, list_elem_of_filter, elem_of_seq, elem_of_alive_lanes.
  split; [intros [He Hl]; split; [lia|]; apply (rd_alive Hready); [done|lia|done]|].
  intros [Hl Ha]. split; [by apply (rd_alive Hready)|lia].
Qed.
Lemma init_warp_ok vs v start_pc c1 : inited vs c1 -> v ∉ vs -> v ∈ block_warps -> safe (inited (vs ++ [v])) (init_warp cfg (Z.of_nat i) start_pc end_thread v c1).
Proof using Hcfg Hk Hfit Hready.
  intros [(S1 & S2 & S3 & S4 & S5 & S6 & S7) Hnew Hold (a & d & Hb & Ha)] Hv Hin. unfold init_warp. rewrite Hb. cbn [b_active_threads].
  assert (tids_of v ## a) as Hdis.
  { intros tid [Ht Hw]%elem_of_tids_of Htid%Ha; [|done]. destruct Htid as [Hact|[_ Hvs]]; [by apply (rd_idle Hready tid Hact); rewrite Hw|congruence]. }
  apply safe_check; [by apply bool_decide_eq_true_2|]. cbn [set_stacks m_blocks b_dynamic_cta_id b_dynamic_warp_id]. destruct (rd_warps Hready v Hin) as (w & Hw & Hi).
  rewrite Hb. cbn [b_dynamic_cta_id b_dynamic_warp_id]. unfold on_warp. cbn [set_stacks m_warp]. rewrite Hold, Hw by done. cbn [lift mbind result_bind]. rewrite (mask_alive v Hin).
  destruct (init_ok W (W_ok cfg Hcfg) (fl v) v w start_pc (Z.of_nat i) (alive_lanes cfg (m_thread c) v) (b_dynamic_cta_id (m_blocks c)) d Hi) as (w' & -> & Hi' & Hc).
  { intros lane [? _]%elem_of_alive_lanes. done. }
  cbn [mbind result_bind safe]. assert (forall tid, tid ∈ tids_of v ∪ a <-> tid ∈ active \/ tid ∈ tids /\ (tid / W)%nat ∈ vs ++ [v]) as Hel.
  { intros tid. rewrite elem_of_union, Ha, elem_of_tids_of, elem_of_app, list_elem_of_singleton by done. tauto. }
  assert (size (tids_of v ∪ a) <= 2048)%nat as Hsz.
  { apply bounded_size. intros tid [Ht|[Ht _]]%Hel; [by apply (rd_bound Hready)|]. by apply elem_of_tids, fits in Ht as [? _]. }
  rewrite size_union in Hsz by done. split; cbn.
  - rewrite !length_insert. done.
  - intros x [Hx| ->%list_elem_of_singleton]%elem_of_app.
    + rewrite list_lookup_insert_ne by (intros ->; done). by apply Hnew.
    + rewrite list_lookup_insert_eq; [by exists w'|]. rewrite S7. by eapply lookup_lt_Some.
  - intros x [Hx1 Hx2]%not_elem_of_app. rewrite list_elem_of_singleton in Hx2. rewrite list_lookup_insert_ne by done. by apply Hold.
  - exists (tids_of v ∪ a), (u32 (d + 1)). split; [|exact Hel]. rewrite Hb. unfold occupy. cbn. rewrite size_union by done. rewrite u32_small by lia. f_equal. lia.
Qed.
Lemma init_warps_ok : length (m_thread c) = (N * W)%nat -> safe (inited warp_numbers) (init_warps cfg (Z.of_nat i) start_thread end_thread c).
Proof using Hcfg Hk Hfit Hready.
  intros Hl. unfold init_warps, next_pc. pose proof T_ok as HT. destruct (lookup_lt_is_Some_2 (m_thread c) start_thread) as [t Ht]; [rewrite Hl; apply fits; lia|].
  rewrite Ht. cbn [lift mbind result_bind]. apply (safe_for_each_at inited).
  - split; [done|by intros v Hv%not_elem_of_nil|done|]. exists active, (b_dynamic_warp_id (m_blocks c)). split; [rewrite <-(rd_count Hready); by destruct (m_blocks c)|].
    intros tid. rewrite elem_of_nil. tauto.
  - intros vs v l2 c1 El Hi. change (warp_numbers = vs ++ v :: l2) in El. apply init_warp_ok; [done| |apply elem_of_warp_numbers; rewrite El; set_solver].
    pose proof (NoDup_seq (start_thread / W) (end_thread / W + (if Nat.eqb (end_thread `mod` W) 0 then 0 else 1) - start_thread / W)) as Hnd. change (NoDup warp_numbers) in Hnd.
    rewrite El in Hnd. apply NoDup_app in Hnd as (_ & Hd & _). intros Hx. apply (Hd v Hx). by left.
Qed.
End starting.

(** *** The block has started *)
Section started.
Context (fl : nat -> nat) (c1 c2 : core).
Hypotheses (H : core_inv cfg fl c1) (Hkernel : m_kernel (m_blocks c1) = Some k) (Hfree : m_cta_status (m_blocks c1) !! i = Some 0).
Hypotheses (H2 : bound tids c1 c2) (Hi : Z.of_nat i < max_cta_per_core shader).
Lemma started_alive tid : alive (m_thread c2) tid = true <-> tid ∈ tids \/ (tid ∉ tids) /\ alive (m_thread c1) tid = true.
Proof using H2.
  clear Hcfg Hk Hfit H Hkernel Hfree Hi fl. destruct (decide (tid ∈ tids)) as [Hin|Hn].
  - destruct (bd_new _ _ _ H2 tid Hin) as (t & Ht & Hd). unfold alive at 1. rewrite Ht, Hd. tauto.
  - unfold alive at 1. rewrite (bd_old _ _ _ H2 tid Hn). unfold alive. tauto.
Qed.
Lemma context_tid tid : (tid / W)%nat ∈ block_warps -> tid ∈ tids <-> (tid < end_thread)%nat.
Proof using Hcfg Hk.
  clear Hfit H Hkernel Hfree H2 Hi fl c1 c2. intros [Hlo _]%block_warps_range. rewrite elem_of_tids. destruct start_warp as [q Hq]. pose proof (W_ok cfg Hcfg) as HW.
  rewrite Hq, Nat.div_mul in Hlo by lia. rewrite Hq. destruct (tid_split cfg Hcfg tid) as [Hs Hl]. split; [lia|]. intros Ht. nia.
Qed.
Lemma tid_context tid : tid ∈ tids -> (tid / W)%nat ∈ block_warps.
Proof using Type. clear Hcfg Hk Hfit H Hkernel Hfree H2 Hi fl c1 c2. intros Ht%elem_of_tids. apply elem_of_block_warps. by exists tid. Qed.
Lemma started_lanes v : (v ∈ block_warps -> alive_lanes cfg (m_thread c2) v <> ∅) /\ (v ∉ block_warps -> alive_lanes cfg (m_thread c2) v = alive_lanes cfg (m_thread c1) v).
Proof using Hcfg Hk H2.
  clear H Hkernel Hfree Hi Hfit fl. split.
  - intros (tid & Ht & <-)%elem_of_block_warps He. destruct (tid_split cfg Hcfg tid) as [Hs Hl].
    apply (not_elem_of_empty (C := gset nat) (tid `mod` W)%nat). rewrite <-He. apply elem_of_alive_lanes. split; [done|]. rewrite <-Hs. apply started_alive. left. by apply elem_of_tids.
  - intros Hv. apply (alive_lanes_same cfg Hcfg). intros tid <-. unfold alive. rewrite (bd_old _ _ _ H2); [done|]. intros Ht. by apply Hv, tid_context.
Qed.
Lemma barrier_started : exists s', allocate_barrier (Z.of_nat i) block_warps (m_barriers c2) = Some s' /\ barriers_inv cfg (m_thread c2) s' /\
  m_cta_to_warps s' = <[Z.of_nat i := block_warps]> (m_cta_to_warps (m_barriers c1)).
Proof using Hcfg Hk Hfit H Hkernel Hfree H2 Hi.
  destruct (bd_same _ _ _ H2) as (_ & -> & _). destruct (ci_barriers _ _ _ H) as ((t & Hok) & Hmax & Hact). pose proof (ci_blocks _ _ _ H) as HB.
  assert (block_threads cfg (m_blocks c1) k i = ∅) as He.
  { apply set_eq. intros tid. unfold block_threads. rewrite elem_of_filter. split; [|set_solver]. intros [Ht Ha]. by destruct (free_threads fl c1 H Hkernel Hfree tid Ha). }
  assert (m_cta_to_warps (m_barriers c1) !! Z.of_nat i = None) as Hnone.
  { destruct (m_cta_to_warps (m_barriers c1) !! Z.of_nat i) as [ws|] eqn:E; [|done]. exfalso.
    destruct (proj1 (bk_ctas _ _ _ _ HB k (Z.of_nat i) Hkernel)) as (j & Hj & Hne); [by eexists|]. apply Nat2Z.inj in Hj. subst j. done. }
  destruct (allocate_ok t (m_barriers c1) (Z.of_nat i) block_warps Hok) as (s' & Hs & Hok').
  { split; [rewrite Hmax; lia|]. split; [done|]. split; [intros w Hw; by apply (warps_bound cfg Hcfg), block_warps_lt|].
    intros x ws Hx v Hv Hv'. destruct (proj1 (bk_ctas _ _ _ _ HB k x Hkernel)) as (j & -> & _); [by eexists|].
    apply (bk_warps _ _ _ _ HB k j ws v Hkernel Hx) in Hv as [Hv _]. apply block_warps_place in Hv' as [Hv' _]. assert (i = j) as -> by congruence. congruence. }
  exists s'. split; [done|]. unfold allocate_barrier in Hs. run Hs. subst s'. cbn. split; [|done]. split; [by eexists|]. split; [done|]. intros v. cbn.
  rewrite elem_of_union, Hact. destruct (started_lanes v) as [L1 L2]. destruct (decide (v ∈ block_warps)) as [Hv|Hv]; [specialize (L1 Hv); tauto|rewrite L2 by done; tauto].
Qed.
(** The core before its warps start. *)
Context (s' : barrier_set_t).
Abbreviation before := (set_barriers s' (set_blocks (count_block (Z.of_nat i) (threads_per_cta k) (m_blocks c2)) c2)).
Lemma before_ready : ready fl before.
Proof using Hcfg Hk Hfit H Hkernel Hfree H2.
  destruct (bd_same _ _ _ H2) as (S1 & _). destruct (bd_blocks _ _ _ H2) as (states & _ & _ & _ & Hb). split; cbn; rewrite ?Hb; cbn.
  - intros v Hv. rewrite S1. destruct (warp_at cfg fl c1 v H (block_warps_lt v Hv)) as [w Hw]. exists w. split; [done|]. by apply (free_warp_inv fl c1).
  - intros tid Ht Hw. destruct (free_warp fl c1 H Hkernel Hfree _ Hw) as [Hbusy _]. apply Hbusy. by exists tid.
  - intros tid Ht. destruct (ci_bound _ _ _ H tid Ht) as [t Htid]. apply lookup_lt_Some in Htid. destruct (ci_lengths _ _ _ H) as (_ & L & _). lia.
  - apply (bk_threads _ _ _ _ (ci_blocks _ _ _ H)).
  - intros v lane Hv Hl. destruct (tid_warp cfg Hcfg v lane Hl) as [Hw _]. rewrite started_alive, <-context_tid by by rewrite Hw. split; [|tauto].
    intros [|[Hn Ha]]; [done|]. destruct (free_warp fl c1 H Hkernel Hfree v Hv) as [_ He]. exfalso.
    apply (not_elem_of_empty (C := gset nat) lane). rewrite <-He. by apply elem_of_alive_lanes.
Qed.
Context (c3 : core).
Hypotheses (Hs : barriers_inv cfg (m_thread c2) s') (Hm : m_cta_to_warps s' = <[Z.of_nat i := block_warps]> (m_cta_to_warps (m_barriers c1))).
Hypotheses (H3 : inited fl before warp_numbers c3).
(** The threads of the core. *)
Definition now_active (a : gset nat) : Prop := forall tid, tid ∈ a <-> tid ∈ b_active_threads (m_blocks c1) \/ tid ∈ tids.
Lemma started_record : exists a states d, m_blocks c3 = mkBlocks states a (Z.of_nat (size a)) (<[i := threads_per_cta k]> (m_cta_status (m_blocks c1)))
    (m_n_active_cta (m_blocks c1)) (Some k) (b_map (m_blocks c1)) (b_dynamic_cta_id (m_blocks c1)) d /\ now_active a /\
  length states = length (m_threadState (m_blocks c1)) /\ (forall tid, tid ∈ tids -> states !! tid = Some (mkThreadCtx (Z.of_nat i) true)) /\
  forall tid, tid ∉ tids -> states !! tid = m_threadState (m_blocks c1) !! tid.
Proof using Hcfg Hk Hkernel H2 H3.
  destruct (bd_blocks _ _ _ H2) as (states & Hl & Hn & Ho & Hb). destruct (in_blocks _ _ _ _ H3) as (a & d & Hb3 & Ha). cbn in Hb3, Ha. rewrite Hb in Hb3, Ha. cbn in Hb3, Ha.
  rewrite Nat2Z.id, Hkernel in Hb3. exists a, states, d. split; [done|]. split; [|done]. intros tid. rewrite Ha, elem_of_warp_numbers. split; [tauto|].
  intros [?|Ht]; [by left|right]. split; [done|by apply tid_context].
Qed.
Lemma started_threads a j : now_active a ->
  (filter (fun tid => (tid / P = j)%nat) a : gset nat) = if decide (j = i) then list_to_set tids else block_threads cfg (m_blocks c1) k j.
Proof using Hcfg Hk Hfit H Hkernel Hfree.
  intros Ha. apply set_eq. intros tid. rewrite elem_of_filter, (Ha tid). assert (tid ∈ tids -> (tid / P = i)%nat) as Hp by (intros Ht; by apply elem_of_tids, fits in Ht as [_ ?]).
  case_decide as Hj.
  - subst j. rewrite elem_of_list_to_set. split; [|intros Ht; auto]. intros [Hd [Ht|Ht]]; [|done]. by destruct (free_threads fl c1 H Hkernel Hfree tid Ht).
  - unfold block_threads. rewrite elem_of_filter. split; [intros [Hd [?|Ht]]; [done|]; specialize (Hp Ht); congruence|tauto].
Qed.
Lemma size_tids : size (list_to_set tids : gset nat) = T.
Proof using Type. clear. unfold tids. rewrite size_list_to_set by apply NoDup_seq. apply length_seq. Qed.
Lemma started_cta v : cta_of c3 v = if decide (v ∈ block_warps) then Z.of_nat i else cta_of c1 v.
Proof using Hcfg Hk H2 H3.
  unfold cta_of. case_decide as Hv.
  - destruct (in_new _ _ _ _ H3 v) as (w & -> & _ & Hc); [by apply elem_of_warp_numbers|]. done.
  - rewrite (in_old _ _ _ _ H3 v) by by rewrite elem_of_warp_numbers. cbn. destruct (bd_same _ _ _ H2) as (-> & _). done.
Qed.
Lemma blocks_started : (i < 32)%nat -> length (m_cta_status (m_blocks c1)) = 32%nat -> blocks_inv cfg (start_block (m_blocks c3)) (cta_of c3) (m_cta_to_warps s').
Proof using Hcfg Hk Hfit H Hkernel Hfree H2 Hm H3.
  intros Hi32 Hlen. destruct started_record as (a & states & d & Hb & Ha & _). rewrite Hb, Hm. pose proof (ci_blocks _ _ _ H) as HB. pose proof T_ok as HT.
  pose proof (count_change (fun s => 0 < s) (m_cta_status (m_blocks c1)) i 0 (threads_per_cta k) Hfree) as Hc. rewrite decide_False, decide_True in Hc by lia.
  assert (m_n_active_cta (m_blocks c1) < 32) as Hn32.
  { rewrite (bk_count _ _ _ _ HB). pose proof (length_filter (fun s => 0 < s) (<[i := threads_per_cta k]> (m_cta_status (m_blocks c1)))) as Hf. rewrite length_insert in Hf. lia. }
  split; cbn.
  - done.
  - intros k0 [= <-]. done.
  - intros k0 tid [= <-] [Ht|Ht]%Ha.
    + rewrite started_cta, decide_False; [by apply (bk_place _ _ _ _ HB)|]. intros Hw. destruct (free_warp fl c1 H Hkernel Hfree _ Hw) as [Hbusy _]. apply Hbusy. by exists tid.
    + rewrite started_cta, decide_True by by apply tid_context. pose proof (proj1 (elem_of_tids tid) Ht) as Hr. destruct (fits tid Hr) as [_ Hd]. unfold in_block. rewrite Hd.
      split; [done|]. split; [|done]. split; [done|]. pose proof (Nat.div_mod tid P). lia.
  - intros k0 j s [= <-] Hj. unfold block_threads at 1. cbn. rewrite (started_threads a j Ha). case_decide as E.
    + subst j. rewrite list_lookup_insert_eq in Hj by (rewrite Hlen; lia). injection Hj as <-. rewrite size_tids. lia.
    + rewrite list_lookup_insert_ne in Hj by done. by apply (bk_status _ _ _ _ HB).
  - rewrite (bk_count _ _ _ _ HB) in *. rewrite u32_small by lia. lia.
  - done.
  - intros k0 x [= <-]. pose proof (bk_ctas _ _ _ _ HB k x Hkernel) as Hx. unfold block_threads at 1. cbn. setoid_rewrite (started_threads a _ Ha). destruct (decide (x = Z.of_nat i)) as [->|Hne].
    + rewrite lookup_insert_eq. split; [|by eexists]. intros _. exists i. split; [done|]. rewrite decide_True by done. intros E%(f_equal size). rewrite size_tids, size_empty in E. lia.
    + rewrite lookup_insert_ne by done. rewrite Hx. split; intros (j & -> & Hj); exists j; (split; [done|]); [rewrite decide_False by congruence|rewrite decide_False in Hj by congruence]; done.
  - intros k0 j ws wid [= <-] Hw. destruct (decide (j = i)) as [->|Hne].
    + rewrite lookup_insert_eq in Hw. injection Hw as <-. apply block_warps_place.
    + rewrite lookup_insert_ne in Hw by lia. by apply (bk_warps _ _ _ _ HB k j ws wid Hkernel).
Qed.
Lemma core_started : (i < 32)%nat -> core_inv cfg fl (set_blocks (start_block (m_blocks c3)) c3) /\ held c1 c3.
Proof using Hcfg Hk Hfit H Hkernel Hfree H2 Hs Hm H3.
  intros Hi32. destruct (ci_lengths _ _ _ H) as (L1 & L2 & L3 & L4 & L5 & L6). pose proof (blocks_started Hi32 L6) as HB. destruct started_record as (a & states & d & Hb & Ha & Hst & Hnew & Hold).
  destruct (bd_same _ _ _ H2) as (E1 & E2 & E3 & E4 & E5 & E6). destruct (in_same _ _ _ _ H3) as (S1 & S2 & S3 & S4 & S5 & S6 & S7). cbn in S1, S2, S3, S4, S5, S6, S7.
  assert (forall v, v ∉ block_warps -> m_warp c3 !! v = m_warp c1 !! v) as Hw.
  { intros v Hv. rewrite (in_old _ _ _ _ H3 v) by by rewrite elem_of_warp_numbers. cbn. by rewrite E1. }
  split; [|split; [done|congruence|congruence|intros v Hv; rewrite S2; by apply started_lanes]]. split; cbn [set_blocks m_warp m_thread m_blocks m_simt_stack m_scoreboard m_barriers].
  - rewrite Hb, S2, S3, S6, S7, (bd_length _ _ _ H2). cbn. rewrite length_insert. rewrite E1, E3, E4, Hst. done.
  - intros v w Hv. rewrite S2. destruct (started_lanes v) as [_ Hl]. destruct (decide (v ∈ block_warps)) as [Hin|Hn].
    + destruct (in_new _ _ _ _ H3 v) as (w' & Hw' & Hi' & _); [by apply elem_of_warp_numbers|]. assert (w = w') as -> by congruence. eapply warp_inv_act; [|exact Hi'].
      intros Hnb _. apply Hnb. apply elem_of_block_warps in Hin as (tid & Ht & <-). exists tid. rewrite Hb. cbn. split; [|done]. apply Ha. right. by apply elem_of_tids.
    + rewrite Hl by done. rewrite Hw in Hv by done. eapply warp_inv_act; [|by apply (ci_warps _ _ _ H)]. intros Hnb (tid & Ht & Hv'). apply Hnb. exists tid. rewrite Hb. cbn.
      split; [|done]. apply Ha. by left.
  - intros tid. rewrite S2, Hb. cbn. rewrite (Ha tid), started_alive. intros [Ht|[_ Ht]]; [by right|left]. by apply (ci_alive _ _ _ H).
  - intros tid. rewrite S2, Hb. cbn. intros [Ht|Ht]%Ha.
    + rewrite (bd_old _ _ _ H2); [by apply (ci_bound _ _ _ H)|]. intros Hin. apply elem_of_tids, fits in Hin as [_ Hd]. by apply (free_threads fl c1 H Hkernel Hfree tid).
    + destruct (bd_new _ _ _ H2 tid Ht) as (t & Hx & _). by exists t.
  - intros tid t. rewrite Hb. cbn. intros Ht. rewrite (Ha tid). destruct (decide (tid ∈ tids)) as [Hin|Hn].
    + rewrite (Hnew tid Hin) in Ht. injection Ht as <-. cbn. tauto.
    + rewrite (Hold tid Hn) in Ht. rewrite <-(ci_states _ _ _ H tid t Ht). tauto.
  - rewrite S1, S2. done.
  - rewrite S1. exact HB.
Qed.
End started.

(** *** A block is issued *)
Lemma issue_block_at fl c (m : local_map) (n : Z) : core_inv cfg fl c -> m_kernel (m_blocks c) = Some k -> set_max_cta shader k (b_map (m_blocks c)) = Some m ->
  kernel_max_cta_per_shader m = n -> Z.of_nat i < n -> n <= max_cta_per_core shader -> (i < 32)%nat -> free_cta n (m_blocks c) = Some i -> m_cta_status (m_blocks c) !! i = Some 0 ->
  safe (fun c' => core_inv cfg fl c' /\ held c c') (issue_block2core ptx_sim_init_thread cfg k c).
Proof using Hcfg Hk Hfit.
  intros H Hkernel Hm Hn Hin Hnmax Hi32 Hfree Hstatus. pose proof T_ok as HT. unfold issue_block2core. rewrite Hm. cbn [lift mbind result_bind]. rewrite Hn.
  set (c0 := set_blocks _ c). assert (core_inv cfg fl c0 /\ m_kernel (m_blocks c0) = Some k /\ m_cta_status (m_blocks c0) !! i = Some 0) as (H0 & Hk0 & Hs0).
  { split; [|done]. destruct H as [? ? ? ? ? ? [? ? ? ? ? ? ? ?]]. by split. }
  assert (free_cta n (m_blocks c0) = Some i) as -> by done. rewrite (padded_cta shader k (fo_config _ Hcfg) Hk). cbn [lift mbind result_bind].
  eapply safe_bind; [by apply (reinit_ok fl c0)|]. intros c1 (H1 & Hb1 & Ht1 & Hbar1 & Hheld1).
  assert (m_kernel (m_blocks c1) = Some k /\ m_cta_status (m_blocks c1) !! i = Some 0) as [Hk1 Hs1] by by rewrite Hb1.
  eapply safe_bind; [by apply (bind_ok fl c1)|]. intros c2 H2.
  apply safe_check. { destruct Hk as [Ht _ Hfits _ _]. pose proof (padded_bounds shader k (fo_config _ Hcfg) Hk) as [_ Hle]. apply andb_true_iff. rewrite Z.ltb_lt, Z.leb_le. lia. }
  change (seq _ T) with tids. rewrite context_warps. cbn [lift mbind result_bind]. destruct (barrier_started fl c1 c2 H1 Hk1 Hs1 H2) as (s' & Hs & Hbar & Hmap); [lia|].
  cbn [set_blocks m_barriers]. rewrite Hs. cbn [lift mbind result_bind].
  eapply safe_bind; [apply (init_warps_ok fl _ (before_ready fl c1 c2 H1 Hk1 Hs1 H2 s'))|].
  { cbn. rewrite (bd_length _ _ _ H2). by destruct (ci_lengths _ _ _ H1) as (_ & ? & _). }
  intros c3 H3. destruct (core_started fl c1 c2 H1 Hk1 Hs1 H2 s' c3 Hbar Hmap H3 Hi32) as [H4 Hheld]. cbn [safe]. split; [done|].
  eapply (held_trans c c1); [|by destruct Hheld]. destruct Hheld1 as [X1 X2 X3 X4]. by split.
Qed.
End start.

Lemma filter_keeps {A} (Q : A -> Prop) `{!forall x, Decision (Q x)} (l : list A) : Forall Q l -> filter Q l = l.
Proof using Type. clear Hcfg. induction 1 as [|x l Hx _ IH]; [done|]. by rewrite filter_cons, decide_True, IH. Qed.
(** There is a free context when the core has fewer blocks than it takes. *)
Lemma free_cta_ok (n : Z) (b : blocks) : length (m_cta_status b) = 32%nat -> n <= 32 -> (forall i s, m_cta_status b !! i = Some s -> 0 <= s) ->
  Z.of_nat (length (filter (fun s => 0 < s) (m_cta_status b))) < n -> exists i, free_cta n b = Some i /\ Z.of_nat i < n /\ m_cta_status b !! i = Some 0.
Proof using Type.
  clear Hcfg. intros Hl Hn Hpos Hcount. unfold free_cta. destruct (list_find _ _) as [[i x]|] eqn:E.
  - apply list_find_Some in E as (Hi & Hs & _). apply lookup_seq in Hi as [-> Hi]. exists i. split; [done|]. split; [lia|done].
  - exfalso. apply list_find_None in E. assert (forall j s, (j < Z.to_nat n)%nat -> m_cta_status b !! j = Some s -> 0 < s) as Hall.
    { intros j s Hj Hs. rewrite Forall_forall in E. specialize (E j). rewrite elem_of_seq in E. pose proof (Hpos j s Hs).
      destruct (decide (s = 0)) as [->|]; [|lia]. exfalso. apply E; [lia|done]. }
    rewrite <-(take_drop (Z.to_nat n) (m_cta_status b)) in Hcount. rewrite filter_app, length_app in Hcount.
    assert (filter (fun s => 0 < s) (take (Z.to_nat n) (m_cta_status b)) = take (Z.to_nat n) (m_cta_status b)) as Hf.
    { apply filter_keeps, Forall_lookup. intros j s [Hs Hj]%lookup_take_Some. by apply (Hall j). }
    rewrite Hf, length_take in Hcount. lia.
Qed.
Lemma cluster_issue_ok ptx_sim_init_thread rest c selected (more : bool) : books cfg rest c -> (forall k, selected = Some k -> kernel_ok shader k) ->
  safe (books cfg rest) (cluster_issue_block ptx_sim_init_thread cfg selected more c).
Proof using Hcfg.
  intros Hb Hsel. unfold cluster_issue_block. set (c0 := match m_kernel (m_blocks c), selected with None, Some k => _ | _, _ => c end).
  assert (books cfg rest c0) as H0.
  { unfold c0. destruct (m_kernel (m_blocks c)) eqn:Hk; [done|]. destruct selected as [k|]; [|done]. destruct (_ =? 0); [|done]. apply kernel_books; auto. }
  clearbody c0. destruct (m_kernel (m_blocks c0)) as [k|] eqn:Hk; [|done]. pose proof H0 as (H & Hf & Hr). pose proof (ci_blocks _ _ _ H) as HB.
  pose proof (bk_kernel _ _ _ _ HB k Hk) as Hok. destruct (max_cta_ok shader k (fo_config _ Hcfg) Hok) as (n & Hn & Hn1 & HnP & _). rewrite Hn. cbn [lift mbind result_bind].
  destruct more; cbn [andb]; [|done]. destruct (Z.ltb_spec (m_n_active_cta (m_blocks c0)) n) as [Hlt|]; [|done].
  destruct (ci_lengths _ _ _ H) as (_ & _ & _ & _ & _ & L6). pose proof (fo_config _ Hcfg) as [_ _ _ _ Hmax]. unfold MAX_CTA_PER_SHADER in Hmax.
  destruct (free_cta_ok n (m_blocks c0) L6) as (i & Hfree & Hin & Hi0); [lia| |by rewrite <-(bk_count _ _ _ _ HB)|].
  { intros j s Hj. rewrite (bk_status _ _ _ _ HB k j s Hk Hj). lia. }
  assert (S i * P cfg k <= N * W)%nat as Hfit.
  { rewrite <-(fo_warps _ Hcfg). unfold P. destruct (padded_bounds shader k (fo_config _ Hcfg) Hok) as [HP _]. nia. }
  eapply safe_mono; [apply (issue_block_at k i Hok Hfit ptx_sim_init_thread (fun v => in_regs c0 v + rest v)%nat c0 (mkLocal (m_sid (b_map (m_blocks c0))) n (padded shader (threads_per_cta k))) n H Hk); try done; try lia|].
  { unfold set_max_cta. rewrite Hn, (padded_cta shader k (fo_config _ Hcfg) Hok). done. }
  intros c' [H' [K1 K2 K3 K4]]. split; [|split].
  - eapply core_inv_ext; [|exact H']. intros v. cbn. unfold in_regs. by rewrite K3.
  - intros pc v Hv. rewrite K2 in Hv. destruct (Hf pc v Hv) as (Ha & w & Hw & He).
    assert (v ∉ block_warps k i) as Hnv by (intros Hin'; destruct (free_warp k i Hok _ c0 H Hk Hi0 v Hin') as [_ ?]; done). rewrite K4 by done. split; [done|].
    exists w. by rewrite K1.
  - by rewrite K3.
Qed.

(** ** Runs *)
(** The functional simulator; no thread exits at a barrier instruction. *)
Context (ptx_exec_inst : Machine -> nat -> instruction -> Machine * outcome) (ptx_fetch_inst : Z -> option instruction)
  (ptx_sim_init_thread : Machine -> nat -> Machine * (Z * Z)).
Definition barriers_stay : Prop := forall m tid (i : instruction), op (i_static i) = BARRIER_OP -> o_exit (ptx_exec_inst m tid i).2 = false.

(** The core with its schedulers, and the instructions that its pipelines have taken. *)
Record system := mkSystem { s_core : core; s_schedulers : list scheduler_unit; s_flights : list issued }.
Inductive move :=
| Issue (now : Z) (ldst_stall : option ruby_stall_type)
| Decode
| Fetch (icache : Z -> Z -> cache_status) (access_ready : option nat)
| IssueBlock (selected : option kernel_info_t) (more : bool)
| MoveOut (r : pipe) (slot : nat)
| WriteBack (j : nat)
| Finish (j : nat)
| ReleaseAll (j : nat)
| ReleaseOne (j : nat) (r : Z)
| Store (j : nat)
| StoreAck (wid : nat)
| GmemDone (wid : nat) (n : Z)
| AtomicDone (wid : nat) (n : Z)
| MembarDone (wid : nat).
Definition with_core (s : system) (r : result core) : result system := c ← r; Ok (mkSystem c (s_schedulers s) (s_flights s)).
Definition without (j : nat) (s : system) (r : result core) : result system := c ← r; Ok (mkSystem c (s_schedulers s) (delete j (s_flights s))).
Definition flight (j : nat) (s : system) : result issued := lift LoadStore (s_flights s !! j).
Definition front_step (e : move) (s : system) : result system :=
  let c := s_core s in
  match e with
  | Issue now ldst_stall => '(c, ss, _) ← issue_all ptx_exec_inst cfg now ldst_stall (s_schedulers s) c; Ok (mkSystem c ss (s_flights s))
  | Decode => with_core s (decode ptx_fetch_inst c)
  | Fetch icache access_ready => with_core s (fetch cfg icache access_ready c)
  | IssueBlock selected more => with_core s (cluster_issue_block ptx_sim_init_thread cfg selected more c)
  | MoveOut r slot => p ← lift LoadStore (mjoin (m_pipeline_reg c r !! slot)); Ok (mkSystem (move_out r slot c) (s_schedulers s) (p :: s_flights s))
  | WriteBack j => p ← flight j s; without j s (write_back p c)
  | Finish j => p ← flight j s; without j s (instruction_done (p_wid p) c)
  | ReleaseAll j => p ← flight j s; with_core s (release_registers p c)
  | ReleaseOne j r => p ← flight j s; with_core s (release_register (p_wid p) r c)
  | Store j => p ← flight j s; with_core s (inc_store (p_wid p) c)
  | StoreAck wid => with_core s (store_ack wid c)
  | GmemDone wid n => with_core s (decrement_gmem_count wid n c)
  | AtomicDone wid n => with_core s (decrement_atomic_count wid n c)
  | MembarDone wid => with_core s (warp_clear_mem_barrier cfg wid c)
  end.
Definition flying (l : list issued) wid : nat := length (filter (fun p => p_wid p = wid) l).
(** What is asked of the rest of the system: kernels fit, and the memory answers only what was asked;
    the counters of instructions in the pipeline do not wrap around. *)
Definition front_allowed (e : move) (s : system) : Prop :=
  let counter wid Q := exists w, m_warp (s_core s) !! wid = Some w /\ Q w in
  match e with
  | Decode => forall wid, Z.of_nat (in_regs (s_core s) wid + flying (s_flights s) wid) < 2 ^ 31
  | Fetch _ access_ready => forall wid, access_ready = Some wid -> (wid < N)%nat
  | IssueBlock selected _ => forall k, selected = Some k -> kernel_ok shader k
  | StoreAck wid => counter wid (fun w => 0 < m_stores_outstanding w)
  | GmemDone wid n => counter wid (fun w => n <= m_n_gmem w)
  | AtomicDone wid n => counter wid (fun w => n <= m_n_atomic w)
  | MembarDone wid => counter wid (fun w => m_membar w = true)
  | _ => True
  end.
Inductive front_run (s0 : system) : list move -> system -> Prop :=
| run_start : front_run s0 [] s0
| run_move t s e s' : front_run s0 t s -> front_allowed e s -> front_step e s = Ok s' -> front_run s0 (e :: t) s'.

(** A list of moves, one after the other. *)
Definition is_ok {A} (r : result A) : bool := match r with Ok _ => true | Failed _ => false end.
Definition after (e : move) (s : system) : system := match front_step e s with Ok s' => s' | Failed _ => s end.
Fixpoint states (s : system) (l : list move) : system := match l with [] => s | e :: l => states (after e s) l end.
Fixpoint goes (s : system) (l : list move) : Prop :=
  match l with [] => True | e :: l => front_allowed e s /\ is_ok (front_step e s) = true /\ goes (after e s) l end.
Lemma goes_run (l : list move) : forall s0 t s, front_run s0 t s -> goes s l -> front_run s0 (rev l ++ t) (states s l).
Proof using Type.
  clear Hcfg. induction l as [|e l IH]; intros s0 t s Hr Hg; [done|]. destruct Hg as (Ha & Hok & Hg). cbn [rev states]. rewrite <-app_assoc. apply IH; [|done].
  eapply run_move; [exact Hr|exact Ha|]. unfold after. by destruct (front_step e s).
Qed.

(** The books, as they can be read off a state. *)
Record books_right (s : system) : Prop := {
  br_pipeline wid w : m_warp (s_core s) !! wid = Some w ->
    m_inst_in_pipeline w = Z.of_nat (valid_slots w + in_regs (s_core s) wid + flying (s_flights s) wid);
  br_completed wid w : m_warp (s_core s) !! wid = Some w -> m_active_threads w = alive_lanes cfg (m_thread (s_core s)) wid /\
    n_completed w = Z.of_nat W - Z.of_nat (size (m_active_threads w)) /\ (functional_done w = true -> ibuffer_empty w = true);
  br_threads : m_not_completed (m_blocks (s_core s)) = Z.of_nat (size (b_active_threads (m_blocks (s_core s)))) /\
    forall tid, alive (m_thread (s_core s)) tid = true -> tid ∈ b_active_threads (m_blocks (s_core s));
  br_blocks k i (n : Z) : m_kernel (m_blocks (s_core s)) = Some k -> m_cta_status (m_blocks (s_core s)) !! i = Some n ->
    n = Z.of_nat (size (block_threads cfg (m_blocks (s_core s)) k i));
  br_count : m_n_active_cta (m_blocks (s_core s)) = Z.of_nat (length (filter (fun s => 0 < s) (m_cta_status (m_blocks (s_core s)))));
  br_kernel : m_kernel (m_blocks (s_core s)) = None -> b_active_threads (m_blocks (s_core s)) = ∅;
  br_barriers wid : wid ∈ m_warp_active (m_barriers (s_core s)) <-> alive_lanes cfg (m_thread (s_core s)) wid <> ∅ }.

Definition system_inv (s : system) : Prop :=
  books cfg (flying (s_flights s)) (s_core s) /\ Forall (supervises cfg) (s_schedulers s) /\ Forall (fun p => (p_wid p < N)%nat) (s_flights s).
Lemma flying_cons p (l : list issued) : forall wid, one_more (p_wid p) (flying l) wid = flying (p :: l) wid.
Proof using Type. clear Hcfg. intros wid. unfold flying, one_more. rewrite filter_cons. destruct (Nat.eqb_spec (p_wid p) wid); [rewrite decide_True by done|rewrite decide_False by done]; cbn; lia. Qed.
Lemma flying_delete p j (l : list issued) : l !! j = Some p -> (0 < flying l (p_wid p))%nat /\ forall wid, one_less (p_wid p) (flying l) wid = flying (delete j l) wid.
Proof using Type.
  clear Hcfg. intros Hj. assert (forall wid, flying l wid = (flying (delete j l) wid + if Nat.eqb (p_wid p) wid then 1 else 0)%nat) as Hd.
  { intros wid. rewrite <-(take_drop_middle l j p Hj) at 1. rewrite delete_take_drop. unfold flying. rewrite !filter_app, filter_cons, !length_app.
    destruct (Nat.eqb_spec (p_wid p) wid); [rewrite decide_True by done|rewrite decide_False by done]; cbn; lia. }
  split; [rewrite Hd, Nat.eqb_refl; lia|]. intros wid. unfold one_less. rewrite (Hd wid). lia.
Qed.
Lemma books_ext rest rest' c : (forall v, rest v = rest' v) -> books cfg rest c -> books cfg rest' c.
Proof using Type. clear Hcfg. intros E (H & Hf & Hr). split; [|by split]. eapply core_inv_ext; [|exact H]. intros v. cbn. by rewrite E. Qed.
Lemma with_core_ok s r : system_inv s -> safe (books cfg (flying (s_flights s))) r -> safe system_inv (with_core s r).
Proof using Type. clear Hcfg. intros (_ & Hs & Hf) Hr. eapply safe_bind; [exact Hr|]. intros c Hc. by split. Qed.
Lemma without_ok s p j r : system_inv s -> s_flights s !! j = Some p -> safe (books cfg (one_less (p_wid p) (flying (s_flights s)))) r -> safe system_inv (without j s r).
Proof using Type.
  clear Hcfg. intros (_ & Hs & Hf) Hj Hr. eapply safe_bind; [exact Hr|]. intros c Hc. destruct (flying_delete p j _ Hj) as [_ Hd]. split; [by eapply books_ext|]. split; [done|].
  cbn. by apply Forall_delete.
Qed.
(** A flight is of a warp of the core. *)
Lemma flight_ok j s (f : issued -> result system) : system_inv s ->
  (forall p, s_flights s !! j = Some p -> (p_wid p < N)%nat -> (0 < flying (s_flights s) (p_wid p))%nat -> safe system_inv (f p)) -> safe system_inv (p ← flight j s; f p).
Proof using Type.
  clear Hcfg. intros (_ & _ & Hf) Hp. unfold flight. apply safe_other; [done|]. intros p Hj. apply Hp; [done|by eapply Forall_lookup_1 in Hf|by apply (flying_delete p j)].
Qed.
Lemma front_step_ok s e : barriers_stay -> system_inv s -> front_allowed e s -> safe system_inv (front_step e s).
Proof using Hcfg.
  intros Hbar H Ha. pose proof H as (Hb & Hs & Hf). destruct e; cbn [front_step front_allowed] in *.
  - eapply safe_bind; [by apply (issue_all_ok cfg Hcfg)|]. intros [[c ss] b] [Hc Hss]. by split.
  - apply with_core_ok; [done|]. by apply (decode_ok cfg Hcfg).
  - apply with_core_ok; [done|]. by apply (fetch_ok cfg Hcfg).
  - apply with_core_ok; [done|]. by apply cluster_issue_ok.
  - apply safe_other; [done|]. intros p Hp. destruct (m_pipeline_reg (s_core s) r !! slot) as [[q|]|] eqn:Hq; try done. cbn in Hp. injection Hp as ->.
    destruct (move_out_ok cfg _ r slot p _ Hb Hq) as [Hw Hbk]. split; [eapply books_ext; [apply flying_cons|exact Hbk]|]. split; [done|]. by apply Forall_cons.
  - apply flight_ok; [done|]. intros p Hj Hw Hp. apply (without_ok s p); [done|done|]. by apply (write_back_books cfg Hcfg).
  - apply flight_ok; [done|]. intros p Hj Hw Hp. apply (without_ok s p); [done|done|]. by apply (done_books cfg Hcfg).
  - apply flight_ok; [done|]. intros p Hj Hw Hp. apply with_core_ok; [done|]. by apply release_registers_books.
  - apply flight_ok; [done|]. intros p Hj Hw Hp. apply with_core_ok; [done|]. by apply release_register_books.
  - apply flight_ok; [done|]. intros p Hj Hw Hp. apply with_core_ok; [done|]. by apply (inc_store_ok cfg Hcfg).
  - destruct Ha as (w & Hw & Hpos). apply with_core_ok; [done|]. by apply (store_ack_ok cfg Hcfg _ _ _ w).
  - destruct Ha as (w & Hw & Hle). apply with_core_ok; [done|]. apply (counter_ok cfg Hcfg _ _ _ w); [done|done|]. rewrite (proj2 (Z.leb_le _ _)) by done. eexists. split; [done|].
    by eexists _, _, _, _.
  - destruct Ha as (w & Hw & Hle). apply with_core_ok; [done|]. apply (counter_ok cfg Hcfg _ _ _ w); [done|done|]. rewrite (proj2 (Z.leb_le _ _)) by done. eexists. split; [done|].
    by eexists _, _, _, _.
  - destruct Ha as (w & Hw & Hm). apply with_core_ok; [done|]. assert (wid < N)%nat as Hwid.
    { destruct Hb as (Hci & _). rewrite <-(proj1 (ci_lengths _ _ _ Hci)). by eapply lookup_lt_Some. }
    apply (counter_ok cfg Hcfg _ _ _ w); [done|done|]. rewrite (proj2 (Nat.ltb_lt _ _)), Hm by done. eexists. split; [done|]. by eexists _, _, _, _.
Qed.
Lemma new_core_books sid m c : shader_core_ctx_new cfg sid m = Ok c -> books cfg (flying []) c.
Proof using Hcfg.
  clear ptx_exec_inst ptx_fetch_inst ptx_sim_init_thread. intros Hn. unfold shader_core_ctx_new in Hn. destruct (barrier_set_new _ _) as [b|] eqn:Hbar; [|done]. cbn in Hn. injection Hn as <-.
  assert (forall tid, alive (replicate (Z.to_nat (n_thread_per_shader shader)) (None : option thread_info)) tid = false) as Hal.
  { intros tid. unfold alive. destruct (_ !! tid) as [[t|]|] eqn:E; [|done..]. apply lookup_replicate in E as [E _]. done. }
  assert (forall v, alive_lanes cfg (replicate (Z.to_nat (n_thread_per_shader shader)) (None : option thread_info)) v = ∅) as Hlanes.
  { intros v. apply set_eq. intros lane. rewrite elem_of_alive_lanes, Hal. set_solver. }
  assert (forall n wid, foldr (fun (o : option issued) n => ((if of_warp wid o then 1 else 0) + n)%nat) 0%nat (replicate n None) = 0%nat) as Hcount by (intros n wid; induction n; done).
  split; [|split; [done|]].
  - split; cbn.
    + rewrite !length_replicate, (fo_warps _ Hcfg). unfold lengths, Scoreboard_new. cbn. by rewrite !length_replicate.
    + intros wid w Hw. apply lookup_replicate in Hw as [-> _]. rewrite Hlanes. rewrite !Hcount.
      eapply warp_inv_act; [|apply (warp_new_inv W (W_ok cfg Hcfg))]. tauto.
    + intros tid. by rewrite Hal.
    + set_solver.
    + intros tid t Ht. apply lookup_replicate in Ht as [-> _]. cbn. set_solver.
    + pose proof (barriers_new _ _ _ Hbar) as Hok. unfold barrier_set_new in Hbar. destruct (negb _); [|done]. cbn in Hbar. injection Hbar as <-.
      split; [by eexists|]. split; [done|]. intros wid. rewrite Hlanes. cbn. set_solver.
    + assert (m_cta_to_warps b = ∅) as -> by (unfold barrier_set_new in Hbar; destruct (negb _); [|done]; cbn in Hbar; by injection Hbar as <-). split.
      * intros _. split; [done|]. split; [done|]. intros i s Hi. change (replicate (Z.to_nat MAX_CTA_PER_SHADER) 0 !! i = Some s) in Hi. by apply lookup_replicate in Hi as [-> _].
      * intros k E. discriminate E.
      * intros k tid E. discriminate E.
      * intros k i s E. discriminate E.
      * reflexivity.
      * reflexivity.
      * intros k x E. discriminate E.
      * intros k i ws wid E. discriminate E.
  - intros r slot p Hp. cbn in Hp. unfold register_set_new in Hp. apply lookup_replicate in Hp as [Hp _]. done.
Qed.
Lemma front_run_ok s0 t s : barriers_stay -> system_inv s0 -> front_run s0 t s -> system_inv s.
Proof using Hcfg.
  intros Hbar H0 H. induction H as [|t s e s' _ IH Ha Hs]; [done|]. pose proof (front_step_ok s e Hbar IH Ha) as Hok. by rewrite Hs in Hok.
Qed.
Lemma inv_right s : system_inv s -> books_right s.
Proof using Type.
  clear Hcfg. intros ((H & _) & _). pose proof (ci_blocks _ _ _ H) as HB. split.
  - intros wid w Hw. rewrite (wi_pipeline _ _ _ _ _ _ (ci_warps _ _ _ H wid w Hw)). f_equal. lia.
  - intros wid w Hw. pose proof (ci_warps _ _ _ H wid w Hw) as Hi. destruct (wi_active _ _ _ _ _ _ Hi) as [E _]. rewrite E. split; [done|]. split; [apply Hi|].
    intros Hd. apply (wi_idle _ _ _ _ _ _ Hi). by apply (functional_done_iff _ _ _ _ _ _ Hi).
  - split; [apply HB|apply (ci_alive _ _ _ H)].
  - intros k i n. apply (bk_status _ _ _ _ HB).
  - apply HB.
  - intros Hk. by destruct (bk_none _ _ _ _ HB Hk).
  - apply (ci_barriers _ _ _ H).
Qed.
End runs.


(** ** A block of six threads *)
(** Two warps of a core of four lanes run a barrier and exit. *)
Definition small_front : front_config :=
  mkFront (mkShader (Coalescer.mkCore 4 2 false 16 13 128 64) 16 8 16384 16384 1 true) 1 false 128 0xF0000000 1 1 1.
Definition six_threads : kernel_info_t := mkKernel 6 10 0 8.
Definition bar_sync : instruction := mkInstruction 0 8 0 (mkInst BARRIER_OP no_memory_op [0; 0; 0; 0] [0; 0; 0; 0] 0 0 0 undefined_space) false 0 1.
Definition exit_inst : instruction := mkInstruction 8 8 0 (mkInst NO_OP no_memory_op [0; 0; 0; 0] [0; 0; 0; 0] 0 0 0 undefined_space) false 0 1.
Definition two_instructions (pc : Z) : option instruction := if pc =? 0 then Some bar_sync else if pc =? 8 then Some exit_inst else None.
Definition run_thread (m : unit) (tid : nat) (i : instruction) : unit * outcome :=
  (tt, mkOutcome false false undefined_space 0 0 (bool_decide (op (i_static i) <> BARRIER_OP)) (i_pc i + isize i) 0).
Definition at_start (m : unit) (tid : nat) : unit * (Z * Z) := (tt, (0, 0)).
Definition small_core : @core unit := match shader_core_ctx_new small_front 0 tt with Ok c => c | Failed _ => mkCore [] (mkBarriers 0 0 ∅ ∅ ∅) [] (mkBlocks [] ∅ 0 [] 0 None (mkLocal 0 0 0) 0 0) [] (Scoreboard_new 0) (fun _ => []) None 0 tt end.
Definition small_system : @system unit := mkSystem small_core [mkScheduler [0%nat; 1%nat; 2%nat; 3%nat] 0] [].
Definition steps : list move :=
  [IssueBlock (Some six_threads) true; Fetch (fun _ _ => HIT) None; Decode; Issue 0 None; MoveOut SP 0; WriteBack 0;
   Fetch (fun _ _ => HIT) None; Decode; Issue 1 None; MoveOut SP 0; WriteBack 0].
Abbreviation small_after := (after small_front run_thread two_instructions at_start).
Abbreviation small_states := (states small_front run_thread two_instructions at_start small_system).
Definition shown (s : @system unit) : list (Z * Z * bool) * list nat * Z :=
  ((fun w => (n_completed w, m_inst_in_pipeline w, ibuffer_empty w)) <$> m_warp (s_core s), elements (m_warp_active (m_barriers (s_core s))), m_not_completed (m_blocks (s_core s))).
Lemma small_front_ok : front_ok small_front.
Proof. split; [split; vm_compute; intuition congruence|vm_compute; reflexivity|vm_compute; lia]. Qed.
Lemma steps_go : goes small_front run_thread two_instructions at_start small_system steps.
Proof.
  cbn [goes steps]. split; [intros k [= <-]; split; vm_compute; intuition congruence|]. split; [vm_compute; reflexivity|].
  split; [by intros wid ?|]. split; [vm_compute; reflexivity|]. split; [intros wid; vm_compute; reflexivity|]. split; [vm_compute; reflexivity|].
  repeat (split; [exact I|split; [vm_compute; reflexivity|]]). split; [by intros wid ?|]. split; [vm_compute; reflexivity|]. split; [intros wid; vm_compute; reflexivity|]. split; [vm_compute; reflexivity|].
  repeat (split; [exact I|split; [vm_compute; reflexivity|]]). exact I.
Qed.
