(* ===== verification/ScFence.v ===== *)
(** The fence of sequential consistency in the front end: a warp counts the lanes of its memory
    operations, and their answers lift the fence; and a warp it holds for ever. *)
From S2P Require Import Prelude SimtStack Scoreboard GpuCache Coalescer CoalescerSafe LocalMemory Barrier Warps FrontEnd FrontEndSafe FrontEndRuns.

(** ** The lanes that accesses answer *)
Definition lanes (l : list mem_access_t) : nat := foldr (fun a n => (size (a_mask a) + n)%nat) 0%nat l.
Lemma lanes_app l k : lanes (l ++ k) = (lanes l + lanes k)%nat.
Proof. unfold lanes. induction l as [|a l IH]; [done|]. cbn [app foldr]. rewrite IH. lia. Qed.
Lemma lanes_disjoint (l : list mem_access_t) : (forall i j a b, l !! i = Some a -> l !! j = Some b -> i <> j -> a_mask a ## a_mask b) ->
  lanes l = size (union_list (a_mask <$> l) : gset nat).
Proof.
  induction l as [|a l IH]; intros Hd; [done|]. cbn [lanes foldr fmap list_fmap union_list]. rewrite size_union.
  - f_equal. apply IH. intros i j x y Hx Hy Hne. apply (Hd (S i) (S j)); [done|done|congruence].
  - intros t Ht (X & HX & Hin)%elem_of_union_list. apply list_elem_of_fmap in HX as (b & -> & Hb). apply list_elem_of_lookup in Hb as [j Hj].
    by apply (Hd 0%nat (S j) a b eq_refl Hj ltac:(done) t).
Qed.

Section lanes.
Variables (cfg : core_config) (w : warp_inst_t).
Hypotheses (Hw : warp_ok cfg w) (Hparts : (0 < mem_warp_parts cfg)%nat /\ Nat.divide (mem_warp_parts cfg) (warp_size cfg)).
(** Each thread asks for one piece. *)
Hypothesis Hone : (access_pieces w).2 = 1.
Abbreviation subwarp := (subwarp_threads cfg (mem_warp_parts cfg)).
Lemma one_piece t a a' : requests w (t, a) -> requests w (t, a') -> a = a'.
Proof using Hone.
  clear Hw Hparts. unfold requests. rewrite Hone. intros (_ & k & Hk & Ha) (_ & k' & Hk' & Ha'). assert (k = k') as -> by lia. cbn in *. congruence.
Qed.
Lemma lanes_group is_write type ts l : coalesced w is_write type ts l -> lanes l = size (list_to_set ts ∩ w_active w : gset nat).
Proof using Hw Hone.
  clear Hparts. intros [Heach Hall Honce]. rewrite lanes_disjoint.
  - f_equal. apply set_eq. intros t. rewrite elem_of_union_list, elem_of_intersection, elem_of_list_to_set. split.
    + intros (X & (a & -> & Ha)%list_elem_of_fmap & Ht). apply (af_mask _ _ _ _ _ (Heach a Ha)) in Ht as (Hts & addr & [Hact _] & _). done.
    + intros [Hts Hact]. destruct (wk_address _ _ Hw t 0 Hact) as [addr Haddr]; [rewrite Hone; lia|].
      assert (requests w (t, addr)) as Hr by (split; [done|]; exists 0; rewrite Hone; split; [lia|done]).
      destruct (Hall _ Hr Hts) as (a & Ha & Hs). exists (a_mask a). split; [apply list_elem_of_fmap; by exists a|].
      apply (af_mask _ _ _ _ _ (Heach a Ha)). split; [done|]. exists addr. split; [done|]. by rewrite Hs.
  - intros i j a b Hi Hj Hne t Hta Htb. apply (af_mask _ _ _ _ _ (Heach a (list_elem_of_lookup_2 _ _ _ Hi))) in Hta as (_ & x & Hx & Ex).
    apply (af_mask _ _ _ _ _ (Heach b (list_elem_of_lookup_2 _ _ _ Hj))) in Htb as (_ & y & Hy & Ey). rewrite (one_piece t x y Hx Hy) in Ex. apply Hne.
    eapply (NoDup_lookup _ i j); [exact Honce|rewrite list_lookup_fmap, Hi; reflexivity|rewrite list_lookup_fmap, Hj; cbn; f_equal; congruence].
Qed.
Lemma lanes_groups (A : gset nat) n (groups : list (list mem_access_t)) :
  (forall i l, groups !! i = Some l -> lanes l = size (list_to_set (seq (i * n) n) ∩ A : gset nat)) ->
  lanes (mjoin groups) = size (list_to_set (seq 0 (length groups * n)) ∩ A : gset nat).
Proof using Type.
  clear Hw Hparts Hone. induction groups as [|l groups IH] using rev_ind; intros Hg; [change (0%nat = size ((∅ : gset nat) ∩ A)); by rewrite intersection_empty_l_L|].
  rewrite join_app, lanes_app, length_app, IH by (intros i k Hi; apply Hg; by apply lookup_app_l_Some). cbn [mjoin list_join length]. rewrite app_nil_r.
  rewrite (Hg (length groups) l) by by rewrite lookup_app_r, Nat.sub_diag. replace ((length groups + 1) * n)%nat with (length groups * n + n)%nat by lia.
  set (X := list_to_set (seq 0 (length groups * n)) ∩ A : gset nat). set (Y := list_to_set (seq (length groups * n) n) ∩ A : gset nat).
  rewrite <-(size_union X Y).
  - f_equal. apply set_eq. intros t. unfold X, Y. rewrite elem_of_union, !elem_of_intersection, !elem_of_list_to_set, !elem_of_seq. destruct (decide (t < length groups * n)%nat); intuition lia.
  - intros t. unfold X, Y. rewrite !elem_of_intersection, !elem_of_list_to_set, !elem_of_seq. intuition lia.
Qed.
(** Each active thread is answered once. *)
Lemma all_lanes is_write type (groups : list (list mem_access_t)) : length groups = mem_warp_parts cfg ->
  (forall i l, groups !! i = Some l -> coalesced w is_write type (subwarp i) l) -> lanes (mjoin groups) = size (w_active w).
Proof using Hw Hparts Hone.
  intros Hl Hg. destruct Hparts as [Hp [n Hn]]. rewrite (lanes_groups (w_active w) n).
  - f_equal. apply set_eq. intros t. rewrite elem_of_intersection, elem_of_list_to_set, elem_of_seq. split; [tauto|]. intros Ht. split; [|done].
    pose proof (wk_threads _ _ Hw t Ht). rewrite Hl. lia.
  - intros i l Hi. rewrite (lanes_group is_write type (subwarp i) l) by by apply Hg. unfold subwarp_threads. rewrite Hn, Nat.div_mul by lia. done.
Qed.
End lanes.

(** ** A global access is counted *)
Lemma for_each_total {A S} (P : list A -> S -> Prop) f (l : list A) s : P [] s ->
  (forall l1 x l2 s, l = l1 ++ x :: l2 -> P l1 s -> exists s', f x s = Ok s' /\ P (l1 ++ [x]) s') -> exists s', for_each f l s = Ok s' /\ P l s'.
Proof.
  intros Hs Hstep. enough (forall l1 l2 s, l = l1 ++ l2 -> P l1 s -> exists s', for_each f l2 s = Ok s' /\ P l s') as Hall by by apply (Hall []).
  intros l1 l2. revert l1. induction l2 as [|x l2 IH]; intros l1 s1 E H1; cbn [for_each]; [rewrite app_nil_r in E; subst; by exists s1|].
  destruct (Hstep l1 x l2 s1 E H1) as (s2 & -> & H2). apply (IH (l1 ++ [x])); [by rewrite <-app_assoc|done].
Qed.

(** What a thread that takes part in an access to global memory does: its piece is [d] bytes. *)
Record plain (d : Z) (o : outcome) : Prop := {
  pl_runs : o_skip o = false /\ o_callback o = false /\ o_exit o = false;
  pl_global : o_space o = global_space /\ o_data_size o = d;
  pl_aligned : 0 <= o_addr o /\ o_addr o + d <= 2 ^ 32 /\ o_addr o `mod` d = 0 }.

Section execute.
Context {Machine : Type} (ptx_exec_inst : Machine -> nat -> instruction -> Machine * outcome).
Variables (cfg : front_config) (i : instruction) (d : Z) (mask : gset nat) (wid : nat) (c : @core Machine) (w : shd_warp_t).
Abbreviation W := (threads_per_warp cfg).
Implicit Types (st : @core Machine * issued) (lane : nat) (ls : list nat).
(** The threads of the lanes are at the instruction. *)
Definition at_instruction : Prop :=
  forall lane, lane ∈ mask -> (lane < W)%nat /\ exists t, m_thread c !! (W * wid + lane)%nat = Some (Some t) /\ get_pc t = i_pc i /\ is_done t = false.
Hypotheses (Hsc : is_SC cfg = true) (Hop : op (i_static i) = LOAD_OP \/ op (i_static i) = STORE_OP) (Hplain : forall m tid, plain d (ptx_exec_inst m tid i).2).
Hypotheses (Hat : at_instruction) (Hw : m_warp c !! wid = Some w) (Hn : 0 <= m_n_gmem w /\ m_n_gmem w + Z.of_nat (size mask) < 2 ^ 32).

Definition counted_so_far ls : shd_warp_t := set_memory (m_n_atomic w) (m_n_gmem w + Z.of_nat (size (mask ∩ list_to_set ls : gset nat))) (m_membar w) (m_sc_fence w) w.
Record executed ls st : Prop := {
  ex_warp : m_warp st.1 !! wid = Some (counted_so_far ls);
  ex_threads lane : lane ∈ mask -> lane ∉ ls -> m_thread st.1 !! (W * wid + lane)%nat = m_thread c !! (W * wid + lane)%nat;
  ex_issued : p_wid st.2 = wid /\ p_inst st.2 = i /\ p_callbacks st.2 = ∅;
  ex_dyn : w_empty (p_dyn st.2) = false /\ w_op (p_dyn st.2) = op (i_static i) /\ w_isatomic (p_dyn st.2) = i_isatomic i /\ w_active (p_dyn st.2) = mask /\
    m_mem_accesses_created (p_dyn st.2) = false /\ m_accessq (p_dyn st.2) = [];
  ex_first lane : lane ∈ mask -> lane ∈ ls -> m_per_scalar_thread_valid (p_dyn st.2) = true /\ w_space (p_dyn st.2) = global_space /\ data_size (p_dyn st.2) = d;
  ex_length : m_per_scalar_thread_valid (p_dyn st.2) = true -> length (memreqaddr (p_dyn st.2)) = W /\ forall lane row, memreqaddr (p_dyn st.2) !! lane = Some row -> length row = 8%nat;
  ex_rows lane : lane ∈ mask -> lane ∈ ls -> exists row a, memreqaddr (p_dyn st.2) !! lane = Some row /\ row !! 0%nat = Some a /\ 0 <= a /\ a + d <= 2 ^ 32 /\ a `mod` d = 0 }.
Lemma executed_skip ls lane st : lane ∉ mask -> executed ls st -> executed (ls ++ [lane]) st.
Proof using Type.
  clear Hsc Hop Hplain Hat Hw Hn. intros Hl [H1 H2 H3 H4 H5 H6 H7]. split; try done.
  - rewrite H1. unfold counted_so_far. assert (mask ∩ list_to_set (ls ++ [lane]) = mask ∩ list_to_set ls :> gset nat) as ->; [|done].
    apply set_eq. intros t. rewrite !elem_of_intersection, !elem_of_list_to_set, elem_of_app, list_elem_of_singleton. naive_solver.
  - intros x Hx Hn. apply H2; [done|]. set_solver.
  - intros x Hx [?| ->%list_elem_of_singleton]%elem_of_app; [by apply (H5 x)|done].
  - intros x Hx [?| ->%list_elem_of_singleton]%elem_of_app; [by apply (H7 x)|done].
Qed.
Lemma make_valid_rows q : (m_per_scalar_thread_valid q = true -> length (memreqaddr q) = W /\ forall lane row, memreqaddr q !! lane = Some row -> length row = 8%nat) ->
  m_per_scalar_thread_valid (make_valid cfg q) = true /\ length (memreqaddr (make_valid cfg q)) = W /\
  forall lane row, memreqaddr (make_valid cfg q) !! lane = Some row -> length row = 8%nat.
Proof using Type.
  clear Hsc Hop Hplain Hat Hw Hn. intros H. unfold make_valid. destruct (m_per_scalar_thread_valid q) eqn:E; [rewrite E; destruct (H eq_refl); done|]. cbn. split; [done|].
  rewrite length_replicate. split; [done|]. intros lane row [-> _]%lookup_replicate. done.
Qed.
Lemma lane_counted ls lane st : (lane < W)%nat -> lane ∉ ls -> executed ls st -> exists st', execute_lane ptx_exec_inst cfg lane st = Ok st' /\ executed (ls ++ [lane]) st'.
Proof using Hsc Hop Hplain Hat Hw Hn.
  intros Hl Hnl H. destruct st as [c1 p]. pose proof H as [H1 H2 (I1 & I2 & I3) (D1 & D2 & D3 & D4 & D5 & D6) H5 H6 H7]. cbn [fst snd] in *.
  unfold execute_lane. rewrite D4. destruct (decide (lane ∈ mask)) as [Hin|Hni]; [|rewrite bool_decide_eq_false_2 by done; exists (c1, p); split; [done|by apply executed_skip]].
  rewrite bool_decide_eq_true_2 by done. cbn [negb]. rewrite I1. destruct (Hat lane Hin) as [_ (t & Ht & Hpc & Hd)].
  unfold exec_thread. rewrite H2, Ht by done. cbn [mjoin option_join lift mbind result_bind]. rewrite I2, Hpc, Z.eqb_refl, Hd. cbn [negb check mbind result_bind].
  pose proof (Hplain (m_machine c1) (W * wid + lane)%nat) as Hpl. destruct (ptx_exec_inst (m_machine c1) (W * wid + lane)%nat i) as [m o]. cbn [snd] in Hpl.
  destruct Hpl as [(R1 & R2 & R3) [G1 G2] (A1 & A2 & A3)]. rewrite R1, R2, R3, G1, G2. cbn [negb andb mbind result_bind]. set (q := with_space global_space (data_size (p_dyn p)) (p_dyn p)).
  destruct (make_valid_rows q H6) as (V1 & V2 & V3). destruct (lookup_lt_is_Some_2 (memreqaddr (make_valid cfg q)) lane) as [row Hrow]; [lia|]. pose proof (V3 lane row Hrow) as Hlen.
  unfold set_addr at 1. cbn [length]. change (Z.of_nat 1 <=? MAX_ACCESSES_PER_INSN_PER_THREAD) with true. cbn [check mbind result_bind]. rewrite Hrow. cbn [lift mbind result_bind write_addrs].
  set (rows := <[lane := <[0%nat := o_addr o]> row]> (memreqaddr (make_valid cfg q))). set (q' := with_space global_space d (with_addresses rows (make_valid cfg q))).
  unfold checkExecutionStatusAndUpdate. unfold has_callback. cbn [with_dyn p_callbacks p_wid p_dyn p_inst]. rewrite I3, (bool_decide_eq_false_2 (lane ∈ ∅)) by set_solver. rewrite andb_false_r. cbn [mbind result_bind].
  rewrite Hsc, I2. assert (is_load (i_static i) || is_store (i_static i) = true) as ->.
  { unfold is_load, is_store. destruct Hop as [-> | ->]; [by rewrite bool_decide_eq_true_2 by auto|]. apply orb_true_iff. right. apply bool_decide_eq_true. auto. }
  cbn [q' with_space w_space andb]. rewrite bool_decide_eq_true_2 by auto. unfold on_warp. cbn [set_thread m_warp]. rewrite I1, H1. cbn [lift mbind result_bind].
  change (is_local global_space) with false. cbn [andb mbind result_bind]. unfold ptx_thread_done. cbn [set_warps set_thread m_thread].
  rewrite list_lookup_insert_eq by (rewrite <-(H2 lane Hin Hnl) in Ht; by eapply lookup_lt_Some). cbn [lift mbind result_bind is_done].
  eexists. split; [done|]. assert (inc_n_gmem (counted_so_far ls) = counted_so_far (ls ++ [lane])) as Hinc.
  { unfold inc_n_gmem, counted_so_far, set_memory. cbn.
    assert (mask ∩ list_to_set (ls ++ [lane]) = {[lane]} ∪ mask ∩ list_to_set ls :> gset nat) as -> by
      (apply set_eq; intros x; rewrite elem_of_union, !elem_of_intersection, !elem_of_list_to_set, elem_of_app, list_elem_of_singleton, elem_of_singleton; naive_solver).
    assert ({[lane]} ∪ mask ∩ list_to_set ls ⊆ mask) as Hsub by set_solver. apply subseteq_size in Hsub. rewrite size_union, size_singleton in Hsub by set_solver. rewrite (size_union {[lane]} (mask ∩ list_to_set ls)), size_singleton by set_solver.
    rewrite u32_small by lia. f_equal. lia. }
  split; cbn [fst snd set_warps set_thread m_warp m_thread with_dyn p_wid p_inst p_callbacks p_dyn].
  - rewrite list_lookup_insert_eq by by eapply lookup_lt_Some. by rewrite Hinc.
  - intros x Hx Hn'. rewrite list_lookup_insert_ne by (intros E; apply Hn'; assert (x = lane) as -> by lia; set_solver). apply H2; [done|set_solver].
  - done.
  - unfold q', q, make_valid. cbn. by destruct (m_per_scalar_thread_valid _).
  - intros x _ _. split; [exact V1|done].
  - intros _. cbn [q' with_space with_addresses memreqaddr]. unfold rows. rewrite length_insert. split; [done|]. intros x r [[-> [<- _]]|[_ Hr]]%list_lookup_insert_Some; [by rewrite length_insert|by eapply V3].
  - intros x Hx Hxl. cbn [q' with_space with_addresses memreqaddr]. unfold rows. destruct (decide (x = lane)) as [->|Hne].
    + rewrite list_lookup_insert_eq by by eapply lookup_lt_Some. exists (<[0%nat := o_addr o]> row), (o_addr o). split; [done|]. rewrite list_lookup_insert_eq by lia. done.
    + rewrite list_lookup_insert_ne by done. apply elem_of_app in Hxl as [Hxl|Hxl%list_elem_of_singleton]; [|done].
      destruct (H7 x Hx Hxl) as (r & a & Hr & Ha). exists r, a. split; [|done]. destruct (H5 x Hx Hxl) as [Hv _]. unfold q, make_valid. cbn. by rewrite Hv.
Qed.
Lemma lanes_counted : exists st, execute_warp_inst_t ptx_exec_inst cfg (c, issue i mask wid) = Ok st /\ executed (seq 0 W) st.
Proof using Hsc Hop Hplain Hat Hw Hn.
  unfold execute_warp_inst_t. apply (for_each_total executed).
  - split; try done; try (intros lane _ Hl; by apply not_elem_of_nil in Hl). cbn [fst]. rewrite Hw. unfold counted_so_far. cbn [list_to_set].
    rewrite intersection_empty_r_L, size_empty, Z.add_0_r. by destruct w.
  - intros ls lane l2 st E H. pose proof (NoDup_seq 0 W) as Hnd. rewrite E in Hnd. apply NoDup_app in Hnd as (_ & Hd & _). apply lane_counted; [|intros Hl; apply (Hd lane Hl); by left|done].
    assert (lane ∈ seq 0 W) as Hin by (rewrite E; set_solver). apply elem_of_seq in Hin. lia.
Qed.
Hypotheses (Hatomic : i_isatomic i = false) (Hd : d = 1 \/ d = 2 \/ d = 4 \/ d = 8 \/ d = 16) (Hmask : mask <> ∅).
Abbreviation core_cfg := (c_core (f_shader cfg)).
Hypotheses (Harch : gpgpu_coalesce_arch core_cfg = 13) (Hmax : (W <= MAX_WARP_SIZE)%nat)
  (Hparts : (0 < mem_warp_parts core_cfg)%nat /\ Nat.divide (mem_warp_parts core_cfg) W).
Lemma executed_issuable st : executed (seq 0 W) st -> issuable core_cfg (p_dyn st.2) /\ access_pieces (p_dyn st.2) = (d, 1) /\ w_space (p_dyn st.2) = global_space.
Proof using Hop Hat Hd Hmask Hmax Hparts.
  clear Hsc Hplain Hw Hn Hatomic Harch. intros [_ _ _ (D1 & D2 & D3 & D4 & D5 & D6) H5 H6 H7]. assert (forall lane, lane ∈ mask -> lane ∈ seq 0 W) as Hin by (intros lane Hl; apply elem_of_seq; destruct (Hat lane Hl); lia).
  destruct (set_choose_L mask Hmask) as [l0 Hl0]. destruct (H5 l0 Hl0 (Hin l0 Hl0)) as (V & S & Z).
  assert (access_pieces (p_dyn st.2) = (d, 1)) as Hpieces by (unfold access_pieces; rewrite S, Z; done). split; [|done].
  split; [|done|done|by rewrite D2|by rewrite D4|done]. split.
  - by rewrite Z.
  - done.
  - rewrite D4. intros t Ht. by destruct (Hat t Ht).
  - rewrite D4, Hpieces. cbn [snd]. intros t k Ht Hk. destruct (H7 t Ht (Hin t Ht)) as (row & a & Hr & Ha & _). exists a. unfold address_of. rewrite Hr. cbn. replace k with 0 by lia. done.
  - rewrite D4, Hpieces. cbn [fst snd]. intros t k a Ht Hk Ha. destruct (H7 t Ht (Hin t Ht)) as (row & a' & Hr & Ha' & Hal). unfold address_of in Ha. rewrite Hr in Ha. cbn in Ha.
    replace k with 0 in Ha by lia. change (Z.to_nat 0) with 0%nat in Ha. assert (a = a') as -> by congruence. done.
Qed.
Lemma access_counted : exists c' p', func_exec_inst ptx_exec_inst cfg (c, issue i mask wid) = Ok (c', p') /\
  m_warp c' !! wid = Some (set_memory (m_n_atomic w) (m_n_gmem w + Z.of_nat (size mask)) (m_membar w) (m_sc_fence w) w) /\ lanes (m_accessq (p_dyn p')) = size mask.
Proof using All.
  unfold func_exec_inst. destruct lanes_counted as ([c' p] & -> & H). cbn [mbind result_bind]. destruct (executed_issuable _ H) as (Hi & Hpieces & Hspace). cbn [snd] in *.
  pose proof H as [H1 _ (I1 & I2 & I3) (D1 & D2 & D3 & D4 & D5 & D6) _ _ _]. cbn [fst snd] in *.
  assert (is_load (issued_inst p) || is_store (issued_inst p) = true) as ->.
  { unfold is_load, is_store, issued_inst. rewrite I2. cbn [op]. destruct Hop as [-> | ->]; [by rewrite bool_decide_eq_true_2 by auto|]. apply orb_true_iff. right. apply bool_decide_eq_true. auto. }
  rewrite generate_issued by auto. rewrite Hspace, D3, Hatomic. change (bool_decide (global_space = shared_space)) with false. cbn [negb].
  destruct (coalesce_ok core_cfg (p_dyn p) (is_warp _ _ Hi) (warp_is_store (p_dyn p)) (type_of global_space (warp_is_store (p_dyn p)))) as (groups & -> & Hlen & Hg); [apply Hparts|].
  cbn [lift mbind option_bind result_bind]. eexists _, _. split; [done|]. split.
  - rewrite H1. unfold counted_so_far. assert (mask ∩ list_to_set (seq 0 W) = mask :> gset nat) as ->; [|done]. apply set_eq. intros t. rewrite elem_of_intersection, elem_of_list_to_set, elem_of_seq. split; [tauto|]. intros Ht. destruct (Hat t Ht). split; [done|lia].
  - cbn. rewrite D6. cbn [app]. rewrite <-D4. eapply (all_lanes core_cfg (p_dyn p)); [apply Hi|exact Hparts|by rewrite Hpieces|done|exact Hg].
Qed.
End execute.

(** *** The answers *)
Definition answer {Machine} wid (a : mem_access_t) : @core Machine -> result core := decrement_gmem_count wid (Z.of_nat (size (a_mask a))).
Lemma answers_counted {Machine} wid (n : Z) (l : list mem_access_t) : 0 <= n -> forall (c : @core Machine) w, m_warp c !! wid = Some w -> m_n_gmem w = n + Z.of_nat (lanes l) ->
  m_n_gmem w < 2 ^ 32 -> exists c' w', for_each (answer wid) l c = Ok c' /\ m_warp c' !! wid = Some w' /\ m_n_gmem w' = n /\
    (n = 0 -> l <> [] \/ m_sc_fence w = false -> m_sc_fence w' = false) /\ (n <> 0 -> m_sc_fence w' = m_sc_fence w).
Proof.
  intros Hn. induction l as [|a l IH]; intros c w Hw Hg Hlt; cbn [for_each lanes foldr] in *.
  - exists c, w. split; [done|]. split; [done|]. split; [lia|]. split; [|done]. by intros _ [?|?].
  - fold (lanes l) in Hg. set (w1 := dec_n_gmem (Z.of_nat (size (a_mask a))) w). assert (answer wid a c = Ok (set_warps (<[wid:=w1]> (m_warp c)) c)) as ->.
    { unfold answer, decrement_gmem_count, on_warp. rewrite Hw. cbn [lift mbind result_bind]. rewrite (proj2 (Z.leb_le _ _)) by lia. done. }
    cbn [mbind result_bind]. assert (m_n_gmem w1 = n + Z.of_nat (lanes l)) as H1 by (cbn; rewrite u32_small by lia; lia).
    destruct (IH (set_warps (<[wid:=w1]> (m_warp c)) c) w1) as (c' & w' & -> & Hw' & Hg' & Hf & Hf'); [cbn; rewrite list_lookup_insert_eq; [done|by eapply lookup_lt_Some]|done|lia|].
    exists c', w'. split; [done|]. split; [done|]. split; [done|]. assert (m_sc_fence w1 = if m_n_gmem w1 =? 0 then false else m_sc_fence w) as Hs by done. split.
    + intros Hz _. apply Hf; [done|]. destruct l as [|b l]; [right|by left]. rewrite Hs, H1, Hz. done.
    + intros Hnz. rewrite Hf' by done. rewrite Hs, H1, (proj2 (Z.eqb_neq _ _)) by lia. done.
Qed.
Lemma lanes_perm l k : l ≡ₚ k -> lanes l = lanes k.
Proof. unfold lanes. induction 1; cbn; lia. Qed.

(** A core that keeps sequential consistency, and a load or store of global memory. *)
Record sc_core (cfg : front_config) : Prop := {
  sc_on : is_SC cfg = true;
  sc_arch : gpgpu_coalesce_arch (c_core (f_shader cfg)) = 13;
  sc_warp : (threads_per_warp cfg <= MAX_WARP_SIZE)%nat;
  sc_parts : (0 < mem_warp_parts (c_core (f_shader cfg)))%nat /\ Nat.divide (mem_warp_parts (c_core (f_shader cfg))) (threads_per_warp cfg) }.
Record global_access (i : instruction) (d : Z) : Prop := {
  ga_op : op (i_static i) = LOAD_OP \/ op (i_static i) = STORE_OP;
  ga_space : space (i_static i) = global_space;
  ga_atomic : i_isatomic i = false;
  ga_size : d = 1 \/ d = 2 \/ d = 4 \/ d = 8 \/ d = 16 }.

(** C9: The fence of sequential consistency is balanced. When a warp executes a load or store of
    global memory in all its lanes, the count of outstanding operations grows by one for
    each lane and the fence is up once it is issued; and whatever happens to the warp in between,
    the answers to the accesses that were generated, in any order, never fail the assertion of
    [decrement_gmem_count], take the count back to where it was, and lift the fence exactly
    when nothing else is outstanding. *)
Theorem sc_fence_balanced {Machine} ptx_exec_inst cfg i d mask wid (c : @core Machine) w :
  sc_core cfg -> global_access i d -> (forall m tid, plain d (ptx_exec_inst m tid i).2) -> at_instruction cfg i mask wid c -> mask <> ∅ ->
  m_warp c !! wid = Some w -> 0 <= m_n_gmem w /\ m_n_gmem w + Z.of_nat (size mask) < 2 ^ 32 ->
  exists c1 p c2 w2, func_exec_inst ptx_exec_inst cfg (c, issue i mask wid) = Ok (c1, p) /\ issue_order cfg i wid c1 = Ok c2 /\
    m_warp c2 !! wid = Some w2 /\ m_n_gmem w2 = m_n_gmem w + Z.of_nat (size mask) /\ m_sc_fence w2 = true /\
    forall answers c3 w3, answers ≡ₚ m_accessq (p_dyn p) -> m_warp c3 !! wid = Some w3 -> m_n_gmem w3 = m_n_gmem w2 ->
    exists c4 w4, for_each (answer wid) answers c3 = Ok (c4 : @core Machine) /\ m_warp c4 !! wid = Some w4 /\ m_n_gmem w4 = m_n_gmem w /\
      m_sc_fence w4 = if m_n_gmem w =? 0 then false else m_sc_fence w3.
Proof.
  intros [Hsc Harch Hmax Hparts] [Hop Hspace Hatomic Hd] Hplain Hat Hmask Hw Hn.
  destruct (access_counted ptx_exec_inst cfg i d mask wid c w Hsc Hop Hplain Hat Hw Hn Hatomic Hd Hmask Harch Hmax Hparts) as (c1 & p & -> & H1 & Hl).
  assert (0 < size mask)%nat as Hpos. { destruct (decide (size mask = 0%nat)) as [He%size_empty_inv|]; [|lia]. exfalso. apply Hmask. set_solver. }
  exists c1, p. unfold issue_order. rewrite !bool_decide_eq_false_2 by (destruct Hop as [-> | ->]; done). unfold warp. rewrite H1. cbn [lift mbind result_bind].
  rewrite Hsc, Hspace. assert (is_load (i_static i) || is_store (i_static i) = true) as ->.
  { unfold is_load, is_store. destruct Hop as [-> | ->]; [by rewrite bool_decide_eq_true_2 by auto|]. apply orb_true_iff. right. apply bool_decide_eq_true. auto. }
  rewrite bool_decide_eq_true_2 by auto. cbn [set_memory m_n_gmem andb]. rewrite (proj2 (Z.ltb_lt _ _)) by lia. unfold on_warp. rewrite H1. cbn [lift mbind result_bind].
  eexists _, _. split; [done|]. split; [done|]. split; [cbn; rewrite list_lookup_insert_eq; [reflexivity|by eapply lookup_lt_Some]|]. cbn [set_sc_fence set_memory m_n_gmem m_sc_fence].
  split; [done|]. split; [done|]. intros answers c3 w3 Hp Hw3 Hg.
  destruct (answers_counted wid (m_n_gmem w) answers (proj1 Hn) c3 w3 Hw3) as (c4 & w4 & H4 & Hw4 & Hg4 & Hf & Hf'); [by rewrite Hg, (lanes_perm _ _ Hp), Hl|lia|].
  exists c4, w4. split; [done|]. split; [done|]. split; [done|]. destruct (Z.eqb_spec (m_n_gmem w) 0) as [Hz|Hz]; [|by apply Hf'].
  apply Hf; [done|left]. intros ->. apply lanes_perm in Hp. rewrite Hl in Hp. cbn in Hp. lia.
Qed.

(** ** Four threads load, and load again *)
Definition sc_front : front_config := mkFront (f_shader small_front) 1 true 128 0xF0000000 1 1 1.
Definition four_threads : kernel_info_t := mkKernel 4 10 0 8.
Definition load_at (pc : Z) (r : Z) : instruction := mkInstruction pc 8 0 (mkInst LOAD_OP memory_load [r; 0; 0; 0] [0; 0; 0; 0] 0 0 0 global_space) false 4 1.
Definition two_loads (pc : Z) : option instruction := if pc =? 0 then Some (load_at 0 1) else if pc =? 8 then Some (load_at 8 2) else None.
(** The predicate may turn the last thread off. *)
Definition load_thread (off : bool) (m : unit) (tid : nat) (i : instruction) : unit * outcome :=
  (tt, mkOutcome (off && Nat.eqb tid 3) false global_space (64 + 4 * Z.of_nat (tid `mod` 4)) 4 false (i_pc i + isize i) 0).
Definition sc_start : @system unit := mkSystem small_core [mkScheduler [0%nat; 1%nat; 2%nat; 3%nat] 0] [].
Definition first_load : list move := [IssueBlock (Some four_threads) true; Fetch (fun _ _ => HIT) None; Decode].
Definition state_of (off : bool) : list move -> @system unit := states sc_front (load_thread off) two_loads at_start sc_start.
Lemma sc_front_ok : sc_core sc_front.
Proof. split; [done|done|vm_compute; lia|split; [vm_compute; lia|by exists 2%nat]]. Qed.
Lemma load_plain (m : unit) tid : plain 4 (load_thread false m tid (load_at 0 1)).2.
Proof.
  pose proof (Nat.mod_upper_bound tid 4 ltac:(lia)) as Ht. split; [done|done|]. cbn [load_thread snd o_addr]. change (64 + 4 * Z.of_nat (tid `mod` 4)) with (16 * 4 + 4 * Z.of_nat (tid `mod` 4)).
  split; [lia|]. split; [lia|]. replace (16 * 4 + 4 * Z.of_nat (tid `mod` 4)) with ((16 + Z.of_nat (tid `mod` 4)) * 4) by lia. by rewrite Z.mod_mul.
Qed.
Lemma lanes_ready : at_instruction sc_front (load_at 0 1) {[0%nat; 1%nat; 2%nat; 3%nat]} 0 (s_core (state_of false first_load)).
Proof.
  intros lane Hl. assert (lane = 0 \/ lane = 1 \/ lane = 2 \/ lane = 3)%nat as Hc by set_solver.
  split; [vm_compute; lia|]. exists (mkThread false 0 0). destruct Hc as [->|[->|[->| ->]]]; (split; [vm_compute; reflexivity|done]).
Qed.
(** Two accesses, of two lanes each, in either order. *)
Lemma sc_fence_balanced_witness :
  (fun w => m_n_gmem w) <$> m_warp (s_core (state_of false first_load)) !! 0%nat = Some 0 /\
  exists c1 p c2 w2, func_exec_inst (load_thread false) sc_front (s_core (state_of false first_load), issue (load_at 0 1) {[0%nat; 1%nat; 2%nat; 3%nat]} 0) = Ok (c1, p) /\
    m_warp c2 !! 0%nat = Some w2 /\ m_sc_fence w2 = true /\
    exists c4 w4, for_each (answer 0) (rev (m_accessq (p_dyn p))) c2 = Ok (c4 : @core unit) /\ m_warp c4 !! 0%nat = Some w4 /\ m_n_gmem w4 = 0 /\ m_sc_fence w4 = false.
Proof.
  split; [vm_compute; reflexivity|]. destruct (lookup_lt_is_Some_2 (m_warp (s_core (state_of false first_load))) 0) as [w Hw]; [vm_compute; lia|].
  assert (m_n_gmem w = 0) as Hg. { revert Hw. vm_compute. intros [= <-]. reflexivity. }
  destruct (sc_fence_balanced (load_thread false) sc_front (load_at 0 1) 4 {[0%nat; 1%nat; 2%nat; 3%nat]} 0 (s_core (state_of false first_load)) w) as (c1 & p & c2 & w2 & E & _ & Hw2 & Hg2 & Hf & Hans).
  - exact sc_front_ok.
  - split; [by left|done|done|auto].
  - exact load_plain.
  - exact lanes_ready.
  - intros He. apply (f_equal size) in He. vm_compute in He. discriminate He.
  - exact Hw.
  - rewrite Hg. vm_compute. intuition congruence.
  - exists c1, p, c2, w2. split; [exact E|]. split; [exact Hw2|]. split; [exact Hf|].
    destruct (Hans (rev (m_accessq (p_dyn p))) c2 w2) as (c4 & w4 & H4 & Hw4 & Hg4 & Hs4); [rewrite rev_alt; apply reverse_Permutation|exact Hw2|reflexivity|].
    exists c4, w4. split; [exact H4|]. split; [exact Hw4|]. rewrite Hg in *. split; [exact Hg4|exact Hs4].
Defined.

(** ** A thread that its predicate turns off *)
(** The moves the core makes by itself, whatever the cache and the load/store unit answer. *)
Inductive idle := WaitIssue (now : Z) (ldst_stall : option ruby_stall_type) | WaitFetch (icache : Z -> Z -> cache_status) | WaitDecode.
Definition idle_move (e : idle) : move := match e with WaitIssue now stall => Issue now stall | WaitFetch icache => Fetch icache None | WaitDecode => Decode end.
Definition load_issued : list move := first_load ++ [Issue 0 None; MoveOut MEM 0].
Definition load_answered : list move := load_issued ++ [ReleaseAll 0; Finish 0; GmemDone 0 2; GmemDone 0 1].
Definition stuck : @system unit := state_of true load_answered.
Lemma idle_stuck e : front_step sc_front (load_thread true) two_loads at_start (idle_move e) stuck = Ok stuck.
Proof. destruct e; vm_compute; reflexivity. Qed.
Lemma load_goes : goes sc_front (load_thread true) two_loads at_start sc_start load_answered.
Proof.
  cbn [goes load_answered load_issued first_load app]. split; [intros k [= <-]; split; vm_compute; intuition congruence|]. split; [vm_compute; reflexivity|].
  split; [by intros wid ?|]. split; [vm_compute; reflexivity|]. split; [intros wid; vm_compute; reflexivity|]. split; [vm_compute; reflexivity|].
  do 4 (split; [exact I|split; [vm_compute; reflexivity|]]).
  do 2 (split; [eexists; split; [vm_compute; reflexivity|vm_compute; discriminate]|split; [vm_compute; reflexivity|]]). exact I.
Qed.

(** C10: The fence holds a warp for ever when a predicate turns one of its threads off. Four
    threads load from global memory, the last one predicated off; the lanes of the two
    accesses that are generated are three, and all are answered; then nothing is outstanding in
    the core, but the warp still counts one operation and the fence is up, and
    however often the core issues, fetches and decodes, whatever its caches and load/store
    unit say, its state never changes again: the second load is never issued. *)
Theorem predicated_lane_stops_warp :
  front_run sc_front (load_thread true) two_loads at_start sc_start (rev load_answered) stuck /\
  (fun p => (fun a => size (a_mask a)) <$> m_accessq (p_dyn p)) <$> s_flights (state_of true load_issued) = [[2%nat; 1%nat]] /\
  s_flights stuck = [] /\ (forall r, m_pipeline_reg (s_core stuck) r = [None]) /\
  (fun w => (m_n_gmem w, m_stores_outstanding w, m_sc_fence w, functional_done w)) <$> m_warp (s_core stuck) !! 0%nat = Some (1, 0, true, false) /\
  forall l : list idle, foldl (fun s e => s ← s; front_step sc_front (load_thread true) two_loads at_start (idle_move e) s) (Ok stuck) l = Ok stuck.
Proof.
  split; [|split; [|split; [|split; [|split]]]].
  - pose proof (goes_run sc_front (load_thread true) two_loads at_start load_answered sc_start [] sc_start (run_start _ _ _ _ _) load_goes) as H. by rewrite app_nil_r in H.
  - vm_compute. reflexivity.
  - vm_compute. reflexivity.
  - intros [| |]; vm_compute; reflexivity.
  - vm_compute. reflexivity.
  - induction l as [|e l IH]; [done|]. cbn [foldl mbind result_bind]. by rewrite idle_stuck.
Qed.
