(* ===== verification/RubyMshr.v ===== *)
(** The miss registers between a shader core and Ruby: [ruby_mshr_table] of
    [gpgpu-sim/ruby_wrapper.h] and [ruby_wrapper.cc], which merges the loads of a block and counts
    the stores that pass it by. *)
From S2P Require Import Prelude.

(** ** Memory fetches *)
(** What the wrapper and the table read of a [mem_fetch] and its instruction; one is known by its
    identity, as the code knows it by its pointer. [f_space] is [None] where the space is neither
    global nor local, [f_pc] is [-1] without an instruction. *)
Inductive ruby_memory_space_t := ruby_global_space | ruby_local_space.
#[global] Instance ruby_memory_space_eq_dec : EqDecision ruby_memory_space_t.
Proof. solve_decision. Defined.
Record mem_fetch := mkFetch {
  f_addr : Z; f_data_size : Z; f_wid : Z; f_pc : Z; f_is_write : bool; f_isatomic : bool; f_is_membar : bool;
  f_space : option ruby_memory_space_t }.
(** An atomic modifies the line. *)
Definition modifies (mf : mem_fetch) : bool := f_is_write mf || f_isatomic mf.

(** ** The table *)
Inductive ruby_stall_reason_t :=
  | ruby_no_stall | ruby_unready | mshr_hit_full | mshr_miss_full | mshr_write_to_pending | mshr_same_warp_second_W
  | mshr_same_warp_WR | mshr_diff_warp_RWR | mshr_read_to_pending_write.

(** The options of [ruby_config] and [shader_core_config] that the interface reads. *)
Record ruby_config := mkRubyConfig {
  m_num_entries : Z; m_max_merged : Z;
  m_writes_stall_at_mshr : bool; m_atomics_stall_at_mshr : bool; m_single_write_per_warp : bool;
  m_reads_stall_at_pending_writes : bool; m_no_write_acks : bool; gmem_skip_L1D : bool }.

Record entry := mkEntry {
  m_readset : gmap Z Z; m_writeset : gmap Z Z; m_write_after_read : bool; m_has_atomic : bool; m_list : list nat }.
Definition entry_new : entry := mkEntry ∅ ∅ false false [].
Record ruby_mshr_table := mkMshr { m_data : gmap Z entry; m_current_response : list Z }.
Definition mshr_new : ruby_mshr_table := mkMshr ∅ [].

(** [m[wid] += 1], and [m[wid] -= 1] with the entry dropped at zero, which must exist. *)
Definition count_up (wid : Z) (m : gmap Z Z) : gmap Z Z := <[wid := default 0 (m !! wid) + 1]> m.
Definition count_down (wid : Z) (m : gmap Z Z) : option (gmap Z Z) :=
  n ← m !! wid;
  assert! 0 <? n;
  Some (if n - 1 =? 0 then delete wid m else <[wid := n - 1]> m).

Section table.
Variable m_config : ruby_config.
Implicit Types (block_addr : Z) (t : ruby_mshr_table).

Definition probe block_addr t : bool := bool_decide (is_Some (m_data t !! block_addr)).

Definition do_access block_addr (is_write : bool) t : option bool :=
  if m_writes_stall_at_mshr m_config then Some (negb (probe block_addr t))
  else
    assert! negb is_write;
    Some (match m_data t !! block_addr with
          | None => true
          | Some e => bool_decide (size (m_readset e) = 0%nat)
          end).

Definition full block_addr t : bool :=
  match m_data t !! block_addr with
  | Some e => m_max_merged m_config <=? Z.of_nat (length (m_list e))
  | None => m_num_entries m_config <=? Z.of_nat (size (m_data t))
  end.

(** [None] fails the assertion that a request is pending; [ruby_no_stall] allows the access. *)
Definition access_allowed block_addr (is_write : bool) (mf : mem_fetch) t : option ruby_stall_reason_t :=
  e ← m_data t !! block_addr;
  let writes_of_warp := bool_decide (is_Some (m_writeset e !! f_wid mf)) in
  let reads_of_warp := bool_decide (is_Some (m_readset e !! f_wid mf)) in
  let no_writes := bool_decide (size (m_writeset e) = 0%nat) in
  if m_single_write_per_warp m_config && writes_of_warp then Some mshr_write_to_pending
  else if m_writes_stall_at_mshr m_config then
    if (if m_atomics_stall_at_mshr m_config
        then (f_is_write mf && (no_writes || m_has_atomic e)) || f_isatomic mf
        else is_write && no_writes)
    then Some mshr_write_to_pending else Some ruby_no_stall
  else if negb is_write && writes_of_warp && m_write_after_read e then Some mshr_diff_warp_RWR
  else if m_reads_stall_at_pending_writes m_config && negb is_write && writes_of_warp && negb reads_of_warp
  then Some mshr_read_to_pending_write
  else Some ruby_no_stall.

Definition add block_addr (is_write : bool) (id : nat) (mf : mem_fetch) t : option ruby_mshr_table :=
  let e := default entry_new (m_data t !! block_addr) in
  let empty (m : gmap Z Z) := bool_decide (size m = 0%nat) in
  assert! negb (m_writes_stall_at_mshr m_config && is_write) ||
          (empty (m_readset e) && empty (m_writeset e)) || negb (empty (m_writeset e));
  let atomic := m_writes_stall_at_mshr m_config && (m_atomics_stall_at_mshr m_config && f_isatomic mf) in
  assert! negb atomic || (empty (m_readset e) && empty (m_writeset e));
  let readset := if is_write then m_readset e else count_up (f_wid mf) (m_readset e) in
  let writeset := if is_write then count_up (f_wid mf) (m_writeset e) else m_writeset e in
  let l := if negb is_write || m_writes_stall_at_mshr m_config then m_list e ++ [id] else m_list e in
  let war := if is_write && negb (empty readset) then true else m_write_after_read e in
  let data := <[block_addr := mkEntry readset writeset war (m_has_atomic e || atomic) l]> (m_data t) in
  assert! Z.of_nat (size data) <=? m_num_entries m_config;
  assert! Z.of_nat (length l) <=? m_max_merged m_config;
  Some (mkMshr data (m_current_response t)).

Definition mark_ready block_addr t : option ruby_mshr_table :=
  assert! probe block_addr t;
  let current := m_current_response t ++ [block_addr] in
  assert! Nat.leb (length current) (size (m_data t));
  Some (mkMshr (m_data t) current).

Definition access_ready t : bool := match m_current_response t with [] => false | _ => true end.

(** The popped fetch leaves the set of its kind: without stalled stores it must be a load. *)
Definition drop_from_set (mf : mem_fetch) (e : entry) : option entry :=
  if m_writes_stall_at_mshr m_config && modifies mf then
    writeset ← count_down (f_wid mf) (m_writeset e);
    Some (mkEntry (m_readset e) writeset (m_write_after_read e) (m_has_atomic e) (m_list e))
  else
    readset ← count_down (f_wid mf) (m_readset e);
    Some (mkEntry readset (m_writeset e) (m_write_after_read e) (m_has_atomic e) (m_list e)).

(** [get] reads the fetch behind a pointer. *)
Definition next_access (get : nat -> option mem_fetch) t : option (nat * ruby_mshr_table) :=
  match m_current_response t with
  | [] => None
  | block_addr :: rest =>
      e ← m_data t !! block_addr;
      match m_list e with
      | [] => None
      | id :: l =>
          mf ← get id;
          e ← drop_from_set mf (mkEntry (m_readset e) (m_writeset e) (m_write_after_read e) (m_has_atomic e) l);
          match l with
          | [] =>
              assert! bool_decide (size (m_readset e) = 0%nat);
              let data := if m_writes_stall_at_mshr m_config || bool_decide (size (m_writeset e) = 0%nat)
                          then delete block_addr (m_data t) else <[block_addr := e]> (m_data t) in
              Some (id, mkMshr data rest)
          | _ => Some (id, mkMshr (<[block_addr := e]> (m_data t)) (m_current_response t))
          end
      end
  end.

Definition mark_skipped_write_done block_addr (warp_id : Z) t : option ruby_mshr_table :=
  assert! negb (m_writes_stall_at_mshr m_config);
  e ← m_data t !! block_addr;
  writeset ← count_down warp_id (m_writeset e);
  let e := mkEntry (m_readset e) writeset (m_write_after_read e) (m_has_atomic e) (m_list e) in
  if bool_decide (length (m_list e) = 0%nat) && bool_decide (size (m_writeset e) = 0%nat) then
    assert! bool_decide (size (m_readset e) = 0%nat);
    Some (mkMshr (delete block_addr (m_data t)) (m_current_response t))
  else Some (mkMshr (<[block_addr := e]> (m_data t)) (m_current_response t)).
End table.
