(* ===== verification/Sequencer.v ===== *)
(** The sequencer of a core, through which its requests reach the L1 controller and its answers
    come back: [system/Sequencer.C], with the callback queues of [interfaces/GpusimInterface.C] that
    carry the answers to the GPU. *)
From S2P Require Import Prelude Vector Config Address DataBlock Replacement CacheMemory Tables TagArray RccMsg.

(** ** The interface to the L1 cache *)
(** What the sequencer asks of the tags of an L1 cache: whether a line is there, that it was used,
    and the access of the fast path, which returns whether it hits, and the block. *)
Class L1Tags (C : Type) := {
  l1_isTagPresent : C -> Z -> option bool;
  l1_setMRU : C -> Z -> Z -> option C;
  l1_tryCacheAccess : C -> Z -> CacheRequestType -> Z -> option (bool * list Z * C) }.
Class L1TagsLaws (C : Type) `{L1Tags C} (line : Z -> Prop) := {
  l1_ok : C -> Prop;
  l1_isTagPresent_law c a : l1_ok c -> line a -> is_Some (l1_isTagPresent c a);
  l1_setMRU_law c a now : l1_ok c -> line a -> l1_isTagPresent c a = Some true ->
    exists c', l1_setMRU c a now = Some c' /\ l1_ok c';
  l1_tryCacheAccess_law c a type now : l1_ok c -> line a ->
    exists hit data c', l1_tryCacheAccess c a type now = Some (hit, data, c') /\ l1_ok c' }.

(** ** State *)
(** [gpusim_config.defaults]: memory is consistent without a store buffer ([TSO] is deprecated and off). *)
Record SequencerConfig := mkSeqConfig {
  g_SEQUENCER_OUTSTANDING_REQUESTS : Z; SEQUENCER_TO_CONTROLLER_LATENCY : Z; g_DEADLOCK_THRESHOLD : Z;
  REMOVE_SINGLE_CYCLE_DCACHE_FAST_PATH : bool; g_GMEM_SKIP_L1D : bool; WRITES_STALL_AT_MSHR : bool; NO_WRITE_ACKS : bool }.

(** The callback queues of one core: blocks whose registers are ready, fetches that passed them by,
    warps whose fence is done. *)
Record GpusimInterface := mkInterface {
  m_callback_queue : list Z; m_skipL1_callback_queue : list (Z * Z); m_memfence_callback_queue : list Z }.

(** A request in a table, with the time it was made. *)
Record Request := mkReq { r_msg : CacheMsg; r_time : Z }.
(** [s_mandatory] are the messages put in the mandatory queue of the L1 controller, [s_wakeups] the
    delays of the wakeups asked of the event queue. *)
Record Sequencer (C : Type) := mkSeq {
  m_writeRequestTable : list (gmap Z Request); m_readRequestTable : list (gmap Z Request);
  m_skipL1RequestTable : gmap Z Request; m_outstanding_count : Z; m_deadlock_check_scheduled : bool;
  m_L1IcacheMemory : C; m_L1DcacheMemory : C;
  s_driver : GpusimInterface; s_mandatory : list CacheMsg; s_wakeups : list Z }.
#[global] Arguments mkSeq {C}.
#[global] Arguments m_writeRequestTable {C}.
#[global] Arguments m_readRequestTable {C}.
#[global] Arguments m_skipL1RequestTable {C}.
#[global] Arguments m_outstanding_count {C}.
#[global] Arguments m_deadlock_check_scheduled {C}.
#[global] Arguments m_L1IcacheMemory {C}.
#[global] Arguments m_L1DcacheMemory {C}.
#[global] Arguments s_driver {C}.
#[global] Arguments s_mandatory {C}.
#[global] Arguments s_wakeups {C}.

Definition is_write_type (type : CacheRequestType) : bool :=
  bool_decide (type = ST) || bool_decide (type = ST_XACT) || bool_decide (type = LDX_XACT) || bool_decide (type = ATOMIC).
Definition is_read_type (type : CacheRequestType) : bool :=
  bool_decide (type = LD) || bool_decide (type = LD_XACT) || bool_decide (type = IFETCH).

Section sequencer.
Context {C : Type} `{L1Tags C}.
Variables (g : Globals) (DATA_BLOCK XACT_MEMORY : bool) (cf : SequencerConfig).
Implicit Types (s : Sequencer C) (request : CacheMsg) (now thread : Z).

Definition Sequencer_new (smt_threads : nat) (icache dcache : C) : Sequencer C :=
  mkSeq (replicate smt_threads ∅) (replicate smt_threads ∅) ∅ 0 false icache dcache (mkInterface [] [] []) [] [].

Definition with_writes t s : Sequencer C :=
  mkSeq t (m_readRequestTable s) (m_skipL1RequestTable s) (m_outstanding_count s) (m_deadlock_check_scheduled s)
    (m_L1IcacheMemory s) (m_L1DcacheMemory s) (s_driver s) (s_mandatory s) (s_wakeups s).
Definition with_reads t s : Sequencer C :=
  mkSeq (m_writeRequestTable s) t (m_skipL1RequestTable s) (m_outstanding_count s) (m_deadlock_check_scheduled s)
    (m_L1IcacheMemory s) (m_L1DcacheMemory s) (s_driver s) (s_mandatory s) (s_wakeups s).
Definition with_skips t s : Sequencer C :=
  mkSeq (m_writeRequestTable s) (m_readRequestTable s) t (m_outstanding_count s) (m_deadlock_check_scheduled s)
    (m_L1IcacheMemory s) (m_L1DcacheMemory s) (s_driver s) (s_mandatory s) (s_wakeups s).
Definition with_count n s : Sequencer C :=
  mkSeq (m_writeRequestTable s) (m_readRequestTable s) (m_skipL1RequestTable s) n (m_deadlock_check_scheduled s)
    (m_L1IcacheMemory s) (m_L1DcacheMemory s) (s_driver s) (s_mandatory s) (s_wakeups s).
Definition with_check b delays s : Sequencer C :=
  mkSeq (m_writeRequestTable s) (m_readRequestTable s) (m_skipL1RequestTable s) (m_outstanding_count s) b
    (m_L1IcacheMemory s) (m_L1DcacheMemory s) (s_driver s) (s_mandatory s) (s_wakeups s ++ delays).
Definition with_caches i d s : Sequencer C :=
  mkSeq (m_writeRequestTable s) (m_readRequestTable s) (m_skipL1RequestTable s) (m_outstanding_count s)
    (m_deadlock_check_scheduled s) i d (s_driver s) (s_mandatory s) (s_wakeups s).
Definition with_driver d s : Sequencer C :=
  mkSeq (m_writeRequestTable s) (m_readRequestTable s) (m_skipL1RequestTable s) (m_outstanding_count s)
    (m_deadlock_check_scheduled s) (m_L1IcacheMemory s) (m_L1DcacheMemory s) d (s_mandatory s) (s_wakeups s).
Definition with_mandatory q s : Sequencer C :=
  mkSeq (m_writeRequestTable s) (m_readRequestTable s) (m_skipL1RequestTable s) (m_outstanding_count s)
    (m_deadlock_check_scheduled s) (m_L1IcacheMemory s) (m_L1DcacheMemory s) (s_driver s) q (s_wakeups s).

(** ** The callback queues *)
(** A request passes the registers by if global accesses skip the L1, or if it modifies and stores
    do not stall at the registers. *)
Definition skips (type : CacheRequestType) (space : MemorySpaceType) : bool :=
  (bool_decide (space = GLOBAL) && g_GMEM_SKIP_L1D cf) ||
  ((bool_decide (type = ST) || bool_decide (type = ATOMIC)) && negb (WRITES_STALL_AT_MSHR cf)).
Definition driver_hitCallback (addr : Z) (type : CacheRequestType) (space : MemorySpaceType) (memfetch : Z)
    (d : GpusimInterface) : GpusimInterface :=
  if skips type space
  then mkInterface (m_callback_queue d) (m_skipL1_callback_queue d ++ [(addr, memfetch)]) (m_memfence_callback_queue d)
  else mkInterface (m_callback_queue d ++ [addr]) (m_skipL1_callback_queue d) (m_memfence_callback_queue d).
Definition driver_memfenceCallback thread (d : GpusimInterface) : GpusimInterface :=
  mkInterface (m_callback_queue d) (m_skipL1_callback_queue d) (m_memfence_callback_queue d ++ [thread]).

(** ** The tables *)
Definition table_total (tables : list (gmap Z Request)) : Z := total (map_size <$> tables).
Definition total_outstanding s : Z :=
  table_total (m_writeRequestTable s) + table_total (m_readRequestTable s) + map_size (m_skipL1RequestTable s).
Definition checkOutstandingRequests s : bool := m_outstanding_count s =? total_outstanding s.

Definition schedule_check s : Sequencer C :=
  if m_deadlock_check_scheduled s then s else with_check true [g_DEADLOCK_THRESHOLD cf] s.

Definition insertSkipL1Request request now s : option (Sequencer C) :=
  let s := schedule_check s in
  assert! checkOutstandingRequests s;
  assert! negb (map_exist (m_skipL1RequestTable s) (c_memfetch request));
  let s := with_skips (map_add (m_skipL1RequestTable s) (c_memfetch request) (mkReq request now)) s in
  let s := with_count (m_outstanding_count s + 1) s in
  assert! checkOutstandingRequests s;
  Some s.

(** An update of the table of a kind of request of one thread. *)
Definition tables_of (write : bool) s : list (gmap Z Request) :=
  if write then m_writeRequestTable s else m_readRequestTable s.
Definition with_tables (write : bool) t s : Sequencer C := if write then with_writes t s else with_reads t s.

(** Whether the entry was there already; the request takes its place. *)
Definition insertRequest request now s : option (bool * Sequencer C) :=
  let thread := c_ThreadID request in
  let write := is_write_type (c_Type request) in
  assert! 0 <=? thread;
  assert! checkOutstandingRequests s;
  let s := schedule_check s in
  t ← cell (tables_of write s) thread;
  line ← line_address g (c_Address request);
  let found := map_exist t line in
  tables ← set_cell (tables_of write s) thread (map_add t line (mkReq request now));
  let s := with_tables write tables s in
  if found then Some (true, s)
  else
    let s := with_count (m_outstanding_count s + 1) s in
    assert! checkOutstandingRequests s;
    Some (false, s).

Definition removeSkipL1Request request s : option (Sequencer C) :=
  assert! checkOutstandingRequests s;
  t ← map_erase (m_skipL1RequestTable s) (c_memfetch request);
  let s := with_count (m_outstanding_count s - 1) (with_skips t s) in
  assert! checkOutstandingRequests s;
  Some s.

Definition removeRequest request s : option (Sequencer C) :=
  let thread := c_ThreadID request in
  let write := is_write_type (c_Type request) in
  assert! 0 <=? thread;
  assert! checkOutstandingRequests s;
  t ← cell (tables_of write s) thread;
  line ← line_address g (c_Address request);
  t ← map_erase t line;
  tables ← set_cell (tables_of write s) thread t;
  let s := with_count (m_outstanding_count s - 1) (with_tables write tables s) in
  assert! checkOutstandingRequests s;
  Some s.

(** ** Answers *)
(** The line is the most recently used one of its cache, the driver learns of the access, and the
    bytes it covers pass through a sub-block and back: the driver leaves them as they are. *)
Definition mark_used (type : CacheRequestType) (line now : Z) s : option (Sequencer C) :=
  if bool_decide (type = IFETCH) then
    present ← l1_isTagPresent (m_L1IcacheMemory s) line;
    if (present : bool) then c ← l1_setMRU (m_L1IcacheMemory s) line now; Some (with_caches c (m_L1DcacheMemory s) s)
    else Some s
  else
    present ← l1_isTagPresent (m_L1DcacheMemory s) line;
    if (present : bool) then c ← l1_setMRU (m_L1DcacheMemory s) line now; Some (with_caches (m_L1IcacheMemory s) c s)
    else Some s.
Definition hitCallback (r : Request) (data : list Z) now s : option (Sequencer C) :=
  let request := r_msg r in
  line ← line_address g (c_Address request);
  s ← mark_used (c_Type request) line now s;
  assert! r_time r <=? now;
  subblock ← SubBlock_new2 (c_Address request) (c_Address request) (c_Size request);
  subblock ← mergeFrom g DATA_BLOCK XACT_MEMORY subblock data;
  let s := with_driver (driver_hitCallback (m_address subblock) (c_Type request) (c_Space request) (c_memfetch request)
                          (s_driver s)) s in
  if is_write_type (c_Type request) then
    data ← mergeTo g DATA_BLOCK XACT_MEMORY subblock data; Some s
  else Some s.
Definition memfenceCallback thread s : Sequencer C := with_driver (driver_memfenceCallback thread (s_driver s)) s.

(** [readCallback] and [writeCallback] of a request that passed the registers by. *)
Definition skipCallback (memfetch now : Z) s : option (Sequencer C) :=
  assert! map_exist (m_skipL1RequestTable s) memfetch;
  r ← map_lookup (m_skipL1RequestTable s) memfetch;
  s ← removeSkipL1Request (r_msg r) s;
  hitCallback r (DataBlock_new g DATA_BLOCK XACT_MEMORY) now s.

(** The thread with the oldest request for the address: the first of the earliest. *)
Fixpoint oldest_thread (tables : list (gmap Z Request)) (t : Z) (address : Z) (best : Z * Z) : Z * Z :=
  match tables with
  | [] => best
  | m :: tables =>
      let best := match m !! address with
                  | Some r => if (best.1 =? -1) || (r_time r <? best.2) then (t, r_time r) else best
                  | None => best
                  end in
      oldest_thread tables (t + 1) address best
  end.

Definition tableCallback (write : bool) (address now : Z) s : option (Sequencer C) :=
  let thread := (oldest_thread (tables_of write s) 0 address (-1, 0)).1 in
  assert! negb (thread =? -1);
  line ← line_address g address;
  assert! address =? line;
  t ← cell (tables_of write s) thread;
  r ← map_lookup t address;
  assert! c_ThreadID (r_msg r) =? thread;
  s ← removeRequest (r_msg r) s;
  assert! (if write then is_write_type (c_Type (r_msg r)) else is_read_type (c_Type (r_msg r)));
  hitCallback r (DataBlock_new g DATA_BLOCK XACT_MEMORY) now s.

(** The callbacks of the L1 controller. *)
Definition seq_callback (c : Callback) (now : Z) s : option (Sequencer C) :=
  match c with
  | readCallback address => tableCallback false address now s
  | writeCallback address memfetch => skipCallback memfetch now s
  end.

(** [readCallback(address, mfset)]: the list of a core. *)
Fixpoint mfset_callback (mf_list : list Z) now s : option (Sequencer C) :=
  match mf_list with [] => Some s | memfetch :: l => s ← skipCallback memfetch now s; mfset_callback l now s end.

(** ** Requests *)
Definition isReady request s : option bool :=
  if g_SEQUENCER_OUTSTANDING_REQUESTS cf <=? m_outstanding_count s then Some false
  else if bool_decide (c_Type request = MEM_FENCE) then Some true
  else if skips (c_Type request) (c_Space request) then Some true
  else
    line ← line_address g (c_Address request);
    assert! forallb (fun t => negb (map_exist t line)) (m_writeRequestTable s ++ m_readRequestTable s);
    Some true.

Definition enqueue_mandatory request s : option (Sequencer C) :=
  line ← line_address g (c_Address request);
  assert! 0 <? SEQUENCER_TO_CONTROLLER_LATENCY cf;
  Some (with_mandatory (s_mandatory s ++ [mkCacheMsg line (c_Type request) (c_Size request) (c_Space request)
    (c_ThreadID request) (c_ReqID request) (c_CtaID request) (c_WarpID request) (c_profiled request) (c_memfetch request)]) s).

Definition issueSkipL1Request request now s : option (Sequencer C) :=
  s ← (if bool_decide (c_Type request = ST) && negb (WRITES_STALL_AT_MSHR cf) && NO_WRITE_ACKS cf then Some s
       else insertSkipL1Request request now s);
  enqueue_mandatory request s.
Definition issueRequest request now s : option (Sequencer C) :=
  '(found, s) ← insertRequest request now s;
  if (found : bool) then Some s else enqueue_mandatory request s.

Definition seq_tryCacheAccess request now s : option (bool * list Z * Sequencer C) :=
  line ← line_address g (c_Address request);
  if bool_decide (c_Type request = IFETCH) then
    '(hit, data, c) ← l1_tryCacheAccess (m_L1IcacheMemory s) line (c_Type request) now;
    Some (hit, data, with_caches c (m_L1DcacheMemory s) s)
  else
    '(hit, data, c) ← l1_tryCacheAccess (m_L1DcacheMemory s) line (c_Type request) now;
    Some (hit, data, with_caches (m_L1IcacheMemory s) c s).
Definition doRequest request now s : option (bool * Sequencer C) :=
  '(hit, data, s) ← seq_tryCacheAccess request now s;
  if (hit : bool) && (bool_decide (c_Type request = IFETCH) || negb (REMOVE_SINGLE_CYCLE_DCACHE_FAST_PATH cf)) then
    s ← hitCallback (mkReq request now) data now s; Some (true, s)
  else
    s ← issueRequest request now s; Some (hit, s).

Definition makeRequest request now s : option (Sequencer C) :=
  if skips (c_Type request) (c_Space request) then issueSkipL1Request request now s
  else '(_, s) ← doRequest request now s; Some s.
Definition makeMemfenceRequest request s : option (Sequencer C) :=
  assert! bool_decide (c_Type request = MEM_FENCE); enqueue_mandatory request s.

(** The wakeup only looks for requests that wait too long, and aborts on one. *)
Definition young now (t : gmap Z Request) : bool :=
  forallb (fun r => now - r_time r.2 <? g_DEADLOCK_THRESHOLD cf) (map_to_list t).
Definition seq_wakeup now s : option (Sequencer C) :=
  assert! forallb (young now) (m_readRequestTable s ++ m_writeRequestTable s ++ [m_skipL1RequestTable s]);
  assert! checkOutstandingRequests s;
  Some (if 0 <? m_outstanding_count s then with_check (m_deadlock_check_scheduled s) [g_DEADLOCK_THRESHOLD cf] s
        else with_check false [] s).
Definition seq_empty s : bool := m_outstanding_count s =? 0.
End sequencer.
