(* ===== verification/RubyPort.v ===== *)
(** The way of a core's memory accesses to Ruby and back: [ruby_wrapper] of
    [gpgpu-sim/ruby_wrapper.cc], the conversions of [gpusim_ruby/gpusim_ruby.C] and
    [interfaces/GpusimInterface.C], and the parts of the load/store unit of [gpgpu-sim/shader.cc] that
    send accesses and take answers; with the moves of the system they form. *)
From S2P Require Import Prelude Vector Config Address DataBlock Replacement CacheMemory Tables TagArray RccMsg RubyMshr Sequencer.

(** ** Conversions *)
Inductive ruby_memory_type_t := ruby_load_type | ruby_store_type | ruby_membar_type | ruby_atomic_type.
Inductive ruby_stall_type := NO_RUBY_STALL | RUBY_SEQUENCER_STALL | RUBY_MSHR_STALL | RUBY_MSHR_ACCESS_NOT_ALLOWED.
#[global] Instance ruby_stall_eq_dec : EqDecision ruby_stall_type.
Proof. solve_decision. Defined.

Definition get_ruby_mem_space (mf : mem_fetch) : option ruby_memory_space_t :=
  match f_space mf with
  | Some space => Some space
  | None => assert! f_is_membar mf; Some ruby_global_space
  end.
Definition get_ruby_mem_type (mf : mem_fetch) : ruby_memory_type_t :=
  if f_is_membar mf then ruby_membar_type
  else if f_isatomic mf then ruby_atomic_type
  else if f_is_write mf then ruby_store_type else ruby_load_type.
Definition getRubyMemSpace (space : ruby_memory_space_t) : MemorySpaceType :=
  match space with ruby_global_space => GLOBAL | ruby_local_space => LOCAL end.
Definition getRubyMemType (type : ruby_memory_type_t) : CacheRequestType :=
  match type with
  | ruby_load_type => LD | ruby_store_type => ST | ruby_membar_type => MEM_FENCE | ruby_atomic_type => ATOMIC
  end.

(** The part of [gpusim_ruby::initialize] that configures the sequencers. *)
Definition initialize_sequencer (m_num_seq_entries m_deadlock_threshold latency : Z) (remove_fast_path : bool)
    (config : ruby_config) : SequencerConfig :=
  mkSeqConfig m_num_seq_entries latency m_deadlock_threshold remove_fast_path (gmem_skip_L1D config)
    (m_writes_stall_at_mshr config) (m_no_write_acks config).

(** ** One core *)
(** [k_fetches] are the fetches that exist, [k_next] the next fresh identity. *)
Record core (C : Type) := mkCore {
  k_mshr : ruby_mshr_table; k_seq : Sequencer C; k_fetches : gmap nat mem_fetch; k_next : nat }.
#[global] Arguments mkCore {C}.
#[global] Arguments k_mshr {C}.
#[global] Arguments k_seq {C}.
#[global] Arguments k_fetches {C}.
#[global] Arguments k_next {C}.
(** The dynamic numbers of a request: its own, its block's and its warp's. *)
Record dynamic_ids := mkIds { d_request_id : Z; d_cta_id : Z; d_warp_id : Z }.

Section port.
Context {C : Type} `{L1Tags C}.
Variables (g : Globals) (DATA_BLOCK XACT_MEMORY : bool) (m_config : ruby_config) (cf : SequencerConfig).
Implicit Types (k : core C) (mf : mem_fetch) (ids : dynamic_ids) (now : Z).

Definition with_mshr t k : core C := mkCore t (k_seq k) (k_fetches k) (k_next k).
Definition with_seq s k : core C := mkCore (k_mshr k) s (k_fetches k) (k_next k).
Definition delete_fetch (id : nat) k : core C := mkCore (k_mshr k) (k_seq k) (delete id (k_fetches k)) (k_next k).

(** [addr & ~(line_size-1)] *)
Definition block_address (addr : Z) : Z := Z.land addr (not64 (g_DATA_BLOCK_BYTES g - 1)).

(** The [CacheMsg] of a request. *)
Definition request_msg (block_addr memfetch : Z) mf (space : ruby_memory_space_t) ids : CacheMsg :=
  mkCacheMsg block_addr (getRubyMemType (get_ruby_mem_type mf)) (f_data_size mf) (getRubyMemSpace space) (f_wid mf)
    (d_request_id ids) (d_cta_id ids) (d_warp_id ids) false memfetch.

(** [m_ruby->isReady]: the message has no fetch yet. *)
Definition ruby_isReady mf space ids k : option bool :=
  isReady g cf (request_msg (block_address (f_addr mf)) 0 mf space ids) (k_seq k).
Definition ruby_send_request (id : nat) mf space ids now k : option (core C) :=
  let request := request_msg (block_address (f_addr mf)) (Z.of_nat id) mf space ids in
  assert! negb (c_Address request =? 0);
  s ← makeRequest g DATA_BLOCK XACT_MEMORY cf request now (k_seq k);
  Some (with_seq s k).
Definition ruby_send_memfence_request mf space ids k : option (core C) :=
  let request := request_msg (block_address (f_addr mf)) 0 mf space ids in
  assert! bool_decide (c_Type request = MEM_FENCE);
  assert! c_Address request =? 0;
  s ← makeMemfenceRequest g cf request (k_seq k);
  Some (with_seq s k).

Definition is_ready mf ids k : option (bool * ruby_stall_type) :=
  let block_addr := block_address (f_addr mf) in
  space ← get_ruby_mem_space mf;
  if f_is_membar mf then
    ready ← ruby_isReady mf space ids k;
    Some (ready, if (ready : bool) then NO_RUBY_STALL else RUBY_SEQUENCER_STALL)
  else
    assert! f_data_size mf <=? g_DATA_BLOCK_BYTES g;
    if gmem_skip_L1D m_config && bool_decide (space = ruby_global_space) then
      ready ← ruby_isReady mf space ids k;
      Some (ready, if (ready : bool) then NO_RUBY_STALL else RUBY_SEQUENCER_STALL)
    else if probe block_addr (k_mshr k) then
      let isMSHRReady := negb (full m_config block_addr (k_mshr k)) in
      reason ← access_allowed m_config block_addr (modifies mf) mf (k_mshr k);
      let isAccessAllowed := match reason with ruby_no_stall => true | _ => false end in
      let ready := isMSHRReady && isAccessAllowed in
      Some (ready, if ready then NO_RUBY_STALL else if isMSHRReady then RUBY_MSHR_ACCESS_NOT_ALLOWED else RUBY_MSHR_STALL)
    else
      isRubyReady ← ruby_isReady mf space ids k;
      let ready := isRubyReady && negb (full m_config block_addr (k_mshr k)) in
      Some (ready, if ready then NO_RUBY_STALL else if (isRubyReady : bool) then RUBY_MSHR_STALL else RUBY_SEQUENCER_STALL).

(** Whether the request was sent to Ruby, and the state. *)
Definition send_request (id : nat) mf ids now k : option (bool * core C) :=
  let block_addr := block_address (f_addr mf) in
  assert! f_data_size mf <=? g_DATA_BLOCK_BYTES g;
  assert! negb (f_pc mf =? -1);
  space ← get_ruby_mem_space mf;
  if f_is_membar mf then
    k ← ruby_send_memfence_request mf space ids k; Some (true, k)
  else if gmem_skip_L1D m_config && bool_decide (space = ruby_global_space) then
    k ← ruby_send_request id mf space ids now k; Some (true, k)
  else if modifies mf && negb (m_writes_stall_at_mshr m_config) then
    k ← ruby_send_request id mf space ids now k;
    if negb (m_no_write_acks m_config) then
      t ← add m_config block_addr (modifies mf) id mf (k_mshr k); Some (true, with_mshr t k)
    else Some (true, k)
  else
    sent ← do_access m_config block_addr (modifies mf) (k_mshr k);
    k ← (if (sent : bool) then ruby_send_request id mf space ids now k else Some k);
    t ← add m_config block_addr (modifies mf) id mf (k_mshr k);
    Some (sent, with_mshr t k).

(** ** The load/store unit *)
(** [memory_cycle]: the fetch of an access, if it is taken, and whether it was sent. *)
Definition memory_access mf ids now k : option (option (nat * bool) * core C) :=
  let id := k_next k in
  '(ready, stall) ← is_ready mf ids k;
  if (ready : bool) then
    assert! bool_decide (stall = NO_RUBY_STALL);
    '(sent, k) ← send_request id mf ids now (mkCore (k_mshr k) (k_seq k) (<[id := mf]> (k_fetches k)) (S id));
    Some (Some (id, sent), k)
  else Some (None, k).
(** [membar_cycle]: the fetch is deleted either way. *)
Definition membar_cycle mf ids now k : option (bool * core C) :=
  '(ready, stall) ← is_ready mf ids k;
  if (ready : bool) then
    assert! bool_decide (stall = NO_RUBY_STALL);
    '(_, k) ← send_request (k_next k) mf ids now k; Some (true, k)
  else Some (false, k).

(** [writeback] from the registers, from the fetches that passed them by, and from fences: what each
    gives back, if anything. *)
Definition mshr_writeback k : option (option nat * core C) :=
  if access_ready (k_mshr k) then
    '(id, t) ← next_access m_config (fun id => k_fetches k !! id) (k_mshr k);
    Some (Some id, delete_fetch id (with_mshr t k))
  else Some (None, k).
Definition mshr_mark_skipped_write_done mf k : option (core C) :=
  t ← mark_skipped_write_done m_config (block_address (f_addr mf)) (f_wid mf) (k_mshr k); Some (with_mshr t k).
Definition pop_skipL1 (d : GpusimInterface) : GpusimInterface :=
  mkInterface (m_callback_queue d) (tail (m_skipL1_callback_queue d)) (m_memfence_callback_queue d).
Definition skip_writeback k : option (option nat * core C) :=
  match m_skipL1_callback_queue (s_driver (k_seq k)) with
  | [] => Some (None, k)
  | (_, memfetch) :: _ =>
      let id := Z.to_nat memfetch in
      mf ← k_fetches k !! id;
      let k := with_seq (with_driver (pop_skipL1 (s_driver (k_seq k))) (k_seq k)) k in
      assert! negb (f_is_write mf && m_no_write_acks m_config);
      k ← (if gmem_skip_L1D m_config && bool_decide (f_space mf = Some ruby_global_space) then Some k
           else if negb (m_writes_stall_at_mshr m_config) then
             assert! modifies mf;
             mshr_mark_skipped_write_done mf k
           else Some k);
      Some (Some id, delete_fetch id k)
  end.
Definition pop_memfence (d : GpusimInterface) : GpusimInterface :=
  mkInterface (m_callback_queue d) (m_skipL1_callback_queue d) (tail (m_memfence_callback_queue d)).
Definition memfence_writeback k : option Z * core C :=
  match m_memfence_callback_queue (s_driver (k_seq k)) with
  | [] => (None, k)
  | warp :: _ => (Some warp, with_seq (with_driver (pop_memfence (s_driver (k_seq k))) (k_seq k)) k)
  end.

(** The loop of [advance_time], for one core: a callback makes its block ready. *)
Definition pop_callback (d : GpusimInterface) : GpusimInterface :=
  mkInterface (tail (m_callback_queue d)) (m_skipL1_callback_queue d) (m_memfence_callback_queue d).
Definition advance_core k : option (core C) :=
  match m_callback_queue (s_driver (k_seq k)) with
  | [] => Some k
  | addr :: _ =>
      t ← mark_ready addr (k_mshr k);
      Some (mkCore t (with_driver (pop_callback (s_driver (k_seq k))) (k_seq k)) (k_fetches k) (k_next k))
  end.

(** ** The L1 controller *)
(** The controller takes a message of its mandatory queue and, some time, answers it. *)
Definition answer (m : CacheMsg) now (s : Sequencer C) : option (Sequencer C) :=
  if bool_decide (c_Type m = MEM_FENCE) then Some (memfenceCallback (c_ThreadID m) s)
  else if skips cf (c_Type m) (c_Space m) then skipCallback g DATA_BLOCK XACT_MEMORY cf (c_memfetch m) now s
  else tableCallback g DATA_BLOCK XACT_MEMORY cf (is_write_type (c_Type m)) (c_Address m) now s.
Definition l1_answer (i : nat) now k : option (core C) :=
  m ← s_mandatory (k_seq k) !! i;
  s ← answer m now (with_mandatory (delete i (s_mandatory (k_seq k))) (k_seq k));
  Some (with_seq s k).

(** ** The system *)
Record wrapper := mkWrapper { w_cores : list (core C); dynamic_request_id : Z; w_now : Z }.
Definition wrapper_new (smt_threads : nat) (caches : list (C * C)) : wrapper :=
  mkWrapper ((fun c => mkCore mshr_new (Sequencer_new smt_threads c.1 c.2) ∅ 0) <$> caches) 0 0.
Definition on_core {A} (c : nat) (f : core C -> option (A * core C)) (w : wrapper) : option (A * wrapper) :=
  k ← w_cores w !! c;
  '(x, k) ← f k;
  Some (x, mkWrapper (<[c := k]> (w_cores w)) (dynamic_request_id w) (w_now w)).
Definition unit_of (r : option (core C)) : option (unit * core C) := k ← r; Some (tt, k).
Definition next_request (w : wrapper) : wrapper := mkWrapper (w_cores w) (u32 (dynamic_request_id w + 1)) (w_now w).

Inductive move :=
  | Access (c : nat) (mf : mem_fetch) (cta warp : Z)
  | Membar (c : nat) (mf : mem_fetch) (cta warp : Z)
  | Answer (c i : nat)
  | Advance
  | Mshr_writeback (c : nat)
  | Skip_writeback (c : nat)
  | Memfence_writeback (c : nat)
  | Wakeup (c : nat).
(** An access taken, whether Ruby was asked; a fetch given back. *)
Inductive event := Taken (c id : nat) (mf : mem_fetch) (sent : bool) | Returned (c id : nat).

Definition apply (m : move) (w : wrapper) : option (list event * wrapper) :=
  let now := w_now w in
  match m with
  | Access c mf cta warp =>
      '(r, w) ← on_core c (memory_access mf (mkIds (dynamic_request_id w) cta warp) now) w;
      Some match r with Some (id, sent) => ([Taken c id mf sent], next_request w) | None => ([], w) end
  | Membar c mf cta warp =>
      '(r, w) ← on_core c (membar_cycle mf (mkIds (dynamic_request_id w) cta warp) now) w;
      Some ([], if (r : bool) then next_request w else w)
  | Answer c i => '(_, w) ← on_core c (fun k => unit_of (l1_answer i now k)) w; Some ([], w)
  | Advance =>
      cores ← mapM advance_core (w_cores w);
      Some ([], mkWrapper cores (dynamic_request_id w) (now + 1))
  | Mshr_writeback c =>
      '(r, w) ← on_core c mshr_writeback w; Some (match r with Some id => [Returned c id] | None => [] end, w)
  | Skip_writeback c =>
      '(r, w) ← on_core c skip_writeback w; Some (match r with Some id => [Returned c id] | None => [] end, w)
  | Memfence_writeback c => '(_, w) ← on_core c (fun k => Some (memfence_writeback k)) w; Some ([], w)
  | Wakeup c =>
      '(_, w) ← on_core c (fun k => unit_of (s ← seq_wakeup cf now (k_seq k); Some (with_seq s k))) w; Some ([], w)
  end.
End port.
