(* ===== verification/RubyMshrSafe.v ===== *)
(** The registers of [RubyMshr] keep their books: the invariant that links the sets, the list and the
    readiness of every entry to the fetches that are under way, and what each operation does to it. *)
From S2P Require Import Prelude Vector Config Address DataBlock Replacement CacheMemory Tables TagArray RccMsg RubyMshr Sequencer RubyPort.

(** ** Multisets of warps *)
(** The map that counts the occurrences of a list. *)
Definition tally (l : list Z) : gmap Z Z := foldr count_up ∅ l.
Definition occurs (w : Z) (l : list Z) : nat := length (filter (fun x => x = w) l).

Lemma occurs_cons w x l : occurs w (x :: l) = ((if decide (x = w) then 1 else 0) + occurs w l)%nat.
Proof.
  unfold occurs. case_decide; [rewrite filter_cons_True by done|rewrite filter_cons_False by done]; done.
Qed.
Lemma tally_lookup l w : tally l !! w = if decide (occurs w l = 0%nat) then None else Some (Z.of_nat (occurs w l)).
Proof.
  induction l as [|x l IH]; [done|]. change (tally (x :: l)) with (count_up x (tally l)). unfold count_up.
  rewrite occurs_cons. destruct (decide (x = w)) as [->|Hne].
  - rewrite lookup_insert_eq, IH. repeat case_decide; cbn; f_equal; lia.
  - by rewrite lookup_insert_ne.
Qed.
Lemma occurs_perm l l' w : l ≡ₚ l' -> occurs w l = occurs w l'.
Proof. intros Hp. unfold occurs. by rewrite Hp. Qed.
Lemma tally_perm l l' : l ≡ₚ l' -> tally l = tally l'.
Proof. intros Hp. apply map_eq. intros w. by rewrite !tally_lookup, (occurs_perm l l' w Hp). Qed.
Lemma occurs_in l w : occurs w l <> 0%nat <-> w ∈ l.
Proof.
  induction l as [|x l IH]; [split; [done|by intros ?%elem_of_nil]|].
  rewrite occurs_cons, elem_of_cons, <-IH. case_decide; naive_solver lia.
Qed.
Lemma tally_is_Some l w : is_Some (tally l !! w) <-> w ∈ l.
Proof.
  rewrite tally_lookup, <-occurs_in. case_decide as E; [|naive_solver].
  split; [by intros [? ?]|done].
Qed.
Lemma tally_empty l : size (tally l) = 0%nat <-> l = [].
Proof.
  split; [|by intros ->]. intros Hs%map_size_empty_inv. destruct l as [|x l]; [done|].
  assert (Hx : is_Some (tally (x :: l) !! x)) by (apply tally_is_Some; left). rewrite Hs in Hx. by destruct Hx.
Qed.
Lemma tally_down l l' w : l ≡ₚ w :: l' -> count_down w (tally l) = Some (tally l').
Proof.
  intros Hp. rewrite (tally_perm _ _ Hp). unfold count_down. rewrite tally_lookup, occurs_cons, (decide_True (P := w = w)) by done.
  rewrite decide_False by lia. cbn [mbind option_bind]. rewrite (proj2 (Z.ltb_lt _ _)) by lia.
  f_equal. apply map_eq. intros v. destruct (decide (v = w)) as [->|Hne].
  - destruct (Z.eqb_spec (Z.of_nat (1 + occurs w l') - 1) 0) as [E|E].
    + rewrite lookup_delete_eq, tally_lookup. by rewrite decide_True by lia.
    + rewrite lookup_insert_eq, tally_lookup. rewrite decide_False by lia. f_equal. lia.
  - assert (Hv : tally (w :: l') !! v = tally l' !! v).
    { rewrite !tally_lookup, occurs_cons, (decide_False (P := w = v)) by congruence. done. }
    destruct (_ =? 0); [rewrite lookup_delete_ne by done|rewrite lookup_insert_ne by done]; exact Hv.
Qed.
#[local] Arguments tally : simpl never.

(** ** The registers *)
Section mshr.
Variables (g : Globals) (rc : ruby_config).
Abbreviation live := (list (nat * mem_fetch)).
Implicit Types (A L : live) (e : entry) (t : ruby_mshr_table) (b : Z) (f : mem_fetch) (pend : list Z).

(** A fetch that does not use the registers at all, and one that waits in their lists. *)
Definition bypass f : bool := gmem_skip_L1D rc && bool_decide (f_space f = Some ruby_global_space).
Definition merged f : bool := m_writes_stall_at_mshr rc || negb (modifies f).
Definition block_of f : Z := block_address g (f_addr f).

Definition at_block L b : live := filter (fun p => bypass p.2 = false /\ block_of p.2 = b) L.
Definition wids A : list Z := (fun p => f_wid p.2) <$> A.
Definition reads A : live := filter (fun p => modifies p.2 = false) A.
Definition writes A : live := filter (fun p => modifies p.2 = true) A.
Definition waiting A : live := filter (fun p => merged p.2 = true) A.

(** The fetches of a block are counted by the sets of its entry, and those that wait are its list. *)
Record entry_ok A e : Prop := {
  eo_reads : m_readset e = tally (wids (reads A));
  eo_writes : m_writeset e = tally (wids (writes A));
  eo_list : m_list e ≡ₚ (waiting A).*1 }.
Definition entry_at t b : entry := from_option id entry_new (m_data t !! b).

(** [pend] are the blocks for which an answer of Ruby is to come: they and the blocks that are
    ready are those with a fetch that waits, each once. *)
Record mshr_inv L t pend : Prop := {
  mi_entry b : entry_ok (at_block L b) (entry_at t b);
  mi_some b : is_Some (m_data t !! b) <-> at_block L b <> [];
  mi_size : Z.of_nat (size (m_data t)) <= m_num_entries rc;
  mi_nodup : NoDup (pend ++ m_current_response t);
  mi_pend b : b ∈ pend ++ m_current_response t <-> waiting (at_block L b) <> [] }.

Lemma entry_ok_perm A A' e : A ≡ₚ A' -> entry_ok A e -> entry_ok A' e.
Proof.
  intros Hp [Hr Hw Hl]. split.
  - rewrite Hr. apply tally_perm. unfold wids, reads. by rewrite Hp.
  - rewrite Hw. apply tally_perm. unfold wids, writes. by rewrite Hp.
  - rewrite Hl. unfold waiting. by rewrite Hp.
Qed.
Lemma at_block_perm L L' b : L ≡ₚ L' -> at_block L b ≡ₚ at_block L' b.
Proof. intros Hp. unfold at_block. by rewrite Hp. Qed.
Lemma waiting_perm A A' : A ≡ₚ A' -> waiting A ≡ₚ waiting A'.
Proof. intros Hp. unfold waiting. by rewrite Hp. Qed.
Lemma perm_nil_iff {T} (l k : list T) : l ≡ₚ k -> l <> [] <-> k <> [].
Proof. intros Hp. destruct l, k; split; try done; [by apply Permutation_nil_cons in Hp|by symmetry in Hp; apply Permutation_nil_cons in Hp]. Qed.
Lemma mshr_inv_perm L L' t pend pend' : L ≡ₚ L' -> pend ≡ₚ pend' -> mshr_inv L t pend -> mshr_inv L' t pend'.
Proof.
  intros Hp Hq [He Hs Hz Hn Hb]. split.
  - intros b. apply (entry_ok_perm (at_block L b)); [by apply at_block_perm|apply He].
  - intros b. rewrite Hs. by apply perm_nil_iff, at_block_perm.
  - done.
  - by rewrite <-Hq.
  - intros b. rewrite <-Hq, Hb. by apply perm_nil_iff, waiting_perm, at_block_perm.
Qed.

Lemma at_block_cons_eq L id f : bypass f = false -> at_block ((id, f) :: L) (block_of f) = (id, f) :: at_block L (block_of f).
Proof. intros Hb. unfold at_block. by rewrite filter_cons_True. Qed.
Lemma at_block_cons_ne L id f b : bypass f = true \/ block_of f <> b -> at_block ((id, f) :: L) b = at_block L b.
Proof. intros Hb. unfold at_block. rewrite filter_cons_False; [done|]. cbn. intros [? ?]. destruct Hb; congruence. Qed.
Lemma waiting_cons L id f : waiting ((id, f) :: L) = if merged f then (id, f) :: waiting L else waiting L.
Proof. unfold waiting. rewrite filter_cons. cbn. by destruct (merged f). Qed.
Lemma reads_cons L id f : reads ((id, f) :: L) = if modifies f then reads L else (id, f) :: reads L.
Proof. unfold reads. rewrite filter_cons. cbn. by destruct (modifies f). Qed.
Lemma writes_cons L id f : writes ((id, f) :: L) = if modifies f then (id, f) :: writes L else writes L.
Proof. unfold writes. rewrite filter_cons. cbn. by destruct (modifies f). Qed.
Lemma waiting_none A : waiting A = [] -> reads A = [].
Proof.
  intros Hw. destruct (reads A) as [|p l] eqn:Hr; [done|].
  assert (Hp : p ∈ reads A) by (rewrite Hr; left). apply list_elem_of_filter in Hp as [Hm Hp].
  assert (Hin : p ∈ waiting A).
  { apply list_elem_of_filter. split; [|done]. unfold merged. rewrite Hm. by destruct (m_writes_stall_at_mshr rc). }
  rewrite Hw in Hin. by apply elem_of_nil in Hin.
Qed.

Lemma entry_at_Some t b e : m_data t !! b = Some e -> entry_at t b = e.
Proof. unfold entry_at. by intros ->. Qed.
Lemma mi_None L t pend b : mshr_inv L t pend -> m_data t !! b = None <-> at_block L b = [].
Proof.
  intros Hi. pose proof (mi_some _ _ _ Hi b) as Hs. destruct (m_data t !! b) as [e|].
  - split; [done|]. intros Hn. by apply Hs in Hn.
  - split; [|done]. intros _. destruct (at_block L b); [done|]. by destruct (proj2 Hs) as [? ?].
Qed.
Lemma at_block_cons_perm L id f b : at_block ((id, f) :: L) b ≡ₚ at_block L b \/ b = block_of f /\ bypass f = false.
Proof.
  destruct (bypass f) eqn:Hy; [left; by rewrite at_block_cons_ne by eauto|].
  destruct (decide (block_of f = b)) as [<-|Hne]; [by right|]. left. by rewrite at_block_cons_ne by eauto.
Qed.

(** A fetch that does not use the registers changes nothing. *)
Lemma bypass_inv L t pend id f : bypass f = true -> mshr_inv L t pend <-> mshr_inv ((id, f) :: L) t pend.
Proof.
  intros Hy. assert (Heq : forall b, at_block ((id, f) :: L) b = at_block L b) by (intros b; apply at_block_cons_ne; eauto).
  split; intros [He Hs Hz Hn Hp]; split; intros; rewrite ?Heq; try done; try rewrite <-Heq; auto.
Qed.

(** There is room for a fetch: for one more in the list of its entry, or for an entry; and where
    stores wait, a store only joins stores, and an atomic nothing. *)
Record room f t : Prop := {
  ro_size : match m_data t !! block_of f with
            | Some e => Z.of_nat (length (m_list e)) < m_max_merged rc
            | None => Z.of_nat (size (m_data t)) < m_num_entries rc
            end;
  ro_write : m_writes_stall_at_mshr rc = true -> modifies f = true ->
    m_data t !! block_of f = None \/ size (m_writeset (entry_at t (block_of f))) <> 0%nat;
  ro_atomic : m_writes_stall_at_mshr rc && (m_atomics_stall_at_mshr rc && f_isatomic f) = true ->
    m_data t !! block_of f = None }.

Definition added f (id : nat) e (atomic : bool) : entry :=
  mkEntry (if modifies f then m_readset e else count_up (f_wid f) (m_readset e))
    (if modifies f then count_up (f_wid f) (m_writeset e) else m_writeset e)
    (if modifies f && negb (bool_decide (size (if modifies f then m_readset e else count_up (f_wid f) (m_readset e)) = 0%nat))
     then true else m_write_after_read e)
    (m_has_atomic e || atomic) (if merged f then m_list e ++ [id] else m_list e).
Lemma added_ok A e id f atomic : entry_ok A e -> entry_ok ((id, f) :: A) (added f id e atomic).
Proof.
  intros [Hr Hw Hl]. split; cbn [added m_readset m_writeset m_list].
  - rewrite reads_cons, Hr. by destruct (modifies f).
  - rewrite writes_cons, Hw. by destruct (modifies f).
  - rewrite waiting_cons. destruct (merged f); [|done]. rewrite fmap_cons, Hl. solve_Permutation.
Qed.

Lemma added_inv L t pend id f atomic :
  mshr_inv L t pend -> bypass f = false ->
  let data := <[block_of f := added f id (entry_at t (block_of f)) atomic]> (m_data t) in
  Z.of_nat (size data) <= m_num_entries rc ->
  mshr_inv ((id, f) :: L) (mkMshr data (m_current_response t))
    (if merged f && bool_decide (waiting (at_block L (block_of f)) = []) then block_of f :: pend else pend).
Proof.
  intros [He Hs Hz Hn Hp] Hy data Hsize. set (b := block_of f) in *.
  assert (Hne : forall c, c <> b -> at_block ((id, f) :: L) c = at_block L c) by (intros c Hc; apply at_block_cons_ne; auto).
  assert (Heq : at_block ((id, f) :: L) b = (id, f) :: at_block L b) by by apply at_block_cons_eq.
  split; cbn [m_data m_current_response].
  - intros c. unfold entry_at. cbn [m_data]. destruct (decide (c = b)) as [->|Hc].
    + unfold data. rewrite lookup_insert_eq, Heq. apply added_ok, He.
    + unfold data. rewrite lookup_insert_ne, Hne by done. apply He.
  - intros c. unfold data. destruct (decide (c = b)) as [->|Hc].
    + rewrite lookup_insert_eq, Heq. done.
    + rewrite lookup_insert_ne, Hne by done. apply Hs.
  - done.
  - destruct (merged f); [|done]. case_bool_decide as Hw; [|done]. cbn. apply NoDup_cons. split; [|done].
    rewrite Hp. naive_solver.
  - intros c. destruct (decide (c = b)) as [->|Hc].
    + rewrite Heq, waiting_cons. destruct (merged f); cbn; [|apply Hp].
      split; [done|]. intros _. case_bool_decide as Hw; [left|]. by apply Hp.
    + rewrite Hne, <-Hp by done. destruct (_ && _); [|done]. rewrite <-app_comm_cons, elem_of_cons. naive_solver.
Qed.

Lemma add_ok L t pend id f :
  mshr_inv L t pend -> bypass f = false -> 1 <= m_max_merged rc -> room f t ->
  exists t', add rc (block_of f) (modifies f) id f t = Some t' /\
    mshr_inv ((id, f) :: L) t'
      (if merged f && bool_decide (waiting (at_block L (block_of f)) = []) then block_of f :: pend else pend).
Proof.
  intros Hi Hy Hmax [Hsz Hw Ha]. set (b := block_of f) in *. pose proof (mi_entry _ _ _ Hi b) as He.
  set (atomic := m_writes_stall_at_mshr rc && (m_atomics_stall_at_mshr rc && f_isatomic f)) in *.
  assert (Hnew : m_data t !! b = None -> entry_at t b = entry_new) by (unfold entry_at; by intros ->).
  assert (Hl : negb (modifies f) || m_writes_stall_at_mshr rc = merged f) by (unfold merged; by destruct (modifies f), (m_writes_stall_at_mshr rc)).
  unfold add. change (option.default entry_new (m_data t !! b)) with (entry_at t b). fold atomic. rewrite Hl.
  assert (Hc1 : negb (m_writes_stall_at_mshr rc && modifies f) ||
          (bool_decide (size (m_readset (entry_at t b)) = 0%nat) && bool_decide (size (m_writeset (entry_at t b)) = 0%nat)) ||
          negb (bool_decide (size (m_writeset (entry_at t b)) = 0%nat)) = true).
  { destruct (m_writes_stall_at_mshr rc); [|done]. destruct (modifies f); [|done].
    destruct (Hw eq_refl eq_refl) as [Hn|Hn]; [by rewrite (Hnew Hn)|]. rewrite (bool_decide_eq_false_2 _ Hn). by rewrite orb_true_r. }
  rewrite Hc1.
  assert (Hc2 : negb atomic || (bool_decide (size (m_readset (entry_at t b)) = 0%nat) && bool_decide (size (m_writeset (entry_at t b)) = 0%nat)) = true)
    by (destruct atomic; [by rewrite (Hnew (Ha eq_refl))|done]).
  rewrite Hc2. fold (added f id (entry_at t b) atomic).
  assert (Hsize : Z.of_nat (size (<[b:=added f id (entry_at t b) atomic]> (m_data t))) <= m_num_entries rc).
  { destruct (m_data t !! b) as [e|] eqn:Hb; [rewrite map_size_insert_Some by done; apply Hi|].
    rewrite map_size_insert_None by done. lia. }
  rewrite (proj2 (Z.leb_le _ _)) by done. rewrite (proj2 (Z.leb_le _ _)).
  - eexists. split; [done|]. by apply added_inv.
  - unfold entry_at. destruct (m_data t !! b); cbn; destruct (merged f); rewrite ?length_app; cbn; lia.
Qed.


Lemma mark_ready_ok L t pend b :
  mshr_inv L t (b :: pend) -> exists t', mark_ready b t = Some t' /\ mshr_inv L t' pend.
Proof.
  intros [He Hs Hz Hn Hp]. set (cur := m_current_response t ++ [b]).
  assert (Hperm : (b :: pend) ++ m_current_response t ≡ₚ pend ++ cur) by (unfold cur; solve_Permutation).
  assert (Hdom : forall c, c ∈ cur -> is_Some (m_data t !! c)).
  { intros c Hc. apply Hs. intros HA. assert (Hw : waiting (at_block L c) <> []).
    { apply Hp. rewrite Hperm. apply elem_of_app. by right. }
    by rewrite HA in Hw. }
  assert (Hlen : (length cur <= size (m_data t))%nat).
  { assert (Hnd : NoDup cur) by (rewrite Hperm in Hn; by apply NoDup_app in Hn as (_ & _ & ?)).
    rewrite <-(size_list_to_set (C := gset Z) cur) by done. rewrite <-size_dom.
    apply subseteq_size. intros c Hc%elem_of_list_to_set. by apply elem_of_dom, Hdom. }
  unfold mark_ready, probe. rewrite bool_decide_eq_true_2 by (apply Hdom; unfold cur; apply elem_of_app; right; by left).
  fold cur. rewrite (proj2 (Nat.leb_le _ _)) by done. eexists. split; [done|].
  split; cbn [m_data m_current_response]; try done; [by rewrite <-Hperm|]. intros c. by rewrite <-Hp, Hperm.
Qed.

(** A fetch leaves: its entry goes with the last fetch of its block. *)
Lemma mshr_removed_inv L t pend id f e data pend' cur' :
  mshr_inv ((id, f) :: L) t pend -> bypass f = false ->
  let b := block_of f in let A := at_block L b in
  entry_ok A e ->
  (A = [] /\ data = delete b (m_data t) \/ A <> [] /\ data = <[b := e]> (m_data t)) ->
  NoDup (pend' ++ cur') -> (b ∈ pend' ++ cur' <-> waiting A <> []) ->
  (forall c, c <> b -> c ∈ pend' ++ cur' <-> c ∈ pend ++ m_current_response t) ->
  mshr_inv L (mkMshr data cur') pend'.
Proof.
  intros [He Hs Hz Hn Hp] Hy b A Heo Hdata Hnd Hb Hc.
  assert (Hne : forall c, c <> b -> at_block ((id, f) :: L) c = at_block L c) by (intros c Hcb; apply at_block_cons_ne; auto).
  assert (Hsome : is_Some (m_data t !! b)) by (apply Hs; unfold b; by rewrite at_block_cons_eq).
  split; cbn [m_data m_current_response].
  - intros c. unfold entry_at. cbn [m_data]. destruct (decide (c = b)) as [->|Hcb].
    + fold A. destruct Hdata as [[-> ->]|[? ->]]; [by rewrite lookup_delete_eq|by rewrite lookup_insert_eq].
    + replace (data !! c) with (m_data t !! c); [rewrite <-Hne by done; apply He|].
      destruct Hdata as [[_ ->]|[_ ->]]; [by rewrite lookup_delete_ne|by rewrite lookup_insert_ne].
  - intros c. destruct (decide (c = b)) as [->|Hcb].
    + fold A. destruct Hdata as [[-> ->]|[? ->]]; [rewrite lookup_delete_eq; split; [by intros [? ?]|done]|].
      by rewrite lookup_insert_eq.
    + rewrite <-Hne, <-Hs by done.
      destruct Hdata as [[_ ->]|[_ ->]]; [by rewrite lookup_delete_ne|by rewrite lookup_insert_ne].
  - etrans; [|exact Hz]. apply inj_le. destruct Hdata as [[_ ->]|[_ ->]].
    + destruct Hsome as [x Hx]. rewrite map_size_delete_Some by eauto. lia.
    + rewrite map_size_insert_Some by done. lia.
  - done.
  - intros c. destruct (decide (c = b)) as [->|Hcb]; [done|]. by rewrite Hc, Hp, Hne.
Qed.

(** The last or another fetch of a list is popped: what the popped entry is. *)
Lemma drop_from_set_ok A id f e l :
  entry_ok ((id, f) :: A) e -> merged f = true -> m_list e = id :: l ->
  exists e', drop_from_set rc f (mkEntry (m_readset e) (m_writeset e) (m_write_after_read e) (m_has_atomic e) l) = Some e' /\
    entry_ok A e' /\ m_list e' = l /\ m_write_after_read e' = m_write_after_read e.
Proof.
  intros [Hr Hw Hl] Hm Hml. rewrite reads_cons in Hr. rewrite writes_cons in Hw. rewrite waiting_cons, Hm, Hml in Hl.
  apply Permutation_cons_inv in Hl. unfold drop_from_set. cbn [m_readset m_writeset m_write_after_read m_has_atomic m_list].
  destruct (m_writes_stall_at_mshr rc && modifies f) eqn:Hsm.
  - apply andb_true_iff in Hsm as [_ Hmod]. rewrite Hmod in Hr, Hw. rewrite Hw.
    rewrite (tally_down _ (wids (writes A))) by done. eexists. split; [done|]. by split.
  - assert (Hmod : modifies f = false).
    { unfold merged in Hm. destruct (m_writes_stall_at_mshr rc), (modifies f); done. }
    rewrite Hmod in Hr, Hw. rewrite Hr.
    rewrite (tally_down _ (wids (reads A))) by done. eexists. split; [done|]. by split.
Qed.

(** Without a fetch that waits, the entry goes if there is no fetch at all. *)
Lemma entry_empty A e :
  entry_ok A e -> waiting A = [] ->
  size (m_readset e) = 0%nat /\
  (m_writes_stall_at_mshr rc || bool_decide (size (m_writeset e) = 0%nat) = true /\ A = [] \/
   m_writes_stall_at_mshr rc || bool_decide (size (m_writeset e) = 0%nat) = false /\ A <> []).
Proof.
  intros [Hr Hw _] Hwait. rewrite Hr, (waiting_none A Hwait). split; [done|]. rewrite Hw.
  destruct A as [|[id f] A]; [left; split; [|done]; apply orb_true_r|]. right. split; [|done].
  rewrite waiting_cons in Hwait. unfold merged in Hwait. rewrite writes_cons.
  destruct (m_writes_stall_at_mshr rc); [done|]. destruct (modifies f); [|done]. cbn [orb].
  apply bool_decide_eq_false_2. by rewrite tally_empty.
Qed.

Lemma in_at_block L b id f : (id, f) ∈ at_block L b -> (id, f) ∈ L /\ bypass f = false /\ block_of f = b.
Proof. intros [[? ?] ?]%list_elem_of_filter. done. Qed.

Lemma next_access_ok L t pend get :
  mshr_inv L t pend -> access_ready t = true -> (forall id f, (id, f) ∈ L -> get id = Some f) ->
  exists id f L' t', L ≡ₚ (id, f) :: L' /\ merged f = true /\ bypass f = false /\
    next_access rc get t = Some (id, t') /\ mshr_inv L' t' pend.
Proof.
  intros Hi Hready Hget. unfold access_ready in Hready. unfold next_access.
  destruct (m_current_response t) as [|b rest] eqn:Hcur; [done|]. clear Hready.
  assert (Hwait : waiting (at_block L b) <> []) by (apply (mi_pend _ _ _ Hi); rewrite Hcur; apply elem_of_app; right; left).
  assert (HA : at_block L b <> []) by (by intros HA; rewrite HA in Hwait).
  destruct (proj2 (mi_some _ _ _ Hi b) HA) as [e He]. rewrite He. cbn [mbind option_bind].
  pose proof (mi_entry _ _ _ Hi b) as Heo. rewrite (entry_at_Some _ _ _ He) in Heo. pose proof (eo_list _ _ Heo) as Hl.
  destruct (m_list e) as [|id l] eqn:Hml.
  { apply Permutation_nil_l in Hl. by destruct (waiting (at_block L b)). }
  assert (Hid : id ∈ (waiting (at_block L b)).*1) by (rewrite <-Hl; left).
  apply list_elem_of_fmap in Hid as ([id' f] & [= <-] & Hin). apply list_elem_of_filter in Hin as [Hm Hin]. cbn in Hm.
  apply in_at_block in Hin as (HinL & Hy & Hb). apply elem_of_Permutation in HinL as Hperm. destruct Hperm as [L' HL].
  rewrite (Hget id f HinL). cbn [mbind option_bind].
  assert (Hi' : mshr_inv ((id, f) :: L') t pend) by by apply (mshr_inv_perm L _ t pend pend).
  pose proof (mi_entry _ _ _ Hi' b) as Heo'. rewrite (entry_at_Some _ _ _ He) in Heo'.
  rewrite <-Hb, at_block_cons_eq in Heo' by done. rewrite Hb in Heo'.
  destruct (drop_from_set_ok _ id f e l Heo' Hm Hml) as (e' & Hdrop & Heo2 & Hml' & _). rewrite Hdrop. cbn [mbind option_bind].
  exists id, f, L'.
  subst b. pose proof (mi_nodup _ _ _ Hi) as Hn. pose proof (mi_pend _ _ _ Hi) as Hp. rewrite Hcur in Hn, Hp.
  apply NoDup_app in Hn as (Hn1 & Hn2 & Hn3). apply NoDup_cons in Hn3 as [Hn3 Hn4].
  assert (Hwait' : l = [] <-> waiting (at_block L' (block_of f)) = []).
  { pose proof (eo_list _ _ Heo2) as Hl2. rewrite Hml' in Hl2. split; intros Hnil.
    - rewrite Hnil in Hl2. apply Permutation_nil_l in Hl2. by destruct (waiting (at_block L' (block_of f))).
    - rewrite Hnil in Hl2. by apply Permutation_nil_r in Hl2 as ->. }
  destruct l as [|id2 l].
  - destruct (entry_empty _ e' Heo2) as [Hrd Hcase]; [by apply Hwait'|]. rewrite Hrd, bool_decide_eq_true_2 by done.
    eexists. split_and!; [done..|]. apply (mshr_removed_inv L' t pend id f e'); [done..| | | |].
    + destruct Hcase as [[-> ?]|[-> ?]]; auto.
    + apply NoDup_app. split_and!; [done| |done]. intros c Hc1 Hc2. apply (Hn2 c Hc1). by right.
    + split; [|intros Hw; by destruct Hw; apply Hwait']. intros [Hc|Hc]%elem_of_app; [|done].
      destruct (Hn2 _ Hc). by left.
    + intros c Hc. rewrite Hcur, !elem_of_app, elem_of_cons. naive_solver.
  - eexists. split_and!; [done..|]. apply (mshr_removed_inv L' t pend id f e'); [done..| | | |].
    + right. split; [|done]. intros HA'. rewrite HA' in Hwait'. discriminate (proj2 Hwait' eq_refl).
    + apply NoDup_app. split_and!; [done..|]. by apply NoDup_cons.
    + rewrite Hp. split; [|done]. intros _ Hw. by apply Hwait' in Hw.
    + intros c Hc. by rewrite Hcur.
Qed.


Lemma mark_done_ok L t pend id f :
  mshr_inv ((id, f) :: L) t pend -> bypass f = false -> m_writes_stall_at_mshr rc = false -> modifies f = true ->
  exists t', mark_skipped_write_done rc (block_of f) (f_wid f) t = Some t' /\ mshr_inv L t' pend.
Proof.
  intros Hi Hy HS Hm. unfold mark_skipped_write_done. rewrite HS. cbn [negb].
  pose proof (mi_entry _ _ _ Hi (block_of f)) as Heo.
  destruct (proj2 (mi_some _ _ _ Hi (block_of f))) as [e He]; [by rewrite at_block_cons_eq|].
  rewrite (entry_at_Some _ _ _ He), at_block_cons_eq in Heo by done. rewrite He. cbn [mbind option_bind].
  destruct Heo as [Hr Hw Hl]. rewrite reads_cons, Hm in Hr. rewrite writes_cons, Hm in Hw.
  rewrite waiting_cons in Hl. unfold merged in Hl. rewrite HS, Hm in Hl. cbn [orb negb] in Hl.
  rewrite Hw, (tally_down _ (wids (writes (at_block L (block_of f))))) by done. cbn [mbind option_bind m_list m_writeset m_readset].
  set (A := at_block L (block_of f)) in *.
  set (e' := mkEntry (m_readset e) (tally (wids (writes A))) (m_write_after_read e) (m_has_atomic e) (m_list e)).
  assert (Heo : entry_ok A e') by by split.
  assert (Hpend : waiting (at_block ((id, f) :: L) (block_of f)) = waiting A).
  { rewrite at_block_cons_eq, waiting_cons by done. unfold merged. by rewrite HS, Hm. }
  assert (Hback : forall data, (A = [] /\ data = delete (block_of f) (m_data t) \/
      A <> [] /\ data = <[block_of f := e']> (m_data t)) -> mshr_inv L (mkMshr data (m_current_response t)) pend).
  { intros data Hd. apply (mshr_removed_inv L t pend id f e'); [done..|apply Hi| |done].
    by rewrite (mi_pend _ _ _ Hi), Hpend. }
  assert (Hwn : length (m_list e) = 0%nat <-> waiting A = []).
  { rewrite Hl, length_fmap. by destruct (waiting A). }
  destruct (decide (waiting A = [])) as [Hnw|Hnw].
  - rewrite (bool_decide_eq_true_2 _ (proj2 Hwn Hnw)). destruct (entry_empty A e' Heo Hnw) as [Hrd Hcase].
    cbn [andb]. rewrite HS in Hcase. cbn in Hcase, Hrd. rewrite Hrd.
    destruct Hcase as [[-> HA]|[-> HA]]; cbn; (eexists; split; [done|]); apply Hback; auto.
  - rewrite bool_decide_eq_false_2 by (by rewrite Hwn). cbn. eexists. split; [done|]. apply Hback. right. split; [|done].
    intros HA. by rewrite HA in Hnw.
Qed.

Lemma do_access_ok L t pend f :
  mshr_inv L t pend -> merged f = true ->
  do_access rc (block_of f) (modifies f) t = Some (bool_decide (waiting (at_block L (block_of f)) = [])).
Proof.
  intros Hi Hm. set (b := block_of f). pose proof (mi_entry _ _ _ Hi b) as Heo. pose proof (mi_some _ _ _ Hi b) as Hs.
  unfold do_access, merged in *. set (A := at_block L b) in *.
  assert (Hall : m_writes_stall_at_mshr rc = true -> waiting A = A).
  { intros HS. clear -HS. induction A as [|[id x] l IH]; [done|]. rewrite waiting_cons. unfold merged. by rewrite HS, IH. }
  destruct (m_writes_stall_at_mshr rc) eqn:HS; cbn [orb] in Hm.
  - rewrite Hall by done. f_equal. unfold probe. destruct A; [rewrite bool_decide_eq_false_2 by (rewrite Hs; naive_solver); done|].
    by rewrite bool_decide_eq_true_2 by (by apply Hs).
  - apply negb_true_iff in Hm. rewrite Hm. cbn [negb]. f_equal.
    assert (Hwr : waiting A = reads A).
    { unfold waiting, reads. apply list_filter_iff. intros p. unfold merged. rewrite HS. cbn. by destruct (modifies p.2). }
    rewrite Hwr. destruct (m_data t !! b) as [e|] eqn:He.
    + rewrite (entry_at_Some _ _ _ He) in Heo. rewrite (eo_reads _ _ Heo). apply bool_decide_ext. rewrite tally_empty.
      split; [apply fmap_nil_inv|by intros ->].
    + apply (mi_None _ _ _ b Hi) in He. fold A in He. by rewrite He.
Qed.

(** What the test of a fetch that would be merged promises: room for it. *)
Lemma allowed_room L t pend f :
  mshr_inv L t pend -> probe (block_of f) t = true -> full rc (block_of f) t = false ->
  access_allowed rc (block_of f) (modifies f) f t = Some ruby_no_stall -> room f t.
Proof.
  intros Hi Hprobe Hfull Hal. unfold probe in Hprobe. apply bool_decide_eq_true in Hprobe as [e He].
  unfold full in Hfull. rewrite He in Hfull. apply Z.leb_gt in Hfull. unfold access_allowed in Hal. rewrite He in Hal.
  cbn [mbind option_bind] in Hal. split; [by rewrite He|..]; intros HS; [intros Hmod|apply andb_true_iff in HS as [HS Hat]];
    rewrite HS in Hal; destruct (m_single_write_per_warp rc && _); try done; unfold modifies in *.
  - right. rewrite (entry_at_Some _ _ _ He).
    destruct (m_atomics_stall_at_mshr rc), (f_is_write f), (f_isatomic f), (m_has_atomic e); cbn in *; try done;
      case_bool_decide; done.
  - apply andb_true_iff in Hat as [Hat Hia]. rewrite Hat, Hia, orb_true_r in Hal. done.
Qed.
Lemma miss_room t f : probe (block_of f) t = false -> full rc (block_of f) t = false -> room f t.
Proof.
  intros Hprobe Hfull. unfold probe in Hprobe. apply bool_decide_eq_false in Hprobe. apply eq_None_not_Some in Hprobe.
  unfold full in Hfull. rewrite Hprobe in Hfull. apply Z.leb_gt in Hfull. split; [by rewrite Hprobe|auto|auto].
Qed.
End mshr.
