(* ===== verification/SequencerSafe.v ===== *)
(** The sequencer keeps its books: every message at the L1 controller has its request in a table, and
    each answer finds it. *)
From S2P Require Import Prelude Vector Config Address DataBlock Replacement CacheMemory Tables TagArray RccMsg Sequencer.

(** ** The tables of the sequencer *)
Section seq.
Context {C : Type} `{L1Tags C}.
Variables (g : Globals) (cf : SequencerConfig).
Implicit Types (s : Sequencer C) (m : CacheMsg) (r : Request) (wr : bool) (th : nat) (a now : Z).

Definition at_table s wr th a : option Request := t ← tables_of wr s !! th; t !! a.
Definition tables_len (n : nat) s : Prop := length (m_writeRequestTable s) = n /\ length (m_readRequestTable s) = n.
Definition counted s : Prop := m_outstanding_count s = total_outstanding s.

(** Everything but the tables, the count and the deadlock check. *)
Definition same_rest s s' : Prop :=
  m_L1IcacheMemory s' = m_L1IcacheMemory s /\ m_L1DcacheMemory s' = m_L1DcacheMemory s /\ s_driver s' = s_driver s /\
  s_mandatory s' = s_mandatory s.
Definition same_tables s s' : Prop :=
  m_writeRequestTable s' = m_writeRequestTable s /\ m_readRequestTable s' = m_readRequestTable s /\
  m_skipL1RequestTable s' = m_skipL1RequestTable s /\ m_outstanding_count s' = m_outstanding_count s.

Lemma total_update (l : list (gmap Z Request)) i t t' :
  l !! i = Some t -> table_total (<[i := t']> l) + map_size t = table_total l + map_size t'.
Proof.
  intros Hi. unfold table_total. rewrite list_fmap_insert. apply total_insert. by rewrite list_lookup_fmap, Hi.
Qed.
Lemma check_counted s : counted s -> checkOutstandingRequests s = true.
Proof. intros Hc. by apply Z.eqb_eq. Qed.
Lemma schedule_same s : same_tables s (schedule_check cf s) /\ same_rest s (schedule_check cf s).
Proof. unfold schedule_check. by destruct (m_deadlock_check_scheduled s). Qed.

(** A table of a thread is replaced. *)
Lemma with_tables_at wr th t s :
  (th < length (tables_of wr s))%nat ->
  let s' := with_tables wr (<[th := t]> (tables_of wr s)) s in
  forall wr' th' a, at_table s' wr' th' a = if decide (wr' = wr /\ th' = th) then t !! a else at_table s wr' th' a.
Proof.
  intros Hth s' wr' th' a. unfold at_table, s', tables_of, with_tables in *.
  destruct wr, wr'; cbn in *; try (case_decide as E; [destruct E; congruence|done]);
    (destruct (decide (th' = th)) as [->|Hne];
     [rewrite list_lookup_insert_eq, decide_True by done; done|rewrite list_lookup_insert_ne, decide_False by naive_solver; done]).
Qed.
Lemma with_tables_total wr th t t' s :
  tables_of wr s !! th = Some t ->
  total_outstanding (with_tables wr (<[th := t']> (tables_of wr s)) s) = total_outstanding s + map_size t' - map_size t.
Proof.
  intros Ht. pose proof (total_update _ _ _ t' Ht). unfold total_outstanding.
  destruct wr; cbn [with_tables tables_of with_writes with_reads m_writeRequestTable m_readRequestTable m_skipL1RequestTable] in *; lia.
Qed.
Lemma with_tables_len n wr th t s : tables_len n s -> tables_len n (with_tables wr (<[th := t]> (tables_of wr s)) s).
Proof. intros [? ?]. destruct wr; split; cbn; by rewrite ?length_insert. Qed.

(** Inserting a request in the table of its thread, where there is none for its line, and removing it. *)
Definition msg_line m : Prop := line_address g (c_Address m) = Some (c_Address m).
Lemma map_size_insert_new {V} (t : gmap Z V) a x : t !! a = None -> map_size (map_add t a x) = map_size t + 1.
Proof. intros Hn. unfold map_size, map_add. rewrite map_size_insert_None by done. lia. Qed.
Lemma map_size_delete_old {V} (t : gmap Z V) a : is_Some (t !! a) -> map_size (delete a t) = map_size t - 1.
Proof.
  intros [x Hx]. unfold map_size. rewrite map_size_delete_Some by eauto.
  assert (size t <> 0%nat) by (intros Hz%map_size_empty_inv; by rewrite Hz in Hx). lia.
Qed.

Lemma same_rest_trans s1 s2 s3 : same_rest s1 s2 -> same_rest s2 s3 -> same_rest s1 s3.
Proof. unfold same_rest. intuition congruence. Qed.
Lemma replace_table n s wr th t t' d :
  tables_len n s -> counted s -> tables_of wr s !! th = Some t -> map_size t' = map_size t + d ->
  let s1 := with_tables wr (<[th := t']> (tables_of wr s)) s in
  let s' := with_count (m_outstanding_count s1 + d) s1 in
  tables_len n s' /\ counted s' /\ same_rest s s' /\ m_skipL1RequestTable s' = m_skipL1RequestTable s /\
  forall wr' th' a, at_table s' wr' th' a = if decide (wr' = wr /\ th' = th) then t' !! a else at_table s wr' th' a.
Proof.
  intros Hlen Hcnt Ht Hd s1 s'. pose proof (with_tables_total wr th t t' s Ht) as Htot.
  assert (Hlt : (th < length (tables_of wr s))%nat) by by apply lookup_lt_Some in Ht.
  pose proof (with_tables_at wr th t' s Hlt) as Hat. pose proof (with_tables_len n wr th t' s Hlen) as Hlen'.
  unfold counted in *. split_and!; [exact Hlen'| | | |exact Hat].
  - fold s1 in Htot. assert (Hm : m_outstanding_count s1 = m_outstanding_count s) by (unfold s1; by destruct wr).
    change (m_outstanding_count s1 + d = total_outstanding s1). lia.
  - unfold s', s1. by destruct wr.
  - unfold s', s1. by destruct wr.
Qed.

Lemma same_tables_facts n s s' :
  same_tables s s' -> tables_len n s -> counted s ->
  tables_len n s' /\ counted s' /\ (forall wr, tables_of wr s' = tables_of wr s) /\
  forall wr th a, at_table s' wr th a = at_table s wr th a.
Proof.
  intros (H1 & H2 & H3 & H4) [? ?] Hc. unfold tables_len, counted, total_outstanding, at_table, tables_of in *.
  rewrite H1, H2, H3, H4. split_and!; done.
Qed.
Lemma tables_lookup n s wr th : tables_len n s -> (th < n)%nat -> exists t, tables_of wr s !! th = Some t.
Proof. intros [? ?] Hth. apply lookup_lt_is_Some. destruct wr; cbn; lia. Qed.

Lemma insertRequest_ok n m th now s :
  tables_len n s -> counted s -> c_ThreadID m = Z.of_nat th -> (th < n)%nat -> msg_line m ->
  at_table s (is_write_type (c_Type m)) th (c_Address m) = None ->
  exists s', insertRequest g cf m now s = Some (false, s') /\ tables_len n s' /\ counted s' /\ same_rest s s' /\
    m_skipL1RequestTable s' = m_skipL1RequestTable s /\
    forall wr' th' a, at_table s' wr' th' a =
      if decide (wr' = is_write_type (c_Type m) /\ th' = th /\ a = c_Address m) then Some (mkReq m now) else at_table s wr' th' a.
Proof.
  intros Hlen Hcnt Hth Hn Hline Hnone. set (wr := is_write_type (c_Type m)) in *. unfold insertRequest. fold wr.
  rewrite (check_counted s Hcnt), Hth. rewrite (proj2 (Z.leb_le _ _)) by lia.
  destruct (schedule_same s) as [Hsame Hrest]. set (s1 := schedule_check cf s) in *.
  destruct (same_tables_facts n s s1 Hsame Hlen Hcnt) as (Hlen1 & Hcnt1 & Htab & Hat). destruct Hsame as (_ & _ & Hs3 & _).
  destruct (tables_lookup n s1 wr th Hlen1 Hn) as [t Ht]. rewrite cell_nat, Ht.
  cbn [mbind option_bind]. rewrite Hline. cbn [mbind option_bind].
  assert (Hta : t !! c_Address m = None) by (rewrite <-Hat in Hnone; unfold at_table in Hnone; by rewrite Ht in Hnone).
  pose proof (lookup_lt_Some _ _ _ Ht). rewrite set_cell_Some, Nat2Z.id by lia. cbn [mbind option_bind].
  rewrite (proj2 (map_exist_false t (c_Address m)) Hta).
  destruct (replace_table n s1 wr th t (map_add t (c_Address m) (mkReq m now)) 1) as (Hl2 & Hc2 & Hr2 & Hsk2 & Hat2);
    [done..|by apply map_size_insert_new|].
  rewrite (check_counted _ Hc2). eexists. split; [done|]. split_and!; [exact Hl2|exact Hc2| | |].
  - by eapply same_rest_trans.
  - by rewrite Hsk2.
  - intros wr' th' a. rewrite Hat2, <-Hat. destruct (decide (wr' = wr /\ th' = th)) as [[-> ->]|Hne].
    + unfold map_add, at_table. rewrite Ht. cbn. destruct (decide (a = c_Address m)) as [->|Hne].
      * by rewrite lookup_insert_eq, decide_True.
      * by rewrite lookup_insert_ne, decide_False by naive_solver.
    + by rewrite decide_False by naive_solver.
Qed.

Lemma removeRequest_ok n r th s :
  let m := r_msg r in
  tables_len n s -> counted s -> c_ThreadID m = Z.of_nat th -> (th < n)%nat -> msg_line m ->
  at_table s (is_write_type (c_Type m)) th (c_Address m) = Some r ->
  exists s', removeRequest g m s = Some s' /\ tables_len n s' /\ counted s' /\ same_rest s s' /\
    m_skipL1RequestTable s' = m_skipL1RequestTable s /\
    forall wr' th' a, at_table s' wr' th' a =
      if decide (wr' = is_write_type (c_Type m) /\ th' = th /\ a = c_Address m) then None else at_table s wr' th' a.
Proof.
  intros m Hlen Hcnt Hth Hn Hline Hsome. set (wr := is_write_type (c_Type m)) in *. unfold removeRequest. fold wr.
  rewrite (check_counted s Hcnt), Hth. rewrite (proj2 (Z.leb_le _ _)) by lia.
  destruct (tables_lookup n s wr th Hlen Hn) as [t Ht]. rewrite cell_nat, Ht.
  cbn [mbind option_bind]. rewrite Hline. cbn [mbind option_bind].
  assert (Hta : t !! c_Address m = Some r) by (unfold at_table in Hsome; by rewrite Ht in Hsome).
  unfold map_erase. rewrite (proj2 (map_exist_true t (c_Address m))) by done. cbn [mbind option_bind].
  pose proof (lookup_lt_Some _ _ _ Ht). rewrite set_cell_Some, Nat2Z.id by lia. cbn [mbind option_bind].
  destruct (replace_table n s wr th t (delete (c_Address m) t) (-1)) as (Hl2 & Hc2 & Hr2 & Hsk2 & Hat2);
    [done..|by apply map_size_delete_old|].
  cbv zeta. set (s1 := with_tables wr (<[th := delete (c_Address m) t]> (tables_of wr s)) s) in *.
  replace (m_outstanding_count s - 1) with (m_outstanding_count s1 + -1) by (unfold s1; destruct wr; cbn; lia).
  rewrite (check_counted _ Hc2). eexists. split; [done|]. split_and!; [exact Hl2|exact Hc2|exact Hr2|exact Hsk2|].
  intros wr' th' a. rewrite Hat2. destruct (decide (wr' = wr /\ th' = th)) as [[-> ->]|Hne].
  - unfold at_table. rewrite Ht. cbn. destruct (decide (a = c_Address m)) as [->|Hne].
    + by rewrite lookup_delete_eq, decide_True.
    + by rewrite lookup_delete_ne, decide_False by naive_solver.
  - by rewrite decide_False by naive_solver.
Qed.

Lemma insertSkip_ok n m now s :
  tables_len n s -> counted s -> m_skipL1RequestTable s !! c_memfetch m = None ->
  exists s', insertSkipL1Request cf m now s = Some s' /\ tables_len n s' /\ counted s' /\ same_rest s s' /\
    (forall wr th a, at_table s' wr th a = at_table s wr th a) /\
    m_skipL1RequestTable s' = <[c_memfetch m := mkReq m now]> (m_skipL1RequestTable s).
Proof.
  intros Hlen Hcnt Hnone. unfold insertSkipL1Request.
  destruct (schedule_same s) as [Hsame Hrest]. set (s1 := schedule_check cf s) in *.
  destruct (same_tables_facts n s s1 Hsame Hlen Hcnt) as (Hlen1 & Hcnt1 & _ & Hat). destruct Hsame as (_ & _ & Hs3 & _).
  rewrite (check_counted s1 Hcnt1), Hs3. rewrite (proj2 (map_exist_false _ _) Hnone). cbn [negb].
  set (s2 := with_skips _ s1).
  assert (Hc2 : counted (with_count (m_outstanding_count s2 + 1) s2)).
  { unfold counted, total_outstanding in *. cbn [m_outstanding_count with_count with_skips m_writeRequestTable m_readRequestTable m_skipL1RequestTable s2].
    rewrite map_size_insert_new by done. rewrite Hs3 in Hcnt1. lia. }
  rewrite (check_counted _ Hc2). eexists. split; [done|]. by split_and!.
Qed.
Lemma removeSkip_ok n r s :
  let m := r_msg r in
  tables_len n s -> counted s -> m_skipL1RequestTable s !! c_memfetch m = Some r ->
  exists s', removeSkipL1Request m s = Some s' /\ tables_len n s' /\ counted s' /\ same_rest s s' /\
    (forall wr th a, at_table s' wr th a = at_table s wr th a) /\
    m_skipL1RequestTable s' = delete (c_memfetch m) (m_skipL1RequestTable s).
Proof.
  intros m Hlen Hcnt Hsome. unfold removeSkipL1Request, map_erase.
  rewrite (check_counted s Hcnt), (proj2 (map_exist_true _ _)) by done. cbn [mbind option_bind].
  assert (Hc2 : counted (with_count (m_outstanding_count s - 1) (with_skips (delete (c_memfetch m) (m_skipL1RequestTable s)) s))).
  { unfold counted, total_outstanding in *. cbn [m_outstanding_count with_count with_skips m_writeRequestTable m_readRequestTable m_skipL1RequestTable].
    rewrite map_size_delete_old by done. lia. }
  rewrite (check_counted _ Hc2). eexists. split; [done|]. by split_and!.
Qed.
End seq.

(** ** Sub-blocks that fit *)
Section subblock.
Variables (g : Globals) (DATA_BLOCK XACT_MEMORY : bool).
Hypothesis (Hwf : config_wf g) (Hbits : 0 < g_DATA_BLOCK_BITS g).

Lemma zero_from_ok l i n :
  0 <= i -> i + Z.of_nat n <= Z.of_nat (length l) -> exists l', zero_from l i n = Some l' /\ length l' = length l.
Proof using Type.
  revert l i. induction n as [|n IH]; intros l i Hi Hn; [by eexists|]. cbn [zero_from].
  rewrite set_cell_Some by lia. cbn [mbind option_bind].
  destruct (IH (<[Z.to_nat i := u8 0]> l) (i + 1)) as (l' & -> & Hl'); [lia|rewrite length_insert; lia|].
  eexists. split; [done|]. by rewrite Hl', length_insert.
Qed.
Lemma SubBlock_new2_ok addr laddr size :
  0 <= size -> exists sb, SubBlock_new2 addr laddr size = Some sb /\ m_address sb = addr /\ length (sb_data sb) = Z.to_nat size.
Proof using Type.
  intros Hs. unfold SubBlock_new2. rewrite (proj2 (Z.leb_le _ _)) by done.
  destruct (zero_from_ok (replicate (Z.to_nat size) Vector.default) 0 (Z.to_nat size)) as (l & E & Hl);
    [done|rewrite length_replicate; lia|]. rewrite length_replicate in Hl. rewrite E. cbn. by eexists.
Qed.
Lemma mergeFrom_loop_ok sb data o i n :
  DATA_BLOCK = true -> 0 <= o -> 0 <= i -> i + Z.of_nat n <= Z.of_nat (length (sb_data sb)) ->
  o + i + Z.of_nat n <= Z.of_nat (length data) ->
  exists sb', mergeFrom_loop DATA_BLOCK XACT_MEMORY sb data o i n = Some sb' /\ m_address sb' = m_address sb /\
    length (sb_data sb') = length (sb_data sb).
Proof using Type.
  intros Hd Ho. revert sb i. induction n as [|n IH]; intros sb i Hi Hn Hdata; [by eexists|]. cbn [mergeFrom_loop].
  unfold getByte. rewrite Hd. cbn [orb].
  destruct (lookup_lt_is_Some_2 data (Z.to_nat (o + i))) as [x Hx]; [lia|].
  rewrite (proj2 (cell_Some data (o + i) x)) by (split; [lia|done]). cbn [mbind option_bind].
  unfold sb_setByte. rewrite set_cell_Some by lia. cbn [mbind option_bind]. rewrite <-Hd.
  destruct (IH (mkSubBlock (m_address sb) (m_logicalAddress sb) (<[Z.to_nat i := u8 x]> (sb_data sb))) (i + 1)) as (sb' & -> & Ha & Hl);
    [lia|cbn; rewrite length_insert; lia|lia|]. eexists. split_and!; [done..|]. by rewrite Hl; cbn; rewrite length_insert.
Qed.
Lemma mergeTo_loop_ok sb data o i n :
  DATA_BLOCK = true -> 0 <= o -> 0 <= i -> i + Z.of_nat n <= Z.of_nat (length (sb_data sb)) ->
  o + i + Z.of_nat n <= Z.of_nat (length data) -> is_Some (mergeTo_loop DATA_BLOCK XACT_MEMORY sb data o i n).
Proof using Type.
  intros Hd Ho. revert data i. induction n as [|n IH]; intros data i Hi Hn Hdata; [by eexists|]. cbn [mergeTo_loop].
  destruct (lookup_lt_is_Some_2 (sb_data sb) (Z.to_nat i)) as [x Hx]; [lia|].
  unfold sb_getByte. rewrite (proj2 (cell_Some (sb_data sb) i x)) by (split; [lia|done]). cbn.
  unfold setByte. rewrite Hd. cbn [orb]. rewrite set_cell_Some by lia. cbn. rewrite <-Hd.
  apply IH; [lia|lia|rewrite length_insert; lia].
Qed.

(** A sub-block of a line that starts with the line. *)
Definition fits (addr size : Z) : Prop :=
  is_u64 addr /\ addr `mod` g_DATA_BLOCK_BYTES g = 0 /\ 0 < size <= g_DATA_BLOCK_BYTES g.
Lemma subblock_ok addr size :
  fits addr size ->
  exists sb sb', SubBlock_new2 addr addr size = Some sb /\
    mergeFrom g DATA_BLOCK XACT_MEMORY sb (DataBlock_new g DATA_BLOCK XACT_MEMORY) = Some sb' /\ m_address sb' = addr /\
    is_Some (mergeTo g DATA_BLOCK XACT_MEMORY sb' (DataBlock_new g DATA_BLOCK XACT_MEMORY)).
Proof using Hwf Hbits.
  intros (Ha & Hal & Hs). destruct (SubBlock_new2_ok addr addr size) as (sb & Hsb & Hba & Hbl); [lia|].
  exists sb. unfold mergeFrom, mergeTo. destruct DATA_BLOCK eqn:Hd; [|exists sb; by rewrite Hba].
  assert (Hlen : length (DataBlock_new g true XACT_MEMORY) = Z.to_nat (g_DATA_BLOCK_BYTES g)).
  { unfold DataBlock_new, DataBlock_clear. cbn [orb]. by rewrite length_replicate, length_replicate. }
  assert (Hoff : forall sb, m_address sb = addr -> getOffset g (m_address sb) = Some 0)
    by (intros ? ->; rewrite getOffset_spec by done; by rewrite Hal).
  unfold internalMergeFrom, sb_getSize. rewrite (proj2 (Z.ltb_lt _ _)) by lia. rewrite Hoff by done. cbn [mbind option_bind].
  destruct (mergeFrom_loop_ok sb (DataBlock_new g true XACT_MEMORY) 0 0 (length (sb_data sb))) as (sb' & Hm & Hma & Hml); [try done; lia..|].
  rewrite Hd in Hm. rewrite Nat2Z.id, Hm. exists sb'. split_and!; [done|done|congruence|].
  unfold internalMergeTo, sb_getSize. rewrite Hml, (proj2 (Z.ltb_lt _ _)) by lia. rewrite Hoff by congruence. cbn [mbind option_bind].
  rewrite Nat2Z.id. pose proof (mergeTo_loop_ok sb' (DataBlock_new g true XACT_MEMORY) 0 0 (length (sb_data sb)) Hd) as Hto.
  rewrite Hd in Hto. apply Hto; lia.
Qed.
End subblock.

(** ** The messages at the controller *)
Section messages.
Context {C : Type} `{L1Tags C}.
Variables (g : Globals) (DATA_BLOCK XACT_MEMORY : bool) (cf : SequencerConfig).
Context `{!L1TagsLaws C (line_ok g)}.
Hypothesis (Hwf : config_wf g) (Hbits : 0 < g_DATA_BLOCK_BITS g).
Hypothesis (Hfast : REMOVE_SINGLE_CYCLE_DCACHE_FAST_PATH cf = true) (Hlat : 0 < SEQUENCER_TO_CONTROLLER_LATENCY cf)
  (Hacks : NO_WRITE_ACKS cf = false).
Implicit Types (s : Sequencer C) (m : CacheMsg) (M : list CacheMsg) (r : Request) (now : Z).
Abbreviation lineok := (line_ok g).

Definition fence m : bool := bool_decide (c_Type m = MEM_FENCE).
Definition skipm m : bool := negb (fence m) && skips cf (c_Type m) (c_Space m).
Definition tablem m : bool := negb (fence m) && negb (skips cf (c_Type m) (c_Space m)).
Definition msg_ok (n : nat) m : Prop :=
  (c_Type m = LD \/ c_Type m = ST \/ c_Type m = ATOMIC \/ c_Type m = MEM_FENCE) /\
  0 <= c_ThreadID m < Z.of_nat n /\ lineok (c_Address m) /\ (fence m = false -> fits g (c_Address m) (c_Size m)).

Definition skip_ids M : list Z := c_memfetch <$> filter (fun m => skipm m = true) M.
Definition table_lines M : list Z := c_Address <$> filter (fun m => tablem m = true) M.

(** [M] are the messages the controller has not answered. *)
Record seq_inv (n : nat) now s M : Prop := {
  sv_len : tables_len n s;
  sv_count : counted s;
  sv_at wr th a r : at_table s wr th a = Some r ->
    r_msg r ∈ M /\ tablem (r_msg r) = true /\ is_write_type (c_Type (r_msg r)) = wr /\
    c_ThreadID (r_msg r) = Z.of_nat th /\ c_Address (r_msg r) = a /\ r_time r <= now;
  sv_table m : m ∈ M -> tablem m = true ->
    exists r, at_table s (is_write_type (c_Type m)) (Z.to_nat (c_ThreadID m)) (c_Address m) = Some r /\ r_msg r = m;
  sv_skip id r : m_skipL1RequestTable s !! id = Some r ->
    r_msg r ∈ M /\ skipm (r_msg r) = true /\ c_memfetch (r_msg r) = id /\ r_time r <= now;
  sv_skipm m : m ∈ M -> skipm m = true -> exists r, m_skipL1RequestTable s !! c_memfetch m = Some r /\ r_msg r = m;
  sv_lines : NoDup (table_lines M);
  sv_ids : NoDup (skip_ids M);
  sv_msg : Forall (msg_ok n) M;
  sv_caches : l1_ok (m_L1IcacheMemory s) /\ l1_ok (m_L1DcacheMemory s) }.

Lemma seq_inv_perm n now s M M' : M ≡ₚ M' -> seq_inv n now s M -> seq_inv n now s M'.
Proof using Type.
  intros Hp [? ? ? ? ? ? Hn1 Hn2 ? ?]. unfold table_lines, skip_ids in *. split; unfold table_lines, skip_ids; try done.
  all: setoid_rewrite <-Hp; eauto.
Qed.
Lemma line_msg m : lineok (c_Address m) -> msg_line g m.
Proof using Type.
  intros [_ Hl]. unfold is_line, msg_line in *. destruct (line_address g (c_Address m)) as [l|]; [|done].
  apply Z.eqb_eq in Hl. by f_equal.
Qed.

(** ** Answers *)
Lemma mark_used_ok type line now s :
  lineok line -> l1_ok (m_L1IcacheMemory s) /\ l1_ok (m_L1DcacheMemory s) ->
  exists s', mark_used type line now s = Some s' /\ same_tables s s' /\ s_mandatory s' = s_mandatory s /\
    s_driver s' = s_driver s /\ l1_ok (m_L1IcacheMemory s') /\ l1_ok (m_L1DcacheMemory s').
Proof using Type.
  intros Hl [Hi Hd]. unfold mark_used. case_bool_decide.
  - destruct (l1_isTagPresent_law (m_L1IcacheMemory s) line Hi Hl) as [b Hb]. rewrite Hb. cbn [mbind option_bind].
    destruct b; [|by eexists]. destruct (l1_setMRU_law (m_L1IcacheMemory s) line now Hi Hl Hb) as (c & -> & Hc). by eexists.
  - destruct (l1_isTagPresent_law (m_L1DcacheMemory s) line Hd Hl) as [b Hb]. rewrite Hb. cbn [mbind option_bind].
    destruct b; [|by eexists]. destruct (l1_setMRU_law (m_L1DcacheMemory s) line now Hd Hl Hb) as (c & -> & Hc). by eexists.
Qed.

Definition told (m : CacheMsg) (d : GpusimInterface) : GpusimInterface :=
  if fence m then driver_memfenceCallback (c_ThreadID m) d
  else driver_hitCallback cf (c_Address m) (c_Type m) (c_Space m) (c_memfetch m) d.

Lemma hitCallback_ok n r now s :
  msg_ok n (r_msg r) -> fence (r_msg r) = false -> r_time r <= now ->
  l1_ok (m_L1IcacheMemory s) /\ l1_ok (m_L1DcacheMemory s) ->
  exists s', hitCallback g DATA_BLOCK XACT_MEMORY cf r (DataBlock_new g DATA_BLOCK XACT_MEMORY) now s = Some s' /\
    same_tables s s' /\ s_mandatory s' = s_mandatory s /\ s_driver s' = told (r_msg r) (s_driver s) /\
    l1_ok (m_L1IcacheMemory s') /\ l1_ok (m_L1DcacheMemory s').
Proof using All.
  intros (_ & _ & Hline & Hfits) Hf Ht Hc. unfold hitCallback. rewrite (line_msg _ Hline). cbn [mbind option_bind].
  destruct (mark_used_ok (c_Type (r_msg r)) (c_Address (r_msg r)) now s Hline Hc) as (s1 & -> & Hst & Hm & Hd & Hc1).
  cbn [mbind option_bind]. rewrite (proj2 (Z.leb_le _ _)) by done.
  destruct (subblock_ok g DATA_BLOCK XACT_MEMORY Hwf Hbits _ _ (Hfits Hf)) as (sb & sb' & -> & Hfrom & Haddr & [d Hto]). cbn [mbind option_bind].
  rewrite Hfrom. cbn [mbind option_bind]. rewrite Haddr. unfold told. rewrite Hf, <-Hd.
  destruct (is_write_type _); [rewrite Hto; cbn [mbind option_bind]|]; by eexists.
Qed.

(** With one request for the address, its thread is the oldest. *)
Lemma oldest_none (tables : list (gmap Z Request)) (t a : Z) best : (forall th, (tables !! th ≫= fun x : gmap Z Request => x !! a) = None) -> oldest_thread tables t a best = best.
Proof using Type.
  revert t best. induction tables as [|x tables IH]; intros t best Hn; [done|]. cbn.
  pose proof (Hn 0%nat) as H0. cbn in H0. rewrite H0. apply IH. intros th. apply (Hn (S th)).
Qed.
Lemma oldest_one (tables : list (gmap Z Request)) (t a : Z) best th r :
  best.1 = -1 -> (tables !! th ≫= fun x : gmap Z Request => x !! a) = Some r ->
  (forall th', th' <> th -> (tables !! th' ≫= fun x : gmap Z Request => x !! a) = None) ->
  (oldest_thread tables t a best).1 = t + Z.of_nat th.
Proof using Type.
  revert t best th. induction tables as [|x tables IH]; intros t best th Hb Hth Hn; [done|].
  destruct th as [|th]; cbn.
  - cbn in Hth. rewrite Hth, Hb. cbn. rewrite oldest_none; [cbn; lia|]. intros th. by apply (Hn (S th)).
  - pose proof (Hn 0%nat ltac:(done)) as H0. cbn in H0. rewrite H0.
    rewrite (IH (t + 1) best th); [lia|done|done|]. intros th' Hne. apply (Hn (S th')). lia.
Qed.

Lemma fmap_NoDup_eq {A} (f : A -> Z) (l : list A) x y : NoDup (f <$> l) -> x ∈ l -> y ∈ l -> f x = f y -> x = y.
Proof using Type.
  intros Hn [i Hi]%list_elem_of_lookup [j Hj]%list_elem_of_lookup Hf.
  assert (Hij : i = j); [|subst; congruence].
  apply (NoDup_lookup (f <$> l) i j (f x)); [done|by rewrite list_lookup_fmap, Hi|rewrite list_lookup_fmap, Hj; cbn; congruence].
Qed.
Lemma same_line M m m' :
  NoDup (table_lines M) -> m ∈ M -> m' ∈ M -> tablem m = true -> tablem m' = true -> c_Address m = c_Address m' -> m = m'.
Proof using Type. intros Hn ? ? ? ?. by apply (fmap_NoDup_eq c_Address _ m m' Hn); apply list_elem_of_filter. Qed.
Lemma same_id M m m' :
  NoDup (skip_ids M) -> m ∈ M -> m' ∈ M -> skipm m = true -> skipm m' = true -> c_memfetch m = c_memfetch m' -> m = m'.
Proof using Type. intros Hn ? ? ? ?. by apply (fmap_NoDup_eq c_memfetch _ m m' Hn); apply list_elem_of_filter. Qed.
Lemma table_lines_cons m M : table_lines (m :: M) = if tablem m then c_Address m :: table_lines M else table_lines M.
Proof using Type. unfold table_lines. rewrite filter_cons. by destruct (tablem m). Qed.
Lemma skip_ids_cons m M : skip_ids (m :: M) = if skipm m then c_memfetch m :: skip_ids M else skip_ids M.
Proof using Type. unfold skip_ids. rewrite filter_cons. by destruct (skipm m). Qed.
Lemma in_table_lines m M : m ∈ M -> tablem m = true -> c_Address m ∈ table_lines M.
Proof using Type. intros Hm Ht. apply list_elem_of_fmap. exists m. split; [done|]. by apply list_elem_of_filter. Qed.
Lemma in_skip_ids m M : m ∈ M -> skipm m = true -> c_memfetch m ∈ skip_ids M.
Proof using Type. intros Hm Ht. apply list_elem_of_fmap. exists m. split; [done|]. by apply list_elem_of_filter. Qed.

Lemma seq_inv_same n now s s' M :
  same_tables s s' -> l1_ok (m_L1IcacheMemory s') /\ l1_ok (m_L1DcacheMemory s') -> seq_inv n now s M -> seq_inv n now s' M.
Proof using Type.
  intros Hsame Hc [Hl Hcnt Hat Ht Hs Hsm ? ? ? _]. destruct (same_tables_facts n s s' Hsame Hl Hcnt) as (? & ? & _ & Heq).
  destruct Hsame as (_ & _ & Hsk & _). split; try done.
  - intros wr th a r. rewrite Heq. apply Hat.
  - intros m. rewrite Heq. apply Ht.
  - intros id r. rewrite Hsk. apply Hs.
  - intros m. rewrite Hsk. apply Hsm.
Qed.
Lemma tablem_skipm m : tablem m = true -> skipm m = false.
Proof using Type. unfold tablem, skipm. destruct (fence m), (skips _ _ _); done. Qed.
Lemma tablem_fence m : tablem m = true -> fence m = false.
Proof using Type. unfold tablem. by destruct (fence m). Qed.
Lemma skipm_fence m : skipm m = true -> fence m = false.
Proof using Type. unfold skipm. by destruct (fence m). Qed.

Lemma table_removed n now s s' m M th :
  seq_inv n now s (m :: M) -> tablem m = true -> c_ThreadID m = Z.of_nat th ->
  tables_len n s' -> counted s' -> same_rest s s' -> m_skipL1RequestTable s' = m_skipL1RequestTable s ->
  (forall wr' th' a, at_table s' wr' th' a =
     if decide (wr' = is_write_type (c_Type m) /\ th' = th /\ a = c_Address m) then None else at_table s wr' th' a) ->
  seq_inv n now s' M.
Proof using Type.
  intros Hi Htm Hth Hlen Hcnt (Hc1 & Hc2 & _ & _) Hsk Hat. destruct Hi as [_ _ Hiat Hit His Hism Hn1 Hn2 Hok Hc].
  rewrite table_lines_cons, Htm in Hn1. apply NoDup_cons in Hn1 as [Hnot Hn1'].
  rewrite skip_ids_cons, (tablem_skipm m Htm) in Hn2. apply Forall_cons in Hok as [Hokm Hok]. split; try done.
  - intros wr' th' a r'. rewrite Hat. case_decide as Hcase; [done|]. intros Hr'.
    destruct (Hiat _ _ _ _ Hr') as (Hin & Ht' & Hwr & Hth2 & Ha & Htime).
    apply elem_of_cons in Hin as [Heq|Hin]; [|done]. destruct Hcase. rewrite Heq in Hwr, Hth2, Ha. split_and!; [done|lia|done].
  - intros m' Hin Ht'. destruct (Hit m' ltac:(by right) Ht') as (r' & Hr' & Hrm'). exists r'. split; [|done].
    rewrite Hat, decide_False; [done|]. intros (_ & _ & Ha). destruct Hnot. rewrite <-Ha. by apply in_table_lines.
  - intros id r'. rewrite Hsk. intros Hr'. destruct (His id r' Hr') as (Hin & Hs' & ? & ?).
    apply elem_of_cons in Hin as [Heq|Hin]; [|done]. rewrite Heq, (tablem_skipm m Htm) in Hs'. done.
  - intros m' Hin Hs'. rewrite Hsk. apply Hism; [by right|done].
  - by rewrite Hc1, Hc2.
Qed.
Lemma skip_removed n now s s' m M :
  seq_inv n now s (m :: M) -> skipm m = true ->
  tables_len n s' -> counted s' -> same_rest s s' -> (forall wr th a, at_table s' wr th a = at_table s wr th a) ->
  m_skipL1RequestTable s' = delete (c_memfetch m) (m_skipL1RequestTable s) -> seq_inv n now s' M.
Proof using Type.
  intros Hi Hsm Hlen Hcnt (Hc1 & Hc2 & _ & _) Hat Hsk. destruct Hi as [_ _ Hiat Hit His Hism Hn1 Hn2 Hok Hc].
  assert (Htm : tablem m = false) by (destruct (tablem m) eqn:E; [by rewrite (tablem_skipm m E) in Hsm|done]).
  rewrite table_lines_cons, Htm in Hn1.
  rewrite skip_ids_cons, Hsm in Hn2. apply NoDup_cons in Hn2 as [Hnot Hn2']. apply Forall_cons in Hok as [Hokm Hok]. split; try done.
  - intros wr th a r. rewrite Hat. intros Hr. destruct (Hiat _ _ _ _ Hr) as (Hin & Ht & ?).
    apply elem_of_cons in Hin as [Heq|Hin]; [|done]. rewrite Heq in Ht. congruence.
  - intros m' Hin Ht'. rewrite Hat. apply Hit; [by right|done].
  - intros id r. rewrite Hsk, lookup_delete_Some. intros [Hne Hr]. destruct (His id r Hr) as (Hin & Hs' & Hid & ?).
    apply elem_of_cons in Hin as [Heq|Hin]; [|done]. rewrite Heq in Hid. congruence.
  - intros m' Hin Hs'. rewrite Hsk. rewrite lookup_delete_ne; [by apply Hism; [right|]|]. intros Heq. destruct Hnot. rewrite Heq.
    by apply in_skip_ids.
  - by rewrite Hc1, Hc2.
Qed.

Lemma tableCallback_ok n now s m M :
  seq_inv n now s (m :: M) -> tablem m = true ->
  exists s', tableCallback g DATA_BLOCK XACT_MEMORY cf (is_write_type (c_Type m)) (c_Address m) now s = Some s' /\
    seq_inv n now s' M /\ s_mandatory s' = s_mandatory s /\ s_driver s' = told m (s_driver s).
Proof using All.
  intros Hi Htm. destruct (sv_table _ _ _ _ Hi m) as (r & Hr & Hrm); [left|done|]. set (wr := is_write_type (c_Type m)) in *.
  pose proof (sv_msg _ _ _ _ Hi) as Hok. apply Forall_cons in Hok as [Hok HokM]. destruct (Hok) as (Htype & Hth & Hline & Hfits).
  set (th := Z.to_nat (c_ThreadID m)) in *. assert (Hthz : c_ThreadID m = Z.of_nat th) by (unfold th; lia).
  assert (Hth' : (th < n)%nat) by lia.
  assert (Hold : (oldest_thread (tables_of wr s) 0 (c_Address m) (-1, 0)).1 = Z.of_nat th).
  { rewrite (oldest_one _ _ _ _ th r); [lia|done|exact Hr|]. intros th' Hne. fold (at_table s wr th' (c_Address m)).
    destruct (at_table s wr th' (c_Address m)) as [r'|] eqn:Hr'; [|done].
    destruct (sv_at _ _ _ _ Hi _ _ _ _ Hr') as (HinM & Ht' & _ & Hth2 & Ha' & _).
    assert (r_msg r' = m); [|by destruct Hne; rewrite H0 in Hth2; lia].
    apply (same_line (m :: M)); [apply Hi|done|left|done..]. }
  unfold tableCallback. rewrite Hold. rewrite (proj2 (Z.eqb_neq _ _)) by lia. cbn [negb].
  rewrite (line_msg m Hline). cbn [mbind option_bind]. rewrite Z.eqb_refl, cell_nat.
  unfold at_table in Hr. destruct (tables_of wr s !! th) as [t|] eqn:Ht; [|done]. cbn in Hr. cbn [mbind option_bind].
  rewrite map_lookup_eq, Hr. cbn [mbind option_bind]. rewrite Hrm, Hthz, Z.eqb_refl.
  destruct (removeRequest_ok g n r th s) as (s1 & Hrem & Hlen & Hcnt & Hrest & Hsk & Hat);
    [apply Hi|apply Hi|by rewrite Hrm|done|by rewrite Hrm; apply line_msg| |].
  { rewrite Hrm. unfold at_table. fold wr. by rewrite Ht. }
  rewrite Hrm in Hrem, Hat. rewrite Hrem. cbn [mbind option_bind].
  pose proof (table_removed n now s s1 m M th Hi Htm Hthz Hlen Hcnt Hrest Hsk Hat) as Hi1.
  assert (Hty : (if wr then is_write_type (c_Type m) else is_read_type (c_Type m)) = true).
  { unfold wr. pose proof (tablem_fence m Htm) as Hf. unfold fence in Hf. apply bool_decide_eq_false in Hf.
    destruct Htype as [->|[->|[->| ?]]]; done. }
  rewrite Hty. destruct (hitCallback_ok n r now s1) as (s2 & Hhit & Hsame & Hman & Hdr & Hc);
    [by rewrite Hrm|by rewrite Hrm; apply tablem_fence|by eapply (sv_at _ _ _ _ Hi wr th (c_Address m)); unfold at_table; rewrite Ht|apply Hi1|].
  exists s2. split; [done|]. destruct Hrest as (_ & _ & Hd1 & Hm1). split_and!; [|congruence|rewrite Hdr, Hrm; congruence].
  by apply (seq_inv_same n now s1).
Qed.

Lemma skipCallback_ok n now s m M :
  seq_inv n now s (m :: M) -> skipm m = true ->
  exists s', skipCallback g DATA_BLOCK XACT_MEMORY cf (c_memfetch m) now s = Some s' /\
    seq_inv n now s' M /\ s_mandatory s' = s_mandatory s /\ s_driver s' = told m (s_driver s).
Proof using All.
  intros Hi Hsm. destruct (sv_skipm _ _ _ _ Hi m) as (r & Hr & Hrm); [left|done|].
  pose proof (sv_msg _ _ _ _ Hi) as Hok. apply Forall_cons in Hok as [Hok HokM].
  unfold skipCallback. rewrite (proj2 (map_exist_true _ _)) by done. rewrite map_lookup_eq, Hr. cbn [mbind option_bind]. rewrite Hrm.
  destruct (removeSkip_ok n r s) as (s1 & Hrem & Hlen & Hcnt & Hrest & Hat & Hsk); [apply Hi|apply Hi|by rewrite Hrm|].
  rewrite Hrm in Hrem, Hsk. rewrite Hrem. cbn [mbind option_bind].
  pose proof (skip_removed n now s s1 m M Hi Hsm Hlen Hcnt Hrest Hat Hsk) as Hi1.
  destruct (hitCallback_ok n r now s1) as (s2 & Hhit & Hsame & Hman & Hdr & Hc);
    [by rewrite Hrm|by rewrite Hrm; apply skipm_fence|by apply (sv_skip _ _ _ _ Hi _ _ Hr)|apply Hi1|].
  exists s2. split; [done|]. destruct Hrest as (_ & _ & Hd1 & Hm1). split_and!; [|congruence|rewrite Hdr, Hrm; congruence].
  by apply (seq_inv_same n now s1).
Qed.

(** ** Requests *)
Lemma enqueue_ok m s :
  lineok (c_Address m) -> enqueue_mandatory g cf m s = Some (with_mandatory (s_mandatory s ++ [m]) s).
Proof using Hlat.
  intros Hl. unfold enqueue_mandatory. rewrite (line_msg m Hl). cbn [mbind option_bind].
  rewrite (proj2 (Z.ltb_lt _ _)) by done. by destruct m.
Qed.
Lemma fence_added n now s m M : seq_inv n now s M -> fence m = true -> msg_ok n m -> seq_inv n now s (m :: M).
Proof using Type.
  intros [? ? Hat Ht Hs Hsm Hn1 Hn2 Hok ?] Hf Hm.
  assert (Hnt : tablem m = false) by (unfold tablem; by rewrite Hf).
  assert (Hns : skipm m = false) by (unfold skipm; by rewrite Hf).
  split; try done.
  - intros wr th a r Hr. destruct (Hat _ _ _ _ Hr) as (? & ?). split; [by right|done].
  - intros m' [->|Hin]%elem_of_cons Ht'; [congruence|]. by apply Ht.
  - intros id r Hr. destruct (Hs _ _ Hr) as (? & ?). split; [by right|done].
  - intros m' [->|Hin]%elem_of_cons Hs'; [congruence|]. by apply Hsm.
  - by rewrite table_lines_cons, Hnt.
  - by rewrite skip_ids_cons, Hns.
  - by apply Forall_cons.
Qed.
Lemma fence_removed n now s m M : seq_inv n now s (m :: M) -> fence m = true -> seq_inv n now s M.
Proof using Type.
  intros [? ? Hat Ht Hs Hsm Hn1 Hn2 Hok ?] Hf.
  assert (Hnt : tablem m = false) by (unfold tablem; by rewrite Hf).
  assert (Hns : skipm m = false) by (unfold skipm; by rewrite Hf).
  rewrite table_lines_cons, Hnt in Hn1. rewrite skip_ids_cons, Hns in Hn2. apply Forall_cons in Hok as [_ Hok]. split; try done.
  - intros wr th a r Hr. destruct (Hat _ _ _ _ Hr) as ([Heq|Hin]%elem_of_cons & Ht' & ?); [by rewrite Heq, Hnt in Ht'|done].
  - intros m' Hin Ht'. apply Ht; [by right|done].
  - intros id r Hr. destruct (Hs _ _ Hr) as ([Heq|Hin]%elem_of_cons & Hs' & ?); [by rewrite Heq, Hns in Hs'|done].
  - intros m' Hin Hs'. apply Hsm; [by right|done].
Qed.
Lemma table_added n now s s' m M th :
  seq_inv n now s M -> tablem m = true -> c_ThreadID m = Z.of_nat th -> msg_ok n m -> c_Address m ∉ table_lines M ->
  tables_len n s' -> counted s' -> same_rest s s' -> m_skipL1RequestTable s' = m_skipL1RequestTable s ->
  (forall wr' th' a, at_table s' wr' th' a =
     if decide (wr' = is_write_type (c_Type m) /\ th' = th /\ a = c_Address m) then Some (mkReq m now) else at_table s wr' th' a) ->
  seq_inv n now s' (m :: M).
Proof using Type.
  intros Hi Htm Hth Hm Hnot Hlen Hcnt (Hc1 & Hc2 & _ & _) Hsk Hat. destruct Hi as [_ _ Hiat Hit His Hism Hn1 Hn2 Hok Hc]. split; try done.
  - intros wr' th' a r'. rewrite Hat. case_decide as Hcase.
    + intros [= <-]. destruct Hcase as (-> & -> & ->). cbn. split_and!; [by left|done..].
    + intros Hr'. destruct (Hiat _ _ _ _ Hr') as (? & ?). split; [by right|done].
  - intros m' [->|Hin]%elem_of_cons Ht'.
    + exists (mkReq m now). rewrite Hat, decide_True; [done|]. split_and!; [done|lia|done].
    + destruct (Hit m' Hin Ht') as (r' & Hr' & Hrm'). exists r'. split; [|done].
      rewrite Hat, decide_False; [done|]. intros (_ & _ & Ha). destruct Hnot. rewrite <-Ha. by apply in_table_lines.
  - intros id r'. rewrite Hsk. intros Hr'. destruct (His id r' Hr') as (? & ?). split; [by right|done].
  - intros m' [->|Hin]%elem_of_cons Hs'; [by rewrite (tablem_skipm m Htm) in Hs'|]. rewrite Hsk. by apply Hism.
  - rewrite table_lines_cons, Htm. by apply NoDup_cons.
  - by rewrite skip_ids_cons, (tablem_skipm m Htm).
  - by apply Forall_cons.
  - by rewrite Hc1, Hc2.
Qed.
Lemma skip_added n now s s' m M :
  seq_inv n now s M -> skipm m = true -> msg_ok n m -> c_memfetch m ∉ skip_ids M ->
  tables_len n s' -> counted s' -> same_rest s s' -> (forall wr th a, at_table s' wr th a = at_table s wr th a) ->
  m_skipL1RequestTable s' = <[c_memfetch m := mkReq m now]> (m_skipL1RequestTable s) -> seq_inv n now s' (m :: M).
Proof using Type.
  intros Hi Hsm Hm Hnot Hlen Hcnt (Hc1 & Hc2 & _ & _) Hat Hsk. destruct Hi as [_ _ Hiat Hit His Hism Hn1 Hn2 Hok Hc].
  assert (Htm : tablem m = false) by (destruct (tablem m) eqn:E; [by rewrite (tablem_skipm m E) in Hsm|done]). split; try done.
  - intros wr th a r. rewrite Hat. intros Hr. destruct (Hiat _ _ _ _ Hr) as (? & ?). split; [by right|done].
  - intros m' [->|Hin]%elem_of_cons Ht'; [congruence|]. rewrite Hat. by apply Hit.
  - intros id r. rewrite Hsk. rewrite lookup_insert_Some. intros [[<- <-]|[_ Hr]]; [split_and!; [by left|done..]|].
    destruct (His id r Hr) as (? & ?). split; [by right|done].
  - intros m' [->|Hin]%elem_of_cons Hs'; rewrite Hsk; [exists (mkReq m now); by rewrite lookup_insert_eq|].
    rewrite lookup_insert_ne; [by apply Hism|]. intros Heq. destruct Hnot. rewrite Heq. by apply in_skip_ids.
  - by rewrite table_lines_cons, Htm.
  - rewrite skip_ids_cons, Hsm. by apply NoDup_cons.
  - by apply Forall_cons.
  - by rewrite Hc1, Hc2.
Qed.

Lemma seq_tryCacheAccess_ok n now s m M :
  seq_inv n now s M -> msg_ok n m ->
  exists hit data s', seq_tryCacheAccess g m now s = Some (hit, data, s') /\ seq_inv n now s' M /\ s_driver s' = s_driver s /\
    s_mandatory s' = s_mandatory s.
Proof using Type.
  intros Hi (Htype & _ & Hline & _). unfold seq_tryCacheAccess. rewrite (line_msg m Hline). cbn [mbind option_bind].
  rewrite bool_decide_eq_false_2 by (destruct Htype as [->|[->|[->| ->]]]; done). destruct (sv_caches _ _ _ _ Hi) as [Hc1 Hc2].
  destruct (l1_tryCacheAccess_law (m_L1DcacheMemory s) (c_Address m) (c_Type m) now Hc2 Hline) as (hit & data & c & -> & Hc).
  cbn [mbind option_bind]. exists hit, data, (with_caches (m_L1IcacheMemory s) c s). split_and!; [done| |done..].
  by apply (seq_inv_same n now s).
Qed.

Lemma tables_free n now s m M :
  seq_inv n now s M -> c_Address m ∉ table_lines M -> forall wr th, at_table s wr th (c_Address m) = None.
Proof using Type.
  intros Hi Hnot wr th. destruct (at_table s wr th (c_Address m)) as [r|] eqn:Hr; [|done].
  destruct (sv_at _ _ _ _ Hi _ _ _ _ Hr) as (Hin & Ht & _ & _ & Ha & _). destruct Hnot. rewrite <-Ha. by apply in_table_lines.
Qed.

Lemma makeRequest_ok n now s m M :
  seq_inv n now s M -> msg_ok n m -> fence m = false ->
  (if skipm m then c_memfetch m ∉ skip_ids M else c_Address m ∉ table_lines M) ->
  exists s', makeRequest g DATA_BLOCK XACT_MEMORY cf m now s = Some s' /\ seq_inv n now s' (m :: M) /\
    s_driver s' = s_driver s /\ s_mandatory s' = s_mandatory s ++ [m].
Proof using All.
  intros Hi Hok Hf Hnew. unfold makeRequest. pose proof Hok as (Htype & Hth & Hline & _).
  assert (Hsk : skipm m = skips cf (c_Type m) (c_Space m)) by (unfold skipm; by rewrite Hf).
  destruct (skips cf (c_Type m) (c_Space m)) eqn:E; rewrite Hsk in Hnew.
  - unfold issueSkipL1Request. rewrite Hacks, andb_false_r.
    assert (Hnone : m_skipL1RequestTable s !! c_memfetch m = None).
    { destruct (m_skipL1RequestTable s !! c_memfetch m) as [r|] eqn:Hr; [|done].
      destruct (sv_skip _ _ _ _ Hi _ _ Hr) as (Hin & Hs & Hid & _). destruct Hnew. rewrite <-Hid. by apply in_skip_ids. }
    destruct (insertSkip_ok cf n m now s) as (s1 & -> & Hlen & Hcnt & Hrest & Hat & Hs1); [apply Hi|apply Hi|done|].
    cbn [mbind option_bind]. rewrite enqueue_ok by done. eexists. split; [done|]. destruct Hrest as (H1 & H2 & H3 & H4).
    split_and!; [|done|by cbn; rewrite H4]. apply (seq_inv_same n now s1); [done| |].
    + cbn. rewrite H1, H2. apply Hi.
    + by apply (skip_added n now s).
  - unfold doRequest. destruct (seq_tryCacheAccess_ok n now s m M Hi Hok) as (hit & data & s0 & -> & Hi0 & Hd0 & Hm0). cbn [mbind option_bind].
    assert (Hni : bool_decide (c_Type m = IFETCH) = false)
      by (apply bool_decide_eq_false_2; destruct Htype as [->|[->|[->| ->]]]; done).
    rewrite Hni, Hfast. cbn [orb negb]. rewrite andb_false_r.
    assert (Htm : tablem m = true) by (unfold tablem; by rewrite Hf, E).
    unfold issueRequest. destruct (insertRequest_ok g cf n m (Z.to_nat (c_ThreadID m)) now s0) as (s1 & -> & Hlen & Hcnt & Hrest & Hs1 & Hat);
      [apply Hi0|apply Hi0|lia|lia|by apply line_msg|by apply (tables_free n now s0 m M)|].
    cbn [mbind option_bind]. rewrite enqueue_ok by done. cbn [mbind option_bind]. eexists. split; [done|]. pose proof Hrest as (H1 & H2 & H3 & H4).
    split_and!; [|cbn; congruence|cbn; congruence]. apply (seq_inv_same n now s1); [done| |].
    + cbn. rewrite H1, H2. apply Hi0.
    + apply (table_added n now s0 s1 m M (Z.to_nat (c_ThreadID m))); try done. lia.
Qed.

Lemma isReady_ok n now s m M :
  seq_inv n now s M -> lineok (c_Address m) -> (tablem m = true -> c_Address m ∉ table_lines M) -> is_Some (isReady g cf m s).
Proof using Type.
  intros Hi Hline Hnew. unfold isReady. destruct (_ <=? _); [by eexists|].
  fold (fence m). destruct (fence m) eqn:Hf; [by eexists|]. destruct (skips cf (c_Type m) (c_Space m)) eqn:E; [by eexists|].
  rewrite (line_msg m Hline). cbn [mbind option_bind].
  assert (Hall : forallb (fun t => negb (map_exist t (c_Address m))) (m_writeRequestTable s ++ m_readRequestTable s) = true).
  { apply forallb_forall. intros t Ht. apply list_elem_of_In in Ht. apply negb_true_iff, map_exist_false.
    assert (Htm : tablem m = true) by (unfold tablem; by rewrite Hf, E).
    pose proof (tables_free n now s m M Hi (Hnew Htm)) as Hfree.
    apply elem_of_app in Ht as [[th Hth]%list_elem_of_lookup|[th Hth]%list_elem_of_lookup].
    - specialize (Hfree true th). unfold at_table in Hfree. cbn in Hfree. by rewrite Hth in Hfree.
    - specialize (Hfree false th). unfold at_table in Hfree. cbn in Hfree. by rewrite Hth in Hfree. }
  rewrite Hall. by eexists.
Qed.
End messages.
