(* ===== verification/RubyPortSafe.v ===== *)
(** The way to Ruby loses and duplicates no access: the invariant of a core, of its registers, its
    sequencer and the messages at the L1 controller, and what each of the moves of [RubyPort] does to it. *)
From S2P Require Import Prelude Vector Config Address DataBlock Replacement CacheMemory Tables TagArray RccMsg RubyMshr Sequencer RubyPort RubyMshrSafe SequencerSafe.

(** ** Blocks *)
Section blocks.
Variable g : Globals.
Hypothesis (Hwf : config_wf g).

Lemma block_address_spec a :
  is_u64 a -> block_address g a = a `div` 2 ^ g_DATA_BLOCK_BITS g * 2 ^ g_DATA_BLOCK_BITS g.
Proof using Hwf.
  intros Ha. pose proof (block_bits g Hwf) as Hb. rewrite <-land_high_mask by (done || lia).
  unfold block_address. f_equal. rewrite (wf_block g Hwf), Z.sub_1_r, <-Z.ones_equiv. unfold not64.
  apply Z.bits_inj'. intros i Hi. rewrite Z.lxor_spec, testbit_u64, Z.shiftl_spec, !testbit_ones64 by lia.
  destruct (decide (i < g_DATA_BLOCK_BITS g)) as [Hlt|Hge].
  - rewrite Z.ones_spec_low, Z.testbit_neg_r by lia. rewrite (bool_decide_eq_true_2 (i < 64)) by lia. done.
  - rewrite Z.ones_spec_high by lia. cbn. destruct (decide (i < 64)).
    + rewrite testbit_ones64 by lia. by rewrite !bool_decide_eq_true_2 by lia.
    + by rewrite (bool_decide_eq_false_2 (i < 64)) by lia.
Qed.
Lemma block_line a : is_u64 a -> line_ok g (block_address g a).
Proof using Hwf.
  intros Ha. rewrite block_address_spec by done. destruct (block_aligned g Hwf a Ha) as [Hu Hal]. split; [done|].
  unfold is_line. rewrite line_address_spec, Hal by done. apply Z.eqb_refl.
Qed.
Lemma block_fits a size : is_u64 a -> 0 < size <= g_DATA_BLOCK_BYTES g -> fits g (block_address g a) size.
Proof using Hwf.
  intros Ha Hs. pose proof (block_bits g Hwf). split_and!; [by apply block_line| |lia|lia].
  rewrite block_address_spec, (wf_block g Hwf) by done. apply Z.mod_mul. apply Z.pow_nonzero; lia.
Qed.
End blocks.

(** ** The invariant of a core *)
Section port.
Context {C : Type} `{L1Tags C}.
Variables (g : Globals) (DATA_BLOCK XACT_MEMORY : bool) (rc : ruby_config) (entries threshold latency : Z).
Context `{!L1TagsLaws C (line_ok g)}.
Hypothesis (Hwf : config_wf g) (Hbits : 0 < g_DATA_BLOCK_BITS g) (Hlat : 0 < latency)
  (Hacks : m_no_write_acks rc = false) (Hmax : 1 <= m_max_merged rc).
Implicit Types (k : core C) (f : mem_fetch) (ids : dynamic_ids) (m : CacheMsg) (n : nat) (now : Z).
Abbreviation cf := (initialize_sequencer entries threshold latency true rc).

(** A fetch of a global or local access of a warp, within its line; line 0 is kept for fences. *)
Record fetch_ok n f : Prop := {
  fo_membar : f_is_membar f = false;
  fo_addr : is_u64 (f_addr f);
  fo_block : block_of g f <> 0;
  fo_size : 0 < f_data_size f <= g_DATA_BLOCK_BYTES g;
  fo_pc : f_pc f <> -1;
  fo_space : is_Some (f_space f);
  fo_wid : 0 <= f_wid f < Z.of_nat n }.
Record membar_ok n f : Prop := {
  mo_membar : f_is_membar f = true;
  mo_addr : f_addr f = 0;
  mo_size : f_data_size f = 0;
  mo_pc : f_pc f <> -1;
  mo_wid : 0 <= f_wid f < Z.of_nat n }.

(** A fetch whose answer does not come through the registers. *)
Definition passing f : bool := bypass rc f || negb (merged rc f).
Definition passing_ids (L : list (nat * mem_fetch)) : list Z := (fun p => Z.of_nat p.1) <$> filter (fun p => passing p.2 = true) L.

Record core_inv n now k : Prop := {
  ki_seq : seq_inv g cf n now (k_seq k) (s_mandatory (k_seq k));
  ki_mshr : mshr_inv g rc (map_to_list (k_fetches k)) (k_mshr k)
    (table_lines cf (s_mandatory (k_seq k)) ++ m_callback_queue (s_driver (k_seq k)));
  ki_skip : skip_ids cf (s_mandatory (k_seq k)) ++ (m_skipL1_callback_queue (s_driver (k_seq k))).*2
    ≡ₚ passing_ids (map_to_list (k_fetches k));
  ki_live id f : k_fetches k !! id = Some f -> fetch_ok n f /\ (id < k_next k)%nat }.

Lemma request_msg_ok n f space ids memfetch :
  fetch_ok n f -> f_space f = Some space ->
  let m := request_msg (block_of g f) memfetch f space ids in
  msg_ok g n m /\ fence m = false /\ skipm cf m = passing f /\ tablem cf m = negb (passing f).
Proof using Hwf.
  intros [Hm Ha _ Hs _ _ Hw] Hsp m.
  assert (Htype : c_Type m = if f_isatomic f then ATOMIC else if f_is_write f then ST else LD).
  { unfold m, request_msg, get_ruby_mem_type. cbn [c_Type]. rewrite Hm. by destruct (f_isatomic f), (f_is_write f). }
  assert (Hf : fence m = false).
  { unfold fence. rewrite Htype. apply bool_decide_eq_false_2. by destruct (f_isatomic f), (f_is_write f). }
  assert (Hsk : skips cf (c_Type m) (c_Space m) = passing f).
  { unfold skips, passing, bypass, merged, modifies. rewrite Htype, Hsp. cbn.
    destruct space, (gmem_skip_L1D rc), (m_writes_stall_at_mshr rc), (f_isatomic f), (f_is_write f); done. }
  split_and!; [|done|unfold skipm; by rewrite Hf, Hsk|unfold tablem; by rewrite Hf, Hsk].
  unfold msg_ok. rewrite Htype. split_and!.
  - destruct (f_isatomic f), (f_is_write f); auto.
  - apply Hw.
  - apply Hw.
  - by apply block_line.
  - intros _. by apply block_fits.
Qed.

Lemma passing_ids_cons id f L : passing_ids ((id, f) :: L) = if passing f then Z.of_nat id :: passing_ids L else passing_ids L.
Proof using Type. unfold passing_ids. rewrite filter_cons. cbn. by destruct (passing f). Qed.
Lemma passing_ids_perm L L' : L ≡ₚ L' -> passing_ids L ≡ₚ passing_ids L'.
Proof using Type. intros Hp. unfold passing_ids. by rewrite Hp. Qed.
Lemma in_passing_ids L z : z ∈ passing_ids L <-> exists id f, z = Z.of_nat id /\ (id, f) ∈ L /\ passing f = true.
Proof using Type.
  unfold passing_ids. rewrite list_elem_of_fmap. split.
  - intros ([id f] & -> & [? ?]%list_elem_of_filter). eauto.
  - intros (id & f & -> & Hin & Hp). exists (id, f). split; [done|]. by apply list_elem_of_filter.
Qed.
Lemma merged_passing f : bypass rc f = false -> passing f = negb (merged rc f).
Proof using Type. unfold passing. by intros ->. Qed.

(** ** Accesses *)
Lemma in_pend n now k b :
  core_inv n now k -> b ∈ table_lines cf (s_mandatory (k_seq k)) -> waiting rc (at_block g rc (map_to_list (k_fetches k)) b) <> [].
Proof using Type. intros Hi Hb. apply (mi_pend _ _ _ _ _ (ki_mshr _ _ _ Hi)). rewrite !elem_of_app. auto. Qed.
Lemma no_entry_no_pend n now k f :
  core_inv n now k -> probe (block_of g f) (k_mshr k) = false -> block_of g f ∉ table_lines cf (s_mandatory (k_seq k)).
Proof using Type.
  intros Hi Hp Hin. apply (in_pend n now k _ Hi) in Hin. unfold probe in Hp. apply bool_decide_eq_false in Hp.
  destruct Hp. apply (mi_some _ _ _ _ _ (ki_mshr _ _ _ Hi)). intros Hn. by rewrite Hn in Hin.
Qed.

Lemma ruby_isReady_ok n now k f space ids :
  core_inv n now k -> fetch_ok n f -> f_space f = Some space ->
  (passing f = false -> block_of g f ∉ table_lines cf (s_mandatory (k_seq k))) -> is_Some (ruby_isReady g cf f space ids k).
Proof using Hwf.
  intros Hi Hf Hsp Hnew. destruct (request_msg_ok n f space ids 0 Hf Hsp) as (Hok & _ & _ & Htm).
  unfold ruby_isReady. fold (block_of g f).
  apply (isReady_ok g cf n now (k_seq k) _ (s_mandatory (k_seq k))); [apply Hi|apply Hok|].
  rewrite Htm. intros Hp. apply Hnew. by destruct (passing f).
Qed.

Lemma is_ready_ok n now k f ids :
  core_inv n now k -> fetch_ok n f ->
  exists ready stall, is_ready g rc cf f ids k = Some (ready, stall) /\
    (ready = true -> stall = NO_RUBY_STALL /\ (bypass rc f = false -> room g rc f (k_mshr k))).
Proof using Hwf.
  intros Hi Hf. destruct (fo_space _ _ Hf) as [space Hsp]. unfold is_ready, get_ruby_mem_space. rewrite Hsp. cbn [mbind option_bind].
  rewrite (fo_membar _ _ Hf), (proj2 (Z.leb_le _ _)) by apply Hf.
  assert (Hy : gmem_skip_L1D rc && bool_decide (space = ruby_global_space) = bypass rc f).
  { unfold bypass. rewrite Hsp. f_equal. apply bool_decide_ext. naive_solver. }
  rewrite Hy. destruct (bypass rc f) eqn:Hyp.
  - destruct (ruby_isReady_ok n now k f space ids Hi Hf Hsp) as [b Hb]; [unfold passing; by rewrite Hyp|]. rewrite Hb. cbn [mbind option_bind].
    eexists _, _. split; [done|]. by intros ->.
  - fold (block_of g f). destruct (probe (block_of g f) (k_mshr k)) eqn:Hp.
    + assert (Hal : is_Some (access_allowed rc (block_of g f) (modifies f) f (k_mshr k))).
      { unfold probe in Hp. apply bool_decide_eq_true in Hp as [e He]. unfold access_allowed. rewrite He. cbn.
        repeat (case_match || destruct (_ && _)); by eexists. }
      destruct Hal as [reason Hr]. rewrite Hr. cbn [mbind option_bind].
      eexists _, _. split; [done|]. intros Hready. apply andb_true_iff in Hready as [Hfull Hreason].
      split; [by rewrite Hfull, Hreason|]. intros _. apply negb_true_iff in Hfull. destruct reason; try done.
      by apply (allowed_room g rc _ _ _ f (ki_mshr _ _ _ Hi)).
    + destruct (ruby_isReady_ok n now k f space ids Hi Hf Hsp) as [b Hb]; [intros _; by apply (no_entry_no_pend n now)|].
      rewrite Hb. cbn [mbind option_bind]. eexists _, _. split; [done|]. intros Hready. rewrite Hready. split; [done|]. intros _.
      apply andb_true_iff in Hready as [_ Hfull]. apply negb_true_iff in Hfull. by apply miss_room.
Qed.

(** A fresh fetch and its message. *)
Lemma fresh_skip n now k : core_inv n now k -> Z.of_nat (k_next k) ∉ skip_ids cf (s_mandatory (k_seq k)).
Proof using Type.
  intros Hi Hin. assert (Hp : Z.of_nat (k_next k) ∈ passing_ids (map_to_list (k_fetches k)))
    by (rewrite <-(ki_skip _ _ _ Hi); apply elem_of_app; by left).
  apply in_passing_ids in Hp as (id & f & Heq & Hl & _). apply elem_of_map_to_list in Hl.
  destruct (ki_live _ _ _ Hi _ _ Hl). lia.
Qed.
Lemma ruby_send_request_ok n now k s f space ids id :
  seq_inv g cf n now s (s_mandatory s) -> fetch_ok n f -> f_space f = Some space ->
  (if passing f then Z.of_nat id ∉ skip_ids cf (s_mandatory s) else block_of g f ∉ table_lines cf (s_mandatory s)) ->
  let m := request_msg (block_of g f) (Z.of_nat id) f space ids in
  exists s', ruby_send_request g DATA_BLOCK XACT_MEMORY cf id f space ids now (with_seq s k) = Some (with_seq s' k) /\
    seq_inv g cf n now s' (s_mandatory s') /\ s_driver s' = s_driver s /\ s_mandatory s' = s_mandatory s ++ [m].
Proof using All.
  intros Hi Hf Hsp Hnew m. destruct (request_msg_ok n f space ids (Z.of_nat id) Hf Hsp) as (Hok & Hfe & Hsk & Htm).
  fold m in Hok, Hfe, Hsk, Htm. unfold ruby_send_request. fold (block_of g f). fold m.
  rewrite (proj2 (Z.eqb_neq _ _)) by apply Hf. cbn [negb].
  destruct (makeRequest_ok g DATA_BLOCK XACT_MEMORY cf Hwf Hbits eq_refl Hlat Hacks n now s m _ Hi Hok Hfe) as (s' & Hs' & Hi' & Hd & Hm);
    [by rewrite Hsk; destruct (passing f)|].
  cbn [k_seq with_seq]. rewrite Hs'. cbn [mbind option_bind]. exists s'. split_and!; [done| |done..].
  rewrite Hm. apply (seq_inv_perm g cf n now s' (m :: s_mandatory s)); [solve_Permutation|done].
Qed.

Lemma core_added n now k f t s :
  core_inv n now k -> fetch_ok n f -> seq_inv g cf n now s (s_mandatory s) ->
  mshr_inv g rc ((k_next k, f) :: map_to_list (k_fetches k)) t (table_lines cf (s_mandatory s) ++ m_callback_queue (s_driver s)) ->
  skip_ids cf (s_mandatory s) ++ (m_skipL1_callback_queue (s_driver s)).*2 ≡ₚ
    passing_ids ((k_next k, f) :: map_to_list (k_fetches k)) ->
  core_inv n now (mkCore t s (<[k_next k := f]> (k_fetches k)) (S (k_next k))).
Proof using Type.
  intros [_ _ _ Hl] Hf Hs Hm Hp.
  assert (Hnone : k_fetches k !! k_next k = None).
  { destruct (k_fetches k !! k_next k) as [x|] eqn:E; [|done]. destruct (Hl _ _ E). lia. }
  pose proof (map_to_list_insert (k_fetches k) (k_next k) f Hnone) as Hperm. split; cbn [k_seq k_mshr k_fetches k_next].
  - done.
  - by apply (mshr_inv_perm g rc ((k_next k, f) :: map_to_list (k_fetches k)) _ t (table_lines cf (s_mandatory s) ++ m_callback_queue (s_driver s))).
  - by rewrite Hp, (passing_ids_perm _ _ Hperm).
  - intros id x Hx. apply lookup_insert_Some in Hx as [[<- <-]|[_ Hx]]; [split; [done|lia]|]. destruct (Hl _ _ Hx). split; [done|lia].
Qed.

Lemma skip_ids_app m M : skip_ids cf (M ++ [m]) ≡ₚ if skipm cf m then c_memfetch m :: skip_ids cf M else skip_ids cf M.
Proof using Type.
  rewrite <-skip_ids_cons. unfold skip_ids. apply fmap_Permutation. by rewrite <-Permutation_cons_append.
Qed.
Lemma table_lines_app m M : table_lines cf (M ++ [m]) ≡ₚ if tablem cf m then c_Address m :: table_lines cf M else table_lines cf M.
Proof using Type.
  rewrite <-table_lines_cons. unfold table_lines. apply fmap_Permutation. by rewrite <-Permutation_cons_append.
Qed.

Lemma send_request_ok n now k f ids :
  core_inv n now k -> fetch_ok n f -> (bypass rc f = false -> room g rc f (k_mshr k)) ->
  let k1 := mkCore (k_mshr k) (k_seq k) (<[k_next k := f]> (k_fetches k)) (S (k_next k)) in
  exists sent t s, send_request g DATA_BLOCK XACT_MEMORY rc cf (k_next k) f ids now k1 =
      Some (sent, mkCore t s (<[k_next k := f]> (k_fetches k)) (S (k_next k))) /\
    core_inv n now (mkCore t s (<[k_next k := f]> (k_fetches k)) (S (k_next k))).
Proof using All.
  intros Hi Hf Hroom k1. destruct (fo_space _ _ Hf) as [space Hsp]. pose proof (fo_pc _ _ Hf) as Hpc.
  pose proof (request_msg_ok n f space ids (Z.of_nat (k_next k)) Hf Hsp) as (_ & _ & Hsk & Htm).
  set (m := request_msg (block_of g f) (Z.of_nat (k_next k)) f space ids) in *.
  set (L := map_to_list (k_fetches k)). set (M := s_mandatory (k_seq k)). set (d := s_driver (k_seq k)).
  assert (Hsent : (passing f = false -> block_of g f ∉ table_lines cf M) ->
    exists s, ruby_send_request g DATA_BLOCK XACT_MEMORY cf (k_next k) f space ids now k1 = Some (with_seq s k1) /\
      seq_inv g cf n now s (s_mandatory s) /\ s_driver s = d /\ s_mandatory s = M ++ [m]).
  { intros Hnew. apply (ruby_send_request_ok n now k1 (k_seq k) f space ids (k_next k)); [apply Hi|done|done|].
    destruct (passing f); [by apply fresh_skip with n now|auto]. }
  unfold send_request, get_ruby_mem_space. rewrite Hsp. rewrite (proj2 (Z.leb_le _ _)) by apply Hf.
  rewrite (proj2 (Z.eqb_neq _ _) Hpc). cbn [negb mbind option_bind]. rewrite (fo_membar _ _ Hf).
  assert (Hy : gmem_skip_L1D rc && bool_decide (space = ruby_global_space) = bypass rc f).
  { unfold bypass. rewrite Hsp. f_equal. apply bool_decide_ext. naive_solver. }
  rewrite Hy. destruct (bypass rc f) eqn:Hyp.
  { assert (Hpass : passing f = true) by (unfold passing; by rewrite Hyp).
    destruct Hsent as (s & -> & Hs & Hd & Hm); [by rewrite Hpass|]. cbn [mbind option_bind].
    eexists true, (k_mshr k), s. split; [done|]. apply core_added; [done..| |].
    - apply bypass_inv; [done|]. eapply mshr_inv_perm; [done| |apply Hi]. by rewrite Hd, Hm, table_lines_app, Htm, Hpass.
    - rewrite Hd, Hm, skip_ids_app, Hsk, passing_ids_cons, Hpass. apply perm_skip, Hi. }
  fold (block_of g f).
  assert (Hcond : modifies f && negb (m_writes_stall_at_mshr rc) = negb (merged rc f))
    by (unfold merged; by destruct (modifies f), (m_writes_stall_at_mshr rc)).
  rewrite Hcond. pose proof (merged_passing f Hyp) as Hpass.
  destruct (add_ok g rc L _ _ (k_next k) f (ki_mshr _ _ _ Hi) Hyp Hmax (Hroom eq_refl)) as (t & Hadd & Ht).
  destruct (merged rc f) eqn:Hmg; cbn [negb andb] in *.
  - change (k_mshr k1) with (k_mshr k). rewrite (do_access_ok g rc L _ _ f (ki_mshr _ _ _ Hi) Hmg). cbn [mbind option_bind].
    case_bool_decide as Hw.
    + destruct Hsent as (s & -> & Hs & Hd & Hm).
      { intros _ Hin. by apply (in_pend n now k _ Hi) in Hin. }
      cbn [mbind option_bind]. change (k_mshr (with_seq s k1)) with (k_mshr k). rewrite Hadd. cbn [mbind option_bind].
      eexists true, t, s. split; [done|]. apply core_added; [done..| |].
      * eapply mshr_inv_perm; [done| |exact Ht]. by rewrite Hd, Hm, table_lines_app, Htm, Hpass.
      * rewrite Hd, Hm, skip_ids_app, Hsk, passing_ids_cons, Hpass. apply Hi.
    + cbn [mbind option_bind]. change (k_mshr k1) with (k_mshr k). rewrite Hadd. cbn [mbind option_bind].
      eexists false, t, (k_seq k). split; [done|]. apply core_added; [done|done|apply Hi|exact Ht|].
      rewrite passing_ids_cons, Hpass. apply Hi.
  - rewrite Hacks. cbn [negb]. destruct Hsent as (s & -> & Hs & Hd & Hm); [by rewrite Hpass|]. cbn [mbind option_bind].
    change (k_mshr (with_seq s k1)) with (k_mshr k). rewrite Hadd. cbn [mbind option_bind].
    eexists true, t, s. split; [done|]. apply core_added; [done..| |].
    + eapply mshr_inv_perm; [done| |exact Ht]. by rewrite Hd, Hm, table_lines_app, Htm, Hpass.
    + rewrite Hd, Hm, skip_ids_app, Hsk, passing_ids_cons, Hpass. apply perm_skip, Hi.
Qed.

Lemma memory_access_ok n now k f ids :
  core_inv n now k -> fetch_ok n f ->
  exists r k', memory_access g DATA_BLOCK XACT_MEMORY rc cf f ids now k = Some (r, k') /\ core_inv n now k' /\
    match r with
    | Some (id, _) => id = k_next k /\ k_next k' = S id /\ k_fetches k' = <[id := f]> (k_fetches k)
    | None => k' = k
    end.
Proof using All.
  intros Hi Hf. unfold memory_access. destruct (is_ready_ok n now k f ids Hi Hf) as (ready & stall & -> & Hready). cbn [mbind option_bind].
  destruct ready; [|by eexists None, k]. destruct (Hready eq_refl) as [-> Hroom]. rewrite bool_decide_eq_true_2 by done.
  destruct (send_request_ok n now k f ids Hi Hf Hroom) as (sent & t & s & -> & Hi'). cbn [mbind option_bind].
  by eexists (Some (k_next k, sent)), _.
Qed.

(** ** Fences *)
Lemma membar_msg_ok n f space ids memfetch :
  membar_ok n f -> let m := request_msg (block_address g (f_addr f)) memfetch f space ids in
  msg_ok g n m /\ c_Type m = MEM_FENCE /\ c_Address m = 0.
Proof using Hwf.
  intros [Hm Ha Hs _ Hw] m.
  assert (Htype : c_Type m = MEM_FENCE) by (unfold m, request_msg, get_ruby_mem_type; cbn [c_Type]; by rewrite Hm).
  assert (Haddr : c_Address m = 0) by (unfold m, request_msg; cbn [c_Address]; by rewrite Ha).
  split_and!; [|done..]. unfold msg_ok, fence. rewrite Htype, Haddr. split_and!; [auto|apply Hw|apply Hw| |done].
  change 0 with (block_address g 0). by apply block_line.
Qed.

Lemma core_seq n now k s :
  core_inv n now k -> seq_inv g cf n now s (s_mandatory s) ->
  table_lines cf (s_mandatory s) ++ m_callback_queue (s_driver s) ≡ₚ
    table_lines cf (s_mandatory (k_seq k)) ++ m_callback_queue (s_driver (k_seq k)) ->
  skip_ids cf (s_mandatory s) ++ (m_skipL1_callback_queue (s_driver s)).*2 ≡ₚ
    skip_ids cf (s_mandatory (k_seq k)) ++ (m_skipL1_callback_queue (s_driver (k_seq k))).*2 ->
  core_inv n now (with_seq s k).
Proof using Type.
  intros [_ Hm Hp Hl] Hs Ht Hsk. split; [done| |by rewrite <-Hp|done]. by eapply mshr_inv_perm.
Qed.
Lemma app_fence_ids m M : fence m = true -> skip_ids cf (M ++ [m]) ≡ₚ skip_ids cf M /\ table_lines cf (M ++ [m]) ≡ₚ table_lines cf M.
Proof using Type. intros Hf. rewrite skip_ids_app, table_lines_app. unfold skipm, tablem. by rewrite Hf. Qed.

Lemma membar_cycle_ok n now k f ids :
  core_inv n now k -> membar_ok n f ->
  exists r k', membar_cycle g DATA_BLOCK XACT_MEMORY rc cf f ids now k = Some (r, k') /\ core_inv n now k' /\
    k_fetches k' = k_fetches k /\ k_next k' = k_next k /\ (k' = k \/ k' = with_seq (k_seq k') k).
Proof using All.
  intros Hi Hf. assert (Hsp : exists space, get_ruby_mem_space f = Some space).
  { unfold get_ruby_mem_space. destruct (f_space f); [by eexists|]. rewrite (mo_membar _ _ Hf). by eexists. }
  destruct Hsp as [space Hsp]. unfold membar_cycle, is_ready. rewrite Hsp. cbn [mbind option_bind]. rewrite (mo_membar _ _ Hf).
  destruct (membar_msg_ok n f space ids 0 Hf) as (Hok & Htype & Haddr). set (m := request_msg _ 0 f space ids) in *.
  assert (Hfe : fence m = true) by (unfold fence; by rewrite Htype).
  destruct (isReady_ok g cf n now (k_seq k) m (s_mandatory (k_seq k))) as [b Hb]; [apply Hi|apply Hok| |].
  { unfold tablem. by rewrite Hfe. }
  unfold ruby_isReady. fold m. rewrite Hb. cbn [mbind option_bind]. destruct b; [|eexists false, k; split_and!; auto].
  rewrite bool_decide_eq_true_2 by done. unfold send_request. rewrite (proj2 (Z.leb_le _ _)) by (rewrite (mo_size _ _ Hf), (wf_block g Hwf); apply Z.pow_nonneg; lia).
  pose proof (mo_pc _ _ Hf) as Hpc. rewrite (proj2 (Z.eqb_neq _ _) Hpc), Hsp. cbn [negb mbind option_bind]. rewrite (mo_membar _ _ Hf).
  unfold ruby_send_memfence_request. fold m. rewrite Haddr. unfold makeMemfenceRequest. rewrite Htype. rewrite !bool_decide_eq_true_2 by done. cbn [Z.eqb].
  rewrite (enqueue_ok g cf Hlat) by apply Hok. cbn [mbind option_bind]. eexists true, _. split; [done|].
  destruct (app_fence_ids m (s_mandatory (k_seq k)) Hfe) as [H1 H2]. split_and!; [|done|done|by right]. apply core_seq; [done| |cbn; by rewrite H2|cbn; by rewrite H1].
  apply (seq_inv_same g cf n now (k_seq k)); [done|apply (sv_caches _ _ _ _ _ _ (ki_seq _ _ _ Hi))|].
  apply (seq_inv_perm g cf n now _ (m :: s_mandatory (k_seq k))); [cbn; solve_Permutation|]. by apply fence_added; [apply Hi|..].
Qed.

(** ** The L1 controller *)
Lemma told_same m d : m_memfence_callback_queue (told cf m d) = m_memfence_callback_queue d ++ (if fence m then [c_ThreadID m] else []) /\
  m_callback_queue (told cf m d) = m_callback_queue d ++ (if tablem cf m then [c_Address m] else []) /\
  m_skipL1_callback_queue (told cf m d) = m_skipL1_callback_queue d ++ (if skipm cf m then [(c_Address m, c_memfetch m)] else []).
Proof using Type.
  unfold told, tablem, skipm, driver_hitCallback, driver_memfenceCallback.
  destruct (fence m); [by rewrite !app_nil_r|]. destruct (skips cf (c_Type m) (c_Space m)); by rewrite !app_nil_r.
Qed.

Lemma answer_ok n now s m M :
  seq_inv g cf n now s (m :: M) ->
  exists s', answer g DATA_BLOCK XACT_MEMORY cf m now s = Some s' /\ seq_inv g cf n now s' M /\ s_mandatory s' = s_mandatory s /\
    s_driver s' = told cf m (s_driver s).
Proof using All.
  intros Hi. unfold answer. fold (fence m). destruct (fence m) eqn:Hf.
  - eexists. split; [done|]. split_and!; [|done|unfold told; by rewrite Hf]. apply (seq_inv_same g cf n now s); [done|apply Hi|].
    by apply (fence_removed g cf n now s m).
  - destruct (skips cf (c_Type m) (c_Space m)) eqn:E.
    + apply (skipCallback_ok g DATA_BLOCK XACT_MEMORY cf Hwf Hbits eq_refl Hlat Hacks n now s m M Hi). unfold skipm. by rewrite Hf, E.
    + apply (tableCallback_ok g DATA_BLOCK XACT_MEMORY cf Hwf Hbits eq_refl Hlat Hacks n now s m M Hi). unfold tablem. by rewrite Hf, E.
Qed.

Lemma l1_answer_ok n now k i :
  core_inv n now k -> (i < length (s_mandatory (k_seq k)))%nat ->
  exists m k', l1_answer g DATA_BLOCK XACT_MEMORY cf i now k = Some k' /\ core_inv n now k' /\
    k_fetches k' = k_fetches k /\ k_next k' = k_next k /\ s_mandatory (k_seq k') = delete i (s_mandatory (k_seq k)) /\
    s_driver (k_seq k') = told cf m (s_driver (k_seq k)).
Proof using All.
  intros Hi Hlt. unfold l1_answer. destruct (lookup_lt_is_Some_2 _ _ Hlt) as [m Hm]. rewrite Hm. cbn [mbind option_bind].
  set (M := delete i (s_mandatory (k_seq k))). pose proof (delete_Permutation _ _ _ Hm) as Hperm. fold M in Hperm.
  assert (Hi1 : seq_inv g cf n now (with_mandatory M (k_seq k)) (m :: M)).
  { apply (seq_inv_same g cf n now (k_seq k)); [done|apply (sv_caches _ _ _ _ _ _ (ki_seq _ _ _ Hi))|].
    apply (seq_inv_perm g cf n now _ (s_mandatory (k_seq k))); [done|apply Hi]. }
  destruct (answer_ok n now _ m M Hi1) as (s' & -> & Hs' & Hman & Hd). cbn [mbind option_bind]. exists m. eexists. split; [done|].
  split_and!; [|done..]. cbn [with_mandatory s_mandatory s_driver] in Hman, Hd.
  destruct (told_same m (s_driver (k_seq k))) as (_ & Hcb & Hsk). apply core_seq; [done|by rewrite Hman|..].
  - rewrite Hman, Hd, Hcb. assert (Ht : table_lines cf (s_mandatory (k_seq k)) ≡ₚ table_lines cf (m :: M))
      by (unfold table_lines; by rewrite <-Hperm).
    rewrite Ht, table_lines_cons. destruct (tablem cf m); [cbn; solve_Permutation|by rewrite app_nil_r].
  - rewrite Hman, Hd, Hsk. assert (Ht : skip_ids cf (s_mandatory (k_seq k)) ≡ₚ skip_ids cf (m :: M))
      by (unfold skip_ids; by rewrite <-Hperm).
    rewrite Ht, skip_ids_cons. destruct (skipm cf m); [rewrite fmap_app; cbn; solve_Permutation|by rewrite app_nil_r].
Qed.

(** ** Answers to the core *)
Lemma core_removed n now k t s id f :
  core_inv n now k -> k_fetches k !! id = Some f -> seq_inv g cf n now s (s_mandatory s) ->
  mshr_inv g rc (map_to_list (delete id (k_fetches k))) t (table_lines cf (s_mandatory s) ++ m_callback_queue (s_driver s)) ->
  skip_ids cf (s_mandatory s) ++ (m_skipL1_callback_queue (s_driver s)).*2 ≡ₚ passing_ids (map_to_list (delete id (k_fetches k))) ->
  core_inv n now (mkCore t s (delete id (k_fetches k)) (k_next k)).
Proof using Type.
  intros [_ _ _ Hl] Hf Hs Hm Hp. split; cbn [k_seq k_mshr k_fetches k_next]; try done.
  intros i x [_ Hx]%lookup_delete_Some. by apply Hl.
Qed.
Lemma live_perm k id f : k_fetches k !! id = Some f -> map_to_list (k_fetches k) ≡ₚ (id, f) :: map_to_list (delete id (k_fetches k)).
Proof using Type. intros Hf. symmetry. by apply map_to_list_delete. Qed.

Lemma mshr_writeback_ok n now k :
  core_inv n now k ->
  exists r k', mshr_writeback rc k = Some (r, k') /\ core_inv n now k' /\ k_seq k' = k_seq k /\
    match r with
    | Some id => is_Some (k_fetches k !! id) /\ k_fetches k' = delete id (k_fetches k) /\ k_next k' = k_next k
    | None => k' = k /\ m_current_response (k_mshr k) = []
    end.
Proof using Type.
  intros Hi. unfold mshr_writeback. destruct (access_ready (k_mshr k)) eqn:Hready.
  - destruct (next_access_ok g rc _ _ _ (fun id => k_fetches k !! id) (ki_mshr _ _ _ Hi) Hready) as (id & f & L' & t & HL & Hmg & Hy & Hna & Ht).
    { intros id f Hin. by apply elem_of_map_to_list in Hin. }
    rewrite Hna. cbn [mbind option_bind].
    assert (Hf : k_fetches k !! id = Some f) by (apply elem_of_map_to_list; rewrite HL; left).
    pose proof (live_perm k id f Hf) as Hperm. rewrite HL in Hperm. apply Permutation_cons_inv in Hperm.
    eexists (Some id), _. split; [done|]. split_and!; [|done|by eexists|done|done].
    apply (core_removed n now k t (k_seq k) id f); [done|done|apply Hi|by eapply mshr_inv_perm|].
    rewrite (ki_skip _ _ _ Hi), (passing_ids_perm _ _ HL), passing_ids_cons, (merged_passing f Hy), Hmg. cbn [negb].
    by apply passing_ids_perm.
  - eexists None, k. split_and!; try done. unfold access_ready in Hready. by destruct (m_current_response (k_mshr k)).
Qed.

Lemma skip_writeback_ok n now k :
  core_inv n now k ->
  exists r k', skip_writeback g rc k = Some (r, k') /\ core_inv n now k' /\
    match r with
    | Some id => is_Some (k_fetches k !! id) /\ k_fetches k' = delete id (k_fetches k) /\ k_next k' = k_next k /\
        k_seq k' = with_driver (pop_skipL1 (s_driver (k_seq k))) (k_seq k)
    | None => k' = k /\ m_skipL1_callback_queue (s_driver (k_seq k)) = []
    end.
Proof using Hacks.
  intros Hi. unfold skip_writeback. destruct (m_skipL1_callback_queue (s_driver (k_seq k))) as [|[a z] q] eqn:Hq; [by eexists None, k|].
  assert (Hz : z ∈ passing_ids (map_to_list (k_fetches k))).
  { rewrite <-(ki_skip _ _ _ Hi), Hq. apply elem_of_app. right. cbn. left. }
  apply in_passing_ids in Hz as (id & f & -> & Hin & Hpass). apply elem_of_map_to_list in Hin as Hf. rewrite Nat2Z.id, Hf. cbn [mbind option_bind].
  rewrite Hacks, andb_false_r. cbn [negb]. fold (bypass rc f).
  pose proof (live_perm k id f Hf) as Hperm. set (L' := map_to_list (delete id (k_fetches k))) in *.
  set (s := with_driver (pop_skipL1 (s_driver (k_seq k))) (k_seq k)).
  assert (Hs : seq_inv g cf n now s (s_mandatory s)).
  { apply (seq_inv_same g cf n now (k_seq k)); [done|apply (sv_caches _ _ _ _ _ _ (ki_seq _ _ _ Hi))|apply Hi]. }
  assert (Hskip : skip_ids cf (s_mandatory s) ++ (m_skipL1_callback_queue (s_driver s)).*2 ≡ₚ passing_ids L').
  { pose proof (ki_skip _ _ _ Hi) as H1. rewrite (passing_ids_perm _ _ Hperm), passing_ids_cons, Hpass, Hq in H1. cbn in H1.
    cbn. rewrite Hq. cbn. apply (Permutation_cons_inv (a := Z.of_nat id)). rewrite <-H1. solve_Permutation. }
  assert (Hm : mshr_inv g rc ((id, f) :: L') (k_mshr k) (table_lines cf (s_mandatory s) ++ m_callback_queue (s_driver s))).
  { eapply mshr_inv_perm; [exact Hperm|done|apply Hi]. }
  assert (Hdone : forall t, mshr_inv g rc L' t (table_lines cf (s_mandatory s) ++ m_callback_queue (s_driver s)) ->
    core_inv n now (delete_fetch id (with_mshr t (with_seq s k)))).
  { intros t Ht. by apply (core_removed n now k t s id f). }
  unfold passing in Hpass. destruct (bypass rc f) eqn:Hy.
  - cbn [mbind option_bind]. eexists (Some id), _. split; [done|]. split; [apply (Hdone (k_mshr k)); by apply bypass_inv in Hm|].
    split; [by eexists|done].
  - cbn [orb] in Hpass. unfold merged in Hpass. apply negb_true_iff, orb_false_iff in Hpass as [HS Hmod]. apply negb_false_iff in Hmod.
    rewrite HS, Hmod. cbn [negb]. unfold mshr_mark_skipped_write_done. fold (block_of g f). cbn [k_mshr with_seq].
    destruct (mark_done_ok g rc L' _ _ id f Hm Hy HS Hmod) as (t & -> & Ht). cbn [mbind option_bind].
    eexists (Some id), _. split; [done|]. split; [by apply Hdone|]. split; [by eexists|done].
Qed.

Lemma memfence_writeback_ok n now k :
  core_inv n now k -> core_inv n now (memfence_writeback k).2 /\
    k_fetches (memfence_writeback k).2 = k_fetches k /\ k_next (memfence_writeback k).2 = k_next k.
Proof using Type.
  intros Hi. unfold memfence_writeback. destruct (m_memfence_callback_queue _); [done|]. cbn. split; [|done].
  apply core_seq; [done| |done|done].
  apply (seq_inv_same g cf n now (k_seq k)); [done|apply (sv_caches _ _ _ _ _ _ (ki_seq _ _ _ Hi))|apply Hi].
Qed.

Lemma advance_core_ok n now k :
  core_inv n now k -> exists k', advance_core k = Some k' /\ core_inv n now k' /\ k_fetches k' = k_fetches k /\ k_next k' = k_next k /\
    s_mandatory (k_seq k') = s_mandatory (k_seq k) /\ s_driver (k_seq k') = pop_callback (s_driver (k_seq k)).
Proof using Type.
  intros Hi. unfold advance_core. destruct (m_callback_queue (s_driver (k_seq k))) as [|a q] eqn:Hq.
  { exists k. split_and!; try done. unfold pop_callback. rewrite Hq. cbn. rewrite <-Hq. by destruct (s_driver (k_seq k)). }
  assert (Hm : mshr_inv g rc (map_to_list (k_fetches k)) (k_mshr k) (a :: table_lines cf (s_mandatory (k_seq k)) ++ q)).
  { eapply mshr_inv_perm; [done| |apply Hi]. rewrite Hq. solve_Permutation. }
  destruct (mark_ready_ok g rc _ _ _ a Hm) as (t & -> & Ht). cbn [mbind option_bind]. eexists. split; [done|].
  split_and!; try done. split; cbn [k_seq k_mshr k_fetches k_next].
  - apply (seq_inv_same g cf n now (k_seq k)); [done|apply (sv_caches _ _ _ _ _ _ (ki_seq _ _ _ Hi))|apply Hi].
  - cbn. by rewrite Hq.
  - apply Hi.
  - apply Hi.
Qed.
Lemma seq_inv_later n now now' s M : now <= now' -> seq_inv g cf n now s M -> seq_inv g cf n now' s M.
Proof using Type.
  intros Hle [? ? Hat ? Hs ? ? ? ? ?]. split; try done.
  - intros wr th a r Hr. destruct (Hat _ _ _ _ Hr) as (? & ? & ? & ? & ? & ?). split_and!; try done. lia.
  - intros id r Hr. destruct (Hs _ _ Hr) as (? & ? & ? & ?). split_and!; try done. lia.
Qed.
Lemma core_inv_later n now now' k : now <= now' -> core_inv n now k -> core_inv n now' k.
Proof using Type. intros Hle [Hs ? ? ?]. split; try done. by apply (seq_inv_later n now). Qed.

(** The wakeup only fails on a request that waited too long. *)
Definition all_young now k : Prop :=
  forallb (young cf now) (m_readRequestTable (k_seq k) ++ m_writeRequestTable (k_seq k) ++ [m_skipL1RequestTable (k_seq k)]) = true.
Lemma seq_wakeup_ok n now k :
  core_inv n now k -> all_young now k -> exists s, seq_wakeup cf now (k_seq k) = Some s /\ core_inv n now (with_seq s k).
Proof using Type.
  intros Hi Hy. unfold seq_wakeup. unfold all_young in Hy. rewrite Hy, (check_counted _ (sv_count _ _ _ _ _ _ (ki_seq _ _ _ Hi))).
  destruct (0 <? m_outstanding_count (k_seq k)); (eexists; split; [done|]); (apply core_seq; [done| |done|done]);
    (apply (seq_inv_same g cf n now (k_seq k)); [done|apply (sv_caches _ _ _ _ _ _ (ki_seq _ _ _ Hi))|apply Hi]).
Qed.
End port.
