(* ===== verification/RubyL1.v ===== *)
(** The set-associative cache of [CacheMemory] is the L1 cache the sequencer asks: its operations under
    the sequencer's interface, and the laws of the interface. *)
From S2P Require Import Prelude Vector Config Address DataBlock Replacement CacheMemory TagArray RccMsg Sequencer.

Section instance.
Context {P : Type} `{ReplacementPolicy P} {D : Type} `{Default D}.
Variables (g : Globals) (DATA_BLOCK XACT_MEMORY : bool).
Implicit Types (c : CacheMemory P D).

(** The block of a hit: the data the pointer that [tryCacheAccess] sets leads to. *)
Definition data_ptr c (at_way : option (Z * Z)) : list Z :=
  match p ← at_way; entry_at c p.1 p.2 with Some e => e_DataBlk e | None => [] end.
#[export] Instance CacheMemory_L1Tags : L1Tags (CacheMemory P D) := {|
  l1_isTagPresent := isTagPresent g;
  l1_setMRU := setMRU g;
  l1_tryCacheAccess c a type now :=
    '(hit, at_way, c) ← tryCacheAccess g c a type now; Some (hit, data_ptr c at_way, c);
|}.

Lemma tryCacheAccess_total c a type now :
  cache_inv g c -> line_ok g a ->
  exists hit at_way c', tryCacheAccess g c a type now = Some (hit, at_way, c') /\ cache_inv g c'.
Proof using Type.
  intros Hc Ha. pose proof (inv_geom g c Hc) as Hg. destruct (addressToCacheSet_spec g c a Hg Ha) as [Hs _].
  destruct (findTagInSet_spec g c a Hg Ha) as (r & Hr & Hcase). unfold tryCacheAccess.
  rewrite (proj2 Ha), Hs; cbn [mbind option_bind]. rewrite Hr; cbn [mbind option_bind].
  destruct Hcase as [[-> _]|(j & e & -> & Hj)]; [by eexists _, _, _|].
  rewrite (proj2 (Z.eqb_neq _ _)) by lia. cbn [negb]. rewrite (entry_at_way g c a j e Hg Ha Hj); cbn [mbind option_bind].
  assert (Hlt : Z.of_nat j < m_cache_assoc c).
  { destruct Hj as (Hj & _). destruct (row_of g c a Hg Ha) as (row & _ & _ & Hlen & Hway).
    rewrite Hway in Hj. apply lookup_lt_Some in Hj. lia. }
  destruct (touch_way_spec g c a j now Hc Ha Hlt) as (c' & -> & Hc' & _). cbn [mbind option_bind].
  repeat case_decide; by eexists _, _, c'.
Qed.

#[export] Program Instance CacheMemory_L1Laws : L1TagsLaws (CacheMemory P D) (line_ok g) := {| l1_ok := cache_inv g |}.
Next Obligation. intros c a Hc Ha. cbn. rewrite isTagPresent_lookup by done. by eexists. Qed.
Next Obligation.
  intros c a now Hc Ha Hp. cbn in *. rewrite isTagPresent_lookup in Hp by done. injection Hp as [e He]%bool_decide_eq_true.
  destruct (setMRU_law g DATA_BLOCK XACT_MEMORY c a now e Hc Ha He) as (c' & Hs & Hw & _). by exists c'.
Qed.
Next Obligation.
  intros c a type now Hc Ha. cbn. destruct (tryCacheAccess_total c a type now Hc Ha) as (hit & w & c' & -> & Hc').
  by eexists _, _, _.
Qed.
End instance.
