(* ===== verification/RubyRuns.v ===== *)
(** The runs of the way to Ruby: in every order of the moves of the cores, of Ruby's clock and of the
    L1 controllers no assertion fails, every access is given back at most once, and all of them are
    once the controllers have answered. *)
From S2P Require Import Prelude Vector Config Address DataBlock Replacement CacheMemory Tables TagArray RccMsg RubyMshr Sequencer RubyPort RubyMshrSafe SequencerSafe RubyPortSafe RubyL1.

(** ** Sums *)
Lemma sum_insert_lt {A} (f : A -> nat) (l : list A) c k k' :
  l !! c = Some k -> (f k' < f k)%nat -> (sum_list_with f (<[c := k']> l) < sum_list_with f l)%nat.
Proof.
  revert c. induction l as [|x l IH]; intros [|c] Hk Hlt; try done; cbn in *.
  - injection Hk as ->. lia.
  - apply Nat.add_lt_mono_l. by apply IH.
Qed.
Lemma sum_pointwise_lt {A} (f : A -> nat) (l l' : list A) c k k' :
  Forall2 (fun a b => f b <= f a)%nat l l' -> l !! c = Some k -> l' !! c = Some k' -> (f k' < f k)%nat ->
  (sum_list_with f l' < sum_list_with f l)%nat.
Proof.
  intros Hl. revert c. induction Hl as [|a b l l' Hab Hl IH]; intros [|c] Hk Hk' Hlt; try done; cbn in *.
  - injection Hk as ->. injection Hk' as ->.
    assert (Hle : (sum_list_with f l' <= sum_list_with f l)%nat) by (clear -Hl; induction Hl; cbn; lia). lia.
  - specialize (IH c Hk Hk' Hlt). lia.
Qed.

Section runs.
Context {C : Type} `{L1Tags C}.
Variables (g : Globals) (DATA_BLOCK XACT_MEMORY : bool) (rc : ruby_config) (entries threshold latency : Z) (n : nat).
Context `{!L1TagsLaws C (line_ok g)}.
Implicit Types (w : wrapper (C := C)) (k : core C) (m : move) (evs : list event) (c : nat).
Abbreviation cf := (initialize_sequencer entries threshold latency true rc).
Abbreviation step := (apply g DATA_BLOCK XACT_MEMORY rc cf).

(** What the cores and the controllers may do: access memory within a line of a space Ruby handles,
    answer a message that is there, check for requests that wait too long when there is none. *)
Definition legal w m : Prop :=
  match m with
  | Access c f _ _ => is_Some (w_cores w !! c) /\ fetch_ok g n f
  | Membar c f _ _ => is_Some (w_cores w !! c) /\ membar_ok n f
  | Answer c i => exists k, w_cores w !! c = Some k /\ (i < length (s_mandatory (k_seq k)))%nat
  | Advance => True
  | Mshr_writeback c | Skip_writeback c | Memfence_writeback c => is_Some (w_cores w !! c)
  | Wakeup c => exists k, w_cores w !! c = Some k /\ all_young rc entries threshold latency (w_now w) k
  end.

Inductive run : wrapper -> list event -> Prop :=
  | run_start caches : Forall (fun x : C * C => l1_ok x.1 /\ l1_ok x.2) caches -> run (wrapper_new n caches) []
  | run_step w evs m e w' : run w evs -> legal w m -> step m w = Some (e, w') -> run w' (evs ++ e).

Definition taken_ids c evs : list nat := omap (fun e => match e with Taken c' id _ _ => if decide (c' = c) then Some id else None | _ => None end) evs.
Definition returned_ids c evs : list nat := omap (fun e => match e with Returned c' id => if decide (c' = c) then Some id else None | _ => None end) evs.
Definition live_ids k : list nat := (map_to_list (k_fetches k)).*1.

(** The books of a core: its invariant, and that what it took is what it gave back and what is under way. *)
Record books w evs : Prop := {
  bk_core c k : w_cores w !! c = Some k ->
    core_inv g rc entries threshold latency n (w_now w) k /\
    taken_ids c evs ≡ₚ returned_ids c evs ++ live_ids k /\ NoDup (taken_ids c evs) /\
    Forall (fun id => (id < k_next k)%nat) (taken_ids c evs) }.

Hypothesis (Hwf : config_wf g) (Hbits : 0 < g_DATA_BLOCK_BITS g) (Hlat : 0 < latency)
  (Hacks : m_no_write_acks rc = false) (Hmax : 1 <= m_max_merged rc) (Hentries : 0 <= m_num_entries rc).

Lemma core_inv_new now (x : C * C) : l1_ok x.1 /\ l1_ok x.2 ->
  core_inv g rc entries threshold latency n now (mkCore mshr_new (Sequencer_new n x.1 x.2) ∅ 0).
Proof using Hentries.
  intros Hc. split; cbn [k_mshr k_seq k_fetches k_next].
  - split; cbn.
    + by split; cbn; rewrite length_replicate.
    + unfold counted, total_outstanding, table_total. cbn [Sequencer_new m_outstanding_count m_writeRequestTable m_readRequestTable m_skipL1RequestTable].
      rewrite fmap_replicate.
      assert (Ht : total (replicate n (map_size (∅ : gmap Z Request))) = 0) by (change (map_size (∅ : gmap Z Request)) with 0; induction n as [|j IH]; [done|unfold total in *; cbn [replicate foldr]; lia]).
      rewrite Ht. done.
    + intros wr th a r. unfold at_table, tables_of, Sequencer_new. cbn. destruct wr; cbn;
        (destruct (replicate n (∅ : gmap Z Request) !! th) as [t|] eqn:E; [|done]);
        apply lookup_replicate in E as [-> _]; done.
    + intros m Hm. by apply elem_of_nil in Hm.
    + done.
    + intros m Hm. by apply elem_of_nil in Hm.
    + constructor.
    + constructor.
    + constructor.
    + done.
  - rewrite map_to_list_empty. split; cbn; try done.
    + intros b. by split; [intros [? ?]|].
    + constructor.
    + intros b. split; [by intros ?%elem_of_nil|done].
  - rewrite map_to_list_empty. done.
  - done.
Qed.

(** ** The moves *)
Lemma taken_app c evs e : taken_ids c (evs ++ e) = taken_ids c evs ++ taken_ids c e.
Proof using Type. apply omap_app. Qed.
Lemma returned_app c evs e : returned_ids c (evs ++ e) = returned_ids c evs ++ returned_ids c e.
Proof using Type. apply omap_app. Qed.
Definition event_core (e : event) : nat := match e with Taken c _ _ _ => c | Returned c _ => c end.
Lemma other_core c e : Forall (fun x => event_core x <> c) e -> taken_ids c e = [] /\ returned_ids c e = [].
Proof using Type.
  induction 1 as [|x e Hx _ [IH1 IH2]]; [done|]. unfold taken_ids, returned_ids in *. cbn. destruct x; cbn in Hx; by rewrite ?decide_False.
Qed.

Lemma on_core_ok {A} c (f : core C -> option (A * core C)) w k x k' :
  w_cores w !! c = Some k -> f k = Some (x, k') ->
  on_core c f w = Some (x, mkWrapper (<[c := k']> (w_cores w)) (dynamic_request_id w) (w_now w)).
Proof using Type. intros Hk Hf. unfold on_core. rewrite Hk. cbn [mbind option_bind]. by rewrite Hf. Qed.

Lemma books_on w evs c k k' e rid :
  books w evs -> w_cores w !! c = Some k -> core_inv g rc entries threshold latency n (w_now w) k' ->
  Forall (fun x => event_core x = c) e ->
  taken_ids c (evs ++ e) ≡ₚ returned_ids c (evs ++ e) ++ live_ids k' -> NoDup (taken_ids c (evs ++ e)) ->
  Forall (fun id => (id < k_next k')%nat) (taken_ids c (evs ++ e)) ->
  books (mkWrapper (<[c := k']> (w_cores w)) rid (w_now w)) (evs ++ e).
Proof using Type.
  intros [Hb] Hk Hk' He Hp Hn Hlt. split. intros c' x. cbn [w_cores w_now]. intros [(<- & <- & _)|[Hne Hx]]%list_lookup_insert_Some; [done|].
  destruct (other_core c' e) as [H1 H2]; [eapply Forall_impl; [exact He|]; cbn; congruence|].
  rewrite taken_app, returned_app, H1, H2, !app_nil_r. by apply Hb.
Qed.
(** A move after which the core has the same fetches. *)
Lemma books_same w evs c k k' rid :
  books w evs -> w_cores w !! c = Some k -> core_inv g rc entries threshold latency n (w_now w) k' ->
  k_fetches k' = k_fetches k -> k_next k' = k_next k ->
  books (mkWrapper (<[c := k']> (w_cores w)) rid (w_now w)) (evs ++ []).
Proof using Type.
  intros Hb Hk Hk' Hf Hn. destruct (bk_core _ _ Hb c k Hk) as (_ & Hp & Hnd & Hlt).
  apply (books_on w evs c k k'); rewrite ?app_nil_r; try done; unfold live_ids; by rewrite ?Hf, ?Hn.
Qed.
(** A move that gives a fetch back, or nothing. *)
Definition back c (r : option nat) : list event := match r with Some id => [Returned c id] | None => [] end.
Lemma books_back w evs c k k' r rid :
  books w evs -> w_cores w !! c = Some k -> core_inv g rc entries threshold latency n (w_now w) k' -> k_next k' = k_next k ->
  match r with Some id => is_Some (k_fetches k !! id) /\ k_fetches k' = delete id (k_fetches k) | None => k_fetches k' = k_fetches k end ->
  books (mkWrapper (<[c := k']> (w_cores w)) rid (w_now w)) (evs ++ back c r).
Proof using Type.
  intros Hb Hk Hk' Hn Hr. destruct r as [id|]; [|by apply (books_same w evs c k k')].
  destruct (bk_core _ _ Hb c k Hk) as (_ & Hp & Hnd & Hlt). destruct Hr as [[f Hf] Hdel].
  assert (Htk : taken_ids c [Returned c id] = []) by done.
  assert (Hret : returned_ids c [Returned c id] = [id]) by (unfold returned_ids; cbn; by rewrite decide_True).
  apply (books_on w evs c k k'); try done; cbn [back]; rewrite ?taken_app, ?returned_app, ?Htk, ?Hret, ?app_nil_r; [by repeat constructor| |done|by rewrite Hn].
  rewrite Hp, <-(assoc_L (++)). f_equiv. unfold live_ids. rewrite Hdel, (live_perm k id f Hf). done.
Qed.

Lemma access_books w evs c k f ids :
  books w evs -> w_cores w !! c = Some k -> fetch_ok g n f ->
  exists r k', memory_access g DATA_BLOCK XACT_MEMORY rc cf f ids (w_now w) k = Some (r, k') /\
    let e := match r with Some (id, sent) => [Taken c id f sent] | None => [] end in
    forall rid, books (mkWrapper (<[c := k']> (w_cores w)) rid (w_now w)) (evs ++ e).
Proof using All.
  intros Hb Hk Hf. destruct (bk_core _ _ Hb c k Hk) as (Hi & Hp & Hnd & Hlt).
  destruct (memory_access_ok g DATA_BLOCK XACT_MEMORY rc entries threshold latency Hwf Hbits Hlat Hacks Hmax n (w_now w) k f ids Hi Hf)
    as (r & k' & Hacc & Hi' & Hr).
  exists r, k'. split; [done|]. intros e rid. destruct r as [[id sent]|]; [|subst k'; by apply (books_same w evs c k k)].
  destruct Hr as (-> & Hnext & Hfe).
  assert (Htk : taken_ids c e = [k_next k]) by (unfold taken_ids, e; cbn; by rewrite decide_True).
  assert (Hret : returned_ids c e = []) by done.
  assert (Hfresh : k_next k ∉ taken_ids c evs) by (intros Hin; rewrite Forall_forall in Hlt; specialize (Hlt _ Hin); lia).
  apply (books_on w evs c k k'); rewrite ?taken_app, ?returned_app, ?Htk, ?Hret, ?app_nil_r; try done.
  - by repeat constructor.
  - rewrite Hp. unfold live_ids. rewrite Hfe, map_to_list_insert; [cbn; solve_Permutation|].
    destruct (k_fetches k !! k_next k) as [x|] eqn:E; [|done]. destruct (ki_live _ _ _ _ _ _ _ _ Hi _ _ E). lia.
  - apply NoDup_app. split_and!; [done| |apply NoDup_singleton]. intros i Hin ->%list_elem_of_singleton. done.
  - apply Forall_app. split; [eapply Forall_impl; [exact Hlt|]; cbn; lia|]. constructor; [lia|constructor].
Qed.

Lemma back_books w evs c (f : core C -> option (option nat * core C)) k r k' :
  books w evs -> w_cores w !! c = Some k -> f k = Some (r, k') -> core_inv g rc entries threshold latency n (w_now w) k' ->
  match r with Some id => is_Some (k_fetches k !! id) /\ k_fetches k' = delete id (k_fetches k) /\ k_next k' = k_next k | None => k' = k end ->
  exists e w', ('(r, w) ← on_core c f w; Some (match r with Some id => [Returned c id] | None => [] end, w)) = Some (e, w') /\ books w' (evs ++ e).
Proof using Type.
  intros Hb Hk Hf Hi Hr. rewrite (on_core_ok c f w k r k' Hk Hf). cbn [mbind option_bind]. eexists _, _. split; [done|].
  apply (books_back w evs c k k' r); [done..| |]; destruct r; naive_solver.
Qed.
Lemma books_quiet w evs c (f : core C -> option (core C)) k k' :
  books w evs -> w_cores w !! c = Some k -> f k = Some k' -> core_inv g rc entries threshold latency n (w_now w) k' ->
  k_fetches k' = k_fetches k -> k_next k' = k_next k ->
  exists e w', ('(_, w) ← on_core c (fun k => unit_of (f k)) w; Some ([] : list event, w)) = Some (e, w') /\ books w' (evs ++ e).
Proof using Type.
  intros Hb Hk Hf Hi Hfe Hn. rewrite (on_core_ok c _ w k tt k' Hk) by (unfold unit_of; by rewrite Hf). cbn [mbind option_bind].
  eexists _, _. split; [done|]. by apply (books_same w evs c k k').
Qed.

Lemma advance_books w evs :
  books w evs -> exists cores, mapM advance_core (w_cores w) = Some cores /\ books (mkWrapper cores (dynamic_request_id w) (w_now w + 1)) (evs ++ []).
Proof using Type.
  intros Hb. assert (Hadv : forall c k, w_cores w !! c = Some k -> exists k', advance_core k = Some k' /\
    core_inv g rc entries threshold latency n (w_now w + 1) k' /\ k_fetches k' = k_fetches k /\ k_next k' = k_next k).
  { intros c k Hk. destruct (bk_core _ _ Hb c k Hk) as (Hi & _).
    destruct (advance_core_ok g rc entries threshold latency n (w_now w) k Hi) as (k' & ? & Hi' & ? & ? & _).
    exists k'. split_and!; try done. eapply core_inv_later; [|exact Hi']. lia. }
  destruct (proj2 (mapM_is_Some advance_core (w_cores w))) as [cores Hcores].
  { apply Forall_lookup. intros c k Hk. destruct (Hadv c k Hk) as (k' & Hk' & _). exists k'. exact Hk'. }
  exists cores. split; [done|]. apply mapM_Some in Hcores. split. intros c k' Hk'. cbn [w_cores w_now] in *.
  destruct (Forall2_lookup_r _ _ _ _ _ Hcores Hk') as (k & Hk & Ha). destruct (Hadv c k Hk) as (x & Hx & Hi & Hf & Hn).
  rewrite Ha in Hx. injection Hx as ->. destruct (bk_core _ _ Hb c k Hk) as (_ & Hp).
  rewrite app_nil_r. unfold live_ids in *. by rewrite Hf, Hn.
Qed.

Lemma ruby_step_ok w evs m : books w evs -> legal w m -> exists e w', step m w = Some (e, w') /\ books w' (evs ++ e).
Proof using All.
  intros Hb Hm. destruct m as [c f cta warp|c f cta warp|c i| |c|c|c|c]; cbn [apply legal] in *.
  - destruct Hm as [[k Hk] Hf]. destruct (access_books w evs c k f (mkIds (dynamic_request_id w) cta warp) Hb Hk Hf) as (r & k' & Hacc & Hb').
    rewrite (on_core_ok c _ w k r k' Hk Hacc). cbn [mbind option_bind]. destruct r as [[id sent]|]; (eexists _, _; split; [done|apply Hb']).
  - destruct Hm as [[k Hk] Hf]. destruct (bk_core _ _ Hb c k Hk) as (Hi & _).
    destruct (membar_cycle_ok g DATA_BLOCK XACT_MEMORY rc entries threshold latency Hwf Hbits Hlat Hacks Hmax n (w_now w) k f (mkIds (dynamic_request_id w) cta warp) Hi Hf)
      as (r & k' & Hmb & Hi' & Hfe & Hn & _).
    rewrite (on_core_ok c _ w k r k' Hk Hmb). cbn [mbind option_bind]. eexists _, _. split; [done|].
    destruct r; by apply (books_same w evs c k k').
  - destruct Hm as (k & Hk & Hlt). destruct (bk_core _ _ Hb c k Hk) as (Hi & _).
    destruct (l1_answer_ok g DATA_BLOCK XACT_MEMORY rc entries threshold latency Hwf Hbits Hlat Hacks Hmax n (w_now w) k i Hi Hlt) as (x & k' & Hans & Hi' & Hfe & Hn & _).
    by apply (books_quiet w evs c _ k k').
  - destruct (advance_books w evs Hb) as (cores & Hc & Hb'). rewrite Hc. cbn [mbind option_bind]. by eexists _, _.
  - destruct Hm as [k Hk]. destruct (bk_core _ _ Hb c k Hk) as (Hi & _).
    destruct (mshr_writeback_ok g rc entries threshold latency n (w_now w) k Hi) as (r & k' & Hw & Hi' & _ & Hr).
    apply (back_books w evs c _ k r k'); try done. destruct r; naive_solver.
  - destruct Hm as [k Hk]. destruct (bk_core _ _ Hb c k Hk) as (Hi & _).
    destruct (skip_writeback_ok g rc entries threshold latency Hacks n (w_now w) k Hi) as (r & k' & Hw & Hi' & Hr).
    apply (back_books w evs c _ k r k'); try done. destruct r; naive_solver.
  - destruct Hm as [k Hk]. destruct (bk_core _ _ Hb c k Hk) as (Hi & _).
    destruct (memfence_writeback_ok g rc entries threshold latency n (w_now w) k Hi) as (Hi' & Hf & Hn).
    rewrite (on_core_ok c _ w k _ _ Hk (f_equal Some (surjective_pairing _))). cbn [mbind option_bind]. eexists _, _. split; [done|].
    by apply (books_same w evs c k).
  - destruct Hm as (k & Hk & Hy). destruct (bk_core _ _ Hb c k Hk) as (Hi & _).
    destruct (seq_wakeup_ok g rc entries threshold latency n (w_now w) k Hi Hy) as (s & Hs & Hi').
    apply (books_quiet w evs c (fun k => s ← seq_wakeup cf (w_now w) (k_seq k); Some (with_seq s k)) k (with_seq s k)); try done.
    by rewrite Hs.
Qed.

Lemma books_new caches : Forall (fun x : C * C => l1_ok x.1 /\ l1_ok x.2) caches -> books (wrapper_new n caches) [].
Proof using Hentries.
  intros Hc. split. intros c k Hk. cbn [w_cores w_now wrapper_new] in *. apply list_lookup_fmap_Some in Hk as (x & -> & Hx).
  split; [|done || (unfold live_ids; cbn [k_fetches]; rewrite map_to_list_empty; split_and!; [done|constructor|constructor])].
  apply core_inv_new. rewrite Forall_lookup in Hc. by apply (Hc c).
Qed.
Lemma run_books w evs : run w evs -> books w evs.
Proof using All.
  induction 1 as [caches Hc|w evs m e w' _ IH Hm Hs]; [by apply books_new|].
  destruct (ruby_step_ok w evs m IH Hm) as (e' & w'' & Hs' & Hb). congruence.
Qed.

(** ** Answers *)
(** The moves that bring an access nearer to its answer: they take a message, a callback or a response. *)
Definition useful w m : Prop :=
  match m with
  | Answer c i => exists k, w_cores w !! c = Some k /\ (i < length (s_mandatory (k_seq k)))%nat
  | Advance => exists c k, w_cores w !! c = Some k /\ m_callback_queue (s_driver (k_seq k)) <> []
  | Mshr_writeback c => exists k, w_cores w !! c = Some k /\ m_current_response (k_mshr k) <> []
  | Skip_writeback c => exists k, w_cores w !! c = Some k /\ m_skipL1_callback_queue (s_driver (k_seq k)) <> []
  | Memfence_writeback c => exists k, w_cores w !! c = Some k /\ m_memfence_callback_queue (s_driver (k_seq k)) <> []
  | Access _ _ _ _ | Membar _ _ _ _ | Wakeup _ => False
  end.
(** [settling j w e w']: [j] useful moves lead from [w] to [w']. *)
Inductive settling : nat -> wrapper -> list event -> wrapper -> Prop :=
  | settled w : settling 0 w [] w
  | settle j w m e w1 e' w2 : useful w m -> step m w = Some (e, w1) -> settling j w1 e' w2 -> settling (S j) w (e ++ e') w2.

Definition core_work k : nat :=
  3 * length (s_mandatory (k_seq k)) + 2 * length (m_callback_queue (s_driver (k_seq k))) +
  length (m_skipL1_callback_queue (s_driver (k_seq k))) + length (m_memfence_callback_queue (s_driver (k_seq k))) +
  size (k_fetches k).
Definition work w : nat := sum_list_with core_work (w_cores w).

Lemma useful_legal w m : useful w m -> legal w m.
Proof using Type. destruct m; cbn; naive_solver. Qed.

Lemma size_delete_lt k id : is_Some (k_fetches k !! id) -> (size (delete id (k_fetches k)) < size (k_fetches k))%nat.
Proof using Type.
  intros [f Hf]. rewrite <-(insert_delete_id (k_fetches k) id f Hf) at 2.
  rewrite map_size_insert_None by apply lookup_delete_eq. lia.
Qed.

Lemma told_work (m : CacheMsg) (d : GpusimInterface) :
  (2 * length (m_callback_queue (told cf m d)) + length (m_skipL1_callback_queue (told cf m d)) +
   length (m_memfence_callback_queue (told cf m d)) <=
   2 * length (m_callback_queue d) + length (m_skipL1_callback_queue d) + length (m_memfence_callback_queue d) + 2)%nat.
Proof using Type.
  destruct (told_same rc entries threshold latency m d) as (-> & -> & ->). rewrite !length_app. unfold tablem, skipm.
  destruct (fence m); [cbn; lia|]. destruct (skips _ _ _); cbn; lia.
Qed.

Lemma advance_work k k' : advance_core k = Some k' ->
  (core_work k' <= core_work k)%nat /\ (m_callback_queue (s_driver (k_seq k)) <> [] -> core_work k' < core_work k)%nat.
Proof using Type.
  unfold advance_core. destruct (m_callback_queue (s_driver (k_seq k))) as [|a q] eqn:Hq; [intros [= ->]; by split|].
  destruct (mark_ready a (k_mshr k)) as [t|]; [|done]. intros [= <-]. unfold core_work. cbn. rewrite Hq. cbn. split; [|intros _]; lia.
Qed.

Lemma on_core_work {A} c (f : core C -> option (A * core C)) w k x k' r w' :
  w_cores w !! c = Some k -> f k = Some (x, k') -> (core_work k' < core_work k)%nat ->
  on_core c f w = Some (r, w') -> r = x /\ (work w' < work w)%nat.
Proof using Type.
  intros Hk Hf Hlt Ho. rewrite (on_core_ok c f w k x k' Hk Hf) in Ho. injection Ho as <- <-. split; [done|].
  unfold work. by apply (sum_insert_lt core_work _ c k).
Qed.

Lemma useful_work w evs m e w' : books w evs -> useful w m -> step m w = Some (e, w') -> (work w' < work w)%nat.
Proof using All.
  intros Hb Hu Hs. destruct m as [c f cta warp|c f cta warp|c i| |c|c|c|c]; cbn [apply useful] in *; try done.
  - destruct Hu as (k & Hk & Hlt). destruct (bk_core _ _ Hb c k Hk) as (Hi & _).
    destruct (l1_answer_ok g DATA_BLOCK XACT_MEMORY rc entries threshold latency Hwf Hbits Hlat Hacks Hmax n (w_now w) k i Hi Hlt)
      as (x & k' & Hans & _ & Hfe & _ & Hman & Hd).
    destruct (on_core _ _ _) as [[r w1]|] eqn:Ho; [|done]. injection Hs as <- <-.
    eapply (on_core_work c _ w k tt k'); [done| | |exact Ho]; [unfold unit_of; by rewrite Hans|].
    pose proof (told_work x (s_driver (k_seq k))). unfold core_work. rewrite Hman, Hd, Hfe.
    rewrite length_delete by (by apply lookup_lt_is_Some_2). lia.
  - destruct Hu as (c & k & Hk & Hq). destruct (mapM advance_core (w_cores w)) as [cores|] eqn:Hm; [|done]. injection Hs as <- <-.
    apply mapM_Some in Hm. destruct (Forall2_lookup_l _ _ _ _ _ Hm Hk) as (k' & Hk' & Ha).
    apply (sum_pointwise_lt core_work _ _ c k k'); [|done..|by apply advance_work].
    eapply Forall2_impl; [exact Hm|]. intros a b Hab. by apply advance_work.
  - destruct Hu as (k & Hk & Hq). destruct (bk_core _ _ Hb c k Hk) as (Hi & _).
    destruct (mshr_writeback_ok g rc entries threshold latency n (w_now w) k Hi) as ([id|] & k' & Hw & _ & Hseq & Hr); [|by destruct Hr].
    destruct (on_core _ _ _) as [[r w1]|] eqn:Ho; [|done]. injection Hs as <- <-.
    eapply (on_core_work c _ w k _ k'); [done|exact Hw| |exact Ho]. destruct Hr as (Hf & Hdel & _).
    pose proof (size_delete_lt k id Hf). unfold core_work. rewrite Hseq, Hdel. lia.
  - destruct Hu as (k & Hk & Hq). destruct (bk_core _ _ Hb c k Hk) as (Hi & _).
    destruct (skip_writeback_ok g rc entries threshold latency Hacks n (w_now w) k Hi) as ([id|] & k' & Hw & _ & Hr); [|by destruct Hr].
    destruct (on_core _ _ _) as [[r w1]|] eqn:Ho; [|done]. injection Hs as <- <-.
    eapply (on_core_work c _ w k _ k'); [done|exact Hw| |exact Ho]. destruct Hr as (Hf & Hdel & _ & Hseq).
    pose proof (size_delete_lt k id Hf). unfold core_work. rewrite Hseq, Hdel. cbn [s_mandatory s_driver with_driver pop_skipL1 m_callback_queue m_skipL1_callback_queue m_memfence_callback_queue].
    destruct (m_skipL1_callback_queue (s_driver (k_seq k))); cbn [tail length]; lia.
  - destruct Hu as (k & Hk & Hq). destruct (on_core _ _ _) as [[r w1]|] eqn:Ho; [|done]. injection Hs as <- <-.
    eapply (on_core_work c _ w k _ _ _ _ Hk (f_equal Some (surjective_pairing _))); [|exact Ho].
    unfold memfence_writeback. destruct (m_memfence_callback_queue (s_driver (k_seq k))) eqn:E; [done|]. unfold core_work. cbn. rewrite E. cbn. lia.
Qed.

(** A core with nothing under way has given all its fetches back. *)
Lemma idle_core now k :
  core_inv g rc entries threshold latency n now k -> s_mandatory (k_seq k) = [] -> m_callback_queue (s_driver (k_seq k)) = [] ->
  m_skipL1_callback_queue (s_driver (k_seq k)) = [] -> m_current_response (k_mshr k) = [] -> k_fetches k = ∅.
Proof using Type.
  intros Hi Hm Hc Hs Hr. apply map_empty. intros id. destruct (k_fetches k !! id) as [f|] eqn:Hf; [exfalso|done].
  apply elem_of_map_to_list in Hf. destruct (passing rc f) eqn:Hp.
  - assert (Hin : Z.of_nat id ∈ passing_ids rc (map_to_list (k_fetches k))) by (apply in_passing_ids; by exists id, f).
    rewrite <-(ki_skip _ _ _ _ _ _ _ _ Hi), Hm, Hs in Hin. by apply elem_of_nil in Hin.
  - unfold passing in Hp. apply orb_false_iff in Hp as [Hy Hmg]. apply negb_false_iff in Hmg.
    assert (Hw : waiting rc (at_block g rc (map_to_list (k_fetches k)) (block_of g f)) <> []).
    { intros Hn. assert (Hin : (id, f) ∈ waiting rc (at_block g rc (map_to_list (k_fetches k)) (block_of g f)))
        by (apply list_elem_of_filter; split; [done|]; by apply list_elem_of_filter).
      rewrite Hn in Hin. by apply elem_of_nil in Hin. }
    apply (mi_pend _ _ _ _ _ (ki_mshr _ _ _ _ _ _ _ _ Hi)) in Hw. rewrite Hm, Hc, Hr in Hw. by apply elem_of_nil in Hw.
Qed.
Lemma idle_fetches w evs c k : books w evs -> (forall m, ~ useful w m) -> w_cores w !! c = Some k -> k_fetches k = ∅.
Proof using Type.
  intros Hb Hno Hk. destruct (bk_core _ _ Hb c k Hk) as (Hi & _). apply (idle_core (w_now w) k Hi).
  - destruct (s_mandatory (k_seq k)) as [|x l] eqn:E; [done|]. destruct (Hno (Answer c 0)). exists k. rewrite E. cbn. split; [done|lia].
  - apply dec_stable. intros Hne. destruct (Hno Advance). by exists c, k.
  - apply dec_stable. intros Hne. destruct (Hno (Skip_writeback c)). by exists k.
  - apply dec_stable. intros Hne. destruct (Hno (Mshr_writeback c)). by exists k.
Qed.
Lemma settling_books j w evs e w' :
  books w evs -> settling j w e w' -> books w' (evs ++ e) /\ (j + work w' <= work w)%nat.
Proof using All.
  intros Hb Hs. revert evs Hb. induction Hs as [w|j w m e w1 e' w2 Hu Hm Hs IH]; intros evs Hb.
  - rewrite app_nil_r. by split; [|lia].
  - destruct (ruby_step_ok w evs m Hb (useful_legal w m Hu)) as (x & w1' & Hm' & Hb1). rewrite Hm in Hm'. injection Hm' as <- <-.
    destruct (IH _ Hb1) as [Hb2 Hj]. rewrite (assoc_L (++)). split; [done|]. pose proof (useful_work w evs m e w1 Hb Hu Hm). lia.
Qed.

(** C11: the way to Ruby, in every order of the moves of the cores, of Ruby's clock and of the L1
    controllers, never fails an assertion of the registers, the sequencer or the wrapper, and at every
    time the accesses a core's load/store unit handed over are exactly those it was given back, each
    once, and those it still waits for: none is lost, none is answered twice. *)
Theorem ruby_port_safe w evs :
  run w evs ->
  (forall m, legal w m -> is_Some (step m w)) /\
  (forall c k, w_cores w !! c = Some k ->
    taken_ids c evs ≡ₚ returned_ids c evs ++ live_ids k /\ NoDup (taken_ids c evs)).
Proof using All.
  intros Hr. pose proof (run_books w evs Hr) as Hb. split.
  - intros m Hm. destruct (ruby_step_ok w evs m Hb Hm) as (e & w' & -> & _). by eexists.
  - intros c k Hk. by destruct (bk_core _ _ Hb c k Hk) as (_ & ? & ? & _).
Qed.

(** C12: every access handed to Ruby is answered. From every reachable state, however the controllers'
    answers, Ruby's clock and the write-backs of the cores are ordered, at most [work] of them can be made
    that take something, none of them fails, and once none is left every core has been given back
    all it handed over. *)
Theorem ruby_port_answers w evs j e w' :
  run w evs -> settling j w e w' ->
  (j <= work w)%nat /\ (forall m, useful w' m -> is_Some (step m w')) /\
  ((forall m, ~ useful w' m) -> forall c k, w_cores w' !! c = Some k ->
    k_fetches k = ∅ /\ returned_ids c (evs ++ e) ≡ₚ taken_ids c (evs ++ e)).
Proof using All.
  intros Hr Hs. destruct (settling_books j w evs e w' (run_books w evs Hr) Hs) as [Hb Hj]. split_and!; [lia| |].
  - intros m Hu. destruct (ruby_step_ok w' _ m Hb (useful_legal w' m Hu)) as (x & w2 & -> & _). by eexists.
  - intros Hno c k Hk. pose proof (idle_fetches w' _ c k Hb Hno Hk) as Hf. split; [done|].
    destruct (bk_core _ _ Hb c k Hk) as (_ & Hp & _). unfold live_ids in Hp. rewrite Hf, map_to_list_empty, app_nil_r in Hp. by symmetry.
Qed.
(** A load of a line that has an entry in the registers: it is taken, and nothing is asked of Ruby. *)
Lemma merge_ok k now f ids e :
  core_inv g rc entries threshold latency n now k -> fetch_ok g n f -> modifies f = false -> bypass rc f = false ->
  m_data (k_mshr k) !! block_of g f = Some e -> full rc (block_of g f) (k_mshr k) = false ->
  m_readset e <> ∅ -> m_writeset e !! f_wid f = None ->
  exists t, memory_access g DATA_BLOCK XACT_MEMORY rc cf f ids now k =
    Some (Some (k_next k, false), mkCore t (k_seq k) (<[k_next k := f]> (k_fetches k)) (S (k_next k))).
Proof using Hmax.
  intros Hi Hf Hmod Hby He Hfull Hreads Hwrites. destruct (fo_space _ _ _ Hf) as [space Hsp].
  assert (Hy : gmem_skip_L1D rc && bool_decide (space = ruby_global_space) = false).
  { rewrite <- Hby. unfold bypass. rewrite Hsp. f_equal. apply bool_decide_ext. naive_solver. }
  assert (Hw : f_is_write f = false /\ f_isatomic f = false) by (unfold modifies in Hmod; by destruct (f_is_write f), (f_isatomic f)).
  destruct Hw as [Hw Hat].
  assert (Hprobe : probe (block_of g f) (k_mshr k) = true) by (unfold probe; apply bool_decide_eq_true; by rewrite He).
  assert (Hal : access_allowed rc (block_of g f) (modifies f) f (k_mshr k) = Some ruby_no_stall).
  { unfold access_allowed. rewrite He. cbn [mbind option_bind]. rewrite Hwrites, Hmod, Hw, Hat. rewrite (bool_decide_eq_false_2 (is_Some None)) by (by intros [? ?]).
    rewrite andb_false_r. cbn [andb orb negb]. destruct (m_writes_stall_at_mshr rc), (m_atomics_stall_at_mshr rc), (m_reads_stall_at_pending_writes rc); done. }
  assert (Hready : is_ready g rc cf f ids k = Some (true, NO_RUBY_STALL)).
  { unfold is_ready, get_ruby_mem_space. rewrite Hsp. cbn [mbind option_bind]. rewrite (fo_membar _ _ _ Hf), (proj2 (Z.leb_le _ _)) by apply Hf.
    rewrite Hy. fold (block_of g f). rewrite Hprobe, Hal. cbn [mbind option_bind]. by rewrite Hfull. }
  destruct (add_ok g rc _ _ _ (k_next k) f (ki_mshr _ _ _ _ _ _ _ _ Hi) Hby Hmax
    (allowed_room g rc _ _ _ f (ki_mshr _ _ _ _ _ _ _ _ Hi) Hprobe Hfull Hal)) as (t & Hadd & _).
  exists t. unfold memory_access. rewrite Hready. cbn [mbind option_bind]. rewrite bool_decide_eq_true_2 by done.
  unfold send_request, get_ruby_mem_space. cbn [k_mshr k_seq k_fetches k_next]. rewrite Hsp. rewrite (proj2 (Z.leb_le _ _)) by apply Hf.
  rewrite (proj2 (Z.eqb_neq _ _) (fo_pc _ _ _ Hf)). cbn [negb mbind option_bind]. rewrite (fo_membar _ _ _ Hf), Hy, Hmod. cbn [andb].
  fold (block_of g f).
  assert (Hdo : do_access rc (block_of g f) false (k_mshr k) = Some false).
  { unfold do_access. rewrite Hprobe, He. destruct (m_writes_stall_at_mshr rc); [done|]. cbn [negb]. f_equal. apply bool_decide_eq_false_2.
    intros Hz. apply Hreads. by apply map_size_empty_iff. }
  cbn [k_mshr]. rewrite Hdo. cbn [mbind option_bind k_mshr]. rewrite Hmod in Hadd. by rewrite Hadd.
Qed.
(** A load whose warp has a store pending that came after a load of the line is not taken. *)
Lemma stall_ok k now f ids e :
  core_inv g rc entries threshold latency n now k -> fetch_ok g n f -> modifies f = false -> bypass rc f = false ->
  m_data (k_mshr k) !! block_of g f = Some e -> is_Some (m_writeset e !! f_wid f) ->
  m_writes_stall_at_mshr rc = false -> m_write_after_read e = true ->
  memory_access g DATA_BLOCK XACT_MEMORY rc cf f ids now k = Some (None, k).
Proof using Type.
  intros Hi Hf Hmod Hby He Hwrites Hst Hwar. destruct (fo_space _ _ _ Hf) as [space Hsp].
  assert (Hy : gmem_skip_L1D rc && bool_decide (space = ruby_global_space) = false).
  { rewrite <- Hby. unfold bypass. rewrite Hsp. f_equal. apply bool_decide_ext. naive_solver. }
  assert (Hprobe : probe (block_of g f) (k_mshr k) = true) by (unfold probe; apply bool_decide_eq_true; by rewrite He).
  unfold memory_access, is_ready, get_ruby_mem_space. rewrite Hsp. cbn [mbind option_bind]. rewrite (fo_membar _ _ _ Hf), (proj2 (Z.leb_le _ _)) by apply Hf.
  rewrite Hy. fold (block_of g f). rewrite Hprobe. unfold access_allowed. rewrite He. cbn [mbind option_bind].
  rewrite (bool_decide_eq_true_2 _ Hwrites), Hst, Hwar, Hmod. cbn [negb andb].
  destruct (m_single_write_per_warp rc); cbn [andb mbind option_bind]; by rewrite andb_false_r.
Qed.

End runs.

(** ** A concrete run *)
(** One core with two threads and the small L1 of [CacheMemory]: two loads of a block merge, a store
    of the second warp passes by, a fence waits behind them. *)
#[local] Instance run_unit_default : Default unit := tt.
#[local] Instance run_L1Tags : L1Tags (CacheMemory LastRef unit) := CacheMemory_L1Tags default_config.
#[local] Instance run_L1Laws : L1TagsLaws (CacheMemory LastRef unit) (line_ok default_config) :=
  CacheMemory_L1Laws default_config true false.
Definition demo_config : ruby_config := mkRubyConfig 4 4 false false false false false false.
Definition demo_load (wid : Z) : mem_fetch := mkFetch 0x208 4 wid 8 false false false (Some ruby_global_space).
Definition demo_store (wid : Z) : mem_fetch := mkFetch 0x20c 4 wid 16 true false false (Some ruby_global_space).
Definition demo_fence (wid : Z) : mem_fetch := mkFetch 0 0 wid 24 false false true None.
Definition demo_apply : move -> wrapper -> option (list event * wrapper (C := CacheMemory LastRef unit)) :=
  apply default_config true false demo_config (initialize_sequencer 16 1000 2 true demo_config).
Fixpoint play (ms : list move) w : option (list event * wrapper) :=
  match ms with
  | [] => Some ([], w)
  | m :: ms => '(e, w) ← demo_apply m w; '(e', w) ← play ms w; Some (e ++ e', w)
  end.
Definition demo_start : wrapper (C := CacheMemory LastRef unit) := wrapper_new 2 [(L1, L1_one)].
Definition demo_asks : list move :=
  [Access 0 (demo_load 0) 0 0; Access 0 (demo_load 1) 0 1; Access 0 (demo_store 1) 0 1; Membar 0 (demo_fence 1) 0 1].
Definition demo_answers : list move :=
  [Answer 0 1; Answer 0 0; Skip_writeback 0; Advance; Mshr_writeback 0; Answer 0 0; Mshr_writeback 0; Memfence_writeback 0].
Definition demo_after (ms : list move) w : wrapper := from_option snd w (play ms w).
Definition demo_events (ms : list move) w : list event := from_option fst [] (play ms w).
Definition demo_asked : wrapper := demo_after demo_asks demo_start.
Example demo_asked_events :
  demo_events demo_asks demo_start = [Taken 0 0 (demo_load 0) true; Taken 0 1 (demo_load 1) false; Taken 0 2 (demo_store 1) true].
Proof. vm_compute. reflexivity. Qed.
Example demo_answered_events : demo_events demo_answers demo_asked = [Returned 0 2; Returned 0 0; Returned 0 1].
Proof. vm_compute. reflexivity. Qed.

Abbreviation demo_run_ := (run default_config true false demo_config 16 1000 2 2).
Abbreviation demo_legal := (legal default_config demo_config 16 1000 2 2).
Fixpoint legal_all (ms : list move) w : Prop :=
  match ms with [] => True | m :: ms => demo_legal w m /\ legal_all ms (demo_after [m] w) end.
Lemma play_run ms w evs e w' : demo_run_ w evs -> legal_all ms w -> play ms w = Some (e, w') -> demo_run_ w' (evs ++ e).
Proof.
  revert w evs e. induction ms as [|m ms IH]; intros w evs e Hr Hl Hp.
  - injection Hp as <- <-. by rewrite app_nil_r.
  - destruct Hl as [Hm Hl]. cbn in Hp. unfold demo_after in Hl. cbn in Hl.
    destruct (demo_apply m w) as [[e1 w1]|] eqn:Ha; [|done]. cbn in *. destruct (play ms w1) as [[e2 w2]|] eqn:Hp2; [|done].
    injection Hp as <- <-. rewrite (assoc_L (++)). apply (IH w1); [|done..]. by apply (run_step _ _ _ _ _ _ _ _ w evs m e1 w1).
Qed.
Lemma play_defined ms w : match play ms w with Some _ => true | None => false end = true -> play ms w = Some (demo_events ms w, demo_after ms w).
Proof. unfold demo_events, demo_after. by destruct (play ms w) as [[e w']|]. Qed.
Lemma demo_run_start : demo_run_ demo_start [].
Proof.
  apply run_start, Forall_singleton. split; [apply L1_inv|apply L1_one_inv].
Qed.
Lemma demo_fetch_ok wid f : 0 <= wid < 2 -> f = demo_load wid \/ f = demo_store wid -> fetch_ok default_config 2 f.
Proof.
  intros Hw [-> | ->]; split; cbn; try done; try (by eexists); try lia; try (by vm_compute); split; vm_compute; congruence.
Qed.
Lemma demo_fence_ok : membar_ok 2 (demo_fence 1).
Proof. split; cbn; done || lia. Qed.
(** A fact of a core, computed. *)
Abbreviation demo_wrapper := (wrapper (C := CacheMemory LastRef unit)).
Lemma core_by (w : demo_wrapper) c (f : core (CacheMemory LastRef unit) -> bool) :
  match w_cores w !! c with Some k => f k | None => false end = true -> exists k, w_cores w !! c = Some k /\ f k = true.
Proof. destruct (w_cores w !! c) as [k|]; [|done]. by exists k. Qed.
Lemma core_there (w : demo_wrapper) c : match w_cores w !! c with Some _ => true | None => false end = true -> is_Some (w_cores w !! c).
Proof. intros H. destruct (core_by w c (fun _ => true) H) as (k & -> & _). by eexists. Qed.
Lemma useful_answer (w : demo_wrapper) c i :
  match w_cores w !! c with Some k => Nat.ltb i (length (s_mandatory (k_seq k))) | None => false end = true -> useful w (Answer c i).
Proof. intros H. apply (core_by w c (fun k => Nat.ltb i (length (s_mandatory (k_seq k))))) in H as (k & ? & Hi%Nat.ltb_lt). by exists k. Qed.
Definition filled {A} (l : list A) : bool := match l with [] => false | _ => true end.
Lemma filled_ne {A} (l : list A) : filled l = true -> l <> [].
Proof. by destruct l. Qed.

Lemma demo_run_asked : demo_run_ demo_asked (demo_events demo_asks demo_start).
Proof.
  rewrite <-(app_nil_l (demo_events demo_asks demo_start)).
  apply (play_run demo_asks demo_start [] (demo_events demo_asks demo_start) demo_asked);
    [apply demo_run_start| |apply play_defined; vm_compute; reflexivity].
  unfold demo_asks; cbn [legal_all legal]. split; [|split; [|split; [|split; [|done]]]]; (split; [apply core_there; vm_compute; reflexivity|]).
  - apply (demo_fetch_ok 0); [lia|by left].
  - apply (demo_fetch_ok 1); [lia|by left].
  - apply (demo_fetch_ok 1); [lia|by right].
  - apply demo_fence_ok.
Qed.

Abbreviation demo_settling := (settling default_config true false demo_config 16 1000 2).
Lemma settling_play j m w e w2 :
  useful w m -> demo_settling j (demo_after [m] w) e w2 -> match demo_apply m w with Some _ => true | None => false end = true ->
  demo_settling (S j) w (demo_events [m] w ++ e) w2.
Proof.
  intros Hu Hs Hm. unfold demo_after, demo_events in *. cbn in *. destruct (demo_apply m w) as [[e1 w1]|] eqn:Ha; [|done].
  cbn in *. rewrite app_nil_r. by apply (settle _ _ _ _ _ _ _ j w m e1 w1).
Qed.
Lemma useful_of (w : demo_wrapper) (c : nat) {A} (f : core (CacheMemory LastRef unit) -> list A) :
  match w_cores w !! c with Some k => filled (f k) | None => false end = true -> exists k, w_cores w !! c = Some k /\ f k <> [].
Proof. intros H. apply (core_by w c (fun k => filled (f k))) in H as (k & ? & Hi%filled_ne). by exists k. Qed.
Fixpoint demo_end (ms : list move) (w : demo_wrapper) : demo_wrapper :=
  match ms with [] => w | m :: ms => demo_end ms (demo_after [m] w) end.
Fixpoint demo_useful (ms : list move) (w : demo_wrapper) : Prop :=
  match ms with
  | [] => True
  | m :: ms => useful w m /\ match demo_apply m w with Some _ => true | None => false end = true /\ demo_useful ms (demo_after [m] w)
  end.
Lemma settling_end ms w : demo_useful ms w -> exists e, demo_settling (length ms) w e (demo_end ms w).
Proof.
  revert w. induction ms as [|m ms IH]; intros w Hu; [eexists; apply settled|].
  destruct Hu as (Hu & Hd & Hl). destruct (IH _ Hl) as [e He]. eexists. by apply settling_play.
Qed.
Definition demo_done : demo_wrapper := demo_end demo_answers demo_asked.
Lemma demo_settled : exists e, demo_settling 8 demo_asked e demo_done.
Proof.
  apply (settling_end demo_answers). cbn [demo_useful demo_answers].
  split_and!; try (vm_compute; reflexivity); try done; cbn [useful].
  - apply useful_answer. vm_compute; reflexivity.
  - apply useful_answer. vm_compute; reflexivity.
  - apply (useful_of _ 0 (fun k => m_skipL1_callback_queue (s_driver (k_seq k)))). vm_compute; reflexivity.
  - exists 0%nat. apply (useful_of _ 0 (fun k => m_callback_queue (s_driver (k_seq k)))). vm_compute; reflexivity.
  - apply (useful_of _ 0 (fun k => m_current_response (k_mshr k))). vm_compute; reflexivity.
  - apply useful_answer. vm_compute; reflexivity.
  - apply (useful_of _ 0 (fun k => m_current_response (k_mshr k))). vm_compute; reflexivity.
  - apply (useful_of _ 0 (fun k => m_memfence_callback_queue (s_driver (k_seq k)))). vm_compute; reflexivity.
Qed.
Definition idle (k : core (CacheMemory LastRef unit)) : bool :=
  negb (filled (s_mandatory (k_seq k)) || filled (m_callback_queue (s_driver (k_seq k))) || filled (m_current_response (k_mshr k)) ||
    filled (m_skipL1_callback_queue (s_driver (k_seq k))) || filled (m_memfence_callback_queue (s_driver (k_seq k)))).
Lemma idle_useless (w : demo_wrapper) m : forallb idle (w_cores w) = true -> ~ useful w m.
Proof.
  intros Hw Hu.
  assert (Hk : forall c k, w_cores w !! c = Some k -> s_mandatory (k_seq k) = [] /\ m_callback_queue (s_driver (k_seq k)) = [] /\
    m_current_response (k_mshr k) = [] /\ m_skipL1_callback_queue (s_driver (k_seq k)) = [] /\ m_memfence_callback_queue (s_driver (k_seq k)) = []).
  { intros c k Hk. rewrite forallb_forall in Hw. specialize (Hw k ltac:(apply list_elem_of_In; by eapply list_elem_of_lookup_2)).
    unfold idle in Hw. destruct (s_mandatory _), (m_callback_queue _), (m_current_response _), (m_skipL1_callback_queue _), (m_memfence_callback_queue _); done. }
  destruct m; cbn [useful] in Hu; try done; [| |destruct Hu as (k & H1 & H2); naive_solver..].
  - destruct Hu as (k & H1 & H2). destruct (Hk _ _ H1) as (E & _). rewrite E in H2. cbn in H2. lia.
  - destruct Hu as (c & k & H1 & H2). naive_solver.
Qed.

Lemma ruby_port_safe_witness :
  is_Some (demo_apply (Answer 0 0) demo_asked) /\ NoDup (taken_ids 0 (demo_events demo_asks demo_start)) /\
  taken_ids 0 (demo_events demo_asks demo_start) = [0; 1; 2]%nat.
Proof.
  destruct (ruby_port_safe default_config true false demo_config 16 1000 2 2 default_config_wf ltac:(vm_compute; reflexivity)
    ltac:(lia) eq_refl ltac:(vm_compute; congruence) ltac:(vm_compute; congruence) demo_asked _ demo_run_asked) as [Hm Hc].
  split; [|split; [|vm_compute; reflexivity]].
  - apply (Hm (Answer 0 0)). apply (useful_answer demo_asked 0 0). vm_compute. reflexivity.
  - destruct (core_there demo_asked 0) as [k Hk]; [vm_compute; reflexivity|]. apply (Hc 0%nat k Hk).
Defined.

Lemma ruby_port_answers_witness :
  (8 <= work demo_asked)%nat /\ exists k, w_cores demo_done !! 0%nat = Some k /\ k_fetches k = ∅.
Proof.
  destruct demo_settled as [e He].
  destruct (ruby_port_answers default_config true false demo_config 16 1000 2 2 default_config_wf ltac:(vm_compute; reflexivity)
    ltac:(lia) eq_refl ltac:(vm_compute; congruence) ltac:(vm_compute; congruence) demo_asked _ 8 e demo_done demo_run_asked He)
    as (Hj & _ & Hf).
  split; [exact Hj|]. destruct (core_there demo_done 0) as [k Hk]; [vm_compute; reflexivity|]. exists k. split; [exact Hk|].
  apply (Hf (fun m => idle_useless demo_done m ltac:(vm_compute; reflexivity)) 0%nat k Hk).
Defined.

(** A warp loads a line, another stores to it and is acknowledged; the load of that warp is merged with the
    load before. While the store is pending, its load is refused. *)
Definition demo_stored : list move := [Access 0 (demo_load 0) 0 0; Access 0 (demo_store 1) 0 1].
Definition demo_acknowledged : list move := demo_stored ++ [Answer 0 1; Skip_writeback 0].
Lemma demo_run_of ms :
  legal_all ms demo_start -> match play ms demo_start with Some _ => true | None => false end = true ->
  demo_run_ (demo_after ms demo_start) (demo_events ms demo_start).
Proof.
  intros Hl Hp. rewrite <-(app_nil_l (demo_events ms demo_start)). apply (play_run ms demo_start); [apply demo_run_start|exact Hl|by apply play_defined].
Qed.
Lemma demo_legal_acknowledged : legal_all demo_acknowledged demo_start.
Proof.
  unfold demo_acknowledged, demo_stored; cbn [legal_all legal app]. split; [|split; [|split; [|split; [|exact I]]]].
  - split; [apply core_there; vm_compute; reflexivity|]. apply (demo_fetch_ok 0); [lia|by left].
  - split; [apply core_there; vm_compute; reflexivity|]. apply (demo_fetch_ok 1); [lia|by right].
  - apply (useful_answer _ 0 1). vm_compute. reflexivity.
  - apply core_there. vm_compute. reflexivity.
Qed.
Lemma demo_legal_stored : legal_all demo_stored demo_start.
Proof. destruct demo_legal_acknowledged as [H1 [H2 _]]. exact (conj H1 (conj H2 I)). Qed.
Lemma demo_run_acknowledged : demo_run_ (demo_after demo_acknowledged demo_start) (demo_events demo_acknowledged demo_start).
Proof. apply demo_run_of; [apply demo_legal_acknowledged|vm_compute; reflexivity]. Qed.
Lemma demo_run_stored : demo_run_ (demo_after demo_stored demo_start) (demo_events demo_stored demo_start).
Proof. apply demo_run_of; [apply demo_legal_stored|vm_compute; reflexivity]. Qed.
Definition demo_entry (w : demo_wrapper) : option entry := k ← w_cores w !! 0%nat; m_data (k_mshr k) !! block_of default_config (demo_load 1).

