(* ===== verification/FifoPipeline.v ===== *)
(** The delayed queues between the parts of a memory partition: [fifo_pipeline] of
    [gpgpu-sim/delayqueue.h]. A queue with a minimal length holds empty cells that delay what is pushed. *)
From S2P Require Import Prelude.

(** A cell without data is a null pointer. [fp_length] counts the cells, as the code does. *)
Record fifo_pipeline (T : Type) := mkPipe {
  fp_min_len : Z; fp_max_len : Z; fp_length : Z; fp_n_element : Z; fp_cells : list (option T) }.
#[global] Arguments mkPipe {T}.
#[global] Arguments fp_min_len {T}.
#[global] Arguments fp_max_len {T}.
#[global] Arguments fp_length {T}.
#[global] Arguments fp_n_element {T}.
#[global] Arguments fp_cells {T}.

Section fifo.
Context {T : Type}.
Implicit Types (p : fifo_pipeline T) (data : option T).

Definition fifo_full p : bool := negb (fp_max_len p =? 0) && (fp_max_len p <=? fp_length p).
Definition fifo_empty p : bool := match fp_cells p with [] => true | _ => false end.
Definition fifo_top p : option T := match fp_cells p with [] => None | data :: _ => data end.
Definition uncount p : fifo_pipeline T :=
  mkPipe (fp_min_len p) (fp_max_len p) (fp_length p) (u32 (fp_n_element p - 1)) (fp_cells p).

(** The data go to a new cell, unless the last one is empty and there are enough. *)
Definition fifo_append data p : fifo_pipeline T :=
  mkPipe (fp_min_len p) (fp_max_len p) (u32 (fp_length p + 1)) (u32 (fp_n_element p + 1)) (fp_cells p ++ [data]).
Definition fifo_push data p : option (fifo_pipeline T) :=
  assert! fp_length p <? fp_max_len p;
  match last (fp_cells p) with
  | None => Some (fifo_append data p)
  | Some tail =>
      if bool_decide (is_Some tail) || (fp_length p <? fp_min_len p) then Some (fifo_append data p)
      else Some (mkPipe (fp_min_len p) (fp_max_len p) (fp_length p) (fp_n_element p) (removelast (fp_cells p) ++ [data]))
  end.
Fixpoint fifo_pad (n : nat) p : option (fifo_pipeline T) :=
  match n with O => Some p | S n => p ← fifo_push None p; fifo_pad n p end.
Definition fifo_pipeline_new (minlen maxlen : Z) : option (fifo_pipeline T) :=
  assert! negb (maxlen =? 0);
  fifo_pad (Z.to_nat minlen) (mkPipe minlen maxlen 0 0 []).

(** What is popped may be an empty cell. *)
Definition fifo_pop p : option (option T * fifo_pipeline T) :=
  match fp_cells p with
  | [] => Some (None, p)
  | data :: cells =>
      let p := mkPipe (fp_min_len p) (fp_max_len p) (u32 (fp_length p - 1)) (u32 (fp_n_element p - 1)) cells in
      assert! negb (fp_length p =? 0) || fifo_empty p;
      if negb (fp_min_len p =? 0) && (fp_length p <? fp_min_len p) then p ← fifo_push None p; Some (data, uncount p)
      else Some (data, p)
  end.

(** [set_min_length]: the loop that pads and the one that drops empty cells at the end. *)
Fixpoint fifo_grow (fuel : nat) p : option (fifo_pipeline T) :=
  if fp_length p <? fp_min_len p then
    match fuel with O => None | S fuel => p ← fifo_push None p; fifo_grow fuel (uncount p) end
  else Some p.
Fixpoint fifo_shrink (fuel : nat) p : option (fifo_pipeline T) :=
  if fp_min_len p <? fp_length p then
    match last (fp_cells p) with
    | Some None =>
        match fuel with
        | O => None
        | S fuel =>
            match fp_cells p with
            | [_] => '(_, p) ← fifo_pop p; fifo_shrink fuel p
            | _ => fifo_shrink fuel (mkPipe (fp_min_len p) (fp_max_len p) (u32 (fp_length p - 1)) (fp_n_element p) (removelast (fp_cells p)))
            end
        end
    | _ => Some p
    end
  else Some p.
Definition set_min_length (new_min_len : Z) p : option (fifo_pipeline T) :=
  let resized := mkPipe new_min_len (fp_max_len p) (fp_length p) (fp_n_element p) (fp_cells p) in
  if new_min_len =? fp_min_len p then Some p
  else if fp_min_len p <? new_min_len then fifo_grow (Z.to_nat new_min_len) resized
  else assert! negb (fifo_empty p); fifo_shrink (length (fp_cells p)) resized.

(** ** The queue it is *)
Definition fifo_data p : list T := omap id (fp_cells p).
Record fifo_ok p : Prop := {
  fo_length : fp_length p = Z.of_nat (length (fp_cells p));
  fo_min : 0 <= fp_min_len p <= fp_length p;
  fo_max : fp_length p <= fp_max_len p < 2 ^ 32;
  fo_some : 0 < fp_max_len p }.

Lemma data_app (l k : list (option T)) : omap id (l ++ k) = omap id l ++ omap id k.
Proof. apply omap_app. Qed.
Lemma removelast_snoc (l : list (option T)) x : last l = Some x -> l = removelast l ++ [x].
Proof.
  destruct l as [|y k] using rev_ind; [done|]. rewrite last_snoc. intros [= ->]. by rewrite List.removelast_last.
Qed.
Lemma removelast_length (l : list (option T)) x : last l = Some x -> length l = S (length (removelast l)).
Proof. intros Hl. rewrite (removelast_snoc l x Hl) at 1. rewrite length_app. cbn. lia. Qed.

Lemma fifo_append_ok data p :
  fifo_ok p -> fp_length p < fp_max_len p ->
  fifo_ok (fifo_append data p) /\ fifo_data (fifo_append data p) = fifo_data p ++ omap id [data] /\
  fp_length (fifo_append data p) = fp_length p + 1.
Proof.
  intros [Hl Hm Hx Hs] Hlt. unfold fifo_append, fifo_data. cbn [fp_length fp_cells]. rewrite u32_small by lia.
  split_and!; [|apply data_app|done]. split; cbn [fp_length fp_cells fp_min_len fp_max_len]; rewrite ?length_app; cbn; lia.
Qed.
Lemma fifo_push_ok data p :
  fifo_ok p -> fp_length p < fp_max_len p ->
  exists p', fifo_push data p = Some p' /\ fifo_ok p' /\ fifo_data p' = fifo_data p ++ omap id [data] /\
    fp_min_len p' = fp_min_len p /\ fp_max_len p' = fp_max_len p /\ fp_length p <= fp_length p' <= fp_length p + 1 /\
    (fp_length p < fp_min_len p -> fp_length p' = fp_length p + 1) /\ (data <> None -> last (fp_cells p') = Some data).
Proof.
  intros Hp Hlt. unfold fifo_push. rewrite (proj2 (Z.ltb_lt _ _) Hlt).
  destruct (fifo_append_ok data p Hp Hlt) as (Ha & Hd & Hl).
  assert (Happ : exists p', Some (fifo_append data p) = Some p' /\ fifo_ok p' /\ fifo_data p' = fifo_data p ++ omap id [data] /\
    fp_min_len p' = fp_min_len p /\ fp_max_len p' = fp_max_len p /\ fp_length p <= fp_length p' <= fp_length p + 1 /\
    (fp_length p < fp_min_len p -> fp_length p' = fp_length p + 1) /\ (data <> None -> last (fp_cells p') = Some data)).
  { exists (fifo_append data p). split_and!; try done; try lia. intros _. cbn. apply last_snoc. }
  destruct (last (fp_cells p)) as [tail|] eqn:Hlast; [|exact Happ].
  destruct (bool_decide (is_Some tail) || (fp_length p <? fp_min_len p)) eqn:Hb; [exact Happ|].
  apply orb_false_iff in Hb as [Ht%bool_decide_eq_false Hmin%Z.ltb_ge]. eexists. split; [done|].
  destruct tail as [x|]; [by destruct Ht; eexists|]. destruct Hp as [H1 H2 H3 H4].
  pose proof (removelast_length _ _ Hlast). unfold fifo_data. cbn [fp_length fp_cells fp_min_len fp_max_len].
  split_and!; try done; try lia.
  - split; cbn [fp_length fp_cells fp_min_len fp_max_len]; rewrite ?length_app; cbn; lia.
  - rewrite (removelast_snoc _ _ Hlast) at 2. rewrite !data_app. cbn. by rewrite app_nil_r.
  - intros _. apply last_snoc.
Qed.

Lemma fifo_pop_ok p :
  fifo_ok p ->
  exists data p', fifo_pop p = Some (data, p') /\ fifo_ok p' /\ fifo_data p = omap id [data] ++ fifo_data p' /\
    fp_min_len p' = fp_min_len p /\ fp_max_len p' = fp_max_len p /\ fp_length p' <= fp_length p /\
    (fp_min_len p < fp_length p -> fp_length p' < fp_length p).
Proof.
  intros [H1 H2 H3 H4]. unfold fifo_pop. destruct (fp_cells p) as [|data cells] eqn:Hc.
  { exists None, p. unfold fifo_data. rewrite Hc. cbn in H1. split_and!; try done; [by split; rewrite ?Hc|lia]. }
  cbn [length] in H1. cbn [fp_length fp_min_len]. rewrite (u32_small (fp_length p - 1)) by lia.
  assert (Hz : negb (fp_length p - 1 =? 0) || fifo_empty (mkPipe (fp_min_len p) (fp_max_len p) (fp_length p - 1) (u32 (fp_n_element p - 1)) cells) = true).
  { unfold fifo_empty. cbn [fp_cells]. destruct cells; [by rewrite orb_true_r|]. cbn [length] in H1. rewrite (proj2 (Z.eqb_neq _ _)) by lia. done. }
  rewrite Hz.
  assert (Hdata : fifo_data p = omap id [data] ++ omap id cells) by (unfold fifo_data; rewrite Hc; by destruct data).
  destruct (negb (fp_min_len p =? 0) && (fp_length p - 1 <? fp_min_len p)) eqn:Hb.
  - apply andb_true_iff in Hb as [Hm%negb_true_iff%Z.eqb_neq Hlt%Z.ltb_lt].
    set (q := mkPipe (fp_min_len p) (fp_max_len p) (fp_length p - 1) (u32 (fp_n_element p - 1)) cells).
    assert (Hq : fp_min_len q = fp_length q + 1) by (cbn; lia).
    unfold fifo_push. change (fp_length q) with (fp_length p - 1). change (fp_max_len q) with (fp_max_len p).
    rewrite (proj2 (Z.ltb_lt _ _)) by lia.
    assert (Hpush : (match last (fp_cells q) with
      | Some tail => if bool_decide (is_Some tail) || (fp_length p - 1 <? fp_min_len q) then Some (fifo_append None q)
                     else Some (mkPipe (fp_min_len q) (fp_max_len p) (fp_length p - 1) (fp_n_element q) (removelast (fp_cells q) ++ [None]))
      | None => Some (fifo_append None q) end) = Some (fifo_append None q)).
    { destruct (last (fp_cells q)); [|done]. change (fp_min_len q) with (fp_min_len p). rewrite (proj2 (Z.ltb_lt _ _) Hlt). by rewrite orb_true_r. }
    rewrite Hpush. cbn [mbind option_bind]. eexists _, _. split; [done|]. unfold uncount, fifo_append, fifo_data. cbn [fp_length fp_cells fp_min_len fp_max_len q].
    rewrite u32_small by lia. split_and!; try done; try lia.
    + split; cbn [fp_length fp_cells fp_min_len fp_max_len]; rewrite ?length_app; cbn; lia.
    + rewrite data_app. cbn. rewrite app_nil_r. done.
  - eexists _, _. split; [done|]. unfold fifo_data. cbn [fp_length fp_cells fp_min_len fp_max_len]. split_and!; try done; try lia.
    apply andb_false_iff in Hb. split; cbn [fp_length fp_cells fp_min_len fp_max_len]; try lia.
Qed.

Definition resized (n : Z) p : fifo_pipeline T := mkPipe n (fp_max_len p) (fp_length p) (fp_n_element p) (fp_cells p).

Lemma fifo_grow_ok fuel p n :
  fifo_ok p -> 0 <= n < fp_max_len p -> n <= fp_length p + Z.of_nat fuel ->
  exists p', fifo_grow fuel (resized n p) = Some p' /\ fifo_ok p' /\ fifo_data p' = fifo_data p /\
    fp_min_len p' = n /\ fp_max_len p' = fp_max_len p /\ fp_length p' = Z.max (fp_length p) n.
Proof.
  revert p. induction fuel as [|fuel IH]; intros p Hp Hn Hf; cbn [fifo_grow resized fp_length fp_min_len].
  - rewrite (proj2 (Z.ltb_ge _ _)) by lia. eexists. split; [done|]. destruct Hp. cbn. split_and!; try done; [split; cbn; lia|lia].
  - destruct (fp_length p <? n) eqn:Hlt.
    + apply Z.ltb_lt in Hlt. destruct Hp as [H1 H2 H3 H4].
      assert (Hpush : fifo_push None (resized n p) = Some (fifo_append None (resized n p))).
      { unfold fifo_push. cbn [resized fp_length fp_max_len fp_min_len fp_cells]. rewrite (proj2 (Z.ltb_lt _ _)) by lia.
        destruct (last (fp_cells p)); [|done]. rewrite (proj2 (Z.ltb_lt (fp_length p) n)) by lia. by rewrite orb_true_r. }
      rewrite Hpush. cbn [mbind option_bind].
      destruct (fifo_append_ok None p) as (Ha & Hd & Hl); [by split|lia|].
      assert (Hu : fifo_ok (uncount (fifo_append None p))) by (destruct Ha as [? ? ? ?]; by split).
      destruct (IH (uncount (fifo_append None p)) Hu) as (p' & Hp' & ? & Hd' & ? & ? & Hl'); [cbn; lia|cbn [uncount fp_length]; lia|].
      exists p'. change (uncount (fifo_append None (resized n p))) with (resized n (uncount (fifo_append None p))).
      split_and!; try done.
      * rewrite Hd'. change (fifo_data (uncount (fifo_append None p))) with (fifo_data (fifo_append None p)). rewrite Hd. cbn. by rewrite app_nil_r.
      * rewrite Hl'. change (fp_length (uncount (fifo_append None p))) with (fp_length (fifo_append None p)). lia.
    + apply Z.ltb_ge in Hlt. eexists. split; [done|]. destruct Hp. cbn. split_and!; try done; [split; cbn; lia|lia].
Qed.

Lemma fifo_shrink_ok fuel p :
  fifo_ok p -> (length (fp_cells p) <= fuel)%nat ->
  exists p', fifo_shrink fuel p = Some p' /\ fifo_ok p' /\ fifo_data p' = fifo_data p /\
    fp_min_len p' = fp_min_len p /\ fp_max_len p' = fp_max_len p /\ fp_length p' <= fp_length p.
Proof.
  revert p. induction fuel as [|fuel IH]; intros p Hp Hf.
  { exists p. destruct Hp as [H1 H2 H3 H4]. cbn [fifo_shrink]. rewrite (proj2 (Z.ltb_ge _ _)) by lia. split_and!; try done; lia. }
  cbn [fifo_shrink]. destruct (fp_min_len p <? fp_length p) eqn:Hlt; [|exists p; split_and!; done || lia].
  apply Z.ltb_lt in Hlt. destruct (last (fp_cells p)) as [[x|]|] eqn:Hlast; try (exists p; split_and!; done || lia).
  pose proof (removelast_length _ _ Hlast) as Hlen. pose proof (removelast_snoc _ _ Hlast) as Hcells.
  destruct Hp as [H1 H2 H3 H4].
  assert (Hdrop : forall q, fp_length q = fp_length p - 1 -> fp_cells q = removelast (fp_cells p) -> fp_min_len q = fp_min_len p ->
    fp_max_len q = fp_max_len p -> fifo_ok q /\ fifo_data q = fifo_data p /\ (length (fp_cells q) <= fuel)%nat).
  { intros q Hql Hqc Hqm Hqx. split_and!; [split; rewrite ?Hql, ?Hqc, ?Hqm, ?Hqx; lia| |rewrite Hqc; lia].
    unfold fifo_data. rewrite Hqc. rewrite Hcells at 2. rewrite data_app. cbn. by rewrite app_nil_r. }
  destruct (fp_cells p) as [|c [|c' cells]] eqn:Hc; [done| |].
  - assert (Hq : fifo_pop p = Some (c, mkPipe (fp_min_len p) (fp_max_len p) (fp_length p - 1) (u32 (fp_n_element p - 1)) [])).
    { unfold fifo_pop. rewrite Hc. cbn [length] in H1. cbn [fp_length fp_min_len fifo_empty fp_cells]. rewrite u32_small by lia.
      rewrite orb_true_r. assert (fp_min_len p = 0) as -> by lia. done. }
    rewrite Hq. cbn [mbind option_bind]. destruct (Hdrop (mkPipe (fp_min_len p) (fp_max_len p) (fp_length p - 1) (u32 (fp_n_element p - 1)) [])) as (Ho & Hd & Hl); [done..|].
    destruct (IH _ Ho Hl) as (p' & -> & ? & Hd' & ? & ? & Hl'). exists p'. cbn in Hl'. split_and!; try done; [by rewrite Hd'|lia].
  - rewrite u32_small by (cbn [length] in H1; lia).
    destruct (Hdrop (mkPipe (fp_min_len p) (fp_max_len p) (fp_length p - 1) (fp_n_element p) (removelast (c :: c' :: cells)))) as (Ho & Hd & Hl); [done..|].
    destruct (IH _ Ho Hl) as (p' & -> & ? & Hd' & ? & ? & Hl'). exists p'. cbn [fp_length] in Hl'. split_and!; try done; [by rewrite Hd'|lia].
Qed.

Lemma set_min_length_ok n p :
  fifo_ok p -> 0 <= n < fp_max_len p ->
  exists p', set_min_length n p = Some p' /\ fifo_ok p' /\ fifo_data p' = fifo_data p /\
    fp_min_len p' = n /\ fp_max_len p' = fp_max_len p /\ fp_length p' <= Z.max (fp_length p) n.
Proof.
  intros Hp Hn. unfold set_min_length. fold (resized n p). destruct (Z.eqb_spec n (fp_min_len p)) as [->|Hne].
  { exists p. split_and!; try done. lia. }
  destruct (Z.ltb_spec (fp_min_len p) n) as [Hlt|Hge].
  - destruct (fifo_grow_ok (Z.to_nat n) p n Hp Hn) as (p' & -> & ? & ? & ? & ? & Hl); [destruct Hp; lia|].
    exists p'. split_and!; try done. lia.
  - destruct Hp as [H1 H2 H3 H4]. unfold fifo_empty. destruct (fp_cells p) as [|c cells] eqn:Hc; [cbn in H1; lia|]. cbn [negb].
    destruct (fifo_shrink_ok (length (c :: cells)) (resized n p)) as (p' & -> & ? & Hd & ? & ? & Hl).
    + split; cbn [resized fp_length fp_cells fp_min_len fp_max_len]; rewrite ?Hc; lia.
    + cbn [resized fp_cells]. by rewrite Hc.
    + exists p'. split_and!; try done. cbn in Hl. lia.
Qed.

Lemma fifo_pad_ok (k : nat) p :
  fp_length p = Z.of_nat (length (fp_cells p)) -> fp_length p + Z.of_nat k = fp_min_len p -> fp_min_len p <= fp_max_len p < 2 ^ 32 ->
  0 < fp_max_len p ->
  exists p', fifo_pad k p = Some p' /\ fifo_ok p' /\ fifo_data p' = fifo_data p /\
    fp_min_len p' = fp_min_len p /\ fp_max_len p' = fp_max_len p /\ fp_length p' = fp_min_len p.
Proof.
  revert p. induction k as [|k IH]; intros p H1 H2 H3 H4; cbn [fifo_pad].
  - exists p. split_and!; try done; [split; lia|lia].
  - assert (Hpush : fifo_push None p = Some (fifo_append None p)).
    { unfold fifo_push. rewrite (proj2 (Z.ltb_lt (fp_length p) (fp_max_len p))) by lia. destruct (last (fp_cells p)); [|done].
      rewrite (proj2 (Z.ltb_lt (fp_length p) (fp_min_len p))) by lia. by rewrite orb_true_r. }
    rewrite Hpush. cbn [mbind option_bind].
    assert (Hl : fp_length (fifo_append None p) = fp_length p + 1) by (cbn; apply u32_small; lia).
    destruct (IH (fifo_append None p)) as (p' & -> & ? & Hd & ? & ? & ?); [| |done..|].
    + rewrite Hl. cbn. rewrite length_app. cbn. lia.
    + rewrite Hl. cbn [fifo_append fp_min_len]. lia.
    + exists p'. split_and!; try done. rewrite Hd. unfold fifo_data. cbn. rewrite data_app. cbn. by rewrite app_nil_r.
Qed.
Lemma fifo_new_ok minlen maxlen :
  0 <= minlen <= maxlen -> 0 < maxlen < 2 ^ 32 ->
  exists p, fifo_pipeline_new minlen maxlen = Some p /\ fifo_ok p /\ fifo_data p = [] /\ fp_min_len p = minlen /\
    fp_max_len p = maxlen /\ fp_length p = minlen.
Proof.
  intros Hm Hx. unfold fifo_pipeline_new. rewrite (proj2 (Z.eqb_neq _ _)) by lia. cbn [negb].
  apply (fifo_pad_ok (Z.to_nat minlen) (mkPipe minlen maxlen 0 0 [])); cbn; lia.
Qed.
End fifo.
