(* ===== verification/AddrDec.v ===== *)
(** Where in the DRAM an address is: [linear_to_raw_address_translation] of [gpgpu-sim/addrdec.cc]
    and [addrdec.h]. A chip, and a bank, a row, a column and a burst in it. *)
From Stdlib Require Import Ascii String.
From S2P Require Import Prelude.

(** ** Packing bits *)
Inductive addrdec_field := CHIP | BK | ROW | COL | BURST.
#[global] Instance addrdec_field_eq_dec : EqDecision addrdec_field.
Proof. solve_decision. Defined.
Definition fields := addrdec_field -> Z.
Definition set_field (f : addrdec_field) (v : Z) (m : fields) : fields := fun x => if decide (x = f) then v else m x.
Definition bit (i : Z) : Z := u64 (Z.shiftl 1 i).

Fixpoint packbits_loop (mask val : Z) (n : nat) (i pos result : Z) : Z :=
  match n with
  | O => result
  | S n =>
      if negb (Z.land mask (bit i) =? 0)
      then packbits_loop mask val n (i + 1) (pos + 1) (Z.lor result (u64 (Z.shiftl (Z.shiftr (Z.land val (bit i)) i) pos)))
      else packbits_loop mask val n (i + 1) pos result
  end.
Definition addrdec_packbits (mask val high low : Z) : Z := packbits_loop mask val (Z.to_nat (high - low)) low 0 0.

(** The lowest bit of a mask, and one more than the highest. *)
Fixpoint masklimit_loop (mask : Z) (n : nat) (i high low : Z) (low_found : bool) : Z * Z :=
  match n with
  | O => (high, low)
  | S n =>
      if negb (Z.land mask (bit i) =? 0)
      then masklimit_loop mask n (i + 1) (i + 1) (if low_found then low else i) true
      else masklimit_loop mask n (i + 1) high low low_found
  end.
Definition addrdec_getmasklimit (mask : Z) : Z * Z := masklimit_loop mask 64 0 64 0 false.

Fixpoint powli_loop (x : Z) (y : nat) (r : Z) : Z := match y with O => r | S y => powli_loop x y (s64 (r * x)) end.
Definition powli (x y : Z) : Z := powli_loop x (Z.to_nat y) 1.
Definition addr_LOGB2_step (m k v r : Z) : Z * Z :=
  let shift := Z.shiftl (Z.b2z (negb (Z.land v m =? 0))) k in (Z.shiftr v shift, Z.lor r shift).
Definition LOGB2_32 (v : Z) : Z :=
  let '(v, r) := addr_LOGB2_step 0xFFFF0000 4 v 0 in
  let '(v, r) := addr_LOGB2_step 0xFF00 3 v r in
  let '(v, r) := addr_LOGB2_step 0xF0 2 v r in
  let '(v, r) := addr_LOGB2_step 0xC 1 v r in
  (addr_LOGB2_step 0x2 0 v r).2.

(** ** The translation *)
Record linear_to_raw_address_translation := mkAddrDec {
  ADDR_CHIP_S : Z; addrdec_mklow : fields; addrdec_mkhigh : fields; addrdec_mask : fields; gap : Z; Nchips : Z }.
Record addrdec_t := mkTlx { tlx_chip : Z; tlx_bk : Z; tlx_row : Z; tlx_col : Z; tlx_burst : Z }.
Implicit Types (t : linear_to_raw_address_translation) (addr : Z) (m : fields).

Definition default_masks : fields := fun f =>
  match f with CHIP => 0x1C00 | BK => 0x300 | ROW => 0xFFF0000 | COL => 0xE0FF | BURST => 0xF end.

(** The options [gpgpu_mem_address_mask] knows: the position of the chip, and the masks of bank, row, column. *)
Definition preset (k : Z) : option (Z * (Z * Z * Z)) :=
  let old := (0x300, 0x7FFE000, 0x1CFF) in
  let new := (0x1800, 0x7FFE000, 0x7FF) in
  let low := (0x3, 0x7FFE000, 0x1FFC) in
  match k with
  | 0 => Some (10, old) | 1 => Some (13, new) | 2 => Some (11, new) | 3 => Some (11, (0x1800, 0xFFFE000, 0x7FF))
  | 14 => Some (14, new) | 15 => Some (15, new) | 16 => Some (16, new) | 6 => Some (6, new) | 5 => Some (5, new)
  | 100 => Some (1, low) | 103 => Some (3, low) | 106 => Some (6, new) | 160 => Some (6, old)
  | _ => None
  end.
Definition apply_preset (k : Z) (s : Z) m : Z * fields :=
  match preset k with
  | Some (s, (bk, row, col)) => (s, set_field COL col (set_field ROW row (set_field BK bk (set_field CHIP 0 m))))
  | None => (s, m)
  end.

(** [sscanf] of a decimal number. *)
Definition is_digit (c : ascii) : bool := (48 <=? Z.of_nat (nat_of_ascii c)) && (Z.of_nat (nat_of_ascii c) <=? 57).
Fixpoint read_digits (l : list ascii) (n : Z) : Z :=
  match l with c :: l => if is_digit c then read_digits l (n * 10 + (Z.of_nat (nat_of_ascii c) - 48)) else n | [] => n end.
Definition is_space (c : ascii) : bool :=
  bool_decide (c = " "%char) || ((9 <=? Z.of_nat (nat_of_ascii c)) && (Z.of_nat (nat_of_ascii c) <=? 13)).
Fixpoint skip_space (l : list ascii) : list ascii :=
  match l with c :: l' => if is_space c then skip_space l' else l | [] => [] end.
Definition read_unsigned (l : list ascii) : option Z :=
  match l with c :: _ => if is_digit c then Some (read_digits l 0) else None | [] => None end.
Definition scan_int (l : list ascii) : option Z :=
  match skip_space l with
  | "-"%char :: l => n ← read_unsigned l; Some (u32 (- n))
  | "+"%char :: l => n ← read_unsigned l; Some (u32 n)
  | l => n ← read_unsigned l; Some (u32 n)
  end.
Definition dramid : list ascii := list_ascii_of_string "dramid@".
Definition scan_dramid (l : list ascii) : option Z :=
  if bool_decide (take 7 l = dramid) then scan_int (drop 7 l) else None.
Fixpoint after_semicolon (l : list ascii) : option (list ascii) :=
  match l with [] => None | c :: l => if bool_decide (c = ";"%char) then Some l else after_semicolon l end.

(** One character of the mapping; a shift by a negative amount is undefined. *)
Definition mark (f : addrdec_field) (ofs : Z) m : option fields :=
  assert! 0 <=? ofs; Some (set_field f (Z.lor (m f) (bit ofs)) m).
Definition map_char (explicit : bool) (c : ascii) (ofs : Z) m : option (Z * fields) :=
  if bool_decide (c = "D"%char \/ c = "d"%char) then assert! explicit; m ← mark CHIP ofs m; Some (ofs - 1, m)
  else if bool_decide (c = "B"%char \/ c = "b"%char) then m ← mark BK ofs m; Some (ofs - 1, m)
  else if bool_decide (c = "R"%char \/ c = "r"%char) then m ← mark ROW ofs m; Some (ofs - 1, m)
  else if bool_decide (c = "C"%char \/ c = "c"%char) then m ← mark COL ofs m; Some (ofs - 1, m)
  else if bool_decide (c = "S"%char \/ c = "s"%char) then m ← mark BURST ofs m; m ← mark COL ofs m; Some (ofs - 1, m)
  else if bool_decide (c = "0"%char) then Some (ofs - 1, m)
  else Some (ofs, m).
Fixpoint map_chars (explicit : bool) (l : list ascii) (ofs : Z) m : option (Z * fields) :=
  match l with [] => Some (ofs, m) | c :: l => '(ofs, m) ← map_char explicit c ofs m; map_chars explicit l ofs m end.
Definition addrdec_parseoption (opt : list ascii) : option (Z * fields) :=
  let parsed := scan_dramid opt in
  let cmapping := default opt (after_semicolon opt) in
  '(ofs, m) ← map_chars (bool_decide (parsed = None)) cmapping 63 (fun _ => 0);
  assert! ofs =? -1;
  Some (match parsed with Some start => s32 start | None => -1 end, m).

(** The bits of the chip come in at [ADDR_CHIP_S]. *)
Definition insert_bits (s k mask : Z) : Z :=
  let low := u64 (bit s - 1) in
  Z.lor (u64 (Z.shiftl (Z.land mask (not64 low)) k)) (Z.land mask low).
Fixpoint chip_bits (n : nat) (i mask : Z) : Z :=
  match n with O => mask | S n => chip_bits n (i + 1) (Z.lor mask (bit i)) end.
Definition insert_chip (s k : Z) m : fields :=
  let m := set_field BK (insert_bits s k (m BK)) m in
  let m := set_field ROW (insert_bits s k (m ROW)) m in
  let m := set_field COL (insert_bits s k (m COL)) m in
  set_field CHIP (chip_bits (Z.to_nat k) s (m CHIP)) m.

(** The masks and the position of the chip that the options choose. *)
Definition choose_masks (mem_address_mask : Z) (opt : option (list ascii)) : option (Z * fields) :=
  match opt with
  | Some o => addrdec_parseoption o
  | None => Some (apply_preset mem_address_mask 10 default_masks)
  end.
Definition addrdec_init (mem_address_mask : Z) (opt : option (list ascii)) (nchips : Z) : option linear_to_raw_address_translation :=
  let nchipbits := LOGB2_32 nchips in
  let gap := u32 (nchips - powli 2 nchipbits) in
  let nchipbits := if gap =? 0 then nchipbits else nchipbits + 1 in
  '(s, m) ← choose_masks mem_address_mask opt;
  m ← (if negb (s =? -1) then Some (if gap =? 0 then insert_chip s nchipbits m else m)
       else assert! Z.land nchips (u32 (nchips - 1)) =? 0; Some m);
  Some (mkAddrDec s (fun f => (addrdec_getmasklimit (m f)).2) (fun f => (addrdec_getmasklimit (m f)).1) m gap (s32 nchips)).

Definition pack t (f : addrdec_field) addr : Z :=
  u32 (addrdec_packbits (addrdec_mask t f) addr (addrdec_mkhigh t f) (addrdec_mklow t f)).
(** [addr] without the number of the chip, when it is not a power of two. *)
Definition rest_of_addr t addr : Z :=
  let rest := u64 (Z.shiftl (Z.quot (Z.shiftr addr (ADDR_CHIP_S t)) (u64 (Nchips t))) (ADDR_CHIP_S t)) in
  Z.lor rest (Z.land addr (u64 (s32 (Z.shiftl 1 (ADDR_CHIP_S t)) - 1))).
Definition addrdec_tlx t addr : addrdec_t :=
  if gap t =? 0 then mkTlx (pack t CHIP addr) (pack t BK addr) (pack t ROW addr) (pack t COL addr) (pack t BURST addr)
  else
    let addr_for_chip := Z.rem (Z.shiftr addr (ADDR_CHIP_S t)) (u64 (Nchips t)) in
    let rest := rest_of_addr t addr in
    mkTlx (u32 addr_for_chip) (pack t BK rest) (pack t ROW rest) (pack t COL rest) (pack t BURST rest).
Definition partition_address t addr : Z :=
  if gap t =? 0 then addrdec_packbits (not64 (addrdec_mask t CHIP)) addr 64 0 else rest_of_addr t addr.
