(* ===== verification/AddrDecSafe.v ===== *)
(** The translation of [AddrDec] is one to one: bits that are packed can be read back, the masks of
    every option cover the address, and so an address is known by its chip, bank, row and column. *)
From Stdlib Require Import Ascii String.
From S2P Require Import Prelude AddrDec.

(** ** Packed bits *)
Lemma bit_pow i : 0 <= i < 64 -> bit i = 2 ^ i.
Proof.
  intros Hi. unfold bit. rewrite Z.shiftl_mul_pow2, Z.mul_1_l by lia. apply u64_small.
  split; [apply Z.pow_nonneg; lia|apply Z.pow_lt_mono_r; lia].
Qed.
Lemma land_bit m i : 0 <= i < 64 -> Z.land m (bit i) = Z.b2z (Z.testbit m i) * 2 ^ i.
Proof.
  intros Hi. rewrite bit_pow by done. apply Z.bits_inj'. intros j Hj. rewrite Z.land_spec, Z.pow2_bits_eqb by lia.
  destruct (Z.eqb_spec i j) as [<-|Hne].
  - rewrite andb_true_r. destruct (Z.testbit m i); cbn [Z.b2z]; [by rewrite Z.mul_1_l, Z.pow2_bits_true by lia|by rewrite Z.mul_0_l, Z.bits_0].
  - rewrite andb_false_r. symmetry. destruct (Z.testbit m i); cbn [Z.b2z]; [rewrite Z.mul_1_l; apply Z.pow2_bits_false; lia|by rewrite Z.mul_0_l, Z.bits_0].
Qed.
Lemma has_bit m i : 0 <= i < 64 -> negb (Z.land m (bit i) =? 0) = Z.testbit m i.
Proof.
  intros Hi. rewrite land_bit by done. pose proof (Z.pow_pos_nonneg 2 i ltac:(lia) ltac:(lia)).
  destruct (Z.testbit m i); cbn [Z.b2z]; [rewrite Z.mul_1_l; rewrite (proj2 (Z.eqb_neq _ _)) by lia; done|done].
Qed.
Lemma bit_value m i : 0 <= i < 64 -> Z.shiftr (Z.land m (bit i)) i = Z.b2z (Z.testbit m i).
Proof. intros Hi. rewrite land_bit, Z.shiftr_div_pow2 by lia. apply Z.div_mul. apply Z.pow_nonzero; lia. Qed.

(** The bits of [val] in the mask, from bit [i] on, as a number. *)
Fixpoint packed (mask val : Z) (n : nat) (i : Z) : Z :=
  match n with
  | O => 0
  | S n => if Z.testbit mask i then Z.b2z (Z.testbit val i) + 2 * packed mask val n (i + 1) else packed mask val n (i + 1)
  end.
Fixpoint popcount (mask : Z) (n : nat) (i : Z) : nat :=
  match n with O => O | S n => ((if Z.testbit mask i then 1 else 0) + popcount mask n (i + 1))%nat end.

Lemma packed_bound mask val n i : 0 <= packed mask val n i < 2 ^ Z.of_nat (popcount mask n i).
Proof.
  revert i. induction n as [|n IH]; intros i; cbn [packed popcount]; [done|]. specialize (IH (i + 1)).
  destruct (Z.testbit mask i); [|done]. rewrite Nat2Z.inj_add, Z.pow_add_r by lia. change (2 ^ Z.of_nat 1) with 2.
  destruct (Z.testbit val i); cbn [Z.b2z]; lia.
Qed.
Lemma popcount_le mask n i : (popcount mask n i <= n)%nat.
Proof. revert i. induction n as [|n IH]; intros i; cbn [popcount]; [done|]. specialize (IH (i + 1)). destruct (Z.testbit mask i); lia. Qed.
Lemma packed_bits mask a b n i :
  packed mask a n i = packed mask b n i ->
  forall j, i <= j < i + Z.of_nat n -> Z.testbit mask j = true -> Z.testbit a j = Z.testbit b j.
Proof.
  revert i. induction n as [|n IH]; intros i Heq j Hj Hm; [lia|]. cbn [packed] in Heq.
  destruct (decide (j = i)) as [->|Hne].
  - rewrite Hm in Heq. destruct (Z.testbit a i), (Z.testbit b i); cbn [Z.b2z] in Heq; done || lia.
  - apply (IH (i + 1)); [|lia|done]. destruct (Z.testbit mask i); [|done]. destruct (Z.testbit a i), (Z.testbit b i); cbn [Z.b2z] in Heq; lia.
Qed.
Lemma packed_ext mask a b n i :
  (forall j, i <= j < i + Z.of_nat n -> Z.testbit mask j = true -> Z.testbit a j = Z.testbit b j) -> packed mask a n i = packed mask b n i.
Proof.
  revert i. induction n as [|n IH]; intros i Heq; [done|]. cbn [packed].
  rewrite (IH (i + 1)) by (intros j Hj; apply Heq; lia). destruct (Z.testbit mask i) eqn:Hm; [|done]. by rewrite (Heq i) by (done || lia).
Qed.

Lemma packbits_loop_ok mask val n i pos result :
  0 <= pos <= i -> i + Z.of_nat n <= 64 -> 0 <= result < 2 ^ pos ->
  packbits_loop mask val n i pos result = result + packed mask val n i * 2 ^ pos.
Proof.
  revert i pos result. induction n as [|n IH]; intros i pos result Hp Hn Hr; cbn [packbits_loop packed]; [lia|].
  rewrite has_bit by lia. destruct (Z.testbit mask i); [|by rewrite IH by lia].
  rewrite bit_value by lia. set (v := Z.b2z (Z.testbit val i)). assert (Hv : 0 <= v <= 1) by (unfold v; destruct (Z.testbit val i); cbn; lia).
  pose proof (Z.pow_pos_nonneg 2 pos ltac:(lia) ltac:(lia)) as Hpos.
  rewrite Z.shiftl_mul_pow2 by lia. rewrite u64_small.
  2:{ split; [lia|]. assert (2 ^ pos <= 2 ^ 63) by (apply Z.pow_le_mono_r; lia). change (2 ^ 64) with (2 * 2 ^ 63). nia. }
  rewrite Z.lor_comm, lor_disjoint_add by lia. rewrite IH; [|lia|lia|rewrite Z.pow_add_r by lia; nia].
  rewrite Z.pow_add_r by lia. lia.
Qed.
Lemma packbits_ok mask val high low :
  0 <= low <= high -> high <= 64 -> addrdec_packbits mask val high low = packed mask val (Z.to_nat (high - low)) low.
Proof.
  intros H Hh. unfold addrdec_packbits. rewrite packbits_loop_ok by lia. rewrite Z.pow_0_r. lia.
Qed.

(** The limits of a mask hold its bits. *)
Lemma masklimit_ok (mask : Z) (n : nat) (i high low : Z) (found : bool) :
  0 <= i -> i + Z.of_nat n = 64 ->
  (if found then 0 <= low < high /\ high <= i /\ (forall j, 0 <= j < i -> Z.testbit mask j = true -> low <= j < high)
   else high = 64 /\ low = 0 /\ forall j, 0 <= j < i -> Z.testbit mask j = false) ->
  let r := masklimit_loop mask n i high low found in
  0 <= r.2 <= r.1 /\ r.1 <= 64 /\ forall j, 0 <= j < 64 -> Z.testbit mask j = true -> r.2 <= j < r.1.
Proof.
  revert i high low found. induction n as [|n IH]; intros i high low found Hi Hn Hinv; cbn [masklimit_loop].
  - assert (i = 64) as -> by lia. cbn [fst snd]. destruct found.
    + destruct Hinv as (? & ? & Hj). split_and!; [lia..|exact Hj].
    + destruct Hinv as (-> & -> & Hj). split_and!; [lia..|]. intros j ? Hb. by rewrite Hj in Hb.
  - rewrite has_bit by lia. destruct (Z.testbit mask i) eqn:Hb.
    + apply IH; [lia|lia|]. destruct found.
      * destruct Hinv as (? & ? & Hj). split_and!; [lia..|]. intros j ? Hbj. destruct (decide (j = i)) as [->|]; [lia|]. specialize (Hj j ltac:(lia) Hbj). lia.
      * destruct Hinv as (-> & -> & Hj). split_and!; [lia..|]. intros j ? Hbj. destruct (decide (j = i)) as [->|]; [lia|]. rewrite Hj in Hbj by lia. done.
    + apply IH; [lia|lia|]. destruct found.
      * destruct Hinv as (? & ? & Hj). split_and!; [lia..|]. intros j ? Hbj. destruct (decide (j = i)) as [->|]; [congruence|]. apply Hj; [lia|done].
      * destruct Hinv as (-> & -> & Hj). split_and!; [done..|]. intros j ?. destruct (decide (j = i)) as [->|]; [done|]. apply Hj. lia.
Qed.
Lemma getmasklimit_ok mask :
  let r := addrdec_getmasklimit mask in
  0 <= r.2 <= r.1 /\ r.1 <= 64 /\ forall j, 0 <= j < 64 -> Z.testbit mask j = true -> r.2 <= j < r.1.
Proof. apply masklimit_ok; [done|done|]. split_and!; [done..|]. intros j Hj. lia. Qed.

(** ** Logarithms *)
Lemma addr_log_step h k v r :
  0 <= k -> h = 2 ^ k -> 0 < v < 2 ^ (2 * h) -> 0 <= r -> r `mod` (2 * h) = 0 ->
  let p := addr_LOGB2_step (Z.shiftl (Z.ones h) h) k v r in
  0 < p.1 < 2 ^ h /\ p.2 + Z.log2 p.1 = r + Z.log2 v /\ 0 <= p.2 /\ p.2 `mod` h = 0.
Proof.
  intros Hk Hh Hv Hr Hmod. assert (Hh0 : 0 < h) by (subst; apply Z.pow_pos_nonneg; lia).
  replace (2 * h) with (h + h) in Hv, Hmod by lia. rewrite Z.pow_add_r in Hv by lia.
  pose proof (Z.pow_pos_nonneg 2 h ltac:(lia) ltac:(lia)) as Hp.
  assert (Hland : Z.land v (Z.shiftl (Z.ones h) h) = v / 2 ^ h * 2 ^ h).
  { rewrite <-Z.shiftr_div_pow2, <-Z.shiftl_mul_pow2 by lia. apply Z.bits_inj'. intros i Hi. rewrite Z.land_spec, !Z.shiftl_spec by lia.
    destruct (decide (i < h)); [rewrite !(Z.testbit_neg_r _ (i - h)) by lia; apply andb_false_r|].
    rewrite Z.shiftr_spec, Z.sub_add by lia. destruct (decide (i < h + h)); [rewrite Z.ones_spec_low by lia; apply andb_true_r|].
    rewrite Z.ones_spec_high by lia. rewrite andb_false_r. symmetry. apply (testbit_small v (h + h)); [rewrite Z.pow_add_r by lia; lia|lia]. }
  assert (Hrh : r `mod` h = 0).
  { replace (h + h) with (h * 2) in Hmod by lia. rewrite Z.rem_mul_r in Hmod by lia. pose proof (Z.mod_pos_bound r h Hh0). pose proof (Z.mod_pos_bound (r / h) 2 ltac:(lia)). nia. }
  unfold addr_LOGB2_step. cbn [fst snd]. rewrite Hland.
  destruct (decide (v < 2 ^ h)) as [Hlt|Hge].
  - rewrite Z.div_small by lia. cbn. rewrite Z.shiftl_0_l, Z.shiftr_0_r, Z.lor_0_r. split_and!; [lia..|done].
  - assert (Hd : 0 < v / 2 ^ h) by (apply Z.div_str_pos; lia). rewrite (proj2 (Z.eqb_neq _ _)) by nia. cbn [negb Z.b2z].
    rewrite Z.shiftl_mul_pow2, Z.mul_1_l, <-Hh, Z.shiftr_div_pow2 by lia.
    assert (Hor : Z.lor r h = r + h).
    { apply Z.div_exact in Hmod; [|lia]. rewrite Hmod.
      replace ((h + h) * (r / (h + h))) with (r / (h + h) * 2 ^ (k + 1)) by (rewrite Z.pow_add_r by lia; lia).
      apply lor_disjoint_add; [lia|]. rewrite Z.pow_add_r by lia. lia. }
    rewrite Hor. split_and!; [done|apply Z.div_lt_upper_bound; lia| |lia|].
    + rewrite <-Z.shiftr_div_pow2, Z.log2_shiftr by lia. rewrite Z.max_r; [lia|]. pose proof (Z.log2_le_mono (2 ^ h) v ltac:(lia)) as Hl. rewrite Z.log2_pow2 in Hl by lia. lia.
    + rewrite <-Z.add_mod_idemp_l, Hrh, Z.add_0_l by lia. apply Z.mod_same. lia.
Qed.
Lemma LOGB2_32_log2 v : 0 < v < 2 ^ 32 -> LOGB2_32 v = Z.log2 v.
Proof.
  intros Hv. unfold LOGB2_32.
  destruct (addr_log_step 16 4 v 0) as (H1 & E1 & P1 & M1); [done..|].
  change (Z.shiftl (Z.ones 16) 16) with 0xFFFF0000 in *. destruct (addr_LOGB2_step 0xFFFF0000 4 v 0) as [v1 r1]. cbn [fst snd] in *.
  destruct (addr_log_step 8 3 v1 r1) as (H2 & E2 & P2 & M2); [done..|].
  change (Z.shiftl (Z.ones 8) 8) with 0xFF00 in *. destruct (addr_LOGB2_step 0xFF00 3 v1 r1) as [v2 r2]. cbn [fst snd] in *.
  destruct (addr_log_step 4 2 v2 r2) as (H3 & E3 & P3 & M3); [done..|].
  change (Z.shiftl (Z.ones 4) 4) with 0xF0 in *. destruct (addr_LOGB2_step 0xF0 2 v2 r2) as [v3 r3]. cbn [fst snd] in *.
  destruct (addr_log_step 2 1 v3 r3) as (H4 & E4 & P4 & M4); [done..|].
  change (Z.shiftl (Z.ones 2) 2) with 0xC in *. destruct (addr_LOGB2_step 0xC 1 v3 r3) as [v4 r4]. cbn [fst snd] in *.
  destruct (addr_log_step 1 0 v4 r4) as (H5 & E5 & P5 & M5); [done..|].
  change (Z.shiftl (Z.ones 1) 1) with 0x2 in *. destruct (addr_LOGB2_step 0x2 0 v4 r4) as [v5 r5]. cbn [fst snd] in *.
  assert (v5 = 1) as -> by lia. change (Z.log2 1) with 0 in E5. lia.
Qed.
Lemma powli_2 n : 0 <= n < 63 -> powli 2 n = 2 ^ n.
Proof.
  intros Hn. unfold powli.
  assert (Hloop : forall y r, 0 < r -> r * 2 ^ Z.of_nat y < 2 ^ 63 -> powli_loop 2 y r = r * 2 ^ Z.of_nat y).
  { induction y as [|y IH]; intros r Hr Hb; cbn [powli_loop]; [lia|]. rewrite Nat2Z.inj_succ, Z.pow_succ_r in * by lia.
    pose proof (Z.pow_pos_nonneg 2 (Z.of_nat y) ltac:(lia) ltac:(lia)). rewrite s64_small by nia. rewrite IH by nia. nia. }
  rewrite Hloop, Z2Nat.id by (rewrite ?Z2Nat.id by lia; lia || (rewrite Z.mul_1_l; apply Z.pow_lt_mono_r; lia)). lia.
Qed.

(** ** Inserting the chip *)
Lemma testbit_bit i j : 0 <= i < 64 -> 0 <= j -> Z.testbit (bit i) j = bool_decide (j = i).
Proof. intros Hi Hj. rewrite bit_pow, Z.pow2_bits_eqb by lia. destruct (Z.eqb_spec i j); [rewrite bool_decide_eq_true_2 by lia|rewrite bool_decide_eq_false_2 by lia]; done. Qed.
Lemma testbit_low s j : 0 <= s < 64 -> 0 <= j -> Z.testbit (u64 (bit s - 1)) j = bool_decide (j < s).
Proof.
  intros Hs Hj. rewrite bit_pow by lia. assert (1 <= 2 ^ s < 2 ^ 64) by (split; [pose proof (Z.pow_pos_nonneg 2 s); lia|apply Z.pow_lt_mono_r; lia]).
  rewrite u64_small by lia. rewrite Z.sub_1_r, <-Z.ones_equiv. destruct (decide (j < s)).
  - rewrite Z.ones_spec_low by lia. by rewrite bool_decide_eq_true_2.
  - rewrite Z.ones_spec_high by lia. by rewrite bool_decide_eq_false_2.
Qed.
Lemma testbit_insert s k m j :
  0 <= s < 64 -> 0 <= k -> 0 <= j < 64 ->
  Z.testbit (insert_bits s k m) j = if decide (j < s) then Z.testbit m j else bool_decide (s + k <= j) && Z.testbit m (j - k).
Proof.
  intros Hs Hk Hj. unfold insert_bits. cbv zeta. rewrite Z.lor_spec, testbit_u64, Z.shiftl_spec, Z.land_spec by lia.
  rewrite (bool_decide_eq_true_2 (j < 64)) by lia. rewrite andb_true_l.
  destruct (decide (0 <= j - k)) as [Hjk|Hjk].
  - rewrite Z.land_spec. unfold not64. rewrite Z.lxor_spec, testbit_ones64, !testbit_low by lia. rewrite (bool_decide_eq_true_2 (j - k < 64)) by lia. rewrite xorb_true_r.
    destruct (decide (j < s)).
    + rewrite (bool_decide_eq_true_2 (j < s)), (bool_decide_eq_true_2 (j - k < s)) by lia. cbn [negb]. by rewrite andb_false_r, andb_true_r.
    + rewrite (bool_decide_eq_false_2 (j < s)) by lia. rewrite andb_false_r, orb_false_r. rewrite andb_comm. f_equal.
      destruct (decide (s + k <= j)); [rewrite (bool_decide_eq_false_2 (j - k < s)), bool_decide_eq_true_2 by lia|rewrite (bool_decide_eq_true_2 (j - k < s)), bool_decide_eq_false_2 by lia]; done.
  - rewrite (Z.testbit_neg_r m (j - k)) by lia. rewrite andb_false_l, orb_false_l, andb_false_r, Z.land_spec, testbit_low by lia.
    destruct (decide (j < s)); [rewrite bool_decide_eq_true_2 by lia; apply andb_true_r|rewrite bool_decide_eq_false_2 by lia; apply andb_false_r].
Qed.
Lemma testbit_chip n i m j :
  0 <= i -> i + Z.of_nat n <= 64 -> 0 <= j -> Z.testbit (chip_bits n i m) j = Z.testbit m j || bool_decide (i <= j < i + Z.of_nat n).
Proof.
  revert i m. induction n as [|n IH]; intros i m Hi Hn Hj; cbn [chip_bits].
  - rewrite bool_decide_eq_false_2 by lia. by rewrite orb_false_r.
  - rewrite IH, Z.lor_spec, testbit_bit by lia. rewrite <-orb_assoc. f_equal.
    destruct (decide (j = i)); [rewrite (bool_decide_eq_true_2 (j = i)) by done; symmetry; apply bool_decide_eq_true_2; lia|]. rewrite (bool_decide_eq_false_2 (j = i)) by done. cbn.
    apply bool_decide_ext. lia.
Qed.

(** ** Decoding *)
Definition field_bits (m : fields) (f : addrdec_field) : nat := popcount (m f) 64 0.
Definition in_some (m : fields) (l : list addrdec_field) (i : Z) : bool := existsb (fun f => Z.testbit (m f) i) l.
Definition chip_field (t : linear_to_raw_address_translation) : list addrdec_field := if gap t =? 0 then [CHIP] else [].
(** The fields cover the lowest [w] bits and no others, each is a number of 32 bits, and the bits of
    the chip count the chips; without a gap the chip is one of the fields. *)
Definition decodes (t : linear_to_raw_address_translation) (w : nat) : Prop :=
  (forall j, 0 <= j < Z.of_nat w -> in_some (addrdec_mask t) (chip_field t ++ [BK; ROW; COL]) j = true) /\
  (forall j f, Z.of_nat w <= j < 64 -> f ∈ chip_field t ++ [BK; ROW; COL; BURST] -> Z.testbit (addrdec_mask t f) j = false) /\
  (forall f, (field_bits (addrdec_mask t) f <= 32)%nat) /\ (w <= 64)%nat /\
  (if gap t =? 0 then 2 ^ Z.of_nat (field_bits (addrdec_mask t) CHIP) <= Nchips t
   else 0 <= ADDR_CHIP_S t < 31 /\ ADDR_CHIP_S t <= Z.of_nat w /\ 0 < Nchips t).
(** The size of the memory: the number of addresses that are told apart. *)
Definition reach (t : linear_to_raw_address_translation) (w : nat) : Z := if gap t =? 0 then 2 ^ Z.of_nat w else Nchips t * 2 ^ Z.of_nat w.
Definition limits_ok (t : linear_to_raw_address_translation) : Prop :=
  forall f, addrdec_mklow t f = (addrdec_getmasklimit (addrdec_mask t f)).2 /\ addrdec_mkhigh t f = (addrdec_getmasklimit (addrdec_mask t f)).1.
Lemma popcount_split mask n k i : popcount mask (n + k) i = (popcount mask n i + popcount mask k (i + Z.of_nat n))%nat.
Proof.
  revert i. induction n as [|n IH]; intros i; cbn [popcount Nat.add]; [f_equal; lia|]. rewrite IH.
  replace (i + 1 + Z.of_nat n) with (i + Z.of_nat (S n)) by lia. lia.
Qed.
Lemma pack_ok t f addr :
  limits_ok t -> (field_bits (addrdec_mask t) f <= 32)%nat ->
  let lim := addrdec_getmasklimit (addrdec_mask t f) in
  pack t f addr = packed (addrdec_mask t f) addr (Z.to_nat (lim.1 - lim.2)) lim.2 /\
  0 <= pack t f addr < 2 ^ Z.of_nat (field_bits (addrdec_mask t) f).
Proof.
  intros Hl Hb lim. destruct (Hl f) as [Hlow Hhigh]. destruct (getmasklimit_ok (addrdec_mask t f)) as (H1 & H2 & _). fold lim in Hlow, Hhigh, H1, H2.
  unfold pack. rewrite Hlow, Hhigh, packbits_ok by done. set (n := Z.to_nat (lim.1 - lim.2)).
  pose proof (packed_bound (addrdec_mask t f) addr n lim.2) as Hp.
  assert (Hc : (popcount (addrdec_mask t f) n lim.2 <= field_bits (addrdec_mask t) f)%nat).
  { unfold field_bits. replace 64%nat with (Z.to_nat lim.2 + (n + Z.to_nat (64 - lim.1)))%nat by lia.
    rewrite !popcount_split, Z.add_0_l, Z2Nat.id by lia. lia. }
  assert (Hle : 2 ^ Z.of_nat (popcount (addrdec_mask t f) n lim.2) <= 2 ^ Z.of_nat (field_bits (addrdec_mask t) f)) by (apply Z.pow_le_mono_r; lia).
  assert (H32 : 2 ^ Z.of_nat (field_bits (addrdec_mask t) f) <= 2 ^ 32) by (apply Z.pow_le_mono_r; lia).
  rewrite u32_small by lia. split; [done|lia].
Qed.
Lemma pack_bits t f a b :
  limits_ok t -> (field_bits (addrdec_mask t) f <= 32)%nat -> pack t f a = pack t f b ->
  forall j, 0 <= j < 64 -> Z.testbit (addrdec_mask t f) j = true -> Z.testbit a j = Z.testbit b j.
Proof.
  intros Hl Hb Heq j Hj Hm. destruct (pack_ok t f a Hl Hb) as [Ha _]. destruct (pack_ok t f b Hl Hb) as [Hb' _].
  rewrite Ha, Hb' in Heq. destruct (getmasklimit_ok (addrdec_mask t f)) as (H1 & H2 & H3). specialize (H3 j Hj Hm).
  apply (packed_bits _ _ _ _ _ Heq); [lia|done].
Qed.

Lemma pack_ext t f a b :
  limits_ok t -> (field_bits (addrdec_mask t) f <= 32)%nat ->
  (forall j, 0 <= j < 64 -> Z.testbit (addrdec_mask t f) j = true -> Z.testbit a j = Z.testbit b j) -> pack t f a = pack t f b.
Proof.
  intros Hl Hb Heq. destruct (pack_ok t f a Hl Hb) as [-> _]. destruct (pack_ok t f b Hl Hb) as [-> _].
  destruct (getmasklimit_ok (addrdec_mask t f)) as (H1 & H2 & H3). apply packed_ext. intros j Hj. apply Heq. lia.
Qed.

(** The lowest [w] bits of a number. *)
Lemma mod_bits a b w : 0 <= w -> a `mod` 2 ^ w = b `mod` 2 ^ w <-> forall j, 0 <= j < w -> Z.testbit a j = Z.testbit b j.
Proof.
  intros Hw. split.
  - intros Heq j Hj. by rewrite <- (Z.mod_pow2_bits_low a w j), Heq, Z.mod_pow2_bits_low by lia.
  - intros Heq. apply Z.bits_inj'. intros j Hj. destruct (decide (j < w)).
    + rewrite !Z.mod_pow2_bits_low by lia. by apply Heq.
    + by rewrite !Z.mod_pow2_bits_high by lia.
Qed.
(** Taking the number of the chip out of an address. *)
Lemma split_mod p n m a :
  0 < p -> 0 < n -> 0 < m -> a `mod` (n * (p * m)) = a `mod` p + p * ((a / p) `mod` n + n * ((a / p / n) `mod` m)).
Proof. intros Hp Hn Hm. replace (n * (p * m)) with (p * (n * m)) by lia. by rewrite (Z.rem_mul_r a), (Z.rem_mul_r (a / p)) by nia. Qed.
Lemma rest_mod p n m a :
  0 < p -> 0 < n -> 0 < m -> (a / p / n * p + a `mod` p) `mod` (p * m) = a `mod` p + p * ((a / p / n) `mod` m).
Proof.
  intros Hp Hn Hm. pose proof (Z.mod_pos_bound a p Hp). set (x := a / p / n). rewrite (Z.rem_mul_r _ p m) by lia.
  replace ((x * p + a `mod` p) `mod` p) with (a `mod` p) by (rewrite Z.add_comm, Z_mod_plus_full; symmetry; apply Z.mod_mod; lia).
  replace ((x * p + a `mod` p) / p) with x; [done|]. rewrite Z.add_comm, Z.div_add, (Z.div_small (a `mod` p)) by lia. done.
Qed.
Lemma split_same p n m a b :
  0 < p -> 0 < n -> 0 < m ->
  a `mod` (n * (p * m)) = b `mod` (n * (p * m)) <->
  (a / p) `mod` n = (b / p) `mod` n /\ (a / p / n * p + a `mod` p) `mod` (p * m) = (b / p / n * p + b `mod` p) `mod` (p * m).
Proof.
  intros Hp Hn Hm. rewrite !split_mod, !rest_mod by done.
  pose proof (Z.mod_pos_bound a p Hp). pose proof (Z.mod_pos_bound b p Hp).
  pose proof (Z.mod_pos_bound (a / p) n Hn). pose proof (Z.mod_pos_bound (b / p) n Hn). split.
  - intros Heq. destruct (Z.div_mod_unique p ((a / p) `mod` n + n * ((a / p / n) `mod` m)) ((b / p) `mod` n + n * ((b / p / n) `mod` m)) (a `mod` p) (b `mod` p)) as [Hq ->]; [lia..|].
    destruct (Z.div_mod_unique n ((a / p / n) `mod` m) ((b / p / n) `mod` m) ((a / p) `mod` n) ((b / p) `mod` n)) as [-> ->]; [lia..|]. done.
  - intros [-> Heq]. destruct (Z.div_mod_unique p ((a / p / n) `mod` m) ((b / p / n) `mod` m) (a `mod` p) (b `mod` p)) as [-> ->]; [lia..|]. done.
Qed.

Section decode.
Variables (t : linear_to_raw_address_translation) (w : nat).
Hypothesis (Hlim : limits_ok t) (Hdec : decodes t w) (Hn : Nchips t < 2 ^ 31).
Implicit Types a b : Z.

(** The split of an address by the number of chips. *)
Lemma rest_ok a :
  (gap t =? 0) = false -> 0 <= a < 2 ^ 64 ->
  let s := ADDR_CHIP_S t in
  rest_of_addr t a = a / 2 ^ s / Nchips t * 2 ^ s + a `mod` 2 ^ s /\
  u32 (Z.rem (Z.shiftr a s) (u64 (Nchips t))) = (a / 2 ^ s) `mod` Nchips t.
Proof using Hdec Hn.
  intros Hg Ha s. destruct Hdec as (_ & _ & _ & Hw & Hs). rewrite Hg in Hs. destruct Hs as (Hs & Hsw & HN). fold s in Hs, Hsw.
  set (N := Nchips t) in *.
  assert (Hp : 0 < 2 ^ s) by (apply Z.pow_pos_nonneg; lia).
  assert (Hq0 : 0 <= a / 2 ^ s) by (apply Z.div_pos; lia).
  assert (Hq : 0 <= a / 2 ^ s / N) by (apply Z.div_pos; lia).
  assert (Hmod : 0 <= a `mod` 2 ^ s < 2 ^ s) by (apply Z.mod_pos_bound; lia).
  assert (Hle : a / 2 ^ s / N * 2 ^ s + a `mod` 2 ^ s <= a).
  { pose proof (Z.div_mod a (2 ^ s) ltac:(lia)). assert (a / 2 ^ s / N <= a / 2 ^ s) by (apply Z.div_le_upper_bound; [lia|nia]). nia. }
  unfold rest_of_addr. fold s N. rewrite (u64_small N) by lia. rewrite Z.shiftr_div_pow2, Z.shiftl_mul_pow2 by lia.
  rewrite Z.quot_div_nonneg, Z.rem_mod_nonneg by (try apply Z.div_pos; lia).
  rewrite (Z.shiftl_mul_pow2 _ s), Z.mul_1_l by lia. rewrite (s32_small (2 ^ s)).
  2:{ split; [lia|]. apply Z.pow_lt_mono_r; lia. }
  rewrite (u64_small (2 ^ s - 1)) by (split; [lia|]; assert (2 ^ s < 2 ^ 64) by (apply Z.pow_lt_mono_r; lia); lia).
  rewrite (u64_small (_ * _)) by lia. rewrite (Z.sub_1_r (2 ^ s)), <-Z.ones_equiv, Z.land_ones by lia.
  rewrite lor_disjoint_add by lia. split; [done|]. pose proof (Z.mod_pos_bound (a / 2 ^ s) N HN). apply u32_small. lia.
Qed.

(** The fields of two addresses are the same exactly when their lowest [w] bits are. *)
Lemma fields_same a b :
  (forall f, f ∈ chip_field t ++ [BK; ROW; COL; BURST] -> pack t f a = pack t f b) <-> a `mod` 2 ^ Z.of_nat w = b `mod` 2 ^ Z.of_nat w.
Proof using Hdec Hlim.
  destruct Hdec as (Hcov & Hup & H32 & Hw & _). rewrite mod_bits by lia. split.
  - intros Hp j Hj. specialize (Hcov j Hj). apply existsb_exists in Hcov as (f & Hf%list_elem_of_In & Hm).
    apply (pack_bits t f a b Hlim (H32 f)); [|lia|done]. apply Hp. apply elem_of_app in Hf as [Hf|Hf]; apply elem_of_app; [by left|right].
    change [BK; ROW; COL; BURST] with ([BK; ROW; COL] ++ [BURST]). apply elem_of_app. by left.
  - intros Heq f Hf. apply (pack_ext t f a b Hlim (H32 f)). intros j Hj Hm. apply Heq. split; [lia|]. destruct (decide (j < Z.of_nat w)); [done|].
    rewrite (Hup j f) in Hm; [done|lia|done].
Qed.

Lemma decode_chip a : 0 <= a < 2 ^ 64 -> 0 <= tlx_chip (addrdec_tlx t a) < Nchips t.
Proof using All.
  intros Ha. destruct Hdec as (_ & _ & H32 & _ & Hs). unfold addrdec_tlx. destruct (gap t =? 0) eqn:Hg; cbn [tlx_chip].
  - destruct (pack_ok t CHIP a Hlim (H32 CHIP)) as [_ Hc]. lia.
  - destruct (rest_ok a Hg Ha) as [_ ->]. apply Z.mod_pos_bound. lia.
Qed.
Lemma decode_same a b :
  0 <= a < 2 ^ 64 -> 0 <= b < 2 ^ 64 -> addrdec_tlx t a = addrdec_tlx t b <-> a `mod` reach t w = b `mod` reach t w.
Proof using All.
  intros Ha Hb. pose proof (fields_same a b) as Hab. unfold addrdec_tlx, reach, chip_field in *. destruct (gap t =? 0) eqn:Hg.
  - rewrite <- Hab. split.
    + intros [= E1 E2 E3 E4 E5] f Hf. repeat (apply elem_of_cons in Hf as [->|Hf]; [done|]). by apply elem_of_nil in Hf.
    + intros Hf. by rewrite !Hf by (cbn; set_solver).
  - clear Hab. destruct (rest_ok a Hg Ha) as [Ea Ca]. destruct (rest_ok b Hg Hb) as [Eb Cb].
    pose proof (fields_same (rest_of_addr t a) (rest_of_addr t b)) as Hab. unfold chip_field in Hab. rewrite Hg in Hab. cbn [app] in Hab.
    destruct Hdec as (_ & _ & _ & _ & Hs). rewrite Hg in Hs. destruct Hs as (Hs & Hsw & HN).
    assert (Hpw : 2 ^ Z.of_nat w = 2 ^ ADDR_CHIP_S t * 2 ^ (Z.of_nat w - ADDR_CHIP_S t)) by (rewrite <- Z.pow_add_r by lia; f_equal; lia).
    assert (Hp : 0 < 2 ^ ADDR_CHIP_S t) by (apply Z.pow_pos_nonneg; lia).
    assert (Hm : 0 < 2 ^ (Z.of_nat w - ADDR_CHIP_S t)) by (apply Z.pow_pos_nonneg; lia).
    rewrite Hpw, split_same, <- Ea, <- Eb, <- Hpw, <- Hab, <- Ca, <- Cb by done. split.
    + intros [= E1 E2 E3 E4 E5]. split; [done|]. intros f Hf. repeat (apply elem_of_cons in Hf as [->|Hf]; [done|]). by apply elem_of_nil in Hf.
    + intros [E1 Hf]. rewrite E1. by rewrite !Hf by set_solver.
Qed.
Lemma partition_injective a b :
  0 <= a < 2 ^ 64 -> 0 <= b < 2 ^ 64 -> tlx_chip (addrdec_tlx t a) = tlx_chip (addrdec_tlx t b) ->
  partition_address t a = partition_address t b -> a = b.
Proof using All.
  intros Ha Hb Hc Hp. destruct Hdec as (_ & _ & H32 & _ & Hs). unfold addrdec_tlx, partition_address in *. destruct (gap t =? 0) eqn:Hg; cbn [tlx_chip] in Hc.
  - rewrite !packbits_ok in Hp by lia. rewrite <- (Z.mod_small a (2 ^ 64)), <- (Z.mod_small b (2 ^ 64)) by done. apply mod_bits; [done|].
    intros j Hj. destruct (Z.testbit (addrdec_mask t CHIP) j) eqn:Hm.
    + by apply (pack_bits t CHIP a b Hlim (H32 CHIP)).
    + apply (packed_bits _ _ _ _ _ Hp); [lia|]. unfold not64. rewrite Z.lxor_spec, testbit_ones64, Hm by lia. by rewrite bool_decide_eq_true_2 by lia.
  - destruct (rest_ok a Hg Ha) as [Ea Ca]. destruct (rest_ok b Hg Hb) as [Eb Cb]. rewrite Ca, Cb in Hc. rewrite Ea, Eb in Hp. clear Ea Eb Ca Cb.
    set (s := ADDR_CHIP_S t) in *. set (N := Nchips t) in *. assert (Hps : 0 < 2 ^ s) by (apply Z.pow_pos_nonneg; lia).
    pose proof (Z.mod_pos_bound a (2 ^ s) Hps). pose proof (Z.mod_pos_bound b (2 ^ s) Hps).
    destruct (Z.div_mod_unique (2 ^ s) (a / 2 ^ s / N) (b / 2 ^ s / N) (a `mod` 2 ^ s) (b `mod` 2 ^ s)) as [Hq Hm]; [lia..|].
    rewrite (Z.div_mod a (2 ^ s)), (Z.div_mod b (2 ^ s)) by lia. rewrite Hm. do 2 f_equal.
    rewrite (Z.div_mod (a / 2 ^ s) N), (Z.div_mod (b / 2 ^ s) N) by lia. by rewrite Hq, Hc.
Qed.
End decode.

(** ** The options *)
(** Every option of the mask, and the mappings of the configurations of the repository, with the
    number of bits of an address in a chip. *)
Definition mapping (s : string) : option (list ascii) := Some (list_ascii_of_string s).
Definition address_options : list (Z * option (list ascii) * nat) :=
  [(0, None, 27%nat); (1, None, 27%nat); (2, None, 27%nat); (3, None, 28%nat); (14, None, 27%nat); (15, None, 27%nat); (16, None, 27%nat); (6, None, 27%nat);
   (5, None, 27%nat); (100, None, 27%nat); (103, None, 27%nat); (106, None, 27%nat); (160, None, 27%nat);
   (0, mapping "dramid@8;00000000.00000000.00000000.00000000.0000RRRR.RRRRRRRR.BBBBCCCC.CCSSSSSS", 28%nat);
   (0, mapping "dramid@8;00000000.00000000.00000000.00000000.0000RRRR.RRRRRRRR.RRBBBCCC.CCCSSSSS", 28%nat)].
Definition with_masks (s : Z) (m : fields) (gap nchips : Z) : linear_to_raw_address_translation :=
  mkAddrDec s (fun f => (addrdec_getmasklimit (m f)).2) (fun f => (addrdec_getmasklimit (m f)).1) m gap nchips.
(** The masks of an option before the chip comes in: bank, row and column cover the [w] lowest bits. *)
Definition plain_masks (s : Z) (m : fields) (w : nat) : bool :=
  (0 <=? s) && (s <=? Z.of_nat w) && (s <? 31) && Nat.leb w 28 && (m CHIP =? 0) &&
  (Z.lor (m BK) (Z.lor (m ROW) (m COL)) =? Z.ones (Z.of_nat w)) &&
  forallb (fun f => Z.land (m f) (Z.ones (Z.of_nat w)) =? m f) [BK; ROW; COL; BURST].
Definition option_plain (o : Z * option (list ascii) * nat) : bool :=
  match choose_masks o.1.1 o.1.2 with Some (s, m) => plain_masks s m o.2 | None => false end.
Lemma options_plain : forallb option_plain address_options = true.
Proof. vm_compute. reflexivity. Qed.

Lemma popcount_none m n i : (forall j, i <= j < i + Z.of_nat n -> Z.testbit m j = false) -> popcount m n i = 0%nat.
Proof.
  revert i. induction n as [|n IH]; intros i Hm; [done|]. cbn [popcount]. rewrite Hm by lia. apply IH. intros j Hj. apply Hm. lia.
Qed.
(** A mask of 64 bits has no more bits than a window of them that holds it. *)
Lemma popcount_window m lo n :
  0 <= lo -> lo + Z.of_nat n <= 64 -> (forall j, 0 <= j < 64 -> ~ lo <= j < lo + Z.of_nat n -> Z.testbit m j = false) ->
  (popcount m 64 0 <= n)%nat.
Proof.
  intros Hlo Hn Hm. replace 64%nat with (Z.to_nat lo + (n + Z.to_nat (64 - lo - Z.of_nat n)))%nat by lia.
  rewrite !popcount_split, Z.add_0_l, Z2Nat.id by lia.
  rewrite (popcount_none m (Z.to_nat lo)) by (intros j Hj; apply Hm; lia).
  rewrite (popcount_none m (Z.to_nat _) (lo + _)) by (intros j Hj; apply Hm; lia). pose proof (popcount_le m n lo). lia.
Qed.

Section plain.
Variables (s : Z) (m : fields) (w : nat).
Hypothesis Hplain : plain_masks s m w = true.

Lemma plain_facts :
  0 <= s <= Z.of_nat w /\ s < 31 /\ (w <= 28)%nat /\
  (forall j, 0 <= j < Z.of_nat w -> in_some m [BK; ROW; COL] j = true) /\
  (forall f j, Z.of_nat w <= j -> Z.testbit (m f) j = false) /\ (forall j, Z.testbit (m CHIP) j = false).
Proof using Hplain.
  unfold plain_masks in Hplain. apply andb_true_iff in Hplain as [[[[[[H1 H2]%andb_true_iff H3]%andb_true_iff H4]%andb_true_iff H5]%andb_true_iff H6]%andb_true_iff H7].
  apply Z.eqb_eq in H5, H6. rewrite forallb_forall in H7.
  assert (Hchip : forall j, Z.testbit (m CHIP) j = false) by (intros j; rewrite H5; apply Z.bits_0).
  split_and!; [lia|lia|lia|by apply Nat.leb_le| | |done].
  - intros j Hj. pose proof (Z.ones_spec_low (Z.of_nat w) j ltac:(lia)) as Hb. rewrite <- H6, !Z.lor_spec in Hb.
    unfold in_some. cbn [existsb]. by rewrite orb_false_r.
  - intros f j Hj. assert (Hf : f = CHIP \/ Z.land (m f) (Z.ones (Z.of_nat w)) = m f).
    { destruct f; [by left|right; apply Z.eqb_eq, H7; cbn; tauto..]. }
    destruct Hf as [->|<-]; [done|]. rewrite Z.land_spec, Z.ones_spec_high by lia. apply andb_false_r.
Qed.
Lemma plain_decodes gap n : gap <> 0 -> 0 < n -> decodes (with_masks s m gap n) w.
Proof using Hplain.
  intros Hg Hn. destruct plain_facts as (Hs & Hs31 & Hw & Hcov & Hup & _).
  unfold decodes, chip_field. cbn [AddrDec.gap ADDR_CHIP_S Nchips addrdec_mask with_masks]. rewrite (proj2 (Z.eqb_neq gap 0) Hg).
  split_and!; try lia; [exact Hcov|intros j f Hj _; apply Hup; lia|]. intros f.
  transitivity w; [|lia]. apply (popcount_window _ 0); [lia..|]. intros j Hj Hout. apply Hup. lia.
Qed.

(** With [b] bits for the chip the fields above it move up. *)
Lemma inserted f b j :
  0 <= b <= 11 -> 0 <= j < 64 ->
  Z.testbit (insert_chip s b m f) j =
  match f with
  | CHIP => bool_decide (s <= j < s + b)
  | BURST => Z.testbit (m f) j
  | _ => if decide (j < s) then Z.testbit (m f) j else bool_decide (s + b <= j) && Z.testbit (m f) (j - b)
  end.
Proof using Hplain.
  intros Hb Hj. destruct plain_facts as (Hs & Hs31 & Hw & _ & _ & Hchip).
  assert (Hf : insert_chip s b m f = match f with CHIP => chip_bits (Z.to_nat b) s (m CHIP) | BURST => m BURST | _ => insert_bits s b (m f) end) by (by destruct f).
  rewrite Hf. destruct f; [|by apply testbit_insert; lia..|done]. rewrite testbit_chip, Hchip by lia. rewrite Z2Nat.id by lia. done.
Qed.
Lemma inserted_above f b j :
  0 <= b <= 11 -> Z.of_nat w + b <= j < 64 -> Z.testbit (insert_chip s b m f) j = false.
Proof using Hplain.
  intros Hb Hj. destruct plain_facts as (Hs & Hs31 & Hw & _ & Hup & _). rewrite inserted by lia.
  destruct f; [by rewrite bool_decide_eq_false_2 by lia| | | |by apply Hup; lia];
    rewrite decide_False, (Hup _ (j - b)) by lia; apply andb_false_r.
Qed.
Lemma inserted_count f b : 0 <= b <= 11 -> (field_bits (insert_chip s b m) f <= if decide (f = CHIP) then Z.to_nat b else 28)%nat.
Proof using Hplain.
  intros Hb. destruct plain_facts as (Hs & Hs31 & Hw & _ & Hup & _). unfold field_bits.
  destruct (decide (f = CHIP)) as [->|Hf].
  - apply (popcount_window _ s); [lia..|]. intros j Hj Hout. rewrite inserted by lia. apply bool_decide_eq_false_2. lia.
  - transitivity w; [|lia]. destruct (decide (f = BURST)) as [->|Hf'].
    { apply (popcount_window _ 0); [lia..|]. intros j Hj Hout. rewrite inserted by lia. apply Hup. lia. }
    replace 64%nat with (Z.to_nat s + (Z.to_nat b + ((w - Z.to_nat s) + (64 - w - Z.to_nat b))))%nat by lia.
    rewrite !popcount_split. rewrite !Z.add_0_l, !Z2Nat.id by lia.
    rewrite (popcount_none _ (Z.to_nat b)).
    2:{ intros j Hj. rewrite inserted by lia. destruct f; try done; rewrite decide_False, bool_decide_eq_false_2 by lia; done. }
    rewrite (popcount_none _ (64 - w - Z.to_nat b)) by (intros j Hj; apply inserted_above; lia).
    pose proof (popcount_le (insert_chip s b m f) (Z.to_nat s) 0). pose proof (popcount_le (insert_chip s b m f) (w - Z.to_nat s) (s + b)). lia.
Qed.
Lemma inserted_decodes b : 0 <= b <= 11 -> decodes (with_masks s (insert_chip s b m) 0 (2 ^ b)) (w + Z.to_nat b).
Proof using Hplain.
  intros Hb. destruct plain_facts as (Hs & Hs31 & Hw & Hcov & Hup & _).
  unfold decodes, chip_field. cbn [AddrDec.gap Nchips addrdec_mask with_masks]. change (0 =? 0) with true. cbn iota. cbn [app].
  split_and!; [| | |lia|].
  - intros j Hj. unfold in_some in *. cbn [existsb] in *. rewrite !inserted by lia.
    destruct (decide (j < s)); [rewrite (Hcov j) by lia; apply orb_true_r|].
    destruct (decide (s + b <= j)); [|by rewrite bool_decide_eq_true_2 by lia].
    rewrite (bool_decide_eq_true_2 (s + b <= j)), !andb_true_l, (Hcov (j - b)) by lia. apply orb_true_r.
  - intros j f Hj _. apply inserted_above; lia.
  - intros f. pose proof (inserted_count f b Hb). destruct (decide (f = CHIP)); lia.
  - pose proof (inserted_count CHIP b Hb) as Hc. rewrite decide_True in Hc by done. apply Z.pow_le_mono_r; lia.
Qed.
End plain.
Lemma with_masks_limits s m gap n : limits_ok (with_masks s m gap n).
Proof. by intros f. Qed.
(** C23: the translation of addresses is exact. For each option of the address mask and each mapping the
    configurations use, and each number of chips below 4096, power of two or not, it is set up without a
    failed assertion, and for all addresses of 64 bits: the chip exists; two addresses have the same
    chip, bank, row, column and burst exactly when they are the same modulo the size of the memory, so
    every window of that size is decoded one to one; and the chip and the address in the chip
    always tell two addresses apart. *)
Theorem address_decoding k opt w nchips :
  (k, opt, w) ∈ address_options -> 0 < nchips < 4096 ->
  exists t, addrdec_init k opt nchips = Some t /\
    forall a b, 0 <= a < 2 ^ 64 -> 0 <= b < 2 ^ 64 ->
      0 <= tlx_chip (addrdec_tlx t a) < nchips /\
      (addrdec_tlx t a = addrdec_tlx t b <-> a `mod` (nchips * 2 ^ Z.of_nat w) = b `mod` (nchips * 2 ^ Z.of_nat w)) /\
      (tlx_chip (addrdec_tlx t a) = tlx_chip (addrdec_tlx t b) -> partition_address t a = partition_address t b -> a = b).
Proof.
  intros Ho Hn. pose proof options_plain as Hall. rewrite forallb_forall in Hall. specialize (Hall _ (proj1 (list_elem_of_In _ _) Ho)).
  pose proof (Z.log2_spec nchips ltac:(lia)) as Hlog. pose proof (Z.log2_nonneg nchips) as Hlog0.
  assert (Hlt : Z.log2 nchips < 12) by (apply Z.log2_lt_pow2; lia).
  unfold option_plain in Hall. cbn [fst snd] in Hall. unfold addrdec_init. rewrite LOGB2_32_log2, powli_2 by lia.
  destruct (choose_masks k opt) as [[s m]|]; [|done]. cbn [mbind option_bind].
  destruct (plain_facts s m w Hall) as (Hs & _). rewrite (proj2 (Z.eqb_neq s (-1))) by lia. cbn [negb mbind option_bind].
  rewrite Z.pow_succ_r in Hlog by lia. rewrite (u32_small (nchips - _)) by lia. rewrite (s32_small nchips) by lia.
  destruct (Z.eqb_spec (nchips - 2 ^ Z.log2 nchips) 0) as [He|He].
  - set (b := Z.log2 nchips) in *. assert (Hnb : nchips = 2 ^ b) by lia. set (t := with_masks s (insert_chip s b m) 0 (2 ^ b)) in *.
    exists t. split; [unfold t, with_masks; do 2 f_equal; lia|]. intros x y Hx Hy.
    pose proof (inserted_decodes s m w Hall b ltac:(lia)) as Hd0.
    pose proof (with_masks_limits s (insert_chip s b m) 0 (2 ^ b)) as Hl. assert (HN : Nchips t < 2 ^ 31) by (cbn; lia).
    split; [|split].
    + pose proof (decode_chip t (w + Z.to_nat b) Hl Hd0 HN x Hx) as Hc. rewrite Hnb. exact Hc.
    + replace (nchips * 2 ^ Z.of_nat w) with (reach t (w + Z.to_nat b)); [exact (decode_same t (w + Z.to_nat b) Hl Hd0 HN x y Hx Hy)|].
      unfold reach. change (gap t =? 0) with true. cbn iota. rewrite Nat2Z.inj_add, (Z2Nat.id b Hlog0), Z.pow_add_r by lia. rewrite <- Hnb. lia.
    + exact (partition_injective t (w + Z.to_nat b) Hl Hd0 HN x y Hx Hy).
  - set (t := with_masks s m (nchips - 2 ^ Z.log2 nchips) nchips).
    assert (Hd : decodes t w) by (apply plain_decodes; [done|done|lia]).
    exists t. split; [done|]. intros x y Hx Hy.
    pose proof (with_masks_limits s m (nchips - 2 ^ Z.log2 nchips) nchips) as Hl. assert (HN : Nchips t < 2 ^ 31) by (cbn; lia).
    split; [|split].
    + exact (decode_chip t w Hl Hd HN x Hx).
    + replace (nchips * 2 ^ Z.of_nat w) with (reach t w); [exact (decode_same t w Hl Hd HN x y Hx Hy)|].
      unfold reach. cbn [gap t with_masks]. by rewrite (proj2 (Z.eqb_neq _ _) He).
    + exact (partition_injective t w Hl Hd HN x y Hx Hy).
Qed.
(** Addresses of the heap, which begins at 0x80000000. *)
Lemma address_decoding_witness :
  exists t, addrdec_init 0 (mapping "dramid@8;00000000.00000000.00000000.00000000.0000RRRR.RRRRRRRR.BBBBCCCC.CCSSSSSS") 6 = Some t /\
    tlx_chip (addrdec_tlx t 0x81234567) < 6 /\ addrdec_tlx t 0x81234567 <> addrdec_tlx t 0x81234667 /\
    addrdec_tlx t 0x81234567 = addrdec_tlx t (0x81234567 - 6 * 2 ^ 28).
Proof.
  destruct (address_decoding 0 (mapping "dramid@8;00000000.00000000.00000000.00000000.0000RRRR.RRRRRRRR.BBBBCCCC.CCSSSSSS") 28 6) as (t & Ht & Hab).
  - do 13 right. left.
  - lia.
  - exists t. split; [exact Ht|]. destruct (Hab 0x81234567 0x81234667) as (Hc & Hiff & _); [vm_compute; split; congruence..|].
    destruct (Hab 0x81234567 (0x81234567 - 6 * 2 ^ 28)) as (_ & Hsame & _); [vm_compute; split; congruence..|].
    split; [apply Hc|]. split; [|apply Hsame; vm_compute; reflexivity]. intros Heq. apply Hiff in Heq. vm_compute in Heq. discriminate Heq.
Defined.
